(* ===== verification/_CoqProject ===== *)
-Q . S2P
Prelude.v
Text.v
Errors.v
Slots.v
Float.v
Value.v
Json.v
JsonRoundtrip.v
Wire.v
Session.v
Token.v
Calendar.v
Supervisor.v
Flow.v
FlowGraph.v
FlowRun.v
Time.v
Document.v
Stats.v
Units.v
Scenes.v
Groups.v
Triggers.v
Manifest.v
Store.v
References.v
Media.v
Display.v
StoreDoc.v
StoreInv.v
StoreDocOps.v
StoreOk.v
StoreProps.v
Devices.v
Restart.v
Mutations.v
MutationsOk.v
AppRun.v
AppRunOk.v
SceneRun.v
Templates.v
Runs.v
RunsOk.v
Stability.v
Schedule.v
Timezone.v
Tlv.v
TlvOk.v
Onboarding.v
Im.v
Ccm.v
Message.v
Mrp.v
MrpOk.v
MrpBounds.v
Web.v
ArchiveIo.v
Inflate.v
InflateOk.v
Zip.v
ZipOk.v
Archive.v
SceneJobs.v
FlowJobs.v
Controller.v
Capability.v
Objects.v
WebUnits.v
WebApi.v
WebServe.v
WebOk.v
Cards.v
Mcp.v
McpOk.v
Pairing.v
PairingOk.v
CatalogJobs.v
McpJobs.v
AppPages.v
MatterApp.v
