(* ===== verification/Prelude.v ===== *)
(** * Stulp: a verification development

    Stulp is a home automation server.  One owner, the store ([crates/core]), holds the
    configuration as one JSON document and everything observed of devices; apps run in
    processes of their own and talk to the server over framed JSON ([crates/protocol]); the
    runtime ([crates/runtime]) is the server's side of an app and runs Flows and scenes; the
    controller ([crates/controller]) owns every request that has to wait for an app; the web
    server ([crates/web]) serves browsers and, over MCP, assistants.  The Matter app
    ([plugins/matter]) brings codecs, encryption and a transport of its own.  This library
    models them as they are written, and proves what each promises to the others.

    ** How the model reads

    Rust functions are Rocq functions with the same names.  [Result] is [Prelude.result]; the
    operations of the store are functions of a state monad ([Store.M]) over the record
    [Store.Store], so an error carries the state the code leaves behind.  An operation of an
    app, a run, a scene or a controller that may fail after it changed something returns the
    result and the changed value.  A [u64], [u32], [i64] is a [Z] with its checked, saturating
    or wrapping operation written out; [f64] and [f32] are IEEE 754 numbers ([Float], on the
    Standard Library's [spec_float]); a [String] is a [string] of bytes, with UTF-8 where the
    code looks at characters ([Text]).  A [Vec] is a list, a JSON object an association list
    in its order ([Value.Object]); the table of calls in flight is refined to a [gmap].

    ** Files and the code they model

    The store:
    - [Text], [Errors], [Float], [Value], [Json]: strings, the error enums of
      [core/src/lib.rs] and [vendor/types/src/error.rs], numbers, [vendor/types/src/json.rs]
      with [core/src/json.rs], and the bounded parser [core/src/json_bounded.rs] with the
      writer.  [JsonRoundtrip]: what is written is read back, what is read is well formed.
    - [Slots]: the two-slot storage [core/src/slots.rs] over an abstract backend.
    - [Time]: RFC 3339 times of [vendor/types/src/time.rs].
    - [Document]: [core/src/document.rs].  [Stats]: [core/src/stats.rs].  [Units], [Display]:
      [core/src/units.rs], [capability.rs], [display.rs].  [Manifest]: [core/src/manifest.rs].
    - [Flow]: validation and execution of Flows, [core/src/flow.rs]; [FlowGraph] and [FlowRun]
      relate them to the graph of the Flow.
    - [Scenes], [Groups], [Triggers], [Store], [References], [Media]: [core/src/store.rs] and
      [core/src/store/*.rs].  [StoreDoc], [StoreInv], [StoreDocOps], [StoreOk]: what every
      operation does to the document and the invariant [StoreOk.store_ok].  [StoreProps],
      [Devices], [Restart]: the promises of the store; [Restart] composes store, document,
      JSON and slots.

    Apps, Flows and scenes:
    - [Wire], [Session], [Token]: [protocol/src/lib.rs], [session.rs], [token.rs], and the read
      loop of [host/src/apps.rs].
    - [Calendar], [Supervisor]: [runtime/src/calendar.rs], [supervisor.rs].
    - [Mutations], [AppRun]: [runtime/src/mutations.rs], [groups.rs], [lib.rs];
      [MutationsOk] and [AppRunOk] hold their invariants and promises.
    - [SceneRun]: [runtime/src/scenes.rs].
    - [Templates], [Runs], [RunsOk]: [runtime/src/flow_triggers.rs] and [flows.rs].
    - [Stability], [Schedule]: [runtime/src/stability.rs], [schedule.rs].

    The controller:
    - [Timezone]: [controller/src/timezone.rs] and [calendar.rs]: TZif files, POSIX rules, and
      the sun.
    - [ArchiveIo], [Inflate], [Zip], [Archive]: [controller/src/archive/io.rs],
      [inflate.rs], [zip.rs], [mod.rs]; [InflateOk], [ZipOk] hold their proofs.
    - [SceneJobs], [FlowJobs], [Pairing], [CatalogJobs], [McpJobs]: [controller/src/scenes.rs],
      [flows.rs], [pairing.rs], [catalog.rs], [mcp.rs]: the jobs that wait for apps.
      [PairingOk] holds the proofs on pairing.  [Controller]: the part of the loop in
      [host/src/server.rs] that drives Flows and scenes.
    - [AppPages]: [controller/src/app_ui.rs], [callbacks.rs], [media.rs], with the functions of
      [sdk/src/util.rs] they call.

    The web server:
    - [Web]: requests and responses of [web/src/lib.rs].  [Capability]: [capability.rs],
      [measures.rs], [titles.rs].  [Objects]: [objects.rs], [views.rs].  [WebUnits]:
      [flow_units.rs], [scenes.rs].  [WebApi]: [api.rs], [manager.rs].  [WebServe]: the
      sessions, checks and event streams of [lib.rs].  [WebOk]: the promises of all these.
    - [Cards]: [cards.rs], [filter.rs].
    - [Mcp], [McpOk]: [mcp/mod.rs], [schema.rs], [read.rs], [arguments.rs], [write.rs].

    The Matter app:
    - [Tlv], [TlvOk]: [matter/src/tlv.rs], the buffers of [lib.rs] and the errors of the SDK.
    - [Onboarding]: [matter/src/onboarding.rs].
    - [Ccm], [Message]: [matter/src/ccm.rs], [message.rs].
    - [Mrp], [MrpOk], [MrpBounds]: [matter/src/mrp.rs].
    - [Im]: the requests and answers of the interaction model, [matter/src/im.rs].
    - [MatterApp]: Matter devices as devices of the house: [capabilities.rs], [devices.rs],
      [reports.rs], [commands.rs], with parts of [settings.rs], [interaction.rs], [model.rs].

    The type class [Slots.Storage] is what the store asks of its storage, [Slots.Backend] what
    the storage asks of the disk, [Schedule.Clock] what the schedule asks of the time zone,
    [SceneJobs.Apps] what the controller asks of the connections of the apps, [Ccm.Crypto]
    what Matter asks of AES.  The theorems about the store hold for every [Storage];
    [Slots.Files_Storage] discharges it for the two slots.

    ** What the theorems show

    - Durability: a restart finds the last acknowledged document, or the very document that an
      operation had prepared whose save failed after it, whatever the disk did ([Restart],
      [Slots]); operations are atomic and keep the invariant ([StoreProps]).
    - The configuration: documents, groups, devices, scenes, flows and uninstalling
      ([Document], [Devices], [StoreProps]).
    - The wire: reads refine frames ([Wire]), calls in flight refine a map ([Session]), proofs
      over different fields differ ([Token]).
    - An app: it stays within its own records, and within its own part of what is observed,
      cached, shown, queued and announced ([MutationsOk]), gets one answer to each
      request, its initialisation in order, and every change of its devices ([AppRunOk]).
    - Flows: validation decides well-formedness, an execution delivers exactly the reachable
      cards ([FlowGraph], [FlowRun]); a run does so under every interleaving, with the effect
      that each card asks for, and ends in time ([RunsOk]); triggers fire when, and only when, they should ([RunsOk], [Stability],
      [Schedule]).
    - Scenes: nothing is sent without a way back, each device is asked once, and what is left
      to restore stays stored ([SceneRun]).
    - The controller: every request for a scene, a Flow, a pairing, the catalogue or a tool is
      answered exactly once, in time ([SceneJobs], [Controller], [PairingOk], [CatalogJobs],
      [McpJobs]); one operation at a time changes a device, and a pairing that fails is undone
      ([PairingOk]); tools are rationed ([McpJobs]); pages stay inside the files of their app
      ([AppPages]).
    - Archives: the decoder refines a reference decoder, a backup is read back, nothing damaged
      is accepted ([InflateOk], [ZipOk], [Archive]).
    - The web: strangers learn nothing, only the own pages write, every request keeps the store
      valid and gets its answer or its error with its status ([WebOk]); what is shown in the
      units of the house is restored from it ([WebUnits]); the editor is offered the cards of
      every device, and the program does with each of them what it says ([Cards]); a tool is
      reached only by arguments that satisfy its schema, and its preparation edits a Flow as a
      whole or not at all ([McpOk]).
    - Matter: values, codes and reports round trip ([TlvOk], [Onboarding], [Im]), exactly the
      sealed frames open ([Ccm]), no nonce is used twice, no message is delivered twice,
      forgeries change nothing ([MrpOk], [MrpBounds]); an event starts its Flows once, and every
      requested capability is carried out or refused ([MatterApp]).

    ** Bounds and fuel

    The JSON reader recurses over its input; its fuel is the number of bytes left, which
    [JsonRoundtrip.parse_total] shows to be enough.  [Stats.spread] has the length of the ring
    as fuel ([Stats.spread_total]), [FlowRun.drive] one more than the number of cards,
    [Groups.climb] the bound of the code.  [Wire.drain] has the bytes of one read as fuel and
    the grammar [Wire.frames] the bytes of the stream, both shown to suffice;
    [Schedule.drain] one more than the number of enabled Flows.  [Templates.expand] counts the
    hundred rounds of the code.  The decoder of archives takes its fuel from the caller, and a
    result [None] means that it is still busy; [Archive] shows a fuel that is enough for
    every backup that was written.  The jobs of the controller recurse over their tables.

    ** Conventions

    Memory is taken to suffice: a [try_reserve] succeeds, so [Error::Memory] never arises from
    one.  [sort_unstable_by] is a stable insertion sort where the keys are distinct or ties
    cannot be told apart.  Round trips of JSON exclude floats ([JsonRoundtrip.exact]).
    HMAC and base64 ([Token]), AES ([Ccm]), the functions of libm ([Timezone]) and the case of
    letters outside ASCII ([Mcp]) belong to other libraries and are parameters, as are the
    disk, the clock, the source of random bytes and the connections of the apps.

    ** Not modelled

    - Sockets, threads, TLS, HTTP framing and files of [crates/host], [crates/platform],
      [crates/transport], [crates/device-tls], [crates/h2], [crates/hopos], [crates/hopos-app]
      and [crates/hopos-plugins]: input and output around the modelled parts.
    - The runtime of an app in [crates/sdk] and [crates/plugin-host] but for its errors and
      helpers: futures and an executor, whose meaning is that of Rust's [async].
    - The certificates, the handshakes, the discovery and the engine of Matter, which stand on
      the elliptic curves of a vendored library and on the asynchronous runtime.
    - The other apps under [plugins], push notifications, the vendored libraries, the storage
      check, the pages of the browser and the iOS client. *)

From Stdlib Require Import ZArith Lia Ascii String.
From stdpp Require Export base tactics option list numbers strings sets.

(** Notations of the development live in one scope. *)
Declare Scope stulp_scope.
Delimit Scope stulp_scope with stulp.

(** ** Results: Rust's [core::result::Result] and the [?] operator *)

Inductive result (E A : Type) : Type :=
| Ok (a : A)
| Err (e : E).
Arguments Ok {E A} a.
Arguments Err {E A} e.

#[export] Instance result_ret {E} : MRet (result E) := fun A a => Ok a.
#[export] Instance result_bind {E} : MBind (result E) := fun A B f r =>
  match r with Ok a => f a | Err e => Err e end.

(** [o.ok_or(e)] *)
Definition ok_or {E A} (o : option A) (e : E) : result E A :=
  match o with Some a => Ok a | None => Err e end.

(** [r.ok()] *)
Definition res_ok {E A} (r : result E A) : option A :=
  match r with Ok a => Some a | Err _ => None end.

(** [r.is_ok()] *)
Definition is_ok {E A} (r : result E A) : bool :=
  match r with Ok _ => true | Err _ => false end.

(** ** The hint and rewrite databases of the development *)

Create HintDb stulp.
Create Rewrite HintDb stulp_rw.

(** [inv_ok H] takes apart a hypothesis [H : prog = Ok _] written with
    [result] binds, conditionals and option matches, leaving one goal per way in which
    the program can succeed. *)
Ltac inv_ok H :=
  lazymatch type of H with
  | Ok _ = Ok _ => injection H; clear H; intros; try subst
  | Some _ = Some _ => injection H; clear H; intros; try subst
  | Err _ = Err _ => injection H; clear H; intros; try subst
  | Err _ = Ok _ => discriminate H
  | Ok _ = Err _ => discriminate H
  | None = Some _ => discriminate H
  | Some _ = None => discriminate H
  | context [mbind _ ?r] =>
      lazymatch r with
      | Ok _ => cbn [mbind result_bind] in H; inv_ok H
      | Err _ => discriminate H
      | _ =>
          let E := fresh "E" in
          destruct r eqn:E; cbn [mbind result_bind option_bind] in H; inv_ok H
      end
  | context [match ?x with _ => _ end] =>
      let E := fresh "E" in destruct x eqn:E; inv_ok H
  | _ => idtac
  end.

(** Turns boolean tests of the code into propositions for [lia]. *)
Ltac bool_prop :=
  repeat match goal with
  | H : negb _ = true |- _ => apply negb_true_iff in H
  | H : negb _ = false |- _ => apply negb_false_iff in H
  | H : (_ && _)%bool = true |- _ => apply andb_true_iff in H as [? ?]
  | H : (_ || _)%bool = false |- _ => apply orb_false_iff in H as [? ?]
  | H : (_ =? _)%Z = true |- _ => apply Z.eqb_eq in H
  | H : (_ =? _)%Z = false |- _ => apply Z.eqb_neq in H
  | H : (_ <? _)%Z = true |- _ => apply Z.ltb_lt in H
  | H : (_ <? _)%Z = false |- _ => apply Z.ltb_ge in H
  | H : (_ <=? _)%Z = true |- _ => apply Z.leb_le in H
  | H : (_ <=? _)%Z = false |- _ => apply Z.leb_gt in H
  | H : (_ =? _)%nat = true |- _ => apply Nat.eqb_eq in H
  | H : (_ =? _)%nat = false |- _ => apply Nat.eqb_neq in H
  | H : (_ <? _)%nat = true |- _ => apply Nat.ltb_lt in H
  | H : (_ <? _)%nat = false |- _ => apply Nat.ltb_ge in H
  | H : (_ <=? _)%nat = true |- _ => apply Nat.leb_le in H
  | H : (_ <=? _)%nat = false |- _ => apply Nat.leb_gt in H
  | H : (_ =? _)%string = true |- _ => apply String.eqb_eq in H
  | H : (_ =? _)%string = false |- _ => apply String.eqb_neq in H
  end.

(** ** Machine integers *)

Definition U64_MAX : Z := 18446744073709551615.
Definition U32_MAX : Z := 4294967295.

(** [u64::checked_add] *)
Definition checked_add (a b : Z) : option Z :=
  if (a + b <=? U64_MAX)%Z then Some (a + b)%Z else None.

(** [u64::checked_mul] *)
Definition checked_mul (a b : Z) : option Z :=
  if (a * b <=? U64_MAX)%Z then Some (a * b)%Z else None.

(** [u64::saturating_add], [u64::saturating_sub] *)
Definition saturating_add (a b : Z) : Z := Z.min U64_MAX (a + b).
Definition saturating_sub (a b : Z) : Z := Z.max 0 (a - b).

Definition is_u64 (z : Z) : Prop := (0 <= z <= U64_MAX)%Z.
Definition is_u32 (z : Z) : Prop := (0 <= z <= U32_MAX)%Z.

Lemma checked_add_Some a b c :
  checked_add a b = Some c <-> (c = a + b /\ a + b <= U64_MAX)%Z.
Proof.
  unfold checked_add. destruct (Z.leb_spec (a + b) U64_MAX); split; intros H0.
  - by injection H0 as <-.
  - destruct H0 as [-> _]. done.
  - done.
  - lia.
Qed.

(** ** Byte strings: [&[u8]] as [list Z] *)

Definition is_byte (z : Z) : Prop := (0 <= z < 256)%Z.

(** [bytes.get(i..j)] *)
Definition slice {A} (l : list A) (i j : nat) : option (list A) :=
  if (i <=? j)%nat && (j <=? length l)%nat
  then Some (take (j - i) (drop i l)) else None.

(** [bytes.get(i..)] *)
Definition slice_from {A} (l : list A) (i : nat) : option (list A) :=
  if (i <=? length l)%nat then Some (drop i l) else None.

(** [x.to_le_bytes()] for an integer of [n] bytes, and [from_le_bytes] *)
Fixpoint le_bytes (n : nat) (z : Z) : list Z :=
  match n with
  | O => []
  | S n => (z mod 256)%Z :: le_bytes n (z / 256)%Z
  end.

Fixpoint le_val (l : list Z) : Z :=
  match l with
  | [] => 0
  | b :: l => (b + 256 * le_val l)%Z
  end.

(** [a == b] on byte slices *)
Definition bytes_eqb (a b : list Z) : bool := bool_decide (a = b).

Lemma length_le_bytes n z : length (le_bytes n z) = n.
Proof. revert z. induction n; intros; simpl; auto. Qed.

Lemma le_bytes_is_byte n z : Forall is_byte (le_bytes n z).
Proof.
  revert z. induction n; intros; simpl; constructor; auto.
  apply Z.mod_pos_bound; lia.
Qed.

Lemma le_val_le_bytes n z :
  (0 <= z < 256 ^ Z.of_nat n)%Z -> le_val (le_bytes n z) = z.
Proof.
  revert z. induction n as [|n IH]; intros z Hz.
  - cbn in *. lia.
  - cbn [le_bytes le_val]. rewrite IH.
    + pose proof (Z.div_mod z 256). lia.
    + rewrite Nat2Z.inj_succ, Z.pow_succ_r in Hz by lia.
      split; [apply Z.div_pos; lia|]. apply Z.div_lt_upper_bound; lia.
Qed.

Lemma le_val_bound l :
  Forall is_byte l -> (0 <= le_val l < 256 ^ Z.of_nat (length l))%Z.
Proof.
  induction 1 as [|b l Hb _ IH]; [cbn; lia|].
  cbn [le_val length]. rewrite Nat2Z.inj_succ, Z.pow_succ_r by lia.
  unfold is_byte in Hb. nia.
Qed.

Lemma le_val_inj l1 l2 :
  Forall is_byte l1 -> Forall is_byte l2 -> length l1 = length l2 ->
  le_val l1 = le_val l2 -> l1 = l2.
Proof.
  intros H1. revert l2. induction H1 as [|b l1 Hb H1 IH]; intros [|c l2] H2 HL HV;
    try discriminate; [done|].
  inversion H2 as [|? ? Hc H2' ]; subst. cbn in *.
  unfold is_byte in *.
  assert (b = c) as -> by lia. f_equal. apply IH; [done|lia|lia].
Qed.

#[export] Hint Resolve length_le_bytes le_bytes_is_byte : stulp.
#[export] Hint Rewrite length_le_bytes : stulp_rw.

(** ** Slices of concatenations *)

Lemma slice_app_l {A} (l k : list A) n :
  n = length l -> slice (l ++ k) 0 n = Some l.
Proof.
  intros ->. unfold slice. rewrite length_app.
  destruct (Nat.leb_spec (length l) (length l + length k)); [|lia].
  cbn [andb Nat.leb]. by rewrite drop_0, Nat.sub_0_r, take_app_length.
Qed.

Lemma slice_app_r {A} (l k : list A) i j :
  (length l <= i)%nat ->
  slice (l ++ k) i j = slice k (i - length l) (j - length l) \/ (j < i)%nat.
Proof.
  intros H. destruct (decide (j < i)); [by right|left].
  unfold slice. rewrite length_app.
  destruct (Nat.leb_spec i j); [|lia].
  destruct (Nat.leb_spec (i - length l) (j - length l)); [|lia].
  replace (j <=? length l + length k)%nat with (j - length l <=? length k)%nat.
  2:{ destruct (Nat.leb_spec (j - length l) (length k)),
        (Nat.leb_spec j (length l + length k)); lia. }
  destruct (j - length l <=? length k)%nat; [|done]. cbn.
  rewrite drop_app_ge by lia. f_equal. f_equal. lia.
Qed.

Lemma slice_Some {A} (l : list A) i j s :
  slice l i j = Some s -> (i <= j <= length l)%nat /\ s = take (j - i) (drop i l).
Proof.
  unfold slice. intros H. inv_ok H. bool_prop. done.
Qed.

Lemma repeat_lookup {A} (x : A) n i : i < n -> repeat x n !! i = Some x.
Proof. revert i. induction n as [|n IH]; intros [|i] Hi; try lia; [done|]. apply IH. lia. Qed.

(** ** Bits *)

Lemma lxor_bound n a b :
  (0 <= n)%Z -> (0 <= a < 2 ^ n)%Z -> (0 <= b < 2 ^ n)%Z -> (0 <= Z.lxor a b < 2 ^ n)%Z.
Proof.
  intros Hn Ha Hb. assert (0 <= Z.lxor a b)%Z by (apply Z.lxor_nonneg; lia).
  split; [done|]. destruct (Z.eq_dec (Z.lxor a b) 0%Z) as [->|Hne]; [lia|].
  destruct (Z.eq_dec n 0%Z) as [->|]; [exfalso; apply Hne; by replace a with 0%Z by lia;
    replace b with 0%Z by lia|].
  apply Z.log2_lt_pow2; [lia|].
  apply Z.le_lt_trans with (Z.max (Z.log2 a) (Z.log2 b)); [apply Z.log2_lxor; lia|].
  assert (forall x, 0 <= x < 2 ^ n -> Z.log2 x < n)%Z as HL.
  { intros x Hx. destruct (Z.eq_dec x 0%Z) as [->|]; [cbn; lia|].
    apply Z.log2_lt_pow2; lia. }
  pose proof (HL a Ha). pose proof (HL b Hb). lia.
Qed.

Section Lor.
Local Open Scope Z_scope.

Lemma lor_bound n a b : 0 <= a < 2 ^ n -> 0 <= b < 2 ^ n -> 0 <= Z.lor a b < 2 ^ n.
Proof.
  intros Ha Hb. assert (0 <= n) by (destruct (Z.leb_spec 0 n); [done|]; rewrite Z.pow_neg_r in * by lia; lia).
  assert (0 <= Z.lor a b) by (apply Z.lor_nonneg; lia). split; [done|].
  destruct (Z.eqb_spec (Z.lor a b) 0) as [->|]; [lia|]. apply Z.log2_lt_pow2; [lia|].
  rewrite Z.log2_lor by lia. apply Z.max_lub_lt.
  - destruct (Z.eqb_spec a 0) as [->|]; [|apply Z.log2_lt_pow2; lia].
    destruct (Z.eqb_spec n 0) as [->|]; [change (2 ^ 0) with 1 in *|cbn; lia].
    assert (b = 0) as -> by lia. done.
  - destruct (Z.eqb_spec b 0) as [->|]; [|apply Z.log2_lt_pow2; lia].
    destruct (Z.eqb_spec n 0) as [->|]; [change (2 ^ 0) with 1 in *|cbn; lia].
    assert (a = 0) as -> by lia. done.
Qed.

End Lor.

Lemma lxor_cancel_l a b c : Z.lxor a b = Z.lxor a c -> b = c.
Proof.
  intros H. apply (f_equal (Z.lxor a)) in H.
  by rewrite <- !Z.lxor_assoc, !Z.lxor_nilpotent, !Z.lxor_0_l in H.
Qed.

Lemma lxor_cancel_r a b c : Z.lxor b a = Z.lxor c a -> b = c.
Proof. rewrite !(Z.lxor_comm _ a). apply lxor_cancel_l. Qed.

Lemma testbit_high n a m : (0 <= a < 2 ^ n)%Z -> (n <= m)%Z -> Z.testbit a m = false.
Proof.
  intros Ha Hm. destruct (Z.eq_dec a 0%Z) as [->|]; [apply Z.bits_0|].
  apply Z.bits_above_log2; [lia|]. apply Z.lt_le_trans with n; [|lia].
  destruct (Z.neg_nonneg_cases n); [rewrite Z.pow_neg_r in Ha by lia; lia|].
  apply Z.log2_lt_pow2; lia.
Qed.

(** ** Folds whose step is injective *)

Section InjectiveFold.
Context {S B : Type} (f : S -> B -> S) (P : S -> Prop) (Q : B -> Prop).
Hypothesis f_closed : forall c b, P c -> Q b -> P (f c b).
Hypothesis f_inj_l : forall c d b, P c -> P d -> Q b -> f c b = f d b -> c = d.
Hypothesis f_inj_r : forall c a b, P c -> Q a -> Q b -> f c a = f c b -> a = b.

Lemma fold_closed l c : P c -> Forall Q l -> P (fold_left f l c).
Proof. intros Hc Hl. revert c Hc. induction Hl; cbn; auto. Qed.

Lemma fold_inj l c d :
  P c -> P d -> Forall Q l -> fold_left f l c = fold_left f l d -> c = d.
Proof.
  intros Hc Hd Hl. revert c d Hc Hd. induction Hl as [|b l Hb Hl IH]; cbn; [done|].
  intros c d Hc Hd H. apply IH in H; eauto.
Qed.

Lemma fold_one_change l r x y c :
  P c -> Forall Q (l ++ x :: r) -> Q y ->
  fold_left f (l ++ x :: r) c = fold_left f (l ++ y :: r) c -> x = y.
Proof.
  intros Hc [Hl Hr]%Forall_app Hy. inversion Hr as [|? ? Hx Hr']; subst.
  rewrite !fold_left_app. cbn. pose proof (fold_closed l c Hc Hl) as HS. intros H.
  apply fold_inj in H; [by apply f_inj_r in H|auto..].
Qed.
End InjectiveFold.

(** ** Chunks: [l.chunks(n)] *)

Fixpoint chunks_fuel {A} (fuel n : nat) (l : list A) : list (list A) :=
  match fuel, l with
  | S fuel, _ :: _ => take n l :: chunks_fuel fuel n (drop n l)
  | _, _ => []
  end.
Definition chunks {A} (n : nat) (l : list A) : list (list A) := chunks_fuel (length l) n l.

Lemma chunks_fuel_enough {A} n (l : list A) : forall f g,
  (0 < n)%nat -> (length l <= f)%nat -> (length l <= g)%nat -> chunks_fuel f n l = chunks_fuel g n l.
Proof.
  intros f. revert l. induction f as [|f IH]; intros [|x l] [|g] Hn Hf Hg; try (cbn in *; lia); try done.
  cbn [chunks_fuel]. f_equal. apply IH; [done|..]; rewrite length_drop; cbn [length] in *; lia.
Qed.

Lemma chunks_step {A} n (l : list A) : (0 < n)%nat -> l <> [] -> chunks n l = take n l :: chunks n (drop n l).
Proof.
  intros Hn Hl. unfold chunks. destruct l as [|x l]; [done|]. cbn [length chunks_fuel]. f_equal.
  apply chunks_fuel_enough; [done|..]; rewrite length_drop; cbn [length]; lia.
Qed.

(** All chunks have length [n], but the last may be shorter. *)
Fixpoint chunked {A} (n : nat) (bs : list (list A)) : Prop :=
  match bs with
  | [] => True
  | b :: bs => (1 <= length b <= n)%nat /\ (bs <> [] -> length b = n) /\ chunked n bs
  end.

Lemma chunks_concat {A} n (bs : list (list A)) : (0 < n)%nat -> chunked n bs -> chunks n (concat bs) = bs.
Proof.
  intros Hn. induction bs as [|b bs IH]; [done|]. cbn [chunked concat]. intros (Hb & Hl & Hc).
  rewrite chunks_step; [|done|destruct b; [cbn in Hb; lia|done]].
  destruct bs as [|b' bs]; [cbn [concat]; rewrite app_nil_r, take_ge, drop_ge by lia; done|].
  specialize (Hl ltac:(done)). rewrite <- Hl at 1 3. rewrite take_app_length, drop_app_length, IH; done.
Qed.

Lemma chunks_chunked {A} n (l : list A) : (0 < n)%nat -> chunked n (chunks n l) /\ concat (chunks n l) = l.
Proof.
  intros Hn. induction l as [l IH] using (well_founded_induction (Wf_nat.well_founded_ltof _ (@length A))).
  destruct l as [|x l']; [done|]. set (l := x :: l') in *. assert (1 <= length l)%nat as H1 by (cbn; lia).
  rewrite (chunks_step n l) by done. cbn [chunked concat].
  destruct (IH (drop n l)) as [Hc Hk]; [unfold Wf_nat.ltof; rewrite length_drop; lia|].
  rewrite Hk, take_drop. split; [|done]. split; [rewrite length_take; lia|]. split; [|done].
  intros Hne. rewrite length_take. destruct (decide (n <= length l)%nat); [lia|].
  rewrite (drop_ge l) in Hne by lia. done.
Qed.
