(* ===== verification/Text.v ===== *)
(** * Text: Rust's [str] as the program uses it

    A [str] is the byte string it is in memory: Rocq's [string], whose characters are
    bytes.  [len] is the number of bytes, [chars] decodes UTF-8, [trim] removes Unicode
    white space at both ends.  [from_utf8] is [core::str::from_utf8], with the
    [valid_up_to] offset of its error, because the JSON parser reports it. *)

From Stdlib Require Import ZArith Lia Ascii String.
From S2P Require Import Prelude.

Local Open Scope Z_scope.

(** ** Bytes and strings *)

Definition byte_of_ascii (a : ascii) : Z := Z.of_N (N_of_ascii a).
Definition ascii_of_byte (z : Z) : ascii := ascii_of_N (Z.to_N z).

(** [s.as_bytes()] *)
Definition as_bytes (s : string) : list Z := map byte_of_ascii (list_ascii_of_string s).

(** The string with the given bytes. *)
Definition of_bytes (l : list Z) : string :=
  string_of_list_ascii (map ascii_of_byte l).

(** [s.len()] *)
Definition len (s : string) : Z := Z.of_nat (String.length s).

(** [s.is_empty()] *)
Definition is_empty (s : string) : bool := (s =? "")%string.

(** ** UTF-8 *)

Definition between (lo x hi : Z) : bool := (lo <=? x) && (x <=? hi).
Definition is_cont (b : Z) : bool := between 128 b 191.

(** Second byte of a three-byte sequence, by its first byte. *)
Definition second3 (b0 b1 : Z) : bool :=
  if b0 =? 224 then between 160 b1 191
  else if between 225 b0 236 then is_cont b1
  else if b0 =? 237 then between 128 b1 159
  else is_cont b1.

(** Second byte of a four-byte sequence, by its first byte. *)
Definition second4 (b0 b1 : Z) : bool :=
  if b0 =? 240 then between 144 b1 191
  else if between 241 b0 243 then is_cont b1
  else between 128 b1 143.

(** One more character of [w] bytes in front of what the rest decodes to. *)
Definition utf8_cons (c : Z) (w : nat) (r : result nat (list Z)) : result nat (list Z) :=
  match r with Ok cs => Ok (c :: cs) | Err n => Err (w + n)%nat end.

(** [core::str::from_utf8]: the characters, or [valid_up_to]. *)
Fixpoint from_utf8 (l : list Z) : result nat (list Z) :=
  match l with
  | [] => Ok []
  | b0 :: l1 =>
      if between 0 b0 127 then utf8_cons b0 1 (from_utf8 l1)
      else if between 194 b0 223 then
        match l1 with
        | b1 :: l2 =>
            if is_cont b1 then utf8_cons ((b0 - 192) * 64 + (b1 - 128)) 2 (from_utf8 l2)
            else Err 0%nat
        | _ => Err 0%nat
        end
      else if between 224 b0 239 then
        match l1 with
        | b1 :: b2 :: l3 =>
            if second3 b0 b1 && is_cont b2
            then utf8_cons ((b0 - 224) * 4096 + (b1 - 128) * 64 + (b2 - 128)) 3 (from_utf8 l3)
            else Err 0%nat
        | _ => Err 0%nat
        end
      else if between 240 b0 244 then
        match l1 with
        | b1 :: b2 :: b3 :: l4 =>
            if second4 b0 b1 && is_cont b2 && is_cont b3
            then utf8_cons ((b0 - 240) * 262144 + (b1 - 128) * 4096 + (b2 - 128) * 64
                              + (b3 - 128)) 4 (from_utf8 l4)
            else Err 0%nat
        | _ => Err 0%nat
        end
      else Err 0%nat
  end.

(** A Unicode scalar value: what a Rust [char] holds. *)
Definition is_char (c : Z) : bool := between 0 c 55295 || between 57344 c 1114111.

(** [char::encode_utf8] *)
Definition encode_char (c : Z) : list Z :=
  if c <? 128 then [c]
  else if c <? 2048 then [192 + c / 64; 128 + c mod 64]
  else if c <? 65536 then [224 + c / 4096; 128 + (c / 64) mod 64; 128 + c mod 64]
  else [240 + c / 262144; 128 + (c / 4096) mod 64; 128 + (c / 64) mod 64; 128 + c mod 64].

Definition encode_chars (cs : list Z) : list Z := flat_map encode_char cs.

(** [s.chars()]; a [str] always is valid UTF-8. *)
Definition chars (s : string) : list Z :=
  match from_utf8 (as_bytes s) with Ok cs => cs | Err _ => [] end.

Definition of_chars (cs : list Z) : string := of_bytes (encode_chars cs).

(** [core::str::from_utf8(bytes).is_ok()]: the type invariant of [str]. *)
Definition valid_str (s : string) : bool := is_ok (from_utf8 (as_bytes s)).

(** [char::is_whitespace]: the Unicode property White_Space. *)
Definition is_whitespace (c : Z) : bool :=
  between 9 c 13 || (c =? 32) || (c =? 133) || (c =? 160) || (c =? 5760)
  || between 8192 c 8202 || (c =? 8232) || (c =? 8233) || (c =? 8239) || (c =? 8287)
  || (c =? 12288).

Fixpoint drop_white (cs : list Z) : list Z :=
  match cs with
  | c :: cs' => if is_whitespace c then drop_white cs' else cs
  | [] => []
  end.

(** [s.trim()] *)
Definition trim (s : string) : string :=
  of_chars (rev (drop_white (rev (drop_white (chars s))))).

(** [u8::is_ascii_whitespace] *)
Definition is_ascii_whitespace (b : Z) : bool :=
  (b =? 32) || (b =? 9) || (b =? 10) || (b =? 12) || (b =? 13).

Definition ascii_lower (b : Z) : Z := if between 65 b 90 then b + 32 else b.

(** [a.eq_ignore_ascii_case(b)] *)
Definition eq_ignore_ascii_case (a b : string) : bool :=
  bytes_eqb (map ascii_lower (as_bytes a)) (map ascii_lower (as_bytes b)).

(** [s.starts_with(p)] *)
Definition starts_with (p s : string) : bool := String.prefix p s.

(** [s.strip_prefix(p)] *)
Definition strip_prefix (p s : string) : option string :=
  if String.prefix p s
  then Some (String.substring (String.length p) (String.length s - String.length p) s)
  else None.

(** [s.contains(c)] for one ASCII character *)
Definition contains_byte (c : Z) (s : string) : bool := existsb (Z.eqb c) (as_bytes s).

(** [s.rsplit_once(c)] for one ASCII character: split at its last occurrence. *)
Fixpoint split_last (c : ascii) (s : string) : option (string * string) :=
  match s with
  | EmptyString => None
  | String a s' =>
      match split_last c s' with
      | Some (l, r) => Some (String a l, r)
      | None => if Ascii.eqb a c then Some (EmptyString, s') else None
      end
  end.

(** [s.split(c).next()] for one ASCII character: what comes before its first
    occurrence. *)
Fixpoint before_first (c : ascii) (s : string) : string :=
  match s with
  | EmptyString => EmptyString
  | String a s' => if Ascii.eqb a c then EmptyString else String a (before_first c s')
  end.

(** ** Lemmas: bytes *)

Lemma byte_of_ascii_is_byte a : is_byte (byte_of_ascii a).
Proof. unfold is_byte, byte_of_ascii. pose proof (N_ascii_bounded a). lia. Qed.

Lemma byte_of_ascii_of_byte z : is_byte z -> byte_of_ascii (ascii_of_byte z) = z.
Proof.
  unfold is_byte, byte_of_ascii, ascii_of_byte. intros H.
  rewrite N_ascii_embedding by lia. lia.
Qed.

Lemma ascii_of_byte_of_ascii a : ascii_of_byte (byte_of_ascii a) = a.
Proof. unfold byte_of_ascii, ascii_of_byte. by rewrite N2Z.id, ascii_N_embedding. Qed.

Lemma as_bytes_is_byte s : Forall is_byte (as_bytes s).
Proof.
  unfold as_bytes. apply Forall_forall. intros z Hz.
  apply list_elem_of_In, in_map_iff in Hz as [a [<- _]]. apply byte_of_ascii_is_byte.
Qed.

Lemma of_as_bytes s : of_bytes (as_bytes s) = s.
Proof.
  unfold of_bytes, as_bytes. rewrite map_map.
  rewrite (map_ext _ id) by apply ascii_of_byte_of_ascii.
  rewrite map_id. apply string_of_list_ascii_of_string.
Qed.

Lemma as_of_bytes l : Forall is_byte l -> as_bytes (of_bytes l) = l.
Proof.
  intros H. unfold of_bytes, as_bytes. rewrite list_ascii_of_string_of_list_ascii, map_map.
  induction H; cbn; [done|]. rewrite byte_of_ascii_of_byte by done. by f_equal.
Qed.

Lemma as_bytes_inj s t : as_bytes s = as_bytes t -> s = t.
Proof. intros H. by rewrite <- (of_as_bytes s), H, of_as_bytes. Qed.

Lemma of_bytes_app l k : of_bytes (l ++ k) = (of_bytes l ++ of_bytes k)%string.
Proof. unfold of_bytes. induction l as [|a l IH]; cbn; [done|]. by rewrite IH. Qed.

Lemma as_bytes_app s t : as_bytes (s ++ t) = as_bytes s ++ as_bytes t.
Proof.
  unfold as_bytes. induction s as [|a s IH]; [done|].
  change (String a s ++ t)%string with (String a (s ++ t)). cbn. by rewrite IH.
Qed.

Lemma length_as_bytes s : length (as_bytes s) = String.length s.
Proof. unfold as_bytes. rewrite length_map. induction s; cbn; auto. Qed.

Lemma prefix_append p s : String.prefix p (p ++ s) = true.
Proof.
  induction p as [|a p IH]; [by destruct s|].
  change (String a p ++ s)%string with (String a (p ++ s)). cbn [String.prefix].
  by destruct (ascii_dec a a).
Qed.

Lemma substring_all s : String.substring 0 (String.length s) s = s.
Proof. induction s as [|a s IH]; cbn; [done|]. by rewrite IH. Qed.

Lemma substring_append p s n :
  String.substring (String.length p) n (p ++ s) = String.substring 0 n s.
Proof.
  induction p as [|a p IH]; [done|].
  change (String a p ++ s)%string with (String a (p ++ s)). apply IH.
Qed.

Lemma length_append p s : String.length (p ++ s) = (String.length p + String.length s)%nat.
Proof.
  induction p as [|a p IH]; [done|].
  change (String a p ++ s)%string with (String a (p ++ s)). cbn. by rewrite IH.
Qed.

Lemma strip_prefix_app p s : strip_prefix p (p ++ s) = Some s.
Proof.
  unfold strip_prefix. rewrite prefix_append, length_append, substring_append.
  replace (String.length p + String.length s - String.length p)%nat
    with (String.length s) by lia.
  by rewrite substring_all.
Qed.

(** ** Lemmas: UTF-8 *)

Local Ltac Zify.zify_post_hook ::= Z.div_mod_to_equations.

Lemma encode_char_bytes c : is_char c = true -> Forall is_byte (encode_char c).
Proof.
  unfold is_char, between, encode_char, is_byte. intros H.
  repeat case_match; repeat constructor; lia.
Qed.

Lemma encode_chars_bytes cs :
  forallb is_char cs = true -> Forall is_byte (encode_chars cs).
Proof.
  induction cs as [|c cs IH]; cbn; [constructor|]. intros [Hc Hcs]%andb_true_iff.
  apply Forall_app. eauto using encode_char_bytes.
Qed.

Ltac decide_ifs :=
  repeat match goal with
  | |- context [if ?b then _ else _] =>
      lazymatch b with context [if _ then _ else _] => fail | _ => idtac end;
      first [ replace b with true by lia | replace b with false by lia ]
  end.

Lemma second3_encode c :
  2048 <= c < 65536 -> is_char c = true ->
  second3 (224 + c / 4096) (128 + (c / 64) mod 64) = true.
Proof.
  unfold is_char, second3, is_cont, between. intros H1 H2.
  repeat case_match; lia.
Qed.

Lemma second4_encode c :
  65536 <= c -> is_char c = true ->
  second4 (240 + c / 262144) (128 + (c / 4096) mod 64) = true.
Proof.
  unfold is_char, second4, is_cont, between. intros H1 H2.
  repeat case_match; lia.
Qed.

Lemma from_utf8_encode_char c l :
  is_char c = true ->
  from_utf8 (encode_char c ++ l) =
  utf8_cons c (length (encode_char c)) (from_utf8 l).
Proof.
  intros H. assert (0 <= c <= 1114111) by (unfold is_char, between in H; lia).
  unfold encode_char.
  destruct (Z.ltb_spec c 128) as [H1|H1];
    [|destruct (Z.ltb_spec c 2048) as [H2|H2];
      [|destruct (Z.ltb_spec c 65536) as [H3|H3]]];
    cbn [app length from_utf8];
    rewrite ?second3_encode, ?second4_encode by (done || lia);
    unfold is_cont, between; cbn [andb]; decide_ifs; f_equal; lia.
Qed.

Lemma from_utf8_encode cs l :
  forallb is_char cs = true ->
  from_utf8 (encode_chars cs ++ l) =
  match from_utf8 l with
  | Ok k => Ok (cs ++ k)
  | Err n => Err (length (encode_chars cs) + n)%nat
  end.
Proof.
  induction cs as [|c cs IH]; intros H.
  - cbn. by destruct (from_utf8 l).
  - apply andb_true_iff in H as [Hc Hcs].
    change (encode_chars (c :: cs)) with (encode_char c ++ encode_chars cs).
    rewrite <- app_assoc, from_utf8_encode_char, IH by done.
    rewrite length_app. destruct (from_utf8 l); cbn; [done|].
    f_equal. lia.
Qed.

Lemma utf8_cons_Ok c w r k :
  utf8_cons c w r = Ok k -> exists cs, r = Ok cs /\ k = c :: cs.
Proof. destruct r; cbn; [|done]. intros [= <-]. eauto. Qed.

Lemma from_utf8_sound l cs :
  from_utf8 l = Ok cs -> encode_chars cs = l /\ forallb is_char cs = true.
Proof.
  revert cs. induction l as [l IH] using (well_founded_induction
    (well_founded_ltof _ (@length Z))). intros cs H.
  destruct l as [|b0 l1]; cbn [from_utf8] in H; [by injection H as <-|].
  repeat match type of H with
  | Err _ = _ => discriminate H
  | context [match ?x with _ => _ end] => destruct x eqn:?
  end; apply utf8_cons_Ok in H as [ds [Hds ->]];
  (apply IH in Hds as [<- Hv]; [|unfold ltof; cbn; lia]); clear IH;
  unfold second3, second4, is_cont, between in *;
  repeat match goal with
  | H : context [if ?b then _ else _] |- _ => destruct b eqn:?
  end;
  (split; [|cbn; rewrite Hv; unfold is_char, between; lia]);
  cbn [encode_chars flat_map]; unfold encode_char;
  repeat match goal with
  | |- context [if ?b then _ else _] =>
      first [ replace b with true by lia | replace b with false by lia ]
  end; cbn [app]; repeat (apply (f_equal2 cons); [lia|]); done.
Qed.

Lemma chars_of_chars cs : forallb is_char cs = true -> chars (of_chars cs) = cs.
Proof.
  intros H. unfold chars, of_chars. rewrite as_of_bytes by by apply encode_chars_bytes.
  rewrite <- (app_nil_r (encode_chars cs)), from_utf8_encode by done.
  cbn. apply app_nil_r.
Qed.

Lemma of_chars_chars s : valid_str s = true -> of_chars (chars s) = s.
Proof.
  unfold valid_str, chars, of_chars. destruct (from_utf8 (as_bytes s)) eqn:E; [|done].
  intros _. apply from_utf8_sound in E as [-> _]. apply of_as_bytes.
Qed.

Lemma chars_valid s : forallb is_char (chars s) = true.
Proof. unfold chars. destruct (from_utf8 (as_bytes s)) eqn:E; [by apply from_utf8_sound in E as [_ ?]|done]. Qed.
