(* ===== verification/Errors.v ===== *)
(** * Errors: the error values of the core and of the vendored JSON types

    [Name] and [HopError] model [vendor/types/src/error.rs]; [Error] models
    [crates/core/src/lib.rs].  The texts of [Invalid], [Missing] and [Conflict] are kept,
    because the transport layer shows them. *)

From Stdlib Require Import ZArith Lia Ascii String.
From S2P Require Import Prelude Text.

Local Open Scope Z_scope.

(** How many bytes of a field name an error holds. *)
Definition NAME_BYTES : nat := 32.

(** [s.is_char_boundary(i)] for [i <= s.len()] *)
Definition is_char_boundary (l : list Z) (i : nat) : bool :=
  match l !! i with Some b => negb (is_cont b) | None => true end.

(** [while !s.is_char_boundary(end) { end -= 1 }] *)
Fixpoint floor_boundary (l : list Z) (i : nat) : nat :=
  match i with
  | O => O
  | S j => if is_char_boundary l i then i else floor_boundary l j
  end.

(** [Name::new] followed by [as_str]: the first 32 bytes, on a character boundary. *)
Definition Name_new (s : string) : string :=
  let l := as_bytes s in
  of_bytes (take (floor_boundary l (Nat.min (length l) NAME_BYTES)) l).

(** [hop_types::Error] *)
Inductive HopError : Type :=
| OutOfMemory
| TooLarge (len max : Z)
| TooDeep (offset max : Z)
| Syntax (offset : Z) (expected : string)
| Trailing (offset : Z)
| DuplicateKey (key : string)
| NotFinite
| WrongType (field want : string)
| UnknownField (field : string)
| OutOfRange (field : string)
| HopInvalid (field why : string)
| TooMany (field : string) (max : Z).

(** [stulp_core::Error] *)
Inductive Error : Type :=
| Full
| Memory
| Invalid (s : string)
| Missing (s : string)
| Conflict (s : string)
| Changed
| EStorage
| Json (e : HopError).

#[export] Instance HopError_eq_dec : EqDecision HopError.
Proof. solve_decision. Defined.
#[export] Instance Error_eq_dec : EqDecision Error.
Proof. solve_decision. Defined.

(** [stulp_core::Result] *)
Abbreviation Result := (result Error).

(** [impl From<hop_types::Error> for Error], applied by [?] to a Hop result. *)
Definition from_hop {A} (r : result HopError A) : Result A :=
  match r with Ok a => Ok a | Err e => Err (Json e) end.

Lemma floor_boundary_le l i : (floor_boundary l i <= i)%nat.
Proof. induction i as [|i IH]; cbn; [lia|]. destruct (is_char_boundary l (S i)); lia. Qed.

(** A name in an error never exceeds its fixed buffer. *)
Lemma Name_new_fits s : (String.length (Name_new s) <= NAME_BYTES)%nat.
Proof.
  unfold Name_new. rewrite <- length_as_bytes, as_of_bytes.
  - rewrite length_take. pose proof (floor_boundary_le (as_bytes s)
      (Nat.min (length (as_bytes s)) NAME_BYTES)). lia.
  - apply Forall_take, as_bytes_is_byte.
Qed.
