(* ===== verification/Slots.v ===== *)
(** * Slots: the STULPAB two-slot store ([crates/core/src/slots.rs])

    A document is stored in one of two files, each a 24-byte header (magic, generation,
    length, CRC-32) and the payload.  [Files] opens the newest valid generation and writes
    only the inactive slot.  [Storage] is the interface the document owner uses
    ([crates/core/src/store.rs], trait [Storage]); [Backend] is the interface to the
    platform's files.  [BackendSpec] says what a platform may do, torn writes included, and
    the refinement theorem shows what [Files] makes of it. *)

From Stdlib Require Import ZArith Lia Ascii String.
From S2P Require Import Prelude Text Errors.

Local Open Scope Z_scope.

(** The limit on a whole document, [document::MAX_BYTES]. *)
Definition MAX_BYTES : Z := 67108864.

(** ** Interfaces *)

(** Which durable file holds a generation. *)
Inductive Slot : Type := SlotA | SlotB | SlotLegacy.

#[export] Instance Slot_eq_dec : EqDecision Slot.
Proof. solve_decision. Defined.

(** [trait Storage]: publishes one whole document. *)
Class Storage (S : Type) := {
  storage_path : S -> option string;
  storage_save : list Z -> S -> Result unit * S
}.

(** [trait Backend]: reading and writing one slot. *)
Class Backend (B : Type) := {
  backend_path : B -> option string;
  backend_read : Slot -> B -> Result (option (list Z)) * B;
  backend_write : Slot -> list Z -> B -> Result unit * B
}.

(** [Memory]: the storage that keeps nothing. *)
Inductive Memory : Type := MemoryStorage.

#[export] Instance Memory_Storage : Storage Memory := {
  storage_path := fun _ => None;
  storage_save := fun _ m => (Ok tt, m)
}.

(** ** The record format *)

Definition HEADER : nat := 24.

(** [b"STULPAB\x01"] *)
Definition MAGIC : list Z := [83; 84; 85; 76; 80; 65; 66; 1].

(** A validated record. *)
Record Record_ := mk_record { rec_generation : Z; rec_payload : list Z }.

(** One bit of the CRC loop. *)
Definition crc_bit (c : Z) : Z :=
  Z.lxor (Z.shiftr c 1) (if Z.land c 1 =? 0 then 0 else 3988292384).

(** One byte of the CRC loop. *)
Definition crc_byte (c b : Z) : Z := Nat.iter 8 crc_bit (Z.lxor c b).

#[global] Arguments crc_byte : simpl never.
#[global] Strategy 100 [crc_bit].
#[global] Strategy expand [crc_byte].

Definition crc (c : Z) (bytes : list Z) : Z := fold_left crc_byte bytes c.

(** CRC-32 (IEEE) over the header without checksum, then the payload. *)
Definition checksum (prefix payload : list Z) : Z :=
  Z.lxor (crc (crc U32_MAX prefix) payload) U32_MAX.

Definition encode (generation : Z) (payload : list Z) : Result (list Z) :=
  if generation =? 0 then Err (Invalid "document slot generation must be positive")
  else if MAX_BYTES <? Z.of_nat (length payload) then Err Full
  else if U32_MAX <? Z.of_nat (length payload) then Err Full
  else
    let prefix := MAGIC ++ le_bytes 8 generation
                    ++ le_bytes 4 (Z.of_nat (length payload)) in
    let sum := checksum prefix payload in
    Ok (prefix ++ le_bytes 4 sum ++ payload).

Definition decode (bytes : list Z) : option Record_ :=
  magic ← slice bytes 0 8;
  if negb (bytes_eqb magic MAGIC) then None else
  gen ← slice bytes 8 16;
  len ← slice bytes 16 20;
  sum ← slice bytes 20 24;
  payload ← slice_from bytes HEADER;
  prefix ← slice bytes 0 20;
  let generation := le_val gen in
  let length := le_val len in
  if (generation =? 0)
     || negb (length =? Z.of_nat (List.length payload))
     || (MAX_BYTES <? length)
     || negb (checksum prefix payload =? le_val sum)
  then None
  else Some (mk_record generation payload).

(** Selects the newest complete generation; a conflict is never guessed. *)
Definition select (a b legacy : option (list Z)) : Result (Slot * Record_) :=
  match a ≫= decode, b ≫= decode with
  | Some x, Some y =>
      if rec_generation x =? rec_generation y then
        if negb (bytes_eqb (rec_payload x) (rec_payload y))
        then Err (Conflict "document slots have conflicting generations")
        else Ok (SlotA, x)
      else if rec_generation y <? rec_generation x then Ok (SlotA, x) else Ok (SlotB, y)
  | Some x, None => Ok (SlotA, x)
  | None, Some y => Ok (SlotB, y)
  | None, None =>
      match legacy with
      | Some payload => Ok (SlotLegacy, mk_record 0 payload)
      | None =>
          if bool_decide (is_Some a) || bool_decide (is_Some b)
          then Err (Invalid "no valid document slot and no legacy document")
          else Ok (SlotLegacy, mk_record 0 [])
      end
  end.

(** ** [Files] *)

Record Files (B : Type) := mk_files {
  backend : B;
  active : Slot;
  generation : Z
}.
Arguments mk_files {B} _ _ _.
Arguments backend {B} _.
Arguments active {B} _.
Arguments generation {B} _.

(** [Files::open]: reads every source it needs before the owner starts to mutate. *)
Definition files_open {B} `{Backend B} (b0 : B) : Result (Files B * list Z) :=
  let (ra, b1) := backend_read SlotA b0 in
  a ← ra;
  let (rb, b2) := backend_read SlotB b1 in
  b ← rb;
  let (rl, b3) :=
    match a ≫= decode, b ≫= decode with
    | None, None => backend_read SlotLegacy b2
    | _, _ => (Ok None, b2)
    end in
  legacy ← rl;
  '(act, r) ← select a b legacy;
  Ok (mk_files b3 act (rec_generation r), rec_payload r).

(** [Files::save]: the inactive slot, read back when the write reported an error. *)
Definition files_save {B} `{Backend B} (bytes : list Z) (f : Files B)
  : Result unit * Files B :=
  match checked_add (generation f) 1 with
  | None => (Err Full, f)
  | Some gen =>
      let target := if decide (active f = SlotA) then SlotB else SlotA in
      match encode gen bytes with
      | Err e => (Err e, f)
      | Ok encoded =>
          let (w, b1) := backend_write target encoded (backend f) in
          let f1 := mk_files b1 (active f) (generation f) in
          match w with
          | Ok _ => (Ok tt, mk_files b1 target gen)
          | Err error =>
              let (rd, b2) := backend_read target b1 in
              let f2 := mk_files b2 (active f) (generation f) in
              match rd with
              | Err e => (Err e, f2)
              | Ok written =>
                  match written ≫= decode with
                  | Some r =>
                      if (rec_generation r =? gen) && bytes_eqb (rec_payload r) bytes
                      then (Ok tt, mk_files b2 target gen)
                      else (Err error, f2)
                  | None => (Err error, f2)
                  end
              end
          end
      end
  end.

#[export] Instance Files_Storage {B} `{Backend B} : Storage (Files B) := {
  storage_path := fun f => backend_path (backend f);
  storage_save := files_save
}.

(** ** The checksum *)

Definition CRC_POLY : Z := 3988292384.

Lemma is_u32_pow c : is_u32 c <-> 0 <= c < 2 ^ 32.
Proof. unfold is_u32, U32_MAX. lia. Qed.

Lemma shiftr1_bound c : is_u32 c -> 0 <= Z.shiftr c 1 < 2 ^ 31.
Proof.
  unfold is_u32, U32_MAX. intros H. rewrite Z.shiftr_div_pow2 by lia.
  change (2 ^ 1) with 2. split; [apply Z.div_pos; lia|]. apply Z.div_lt_upper_bound; lia.
Qed.

Lemma crc_bit_u32 c : is_u32 c -> is_u32 (crc_bit c).
Proof.
  intros H. apply is_u32_pow, lxor_bound; [lia| |].
  - pose proof (shiftr1_bound c H). lia.
  - destruct (Z.land c 1 =? 0); lia.
Qed.

Lemma land1_odd c : (Z.land c 1 =? 0) = negb (Z.odd c).
Proof.
  change 1 with (Z.ones 1). rewrite Z.land_ones by lia. change (2 ^ 1) with 2.
  rewrite Zmod_odd. by destruct (Z.odd c).
Qed.

(** The top bit of the result tells whether the polynomial was added. *)
Lemma crc_bit_top c : is_u32 c -> Z.testbit (crc_bit c) 31 = Z.odd c.
Proof.
  intros H. unfold crc_bit. rewrite Z.lxor_spec, (testbit_high 31) by
    (try apply shiftr1_bound; lia || done).
  rewrite land1_odd. by destruct (Z.odd c).
Qed.

Lemma crc_bit_inj a b : is_u32 a -> is_u32 b -> crc_bit a = crc_bit b -> a = b.
Proof.
  intros Ha Hb H. pose proof (f_equal (fun z => Z.testbit z 31) H) as HO. cbn beta in HO.
  rewrite !crc_bit_top in HO by done. unfold crc_bit in H.
  rewrite !land1_odd, HO in H. apply lxor_cancel_r in H.
  rewrite !Z.shiftr_div_pow2 in H by lia. change (2 ^ 1) with 2 in H.
  rewrite (Z.div_mod a 2), (Z.div_mod b 2) by lia. by rewrite H, !Zmod_odd, HO.
Qed.

Lemma iter_crc_bit n a b :
  is_u32 a -> is_u32 b ->
  is_u32 (Nat.iter n crc_bit a) /\
  (Nat.iter n crc_bit a = Nat.iter n crc_bit b -> a = b).
Proof.
  intros Ha Hb.
  assert (forall k c, is_u32 c -> is_u32 (Nat.iter k crc_bit c)) as HI.
  { intros k c Hc. induction k; cbn; auto using crc_bit_u32. }
  split; [auto|].
  induction n as [|n IH]; cbn; [done|]. intros H. apply IH, crc_bit_inj; auto.
Qed.

Lemma lxor_byte_u32 c b : is_u32 c -> is_byte b -> is_u32 (Z.lxor c b).
Proof.
  intros Hc Hb. apply is_u32_pow, lxor_bound; [lia|by apply is_u32_pow|].
  unfold is_byte in Hb. lia.
Qed.

Lemma crc_byte_u32 c b : is_u32 c -> is_byte b -> is_u32 (crc_byte c b).
Proof.
  intros Hc Hb. pose proof (lxor_byte_u32 c b Hc Hb) as HX.
  exact (proj1 (iter_crc_bit 8 _ _ HX HX)).
Qed.

Lemma crc_byte_inj c d x y :
  is_u32 c -> is_u32 d -> is_byte x -> is_byte y ->
  crc_byte c x = crc_byte d y -> Z.lxor c x = Z.lxor d y.
Proof.
  unfold crc_byte. intros Hc Hd Hx Hy H.
  refine (proj2 (iter_crc_bit 8 (Z.lxor c x) (Z.lxor d y) _ _) H);
    by apply lxor_byte_u32.
Qed.

Lemma crc_byte_inj_l c d b :
  is_u32 c -> is_u32 d -> is_byte b -> crc_byte c b = crc_byte d b -> c = d.
Proof. intros Hc Hd Hb H. apply crc_byte_inj in H; [|done..]. by apply lxor_cancel_r in H. Qed.

Lemma crc_byte_inj_r c a b :
  is_u32 c -> is_byte a -> is_byte b -> crc_byte c a = crc_byte c b -> a = b.
Proof. intros Hc Ha Hb H. apply crc_byte_inj in H; [|done..]. by apply lxor_cancel_l in H. Qed.

Lemma crc_u32 c l : is_u32 c -> Forall is_byte l -> is_u32 (crc c l).
Proof. exact (fold_closed crc_byte is_u32 is_byte crc_byte_u32 l c). Qed.

Lemma U32_MAX_u32 : is_u32 U32_MAX.
Proof. unfold is_u32, U32_MAX. lia. Qed.

#[export] Hint Resolve crc_bit_u32 crc_byte_u32 crc_u32 U32_MAX_u32 : stulp.

Lemma checksum_u32 p l : Forall is_byte p -> Forall is_byte l -> is_u32 (checksum p l).
Proof.
  intros Hp Hl. apply is_u32_pow, lxor_bound; [lia| |unfold U32_MAX; lia].
  apply is_u32_pow. auto with stulp.
Qed.

(** Two payloads that differ in one byte never have the same checksum. *)
Lemma checksum_one_byte p l x y r :
  Forall is_byte p -> Forall is_byte (l ++ x :: r) -> is_byte y ->
  checksum p (l ++ x :: r) = checksum p (l ++ y :: r) -> x = y.
Proof.
  intros Hp Hl Hy H. unfold checksum in H. apply lxor_cancel_r in H.
  exact (fold_one_change crc_byte is_u32 is_byte crc_byte_u32 crc_byte_inj_l crc_byte_inj_r
    l r x y (crc U32_MAX p) (crc_u32 _ _ U32_MAX_u32 Hp) Hl Hy H).
Qed.

Example crc_check_value :
  checksum [] (as_bytes "123456789") = 3421780262.
Proof. vm_compute. reflexivity. Qed.

(** ** The record format: round trip, torn and corrupted records *)

(** The header of a record, up to its checksum. *)
Definition header (g n : Z) : list Z := MAGIC ++ le_bytes 8 g ++ le_bytes 4 n.

Lemma header_bytes g n : Forall is_byte (header g n).
Proof.
  unfold header. rewrite !Forall_app. split_and!; auto with stulp.
  repeat constructor; unfold is_byte; lia.
Qed.

Lemma length_header g n : length (header g n) = 20%nat.
Proof. unfold header. rewrite !length_app, !length_le_bytes. done. Qed.

#[export] Hint Resolve header_bytes : stulp.

Lemma encode_Ok g p bs :
  encode g p = Ok bs <->
  g <> 0 /\ Z.of_nat (length p) <= MAX_BYTES /\
  bs = header g (Z.of_nat (length p))
         ++ le_bytes 4 (checksum (header g (Z.of_nat (length p))) p) ++ p.
Proof.
  unfold encode, header, MAX_BYTES, U32_MAX. split.
  - intros H. inv_ok H. bool_prop. done.
  - intros (Hg & Hp & ->). repeat case_match; bool_prop; try lia. done.
Qed.

(** What [decode] reads from twenty header bytes, four checksum bytes and a payload. *)
Lemma decode_parts g n c p :
  length c = 4%nat -> is_u64 g -> is_u32 n ->
  decode (header g n ++ c ++ p) =
  if (g =? 0) || negb (n =? Z.of_nat (length p)) || (MAX_BYTES <? n)
     || negb (checksum (header g n) p =? le_val c)
  then None else Some (mk_record g p).
Proof.
  intros Hc Hg Hn.
  assert (le_val (le_bytes 8 g) = g) as EG
    by (apply le_val_le_bytes; unfold is_u64, U64_MAX in Hg; lia).
  assert (le_val (le_bytes 4 n) = n) as EN
    by (apply le_val_le_bytes; unfold is_u32, U32_MAX in Hn; lia).
  unfold header. revert EG EN. pose proof (length_le_bytes 8 g) as LG.
  pose proof (length_le_bytes 4 n) as LN. revert LG LN.
  generalize (le_bytes 8 g) (le_bytes 4 n). intros gs ns LG LN EG EN.
  do 9 (destruct gs as [|? gs]; try discriminate LG).
  do 5 (destruct ns as [|? ns]; try discriminate LN).
  do 5 (destruct c as [|? c]; try discriminate Hc).
  unfold decode, slice, slice_from, HEADER, MAGIC.
  cbn [app length Nat.leb andb take drop Nat.sub mbind option_bind].
  unfold bytes_eqb at 1. rewrite bool_decide_true by done.
  cbn [negb]. by rewrite EG, EN.
Qed.

Lemma encode_decode g p bs :
  is_u64 g -> Forall is_byte p -> encode g p = Ok bs ->
  decode bs = Some (mk_record g p).
Proof.
  intros Hg Hp (Hg0 & HL & ->)%encode_Ok. unfold MAX_BYTES in *.
  rewrite decode_parts; [|apply length_le_bytes|done|unfold is_u32, U32_MAX; lia].
  rewrite le_val_le_bytes.
  - rewrite !Z.eqb_refl. unfold MAX_BYTES.
    replace (g =? 0) with false by lia.
    by replace (67108864 <? Z.of_nat (length p)) with false by lia.
  - pose proof (checksum_u32 (header g (Z.of_nat (length p))) p) as HC.
    unfold is_u32, U32_MAX in HC. assert (0 <= checksum (header g (Z.of_nat (length p))) p
      <= 4294967295) by (apply HC; auto with stulp). lia.
Qed.

(** A prefix that stops inside the payload keeps the header. *)
Lemma decode_short g n c p :
  length c = 4%nat -> is_u64 g -> is_u32 n -> n <> Z.of_nat (length p) ->
  decode (header g n ++ c ++ p) = None.
Proof.
  intros Hc Hg Hn HL. rewrite decode_parts by done.
  apply Z.eqb_neq in HL. rewrite HL. by rewrite orb_true_r.
Qed.

Lemma decode_shorter_than_header l : (length l < HEADER)%nat -> decode l = None.
Proof.
  unfold HEADER. intros H. unfold decode.
  destruct (slice l 0 8); cbn; [|done]. case_match; [done|].
  destruct (slice l 8 16); cbn; [|done]. destruct (slice l 16 20); cbn; [|done].
  destruct (slice l 20 24) eqn:E; cbn; [|done].
  apply slice_Some in E as [E _]. lia.
Qed.

Lemma encode_prefix g p bs n :
  is_u64 g -> encode g p = Ok bs -> (n < length bs)%nat -> decode (take n bs) = None.
Proof.
  intros Hg (Hg0 & HL & ->)%encode_Ok Hn.
  set (c := le_bytes 4 (checksum (header g (Z.of_nat (length p))) p)) in *.
  assert (length c = 4%nat) as Hc by apply length_le_bytes.
  rewrite !length_app, length_header, Hc in Hn. unfold MAX_BYTES in *.
  destruct (decide (n < 24)%nat).
  - apply decode_shorter_than_header. unfold HEADER. rewrite length_take. lia.
  - rewrite (app_assoc (header _ _) c), take_app_ge.
    2:{ rewrite length_app, length_header, Hc. lia. }
    rewrite <- app_assoc. apply decode_short; [done|done|unfold is_u32, U32_MAX; lia|].
    rewrite length_app, length_header, Hc, length_take. lia.
Qed.

(** A record in which one payload byte changed. *)
Lemma encode_one_byte g l x r y bs :
  is_u64 g -> Forall is_byte (l ++ x :: r) -> is_byte y -> x <> y ->
  encode g (l ++ x :: r) = Ok bs ->
  decode (take 24 bs ++ l ++ y :: r) = None.
Proof.
  intros Hg Hp Hy Hxy (Hg0 & HL & ->)%encode_Ok.
  set (h := header g (Z.of_nat (length (l ++ x :: r)))) in *.
  set (c := le_bytes 4 (checksum h (l ++ x :: r))) in *.
  assert (length c = 4%nat) as Hc by apply length_le_bytes.
  rewrite (app_assoc h c), take_app_length' by
    (rewrite length_app; unfold h; by rewrite length_header, Hc).
  rewrite <- app_assoc. unfold h at 1. unfold MAX_BYTES in HL.
  rewrite decode_parts; [|done|done|unfold is_u32, U32_MAX; lia].
  fold h. unfold c. rewrite le_val_le_bytes.
  - destruct (checksum h (l ++ y :: r) =? checksum h (l ++ x :: r)) eqn:E.
    + apply Z.eqb_eq in E. symmetry in E. apply checksum_one_byte in E;
        [done|by apply header_bytes|done|done].
    + by rewrite orb_true_r.
  - assert (is_u32 (checksum h (l ++ x :: r))) as HC
      by (apply checksum_u32; [apply header_bytes|done]).
    unfold is_u32, U32_MAX in HC. lia.
Qed.

(** ** What a platform may do *)

(** [view] is the content of the files.  A failed or interrupted write leaves the old
    content, removes the file, or leaves a prefix of the new bytes (all of them when only
    the answer got lost); it never touches another slot.  On a [healthy] backend reads
    succeed. *)
Class BackendSpec (B : Type) `{Backend B} := {
  view : B -> Slot -> option (list Z);
  healthy : B -> Prop;
  read_frame s b r b' t : backend_read s b = (r, b') -> view b' t = view b t;
  read_value s b v b' : backend_read s b = (Ok v, b') -> v = view b s;
  read_healthy s b :
    healthy b -> exists b', backend_read s b = (Ok (view b s), b') /\ healthy b';
  write_ok s l b u b' : backend_write s l b = (Ok u, b') -> view b' s = Some l;
  write_err s l b e b' :
    backend_write s l b = (Err e, b') ->
    view b' s = view b s \/ view b' s = None \/ exists n, view b' s = Some (take n l);
  write_other s l b r b' t :
    backend_write s l b = (r, b') -> t <> s -> view b' t = view b t
}.

(** ** Opening and the disk invariant *)

Definition decoded (v : Slot -> option (list Z)) (s : Slot) : option Record_ :=
  v s ≫= decode.
#[global] Arguments decoded : simpl never.

(** What opening decides on, given the content of the three files. *)
Definition open_view (v : Slot -> option (list Z)) : Result (Slot * Record_) :=
  select (v SlotA) (v SlotB)
    match decoded v SlotA, decoded v SlotB with None, None => v SlotLegacy | _, _ => None end.

(** The slot the next save writes. *)
Definition other_slot (s : Slot) : Slot := match s with SlotA => SlotB | _ => SlotA end.

(** The inactive slot holds nothing valid, an older generation, a copy of the current one,
    or generation [g + 1] of a save whose outcome is uncertain. *)
Definition other_ok (g : Z) (cur : list Z) (pend : option (list Z)) (o : option Record_) : Prop :=
  match o with
  | None => True
  | Some r =>
      rec_generation r < g \/ (rec_generation r = g /\ rec_payload r = cur)
      \/ (rec_generation r = g + 1 /\ pend = Some (rec_payload r))
  end.

Definition disk_inv (v : Slot -> option (list Z)) (act : Slot) (g : Z)
    (cur : list Z) (pend : option (list Z)) : Prop :=
  is_u64 g /\
  match act with
  | SlotLegacy =>
      g = 0 /\ default [] (v SlotLegacy) = cur /\ decoded v SlotB = None
      /\ (forall r, decoded v SlotA = Some r ->
            rec_generation r = 1 /\ pend = Some (rec_payload r))
  | _ =>
      decoded v act = Some (mk_record g cur) /\ 0 < g
      /\ other_ok g cur pend (decoded v (other_slot act))
  end.

Lemma target_other s : (if decide (s = SlotA) then SlotB else SlotA) = other_slot s.
Proof. by destruct s. Qed.

Lemma disk_inv_ext v v' act g cur pend :
  (forall s, v s = v' s) -> disk_inv v act g cur pend -> disk_inv v' act g cur pend.
Proof.
  intros H. unfold disk_inv, decoded. destruct act; cbn; rewrite !H; done.
Qed.

Lemma slot_decode_valid l r :
  Forall is_byte l -> decode l = Some r ->
  is_u64 (rec_generation r) /\ 0 < rec_generation r /\ Forall is_byte (rec_payload r).
Proof.
  intros Hl H. unfold decode in H. inv_ok H.
  match goal with E : slice l 8 16 = Some ?g |- _ =>
    apply slice_Some in E as [E ->] end.
  match goal with E : slice_from l _ = Some _ |- _ =>
    unfold slice_from in E; inv_ok E end.
  cbn [rec_generation rec_payload] in *.
  match goal with E : (_ || _)%bool = false |- _ =>
    repeat (apply orb_false_iff in E as [E ?]) end.
  assert (Forall is_byte (take 8 (drop 8 l))) as HB by by apply Forall_take, Forall_drop.
  pose proof (le_val_bound _ HB) as HV.
  rewrite length_take, length_drop, Nat.min_l in HV by lia.
  cbn -[Z.pow] in HV. change (256 ^ 8) with 18446744073709551616 in HV.
  bool_prop. unfold is_u64, U64_MAX. cbn [Nat.sub] in *.
  split_and!; [lia|lia|lia|by apply Forall_drop].
Qed.

Lemma record_eta r : mk_record (rec_generation r) (rec_payload r) = r.
Proof. by destruct r. Qed.

Lemma open_view_inv v act r :
  (forall s l, v s = Some l -> Forall is_byte l) ->
  open_view v = Ok (act, r) -> disk_inv v act (rec_generation r) (rec_payload r) None.
Proof.
  intros Hb H.
  assert (forall s x, decoded v s = Some x -> is_u64 (rec_generation x) /\ 0 < rec_generation x)
    as HD.
  { unfold decoded. intros s x Hx. destruct (v s) eqn:E; [|done]. cbn in Hx.
    apply slot_decode_valid in Hx as (? & ? & _); eauto. }
  unfold open_view, select in H. unfold disk_inv.
  change (v SlotA ≫= decode) with (decoded v SlotA) in H.
  change (v SlotB ≫= decode) with (decoded v SlotB) in H.
  pose proof (HD SlotA) as HA. pose proof (HD SlotB) as HB.
  destruct (decoded v SlotA) as [x|] eqn:EA, (decoded v SlotB) as [y|] eqn:EB;
    [specialize (HA x eq_refl); specialize (HB y eq_refl)|specialize (HA x eq_refl)
    |specialize (HB y eq_refl)|]; inv_ok H; bool_prop;
    cbn; rewrite ?EA, ?EB, ?record_eta.
  - unfold bytes_eqb in *. destruct HA. split_and!; try done.
    right; left. split; [done|]. symmetry. by eapply bool_decide_eq_true.
  - destruct HA. split_and!; try done. by left.
  - destruct HB. split_and!; try done. left. lia.
  - destruct HA. by split_and!.
  - destruct HB. by split_and!.
  - split_and!; done.
  - split_and!; done.
Qed.

(** A disk that never held a document, after a first save that was torn. *)
Definition torn_fresh (v : Slot -> option (list Z)) (act : Slot) : Prop :=
  act = SlotLegacy /\ v SlotLegacy = None
  /\ open_view v = Err (Invalid "no valid document slot and no legacy document").

Lemma inv_open_view v act g cur pend :
  disk_inv v act g cur pend ->
  torn_fresh v act \/
  exists act' r, open_view v = Ok (act', r) /\
    (rec_payload r = cur \/ pend = Some (rec_payload r)).
Proof.
  intros [Hg Hi]. unfold torn_fresh, open_view, select.
  change (v SlotA ≫= decode) with (decoded v SlotA).
  change (v SlotB ≫= decode) with (decoded v SlotB).
  destruct act; cbn in Hi; [right..|].
  - destruct Hi as (-> & Hp & Ho). destruct (decoded v SlotB) as [y|]; cbn in *; [|eauto].
    destruct (Z.eqb_spec g (rec_generation y)) as [E|E].
    + unfold bytes_eqb. rewrite bool_decide_true; [cbn; eauto|].
      destruct Ho as [?|[[_ ?]|[? _]]]; [lia|done|lia].
    + destruct (Z.ltb_spec (rec_generation y) g); cbn; [eauto|].
      eexists _, _; split; [done|]. right. destruct Ho as [?|[[? _]|[_ ?]]]; [lia|lia|done].
  - destruct Hi as (-> & Hp & Ho). destruct (decoded v SlotA) as [x|]; cbn in *; [|eauto].
    destruct (Z.eqb_spec (rec_generation x) g) as [E|E].
    + unfold bytes_eqb. destruct Ho as [?|[[_ Hx]|[? _]]]; [lia| |lia].
      rewrite bool_decide_true by done. cbn. eauto.
    + destruct (Z.ltb_spec g (rec_generation x)); cbn; [|eauto].
      eexists _, _; split; [done|]. right. destruct Ho as [?|[[? _]|[_ ?]]]; [lia|lia|done].
  - destruct Hi as (-> & HL & -> & HA). destruct (decoded v SlotA) as [x|] eqn:EA.
    + right. eexists _, _; split; [done|]. right. by destruct (HA x eq_refl).
    + destruct (v SlotLegacy) as [l|] eqn:EL; cbn in HL; subst.
      * right. eexists _, _; split; [done|]. by left.
      * destruct (_ || _); [by left|]. right. eexists _, _; split; [done|]. by left.
Qed.

(** The inactive slot now holds the next generation: it becomes the active one. *)
Lemma save_committed v v' act g cur pend l :
  is_u64 (g + 1) -> disk_inv v act g cur pend ->
  decoded v' (other_slot act) = Some (mk_record (g + 1) l) ->
  (forall t, t <> other_slot act -> v' t = v t) ->
  disk_inv v' (other_slot act) (g + 1) l None.
Proof.
  intros Hg1 [Hg Hi] HD HO. split; [done|]. unfold is_u64 in *.
  assert (forall t, t <> other_slot act -> decoded v' t = decoded v t) as HX
    by (intros t Ht; unfold decoded; by rewrite HO).
  destruct act; cbn in *; split_and!; try done; try lia.
  - rewrite HX by done. destruct Hi as (-> & _ & _). cbn. left. lia.
  - rewrite HX by done. destruct Hi as (-> & _ & _). cbn. left. lia.
  - rewrite HX by done. by destruct Hi as (_ & _ & -> & _).
Qed.

(** The inactive slot was written with an uncertain outcome. *)
Lemma save_uncertain v v' act g cur pend l enc :
  is_u64 (g + 1) -> disk_inv v act g cur pend ->
  encode (g + 1) l = Ok enc -> decode enc = Some (mk_record (g + 1) l) ->
  (v' (other_slot act) = v (other_slot act) \/ v' (other_slot act) = None
   \/ exists n, v' (other_slot act) = Some (take n enc)) ->
  (forall t, t <> other_slot act -> v' t = v t) ->
  exists p, (p = pend \/ p = Some l \/ p = None) /\ disk_inv v' act g cur p.
Proof.
  intros Hg1 [Hg Hi] HE HD HT HO.
  assert (exists p, (p = pend \/ p = Some l \/ p = None) /\
    ((decoded v' (other_slot act) = decoded v (other_slot act) /\ p = pend)
     \/ decoded v' (other_slot act) = None
     \/ (decoded v' (other_slot act) = Some (mk_record (g + 1) l) /\ p = Some l)))
    as (p & Hp & HC).
  { unfold decoded. destruct HT as [->|[->|[n ->]]].
    - exists pend. tauto.
    - exists None. tauto.
    - destruct (decide (n < length enc)%nat).
      + exists None. split; [tauto|]. right; left. cbn. by apply (encode_prefix (g + 1) l).
      + exists (Some l). split; [tauto|]. right; right.
        split; [|done]. cbn. rewrite take_ge by lia. done. }
  exists p. split; [done|]. split; [done|].
  assert (forall t, t <> other_slot act -> decoded v' t = decoded v t) as HX
    by (intros t Ht; unfold decoded; by rewrite HO).
  destruct act; cbn in *; rewrite ?HX, ?HO by done.
  1,2: destruct Hi as (-> & ? & Hi); split_and!; try done;
    destruct HC as [[-> ->]|[->|[-> ->]]]; cbn; auto.
  destruct Hi as (-> & -> & -> & Hi). split_and!; try done. intros r.
  destruct HC as [[-> ->]|[->|[-> ->]]]; [apply Hi|done|].
  intros [= <-]. done.
Qed.

Section FilesSpec.
Context {B : Type} {BB : Backend B} {HB : BackendSpec B}.

Lemma files_open_Ok (b : B) f d :
  files_open b = Ok (f, d) ->
  open_view (view b) = Ok (active f, mk_record (generation f) d)
  /\ forall s, view (backend f) s = view b s.
Proof.
  unfold files_open, open_view, decoded. intros H.
  destruct (backend_read SlotA b) as [ra b1] eqn:RA.
  destruct ra as [a|]; cbn in H; [|done].
  destruct (backend_read SlotB b1) as [rb b2] eqn:RB.
  destruct rb as [b'|]; cbn in H; [|done].
  pose proof (fun t => read_frame _ _ _ _ t RA) as FA.
  pose proof (fun t => read_frame _ _ _ _ t RB) as FB.
  apply read_value in RA as ->. apply read_value in RB as ->. rewrite !FA in H.
  destruct (view b SlotA ≫= decode) as [xa|] eqn:EA,
    (view b SlotB ≫= decode) as [xb|] eqn:EB;
    [| | |destruct (backend_read SlotLegacy b2) as [rl b3] eqn:RL;
          destruct rl as [lg|]; cbn in H; [|done];
          pose proof (fun t => read_frame _ _ _ _ t RL) as FL;
          apply read_value in RL as ->; rewrite FB, FA in H];
    cbn in H;
    match type of H with context [select ?x ?y ?z] =>
      destruct (select x y z) as [[act r]|] eqn:ES; [|done] end;
    injection H as <- <-; cbn; (split; [by destruct r|]); intros s;
    rewrite ?FL, ?FB, ?FA; done.
Qed.

Lemma files_open_healthy (b : B) :
  healthy b ->
  match open_view (view b) with
  | Ok (act, r) =>
      exists b', files_open b = Ok (mk_files b' act (rec_generation r), rec_payload r)
  | Err e => files_open b = Err e
  end.
Proof.
  intros H0. unfold files_open, open_view, decoded.
  destruct (read_healthy SlotA b H0) as (b1 & RA & H1). rewrite RA. cbn.
  destruct (read_healthy SlotB b1 H1) as (b2 & RB & H2). rewrite RB. cbn.
  pose proof (fun t => read_frame _ _ _ _ t RA) as FA.
  pose proof (fun t => read_frame _ _ _ _ t RB) as FB. rewrite !FA.
  destruct (read_healthy SlotLegacy b2 H2) as (b3 & RL & H3). rewrite FB, FA in RL.
  destruct (view b SlotA ≫= decode) as [xa|], (view b SlotB ≫= decode) as [xb|];
    rewrite ?RL; cbn;
    destruct (select _ _ _) as [[act r]|]; cbn; eauto.
Qed.

(** One save, as a step between disk invariants. *)
Lemma files_save_step (f : Files B) l r f' cur pend :
  disk_inv (view (backend f)) (active f) (generation f) cur pend -> Forall is_byte l ->
  files_save l f = (r, f') ->
  match r with
  | Ok _ => disk_inv (view (backend f')) (active f') (generation f') l None
  | Err _ => active f' = active f /\ generation f' = generation f /\
      exists p, (p = pend \/ p = Some l \/ p = None) /\
        disk_inv (view (backend f')) (active f') (generation f') cur p
  end.
Proof.
  intros [Hg Hi] Hl H. unfold files_save in H.
  destruct (checked_add (generation f) 1) as [g|] eqn:EG.
  2:{ injection H as <- <-. split_and!; try done. exists pend. split; [by left|]. by split. }
  apply checked_add_Some in EG as [-> Hmax].
  destruct (encode (generation f + 1) l) as [enc|e] eqn:EE.
  2:{ injection H as <- <-. split_and!; try done. exists pend. split; [by left|]. by split. }
  rewrite target_other in H.
  assert (is_u64 (generation f + 1)) as Hg1 by (unfold is_u64 in *; lia).
  pose proof (encode_decode _ _ _ Hg1 Hl EE) as ED.
  destruct (backend_write (other_slot (active f)) enc (backend f)) as [w b1] eqn:EW.
  pose proof (fun t => write_other _ _ _ _ _ t EW) as HO.
  destruct w as [u|e].
  - injection H as <- <-. cbn. apply write_ok in EW.
    apply (save_committed (view (backend f)) _ (active f) _ cur pend); try done.
    unfold decoded. by rewrite EW.
  - pose proof (write_err _ _ _ _ _ EW) as HT.
    destruct (backend_read (other_slot (active f)) b1) as [rd b2] eqn:ER.
    pose proof (fun t => read_frame _ _ _ _ t ER) as HF.
    assert (exists p, (p = pend \/ p = Some l \/ p = None) /\
      disk_inv (view b2) (active f) (generation f) cur p) as HP.
    { destruct (save_uncertain (view (backend f)) (view b1) (active f) (generation f) cur pend
        l enc) as (p & Hp & HI); try done.
      exists p. split; [done|]. eapply disk_inv_ext; [|done]. done. }
    destruct rd as [written|e']; [|injection H as <- <-; by split_and!].
    apply read_value in ER as ->.
    destruct (view b1 (other_slot (active f)) ≫= decode) as [x|] eqn:EX;
      [|injection H as <- <-; by split_and!].
    destruct ((rec_generation x =? generation f + 1) && bytes_eqb (rec_payload x) l)
      eqn:EC; [|injection H as <- <-; by split_and!].
    injection H as <- <-. apply andb_true_iff in EC as [E1 E2]. bool_prop.
    apply bool_decide_eq_true in E2.
    apply (save_committed (view (backend f)) _ (active f) _ cur pend); try done.
    + unfold decoded. cbn. rewrite HF, EX, <- E2, <- E1. by rewrite record_eta.
    + intros t Ht. cbn. by rewrite HF, HO.
Qed.

(** No save writes the legacy document, nor makes it the active one again. *)
Lemma files_save_legacy (f : Files B) l r f' :
  files_save l f = (r, f') ->
  view (backend f') SlotLegacy = view (backend f) SlotLegacy
  /\ (active f' = SlotLegacy -> active f = SlotLegacy /\ is_ok r = false).
Proof.
  unfold files_save. rewrite target_other. intros H.
  destruct (checked_add (generation f) 1); [|by injection H as <- <-].
  destruct (encode z l); [|by injection H as <- <-].
  destruct (backend_write (other_slot (active f)) a (backend f)) as [w b1] eqn:EW.
  apply (write_other _ _ _ _ _ SlotLegacy) in EW; [|by destruct (active f)].
  assert (other_slot (active f) = SlotLegacy -> False) as HN by (by destruct (active f)).
  destruct w; [by injection H as <- <-|].
  destruct (backend_read (other_slot (active f)) b1) as [rd b2] eqn:ER.
  apply (read_frame _ _ _ _ SlotLegacy) in ER. rewrite <- EW, <- ER.
  repeat case_match; by injection H as <- <-.
Qed.

(** A sequence of saves, whatever each of them reports. *)
Fixpoint run_saves (docs : list (list Z)) (f : Files B) : list (Result unit) * Files B :=
  match docs with
  | [] => ([], f)
  | l :: docs =>
      let (r, f1) := files_save l f in
      let (rs, f2) := run_saves docs f1 in (r :: rs, f2)
  end.

(** The documents a later start may find: the last acknowledged one, and those whose save
    failed after it. *)
Fixpoint candidates (cands : list (list Z)) (docs : list (list Z)) (rs : list (Result unit))
  : list (list Z) :=
  match docs, rs with
  | l :: docs, Ok _ :: rs => candidates [l] docs rs
  | l :: docs, Err _ :: rs => candidates (cands ++ [l]) docs rs
  | _, _ => cands
  end.

Lemma run_saves_legacy docs (f : Files B) rs f' :
  run_saves docs f = (rs, f') ->
  view (backend f') SlotLegacy = view (backend f) SlotLegacy /\ (active f' = SlotLegacy -> active f = SlotLegacy).
Proof.
  revert f rs. induction docs as [|l docs IH]; intros f rs H; cbn in H; [by injection H as _ <-|].
  destruct (files_save l f) as [r f1] eqn:E. destruct (run_saves docs f1) as [rs' f2] eqn:E'.
  injection H as _ <-. apply files_save_legacy in E as [E1 E2]. destruct (IH _ _ E') as [-> Ha].
  split; [done|]. intros H. by apply E2, Ha.
Qed.

Lemma run_saves_inv docs (f : Files B) cur pend cands rs f' :
  disk_inv (view (backend f)) (active f) (generation f) cur pend ->
  cur ∈ cands -> (forall p, pend = Some p -> p ∈ cands) ->
  Forall (Forall is_byte) docs -> run_saves docs f = (rs, f') ->
  exists cur' pend',
    disk_inv (view (backend f')) (active f') (generation f') cur' pend'
    /\ cur' ∈ candidates cands docs rs
    /\ (forall p, pend' = Some p -> p ∈ candidates cands docs rs).
Proof.
  intros Hi Hc Hp Hd. revert f cur pend cands rs Hi Hc Hp.
  induction Hd as [|l docs Hl Hd IH]; intros f cur pend cands rs Hi Hc Hp H; cbn in H.
  - injection H as <- <-. eauto.
  - destruct (files_save l f) as [r f1] eqn:ES.
    destruct (run_saves docs f1) as [rs' f2] eqn:ER. injection H as <- <-.
    pose proof (files_save_step f l r f1 cur pend Hi Hl ES) as HS.
    destruct r as [u|e]; cbn.
    + eapply IH; [exact HS|by apply list_elem_of_singleton|done|exact ER].
    + destruct HS as (Ha & Hg & p & HP & HI).
      eapply IH; [exact HI|by apply elem_of_app; left| |exact ER].
      intros q Hq. apply elem_of_app. subst p.
      destruct HP as [HP|[HP|HP]]; [left; by apply Hp|right; apply list_elem_of_singleton; congruence|done].
Qed.
End FilesSpec.

(** ** A disk with scripted faults: the concrete backend of the witnesses *)

Module Disk.

Inductive Fault : Type := Works | Fails | Torn (n : nat) | AnswerLost.

Record disk := mk_disk {
  file_a : option (list Z);
  file_b : option (list Z);
  file_legacy : option (list Z);
  faults : list Fault
}.

Definition content (d : disk) (s : Slot) : option (list Z) :=
  match s with SlotA => file_a d | SlotB => file_b d | SlotLegacy => file_legacy d end.

Definition put (d : disk) (s : Slot) (l : list Z) : disk :=
  let rest := tail (faults d) in
  match s with
  | SlotA => mk_disk (Some l) (file_b d) (file_legacy d) rest
  | SlotB => mk_disk (file_a d) (Some l) (file_legacy d) rest
  | SlotLegacy => mk_disk (file_a d) (file_b d) (Some l) rest
  end.

Definition write (s : Slot) (l : list Z) (d : disk) : Result unit * disk :=
  match faults d with
  | Fails :: rest =>
      (Err EStorage, mk_disk (file_a d) (file_b d) (file_legacy d) rest)
  | Torn n :: _ => (Err EStorage, put d s (take n l))
  | AnswerLost :: _ => (Err EStorage, put d s l)
  | _ => (Ok tt, put d s l)
  end.

#[global] Instance disk_backend : Backend disk := {
  backend_path := fun _ => None;
  backend_read := fun s d => (Ok (content d s), d);
  backend_write := write
}.

Lemma content_put d s l : content (put d s l) s = Some l.
Proof. by destruct s. Qed.

Lemma content_put_ne d s t l : t <> s -> content (put d s l) t = content d t.
Proof. by destruct s, t. Qed.

#[global] Program Instance disk_spec : BackendSpec disk := {
  view := content;
  healthy := fun _ => True
}.
Next Obligation. intros s d r d' t [= <- <-]. done. Qed.
Next Obligation. intros s d v d' [= <- <-]. done. Qed.
Next Obligation. intros s d _. by exists d. Qed.
Next Obligation.
  intros s l d u d'. cbn. unfold write.
  destruct (faults d) as [|[] ?]; intros [= _ <-]; apply content_put.
Qed.
Next Obligation.
  intros s l d e d'. cbn. unfold write.
  destruct (faults d) as [|[] ?]; intros [= _ <-]; rewrite ?content_put.
  - left. by destruct s.
  - eauto.
  - right; right. exists (length l). by rewrite firstn_all.
Qed.
Next Obligation.
  intros s l d r d' t. cbn. unfold write.
  destruct (faults d) as [|[] ?]; intros [= _ <-] Ht; rewrite ?content_put_ne by done;
    by destruct t.
Qed.

End Disk.

(** ** The properties of the two-slot store *)

(** A document that fits is read back exactly as it was written: decoding an encoded
    record gives the same generation and the same payload. *)
Theorem slot_roundtrip g p bs :
  is_u64 g -> Forall is_byte p -> encode g p = Ok bs -> decode bs = Some (mk_record g p).
Proof. apply encode_decode. Qed.

Lemma slot_roundtrip_witness :
  exists bs, encode 7 [1; 2; 3] = Ok bs /\ decode bs = Some (mk_record 7 [1; 2; 3]).
Proof.
  eexists. split; [vm_compute; reflexivity|].
  apply (slot_roundtrip 7 [1; 2; 3]).
  - unfold is_u64, U64_MAX. lia.
  - repeat constructor; unfold is_byte; lia.
  - vm_compute. reflexivity.
Defined.

(** A torn write never is half a configuration: no proper prefix of an encoded record
    decodes, whatever the payload is. *)
Theorem torn_write_is_invalid g p bs n :
  is_u64 g -> encode g p = Ok bs -> (n < length bs)%nat -> decode (take n bs) = None.
Proof. apply encode_prefix. Qed.

Lemma torn_write_is_invalid_witness :
  exists bs, encode 1 [10; 20] = Ok bs /\ decode (take 25 bs) = None.
Proof.
  eexists. split; [vm_compute; reflexivity|].
  apply (torn_write_is_invalid 1 [10; 20]).
  - unfold is_u64, U64_MAX. lia.
  - vm_compute. reflexivity.
  - cbn. lia.
Defined.

(** The checksum detects every change of a single payload byte. *)
Theorem corrupted_byte_is_detected g l x r y bs :
  is_u64 g -> Forall is_byte (l ++ x :: r) -> is_byte y -> x <> y ->
  encode g (l ++ x :: r) = Ok bs ->
  decode (take 24 bs ++ l ++ y :: r) = None.
Proof. apply encode_one_byte. Qed.

Lemma corrupted_byte_is_detected_witness :
  exists bs, encode 3 [5; 6; 7] = Ok bs /\ decode (take 24 bs ++ [5] ++ 66 :: [7]) = None.
Proof.
  eexists. split; [vm_compute; reflexivity|].
  apply (corrupted_byte_is_detected 3 [5] 6 [7] 66).
  - unfold is_u64, U64_MAX. lia.
  - repeat constructor; unfold is_byte; lia.
  - unfold is_byte. lia.
  - lia.
  - vm_compute. reflexivity.
Defined.

(** [select] returns a record that really is stored, with the highest generation of the
    valid ones; a second valid slot of the same generation holds the same payload. *)
Theorem select_newest a b legacy s r :
  select a b legacy = Ok (s, r) -> s <> SlotLegacy ->
  (s = SlotA /\ a ≫= decode = Some r \/ s = SlotB /\ b ≫= decode = Some r) /\
  forall r', (a ≫= decode = Some r' \/ b ≫= decode = Some r') ->
    rec_generation r' <= rec_generation r /\
    (rec_generation r' = rec_generation r -> rec_payload r' = rec_payload r).
Proof.
  unfold select. intros H Hs.
  destruct (a ≫= decode) as [x|], (b ≫= decode) as [y|]; inv_ok H; bool_prop; try done;
    (split; [tauto|]); intros r' [Hr|Hr]; try discriminate Hr; injection Hr as ->;
    try (split; [lia|]; intros; congruence || lia).
  match goal with E : bytes_eqb _ _ = true |- _ => apply bool_decide_eq_true in E end.
  split; [lia|]. congruence.
Qed.

Lemma select_newest_witness :
  exists bs cs, encode 4 [1] = Ok bs /\ encode 5 [2] = Ok cs /\
    forall r', (Some bs ≫= decode = Some r' \/ Some cs ≫= decode = Some r') ->
      rec_generation r' <= 5.
Proof.
  do 2 eexists. split; [vm_compute; reflexivity|]. split; [vm_compute; reflexivity|].
  intros r' Hr.
  refine (proj1 (proj2 (select_newest _ _ None SlotB (mk_record 5 [2]) _ _) r' Hr)).
  - vm_compute. reflexivity.
  - discriminate.
Defined.

(** Crash safety over a whole run.  A store is opened, and any sequence of documents is
    saved, each with whatever outcome the platform gives it.  The next start on a working
    platform opens, and finds the last document whose save was acknowledged or one whose
    save failed after it; never an older one, a mixture or nothing. *)
Theorem files_crash_safe {B} {BB : Backend B} {HB : BackendSpec B}
    (b : B) f cur docs rs f' :
  (forall s l, view b s = Some l -> Forall is_byte l) ->
  files_open b = Ok (f, cur) ->
  (active f = SlotLegacy -> is_Some (view b SlotLegacy)) ->
  Forall (Forall is_byte) docs ->
  run_saves docs f = (rs, f') ->
  healthy (backend f') ->
  exists f'' d, files_open (backend f') = Ok (f'', d) /\ d ∈ candidates [cur] docs rs.
Proof.
  intros Hb Ho HL Hd Hr Hh. apply files_open_Ok in Ho as [Ho Hv].
  pose proof (open_view_inv _ _ _ Hb Ho) as Hi0. cbn in Hi0.
  apply (disk_inv_ext _ (view (backend f))) in Hi0; [|done].
  destruct (run_saves_inv docs f cur None [cur] rs f' Hi0) as (c & p & Hi & Hc & Hp);
    [by apply list_elem_of_singleton|done|done|done|].
  apply inv_open_view in Hi as [(Ha & HN & _)|(act & r & HO & HR)].
  { exfalso. apply run_saves_legacy in Hr as [Hl Hr]. rewrite Hv, HN in Hl.
    destruct (HL (Hr Ha)) as [? ?]. congruence. }
  pose proof (files_open_healthy (backend f') Hh) as HF. rewrite HO in HF.
  destruct HF as [b' HF]. do 2 eexists. split; [exact HF|].
  destruct HR as [->|HR]; [done|]. by apply Hp.
Qed.

(** Two saves on a disk whose second write tears after thirty bytes. *)
Definition torn_disk : Disk.disk :=
  Disk.mk_disk None None (Some [123; 125]) [Disk.Works; Disk.Torn 30].

Lemma files_crash_safe_witness :
  exists f f', files_open torn_disk = Ok (f, [123; 125]) /\
    run_saves [[1; 2]; [3; 4; 5; 6; 7; 8; 9]] f = ([Ok tt; Err EStorage], f') /\
    exists f'' d, files_open (backend f') = Ok (f'', d) /\
      d ∈ [[1; 2]; [3; 4; 5; 6; 7; 8; 9]].
Proof.
  do 2 eexists. split; [vm_compute; reflexivity|]. split; [vm_compute; reflexivity|].
  refine (files_crash_safe torn_disk _ [123; 125] [[1; 2]; [3; 4; 5; 6; 7; 8; 9]]
    [Ok tt; Err EStorage] _ _ _ _ _ _ _).
  - intros [] l; cbn; try discriminate. intros [= <-].
    repeat constructor; unfold is_byte; lia.
  - vm_compute. reflexivity.
  - intros _. cbn. eauto.
  - repeat constructor; unfold is_byte; lia.
  - vm_compute. reflexivity.
  - exact I.
Defined.

(** A save never writes the slot the current document lives in, whatever it returns. *)
Theorem files_save_keeps_active {B} {BB : Backend B} {HB : BackendSpec B} (f : Files B) l r f' :
  files_save l f = (r, f') -> view (backend f') (active f) = view (backend f) (active f).
Proof.
  unfold files_save. rewrite target_other. intros H.
  destruct (checked_add (generation f) 1); [|by injection H as <- <-].
  destruct (encode z l); [|by injection H as <- <-].
  destruct (backend_write (other_slot (active f)) a (backend f)) as [w b1] eqn:EW.
  apply (write_other _ _ _ _ _ (active f)) in EW; [|by destruct (active f)].
  destruct w; [by injection H as <- <-|].
  destruct (backend_read (other_slot (active f)) b1) as [rd b2] eqn:ER.
  apply (read_frame _ _ _ _ (active f)) in ER. rewrite <- EW, <- ER.
  repeat case_match; by injection H as <- <-.
Qed.

Lemma files_save_keeps_active_witness :
  exists f', files_save [9] (mk_files torn_disk SlotLegacy 0) = (Ok tt, f') /\
    view (backend f') SlotLegacy = Some [123; 125].
Proof.
  eexists. split; [vm_compute; reflexivity|].
  refine (files_save_keeps_active (mk_files torn_disk SlotLegacy 0) [9] (Ok tt) _ _).
  vm_compute. reflexivity.
Defined.

(** A store without a legacy document whose first write was torn does not open again:
    the half-written slot is present but invalid, and [select] refuses to start empty. *)
Theorem fresh_torn_store_does_not_open torn :
  decode torn = None ->
  select (Some torn) None None
    = Err (Invalid "no valid document slot and no legacy document").
Proof. intros H. unfold select. cbn. by rewrite H. Qed.

Lemma fresh_torn_store_does_not_open_witness :
  exists f f', files_open (Disk.mk_disk None None None [Disk.Torn 10]) = Ok (f, []) /\
    files_save [123; 125] f = (Err EStorage, f') /\
    Disk.file_a (backend f') = Some (take 10 MAGIC ++ [1; 0]) /\
    select (Some (take 10 MAGIC ++ [1; 0])) None None
      = Err (Invalid "no valid document slot and no legacy document").
Proof.
  do 2 eexists. split; [vm_compute; reflexivity|]. split; [vm_compute; reflexivity|].
  split; [vm_compute; reflexivity|].
  apply fresh_torn_store_does_not_open. vm_compute. reflexivity.
Defined.
