(* ===== verification/Float.v ===== *)
(** * Float: IEEE 754 numbers as Rust's [f64] and [f32]

    Values are the standard library's [spec_float]; the operations are its correctly rounded
    ones at the two formats.  [f64_of_decimal] is [str::parse::<f64>] on an exact decimal and
    [f64_display] is the [Display] text: the shortest digits that read back to the same
    number, the nearest of them, without exponent. *)

From Stdlib Require Import ZArith Lia Ascii String.
From Stdlib Require Import SpecFloat.
From S2P Require Import Prelude Text.

Local Open Scope Z_scope.

Definition f64 := spec_float.
Definition f32 := spec_float.

Definition prec64 : Z := 53.
Definition emax64 : Z := 1024.
Definition prec32 : Z := 24.
Definition emax32 : Z := 128.

Definition is_finite (x : spec_float) : bool :=
  match x with S754_zero _ | S754_finite _ _ _ => true | _ => false end.

(** [z as f64] for a [u64] or an [i64] *)
Definition f64_of_Z (z : Z) : f64 := binary_normalize prec64 emax64 z 0 false.

(** [==], [<], [<=] on floats: all false on a NaN *)
Definition f_eqb (a b : spec_float) : bool := SFeqb a b.
Definition f_ltb (a b : spec_float) : bool := SFltb a b.
Definition f_leb (a b : spec_float) : bool := SFleb a b.

Definition f64_add := SFadd prec64 emax64.
Definition f64_sub := SFsub prec64 emax64.
Definition f64_mul := SFmul prec64 emax64.
Definition f64_div := SFdiv prec64 emax64.
Definition f32_add := SFadd prec32 emax32.
Definition f32_sub := SFsub prec32 emax32.
Definition f32_mul := SFmul prec32 emax32.
Definition f32_div := SFdiv prec32 emax32.
Definition f_abs (x : spec_float) : spec_float := SFabs x.

Definition is_nan (x : spec_float) : bool := match x with S754_nan => true | _ => false end.

(** [a.max(b)] and [a.min(b)]: a NaN loses *)
Definition f_max (a b : spec_float) : spec_float :=
  if is_nan a then b else if is_nan b then a else if f_ltb a b then b else a.
Definition f_min (a b : spec_float) : spec_float :=
  if is_nan a then b else if is_nan b then a else if f_ltb b a then b else a.

(** [x as f32] and [f64::from(x)] *)
Definition convert (prec emax : Z) (x : spec_float) : spec_float :=
  match x with
  | S754_finite s m e => binary_round prec emax s m e
  | _ => x
  end.
Definition to_f32 (x : f64) : f32 := convert prec32 emax32 x.
Definition to_f64 (x : f32) : f64 := convert prec64 emax64 x.

(** Truncation toward zero of a finite number *)
Definition trunc (s : bool) (m : positive) (e : Z) : Z :=
  let a := if 0 <=? e then Z.pos m * 2 ^ e else Z.pos m / 2 ^ (- e) in
  if s then - a else a.

(** [x as uN] / [x as iN]: saturating, NaN gives zero *)
Definition to_int (lo hi : Z) (x : spec_float) : Z :=
  match x with
  | S754_nan => 0
  | S754_zero _ => 0
  | S754_infinity s => if s then lo else hi
  | S754_finite s m e => Z.max lo (Z.min hi (trunc s m e))
  end.
Definition to_u64 (x : f64) : Z := to_int 0 U64_MAX x.
Definition to_u16 (x : f64) : Z := to_int 0 65535 x.
Definition to_i64 (x : f64) : Z := to_int (- 2 ^ 63) (2 ^ 63 - 1) x.

(** The [f64] nearest to [m * 10 ^ e] (ties to even) *)
Definition f64_of_decimal (neg : bool) (m e : Z) : f64 :=
  match m with
  | Z.pos p =>
      if 0 <=? e then binary_normalize prec64 emax64
                        ((if neg then -1 else 1) * m * 10 ^ e) 0 false
      else SFdiv prec64 emax64 (S754_finite neg p 0) (S754_finite false (Z.to_pos (10 ^ (- e))) 0)
  | _ => S754_zero neg
  end.

(** ** [Display] of an [f64] *)

(** Decimal digits of a natural number, most significant first *)
Fixpoint digits_fuel (fuel : nat) (z : Z) (acc : list Z) : list Z :=
  match fuel with
  | O => acc
  | S fuel =>
      let acc := (48 + z mod 10) :: acc in
      if z <? 10 then acc else digits_fuel fuel (z / 10) acc
  end.

(** [format!("{}", z)] for a non-negative integer *)
Definition show_nat (z : Z) : list Z := digits_fuel (S (Z.to_nat (Z.log2 z))) z [].

(** [format!("{}", z)] for any integer *)
Definition show_Z (z : Z) : list Z := if z <? 0 then 45 :: show_nat (- z) else show_nat z.

(** The decimal exponent [k] with [10^(k-1) <= num/den < 10^k], from an estimate *)
Definition below_pow10 (num den k : Z) : bool :=
  if 0 <=? k then num <? 10 ^ k * den else num * 10 ^ (- k) <? den.

Fixpoint find_exp (fuel : nat) (num den k : Z) : Z :=
  match fuel with
  | O => k
  | S fuel => if below_pow10 num den k then k else find_exp fuel num den (k + 1)
  end.

(** [n] digits: the two neighbours of the number, those that read back, the nearer first *)
Definition candidate (num den k n : Z) (v : f64) : option Z :=
  let s := k - n in
  let '(a, b) := if 0 <=? s then (num, den * 10 ^ s) else (num * 10 ^ (- s), den) in
  let d := a / b in
  let ok x := f_eqb (f64_of_decimal false x s) v in
  let near_low := 2 * (a - d * b) <=? b in
  match ok d, ok (d + 1) with
  | true, true => Some (if near_low then d else d + 1)
  | true, false => Some d
  | false, true => Some (d + 1)
  | false, false => None
  end.

Fixpoint shortest (fuel : nat) (num den k n : Z) (v : f64) : Z * Z :=
  match fuel with
  | O => (num / den, 0)
  | S fuel =>
      match candidate num den k n v with
      | Some d => (d, k - n)
      | None => shortest fuel num den k (n + 1) v
      end
  end.

(** The digits [ds] times [10 ^ s], written without exponent *)
Definition place_point (ds : list Z) (s : Z) : list Z :=
  let n := Z.of_nat (length ds) in
  if 0 <=? s then ds ++ repeat 48 (Z.to_nat s)
  else if 0 <? n + s then take (Z.to_nat (n + s)) ds ++ 46 :: drop (Z.to_nat (n + s)) ds
  else 48 :: 46 :: repeat 48 (Z.to_nat (- (n + s))) ++ ds.

Definition f64_display (x : f64) : list Z :=
  match x with
  | S754_nan => as_bytes "NaN"
  | S754_infinity s => as_bytes (if s then "-inf" else "inf")
  | S754_zero s => as_bytes (if s then "-0" else "0")
  | S754_finite s m e =>
      let '(num, den) := if 0 <=? e then (Z.pos m * 2 ^ e, 1) else (Z.pos m, 2 ^ (- e)) in
      let k := find_exp 8 num den ((Z.log2 num - Z.log2 den) * 30103 / 100000 - 1) in
      let '(d, sc) := shortest 17 num den k 1 (S754_finite false m e) in
      (if s then [45] else []) ++ place_point (show_nat d) sc
  end.

(** ** Checks *)

Example display_tenth : f64_display (f64_of_decimal false 1 (-1)) = as_bytes "0.1".
Proof. vm_compute. reflexivity. Qed.
Example display_neg : f64_display (f64_of_decimal true 2125 (-2)) = as_bytes "-21.25".
Proof. vm_compute. reflexivity. Qed.
Example display_third :
  f64_display (f64_div (f64_of_Z 1) (f64_of_Z 3)) = as_bytes "0.3333333333333333".
Proof. vm_compute. reflexivity. Qed.
Example display_integral : f64_display (f64_of_Z 1500) = as_bytes "1500".
Proof. vm_compute. reflexivity. Qed.
Example display_small : f64_display (f64_of_decimal false 5 (-324))
  = as_bytes (String.append "0." (of_bytes (repeat 48 323 ++ [53]))).
Proof. vm_compute. reflexivity. Qed.
Example decimal_overflow : f64_of_decimal false 1 400 = S754_infinity false.
Proof. vm_compute. reflexivity. Qed.

(** ** Lemmas *)

Lemma digits_fuel_digits fuel z acc :
  0 <= z -> Forall (fun c => between 48 c 57 = true) acc ->
  Forall (fun c => between 48 c 57 = true) (digits_fuel fuel z acc).
Proof.
  revert z acc. induction fuel as [|fuel IH]; intros z acc Hz Ha; cbn; [done|].
  assert (between 48 (48 + z mod 10) 57 = true).
  { unfold between. pose proof (Z.mod_pos_bound z 10). lia. }
  destruct (z <? 10); [by constructor|]. apply IH; [apply Z.div_pos; lia|by constructor].
Qed.

(** The number a list of digits denotes, after a number [v] *)
Definition digits_val (v : Z) (l : list Z) : Z := fold_left (fun v c => v * 10 + (c - 48)) l v.

Lemma length_digits_fuel f y a : (length a <= length (digits_fuel f y a))%nat.
Proof.
  revert y a. induction f as [|f IH]; intros y a; cbn [digits_fuel]; [done|].
  destruct (y <? 10); [cbn; lia|].
  pose proof (IH (y / 10) (48 + y mod 10 :: a)) as H. cbn [length] in H. lia.
Qed.

Lemma digits_fuel_val fuel z acc v :
  0 <= z < 2 ^ Z.of_nat fuel ->
  digits_val v (digits_fuel fuel z acc) =
  digits_val (v * 10 ^ Z.of_nat (length (digits_fuel fuel z acc) - length acc) + z) acc.
Proof.
  revert z acc. induction fuel as [|fuel IH]; intros z acc Hz.
  - change (2 ^ Z.of_nat 0) with 1 in Hz. cbn [digits_fuel]. rewrite Nat.sub_diag.
    change (Z.of_nat 0) with 0. rewrite Z.pow_0_r. f_equal. lia.
  - cbn [digits_fuel]. destruct (Z.ltb_spec z 10) as [H|H].
    + cbn [length]. replace (S (length acc) - length acc)%nat with 1%nat by lia.
      change (Z.of_nat 1) with 1. rewrite Z.pow_1_r.
      unfold digits_val. cbn [fold_left]. rewrite Z.mod_small by lia. f_equal. lia.
    + assert (0 <= z / 10 < 2 ^ Z.of_nat fuel) as Hz'.
      { rewrite Nat2Z.inj_succ, Z.pow_succ_r in Hz by lia. split; [apply Z.div_pos; lia|].
        apply Z.div_lt_upper_bound; lia. }
      rewrite IH by done. set (ds := (48 + z mod 10) :: acc). set (y := z / 10).
      pose proof (length_digits_fuel fuel y ds) as HG.
      set (k := (length (digits_fuel fuel y ds) - length ds)%nat).
      assert (length ds = S (length acc)) as HD by done.
      replace (length (digits_fuel fuel y ds) - length acc)%nat with (S k)
        by (unfold k; lia).
      unfold ds, y.
      unfold digits_val. cbn [fold_left]. f_equal.
      rewrite Nat2Z.inj_succ, Z.pow_succ_r by lia.
      pose proof (Z.div_mod z 10). lia.
Qed.

Lemma show_nat_digits z : 0 <= z -> Forall (fun c => between 48 c 57 = true) (show_nat z).
Proof. intros. apply digits_fuel_digits; [done|constructor]. Qed.

Lemma show_nat_val z : 0 <= z -> digits_val 0 (show_nat z) = z.
Proof.
  intros Hz. unfold show_nat. rewrite digits_fuel_val; [cbn; lia|].
  split; [done|]. rewrite Nat2Z.inj_succ, Z2Nat.id by apply Z.log2_nonneg.
  destruct (Z.eq_dec z 0) as [->|]; [cbn; lia|]. apply Z.log2_spec. lia.
Qed.
