(* ===== verification/Value.v ===== *)
(** * Value: JSON values and the accessors of the core

    [Number], [Object] and [Value] model [vendor/types/src/json.rs]; the accessors [get],
    [text], [uint], ..., [set], [remove], [fields], [push] and the comparison [equal] model
    [crates/core/src/json.rs].  An object is its list of pairs in document order.  Copies
    ([try_clone], [copy], [string]) are the identity: allocation is taken to succeed. *)

From Stdlib Require Import ZArith Lia Ascii String.
From S2P Require Import Prelude Text Errors Float.

Local Open Scope Z_scope.

(** ** Data *)

Inductive Number : Type :=
| Int (z : Z)
| Uint (z : Z)
| Float (f : f64).

(** The generated induction principle ignores the nesting; [Value_ind] below replaces it. *)
Unset Elimination Schemes.
Inductive Value : Type :=
| VNull
| VBool (b : bool)
| VNumber (n : Number)
| VString (s : string)
| VArray (a : list Value)
| VObject (o : list (string * Value)).
Set Elimination Schemes.

Abbreviation Object := (list (string * Value)).

Section ValueInd.
Variable P : Value -> Prop.
Hypothesis HNull : P VNull.
Hypothesis HBool : forall b, P (VBool b).
Hypothesis HNumber : forall n, P (VNumber n).
Hypothesis HString : forall s, P (VString s).
Hypothesis HArray : forall a, Forall P a -> P (VArray a).
Hypothesis HObject : forall o, Forall (fun kv => P kv.2) o -> P (VObject o).

Fixpoint Value_ind (v : Value) : P v :=
  match v with
  | VNull => HNull
  | VBool b => HBool b
  | VNumber n => HNumber n
  | VString s => HString s
  | VArray a => HArray a
      ((fix go (l : list Value) : Forall P l :=
          match l with
          | [] => Forall_nil_2 P
          | x :: l => Forall_cons_2 P x l (Value_ind x) (go l)
          end) a)
  | VObject o => HObject o
      ((fix go (l : Object) : Forall (fun kv => P kv.2) l :=
          match l with
          | [] => Forall_nil_2 _
          | x :: l => Forall_cons_2 _ x l (Value_ind x.2) (go l)
          end) o)
  end.
End ValueInd.

(** ** [Number] *)

Definition as_i64_n (n : Number) : option Z :=
  match n with
  | Int v => Some v
  | Uint v => if v <=? 9223372036854775807 then Some v else None
  | Float _ => None
  end.

Definition as_u64_n (n : Number) : option Z :=
  match n with Uint v => Some v | _ => None end.

Definition as_f64 (n : Number) : f64 :=
  match n with Int v => f64_of_Z v | Uint v => f64_of_Z v | Float f => f end.

(** ** [Object] *)

Fixpoint obj_get (o : Object) (key : string) : option Value :=
  match o with
  | [] => None
  | (k, v) :: o => if (k =? key)%string then Some v else obj_get o key
  end.

Definition obj_push (o : Object) (key : string) (v : Value) : Object := o ++ [(key, v)].

(** Replaces the value in place, or appends the pair. *)
Fixpoint obj_insert (o : Object) (key : string) (v : Value) : Object :=
  match o with
  | [] => [(key, v)]
  | (k, w) :: o => if (k =? key)%string then (k, v) :: o else (k, w) :: obj_insert o key v
  end.

(** Removes the first pair with this key; the order of the rest stays. *)
Fixpoint obj_remove (o : Object) (key : string) : Object :=
  match o with
  | [] => []
  | (k, w) :: o => if (k =? key)%string then o else (k, w) :: obj_remove o key
  end.

(** ** [Value] *)

Definition as_str (v : Value) : option string := match v with VString s => Some s | _ => None end.
Definition as_object (v : Value) : option Object := match v with VObject o => Some o | _ => None end.
Definition as_array (v : Value) : option (list Value) := match v with VArray a => Some a | _ => None end.
Definition as_bool (v : Value) : option bool := match v with VBool b => Some b | _ => None end.
Definition as_i64 (v : Value) : option Z := match v with VNumber n => as_i64_n n | _ => None end.
Definition as_u64 (v : Value) : option Z := match v with VNumber n => as_u64_n n | _ => None end.
Definition is_null (v : Value) : bool := match v with VNull => true | _ => false end.
Definition value_int (z : Z) : Value := VNumber (if 0 <=? z then Uint z else Int z).
Definition value_uint (z : Z) : Value := VNumber (Uint z).

(** ** The accessors of [crates/core/src/json.rs] *)

Definition object : Value := VObject [].

Definition get (v : Value) (key : string) : option Value :=
  as_object v ≫= fun o => obj_get o key.

(** [json::get(v, key).unwrap_or(&Value::Null)] *)
Definition get_null (v : Value) (key : string) : Value := default VNull (get v key).

Definition text (v : Value) (key : string) : string := default "" (get v key ≫= as_str).
Definition uint (v : Value) (key : string) : Z := default 0 (get v key ≫= as_u64).
Definition boolean (v : Value) (key : string) : bool := default false (get v key ≫= as_bool).
Definition array (v : Value) (key : string) : list Value := default [] (get v key ≫= as_array).

Definition set (v : Value) (key : string) (replacement : Value) : Result Value :=
  match as_object v with
  | Some o => Ok (VObject (obj_insert o key replacement))
  | None => Err (Invalid "expected object")
  end.

Definition remove (v : Value) (key : string) : Result Value :=
  match as_object v with
  | Some o => Ok (VObject (obj_remove o key))
  | None => Err (Invalid "expected object")
  end.

(** Removes several fields, one after another. *)
Fixpoint remove_all (v : Value) (keys : list string) : Result Value :=
  match keys with
  | [] => Ok v
  | k :: keys => v' ← remove v k; remove_all v' keys
  end.

(** Sets several fields, one after another. *)
Fixpoint set_all (v : Value) (pairs : Object) : Result Value :=
  match pairs with
  | [] => Ok v
  | (k, w) :: pairs => v' ← set v k w; set_all v' pairs
  end.

Definition fields (pairs : Object) : Value := VObject pairs.

(** Appends at most [max] values. *)
Definition push {A} (values : list A) (value : A) (max : Z) : Result (list A) :=
  if max <=? Z.of_nat (length values) then Err Full else Ok (values ++ [value]).

(** [for x in xs { push(&mut out, f(x)?, max)? }] *)
Fixpoint push_all {A B} (f : A -> Result B) (max : Z) (xs : list A) (out : list B)
  : Result (list B) :=
  match xs with
  | [] => Ok out
  | x :: xs => y ← f x; out' ← push out y max; push_all f max xs out'
  end.

Definition opt_Z_eqb (a : option Z) (b : Z) : bool :=
  match a with Some a => a =? b | None => false end.

(** Number notation does not change the value; integers above 2^53 keep their precision. *)
Definition number_equal (a b : Number) : bool :=
  let float_uint f u :=
    is_finite f && f_leb (f64_of_Z 0) f && f_ltb f (f64_of_Z 18446744073709551616)
      && (to_u64 f =? u) && f_eqb (f64_of_Z u) f in
  let float_int f i :=
    is_finite f && f_leb (f64_of_Z (-9223372036854775808)) f
      && f_ltb f (f64_of_Z 9223372036854775808)
      && (to_i64 f =? i) && f_eqb (f64_of_Z i) f in
  match a, b with
  | Int i, Uint u | Uint u, Int i => (0 <=? i) && (i =? u)
  | Float f, Uint u | Uint u, Float f => float_uint f u
  | Float f, Int i | Int i, Float f => float_int f i
  | Int x, Int y => x =? y
  | Uint x, Uint y => x =? y
  | Float x, Float y => f_eqb x y
  end.

(** The order of an object's fields carries no meaning. *)
Fixpoint equal (a b : Value) {struct a} : bool :=
  match a, b with
  | VNumber x, VNumber y => number_equal x y
  | VObject x, VObject y =>
      (length x =? length y)%nat
      && forallb (fun kv => match kv with (k, v) =>
           match obj_get y k with Some w => equal v w | None => false end end) x
  | VArray x, VArray y =>
      (length x =? length y)%nat
      && (fix go (l k : list Value) {struct l} : bool :=
            match l, k with v :: l, w :: k => equal v w && go l k | _, _ => true end) x y
  | VNull, VNull => true
  | VBool x, VBool y => Bool.eqb x y
  | VString x, VString y => (x =? y)%string
  | _, _ => false
  end.

(** ** Well-formed values: what the parser produces and the writer keeps *)

Definition obj_keys (o : Object) : list string := map fst o.

Fixpoint nodup_keys (l : list string) : bool :=
  match l with
  | [] => true
  | k :: l => negb (existsb (String.eqb k) l) && nodup_keys l
  end.

Definition number_ok (n : Number) : bool :=
  match n with
  | Int z => (-9223372036854775808 <=? z) && (z <=? 0)
  | Uint z => (0 <=? z) && (z <=? U64_MAX)
  | Float _ => true
  end.

(** Object keys are unique, strings are UTF-8, numbers are in range. *)
Fixpoint wf_value (v : Value) : bool :=
  match v with
  | VNumber n => number_ok n
  | VString s => valid_str s
  | VArray a => forallb wf_value a
  | VObject o =>
      nodup_keys (obj_keys o)
      && forallb (fun kv => match kv with (k, w) => valid_str k && wf_value w end) o
  | _ => true
  end.

(** ** Lemmas: objects *)

Lemma obj_get_insert_eq o k v : obj_get (obj_insert o k v) k = Some v.
Proof.
  induction o as [|[k' w] o IH]; cbn; [by rewrite String.eqb_refl|].
  destruct (k' =? k)%string eqn:E; cbn; by rewrite E.
Qed.

Lemma obj_get_insert_ne o k k' v : k <> k' -> obj_get (obj_insert o k v) k' = obj_get o k'.
Proof.
  intros Hne. induction o as [|[k0 w] o IH]; cbn.
  - by apply String.eqb_neq in Hne as ->.
  - destruct (String.eqb_spec k0 k) as [->|]; cbn; [by apply String.eqb_neq in Hne as ->|].
    destruct (k0 =? k')%string; auto.
Qed.

Lemma obj_get_remove_ne o k k' : k <> k' -> obj_get (obj_remove o k) k' = obj_get o k'.
Proof.
  intros Hne. induction o as [|[k0 w] o IH]; cbn; [done|].
  destruct (String.eqb_spec k0 k) as [->|]; cbn; [by apply String.eqb_neq in Hne as ->|].
  destruct (k0 =? k')%string; auto.
Qed.

Lemma existsb_keys k l : existsb (String.eqb k) l = true <-> k ∈ l.
Proof.
  rewrite existsb_exists, list_elem_of_In. split.
  - intros (x & Hx & ->%String.eqb_eq). done.
  - intros H. exists k. by rewrite String.eqb_refl.
Qed.

Lemma nodup_keys_NoDup l : nodup_keys l = true <-> NoDup l.
Proof.
  induction l as [|k l IH]; cbn; [split; [constructor|done]|].
  rewrite NoDup_cons, andb_true_iff, negb_true_iff, <- IH, <- existsb_keys.
  by rewrite not_true_iff_false.
Qed.

Lemma obj_get_None o k : obj_get o k = None <-> k ∉ obj_keys o.
Proof.
  induction o as [|[k' v] o IH]; cbn; [set_solver|].
  destruct (String.eqb_spec k' k) as [->|]; set_solver.
Qed.

Lemma obj_get_Some_In o k v : obj_get o k = Some v -> (k, v) ∈ o.
Proof.
  induction o as [|[k' w] o IH]; cbn; [done|].
  destruct (String.eqb_spec k' k) as [->|]; [intros [= ->]|]; set_solver.
Qed.

Lemma obj_get_In o k v : NoDup (obj_keys o) -> (k, v) ∈ o -> obj_get o k = Some v.
Proof.
  induction o as [|[k' w] o IH]; cbn; [set_solver|]. rewrite NoDup_cons. intros [Hk Hn] Hi.
  apply elem_of_cons in Hi as [[= -> ->]|Hi]; [by rewrite String.eqb_refl|].
  destruct (String.eqb_spec k' k) as [->|]; [|auto].
  exfalso. apply Hk. apply list_elem_of_In, in_map_iff. exists (k, v).
  split; [done|]. by apply list_elem_of_In.
Qed.

Lemma obj_keys_insert o k v :
  obj_keys (obj_insert o k v) =
  if existsb (String.eqb k) (obj_keys o) then obj_keys o else obj_keys o ++ [k].
Proof.
  induction o as [|[k' w] o IH]; cbn; [done|].
  rewrite (String.eqb_sym k k'). destruct (k' =? k)%string; cbn; [done|].
  fold (obj_keys (obj_insert o k v)). fold (obj_keys o). rewrite IH.
  by destruct (existsb (String.eqb k) (obj_keys o)).
Qed.

Lemma obj_insert_nodup o k v : NoDup (obj_keys o) -> NoDup (obj_keys (obj_insert o k v)).
Proof.
  intros H. rewrite obj_keys_insert. destruct (existsb _ _) eqn:E; [done|].
  apply NoDup_app. split_and!; [done| |apply NoDup_singleton].
  intros x Hx ->%list_elem_of_singleton. apply existsb_keys in Hx. congruence.
Qed.

Lemma obj_keys_remove_sub o k x : x ∈ obj_keys (obj_remove o k) -> x ∈ obj_keys o.
Proof.
  induction o as [|[k' w] o IH]; cbn; [done|].
  destruct (k' =? k)%string; cbn; set_solver.
Qed.

Lemma obj_remove_nodup o k : NoDup (obj_keys o) -> NoDup (obj_keys (obj_remove o k)).
Proof.
  induction o as [|[k' w] o IH]; cbn; [done|]. rewrite NoDup_cons. intros [Hk Hn].
  destruct (k' =? k)%string; cbn; [done|]. apply NoDup_cons. split; [|auto].
  intros ?%obj_keys_remove_sub. done.
Qed.

Lemma obj_get_remove_eq o k : NoDup (obj_keys o) -> obj_get (obj_remove o k) k = None.
Proof.
  induction o as [|[k' w] o IH]; cbn; [done|]. rewrite NoDup_cons. intros [Hk Hn].
  destruct (String.eqb_spec k' k) as [->|E]; cbn; [by apply obj_get_None|].
  apply String.eqb_neq in E. by rewrite E, IH.
Qed.

(** ** Lemmas: fields *)

Lemma set_Ok v k w v' :
  set v k w = Ok v' <-> exists o, v = VObject o /\ v' = VObject (obj_insert o k w).
Proof.
  unfold set. destruct v; cbn; split; try done; try (intros (? & ? & ?); done).
  - intros [= <-]. eauto.
  - intros (o' & [= ->] & ->). done.
Qed.

Lemma remove_Ok v k v' :
  remove v k = Ok v' <-> exists o, v = VObject o /\ v' = VObject (obj_remove o k).
Proof.
  unfold remove. destruct v; cbn; split; try done; try (intros (? & ? & ?); done).
  - intros [= <-]. eauto.
  - intros (o' & [= ->] & ->). done.
Qed.

Lemma get_set_eq v k w v' : set v k w = Ok v' -> get v' k = Some w.
Proof. intros (o & -> & ->)%set_Ok. cbn. apply obj_get_insert_eq. Qed.

Lemma get_set_ne v k k' w v' : set v k w = Ok v' -> k <> k' -> get v' k' = get v k'.
Proof. intros (o & -> & ->)%set_Ok Hk. cbn. by apply obj_get_insert_ne. Qed.

Lemma get_remove_ne v k k' v' : remove v k = Ok v' -> k <> k' -> get v' k' = get v k'.
Proof. intros (o & -> & ->)%remove_Ok Hk. cbn. by apply obj_get_remove_ne. Qed.

Lemma text_set_ne v k k' w v' : set v k w = Ok v' -> k <> k' -> text v' k' = text v k'.
Proof. intros H Hk. unfold text. by rewrite (get_set_ne _ _ _ _ _ H Hk). Qed.

Lemma text_set_eq v k s v' : set v k (VString s) = Ok v' -> text v' k = s.
Proof. intros H. unfold text. by rewrite (get_set_eq _ _ _ _ H). Qed.

Lemma uint_set_ne v k k' w v' : set v k w = Ok v' -> k <> k' -> uint v' k' = uint v k'.
Proof. intros H Hk. unfold uint. by rewrite (get_set_ne _ _ _ _ _ H Hk). Qed.

Lemma uint_set_eq v k z v' : set v k (value_uint z) = Ok v' -> uint v' k = z.
Proof. intros H. unfold uint. by rewrite (get_set_eq _ _ _ _ H). Qed.

Lemma boolean_set_ne v k k' w v' : set v k w = Ok v' -> k <> k' -> boolean v' k' = boolean v k'.
Proof. intros H Hk. unfold boolean. by rewrite (get_set_ne _ _ _ _ _ H Hk). Qed.

Lemma boolean_set_eq v k b v' : set v k (VBool b) = Ok v' -> boolean v' k = b.
Proof. intros H. unfold boolean. by rewrite (get_set_eq _ _ _ _ H). Qed.

Lemma array_set_ne v k k' w v' : set v k w = Ok v' -> k <> k' -> array v' k' = array v k'.
Proof. intros H Hk. unfold array. by rewrite (get_set_ne _ _ _ _ _ H Hk). Qed.

Lemma array_set_eq v k a v' : set v k (VArray a) = Ok v' -> array v' k = a.
Proof. intros H. unfold array. by rewrite (get_set_eq _ _ _ _ H). Qed.

Lemma text_remove_ne v k k' v' : remove v k = Ok v' -> k <> k' -> text v' k' = text v k'.
Proof. intros H Hk. unfold text. by rewrite (get_remove_ne _ _ _ _ H Hk). Qed.

(** A field that is set makes the value an object. *)
Lemma set_is_object v k w v' : set v k w = Ok v' -> is_Some (as_object v').
Proof. intros (o & -> & ->)%set_Ok. cbn. eauto. Qed.

(** ** Lemmas: bounded pushes *)

Lemma push_Ok {A} (l : list A) x max l' :
  push l x max = Ok l' <-> Z.of_nat (length l) < max /\ l' = l ++ [x].
Proof.
  unfold push. destruct (Z.leb_spec max (Z.of_nat (length l))); split; try done.
  - intros [? _]. lia.
  - by intros [= <-].
  - by intros [_ ->].
Qed.

(** A loop of pushes succeeds exactly when every element does and the result fits. *)
Lemma push_all_Ok {A B} (f : A -> Result B) max xs out out' :
  push_all f max xs out = Ok out' ->
  exists ys, Forall2 (fun x y => f x = Ok y) xs ys /\ out' = out ++ ys
    /\ (xs = [] \/ Z.of_nat (length out') <= max).
Proof.
  revert out. induction xs as [|x xs IH]; intros out H; cbn in H.
  - injection H as <-. exists []. rewrite app_nil_r. auto using Forall2_nil.
  - destruct (f x) as [y|] eqn:E; cbn in H; [|done].
    destruct (push out y max) as [o|] eqn:EP; cbn in H; [|done].
    apply push_Ok in EP as [HL ->]. apply IH in H as (ys & HF & -> & HM).
    exists (y :: ys). rewrite <- app_assoc. split_and!; [by constructor|done|].
    right. destruct HM as [->|HM].
    + apply Forall2_nil_inv_l in HF as ->. rewrite !length_app in *. cbn in *. lia.
    + by rewrite <- app_assoc in HM.
Qed.

Lemma push_all_id {A} max (xs out out' : list A) : push_all Ok max xs out = Ok out' -> out' = out ++ xs.
Proof.
  intros (ys & HF & -> & _)%push_all_Ok. f_equal. induction HF as [|x y xs ys [= ->] _ IH]; [done|]. by f_equal.
Qed.

Lemma push_all_complete {A B} (f : A -> Result B) max xs ys out :
  Forall2 (fun x y => f x = Ok y) xs ys -> Z.of_nat (length out + length xs) <= max ->
  push_all f max xs out = Ok (out ++ ys).
Proof.
  intros HF. revert out. induction HF as [|x y xs ys Hx HF IH]; intros out HM; cbn in *.
  - by rewrite app_nil_r.
  - rewrite Hx. cbn. replace (push out y max) with (Ok (E:=Error) (out ++ [y])).
    + cbn. rewrite IH; [by rewrite <- app_assoc|]. rewrite length_app. cbn. lia.
    + symmetry. apply push_Ok. split; [lia|done].
Qed.

(** ** Unique keys: the invariant of [Object], at every level *)

Fixpoint uniq (v : Value) : bool :=
  match v with
  | VArray a => forallb uniq a
  | VObject o => nodup_keys (obj_keys o) && forallb (fun kv => match kv with (_, w) => uniq w end) o
  | _ => true
  end.

Lemma wf_uniq v : wf_value v = true -> uniq v = true.
Proof.
  induction v as [| | | |a IH|o IH] using Value_ind; cbn; intros Hw; try done.
  - rewrite forallb_forall in *. rewrite List.Forall_forall in IH. auto.
  - apply andb_true_iff in Hw as [Hn Hf]. rewrite Hn. cbn. rewrite forallb_forall in *.
    rewrite List.Forall_forall in IH. intros [k w] Hi. specialize (Hf _ Hi). cbn in Hf.
    apply andb_true_iff in Hf as [_ Hw]. by apply (IH _ Hi).
Qed.

Lemma uniq_object o :
  uniq (VObject o) = true <-> NoDup (obj_keys o) /\ Forall (fun kv => uniq kv.2 = true) o.
Proof.
  cbn. rewrite andb_true_iff, nodup_keys_NoDup, forallb_forall, List.Forall_forall.
  split; intros [Hn Hf]; (split; [done|]); intros [k w] Hi; exact (Hf _ Hi).
Qed.

Lemma uniq_array a : uniq (VArray a) = true <-> Forall (fun v => uniq v = true) a.
Proof. cbn. by rewrite forallb_forall, List.Forall_forall. Qed.

Lemma obj_insert_elem o k v kv : kv ∈ obj_insert o k v -> kv = (k, v) \/ kv ∈ o.
Proof.
  induction o as [|[k' w] o IH]; cbn.
  - intros ->%list_elem_of_singleton. by left.
  - destruct (String.eqb_spec k' k) as [->|].
    + intros [->|Hi]%elem_of_cons; [by left|right; by right].
    + intros [->|Hi]%elem_of_cons; [right; by left|]. destruct (IH Hi); [by left|right; by right].
Qed.

Lemma obj_remove_elem o k kv : kv ∈ obj_remove o k -> kv ∈ o.
Proof.
  induction o as [|[k' w] o IH]; cbn; [done|]. destruct (k' =? k)%string; [by right|].
  intros [->|Hi]%elem_of_cons; [by left|right; auto].
Qed.

Lemma uniq_set v k w v' :
  set v k w = Ok v' -> uniq v = true -> uniq w = true -> uniq v' = true.
Proof.
  intros (o & -> & ->)%set_Ok Hv Hw. apply uniq_object in Hv as [Hn Hf]. apply uniq_object.
  split; [by apply obj_insert_nodup|]. rewrite Forall_forall in Hf |- *.
  intros kv [->|Hi]%obj_insert_elem; auto.
Qed.

Lemma uniq_remove v k v' : remove v k = Ok v' -> uniq v = true -> uniq v' = true.
Proof.
  intros (o & -> & ->)%remove_Ok Hv. apply uniq_object in Hv as [Hn Hf]. apply uniq_object.
  split; [by apply obj_remove_nodup|]. rewrite Forall_forall in Hf |- *.
  intros kv Hi%obj_remove_elem. auto.
Qed.

Lemma uniq_get v k w : uniq v = true -> get v k = Some w -> uniq w = true.
Proof.
  intros Hv. unfold get. destruct v; cbn; try done. intros Hg%obj_get_Some_In.
  apply uniq_object in Hv as [_ Hf]. rewrite Forall_forall in Hf. by apply (Hf _ Hg).
Qed.

Lemma uniq_elem v k w : uniq v = true -> w ∈ array v k -> uniq w = true.
Proof.
  intros Hv. unfold array. destruct (get v k) as [[]|] eqn:Eg; cbn; try (by intros ?%not_elem_of_nil).
  intros Hi. apply uniq_get in Eg; [|done]. apply uniq_array in Eg. rewrite Forall_forall in Eg. auto.
Qed.

Lemma get_remove_eq v k v' : remove v k = Ok v' -> uniq v = true -> get v' k = None.
Proof.
  intros (o & -> & ->)%remove_Ok Hv. apply uniq_object in Hv as [Hn _]. cbn. by apply obj_get_remove_eq.
Qed.

(** Setting a field to the value it has, and removing one that is not there, change nothing. *)
Lemma set_same v k w : get v k = Some w -> set v k w = Ok v.
Proof.
  unfold get. destruct v as [| | | | |o]; try done. cbn. intros Hg. do 2 f_equal.
  induction o as [|[k' w'] o IH]; cbn in *; [done|].
  destruct (String.eqb_spec k' k) as [->|]; [by injection Hg as ->|]. by rewrite IH.
Qed.

Lemma remove_absent o k : get (VObject o) k = None -> remove (VObject o) k = Ok (VObject o).
Proof.
  cbn. intros Hg. do 2 f_equal. induction o as [|[k' w'] o IH]; cbn in *; [done|].
  destruct (k' =? k)%string; [done|]. by rewrite IH.
Qed.

Lemma text_nonempty_object v k : text v k <> EmptyString -> exists o, v = VObject o.
Proof. unfold text, get. destruct v; cbn; try done. eauto. Qed.

Lemma array_get v k a : get v k = Some (VArray a) -> array v k = a.
Proof. unfold array. by intros ->. Qed.
