(* ===== verification/Json.v ===== *)
(** * Json: the bounded parser and the writer

    The parser is [crates/core/src/json_bounded.rs], which is the parser of
    [vendor/types/src/json.rs] with the input limit as an argument; the writer is [write] of
    the latter.  A parser state is the offset and the bytes that are left.  Recursion into
    nested values is structural in the depth that is left ([MAX_DEPTH] levels); the loops over
    members, elements and string pieces take fuel, and [parse_total] shows that the fuel they
    are given (the number of bytes left) is never used up. *)

From Stdlib Require Import ZArith Lia Ascii String.
From S2P Require Import Prelude Text Errors Float Value.

Local Open Scope Z_scope.

(** The deepest nesting the parser accepts. *)
Definition MAX_DEPTH : nat := 32.

(** The largest input of the API parser. *)
Definition MAX_INPUT : Z := 1048576.

(** ** Parser states and results *)

Record st := mk_st { pos : Z; rest : list Z }.

(** [None]: out of fuel. *)
Definition PRes (A : Type) : Type := option (result HopError (A * st)).

Definition pbind {A B} (m : PRes A) (f : A -> st -> PRes B) : PRes B :=
  match m with
  | None => None
  | Some (Err e) => Some (Err e)
  | Some (Ok (a, s)) => f a s
  end.

Notation "'let!' ( x , s ) := m 'in' k" := (pbind m (fun x s => k))
  (at level 10, x name, s name, m at level 100, k at level 200) : stulp_scope.
Local Open Scope stulp_scope.

Definition ok {A} (a : A) (s : st) : PRes A := Some (Ok (a, s)).

(** ** The parser *)

Definition peek (s : st) : option Z := head (rest s).

(** [self.pos += n] *)
Definition advance (n : nat) (s : st) : st := mk_st (pos s + Z.of_nat n) (drop n (rest s)).

Definition perr {A} (s : st) (expected : string) : PRes A :=
  Some (Err (Syntax (pos s) expected)).

Definition peek_is (c : Z) (s : st) : bool :=
  match peek s with Some x => x =? c | None => false end.

(** The number of leading bytes that satisfy [p]. *)
Fixpoint span (p : Z -> bool) (l : list Z) : nat :=
  match l with
  | c :: l => if p c then S (span p l) else O
  | [] => O
  end.

Definition is_ws (c : Z) : bool := (c =? 32) || (c =? 9) || (c =? 10) || (c =? 13).
Definition is_digit (c : Z) : bool := between 48 c 57.

Definition skip_ws (s : st) : st := advance (span is_ws (rest s)) s.

Definition eat (c : Z) (expected : string) (s : st) : PRes unit :=
  if peek_is c s then ok tt (advance 1 s) else perr s expected.

Definition literal (word : list Z) (v : Value) (s : st) : PRes Value :=
  if bytes_eqb (take (length word) (rest s)) word
  then ok v (advance (length word) s) else perr s "a value".

Definition hex_digit (c : Z) : option Z :=
  if between 48 c 57 then Some (c - 48)
  else if between 97 c 102 then Some (c - 97 + 10)
  else if between 65 c 70 then Some (c - 65 + 10)
  else None.

(** [for _ in 0..n]: reads [n] hexadecimal digits. *)
Fixpoint hexn (n : nat) (v : Z) (s : st) : PRes Z :=
  match n with
  | O => ok v s
  | S n =>
      match peek s ≫= hex_digit with
      | Some d => hexn n (Z.lor (Z.shiftl v 4) d) (advance 1 s)
      | None => perr s "four hex digits"
      end
  end.
Definition hex4 (s : st) : PRes Z := hexn 4 0 s.

(** [\u] escapes, surrogate pairs included; a lone low surrogate becomes U+FFFD. *)
Definition unicode (s : st) : PRes Z :=
  let! (hi, s1) := hex4 s in
  if (55296 <=? hi) && (hi <? 56320) then
    if negb (bytes_eqb (take 2 (rest s1)) [92; 117]) then perr s1 "a low surrogate" else
    let! (lo, s2) := hex4 (advance 2 s1) in
    if negb ((56320 <=? lo) && (lo <? 57344)) then perr s2 "a low surrogate" else
    let cp := 65536 + Z.shiftl (hi - 55296) 10 + (lo - 56320) in
    ok (if is_char cp then cp else 65533) s2
  else ok (if is_char hi then hi else 65533) s1.

(** What follows a backslash: the character it stands for. *)
Definition escape (s : st) : PRes Z :=
  match peek s with
  | Some 34 => ok 34 (advance 1 s)
  | Some 92 => ok 92 (advance 1 s)
  | Some 47 => ok 47 (advance 1 s)
  | Some 98 => ok 8 (advance 1 s)
  | Some 102 => ok 12 (advance 1 s)
  | Some 110 => ok 10 (advance 1 s)
  | Some 114 => ok 13 (advance 1 s)
  | Some 116 => ok 9 (advance 1 s)
  | Some 117 => unicode (advance 1 s)
  | _ => perr s "an escape"
  end.

(** A byte that is copied as it is. *)
Definition is_plain (c : Z) : bool := negb ((c =? 34) || (c =? 92) || (c <? 32)).

(** The text for a missing quote: a closing and the quote between apostrophes. *)
Definition closing_quote : string := of_bytes (as_bytes "a closing '" ++ [34; 39]).

(** The loop of [string]: a run of plain bytes, then a quote or an escape. *)
Fixpoint str_loop (fuel : nat) (s : st) (out : list Z) : PRes string :=
  match fuel with
  | O => None
  | S fuel =>
      let n := span is_plain (rest s) in
      let run := take n (rest s) in
      match from_utf8 run with
      | Err k => Some (Err (Syntax (pos s + Z.of_nat k) "UTF-8"))
      | Ok _ =>
          let s1 := advance n s in
          let out1 := out ++ run in
          match peek s1 with
          | Some 34 => ok (of_bytes out1) (advance 1 s1)
          | Some 92 =>
              let! (c, s2) := escape (advance 1 s1) in
              str_loop fuel s2 (out1 ++ encode_char c)
          | _ => perr s1 closing_quote
          end
      end
  end.
Definition string_ (s : st) : PRes string :=
  let s1 := advance 1 s in str_loop (S (length (rest s1))) s1 [].

(** [text.parse::<u64>()] and [text.parse::<i64>()] on [-?digits] *)
Definition parse_u64 (text : list Z) : option Z :=
  match text with
  | 45 :: _ => None
  | _ => let v := digits_val 0 text in if v <=? U64_MAX then Some v else None
  end.
Definition parse_i64 (text : list Z) : option Z :=
  match text with
  | 45 :: ds =>
      let v := - digits_val 0 ds in if -9223372036854775808 <=? v then Some v else None
  | _ => let v := digits_val 0 text in if v <=? 9223372036854775807 then Some v else None
  end.

(** [text.parse::<f64>()] on a JSON number: sign, digits, fraction, exponent *)
Definition parse_f64 (neg : bool) (int frac : list Z) (eneg : bool) (exp : list Z) : f64 :=
  let e := digits_val 0 exp in
  f64_of_decimal neg (digits_val 0 (int ++ frac))
    ((if eneg then - e else e) - Z.of_nat (length frac)).

(** [digits]: skips digits and says how many there were. *)
Definition digits (s : st) : list Z * st :=
  let n := span is_digit (rest s) in (take n (rest s), advance n s).

(** The integer part: a zero, or digits that do not start with one. *)
Definition number_int (s : st) : PRes (list Z) :=
  match peek s with
  | None => perr s "a digit"
  | Some c =>
      if c =? 48 then ok [48] (advance 1 s)
      else if between 49 c 57 then let (ds, s1) := digits s in ok ds s1
      else perr s "a digit"
  end.

(** The fraction, when there is a point. *)
Definition number_frac (s : st) : PRes (option (list Z)) :=
  if peek_is 46 s then
    let (ds, s1) := digits (advance 1 s) in
    if (length ds =? 0)%nat then perr s1 "a digit" else ok (Some ds) s1
  else ok None s.

(** The exponent with its sign, when there is one. *)
Definition number_exp (s : st) : PRes (option (bool * list Z)) :=
  if peek_is 101 s || peek_is 69 s then
    let s1 := advance 1 s in
    let s2 := if peek_is 43 s1 || peek_is 45 s1 then advance 1 s1 else s1 in
    let (ds, s3) := digits s2 in
    if (length ds =? 0)%nat then perr s3 "a digit" else ok (Some (peek_is 45 s1, ds)) s3
  else ok None s.

(** Integers that fit stay integers; everything else is a float. *)
Definition number_of (neg : bool) (int : list Z) (frac : option (list Z))
    (exp : option (bool * list Z)) : Number :=
  let text := (if neg then [45] else []) ++ int in
  let float := Float (parse_f64 neg int (default [] frac)
                        (default (false, []) exp).1 (default (false, []) exp).2) in
  match frac, exp with
  | None, None =>
      match parse_u64 text with
      | Some v => Uint v
      | None => match parse_i64 text with Some v => Int v | None => float end
      end
  | _, _ => float
  end.

Definition number (s : st) : PRes Number :=
  let neg := peek_is 45 s in
  let! (int, s2) := number_int (if neg then advance 1 s else s) in
  let! (frac, s3) := number_frac s2 in
  let! (exp, s4) := number_exp s3 in
  ok (number_of neg int frac exp) s4.

Section Nested.
(** The parser of a value one level deeper. *)
Variable value : st -> PRes Value.

Fixpoint obj_loop (fuel : nat) (s : st) (obj : Object) : PRes Value :=
  match fuel with
  | O => None
  | S fuel =>
      let s1 := skip_ws s in
      if negb (peek_is 34 s1) then perr s1 "a string key" else
      let! (key, s2) := string_ s1 in
      if bool_decide (is_Some (obj_get obj key)) then Some (Err (DuplicateKey (Name_new key))) else
      let! (u, s3) := eat 58 "':'" (skip_ws s2) in
      let! (v, s4) := value (skip_ws s3) in
      let obj1 := obj_push obj key v in
      let s5 := skip_ws s4 in
      match peek s5 with
      | Some 44 => obj_loop fuel (advance 1 s5) obj1
      | Some 125 => ok (VObject obj1) (advance 1 s5)
      | _ => perr s5 "',' or '}'"
      end
  end.

Definition object_ (s : st) : PRes Value :=
  let s1 := skip_ws (advance 1 s) in
  if peek_is 125 s1 then ok (VObject []) (advance 1 s1)
  else obj_loop (S (length (rest s1))) s1 [].

Fixpoint arr_loop (fuel : nat) (s : st) (arr : list Value) : PRes Value :=
  match fuel with
  | O => None
  | S fuel =>
      let! (v, s1) := value (skip_ws s) in
      let arr1 := arr ++ [v] in
      let s2 := skip_ws s1 in
      match peek s2 with
      | Some 44 => arr_loop fuel (advance 1 s2) arr1
      | Some 93 => ok (VArray arr1) (advance 1 s2)
      | _ => perr s2 "',' or ']'"
      end
  end.

Definition array_ (s : st) : PRes Value :=
  let s1 := skip_ws (advance 1 s) in
  if peek_is 93 s1 then ok (VArray []) (advance 1 s1)
  else arr_loop (S (length (rest s1))) s1 [].
End Nested.

(** [value(depth)], with [lvl = MAX_DEPTH - depth]. *)
Fixpoint value (lvl : nat) (s : st) : PRes Value :=
  match lvl with
  | O => Some (Err (TooDeep (pos s) (Z.of_nat MAX_DEPTH)))
  | S lvl =>
      match peek s with
      | Some 123 => object_ (value lvl) s
      | Some 91 => array_ (value lvl) s
      | Some 34 => let! (x, s1) := string_ s in ok (VString x) s1
      | Some 116 => literal (as_bytes "true") (VBool true) s
      | Some 102 => literal (as_bytes "false") (VBool false) s
      | Some 110 => literal (as_bytes "null") VNull s
      | Some c =>
          if (c =? 45) || is_digit c
          then let! (n, s1) := number s in ok (VNumber n) s1
          else perr s "a value"
      | None => perr s "a value"
      end
  end.

Definition parse (input : list Z) (limit : Z) : option (result HopError Value) :=
  if limit <? Z.of_nat (length input)
  then Some (Err (TooLarge (Z.of_nat (length input)) limit)) else
  match value MAX_DEPTH (skip_ws (mk_st 0 input)) with
  | None => None
  | Some (Err e) => Some (Err e)
  | Some (Ok (v, s)) =>
      let s1 := skip_ws s in
      match rest s1 with
      | [] => Some (Ok v)
      | _ => Some (Err (Trailing (pos s1)))
      end
  end.

(** [json::parse_bounded]; [parse] never is [None], see [parse_never_out_of_fuel]. *)
Definition parse_bounded (bytes : list Z) (limit : Z) : result HopError Value :=
  default (Err OutOfMemory) (parse bytes (Z.min limit 67108864)).

(** ** The writer *)

(** [format!("{:04x}", c)] *)
Definition hex_char (d : Z) : Z := if d <? 10 then 48 + d else 87 + d.
Definition hex4_text (c : Z) : list Z :=
  [hex_char ((c / 4096) mod 16); hex_char ((c / 256) mod 16); hex_char ((c / 16) mod 16);
   hex_char (c mod 16)].

(** How one character is written inside a string. *)
Definition write_char (c : Z) : list Z :=
  if c =? 34 then [92; 34]
  else if c =? 92 then [92; 92]
  else if c =? 10 then [92; 110]
  else if c =? 13 then [92; 114]
  else if c =? 9 then [92; 116]
  else if between 0 c 31 || (c =? 60) || (c =? 62) || (c =? 38) || (c =? 8232) || (c =? 8233)
  then [92; 117] ++ hex4_text c
  else encode_char c.

Definition write_string (s : string) : list Z := 34 :: flat_map write_char (chars s) ++ [34].

#[global] Arguments write_string : simpl never.

Definition write_number (n : Number) : result HopError (list Z) :=
  match n with
  | Int v => Ok (show_Z v)
  | Uint v => Ok (show_Z v)
  | Float f => if negb (is_finite f) then Err NotFinite else Ok (f64_display f)
  end.

(** Elements separated by commas. *)
Fixpoint write_sep {A} (w : A -> result HopError (list Z)) (first : bool) (l : list A)
  : result HopError (list Z) :=
  match l with
  | [] => Ok []
  | x :: l =>
      a ← w x;
      b ← write_sep w false l;
      Ok ((if first then [] else [44]) ++ a ++ b)
  end.

Fixpoint write (v : Value) : result HopError (list Z) :=
  match v with
  | VNull => Ok (as_bytes "null")
  | VBool true => Ok (as_bytes "true")
  | VBool false => Ok (as_bytes "false")
  | VNumber n => write_number n
  | VString s => Ok (write_string s)
  | VArray a =>
      items ← write_sep write true a; Ok (91 :: items ++ [93])
  | VObject o =>
      items ← write_sep (fun kv => match kv with (k, x) =>
                           t ← write x; Ok (write_string k ++ 58 :: t) end) true o;
      Ok (123 :: items ++ [125])
  end.

(** ** Checks *)

Example parse_sample :
  parse_bounded ([123; 34; 97; 34; 58]
    ++ as_bytes "[0,-1,18446744073709551615,1.25,true,null]}") 65536
  = Ok (VObject [("a", VArray [VNumber (Uint 0); VNumber (Int (-1)); VNumber (Uint U64_MAX);
      VNumber (Float (f64_of_decimal false 125 (-2))); VBool true; VNull])]).
Proof. vm_compute. reflexivity. Qed.

(** ** Termination: the fuel is never used up *)

(** The parser has an answer, and a success leaves at most [n] bytes. *)
Definition leaves {A} (n : nat) (m : PRes A) : Prop :=
  match m with
  | None => False
  | Some (Err _) => True
  | Some (Ok (_, s)) => (length (rest s) <= n)%nat
  end.

Lemma leaves_ok {A} n (a : A) s : (length (rest s) <= n)%nat -> leaves n (ok a s).
Proof. done. Qed.

Lemma leaves_err {A} n s e : leaves n (perr (A := A) s e).
Proof. done. Qed.

Lemma leaves_bind {A B} k n (m : PRes A) (f : A -> st -> PRes B) :
  leaves k m -> (forall a s, (length (rest s) <= k)%nat -> leaves n (f a s)) ->
  leaves n (pbind m f).
Proof. destruct m as [[[a s]|e]|]; cbn; auto. Qed.

Lemma leaves_weaken {A} k n (m : PRes A) : (k <= n)%nat -> leaves k m -> leaves n m.
Proof. destruct m as [[[a s]|e]|]; cbn; auto. lia. Qed.

Lemma rest_advance n s : length (rest (advance n s)) = (length (rest s) - n)%nat.
Proof. cbn. apply length_drop. Qed.

Lemma rest_skip_ws s : (length (rest (skip_ws s)) <= length (rest s))%nat.
Proof. unfold skip_ws. rewrite rest_advance. lia. Qed.

Lemma peek_Some s c : peek s = Some c -> (1 <= length (rest s))%nat.
Proof. unfold peek. destruct (rest s); cbn; [done|lia]. Qed.

Lemma peek_is_true c s : peek_is c s = true -> (1 <= length (rest s))%nat.
Proof. unfold peek_is. destruct (peek s) eqn:E; [|done]. eauto using peek_Some. Qed.

#[local] Hint Resolve leaves_ok leaves_err : core.

Lemma hexn_leaves n v s : leaves (length (rest s)) (hexn n v s).
Proof.
  revert v s. induction n as [|n IH]; intros v s; cbn [hexn]; [by apply leaves_ok|].
  destruct (peek s ≫= hex_digit); [|done].
  eapply leaves_weaken; [|apply IH]. rewrite rest_advance. lia.
Qed.

Lemma unicode_leaves s : leaves (length (rest s)) (unicode s).
Proof.
  unfold unicode. eapply leaves_bind; [apply hexn_leaves|]. intros hi s1 H1.
  destruct (_ && _); [|by apply leaves_ok]. destruct (negb _); [done|].
  eapply leaves_bind; [apply hexn_leaves|]. intros lo s2 H2. rewrite rest_advance in H2.
  destruct (negb _); [done|]. apply leaves_ok. lia.
Qed.

Lemma escape_leaves s : leaves (length (rest s)) (escape s).
Proof.
  unfold escape.
  repeat (case_match; try done; try (apply leaves_ok; rewrite rest_advance; lia)).
  eapply leaves_weaken; [|apply unicode_leaves]. rewrite rest_advance. lia.
Qed.

Lemma str_loop_leaves fuel s out :
  (length (rest s) < fuel)%nat -> leaves (length (rest s)) (str_loop fuel s out).
Proof.
  revert s out. induction fuel as [|fuel IH]; intros s out H; [lia|]. cbn [str_loop].
  destruct (from_utf8 _); [|done].
  set (s1 := advance _ s). assert (length (rest s1) <= length (rest s))%nat as H1
    by (unfold s1; rewrite rest_advance; lia).
  destruct (peek s1) as [c|] eqn:EP; [|done]. apply peek_Some in EP.
  repeat (case_match; try done).
  - apply leaves_ok. rewrite rest_advance. lia.
  - eapply leaves_bind; [apply escape_leaves|]. intros c' s2 H9. rewrite rest_advance in H9.
    eapply leaves_weaken; [|apply IH; lia]. lia.
Qed.

Lemma string_leaves s : leaves (length (rest s)) (string_ s).
Proof.
  unfold string_. eapply leaves_weaken; [|apply str_loop_leaves; lia].
  rewrite rest_advance. lia.
Qed.

Ltac leave := first [done | apply leaves_ok; rewrite ?rest_advance; lia].

Lemma number_leaves s : leaves (length (rest s)) (number s).
Proof.
  unfold number. eapply (leaves_bind (length (rest s))).
  { unfold number_int, digits. repeat (case_match; try leave). }
  intros int s2 H2. eapply (leaves_bind (length (rest s))).
  { unfold number_frac, digits. repeat (case_match; try leave). }
  intros frac s3 H3. eapply (leaves_bind (length (rest s))).
  { unfold number_exp, digits. repeat (case_match; try leave). }
  auto.
Qed.

Section NestedLeaves.
Variable val : st -> PRes Value.
Hypothesis val_leaves : forall s, leaves (length (rest s)) (val s).

Lemma obj_loop_leaves fuel s obj :
  (length (rest s) < fuel)%nat -> leaves (length (rest s)) (obj_loop val fuel s obj).
Proof.
  revert s obj. induction fuel as [|fuel IH]; intros s obj H; [lia|]. cbn [obj_loop].
  pose proof (rest_skip_ws s) as H1. destruct (negb _); [done|].
  eapply leaves_bind; [apply string_leaves|]. intros key s2 H2.
  destruct (bool_decide _); [done|].
  eapply (leaves_bind (length (rest s2))).
  { unfold eat. destruct (peek_is _ _); [|done]. apply leaves_ok. rewrite rest_advance.
    pose proof (rest_skip_ws s2). lia. }
  intros _ s3 H3. eapply leaves_bind; [apply val_leaves|]. intros v s4 H4.
  pose proof (rest_skip_ws s3). pose proof (rest_skip_ws s4) as H5.
  destruct (peek (skip_ws s4)) eqn:EP; [|done]. apply peek_Some in EP.
  repeat (case_match; try leave);
    (eapply leaves_weaken; [|apply IH; rewrite rest_advance; lia]); rewrite rest_advance; lia.
Qed.

Lemma arr_loop_leaves fuel s arr :
  (length (rest s) < fuel)%nat -> leaves (length (rest s)) (arr_loop val fuel s arr).
Proof.
  revert s arr. induction fuel as [|fuel IH]; intros s arr H; [lia|]. cbn [arr_loop].
  pose proof (rest_skip_ws s) as H1.
  eapply leaves_bind; [apply val_leaves|]. intros v s4 H4.
  pose proof (rest_skip_ws s4) as H5.
  destruct (peek (skip_ws s4)) eqn:EP; [|done]. apply peek_Some in EP.
  repeat (case_match; try leave);
    (eapply leaves_weaken; [|apply IH; rewrite rest_advance; lia]); rewrite rest_advance; lia.
Qed.

Lemma object_leaves s : leaves (length (rest s)) (object_ val s).
Proof.
  unfold object_. pose proof (rest_skip_ws (advance 1 s)) as H. rewrite rest_advance in H.
  case_match; [apply leaves_ok; rewrite rest_advance; lia|].
  eapply leaves_weaken; [|apply obj_loop_leaves; lia]. lia.
Qed.

Lemma array_leaves s : leaves (length (rest s)) (array_ val s).
Proof.
  unfold array_. pose proof (rest_skip_ws (advance 1 s)) as H. rewrite rest_advance in H.
  case_match; [apply leaves_ok; rewrite rest_advance; lia|].
  eapply leaves_weaken; [|apply arr_loop_leaves; lia]. lia.
Qed.
End NestedLeaves.

Lemma value_leaves lvl s : leaves (length (rest s)) (value lvl s).
Proof.
  revert s. induction lvl as [|lvl IH]; intros s; cbn [value]; [done|].
  assert (forall w v, leaves (length (rest s)) (literal w v s)) as HL.
  { intros w v. unfold literal. case_match; [|done]. apply leaves_ok.
    rewrite rest_advance. lia. }
  assert (forall c, leaves (length (rest s)) (if (c =? 45) || is_digit c
    then let! (n, s1) := number s in ok (VNumber n) s1 else perr s "a value")) as HN.
  { intros c. case_match; [|done]. eapply leaves_bind; [apply number_leaves|]. auto. }
  destruct (peek s) as [c|]; [|done].
  repeat (case_match; try apply HN; try apply HL);
    eauto using object_leaves, array_leaves.
  eapply leaves_bind; [apply string_leaves|]. auto.
Qed.

Lemma parse_never_out_of_fuel input limit : is_Some (parse input limit).
Proof.
  unfold parse. case_match; [eauto|].
  pose proof (value_leaves MAX_DEPTH (skip_ws (mk_st 0 input))) as HV.
  destruct (value _ _) as [[[v s]|e]|]; [case_match; eauto|eauto|done].
Qed.
