(* ===== verification/JsonRoundtrip.v ===== *)
(** * JsonRoundtrip: what the writer prints, the parser reads back

    The proof that [parse] inverts [write] on values without floats, and the theorems on the
    parser of [Json]: it always answers, it accepts only well-formed values within the depth
    limit, and it reads back what was written. *)

From Stdlib Require Import ZArith Lia Ascii String SpecFloat.
From S2P Require Import Prelude Text Errors Float Value Json.

Local Open Scope Z_scope.
Local Open Scope stulp_scope.

(** ** States *)

Lemma advance_app n p l t :
  n = length l -> advance n (mk_st p (l ++ t)) = mk_st (p + Z.of_nat (length l)) t.
Proof. intros ->. unfold advance. cbn [pos rest]. by rewrite drop_app_length. Qed.

Lemma ok_eq {A} (a b : A) p q t : a = b -> p = q -> ok a (mk_st p t) = ok b (mk_st q t).
Proof. by intros -> ->. Qed.

Lemma advance_1 p c t : advance 1 (mk_st p (c :: t)) = mk_st (p + 1) t.
Proof. done. Qed.

Lemma advance_0 s : advance 0 s = s.
Proof. destruct s. unfold advance. cbn. by rewrite Z.add_0_r. Qed.

Lemma skip_ws_id p c t : is_ws c = false -> skip_ws (mk_st p (c :: t)) = mk_st p (c :: t).
Proof. intros H. unfold skip_ws. cbn [rest span]. by rewrite H, advance_0. Qed.

Lemma span_all (p : Z -> bool) l t :
  Forall (fun c => p c = true) l -> (forall c, head t = Some c -> p c = false) ->
  span p (l ++ t) = length l.
Proof.
  intros Hl Ht. induction Hl as [|c l Hc Hl IH]; cbn.
  - destruct t as [|c t]; cbn; [done|]. by rewrite (Ht c).
  - by rewrite Hc, IH.
Qed.

(** ** Strings *)

Lemma hex_digit_char d : 0 <= d < 16 -> hex_digit (hex_char d) = Some d.
Proof.
  intros H. unfold hex_char, hex_digit, between.
  destruct (Z.ltb_spec d 10).
  - replace ((48 <=? 48 + d) && (48 + d <=? 57)) with true by lia. f_equal. lia.
  - replace ((48 <=? 87 + d) && (87 + d <=? 57)) with false by lia.
    replace ((97 <=? 87 + d) && (87 + d <=? 102)) with true by lia. f_equal. lia.
Qed.

Lemma lor_nibble v d : 0 <= d < 16 -> Z.lor (Z.shiftl v 4) d = v * 16 + d.
Proof.
  intros H. rewrite Z.shiftl_mul_pow2 by lia. change (2 ^ 4) with 16.
  rewrite <- Z.lxor_lor, <- Z.add_nocarry_lxor; try done.
  all: apply Z.bits_inj'; intros n Hn; rewrite Z.land_spec, Z.bits_0;
    change 16 with (2 ^ 4); rewrite <- Z.shiftl_mul_pow2, Z.shiftl_spec by lia;
    destruct (Z.ltb_spec n 4);
    [rewrite Z.testbit_neg_r by lia; done|
     rewrite (testbit_high 4 d n) by lia; by rewrite andb_false_r].
Qed.

Local Ltac Zify.zify_post_hook ::= Z.div_mod_to_equations.

Lemma hex4_text_parse c p t :
  0 <= c < 65536 -> hex4 (mk_st p (hex4_text c ++ t)) = ok c (mk_st (p + 4) t).
Proof.
  intros H. unfold hex4, hex4_text. cbn [app].
  cbn [hexn peek rest head mbind option_bind].
  rewrite !hex_digit_char by (apply Z.mod_pos_bound; lia).
  repeat (rewrite advance_1; cbn [peek rest head mbind option_bind];
          rewrite ?hex_digit_char by (apply Z.mod_pos_bound; lia)).
  rewrite !lor_nibble by (apply Z.mod_pos_bound; lia).
  apply ok_eq; lia.
Qed.

(** Characters that are written as an escape. *)
Definition needs_escape (c : Z) : bool :=
  (c =? 34) || (c =? 92) || between 0 c 31 || (c =? 60) || (c =? 62) || (c =? 38)
  || (c =? 8232) || (c =? 8233).

Lemma write_char_plain c : needs_escape c = false -> write_char c = encode_char c.
Proof. unfold needs_escape, write_char, between. intros H. repeat case_match; lia || done. Qed.

Lemma write_char_escape c p t :
  needs_escape c = true -> is_char c = true ->
  exists e, write_char c = 92 :: e /\
    escape (mk_st p (e ++ t)) = ok c (mk_st (p + Z.of_nat (length e)) t).
Proof.
  unfold needs_escape, write_char. intros H Hc.
  repeat match goal with
  | |- context [if ?x =? ?y then _ else _] =>
      destruct (Z.eqb_spec x y) as [->|];
        [eexists; split; [reflexivity|]; cbn; done|]
  end.
  destruct (between 0 c 31 || _ || _ || _ || _ || _) eqn:E; [|unfold between in *; lia].
  exists (117 :: hex4_text c). split; [done|].
  assert (0 <= c < 65536) by (unfold between in *; lia).
  change (escape (mk_st p ((117 :: hex4_text c) ++ t)))
    with (unicode (mk_st (p + 1) (hex4_text c ++ t))).
  unfold unicode. rewrite hex4_text_parse by done. cbn [pbind ok].
  replace ((55296 <=? c) && (c <? 56320)) with false by (unfold between in *; lia).
  rewrite Hc. apply ok_eq; [done|]. cbn. lia.
Qed.

Lemma encode_char_is_plain c :
  needs_escape c = false -> is_char c = true ->
  Forall (fun b => is_plain b = true) (encode_char c).
Proof.
  unfold needs_escape, is_char, is_plain, encode_char, between. intros H1 H2.
  repeat case_match; repeat constructor; lia.
Qed.

Lemma encode_chars_plain cs :
  forallb (fun c => negb (needs_escape c)) cs = true -> forallb is_char cs = true ->
  Forall (fun b => is_plain b = true) (encode_chars cs)
  /\ flat_map write_char cs = encode_chars cs.
Proof.
  induction cs as [|c cs IH]; intros H1 H2; [split; [constructor|done]|].
  cbn in H1, H2. apply andb_true_iff in H1 as [E1 H1], H2 as [E2 H2].
  apply negb_true_iff in E1. destruct (IH H1 H2) as [HF HE].
  change (encode_chars (c :: cs)) with (encode_char c ++ encode_chars cs).
  cbn [flat_map]. rewrite HE, write_char_plain by done. split; [|done].
  apply Forall_app. split; [by apply encode_char_is_plain|done].
Qed.

(** The longest prefix without escapes. *)
Lemma split_plain cs :
  exists pre post, cs = pre ++ post /\ forallb (fun c => negb (needs_escape c)) pre = true
    /\ (post = [] \/ exists c q, post = c :: q /\ needs_escape c = true).
Proof.
  induction cs as [|c cs (pre & post & -> & Hp & Hq)].
  - exists [], []. auto.
  - destruct (needs_escape c) eqn:E.
    + exists [], (c :: pre ++ post). split_and!; [done|done|]. right. eauto.
    + exists (c :: pre), post. cbn. by rewrite E, Hp.
Qed.

Lemma str_loop_write cs fuel p out t :
  forallb is_char cs = true -> (length cs < fuel)%nat ->
  str_loop fuel (mk_st p (flat_map write_char cs ++ 34 :: t)) out =
  ok (of_bytes (out ++ encode_chars cs))
     (mk_st (p + Z.of_nat (length (flat_map write_char cs)) + 1) t).
Proof.
  revert fuel p out. induction cs as [cs IH] using (well_founded_induction
    (well_founded_ltof _ (@length Z))). intros fuel p out Hc Hf.
  destruct fuel as [|fuel]; [lia|].
  destruct (split_plain cs) as (pre & post & -> & Hpre & Hpost).
  rewrite forallb_app in Hc. apply andb_true_iff in Hc as [Hc1 Hc2].
  destruct (encode_chars_plain pre Hpre Hc1) as [HF HE].
  rewrite flat_map_app, HE.
  set (tail := flat_map write_char post ++ 34 :: t).
  assert (exists x r, tail = x :: r /\ is_plain x = false) as (x & r & Ht & Hx).
  { unfold tail. destruct Hpost as [->|(c & q & -> & Hq)]; [by eexists _, _|].
    cbn in Hc2. apply andb_true_iff in Hc2 as [Hcc _].
    destruct (write_char_escape c 0 [] Hq Hcc) as (e & He & _). cbn [flat_map].
    rewrite He. by eexists _, _. }
  rewrite <- app_assoc. fold tail. cbn [str_loop rest].
  rewrite (span_all is_plain _ tail HF); [|rewrite Ht; by intros c [= <-]].
  rewrite take_app_length.
  pose proof (from_utf8_encode pre [] Hc1) as HU. rewrite app_nil_r in HU. cbn in HU.
  rewrite HU, advance_app by done. unfold tail in *. clear HU tail.
  destruct Hpost as [->|(c & q & -> & Hq)].
  - cbn [flat_map app peek rest head]. rewrite advance_1. by rewrite !app_nil_r.
  - cbn in Hc2. apply andb_true_iff in Hc2 as [Hcc Hc2].
    destruct (write_char_escape c (p + Z.of_nat (length (encode_chars pre)) + 1)
      (flat_map write_char q ++ 34 :: t) Hq Hcc) as (e & He & HE2).
    cbn [flat_map]. rewrite He. cbn [app peek rest head]. rewrite advance_1, <- app_assoc, HE2.
    cbn [pbind ok]. rewrite IH; [|unfold ltof; rewrite length_app; cbn; lia|done
      |rewrite length_app in Hf; cbn in Hf; lia].
    apply ok_eq.
    + f_equal. unfold encode_chars. rewrite flat_map_app. cbn. by rewrite <- !app_assoc.
    + rewrite !length_app. cbn [length]. rewrite length_app. lia.
Qed.

Lemma length_write_chars cs :
  forallb is_char cs = true -> (length cs <= length (flat_map write_char cs))%nat.
Proof.
  induction cs as [|c cs IH]; cbn; [lia|]. intros [Hc H]%andb_true_iff.
  rewrite length_app. specialize (IH H).
  assert (1 <= length (write_char c))%nat; [|lia].
  unfold write_char, encode_char. repeat case_match; cbn; lia.
Qed.

Lemma string_write s p t :
  valid_str s = true ->
  string_ (mk_st p (write_string s ++ t)) =
  ok s (mk_st (p + Z.of_nat (length (write_string s))) t).
Proof.
  intros Hs. unfold string_, write_string. cbn [app]. rewrite advance_1.
  assert (forallb is_char (chars s) = true) as Hc.
  { unfold chars, valid_str in *. destruct (from_utf8 (as_bytes s)) eqn:E; [|done].
    by destruct (from_utf8_sound _ _ E). }
  rewrite <- app_assoc. cbn [app]. rewrite str_loop_write; [|done|].
  - apply ok_eq; [|cbn [length]; rewrite length_app; cbn [length]; lia].
    exact (of_chars_chars s Hs).
  - cbn [rest]. rewrite length_app. pose proof (length_write_chars _ Hc). cbn. lia.
Qed.

(** ** Numbers *)

(** What may follow a number: not a digit, a point or an exponent. *)
Definition stops (t : list Z) : Prop :=
  forall c, head t = Some c -> is_digit c = false /\ c <> 46 /\ c <> 101 /\ c <> 69.

Lemma digits_fuel_head fuel z acc :
  0 < z < 2 ^ Z.of_nat fuel ->
  exists d ds, digits_fuel fuel z acc = d :: ds /\ 49 <= d <= 57.
Proof.
  revert z acc. induction fuel as [|fuel IH]; intros z acc H.
  - change (2 ^ Z.of_nat 0) with 1 in H. lia.
  - cbn [digits_fuel]. destruct (Z.ltb_spec z 10).
    + eexists _, _. split; [done|]. rewrite Z.mod_small; lia.
    + apply IH. rewrite Nat2Z.inj_succ, Z.pow_succ_r in H by lia. lia.
Qed.

Lemma log2_fuel z : 0 < z -> z < 2 ^ Z.of_nat (S (Z.to_nat (Z.log2 z))).
Proof.
  intros H. rewrite Nat2Z.inj_succ, Z2Nat.id by apply Z.log2_nonneg.
  by apply Z.log2_spec.
Qed.

Lemma number_int_write z p t :
  0 <= z -> stops t ->
  number_int (mk_st p (show_nat z ++ t)) =
  ok (show_nat z) (mk_st (p + Z.of_nat (length (show_nat z))) t).
Proof.
  intros Hz Ht. unfold number_int. destruct (Z.eq_dec z 0) as [->|Hn]; [done|].
  destruct (digits_fuel_head (S (Z.to_nat (Z.log2 z))) z []) as (d & ds & E & Hd);
    [split; [lia|apply log2_fuel; lia]|].
  fold (show_nat z) in E. unfold digits. cbn [rest].
  rewrite (span_all is_digit (show_nat z) t).
  - rewrite take_app_length, (advance_app _ p (show_nat z) t eq_refl). rewrite E.
    cbn [peek rest head app]. unfold between.
    replace (d =? 48) with false by lia.
    by replace ((49 <=? d) && (d <=? 57)) with true by lia.
  - apply (show_nat_digits z Hz).
  - intros c Hc. by destruct (Ht c Hc).
Qed.

Lemma no_frac p t : stops t -> number_frac (mk_st p t) = ok None (mk_st p t).
Proof.
  intros Ht. unfold number_frac, peek_is, peek. cbn [rest].
  destruct (head t) as [c|] eqn:E; [|done]. destruct (Ht c E) as (_ & Hc & _).
  by replace (c =? 46) with false by lia.
Qed.

Lemma no_exp p t : stops t -> number_exp (mk_st p t) = ok None (mk_st p t).
Proof.
  intros Ht. unfold number_exp, peek_is, peek. cbn [rest].
  destruct (head t) as [c|] eqn:E; [|done]. destruct (Ht c E) as (_ & _ & H1 & H2).
  replace (c =? 101) with false by lia. by replace (c =? 69) with false by lia.
Qed.

Lemma show_nat_head z : 0 <= z -> exists d ds, show_nat z = d :: ds /\ 48 <= d <= 57.
Proof.
  intros Hz. pose proof (show_nat_digits z Hz) as HF. destruct (show_nat z) as [|d ds] eqn:E.
  - unfold show_nat in E. cbn [digits_fuel] in E. destruct (z <? 10); [done|].
    pose proof (length_digits_fuel (Z.to_nat (Z.log2 z)) (z / 10) [48 + z mod 10]) as HL.
    rewrite E in HL. cbn in HL. lia.
  - inversion HF as [|? ? Hd _]. eexists _, _. split; [done|]. unfold between in Hd. lia.
Qed.

Lemma number_write n bs p t :
  number_ok n = true -> (forall f, n <> Float f) -> n <> Int 0 ->
  write_number n = Ok bs -> stops t ->
  number (mk_st p (bs ++ t)) = ok n (mk_st (p + Z.of_nat (length bs)) t)
  /\ exists d ds, bs = d :: ds /\ ((d =? 45) || is_digit d) = true.
Proof.
  intros Hok Hf Hz Hw Ht.
  assert (forall z q, 0 <= z -> number_int (mk_st q (show_nat z ++ t)) =
    ok (show_nat z) (mk_st (q + Z.of_nat (length (show_nat z))) t)) as HI
    by eauto using number_int_write.
  destruct n as [z|z|f]; [| |by destruct (Hf f)]; cbn in Hw, Hok; injection Hw as <-;
    unfold show_Z.
  - assert (z < 0) as Hneg by (destruct (Z.eq_dec z 0) as [->|]; [done|lia]).
    destruct (Z.ltb_spec z 0); [|lia]. split; [|by eexists _, _].
    unfold number. cbn [app]. change (peek_is 45 _) with true. cbn match.
    rewrite advance_1, HI by lia. cbn [pbind ok].
    rewrite no_frac by done. cbn [pbind ok]. rewrite no_exp by done. cbn [pbind ok].
    apply ok_eq; [|cbn [length]; lia].
    unfold number_of, parse_u64, parse_i64. cbn [app]. rewrite show_nat_val by lia.
    replace (- - z) with z by lia. by replace (-9223372036854775808 <=? z) with true by lia.
  - destruct (Z.ltb_spec z 0); [lia|].
    destruct (show_nat_head z) as (d & ds & E & Hd); [lia|]. split.
    2:{ eexists _, _. split; [exact E|]. unfold is_digit, between. lia. }
    unfold number.
    assert (peek_is 45 (mk_st p (show_nat z ++ t)) = false) as ->
      by (rewrite E; cbn; lia).
    rewrite HI by lia. cbn [pbind ok].
    rewrite no_frac by done. cbn [pbind ok]. rewrite no_exp by done. cbn [pbind ok].
    apply ok_eq; [|done]. unfold number_of. cbn [app].
    assert (parse_u64 (show_nat z) = Some z) as ->; [|done].
    unfold parse_u64. rewrite show_nat_val by lia. rewrite E.
    replace (z <=? U64_MAX) with true by lia.
    destruct d as [|d|d]; [done| |done]. repeat case_match; lia || done.
Qed.

(** ** Values *)

(** Levels of nesting. *)
Fixpoint vdepth (v : Value) : nat :=
  match v with
  | VArray a => S (list_max (map vdepth a))
  | VObject o => S (list_max (map (fun kv => match kv with (_, w) => vdepth w end) o))
  | _ => 1
  end.

(** Well-formed values without floats and without [Int 0], which is written as [Uint 0] is. *)
Definition exact_number (n : Number) : bool :=
  match n with Int z => (-9223372036854775808 <=? z) && (z <? 0)
             | Uint z => (0 <=? z) && (z <=? U64_MAX) | Float _ => false end.

Fixpoint exact (v : Value) : bool :=
  match v with
  | VNumber n => exact_number n
  | VString s => valid_str s
  | VArray a => forallb exact a
  | VObject o =>
      nodup_keys (obj_keys o)
      && forallb (fun kv => match kv with (k, w) => valid_str k && exact w end) o
  | _ => true
  end.

Definition write_field (kv : string * Value) : result HopError (list Z) :=
  match kv with (k, x) => t ← write x; Ok (write_string k ++ 58 :: t) end.

Lemma write_object o :
  write (VObject o) = (items ← write_sep write_field true o; Ok (123 :: items ++ [125])).
Proof. done. Qed.

(** A value is read back from what was written, whatever follows it. *)
Definition reads (v : Value) : Prop :=
  exists bs, write v = Ok bs /\
    (exists c r, bs = c :: r /\ is_ws c = false /\ c <> 93 /\ c <> 125) /\
    forall lvl p t, (vdepth v <= lvl)%nat -> stops t ->
      value lvl (mk_st p (bs ++ t)) = ok v (mk_st (p + Z.of_nat (length bs)) t).

Lemma stops_sep c t : c = 44 \/ c = 93 \/ c = 125 -> stops (c :: t).
Proof. intros H d [= <-]. unfold is_digit, between. destruct H as [->|[->| ->]]; done. Qed.

Lemma write_sep_total {A} (w : A -> result HopError (list Z)) first l :
  Forall (fun x => exists bs, w x = Ok bs) l -> exists bs, write_sep w first l = Ok bs.
Proof.
  intros H. revert first. induction H as [|x l [bs Hx] _ IH]; intros first; cbn; [eauto|].
  rewrite Hx. cbn. destruct (IH false) as [cs ->]. cbn. eauto.
Qed.

Lemma write_sep_cons {A} (w : A -> result HopError (list Z)) first x l sep :
  write_sep w first (x :: l) = Ok sep ->
  exists a b, w x = Ok a /\ write_sep w false l = Ok b
    /\ sep = (if first then [] else [44]) ++ a ++ b.
Proof.
  cbn. destruct (w x); cbn; [|done]. destruct (write_sep w false l); cbn; [|done].
  intros [= <-]. eauto.
Qed.

Lemma write_field_Ok k x bs :
  write_field (k, x) = Ok bs -> exists t, write x = Ok t /\ bs = write_string k ++ 58 :: t.
Proof. unfold write_field. destruct (write x); cbn; [|done]. intros [= <-]. eauto. Qed.

Lemma list_max_le_elem n l : (list_max l <= n)%nat <-> Forall (fun k => (k <= n)%nat) l.
Proof. rewrite list_max_le. done. Qed.

Lemma arr_loop_write lvl l x bs sep fuel p t acc :
  reads x -> Forall reads l -> write x = Ok bs -> write_sep write false l = Ok sep ->
  (vdepth x <= lvl)%nat -> Forall (fun v => (vdepth v <= lvl)%nat) l ->
  (length l < fuel)%nat ->
  arr_loop (value lvl) fuel (mk_st p (bs ++ sep ++ 93 :: t)) acc =
  ok (VArray (acc ++ x :: l)) (mk_st (p + Z.of_nat (length bs + length sep) + 1) t).
Proof.
  intros Hx Hl. revert x bs sep fuel p acc Hx.
  induction Hl as [|y l Hy Hl IH]; intros x bs sep fuel p acc Hx Hb Hs Hdx Hdl Hf;
    (destruct fuel as [|fuel]; [cbn in Hf; lia|]); cbn [arr_loop];
    destruct Hx as (bs' & E & (c & r & Eb & Hc & _) & HR); rewrite Hb in E; injection E as <-;
    rewrite Eb; cbn [app]; rewrite skip_ws_id by done;
    change (c :: r ++ sep ++ 93 :: t) with ((c :: r) ++ sep ++ 93 :: t); rewrite <- Eb.
  - injection Hs as <-. rewrite HR by (done || apply stops_sep; auto). cbn [pbind ok app].
    rewrite skip_ws_id by done. cbn [peek rest head]. rewrite advance_1.
    apply ok_eq; [done|]. cbn [length]. lia.
  - apply write_sep_cons in Hs as (by_ & sep' & Ey & Es & ->). inversion Hdl; subst.
    rewrite HR by (done || apply stops_sep; auto). cbn [pbind ok app].
    rewrite skip_ws_id by done. cbn [peek rest head]. rewrite advance_1, <- app_assoc.
    rewrite (IH y by_ sep') by (done || cbn in Hf; lia).
    apply ok_eq; [by rewrite <- app_assoc|]. cbn [length]. rewrite length_app. lia.
Qed.

Lemma skip_ws_string p k t :
  skip_ws (mk_st p (write_string k ++ t)) = mk_st p (write_string k ++ t).
Proof. by apply skip_ws_id. Qed.

Lemma peek_string p k t : peek_is 34 (mk_st p (write_string k ++ t)) = true.
Proof. done. Qed.

Lemma eat_colon p t : eat 58 "':'" (skip_ws (mk_st p (58 :: t))) = ok tt (mk_st (p + 1) t).
Proof. by rewrite skip_ws_id. Qed.

Lemma fresh_key acc k l :
  NoDup (obj_keys acc ++ k :: l) -> bool_decide (is_Some (obj_get acc k)) = false.
Proof.
  intros HN. apply bool_decide_eq_false. rewrite <- eq_None_not_Some. apply obj_get_None.
  apply NoDup_app in HN as (_ & HN & _). intros Hk. apply (HN k Hk). apply elem_of_cons. by left.
Qed.

Lemma obj_loop_write lvl l k x bs sep fuel p t acc :
  valid_str k = true -> reads x ->
  Forall (fun kv => valid_str kv.1 = true /\ reads kv.2) l ->
  write x = Ok bs -> write_sep write_field false l = Ok sep ->
  (vdepth x <= lvl)%nat -> Forall (fun kv => (vdepth kv.2 <= lvl)%nat) l ->
  NoDup (obj_keys acc ++ k :: obj_keys l) -> (length l < fuel)%nat ->
  obj_loop (value lvl) fuel (mk_st p (write_string k ++ 58 :: bs ++ sep ++ 125 :: t)) acc =
  ok (VObject (acc ++ (k, x) :: l))
     (mk_st (p + Z.of_nat (length (write_string k) + 1 + length bs + length sep) + 1) t).
Proof.
  intros Hk Hx Hl. revert k x bs sep fuel p acc Hk Hx.
  induction Hl as [|[k' y] l [Hk' Hy] Hl IH];
    intros k x bs sep fuel p acc Hk Hx Hb Hs Hdx Hdl HN Hf;
    (destruct fuel as [|fuel]; [cbn in Hf; lia|]); cbn [obj_loop];
    destruct Hx as (bs' & E & (c & r & Eb & Hc & _) & HR); rewrite Hb in E; injection E as <-;
    rewrite skip_ws_string, peek_string; cbn [negb];
    rewrite string_write by done; cbn [pbind ok];
    rewrite (fresh_key _ _ _ HN), eat_colon; cbn [pbind ok];
    rewrite Eb; cbn [app]; (rewrite skip_ws_id by done);
    change (c :: r ++ sep ++ 125 :: t) with ((c :: r) ++ sep ++ 125 :: t); rewrite <- Eb.
  - injection Hs as <-. rewrite HR by (done || apply stops_sep; auto). cbn [pbind ok app].
    rewrite skip_ws_id by done. cbn [peek rest head]. rewrite advance_1.
    apply ok_eq; [done|]. cbn [length]. lia.
  - apply write_sep_cons in Hs as (fd & sep' & Ef & Es & ->).
    apply write_field_Ok in Ef as (by_ & Ey & ->). inversion Hdl; subst. cbn [fst snd] in *.
    rewrite HR by (done || apply stops_sep; auto). cbn [pbind ok app].
    rewrite skip_ws_id by done. cbn [peek rest head]. rewrite advance_1, <- !app_assoc.
    cbn [app]. rewrite (IH k' y by_ sep').
    + apply ok_eq; [unfold obj_push; by rewrite <- app_assoc|].
      cbn [app length]. rewrite !length_app. cbn [length]. rewrite ?length_app. lia.
    + done.
    + done.
    + done.
    + done.
    + done.
    + done.
    + unfold obj_push, obj_keys in *. rewrite map_app. cbn. by rewrite <- app_assoc.
    + cbn in Hf. lia.
Qed.

Lemma write_length_sep {A} (w : A -> result HopError (list Z)) l sep :
  write_sep w false l = Ok sep -> (length l <= length sep)%nat.
Proof.
  revert sep. induction l as [|x l IH]; intros sep H; [cbn; lia|].
  apply write_sep_cons in H as (a & b & _ & Hb & ->). apply IH in Hb.
  cbn. rewrite length_app. lia.
Qed.

Lemma reads_array a : Forall reads a -> reads (VArray a).
Proof.
  intros Ha.
  destruct (write_sep_total write true a) as [items Hi].
  { eapply Forall_impl; [exact Ha|]. intros x (bs & Hb & _). eauto. }
  exists (91 :: items ++ [93]). split; [cbn [write]; by rewrite Hi|].
  split; [by exists 91, (items ++ [93])|].
  intros lvl p t Hd Ht. destruct lvl as [|lvl]; [cbn in Hd; lia|].
  cbn [app value peek rest head]. unfold array_. rewrite advance_1, <- app_assoc.
  assert (Forall (fun v => (vdepth v <= lvl)%nat) a) as Hd'.
  { cbn in Hd. apply le_S_n, list_max_le_elem in Hd. by apply Forall_map in Hd. }
  destruct a as [|x a].
  - injection Hi as <-. cbn [app]. rewrite skip_ws_id by done.
    change (peek_is 93 (mk_st (p + 1) (93 :: t))) with true. cbn match. rewrite advance_1.
    apply ok_eq; [done|]. cbn. lia.
  - apply write_sep_cons in Hi as (bs & sep & Hb & Hs & ->).
    inversion Ha as [|? ? Hx Ha']; subst. inversion Hd'; subst.
    pose proof Hx as (bs' & E & (c & r & Eb & Hc & H93 & _) & _).
    rewrite Hb in E. injection E as <-.
    assert (skip_ws (mk_st (p + 1) ((([] ++ bs ++ sep) ++ [93] ++ t))) =
            mk_st (p + 1) (bs ++ sep ++ 93 :: t)) as ->.
    { cbn [app]. rewrite <- app_assoc. rewrite Eb. cbn [app]. by rewrite skip_ws_id. }
    assert (peek_is 93 (mk_st (p + 1) (bs ++ sep ++ 93 :: t)) = false) as ->.
    { rewrite Eb. cbn. lia. }
    rewrite (arr_loop_write lvl a x bs sep); try done.
    + apply ok_eq; [done|]. cbn [app length]. rewrite !length_app. cbn [length]. lia.
    + cbn [rest]. apply write_length_sep in Hs. rewrite !length_app. cbn. lia.
Qed.

Lemma reads_object o :
  NoDup (obj_keys o) -> Forall (fun kv => valid_str kv.1 = true /\ reads kv.2) o ->
  reads (VObject o).
Proof.
  intros HN Ho.
  destruct (write_sep_total write_field true o) as [items Hi].
  { eapply Forall_impl; [exact Ho|]. intros [k x] [_ (bs & Hb & _)]. cbn in *.
    rewrite Hb. cbn. eauto. }
  exists (123 :: items ++ [125]). split; [rewrite write_object; by rewrite Hi|].
  split; [by exists 123, (items ++ [125])|].
  intros lvl p t Hd Ht. destruct lvl as [|lvl]; [cbn in Hd; lia|].
  cbn [app value peek rest head]. unfold object_. rewrite advance_1, <- app_assoc.
  assert (Forall (fun kv => (vdepth kv.2 <= lvl)%nat) o) as Hd'.
  { cbn in Hd. apply le_S_n, list_max_le_elem, Forall_map in Hd.
    eapply Forall_impl; [exact Hd|]. by intros [k x]. }
  destruct o as [|[k x] o].
  - injection Hi as <-. cbn [app]. rewrite skip_ws_id by done.
    change (peek_is 125 (mk_st (p + 1) (125 :: t))) with true. cbn match. rewrite advance_1.
    apply ok_eq; [done|]. cbn. lia.
  - apply write_sep_cons in Hi as (fd & sep & Hf & Hs & ->).
    apply write_field_Ok in Hf as (bs & Hb & ->).
    inversion Ho as [|? ? [Hk Hx] Ho']; subst. inversion Hd'; subst. cbn [fst snd] in *.
    assert ((([] ++ (write_string k ++ 58 :: bs) ++ sep) ++ [125] ++ t) =
            write_string k ++ 58 :: bs ++ sep ++ 125 :: t) as ->.
    { cbn [app]. rewrite <- ?app_assoc. cbn [app]. by rewrite <- ?app_assoc. }
    rewrite skip_ws_string.
    change (peek_is 125 (mk_st (p + 1) (write_string k ++ 58 :: bs ++ sep ++ 125 :: t)))
      with false. cbn match.
    rewrite (obj_loop_write lvl o k x bs sep); try done.
    + apply ok_eq; [done|]. cbn [app length]. rewrite !length_app. cbn [length].
      rewrite ?length_app. cbn [length]. lia.
    + cbn [rest]. apply write_length_sep in Hs. rewrite !length_app. cbn [length].
      rewrite !length_app. lia.
Qed.

Lemma literal_write w v p t :
  literal w v (mk_st p (w ++ t)) = ok v (mk_st (p + Z.of_nat (length w)) t).
Proof.
  unfold literal. cbn [rest]. rewrite take_app_length. unfold bytes_eqb.
  rewrite bool_decide_true by done. by rewrite advance_app.
Qed.

Lemma exact_reads v : exact v = true -> reads v.
Proof.
  induction v as [|b|n|s|a IH|o IH] using Value_ind; intros He.
  1,2: try destruct b; (eexists; split; [reflexivity|]);
    (split; [eexists _, _; split_and!; [reflexivity|done..]|]);
    intros lvl p t Hd Ht; (destruct lvl; [cbn in Hd; lia|]);
    first [exact (literal_write (as_bytes "null") VNull p t)
          |exact (literal_write (as_bytes "true") (VBool true) p t)
          |exact (literal_write (as_bytes "false") (VBool false) p t)].
  - assert (number_ok n = true /\ (forall f, n <> Float f) /\ n <> Int 0) as (Hn & Hf & Hz).
    { destruct n; cbn in He; [|split_and!; done..]. cbn.
      split_and!; [lia|done|]. intros [= ->]. lia. }
    assert (exists bs, write_number n = Ok bs) as [bs Hb]
      by (destruct n; cbn in *; eauto; done).
    exists bs. split; [done|]. split.
    + destruct (number_write n bs 0 [] Hn Hf Hz Hb) as (_ & d & ds & -> & Hd);
        [intros c; cbn; discriminate|].
      exists d, ds. unfold is_ws, is_digit, between in *. split_and!; [done|lia|lia|lia].
    + intros lvl p t Hd Ht. destruct lvl as [|lvl]; [cbn in Hd; lia|].
      destruct (number_write n bs p t Hn Hf Hz Hb Ht) as (Hnum & d & ds & E & Hdig).
      cbn [value]. rewrite E in *. cbn [app peek rest head].
      unfold is_digit, between in Hdig.
      change ((d :: ds) ++ t) with (d :: ds ++ t) in Hnum.
      repeat case_match; subst; try (cbn in Hdig; discriminate Hdig);
        try (by rewrite Hnum); unfold is_digit, between in *; congruence || lia.
  - exists (write_string s). split; [done|].
    split; [by eexists _, _|]. intros lvl p t Hd Ht. destruct lvl; [cbn in Hd; lia|].
    cbn [value]. change (peek (mk_st p (write_string s ++ t))) with (Some 34). cbn match.
    rewrite string_write by done. done.
  - apply reads_array. cbn in He. rewrite forallb_forall in He.
    rewrite Forall_forall in IH |- *. intros x Hx. apply IH; [done|].
    apply He. by apply list_elem_of_In.
  - cbn in He. apply andb_true_iff in He as [HN He]. apply nodup_keys_NoDup in HN.
    apply reads_object; [done|]. rewrite forallb_forall in He.
    rewrite Forall_forall in IH |- *. intros [k x] Hx. specialize (IH _ Hx).
    apply list_elem_of_In, He in Hx. apply andb_true_iff in Hx as [? ?]. auto.
Qed.

(** ** What the parser accepts *)

(** Every success of a parser satisfies [P]. *)
Definition yields {A} (P : A -> Prop) (m : PRes A) : Prop :=
  forall a s, m = Some (Ok (a, s)) -> P a.

Lemma yields_bind {A B} (P : A -> Prop) (Q : B -> Prop) (m : PRes A) f :
  yields P m -> (forall a s, P a -> yields Q (f a s)) -> yields Q (pbind m f).
Proof.
  intros Hm Hf b s H. destruct m as [[[a s1]|e]|]; cbn in H; try discriminate.
  eapply Hf; [|exact H]. by eapply Hm.
Qed.

Lemma yields_ok {A} (P : A -> Prop) a s : P a -> yields P (ok a s).
Proof. intros H b s' [= <- <-]. done. Qed.

Lemma yields_err {A} (P : A -> Prop) s e : yields P (perr s e).
Proof. intros b s' [=]. Qed.

#[local] Hint Resolve yields_ok yields_err : core.

Lemma is_char_or c : is_char (if is_char c then c else 65533) = true.
Proof. by destruct (is_char c) eqn:E. Qed.

Lemma unicode_yields s : yields (fun c => is_char c = true) (unicode s).
Proof.
  unfold unicode. eapply (yields_bind (fun _ => True)); [done|]. intros hi s1 _.
  destruct (_ && _); [|apply yields_ok, is_char_or].
  destruct (negb _); [done|].
  eapply (yields_bind (fun _ => True)); [done|]. intros lo s2 _.
  destruct (negb _); [done|]. apply yields_ok, is_char_or.
Qed.

Lemma escape_yields s : yields (fun c => is_char c = true) (escape s).
Proof.
  unfold escape. repeat (case_match; try apply yields_err; try (by apply yields_ok)).
  apply unicode_yields.
Qed.

Lemma str_loop_yields fuel s out cs :
  out = encode_chars cs -> forallb is_char cs = true ->
  yields (fun x => valid_str x = true) (str_loop fuel s out).
Proof.
  revert s out cs. induction fuel as [|fuel IH]; intros s out cs -> Hc; [intros a s' [=]|].
  cbn [str_loop]. destruct (from_utf8 _) as [ds|] eqn:E; [|intros a s' [=]].
  apply from_utf8_sound in E as [<- Hd].
  assert (forallb is_char (cs ++ ds) = true) as Hcd by (rewrite forallb_app; by rewrite Hc, Hd).
  assert (encode_chars cs ++ encode_chars ds = encode_chars (cs ++ ds)) as ->
    by (unfold encode_chars; by rewrite flat_map_app).
  repeat (case_match; try apply yields_err).
  - apply yields_ok. unfold valid_str. rewrite as_of_bytes by by apply encode_chars_bytes.
    rewrite <- (app_nil_r (encode_chars _)), from_utf8_encode by done. done.
  - eapply yields_bind; [apply escape_yields|]. intros c s2 Hcc.
    apply (IH _ _ ((cs ++ ds) ++ [c])).
    + unfold encode_chars. rewrite !flat_map_app. cbn. by rewrite app_nil_r.
    + rewrite forallb_app, Hcd. cbn. by rewrite Hcc.
Qed.

Lemma string_yields s : yields (fun x => valid_str x = true) (string_ s).
Proof. by apply (str_loop_yields _ _ _ []). Qed.

Lemma digits_val_nonneg l v :
  0 <= v -> Forall (fun c => is_digit c = true) l -> 0 <= digits_val v l.
Proof.
  intros Hv Hl. revert v Hv. induction Hl as [|c l Hc Hl IH]; intros v Hv; [done|].
  unfold digits_val in *. cbn. apply IH. unfold is_digit, between in Hc. lia.
Qed.

Lemma span_take (p : Z -> bool) l : Forall (fun c => p c = true) (take (span p l) l).
Proof. induction l as [|c l IH]; cbn; [constructor|]. destruct (p c) eqn:E; cbn; auto. Qed.

Lemma number_int_yields s :
  yields (fun ds => Forall (fun c => is_digit c = true) ds) (number_int s).
Proof.
  unfold number_int. case_match; [|done]. case_match; [apply yields_ok; by repeat constructor|].
  case_match; [|done]. apply yields_ok, span_take.
Qed.

Lemma number_of_ok neg int frac exp :
  Forall (fun c => is_digit c = true) int -> number_ok (number_of neg int frac exp) = true.
Proof.
  intros Hi. pose proof (digits_val_nonneg int 0 ltac:(lia) Hi) as Hv.
  unfold number_of. destruct frac, exp; try done.
  assert (forall c, head int = Some c -> c <> 45) as Hh.
  { intros c Hc. destruct Hi as [|? ? Hx]; [done|]. injection Hc as ->.
    unfold is_digit, between in Hx. lia. }
  unfold parse_u64, parse_i64. destruct neg; cbn [app].
  - destruct (-9223372036854775808 <=? - digits_val 0 int) eqn:E; [|done].
    cbn [number_ok]. lia.
  - assert (forall T (f : list Z -> T) x, match int with 45 :: ds => f ds | _ => x end = x) as HM.
    { intros T f x. destruct int as [|c int]; [done|]. specialize (Hh c eq_refl).
      destruct c as [|c|c]; [done| |done]. repeat case_match; done. }
    rewrite HM. destruct (digits_val 0 int <=? U64_MAX) eqn:E; cbn [number_ok]; [lia|].
    rewrite (HM _ (fun ds => _)). destruct (digits_val 0 int <=? 9223372036854775807) eqn:E2; [|done].
    unfold U64_MAX in *. lia.
Qed.

Lemma number_yields s : yields (fun n => number_ok n = true) (number s).
Proof.
  unfold number. eapply yields_bind; [apply number_int_yields|]. intros int s2 Hi.
  eapply (yields_bind (fun _ => True)); [done|]. intros frac s3 _.
  eapply (yields_bind (fun _ => True)); [done|]. intros exp s4 _.
  apply yields_ok. by apply number_of_ok.
Qed.

(** A value that is well-formed and nests at most [lvl] levels. *)
Definition acceptable (lvl : nat) (v : Value) : Prop :=
  wf_value v = true /\ (vdepth v <= lvl)%nat.

Section NestedYields.
Variables (val : st -> PRes Value) (lvl : nat).
Hypothesis val_yields : forall s, yields (acceptable lvl) (val s).

Lemma arr_loop_yields fuel s arr :
  Forall (acceptable lvl) arr -> yields (acceptable (S lvl)) (arr_loop val fuel s arr).
Proof.
  revert s arr. induction fuel as [|fuel IH]; intros s arr Ha; [intros a s' [=]|].
  cbn [arr_loop]. eapply yields_bind; [apply val_yields|]. intros v s1 Hv.
  assert (Forall (acceptable lvl) (arr ++ [v])) as Ha' by (apply Forall_app; auto).
  repeat (case_match; try apply yields_err); [|by apply IH].
  apply yields_ok. split.
  - cbn. apply forallb_forall. intros x Hx%list_elem_of_In.
    rewrite Forall_forall in Ha'. by apply Ha'.
  - cbn. apply le_n_S, list_max_le_elem, Forall_map. eapply Forall_impl; [exact Ha'|].
    by intros x [_ ?].
Qed.

Lemma obj_loop_yields fuel s obj :
  NoDup (obj_keys obj) ->
  Forall (fun kv => valid_str kv.1 = true /\ acceptable lvl kv.2) obj ->
  yields (acceptable (S lvl)) (obj_loop val fuel s obj).
Proof.
  revert s obj. induction fuel as [|fuel IH]; intros s obj HN Ho; [intros a s' [=]|].
  cbn [obj_loop]. destruct (negb _); [done|].
  eapply yields_bind; [apply string_yields|]. intros k s2 Hk.
  destruct (bool_decide _) eqn:EK; [intros a s' [=]|].
  eapply (yields_bind (fun _ => True)); [done|]. intros _ s3 _.
  eapply yields_bind; [apply val_yields|]. intros v s4 Hv.
  assert (NoDup (obj_keys (obj_push obj k v))) as HN'.
  { unfold obj_keys, obj_push. rewrite map_app. apply NoDup_app.
    split_and!; [done| |apply NoDup_singleton]. intros x Hx ->%list_elem_of_singleton.
    apply bool_decide_eq_false in EK. apply EK. apply not_eq_None_Some.
    rewrite obj_get_None. tauto. }
  assert (Forall (fun kv => valid_str kv.1 = true /\ acceptable lvl kv.2) (obj_push obj k v))
    as Ho' by (apply Forall_app; auto).
  repeat (case_match; try apply yields_err); [|by apply IH].
  apply yields_ok. split.
  - cbn. apply andb_true_iff. split; [by apply nodup_keys_NoDup|].
    apply forallb_forall. intros [k' x] Hx%list_elem_of_In.
    rewrite Forall_forall in Ho'. apply Ho' in Hx as [Hkx [Hw _]]. cbn in *. by rewrite Hkx, Hw.
  - cbn. apply le_n_S, list_max_le_elem, Forall_map. eapply Forall_impl; [exact Ho'|].
    by intros [k' x] [_ [_ ?]].
Qed.
End NestedYields.

Lemma value_yields lvl s : yields (acceptable lvl) (value lvl s).
Proof.
  revert s. induction lvl as [|lvl IH]; intros s; cbn [value]; [intros a s' [=]|].
  assert (forall w v, wf_value v = true -> vdepth v = 1%nat ->
    yields (acceptable (S lvl)) (literal w v s)) as HL.
  { intros w v Hw Hd. unfold literal. case_match; [|done]. apply yields_ok.
    split; [done|lia]. }
  assert (forall c, yields (acceptable (S lvl)) (if (c =? 45) || is_digit c
    then let! (n, s1) := number s in ok (VNumber n) s1 else perr s "a value")) as HN.
  { intros c. case_match; [|done]. eapply yields_bind; [apply number_yields|].
    intros n s1 Hn. apply yields_ok. split; [done|cbn; lia]. }
  destruct (peek s) as [c|]; [|done].
  repeat (case_match; try apply HN; try (by apply HL));
    first
      [ eapply yields_bind; [apply string_yields|]; intros x s1 Hx; apply yields_ok;
        split; [done|cbn; lia]
      | unfold object_; destruct (peek_is 125 _); [apply yields_ok; split; [done|cbn; lia]|];
        by apply obj_loop_yields; [apply IH|constructor|constructor]
      | unfold array_; destruct (peek_is 93 _); [apply yields_ok; split; [done|cbn; lia]|];
        by apply arr_loop_yields; [apply IH|constructor] ].
Qed.

(** What was written is read back, with any limit it fits. *)
Lemma exact_parses v :
  exact v = true -> (vdepth v <= MAX_DEPTH)%nat ->
  exists bs, write v = Ok bs /\
    (forall limit, Z.of_nat (length bs) <= limit -> parse bs limit = Some (Ok v)).
Proof.
  intros He Hd. destruct (exact_reads v He) as (bs & Hw & (c & r & Eb & Hc & _) & HR).
  exists bs. split; [done|]. intros limit HL. unfold parse.
  destruct (Z.ltb_spec limit (Z.of_nat (length bs))); [lia|].
  specialize (HR MAX_DEPTH 0 [] Hd). rewrite app_nil_r in HR.
  assert (skip_ws (mk_st 0 bs) = mk_st 0 bs) as -> by (rewrite Eb; by apply skip_ws_id).
  rewrite HR; [done|]. intros d; cbn; discriminate.
Qed.

(** ** The properties of the parser and the writer *)

(** A value as the reader gives it: a whole number that is not negative is always a [Uint]. *)
Definition canonical_number (n : Number) : Number :=
  match n with Int z => if 0 <=? z then Uint z else Int z | n => n end.

Fixpoint canonical (v : Value) : Value :=
  match v with
  | VNumber n => VNumber (canonical_number n)
  | VArray a => VArray (map canonical a)
  | VObject o => VObject (map (fun kv => match kv with (k, w) => (k, canonical w) end) o)
  | v => v
  end.

(** Values without floats that are values of the program: numbers within 64 bits, strings and
    keys of Unicode, the keys of an object distinct. *)
Definition whole_number (n : Number) : bool :=
  match n with Int z => (-9223372036854775808 <=? z) && (z <=? 9223372036854775807)
             | Uint z => (0 <=? z) && (z <=? U64_MAX) | Float _ => false end.

Fixpoint floatless (v : Value) : bool :=
  match v with
  | VNumber n => whole_number n
  | VString s => valid_str s
  | VArray a => forallb floatless a
  | VObject o =>
      nodup_keys (obj_keys o)
      && forallb (fun kv => match kv with (k, w) => valid_str k && floatless w end) o
  | _ => true
  end.

Lemma write_sep_map {A} (w : A -> result HopError (list Z)) (g : A -> A) first l :
  Forall (fun x => w (g x) = w x) l -> write_sep w first (map g l) = write_sep w first l.
Proof. intros H. revert first. induction H as [|x l Hx _ IH]; intros first; cbn; [done|]. by rewrite Hx, IH. Qed.

Lemma canonical_keys o : obj_keys (map (fun kv => match kv with (k, w) => (k, canonical w) end) o) = obj_keys o.
Proof. unfold obj_keys. rewrite map_map. apply map_ext. by intros [k w]. Qed.

Lemma canonical_spec v :
  floatless v = true -> write (canonical v) = write v /\ exact (canonical v) = true /\ vdepth (canonical v) = vdepth v.
Proof.
  induction v as [|b|n|s|a IH|o IH] using Value_ind; intros Hf; try done.
  - cbn in Hf |- *. destruct n as [z|z|x]; cbn in *; [|split_and!; [done|lia|done]|done].
    destruct (Z.leb_spec 0 z); cbn; (split_and!; [done| |done]); unfold U64_MAX; lia.
  - cbn [floatless] in Hf. rewrite forallb_forall in Hf.
    assert (Forall (fun w => write (canonical w) = write w /\ exact (canonical w) = true /\ vdepth (canonical w) = vdepth w) a) as Ha.
    { rewrite Forall_forall in IH |- *. intros w Hw. apply IH; [done|]. by apply Hf, list_elem_of_In. }
    cbn [canonical write exact vdepth]. split_and!.
    + rewrite write_sep_map; [done|]. eapply Forall_impl; [exact Ha|]. by intros w (? & _).
    + apply forallb_forall. intros w (u & <- & Hu)%in_map_iff. rewrite Forall_forall in Ha. apply Ha. by apply list_elem_of_In.
    + do 2 f_equal. rewrite map_map. apply map_ext_in. intros w Hw. rewrite Forall_forall in Ha. apply Ha. by apply list_elem_of_In.
  - cbn [floatless] in Hf. apply andb_true_iff in Hf as [Hk Hf]. rewrite forallb_forall in Hf.
    assert (Forall (fun kv => write (canonical kv.2) = write kv.2 /\ (valid_str kv.1 && exact (canonical kv.2)) = true
      /\ vdepth (canonical kv.2) = vdepth kv.2) o) as Ho.
    { rewrite Forall_forall in IH |- *. intros [k w] Hw. specialize (Hf (k, w) (proj1 (list_elem_of_In _ _) Hw)).
      apply andb_true_iff in Hf as [Hk1 Hf]. cbn [fst snd]. rewrite Hk1. by apply (IH (k, w)). }
    rewrite Forall_forall in Ho. cbn [canonical exact vdepth]. split_and!.
    + rewrite !write_object. rewrite write_sep_map; [done|]. apply Forall_forall. intros [k w] Hw. cbn [write_field].
      destruct (Ho (k, w) Hw) as [Hkw _]. cbn [snd] in Hkw. by rewrite Hkw.
    + rewrite canonical_keys, Hk. cbn [andb]. apply forallb_forall. intros kv ([k w] & <- & Hu)%in_map_iff.
      apply (Ho (k, w)). by apply list_elem_of_In.
    + do 2 f_equal. rewrite map_map. apply map_ext_in. intros [k w] Hw. apply (Ho (k, w)). by apply list_elem_of_In.
Qed.

(** C14: Reading back what was written: a value without floats that nests at most 32 levels is
    written; parsing the text, with any limit it fits, gives the same value, where a number
    that is not negative comes back as an unsigned one; and with a smaller limit the text is
    refused for its length.  Floats are not covered, nor are deeper values, which are written
    but refused by the reader. *)
Theorem parse_write_roundtrip v limit :
  floatless v = true -> (vdepth v <= MAX_DEPTH)%nat ->
  exists bs, write v = Ok bs /\
    parse bs limit = if Z.of_nat (length bs) <=? limit then Some (Ok (canonical v))
                     else Some (Err (TooLarge (Z.of_nat (length bs)) limit)).
Proof.
  intros He Hd. destruct (canonical_spec v He) as (Hw & Hx & Hv). rewrite <- Hv in Hd.
  destruct (exact_parses _ Hx Hd) as (bs & Hb & HP). exists bs. split; [congruence|].
  destruct (Z.leb_spec (Z.of_nat (length bs)) limit); [by apply HP|]. unfold parse.
  by destruct (Z.ltb_spec limit (Z.of_nat (length bs))); [|lia].
Qed.

Definition sample : Value :=
  VObject [("id", VString "a<b"); ("n", VArray [VNumber (Uint 18446744073709551615);
    VNumber (Int (-5)); VNumber (Int 0); VBool true; VNull; VObject []])].

Lemma parse_write_roundtrip_witness :
  exists bs, write sample = Ok bs /\ parse bs 1000 = Some (Ok (canonical sample)).
Proof.
  destruct (parse_write_roundtrip sample 1000) as (bs & Hw & Hp); [vm_compute; reflexivity|vm_compute; lia|].
  exists bs. split; [exact Hw|]. vm_compute in Hw. injection Hw as <-. exact Hp.
Defined.

(** The parser always answers: its loops never use up the fuel they are given. *)
Theorem parse_total input limit : exists r, parse input limit = Some r.
Proof. destruct (parse_never_out_of_fuel input limit) as [r Hr]. by exists r. Qed.

(** What the parser accepts is well formed. *)
Lemma accepted_wf input limit v :
  parse input limit = Some (Ok v) ->
  wf_value v = true /\ (vdepth v <= MAX_DEPTH)%nat /\ Z.of_nat (length input) <= limit.
Proof.
  unfold parse. intros H. destruct (Z.ltb_spec limit (Z.of_nat (length input))); [done|].
  pose proof (value_yields MAX_DEPTH (skip_ws (mk_st 0 input))) as HY.
  destruct (value _ _) as [[[w s]|e]|]; [|done..].
  destruct (HY w s eq_refl) as [Hw Hd].
  destruct (rest (skip_ws s)); [injection H as ->|done]. auto.
Qed.

(** C25: The parser accepts only well-formed values: no object has a duplicate key, every
    string is UTF-8, integers are within 64 bits, nesting stays within the limit, and the
    input was not larger than the limit. *)
Theorem parse_sound input limit v :
  parse input limit = Some (Ok v) ->
  wf_value v = true /\ (vdepth v <= MAX_DEPTH)%nat /\ Z.of_nat (length input) <= limit.
Proof. apply accepted_wf. Qed.

Lemma parse_sound_witness :
  exists v, parse (as_bytes "[1,[],true]") 100 = Some (Ok v) /\ wf_value v = true /\
    (vdepth v <= MAX_DEPTH)%nat /\ Z.of_nat (length (as_bytes "[1,[],true]")) <= 100.
Proof.
  eexists. split; [vm_compute; reflexivity|].
  apply (parse_sound (as_bytes "[1,[],true]")). vm_compute. reflexivity.
Defined.

(** * JsonBytes: what the JSON writer produces are bytes

    [write] of [Json] yields values of one byte each, so its output can be stored in a slot
    and sent over a connection. *)

(** ** The writer produces bytes *)

Lemma digit_is_byte c : between 48 c 57 = true -> is_byte c.
Proof. unfold between, is_byte. lia. Qed.

Lemma show_nat_bytes z : 0 <= z -> Forall is_byte (show_nat z).
Proof. intros Hz. eapply Forall_impl; [by apply show_nat_digits|]. apply digit_is_byte. Qed.

Lemma show_Z_bytes z : Forall is_byte (show_Z z).
Proof.
  unfold show_Z. destruct (Z.ltb_spec z 0); [constructor; [unfold is_byte; lia|]|]; apply show_nat_bytes; lia.
Qed.

Lemma repeat_bytes n : Forall is_byte (repeat 48 n).
Proof. induction n; cbn; constructor; [unfold is_byte; lia|done]. Qed.

Lemma place_point_bytes ds s : Forall is_byte ds -> Forall is_byte (place_point ds s).
Proof.
  intros Hd. unfold place_point.
  destruct (0 <=? s); [apply Forall_app; auto using repeat_bytes|].
  destruct (0 <? _).
  - apply Forall_app. split; [by apply Forall_take|]. constructor; [unfold is_byte; lia|by apply Forall_drop].
  - do 2 (constructor; [unfold is_byte; lia|]). apply Forall_app. auto using repeat_bytes.
Qed.

Lemma div_nonneg a b : 0 <= a -> 0 <= b -> 0 <= a / b.
Proof. intros Ha Hb. destruct (Z.eq_dec b 0) as [->|]; [by rewrite Z.div_0_r|]. apply Z.div_pos; lia. Qed.

Lemma candidate_nonneg num den k n v d : 0 <= num -> 0 <= den -> candidate num den k n v = Some d -> 0 <= d.
Proof.
  intros Hn Hd. unfold candidate. destruct (0 <=? k - n); cbv beta iota zeta.
  - pose proof (div_nonneg num (den * 10 ^ (k - n)) Hn ltac:(apply Z.mul_nonneg_nonneg; [done|apply Z.pow_nonneg; lia])).
    repeat case_match; intros [= <-]; lia.
  - pose proof (div_nonneg (num * 10 ^ (- (k - n))) den ltac:(apply Z.mul_nonneg_nonneg; [done|apply Z.pow_nonneg; lia]) Hd).
    repeat case_match; intros [= <-]; lia.
Qed.

Lemma shortest_nonneg fuel num den k n v : 0 <= num -> 0 <= den -> 0 <= (shortest fuel num den k n v).1.
Proof.
  intros Hn Hd. revert n. induction fuel as [|fuel IH]; intros n; cbn [shortest]; [by apply div_nonneg|].
  destruct (candidate num den k n v) as [d|] eqn:E; [|apply IH]. cbn [fst]. exact (candidate_nonneg _ _ _ _ _ _ Hn Hd E).
Qed.

Lemma f64_display_bytes x : Forall is_byte (f64_display x).
Proof.
  destruct x as [s|s| |s m e]; cbn [f64_display]; try apply as_bytes_is_byte.
  destruct (if 0 <=? e then _ else _) as [num den] eqn:E.
  assert (0 <= num /\ 0 <= den) as [Hn Hd].
  { destruct (Z.leb_spec 0 e); injection E as <- <-; split; try lia; try (apply Z.pow_nonneg; lia). }
  pose proof (shortest_nonneg 17 num den (find_exp 8 num den ((Z.log2 num - Z.log2 den) * 30103 / 100000 - 1)) 1
    (S754_finite false m e) Hn Hd) as Hs.
  destruct (shortest _ _ _ _ _ _) as [d sc]. cbn in Hs.
  apply Forall_app. split; [destruct s; repeat constructor; unfold is_byte; lia|].
  by apply place_point_bytes, show_nat_bytes.
Qed.

Lemma hex_char_byte d : 0 <= d < 16 -> is_byte (hex_char d).
Proof. unfold hex_char, is_byte. destruct (d <? 10); lia. Qed.

Lemma write_char_bytes c : is_char c = true -> Forall is_byte (write_char c).
Proof.
  intros Hc. unfold write_char. repeat case_match; try (repeat constructor; unfold is_byte; lia); [|by apply encode_char_bytes].
  do 2 (constructor; [unfold is_byte; lia|]). unfold hex4_text.
  repeat constructor; apply hex_char_byte; apply Z.mod_pos_bound; lia.
Qed.

Lemma write_string_bytes s : Forall is_byte (write_string s).
Proof.
  unfold write_string. constructor; [unfold is_byte; lia|]. apply Forall_app. split; [|repeat constructor; unfold is_byte; lia].
  pose proof (chars_valid s) as Hc. induction (chars s) as [|c cs IH]; cbn in *; [constructor|].
  apply andb_true_iff in Hc as [H1 H2]. apply Forall_app. auto using write_char_bytes.
Qed.

Lemma write_sep_bytes {A} (w : A -> result HopError (list Z)) first l bs :
  Forall (fun x => forall b, w x = Ok b -> Forall is_byte b) l -> write_sep w first l = Ok bs -> Forall is_byte bs.
Proof.
  intros Hl. revert first bs. induction Hl as [|x l Hx _ IH]; intros first bs H; cbn in H; [by injection H as <-|].
  destruct (w x) as [a|] eqn:Ea; cbn in H; [|done]. destruct (write_sep w false l) as [b|] eqn:Eb; cbn in H; [|done].
  injection H as <-. apply Forall_app. split; [destruct first; repeat constructor; unfold is_byte; lia|].
  apply Forall_app. split; [by apply Hx|by eapply IH].
Qed.

Lemma bracket_bytes a b l : is_byte a -> is_byte b -> Forall is_byte l -> Forall is_byte (a :: l ++ [b]).
Proof. intros Ha Hb Hl. constructor; [done|]. apply Forall_app. split; [done|by apply Forall_singleton]. Qed.

Lemma write_bytes v bs : write v = Ok bs -> Forall is_byte bs.
Proof.
  revert bs. induction v as [|b|n|s|a IH|o IH] using Value_ind; intros bs H.
  - injection H as <-. apply as_bytes_is_byte.
  - destruct b; injection H as <-; apply as_bytes_is_byte.
  - destruct n as [z|z|f]; cbn in H; [injection H as <-; apply show_Z_bytes..|].
    destruct (is_finite f); [|done]. injection H as <-. apply f64_display_bytes.
  - injection H as <-. apply write_string_bytes.
  - cbn [write] in H. destruct (write_sep _ true a) as [items|] eqn:E; cbn in H; [|done]. injection H as <-.
    apply bracket_bytes; [unfold is_byte; lia..|]. by eapply write_sep_bytes.
  - cbn [write] in H. destruct (write_sep _ true o) as [items|] eqn:E; cbn in H; [|done]. injection H as <-.
    apply bracket_bytes; [unfold is_byte; lia..|]. eapply write_sep_bytes; [|exact E].
    eapply Forall_impl; [exact IH|]. intros [k x] Hx b Hb. cbn in Hx. destruct (write x) as [t|] eqn:Et;
      cbn [mbind result_bind] in Hb; [|done].
    assert (b = write_string k ++ 58 :: t) as -> by congruence. apply Forall_app. split; [apply write_string_bytes|]. constructor; [unfold is_byte; lia|auto].
Qed.
