(* ===== verification/Wire.v ===== *)
(** * Wire: length-prefixed frames of the app channel

    Models [crates/protocol/src/lib.rs] (the incremental [Decoder], [Frame], [encode]) and
    the loop with which [crates/host/src/apps.rs] hands the bytes of one read to the
    decoder ([Connection::poll]).  Bytes are [list Z]; a [usize] is a [nat] where it
    counts bytes in memory and a [Z] where it is a size announced by the peer.  The
    specification [frames] says what a byte stream means; [drain_refines_frames] shows
    that decoding it in pieces of any size gives exactly that.  One [drain] keeps one limit of
    the frames: after the greeting of an app, [apps.rs] replaces the decoder by a new one with
    [MAX_FRAME], with which a stream of its own begins. *)

From Stdlib Require Import ZArith Lia Ascii String.
From S2P Require Import Prelude Text Errors Float Value Json JsonRoundtrip.

Local Open Scope Z_scope.

Definition VERSION : Z := 1.
Definition MAX_FRAME : Z := Z.shiftl 8 20.
Definition MAX_GREETING : Z := Z.shiftl 256 10.

(** ** The decoder *)

Record Decoder : Type := mk_decoder {
  d_prefix : list Z;
  d_prefix_len : nat;
  d_body : list Z;
  d_expected : option Z;
  d_limit : Z;
  d_poisoned : bool
}.

Definition Decoder_new (limit : Z) : Decoder := mk_decoder [0; 0; 0; 0] 0 [] None limit false.

(** [while self.prefix_len < 4 && used < bytes.len()]: the prefix, its length and how many
    bytes were used. *)
Fixpoint fill (prefix : list Z) (n : nat) (bytes : list Z) : list Z * nat * nat :=
  match bytes with
  | [] => (prefix, n, 0%nat)
  | b :: bytes' =>
      if (n <? 4)%nat
      then let '(p, m, used) := fill (<[n := b]> prefix) (S n) bytes' in (p, m, S used)
      else (prefix, n, 0%nat)
  end.

(** [u32::from_be_bytes] *)
Definition from_be_bytes (l : list Z) : Z := le_val (rev l).

(** [x.to_be_bytes()] for an integer of [n] bytes *)
Definition be_bytes (n : nat) (z : Z) : list Z := rev (le_bytes n z).

(** The second half of [Decoder::feed], once the size of the frame is known. *)
Definition feed_body (d : Decoder) (prefix : list Z) (expected : Z) (bytes : list Z)
  (used : nat) : Decoder * Result nat :=
  let remaining := Z.to_nat (saturating_sub expected (Z.of_nat (length (d_body d)))) in
  let n := Nat.min remaining (length bytes - used) in
  let grown body := mk_decoder prefix 4 body (Some expected) (d_limit d) false in
  match slice bytes used (used + n) with
  | None => (grown (d_body d), Err Full)
  | Some piece => (grown (d_body d ++ piece), Ok (used + n)%nat)
  end.

(** [Decoder::feed]: the decoder afterwards, and the number of bytes used or an error. *)
Definition feed (d : Decoder) (bytes : list Z) : Decoder * Result nat :=
  if d_poisoned d then (d, Err (Invalid "protocol stream is poisoned"))
  else
    let '(prefix, n, used) := fill (d_prefix d) (d_prefix_len d) bytes in
    if (n <? 4)%nat
    then (mk_decoder prefix n (d_body d) (d_expected d) (d_limit d) false, Ok used)
    else
      match d_expected d with
      | Some expected => feed_body d prefix expected bytes used
      | None =>
          let size := from_be_bytes prefix in
          if (size =? 0) || (d_limit d <? size) || (MAX_FRAME <? size)
          then (mk_decoder prefix n (d_body d) None (d_limit d) true,
                Err (Invalid "invalid frame length"))
          else feed_body d prefix size bytes used
      end.

(** [Decoder::take] *)
Definition take_frame (d : Decoder) : Decoder * option (list Z) :=
  match d_expected d with
  | Some n =>
      if n =? Z.of_nat (length (d_body d))
      then (mk_decoder (d_prefix d) 0 [] None (d_limit d) (d_poisoned d), Some (d_body d))
      else (d, None)
  | None => (d, None)
  end.

(** [Decoder::finish] *)
Definition finish (d : Decoder) : Result unit :=
  if d_poisoned d || negb (d_prefix_len d =? 0)%nat
  then Err (Invalid "truncated protocol frame") else Ok tt.

(** [while used < read { used += decoder.feed(&buf[used..read])?; if let Some(bytes) =
    decoder.take() { receive(bytes)? } }] over the bytes of one read; [receive] changes a
    state [A].  Each round uses at least one byte, so their number is enough fuel. *)
Fixpoint drain {A} (receive : A -> list Z -> Result A) (fuel : nat) (d : Decoder)
  (buf : list Z) (a : A) : option (Result (Decoder * A)) :=
  match buf with
  | [] => Some (Ok (d, a))
  | _ =>
      match fuel with
      | O => None
      | S fuel =>
          match feed d buf with
          | (_, Err e) => Some (Err e)
          | (d1, Ok used) =>
              match take_frame d1 with
              | (d2, Some bytes) =>
                  match receive a bytes with
                  | Err e => Some (Err e)
                  | Ok a' => drain receive fuel d2 (drop used buf) a'
                  end
              | (d2, None) => drain receive fuel d2 (drop used buf) a
              end
          end
      end
  end.

(** The reads of one connection, one after another. *)
Fixpoint drain_reads {A} (receive : A -> list Z -> Result A) (d : Decoder)
  (reads : list (list Z)) (a : A) : option (Result (Decoder * A)) :=
  match reads with
  | [] => Some (Ok (d, a))
  | buf :: reads =>
      match drain receive (length buf) d buf a with
      | None => None
      | Some (Err e) => Some (Err e)
      | Some (Ok (d', a')) => drain_reads receive d' reads a'
      end
  end.

(** ** Frames *)

Inductive Kind : Type := Request | Response | ErrorKind | Event.

#[export] Instance Kind_eq_dec : EqDecision Kind.
Proof. solve_decision. Defined.

Record Frame : Type := mk_frame { f_kind : Kind; f_id : Z; f_value : Value }.

(** The [t] field of a frame. *)
Definition kind_of (t : string) : Result Kind :=
  if (t =? "req")%string then Ok Request
  else if (t =? "res")%string then Ok Response
  else if (t =? "err")%string then Ok ErrorKind
  else if (t =? "ev")%string then Ok Event
  else Err (Invalid "unknown frame type").

(** [Frame::decode], after the JSON was read. *)
Definition frame_of (value : Value) : Result Frame :=
  kind ← kind_of (text value "t");
  let id := uint value "id" in
  if negb (bool_decide (kind = Event)) && (id =? 0)
  then Err (Invalid "RPC frame id is required")
  else if (bool_decide (kind = Request) || bool_decide (kind = Event))
          && is_empty (text value "m")
  then Err (Invalid "frame method is required")
  else if bool_decide (kind = ErrorKind)
          && match get value "e" with Some e => is_empty (text e "message") | None => true end
  then Err (Invalid "error frame message is required")
  else Ok (mk_frame kind id value).

Definition frame_decode (bytes : list Z) : Result Frame :=
  value ← from_hop (parse_bounded bytes MAX_FRAME);
  frame_of value.

Definition method (f : Frame) : string := text (f_value f) "m".

(** [Frame::response] *)
Definition response (id : Z) (r : result string Value) : Result Value :=
  let value := fields [("id", value_uint id)] in
  match r with
  | Ok v => value ← set value "t" (VString "res"); set value "r" v
  | Err message =>
      value ← set value "t" (VString "err");
      set value "e" (fields [("message", VString message)])
  end.

(** [Frame::request] *)
Definition request (id : Z) (method : string) (params : Value) : Result Value :=
  Ok (fields [("t", VString (if id =? 0 then "ev" else "req")); ("id", value_uint id);
              ("m", VString method); ("p", params)]).

(** [encode] *)
Definition encode (value : Value) : Result (list Z) :=
  body ← from_hop (write value);
  if (length body =? 0)%nat || (MAX_FRAME <? Z.of_nat (length body)) then Err Full
  else if U32_MAX <? Z.of_nat (length body) then Err Full
  else Ok (be_bytes 4 (Z.of_nat (length body)) ++ body).

(** ** Specification: what a stream of bytes means *)

(** How the bytes after the last complete frame end. *)
Inductive ending : Type :=
| Rest (rem : list Z)
| BadLength.

Definition acceptable_size (limit size : Z) : bool :=
  negb ((size =? 0) || (limit <? size) || (MAX_FRAME <? size)).

(** The first frame of a stream. *)
Inductive front : Type :=
| More
| Bad
| One (frame rest : list Z).

Definition first (limit : Z) (l : list Z) : front :=
  if (length l <? 4)%nat then More
  else
    let size := from_be_bytes (take 4 l) in
    if negb (acceptable_size limit size) then Bad
    else if (length (drop 4 l) <? Z.to_nat size)%nat then More
    else One (take (Z.to_nat size) (drop 4 l)) (drop (Z.to_nat size) (drop 4 l)).

(** The complete frames of a stream, and what follows them. *)
Fixpoint frames_fuel (fuel : nat) (limit : Z) (l : list Z) : list (list Z) * ending :=
  match fuel with
  | O => ([], Rest l)
  | S fuel =>
      match first limit l with
      | More => ([], Rest l)
      | Bad => ([], BadLength)
      | One f l' => let '(fs, e) := frames_fuel fuel limit l' in (f :: fs, e)
      end
  end.

Definition frames (limit : Z) (l : list Z) : list (list Z) * ending :=
  frames_fuel (length l) limit l.

(** [receive] on every frame in order, stopping at its first error. *)
Fixpoint receive_all {A} (receive : A -> list Z -> Result A) (fs : list (list Z)) (a : A)
  : Result A :=
  match fs with
  | [] => Ok a
  | f :: fs => a' ← receive a f; receive_all receive fs a'
  end.

(** The bytes a decoder has taken and not yet given back. *)
Definition buffered (d : Decoder) : list Z := take (d_prefix_len d) (d_prefix d) ++ d_body d.

(** What holds of a decoder between two rounds of [drain]. *)
Record decoder_ok (d : Decoder) : Prop := {
  ok_prefix : length (d_prefix d) = 4%nat;
  ok_bytes : Forall is_byte (d_prefix d);
  ok_alive : d_poisoned d = false;
  ok_state :
    match d_expected d with
    | None => (d_prefix_len d < 4)%nat /\ d_body d = []
    | Some n =>
        d_prefix_len d = 4%nat /\ n = from_be_bytes (d_prefix d)
        /\ acceptable_size (d_limit d) n = true /\ Z.of_nat (length (d_body d)) < n
    end
}.

(** ** Lemmas: one call of [feed] *)

Lemma fill_spec bytes : forall prefix n,
  length prefix = 4%nat -> (n <= 4)%nat -> Forall is_byte prefix -> Forall is_byte bytes ->
  exists prefix', let k := Nat.min (4 - n) (length bytes) in
    fill prefix n bytes = (prefix', (n + k)%nat, k) /\ length prefix' = 4%nat
    /\ take (n + k) prefix' = take n prefix ++ take k bytes
    /\ Forall is_byte prefix'.
Proof.
  induction bytes as [|b bytes IH]; intros prefix n HL Hn HF HB; cbn [fill length].
  - exists prefix. rewrite Nat.min_0_r, Nat.add_0_r, app_nil_r. done.
  - destruct (Nat.ltb_spec n 4).
    + apply Forall_cons in HB as [Hb HB].
      destruct (IH (<[n := b]> prefix) (S n)) as (p & -> & Hp & Ht & HF');
        [by rewrite length_insert|lia|by apply Forall_insert|done|].
      exists p. cbn zeta. replace (Nat.min (4 - n) (S (length bytes)))
        with (S (Nat.min (4 - S n) (length bytes))) by lia.
      rewrite <- Nat.add_succ_comm. split_and!; [done|done| |done]. rewrite Ht.
      rewrite (take_S_r _ _ b) by (apply list_lookup_insert_eq; lia).
      rewrite take_insert_ge by lia. rewrite <- app_assoc. done.
    + exists prefix. replace (4 - n)%nat with 0%nat by lia. cbn.
      rewrite Nat.add_0_r, app_nil_r. done.
Qed.

(** The outcome of one round of [drain] that consumes [buf] when the stream so far is [l]. *)
Definition round_spec (d : Decoder) (buf l : list Z) (r : Decoder * Result nat) : Prop :=
  match first (d_limit d) l with
  | More => exists d', r = (d', Ok (length buf)) /\ take_frame d' = (d', None)
      /\ decoder_ok d' /\ buffered d' = l /\ d_limit d' = d_limit d
  | Bad => exists d', r = (d', Err (Invalid "invalid frame length"))
  | One f rest => exists d1 d2 used, r = (d1, Ok used) /\ take_frame d1 = (d2, Some f)
      /\ decoder_ok d2 /\ buffered d2 = [] /\ d_limit d2 = d_limit d
      /\ drop used buf = rest /\ (length rest < length buf)%nat
  end.

Lemma acceptable_size_pos limit n : acceptable_size limit n = true -> n <> 0.
Proof. unfold acceptable_size. intros H. bool_prop. done. Qed.

Lemma feed_body_spec d prefix buf used :
  length prefix = 4%nat -> Forall is_byte prefix -> d_poisoned d = false -> (used <= length buf)%nat ->
  (used + (length buf - used) > 0)%nat ->
  acceptable_size (d_limit d) (from_be_bytes prefix) = true ->
  Z.of_nat (length (d_body d)) < from_be_bytes prefix ->
  round_spec d buf (prefix ++ d_body d ++ drop used buf)
    (feed_body d prefix (from_be_bytes prefix) buf used).
Proof.
  intros HL HF Hp Hu Hb Ha Hlt. unfold round_spec, first, feed_body.
  set (size := from_be_bytes prefix) in *. rewrite length_app.
  destruct (Nat.ltb_spec (length prefix + length (d_body d ++ drop used buf)) 4); [lia|].
  rewrite <- HL, take_app_length, drop_app_length. fold size. rewrite Ha. cbn [negb].
  set (body := d_body d) in *. unfold saturating_sub.
  replace (Z.to_nat (Z.max 0 (size - Z.of_nat (length body))))
    with (Z.to_nat size - length body)%nat by lia.
  set (n := Nat.min _ _). unfold slice.
  destruct (Nat.leb_spec used (used + n)); [|lia].
  destruct (Nat.leb_spec (used + n) (length buf)); [cbn [andb]|lia].
  replace (used + n - used)%nat with n by lia. rewrite HL.
  rewrite length_app, length_drop.
  destruct (Nat.ltb_spec (length body + (length buf - used)) (Z.to_nat size)).
  - assert (n = length buf - used)%nat as Hn by lia.
    rewrite take_ge by (rewrite length_drop; lia).
    eexists. split_and!; [f_equal; f_equal; lia| | | |done].
    + unfold take_frame. cbn [d_expected d_body]. rewrite length_app, length_drop.
      destruct (Z.eqb_spec size (Z.of_nat (length body + (length buf - used)))); [lia|done].
    + constructor; cbn; [done..|]. rewrite length_app, length_drop. split_and!; [done..|lia].
    + unfold buffered. cbn. rewrite take_ge by lia. done.
  - assert (n = Z.to_nat size - length body)%nat as Hn by lia.
    do 3 eexists. split_and!; [done| | | | | |].
    + unfold take_frame. cbn [d_expected d_body]. rewrite length_app, length_take, length_drop.
      destruct (Z.eqb_spec size (Z.of_nat (length body + (n `min` (length buf - used))))); [|lia].
      f_equal. f_equal. rewrite take_app_ge by lia. by rewrite Hn.
    + constructor; cbn; [done..|]. split; [lia|done].
    + done.
    + done.
    + rewrite drop_app_ge by lia. rewrite drop_drop, Hn. done.
    + rewrite drop_app_ge by lia. rewrite drop_drop, length_drop. lia.
Qed.

Lemma round_ok d buf :
  decoder_ok d -> Forall is_byte buf -> buf <> [] -> round_spec d buf (buffered d ++ buf) (feed d buf).
Proof.
  intros [HL HF Ha HS] HB Hb. assert (length buf > 0)%nat by (destruct buf; cbn; [done|lia]).
  unfold feed. rewrite Ha.
  assert (d_prefix_len d <= 4)%nat as Hn by (destruct (d_expected d); lia).
  destruct (fill_spec buf (d_prefix d) (d_prefix_len d) HL Hn HF HB) as (p & -> & Hp & Ht & HFp).
  cbn zeta in *. set (k := Nat.min _ _) in *. unfold buffered.
  destruct (d_expected d) as [size|] eqn:Ee.
  - destruct HS as (Hl & -> & Hs & Hlt). rewrite Hl in *.
    assert (k = 0)%nat as Hk by lia. rewrite Hk in *. cbn [Nat.add Nat.ltb Nat.leb].
    cbn [take] in Ht. rewrite app_nil_r, take_ge in Ht by lia.
    rewrite (take_ge (d_prefix d)) in * by lia. subst p.
    rewrite <- (drop_0 buf) at 2. rewrite <- app_assoc.
    apply feed_body_spec; lia || done.
  - destruct HS as [Hl Hbody]. rewrite Hbody, app_nil_r.
    destruct (Nat.ltb_spec (d_prefix_len d + k) 4) as [Hm|Hm].
    + assert (k = length buf)%nat as Hk by lia. rewrite Hk in *.
      rewrite (take_ge buf) in Ht by lia. unfold round_spec, first.
      rewrite length_app, length_take.
      destruct (Nat.ltb_spec (d_prefix_len d `min` length (d_prefix d) + length buf) 4); [|lia].
      eexists. split_and!; [done|done| | |done].
      * constructor; cbn; [done..|]. split; [lia|done].
      * unfold buffered. cbn. by rewrite Ht, app_nil_r.
    + assert (d_prefix_len d + k = 4)%nat as H4 by lia. rewrite H4, take_ge in Ht by lia.
      assert (take (d_prefix_len d) (d_prefix d) ++ buf = p ++ d_body d ++ drop k buf) as El.
      { rewrite Ht, Hbody. cbn. by rewrite <- app_assoc, take_drop. }
      rewrite El. destruct (_ || _ || _) eqn:Es.
      * unfold round_spec, first. rewrite length_app.
        destruct (Nat.ltb_spec (length p + length (d_body d ++ drop k buf)) 4); [lia|].
        rewrite <- Hp, take_app_length. unfold acceptable_size. rewrite Es. cbn. eauto.
      * apply feed_body_spec; [done|done|done|lia|lia| |].
        -- unfold acceptable_size. by rewrite Es.
        -- rewrite Hbody. cbn. pose proof (le_val_bound (rev p) ltac:(by apply Forall_rev)) as HB0.
           fold (from_be_bytes p) in HB0. bool_prop. lia.
Qed.

(** ** Lemmas: the specification *)

Lemma first_shorter limit l f l' : first limit l = One f l' -> (length l' < length l)%nat.
Proof.
  unfold first. intros H. destruct (Nat.ltb_spec (length l) 4); [done|].
  destruct (negb _); [done|]. destruct (_ <? _)%nat; [done|]. injection H as <- <-.
  rewrite !length_drop. lia.
Qed.

Lemma frames_fuel_enough limit n : forall l fuel,
  (length l <= n)%nat -> (length l <= fuel)%nat ->
  frames_fuel fuel limit l = frames_fuel n limit l.
Proof.
  induction n as [|n IH]; intros l fuel Hn Hf.
  - destruct l; [|cbn in Hn; lia]. by destruct fuel.
  - destruct fuel as [|fuel]; [destruct l; [|cbn in Hf; lia]; done|].
    cbn. destruct (first limit l) as [| |f l'] eqn:E; [done..|].
    apply first_shorter in E. rewrite (IH l' fuel) by lia. done.
Qed.

Lemma frames_unfold limit l :
  frames limit l = match first limit l with
                   | More => ([], Rest l)
                   | Bad => ([], BadLength)
                   | One f l' => let '(fs, e) := frames limit l' in (f :: fs, e)
                   end.
Proof.
  unfold frames. rewrite (frames_fuel_enough limit (S (length l)) l (length l)) by lia. cbn.
  destruct (first limit l) as [| |f l'] eqn:E; [done..|]. apply first_shorter in E.
  rewrite (frames_fuel_enough limit (length l) l' (length l')) by lia. done.
Qed.

(** More bytes do not change a verdict about the front of the stream. *)
Lemma first_app limit l k :
  match first limit l with
  | More => True
  | Bad => first limit (l ++ k) = Bad
  | One f l' => first limit (l ++ k) = One f (l' ++ k)
  end.
Proof.
  unfold first. rewrite length_app. destruct (Nat.ltb_spec (length l) 4); [done|].
  destruct (Nat.ltb_spec (length l + length k) 4); [lia|].
  rewrite take_app_le, drop_app_le by lia.
  destruct (negb _); [done|]. rewrite length_app, !length_drop.
  destruct (Nat.ltb_spec (length l - 4) (Z.to_nat (from_be_bytes (take 4 l)))); [done|].
  destruct (Nat.ltb_spec (length l - 4 + length k) (Z.to_nat (from_be_bytes (take 4 l)))); [lia|].
  rewrite take_app_le, drop_app_le by (rewrite length_drop; lia). done.
Qed.

Lemma frames_app limit l k :
  frames limit (l ++ k) =
  match frames limit l with
  | (fs, BadLength) => (fs, BadLength)
  | (fs, Rest rem) => let '(fs', e) := frames limit (rem ++ k) in (fs ++ fs', e)
  end.
Proof.
  remember (length l) as n eqn:En. revert l En.
  induction n as [n IH] using lt_wf_ind; intros l ->.
  pose proof (first_app limit l k) as HF. rewrite (frames_unfold limit l).
  destruct (first limit l) as [| |f l'] eqn:E.
  - destruct (frames limit (l ++ k)); done.
  - rewrite frames_unfold, HF. done.
  - rewrite frames_unfold, HF. rewrite (IH _ (first_shorter _ _ _ _ E) l' eq_refl).
    destruct (frames limit l') as [fs [rem|]]; [|done].
    destruct (frames limit (rem ++ k)); done.
Qed.

Lemma buffered_incomplete d : decoder_ok d -> first (d_limit d) (buffered d) = More.
Proof.
  intros [HL HF Ha HS]. unfold first, buffered. rewrite length_app, length_take.
  destruct (d_expected d) as [n|].
  - destruct HS as (Hl & -> & Hs & Hb). rewrite Hl, (take_ge (d_prefix d)) by lia.
    destruct (Nat.ltb_spec (4 `min` length (d_prefix d) + length (d_body d)) 4); [done|].
    rewrite <- HL, take_app_length, Hs, drop_app_length. cbn [negb].
    rewrite (proj2 (Nat.ltb_lt (length (d_body d)) _)); [done|lia].
  - destruct HS as [Hl ->].
    destruct (Nat.ltb_spec (d_prefix_len d `min` length (d_prefix d) + length ([] : list Z)) 4);
      [done|cbn in *; lia].
Qed.

(** ** Decoding refines the specification *)

(** What the reader of a connection does with the stream [l]: [r] hands the frames to
    [receive] in order and keeps the rest, or fails with the first error. *)
Definition delivers {A} (receive : A -> list Z -> Result A) (limit : Z) (l : list Z) (a : A)
  (r : option (Result (Decoder * A))) : Prop :=
  match frames limit l with
  | (fs, e) =>
      match receive_all receive fs a, e with
      | Err x, _ => r = Some (Err x)
      | Ok _, BadLength => r = Some (Err (Invalid "invalid frame length"))
      | Ok a', Rest rem =>
          exists d, r = Some (Ok (d, a')) /\ decoder_ok d /\ buffered d = rem
            /\ d_limit d = limit
      end
  end.

Lemma drain_delivers {A} (receive : A -> list Z -> Result A) fuel : forall d buf a,
  decoder_ok d -> Forall is_byte buf -> (length buf <= fuel)%nat ->
  delivers receive (d_limit d) (buffered d ++ buf) a (drain receive fuel d buf a).
Proof.
  induction fuel as [|fuel IH]; intros d buf a Hd HB Hf.
  all: destruct buf as [|b buf]; [|try (cbn in Hf; lia)].
  1,2: unfold delivers; rewrite app_nil_r, frames_unfold, buffered_incomplete by done; cbn; eauto.
  pose proof (round_ok d (b :: buf) Hd HB ltac:(done)) as HR. unfold round_spec in HR.
  cbn [drain]. set (l := b :: buf) in *. unfold delivers. rewrite frames_unfold.
  destruct (first (d_limit d) (buffered d ++ l)) as [| |f l'].
  - destruct HR as (d' & -> & -> & Hd' & Hb & HL). rewrite drop_all. cbn.
    exists d'. destruct fuel; auto.
  - destruct HR as (d' & ->). done.
  - destruct HR as (d1 & d2 & used & -> & -> & Hd2 & Hb & HL & Hu & Hlt).
    destruct (frames (d_limit d) l') as [fs e] eqn:E. cbn [receive_all].
    destruct (receive a f) as [a'|x]; [cbn|done]. rewrite Hu.
    specialize (IH d2 l' a' Hd2). rewrite Hb, HL in IH. unfold delivers in IH. cbn [app] in IH.
    rewrite E in IH. apply IH; [rewrite <- Hu; by apply Forall_drop|lia].
Qed.

Lemma receive_all_app {A} (receive : A -> list Z -> Result A) fs fs' a :
  receive_all receive (fs ++ fs') a
  = match receive_all receive fs a with
    | Ok a' => receive_all receive fs' a' | Err e => Err e
    end.
Proof.
  revert a. induction fs as [|f fs IH]; intros a; cbn; [done|].
  destruct (receive a f); cbn; [apply IH|done].
Qed.

Lemma drain_reads_delivers {A} (receive : A -> list Z -> Result A) reads : forall d a,
  decoder_ok d -> Forall is_byte (concat reads) ->
  delivers receive (d_limit d) (buffered d ++ concat reads) a (drain_reads receive d reads a).
Proof.
  induction reads as [|buf reads IH]; intros d a Hd HB; cbn [concat drain_reads].
  - unfold delivers. rewrite app_nil_r, frames_unfold, buffered_incomplete by done. cbn. eauto.
  - cbn in HB. apply Forall_app in HB as [HB HBs].
    pose proof (drain_delivers receive (length buf) d buf a Hd HB ltac:(done)) as HD.
    unfold delivers in *. rewrite app_assoc, frames_app.
    destruct (frames (d_limit d) (buffered d ++ buf)) as [fs [rem|]].
    + specialize (fun d' => IH d'). destruct (frames (d_limit d) (rem ++ concat reads))
        as [fs' e] eqn:E. rewrite receive_all_app.
      destruct (receive_all receive fs a) as [a'|x]; [|by rewrite HD].
      destruct HD as (d' & -> & Hd' & Hb & HL).
      specialize (IH d' a' Hd' HBs). rewrite Hb, HL, E in IH. apply IH.
    + destruct (receive_all receive fs a) as [a'|x]; by rewrite HD.
Qed.

Lemma Decoder_new_ok limit : decoder_ok (Decoder_new limit).
Proof.
  constructor; [done| |done|cbn; split; [lia|done]].
  repeat constructor; unfold is_byte; lia.
Qed.

(** ** The other end: what [encode] writes *)

Lemma from_be_be n z : 0 <= z < 256 ^ Z.of_nat n -> from_be_bytes (be_bytes n z) = z.
Proof. intros H. unfold from_be_bytes, be_bytes. rewrite rev_involutive. by apply le_val_le_bytes. Qed.

Lemma length_be_bytes n z : length (be_bytes n z) = n.
Proof. unfold be_bytes. by rewrite length_rev, length_le_bytes. Qed.

Lemma encode_frame_Ok v bs :
  encode v = Ok bs ->
  exists body, write v = Ok body /\ 0 < Z.of_nat (length body) <= MAX_FRAME
    /\ bs = be_bytes 4 (Z.of_nat (length body)) ++ body.
Proof.
  unfold encode, from_hop. destruct (write v) as [body|] eqn:E; [|done]. cbn [mbind result_bind].
  intros H. destruct (Nat.eqb_spec (length body) 0); [done|cbn [orb] in H].
  destruct (Z.ltb_spec MAX_FRAME (Z.of_nat (length body))); [done|].
  destruct (Z.ltb_spec U32_MAX (Z.of_nat (length body))); [done|].
  injection H as <-. exists body. split_and!; [done|lia|done|done].
Qed.

(** A frame that was encoded stands first in the stream. *)
Lemma first_encoded limit body k :
  0 < Z.of_nat (length body) <= MAX_FRAME -> Z.of_nat (length body) <= limit ->
  first limit ((be_bytes 4 (Z.of_nat (length body)) ++ body) ++ k) = One body k.
Proof.
  intros Hb Hl. unfold first. rewrite !length_app, length_be_bytes.
  destruct (Nat.ltb_spec (4 + length body + length k) 4); [lia|].
  rewrite <- app_assoc, take_app_length', drop_app_length' by (by rewrite length_be_bytes).
  rewrite from_be_be by (change MAX_FRAME with 8388608 in Hb; cbn; lia).
  unfold acceptable_size.
  destruct (Z.eqb_spec (Z.of_nat (length body)) 0); [lia|].
  destruct (Z.ltb_spec limit (Z.of_nat (length body))); [lia|].
  destruct (Z.ltb_spec MAX_FRAME (Z.of_nat (length body))); [lia|]. cbn [orb negb].
  rewrite Nat2Z.id, length_app. destruct (Nat.ltb_spec (length body + length k) (length body)); [lia|].
  by rewrite take_app_length, drop_app_length.
Qed.

Lemma frames_encoded limit vs : forall bss,
  Forall2 (fun v bs => encode v = Ok bs /\ Z.of_nat (length bs) <= limit + 4) vs bss ->
  exists bodies, Forall2 (fun v b => write v = Ok b /\ Z.of_nat (length b) <= MAX_FRAME) vs bodies
    /\ frames limit (concat bss) = (bodies, Rest []) /\ Forall is_byte (concat bss).
Proof.
  intros bss H. induction H as [|v bs vs bss [Hv Hl] _ (bodies & HW & HF & HB)].
  - exists []. done.
  - destruct (encode_frame_Ok v bs Hv) as (body & Hw & Hb & ->).
    rewrite length_app, length_be_bytes in Hl. exists (body :: bodies). split_and!.
    + constructor; [|done]. split; [done|lia].
    + cbn [concat]. rewrite frames_unfold, first_encoded, HF by lia. done.
    + cbn [concat]. apply Forall_app. split; [|done]. apply Forall_app. split; [|by eapply write_bytes].
      unfold be_bytes. apply Forall_rev, le_bytes_is_byte.
Qed.

(** A receiver that reads each frame and collects the values. *)
Definition collect_values (acc : list Value) (bytes : list Z) : Result (list Value) :=
  v ← from_hop (parse_bounded bytes MAX_FRAME); Ok (acc ++ [v]).

Lemma write_reads v body :
  exact v = true -> (vdepth v <= MAX_DEPTH)%nat -> write v = Ok body ->
  Z.of_nat (length body) <= MAX_FRAME -> parse_bounded body MAX_FRAME = Ok v.
Proof.
  intros He Hd Hw HL.
  destruct (exact_parses v He Hd) as (bs & Hw' & HP). rewrite Hw in Hw'. injection Hw' as <-.
  unfold parse_bounded. rewrite HP; [done|]. change (Z.min MAX_FRAME 67108864) with MAX_FRAME. done.
Qed.

Lemma receive_collect vs bodies : forall acc,
  Forall (fun v => exact v = true /\ (vdepth v <= MAX_DEPTH)%nat) vs ->
  Forall2 (fun v b => write v = Ok b /\ Z.of_nat (length b) <= MAX_FRAME) vs bodies ->
  receive_all collect_values bodies acc = Ok (acc ++ vs).
Proof.
  intros acc HV H. revert acc. induction H as [|v b vs bodies [Hw Hl] _ IH]; intros acc.
  - cbn. by rewrite app_nil_r.
  - apply Forall_cons in HV as [[He Hd] HV]. cbn [receive_all].
    assert (collect_values acc b = Ok (acc ++ [v])) as ->
      by (unfold collect_values; by rewrite (write_reads v b He Hd Hw Hl)).
    cbn [mbind result_bind]. rewrite IH by done. by rewrite <- app_assoc.
Qed.

Lemma finish_ok d : decoder_ok d -> finish d = Ok tt <-> buffered d = [].
Proof.
  intros [HL HF Ha HS]. unfold finish, buffered. rewrite Ha. cbn [orb].
  destruct (Nat.eqb_spec (d_prefix_len d) 0) as [E|E]; cbn [negb].
  - rewrite E in *. destruct (d_expected d); [lia|]. destruct HS as [_ ->]. done.
  - split; [done|]. intros H%app_eq_nil. destruct H as [H _].
    apply (f_equal length) in H. rewrite length_take in H. cbn in H. lia.
Qed.

(** ** Properties *)

(** C8: However the bytes of a connection are cut into reads, decoding them hands exactly
    the complete frames of the whole stream to the receiver, in order and each once, and
    keeps the incomplete rest for the next read; the first frame with a length of zero or
    above the limit, or the first error of the receiver, ends the connection.  The loop
    never runs out of fuel and no more than one frame of at most the limit is buffered. *)
Theorem stream_refines_frames {A} (receive : A -> list Z -> Result A) limit reads a :
  Forall is_byte (concat reads) ->
  delivers receive limit (concat reads) a (drain_reads receive (Decoder_new limit) reads a).
Proof. intros HB. apply (drain_reads_delivers receive reads (Decoder_new limit) a (Decoder_new_ok limit) HB). Qed.

Definition sample_values : list Value :=
  [VObject [("t", VString "ev"); ("m", VString "x")]; VArray [VNull; VBool true]].

Lemma stream_refines_frames_witness :
  delivers collect_values 100 (concat [[0; 0]; [0; 2; 91]; [93; 0]]) []
    (drain_reads collect_values (Decoder_new 100) [[0; 0]; [0; 2; 91]; [93; 0]] [])
  /\ frames 100 (concat [[0; 0]; [0; 2; 91]; [93; 0]]) = ([[91; 93]], Rest [0]).
Proof.
  split; [|vm_compute; reflexivity]. apply (stream_refines_frames collect_values 100).
  cbn. repeat constructor; unfold is_byte; lia.
Defined.

(** Values sent one after another with [encode] arrive as the same values in the same
    order, whatever pieces the transport delivers them in, and the stream then ends cleanly
    ([finish]). *)
Theorem sent_values_arrive vs bss reads limit :
  Forall (fun v => exact v = true /\ (vdepth v <= MAX_DEPTH)%nat) vs ->
  Forall2 (fun v bs => encode v = Ok bs /\ Z.of_nat (length bs) <= limit + 4) vs bss ->
  concat reads = concat bss ->
  exists d, drain_reads collect_values (Decoder_new limit) reads [] = Some (Ok (d, vs))
    /\ finish d = Ok tt.
Proof.
  intros HV HE HC. destruct (frames_encoded limit vs bss HE) as (bodies & HW & HF & HB).
  rewrite <- HC in *.
  pose proof (drain_reads_delivers collect_values reads (Decoder_new limit) [] (Decoder_new_ok limit) HB) as HD.
  change (delivers collect_values limit (concat reads) []
            (drain_reads collect_values (Decoder_new limit) reads [])) in HD. unfold delivers in HD.
  rewrite HF, (receive_collect vs bodies [] HV HW) in HD.
  destruct HD as (d & -> & Hd & Hb & _). exists d. split; [done|]. by apply finish_ok.
Qed.

Lemma sent_values_arrive_witness :
  exists bss reads d, Forall2 (fun v bs => encode v = Ok bs) sample_values bss
    /\ length reads = 3%nat
    /\ drain_reads collect_values (Decoder_new 64) reads [] = Some (Ok (d, sample_values))
    /\ finish d = Ok tt.
Proof.
  set (bss := map (fun v => match encode v with Ok b => b | Err _ => [] end) sample_values).
  set (l := concat bss). vm_compute in bss.
  destruct (sent_values_arrive sample_values bss [take 3 l; take 9 (drop 3 l); drop 12 l] 64)
    as (d & Hd & Hf).
  - repeat constructor; vm_compute; reflexivity || (repeat constructor).
  - repeat constructor; try (vm_compute; reflexivity); try (vm_compute; discriminate).
  - vm_compute. reflexivity.
  - exists bss, [take 3 l; take 9 (drop 3 l); drop 12 l], d. split_and!; [|done|exact Hd|exact Hf].
    repeat constructor; vm_compute; reflexivity.
Defined.

(** Once an announced length was refused, the decoder is poisoned: every later call
    fails and uses no byte, no frame is produced and the end of the stream is an error. *)
Theorem poisoned_forever d bytes :
  decoder_ok d -> Forall is_byte bytes -> first (d_limit d) (buffered d ++ bytes) = Bad ->
  exists d', feed d bytes = (d', Err (Invalid "invalid frame length"))
    /\ (forall more, feed d' more = (d', Err (Invalid "protocol stream is poisoned")))
    /\ (take_frame d').2 = None /\ is_ok (finish d') = false.
Proof.
  intros Hd HB HF. assert (bytes <> []) as Hne.
  { intros ->. rewrite app_nil_r, buffered_incomplete in HF; done. }
  pose proof (round_ok d bytes Hd HB Hne) as HR. unfold round_spec in HR. rewrite HF in HR.
  destruct HR as (d' & E). exists d'. split; [done|].
  assert (d_poisoned d' = true /\ d_expected d' = None) as [Hp He].
  { revert E. unfold feed. destruct (d_poisoned d); [done|].
    destruct (fill _ _ _) as [[p n] u]. destruct (n <? 4)%nat; [done|].
    unfold feed_body. destruct (d_expected d); [repeat case_match; done|].
    destruct (_ || _ || _); [by intros [= <-]|]. repeat case_match; done. }
  split_and!.
  - intros more. unfold feed. by rewrite Hp.
  - unfold take_frame. by rewrite He.
  - unfold finish. by rewrite Hp.
Qed.

Lemma poisoned_forever_witness :
  exists d', feed (Decoder_new 16) [0; 0; 1; 0; 7] = (d', Err (Invalid "invalid frame length"))
    /\ (forall more, feed d' more = (d', Err (Invalid "protocol stream is poisoned")))
    /\ (take_frame d').2 = None /\ is_ok (finish d') = false.
Proof.
  apply (poisoned_forever (Decoder_new 16) [0; 0; 1; 0; 7] (Decoder_new_ok 16)).
  - repeat constructor; unfold is_byte; lia.
  - vm_compute. reflexivity.
Defined.
