(* ===== verification/Session.v ===== *)
(** * Session: requests in flight

    Models [crates/protocol/src/session.rs]: the fixed table of 64 slots that correlates an
    answer with the one who asked.  The abstract state of a session is the finite map from
    request ids to their deadline and owner; [session_refines_map] shows that the table is
    a faithful, bounded implementation of it. *)

From Stdlib Require Import ZArith Lia.
From stdpp Require Import gmap.
From S2P Require Import Prelude Errors.

Local Open Scope Z_scope.

Definition MAX_PENDING : nat := 64.

Record Pending : Type := mk_pending { p_id : Z; p_deadline : Z; p_owner : Z }.

Record Session : Type := mk_session { pending : list (option Pending); next : Z }.

(** [Session::new] *)
Definition Session_new : Session := mk_session (replicate MAX_PENDING None) 0.

(** [self.pending.iter_mut().find(f)]: the first slot that satisfies [f]. *)
Fixpoint find_slot (f : option Pending -> bool) (l : list (option Pending)) : option nat :=
  match l with
  | [] => None
  | p :: l => if f p then Some 0%nat else S <$> find_slot f l
  end.

(** [begin] *)
Definition begin (s : Session) (owner now timeout : Z) : Result (Z * Session) :=
  id ← ok_or (checked_add (next s) 1) Full;
  deadline ← ok_or (checked_add now timeout) Full;
  at_ ← ok_or (find_slot (fun p => negb (bool_decide (is_Some p))) (pending s)) Full;
  Ok (id, mk_session (<[at_ := Some (mk_pending id deadline owner)]> (pending s)) id).

(** [.find(...).and_then(Option::take)] *)
Definition take_slot (s : Session) (f : Pending -> bool) : option Pending * Session :=
  match find_slot (fun p => match p with Some p => f p | None => false end) (pending s) with
  | None => (None, s)
  | Some i =>
      (default None (pending s !! i), mk_session (<[i := None]> (pending s)) (next s))
  end.

(** [complete] *)
Definition complete (s : Session) (id : Z) : option Z * Session :=
  let '(p, s') := take_slot s (fun p => p_id p =? id) in (p_owner <$> p, s').

(** [expire] *)
Definition expire (s : Session) (now : Z) : option (Z * Z) * Session :=
  let '(p, s') := take_slot s (fun p => p_deadline p <=? now) in
  ((fun p => (p_id p, p_owner p)) <$> p, s').

(** [disconnect], with the iterator it returns run to its end. *)
Definition disconnect (s : Session) : list Z * Session :=
  (omap (fmap p_owner) (pending s),
   mk_session (map (fun _ => None) (pending s)) (next s)).

(** ** The abstract session: a map from ids to deadline and owner *)

Fixpoint to_pairs (l : list (option Pending)) : list (Z * (Z * Z)) :=
  match l with
  | [] => []
  | Some p :: l => (p_id p, (p_deadline p, p_owner p)) :: to_pairs l
  | None :: l => to_pairs l
  end.

Definition in_flight (s : Session) : gmap Z (Z * Z) := list_to_map (to_pairs (pending s)).

(** The ids in the table are distinct and were handed out by this session. *)
Record session_ok (s : Session) : Prop := {
  ok_slots : length (pending s) = MAX_PENDING;
  ok_next : is_u64 (next s);
  ok_unique : NoDup (to_pairs (pending s)).*1;
  ok_handed_out : Forall (fun kv => 0 < kv.1 <= next s) (to_pairs (pending s))
}.

(** ** Lemmas: the table *)

Lemma find_slot_Some f l i :
  find_slot f l = Some i ->
  exists p l1 l2, l = l1 ++ p :: l2 /\ length l1 = i /\ f p = true
    /\ Forall (fun q => f q = false) l1.
Proof.
  revert i. induction l as [|p l IH]; intros i; cbn; [done|].
  destruct (f p) eqn:Ef.
  - intros [= <-]. exists p, [], l. auto.
  - destruct (find_slot f l) as [j|]; [cbn|done]. intros [= <-].
    destruct (IH j eq_refl) as (q & l1 & l2 & -> & <- & Hq & Hall).
    exists q, (p :: l1), l2. auto.
Qed.

Lemma find_slot_None f l : find_slot f l = None <-> Forall (fun p => f p = false) l.
Proof.
  induction l as [|p l IH]; cbn; [done|]. rewrite Forall_cons.
  destruct (f p); [split; [done|by intros [? _]]|].
  destruct (find_slot f l); cbn; [|tauto]. split; [done|]. intros [_ H]. by apply IH in H.
Qed.

Lemma to_pairs_app l k : to_pairs (l ++ k) = to_pairs l ++ to_pairs k.
Proof. induction l as [|[p|] l IH]; cbn; congruence. Qed.

Lemma to_pairs_none {A} (l : list A) : to_pairs (map (fun _ => None) l) = [].
Proof. induction l; done. Qed.

Lemma to_pairs_replicate n : to_pairs (replicate n None) = [].
Proof. induction n; done. Qed.

Lemma full_table l :
  Forall (fun p => negb (bool_decide (is_Some p)) = false) l -> length (to_pairs l) = length l.
Proof.
  induction 1 as [|p l Hp _ IH]; [done|]. destruct p; [cbn; by rewrite IH|done].
Qed.

Lemma to_pairs_length l : (length (to_pairs l) <= length l)%nat.
Proof. induction l as [|[p|] l IH]; cbn; lia. Qed.

(** What taking a slot does: it removes one request that satisfies the test, or there is
    none. *)
Lemma take_slot_spec s f p s' :
  take_slot s f = (p, s') ->
  next s' = next s /\ length (pending s') = length (pending s) /\
  match p with
  | Some p => f p = true /\ exists l1 l2,
      to_pairs (pending s) = l1 ++ (p_id p, (p_deadline p, p_owner p)) :: l2
      /\ to_pairs (pending s') = l1 ++ l2
  | None => s' = s /\ Forall (fun q => match q with Some q => f q = false | None => True end)
      (pending s)
  end.
Proof.
  unfold take_slot. destruct (find_slot _ (pending s)) as [i|] eqn:E.
  - apply find_slot_Some in E as (q & l1 & l2 & El & Hi & Hq & _). destruct q as [q|]; [|done].
    intros [= <- <-]. rewrite El. rewrite <- Hi, list_lookup_middle by done. cbn [default].
    split; [done|]. cbn [pending]. split; [by rewrite length_insert|]. split; [done|].
    exists (to_pairs l1), (to_pairs l2). rewrite insert_app_r_alt by done.
    rewrite Nat.sub_diag, !to_pairs_app. done.
  - apply find_slot_None in E. intros [= <- <-]. split; [done|]. split; [done|]. split; [done|].
    eapply Forall_impl; [exact E|]. intros [q|] Hq; done.
Qed.

(** Removing one entry of a list of pairs with distinct keys removes it from the map. *)
Lemma list_to_map_delete (l1 l2 : list (Z * (Z * Z))) k v :
  NoDup (l1 ++ (k, v) :: l2).*1 ->
  (list_to_map (l1 ++ l2) : gmap Z (Z * Z)) = delete k (list_to_map (l1 ++ (k, v) :: l2))
  /\ (list_to_map (l1 ++ (k, v) :: l2) : gmap Z (Z * Z)) !! k = Some v.
Proof.
  intros HN. assert ((list_to_map (l1 ++ (k, v) :: l2) : gmap Z (Z * Z))
    = <[k := v]> (list_to_map (l1 ++ l2))) as ->.
  { rewrite <- list_to_map_cons. apply list_to_map_proper; [done|]. by rewrite Permutation_middle. }
  rewrite delete_insert_id; [by rewrite lookup_insert_eq|].
  apply not_elem_of_list_to_map. rewrite fmap_app in *. cbn in HN.
  apply NoDup_app in HN as (_ & Hd & H2%NoDup_cons). rewrite elem_of_app. set_solver.
Qed.

Lemma begin_Ok s owner now timeout id s' :
  begin s owner now timeout = Ok (id, s') ->
  id = next s + 1 /\ next s' = id /\ next s + 1 <= U64_MAX /\ now + timeout <= U64_MAX /\
  length (pending s') = length (pending s) /\
  exists l1 l2, to_pairs (pending s) = l1 ++ l2 /\
    to_pairs (pending s') = l1 ++ (id, (now + timeout, owner)) :: l2 /\
    (length (l1 ++ l2) < length (pending s))%nat.
Proof.
  unfold begin. destruct (checked_add (next s) 1) as [n|] eqn:En; [|done].
  destruct (checked_add now timeout) as [d|] eqn:Ed; [|done].
  apply checked_add_Some in En as [-> Hn]. apply checked_add_Some in Ed as [-> Hd]. cbn.
  destruct (find_slot _ (pending s)) as [i|] eqn:E; [|done]. cbn. intros [= <- <-].
  apply find_slot_Some in E as (q & l1 & l2 & El & Hi & Hq & _). destruct q; [done|].
  cbn [pending next]. rewrite length_insert. split_and!; [done..|].
  exists (to_pairs l1), (to_pairs l2). rewrite El, <- Hi, insert_app_r_alt by done.
  rewrite Nat.sub_diag, !to_pairs_app. split_and!; [done..|].
  rewrite <- to_pairs_app. pose proof (to_pairs_length (l1 ++ l2)).
  rewrite !length_app in *. cbn. lia.
Qed.

Lemma Session_new_ok : session_ok Session_new.
Proof.
  constructor; cbn [Session_new pending next].
  - apply length_replicate.
  - unfold is_u64, U64_MAX in *. lia.
  - rewrite to_pairs_replicate. constructor.
  - rewrite to_pairs_replicate. constructor.
Qed.

Lemma begin_ok s owner now timeout id s' :
  session_ok s -> begin s owner now timeout = Ok (id, s') -> session_ok s'.
Proof.
  intros [HL [Hn Hm] HU HH] (-> & En & Hu & _ & HL' & l1 & l2 & E & E' & _)%begin_Ok.
  rewrite E in *. constructor; rewrite ?En.
  - congruence.
  - unfold is_u64, U64_MAX in *. lia.
  - rewrite E', fmap_app. cbn. rewrite <- Permutation_middle. apply NoDup_cons.
    rewrite <- fmap_app. split; [|done]. intros ((k & v) & Hk & Hin)%list_elem_of_fmap.
    rewrite Forall_forall in HH. specialize (HH _ Hin). cbn in *. lia.
  - rewrite E'. apply Forall_app in HH as [H1 H2]. apply Forall_app. split;
      [|constructor; [cbn; lia|]]; (eapply Forall_impl; [eassumption|]; cbn; lia).
Qed.

Lemma take_slot_ok s f p s' : session_ok s -> take_slot s f = (p, s') -> session_ok s'.
Proof.
  intros [HL Hn HU HH] (En & HL' & HP)%take_slot_spec. destruct p as [p|]; [|by destruct HP as [-> _]].
  destruct HP as (_ & l1 & l2 & E & E'). rewrite E in *. constructor; rewrite ?En, ?E'.
  - congruence.
  - done.
  - rewrite fmap_app in *. cbn in HU. apply NoDup_app in HU as (? & ? & ?%NoDup_cons).
    apply NoDup_app. set_solver.
  - apply Forall_app in HH as [H1 H2]. apply Forall_cons in H2 as [_ H2]. by apply Forall_app.
Qed.

(** Taking a slot on the map: one request goes, or none satisfies the test. *)
Lemma take_slot_map s f p s' :
  session_ok s -> take_slot s f = (p, s') ->
  match p with
  | Some p => f p = true
      /\ in_flight s !! p_id p = Some (p_deadline p, p_owner p)
      /\ in_flight s' = delete (p_id p) (in_flight s)
  | None => s' = s /\ forall id d o, in_flight s !! id = Some (d, o) -> f (mk_pending id d o) = false
  end.
Proof.
  intros [HL Hn HU HH] (_ & _ & HP)%take_slot_spec. destruct p as [p|].
  - destruct HP as (Hf & l1 & l2 & E & E'). split; [done|]. unfold in_flight. rewrite E in *.
    rewrite E'. destruct (list_to_map_delete l1 l2 _ _ HU) as [-> ->]. done.
  - destruct HP as [-> HA]. split; [done|]. intros id d o Hl.
    apply elem_of_list_to_map_2 in Hl. clear -HA Hl.
    induction (pending s) as [|[q|] l IH]; cbn in Hl; [by apply elem_of_nil in Hl| |];
      apply Forall_cons in HA as [Hq HA]; [|auto].
    apply elem_of_cons in Hl as [[= -> -> ->]|Hl]; [by destruct q|auto].
Qed.

Lemma take_id_absent s id s' :
  session_ok s -> take_slot s (fun p => p_id p =? id) = (None, s') -> in_flight s !! id = None.
Proof.
  intros Hs H. apply take_slot_map in H as [_ HA]; [|done].
  destruct (in_flight s !! id) as [[d o]|] eqn:E; [|done].
  specialize (HA _ _ _ E). cbn in HA. lia.
Qed.

Lemma complete_map s id o s' :
  session_ok s -> complete s id = (o, s') ->
  session_ok s' /\ o = snd <$> in_flight s !! id /\ in_flight s' = delete id (in_flight s).
Proof.
  unfold complete. destruct (take_slot s _) as [p s0] eqn:E. intros Hs [= <- <-].
  pose proof (take_slot_ok _ _ _ _ Hs E). pose proof (take_slot_map _ _ _ _ Hs E) as HM.
  split; [done|]. destruct p as [p|].
  - destruct HM as (Hid%Z.eqb_eq & Hl & Hd). subst id. by rewrite Hl.
  - apply take_id_absent in E as Ha; [|done]. destruct HM as [-> _].
    rewrite Ha. split; [done|]. symmetry. by apply delete_id.
Qed.

Lemma expire_map s now r s' :
  session_ok s -> expire s now = (r, s') ->
  session_ok s' /\
  match r with
  | Some (id, o) => exists d, in_flight s !! id = Some (d, o) /\ d <= now
      /\ in_flight s' = delete id (in_flight s)
  | None => s' = s /\ forall id d o, in_flight s !! id = Some (d, o) -> now < d
  end.
Proof.
  unfold expire. destruct (take_slot s _) as [p s0] eqn:E. intros Hs [= <- <-].
  pose proof (take_slot_ok _ _ _ _ Hs E). pose proof (take_slot_map _ _ _ _ Hs E) as HM.
  split; [done|]. destruct p as [p|]; cbn.
  - destruct HM as (Hid%Z.leb_le & Hl & Hd). eauto.
  - destruct HM as [-> HA]. split; [done|]. intros id d o Hl.
    specialize (HA id d o Hl). cbn in HA. lia.
Qed.

Lemma in_flight_size s : session_ok s -> size (in_flight s) = length (to_pairs (pending s)).
Proof.
  intros [_ _ HU _]. unfold in_flight. rewrite <- (length_map_to_list (M := gmap Z)).
  by rewrite map_to_list_to_map.
Qed.

Lemma begin_map s owner now timeout :
  session_ok s ->
  match begin s owner now timeout with
  | Ok (id, s') => session_ok s' /\ id = next s + 1 /\ in_flight s !! id = None
      /\ in_flight s' = <[id := (now + timeout, owner)]> (in_flight s)
  | Err e => e = Full /\ (size (in_flight s) = MAX_PENDING \/ next s = U64_MAX
                          \/ U64_MAX < now + timeout)
  end.
Proof.
  intros Hs. destruct (begin s owner now timeout) as [[id s']|e] eqn:E.
  - pose proof (begin_ok _ _ _ _ _ _ Hs E) as Hs'.
    apply begin_Ok in E as (-> & _ & _ & _ & _ & l1 & l2 & El & El' & _).
    pose proof (ok_unique _ Hs') as HU. rewrite El' in HU.
    destruct (list_to_map_delete l1 l2 _ _ HU) as [Hd Hl]. unfold in_flight. rewrite El, El', Hd.
    split_and!; [done|done|apply lookup_delete_eq|]. by rewrite insert_delete_eq, insert_id.
  - unfold begin, checked_add in E.
    destruct (Z.leb_spec (next s + 1) U64_MAX) as [H1|H1]; cbn in E;
      [|split; [congruence|]; right; left; pose proof (ok_next s Hs) as []; lia].
    destruct (Z.leb_spec (now + timeout) U64_MAX) as [H2|H2]; cbn in E;
      [|split; [congruence|auto]].
    destruct (find_slot _ (pending s)) eqn:Ef; cbn in E; [done|]. split; [congruence|left].
    apply find_slot_None in Ef. rewrite (in_flight_size s Hs), full_table by done. apply Hs.
Qed.

Lemma owners_to_pairs l : omap (fmap p_owner) l = (to_pairs l).*2.*2.
Proof. induction l as [|[p|] l IH]; cbn in *; [done| |done]. by f_equal. Qed.

Lemma disconnect_map s os s' :
  session_ok s -> disconnect s = (os, s') ->
  session_ok s' /\ os ≡ₚ (map_to_list (in_flight s)).*2.*2 /\ in_flight s' = ∅.
Proof.
  intros [HL Hn HU HH] [= <- <-]. split_and!.
  - constructor; cbn [pending next]; rewrite ?to_pairs_none; [by rewrite length_map|done|constructor|constructor].
  - unfold in_flight. rewrite map_to_list_to_map by done.
    by rewrite owners_to_pairs.
  - unfold in_flight. cbn [pending]. by rewrite to_pairs_none.
Qed.

(** ** Runs of a session *)

Inductive op : Type :=
| Begin (owner now timeout : Z)
| Complete (id : Z)
| Expire (now : Z)
| Disconnect.

(** One call; the ids it handed out and the ids it answered. *)
Inductive step : Session -> op -> list Z -> list Z -> Session -> Prop :=
| step_begin s owner now timeout id s' :
    begin s owner now timeout = Ok (id, s') -> step s (Begin owner now timeout) [id] [] s'
| step_full s owner now timeout e :
    begin s owner now timeout = Err e -> step s (Begin owner now timeout) [] [] s
| step_complete s id o s' :
    complete s id = (Some o, s') -> step s (Complete id) [] [id] s'
| step_unknown s id s' : complete s id = (None, s') -> step s (Complete id) [] [] s'
| step_expire s now id o s' :
    expire s now = (Some (id, o), s') -> step s (Expire now) [] [id] s'
| step_fresh s now s' : expire s now = (None, s') -> step s (Expire now) [] [] s'
| step_disconnect s os s' :
    disconnect s = (os, s') ->
    step s Disconnect [] (elements (dom (in_flight s))) s'.

Inductive steps : Session -> list Z -> list Z -> Session -> Prop :=
| steps_nil s : steps s [] [] s
| steps_cons s o begun done1 s1 begun' done' s2 :
    steps s begun done1 s1 -> step s1 o begun' done' s2 ->
    steps s (begun ++ begun') (done1 ++ done') s2.

(** The requests handed out so far are exactly those answered and those in flight, each
    counted once. *)
Definition balanced (begun done1 : list Z) (s : Session) : Prop :=
  session_ok s /\ NoDup begun /\ Forall (fun i => 0 < i <= next s) begun /\
  begun ≡ₚ done1 ++ elements (dom (in_flight s)).

Lemma elements_dom_insert (m : gmap Z (Z * Z)) k v :
  m !! k = None -> elements (dom (<[k := v]> m)) ≡ₚ k :: elements (dom m).
Proof.
  intros H. rewrite dom_insert_L, elements_union_singleton; [done|]. by apply not_elem_of_dom.
Qed.

Lemma elements_dom_delete (m : gmap Z (Z * Z)) k v :
  m !! k = Some v -> elements (dom m) ≡ₚ k :: elements (dom (delete k m)).
Proof.
  intros H. rewrite <- (insert_delete_id m k v H) at 1. apply elements_dom_insert.
  apply lookup_delete_eq.
Qed.

(** Answering one request keeps the balance. *)
Lemma answer_balanced begun done1 s s' id v :
  balanced begun done1 s -> session_ok s' -> next s' = next s -> in_flight s !! id = Some v ->
  in_flight s' = delete id (in_flight s) -> balanced begun (done1 ++ [id]) s'.
Proof.
  intros (Hs & HN & HR & HP) Hs' En Hl Hd. split_and!; [done|done|by rewrite En|].
  rewrite HP, Hd, (elements_dom_delete _ _ _ Hl). by rewrite <- app_assoc.
Qed.

Lemma take_next s f p s' : take_slot s f = (p, s') -> next s' = next s.
Proof. intros H. by apply take_slot_spec in H as [? _]. Qed.

Lemma complete_next s id o s' : complete s id = (o, s') -> next s' = next s.
Proof.
  unfold complete. destruct (take_slot s _) eqn:E. intros [= <- <-]. by eapply take_next.
Qed.

Lemma expire_next s now r s' : expire s now = (r, s') -> next s' = next s.
Proof.
  unfold expire. destruct (take_slot s _) eqn:E. intros [= <- <-]. by eapply take_next.
Qed.

Lemma step_balanced s o begun done1 begun' done' s' :
  step s o begun' done' s' -> balanced begun done1 s ->
  balanced (begun ++ begun') (done1 ++ done') s'.
Proof.
  intros H HB. pose proof HB as (Hs & HN & HR & HP).
  destruct H as [s owner now timeout id s' E|s owner now timeout e E|s id o s' E|s id s' E
    |s now id o s' E|s now s' E|s os s' E]; rewrite ?app_nil_r.
  - pose proof (begin_map s owner now timeout Hs) as HM. rewrite E in HM.
    destruct HM as (Hs' & Hid & Hl & Hm). apply begin_Ok in E as (_ & En & _).
    pose proof (ok_next s Hs) as [Hn _]. split_and!; [done| | |].
    + apply NoDup_app. split_and!; [done| |apply NoDup_singleton]. intros i Hi Hin.
      rewrite Forall_forall in HR. specialize (HR i Hi). apply list_elem_of_singleton in Hin. lia.
    + apply Forall_app. split; [|repeat constructor; lia].
      eapply Forall_impl; [exact HR|]. cbn. lia.
    + rewrite Hm, elements_dom_insert by done. rewrite HP. solve_Permutation.
  - done.
  - pose proof (complete_map _ _ _ _ Hs E) as (Hs' & Ho & Hm).
    destruct (in_flight s !! id) as [v|] eqn:El; [|done].
    eapply answer_balanced; eauto using complete_next.
  - pose proof (complete_map _ _ _ _ Hs E) as (Hs' & Ho & Hm).
    destruct (in_flight s !! id) as [v|] eqn:El; [done|].
    rewrite delete_id in Hm by done. split_and!; [done|done| |by rewrite Hm].
    by rewrite (complete_next _ _ _ _ E).
  - pose proof (expire_map _ _ _ _ Hs E) as (Hs' & d & Hl & _ & Hm).
    eapply answer_balanced; eauto using expire_next.
  - by pose proof (expire_map _ _ _ _ Hs E) as (_ & -> & _).
  - pose proof (disconnect_map _ _ _ Hs E) as (Hs' & _ & Hm).
    assert (next s' = next s) as En by (injection E as _ <-; done).
    split_and!; [done|done|by rewrite En|]. rewrite Hm, dom_empty_L, elements_empty, app_nil_r.
    done.
Qed.

Lemma steps_balanced s begun done1 s' :
  steps s begun done1 s' -> s = Session_new -> balanced begun done1 s'.
Proof.
  induction 1 as [s|s o begun done1 s1 begun' done' s2 _ IH Hstep]; intros ->.
  - split_and!; [apply Session_new_ok|constructor|constructor|]. vm_compute. done.
  - eapply step_balanced; [exact Hstep|auto].
Qed.

(** ** Properties *)

(** The table of 64 slots is a faithful map from request ids to deadline and owner:
    [begin] adds a fresh id or refuses exactly because 64 requests are in flight or a
    number would overflow; [complete] gives the owner of exactly that request and forgets
    it; [expire] takes a request whose deadline has passed, and finds none only when there
    is none; [disconnect] gives back the owner of every request in flight. *)
Theorem session_refines_map s owner now timeout id :
  session_ok s ->
  match begin s owner now timeout with
  | Ok (id, s') => session_ok s' /\ id = next s + 1 /\ in_flight s !! id = None
      /\ in_flight s' = <[id := (now + timeout, owner)]> (in_flight s)
  | Err e => e = Full /\ (size (in_flight s) = MAX_PENDING \/ next s = U64_MAX
                          \/ U64_MAX < now + timeout)
  end
  /\ (let '(o, s') := complete s id in
      session_ok s' /\ o = snd <$> in_flight s !! id /\ in_flight s' = delete id (in_flight s))
  /\ (let '(r, s') := expire s now in
      session_ok s' /\
      match r with
      | Some (id, o) => exists d, in_flight s !! id = Some (d, o) /\ d <= now
          /\ in_flight s' = delete id (in_flight s)
      | None => s' = s /\ forall id d o, in_flight s !! id = Some (d, o) -> now < d
      end)
  /\ (let '(os, s') := disconnect s in
      session_ok s' /\ os ≡ₚ (map_to_list (in_flight s)).*2.*2 /\ in_flight s' = ∅).
Proof.
  intros Hs. split_and!; [by apply begin_map|..].
  - destruct (complete s id) eqn:E. by eapply complete_map.
  - destruct (expire s now) eqn:E. by apply expire_map.
  - destruct (disconnect s) eqn:E. by apply disconnect_map.
Qed.

Lemma session_refines_map_witness :
  session_ok Session_new /\
  match begin Session_new 7 0 100 with
  | Ok (id, s') => session_ok s' /\ id = next Session_new + 1
      /\ in_flight Session_new !! id = None
      /\ in_flight s' = <[id := (0 + 100, 7)]> (in_flight Session_new)
  | Err e => False
  end.
Proof.
  split; [apply Session_new_ok|].
  apply (session_refines_map Session_new 7 0 100 1 Session_new_ok).
Defined.

(** Whatever calls a session receives, no request id is handed out twice and every
    request is answered at most once: the ids handed out are exactly those answered
    ([complete], [expire] or [disconnect]) and those still in flight, without repetition.
    At most 64 are in flight. *)
Theorem answered_at_most_once begun answered s :
  steps Session_new begun answered s ->
  NoDup begun /\ NoDup answered /\ begun ≡ₚ answered ++ elements (dom (in_flight s))
  /\ (forall id, id ∈ answered -> (complete s id).1 = None)
  /\ (size (in_flight s) <= MAX_PENDING)%nat.
Proof.
  intros H. destruct (steps_balanced _ _ _ _ H eq_refl) as (Hs & HN & _ & HP).
  assert (NoDup (answered ++ elements (dom (in_flight s)))) as HN' by (by rewrite <- HP).
  apply NoDup_app in HN' as (HA & HD & _). split_and!; [done..| |].
  - intros id Hid. destruct (complete s id) as [o s'] eqn:E.
    apply complete_map in E as (_ & -> & _); [|done].
    destruct (in_flight s !! id) eqn:El; [|done]. exfalso. apply (HD id Hid).
    apply elem_of_elements. by eapply elem_of_dom_2.
  - rewrite (in_flight_size s Hs), <- (ok_slots s Hs). apply to_pairs_length.
Qed.

Definition after_begin (s : Session) (owner now timeout : Z) : Session :=
  match begin s owner now timeout with Ok (_, s') => s' | Err _ => s end.

Definition two_begun : Session := after_begin (after_begin Session_new 7 0 30) 9 0 60.

Lemma two_begun_one_answered : steps Session_new [1; 2] [2] (complete two_begun 2).2.
Proof.
  apply (steps_cons _ (Complete 2) [1; 2] [] two_begun [] [2]).
  - apply (steps_cons _ (Begin 9 0 60) [1] [] (after_begin Session_new 7 0 30) [2] []).
    + apply (steps_cons _ (Begin 7 0 30) [] [] Session_new [1] []); [constructor|].
      apply step_begin. vm_compute. reflexivity.
    + apply step_begin. vm_compute. reflexivity.
  - apply (step_complete _ 2 9). vm_compute. reflexivity.
Qed.

Lemma answered_at_most_once_witness :
  steps Session_new [1; 2] [2] (complete two_begun 2).2 /\ NoDup [1; 2] /\ NoDup [2]
  /\ (complete (complete two_begun 2).2 2).1 = None.
Proof.
  destruct (answered_at_most_once _ _ _ two_begun_one_answered) as (H1 & H2 & _ & H4 & _).
  split; [exact two_begun_one_answered|]. split; [exact H1|]. split; [exact H2|].
  apply H4. apply list_elem_of_here.
Defined.
