(* ===== verification/Token.v ===== *)
(** * Token: mutual proof of identity when an app attaches

    Models [crates/protocol/src/token.rs].  HMAC-SHA256, the constant-time comparison and
    base64url are the crates [leancrypto] and [leanbase64], which are not part of the
    repository: they are parameters of the model.  What is proved is the program's share:
    which message each secret signs, when an offered proof is accepted, and what the
    lenient base64 decoder hands to the strict one. *)

From Stdlib Require Import ZArith Lia Ascii String.
From S2P Require Import Prelude Text Errors Float Value Wire.

Local Open Scope Z_scope.

(** The errors of [leanbase64] the program tells apart. *)
Inductive Base64Error : Type := Base64Trailing | Base64OutOfMemory | Base64Other.

Inductive Direction : Type := App | Stulp.

(** [for b in field.as_bytes() { push(&mut bytes, *b, 16384)? } push(&mut bytes, 0, 16384)?] *)
Fixpoint frame_fields (fields : list string) (bytes : list Z) : Result (list Z) :=
  match fields with
  | [] => Ok bytes
  | field :: fields =>
      bytes ← push_all Ok 16384 (as_bytes field) bytes;
      bytes ← push bytes 0 16384;
      frame_fields fields bytes
  end.

(** The fields [proof] signs. *)
Definition proof_fields (direction : Direction) (nonce app_id : string) : list string :=
  [match direction with App => "app" | Stulp => "stulp" end; nonce; app_id].

(** [raw.trim_end_matches('=')] *)
Fixpoint trim_end_matches (c : Z) (l : list Z) : list Z :=
  match l with
  | [] => []
  | b :: l =>
      match trim_end_matches c l with
      | [] => if b =? c then [] else [b]
      | l' => b :: l'
      end
  end.

(** Both usual alphabets become the one of [leanbase64::URL]. *)
Definition url_byte (b : Z) : Z := if b =? 43 then 45 else if b =? 47 then 95 else b.

Section Token.
(** [HmacSha256::mac(key, message)], [ct::eq(a, b)], [URL.encode] and [URL.decode]. *)
Variable hmac : list Z -> list Z -> list Z.
Variable ct_eq : list Z -> list Z -> bool.
Variable url_encode : list Z -> result Base64Error string.
Variable url_decode : list Z -> result Base64Error (list Z).

Definition base64 (bytes : list Z) : Result string :=
  match url_encode bytes with Ok s => Ok s | Err _ => Err Memory end.

Definition mac (key : string) (fields : list string) : Result string :=
  bytes ← frame_fields fields [];
  base64 (hmac (as_bytes key) bytes).

Definition token (secret app_id : string) : Result string := mac secret ["token"%string; app_id].

Definition proof (token : string) (direction : Direction) (nonce app_id : string)
  : Result string :=
  mac token (proof_fields direction nonce app_id).

Definition check (secret app_id nonce offered : string) : Result bool :=
  if is_empty secret || is_empty nonce || is_empty offered then Ok false
  else
    t ← token secret app_id;
    expected ← proof t App nonce app_id;
    Ok (ct_eq (as_bytes expected) (as_bytes offered)).

Definition equal (a b : string) : bool := ct_eq (as_bytes a) (as_bytes b).

Definition decode (raw : string) : Result (list Z) :=
  let raw := as_bytes (trim raw) in
  let s := trim_end_matches 61 raw in
  if (MAX_FRAME <? Z.of_nat (length s)) || (2 <? Z.of_nat (length raw - length s))
  then Err (Invalid "invalid base64")
  else
    match url_decode (map url_byte s) with
    | Ok bytes => Ok bytes
    | Err Base64Trailing => Err (Invalid "invalid base64 tail")
    | Err Base64OutOfMemory => Err Memory
    | Err Base64Other => Err (Invalid "invalid base64")
    end.
End Token.

(** ** Lemmas: framing *)

(** Every field is followed by a zero byte. *)
Definition framed (fields : list string) : list Z :=
  flat_map (fun f => as_bytes f ++ [0]) fields.

Lemma frame_fields_Ok fields : forall bytes out,
  frame_fields fields bytes = Ok out -> out = bytes ++ framed fields.
Proof.
  induction fields as [|f fields IH]; intros bytes out; cbn [frame_fields framed flat_map].
  - intros [= <-]. by rewrite app_nil_r.
  - destruct (push_all Ok 16384 (as_bytes f) bytes) as [b1|] eqn:E1; [cbn|done].
    apply push_all_id in E1 as ->.
    destruct (push (bytes ++ as_bytes f) 0 16384) as [b2|] eqn:E2; [cbn|done].
    apply push_Ok in E2 as [_ ->]. intros H. rewrite (IH _ _ H). by rewrite <- !app_assoc.
Qed.

Definition no_nul (s : string) : Prop := 0 ∉ as_bytes s.

(** Up to the first zero byte a framed text determines its first field. *)
Lemma split_nul (a b k l : list Z) :
  0 ∉ a -> 0 ∉ b -> a ++ 0 :: k = b ++ 0 :: l -> a = b /\ k = l.
Proof.
  revert b. induction a as [|x a IH]; intros [|y b] Ha Hb H; cbn in H.
  - injection H as ->. done.
  - injection H as <- _. by destruct Hb; apply list_elem_of_here.
  - injection H as -> _. by destruct Ha; apply list_elem_of_here.
  - injection H as <- H. apply not_elem_of_cons in Ha as [_ Ha], Hb as [_ Hb].
    destruct (IH b Ha Hb H) as [-> ->]. done.
Qed.

Lemma framed_cons f fields : framed (f :: fields) = as_bytes f ++ 0 :: framed fields.
Proof. cbn. by rewrite <- app_assoc. Qed.

Lemma framed_head f g fs gs :
  no_nul f -> no_nul g -> framed (f :: fs) = framed (g :: gs) -> f = g /\ framed fs = framed gs.
Proof.
  rewrite !framed_cons. intros Hf Hg H. destruct (split_nul _ _ _ _ Hf Hg H) as [E ->].
  apply as_bytes_inj in E. done.
Qed.

Lemma framed_one a b : framed [a] = framed [b] -> a = b.
Proof. cbn. rewrite !app_nil_r. intros H. apply app_inj_tail in H as [H _]. by apply as_bytes_inj. Qed.

Lemma no_nul_decide s : existsb (Z.eqb 0) (as_bytes s) = false -> no_nul s.
Proof.
  intros H Hin. assert (existsb (Z.eqb 0) (as_bytes s) = true); [|congruence].
  apply existsb_exists. exists 0. split; [by apply list_elem_of_In|done].
Qed.

(** ** Properties *)

(** What a proof signs determines its direction, its nonce and the app, and is never
    what a token is derived from: a proof an app gave cannot be offered back as the proof
    of the controller, for another nonce or for another app, and cannot be obtained as a
    token.  (Nonces hold no zero byte: they are base64 text.) *)
Theorem proofs_are_separated d nonce id m d' nonce' id' other :
  no_nul nonce -> no_nul nonce' ->
  frame_fields (proof_fields d nonce id) [] = Ok m ->
  (frame_fields (proof_fields d' nonce' id') [] = Ok m ->
     d = d' /\ nonce = nonce' /\ id = id')
  /\ frame_fields ["token"%string; other] [] <> Ok m.
Proof.
  intros Hn Hn' ->%frame_fields_Ok. cbn [app]. split.
  - intros H%frame_fields_Ok. cbn [app] in H. unfold proof_fields in H.
    apply framed_head in H as [Hd H]; [|by destruct d; apply no_nul_decide|
      by destruct d'; apply no_nul_decide].
    apply framed_head in H as [-> H]; [|done..]. apply framed_one in H as ->.
    by destruct d, d'.
  - intros H%frame_fields_Ok. cbn [app] in H. unfold proof_fields in H.
    apply framed_head in H as [Hd _]; [|by destruct d; apply no_nul_decide|by apply no_nul_decide].
    by destruct d.
Qed.

Lemma proofs_are_separated_witness :
  exists m, frame_fields (proof_fields App "n1" "com.stulp.matter") [] = Ok m
    /\ frame_fields ["token"%string; "x"%string] [] <> Ok m.
Proof.
  exists (framed (proof_fields App "n1" "com.stulp.matter")).
  assert (frame_fields (proof_fields App "n1" "com.stulp.matter") []
    = Ok (framed (proof_fields App "n1" "com.stulp.matter"))) as H by (vm_compute; reflexivity).
  split; [exact H|].
  apply (proofs_are_separated App "n1" "com.stulp.matter" _ App "n1" "com.stulp.matter" "x");
    [by apply no_nul_decide..|exact H].
Defined.

(** [check] accepts exactly the proof that the holder of the app's token computes for
    this nonce; an empty secret, nonce or offer authenticates nobody. *)
Theorem check_accepts_exactly_the_proof hmac ct_eq url_encode secret app_id nonce offered :
  (forall a b, ct_eq a b = true <-> a = b) ->
  check hmac ct_eq url_encode secret app_id nonce offered = Ok true <->
  secret <> ""%string /\ nonce <> ""%string /\ offered <> ""%string /\
  exists t, token hmac url_encode secret app_id = Ok t
    /\ proof hmac url_encode t App nonce app_id = Ok offered.
Proof.
  intros Hct. unfold check, is_empty.
  destruct (String.eqb_spec secret "") as [->|Hs]; [by split; [|intros [? _]]|].
  destruct (String.eqb_spec nonce "") as [->|Hn]; [by split; [|intros (_ & ? & _)]|].
  destruct (String.eqb_spec offered "") as [->|Ho]; [by split; [|intros (_ & _ & ? & _)]|].
  cbn [orb]. destruct (token hmac url_encode secret app_id) as [t|] eqn:Et; cbn [mbind result_bind].
  2:{ split; [done|]. intros (_ & _ & _ & t & ? & _). done. }
  destruct (proof hmac url_encode t App nonce app_id) as [p|] eqn:Ep; cbn [mbind result_bind].
  - split.
    + intros [= H]. apply Hct, as_bytes_inj in H as ->. split_and!; [done..|]. by exists t.
    + intros (_ & _ & _ & t' & Ht & Hp). assert (t' = t) as -> by congruence.
      assert (p = offered) as -> by congruence. f_equal. by apply Hct.
  - split; [done|]. intros (_ & _ & _ & t' & Ht & Hp). congruence.
Qed.

(** A toy keyed function and encoding, enough to run the handshake. *)
Definition toy_hmac (key message : list Z) : list Z := map (fun b => (b + le_val key) mod 26) message.
Definition toy_encode (bytes : list Z) : result Base64Error string :=
  Ok (of_bytes (map (fun b => 65 + b mod 26) bytes)).

Lemma check_accepts_exactly_the_proof_witness :
  exists offered,
    check toy_hmac bytes_eqb toy_encode "secret" "com.stulp.nibe" "nonce" offered = Ok true
    /\ check toy_hmac bytes_eqb toy_encode "secret" "com.stulp.nibe" "other" offered = Ok false.
Proof.
  destruct (token toy_hmac toy_encode "secret" "com.stulp.nibe") as [t|] eqn:Et;
    [|vm_compute in Et; discriminate Et].
  destruct (proof toy_hmac toy_encode t App "nonce" "com.stulp.nibe") as [p|] eqn:Ep;
    [|vm_compute in Et; injection Et as <-; vm_compute in Ep; discriminate Ep].
  exists p. split.
  - apply (check_accepts_exactly_the_proof toy_hmac bytes_eqb toy_encode "secret"
      "com.stulp.nibe" "nonce" p).
    + intros a b. unfold bytes_eqb. apply bool_decide_eq_true.
    + split; [discriminate|]. split; [discriminate|]. split.
      * intros ->. vm_compute in Et. injection Et as <-. vm_compute in Ep. discriminate Ep.
      * exists t. split; [exact Et|exact Ep].
  - vm_compute in Et. injection Et as <-. vm_compute in Ep. injection Ep as <-.
    vm_compute. reflexivity.
Defined.
