(* ===== verification/Calendar.v ===== *)
(** * Calendar: local dates of the scheduler

    Models [crates/runtime/src/calendar.rs]: the Gregorian calendar with an explicit UTC
    offset.  [civil] and [midnight] are exact inverses on every date of the years 1 to
    9999. *)

From Stdlib Require Import ZArith Lia.
From S2P Require Import Prelude Errors.

Local Open Scope Z_scope.

Record Civil : Type := mk_civil {
  year : Z; month : Z; day : Z; hour : Z; minute : Z; offset : Z
}.

#[export] Instance Civil_eq_dec : EqDecision Civil.
Proof. solve_decision. Defined.

(** [i64::checked_add] *)
Definition checked_add_i64 (a b : Z) : option Z :=
  if (-9223372036854775808 <=? a + b) && (a + b <=? 9223372036854775807)
  then Some (a + b) else None.

Definition leap (year : Z) : bool :=
  (Z.rem year 4 =? 0) && (negb (Z.rem year 100 =? 0) || (Z.rem year 400 =? 0)).

Definition month_days (year month : Z) : Z :=
  if (month =? 1) || (month =? 3) || (month =? 5) || (month =? 7) || (month =? 8)
     || (month =? 10) || (month =? 12) then 31
  else if (month =? 4) || (month =? 6) || (month =? 9) || (month =? 11) then 30
  else if month =? 2 then (if leap year then 29 else 28)
  else 0.

(** Midnight of a date taken as UTC, in seconds since the epoch. *)
Definition midnight (year month day : Z) : Result Z :=
  if negb ((1 <=? year) && (year <=? 9999)) || (day =? 0) || (month_days year month <? day)
  then Err (Invalid "calendar date out of range")
  else
    let y := year - (if month <=? 2 then 1 else 0) in
    let era := y / 400 in
    let yo := y - era * 400 in
    let m := month + (if 2 <? month then -3 else 9) in
    let doy := (153 * m + 2) / 5 + day - 1 in
    Ok ((era * 146097 + yo * 365 + yo / 4 - yo / 100 + doy - 719468) * 86400).

Definition civil (unix offset : Z) : Result Civil :=
  local ← ok_or (checked_add_i64 unix offset) Full;
  let day := local / 86400 in
  z ← ok_or (checked_add_i64 day 719468) Full;
  let era := z / 146097 in
  let doe := z - era * 146097 in
  let yo := (doe - doe / 1460 + doe / 36524 - doe / 146096) / 365 in
  let doy := doe - (365 * yo + yo / 4 - yo / 100) in
  let mp := (5 * doy + 2) / 153 in
  let d := doy - (153 * mp + 2) / 5 + 1 in
  let m := mp + (if mp <? 10 then 3 else -9) in
  let y := yo + era * 400 + (if m <=? 2 then 1 else 0) in
  if negb ((1 <=? y) && (y <=? 9999)) then Err (Invalid "clock date out of range")
  else Ok (mk_civil y m d ((local mod 86400) / 3600) ((local mod 3600) / 60) offset).

(** ** Years of an era, counted from March *)

Definition start (yo : Z) : Z := 365 * yo + yo / 4 - yo / 100.
Definition last_day (yo : Z) : Z := start (yo + 1) - 1 + (if yo =? 399 then 1 else 0).
Definition year_of (doe : Z) : Z := (doe - doe / 1460 + doe / 36524 - doe / 146096) / 365.

(** The number under the division by 365 never decreases within an era. *)
Lemma year_scale_mono n a :
  0 <= a -> a + Z.of_nat n <= 146096 ->
  let g doe := doe - doe / 1460 + doe / 36524 - doe / 146096 in
  g a <= g (a + Z.of_nat n).
Proof.
  intros Ha. induction n as [|n IH]; intros Hn g; [rewrite Z.add_0_r; lia|].
  etransitivity; [apply IH; lia|]. unfold g.
  Z.to_euclidean_division_equations. lia.
Qed.

Lemma year_table :
  forallb (fun n => let yo := Z.of_nat n in
    (year_of (start yo) =? yo) && (year_of (last_day yo) =? yo)
    && (0 <=? start yo) && (last_day yo <=? 146096)) (seq 0 400) = true.
Proof. vm_compute. reflexivity. Qed.

Lemma year_bounds yo :
  0 <= yo <= 399 ->
  year_of (start yo) = yo /\ year_of (last_day yo) = yo /\ 0 <= start yo /\ last_day yo <= 146096.
Proof.
  intros Hy. pose proof year_table as H. rewrite forallb_forall in H.
  specialize (H (Z.to_nat yo)). rewrite Z2Nat.id in H by lia. cbn zeta in H.
  assert (In (Z.to_nat yo) (seq 0 400)) as Hin by (apply in_seq; lia).
  specialize (H Hin). bool_prop. done.
Qed.

(** The year of a day is the year whose first and last day enclose it. *)
Lemma year_of_spec yo doe :
  0 <= yo <= 399 -> start yo <= doe <= last_day yo -> year_of doe = yo.
Proof.
  intros Hy Hd. destruct (year_bounds yo Hy) as (Hs & Hl & H0 & Hm).
  pose proof (year_scale_mono (Z.to_nat (doe - start yo)) (start yo)) as H1.
  pose proof (year_scale_mono (Z.to_nat (last_day yo - doe)) doe) as H2.
  rewrite Z2Nat.id in H1, H2 by lia. cbn zeta in *.
  replace (start yo + (doe - start yo)) with doe in H1 by lia.
  replace (doe + (last_day yo - doe)) with (last_day yo) in H2 by lia.
  unfold year_of in *. apply Z.le_antisymm.
  - etransitivity; [apply Z.div_le_mono; [lia|apply H2; lia]|]. rewrite Hl. lia.
  - etransitivity; [|apply Z.div_le_mono; [lia|apply H1; lia]]. rewrite Hs. lia.
Qed.

(** Every day of an era lies in one of its years. *)
Lemma year_exists doe :
  0 <= doe <= 146096 -> exists yo, 0 <= yo <= 399 /\ start yo <= doe <= last_day yo.
Proof.
  intros Hd.
  assert (forall n, (n <= 400)%nat -> doe < start (Z.of_nat n) ->
    exists yo, 0 <= yo < Z.of_nat n /\ start yo <= doe < start (yo + 1)) as HN.
  { induction n as [|n IH]; intros Hn Hlt; [change (start (Z.of_nat 0)) with 0 in Hlt; lia|].
    destruct (Z.lt_ge_cases doe (start (Z.of_nat n))) as [Hlo|Hhi].
    - destruct (IH ltac:(lia) Hlo) as (yo & ? & ?). exists yo. split; [lia|done].
    - exists (Z.of_nat n). split; [lia|]. split; [done|].
      by replace (Z.of_nat n + 1) with (Z.of_nat (S n)) by lia. }
  destruct (decide (doe = 146096)) as [->|].
  - exists 399. vm_compute. repeat split; discriminate.
  - destruct (HN 400%nat ltac:(lia)) as (yo & Hy & Hs).
    { change (doe < 146096). lia. }
    exists yo. split; [lia|]. unfold last_day. destruct (Z.eqb_spec yo 399); lia.
Qed.

(** ** Days of a year, counted from March *)

Definition month_part (doy : Z) : Z * Z :=
  let mp := (5 * doy + 2) / 153 in
  (mp + (if mp <? 10 then 3 else -9), doy - (153 * mp + 2) / 5 + 1).

Definition day_of_year (m d : Z) : Z :=
  (153 * (m + (if 2 <? m then -3 else 9)) + 2) / 5 + d - 1.

(** A day that exists in some year. *)
Definition date_ok (m d : Z) : bool := (1 <=? m) && (1 <=? d) && (d <=? month_days 4 m).

Lemma month_table :
  forallb (fun n => let doy := Z.of_nat n in let '(m, d) := month_part doy in
    date_ok m d && (m <=? 12) && (day_of_year m d =? doy)
    && Bool.eqb ((m =? 2) && (d =? 29)) (doy =? 365)) (seq 0 366) = true.
Proof. vm_compute. reflexivity. Qed.

Lemma day_table :
  forallb (fun i => forallb (fun j => let m := Z.of_nat i in let d := Z.of_nat j in
    negb (date_ok m d)
    || let '(m', d') := month_part (day_of_year m d) in
       (m' =? m) && (d' =? d) && (0 <=? day_of_year m d) && (day_of_year m d <=? 365)
       && (negb (day_of_year m d =? 365) || ((m =? 2) && (d =? 29))))
    (seq 0 32)) (seq 0 13) = true.
Proof. vm_compute. reflexivity. Qed.

Lemma month_part_spec doy m d :
  0 <= doy <= 365 -> month_part doy = (m, d) ->
  date_ok m d = true /\ 1 <= m <= 12 /\ day_of_year m d = doy /\ (m = 2 -> d = 29 -> doy = 365).
Proof.
  intros Hd E. pose proof month_table as H. rewrite forallb_forall in H.
  specialize (H (Z.to_nat doy)). rewrite Z2Nat.id in H by lia. cbn zeta in H. rewrite E in H.
  assert (In (Z.to_nat doy) (seq 0 366)) as Hin by (apply in_seq; lia).
  specialize (H Hin). bool_prop. split; [done|]. unfold date_ok in *. bool_prop.
  split; [lia|]. split; [done|]. intros -> ->. apply eqb_prop in H0. cbn in H0.
  by apply Z.eqb_eq.
Qed.

Lemma month_days_le year m : month_days year m <= 31 /\ (m < 1 \/ 12 < m -> month_days year m = 0).
Proof. unfold month_days. repeat case_match; bool_prop; lia. Qed.

Lemma day_of_year_spec m d :
  date_ok m d = true ->
  month_part (day_of_year m d) = (m, d) /\ 0 <= day_of_year m d <= 365
  /\ (day_of_year m d = 365 -> m = 2 /\ d = 29).
Proof.
  intros Ho. pose proof day_table as H. rewrite forallb_forall in H.
  assert (1 <= m <= 12 /\ 1 <= d <= 31) as [Hm Hd].
  { unfold date_ok in Ho. bool_prop. pose proof (month_days_le 4 m) as [H31 Hz].
    destruct (Z.le_gt_cases m 12); [lia|]. rewrite Hz in * by lia. lia. }
  specialize (H (Z.to_nat m) ltac:(apply in_seq; lia)). rewrite forallb_forall in H.
  specialize (H (Z.to_nat d) ltac:(apply in_seq; lia)).
  rewrite !Z2Nat.id in H by lia. cbn zeta in H. rewrite Ho in H. cbn [negb orb] in H.
  destruct (month_part (day_of_year m d)) as [m' d']. bool_prop. subst.
  split; [done|]. split; [lia|]. intros E. apply orb_true_iff in H0 as [H0|H0]; bool_prop; lia.
Qed.

(** ** Leap years *)

Lemma leap_table :
  forallb (fun n => let yo := Z.of_nat n in
    last_day yo - start yo =? 364 + (if leap (yo + 1) then 1 else 0)) (seq 0 400) = true.
Proof. vm_compute. reflexivity. Qed.

Lemma leap_period y : 1 <= y -> leap y = leap ((y - 1) mod 400 + 1).
Proof.
  intros Hy. pose proof (Z.mod_pos_bound (y - 1) 400). unfold leap.
  rewrite !Z.rem_mod_nonneg by lia.
  assert (y mod 4 = ((y - 1) mod 400 + 1) mod 4) as -> by (Z.to_euclidean_division_equations; lia).
  assert (y mod 100 = ((y - 1) mod 400 + 1) mod 100) as -> by (Z.to_euclidean_division_equations; lia).
  assert (y mod 400 = ((y - 1) mod 400 + 1) mod 400) as -> by (Z.to_euclidean_division_equations; lia).
  done.
Qed.

(** The length of the year that ends in February of the year [y]. *)
Lemma year_length y :
  1 <= y -> let yo := (y - 1) mod 400 in
  last_day yo - start yo = 364 + (if leap y then 1 else 0).
Proof.
  intros Hy yo. pose proof (Z.mod_pos_bound (y - 1) 400 ltac:(lia)) as Hb.
  pose proof leap_table as H. rewrite forallb_forall in H.
  specialize (H (Z.to_nat yo) ltac:(apply in_seq; unfold yo; lia)). cbn zeta in H.
  rewrite Z2Nat.id in H by (unfold yo; lia). rewrite (leap_period y Hy). fold yo.
  by apply Z.eqb_eq in H.
Qed.

Lemma year_length_bounds yo : 0 <= yo <= 399 -> 364 <= last_day yo - start yo <= 365.
Proof.
  intros Hy. pose proof (year_length (yo + 1) ltac:(lia)) as HL. cbn zeta in HL.
  replace (yo + 1 - 1) with yo in HL by lia. rewrite Z.mod_small in HL by lia.
  rewrite HL. destruct (leap _); lia.
Qed.

(** ** The two directions *)

(** The day number of a date. *)
Definition day_number (y m d : Z) : Z :=
  let y' := y - (if m <=? 2 then 1 else 0) in
  y' / 400 * 146097 + start (y' mod 400) + day_of_year m d - 719468.

Definition valid_date (y m d : Z) : Prop := 1 <= y <= 9999 /\ 1 <= d <= month_days y m.

Lemma midnight_eq y m d :
  valid_date y m d -> midnight y m d = Ok (day_number y m d * 86400).
Proof.
  intros [Hy Hd]. unfold midnight.
  rewrite (proj2 (Z.leb_le 1 y)), (proj2 (Z.leb_le y 9999)), (proj2 (Z.eqb_neq d 0)),
    (proj2 (Z.ltb_ge _ d)) by lia. cbn [andb negb orb].
  unfold day_number, day_of_year, start. do 2 f_equal.
  set (y' := y - _). replace (y' - y' / 400 * 400) with (y' mod 400)
    by (rewrite Z.mod_eq; lia). lia.
Qed.

Lemma midnight_Ok y m d t :
  midnight y m d = Ok t -> 0 <= d -> valid_date y m d /\ t = day_number y m d * 86400.
Proof.
  intros H Hd. assert (valid_date y m d) as Hv.
  { unfold midnight in H. destruct (_ || _ || _) eqn:E; [done|]. bool_prop.
    unfold valid_date. lia. }
  split; [done|]. rewrite midnight_eq in H by done. congruence.
Qed.

Lemma month_days_le_leap y m : month_days y m <= month_days 4 m.
Proof.
  assert (leap 4 = true) as E by reflexivity. unfold month_days. rewrite E.
  repeat case_match; lia.
Qed.

Lemma valid_date_ok y m d : valid_date y m d -> date_ok m d = true /\ (m = 2 -> d = 29 -> leap y = true).
Proof.
  intros [Hy Hd]. pose proof (month_days_le_leap y m) as Hle.
  pose proof (month_days_le y m) as [_ H0]. unfold date_ok.
  rewrite (proj2 (Z.leb_le 1 m)), (proj2 (Z.leb_le 1 d)), (proj2 (Z.leb_le d _)) by lia.
  split; [done|]. intros -> ->. destruct (leap y) eqn:E; [done|].
  unfold month_days in Hd. rewrite E in Hd. cbn in Hd. lia.
Qed.

(** The date of a day number, as [civil] computes it. *)
Definition date_of (z : Z) : Z * Z * Z :=
  let doe := z mod 146097 in
  let yo := year_of doe in
  let '(m, d) := month_part (doe - start yo) in
  (yo + z / 146097 * 400 + (if m <=? 2 then 1 else 0), m, d).

Lemma date_of_day_number y m d :
  valid_date y m d -> date_of (day_number y m d + 719468) = (y, m, d).
Proof.
  intros Hv. destruct (valid_date_ok y m d Hv) as [Ho Hl]. destruct Hv as [Hy Hd].
  destruct (day_of_year_spec m d Ho) as (Hm & Hr & H365).
  unfold day_number. set (y' := y - (if m <=? 2 then 1 else 0)). set (yo := y' mod 400).
  assert (0 <= yo <= 399) as Hyo by (unfold yo; pose proof (Z.mod_pos_bound y' 400); lia).
  destruct (year_bounds yo Hyo) as (_ & _ & H0 & Hmax).
  assert (start yo + day_of_year m d <= last_day yo) as Hlast.
  { destruct (decide (day_of_year m d = 365)) as [E|E].
    - destruct (H365 E) as [-> ->]. pose proof (year_length y ltac:(lia)) as HL.
      rewrite (Hl eq_refl eq_refl) in HL. cbn zeta in HL. unfold yo, y' in *. cbn in *. lia.
    - pose proof (year_length_bounds yo Hyo). lia. }
  unfold date_of.
  replace (y' / 400 * 146097 + start yo + day_of_year m d - 719468 + 719468)
    with (start yo + day_of_year m d + y' / 400 * 146097) by lia.
  rewrite Z.mod_add, Z.mod_small, Z.div_add, Z.div_small by lia.
  rewrite (year_of_spec yo) by lia.
  replace (start yo + day_of_year m d - start yo) with (day_of_year m d) by lia.
  rewrite Hm. f_equal. f_equal. unfold yo, y'. rewrite Z.mod_eq by lia. lia.
Qed.

Lemma day_number_date_of z y m d :
  date_of z = (y, m, d) -> 1 <= y <= 9999 ->
  valid_date y m d /\ day_number y m d = z - 719468 /\ 1 <= m <= 12.
Proof.
  unfold date_of. set (doe := z mod 146097).
  assert (0 <= doe <= 146096) as Hdoe by (unfold doe; pose proof (Z.mod_pos_bound z 146097); lia).
  destruct (year_exists doe Hdoe) as (yo & Hyo & Hin). rewrite (year_of_spec yo doe Hyo Hin).
  assert (0 <= doe - start yo <= 365) as Hdoy by (pose proof (year_length_bounds yo Hyo); lia).
  destruct (month_part (doe - start yo)) as [m0 d0] eqn:E.
  destruct (month_part_spec _ _ _ Hdoy E) as (Ho & Hm & Hback & H29).
  intros [= Ey -> ->] Hy.
  assert (y - (if m <=? 2 then 1 else 0) = yo + z / 146097 * 400) as Ey' by lia.
  assert (0 <= z / 146097) as Hera by (destruct (m <=? 2); lia).
  split; [|split; [|done]].
  - split; [done|]. unfold date_ok in Ho. bool_prop. split; [done|].
    destruct (decide (m = 2)) as [->|Hne].
    2:{ etransitivity; [eassumption|]. unfold month_days. repeat case_match; lia. }
    change (month_days 4 2) with 29 in *. change (month_days y 2) with (if leap y then 29 else 28).
    destruct (leap y) eqn:EL; [lia|]. assert (d <> 29); [|lia].
    intros ->. specialize (H29 eq_refl eq_refl).
    pose proof (year_length y ltac:(lia)) as HL. rewrite EL in HL. cbn zeta in HL. cbn in Ey'.
    rewrite Ey', Z.mod_add, Z.mod_small in HL by lia. lia.
  - unfold day_number. rewrite Ey', Z.mod_add, (Z.mod_small yo), Z.div_add, (Z.div_small yo) by lia.
    rewrite Hback. unfold doe. rewrite Z.mod_eq by lia. lia.
Qed.

(** What [civil] computes, with its two overflow checks and its range check. *)
Lemma civil_eq unix offset :
  civil unix offset =
  match checked_add_i64 unix offset with
  | None => Err Full
  | Some local =>
      let '(y, m, d) := date_of (local / 86400 + 719468) in
      if negb ((1 <=? y) && (y <=? 9999)) then Err (Invalid "clock date out of range")
      else Ok (mk_civil y m d ((local mod 86400) / 3600) ((local mod 3600) / 60) offset)
  end.
Proof.
  unfold civil, ok_or. destruct (checked_add_i64 unix offset) as [local|] eqn:E;
    cbn [mbind result_bind]; [|done].
  assert (-9223372036854775808 <= local <= 9223372036854775807) as Hl.
  { unfold checked_add_i64 in E. destruct (_ && _) eqn:B; [|done]. injection E as <-. bool_prop. lia. }
  unfold checked_add_i64. assert (-106751991167301 <= local / 86400 <= 106751991167300)
    by (Z.to_euclidean_division_equations; lia).
  rewrite (proj2 (Z.leb_le (-9223372036854775808) _)), (proj2 (Z.leb_le _ 9223372036854775807)) by lia.
  cbn [andb mbind result_bind]. set (z := local / 86400 + 719468).
  unfold date_of, month_part, year_of, start.
  replace (z - z / 146097 * 146097) with (z mod 146097) by (rewrite Z.mod_eq; lia). done.
Qed.

(** ** Properties *)

(** The calendar is exact: the date and time of day that [civil] gives for a moment is
    the date of an existing day, whose midnight lies exactly that many hours and minutes
    (and fewer than sixty seconds) before the local moment. *)
Theorem civil_is_exact unix off c :
  civil unix off = Ok c ->
  1 <= year c <= 9999 /\ 1 <= month c <= 12 /\ 1 <= day c <= month_days (year c) (month c)
  /\ 0 <= hour c < 24 /\ 0 <= minute c < 60 /\ offset c = off
  /\ exists t, midnight (year c) (month c) (day c) = Ok t
       /\ t + hour c * 3600 + minute c * 60 <= unix + off < t + hour c * 3600 + minute c * 60 + 60.
Proof.
  rewrite civil_eq. unfold checked_add_i64. destruct (_ && _); [|done].
  set (local := unix + off). destruct (date_of _) as [[y m] d] eqn:E.
  destruct (_ && _) eqn:B; [cbn [negb]|done]. intros [= <-]. bool_prop. cbn.
  destruct (day_number_date_of _ _ _ _ E ltac:(lia)) as ([Hy Hd] & Hn & Hm).
  split_and!; try lia; try done.
  - Z.to_euclidean_division_equations. lia.
  - Z.to_euclidean_division_equations. lia.
  - Z.to_euclidean_division_equations. lia.
  - Z.to_euclidean_division_equations. lia.
  - exists (day_number y m d * 86400). split; [by apply midnight_eq|]. rewrite Hn.
    fold local. clearbody local. clear. Z.to_euclidean_division_equations. lia.
Qed.

Lemma civil_is_exact_witness :
  exists c, civil 1709210096 3600 = Ok c /\ c = mk_civil 2024 2 29 13 34 3600
    /\ exists t, midnight (year c) (month c) (day c) = Ok t
       /\ t + hour c * 3600 + minute c * 60 <= 1709210096 + 3600
            < t + hour c * 3600 + minute c * 60 + 60.
Proof.
  exists (mk_civil 2024 2 29 13 34 3600).
  assert (civil 1709210096 3600 = Ok (mk_civil 2024 2 29 13 34 3600)) as H by (vm_compute; reflexivity).
  split; [exact H|]. split; [reflexivity|].
  destruct (civil_is_exact _ _ _ H) as (_ & _ & _ & _ & _ & _ & Ht). exact Ht.
Defined.

(** Round trip from a date: for every date [midnight] accepts (years 1 to 9999, real
    month lengths, leap days only in leap years), any time of that day and any offset,
    [civil] gives the very same date, hour, minute and offset back. *)
Theorem date_roundtrip y m d t h mi s off :
  0 <= d -> midnight y m d = Ok t ->
  0 <= h < 24 -> 0 <= mi < 60 -> 0 <= s < 60 ->
  civil (t + h * 3600 + mi * 60 + s - off) off = Ok (mk_civil y m d h mi off).
Proof.
  intros Hd0 HM Hh Hmi Hs. apply midnight_Ok in HM as [Hv ->]; [|done].
  rewrite civil_eq. unfold checked_add_i64.
  replace (day_number y m d * 86400 + h * 3600 + mi * 60 + s - off + off)
    with (h * 3600 + mi * 60 + s + day_number y m d * 86400) by lia.
  assert (-1000000 <= day_number y m d <= 4000000) as Hb.
  { destruct (valid_date_ok y m d Hv) as [Ho _]. destruct (day_of_year_spec m d Ho) as (_ & Hr & _).
    destruct Hv as [Hy _]. unfold day_number, start. clear Ho.
    destruct (m <=? 2); Z.to_euclidean_division_equations; lia. }
  rewrite (proj2 (Z.leb_le (-9223372036854775808) _)), (proj2 (Z.leb_le _ 9223372036854775807)) by lia.
  cbn [andb]. rewrite Z.div_add, (Z.div_small (h * 3600 + mi * 60 + s)) by lia.
  rewrite Z.add_0_l, date_of_day_number by done. destruct Hv as [Hy _].
  rewrite (proj2 (Z.leb_le 1 y)), (proj2 (Z.leb_le y 9999)) by lia. cbn [andb negb].
  rewrite Z.mod_add, (Z.mod_small (h * 3600 + mi * 60 + s)) by lia. do 2 f_equal.
  - Z.to_euclidean_division_equations. lia.
  - replace (h * 3600 + mi * 60 + s + day_number y m d * 86400)
      with (mi * 60 + s + (h + day_number y m d * 24) * 3600) by lia.
    rewrite Z.mod_add, Z.mod_small by lia. Z.to_euclidean_division_equations. lia.
Qed.

Lemma date_roundtrip_witness :
  exists t, midnight 2000 2 29 = Ok t
    /\ civil (t + 23 * 3600 + 59 * 60 + 58 - -3600) (-3600) = Ok (mk_civil 2000 2 29 23 59 (-3600)).
Proof.
  exists 951782400. assert (midnight 2000 2 29 = Ok 951782400) as H by (vm_compute; reflexivity).
  split; [exact H|]. apply (date_roundtrip 2000 2 29 951782400 23 59 58 (-3600)); [lia|exact H|lia..].
Defined.
