(* ===== verification/Supervisor.v ===== *)
(** * Supervisor: the lives of an app process

    Models [crates/runtime/src/supervisor.rs]: the state machine that starts an app, waits
    for its handshake, notices its end and plans the next start.  Every life has a
    generation, so that a late report of an earlier one changes nothing. *)

From Stdlib Require Import ZArith Lia Sorting.Sorted.
From S2P Require Import Prelude Errors.

Local Open Scope Z_scope.

Inductive Mode : Type := Spawned | Attached.
Inductive State : Type := Stopped | Waiting | Starting | Running | Crashed.

#[export] Instance Mode_eq_dec : EqDecision Mode.
Proof. solve_decision. Defined.
#[export] Instance State_eq_dec : EqDecision State.
Proof. solve_decision. Defined.

Record Supervisor : Type := mk_supervisor {
  mode : Mode; state : State; generation : Z; retries : Z; retry_at : Z
}.

Definition Supervisor_new (m : Mode) : Supervisor := mk_supervisor m Stopped 0 0 0.

(** [matches!(self.state, State::Starting | State::Running)] *)
Definition alive (s : Supervisor) : bool :=
  match state s with Starting | Running => true | _ => false end.

Definition start (s : Supervisor) : Result (Z * Supervisor) :=
  if alive s then Err (Conflict "app is already running")
  else
    g ← ok_or (checked_add (generation s) 1) Full;
    Ok (g, mk_supervisor (mode s) Starting g (retries s) (retry_at s)).

Definition ready (s : Supervisor) (g : Z) : Result Supervisor :=
  if negb (g =? generation s) || negb (bool_decide (state s = Starting)) then Err Changed
  else Ok (mk_supervisor (mode s) Running (generation s) 0 (retry_at s)).

(** [1000_u64.checked_shl(n)] of a 64-bit number: [None] from 64 on. *)
Definition checked_shl (x n : Z) : option Z :=
  if n <? 64 then Some (Z.land (Z.shiftl x n) U64_MAX) else None.

Definition backoff (retries : Z) : Z := Z.min (default 30000 (checked_shl 1000 (Z.min retries 5))) 30000.

(** [u32::saturating_add(1)] *)
Definition saturating_succ_u32 (n : Z) : Z := Z.min U32_MAX (n + 1).

Definition exited (s : Supervisor) (g now : Z) : bool * Supervisor :=
  if negb (g =? generation s) || negb (alive s) then (false, s)
  else
    (true,
     match mode s with
     | Attached => mk_supervisor (mode s) Waiting (generation s) (retries s) (retry_at s)
     | Spawned =>
         mk_supervisor (mode s) Crashed (generation s) (saturating_succ_u32 (retries s))
           (saturating_add now (backoff (retries s)))
     end).

Definition retry_due (s : Supervisor) (now : Z) : bool :=
  bool_decide (mode s = Spawned) && bool_decide (state s = Crashed) && (retry_at s <=? now).

Definition stop (s : Supervisor) : Supervisor :=
  mk_supervisor (mode s) Stopped (generation s) (retries s) 0.

(** ** Runs *)

Inductive event : Type :=
| EStart
| EReady (g : Z)
| EExited (g now : Z)
| EStop.

(** One call, with the generation it started and the generation whose end it accepted. *)
Definition react (s : Supervisor) (e : event) : Supervisor * option Z * option Z :=
  match e with
  | EStart => match start s with Ok (g, s') => (s', Some g, None) | Err _ => (s, None, None) end
  | EReady g => match ready s g with Ok s' => (s', None, None) | Err _ => (s, None, None) end
  | EExited g now => let '(b, s') := exited s g now in (s', None, if b then Some g else None)
  | EStop => (stop s, None, None)
  end.

Definition opt_list {A} (o : option A) : list A := match o with Some a => [a] | None => [] end.

(** The supervisor after a run, the generations started and those that ended, in order. *)
Fixpoint react_all (s : Supervisor) (es : list event) : Supervisor * list Z * list Z :=
  match es with
  | [] => (s, [], [])
  | e :: es =>
      let '(s', g, x) := react s e in
      let '(s'', gs, xs) := react_all s' es in
      (s'', opt_list g ++ gs, opt_list x ++ xs)
  end.

(** What holds between calls: the numbers stay in their machine ranges, an attached app is
    never restarted by us, and a planned restart lies in the past of no one: it is at most
    thirty seconds after the exit that planned it. *)
Record supervisor_ok (s : Supervisor) : Prop := {
  ok_generation : is_u64 (generation s);
  ok_retries : is_u32 (retries s);
  ok_attached : mode s = Attached -> state s <> Crashed;
  ok_crashed : state s = Crashed -> 1 <= retries s;
  ok_life : state s <> Stopped -> 1 <= generation s
}.

(** ** Lemmas *)

Lemma backoff_table n : 0 <= n ->
  backoff n = if n =? 0 then 1000 else if n =? 1 then 2000 else if n =? 2 then 4000
              else if n =? 3 then 8000 else if n =? 4 then 16000 else 30000.
Proof.
  intros Hn. unfold backoff. destruct (Z.le_gt_cases 5 n).
  - rewrite (Z.min_r n 5) by lia. repeat case_match; bool_prop; try lia; reflexivity.
  - rewrite (Z.min_l n 5) by lia.
    assert (n = 0 \/ n = 1 \/ n = 2 \/ n = 3 \/ n = 4) as [->|[->|[->|[->| ->]]]] by lia; reflexivity.
Qed.

Lemma start_Ok s g s' :
  start s = Ok (g, s') ->
  alive s = false /\ g = generation s + 1 /\ g <= U64_MAX /\
  s' = mk_supervisor (mode s) Starting g (retries s) (retry_at s).
Proof.
  unfold start. destruct (alive s); [done|]. destruct (checked_add _ _) as [g0|] eqn:E; [cbn|done].
  apply checked_add_Some in E as [-> H]. intros [= <- <-]. done.
Qed.

Lemma react_ok s e s' g x : supervisor_ok s -> react s e = (s', g, x) -> supervisor_ok s'.
Proof.
  intros [Hg Hr Ha Hc Hl]. destruct e as [|g0|g0 now|]; cbn.
  - destruct (start s) as [[g1 s1]|] eqn:E; intros [= <- <- <-]; [|by constructor].
    apply start_Ok in E as (_ & -> & Hm & ->). unfold is_u64 in *.
    constructor; cbn; unfold is_u64; try done; lia.
  - destruct (ready s g0) as [s1|] eqn:E; intros [= <- <- <-]; [|by constructor].
    unfold ready in E. destruct (_ || _) eqn:B; [done|]. bool_prop. injection E as <-.
    apply bool_decide_eq_true in H0. constructor; cbn; try done.
    intros _. apply Hl. by rewrite H0.
  - destruct (exited s g0 now) as [b s1] eqn:E. intros [= <- <- <-]. revert E. unfold exited.
    destruct (_ || _) eqn:B; intros [= <- <-]; [by constructor|]. bool_prop.
    assert (1 <= generation s) as H1 by (apply Hl; intros E; unfold alive in *; by rewrite E in *).
    unfold is_u32, U32_MAX in *.
    destruct (mode s) eqn:Em; constructor; cbn; try done; unfold is_u32, saturating_succ_u32, U32_MAX;
      lia.
  - intros [= <- <- <-]. by constructor.
Qed.

Lemma Supervisor_new_ok m : supervisor_ok (Supervisor_new m).
Proof. constructor; cbn; try done; unfold is_u64, is_u32, U64_MAX, U32_MAX; lia. Qed.

(** What one call does to the generation and to the life that is going on. *)
Lemma react_life s e s' g x :
  react s e = (s', g, x) ->
  mode s' = mode s /\
  match g, x with
  | Some g, None => g = generation s + 1 /\ generation s' = g /\ alive s = false /\ alive s' = true
  | None, Some x => x = generation s /\ generation s' = x /\ alive s = true /\ alive s' = false
  | None, None => generation s' = generation s /\ (alive s' = true -> alive s = true)
  | Some _, Some _ => False
  end.
Proof.
  destruct e as [|g0|g0 now|]; cbn.
  - destruct (start s) as [[g1 s1]|] eqn:E; intros [= <- <- <-]; [|done].
    apply start_Ok in E as (Ha & -> & _ & ->). done.
  - destruct (ready s g0) as [s1|] eqn:E; intros [= <- <- <-]; [|done].
    unfold ready in E. destruct (_ || _) eqn:B; [done|]. bool_prop. injection E as <-.
    apply bool_decide_eq_true in H0. split; [done|]. split; [done|]. intros _.
    unfold alive. by rewrite H0.
  - unfold exited. destruct (_ || _) eqn:B; intros [= <- <- <-]; [done|]. bool_prop.
    destruct (mode s) eqn:Em; cbn; auto.
  - by intros [= <- <- <-].
Qed.

(** The generations in a run from [s]: starts are consecutive, and every end belongs to the
    life that was going on or to one started later, at most one end per life. *)
Lemma react_all_spec es : forall s s' gs xs,
  react_all s es = (s', gs, xs) ->
  mode s' = mode s
  /\ gs = seqZ (generation s + 1) (Z.of_nat (length gs))
  /\ generation s' = generation s + Z.of_nat (length gs)
  /\ StronglySorted Z.lt xs
  /\ Forall (fun x => generation s + (if alive s then 0 else 1) <= x <= generation s') xs
  /\ (alive s' = true -> generation s' ∉ xs /\ (alive s = false -> generation s < generation s')).
Proof.
  induction es as [|e es IH]; intros s s' gs xs; cbn [react_all].
  - intros [= <- <- <-]. cbn [length]. split_and!; try done; [lia|constructor|].
    intros Ha. split; [by apply not_elem_of_nil|congruence].
  - destruct (react s e) as [[s1 g] x] eqn:E. destruct (react_all s1 es) as [[s2 gs1] xs1] eqn:E1.
    intros [= <- <- <-]. destruct (IH _ _ _ _ E1) as (Hm & Hgs & Hg & Hxs & HF & Hal).
    apply react_life in E as [Hm1 HL].
    destruct g as [g|], x as [x|]; cbn [opt_list app length]; [done| | |].
    + destruct HL as (-> & Hg1 & Ha & Ha1). rewrite Ha1, Hg1 in *. rewrite Ha.
      split_and!; [congruence| |lia|done| |].
      * rewrite Nat2Z.inj_succ. rewrite seqZ_cons by lia.
        rewrite Z.pred_succ. f_equal. exact Hgs.
      * eapply Forall_impl; [exact HF|]. cbn. lia.
      * intros H. destruct (Hal H) as [Hn _]. split; [done|lia].
    + destruct HL as (-> & Hg1 & Ha & Ha1). rewrite Ha1, Hg1 in *. rewrite Ha.
      split_and!; [congruence|done|done| | |].
      * constructor; [done|]. eapply Forall_impl; [exact HF|]. cbn. lia.
      * constructor; [lia|]. eapply Forall_impl; [exact HF|]. cbn. lia.
      * intros H. destruct (Hal H) as [Hn Hlt]. split; [|done].
        apply not_elem_of_cons. split; [specialize (Hlt eq_refl); lia|done].
    + destruct HL as (Hg1 & Ha). rewrite Hg1 in *. split_and!; [congruence|done|done|done| |].
      * eapply Forall_impl; [exact HF|]. cbn. intros y Hy.
        destruct (alive s) eqn:Es; [destruct (alive s1); lia|].
        destruct (alive s1); [by specialize (Ha eq_refl)|lia].
      * intros H. destruct (Hal H) as [Hn Hlt]. split; [done|]. intros Hs. apply Hlt.
        destruct (alive s1); [|done]. rewrite Ha in Hs; done.
Qed.

Lemma react_all_ok es : forall s s' gs xs,
  supervisor_ok s -> react_all s es = (s', gs, xs) -> supervisor_ok s'.
Proof.
  induction es as [|e es IH]; intros s s' gs xs Hs; cbn [react_all].
  - by intros [= <- <- <-].
  - destruct (react s e) as [[s1 g] x] eqn:E. destruct (react_all s1 es) as [[s2 gs1] xs1] eqn:E1.
    intros [= <- <- <-]. eapply IH; [|exact E1]. by eapply react_ok.
Qed.

(** ** Properties *)

(** In every run of a supervisor each start opens a new generation, numbered without
    gaps; every life ends at most once, in the order in which the lives began, and only by
    the report that names it: duplicate and late reports are ignored, and the life going on
    has not ended.  An attached app never waits for a restart of ours, and all numbers
    stay within their machine widths. *)
Theorem each_life_ends_once m es s gs xs :
  react_all (Supervisor_new m) es = (s, gs, xs) ->
  gs = seqZ 1 (Z.of_nat (length gs)) /\ StronglySorted Z.lt xs /\ xs ⊆ gs
  /\ (alive s = true -> generation s ∉ xs)
  /\ (m = Attached -> state s <> Crashed /\ forall now, retry_due s now = false)
  /\ is_u64 (generation s) /\ is_u32 (retries s).
Proof.
  intros H. pose proof (react_all_ok _ _ _ _ _ (Supervisor_new_ok m) H) as Hok.
  apply react_all_spec in H as (Hm & Hgs & Hg & Hxs & HF & Hal). cbn in *.
  split_and!; try done; try apply Hok.
  - intros x Hx. rewrite Forall_forall in HF. specialize (HF x Hx). rewrite Hgs.
    apply elem_of_seqZ. lia.
  - intros H. by apply Hal.
  - intros ->. destruct Hok as [_ _ Ha _ _]. specialize (Ha Hm). split; [done|].
    intros now. unfold retry_due. rewrite Hm. done.
Qed.

Lemma each_life_ends_once_witness :
  exists s, react_all (Supervisor_new Spawned)
      [EStart; EReady 1; EExited 1 50; EExited 1 51; EStart; EExited 1 52; EExited 2 60]
    = (s, [1; 2], [1; 2]) /\ StronglySorted Z.lt [1; 2]
    /\ is_u64 (generation s) /\ is_u32 (retries s).
Proof.
  exists (mk_supervisor Spawned Crashed 2 2 2060).
  assert (react_all (Supervisor_new Spawned)
      [EStart; EReady 1; EExited 1 50; EExited 1 51; EStart; EExited 1 52; EExited 2 60]
    = (mk_supervisor Spawned Crashed 2 2 2060, [1; 2], [1; 2])) as H by (vm_compute; reflexivity).
  split; [exact H|].
  destruct (each_life_ends_once _ _ _ _ _ H) as (_ & H1 & _ & _ & _ & H2 & H3).
  split; [exact H1|]. split; [exact H2|exact H3].
Defined.

(** A crashed app is started again after a delay that doubles from one second with every
    failed start and never exceeds thirty seconds; the restart falls due exactly when that
    time has come, and stopping the app cancels it. *)
Theorem restart_is_bounded s g now s' :
  supervisor_ok s -> 0 <= now -> now + 30000 <= U64_MAX ->
  mode s = Spawned -> exited s g now = (true, s') ->
  1000 <= backoff (retries s) <= 30000
  /\ (retries s < 5 -> backoff (retries s) = 1000 * 2 ^ retries s)
  /\ retry_at s' = now + backoff (retries s)
  /\ (forall t, retry_due s' t = true <-> now + backoff (retries s) <= t)
  /\ (forall t, retry_due (stop s') t = false)
  /\ is_ok (start s') = (generation s' <? U64_MAX).
Proof.
  intros Hs Hnow Hmax Hm. unfold exited. destruct (_ || _) eqn:B; [done|]. rewrite Hm.
  intros [= <-]. bool_prop. assert (0 <= retries s) as Hr by (destruct Hs as [_ [? _] _ _ _]; done).
  pose proof (backoff_table (retries s) Hr) as HB.
  assert (1000 <= backoff (retries s) <= 30000) as Hb by (rewrite HB; repeat case_match; lia).
  assert (saturating_add now (backoff (retries s)) = now + backoff (retries s)) as Ha
    by (unfold saturating_add; lia).
  split_and!; try lia.
  - intros Hlt. rewrite HB.
    assert (retries s = 0 \/ retries s = 1 \/ retries s = 2 \/ retries s = 3 \/ retries s = 4)
      as [->|[->|[->|[->| ->]]]] by lia; reflexivity.
  - exact Ha.
  - intros t. unfold retry_due. cbn. rewrite Ha. apply Z.leb_le.
  - intros t. done.
  - unfold start, checked_add. cbn. destruct (Z.leb_spec (generation s + 1) U64_MAX),
      (Z.ltb_spec (generation s) U64_MAX); try lia; done.
Qed.

Lemma restart_is_bounded_witness :
  exists s', exited (mk_supervisor Spawned Running 4 3 0) 4 1000 = (true, s')
    /\ retry_at s' = 1000 + backoff 3 /\ retry_due s' 9000 = true /\ backoff 3 = 1000 * 2 ^ 3.
Proof.
  exists (mk_supervisor Spawned Crashed 4 4 9000).
  assert (exited (mk_supervisor Spawned Running 4 3 0) 4 1000
    = (true, mk_supervisor Spawned Crashed 4 4 9000)) as H by (vm_compute; reflexivity).
  assert (supervisor_ok (mk_supervisor Spawned Running 4 3 0)) as Hok
    by (constructor; cbn; try done; unfold is_u64, is_u32, U64_MAX, U32_MAX; lia).
  destruct (restart_is_bounded _ 4 1000 _ Hok ltac:(lia) ltac:(unfold U64_MAX; lia) eq_refl H)
    as (_ & H1 & H2 & H3 & _).
  split; [exact H|]. split; [exact H2|]. split; [apply H3; vm_compute; discriminate|].
  apply H1. vm_compute. reflexivity.
Defined.
