(* ===== verification/Flow.v ===== *)
(** * Flow: bounded Flow graphs and their execution ([crates/core/src/flow.rs])

    A Flow is a JSON object with [nodes] (cards) and [edges]; [validate] accepts exactly the
    directed acyclic graphs with unique cards and no edge into a trigger, [runnable] says
    whether a trigger reaches an action, and [Execution] delivers cards one at a time, each
    at most once.  Fixed arrays of [MAX_NODES] entries are lists of that length; an index
    outside them is the error [Full], as in the code. *)

From Stdlib Require Import ZArith Lia Ascii String.
From S2P Require Import Prelude Text Errors Float Value.

Local Open Scope Z_scope.

Definition MAX_NODES : nat := 128.
Definition MAX_EDGES : nat := 256.

(** ** Cards and edges *)

Definition card_kind (card_type : string) : string :=
  if (card_type =? "trigger")%string || (card_type =? "device-trigger")%string then "trigger"
  else if (card_type =? "condition")%string then "condition"
  else if (card_type =? "action")%string then "action"
  else "".

Definition kind (node : Value) : string :=
  card_kind (match get node "step" with Some s => text s "cardType" | None => "" end).

(** [iter().position(p)] *)
Fixpoint position {A} (p : A -> bool) (l : list A) : option nat :=
  match l with
  | [] => None
  | x :: l => if p x then Some O else S <$> position p l
  end.

Definition has_id (id : string) (n : Value) : bool := (text n "id" =? id)%string.

Definition node_index (nodes : list Value) (id : string) : Result nat :=
  ok_or (position (has_id id) nodes) (Missing "connection references a missing card").

(** [x] and [y] of a card: finite and at most a million away. *)
Definition valid_position (node : Value) (key : string) : bool :=
  match get node key with
  | None => true
  | Some (VNumber n) =>
      let f := as_f64 n in is_finite f && f_leb (f_abs f) (f64_of_Z 1000000)
  | Some _ => false
  end.

Definition validate_node (node : Value) : Result unit :=
  if is_empty (trim (text node "id")) then Err (Invalid "flow card id is required")
  else if is_empty (kind node) then Err (Invalid "flow card type is invalid")
  else
    step ← ok_or (get node "step") (Missing "flow step is required");
    if is_empty (text step "appId") || is_empty (text step "cardId")
    then Err (Invalid "flow appId and cardId are required")
    else if negb (valid_position node "x") then Err (Invalid "invalid card position")
    else if negb (valid_position node "y") then Err (Invalid "invalid card position")
    else Ok tt.

(** [for (i, node) in nodes.iter().enumerate()] of [validate]; [before] is
    [nodes.iter().take(i)]. *)
Fixpoint validate_nodes (before nodes : list Value) : Result unit :=
  match nodes with
  | [] => Ok tt
  | node :: nodes =>
      _ ← validate_node node;
      if existsb (has_id (text node "id")) before
      then Err (Conflict "duplicate flow card id")
      else validate_nodes (before ++ [node]) nodes
  end.

Definition same_edge (a b : Value) : bool :=
  (text a "from" =? text b "from")%string && (text a "to" =? text b "to")%string.

(** The loop over the edges: checks each and counts the incoming ones. *)
Fixpoint validate_edges (nodes before edges : list Value) (incoming : list Z)
  : Result (list Z) :=
  match edges with
  | [] => Ok incoming
  | edge :: edges =>
      from ← node_index nodes (text edge "from");
      to ← node_index nodes (text edge "to");
      if (from =? to)%nat then Err (Invalid "card cannot connect to itself")
      else if match nodes !! to with Some n => (kind n =? "trigger")%string | None => false end
      then Err (Invalid "trigger cannot have incoming connections")
      else if existsb (same_edge edge) before
      then Err (Conflict "duplicate flow connection")
      else
        degree ← ok_or (incoming !! to) Full;
        validate_edges nodes (before ++ [edge]) edges (<[to := degree + 1]> incoming)
  end.

(** [for edge in edges.iter().filter(from == id)]: one incoming edge less for each. *)
Fixpoint release (nodes edges : list Value) (id : string) (incoming : list Z)
  : Result (list Z) :=
  match edges with
  | [] => Ok incoming
  | edge :: edges =>
      if (text edge "from" =? id)%string then
        to ← node_index nodes (text edge "to");
        degree ← ok_or (incoming !! to) Full;
        if degree =? 0 then Err (Invalid "invalid graph degree")
        else release nodes edges id (<[to := degree - 1]> incoming)
      else release nodes edges id incoming
  end.

(** A card whose predecessors all have been taken and that itself has not. *)
Definition is_free (incoming : list Z) (seen : list bool) (i : nat) : bool :=
  match incoming !! i, seen !! i with
  | Some d, Some s => (d =? 0) && negb s
  | _, _ => false
  end.

(** [for _ in 0..rounds]: takes one free card per round. *)
Fixpoint take_free (rounds : nat) (nodes edges : list Value) (incoming : list Z)
    (seen : list bool) : Result unit :=
  match rounds with
  | O => Ok tt
  | S rounds =>
      index ← ok_or (find (is_free incoming seen) (seq 0 (length nodes)))
                (Invalid "flow connections may not contain a cycle");
      _ ← ok_or (seen !! index) Full;
      node ← ok_or (nodes !! index) Full;
      incoming' ← release nodes edges (text node "id") incoming;
      take_free rounds nodes edges incoming' (<[index := true]> seen)
  end.

Definition validate (flow : Value) : Result unit :=
  let name := trim (text flow "name") in
  if is_empty name || (160 <? len name)
  then Err (Invalid "flow name is required, at most 160 bytes") else
  let nodes := array flow "nodes" in
  let edges := array flow "edges" in
  if (MAX_NODES <? length nodes)%nat || (MAX_EDGES <? length edges)%nat then Err Full else
  _ ← validate_nodes [] nodes;
  incoming ← validate_edges nodes [] edges (repeat 0 MAX_NODES);
  take_free (length nodes) nodes edges incoming (repeat false MAX_NODES).

(** ** Runnable *)

Definition is_kind (k : string) (n : Value) : bool := (kind n =? k)%string.

(** One pass over the edges, marking what they reach. *)
Fixpoint relax (nodes edges : list Value) (reachable : list bool) : list bool :=
  match edges with
  | [] => reachable
  | edge :: edges =>
      let reachable' :=
        match node_index nodes (text edge "from"), node_index nodes (text edge "to") with
        | Ok from, Ok to =>
            match reachable !! from with
            | Some true => <[to := true]> reachable
            | _ => reachable
            end
        | _, _ => reachable
        end in
      relax nodes edges reachable'
  end.

Fixpoint relax_rounds (n : nat) (nodes edges : list Value) (reachable : list bool) : list bool :=
  match n with
  | O => reachable
  | S n => relax_rounds n nodes edges (relax nodes edges reachable)
  end.

(** [reachable] marks the triggers first. *)
Definition start_marks (nodes : list Value) : list bool :=
  map (is_kind "trigger") nodes ++ repeat false (MAX_NODES - length nodes).

Definition runnable (flow : Value) : bool * string :=
  let nodes := array flow "nodes" in
  if (MAX_NODES <? length nodes)%nat then (false, "too many cards")
  else if negb (existsb (is_kind "trigger") nodes) then (false, "add an ALS/trigger card")
  else if negb (existsb (is_kind "action") nodes) then (false, "add a DAN/action card")
  else
    let reachable := relax_rounds (length nodes) nodes (array flow "edges") (start_marks nodes) in
    if existsb (fun i => match nodes !! i, reachable !! i with
                         | Some n, Some r => is_kind "action" n && r
                         | _, _ => false end) (seq 0 (length nodes))
    then (true, "")
    else (false, "connect the ALS/trigger card to a DAN/action card").

(** ** Execution *)

Record Execution := mk_exec {
  pending : list nat;
  ex_head : nat;
  ex_tail : nat;
  visited : list bool;
  waiting : option nat
}.

Definition exec_new : Execution :=
  mk_exec (repeat 0%nat MAX_NODES) 0 0 (repeat false MAX_NODES) None.

(** Whether a completed card lets its successors start. *)
Definition blocks (node : Value) (passed : bool) : bool :=
  let inverted := match get node "step" with Some s => boolean s "inverted" | None => false end in
  (kind node =? "condition")%string && Bool.eqb passed inverted.

(** The successor loop of [complete]. *)
Fixpoint enqueue (nodes edges : list Value) (id : string) (e : Execution)
  : Result unit * Execution :=
  match edges with
  | [] => (Ok tt, e)
  | edge :: edges =>
      if (text edge "from" =? id)%string then
        match node_index nodes (text edge "to") with
        | Err er => (Err er, e)
        | Ok to =>
            match visited e !! to with
            | Some false =>
                if (ex_tail e <? length (pending e))%nat then
                  enqueue nodes edges id
                    (mk_exec (<[ex_tail e := to]> (pending e)) (ex_head e) (S (ex_tail e))
                       (<[to := true]> (visited e)) (waiting e))
                else (Err Full, e)
            | _ => enqueue nodes edges id e
            end
        end
      else enqueue nodes edges id e
  end.

(** [self.waiting.take()] and marking the card visited *)
Definition finish (e : Execution) : Result nat * Execution :=
  match waiting e with
  | None => (Err (Conflict "no flow callback pending"), e)
  | Some index =>
      let e1 := mk_exec (pending e) (ex_head e) (ex_tail e) (visited e) None in
      if (index <? length (visited e))%nat
      then (Ok index, mk_exec (pending e) (ex_head e) (ex_tail e)
                        (<[index := true]> (visited e)) None)
      else (Err Full, e1)
  end.

Definition skip (e : Execution) : Result unit * Execution :=
  let (r, e1) := finish e in (_ ← r; Ok tt, e1).

Definition complete (flow : Value) (passed : bool) (e : Execution) : Result unit * Execution :=
  match finish e with
  | (Err er, e1) => (Err er, e1)
  | (Ok index, e1) =>
      let nodes := array flow "nodes" in
      match nodes !! index with
      | None => (Err Changed, e1)
      | Some node =>
          if blocks node passed then (Ok tt, e1)
          else enqueue nodes (array flow "edges") (text node "id") e1
      end
  end.

(** Delivers one card; the previous one has to be completed first. *)
Definition next (flow : Value) (e : Execution) : Result (option Value) * Execution :=
  match waiting e with
  | Some _ => (Err (Conflict "flow callback is still pending"), e)
  | None =>
      if (ex_head e =? ex_tail e)%nat then (Ok None, e) else
      match pending e !! ex_head e with
      | None => (Err Full, e)
      | Some index =>
          let e1 := mk_exec (pending e) (S (ex_head e)) (ex_tail e) (visited e) (Some index) in
          match array flow "nodes" !! index with
          | None => (Err Changed, e1)
          | Some node => (Ok (Some node), e1)
          end
      end
  end.

Fixpoint start_triggers (flow : Value) (ids : list string) (e : Execution) : Result Execution :=
  match ids with
  | [] => Ok e
  | id :: ids =>
      let nodes := array flow "nodes" in
      index ← node_index nodes id;
      if negb (match nodes !! index with Some n => is_kind "trigger" n | None => false end)
      then Err (Invalid "flow must start at a trigger")
      else if match visited e !! index with Some true => true | _ => false end
      then start_triggers flow ids e
      else
        let '(r, e1) := complete flow true
          (mk_exec (pending e) (ex_head e) (ex_tail e) (visited e) (Some index)) in
        _ ← r;
        start_triggers flow ids e1
  end.

Definition start_many (flow : Value) (ids : list string) : Result Execution :=
  _ ← validate flow; start_triggers flow ids exec_new.

Definition start (flow : Value) (id : string) : Result Execution := start_many flow [id].
