(* ===== verification/FlowGraph.v ===== *)
(** * FlowGraph: what [validate] and [runnable] of [crates/core/src/flow.rs] decide

    A Flow's edges are resolved to arcs between card indices.  [validate] accepts exactly
    the well-formed acyclic graphs ([graph_ok]); [runnable] decides whether some trigger
    reaches some action. *)

From Stdlib Require Import ZArith Lia Ascii String.
From S2P Require Import Prelude Text Errors Float Value Flow.
From stdpp Require Import relations.

Local Open Scope nat_scope.

(** ** Arcs *)

Definition resolve (nodes : list Value) (e : Value) : option (nat * nat) :=
  i ← position (has_id (text e "from")) nodes;
  j ← position (has_id (text e "to")) nodes;
  Some (i, j).

Definition arcs (nodes edges : list Value) : list (nat * nat) := omap (resolve nodes) edges.

Definition arc (nodes edges : list Value) (i j : nat) : Prop := (i, j) ∈ arcs nodes edges.

Definition ends (e : Value) : string * string := (text e "from", text e "to").

Definition is_trigger (nodes : list Value) (i : nat) : Prop :=
  exists n, nodes !! i = Some n /\ kind n = "trigger".

Definition is_action (nodes : list Value) (i : nat) : Prop :=
  exists n, nodes !! i = Some n /\ kind n = "action".

Definition edge_ok (nodes : list Value) (e : Value) : Prop :=
  exists i j, resolve nodes e = Some (i, j) /\ i <> j /\ ~ is_trigger nodes j.

(** The graphs a Flow may have. *)
Record graph_ok (flow : Value) : Prop := {
  go_name : trim (text flow "name") <> EmptyString /\ (len (trim (text flow "name")) <= 160)%Z;
  go_nodes : length (array flow "nodes") <= MAX_NODES;
  go_edges : length (array flow "edges") <= MAX_EDGES;
  go_cards : Forall (fun n => validate_node n = Ok tt) (array flow "nodes");
  go_ids : NoDup (map (fun n => text n "id") (array flow "nodes"));
  go_ends : Forall (edge_ok (array flow "nodes")) (array flow "edges");
  go_distinct : NoDup (map ends (array flow "edges"));
  go_acyclic : forall i, ~ tc (arc (array flow "nodes") (array flow "edges")) i i
}.

(** ** [position] *)

Lemma position_Some {A} (p : A -> bool) l i :
  position p l = Some i -> exists x, l !! i = Some x /\ p x = true.
Proof.
  revert i. induction l as [|x l IH]; intros i Hp; simpl in Hp; [done|].
  destruct (p x) eqn:Ex; [injection Hp as <-; by exists x|].
  destruct (position p l) as [k|] eqn:Ek; simpl in Hp; [|done].
  injection Hp as <-. by apply IH.
Qed.

Lemma position_lt {A} (p : A -> bool) l i : position p l = Some i -> i < length l.
Proof. intros (x & Hx & _)%position_Some. by eapply lookup_lt_Some. Qed.

Lemma position_is_Some {A} (p : A -> bool) l x :
  x ∈ l -> p x = true -> is_Some (position p l).
Proof.
  induction 1 as [y l|y z l _ IH]; intros Hp; simpl.
  - rewrite Hp. by eexists.
  - destruct (p z); [by eexists|]. destruct IH as [k Hk]; [done|]. rewrite Hk. by eexists.
Qed.

Lemma has_id_true id n : has_id id n = true <-> text n "id" = id.
Proof. unfold has_id. apply String.eqb_eq. Qed.

(** With unique ids, the id of the card at [i] resolves to [i]. *)
Lemma position_id nodes i n :
  NoDup (map (fun n => text n "id") nodes) -> nodes !! i = Some n ->
  position (has_id (text n "id")) nodes = Some i.
Proof.
  intros Hnd Hi.
  destruct (position_is_Some (has_id (text n "id")) nodes n) as [k Hk].
  { by eapply list_elem_of_lookup_2. }
  { by apply has_id_true. }
  rewrite Hk. f_equal. apply position_Some in Hk as (m & Hm & Hid%has_id_true).
  eapply NoDup_lookup; [exact Hnd| |].
  - rewrite list_lookup_fmap, Hm. cbn. by rewrite Hid.
  - by rewrite list_lookup_fmap, Hi.
Qed.

Lemma node_index_Ok nodes id i :
  node_index nodes id = Ok i <-> position (has_id id) nodes = Some i.
Proof. unfold node_index, ok_or. destruct (position _ _); split; congruence. Qed.

Lemma resolve_Some nodes e i j :
  resolve nodes e = Some (i, j) <->
  node_index nodes (text e "from") = Ok i /\ node_index nodes (text e "to") = Ok j.
Proof.
  rewrite !node_index_Ok. unfold resolve.
  destruct (position (has_id (text e "from")) nodes) as [a|];
    destruct (position (has_id (text e "to")) nodes) as [b|]; cbn; intuition congruence.
Qed.

Lemma resolve_lt nodes e i j :
  resolve nodes e = Some (i, j) -> i < length nodes /\ j < length nodes.
Proof. rewrite resolve_Some, !node_index_Ok. intros [?%position_lt ?%position_lt]. done. Qed.

Lemma arc_lt nodes edges i j : arc nodes edges i j -> i < length nodes /\ j < length nodes.
Proof.
  intros (e & He & Hr)%list_elem_of_omap. by eapply resolve_lt.
Qed.

Lemma arcs_cons nodes e edges :
  arcs nodes (e :: edges) =
  match resolve nodes e with Some p => p :: arcs nodes edges | None => arcs nodes edges end.
Proof. done. Qed.

(** The source of an edge is the card at [k] exactly if the edge carries its id. *)
Lemma resolve_from nodes e i j k n :
  NoDup (map (fun n => text n "id") nodes) -> nodes !! k = Some n ->
  resolve nodes e = Some (i, j) ->
  (text e "from" =? text n "id")%string = bool_decide (i = k).
Proof.
  intros Hnd Hk [Hi _]%resolve_Some. rewrite node_index_Ok in Hi.
  destruct (String.eqb_spec (text e "from") (text n "id")) as [Heq|Hne]; symmetry.
  - apply bool_decide_eq_true. rewrite Heq, (position_id nodes k n) in Hi by done. congruence.
  - apply bool_decide_eq_false. intros ->. apply position_Some in Hi as (m & Hm & Hid%has_id_true).
    congruence.
Qed.

(** ** The checks on cards and edges *)

Lemma existsb_has_id id l :
  existsb (has_id id) l = true <-> id ∈ map (fun n => text n "id") l.
Proof.
  rewrite existsb_exists, list_elem_of_fmap. setoid_rewrite has_id_true.
  setoid_rewrite list_elem_of_In. naive_solver.
Qed.

Lemma NoDup_snoc {A} (l : list A) x : NoDup l -> x ∉ l -> NoDup (l ++ [x]).
Proof.
  intros Hl Hx. apply NoDup_app. split; [done|]. split; [|by apply NoDup_singleton].
  intros y Hy ->%list_elem_of_singleton. done.
Qed.

Lemma NoDup_mid_notin {A} (l1 l2 : list A) x : NoDup (l1 ++ x :: l2) -> x ∉ l1.
Proof.
  intros (_ & Hd & _)%NoDup_app Hx. apply (Hd x Hx). by left.
Qed.

Lemma validate_nodes_Ok before nodes :
  NoDup (map (fun n => text n "id") before) ->
  validate_nodes before nodes = Ok tt <->
  Forall (fun n => validate_node n = Ok tt) nodes /\
  NoDup (map (fun n => text n "id") (before ++ nodes)).
Proof.
  revert before. induction nodes as [|n nodes IH]; intros before Hb; cbn [validate_nodes].
  { rewrite app_nil_r. split; [|done]. split; [constructor|done]. }
  rewrite Forall_cons. destruct (validate_node n) as [[]|] eqn:En; cbn [mbind result_bind];
    [|intuition congruence].
  destruct (existsb (has_id (text n "id")) before) eqn:Ex.
  - split; [done|]. intros [_ Hnd]. exfalso. apply existsb_has_id in Ex.
    rewrite map_app in Hnd. by apply NoDup_mid_notin in Hnd.
  - assert (Hn : text n "id" ∉ map (fun n => text n "id") before).
    { rewrite <-existsb_has_id. congruence. }
    rewrite IH.
    + rewrite <-app_assoc. naive_solver.
    + rewrite map_app. by apply NoDup_snoc.
Qed.

Lemma same_edge_ends a b : same_edge a b = true <-> ends a = ends b.
Proof.
  unfold same_edge, ends. rewrite andb_true_iff, !String.eqb_eq. intuition congruence.
Qed.

Lemma existsb_same_edge e l : existsb (same_edge e) l = true <-> ends e ∈ map ends l.
Proof.
  rewrite existsb_exists, list_elem_of_fmap. setoid_rewrite same_edge_ends.
  setoid_rewrite list_elem_of_In. split; intros (x & H1 & H2); by exists x.
Qed.

(** Arcs into [i] whose source is not marked. *)
Definition indeg (al : list (nat * nat)) (seen : nat -> bool) (i : nat) : nat :=
  length (filter (fun p => p.2 = i /\ seen p.1 = false) al).

Lemma indeg_cons al seen i j k :
  indeg ((j, k) :: al) seen i =
  (if bool_decide (k = i) && negb (seen j) then 1 else 0) + indeg al seen i.
Proof.
  unfold indeg. rewrite filter_cons. simpl.
  repeat case_decide; case_bool_decide; destruct (seen j); naive_solver.
Qed.

Lemma edge_trigger_test nodes j :
  match nodes !! j with Some n => (kind n =? "trigger")%string | None => false end = true <->
  is_trigger nodes j.
Proof.
  unfold is_trigger. destruct (nodes !! j) as [n|]; [rewrite String.eqb_eq|]; naive_solver.
Qed.

(** The edge loop succeeds exactly on well-formed distinct edges, and then has counted the
    arcs into every card. *)
Lemma validate_edges_Ok nodes before edges inc :
  length nodes <= length inc -> NoDup (map ends before) ->
  (is_ok (validate_edges nodes before edges inc) = true <->
   Forall (edge_ok nodes) edges /\ NoDup (map ends (before ++ edges))) /\
  (forall inc', validate_edges nodes before edges inc = Ok inc' ->
     length inc' = length inc /\
     forall i d, inc !! i = Some d ->
       inc' !! i = Some (d + Z.of_nat (indeg (arcs nodes edges) (fun _ => false) i))%Z).
Proof.
  revert before inc. induction edges as [|e edges IH]; intros before inc Hlen Hb; cbn [validate_edges].
  { rewrite app_nil_r. split; [naive_solver|]. intros inc' [= <-]. split; [done|].
    intros i d ->. f_equal. unfold indeg. simpl. lia. }
  rewrite Forall_cons. unfold edge_ok at 1. rewrite arcs_cons.
  destruct (resolve nodes e) as [[i j]|] eqn:Er.
  2:{ assert (Hno : forall i j, ~ (node_index nodes (text e "from") = Ok i /\
                                   node_index nodes (text e "to") = Ok j)).
      { intros i j H0. apply resolve_Some in H0. congruence. }
      destruct (node_index nodes (text e "from")) as [i|] eqn:Ei; cbn [mbind result_bind];
        [destruct (node_index nodes (text e "to")) as [j|] eqn:Ej; cbn [mbind result_bind]|];
        [by destruct (Hno i j)| |]; (split; [naive_solver|done]). }
  destruct (resolve_lt _ _ _ _ Er) as [Hi Hj].
  apply resolve_Some in Er as [-> ->]. cbn [mbind result_bind].
  destruct (Nat.eqb_spec i j) as [->|Hij].
  { split; [|done]. split; [done|]. naive_solver. }
  destruct (match nodes !! j with Some n => _ | None => _ end) eqn:Et.
  { rewrite edge_trigger_test in Et. split; [|done]. split; [done|]. naive_solver. }
  assert (Hnt : ~ is_trigger nodes j) by (rewrite <-edge_trigger_test; congruence).
  destruct (existsb (same_edge e) before) eqn:Ex.
  { split; [|done]. split; [done|]. intros [_ Hnd]. exfalso. apply existsb_same_edge in Ex.
    rewrite map_app in Hnd. by apply NoDup_mid_notin in Hnd. }
  assert (Hn : ends e ∉ map ends before) by (rewrite <-existsb_same_edge; congruence).
  destruct (lookup_lt_is_Some_2 inc j) as [dj Hdj]; [lia|]. rewrite Hdj. cbn [mbind result_bind ok_or].
  destruct (IH (before ++ [e]) (<[j := (dj + 1)%Z]> inc)) as [IH1 IH2].
  { by rewrite length_insert. }
  { rewrite map_app. by apply NoDup_snoc. }
  split.
  - rewrite IH1, <-app_assoc. naive_solver.
  - intros inc' Hv. apply IH2 in Hv as [Hl Hd]. rewrite length_insert in Hl. split; [done|].
    intros k d Hk. rewrite indeg_cons. simpl negb. rewrite andb_true_r.
    destruct (decide (j = k)) as [<-|Hjk].
    + rewrite bool_decide_true by done. rewrite (Hd j (dj + 1)%Z) by (apply list_lookup_insert_eq; lia).
      f_equal. replace d with dj by congruence. lia.
    + rewrite bool_decide_false by done. rewrite (Hd k d); [f_equal; simpl; lia|].
      by rewrite list_lookup_insert_ne.
Qed.

(** ** Taking free cards (Kahn's algorithm) *)

(** What [seen: [bool; MAX_NODES]] says of card [i]. *)
Definition marked (seen : list bool) (i : nat) : bool :=
  match seen !! i with Some b => b | None => false end.

Lemma marked_insert seen k i :
  k < length seen -> marked (<[k := true]> seen) i = bool_decide (i = k) || marked seen i.
Proof.
  intros Hk. unfold marked. destruct (decide (i = k)) as [->|Hik].
  - by rewrite list_lookup_insert_eq, bool_decide_true.
  - by rewrite list_lookup_insert_ne, bool_decide_false by congruence.
Qed.

(** Marking [k] removes the arcs out of [k] from every in-degree. *)
Lemma indeg_mark (l : list (nat * nat)) seen k i :
  seen k = false ->
  indeg l seen i =
  indeg l (fun x => bool_decide (x = k) || seen x) i + length (filter (fun p => p = (k, i)) l).
Proof.
  intros Hk. induction l as [|[a b] l IH]; [done|].
  rewrite !indeg_cons, IH, filter_cons.
  repeat case_bool_decide; case_decide; simplify_eq; rewrite ?Hk; cbn;
    repeat match goal with |- context [seen ?x] => destruct (seen x) end; cbn; try lia; done.
Qed.

Lemma indeg_ext (l : list (nat * nat)) s1 s2 i :
  (forall x, s1 x = s2 x) -> indeg l s1 i = indeg l s2 i.
Proof.
  intros Heq. unfold indeg. f_equal. apply list_filter_iff. intros [a b]. simpl. by rewrite Heq.
Qed.

Lemma indeg_0 (l : list (nat * nat)) s j : indeg l s j = 0 <-> forall i, (i, j) ∈ l -> s i = true.
Proof.
  unfold indeg. rewrite length_zero_iff_nil. split.
  - intros Hf i Hi. destruct (s i) eqn:Es; [done|]. exfalso.
    assert (Hin : (i, j) ∈ filter (fun p => p.2 = j /\ s p.1 = false) l) by (by apply list_elem_of_filter).
    rewrite Hf in Hin. by apply not_elem_of_nil in Hin.
  - intros Hall. apply elem_of_nil_inv. intros [a b] [[Hb Ha] Hin]%list_elem_of_filter.
    simpl in *. subst b. rewrite (Hall a Hin) in Ha. done.
Qed.

Lemma NoDup_lt_length (l : list nat) n : NoDup l -> Forall (fun i => i < n) l -> length l <= n.
Proof.
  intros Hnd Hl. rewrite <-(length_seq n 0). apply submseteq_length, NoDup_submseteq; [done|].
  intros x Hx. rewrite Forall_forall in Hl. apply elem_of_seq. specialize (Hl x Hx). lia.
Qed.

Lemma filter_ext_elem (P Q : nat -> Prop) `{!forall x, Decision (P x), !forall x, Decision (Q x)}
    (l : list nat) :
  (forall x, x ∈ l -> (P x <-> Q x)) -> filter P l = filter Q l.
Proof.
  induction l as [|x l IH]; intros Heq; [done|]. rewrite !filter_cons, IH by (intros; apply Heq; by right).
  pose proof (Heq x ltac:(by left)). destruct (decide (P x)); destruct (decide (Q x)); tauto || done.
Qed.

Lemma filter_length_remove (P Q : nat -> Prop) `{!forall x, Decision (P x), !forall x, Decision (Q x)}
    k (l : list nat) :
  NoDup l -> k ∈ l -> P k -> (forall i, Q i <-> P i /\ i <> k) ->
  length (filter P l) = S (length (filter Q l)).
Proof.
  intros Hnd Hk HP HQ. induction l as [|x l IH]; [by apply not_elem_of_nil in Hk|].
  inversion Hnd as [|? ? Hx Hnd']; subst. rewrite !filter_cons.
  apply elem_of_cons in Hk as [->|Hk].
  - rewrite decide_True by done. rewrite (decide_False (P := Q x)) by (rewrite HQ; tauto).
    simpl. do 2 f_equal. apply filter_ext_elem. intros y Hy. rewrite HQ.
    intuition congruence.
  - assert (Hne : x <> k) by congruence. specialize (IH Hnd' Hk). pose proof (HQ x).
    destruct (decide (P x)); destruct (decide (Q x)); simpl; lia || tauto.
Qed.

Section Kahn.
Context (nodes edges : list Value) (N : nat).
Context (Hids : NoDup (map (fun n => text n "id") nodes)).
Context (Hres : Forall (fun e => is_Some (resolve nodes e)) edges).
Context (HN : length nodes <= N).

Abbreviation al := (arcs nodes edges).

(** [release] takes the arcs out of card [k] from the counts. *)
Lemma release_Ok es inc (base : nat -> nat) k n :
  (forall e, e ∈ es -> is_Some (resolve nodes e)) ->
  nodes !! k = Some n -> length inc = N ->
  (forall i, i < N ->
     inc !! i = Some (Z.of_nat (base i + length (filter (fun p => p = (k, i)) (arcs nodes es))))) ->
  exists inc', release nodes es (text n "id") inc = Ok inc' /\ length inc' = N /\
    forall i, i < N -> inc' !! i = Some (Z.of_nat (base i)).
Proof using Hids HN.
  revert inc. induction es as [|e es IH]; intros inc Hes Hk Hlen Hinc; cbn [release].
  { exists inc. split; [done|]. split; [done|]. intros i Hi. rewrite Hinc by done. simpl. do 2 f_equal. lia. }
  destruct (Hes e) as [[a b] Hab]; [by left|].
  rewrite (resolve_from nodes e a b k n Hids Hk Hab).
  rewrite arcs_cons, Hab in Hinc.
  destruct (resolve_lt _ _ _ _ Hab) as [_ Hb]. apply resolve_Some in Hab as [_ ->].
  case_bool_decide as Hak; cbn [mbind result_bind].
  - subst a. pose proof (Hinc b ltac:(lia)) as Hb'. rewrite filter_cons_True in Hb' by done.
    rewrite Hb'. cbn [mbind result_bind ok_or].
    destruct (Z.eqb_spec (Z.of_nat (base b + length ((k, b) :: filter (fun p => p = (k, b)) (arcs nodes es)))) 0)
      as [H0|_]; [simpl in H0; lia|].
    apply IH; [intros e' He'; apply Hes; by right|done|by rewrite length_insert|].
    intros i Hi. destruct (decide (b = i)) as [<-|Hbi].
    + rewrite list_lookup_insert_eq by lia. f_equal. simpl length. lia.
    + rewrite list_lookup_insert_ne by done. rewrite Hinc by done.
      by rewrite filter_cons_False by congruence.
  - apply IH; [intros e' He'; apply Hes; by right|done|done|].
    intros i Hi. rewrite Hinc by done. by rewrite filter_cons_False by congruence.
Qed.

(** The counts are right for the cards not taken yet. *)
Definition counts (inc : list Z) (seen : list bool) : Prop :=
  length inc = N /\ length seen = N /\
  forall i, i < N -> inc !! i = Some (Z.of_nat (indeg al (marked seen) i)).

Lemma release_counts inc seen k n :
  counts inc seen -> nodes !! k = Some n -> marked seen k = false ->
  exists inc', release nodes edges (text n "id") inc = Ok inc' /\
    counts inc' (<[k := true]> seen).
Proof using Hids HN Hres.
  intros (Hl & Hs & Hc) Hk Hm.
  assert (k < N) by (apply lookup_lt_Some in Hk; lia).
  destruct (release_Ok edges inc
    (indeg al (fun x => bool_decide (x = k) || marked seen x)) k n) as (inc' & Hr & Hl' & Hc');
    [by apply Forall_forall|done|done| |].
  { intros i Hi. rewrite Hc by done. do 2 f_equal. by apply indeg_mark. }
  exists inc'. split; [done|]. split; [done|]. split; [by rewrite length_insert|].
  intros i Hi. rewrite Hc' by done. do 2 f_equal. apply indeg_ext. intros x.
  symmetry. apply marked_insert. lia.
Qed.

Lemma is_free_true inc seen i :
  counts inc seen -> i < N ->
  is_free inc seen i = true <-> marked seen i = false /\ indeg al (marked seen) i = 0.
Proof.
  intros (Hl & Hs & Hc) Hi. unfold is_free, marked at 1. rewrite Hc by done.
  destruct (lookup_lt_is_Some_2 seen i) as [b Hb]; [lia|]. rewrite Hb.
  rewrite andb_true_iff, negb_true_iff, Z.eqb_eq. split; intros [? ?]; (split; [|done || lia]); done || lia.
Qed.

(** The order in which cards are taken: each after all its predecessors. *)
Fixpoint topo (seen : nat -> bool) (order : list nat) : Prop :=
  match order with
  | [] => True
  | k :: order =>
      k < length nodes /\ seen k = false /\ (forall i, (i, k) ∈ al -> seen i = true) /\
      topo (fun x => bool_decide (x = k) || seen x) order
  end.

Lemma topo_ext s1 s2 order : (forall x, s1 x = s2 x) -> topo s1 order -> topo s2 order.
Proof.
  revert s1 s2. induction order as [|k o IH]; intros s1 s2 Heq; simpl; [done|].
  intros (H1 & H2 & H3 & H4). repeat split; [done|by rewrite <-Heq| |].
  - intros i Hi. rewrite <-Heq. by apply H3.
  - eapply IH; [|exact H4]. intros x. simpl. by rewrite Heq.
Qed.

Lemma take_free_sound rounds inc seen :
  counts inc seen -> take_free rounds nodes edges inc seen = Ok tt ->
  exists order, length order = rounds /\ topo (marked seen) order.
Proof using Hids HN Hres.
  revert inc seen. induction rounds as [|r IH]; intros inc seen Hc Ht; cbn [take_free] in Ht.
  { by exists []. }
  destruct (find (is_free inc seen) (seq 0 (length nodes))) as [k|] eqn:Ef; cbn in Ht; [|done].
  apply find_some in Ef as [Hk%in_seq Hfree].
  pose proof Hc as (Hl & Hs & _).
  apply (is_free_true _ _ _ Hc) in Hfree as [Hm Hd]; [|lia].
  destruct (lookup_lt_is_Some_2 seen k) as [b Hb]; [lia|]. rewrite Hb in Ht. cbn in Ht.
  destruct (lookup_lt_is_Some_2 nodes k) as [n Hn]; [lia|]. rewrite Hn in Ht. cbn in Ht.
  destruct (release_counts inc seen k n Hc Hn Hm) as (inc' & Hr & Hc'). rewrite Hr in Ht. cbn in Ht.
  destruct (IH _ _ Hc' Ht) as (o & Ho & Htopo). exists (k :: o). simpl. split; [by f_equal|].
  split; [lia|]. split; [done|]. split; [by apply indeg_0|].
  eapply topo_ext; [|exact Htopo]. intros x. apply marked_insert. lia.
Qed.

(** An order that takes every card leaves no cycle: arcs go forward in it. *)
Lemma topo_unseen seen order k : topo seen order -> k ∈ order -> seen k = false.
Proof.
  revert seen. induction order as [|x o IH]; intros seen Ht Hk; [by apply not_elem_of_nil in Hk|].
  destruct Ht as (_ & Hx & _ & Ht). apply elem_of_cons in Hk as [->|Hk]; [done|].
  apply (IH _ Ht) in Hk. by apply orb_false_iff in Hk as [_ Hk].
Qed.

Lemma topo_NoDup seen order : topo seen order -> NoDup order.
Proof.
  revert seen. induction order as [|x o IH]; intros seen Ht; [constructor|].
  destruct Ht as (_ & Hx & _ & Ht). constructor; [|by eapply IH].
  intros Hin. apply (topo_unseen _ _ _ Ht) in Hin. by rewrite bool_decide_true in Hin.
Qed.

Lemma topo_lt seen order k : topo seen order -> k ∈ order -> k < length nodes.
Proof.
  revert seen. induction order as [|x o IH]; intros seen Ht Hk; [by apply not_elem_of_nil in Hk|].
  destruct Ht as (Hx & _ & _ & Ht). apply elem_of_cons in Hk as [->|Hk]; [done|]. by eapply IH.
Qed.

Definition pred_closed (seen : nat -> bool) : Prop :=
  forall a b, arc nodes edges a b -> seen b = true -> seen a = true.

Lemma pred_closed_tc_into seen a b :
  pred_closed seen -> tc (arc nodes edges) a b ->
  (forall i, arc nodes edges i b -> seen i = true) -> seen a = true.
Proof. intros Hcl. induction 1 as [a b Hab|a b c Hab _ IH]; eauto. Qed.

Lemma topo_acyclic seen order k :
  topo seen order -> pred_closed seen -> k ∈ order -> ~ tc (arc nodes edges) k k.
Proof.
  revert seen. induction order as [|x o IH]; intros seen Ht Hcl Hk; [by apply not_elem_of_nil in Hk|].
  destruct Ht as (_ & Hs & Hp & Ht).
  assert (Hcl' : pred_closed (fun y => bool_decide (y = x) || seen y)).
  { intros a b Hab Hb. apply orb_true_iff. right.
    apply orb_true_iff in Hb as [->%bool_decide_eq_true|Hb]; [by apply Hp|by eapply Hcl]. }
  apply elem_of_cons in Hk as [->|Hk]; [|by eapply IH].
  intros Hxx%(pred_closed_tc_into _ _ _ Hcl); [congruence|done].
Qed.

(** Every unseen card has an unseen predecessor: then there is a cycle. *)
Fixpoint chain (l : list nat) : Prop :=
  match l with
  | i :: ((j :: _) as l) => arc nodes edges i j /\ chain l
  | _ => True
  end.

Lemma chain_tc i l : chain (i :: l) -> forall j, j ∈ l -> tc (arc nodes edges) i j.
Proof.
  revert i. induction l as [|k l IH]; intros i Hc j Hj; [by apply not_elem_of_nil in Hj|].
  destruct Hc as [Hik Hc]. apply elem_of_cons in Hj as [->|Hj]; [by apply tc_once|].
  eapply tc_l; [exact Hik|]. by apply IH.
Qed.

Lemma chain_NoDup l : (forall i, ~ tc (arc nodes edges) i i) -> chain l -> NoDup l.
Proof.
  intros Hac. induction l as [|i l IH]; intros Hc; [constructor|].
  constructor; [|apply IH; by destruct l; [|destruct Hc]].
  intros Hi. by eapply Hac, chain_tc.
Qed.

Lemma chain_exists (P : nat -> Prop) k i :
  (forall j, P j -> exists i, P i /\ arc nodes edges i j) -> P i ->
  exists l, length l = S k /\ chain l /\ Forall P l.
Proof.
  intros Hp Hi. induction k as [|k (l & Hl & Hc & HP)].
  - exists [i]. repeat constructor; done.
  - destruct l as [|x l]; [done|]. inversion HP as [|? ? Hx HPl]; subst.
    destruct (Hp x Hx) as (y & Hy & Hyx). exists (y :: x :: l). simpl in *.
    repeat split; auto.
Qed.

Lemma free_exists seen i0 :
  (forall i, ~ tc (arc nodes edges) i i) -> i0 < length nodes -> seen i0 = false ->
  exists i, i < length nodes /\ seen i = false /\ indeg al seen i = 0.
Proof.
  intros Hac Hi0 Hs0.
  destruct (find (fun i => negb (seen i) && (indeg al seen i =? 0)) (seq 0 (length nodes)))
    as [k|] eqn:Ef.
  { apply find_some in Ef as [Hk%in_seq Hb]. bool_prop. exists k. repeat split; [lia|done|done]. }
  exfalso. pose proof (find_none _ _ Ef) as Hno.
  destruct (chain_exists (fun i => i < length nodes /\ seen i = false) (length nodes) i0)
    as (l & Hl & Hc & HP); [|done|].
  - intros j [Hj Hsj].
    assert (Hd : indeg al seen j <> 0).
    { intros Hd. specialize (Hno j ltac:(apply in_seq; lia)). cbn beta in Hno.
      by rewrite Hsj, Hd in Hno. }
    unfold indeg in Hd.
    destruct (filter (fun p => p.2 = j /\ seen p.1 = false) al) as [|[a b] fl] eqn:Efl; [done|].
    assert (Hin : (a, b) ∈ filter (fun p => p.2 = j /\ seen p.1 = false) al) by (rewrite Efl; by left).
    apply list_elem_of_filter in Hin as [[Hb Ha] Hin]. simpl in *. subst b.
    exists a. split; [split; [|done]|done]. by apply (arc_lt nodes edges a j).
  - apply chain_NoDup in Hc; [|done].
    assert (length l <= length nodes); [|lia].
    apply NoDup_lt_length; [done|]. eapply Forall_impl; [exact HP|]. naive_solver.
Qed.

Definition unseen (seen : list bool) : nat :=
  length (filter (fun i => marked seen i = false) (seq 0 (length nodes))).

Lemma unseen_pos seen k : unseen seen = S k -> exists i, i < length nodes /\ marked seen i = false.
Proof.
  unfold unseen. destruct (filter _ _) as [|i l] eqn:Ef; [done|]. intros _.
  assert (Hin : i ∈ filter (fun i => marked seen i = false) (seq 0 (length nodes))) by (rewrite Ef; by left).
  apply list_elem_of_filter in Hin as [Hm Hi%elem_of_seq]. exists i. split; [lia|done].
Qed.

Lemma unseen_mark seen k :
  length seen = N -> k < length nodes -> marked seen k = false ->
  unseen seen = S (unseen (<[k := true]> seen)).
Proof using HN.
  intros Hs Hk Hm. unfold unseen.
  apply (filter_length_remove _ _ k); [apply NoDup_seq|apply elem_of_seq; lia|done|].
  intros i. rewrite marked_insert by lia. rewrite orb_false_iff, bool_decide_eq_false. tauto.
Qed.

Lemma take_free_complete rounds inc seen :
  (forall i, ~ tc (arc nodes edges) i i) -> counts inc seen -> unseen seen = rounds ->
  take_free rounds nodes edges inc seen = Ok tt.
Proof using Hids HN Hres.
  intros Hac. revert inc seen. induction rounds as [|r IH]; intros inc seen Hc Hu; cbn [take_free]; [done|].
  pose proof Hc as (Hl & Hs & _).
  destruct (unseen_pos _ _ Hu) as (i0 & Hi0 & Hm0).
  destruct (free_exists (marked seen) i0 Hac Hi0 Hm0) as (i & Hi & Hm & Hd).
  destruct (find (is_free inc seen) (seq 0 (length nodes))) as [k|] eqn:Ef.
  2:{ exfalso. pose proof (find_none _ _ Ef i ltac:(apply in_seq; lia)) as Hf.
      assert (is_free inc seen i = true) by (apply is_free_true; [done|lia|done]). congruence. }
  apply find_some in Ef as [Hk%in_seq Hfree].
  apply (is_free_true _ _ _ Hc) in Hfree as [Hmk Hdk]; [|lia].
  cbn [mbind result_bind ok_or].
  destruct (lookup_lt_is_Some_2 seen k) as [b Hb]; [lia|]. rewrite Hb. cbn [mbind result_bind ok_or].
  destruct (lookup_lt_is_Some_2 nodes k) as [n Hn]; [lia|]. rewrite Hn. cbn [mbind result_bind ok_or].
  destruct (release_counts inc seen k n Hc Hn Hmk) as (inc' & -> & Hc'). cbn [mbind result_bind].
  apply IH; [done|]. rewrite (unseen_mark seen k) in Hu by (done || lia). lia.
Qed.
End Kahn.

(** ** [validate] decides [graph_ok] *)

Lemma lookup_repeat {A} (x y : A) n i : repeat x n !! i = Some y -> y = x /\ i < n.
Proof.
  revert i. induction n as [|n IH]; intros [|i] Hi; try done; cbn in Hi.
  - injection Hi as <-. split; [done|lia].
  - apply IH in Hi as [-> ?]. split; [done|lia].
Qed.

Lemma marked_none x : marked (repeat false MAX_NODES) x = false.
Proof.
  unfold marked. destruct (repeat false MAX_NODES !! x) as [b|] eqn:Eb; [|done].
  by apply lookup_repeat in Eb as [-> _].
Qed.

Lemma indeg_all (l : list (nat * nat)) i : indeg l (marked (repeat false MAX_NODES)) i = indeg l (fun _ => false) i.
Proof.
  apply indeg_ext, marked_none.
Qed.

Lemma counts_start nodes edges inc :
  length nodes <= MAX_NODES ->
  validate_edges nodes [] edges (repeat 0%Z MAX_NODES) = Ok inc ->
  counts nodes edges MAX_NODES inc (repeat false MAX_NODES).
Proof.
  intros Hn Hv.
  destruct (validate_edges_Ok nodes [] edges (repeat 0%Z MAX_NODES)) as [_ Hspec];
    [by rewrite repeat_length|constructor|].
  apply Hspec in Hv as [Hl Hd]. rewrite repeat_length in Hl.
  split; [done|]. split; [by rewrite repeat_length|].
  intros i Hi. rewrite (Hd i 0%Z) by (by apply repeat_lookup). by rewrite indeg_all.
Qed.

Lemma unseen_all nodes : unseen nodes (repeat false MAX_NODES) = length nodes.
Proof.
  unfold unseen. rewrite <-(length_seq (length nodes) 0) at 2. f_equal.
  induction (seq 0 (length nodes)) as [|x l IH]; [done|].
  rewrite filter_cons_True by apply marked_none. by rewrite IH.
Qed.

Lemma edge_ok_resolves nodes edges :
  Forall (edge_ok nodes) edges -> Forall (fun e => is_Some (resolve nodes e)) edges.
Proof. intros Hf. eapply Forall_impl; [exact Hf|]. intros e (i & j & Hr & _). by rewrite Hr. Qed.

(** The cycle check of [validate], for edges that passed the other checks. *)
Lemma take_free_acyclic nodes edges inc :
  length nodes <= MAX_NODES -> NoDup (map (fun n => text n "id") nodes) ->
  Forall (edge_ok nodes) edges ->
  validate_edges nodes [] edges (repeat 0%Z MAX_NODES) = Ok inc ->
  take_free (length nodes) nodes edges inc (repeat false MAX_NODES) = Ok tt <->
  forall i, ~ tc (arc nodes edges) i i.
Proof.
  intros Hn Hid Hok Hv. pose proof (counts_start nodes edges inc Hn Hv) as Hc.
  pose proof (edge_ok_resolves _ _ Hok) as Hres. split.
  - intros Ht i Hi.
    destruct (take_free_sound nodes edges MAX_NODES Hid Hres Hn _ _ _ Hc Ht) as (o & Ho & Htopo).
    assert (Hin : i ∈ o).
    { assert (Hlt : i < length nodes) by (by inversion Hi as [? ? []%arc_lt|? ? ? []%arc_lt]).
      destruct (decide (i ∈ o)) as [|Hni]; [done|]. exfalso.
      assert (length (i :: o) <= length nodes); [|simpl in *; lia].
      apply NoDup_lt_length; [constructor; [done|by eapply topo_NoDup]|].
      constructor; [done|]. apply Forall_forall. intros x Hx. by eapply topo_lt. }
    eapply topo_acyclic; [exact Htopo| |exact Hin|exact Hi].
    intros a b _ Hb. by rewrite marked_none in Hb.
  - intros Hac. apply (take_free_complete nodes edges MAX_NODES Hid Hres Hn); [done|done|].
    apply unseen_all.
Qed.

Lemma validate_graph_ok flow : validate flow = Ok tt <-> graph_ok flow.
Proof.
  unfold validate.
  set (nodes := array flow "nodes"). set (edges := array flow "edges").
  destruct (is_empty (trim (text flow "name")) || (160 <? len (trim (text flow "name")))%Z) eqn:E1.
  { split; [done|]. intros [[Hne Hlen] _ _ _ _ _ _ _]. exfalso.
    apply orb_true_iff in E1 as [E1|E1%Z.ltb_lt]; [|lia]. by destruct (trim _). }
  destruct ((MAX_NODES <? length nodes) || (MAX_EDGES <? length edges)) eqn:E2.
  { split; [done|]. intros [_ Hn He _ _ _ _ _]. exfalso. fold nodes edges in Hn, He.
    apply orb_true_iff in E2 as [E2%Nat.ltb_lt|E2%Nat.ltb_lt]; lia. }
  bool_prop.
  pose proof (validate_nodes_Ok [] nodes ltac:(constructor)) as Hvn. cbn [app] in Hvn.
  destruct (validate_nodes [] nodes) as [[]|e] eqn:E3; cbn [mbind result_bind].
  2:{ split; [done|]. intros [_ _ _ Hc Hi _ _ _]. fold nodes in Hc, Hi.
      destruct (proj2 Hvn) as []; done. }
  destruct (proj1 Hvn eq_refl) as [Hcards Hids].
  destruct (validate_edges_Ok nodes [] edges (repeat 0%Z MAX_NODES)) as [Hve _];
    [by rewrite repeat_length|constructor|]. cbn [app] in Hve.
  destruct (validate_edges nodes [] edges (repeat 0%Z MAX_NODES)) as [inc|e] eqn:E4; cbn [mbind result_bind].
  2:{ split; [done|]. intros [_ _ _ _ _ Hc Hi _]. fold nodes edges in Hc, Hi.
      by specialize (proj2 Hve (conj Hc Hi)). }
  destruct (proj1 Hve eq_refl) as [Hends Hdist].
  rewrite take_free_acyclic by done. split.
  - intros Hac. split; try done. split; [by destruct (trim _)|done].
  - by intros [_ _ _ _ _ _ _ Hac].
Qed.

(** C10: [validate] accepts a Flow exactly if it is a bounded acyclic graph: a name of at most
    160 bytes, at most 128 well-formed cards with distinct ids and 256 distinct edges between
    existing cards, none from a card to itself, none into a trigger, and no path from a card
    back to itself.  The Kahn loop over fixed [u16] counters neither misses a cycle nor
    rejects an acyclic graph. *)
Theorem validate_decides_graph_ok flow : is_ok (validate flow) = true <-> graph_ok flow.
Proof.
  rewrite <-validate_graph_ok. destruct (validate flow) as [[]|e]; cbn; intuition congruence.
Qed.

(** ** [runnable] *)

Section Runnable.
Context (nodes edges : list Value) (N : nat).
Context (HN : length nodes <= N).

Definition closed (r : list bool) : Prop :=
  forall i j, arc nodes edges i j -> r !! i = Some true -> r !! j = Some true.

(** Marks only grow. *)
Definition below (r1 r2 : list bool) : Prop :=
  length r1 = length r2 /\ forall i, r1 !! i = Some true -> r2 !! i = Some true.

#[local] Instance below_preorder : PreOrder below.
Proof.
  split; [by intros r; split|]. intros r1 r2 r3 [H1 H2] [H3 H4]. split; [congruence|auto].
Qed.

Lemma mark_below (r : list bool) i : below r (<[i := true]> r).
Proof.
  split; [by rewrite length_insert|]. intros k Hk. destruct (decide (i = k)) as [->|Hne].
  - apply list_lookup_insert_eq. by eapply lookup_lt_Some.
  - by rewrite list_lookup_insert_ne.
Qed.

(** One edge of the pass. *)
Definition relax1 (e : Value) (r : list bool) : list bool :=
  match resolve nodes e with
  | Some (i, j) => match r !! i with Some true => <[j := true]> r | _ => r end
  | None => r
  end.

Lemma relax_cons e es r : relax nodes (e :: es) r = relax nodes es (relax1 e r).
Proof.
  cbn [relax]. f_equal. unfold relax1, resolve, node_index, ok_or.
  destruct (position (has_id (text e "from")) nodes) as [i|];
    destruct (position (has_id (text e "to")) nodes) as [j|]; done.
Qed.

Lemma relax1_below e r : below r (relax1 e r).
Proof.
  unfold relax1. destruct (resolve nodes e) as [[i j]|]; [|done].
  destruct (r !! i) as [[]|]; [apply mark_below|done..].
Qed.

Lemma relax_below es r : below r (relax nodes es r).
Proof.
  revert r. induction es as [|e es IH]; intros r; [done|]. rewrite relax_cons.
  etrans; [apply relax1_below|apply IH].
Qed.

Lemma below_antisym r1 r2 : below r1 r2 -> below r2 r1 -> r1 = r2.
Proof.
  intros [Hl H1] [_ H2]. apply list_eq_same_length with (length r2); [done..|].
  intros i x y _ Hx Hy. specialize (H1 i). specialize (H2 i). rewrite Hx, Hy in *.
  destruct x, y; naive_solver.
Qed.

(** A pass that changes nothing has found everything. *)
Lemma relax_fixpoint_closed r :
  length r = N -> relax nodes edges r = r -> closed r.
Proof using HN.
  intros Hr. unfold closed, arc. induction edges as [|e es IH]; intros Hf i j Hij.
  { by apply not_elem_of_nil in Hij. }
  rewrite relax_cons in Hf.
  assert (H1 : relax1 e r = r).
  { apply below_antisym; [|apply relax1_below]. rewrite <-Hf at 2. apply relax_below. }
  rewrite H1 in Hf. specialize (IH Hf). rewrite arcs_cons in Hij.
  destruct (resolve nodes e) as [[a b]|] eqn:Er; [|by apply IH].
  apply elem_of_cons in Hij as [[= -> ->]|Hij]; [|by apply IH].
  intros Hi. unfold relax1 in H1. rewrite Er, Hi in H1. rewrite <-H1.
  apply list_lookup_insert_eq. apply resolve_lt in Er. lia.
Qed.

Definition size (r : list bool) : nat := length (filter (fun b => b = true) r).

Lemma size_le r : size r <= length r.
Proof. apply length_filter. Qed.

Lemma below_size r1 r2 : below r1 r2 -> size r1 <= size r2 /\ (size r1 = size r2 -> r1 = r2).
Proof.
  unfold size. revert r2. induction r1 as [|x r1 IH]; intros r2 [Hl H1].
  { by destruct r2. }
  destruct r2 as [|y r2]; [done|].
  destruct (IH r2) as [IH1 IH2].
  { split; [by injection Hl|]. intros i. apply (H1 (S i)). }
  pose proof (H1 0) as H0. cbn in H0. rewrite !filter_cons.
  destruct x, y; try (specialize (H0 eq_refl); discriminate); repeat case_decide; try done; simpl.
  - split; [lia|]. intros Heq. f_equal. apply IH2. lia.
  - split; [lia|]. intros Heq. lia.
  - split; [done|]. intros Heq. f_equal. by apply IH2.
Qed.

Lemma relax_length es r : length (relax nodes es r) = length r.
Proof. symmetry. apply relax_below. Qed.

(** [k] passes find everything or [k] more marks. *)
Lemma relax_rounds_progress k r :
  length r = N ->
  let r' := relax_rounds k nodes edges r in
  below r r' /\ (closed r' \/ size r + k <= size r').
Proof using HN.
  revert r. induction k as [|k IH]; intros r Hr; cbn [relax_rounds].
  { split; [done|]. right. lia. }
  destruct (IH (relax nodes edges r)) as [Hb Hk]; [by rewrite relax_length|].
  split; [etrans; [apply (relax_below edges)|exact Hb]|].
  destruct (below_size _ _ (relax_below edges r)) as [Hle Heq].
  destruct Hk as [Hk|Hk]; [by left|].
  destruct (decide (size r = size (relax nodes edges r))) as [Hs|Hs]; [|right; lia].
  left. assert (Hfix : relax nodes edges r = r) by (symmetry; by apply Heq).
  rewrite Hfix. clear - Hfix Hr HN.
  assert (Hrk : relax_rounds k nodes edges r = r).
  { induction k as [|k IHk]; [done|]. cbn [relax_rounds]. by rewrite Hfix. }
  rewrite Hrk. by apply relax_fixpoint_closed.
Qed.

(** Marks outside the cards never appear. *)
Definition inside (r : list bool) : Prop := forall i, r !! i = Some true -> i < length nodes.

(** Only what a trigger reaches is marked. *)
Definition sound (P : nat -> Prop) (r : list bool) : Prop := forall i, r !! i = Some true -> P i.

Lemma relax_sound (P : nat -> Prop) es r :
  (forall i j, arc nodes es i j -> P i -> P j) -> sound P r -> sound P (relax nodes es r).
Proof.
  revert r. induction es as [|e es IH]; intros r Hp Hr; [done|].
  rewrite relax_cons. apply IH.
  { intros i j Hij. apply Hp. unfold arc. rewrite arcs_cons. destruct (resolve nodes e); [by right|done]. }
  intros k Hk. unfold relax1 in Hk. unfold arc in Hp. rewrite arcs_cons in Hp.
  destruct (resolve nodes e) as [[i j]|] eqn:Er; [|by apply Hr].
  destruct (r !! i) as [[]|] eqn:Ei; [|by apply Hr..].
  destruct (decide (j = k)) as [->|Hjk].
  - apply (Hp i); [by left|by apply Hr].
  - rewrite list_lookup_insert_ne in Hk by done. by apply Hr.
Qed.

Lemma relax_rounds_sound (P : nat -> Prop) k r :
  (forall i j, arc nodes edges i j -> P i -> P j) -> sound P r ->
  sound P (relax_rounds k nodes edges r).
Proof.
  intros Hp. revert r. induction k as [|k IH]; intros r Hr; [done|].
  cbn [relax_rounds]. by apply IH, relax_sound.
Qed.

Lemma closed_rtc r i j :
  closed r -> rtc (arc nodes edges) i j -> r !! i = Some true -> r !! j = Some true.
Proof. intros Hc. induction 1; eauto. Qed.

(** All the cards are marked once as many marks exist as cards. *)
Lemma size_full r : length r = N -> inside r -> length nodes <= size r ->
  forall i, i < length nodes -> r !! i = Some true.
Proof using HN.
  intros Hr Hin Hs i Hi.
  destruct (r !! i) as [[]|] eqn:Ei; [done| |apply lookup_ge_None in Ei; lia]. exfalso.
  set (full := repeat true (length nodes) ++ repeat false (N - length nodes)).
  assert (Hb : below (<[i := true]> r) full).
  { unfold full. split; [rewrite length_insert, length_app, !repeat_length; lia|].
    intros k Hk. assert (k < length nodes).
    { destruct (decide (i = k)) as [<-|Hne]; [done|]. rewrite list_lookup_insert_ne in Hk by done. by apply Hin. }
    rewrite lookup_app_l by (by rewrite repeat_length). by apply repeat_lookup. }
  apply below_size in Hb as [Hb _].
  assert (Hsz : size full = length nodes).
  { unfold full, size. rewrite filter_app, length_app.
    replace (filter (fun b => b = true) (repeat true (length nodes))) with (repeat true (length nodes)).
    2:{ clear. induction (length nodes) as [|n IH]; [done|]. cbn [repeat]. rewrite filter_cons_True by done. by f_equal. }
    replace (filter (fun b => b = true) (repeat false (N - length nodes))) with (@nil bool).
    2:{ clear. induction (N - length nodes) as [|n IH]; [done|]. cbn [repeat]. by rewrite filter_cons_False. }
    rewrite repeat_length. simpl. lia. }
  destruct (below_size _ _ (mark_below r i)) as [Hle Hne].
  assert (Heq : r = <[i := true]> r) by (apply Hne; lia).
  rewrite Heq, list_lookup_insert_eq in Ei by lia. done.
Qed.

Lemma relax_rounds_reach r j :
  length r = N -> inside r ->
  relax_rounds (length nodes) nodes edges r !! j = Some true <->
  exists i, r !! i = Some true /\ rtc (arc nodes edges) i j.
Proof using HN.
  intros Hr Hin. split.
  - apply (relax_rounds_sound (fun j => exists i, r !! i = Some true /\ rtc (arc nodes edges) i j)).
    + intros a b Hab (i & Hi & Hr'). exists i. split; [done|]. by eapply rtc_r.
    + intros i Hi. by exists i.
  - intros (i & Hi & Hij).
    destruct (relax_rounds_progress (length nodes) r Hr) as [Hb Hc].
    assert (Hcl : closed (relax_rounds (length nodes) nodes edges r)).
    { destruct Hc as [Hc|Hc]; [done|]. intros a b Hab _. apply arc_lt in Hab.
      apply size_full; [by rewrite <-(proj1 Hb)| |lia|lia].
      unfold inside. apply (relax_rounds_sound (fun i => i < length nodes)); [|done].
      intros x y Hxy%arc_lt _. lia. }
    eapply closed_rtc; [done|exact Hij|]. by apply Hb.
Qed.
End Runnable.

Lemma start_marks_lookup nodes i :
  start_marks nodes !! i = Some true <-> is_trigger nodes i.
Proof.
  unfold start_marks, is_trigger. split.
  - intros Hi. apply lookup_app_Some in Hi as [Hi|[_ Hi]].
    + rewrite list_lookup_fmap in Hi. destruct (nodes !! i) as [n|]; [|done].
      injection Hi as Hk. exists n. split; [done|]. by apply String.eqb_eq.
    + by apply lookup_repeat in Hi as [? _].
  - intros (n & Hn & Hk). rewrite lookup_app_l.
    + rewrite list_lookup_fmap, Hn. cbn. f_equal. by apply String.eqb_eq.
    + rewrite length_map. by eapply lookup_lt_Some.
Qed.

(** For a Flow of at most 128 cards, [runnable] answers yes exactly if some trigger is
    connected to some action through the edges: as many relaxation passes as there are cards
    always find every connection, also in a graph with cycles. *)
Theorem runnable_decides_reachability flow :
  length (array flow "nodes") <= MAX_NODES ->
  (runnable flow).1 = true <->
  exists t a, is_trigger (array flow "nodes") t /\ is_action (array flow "nodes") a /\
    rtc (arc (array flow "nodes") (array flow "edges")) t a.
Proof.
  set (nodes := array flow "nodes"). set (edges := array flow "edges"). intros Hn.
  unfold runnable. fold nodes edges.
  rewrite (proj2 (Nat.ltb_ge _ _)) by done.
  assert (Hkind : forall k, existsb (is_kind k) nodes = true <->
            exists i n, nodes !! i = Some n /\ kind n = k).
  { intros k. rewrite existsb_exists. setoid_rewrite <-list_elem_of_In.
    setoid_rewrite list_elem_of_lookup. unfold is_kind. setoid_rewrite String.eqb_eq. naive_solver. }
  destruct (existsb (is_kind "trigger") nodes) eqn:Et.
  2:{ split; [done|]. intros (t & a & (n & Hn' & Hk) & _). exfalso.
      enough (existsb (is_kind "trigger") nodes = true) by congruence. apply Hkind; eauto. }
  destruct (existsb (is_kind "action") nodes) eqn:Ea.
  2:{ split; [done|]. intros (t & a & _ & (n & Hn' & Hk) & _). exfalso.
      enough (existsb (is_kind "action") nodes = true) by congruence. apply Hkind; eauto. }
  cbn [negb].
  assert (Hreach : forall j, relax_rounds (length nodes) nodes edges (start_marks nodes) !! j = Some true <->
             exists i, is_trigger nodes i /\ rtc (arc nodes edges) i j).
  { intros j. rewrite (relax_rounds_reach nodes edges MAX_NODES Hn).
    - by setoid_rewrite start_marks_lookup.
    - unfold start_marks. rewrite length_app, length_map, repeat_length. unfold nodes in *. lia.
    - intros i (n & Hi & _)%start_marks_lookup. by eapply lookup_lt_Some. }
  match goal with |- context [if existsb ?f ?l then _ else _] => destruct (existsb f l) eqn:Ex end; cbn [fst].
  - split; [intros _|done]. apply existsb_exists in Ex as (a & _ & Ha).
    destruct (nodes !! a) as [n|] eqn:En; [|done].
    destruct (relax_rounds _ _ _ _ !! a) as [r|] eqn:Er; [|done].
    apply andb_true_iff in Ha as [Hk%String.eqb_eq ->].
    apply Hreach in Er as (t & Ht & Hta). exists t, a. split; [done|]. split; [|done]. by exists n.
  - split; [done|]. intros (t & a & Ht & (n & Hn' & Hk) & Hta). exfalso.
    rewrite <-not_true_iff_false, existsb_exists in Ex. apply Ex. exists a.
    split; [apply in_seq; apply lookup_lt_Some in Hn'; lia|].
    rewrite Hn', (proj2 (Hreach a)) by eauto. unfold is_kind. by rewrite Hk.
Qed.

(** ** An example: a trigger, a condition and two actions *)

Definition card (id type : string) : Value :=
  VObject [("id", VString id);
           ("step", VObject [("appId", VString "app"); ("cardId", VString "card"); ("cardType", VString type)])].

Definition link (a b : string) : Value := VObject [("from", VString a); ("to", VString b)].

Definition example_flow : Value :=
  VObject [("name", VString "lights");
           ("nodes", VArray [card "t" "trigger"; card "c" "condition"; card "a" "action"; card "b" "action"]);
           ("edges", VArray [link "t" "c"; link "c" "a"; link "t" "b"; link "a" "b"])].

Lemma runnable_decides_reachability_witness :
  exists t a, is_trigger (array example_flow "nodes") t /\ is_action (array example_flow "nodes") a /\
    rtc (arc (array example_flow "nodes") (array example_flow "edges")) t a.
Proof.
  apply (runnable_decides_reachability example_flow).
  - vm_compute. lia.
  - vm_compute. reflexivity.
Defined.
