(* ===== verification/FlowRun.v ===== *)
(** * FlowRun: executing a Flow ([Execution] of [crates/core/src/flow.rs])

    An execution of a validated Flow never runs into its array bounds, delivers every card at
    most once, ends after at most as many deliveries as there are cards, and delivers exactly
    the cards that the matched triggers reach through cards that let their successors start. *)

From Stdlib Require Import ZArith Lia Ascii String.
From S2P Require Import Prelude Text Errors Float Value Flow FlowGraph.
From stdpp Require Import relations.

Local Open Scope nat_scope.

(** ** Driving an execution *)

(** What the owner of the execution reports of a delivered card: [complete(flow, passed)] or,
    for a failed action, [skip()]. *)
Inductive Outcome := Completed (passed : bool) | Failed.

Definition report (flow : Value) (o : Outcome) (e : Execution) : Result unit * Execution :=
  match o with Completed passed => complete flow passed e | Failed => skip e end.

(** Whether a card with this outcome starts its successors. *)
Definition opens (nodes : list Value) (outcome : nat -> Outcome) (i : nat) : Prop :=
  match outcome i, nodes !! i with
  | Completed passed, Some n => blocks n passed = false
  | _, _ => False
  end.

(** The loop of a client: take the next card, report its outcome, until none is left; [log]
    collects the delivered card indices. *)
Fixpoint drive (fuel : nat) (flow : Value) (outcome : nat -> Outcome) (e : Execution)
    (log : list nat) : Result (list nat * Execution) :=
  match fuel with
  | O => Err Full
  | S fuel =>
      match next flow e with
      | (Err er, _) => Err er
      | (Ok None, e1) => Ok (log, e1)
      | (Ok (Some _), e1) =>
          match waiting e1 with
          | None => Err Changed
          | Some i =>
              match report flow (outcome i) e1 with
              | (Err er, _) => Err er
              | (Ok _, e2) => drive fuel flow outcome e2 (log ++ [i])
              end
          end
      end
  end.

(** ** The invariant of an execution *)

Section Run.
Context (flow : Value).
Abbreviation nodes := (array flow "nodes").
Abbreviation edges := (array flow "edges").
Context (Hok : graph_ok flow).

Definition queued (e : Execution) : list nat := take (ex_tail e) (pending e).

(** [opened] are the cards whose successors were started, [T] the started triggers. *)
Record inv (T : nat -> Prop) (opened : nat -> Prop) (e : Execution) : Prop := {
  inv_pending : length (pending e) = MAX_NODES;
  inv_visited : length (visited e) = MAX_NODES;
  inv_head : ex_head e <= ex_tail e;
  inv_tail : ex_tail e <= MAX_NODES;
  inv_queue_nodup : NoDup (queued e);
  inv_queue : forall j, j ∈ queued e <-> exists i, opened i /\ arc nodes edges i j;
  inv_mark : forall i, visited e !! i = Some true <-> i ∈ queued e \/ T i
}.

Lemma inv_queue_lt T opened e j : inv T opened e -> j ∈ queued e -> j < length nodes.
Proof. intros Hi (i & _ & Hij)%(inv_queue _ _ _ Hi). apply arc_lt in Hij; lia. Qed.

Lemma queued_length T opened e : inv T opened e -> length (queued e) = ex_tail e.
Proof. intros []. unfold queued. rewrite length_take. lia. Qed.

Lemma tail_le_nodes T opened e : inv T opened e -> ex_tail e <= length nodes.
Proof.
  intros Hi. rewrite <-(queued_length _ _ _ Hi). apply NoDup_lt_length; [by eapply inv_queue_nodup|].
  apply Forall_forall. intros j Hj. by eapply inv_queue_lt.
Qed.

Lemma queued_push e to :
  ex_tail e < length (pending e) ->
  queued (mk_exec (<[ex_tail e := to]> (pending e)) (ex_head e) (S (ex_tail e))
            (<[to := true]> (visited e)) (waiting e)) = queued e ++ [to].
Proof.
  intros Ht. unfold queued. cbn.
  rewrite (take_S_r _ _ to) by (by apply list_lookup_insert_eq).
  by rewrite take_insert_ge.
Qed.

(** The successor loop appends exactly the successors not visited yet. *)
Lemma enqueue_Ok es e k n T :
  nodes !! k = Some n -> (forall x, x ∈ es -> is_Some (resolve nodes x)) ->
  length (pending e) = MAX_NODES -> length (visited e) = MAX_NODES ->
  ex_tail e <= MAX_NODES -> NoDup (queued e) ->
  (forall j, j ∈ queued e -> j < length nodes) ->
  (forall i, T i -> i < length nodes) ->
  (forall j, arc nodes es k j -> ~ T j) ->
  (forall i, visited e !! i = Some true <-> i ∈ queued e \/ T i) ->
  exists e', enqueue nodes es (text n "id") e = (Ok tt, e') /\
    length (pending e') = MAX_NODES /\ length (visited e') = MAX_NODES /\
    ex_head e' = ex_head e /\ ex_tail e <= ex_tail e' <= MAX_NODES /\ waiting e' = waiting e /\
    (exists more, queued e' = queued e ++ more) /\
    NoDup (queued e') /\
    (forall j, j ∈ queued e' <-> j ∈ queued e \/ arc nodes es k j) /\
    (forall i, visited e' !! i = Some true <-> i ∈ queued e' \/ T i).
Proof using Hok.
  revert e. induction es as [|x es IH]; intros e Hk Hes Hp Hv Ht Hnd Hlt HT Hnt Hm; cbn [enqueue].
  { exists e. repeat (split; [done||lia|]). split; [exists []; by rewrite app_nil_r|].
    split; [done|]. split; [|done]. intros j. unfold arc. cbn. set_solver. }
  destruct (Hes x) as [[a b] Hab]; [by left|].
  rewrite (resolve_from nodes x a b k n (go_ids _ Hok) Hk Hab).
  assert (Hes' : forall y, y ∈ es -> is_Some (resolve nodes y)) by (intros y Hy; apply Hes; by right).
  unfold arc in *. rewrite arcs_cons, Hab in *.
  destruct (resolve_lt _ _ _ _ Hab) as [_ Hb]. apply resolve_Some in Hab as [_ ->].
  case_bool_decide as Hak.
  2:{ destruct (IH e) as (e' & He & H1 & H2 & H3 & H4 & H5 & H6 & H7 & H8 & H9); try done.
      { intros j Hj. apply Hnt. by right. }
      exists e'. repeat (split; [done|]). split; [|done].
      intros j. rewrite H8, elem_of_cons. intuition congruence. }
  subst a.
  destruct (lookup_lt_is_Some_2 (visited e) b) as [vb Hvb].
  { pose proof (go_nodes _ Hok). lia. }
  destruct vb; rewrite Hvb.
  - assert (Hbq : b ∈ queued e).
    { apply Hm in Hvb as [|Hbt]; [done|]. exfalso. apply (Hnt b); [by left|done]. }
    destruct (IH e) as (e' & He & H1 & H2 & H3 & H4 & H5 & H6 & H7 & H8 & H9); try done.
    { intros j Hj. apply Hnt. by right. }
    exists e'. repeat (split; [done|]). split; [|done].
    intros j. rewrite H8, elem_of_cons. split; [tauto|]. intros [Hj|[[= ->]|Hj]]; auto.
  - assert (Hbn : b ∉ queued e) by (intros Hbq; assert (visited e !! b = Some true) by (apply Hm; by left); congruence).
    assert (Hroom : ex_tail e < length (pending e)).
    { assert (length (b :: queued e) <= length nodes).
      { apply NoDup_lt_length; [by constructor|]. constructor; [done|]. by apply Forall_forall. }
      pose proof (go_nodes _ Hok). unfold queued in *. simpl in *. rewrite length_take in *. lia. }
    rewrite (proj2 (Nat.ltb_lt _ _)) by done.
    pose proof (queued_push e b Hroom) as Hq.
    edestruct IH as (e' & He & H1 & H2 & H3 & H4 & H5 & H6 & H7 & H8 & H9); cycle -1.
    { exists e'. split; [exact He|]. rewrite Hq in *. cbn in *. repeat (split; [done||lia|]).
      destruct H6 as [more H6]. split; [exists (b :: more); by rewrite H6, <-app_assoc|].
      split; [done|]. split; [|done]. intros j. rewrite H8, elem_of_app, list_elem_of_singleton, elem_of_cons.
      split; [intuition congruence|]. intros [Hj|[[= ->]|Hj]]; auto. }
    all: rewrite ?Hq; cbn; try done.
    + by rewrite length_insert.
    + by rewrite length_insert.
    + lia.
    + by apply NoDup_snoc.
    + intros j. rewrite elem_of_app, list_elem_of_singleton. intros [Hj| ->]; auto.
    + intros j Hj. apply Hnt. by right.
    + intros i. rewrite elem_of_app, list_elem_of_singleton. destruct (decide (b = i)) as [<-|Hbi].
      * rewrite list_lookup_insert_eq by (pose proof (go_nodes _ Hok); lia). tauto.
      * rewrite list_lookup_insert_ne by done. rewrite Hm. intuition congruence.
Qed.

(** [self.waiting.take()] and [self.visited[index] = true] *)
Definition finished (e : Execution) (k : nat) : Execution :=
  mk_exec (pending e) (ex_head e) (ex_tail e) (<[k := true]> (visited e)) None.

Lemma finish_Ok T opened e k :
  inv T opened e -> waiting e = Some k -> k < length nodes ->
  finish e = (Ok k, finished e k) /\ inv (fun i => i = k \/ T i) opened (finished e k).
Proof using Hok.
  intros Hi Hw Hk. pose proof (go_nodes _ Hok) as Hn. pose proof Hi as [H1 H2 H3 H4 H5 H6 H7].
  unfold finish. rewrite Hw, (proj2 (Nat.ltb_lt _ _)) by lia. split; [done|].
  split; try done; cbn.
  - by rewrite length_insert.
  - intros i. unfold queued in *; cbn. destruct (decide (k = i)) as [->|Hki].
    + rewrite list_lookup_insert_eq by lia. tauto.
    + rewrite list_lookup_insert_ne, H7 by done. intuition congruence.
Qed.

Lemma inv_T_ext T T' opened e :
  inv T opened e -> (forall i, i ∈ queued e \/ T i <-> i ∈ queued e \/ T' i) -> inv T' opened e.
Proof. intros [H1 H2 H3 H4 H5 H6 H7] HT. split; try done. intros i. by rewrite H7, HT. Qed.

Lemma arc_not_trigger i j : arc nodes edges i j -> ~ is_trigger nodes j.
Proof using Hok.
  intros (x & Hx & Hr)%list_elem_of_omap. pose proof (go_ends _ Hok) as He.
  rewrite Forall_forall in He. destruct (He x Hx) as (a & b & Hab & _ & Ht). naive_solver.
Qed.

(** Completing card [k] in a state where it counts as visited: its successors are queued unless
    it blocks. *)
Lemma complete_Ok T opened e k n passed :
  waiting e = Some k -> finish e = (Ok k, finished e k) -> inv T opened (finished e k) ->
  (forall i, T i -> is_trigger nodes i) -> nodes !! k = Some n ->
  exists e', complete flow passed e = (Ok tt, e') /\ waiting e' = None /\ ex_head e' = ex_head e /\
    inv T (fun i => opened i \/ (i = k /\ blocks n passed = false)) e' /\
    exists more, queued e' = queued e ++ more /\
      forall j, j ∈ more -> blocks n passed = false /\ arc nodes edges k j.
Proof using Hok.
  intros Hw Hf Hi HT Hn. unfold complete. rewrite Hf, Hn.
  pose proof Hi as [H1 H2 H3 H4 H5 H6 H7].
  destruct (blocks n passed) eqn:Eb.
  { exists (finished e k). repeat (split; [done|]). split.
    - split; try done. intros j. rewrite H6. setoid_rewrite (or_comm (opened _)). naive_solver.
    - exists []. rewrite app_nil_r. split; [done|]. intros j Hj. by apply not_elem_of_nil in Hj. }
  destruct (enqueue_Ok edges (finished e k) k n T Hn) as
    (e' & -> & G1 & G2 & G3 & G4 & G5 & (more & G6) & G7 & G8 & G9); try done.
  { apply Forall_forall, edge_ok_resolves, go_ends, Hok. }
  { intros j Hj. by eapply inv_queue_lt. }
  { intros i (m & Hm & _)%HT. by eapply lookup_lt_Some. }
  { intros j Hj HTj. by eapply arc_not_trigger; [|apply HT]. }
  exists e'. repeat (split; [done|]). split.
  - split; try done; [rewrite G3; simpl in *; lia|lia|].
    intros j. rewrite G8, H6. split.
    + intros [(i & Hoi & Hij)|Hkj]; [by exists i; auto|by exists k; auto].
    + intros (i & [Hoi|[-> _]] & Hij); [left; by exists i|by right].
  - exists more. split; [done|]. intros j Hj. split; [done|].
    assert (Hjq : j ∈ queued e') by (rewrite G6; apply elem_of_app; by right).
    apply G8 in Hjq as [Hjq|Hjq]; [|done]. exfalso.
    rewrite G6 in G7. apply NoDup_app in G7 as (_ & Hd & _). by apply (Hd j).
Qed.

(** ** Starting *)

Definition no_node (i : nat) : Prop := False.

Lemma inv_start : inv no_node no_node exec_new.
Proof.
  split; [apply repeat_length..|done|apply Nat.le_0_l|constructor| |].
  - intros j. split; [by intros Hj%not_elem_of_nil|]. by intros (i & [] & _).
  - intros i. split; [by intros [? _]%lookup_repeat|].
    intros [Hi|[]]. by apply not_elem_of_nil in Hi.
Qed.

(** Every queued card has an opened predecessor among the triggers and the cards before it. *)
Definition causal (T : nat -> Prop) (outcome : nat -> Outcome) (q : list nat) : Prop :=
  forall l1 j l2, q = l1 ++ j :: l2 ->
    exists i, (T i \/ (i ∈ l1 /\ opens nodes outcome i)) /\ arc nodes edges i j.

Lemma causal_mono T T' outcome q :
  (forall i, T i -> T' i) -> causal T outcome q -> causal T' outcome q.
Proof. intros HT Hc l1 j l2 Hq. destruct (Hc l1 j l2 Hq) as (i & Hi & Hij). exists i. naive_solver. Qed.

Lemma causal_app T outcome q more k :
  causal T outcome q -> (T k \/ (k ∈ q /\ opens nodes outcome k)) ->
  (forall j, j ∈ more -> arc nodes edges k j) -> causal T outcome (q ++ more).
Proof.
  intros Hc Hk Hm l1 j l2 Hq.
  apply app_eq_inv in Hq as [(l & -> & Hq)|(l & -> & ->)].
  - destruct l as [|x l]; simpl in Hq.
    + subst more. exists k. split; [|apply Hm; by left]. rewrite app_nil_r in Hk. done.
    + injection Hq as <- Hq. by apply (Hc l1 j l).
  - exists k. split; [|apply Hm, elem_of_app; right; by left].
    destruct Hk as [Hk|[Hk Hok']]; [by left|]. right. split; [|done]. apply elem_of_app. by left.
Qed.

Definition starts (ids : list string) (i : nat) : Prop :=
  exists id, id ∈ ids /\ node_index nodes id = Ok i.

(** What holds of an execution while no card is out. *)
Record idle (T opened : nat -> Prop) (outcome : nat -> Outcome) (e : Execution) : Prop := {
  idle_inv : inv T opened e;
  idle_waiting : waiting e = None;
  idle_triggers : forall i, T i -> is_trigger nodes i;
  idle_opened : forall i, opened i <-> T i \/ (i ∈ take (ex_head e) (pending e) /\ opens nodes outcome i);
  idle_causal : causal T outcome (queued e)
}.

Lemma idle_ext T T' opened opened' outcome e :
  (forall i, T i <-> T' i) -> (forall i, opened i <-> opened' i) ->
  idle T opened outcome e -> idle T' opened' outcome e.
Proof.
  intros HT Ho [[H1 H2 H3 H4 H5 H6 H7] Hw Ht Hop Hc]. split; [split; try done| | | |]; try done.
  - intros j. rewrite H6. by setoid_rewrite Ho.
  - intros i. by rewrite H7, HT.
  - intros i Hi. by apply Ht, HT.
  - intros i. by rewrite <-Ho, Hop, HT.
  - eapply causal_mono; [|exact Hc]. intros i. by rewrite HT.
Qed.

Lemma trigger_opens n : kind n = "trigger" -> blocks n true = false.
Proof. intros Hk. unfold blocks. by rewrite Hk. Qed.

(** Starting at one more trigger. *)
Lemma start_one T outcome e k n :
  idle T T outcome e -> ex_head e = 0 -> nodes !! k = Some n -> kind n = "trigger" ->
  exists e', complete flow true (mk_exec (pending e) (ex_head e) (ex_tail e) (visited e) (Some k)) = (Ok tt, e') /\
    idle (fun i => i = k \/ T i) (fun i => i = k \/ T i) outcome e' /\ ex_head e' = 0.
Proof using Hok.
  intros [Hi Hw Ht Hop Hc] Hh Hn Hk.
  set (e0 := mk_exec (pending e) (ex_head e) (ex_tail e) (visited e) (Some k)).
  assert (Hi0 : inv T T e0) by (destruct Hi; by split).
  destruct (finish_Ok T T e0 k Hi0 eq_refl) as [Hf Hif]; [by eapply lookup_lt_Some|].
  assert (Ht' : forall i, i = k \/ T i -> is_trigger nodes i).
  { intros i [->|Hi']; [by exists n|by apply Ht]. }
  destruct (complete_Ok _ T e0 k n true eq_refl Hf Hif Ht' Hn)
    as (e' & He & Hw' & Hh' & Hi' & more & Hq & Hm).
  exists e'. split; [done|]. split; [|by rewrite Hh'].
  eapply (idle_ext (fun i => i = k \/ T i) _ (fun i => T i \/ (i = k /\ blocks n true = false))); [done| |].
  { intros i. rewrite trigger_opens by done. intuition. }
  split; [done|done|done| |].
  - intros i. rewrite Hh'. cbn. rewrite Hh, trigger_opens by done. cbn. set_solver.
  - rewrite Hq. apply (causal_app _ _ _ _ k); [|by left; left|intros j Hj; by apply Hm].
    eapply causal_mono; [|exact Hc]. auto.
Qed.

Lemma start_triggers_Ok ids T outcome e :
  idle T T outcome e -> ex_head e = 0 ->
  is_ok (start_triggers flow ids e) = true <->
  Forall (fun id => exists i, node_index nodes id = Ok i /\ is_trigger nodes i) ids.
Proof using Hok.
  revert T e. induction ids as [|id ids IH]; intros T e Hi Hh; cbn [start_triggers].
  { split; [constructor|done]. }
  rewrite Forall_cons.
  destruct (node_index nodes id) as [k|er] eqn:Ek; cbn [mbind result_bind]; [|naive_solver].
  destruct (nodes !! k) as [n|] eqn:En.
  2:{ exfalso. rewrite node_index_Ok in Ek. apply position_lt in Ek. apply lookup_ge_None in En. lia. }
  destruct (is_kind "trigger" n) eqn:Ekd; cbn [negb].
  2:{ split; [done|]. intros [(i & [= <-] & m & Hm & Hkm) _]. exfalso.
      apply String.eqb_neq in Ekd. congruence. }
  apply String.eqb_eq in Ekd.
  assert (Htr : (exists i, Ok k = @Ok Error nat i /\ is_trigger nodes i) <-> True).
  { split; [done|]. intros _. exists k. split; [done|]. by exists n. }
  rewrite Htr. clear Htr.
  destruct (visited e !! k) as [[]|] eqn:Ev.
  1: rewrite (IH T e Hi Hh); tauto.
  all: destruct (start_one T outcome e k n Hi Hh En Ekd) as (e' & -> & Hi' & Hh'); cbn [mbind result_bind];
    rewrite (IH _ e' Hi' Hh'); tauto.
Qed.

Lemma start_triggers_idle ids T outcome e e' :
  idle T T outcome e -> ex_head e = 0 -> start_triggers flow ids e = Ok e' ->
  idle (fun i => T i \/ starts ids i) (fun i => T i \/ starts ids i) outcome e' /\ ex_head e' = 0.
Proof using Hok.
  assert (Hcons : forall id l i k, node_index nodes id = Ok k ->
    starts (id :: l) i <-> i = k \/ starts l i).
  { intros id l i k Hk. unfold starts. setoid_rewrite elem_of_cons. split.
    - intros (x & [->|Hx] & Hxi); [left; congruence|right; by exists x].
    - intros [->|(x & Hx & Hxi)]; [by exists id; auto|by exists x; auto]. }
  revert T e. induction ids as [|id ids IH]; intros T e Hi Hh Hs; cbn [start_triggers] in Hs.
  { injection Hs as <-. split; [|done]. eapply idle_ext; [| |exact Hi];
      intros i; unfold starts; set_solver. }
  destruct (node_index nodes id) as [k|er] eqn:Ek; cbn [mbind result_bind] in Hs; [|done].
  destruct (nodes !! k) as [n|] eqn:En; [|done].
  destruct (is_kind "trigger" n) eqn:Ekd; cbn [negb] in Hs; [|done]. apply String.eqb_eq in Ekd.
  assert (Hstep : (exists e1, start_triggers flow ids e1 = Ok e' /\ ex_head e1 = 0 /\
      idle (fun i => i = k \/ T i) (fun i => i = k \/ T i) outcome e1)).
  { destruct (visited e !! k) as [[]|] eqn:Ev.
    1:{ exists e. split; [done|]. split; [done|].
        assert (HTk : T k).
        { apply (inv_mark _ _ _ (idle_inv _ _ _ _ Hi)) in Ev as [(a & _ & Ha)%(inv_queue _ _ _ (idle_inv _ _ _ _ Hi))|]; [|done].
          exfalso. eapply arc_not_trigger; [exact Ha|]. by exists n. }
        eapply idle_ext; [| |exact Hi]; intros i; split; auto; by intros [->|]. }
    all: destruct (start_one T outcome e k n Hi Hh En Ekd) as (e1 & He & Hi' & Hh');
      rewrite He in Hs; cbn [mbind result_bind] in Hs; by exists e1. }
  destruct Hstep as (e1 & Hs1 & Hh1 & Hi1). destruct (IH _ e1 Hi1 Hh1 Hs1) as [Hi' Hh'].
  split; [|done]. eapply idle_ext; [| |exact Hi']; intros i; rewrite (Hcons id ids i k Ek); tauto.
Qed.

(** ** Driving to the end *)

Lemma take_head_S e i :
  pending e !! ex_head e = Some i -> take (S (ex_head e)) (pending e) = take (ex_head e) (pending e) ++ [i].
Proof. intros Hi. by apply take_S_r. Qed.

(** One delivery and its report. *)
Lemma drive_step T opened outcome e :
  idle T opened outcome e -> ex_head e < ex_tail e ->
  exists i n e1 e2 opened',
    next flow e = (Ok (Some n), e1) /\ waiting e1 = Some i /\
    pending e !! ex_head e = Some i /\
    report flow (outcome i) e1 = (Ok tt, e2) /\ idle T opened' outcome e2 /\
    ex_head e2 = S (ex_head e) /\ take (ex_head e) (pending e2) = take (ex_head e) (pending e) /\
    pending e2 !! ex_head e = Some i.
Proof using Hok.
  intros [Hi Hw Ht Hop Hc] Hht. pose proof Hi as [H1 H2 H3 H4 H5 H6 H7].
  destruct (lookup_lt_is_Some_2 (pending e) (ex_head e)) as [i Hpi]; [lia|].
  assert (Hiq : i ∈ queued e).
  { apply list_elem_of_lookup_2 with (ex_head e). unfold queued. by rewrite lookup_take_lt. }
  pose proof (inv_queue_lt _ _ _ _ Hi Hiq) as Hin.
  destruct (lookup_lt_is_Some_2 nodes i Hin) as [n Hn].
  set (e1 := mk_exec (pending e) (S (ex_head e)) (ex_tail e) (visited e) (Some i)).
  assert (Hi1 : inv T opened e1) by (split; try done; cbn; lia).
  destruct (finish_Ok T opened e1 i Hi1 eq_refl Hin) as [Hf Hif].
  assert (Hif' : inv T opened (finished e1 i)).
  { eapply inv_T_ext; [exact Hif|]. intros j. change (queued (finished e1 i)) with (queued e).
    intuition congruence. }
  exists i, n, e1.
  assert (Hnext : next flow e = (Ok (Some n), e1)).
  { unfold next. rewrite Hw, (proj2 (Nat.eqb_neq _ _)) by lia. by rewrite Hpi, Hn. }
  assert (Hsplit : forall e2, ex_head e2 = S (ex_head e) ->
            (exists more, queued e2 = queued e ++ more) -> ex_tail e <= ex_tail e2 ->
            take (S (ex_head e)) (pending e2) = take (S (ex_head e)) (pending e)).
  { intros e2 _ [more Hq] Htl.
    assert (Htk : forall x, S (ex_head e) <= ex_tail x ->
              take (S (ex_head e)) (pending x) = take (S (ex_head e)) (queued x)).
    { intros x Hx. unfold queued. rewrite take_take. f_equal. lia. }
    rewrite (Htk e2), (Htk e) by lia. rewrite Hq, take_app_le; [done|].
    rewrite (queued_length _ _ _ Hi). lia. }
  assert (Hfin : forall e2, take (S (ex_head e)) (pending e2) = take (S (ex_head e)) (pending e) ->
            take (ex_head e) (pending e2) = take (ex_head e) (pending e) /\ pending e2 !! ex_head e = Some i).
  { intros e2 Heq. split.
    - apply (f_equal (take (ex_head e))) in Heq. rewrite !take_take in Heq.
      by rewrite Nat.min_l in Heq by lia.
    - apply (f_equal (lookup (ex_head e))) in Heq. rewrite !lookup_take_lt in Heq by lia. by rewrite Heq. }
  assert (Hopen' : forall e2 (b : Prop), ex_head e2 = S (ex_head e) ->
    take (S (ex_head e)) (pending e2) = take (S (ex_head e)) (pending e) ->
    (b <-> opens nodes outcome i) -> forall j,
    opened j \/ (j = i /\ b) <-> T j \/ (j ∈ take (ex_head e2) (pending e2) /\ opens nodes outcome j)).
  { intros e2 b Hh2 Htk Hb j. rewrite Hh2, Htk, (take_S_r _ _ _ Hpi), elem_of_app, list_elem_of_singleton, Hop.
    rewrite Hb. intuition congruence. }
  destruct (outcome i) as [passed|] eqn:Eo.
  - destruct (complete_Ok T opened e1 i n passed eq_refl Hf Hif' Ht Hn)
      as (e2 & He & Hw' & Hh' & Hi' & more & Hq & Hm).
    assert (Htk := Hsplit e2 Hh' (ex_intro _ more Hq)).
    assert (Htl : ex_tail e <= ex_tail e2).
    { rewrite <-(queued_length _ _ _ Hi), <-(queued_length _ _ _ Hi'), Hq, length_app.
      change (queued e1) with (queued e). lia. }
    specialize (Htk Htl). destruct (Hfin e2 Htk) as [Hf1 Hf2].
    assert (Hob : blocks n passed = false <-> opens nodes outcome i) by (unfold opens; by rewrite Eo, Hn).
    exists e2, (fun j => opened j \/ (j = i /\ blocks n passed = false)).
    repeat (split; [done|]). split; [|done]. split; try done.
    + by apply Hopen'.
    + rewrite Hq. destruct more as [|x more]; [by rewrite app_nil_r|].
      apply (causal_app _ _ _ _ i); [done| |intros j Hj; by apply Hm].
      right. split; [done|]. apply Hob, (Hm x). by left.
  - exists (finished e1 i), (fun j => opened j \/ (j = i /\ False)).
    split; [done|]. split; [done|]. split; [done|].
    split; [cbn; unfold skip; by rewrite Hf|]. split; [|done]. split; try done.
    + destruct Hif' as [G1 G2 G3 G4 G5 G6 G7]. split; try done.
      intros j. rewrite G6. split; intros (a & Ha & Haj); exists a; tauto.
    + apply Hopen'; [done|done|]. unfold opens. by rewrite Eo.
Qed.

(** The cards an execution has to deliver. *)
Inductive runs (T : nat -> Prop) (outcome : nat -> Outcome) : nat -> Prop :=
| runs_trigger i j : T i -> arc nodes edges i j -> runs T outcome j
| runs_card i j : runs T outcome i -> opens nodes outcome i -> arc nodes edges i j -> runs T outcome j.

Lemma causal_runs T outcome q j : causal T outcome q -> j ∈ q -> runs T outcome j.
Proof.
  intros Hc. revert j.
  assert (Hall : forall l1 l2, q = l1 ++ l2 -> forall j, j ∈ l1 -> runs T outcome j).
  { intros l1. induction l1 as [|x l1 IH] using rev_ind; intros l2 Hq j Hj; [by apply not_elem_of_nil in Hj|].
    rewrite <-app_assoc in Hq. apply elem_of_app in Hj as [Hj|Hj]; [by eapply IH|].
    apply list_elem_of_singleton in Hj as ->.
    destruct (Hc l1 x l2 Hq) as (i & [Hi|[Hi Ho]] & Hix); [by eapply runs_trigger|].
    eapply runs_card; [by eapply IH|done|done]. }
  intros j. apply (Hall q []). by rewrite app_nil_r.
Qed.

Lemma drive_Ok fuel T opened outcome e :
  idle T opened outcome e -> length nodes - ex_head e < fuel ->
  exists log e', drive fuel flow outcome e (take (ex_head e) (pending e)) = Ok (log, e') /\
    NoDup log /\ length log <= length nodes /\ causal T outcome log /\
    forall j, j ∈ log <-> runs T outcome j.
Proof using Hok.
  revert opened e. induction fuel as [|fuel IH]; intros opened e Hid Hf; [lia|]. cbn [drive].
  pose proof Hid as [Hi Hw Ht Hop Hc]. pose proof Hi as [H1 H2 H3 H4 H5 H6 H7].
  destruct (decide (ex_head e = ex_tail e)) as [Heq|Hne].
  - unfold next at 1. rewrite Hw, (proj2 (Nat.eqb_eq _ _) Heq).
    assert (Hlog : take (ex_head e) (pending e) = queued e) by (unfold queued; by rewrite Heq).
    exists (take (ex_head e) (pending e)), e. split; [done|]. rewrite Hlog in *. split; [done|].
    split; [rewrite (queued_length _ _ _ Hi); by eapply tail_le_nodes|]. split; [done|].
    intros j. split; [by apply causal_runs|].
    induction 1 as [i j HTi Hij|i j _ IHr Ho Hij]; apply H6; exists i; (split; [|done]); apply Hop; auto.
  - destruct (drive_step T opened outcome e Hid ltac:(lia))
      as (i & n & e1 & e2 & opened' & -> & -> & Hpi & -> & Hid2 & Hh2 & Htk & Hp2).
    destruct (IH opened' e2 Hid2) as (log & e' & Hd & Hrest).
    { pose proof (tail_le_nodes _ _ _ Hi). lia. }
    exists log, e'. split; [|done]. rewrite <-Hd, Hh2, (take_S_r _ _ _ Hp2), Htk. done.
Qed.
End Run.

Lemma idle_start flow outcome : idle flow no_node no_node outcome exec_new.
Proof.
  split; [apply inv_start|done|by intros i []| |].
  - intros i. split; [by intros []|]. intros [[]|[Hi _]]. by apply not_elem_of_nil in Hi.
  - intros l1 j l2 Hq. change (queued exec_new) with (@nil nat) in Hq. by destruct l1.
Qed.

(** An execution starts exactly if the Flow is valid and every given id names a trigger of
    it; otherwise [start_many] is an error. *)
Theorem start_many_accepts flow ids :
  is_ok (start_many flow ids) = true <->
  graph_ok flow /\
  Forall (fun id => exists i, node_index (array flow "nodes") id = Ok i /\
                              is_trigger (array flow "nodes") i) ids.
Proof.
  unfold start_many. pose proof (validate_graph_ok flow) as Hv.
  destruct (validate flow) as [[]|er]; cbn [mbind result_bind].
  - assert (Hok : graph_ok flow) by (by apply Hv).
    rewrite (start_triggers_Ok flow Hok ids no_node (fun _ => Failed)) by (apply idle_start || done). tauto.
  - split; [done|]. intros [Hg _]. by apply Hv in Hg.
Qed.

(** C9: a started execution, driven to its end with whatever outcomes its cards have, delivers
    its cards without an error, each at most once and at most as many as there are cards; it
    delivers exactly the cards the started triggers reach through cards that let their
    successors start, and each only after a card that started it.  A false condition or a
    failed action stops its own branch and nothing else. *)
Theorem execution_delivers flow ids outcome e :
  start_many flow ids = Ok e ->
  exists log e', drive (S (length (array flow "nodes"))) flow outcome e [] = Ok (log, e') /\
    NoDup log /\ length log <= length (array flow "nodes") /\
    causal flow (starts flow ids) outcome log /\
    forall j, j ∈ log <-> runs flow (starts flow ids) outcome j.
Proof.
  unfold start_many. intros Hs. destruct (validate flow) as [[]|er] eqn:Ev; cbn [mbind result_bind] in Hs; [|done].
  assert (Hok : graph_ok flow) by (by apply validate_graph_ok).
  apply (start_triggers_idle flow Hok ids no_node outcome) in Hs as [Hid Hh]; [|apply idle_start|done].
  apply (idle_ext flow _ (starts flow ids) _ (starts flow ids)) in Hid;
    [|unfold no_node; tauto|unfold no_node; tauto].
  destruct (drive_Ok flow Hok (S (length (array flow "nodes"))) _ _ outcome e Hid) as (log & e' & Hd & Hrest);
    [lia|]. exists log, e'. rewrite Hh in Hd. done.
Qed.

Definition fails_condition (i : nat) : Outcome := Completed (negb (i =? 1)).

Lemma execution_delivers_witness :
  exists log e', drive 5 example_flow fails_condition
    (match start_many example_flow ["t"] with Ok e => e | Err _ => exec_new end) [] = Ok (log, e') /\
    NoDup log /\ length log <= 4 /\ causal example_flow (starts example_flow ["t"]) fails_condition log /\
    forall j, j ∈ log <-> runs example_flow (starts example_flow ["t"]) fails_condition j.
Proof. apply (execution_delivers example_flow ["t"]). vm_compute. reflexivity. Defined.
