(* ===== verification/Time.v ===== *)
(** * Time: instants as Unix nanoseconds and RFC 3339 text

    [vendor/types/src/time.rs] ([Time::write_rfc3339], [Time::parse_rfc3339], the civil
    calendar) and the three functions of [crates/core/src/json.rs] built on it. *)

From Stdlib Require Import ZArith Lia Ascii String.
From S2P Require Import Prelude Text Errors Float.

Local Open Scope Z_scope.

Definition SECOND : Z := 1000000000.

(** ** The civil calendar *)

(** Days since 1970-01-01 to year, month, day. *)
Definition civil_from_days (days : Z) : Z * Z * Z :=
  let z := days + 719468 in
  let era := z / 146097 in
  let doe := z - era * 146097 in
  let yoe := (doe - doe / 1460 + doe / 36524 - doe / 146096) / 365 in
  let doy := doe - (365 * yoe + yoe / 4 - yoe / 100) in
  let mp := (5 * doy + 2) / 153 in
  let d := doy - (153 * mp + 2) / 5 + 1 in
  let m := if mp <? 10 then mp + 3 else mp - 9 in
  let y := yoe + era * 400 + (if m <=? 2 then 1 else 0) in
  (y, m, d).

Definition days_from_civil (y m d : Z) : Z :=
  let y := if m <=? 2 then y - 1 else y in
  let era := y / 400 in
  let yoe := y - era * 400 in
  let mp := if 2 <? m then m - 3 else m + 9 in
  let doy := (153 * mp + 2) / 5 + d - 1 in
  let doe := yoe * 365 + yoe / 4 - yoe / 100 + doy in
  saturating_sub (era * 146097 + doe) 719468.

(** ** Writing *)

(** [{z:0n}] *)
Definition pad (n : nat) (z : Z) : list Z :=
  let ds := show_nat z in repeat 48 (n - length ds) ++ ds.

(** The stack buffer of the formatter: a text that does not fit is an error. *)
Definition FIXED : nat := 40.

Definition fb_push (buf : list Z) (c : Z) : list Z :=
  if (length buf <? FIXED)%nat then buf ++ [c] else buf.

Definition fb_write (buf s : list Z) : option (list Z) :=
  if (FIXED <? length buf + length s)%nat then None else Some (fold_left fb_push s buf).

(** [for slot in digits.iter_mut().rev()] *)
Fixpoint fixed_digits (n : nat) (f : Z) (acc : list Z) : list Z :=
  match n with
  | O => acc
  | S n => fixed_digits n (f / 10) (48 + f mod 10 :: acc)
  end.

(** [while n > 0 && digits.get(n - 1) == Some(&b'0')] *)
Fixpoint trim_zeros (n : nat) (ds : list Z) : nat :=
  match n with
  | O => O
  | S k => match ds !! k with
           | Some d => if d =? 48 then trim_zeros k ds else n
           | None => n
           end
  end.

Definition write_rfc3339 (t : Z) : result HopError string :=
  if t =? 0 then Ok "0001-01-01T00:00:00Z" else
  let secs := t / SECOND in
  let frac := t mod SECOND in
  let days := secs / 86400 in
  let rem := secs mod 86400 in
  let '(y, m, d) := civil_from_days days in
  match fb_write [] (pad 4 y ++ [45] ++ pad 2 m ++ [45] ++ pad 2 d ++ [84]
                     ++ pad 2 (rem / 3600) ++ [58] ++ pad 2 ((rem / 60) mod 60) ++ [58]
                     ++ pad 2 (rem mod 60)) with
  | None => Err OutOfMemory
  | Some buf =>
      let buf :=
        if 0 <? frac then
          let digits := fixed_digits 9 frac [] in
          fold_left fb_push (take (trim_zeros 9 digits) digits) (fb_push buf 46)
        else buf in
      Ok (of_bytes (fb_push buf 90))
  end.

(** ** Reading *)

Definition is_ascii_digit (c : Z) : bool := between 48 c 57.

(** [num(from, len)] *)
Definition num (b : list Z) (from n : nat) : option Z :=
  part ← slice b from (from + n);
  if forallb is_ascii_digit part then Some (digits_val 0 part) else None.

Definition byte_is (b : list Z) (i : nat) (cs : list Z) : bool :=
  match b !! i with Some c => existsb (Z.eqb c) cs | None => false end.

(** [while let Some(c) = b.get(i).filter(is_ascii_digit)], over [b[i..]]: the digits read (at
    most nine count), their value and the position after them. *)
Fixpoint frac_loop (l : list Z) (n : nat) (frac : Z) (i : nat) : nat * Z * nat :=
  match l with
  | c :: l =>
      if is_ascii_digit c then
        if (n <? 9)%nat then frac_loop l (S n) (frac * 10 + (c - 48)) (S i)
        else frac_loop l n frac (S i)
      else (n, frac, i)
  | [] => (n, frac, i)
  end.

(** The optional fraction from position 19. *)
Definition read_frac (b : list Z) : option (Z * nat) :=
  if byte_is b 19 [46] then
    let '(n, frac, i) := frac_loop (drop 20 b) 0 0 20 in
    if (n =? 0)%nat then None else Some (frac * 10 ^ Z.of_nat (9 - n), i)
  else Some (0, 19%nat).

(** The zone: [Z], or an offset in seconds. *)
Definition read_offset (b : list Z) (i : nat) : option Z :=
  if byte_is b i [90; 122] && (length b =? i + 1)%nat then Some 0
  else if byte_is b i [43; 45] && (length b =? i + 6)%nat && byte_is b (i + 3) [58] then
    hh ← num b (i + 1) 2;
    mm ← num b (i + 4) 2;
    let o := hh * 3600 + mm * 60 in
    Some (if byte_is b i [43] then o else - o)
  else None.

Definition read_rfc3339 (b : list Z) : option Z :=
  if (length b <? 20)%nat || negb (byte_is b 4 [45]) || negb (byte_is b 7 [45]) then None else
  if negb (byte_is b 10 [84; 116]) || negb (byte_is b 13 [58]) || negb (byte_is b 16 [58])
  then None else
  y ← num b 0 4; mo ← num b 5 2; d ← num b 8 2;
  h ← num b 11 2; mi ← num b 14 2; sec ← num b 17 2;
  if negb (between 1 mo 12) || negb (between 1 d 31) || (23 <? h) || (59 <? mi) || (60 <? sec)
  then None else
  '(frac, i) ← read_frac b;
  offset ← read_offset b i;
  if y <? 1970 then Some 0 else
  let days := days_from_civil y mo d in
  let secs := days * 86400 + h * 3600 + mi * 60 + sec - offset in
  if secs <? 0 then None else
  ns ← checked_mul secs SECOND;
  checked_add ns frac.

Definition parse_rfc3339 (s : string) : result HopError Z :=
  ok_or (read_rfc3339 (as_bytes s)) (HopInvalid "time" "not an RFC 3339 timestamp").

(** ** The core's instants *)

Definition timestamp (nanoseconds : Z) : Result string := from_hop (write_rfc3339 nanoseconds).

Definition time_is_before (a b : string) : bool :=
  match parse_rfc3339 a, parse_rfc3339 b with
  | Ok a, Ok b => a <? b
  | _, _ => false
  end.

Definition unix_seconds (value : string) : option Z :=
  t ← res_ok (parse_rfc3339 value); Some (t / 1000000000).

(** ** The calendar is exact *)

Lemma civil_ranges days :
  0 <= days ->
  let z := days + 719468 in
  let era := z / 146097 in
  let doe := z - era * 146097 in
  let yoe := (doe - doe / 1460 + doe / 36524 - doe / 146096) / 365 in
  let doy := doe - (365 * yoe + yoe / 4 - yoe / 100) in
  0 <= yoe <= 399 /\ 0 <= doy <= 365.
Proof.
  intros Hd z era doe yoe doy.
  assert (0 <= doe <= 146096) by (unfold doe, era; pose proof (Z.div_mod z 146097); pose proof (Z.mod_pos_bound z 146097); lia).
  clearbody doe. unfold doy, yoe. clear - H. Z.to_euclidean_division_equations. lia.
Qed.

(** Months count from March in the algorithm. *)
Definition month_of (mp : Z) : Z := if mp <? 10 then mp + 3 else mp - 9.

Lemma month_of_spec mp :
  0 <= mp <= 11 ->
  1 <= month_of mp <= 12 /\ (if 2 <? month_of mp then month_of mp - 3 else month_of mp + 9) = mp /\
  (month_of mp <=? 2) = (10 <=? mp).
Proof.
  intros Hmp. unfold month_of. destruct (Z.ltb_spec mp 10).
  - rewrite (proj2 (Z.ltb_lt 2 _)), (proj2 (Z.leb_gt _ 2)), (proj2 (Z.leb_gt 10 _)) by lia. lia.
  - rewrite (proj2 (Z.ltb_ge 2 _)), (proj2 (Z.leb_le _ 2)), (proj2 (Z.leb_le 10 _)) by lia. lia.
Qed.

Lemma civil_from_days_spec days y m d :
  0 <= days -> civil_from_days days = (y, m, d) ->
  1970 <= y /\ 1 <= m <= 12 /\ 1 <= d <= 31 /\ days_from_civil y m d = days /\
  (days < 2932896 -> y <= 9999).
Proof.
  intros Hd. pose proof (civil_ranges days Hd) as Hr. unfold civil_from_days. cbn zeta in *.
  set (z := days + 719468) in *. set (era := z / 146097) in *. set (doe := z - era * 146097) in *.
  set (yoe := (doe - doe / 1460 + doe / 36524 - doe / 146096) / 365) in *.
  set (doy := doe - (365 * yoe + yoe / 4 - yoe / 100)) in *. destruct Hr as [Hy Hdoy].
  set (mp := (5 * doy + 2) / 153). change (if mp <? 10 then mp + 3 else mp - 9) with (month_of mp).
  assert (Hmp : 0 <= mp <= 11) by (unfold mp; clear - Hdoy; Z.to_euclidean_division_equations; lia).
  assert (Hday : 1 <= doy - (153 * mp + 2) / 5 + 1 <= 31)
    by (unfold mp; clear - Hdoy; Z.to_euclidean_division_equations; lia).
  assert (Hmp10 : 306 <= doy <-> 10 <= mp)
    by (unfold mp; clear; Z.to_euclidean_division_equations; lia).
  assert (Hz : days = era * 146097 + doe - 719468 /\ 0 <= doe <= 146096)
    by (unfold doe, era, z; clear; Z.to_euclidean_division_equations; lia).
  destruct (month_of_spec mp Hmp) as (Hm & Hback & Hlow).
  intros [= <- <- <-]. unfold days_from_civil. rewrite Hback, Hlow.
  clearbody mp. assert (Hdoe : doe = 365 * yoe + yoe / 4 - yoe / 100 + doy) by (unfold doy; lia).
  clearbody doy yoe doe era.
  split; [|split; [exact Hm|split; [exact Hday|]]].
  { clear Hback Hlow Hday Hm. destruct (Z.leb_spec 10 mp); Z.to_euclidean_division_equations; lia. }
  split.
  - replace (if 10 <=? mp then _ else _) with (yoe + era * 400) by (destruct (10 <=? mp); lia).
    rewrite Z.div_add, (Z.div_small yoe) by lia. unfold saturating_sub.
    replace (yoe + era * 400 - (0 + era) * 400) with yoe by lia. lia.
  - intros Hmax. clear Hback Hlow Hday Hm.
    destruct (Z.leb_spec 10 mp); Z.to_euclidean_division_equations; lia.
Qed.

(** The calendar arithmetic is exact for every day from 1970 on: the date of a day is a
    month from 1 to 12 and a day from 1 to 31, and it converts back to the same day number;
    no two days share a date. *)
Theorem civil_roundtrip days :
  0 <= days ->
  let '(y, m, d) := civil_from_days days in
  1970 <= y /\ 1 <= m <= 12 /\ 1 <= d <= 31 /\ days_from_civil y m d = days.
Proof.
  intros Hd. destruct (civil_from_days days) as [[y m] d] eqn:E.
  pose proof (civil_from_days_spec days y m d Hd E). tauto.
Qed.

Lemma civil_roundtrip_witness :
  let '(y, m, d) := civil_from_days 19782 in
  1970 <= y /\ 1 <= m <= 12 /\ 1 <= d <= 31 /\ days_from_civil y m d = 19782.
Proof. apply (civil_roundtrip 19782). lia. Defined.

(** ** Reading back what was written *)

Lemma digits_val_app v l k : digits_val v (l ++ k) = digits_val (digits_val v l) k.
Proof. apply fold_left_app. Qed.

Lemma digits_val_zeros n v : digits_val v (repeat 48 n) = v * 10 ^ Z.of_nat n.
Proof.
  revert v. induction n as [|n IH]; intros v; [cbn; lia|].
  cbn [repeat]. unfold digits_val. cbn [fold_left]. fold (digits_val (v * 10 + (48 - 48)) (repeat 48 n)).
  rewrite IH, Nat2Z.inj_succ, Z.pow_succ_r by lia. lia.
Qed.

Lemma length_digits_fuel_le fuel z acc k :
  0 <= z < 10 ^ Z.of_nat (S k) -> (length (digits_fuel fuel z acc) <= length acc + S k)%nat.
Proof.
  revert z acc k. induction fuel as [|fuel IH]; intros z acc k Hz; cbn [digits_fuel]; [lia|].
  destruct (Z.ltb_spec z 10) as [Hs|Hs]; [cbn; lia|].
  destruct k as [|k]; [change (10 ^ Z.of_nat 1) with 10 in Hz; lia|].
  rewrite Nat2Z.inj_succ, Z.pow_succ_r in Hz by lia.
  specialize (IH (z / 10) (48 + z mod 10 :: acc) k). cbn [length] in IH.
  assert (0 <= z / 10 < 10 ^ Z.of_nat (S k)); [|lia].
  split; [apply Z.div_pos; lia|apply Z.div_lt_upper_bound; lia].
Qed.

Lemma pad_spec n z :
  0 <= z < 10 ^ Z.of_nat (S n) ->
  length (pad (S n) z) = S n /\ forallb is_ascii_digit (pad (S n) z) = true /\
  digits_val 0 (pad (S n) z) = z.
Proof.
  intros Hz. unfold pad. pose proof (length_digits_fuel_le (S (Z.to_nat (Z.log2 z))) z [] n Hz) as Hl.
  fold (show_nat z) in Hl. cbn [length] in Hl. split; [|split].
  - rewrite length_app, repeat_length. lia.
  - rewrite forallb_app. apply andb_true_iff. split.
    + apply forallb_forall. by intros x ->%repeat_spec.
    + apply forallb_forall. intros x Hx. pose proof (show_nat_digits z ltac:(lia)) as Hd.
      rewrite List.Forall_forall in Hd. by apply Hd.
  - rewrite digits_val_app, digits_val_zeros. apply show_nat_val. lia.
Qed.

Lemma pad2_spec z : 0 <= z < 100 ->
  exists a b, pad 2 z = [a; b] /\ forallb is_ascii_digit [a; b] = true /\ digits_val 0 [a; b] = z.
Proof.
  intros Hz. destruct (pad_spec 1 z Hz) as (Hl & Hd & Hv).
  destruct (pad 2 z) as [|a [|b [|]]]; try done. by exists a, b.
Qed.

Lemma pad4_spec z : 0 <= z < 10000 ->
  exists a b c d, pad 4 z = [a; b; c; d] /\ forallb is_ascii_digit [a; b; c; d] = true /\
    digits_val 0 [a; b; c; d] = z.
Proof.
  intros Hz. destruct (pad_spec 3 z Hz) as (Hl & Hd & Hv).
  destruct (pad 4 z) as [|a [|b [|c [|d [|]]]]]; try done. by exists a, b, c, d.
Qed.

Lemma fixed_digits_spec n f acc v :
  0 <= f < 10 ^ Z.of_nat n ->
  length (fixed_digits n f acc) = (n + length acc)%nat /\
  (forallb is_ascii_digit acc = true -> forallb is_ascii_digit (fixed_digits n f acc) = true) /\
  digits_val v (fixed_digits n f acc) = digits_val (v * 10 ^ Z.of_nat n + f) acc.
Proof.
  revert f acc. induction n as [|n IH]; intros f acc Hf; cbn [fixed_digits].
  { change (10 ^ Z.of_nat 0) with 1 in *. split; [done|]. split; [done|]. f_equal. lia. }
  rewrite Nat2Z.inj_succ, Z.pow_succ_r in Hf by lia.
  pose proof (Z.mod_pos_bound f 10 ltac:(lia)) as Hm. pose proof (Z.div_mod f 10 ltac:(lia)) as Hdm.
  destruct (IH (f / 10) (48 + f mod 10 :: acc)) as (Hl & Hd & Hv).
  { split; [apply Z.div_pos; lia|apply Z.div_lt_upper_bound; lia]. }
  split; [rewrite Hl; cbn; lia|]. split.
  - intros Ha. apply Hd. cbn [forallb]. rewrite Ha. unfold is_ascii_digit, between. lia.
  - rewrite Hv. unfold digits_val. cbn [fold_left]. f_equal.
    rewrite Nat2Z.inj_succ, Z.pow_succ_r by lia. lia.
Qed.

Lemma trim_zeros_spec n ds :
  length ds = n ->
  (trim_zeros n ds <= n)%nat /\ ds = take (trim_zeros n ds) ds ++ repeat 48 (n - trim_zeros n ds).
Proof.
  revert ds. induction n as [|n IH]; intros ds Hl; cbn [trim_zeros].
  { destruct ds; [|done]. done. }
  assert (Hall : (S n <= S n)%nat /\ ds = take (S n) ds ++ repeat 48 (S n - S n)).
  { split; [done|]. rewrite Nat.sub_diag, app_nil_r. symmetry. apply take_ge. lia. }
  destruct (ds !! n) as [d|] eqn:Ed; [|exact Hall].
  destruct (Z.eqb_spec d 48) as [->|]; [|exact Hall].
  assert (Hds : ds = take n ds ++ [48]).
  { rewrite <-(take_S_r ds n 48 Ed). symmetry. apply take_ge. lia. }
  destruct (IH (take n ds)) as [Hle Heq]; [rewrite length_take; lia|].
  assert (Htz : trim_zeros n (take n ds) = trim_zeros n ds).
  { clear - Hl. assert (Hg : forall k, (k <= n)%nat -> trim_zeros k (take n ds) = trim_zeros k ds).
    { intros k. induction k as [|k IHk]; intros Hk; [done|]. cbn [trim_zeros].
      rewrite lookup_take_lt by lia. rewrite IHk by lia. done. }
    apply Hg. lia. }
  rewrite Htz in *. split; [lia|].
  rewrite Hds at 1. rewrite Heq, take_take, <-app_assoc. rewrite Nat.min_l by lia. f_equal.
  replace (S n - trim_zeros n ds)%nat with (S (n - trim_zeros n ds)) by lia.
  clear. induction (n - trim_zeros n ds)%nat as [|k IHk]; [done|]. cbn [repeat app]. by f_equal.
Qed.

(** The written fraction: one to nine digits of the right value. *)
Lemma fraction_spec frac :
  0 < frac < SECOND ->
  let digits := fixed_digits 9 frac [] in
  let ds := take (trim_zeros 9 digits) digits in
  (1 <= length ds <= 9)%nat /\ forallb is_ascii_digit ds = true /\
  digits_val 0 ds * 10 ^ Z.of_nat (9 - length ds) = frac.
Proof.
  intros Hf digits ds. destruct (fixed_digits_spec 9 frac [] 0) as (Hl & Hd & Hv); [unfold SECOND in Hf; cbn; lia|].
  fold digits in Hl, Hd, Hv. specialize (Hd eq_refl). cbn [length Nat.add] in Hl.
  destruct (trim_zeros_spec 9 digits Hl) as [Hn Heq]. fold ds in Heq.
  assert (Hlen : length ds = trim_zeros 9 digits) by (unfold ds; rewrite length_take; lia).
  rewrite <-Hlen in *.
  assert (Hval : digits_val 0 ds * 10 ^ Z.of_nat (9 - length ds) = frac).
  { rewrite <-digits_val_zeros, <-digits_val_app, <-Heq, Hv. cbn. lia. }
  split; [|split; [|done]].
  - split; [|done]. destruct ds as [|c ds']; [|cbn; lia]. exfalso. cbn in Hval. lia.
  - rewrite Heq in Hd. rewrite forallb_app in Hd. by apply andb_true_iff in Hd as [Hd _].
Qed.

Lemma frac_loop_digits ds n v i t :
  forallb is_ascii_digit ds = true -> (n + length ds <= 9)%nat ->
  match t with [] => True | c :: _ => is_ascii_digit c = false end ->
  frac_loop (ds ++ t) n v i = ((n + length ds)%nat, digits_val v ds, (i + length ds)%nat).
Proof.
  revert n v i. induction ds as [|c ds IH]; intros n v i Hd Hn Ht; cbn [app frac_loop length].
  - rewrite !Nat.add_0_r. destruct t as [|c t]; cbn; [done|]. by rewrite Ht.
  - cbn [forallb] in Hd. apply andb_true_iff in Hd as [Hc Hd]. rewrite Hc.
    cbn [length] in Hn. rewrite (proj2 (Nat.ltb_lt _ _)) by lia.
    rewrite IH by (done || lia). unfold digits_val; cbn [fold_left]. f_equal; [f_equal; lia|lia].
Qed.

(** What [read_rfc3339] makes of a date, a time and the text after them. *)
Definition read_tail (y mo d h mi sec : Z) (b : list Z) : option Z :=
  '(frac, i) ← read_frac b;
  offset ← read_offset b i;
  if y <? 1970 then Some 0 else
  let secs := days_from_civil y mo d * 86400 + h * 3600 + mi * 60 + sec - offset in
  if secs <? 0 then None else
  ns ← checked_mul secs SECOND;
  checked_add ns frac.

Definition stamp (y m d h mi sec : Z) : list Z :=
  pad 4 y ++ [45] ++ pad 2 m ++ [45] ++ pad 2 d ++ [84]
  ++ pad 2 h ++ [58] ++ pad 2 mi ++ [58] ++ pad 2 sec.

Lemma stamp_length y m d h mi sec :
  0 <= y < 10000 -> 0 <= m < 100 -> 0 <= d < 100 -> 0 <= h < 100 -> 0 <= mi < 100 -> 0 <= sec < 100 ->
  length (stamp y m d h mi sec) = 19%nat.
Proof.
  intros Hy. assert (H2 : forall z, 0 <= z < 100 -> length (pad 2 z) = 2%nat) by (intros z Hz; by apply (pad_spec 1)).
  intros. unfold stamp. rewrite !length_app, !H2 by done. by rewrite (proj1 (pad_spec 3 y Hy)).
Qed.

Lemma read_stamp y m d h mi sec c tl :
  0 <= y < 10000 -> 1 <= m <= 12 -> 1 <= d <= 31 -> 0 <= h <= 23 -> 0 <= mi <= 59 -> 0 <= sec <= 59 ->
  read_rfc3339 (stamp y m d h mi sec ++ c :: tl) =
  read_tail y m d h mi sec (stamp y m d h mi sec ++ c :: tl).
Proof.
  intros Hy Hm Hd Hh Hmi Hs.
  destruct (pad4_spec y) as (y1 & y2 & y3 & y4 & Ey & Dy & Vy); [lia|].
  destruct (pad2_spec m) as (m1 & m2 & Em & Dm & Vm); [lia|].
  destruct (pad2_spec d) as (d1 & d2 & Ed & Dd & Vd); [lia|].
  destruct (pad2_spec h) as (h1 & h2 & Eh & Dh & Vh); [lia|].
  destruct (pad2_spec mi) as (i1 & i2 & Ei & Di & Vi); [lia|].
  destruct (pad2_spec sec) as (s1 & s2 & Es & Ds & Vs); [lia|].
  unfold stamp. rewrite Ey, Em, Ed, Eh, Ei, Es. cbn [app].
  unfold read_rfc3339. unfold num, slice. cbn -[forallb digits_val read_frac read_offset between Z.ltb].
  rewrite Dy, Dm, Dd, Dh, Di, Ds, Vy, Vm, Vd, Vh, Vi, Vs. cbn [mbind option_bind].
  replace (negb (between 1 m 12) || negb (between 1 d 31) || (23 <? h) || (59 <? mi) || (60 <? sec))
    with false; [done|].
  unfold between. symmetry. rewrite !orb_false_iff, !negb_false_iff. lia.
Qed.

Lemma fb_push_fits l s : (length l + length s <= FIXED)%nat -> fold_left fb_push s l = l ++ s.
Proof.
  revert l. induction s as [|c s IH]; intros l Hl; cbn [fold_left]; [by rewrite app_nil_r|].
  cbn [length] in Hl. unfold fb_push at 2. rewrite (proj2 (Nat.ltb_lt _ _)) by lia.
  rewrite IH; [by rewrite <-app_assoc|]. rewrite length_app. cbn. lia.
Qed.

(** The zone [Z] at the end of the text. *)
Lemma read_offset_Z l : read_offset (l ++ [90]) (length l) = Some 0.
Proof.
  unfold read_offset, byte_is. rewrite lookup_app_r, Nat.sub_diag by done. cbn [lookup list_lookup].
  by rewrite length_app, Nat.eqb_refl.
Qed.

Lemma read_frac_none st : length st = 19%nat -> read_frac (st ++ [90]) = Some (0, 19%nat).
Proof. intros Hl. unfold read_frac, byte_is. rewrite lookup_app_r, Hl by lia. done. Qed.

Lemma read_frac_some st ds :
  length st = 19%nat -> (1 <= length ds <= 9)%nat -> forallb is_ascii_digit ds = true ->
  read_frac (st ++ 46 :: ds ++ [90]) =
  Some (digits_val 0 ds * 10 ^ Z.of_nat (9 - length ds), (20 + length ds)%nat).
Proof.
  intros Hl Hn Hd. unfold read_frac, byte_is. rewrite lookup_app_r, Hl by lia. cbn [lookup list_lookup Nat.sub].
  cbn [existsb Z.eqb Pos.eqb orb]. rewrite drop_app_ge, Hl by lia.
  change (drop (20 - 19) (46 :: ds ++ [90])) with (ds ++ [90]).
  rewrite frac_loop_digits by (done || lia). cbn [Nat.add]. by rewrite (proj2 (Nat.eqb_neq _ _)) by lia.
Qed.

(** The last steps of reading: date, time and fraction make the instant. *)
Lemma read_tail_sum y m d h mi sec b frac i t :
  read_frac b = Some (frac, i) -> read_offset b i = Some 0 -> 1970 <= y -> 0 <= frac ->
  t = (days_from_civil y m d * 86400 + h * 3600 + mi * 60 + sec) * SECOND + frac ->
  0 <= days_from_civil y m d * 86400 + h * 3600 + mi * 60 + sec -> t <= U64_MAX ->
  read_tail y m d h mi sec b = Some t.
Proof.
  intros Hf Ho Hy Hfr Ht Hs Hmax. unfold read_tail. rewrite Hf. cbn [mbind option_bind]. rewrite Ho.
  cbn [mbind option_bind]. rewrite (proj2 (Z.ltb_ge y 1970)), Z.sub_0_r by lia.
  rewrite (proj2 (Z.ltb_ge _ 0)) by lia. unfold checked_mul.
  rewrite (proj2 (Z.leb_le _ _)) by lia. cbn [mbind option_bind]. apply checked_add_Some. lia.
Qed.

Lemma digits_are_bytes l : forallb is_ascii_digit l = true -> Forall is_byte l.
Proof.
  intros Hl. apply List.Forall_forall. intros x Hx. rewrite forallb_forall in Hl. apply Hl in Hx.
  unfold is_ascii_digit, between, is_byte in *. lia.
Qed.

Lemma one_byte c : 0 <= c < 256 -> Forall is_byte [c].
Proof. intros Hc. apply Forall_cons. split; [exact Hc|constructor]. Qed.

Lemma stamp_bytes y m d h mi sec :
  0 <= y < 10000 -> 0 <= m < 100 -> 0 <= d < 100 -> 0 <= h < 100 -> 0 <= mi < 100 -> 0 <= sec < 100 ->
  Forall is_byte (stamp y m d h mi sec).
Proof.
  intros Hy.
  assert (H2 : forall z, 0 <= z < 100 -> Forall is_byte (pad 2 z))
    by (intros z Hz; apply digits_are_bytes; by apply (pad_spec 1)).
  assert (H4 : Forall is_byte (pad 4 y)) by (apply digits_are_bytes; by apply (pad_spec 3)).
  intros. unfold stamp. rewrite !Forall_app. split_and!; first [exact H4 | apply H2; done | apply one_byte; lia].
Qed.

(** A date, a time and a fraction of a second, as [write_rfc3339] computes them. *)
Lemma instant_fields t :
  is_u64 t ->
  let secs := t / SECOND in let frac := t mod SECOND in
  let days := secs / 86400 in let rem := secs mod 86400 in
  let h := rem / 3600 in let mi := (rem / 60) mod 60 in let sec := rem mod 60 in
  t = (days * 86400 + h * 3600 + mi * 60 + sec) * SECOND + frac /\ 0 <= frac < SECOND /\
  0 <= h <= 23 /\ 0 <= mi <= 59 /\ 0 <= sec <= 59 /\ 0 <= days < 2932896.
Proof.
  intros [Ht0 Ht] secs frac days rem h mi sec.
  assert (t = secs * SECOND + frac /\ 0 <= frac < SECOND /\ 0 <= secs <= 18446744073)
    by (unfold secs, frac, SECOND, U64_MAX in *; clear - Ht Ht0; Z.to_euclidean_division_equations; lia).
  assert (secs = days * 86400 + rem /\ 0 <= rem < 86400 /\ 0 <= days < 2932896)
    by (unfold days, rem; clearbody secs; clear - H; Z.to_euclidean_division_equations; lia).
  assert (rem = h * 3600 + mi * 60 + sec /\ 0 <= h <= 23 /\ 0 <= mi <= 59 /\ 0 <= sec <= 59)
    by (unfold h, mi, sec; clearbody rem; clear - H0; Z.to_euclidean_division_equations; lia).
  clearbody secs frac days rem h mi sec. lia.
Qed.

(** The text of an instant other than 0. *)
Lemma write_rfc3339_text t :
  is_u64 t -> t <> 0 ->
  exists y m d h mi sec tl,
    write_rfc3339 t = Ok (of_bytes (stamp y m d h mi sec ++ tl)) /\
    Forall is_byte (stamp y m d h mi sec ++ tl) /\
    read_rfc3339 (stamp y m d h mi sec ++ tl) = Some t.
Proof.
  intros Hu Hnz. pose proof (instant_fields t Hu) as Hf. unfold write_rfc3339.
  rewrite (proj2 (Z.eqb_neq t 0) Hnz). cbn zeta in *.
  set (secs := t / SECOND) in *. set (frac := t mod SECOND) in *.
  set (days := secs / 86400) in *. set (rem := secs mod 86400) in *.
  set (h := rem / 3600) in *. set (mi := (rem / 60) mod 60) in *. set (sec := rem mod 60) in *.
  clearbody h mi sec days frac. destruct Hf as (Ht & Hfr & Hh & Hmi & Hsec & Hdays).
  destruct (civil_from_days days) as [[y m] d] eqn:Ec.
  destruct (civil_from_days_spec days y m d) as (Hy1 & Hm & Hd & Hback & Hy2); [lia|done|].
  assert (Hl : length (stamp y m d h mi sec) = 19%nat) by (apply stamp_length; lia).
  assert (Hb : Forall is_byte (stamp y m d h mi sec)) by (apply stamp_bytes; lia).
  exists y, m, d, h, mi, sec. change (pad 4 y ++ _) with (stamp y m d h mi sec).
  unfold fb_write. cbn [length Nat.add]. rewrite Hl. change (FIXED <? 19)%nat with false. cbn iota.
  rewrite (fb_push_fits []) by (rewrite Hl; unfold FIXED; cbn; lia). cbn [app].
  destruct (Z.ltb_spec 0 frac) as [Hpos|Hz].
  - set (ds := take _ _). destruct (fraction_spec frac) as (Hn & Hdig & Hval); [lia|]. fold ds in Hn, Hdig, Hval.
    clearbody ds.
    exists (46 :: ds ++ [90]).
    change (fb_push (stamp y m d h mi sec) 46) with (fold_left fb_push [46] (stamp y m d h mi sec)).
    rewrite <-fold_left_app. change (fb_push ?l 90) with (fold_left fb_push [90] l).
    rewrite <-fold_left_app, fb_push_fits by (rewrite !length_app, Hl; unfold FIXED; cbn [length]; lia).
    split; [done|]. split.
    { apply Forall_app. split; [done|]. apply (Forall_app _ [46]). split; [apply one_byte; lia|]. apply Forall_app.
      split; [by apply digits_are_bytes|apply one_byte; lia]. }
    rewrite read_stamp by lia. eapply read_tail_sum; [by apply read_frac_some|..]; try (destruct Hu; lia).
    replace (stamp y m d h mi sec ++ 46 :: ds ++ [90]) with ((stamp y m d h mi sec ++ 46 :: ds) ++ [90])
      by (by rewrite <-app_assoc).
    replace (20 + length ds)%nat with (length (stamp y m d h mi sec ++ 46 :: ds))
      by (rewrite length_app, Hl; cbn; lia).
    apply read_offset_Z.
  - exists [90]. change (fb_push ?l 90) with (fold_left fb_push [90] l).
    rewrite fb_push_fits by (rewrite Hl; unfold FIXED; cbn; lia).
    split; [done|]. split; [apply Forall_app; split; [done|apply one_byte; lia]|].
    rewrite read_stamp by lia. eapply read_tail_sum; [by apply read_frac_none|..]; try (destruct Hu; lia).
    rewrite <-Hl. apply read_offset_Z.
Qed.

Lemma write_read t : is_u64 t -> exists s, write_rfc3339 t = Ok s /\ parse_rfc3339 s = Ok t.
Proof.
  intros Hu. destruct (decide (t = 0)) as [->|Hnz].
  { eexists. split; [done|]. vm_compute. reflexivity. }
  destruct (write_rfc3339_text t Hu Hnz) as (y & m & d & h & mi & sec & tl & -> & Hb & Hr).
  eexists. split; [done|]. unfold parse_rfc3339. by rewrite as_of_bytes, Hr.
Qed.

(** Every 64-bit instant has an RFC 3339 text, also the unset instant 0, and reading that
    text gives back the instant to the nanosecond. *)
Theorem rfc3339_roundtrip t :
  is_u64 t -> exists s, write_rfc3339 t = Ok s /\ parse_rfc3339 s = Ok t.
Proof. apply write_read. Qed.

Lemma rfc3339_roundtrip_witness :
  exists s, write_rfc3339 1759140672500000000 = Ok s /\ parse_rfc3339 s = Ok 1759140672500000000.
Proof. apply (rfc3339_roundtrip 1759140672500000000). unfold is_u64, U64_MAX. lia. Defined.

Lemma timestamp_Ok t : is_u64 t -> exists s, timestamp t = Ok s /\ parse_rfc3339 s = Ok t.
Proof.
  intros Hu. destruct (write_read t Hu) as (s & Hw & Hp). exists s. unfold timestamp. by rewrite Hw.
Qed.

(** Comparing two document timestamps with [time_is_before] compares the instants they were
    written from, whatever number of fraction digits the two texts have. *)
Theorem time_is_before_timestamps a b sa sb :
  is_u64 a -> is_u64 b -> timestamp a = Ok sa -> timestamp b = Ok sb ->
  time_is_before sa sb = (a <? b) /\ unix_seconds sa = Some (a / 1000000000).
Proof.
  intros Ha Hb. destruct (timestamp_Ok a Ha) as (s & -> & Hpa). destruct (timestamp_Ok b Hb) as (s' & -> & Hpb).
  intros [= ->] [= ->]. unfold time_is_before, unix_seconds. by rewrite Hpa, Hpb.
Qed.

Lemma time_is_before_timestamps_witness :
  time_is_before "2025-09-29T10:11:12.5Z" "2025-09-29T10:11:13Z"
    = (1759140672500000000 <? 1759140673000000000) /\
  unix_seconds "2025-09-29T10:11:12.5Z" = Some (1759140672500000000 / 1000000000).
Proof.
  apply (time_is_before_timestamps 1759140672500000000 1759140673000000000);
    [unfold is_u64, U64_MAX; lia|unfold is_u64, U64_MAX; lia|vm_compute; reflexivity|vm_compute; reflexivity].
Defined.
