(* ===== verification/Document.v ===== *)
(** * Document: the version-2 configuration document ([crates/core/src/document.rs])

    The document is one JSON object with six collections of records and three objects of
    settings; unknown fields are kept.  Reading it cleans the devices of everything that is an
    observation of a running system. *)

From Stdlib Require Import ZArith Lia Ascii String.
From S2P Require Import Prelude Text Errors Slots Float Value Json JsonRoundtrip.

Local Open Scope Z_scope.

Definition VERSION : Z := 2.
Definition MAX_RECORDS : Z := 4096.
Definition MAX_NOTIFICATIONS : nat := 200.

Record Document := mk_doc { root : Value }.

Definition COLLECTIONS : list string :=
  ["apps"; "devices"; "deviceGroups"; "flows"; "scenes"; "notifications"].
Definition SETTINGS : list string := ["appSettings"; "appState"; "system"].

(** ** Operations *)

Definition records (d : Document) (collection : string) : list Value := array (root d) collection.

(** [iter().find(|r| text(r, "id") == id)] *)
Definition find_id (id : string) (rs : list Value) : option Value :=
  find (fun r => (text r "id" =? id)%string) rs.

Definition record (d : Document) (collection id : string) : Result Value :=
  ok_or (find_id id (records d collection)) (Missing "record does not exist").

Definition doc_set (d : Document) (key : string) (v : Value) : Result Document :=
  r ← set (root d) key v; Ok (mk_doc r).

Definition replace (d : Document) (collection : string) (rs : list Value) : Result Document :=
  if MAX_RECORDS <? Z.of_nat (length rs) then Err Full
  else doc_set d collection (VArray rs).

(** Compact JSON and one newline. *)
Definition encode (d : Document) : Result (list Z) :=
  out ← from_hop (write (root d));
  if MAX_BYTES <=? Z.of_nat (length out) then Err Full else Ok (out ++ [10]).

(** [validate_records]; [before] is [records.iter().take(index)]. *)
Fixpoint validate_records (before rs : list Value) : Result unit :=
  match rs with
  | [] => Ok tt
  | r :: rs =>
      let id := text r "id" in
      if is_empty id then Err (Invalid "record id is required")
      else if existsb (fun p => (text p "id" =? id)%string) before
      then Err (Conflict "duplicate record id")
      else validate_records (before ++ [r]) rs
  end.

(** Store keys that start with a tilde are volatile. *)
Definition is_volatile (k : string) : bool := starts_with "~" k.

Definition persistent (store : Object) : Object :=
  filter (fun kv => is_volatile kv.1 = false) store.

Definition OBSERVED : list string := ["state"; "available"; "unavailableMessage"].

Definition clean_device (r : Value) : Result Value :=
  r1 ← remove_all r OBSERVED;
  match get r1 "store" ≫= as_object with
  | Some store => set r1 "store" (VObject (persistent store))
  | None => Ok r1
  end.

Definition clean_devices (d : Document) : Result Document :=
  devices ← push_all clean_device MAX_RECORDS (records d "devices") [];
  replace d "devices" devices.

(** The loop over the collections: missing ones are added, the others checked. *)
Fixpoint decode_collections (keys : list string) (v : Value) : Result Value :=
  match keys with
  | [] => Ok v
  | key :: keys =>
      v' ← match get v key with
           | None | Some VNull => set v key (VArray [])
           | Some (VArray items) =>
               if Z.of_nat (length items) <=? MAX_RECORDS
               then _ ← validate_records [] items; Ok v
               else Err (Invalid "invalid document collection")
           | _ => Err (Invalid "invalid document collection")
           end;
      decode_collections keys v'
  end.

Fixpoint decode_settings (keys : list string) (v : Value) : Result Value :=
  match keys with
  | [] => Ok v
  | key :: keys =>
      v' ← match get v key with
           | None | Some VNull => set v key object
           | Some (VObject _) => Ok v
           | _ => Err (Invalid "invalid document settings")
           end;
      decode_settings keys v'
  end.

Definition check_version (v : Value) : Result unit :=
  match get v "version" with
  | None => Ok tt
  | Some w =>
      version ← ok_or (as_u64 w) (Invalid "invalid document version");
      if VERSION <? version then Err (Invalid "document was written by a newer Stulp") else Ok tt
  end.

Definition decode (bytes : list Z) : Result Document :=
  if MAX_BYTES <? Z.of_nat (length bytes) then Err Full else
  r0 ← (if forallb is_ascii_whitespace bytes then Ok object
        else from_hop (parse_bounded bytes MAX_BYTES));
  _ ← ok_or (as_object r0) (Invalid "document must be an object");
  _ ← check_version r0;
  r1 ← set r0 "version" (value_uint VERSION);
  r2 ← decode_collections COLLECTIONS r1;
  r3 ← decode_settings SETTINGS r2;
  clean_devices (mk_doc r3).

(** ** The invariant of a document *)

Definition ids (rs : list Value) : list string := map (fun r => text r "id") rs.

Definition records_ok (rs : list Value) : Prop :=
  Z.of_nat (length rs) <= MAX_RECORDS /\ Forall (fun i => i <> EmptyString) (ids rs) /\ NoDup (ids rs).

(** A stored device carries no observation and no volatile store key. *)
Definition clean (r : Value) : Prop :=
  Forall (fun k => get r k = None) OBSERVED /\
  forall store, get r "store" = Some (VObject store) -> Forall (fun kv => is_volatile kv.1 = false) store.

Record doc_ok (d : Document) : Prop := {
  do_uniq : uniq (root d) = true;
  do_version : get (root d) "version" = Some (value_uint VERSION);
  do_collections : forall c, c ∈ COLLECTIONS ->
    exists rs, get (root d) c = Some (VArray rs) /\ records_ok rs;
  do_settings : forall k, k ∈ SETTINGS -> exists o, get (root d) k = Some (VObject o);
  do_clean : Forall clean (records d "devices")
}.

(** ** Lemmas *)

Lemma set_records rs : array (VObject [("x", VArray rs)]) "x" = rs.
Proof. done. Qed.

Lemma existsb_ids id rs :
  existsb (fun p => (text p "id" =? id)%string) rs = true <-> id ∈ ids rs.
Proof.
  unfold ids. rewrite existsb_exists, list_elem_of_fmap. setoid_rewrite String.eqb_eq.
  setoid_rewrite list_elem_of_In. naive_solver.
Qed.

Lemma validate_records_Ok before rs :
  NoDup (ids before) ->
  validate_records before rs = Ok tt <->
  Forall (fun i => i <> EmptyString) (ids rs) /\ NoDup (ids (before ++ rs)).
Proof.
  revert before. induction rs as [|r rs IH]; intros before Hb; cbn [validate_records].
  { rewrite app_nil_r. split; [|done]. split; [constructor|done]. }
  unfold ids at 1. cbn [map]. fold (ids rs). rewrite Forall_cons.
  unfold is_empty. destruct (String.eqb_spec (text r "id") "") as [He|He].
  { split; [done|]. by intros [[? _] _]. }
  destruct (existsb _ before) eqn:Ex.
  { split; [done|]. intros [_ Hnd]. exfalso. apply existsb_ids in Ex. unfold ids in Hnd.
    rewrite map_app in Hnd. apply NoDup_app in Hnd as (_ & Hd & _). apply (Hd _ Ex). by left. }
  assert (Hn : text r "id" ∉ ids before) by (rewrite <-existsb_ids; congruence).
  rewrite IH.
  - rewrite <-app_assoc. tauto.
  - unfold ids. rewrite map_app. apply NoDup_app. split; [done|]. split; [|by apply NoDup_singleton].
    intros x Hx ->%list_elem_of_singleton. done.
Qed.

Lemma remove_all_Ok keys v v' :
  uniq v = true -> remove_all v keys = Ok v' ->
  uniq v' = true /\ Forall (fun k => get v' k = None) keys /\
  (forall k, k ∉ keys -> get v' k = get v k).
Proof.
  revert v. induction keys as [|k keys IH]; intros v Hv H; cbn in H.
  { injection H as <-. by split_and!; [|constructor|]. }
  destruct (remove v k) as [v1|] eqn:Er; [|done]. cbn in H.
  pose proof (uniq_remove _ _ _ Er Hv) as Hv1. destruct (IH v1 Hv1 H) as (Hw & Hf & Hr).
  split_and!; [done| |].
  - constructor; [|done]. destruct (decide (k ∈ keys)) as [Hk|Hk].
    + rewrite Forall_forall in Hf. by apply Hf.
    + rewrite Hr by done. exact (get_remove_eq _ _ _ Er Hv).
  - intros k' Hk'. apply not_elem_of_cons in Hk' as [Hne Hk']. rewrite Hr by done.
    eapply get_remove_ne; [exact Er|congruence].
Qed.

Lemma persistent_uniq store : uniq (VObject store) = true -> uniq (VObject (persistent store)) = true.
Proof.
  rewrite !uniq_object. intros [Hn Hf]. unfold persistent. split.
  - unfold obj_keys in *. clear Hf. induction store as [|[k v] store IH]; [constructor|].
    cbn in Hn. apply NoDup_cons in Hn as [Hk Hn]. rewrite filter_cons. case_decide; [|auto].
    cbn. apply NoDup_cons. split; [|auto].
    intros ([k' v'] & Hk' & Hi)%list_elem_of_fmap. cbn in Hk'. subst k'. apply list_elem_of_filter in Hi as [_ Hi].
    apply Hk. apply list_elem_of_fmap. by exists (k, v').
  - rewrite Forall_forall in Hf |- *. intros kv [_ Hi]%list_elem_of_filter. auto.
Qed.

Lemma persistent_clean store : Forall (fun kv => is_volatile kv.1 = false) (persistent store).
Proof. apply Forall_forall. by intros kv [? _]%list_elem_of_filter. Qed.

Lemma persistent_id store : Forall (fun kv => is_volatile kv.1 = false) store -> persistent store = store.
Proof.
  induction 1 as [|kv store Hk _ IH]; [done|]. unfold persistent. rewrite filter_cons_True by done.
  by f_equal.
Qed.

Lemma clean_device_Ok r r' :
  uniq r = true -> clean_device r = Ok r' ->
  uniq r' = true /\ clean r' /\ text r' "id" = text r "id".
Proof.
  unfold clean_device. intros Hw H. destruct (remove_all r OBSERVED) as [r1|] eqn:Er; [|done]. cbn in H.
  destruct (remove_all_Ok _ _ _ Hw Er) as (Hw1 & Hf & Hr).
  assert (Hid : text r1 "id" = text r "id").
  { unfold text. rewrite Hr; [done|]. vm_compute. set_solver. }
  destruct (get r1 "store" ≫= as_object) as [store|] eqn:Es.
  - destruct (get r1 "store") as [st|] eqn:Eg; [|done]. cbn in Es.
    assert (st = VObject store) as -> by (destruct st; try done; cbn in Es; by injection Es as ->).
    pose proof (uniq_get _ _ _ Hw1 Eg) as Hst.
    split_and!.
    + exact (uniq_set _ _ _ _ H Hw1 (persistent_uniq _ Hst)).
    + split.
      * rewrite Forall_forall in Hf |- *. intros k Hk. rewrite (get_set_ne _ _ _ _ _ H); [by apply Hf|].
        intros <-. vm_compute in Hk. set_solver.
      * intros st' Hg. rewrite (get_set_eq _ _ _ _ H) in Hg. injection Hg as <-. apply persistent_clean.
    + rewrite (text_set_ne _ _ _ _ _ H) by done. done.
  - injection H as <-. split_and!; [done| |done]. split; [done|].
    intros store Hg. by rewrite Hg in Es.
Qed.

(** A clean device stays as it is. *)
Lemma clean_device_id r : (exists o, r = VObject o) -> clean r -> clean_device r = Ok r.
Proof.
  intros [o ->] [Hf Hs]. unfold clean_device.
  assert (Hr : remove_all (VObject o) OBSERVED = Ok (VObject o)).
  { clear Hs. revert Hf. generalize OBSERVED as keys. intros keys. induction 1 as [|k keys Hk _ IH]; [done|].
    cbn [remove_all]. by rewrite (remove_absent o k Hk). }
  rewrite Hr. cbn [mbind result_bind].
  destruct (get (VObject o) "store") as [st|] eqn:Eg; [|done].
  destruct st as [| | | | |store]; try done. cbn [mbind option_bind as_object].
  rewrite persistent_id by (by apply Hs). by apply set_same.
Qed.

Lemma decode_collections_Ok keys v v' :
  uniq v = true -> NoDup keys ->
  decode_collections keys v = Ok v' ->
  uniq v' = true /\
  (forall c, c ∈ keys -> exists rs, get v' c = Some (VArray rs) /\ records_ok rs) /\
  (forall k, k ∉ keys -> get v' k = get v k).
Proof.
  revert v. induction keys as [|key keys IH]; intros v Hv Hn H; cbn [decode_collections] in H.
  { injection H as <-. split_and!; [done| |done]. by intros c ?%not_elem_of_nil. }
  apply NoDup_cons in Hn as [Hk Hn].
  assert (Hstep : exists v1, decode_collections keys v1 = Ok v' /\ uniq v1 = true /\
            (exists rs, get v1 key = Some (VArray rs) /\ records_ok rs) /\
            forall k, k <> key -> get v1 k = get v k).
  { assert (Hempty : forall v1, set v key (VArray []) = Ok v1 -> uniq v1 = true /\
              (exists rs, get v1 key = Some (VArray rs) /\ records_ok rs) /\
              forall k, k <> key -> get v1 k = get v k).
    { intros v1 Hset. split_and!; [by apply (uniq_set _ _ _ _ Hset)| |].
      - exists []. split; [by eapply get_set_eq|]. split_and!; [done|constructor..].
      - intros k Hne. eapply get_set_ne; [exact Hset|congruence]. }
    destruct (get v key) as [[| | | |items|]|] eqn:Eg; inv_ok H; try (eexists; split; [done|]; by eauto).
    destruct (Z.leb_spec (Z.of_nat (length items)) MAX_RECORDS) as [Hle|]; [|done].
    destruct (validate_records [] items) as [[]|] eqn:Ev; cbn in E; [|done]. injection E as <-.
    apply validate_records_Ok in Ev; [|constructor].
    exists v. split_and!; [done|done| |done]. by exists items. }
  destruct Hstep as (v1 & H1 & Hw1 & (rs & Hg & Hrs) & Hne).
  destruct (IH v1 Hw1 Hn H1) as (Hw & Hc & Ho). split_and!; [done| |].
  - intros c [->|Hi]%elem_of_cons; [|by apply Hc]. exists rs. by rewrite Ho.
  - intros k [? ?]%not_elem_of_cons. rewrite Ho by done. by apply Hne.
Qed.

Lemma decode_settings_Ok keys v v' :
  uniq v = true -> NoDup keys ->
  decode_settings keys v = Ok v' ->
  uniq v' = true /\
  (forall c, c ∈ keys -> exists o, get v' c = Some (VObject o)) /\
  (forall k, k ∉ keys -> get v' k = get v k).
Proof.
  revert v. induction keys as [|key keys IH]; intros v Hv Hn H; cbn [decode_settings] in H.
  { injection H as <-. split_and!; [done| |done]. by intros c ?%not_elem_of_nil. }
  apply NoDup_cons in Hn as [Hk Hn].
  assert (Hstep : exists v1, decode_settings keys v1 = Ok v' /\ uniq v1 = true /\
            (exists o, get v1 key = Some (VObject o)) /\
            forall k, k <> key -> get v1 k = get v k).
  { assert (Hempty : forall v1, set v key object = Ok v1 -> uniq v1 = true /\
              (exists o, get v1 key = Some (VObject o)) /\
              forall k, k <> key -> get v1 k = get v k).
    { intros v1 Hset. split_and!; [by apply (uniq_set _ _ _ _ Hset)| |].
      - exists []. by eapply get_set_eq.
      - intros k Hne. eapply get_set_ne; [exact Hset|congruence]. }
    destruct (get v key) as [[| | | | |o]|] eqn:Eg; inv_ok H; try (eexists; split; [done|]; by eauto). }
  destruct Hstep as (v1 & H1 & Hw1 & (o & Hg) & Hne).
  destruct (IH v1 Hw1 Hn H1) as (Hw & Hc & Ho). split_and!; [done| |].
  - intros c [->|Hi]%elem_of_cons; [|by apply Hc]. exists o. by rewrite Ho.
  - intros k [? ?]%not_elem_of_cons. rewrite Ho by done. by apply Hne.
Qed.

Lemma doc_set_Ok d k v d' : doc_set d k v = Ok d' <-> set (root d) k v = Ok (root d').
Proof.
  unfold doc_set. destruct (set (root d) k v) as [r|]; cbn; [|done].
  split; [by intros [= <-]|]. destruct d'. cbn. by intros [= ->].
Qed.

Lemma replace_Ok d c rs d' :
  replace d c rs = Ok d' <->
  Z.of_nat (length rs) <= MAX_RECORDS /\ set (root d) c (VArray rs) = Ok (root d').
Proof.
  unfold replace. rewrite <-doc_set_Ok. destruct (Z.ltb_spec MAX_RECORDS (Z.of_nat (length rs))).
  - split; [done|]. intros [? _]. lia.
  - split; [done|]. by intros [_ ?].
Qed.

(** Replacing a collection by well-formed records keeps a document a document. *)
Lemma replace_ok d c rs d' :
  doc_ok d -> c ∈ COLLECTIONS -> records_ok rs -> Forall (fun r => uniq r = true) rs ->
  (c = "devices" -> Forall clean rs) -> replace d c rs = Ok d' ->
  doc_ok d' /\ records d' c = rs /\ (forall k, k <> c -> get (root d') k = get (root d) k).
Proof.
  intros [H1 H2 H3 H4 H5] Hc Hrs Hw Hcl H. apply replace_Ok in H as [_ Hset].
  assert (Hne : forall k, k <> c -> get (root d') k = get (root d) k)
    by (intros k Hk; eapply get_set_ne; [exact Hset|congruence]).
  assert (Hrec : records d' c = rs) by (by eapply array_set_eq).
  split; [|split; [done|exact Hne]].
  split; cbn [root].
  - apply (uniq_set _ _ _ _ Hset); [done|]. by apply uniq_array.
  - rewrite Hne; [done|]. intros <-. by vm_compute in Hc; set_solver.
  - intros c' Hc'. destruct (decide (c' = c)) as [->|Hcc].
    + exists rs. split; [by eapply get_set_eq|done].
    + rewrite Hne by done. by apply H3.
  - intros k Hk. rewrite Hne; [by apply H4|]. intros ->.
    clear - Hc Hk. vm_compute in Hc, Hk. set_solver.
  - destruct (decide (c = "devices")) as [->|Hcd]; [rewrite Hrec; by apply Hcl|].
    unfold records, array. cbn [root]. rewrite Hne by congruence. exact H5.
Qed.

Lemma parse_uniq bytes limit v :
  parse_bounded bytes limit = Ok v -> uniq v = true.
Proof.
  unfold parse_bounded. destruct (parse bytes _) as [r|] eqn:E; cbn; [|done]. intros ->.
  unfold parse in E. destruct (_ <? _); [done|].
  pose proof (value_yields MAX_DEPTH (skip_ws (mk_st 0 bytes))) as HY.
  destruct (value _ _) as [[[w s]|e]|]; [|done..].
  destruct (HY w s eq_refl) as [Hw _]. destruct (rest (skip_ws s)); [injection E as ->|done]. by apply wf_uniq.
Qed.

Lemma push_all_clean rs rs' :
  Forall (fun r => uniq r = true) rs -> push_all clean_device MAX_RECORDS rs [] = Ok rs' ->
  ids rs' = ids rs /\ length rs' = length rs /\ Forall (fun r => uniq r = true) rs' /\ Forall clean rs'.
Proof.
  intros Hw H. apply push_all_Ok in H as (ys & HF & -> & _). cbn [app].
  induction HF as [|x y xs ys Hx _ IH]; [by repeat split|].
  apply Forall_cons in Hw as [Hwx Hw]. destruct (IH Hw) as (H1 & H2 & H3 & H4).
  destruct (clean_device_Ok x y Hwx Hx) as (Hwy & Hcy & Hid).
  unfold ids in *. cbn. rewrite Hid, H1, H2. split_and!; [done|done|by constructor|by constructor].
Qed.

Lemma records_uniq d c : uniq (root d) = true -> Forall (fun r => uniq r = true) (records d c).
Proof. intros Hw. apply Forall_forall. intros r Hr. by eapply uniq_elem. Qed.

Lemma decode_ok bytes d : decode bytes = Ok d -> doc_ok d.
Proof.
  unfold decode. intros H. destruct (MAX_BYTES <? _) eqn:Eb; [done|].
  destruct (if forallb is_ascii_whitespace bytes then Ok object else _) as [r0|] eqn:E0; cbn [mbind result_bind ok_or] in H; [|done].
  assert (Hw0 : uniq r0 = true).
  { destruct (forallb _ _); [by injection E0 as <-|].
    destruct (parse_bounded bytes MAX_BYTES) as [r|] eqn:Ep; [|done]. injection E0 as <-. by eapply parse_uniq. }
  destruct (as_object r0); cbn [mbind result_bind ok_or] in H; [|done].
  destruct (check_version r0); cbn [mbind result_bind] in H; [|done].
  destruct (set r0 "version" (value_uint VERSION)) as [r1|] eqn:E1; cbn [mbind result_bind] in H; [|done].
  assert (Hw1 : uniq r1 = true) by (by apply (uniq_set _ _ _ _ E1)).
  destruct (decode_collections COLLECTIONS r1) as [r2|] eqn:E2; cbn [mbind result_bind] in H; [|done].
  destruct (decode_settings SETTINGS r2) as [r3|] eqn:E3; cbn [mbind result_bind] in H; [|done].
  assert (Hnd : forall ks : list string, nodup_keys ks = true -> NoDup ks) by (intros ks; apply nodup_keys_NoDup).
  apply decode_collections_Ok in E2 as (Hw2 & Hc2 & Ho2);
    [|done|by apply Hnd].
  apply decode_settings_Ok in E3 as (Hw3 & Hc3 & Ho3);
    [|done|by apply Hnd].
  unfold clean_devices in H.
  destruct (push_all clean_device MAX_RECORDS (records (mk_doc r3) "devices") []) as [ds|] eqn:Ep;
    cbn [mbind result_bind] in H; [|done].
  apply push_all_clean in Ep as (Hids & Hlen & Hwd & Hcl); [|by apply records_uniq].
  assert (Hget : forall c, c ∈ COLLECTIONS -> exists rs, get r3 c = Some (VArray rs) /\ records_ok rs).
  { intros c Hc. rewrite Ho3; [by apply Hc2|]. intros Hs. vm_compute in Hc, Hs. set_solver. }
  apply replace_Ok in H as [_ Hset].
  assert (Hne : forall k, k <> "devices" -> get (root d) k = get r3 k)
    by (intros k Hk; eapply get_set_ne; [exact Hset|congruence]).
  split.
  - apply (uniq_set _ _ _ _ Hset); [done|by apply uniq_array].
  - rewrite Hne, Ho3, Ho2 by (done || vm_compute; set_solver). by apply (get_set_eq _ _ _ _ E1).
  - intros c Hc. destruct (decide (c = "devices")) as [->|Hcd].
    + exists ds. split; [by eapply get_set_eq|]. destruct (Hget "devices") as (rs & Hg & H1 & H2 & H3); [done|].
      unfold records in Hids, Hlen. cbn [root] in Hids, Hlen. rewrite (array_get _ _ _ Hg) in Hids, Hlen.
      unfold records_ok. by rewrite Hids, Hlen.
    + rewrite Hne by done. by apply Hget.
  - intros k Hk. rewrite Hne by (intros ->; vm_compute in Hk; set_solver). by apply Hc3.
  - unfold records. by rewrite (array_set_eq _ _ _ _ Hset).
Qed.

(** Whatever bytes a document is read from, a document that is accepted has every
    collection as a list of at most 4096 records with distinct, non-empty ids, every settings
    field as an object, version 2, unique object keys at every level, and devices
    without observed state or volatile store keys. *)
Theorem decode_sound bytes d : decode bytes = Ok d -> doc_ok d.
Proof. apply decode_ok. Qed.

Definition small_document : list Z := as_bytes
  (of_bytes (as_bytes "{'devices':[{'id':'d1','state':{},'store':{'~t':1,'k':2}}]}"
             ≫= fun c => [if c =? 39 then 34 else c])).

Lemma decode_sound_witness :
  exists d, decode small_document = Ok d /\ doc_ok d.
Proof.
  eexists. split; [vm_compute; reflexivity|]. apply (decode_sound small_document). vm_compute. reflexivity.
Defined.

(** ** Reading back a written document *)

Lemma decode_collections_id keys v :
  (forall c, c ∈ keys -> exists rs, get v c = Some (VArray rs) /\ records_ok rs) ->
  decode_collections keys v = Ok v.
Proof.
  induction keys as [|key keys IH]; intros Hall; cbn [decode_collections]; [done|].
  destruct (Hall key) as (rs & -> & Hlen & Hne & Hnd); [by left|].
  rewrite (proj2 (Z.leb_le _ _) Hlen).
  rewrite (proj2 (validate_records_Ok [] rs ltac:(constructor))) by done. cbn [mbind result_bind].
  apply IH. intros c Hc. apply Hall. by right.
Qed.

Lemma decode_settings_id keys v :
  (forall k, k ∈ keys -> exists o, get v k = Some (VObject o)) -> decode_settings keys v = Ok v.
Proof.
  induction keys as [|key keys IH]; intros Hall; cbn [decode_settings]; [done|].
  destruct (Hall key) as (o & ->); [by left|]. cbn [mbind result_bind].
  apply IH. intros c Hc. apply Hall. by right.
Qed.

Lemma ids_object rs r : Forall (fun i => i <> EmptyString) (ids rs) -> r ∈ rs -> exists o, r = VObject o.
Proof.
  intros Hf Hr. eapply text_nonempty_object. rewrite Forall_forall in Hf. apply Hf.
  apply list_elem_of_fmap. by exists r.
Qed.

Lemma doc_records d c : doc_ok d -> c ∈ COLLECTIONS -> get (root d) c = Some (VArray (records d c)) /\ records_ok (records d c).
Proof.
  intros Hd Hc. destruct (do_collections _ Hd c Hc) as (rs & Hg & Hrs). unfold records.
  by rewrite (array_get _ _ _ Hg).
Qed.

Lemma clean_devices_id d : doc_ok d -> clean_devices d = Ok d.
Proof.
  intros Hd. destruct (doc_records d "devices" Hd) as [Hg (Hlen & Hne & _)]; [vm_compute; set_solver|].
  unfold clean_devices. rewrite (push_all_complete _ _ _ (records d "devices")).
  - cbn [app mbind result_bind]. apply replace_Ok. split; [done|]. by apply set_same.
  - pose proof (do_clean _ Hd) as Hc. revert Hc Hne. generalize (records d "devices") as rs.
    intros rs Hc Hne. induction Hc as [|r rs Hr _ IH]; [constructor|].
    cbn in Hne. apply Forall_cons in Hne as [Hr0 Hne]. constructor; [|auto].
    apply clean_device_id; [by eapply text_nonempty_object|done].
  - done.
Qed.

Lemma skip_ws_newline p : rest (skip_ws (mk_st p [10])) = [].
Proof. done. Qed.

Lemma parse_with_newline v bs limit :
  exact v = true -> (vdepth v <= MAX_DEPTH)%nat -> write v = Ok bs ->
  Z.of_nat (length bs) < limit -> parse (bs ++ [10]) limit = Some (Ok v).
Proof.
  intros He Hd Hw Hl. destruct (exact_reads v He) as (bs' & Hw' & (c & r & Eb & Hc & _) & HR).
  assert (bs' = bs) as -> by congruence. unfold parse.
  destruct (Z.ltb_spec limit (Z.of_nat (length (bs ++ [10])))) as [Hlt|]; [rewrite length_app in Hlt; cbn in Hlt; lia|].
  assert (skip_ws (mk_st 0 (bs ++ [10])) = mk_st 0 (bs ++ [10])) as -> by (rewrite Eb; by apply skip_ws_id).
  rewrite (HR MAX_DEPTH 0 [10] Hd); [|intros d [= <-]; done]. unfold ok. cbv iota beta zeta. by rewrite skip_ws_newline.
Qed.

Lemma decode_encode_id d bs :
  doc_ok d -> exact (root d) = true -> (vdepth (root d) <= MAX_DEPTH)%nat ->
  encode d = Ok bs -> decode bs = Ok d.
Proof.
  intros Hd He Hdep H. unfold encode in H.
  destruct (write (root d)) as [out|] eqn:Ew; cbn in H; [|done].
  destruct (Z.leb_spec MAX_BYTES (Z.of_nat (length out))) as [|Hlen]; [done|]. injection H as <-.
  pose proof (parse_with_newline _ _ MAX_BYTES He Hdep Ew Hlen) as Hp.
  unfold decode. destruct (Z.ltb_spec MAX_BYTES (Z.of_nat (length (out ++ [10])))) as [Hlt|_].
  { rewrite length_app in Hlt. cbn in Hlt. lia. }
  assert (Hws : forallb is_ascii_whitespace (out ++ [10]) = false).
  { destruct (exact_reads _ He) as (bs' & Hw' & (c & r & Eb & Hc & _) & _).
    assert (out = c :: r) as -> by congruence. destruct (root d) as [| | | | |o] eqn:Er;
      try (pose proof (do_version _ Hd) as Hv; rewrite Er in Hv; done).
    rewrite write_object in Ew. destruct (write_sep write_field true o); cbn in Ew; [|done].
    injection Ew as <- _. done. }
  rewrite Hws. unfold parse_bounded. change (Z.min MAX_BYTES 67108864) with MAX_BYTES. rewrite Hp.
  cbn [default from_option id from_hop mbind result_bind].
  pose proof (do_version _ Hd) as Hv.
  assert (Hobj : exists o, as_object (root d) = Some o).
  { unfold get in Hv. destruct (as_object (root d)) as [o|]; [by exists o|done]. }
  destruct Hobj as [o ->]. cbn [ok_or mbind result_bind].
  unfold check_version. rewrite Hv. cbn [as_u64 value_uint as_u64_n ok_or mbind result_bind].
  change (VERSION <? VERSION) with false. cbn [mbind result_bind].
  rewrite (set_same _ _ _ Hv). cbn [mbind result_bind].
  rewrite (decode_collections_id COLLECTIONS) by (apply do_collections, Hd). cbn [mbind result_bind].
  rewrite (decode_settings_id SETTINGS) by (apply do_settings, Hd). cbn [mbind result_bind].
  destruct d as [r]. by apply clean_devices_id.
Qed.

(** A document in memory survives the restart: reading the bytes it was written to gives
    the same document back, with every record, setting and unknown field in its place. *)
Theorem document_roundtrip d bs :
  doc_ok d -> exact (root d) = true -> (vdepth (root d) <= MAX_DEPTH)%nat ->
  encode d = Ok bs -> decode bs = Ok d.
Proof. apply decode_encode_id. Qed.

Lemma document_roundtrip_witness :
  exists d bs, decode small_document = Ok d /\ encode d = Ok bs /\ decode bs = Ok d.
Proof.
  eexists. eexists. split; [vm_compute; reflexivity|]. split; [vm_compute; reflexivity|].
  apply document_roundtrip.
  - apply (decode_ok small_document). vm_compute. reflexivity.
  - vm_compute. reflexivity.
  - vm_compute. lia.
  - vm_compute. reflexivity.
Defined.
