(* ===== verification/Stats.v ===== *)
(** * Stats: volatile measurement series ([crates/core/src/stats.rs])

    Every series keeps three fixed rings of slots; a slot is one period of 10 minutes, 2 hours
    or 5 hours.  [f32] and [f64] arithmetic is IEEE 754, of the module [Float]. *)

From Stdlib Require Import ZArith Lia Ascii String.
From Stdlib.Floats Require Import SpecFloat.
From S2P Require Import Prelude Text Errors Float Value Json Time.
From stdpp Require Import sorting.

Local Open Scope Z_scope.

Definition MAX_SERIES : Z := 2048.
Definition TIERS : list (Z * nat * string) :=
  [(600, 144%nat, "10m0s"); (7200, 84%nat, "2h0m0s"); (18000, 144%nat, "5h0m0s")].

Inductive Kind := Gauge | Counter | Fraction.

#[export] Instance Kind_eq_dec : EqDecision Kind.
Proof. solve_decision. Defined.

Definition one_of (s : string) (l : list string) : bool := existsb (String.eqb s) l.

Definition Kind_of (cap : string) : option Kind :=
  let base := before_first "." cap in
  if starts_with "meter_" base then Some Counter
  else if starts_with "measure_" base
       || one_of base ["dim"; "volume_set"; "light_hue"; "light_saturation"; "target_temperature"]
  then Some Gauge
  else if starts_with "alarm_" base || one_of base ["onoff"; "locked"]
  then Some Fraction
  else None.

Definition Kind_name (k : Kind) : string :=
  match k with Gauge => "gauge" | Counter => "counter" | Fraction => "fraction" end.

(** ** Rings *)

Definition f32_of_Z (z : Z) : f32 := binary_normalize prec32 emax32 z 0 false.
Definition f32_zero : f32 := S754_zero false.

Record Slot := mk_slot { period : Z; count : Z; sum : f32; smin : f32; smax : f32 }.

Definition slot_default : Slot := mk_slot 0 0 f32_zero f32_zero f32_zero.
Definition slot_of (p : Z) : Slot := mk_slot p 0 f32_zero f32_zero f32_zero.

Record Ring := mk_ring { slots : list Slot; head : nat; every : Z }.

Definition ring_new (every : Z) (n : nat) : Ring := mk_ring (repeat slot_default n) 0 every.

(** [u16::saturating_add] *)
Definition sat16 (a b : Z) : Z := Z.min 65535 (a + b).

(** [Ring::slot]: the ring with its head on the slot for [at], or nothing if that period has
    passed or does not fit 32 bits. *)
Definition ring_slot (r : Ring) (at_ : Z) : option Ring :=
  let p := at_ / every r in
  if U32_MAX <? p then None else
  h ← slots r !! head r;
  if (0 <? count h) && (p <? period h) then None
  else if period h =? p then Some r
  else
    let head' := Nat.modulo (S (head r)) (length (slots r)) in
    Some (mk_ring (<[head' := slot_of p]> (slots r)) head' (every r)).

(** What a caller does with the [&mut Slot] it gets. *)
Definition update_head (f : Slot -> Slot) (r : Ring) : Ring :=
  match slots r !! head r with
  | Some s => mk_ring (<[head r := f s]> (slots r)) (head r) (every r)
  | None => r
  end.

Definition with_slot (r : Ring) (at_ : Z) (f : Slot -> Slot) : Ring :=
  match ring_slot r at_ with Some r' => update_head f r' | None => r end.

(** A value that lasted for [n] hundredths of the period. *)
Definition spread_slot (value : f64) (n : Z) (s : Slot) : Slot :=
  let v := to_f32 value in
  let sum' := f32_add (sum s) (f32_mul v (f32_of_Z n)) in
  if count s =? 0 then mk_slot (period s) (sat16 (count s) n) sum' v v
  else mk_slot (period s) (sat16 (count s) n) sum' (f_min (smin s) v) (f_max (smax s) v).

(** [(f64::from(part) * 100.0 + 0.5) as u16] *)
Definition hundredths (begin_ end_ step : Z) : Z :=
  let part := f32_div (f32_of_Z (end_ - begin_)) (f32_of_Z step) in
  to_u16 (f64_add (f64_mul (to_f64 part) (f64_of_Z 100)) (f64_of_decimal false 5 (-1))).

Fixpoint spread_loop (fuel : nat) (value : f64) (from_ms until_ms step cursor : Z) (r : Ring)
  : option Ring :=
  if cursor <? until_ms then
    match fuel with
    | O => None
    | S fuel =>
        let end_ := Z.min (saturating_add cursor step) until_ms in
        let begin_ := Z.max cursor from_ms in
        let r' := if begin_ <? end_
                  then with_slot r (cursor / 1000) (spread_slot value (hundredths begin_ end_ step))
                  else r in
        match checked_add cursor step with
        | None => Some r'
        | Some next => spread_loop fuel value from_ms until_ms step next r'
        end
    end
  else Some r.

Definition spread_start (r : Ring) (from_ms until_ms : Z) : Z :=
  let step := every r * 1000 in
  let cursor := from_ms / step * step in
  let newest := saturating_sub until_ms 1 / step * step in
  Z.max cursor (saturating_sub newest ((Z.of_nat (length (slots r)) - 1) * step)).

(** [Ring::spread]; the loop runs at most once per slot ([spread_total]). *)
Definition spread (value : f64) (from_ms until_ms : Z) (r : Ring) : Ring :=
  default r (spread_loop (length (slots r)) value from_ms until_ms (every r * 1000)
               (spread_start r from_ms until_ms) r).

(** ** Series *)

Record Series := mk_series {
  s_device : string; s_name : string; s_cap : string; s_kind : Kind;
  s_rings : list Ring; s_last : option (f64 * Z)
}.

Definition series_new (device name cap : string) (k : Kind) : Series :=
  mk_series device name cap k [ring_new 600 144; ring_new 7200 84; ring_new 18000 144] None.

Definition set_rings (s : Series) (rs : list Ring) : Series :=
  mk_series (s_device s) (s_name s) (s_cap s) (s_kind s) rs (s_last s).
Definition set_last (s : Series) (l : option (f64 * Z)) : Series :=
  mk_series (s_device s) (s_name s) (s_cap s) (s_kind s) (s_rings s) l.
Definition set_name (s : Series) (n : string) : Series :=
  mk_series (s_device s) n (s_cap s) (s_kind s) (s_rings s) (s_last s).

(** The slot of a gauge or counter after one more value; a counter that falls starts again. *)
Definition add_slot (k : Kind) (n : f32) (s : Slot) : Slot :=
  if bool_decide (k = Counter) && (0 <? count s) && f_ltb n (smax s)
  then mk_slot (period s) 1 n n n
  else
    let '(mn, mx) := if count s =? 0 then (n, n) else (f_min (smin s) n, f_max (smax s) n) in
    mk_slot (period s) (sat16 (count s) 1) (f32_add (sum s) n) mn mx.

Definition close (s : Series) (at_ : Z) : Series :=
  match s_kind s, s_last s with
  | Fraction, Some (value, from) =>
      if from <? at_
      then set_last (set_rings s (map (spread value from at_) (s_rings s))) (Some (value, at_))
      else s
  | _, _ => s
  end.

Definition add (s : Series) (value : f64) (at_ : Z) : Series :=
  let s' := match s_kind s with
            | Fraction => close s at_
            | k => set_rings s (map (fun r => with_slot r (at_ / 1000) (add_slot k (to_f32 value)))
                                  (s_rings s))
            end in
  set_last s' (Some (value, at_)).

(** [size_of::<Slot>()]: 4 + 2 + 3 * 4 bytes, aligned to 4. *)
Definition SLOT_BYTES : Z := 20.

Definition series_bytes (s : Series) : Z :=
  fold_right Z.add 0 (map (fun r => Z.of_nat (length (slots r)) * SLOT_BYTES) (s_rings s)).

(** ** Statistics *)

Record Statistics := mk_stats { series : list Series; closed : Z }.

Definition stats_new : Statistics := mk_stats [] 0.

Definition series_is (device cap : string) (s : Series) : bool :=
  (s_device s =? device)%string && (s_cap s =? cap)%string.

(** The measured value of a capability, if it has a finite one. *)
Definition measured (v : Value) : option f64 :=
  value ← match v with
          | VBool b => Some (f64_of_Z (if b then 1 else 0))
          | VNumber n => Some (as_f64 n)
          | _ => None
          end;
  if is_finite value && is_finite (to_f32 value) then Some value else None.

(** One field of the observed state. *)
Definition observe_field (st : Statistics) (device name cap : string) (v : Value) (at_ : Z)
  : Result Statistics :=
  match Kind_of cap, measured v with
  | Some kind, Some value =>
      all ← match find (series_is device cap) (series st) with
            | Some _ => Ok (series st)
            | None => push (series st) (series_new device name cap kind) MAX_SERIES
            end;
      match list_find (fun s => series_is device cap s = true) all with
      | Some (i, s) => Ok (mk_stats (<[i := add (set_name s name) value at_]> all) (closed st))
      | None => Err Full
      end
  | _, _ => Ok st
  end.

(** The loop; what was observed before an error stays. *)
Fixpoint observe_fields (st : Statistics) (device name : string) (fields : Object) (at_ : Z)
  : Result unit * Statistics :=
  match fields with
  | [] => (Ok tt, st)
  | (cap, v) :: fields =>
      match observe_field st device name cap v at_ with
      | Ok st' => observe_fields st' device name fields at_
      | Err e => (Err e, st)
      end
  end.

Definition observe (st : Statistics) (device name : string) (state : Value) (at_ : Z)
  : Result unit * Statistics :=
  match as_object state with
  | Some fields => observe_fields st device name fields at_
  | None => (Ok tt, st)
  end.

Definition tick (st : Statistics) (at_ : Z) : Statistics :=
  if closed st =? 0 then mk_stats (series st) at_
  else if 300000 <=? saturating_sub at_ (closed st)
  then mk_stats (map (fun s => close s at_) (series st)) at_
  else st.

Definition bytes (st : Statistics) : Z := fold_right Z.add 0 (map series_bytes (series st)).

Definition list_entry (s : Series) : Value :=
  fields [("deviceId", VString (s_device s)); ("deviceName", VString (s_name s));
          ("capability", VString (s_cap s)); ("kind", VString (Kind_name (s_kind s)));
          ("bytes", value_uint (series_bytes s))].

Definition list_ (st : Statistics) : Result Value :=
  all ← push_all (fun s => Ok (list_entry s)) MAX_SERIES (series st) [];
  Ok (fields [("series", VArray all); ("bytes", value_uint (bytes st))]).

(** [sort_unstable_by_key(|s| s.period)] *)
Fixpoint insert_slot (s : Slot) (l : list Slot) : list Slot :=
  match l with
  | [] => [s]
  | t :: l' => if period s <=? period t then s :: l else t :: insert_slot s l'
  end.

Definition sort_slots (l : list Slot) : list Slot := fold_right insert_slot [] l.

Definition number (v : f64) : Value := VNumber (Float v).

Definition window_entry (k : Kind) (every : Z) (s : Slot) : Result Value :=
  nanos ← ok_or (x ← checked_mul (period s) every; checked_mul x 1000000000) Full;
  at_ ← timestamp nanos;
  let entry := [("at", VString at_); ("count", value_uint (count s))] in
  let average := number (f64_div (to_f64 (sum s)) (f64_of_Z (count s))) in
  Ok (fields (entry ++
    match k with
    | Counter => [("used", number (to_f64 (f32_sub (smax s) (smin s))))]
    | Fraction => [("on", average)]
    | Gauge => [("average", average); ("min", number (to_f64 (smin s))); ("max", number (to_f64 (smax s)))]
    end)).

Definition tier_of (window : string) : nat :=
  if (window =? "week")%string || (window =? "1")%string then 1
  else if (window =? "month")%string || (window =? "2")%string then 2
  else 0.

Definition window (st : Statistics) (device cap win : string) : Result Value :=
  s ← ok_or (find (series_is device cap) (series st))
        (Missing "nothing has been recorded for this device and capability");
  let tier := tier_of win in
  ring ← ok_or (s_rings s !! tier) Full;
  filled ← push_all Ok 144 (filter (fun x => count x <> 0) (slots ring)) [];
  entries ← push_all (window_entry (s_kind s) (every ring)) 144 (sort_slots filled) [];
  Ok (fields [("kind", VString (Kind_name (s_kind s)));
              ("window", VString (match TIERS !! tier with Some t => t.2 | None => "" end));
              ("slots", VArray entries)]).

(** ** Rings keep their order *)

(** The slots from the oldest to the newest. *)
Definition rot (r : Ring) : list Slot := drop (S (head r)) (slots r) ++ take (S (head r)) (slots r).

Definition advance (r : Ring) (s : Slot) : Ring :=
  let head' := Nat.modulo (S (head r)) (length (slots r)) in
  mk_ring (<[head' := s]> (slots r)) head' (every r).

Lemma rot_perm r : rot r ≡ₚ slots r.
Proof. unfold rot. rewrite Permutation_app_comm. by rewrite take_drop. Qed.

Lemma rot_head r h :
  slots r !! head r = Some h -> exists init, rot r = init ++ [h] /\
  forall f, rot (update_head f r) = init ++ [f h].
Proof.
  intros Hh. exists (drop (S (head r)) (slots r) ++ take (head r) (slots r)). split.
  - unfold rot. rewrite (take_S_r _ _ _ Hh). by rewrite app_assoc.
  - intros f. unfold update_head. rewrite Hh. unfold rot. cbn [slots head].
    pose proof (lookup_lt_Some _ _ _ Hh) as Hlt.
    rewrite (take_S_r _ _ (f h)) by (by apply list_lookup_insert_eq).
    rewrite take_insert_ge, drop_insert_lt by lia. by rewrite app_assoc.
Qed.

Lemma rot_advance r s :
  (head r < length (slots r))%nat ->
  rot (advance r s) = tail (rot r) ++ [s] /\ (head (advance r s) < length (slots (advance r s)))%nat.
Proof.
  intros Hlt. unfold advance, rot. cbn [slots head]. rewrite length_insert.
  destruct (decide (S (head r) = length (slots r))) as [He|Hne].
  - rewrite He, Nat.Div0.mod_same. split; [|lia].
    rewrite (drop_ge (slots r)), (take_ge (slots r)) by lia. cbn [app].
    destruct (slots r) as [|x l]; [cbn in *; lia|]. cbn. by rewrite drop_0.
  - rewrite Nat.mod_small by lia. split; [|lia].
    destruct (lookup_lt_is_Some_2 (slots r) (S (head r))) as [x Hx]; [lia|].
    rewrite (drop_S _ _ _ Hx). cbn [app tail].
    rewrite (take_S_r _ _ s) by (apply list_lookup_insert_eq; lia).
    rewrite take_insert_ge, drop_insert_lt by lia. by rewrite app_assoc.
Qed.

Definition filled (l : list Slot) : list Slot := filter (fun s => count s <> 0) l.

(** Filled slots have strictly increasing periods, the newest at the head; the head is filled
    unless nothing is. *)
Record ring_ok (r : Ring) : Prop := {
  ro_head : (head r < length (slots r))%nat;
  ro_order : StronglySorted Z.lt (map period (filled (rot r)));
  ro_newest : forall h, slots r !! head r = Some h -> count h = 0 -> filled (rot r) = []
}.

Lemma filled_app l k : filled (l ++ k) = filled l ++ filled k.
Proof. apply filter_app. Qed.

Lemma StronglySorted_app_last l x :
  StronglySorted Z.lt (l ++ [x]) <-> StronglySorted Z.lt l /\ Forall (fun y => y < x) l.
Proof.
  induction l as [|y l IH]; cbn.
  - split; [intros _; split; constructor|]. intros _. by repeat constructor.
  - split.
    + intros H. apply StronglySorted_inv in H as [Hs Hf]. apply IH in Hs as [Hs Hl].
      apply Forall_app in Hf as [Hf Hx]. apply Forall_cons in Hx as [Hx _].
      split; [by constructor|by constructor].
    + intros [H Hf]. apply StronglySorted_inv in H as [Hs Hy]. apply Forall_cons in Hf as [Hyx Hf].
      constructor; [by apply IH|]. apply Forall_app. split; [done|by repeat constructor].
Qed.

Lemma filled_tail_sorted l :
  StronglySorted Z.lt (map period (filled l)) -> StronglySorted Z.lt (map period (filled (tail l))).
Proof.
  destruct l as [|x l]; [done|]. cbn [tail]. unfold filled. rewrite filter_cons. case_decide; [|done].
  cbn. by intros [? _]%StronglySorted_inv.
Qed.

Lemma map_period_last l x : map period (filled (l ++ [x])) = map period (filled l) ++ (if decide (count x <> 0) then [period x] else []).
Proof.
  rewrite filled_app, map_app. f_equal. unfold filled. rewrite filter_cons. by case_decide.
Qed.

Lemma filled_tail_Forall (P : Slot -> Prop) l : Forall P (filled l) -> Forall P (filled (tail l)).
Proof.
  destruct l as [|x l]; [done|]. cbn [tail]. unfold filled. rewrite filter_cons. case_decide; [|done].
  by intros [_ ?]%Forall_cons.
Qed.

(** Filling the head slot: the slots before it are older. *)
Lemma update_head_ok r h init f :
  slots r !! head r = Some h -> rot r = init ++ [h] ->
  period (f h) = period h -> 0 < count (f h) ->
  StronglySorted Z.lt (map period (filled init)) -> Forall (fun s => period s < period h) (filled init) ->
  ring_ok (update_head f r).
Proof.
  intros Eh Hinit Hfp Hfc Hs Hf. pose proof (lookup_lt_Some _ _ _ Eh) as Hlt.
  destruct (rot_head r h Eh) as (init' & Hi & Hupd). rewrite Hinit in Hi.
  apply app_inj_tail in Hi as [<- _]. specialize (Hupd f). unfold update_head in *. rewrite Eh in *.
  split; cbn [slots head].
  - by rewrite length_insert.
  - rewrite Hupd, map_period_last, Hfp, decide_True by lia. apply StronglySorted_app_last.
    split; [done|by apply Forall_map].
  - intros h' Hh' Hc'. rewrite list_lookup_insert_eq in Hh' by done. injection Hh' as <-. lia.
Qed.

(** What a ring in order says of the slots before its head. *)
Lemma ring_ok_init r h init :
  ring_ok r -> slots r !! head r = Some h -> rot r = init ++ [h] ->
  StronglySorted Z.lt (map period (filled init)) /\
  Forall (fun s => period s < period h) (filled init) /\ (count h = 0 -> filled init = []).
Proof.
  intros [Hh Ho Hn] Eh Hinit. specialize (Hn h Eh). rewrite Hinit in Ho, Hn. rewrite map_period_last in Ho.
  rewrite filled_app in Hn.
  case_decide as Hc.
  - apply StronglySorted_app_last in Ho as [Ho Hl]. rewrite Forall_map in Hl. by split_and!.
  - rewrite app_nil_r in Ho. destruct (app_eq_nil _ _ (Hn Hc)) as [He _].
    rewrite He. split_and!; [constructor|constructor|done].
Qed.

Lemma update_head_frame f r :
  (forall s, 0 <= count s -> 0 < count (f s)) -> Forall (fun s => 0 <= count s) (slots r) ->
  Forall (fun s => 0 <= count s) (slots (update_head f r)) /\
  length (slots (update_head f r)) = length (slots r) /\ every (update_head f r) = every r.
Proof.
  intros Hf Hpos. unfold update_head. destruct (slots r !! head r) as [h|] eqn:Eh; [|done].
  cbn. rewrite length_insert. split_and!; [|done|done]. apply Forall_insert; [done|].
  rewrite Forall_forall in Hpos. specialize (Hpos h (list_elem_of_lookup_2 _ _ _ Eh)). specialize (Hf h Hpos). lia.
Qed.

(** Writing a value through [Ring::slot] keeps the order, whatever the clock says. *)
Lemma with_slot_ok r at_ f :
  (forall s, period (f s) = period s) -> (forall s, 0 <= count s -> 0 < count (f s)) ->
  Forall (fun s => 0 <= count s) (slots r) -> ring_ok r ->
  ring_ok (with_slot r at_ f) /\ Forall (fun s => 0 <= count s) (slots (with_slot r at_ f)) /\
  length (slots (with_slot r at_ f)) = length (slots r) /\ every (with_slot r at_ f) = every r.
Proof.
  intros Hfp Hfc Hpos Hok. pose proof (ro_head _ Hok) as Hh. unfold with_slot, ring_slot.
  destruct (U32_MAX <? _); [done|]. destruct (lookup_lt_is_Some_2 _ _ Hh) as [h Eh]. rewrite Eh.
  cbn [mbind option_bind]. set (p := at_ / every r).
  destruct ((0 <? count h) && (p <? period h)) eqn:Eold; [done|].
  assert (Hcount : 0 <= count h) by (rewrite Forall_forall in Hpos; by eapply Hpos, list_elem_of_lookup_2).
  destruct (rot_head r h Eh) as (init & Hinit & _).
  destruct (ring_ok_init r h init Hok Eh Hinit) as (Hs & Hl & Hn).
  destruct (Z.eqb_spec (period h) p) as [Hp|Hp].
  - split; [|by apply update_head_frame]. eapply update_head_ok; eauto.
  - fold (advance r (slot_of p)).
    destruct (rot_advance r (slot_of p) Hh) as [Hra Hlt].
    assert (Eh2 : slots (advance r (slot_of p)) !! head (advance r (slot_of p)) = Some (slot_of p)).
    { unfold advance in *. cbn [slots head] in *. rewrite length_insert in Hlt. by apply list_lookup_insert_eq. }
    split.
    + eapply update_head_ok; [exact Eh2|exact Hra|done|apply Hfc; cbn; lia| |].
      * apply filled_tail_sorted. rewrite Hinit, map_period_last. case_decide; [|by rewrite app_nil_r].
        apply StronglySorted_app_last. split; [done|by apply Forall_map].
      * apply filled_tail_Forall. rewrite Hinit, filled_app. apply Forall_app.
        destruct (decide (count h = 0)) as [Hc|Hc].
        { rewrite (Hn Hc). split; [constructor|]. unfold filled. by rewrite filter_cons_False by lia. }
        assert (period h < p) by (apply andb_false_iff in Eold as [E|E]; bool_prop; lia).
        split; [eapply Forall_impl; [exact Hl|]; cbn; lia|].
        unfold filled. rewrite filter_cons_True by done. by repeat constructor.
    + destruct (update_head_frame f (advance r (slot_of p)) Hfc) as (H1 & H2 & H3).
      { unfold advance. cbn. apply Forall_insert; [done|cbn; lia]. }
      rewrite H2, H3. unfold advance. cbn [slots every]. by rewrite length_insert.
Qed.

Lemma ring_new_ok e n : (0 < n)%nat -> ring_ok (ring_new e n) /\ Forall (fun s => 0 <= count s) (slots (ring_new e n)).
Proof.
  intros Hn. assert (Hf : forall l, Forall (fun s => count s = 0) l -> filled l = []).
  { intros l Hl. unfold filled. induction Hl as [|x l Hx _ IH]; [done|]. by rewrite filter_cons_False by lia. }
  assert (Hall : Forall (fun s => count s = 0) (slots (ring_new e n))).
  { cbn. apply Forall_forall. intros s Hs%list_elem_of_In%repeat_spec. by subst. }
  assert (Hrot : filled (rot (ring_new e n)) = []) by (apply Hf; by rewrite rot_perm).
  split.
  - split; [cbn; by rewrite repeat_length|rewrite Hrot; constructor|done].
  - eapply Forall_impl; [exact Hall|]. cbn. lia.
Qed.

Lemma add_slot_period k n s : period (add_slot k n s) = period s.
Proof. unfold add_slot. destruct (_ && _); [done|]. by destruct (count s =? 0). Qed.

Lemma add_slot_count k n s : 0 <= count s -> 0 < count (add_slot k n s).
Proof.
  intros Hs. unfold add_slot. destruct (_ && _); [cbn; lia|]. destruct (count s =? 0); cbn; unfold sat16; lia.
Qed.

(** What the rings of a gauge or counter series keep. *)
Definition ring_fine (r : Ring) : Prop := ring_ok r /\ Forall (fun s => 0 <= count s) (slots r).

Lemma add_rings_fine s v t :
  s_kind s <> Fraction -> Forall ring_fine (s_rings s) ->
  s_kind (add s v t) = s_kind s /\ Forall ring_fine (s_rings (add s v t)).
Proof.
  intros Hk Hf. unfold add. destruct (s_kind s) eqn:Ek; [| |done]; cbn; rewrite Ek; (split; [done|]);
    apply Forall_map; (eapply Forall_impl; [exact Hf|]); intros r [Hok Hpos];
    match goal with |- context [with_slot r ?a ?f] => destruct (with_slot_ok r a f) as (H1 & H2 & _) end;
    auto using add_slot_period, add_slot_count; by split.
Qed.

Lemma insert_slot_perm s l : insert_slot s l ≡ₚ s :: l.
Proof.
  induction l as [|t l IH]; [done|]. cbn. destruct (_ <=? _); [done|]. rewrite IH. apply Permutation_swap.
Qed.

Lemma sort_slots_perm l : sort_slots l ≡ₚ l.
Proof. induction l as [|s l IH]; [done|]. cbn. by rewrite insert_slot_perm, IH. Qed.

Lemma insert_slot_sorted s l :
  StronglySorted Z.lt (map period l) -> Forall (fun t => period t <> period s) l ->
  StronglySorted Z.lt (map period (insert_slot s l)).
Proof.
  induction l as [|t l IH]; intros Hs Hne; cbn; [by repeat constructor|].
  cbn in Hs. apply StronglySorted_inv in Hs as [Hs Ht]. apply Forall_cons in Hne as [Hne1 Hne].
  destruct (Z.leb_spec (period s) (period t)).
  - cbn. constructor; [by constructor|]. constructor; [lia|].
    rewrite Forall_forall in Ht |- *. intros x Hx. specialize (Ht x Hx). lia.
  - cbn. constructor; [by apply IH|].
    apply Forall_forall. intros x (y & -> & Hy)%list_elem_of_fmap. rewrite insert_slot_perm in Hy.
    apply elem_of_cons in Hy as [->|Hy]; [lia|]. rewrite Forall_forall in Ht. apply Ht.
    apply list_elem_of_fmap. by exists y.
Qed.

Lemma sort_slots_sorted l : NoDup (map period l) -> StronglySorted Z.lt (map period (sort_slots l)).
Proof.
  induction l as [|s l IH]; intros Hn; [constructor|]. cbn in Hn. apply NoDup_cons in Hn as [Hs Hn].
  cbn. apply insert_slot_sorted; [by apply IH|]. apply Forall_forall. intros t Ht He.
  apply Hs. rewrite <-He. apply list_elem_of_fmap. exists t. split; [done|]. by rewrite <-(sort_slots_perm l).
Qed.

Lemma ring_ok_sorted r : ring_ok r -> StronglySorted Z.lt (map period (sort_slots (filled (slots r)))).
Proof.
  intros [_ Ho _]. apply sort_slots_sorted. unfold filled. rewrite <-(rot_perm r).
  fold (filled (rot r)). clear - Ho. induction Ho as [|x l _ IH Hx]; [constructor|].
  apply NoDup_cons. split; [|done]. intros Hi. rewrite Forall_forall in Hx. specialize (Hx x Hi). lia.
Qed.

Definition record_samples (s : Series) (l : list (f64 * Z)) : Series :=
  fold_left (fun s p => add s p.1 p.2) l s.

(** The slots that [window] reports for a gauge or a counter have strictly increasing
    periods, for each of the three windows and after any sequence of measurements, also when
    the clock stood still or was set back: no period is ever reported twice, and the result
    does not depend on how the unstable sort orders equal keys. *)
Theorem window_periods_increase device name cap k l r :
  k <> Fraction -> r ∈ s_rings (record_samples (series_new device name cap k) l) ->
  StronglySorted Z.lt (map period (sort_slots (filled (slots r)))).
Proof.
  intros Hk Hr. enough (Forall ring_fine (s_rings (record_samples (series_new device name cap k) l))) as Hall.
  { rewrite Forall_forall in Hall. apply ring_ok_sorted. by apply (Hall r Hr). }
  assert (Hstart : s_kind (series_new device name cap k) <> Fraction /\
                   Forall ring_fine (s_rings (series_new device name cap k))).
  { split; [done|]. cbn [series_new s_rings]. repeat (apply Forall_cons; split); [apply ring_new_ok; lia..|constructor]. }
  clear Hr. revert Hstart. generalize (series_new device name cap k) as s. unfold record_samples.
  induction l as [|[v t] l IH]; intros s [Hks Hf]; [done|]. cbn [fold_left fst snd].
  apply IH. destruct (add_rings_fine s v t Hks Hf) as [-> ?]. done.
Qed.

Lemma window_periods_increase_witness :
  exists r, r ∈ s_rings (record_samples (series_new "d" "n" "measure_power" Gauge)
                           [(f64_of_Z 5, 1000); (f64_of_Z 7, 700000); (f64_of_Z 6, 600); (f64_of_Z 9, 1300000)]) /\
    StronglySorted Z.lt (map period (sort_slots (filled (slots r)))).
Proof.
  eexists. split; [by left|].
  apply (window_periods_increase "d" "n" "measure_power" Gauge
           [(f64_of_Z 5, 1000); (f64_of_Z 7, 700000); (f64_of_Z 6, 600); (f64_of_Z 9, 1300000)]);
    [done|by left].
Defined.

(** ** Spreading an interval costs at most one ring *)

Lemma spread_loop_total fuel value from until_ step cursor r :
  0 < step -> 0 <= cursor -> (step | cursor) ->
  (until_ - 1) / step * step < cursor + Z.of_nat fuel * step ->
  is_Some (spread_loop fuel value from until_ step cursor r).
Proof.
  intros Hs. revert cursor r. induction fuel as [|fuel IH]; intros cursor r Hc Hd Hf; cbn [spread_loop];
    destruct (Z.ltb_spec cursor until_) as [Hlt|]; try done.
  - exfalso. destruct Hd as [q ->]. assert (q <= (until_ - 1) / step) by (apply Z.div_le_lower_bound; lia). nia.
  - destruct (checked_add cursor step) as [next|] eqn:En; [|done].
    apply checked_add_Some in En as [-> _]. apply IH; [lia| |lia].
    apply Z.divide_add_r; [done|apply Z.divide_refl].
Qed.

(** Closing a switch that was silent for any length of time visits each slot of a ring at
    most once: the loop of [Ring::spread] ends within as many rounds as the ring has slots. *)
Theorem spread_total value from until_ r :
  0 < every r -> slots r <> [] -> 0 <= from -> 0 <= until_ ->
  is_Some (spread_loop (length (slots r)) value from until_ (every r * 1000) (spread_start r from until_) r).
Proof.
  intros He Hn Hf Hu. unfold spread_start. set (step := every r * 1000).
  assert (Hs : 0 < step) by (unfold step; lia). set (n := Z.of_nat (length (slots r))).
  assert (Hlen : 1 <= n) by (unfold n; destruct (slots r); [done|cbn; lia]).
  unfold saturating_sub. apply spread_loop_total; [done| | |].
  - apply Z.max_le_iff. right. lia.
  - assert (Hmul : forall a, (step | a * step)) by (intros a; by exists a).
    assert (Hd : (step | Z.max 0 (Z.max 0 (until_ - 1) / step * step - (n - 1) * step))).
    { destruct (Z.max_spec 0 (Z.max 0 (until_ - 1) / step * step - (n - 1) * step)) as [[_ ->]|[_ ->]].
      - rewrite <-Z.mul_sub_distr_r. apply Hmul.
      - by exists 0. }
    destruct (Z.max_spec (from / step * step) (Z.max 0 (Z.max 0 (until_ - 1) / step * step - (n - 1) * step)))
      as [[_ ->]|[_ ->]]; [done|apply Hmul].
  - fold n. assert ((until_ - 1) / step <= Z.max 0 (until_ - 1) / step) by (apply Z.div_le_mono; lia). nia.
Qed.

Lemma spread_total_witness :
  is_Some (spread_loop 144 (f64_of_Z 1) 1000 99999999000 (600 * 1000)
             (spread_start (ring_new 600 144) 1000 99999999000) (ring_new 600 144)).
Proof. apply (spread_total (f64_of_Z 1) 1000 99999999000 (ring_new 600 144)); done || lia. Defined.

(** ** Bounded memory *)

(** Three rings of the fixed sizes. *)
Definition shape (r : Ring) : Z * nat := (every r, length (slots r)).

Definition series_ok (s : Series) : Prop := map shape (s_rings s) = [(600, 144%nat); (7200, 84%nat); (18000, 144%nat)].

Definition series_key (s : Series) : string * string := (s_device s, s_cap s).

Record stats_ok (st : Statistics) : Prop := {
  so_length : Z.of_nat (length (series st)) <= MAX_SERIES;
  so_distinct : NoDup (map series_key (series st));
  so_series : Forall series_ok (series st)
}.

Lemma with_slot_shape r at_ f : shape (with_slot r at_ f) = shape r.
Proof.
  unfold with_slot. destruct (ring_slot r at_) as [r'|] eqn:E; [|done].
  assert (Hu : shape (update_head f r') = shape r').
  { unfold update_head, shape. destruct (slots r' !! head r'); [|done]. cbn. by rewrite length_insert. }
  rewrite Hu. unfold ring_slot in E. destruct (_ <? _); [done|].
  destruct (slots r !! head r); cbn in E; [|done].
  destruct (_ && _); [done|]. destruct (_ =? _); injection E as <-; [done|].
  unfold shape. cbn. by rewrite length_insert.
Qed.

Lemma spread_loop_shape fuel v from until_ step c r r' :
  spread_loop fuel v from until_ step c r = Some r' -> shape r' = shape r.
Proof.
  revert c r. induction fuel as [|fuel IH]; intros c r; cbn [spread_loop];
    (destruct (_ <? _); [|by intros [= ->]]); [done|].
  set (r1 := if _ <? _ then _ else _).
  assert (Hr1 : shape r1 = shape r) by (unfold r1; destruct (_ <? _); [apply with_slot_shape|done]).
  destruct (checked_add c step); [intros H%IH; congruence|intros [= <-]; done].
Qed.

Lemma spread_shape v from until_ r : shape (spread v from until_ r) = shape r.
Proof.
  unfold spread. destruct (spread_loop _ _ _ _ _ _ _) as [r'|] eqn:E; [|done].
  cbn. by eapply spread_loop_shape.
Qed.

Lemma map_shape f rs : (forall r, shape (f r) = shape r) -> map shape (map f rs) = map shape rs.
Proof. intros Hf. rewrite map_map. by apply map_ext. Qed.

Lemma close_ok s t : series_key (close s t) = series_key s /\ (series_ok s -> series_ok (close s t)).
Proof.
  unfold close. destruct (s_kind s); [done|done|]. destruct (s_last s) as [[v from]|]; [|done].
  destruct (from <? t); [|done]. split; [done|]. unfold series_ok. cbn.
  by rewrite map_shape by apply spread_shape.
Qed.

Lemma add_ok s v t : series_key (add s v t) = series_key s /\ (series_ok s -> series_ok (add s v t)).
Proof.
  unfold add. destruct (s_kind s) eqn:Ek.
  1,2: split; [done|]; unfold series_ok; cbn; by rewrite map_shape by (intros; apply with_slot_shape).
  destruct (close_ok s t) as [Hk Ho]. split; [exact Hk|exact Ho].
Qed.

Lemma observe_field_ok st device name cap v t st' :
  stats_ok st -> observe_field st device name cap v t = Ok st' -> stats_ok st'.
Proof.
  intros [H1 H2 H3] H. unfold observe_field in H.
  destruct (Kind_of cap) as [k|]; [|injection H as <-; by split].
  destruct (measured v) as [x|]; [|injection H as <-; by split].
  assert (Hall : exists all, stats_ok (mk_stats all (closed st)) /\
     match list_find (fun s => series_is device cap s = true) all with
     | Some (i, s) => Ok (mk_stats (<[i := add (set_name s name) x t]> all) (closed st))
     | None => Err Full
     end = Ok st').
  { destruct (find (series_is device cap) (series st)) as [s|] eqn:Ef; cbn [mbind result_bind] in H.
    - exists (series st). split; [by split|done].
    - destruct (push (series st) _ MAX_SERIES) as [all|] eqn:Ep; cbn [mbind result_bind] in H; [|done].
      apply push_Ok in Ep as [Hl ->]. exists (series st ++ [series_new device name cap k]). split; [|done].
      split; cbn.
      + rewrite length_app. cbn. lia.
      + rewrite map_app. apply NoDup_app. split_and!; [done| |apply NoDup_singleton].
        intros key Hin ->%list_elem_of_singleton. apply list_elem_of_fmap in Hin as (s & Hks & Hs).
        apply list_elem_of_In in Hs. pose proof (find_none _ _ Ef s Hs) as Hf. unfold series_is in Hf.
        injection Hks as Hd Hc. by rewrite <-Hd, <-Hc, !String.eqb_refl in Hf.
      + apply Forall_app. split; [done|]. by repeat constructor. }
  destruct Hall as (all & [G1 G2 G3] & Hst). cbn in *.
  destruct (list_find _ all) as [[i s]|] eqn:El; [|done]. injection Hst as <-.
  apply list_find_Some in El as (Hi & _ & _).
  destruct (add_ok (set_name s name) x t) as [Hk Ho].
  split; cbn; [by rewrite length_insert| |].
  - rewrite list_fmap_insert, Hk, list_insert_id; [done|]. by rewrite list_lookup_fmap, Hi.
  - apply Forall_insert; [done|]. apply Ho. rewrite Forall_forall in G3.
    apply (G3 s). by eapply list_elem_of_lookup_2.
Qed.

Lemma observe_fields_ok fs st device name t :
  stats_ok st -> stats_ok (observe_fields st device name fs t).2.
Proof.
  revert st. induction fs as [|[cap v] fs IH]; intros st Hst; [done|]. cbn.
  destruct (observe_field st device name cap v t) as [st'|] eqn:E; [|done].
  apply IH. by eapply observe_field_ok.
Qed.

Lemma observe_ok st device name v t : stats_ok st -> stats_ok (observe st device name v t).2.
Proof. intros Hst. unfold observe. destruct (as_object v); [by apply observe_fields_ok|done]. Qed.

Lemma tick_ok st t : stats_ok st -> stats_ok (tick st t).
Proof.
  intros [H1 H2 H3]. unfold tick. destruct (_ =? _); [by split|]. destruct (_ <=? _); [|by split].
  split; cbn.
  - by rewrite length_map.
  - rewrite map_map. rewrite (map_ext _ series_key); [done|]. intros s. apply close_ok.
  - apply Forall_map. eapply Forall_impl; [exact H3|]. intros s. apply close_ok.
Qed.

Lemma stats_new_ok : stats_ok stats_new.
Proof. split; cbn; [done|constructor|constructor]. Qed.

Lemma series_bytes_ok s : series_ok s -> series_bytes s = 7440.
Proof.
  unfold series_ok, series_bytes. destruct (s_rings s) as [|a [|b [|c [|]]]]; try done. cbn.
  intros [= _ -> _ -> _ ->]. done.
Qed.

(** What feeds the statistics: device observations and clock ticks. *)
Inductive Feed := Observed (device name : string) (state : Value) (at_ : Z) | Ticked (at_ : Z).

Definition feed (st : Statistics) (f : Feed) : Statistics :=
  match f with
  | Observed device name state at_ => (observe st device name state at_).2
  | Ticked at_ => tick st at_
  end.

(** Statistics stay within fixed memory whatever is observed: at most 2048 series, one per
    device and capability, each of exactly 7440 bytes in three rings of 144, 84 and 144 slots. *)
Theorem statistics_bounded fs :
  let st := fold_left feed fs stats_new in
  stats_ok st /\ bytes st = 7440 * Z.of_nat (length (series st)) /\ bytes st <= 15237120.
Proof.
  cbn zeta.
  assert (Hst : stats_ok (fold_left feed fs stats_new)).
  { generalize stats_new_ok. generalize stats_new as st. induction fs as [|f fs IH]; intros st Hst; [done|].
    cbn [fold_left]. apply IH. destruct f; [by apply observe_ok|by apply tick_ok]. }
  assert (Hb : bytes (fold_left feed fs stats_new) = 7440 * Z.of_nat (length (series (fold_left feed fs stats_new)))).
  { unfold bytes. pose proof (so_series _ Hst) as Hs. induction Hs as [|s l Hs _ IH]; [done|].
    cbn [map fold_right length]. rewrite (series_bytes_ok s Hs), IH. lia. }
  split; [done|]. split; [done|]. rewrite Hb. pose proof (so_length _ Hst) as Hl. unfold MAX_SERIES in Hl. lia.
Qed.

(** A value is only checked on its own: two of them can sum to infinity within one slot, and
    the average that [window] reports then is not a JSON number. *)
Example average_overflows :
  let sample := VObject [("measure_x", VNumber (Float (f64_of_decimal false 3 38)))] in
  let st := fold_left feed [Observed "d" "n" sample 1000; Observed "d" "n" sample 2000] stats_new in
  (v ← res_ok (window st "d" "measure_x" "day"); Some (write v)) = Some (Err NotFinite).
Proof. vm_compute. reflexivity. Qed.
