(* ===== verification/Units.v ===== *)
(** * Units: measured values and the units they are shown in ([crates/core/src/units.rs])

    Stored values keep the unit the app declared; [show] and [canonical] convert at the edge
    of the user.  [update] is the only way a choice lands in the document. *)

From Stdlib Require Import ZArith Lia Ascii String.
From S2P Require Import Prelude Text Errors Float Value.

Local Open Scope Z_scope.

Record Choice := mk_choice {
  quantity : string; unit_ : string; aliases : list string;
  factor : f64; offset : f64; step_ : f64; decimals : nat
}.

(** [m * 10^e] as the compiler reads a literal *)
Definition lit (m e : Z) : f64 := f64_of_decimal false m e.

Definition double_quote : string := of_bytes [34].

Definition CHOICES : list Choice :=
  [mk_choice "temperature" "°C" ["C"; "c"; "celsius"] (lit 1 0) (lit 0 0) (lit 5 (-1)) 1;
   mk_choice "temperature" "°F" ["F"; "fahrenheit"] (lit 18 (-1)) (lit 32 0) (lit 1 0) 1;
   mk_choice "wind" "Bft" [] (lit 0 0) (lit 0 0) (lit 1 0) 0;
   mk_choice "wind" "m/s" ["ms"; "m/sec"] (lit 1 0) (lit 0 0) (lit 5 (-1)) 1;
   mk_choice "wind" "km/h" ["kmh"; "kph"] (lit 36 (-1)) (lit 0 0) (lit 1 0) 0;
   mk_choice "wind" "mph" [] (lit 22369362920544 (-13)) (lit 0 0) (lit 1 0) 0;
   mk_choice "wind" "kn" ["kt"; "knots"] (lit 19438444924406 (-13)) (lit 0 0) (lit 1 0) 0;
   mk_choice "rain" "mm" [] (lit 1 0) (lit 0 0) (lit 5 (-1)) 1;
   mk_choice "rain" "in" ["inch"; double_quote] (lit 3937007874015748 (-17)) (lit 0 0) (lit 5 (-2)) 2;
   mk_choice "distance" "km" [] (lit 1 0) (lit 0 0) (lit 1 (-1)) 1;
   mk_choice "distance" "mi" ["mile"; "miles"] (lit 621371192237334 (-15)) (lit 0 0) (lit 1 (-1)) 1;
   mk_choice "pressure" "hPa" ["hpa"; "mbar"; "mBar"] (lit 1 0) (lit 0 0) (lit 1 0) 1;
   mk_choice "pressure" "inHg" ["inhg"] (lit 2952998307144475 (-17)) (lit 0 0) (lit 1 (-1)) 2;
   mk_choice "pressure" "mmHg" ["mmhg"; "torr"] (lit 7500616827041845 (-16)) (lit 0 0) (lit 1 0) 0;
   mk_choice "power" "W" ["J/s"; "watt"; "Watt"; "VA"] (lit 1 0) (lit 0 0) (lit 1 0) 0;
   mk_choice "power" "kW" ["kw"] (lit 1 (-3)) (lit 0 0) (lit 1 (-1)) 3;
   mk_choice "power" "BTU/h" ["btu/h"; "BTU/hr"] (lit 3412141633 (-9)) (lit 0 0) (lit 100 0) 0;
   mk_choice "energy" "kWh" ["kwh"] (lit 1 0) (lit 0 0) (lit 1 (-1)) 3;
   mk_choice "energy" "Wh" ["wh"] (lit 1000 0) (lit 0 0) (lit 1 0) 0;
   mk_choice "energy" "MJ" ["mj"] (lit 36 (-1)) (lit 0 0) (lit 1 (-1)) 2].

Definition BEAUFORT : list f64 :=
  [lit 3 (-1); lit 16 (-1); lit 34 (-1); lit 55 (-1); lit 8 0; lit 108 (-1); lit 139 (-1); lit 172 (-1);
   lit 208 (-1); lit 245 (-1); lit 285 (-1); lit 327 (-1)].

(** name, title, canonical unit, default choice *)
Definition QUANTITIES : list (string * string * string * string) :=
  [("temperature", "Temperatuur", "°C", "°C"); ("wind", "Wind", "m/s", "Bft"); ("rain", "Neerslag", "mm", "mm");
   ("distance", "Afstand", "km", "km"); ("pressure", "Luchtdruk", "hPa", "hPa"); ("power", "Vermogen", "W", EmptyString);
   ("energy", "Energie", "kWh", EmptyString)].

Definition q_name (q : string * string * string * string) : string := q.1.1.1.
Definition q_default (q : string * string * string * string) : string := q.2.

(** [iter().take_while(p).count()] *)
Fixpoint count_while {A} (p : A -> bool) (l : list A) : nat :=
  match l with [] => O | x :: l => if p x then S (count_while p l) else O end.

Definition beaufort (value : f64) : nat := count_while (fun limit => f_leb limit value) BEAUFORT.

Definition beaufort_floor (force : nat) : f64 :=
  match force with
  | O => lit 0 0
  | _ => default (lit 0 0) (BEAUFORT !! (Nat.min force 12 - 1)%nat)
  end.

Definition POWERS : list f64 := [lit 1 0; lit 10 0; lit 100 0; lit 1000 0; lit 10000 0].

Definition round (value : f64) (decimals : nat) : f64 :=
  let factor := default (lit 1 0) (POWERS !! decimals) in
  let scaled := f64_mul value factor in
  if negb (is_finite scaled) || f_leb (lit 9 18) (f_abs scaled) then value
  else
    let half := lit 5 (-1) in
    let rounded := to_i64 (if f_ltb scaled (lit 0 0) then f64_sub scaled half else f64_add scaled half) in
    f64_div (f64_of_Z rounded) factor.

(** [value.clamp(lo, hi)] *)
Definition clamp (value lo hi : f64) : f64 :=
  if f_ltb value lo then lo else if f_ltb hi value then hi else value.

Definition from (c : Choice) (value : f64) : f64 :=
  if (unit_ c =? "Bft")%string
  then beaufort_floor (Z.to_nat (to_u64 (clamp (round value 0) (lit 0 0) (lit 12 0))))
  else f64_div (f64_sub value (offset c)) (factor c).

Definition to (c : Choice) (value : f64) : f64 :=
  if (unit_ c =? "Bft")%string then f64_of_Z (Z.of_nat (beaufort value))
  else f64_add (f64_mul value (factor c)) (offset c).

Definition declares (declared : string) (c : Choice) : bool :=
  (unit_ c =? declared)%string || existsb (fun a => (a =? declared)%string) (aliases c).

Definition resolve (settings : Value) (declared : string) : option (Choice * Choice) :=
  source ← find (declares declared) CHOICES;
  let wanted := text settings (quantity source) in
  wanted ← (if is_empty wanted
            then q_default <$> find (fun q => (q_name q =? quantity source)%string) QUANTITIES
            else Some wanted);
  let chosen := default source
    (find (fun c => (quantity c =? quantity source)%string && (unit_ c =? wanted)%string) CHOICES) in
  Some (source, chosen).

Definition show (settings : Value) (value : f64) (declared : string) : f64 * string :=
  match resolve settings declared with
  | None => (value, declared)
  | Some (source, chosen) =>
      if (unit_ source =? unit_ chosen)%string then (value, unit_ source)
      else (round (to chosen (from source value)) (decimals chosen), unit_ chosen)
  end.

Definition canonical (settings : Value) (value : f64) (declared : string) : f64 :=
  match resolve settings declared with
  | None => value
  | Some (source, chosen) =>
      if (unit_ source =? unit_ chosen)%string then value
      else round (to source (from chosen value)) (decimals source + 1)
  end.

Definition step (settings : Value) (declared : string) : option f64 :=
  '(source, chosen) ← resolve settings declared;
  if negb (unit_ source =? unit_ chosen)%string then Some (step_ chosen) else None.

Definition valid (q unit : string) : bool :=
  (((q =? "power")%string || (q =? "energy")%string) && is_empty unit)
  || existsb (fun c => (quantity c =? q)%string && (unit_ c =? unit)%string) CHOICES.

(** The loop of [update] on [&mut settings]: what was set before an error stays set. *)
Fixpoint update_fields (patch : Object) (settings : Value) : Result unit * Value :=
  match patch with
  | [] => (Ok tt, settings)
  | (q, v) :: patch =>
      match as_str v with
      | None => (Err (Invalid "unit must be a string"), settings)
      | Some unit =>
          if negb (valid q unit) then (Err (Invalid "unit does not belong to quantity"), settings)
          else match set settings q (VString unit) with
               | Err e => (Err e, settings)
               | Ok settings => update_fields patch settings
               end
      end
  end.

Definition update (settings patch : Value) : Result unit * Value :=
  match as_object patch with
  | None => (Err (Invalid "units must be an object"), settings)
  | Some o => update_fields o settings
  end.

Fixpoint fill (qs : list (string * string * string * string)) (out : Value) : Result Value :=
  match qs with
  | [] => Ok out
  | q :: qs =>
      out ← (if is_empty (text out (q_name q)) then set out (q_name q) (VString (q_default q)) else Ok out);
      fill qs out
  end.

Definition filled (settings : Value) : Result Value := fill QUANTITIES settings.

Definition option_of (unit title : string) : Value := fields [("unit", VString unit); ("title", VString title)].

Definition offer_one (q : string * string * string * string) : Result Value :=
  let '(name, title, canon, dflt) := q in
  options ← (if is_empty dflt then push [] (option_of EmptyString "zoals de app meldt") 8 else Ok []);
  options ← push_all (fun c => Ok (option_of (unit_ c) (unit_ c))) 8
              (List.filter (fun c => (quantity c =? name)%string) CHOICES) options;
  Ok (fields [("name", VString name); ("title", VString title); ("canonical", VString canon);
              ("default", VString dflt); ("options", VArray options)]).

Definition offer : Result Value :=
  result ← push_all offer_one 7 QUANTITIES [];
  Ok (VArray result).

Definition measurement_text (settings : Value) (value : f64) (declared : string) : Result string :=
  let '(shown, label) := show settings value declared in
  if negb (is_finite shown) then Err (Invalid "measurement must be finite") else
  let digits := of_bytes (f64_display shown) in
  if is_empty label then Ok digits
  else Ok (digits ++ (if (label =? "%")%string || (label =? "°")%string then EmptyString else " ") ++ label)%string.

(** ** Checks *)

Example show_wind : show (VObject []) (lit 10 0) "m/s" = (lit 5 0, "Bft").
Proof. vm_compute. reflexivity. Qed.
Example show_fahrenheit : show (VObject [("temperature", VString "°F")]) (lit 215 (-1)) "C" = (lit 707 (-1), "°F").
Proof. vm_compute. reflexivity. Qed.
Example text_celsius : measurement_text (VObject []) (lit 215 (-1)) "celsius" = Ok "21.5 °C".
Proof. vm_compute. reflexivity. Qed.

(** ** The wind scale *)

(** A wind force is stable under editing for values in metres per second: the speed stored
    for a force the user enters is shown as that same force. *)
Theorem entered_force_is_shown n :
  (n <= 12)%nat ->
  show object (canonical object (f64_of_Z (Z.of_nat n)) "m/s") "m/s" = (f64_of_Z (Z.of_nat n), "Bft").
Proof. intros Hn. do 13 (destruct n as [|n]; [vm_compute; reflexivity|]). lia. Qed.

Lemma entered_force_is_shown_witness :
  show object (canonical object (f64_of_Z (Z.of_nat 7)) "m/s") "m/s" = (f64_of_Z 7, "Bft").
Proof. apply (entered_force_is_shown 7). lia. Defined.

(** For an app that declares kilometres per hour it is not: the lowest speed of a force is
    rounded to one decimal, which can fall below the threshold, and a force of 3 that the
    user enters is shown as 2 (likewise 7, 8, 11 and 12). *)
Theorem entered_force_drops_in_kmh :
  map (fun n => (show object (canonical object (f64_of_Z n) "km/h") "km/h").1) [3; 7; 8; 11; 12]
  = map f64_of_Z [2; 6; 7; 10; 11].
Proof. vm_compute. reflexivity. Qed.

(** ** Choosing units *)

(** Every choice in the settings is one that is offered. *)
Definition offered (settings : Value) : Prop :=
  forall q u, get settings q = Some (VString u) -> valid q u = true.

Lemma update_fields_offered o settings r settings' :
  offered settings -> update_fields o settings = (r, settings') -> offered settings'.
Proof.
  revert settings. induction o as [|[q v] o IH]; intros settings Hs H; cbn in H; [by injection H as <- <-|].
  destruct (as_str v) as [unit|]; [|by injection H as <- <-].
  destruct (valid q unit) eqn:Ev; cbn in H; [|by injection H as <- <-].
  destruct (set settings q (VString unit)) as [s1|] eqn:Es; [|by injection H as <- <-].
  eapply IH; [|exact H]. intros k u Hk. destruct (decide (q = k)) as [<-|Hne].
  - rewrite (get_set_eq _ _ _ _ Es) in Hk. by injection Hk as <-.
  - rewrite (get_set_ne _ _ _ _ _ Es Hne) in Hk. by apply Hs.
Qed.

Lemma update_fields_ne o settings settings' k :
  update_fields o settings = (Ok tt, settings') -> k ∉ obj_keys o -> get settings' k = get settings k.
Proof.
  revert settings. induction o as [|[q v] o IH]; intros settings H Hk; cbn in H, Hk; [by injection H as <-|].
  apply not_elem_of_cons in Hk as [Hq Hk]. destruct (as_str v) as [unit|]; [|done].
  destruct (valid q unit); cbn in H; [|done]. destruct (set settings q _) as [s1|] eqn:Es; [|done].
  rewrite (IH _ H Hk). eapply get_set_ne; [exact Es|congruence].
Qed.

Lemma update_fields_get o settings settings' k v :
  update_fields o settings = (Ok tt, settings') -> NoDup (obj_keys o) -> (k, v) ∈ o -> get settings' k = Some v.
Proof.
  revert settings. induction o as [|[q w] o IH]; intros settings H Hn Hi; [by apply not_elem_of_nil in Hi|].
  cbn in H, Hn. apply NoDup_cons in Hn as [Hq Hn]. destruct (as_str w) as [unit|] eqn:Ew; [|done].
  destruct (valid q unit); cbn in H; [|done]. destruct (set settings q _) as [s1|] eqn:Es; [|done].
  apply elem_of_cons in Hi as [[= -> ->]|Hi]; [|by eapply IH].
  rewrite (update_fields_ne _ _ _ _ H Hq), (get_set_eq _ _ _ _ Es). destruct w; try done. by injection Ew as ->.
Qed.

(** A patch of the units never stores a unit that is not offered for its quantity, whatever
    its outcome; one that is accepted sets every quantity it names and leaves the others
    as they were. *)
Theorem update_stores_offered_units settings patch o r settings' :
  offered settings -> as_object patch = Some o -> NoDup (obj_keys o) -> update settings patch = (r, settings') ->
  offered settings' /\
  (r = Ok tt -> forall k, get settings' k = match obj_get o k with Some v => Some v | None => get settings k end).
Proof.
  intros Hs Ho Hn H. unfold update in H. rewrite Ho in H. split; [by eapply update_fields_offered|].
  intros -> k. destruct (obj_get o k) as [v|] eqn:Eg.
  - eapply update_fields_get; [exact H|done|by apply obj_get_Some_In].
  - apply (update_fields_ne _ _ _ _ H). by apply obj_get_None.
Qed.

Lemma offered_one q u : valid q u = true -> offered (VObject [(q, VString u)]).
Proof.
  intros Hv k w. unfold get. cbn. destruct (String.eqb_spec q k) as [<-|]; [|done]. by intros [= <-].
Qed.

Lemma update_stores_offered_units_witness :
  let settings := fields [("wind", VString "kn")] in
  let patch := fields [("temperature", VString "°F")] in
  exists settings', update settings patch = (Ok tt, settings') /\ offered settings' /\
    get settings' "wind" = Some (VString "kn").
Proof.
  cbv zeta. eexists. split; [vm_compute; reflexivity|].
  destruct (update_stores_offered_units (fields [("wind", VString "kn")]) (fields [("temperature", VString "°F")])
    [("temperature", VString "°F")] (Ok tt) (fields [("wind", VString "kn"); ("temperature", VString "°F")])) as [H1 H2].
  - by apply offered_one.
  - reflexivity.
  - repeat constructor; vm_compute; set_solver.
  - reflexivity.
  - split; [exact H1|]. rewrite (H2 eq_refl). reflexivity.
Defined.
