(* ===== verification/Scenes.v ===== *)
(** * Scenes: the rules for scenes and their devices ([crates/core/src/store/scenes.rs])

    A scene is a record of wanted states; every scene appears as a device ["scene:" ++ id] of
    the built-in app.  The functions here work on a document; the operations of the store that
    use them are in [Store]. *)

From Stdlib Require Import ZArith Lia Ascii String.
From S2P Require Import Prelude Text Errors Float Value Document.

Local Open Scope Z_scope.

Definition APP_ID : string := "com.stulp.scene".

Definition same_target (a b : Value) : bool :=
  (text a "deviceId" =? text b "deviceId")%string && (text a "capabilityId" =? text b "capabilityId")%string.

(** The loop of [validate_states]; [before] is [states.iter().take(index)]. *)
Fixpoint validate_each (before states : list Value) : Result unit :=
  match states with
  | [] => Ok tt
  | st :: states =>
      if is_empty (trim (text st "deviceId")) || is_empty (trim (text st "capabilityId"))
      then Err (Invalid "scene state requires deviceId and capabilityId")
      else if existsb (fun s => same_target s st) before
      then Err (Conflict "scene has duplicate state")
      else validate_each (before ++ [st]) states
  end.

Definition validate_states (states : list Value) : Result unit :=
  if (256 <? length states)%nat then Err Full else validate_each [] states.

Definition validate (scene : Value) (previous : option Value) : Result Value :=
  if match previous with Some s => boolean s "active" | None => false end
  then Err (Conflict "active scene cannot be edited or deleted") else
  let name := trim (text scene "name") in
  if is_empty name || (160 <? len name) then Err (Invalid "scene name must contain 1 to 160 bytes") else
  scene ← set scene "name" (VString name);
  scene ← (if is_empty (text scene "kind") then set scene "kind" (VString "switch") else Ok scene);
  if negb ((text scene "kind" =? "switch")%string || (text scene "kind" =? "button")%string)
  then Err (Invalid "scene kind must be switch or button") else
  let states := array scene "states" in
  if bool_decide (states = []) then Err (Invalid "scene needs at least one state") else
  _ ← validate_states states;
  scene ← set scene "active" (VBool false);
  set scene "previous" (VArray []).

Definition device_id (id : string) : string := ("scene:" ++ id)%string.

(** The device a scene appears as, from the device it had before. *)
Definition scene_device (scene device : Value) : Result Value :=
  let id := device_id (text scene "id") in
  let cap := if (text scene "kind" =? "button")%string then "button" else "onoff" in
  set_all device
    [("id", VString id); ("appId", VString APP_ID); ("driverId", VString "scene");
     ("class", VString "scene"); ("name", VString (text scene "name"));
     ("capabilities", VArray [VString cap]);
     ("data", fields [("sceneId", VString (text scene "id"))])].

Definition scene_device_of (d : Document) (scene : Value) : Result Value :=
  device ← match record d "devices" (device_id (text scene "id")) with
           | Ok dev => if (text dev "appId" =? APP_ID)%string then Ok dev
                       else Err (Conflict "scene id collides with a physical device")
           | Err _ => Ok object
           end;
  scene_device scene device.

Definition is_scene_device (dev : Value) : bool := (text dev "appId" =? APP_ID)%string.

(** The devices of other apps stay; every scene has one device, in the order of the scenes. *)
Definition reconcile (d : Document) : Result Document :=
  kept ← push_all Ok MAX_RECORDS
           (List.filter (fun dev => negb (is_scene_device dev)) (records d "devices")) [];
  all ← push_all (scene_device_of d) MAX_RECORDS (records d "scenes") kept;
  replace d "devices" all.

(** Whether a value names this device anywhere. *)
Fixpoint references (v : Value) (id : string) : bool :=
  match v with
  | VObject o => (text v "$device" =? id)%string
                 || existsb (fun kv => match kv with (_, w) => references w id end) o
  | VArray a => existsb (fun w => references w id) a
  | _ => false
  end.

Definition can_delete (d : Document) (scene : Value) : Result unit :=
  if boolean scene "active" then Err (Conflict "active scene cannot be edited or deleted") else
  let id := device_id (text scene "id") in
  if existsb (fun f => references f id) (records d "flows")
  then Err (Conflict "scene is used by a flow") else Ok tt.

Fixpoint validate_references (d : Document) (v : Value) : Result unit :=
  match v with
  | VObject o =>
      let id := text v "$device" in
      if starts_with "scene:" id && negb (is_ok (record d "devices" id))
      then Err (Missing "scene device does not exist")
      else (fix go (l : Object) : Result unit :=
              match l with
              | [] => Ok tt
              | (_, w) :: l => _ ← validate_references d w; go l
              end) o
  | VArray a =>
      (fix go (l : list Value) : Result unit :=
         match l with
         | [] => Ok tt
         | w :: l => _ ← validate_references d w; go l
         end) a
  | _ => Ok tt
  end.

(** [0.01 + 0.01 * a.abs().max(b.abs())] *)
Definition tolerance (a b : f64) : f64 :=
  let cent := f64_of_decimal false 1 (-2) in
  f64_add cent (f64_mul cent (f_max (f_abs a) (f_abs b))).

(** Rounding in a report does not end a scene; a real deviation does. *)
Definition same (a b : Value) : bool :=
  match a, b with
  | VNumber x, VNumber y =>
      let x := as_f64 x in let y := as_f64 y in
      is_finite x && is_finite y && f_leb (f_abs (f64_sub x y)) (tolerance x y)
  | VNumber _, _ | _, VNumber _ => false
  | _, _ => equal a b
  end.

(** Whether the scene still holds a baseline for this device and capability. *)
Definition holds (scene : Value) (id cap : string) : bool :=
  existsb (fun p => (text p "deviceId" =? id)%string && (text p "capabilityId" =? cap)%string)
    (array scene "previous").

(** One wanted state: the report moved away from it. *)
Definition tripped (scene : Value) (id : string) (old new desired : Value) : bool :=
  let cap := text desired "capabilityId" in
  let target := get_null desired "value" in
  let current := get_null new cap in
  holds scene id cap && negb (is_null current) && same (get_null old cap) target
    && negb (same current target).

Definition trip (scene : Value) (id : string) (desired : Value) : Value :=
  fields [("sceneId", VString (text scene "id")); ("deviceId", VString id);
          ("capabilityId", VString (text desired "capabilityId"))].

Definition scene_trips (id : string) (old new scene : Value) : list Value :=
  map (trip scene id)
    (List.filter (tripped scene id old new)
       (List.filter (fun s => (text s "deviceId" =? id)%string) (array scene "states"))).

Definition trips (d : Document) (id : string) (old new : Value) : Result (list Value) :=
  push_all Ok 256
    (flat_map (scene_trips id old new)
       (List.filter (fun s => boolean s "active" && negb (text s "kind" =? "button")%string)
          (records d "scenes"))) [].
