(* ===== verification/Groups.v ===== *)
(** * Groups: the tree of device groups ([crates/core/src/store/groups.rs]) *)

From Stdlib Require Import ZArith Lia Ascii String.
From S2P Require Import Prelude Text Errors Float Value Document.

Local Open Scope Z_scope.

(** [max().unwrap_or(0)] of the sort orders below the same parent *)
Definition highest (d : Document) (parent : string) : Z :=
  fold_right Z.max 0
    (map (fun g => uint g "sortOrder")
       (List.filter (fun g => (text g "parentId" =? parent)%string) (records d "deviceGroups"))).

(** The end of [validate], once the root is reached. *)
Definition settle (d : Document) (name : string) (group : Value) : Result Value :=
  group ← set group "name" (VString name);
  if uint group "sortOrder" =? 0 then
    next ← ok_or (checked_add (highest d (text group "parentId")) 1) Full;
    set group "sortOrder" (value_uint next)
  else Ok group.

(** [for _ in 0..=len]: climbs from [parent] to the root. *)
Fixpoint climb (rounds : nat) (d : Document) (id parent name : string) (group : Value) : Result Value :=
  match rounds with
  | O => Err (Invalid "group parent would create a cycle")
  | S rounds =>
      if is_empty parent then settle d name group
      else if (parent =? id)%string then Err (Invalid "group parent would create a cycle")
      else
        p ← record d "deviceGroups" parent;
        climb rounds d id (text p "parentId") name group
  end.

Definition validate (d : Document) (group : Value) : Result Value :=
  let name := trim (text group "name") in
  let parent := trim (text group "parentId") in
  group ← set group "parentId" (VString parent);
  let id := text group "id" in
  if is_empty name || (80 <? len name) then Err (Invalid "group name must contain 1 to 80 bytes") else
  if match get group "sortOrder" with
     | Some v => negb (bool_decide (is_Some (as_u64 v)))
     | None => false
     end
  then Err (Invalid "invalid group sortOrder") else
  if existsb (fun g => negb (text g "id" =? id)%string && eq_ignore_ascii_case (text g "name") name)
       (records d "deviceGroups")
  then Err (Conflict "a group with that name already exists") else
  climb (S (length (records d "deviceGroups"))) d id (trim (text group "parentId")) name group.

(** Moves a record that points at [id] with [key] to [parent]. *)
Definition lift_record (key id parent : string) (r : Value) : Result Value :=
  if (text r key =? id)%string then set r key (VString parent) else Ok r.

Definition lift (d : Document) (collection key id parent : string) : Result Document :=
  rs ← push_all (lift_record key id parent) MAX_RECORDS (records d collection) [];
  replace d collection rs.

Definition lift_children (d : Document) (id : string) : Result Document :=
  g ← record d "deviceGroups" id;
  let parent := text g "parentId" in
  d ← lift d "deviceGroups" "parentId" id parent;
  lift d "devices" "groupId" id parent.
