(* ===== verification/Triggers.v ===== *)
(** * Triggers: the Flow events that a changed device state gives
    ([crates/core/src/store/triggers.rs], [changes]) *)

From Stdlib Require Import ZArith Lia Ascii String.
From S2P Require Import Prelude Text Errors Float Value.

Local Open Scope Z_scope.

Definition MAX_TRIGGERS : Z := 256.

Definition numeric (v : Value) : option f64 :=
  match v with VNumber n => Some (as_f64 n) | _ => None end.

(** The cards that a change of [cap] from [before] to [value] triggers. *)
Definition cards (cap : string) (value before : Value) : list string :=
  let card := ("capability." ++ cap ++ ".")%string in
  "device_capability_changed" ::
  match as_bool value with
  | Some on =>
      if is_null before || bool_decide (is_Some (as_bool before))
      then [(card ++ (if on then "on" else "off"))%string]
      else [(card ++ "changed")%string]
  | None =>
      (card ++ "changed")%string ::
      match as_str value with
      | Some _ => [(card ++ "became")%string]
      | None =>
          match numeric value, numeric before with
          | Some a, Some b =>
              if f_ltb b a then [(card ++ "rose_above")%string]
              else if f_ltb a b then [(card ++ "fell_below")%string]
              else []
          | _, _ => []
          end
      end
  end.

Definition change_state (device : Value) (cap : string) (value before : Value) : Object :=
  [("deviceId", VString (text device "id")); ("capability", VString cap);
   ("value", value); ("oldValue", before)].

Definition trigger_event (device : Value) (cap : string) (value before : Value) (card : string) : Value :=
  let state := change_state device cap value before in
  fields [("appId", VString "stulp"); ("id", VString card); ("kind", VString "trigger");
          ("tokens", fields (state ++ [("device", VString (text device "name"))]));
          ("state", fields state)].

(** The events of one field of the new state. *)
Definition field_events (device old : Value) (kv : string * Value) : list Value :=
  let '(cap, value) := kv in
  let before := get_null old cap in
  if equal value before then []
  else map (trigger_event device cap value before) (cards cap value before).

Definition changes (device old new : Value) : Result (list Value) :=
  match as_object new with
  | Some values => push_all Ok MAX_TRIGGERS (flat_map (field_events device old) values) []
  | None => Ok []
  end.

(** ** Properties *)

(** The general event of one capability. *)
Definition general (cap : string) (e : Value) : bool :=
  (text e "id" =? "device_capability_changed")%string && (text (get_null e "state") "capability" =? cap)%string.

Lemma general_event device cap c v before card :
  general cap (trigger_event device c v before card) = ((card =? "device_capability_changed") && (c =? cap))%string.
Proof. done. Qed.

Lemma cards_tail cap v before :
  exists rest, cards cap v before = "device_capability_changed" :: rest /\
    Forall (fun c => (c =? "device_capability_changed")%string = false) rest.
Proof. unfold cards. eexists. split; [reflexivity|]. repeat case_match; by repeat constructor. Qed.

Lemma field_events_general device old c v cap :
  List.filter (general cap) (field_events device old (c, v)) =
  if (c =? cap)%string && negb (equal v (get_null old c))
  then [trigger_event device c v (get_null old c) "device_capability_changed"] else [].
Proof.
  unfold field_events. destruct (equal v _); [by rewrite andb_false_r|]. rewrite andb_true_r.
  destruct (cards_tail c v (get_null old c)) as (rest & -> & Hrest). cbn [map List.filter].
  rewrite general_event, String.eqb_refl, andb_true_l.
  assert (List.filter (general cap) (map (trigger_event device c v (get_null old c)) rest) = []) as ->.
  { induction Hrest as [|x rest Hx _ IH]; [done|]. cbn [map List.filter]. by rewrite general_event, Hx. }
  by destruct (c =? cap)%string.
Qed.

(** A new state queues exactly one general trigger for every capability whose value differs
    from the one before, with both values, and none for a capability that stayed the same or
    is not reported. *)
Theorem each_difference_triggers_once device old new o evs cap :
  as_object new = Some o -> NoDup (obj_keys o) -> changes device old new = Ok evs ->
  List.filter (general cap) evs =
    match get new cap with
    | Some v => if equal v (get_null old cap) then []
                else [trigger_event device cap v (get_null old cap) "device_capability_changed"]
    | None => []
    end.
Proof.
  intros Ho Hn H. unfold changes in H. rewrite Ho in H. apply push_all_id in H as ->. cbn [app].
  unfold get. rewrite Ho. cbn [option_bind mbind]. clear Ho.
  induction o as [|[c v] o IH]; [done|]. cbn in Hn. apply NoDup_cons in Hn as [Hc Hn].
  cbn [flat_map obj_get]. rewrite List.filter_app, field_events_general, IH by done.
  destruct (String.eqb_spec c cap) as [->|]; [|done].
  assert (obj_get o cap = None) as -> by (by apply obj_get_None). rewrite app_nil_r. by destruct (equal v _).
Qed.

Lemma each_difference_triggers_once_witness :
  exists evs, changes (fields [("id", VString "d")]) (fields [("onoff", VBool true)])
      (fields [("onoff", VBool false); ("dim", value_uint 1)]) = Ok evs /\
    length (List.filter (general "onoff") evs) = 1%nat.
Proof.
  eexists. split; [vm_compute; reflexivity|].
  rewrite (each_difference_triggers_once (fields [("id", VString "d")]) (fields [("onoff", VBool true)])
    (fields [("onoff", VBool false); ("dim", value_uint 1)]) [("onoff", VBool false); ("dim", value_uint 1)] _ "onoff").
  - vm_compute. reflexivity.
  - reflexivity.
  - repeat constructor; vm_compute; set_solver.
  - vm_compute. reflexivity.
Defined.
