(* ===== verification/Manifest.v ===== *)
(** * Manifest: the contract of [app.json] ([crates/core/src/manifest.rs]) *)

From Stdlib Require Import ZArith Lia Ascii String.
From S2P Require Import Prelude Text Errors Float Value.

Local Open Scope Z_scope.

(** The loop over the drivers; [before] is [drivers.iter().take(i)]. *)
Fixpoint validate_drivers (before drivers : list Value) : Result unit :=
  match drivers with
  | [] => Ok tt
  | driver :: drivers =>
      let id := text driver "id" in
      if is_empty id then Err (Invalid "app.json: every driver needs an id")
      else if existsb (fun d => (text d "id" =? id)%string) before
      then Err (Conflict "app.json: duplicate driver id")
      else validate_drivers (before ++ [driver]) drivers
  end.

Definition validate (v : Value) : Result unit :=
  if is_empty (text v "id") then Err (Invalid "app.json: id is required")
  else if is_empty (text v "version") then Err (Invalid "app.json: version is required")
  else if negb (uint v "sdk" =? 3) then Err (Invalid "app.json: only manifest version 3 is supported")
  else validate_drivers [] (array v "drivers").

(** [find_map(|(_, v)| v.as_str())] *)
Fixpoint first_str (o : Object) : option string :=
  match o with
  | [] => None
  | (_, v) :: o => match as_str v with Some s => Some s | None => first_str o end
  end.

(** The language, then English, then the first translation there is. *)
Definition localized (v : Value) (language : string) : string :=
  match as_str v with
  | Some s => s
  | None =>
      let s := text v language in
      if negb (is_empty s) then s else
      let e := text v "en" in
      if negb (is_empty e) then e else
      default "" (as_object v ≫= first_str)
  end.
