(* ===== verification/Store.v ===== *)
(** * Store: the one owner of the configuration ([crates/core/src/store.rs])

    [Store] is the whole state of the owner; an operation is a function of the monad [M]: the
    state before to a result and the state after.  Every durable change is prepared on a
    candidate document and becomes visible only after [Storage::save] succeeded ([commit]). *)

From Stdlib Require Import ZArith Lia Ascii String.
From S2P Require Import Prelude Text Errors Slots Float Value Json Time Document Stats.
From S2P Require Flow Scenes Groups Triggers Manifest.

Local Open Scope Z_scope.

Definition EVENT_CAPACITY : nat := 64.

Record Event := mk_event { ev_sequence : Z; ev_manager : string; ev_kind : string; ev_id : string }.

Record Observation := mk_obs {
  ob_id : string; ob_state : Value; ob_revisions : Value; ob_available : bool; ob_message : string
}.

Record AppInfo := mk_app { app_id : string; app_manifest : Value; app_status_ : string; app_details : Value }.

Record SharedImage := mk_image { im_id : string; im_device : string; im_slot : string; im_expires : Z }.

Record Store (S : Type) := mk_store {
  document : Document;
  language : string;
  timezone : string;
  clock_ms : Z;
  statistics : Statistics;
  statistics_fault : option Error;
  statistics_reported : bool;
  storage : S;
  live : list Observation;
  events : list Event;
  sequence : Z;
  apps : list AppInfo;
  caches : list (string * Value);
  triggers : list Value;
  scene_trips : list Value;
  media : list (string * Value);
  images : list SharedImage
}.
Arguments mk_store {S}.
Arguments document {S} _. Arguments language {S} _. Arguments timezone {S} _.
Arguments clock_ms {S} _. Arguments statistics {S} _. Arguments statistics_fault {S} _.
Arguments statistics_reported {S} _. Arguments storage {S} _. Arguments live {S} _.
Arguments events {S} _. Arguments sequence {S} _. Arguments apps {S} _. Arguments caches {S} _.
Arguments triggers {S} _. Arguments scene_trips {S} _. Arguments media {S} _. Arguments images {S} _.

Section Ops.
Context {St : Type} {HS : Storage St}.

(** ** Field updates *)

Definition with_document (s : Store St) x := mk_store x (language s) (timezone s) (clock_ms s) (statistics s) (statistics_fault s) (statistics_reported s) (storage s) (live s) (events s) (sequence s) (apps s) (caches s) (triggers s) (scene_trips s) (media s) (images s).
Definition with_storage (s : Store St) (x : St) := mk_store (document s) (language s) (timezone s) (clock_ms s) (statistics s) (statistics_fault s) (statistics_reported s) x (live s) (events s) (sequence s) (apps s) (caches s) (triggers s) (scene_trips s) (media s) (images s).
Definition with_locale (s : Store St) l t := mk_store (document s) l t (clock_ms s) (statistics s) (statistics_fault s) (statistics_reported s) (storage s) (live s) (events s) (sequence s) (apps s) (caches s) (triggers s) (scene_trips s) (media s) (images s).
Definition with_clock (s : Store St) x := mk_store (document s) (language s) (timezone s) x (statistics s) (statistics_fault s) (statistics_reported s) (storage s) (live s) (events s) (sequence s) (apps s) (caches s) (triggers s) (scene_trips s) (media s) (images s).
Definition with_stats (s : Store St) x f r := mk_store (document s) (language s) (timezone s) (clock_ms s) x f r (storage s) (live s) (events s) (sequence s) (apps s) (caches s) (triggers s) (scene_trips s) (media s) (images s).
Definition with_live (s : Store St) x := mk_store (document s) (language s) (timezone s) (clock_ms s) (statistics s) (statistics_fault s) (statistics_reported s) (storage s) x (events s) (sequence s) (apps s) (caches s) (triggers s) (scene_trips s) (media s) (images s).
Definition with_events (s : Store St) x n := mk_store (document s) (language s) (timezone s) (clock_ms s) (statistics s) (statistics_fault s) (statistics_reported s) (storage s) (live s) x n (apps s) (caches s) (triggers s) (scene_trips s) (media s) (images s).
Definition with_apps (s : Store St) x := mk_store (document s) (language s) (timezone s) (clock_ms s) (statistics s) (statistics_fault s) (statistics_reported s) (storage s) (live s) (events s) (sequence s) x (caches s) (triggers s) (scene_trips s) (media s) (images s).
Definition with_caches (s : Store St) x := mk_store (document s) (language s) (timezone s) (clock_ms s) (statistics s) (statistics_fault s) (statistics_reported s) (storage s) (live s) (events s) (sequence s) (apps s) x (triggers s) (scene_trips s) (media s) (images s).
Definition with_triggers (s : Store St) x := mk_store (document s) (language s) (timezone s) (clock_ms s) (statistics s) (statistics_fault s) (statistics_reported s) (storage s) (live s) (events s) (sequence s) (apps s) (caches s) x (scene_trips s) (media s) (images s).
Definition with_trips (s : Store St) x := mk_store (document s) (language s) (timezone s) (clock_ms s) (statistics s) (statistics_fault s) (statistics_reported s) (storage s) (live s) (events s) (sequence s) (apps s) (caches s) (triggers s) x (media s) (images s).
Definition with_media (s : Store St) x := mk_store (document s) (language s) (timezone s) (clock_ms s) (statistics s) (statistics_fault s) (statistics_reported s) (storage s) (live s) (events s) (sequence s) (apps s) (caches s) (triggers s) (scene_trips s) x (images s).
Definition with_images (s : Store St) x := mk_store (document s) (language s) (timezone s) (clock_ms s) (statistics s) (statistics_fault s) (statistics_reported s) (storage s) (live s) (events s) (sequence s) (apps s) (caches s) (triggers s) (scene_trips s) (media s) x.

(** ** The monad of operations: [&mut self] and [?] *)

Definition M (A : Type) : Type := Store St -> Result A * Store St.

Definition retM {A} (a : A) : M A := fun s => (Ok a, s).
Definition liftR {A} (r : Result A) : M A := fun s => (r, s).
Definition bindM {A B} (m : M A) (k : A -> M B) : M B := fun s =>
  match m s with (Ok a, s') => k a s' | (Err e, s') => (Err e, s') end.
Definition getM : M (Store St) := fun s => (Ok s, s).
Definition modifyM (f : Store St -> Store St) : M unit := fun s => (Ok tt, f s).
End Ops.

Notation "'let*' x ':=' m 'in' k" := (bindM m (fun x => k))
  (at level 10, x pattern, k at level 200, right associativity).

Section Ops2.
Context {St : Type} {HS : Storage St}.

(** ** Events and commits *)

Definition event (s : Store St) (manager kind id : string) : Result Event :=
  n ← ok_or (checked_add (sequence s) 1) Full;
  Ok (mk_event n manager kind id).

Definition publish (e : Event) (s : Store St) : Store St :=
  let evs := if (length (events s) =? EVENT_CAPACITY)%nat then tail (events s) else events s in
  with_events s (evs ++ [e]) (ev_sequence e).

(** [candidate.encode()] and [storage.save]; only then the candidate is the document. *)
Definition save (candidate : Document) : M (St := St) unit := fun s =>
  match encode candidate with
  | Err e => (Err e, s)
  | Ok bytes =>
      let '(r, st) := storage_save bytes (storage s) in
      match r with
      | Err e => (Err e, with_storage s st)
      | Ok _ => (Ok tt, with_document (with_storage s st) candidate)
      end
  end.

Definition commit (candidate : Document) (e : Event) : M (St := St) unit :=
  let* _ := save candidate in modifyM (publish e).

(** ** Opening *)

Definition open (bytes : list Z) (st : St) : Result (Store St) :=
  d ← decode bytes;
  d ← Scenes.reconcile d;
  Ok (mk_store d "nl" "UTC" 0 stats_new None false st [] [] 0 [] [] [] [] [] []).

Definition statistics_enabled (s : Store St) : bool :=
  match get (root (document s)) "system" with Some v => boolean v "statistics" | None => false end.

Definition store_tick (unix_ms : Z) (s : Store St) : Store St :=
  let s := with_clock s unix_ms in
  if statistics_enabled s
  then with_stats s (Stats.tick (statistics s) unix_ms) (statistics_fault s) (statistics_reported s)
  else s.

(** [statistics_fault.take()] *)
Definition take_statistics_fault (s : Store St) : option Error * Store St :=
  (statistics_fault s, with_stats s (statistics s) None (statistics_reported s)).

(** A degradation is reported once. *)
Definition collect (id name : string) (state : Value) (s : Store St) : Store St :=
  if statistics_enabled s then
    let '(r, st) := Stats.observe (statistics s) id name state (clock_ms s) in
    match r with
    | Err e => if statistics_reported s then with_stats s st (statistics_fault s) true
               else with_stats s st (Some e) true
    | Ok _ => with_stats s st (statistics_fault s) (statistics_reported s)
    end
  else s.

Definition configure (lang tz : string) : M (St := St) unit := modifyM (fun s => with_locale s lang tz).

(** ** Apps *)

(** [iter_mut().find(p)] followed by a change of the record found *)
Fixpoint update_first {A} (p : A -> bool) (f : A -> A) (l : list A) : list A :=
  match l with
  | [] => []
  | x :: l => if p x then f x :: l else x :: update_first p f l
  end.

Definition is_app (id : string) (a : AppInfo) : bool := (app_id a =? id)%string.
Definition find_app (id : string) (s : Store St) : option AppInfo := find (is_app id) (apps s).

Definition announce (id : string) (manifest : Value) : M (St := St) unit :=
  let* s := getM in
  let* _ := liftR (Manifest.validate manifest) in
  if negb (text manifest "id" =? id)%string then liftR (Err (Invalid "manifest belongs to another app")) else
  let* e := liftR (event s "apps" "app.update" id) in
  let* all := liftR (match find_app id s with
    | Some _ => Ok (update_first (is_app id) (fun a => mk_app (app_id a) manifest "starting" (app_details a)) (apps s))
    | None => push (apps s) (mk_app id manifest "starting" object) MAX_RECORDS
    end) in
  modifyM (fun s => publish e (with_apps s all)).

Definition manifest_of (id : string) (s : Store St) : option Value :=
  a ← find_app id s; if is_null (app_manifest a) then None else Some (app_manifest a).

Definition app_status (id : string) (s : Store St) : string :=
  match find_app id s with Some a => app_status_ a | None => "stopped" end.

(** [media.retain(..)] of the media declared by the devices of other apps *)
Definition clear_app_media (app : string) (s : Store St) : Store St :=
  with_media s (List.filter (fun kv => match record (document s) "devices" kv.1 with
                                       | Ok d => negb (text d "appId" =? app)%string
                                       | Err _ => false end) (media s)).

Definition set_app_status (id state : string) : M (St := St) unit :=
  let* s := getM in
  if (app_status id s =? state)%string then retM tt else
  let* e := liftR (event s "apps" "app.update" id) in
  let* all := liftR (match find_app id s with
    | Some _ => Ok (update_first (is_app id) (fun a => mk_app (app_id a) (app_manifest a) state
                  (if (state =? "running")%string || (state =? "stopped")%string then object else app_details a)) (apps s))
    | None => _ ← record (document s) "apps" id;
              push (apps s) (mk_app id VNull state object) MAX_RECORDS
    end) in
  modifyM (fun s =>
    let s := with_apps s all in
    let s := if negb (state =? "running")%string then clear_app_media id s else s in
    publish e s).

Definition app_runtime (id : string) (s : Store St) : option Value := app_details <$> find_app id s.

Definition set_app_runtime (id : string) (details : Value) : M (St := St) unit :=
  let* s := getM in
  if match app_runtime id s with Some v => equal v details | None => false end then retM tt else
  let* e := liftR (event s "apps" "app.update" id) in
  let* _ := liftR (ok_or (find_app id s) (Missing "app runtime missing")) in
  modifyM (fun s => publish e (with_apps s
    (update_first (is_app id) (fun a => mk_app (app_id a) (app_manifest a) (app_status_ a) details) (apps s)))).

(** Loss is explicit: a subscriber that fell behind has to fetch a snapshot. *)
Definition events_after (cursor : Z) (s : Store St) : Result (list Event) :=
  if (sequence s <? cursor)
     || match events s with e :: _ => cursor <? saturating_sub (ev_sequence e) 1 | [] => false end
  then Err Changed
  else Ok (List.filter (fun e => cursor <? ev_sequence e) (events s)).

(** ** Restoring an archive *)

Definition restore (bytes : list Z) : M (St := St) unit :=
  let* s := getM in
  let* c := liftR (d ← decode bytes; Scenes.reconcile d) in
  let* e := liftR (event s "store" "store.reload" "") in
  let* _ := save c in
  modifyM (fun s =>
    publish e (mk_store (document s) (language s) (timezone s) (clock_ms s) stats_new None false
      (storage s) [] [] (sequence s) [] [] [] [] [] [])).
End Ops2.

(** ** Records of a collection *)

Definition collection_events (collection : string) : Result (string * string * string * string) :=
  if (collection =? "apps")%string then Ok ("apps", "app.create", "app.update", "app.delete")
  else if (collection =? "devices")%string then Ok ("devices", "device.create", "device.update", "device.delete")
  else if (collection =? "deviceGroups")%string then Ok ("devices", "group.create", "group.update", "group.delete")
  else if (collection =? "flows")%string then Ok ("flow", "flow.create", "flow.update", "flow.delete")
  else if (collection =? "scenes")%string then Ok ("scene", "scene.create", "scene.update", "scene.delete")
  else if (collection =? "notifications")%string
  then Ok ("notifications", "notification.create", "notification.update", "notification.delete")
  else Err (Invalid "unknown collection").

(** [a <= b] of Rust's [str] order: bytewise *)
Definition str_leb (a b : string) : bool :=
  match String.compare a b with Gt => false | _ => true end.

(** [sort_unstable_by(|a, b| text(b, "createdAt").cmp(text(a, "createdAt")))]: newest first *)
Fixpoint insert_newest (r : Value) (l : list Value) : list Value :=
  match l with
  | [] => [r]
  | t :: l' => if str_leb (text t "createdAt") (text r "createdAt") then r :: l else t :: insert_newest r l'
  end.

Definition sort_newest (l : list Value) : list Value := fold_right insert_newest [] l.

Definition id_is (id : string) (r : Value) : bool := (text r "id" =? id)%string.

(** The other records of the collection, in order. *)
Definition others (d : Document) (collection id : string) : Result (list Value) :=
  push_all Ok MAX_RECORDS (List.filter (fun r => negb (id_is id r)) (records d collection)) [].

Definition replace_record (d : Document) (collection : string) (r : Value) : Result Document :=
  rs ← others d collection (text r "id");
  rs ← push rs r MAX_RECORDS;
  let rs := if (collection =? "notifications")%string then take MAX_NOTIFICATIONS (sort_newest rs) else rs in
  replace d collection rs.

Definition remove_record (d : Document) (collection id : string) : Result Document :=
  rs ← others d collection id;
  replace d collection rs.

(** Whether a value belongs to the app, or names one of its devices. *)
Fixpoint references_app (d : Document) (v : Value) (app : string) : bool :=
  match v with
  | VObject o =>
      (text v "appId" =? app)%string
      || match obj_get o "$device" ≫= as_str with
         | Some id => match record d "devices" id with
                      | Ok dev => (text dev "appId" =? app)%string
                      | Err _ => false
                      end
         | None => false
         end
      || existsb (fun kv => match kv with (_, w) => references_app d w app end) o
  | VArray a => existsb (fun w => references_app d w app) a
  | _ => false
  end.

Definition disable_flow (d : Document) (app : string) (flow : Value) : Result Value :=
  if references_app d flow app then
    flow ← set flow "enabled" (VBool false);
    flow ← set flow "lastError" (VString "app was uninstalled");
    revision ← ok_or (checked_add (uint flow "revision") 1) Full;
    set flow "revision" (value_uint revision)
  else Ok flow.

Definition forget_app (d : Document) (key app : string) : Result Document :=
  v ← ok_or (get (root d) key) (Missing "app configuration");
  v ← remove v app;
  doc_set d key v.

Definition uninstall (d : Document) (app : string) : Result Document :=
  flows ← push_all (disable_flow d app) MAX_RECORDS (records d "flows") [];
  d1 ← replace d "flows" flows;
  devices ← push_all Ok MAX_RECORDS
              (List.filter (fun dev => negb (text dev "appId" =? app)%string) (records d1 "devices")) [];
  d2 ← replace d1 "devices" devices;
  d3 ← forget_app d2 "appSettings" app;
  forget_app d3 "appState" app.

Section Ops3.
Context {St : Type} {HS : Storage St}.

(** ** Creating and replacing *)

Definition prepare_cache (s : Store St) (id : string) (r : Value) : Result (option (string * Value)) :=
  match get r "store" ≫= as_object with
  | None => Ok None
  | Some store =>
      let cache := List.filter (fun kv => is_volatile kv.1) store in
      if bool_decide (cache = []) then Ok None
      else if negb (existsb (fun kv => (kv.1 =? id)%string) (caches s))
              && (Z.of_nat (length (caches s)) =? MAX_RECORDS)
      then Err Full
      else Ok (Some (id, VObject cache))
  end.

Definition put_cache (cache : option (string * Value)) (s : Store St) : Store St :=
  match cache with
  | None => s
  | Some (id, v) =>
      if existsb (fun kv => (kv.1 =? id)%string) (caches s)
      then with_caches s (update_first (fun kv => (kv.1 =? id)%string) (fun kv => (kv.1, v)) (caches s))
      else with_caches s (caches s ++ [(id, v)])
  end.

Definition same_field (a b : Value) (key : string) : bool := equal (get_null a key) (get_null b key).

(** An existing device with another id and the same pairing identity. *)
Definition same_identity (r existing : Value) : bool :=
  negb (text existing "id" =? text r "id")%string
  && (text existing "appId" =? text r "appId")%string
  && (text existing "driverId" =? text r "driverId")%string
  && same_field existing r "data".

(** [for key in ["data", "settings", "store"]]: absent or null becomes an empty object *)
Fixpoint fill_objects (keys : list string) (r : Value) : Result Value :=
  match keys with
  | [] => Ok r
  | k :: keys =>
      r ← match get r k with
          | None | Some VNull => set r k object
          | Some _ => Ok r
          end;
      fill_objects keys r
  end.

Definition normalize_device (s : Store St) (r : Value) (previous : option Value) : Result Value :=
  _ ← (if negb (text r "appId" =? Scenes.APP_ID)%string
       then record (document s) "apps" (text r "appId") else Ok VNull);
  let group := text r "groupId" in
  _ ← (if negb (is_empty group) then record (document s) "deviceGroups" group else Ok VNull);
  if match previous with
     | Some old => negb (forallb (same_field old r) ["appId"; "driverId"; "data"])
     | None => false
     end
  then Err (Invalid "paired device identity is immutable") else
  if existsb (same_identity r) (records (document s) "devices")
  then Err (Conflict "device is already paired") else
  r ← fill_objects ["data"; "settings"; "store"] r;
  store ← ok_or (get r "store") (Missing "device store");
  store ← (if is_empty (text store "__stulp.hardwareName")
           then set store "__stulp.hardwareName" (VString (trim (text r "name")))
           else Ok store);
  o ← ok_or (as_object store) (Invalid "device store must be an object");
  r ← set r "store" (VObject (persistent o));
  remove_all r OBSERVED.

Definition normalize (s : Store St) (collection : string) (r : Value) (previous : option Value) : Result Value :=
  if (collection =? "flows")%string then
    r ← set r "name" (VString (trim (text r "name")));
    _ ← Flow.validate r;
    _ ← Scenes.validate_references (document s) r;
    Ok r
  else if (collection =? "deviceGroups")%string then Groups.validate (document s) r
  else if (collection =? "scenes")%string then
    _ ← match previous with
        | Some old => if negb (text old "kind" =? text r "kind")%string
                      then Scenes.can_delete (document s) old else Ok tt
        | None => Ok tt
        end;
    Scenes.validate r previous
  else if (collection =? "devices")%string then normalize_device s r previous
  else if (collection =? "notifications")%string then
    let excerpt := trim (text r "excerpt") in
    if is_empty excerpt || (500 <? length (chars excerpt))%nat
    then Err (Invalid "notification excerpt must contain 1 to 500 characters")
    else set r "excerpt" (VString excerpt)
  else if (collection =? "apps")%string then Ok r
  else Err (Invalid "unknown collection").

Definition is_revised (collection : string) : bool :=
  (collection =? "flows")%string || (collection =? "scenes")%string.

(** [for key in ["createdAt", "lastRunAt", "lastError"]]: taken over from the previous record *)
Fixpoint inherit (keys : list string) (previous : option Value) (r : Value) : Result Value :=
  match keys with
  | [] => Ok r
  | k :: keys =>
      r ← match previous ≫= fun p => get p k with
          | Some v => set r k v
          | None => Ok r
          end;
      inherit keys previous r
  end.

(** The record as it is stored: revision, times, and the rules of its collection. *)
Definition put_record (s : Store St) (collection : string) (r : Value) (create : bool)
    (previous : option Value) (now : string) : Result Value :=
  r ← (if is_revised collection then
         next ← ok_or (checked_add (match previous with Some p => uint p "revision" | None => 0 end) 1) Full;
         set r "revision" (value_uint next)
       else Ok r);
  r ← inherit ["createdAt"; "lastRunAt"; "lastError"] previous r;
  r ← (if create then set r "createdAt" (VString now) else Ok r);
  r ← set r "updatedAt" (VString now);
  normalize s collection r previous.

(** Everything of [put] before the commit. *)
Definition prepare_put (s : Store St) (collection : string) (r : Value) (create : bool)
    (revision : option Z) (now : string) : Result (Document * Event * option (string * Value)) :=
  '(manager, created, updated, _) ← collection_events collection;
  let id := text r "id" in
  if is_empty id then Err (Invalid "record id is required") else
  cache ← (if (collection =? "devices")%string then prepare_cache s id r else Ok None);
  let previous := res_ok (record (document s) collection id) in
  if create && bool_decide (is_Some previous) then Err (Conflict "record already exists") else
  if negb create && negb (bool_decide (is_Some previous)) then Err (Missing "record does not exist") else
  if match revision with
     | Some n => negb (bool_decide (((fun p => uint p "revision") <$> previous) = Some n))
     | None => false
     end
  then Err Changed else
  r ← put_record s collection r create previous now;
  e ← event s manager (if create then created else updated) id;
  c ← replace_record (document s) collection r;
  c ← (if (collection =? "scenes")%string then Scenes.reconcile c else Ok c);
  Ok (c, e, cache).

Definition put (collection : string) (r : Value) (create : bool) (revision : option Z) (now : string)
  : M (St := St) unit :=
  let* s := getM in
  let* (c, e, cache) := liftR (prepare_put s collection r create revision now) in
  let* _ := commit c e in
  modifyM (put_cache cache).

(** ** Deleting *)

Definition prepare_delete (s : Store St) (collection id : string) : Result (Document * Event) :=
  previous ← record (document s) collection id;
  _ ← (if (collection =? "scenes")%string then Scenes.can_delete (document s) previous else Ok tt);
  if (collection =? "devices")%string && (text previous "appId" =? Scenes.APP_ID)%string
  then Err (Invalid "scene device must be deleted through its scene") else
  '(manager, _, _, kind) ← collection_events collection;
  e ← event s manager kind id;
  c ← (if (collection =? "deviceGroups")%string then Groups.lift_children (document s) id else Ok (document s));
  c ← (if (collection =? "apps")%string then uninstall c id else Ok c);
  c ← remove_record c collection id;
  c ← (if (collection =? "scenes")%string then Scenes.reconcile c else Ok c);
  Ok (c, e).

Definition has_device (s : Store St) (id : string) : bool := is_ok (record (document s) "devices" id).

(** What the owner forgets after the commit. *)
Definition forget (collection id : string) (s : Store St) : Store St :=
  let s := if (collection =? "apps")%string
           then let s := with_apps s (List.filter (fun a => negb (is_app id a)) (apps s)) in
                with_media s (List.filter (fun kv => has_device s kv.1) (media s))
           else s in
  let s := if (collection =? "devices")%string
           then with_media s (List.filter (fun kv => negb (kv.1 =? id)%string) (media s)) else s in
  let s := with_live s (List.filter (fun o => has_device s (ob_id o)) (live s)) in
  with_caches s (List.filter (fun kv => has_device s kv.1) (caches s)).

Definition delete (collection id : string) : M (St := St) unit :=
  let* s := getM in
  let* (c, e) := liftR (prepare_delete s collection id) in
  let* _ := commit c e in
  modifyM (forget collection id).

(** ** Settings, app state and system *)

Definition prepare_setting (s : Store St) (app key : string) (value : option Value) : Result (Document * Event) :=
  _ ← record (document s) "apps" app;
  settings ← ok_or (get (root (document s)) "appSettings") (Missing "appSettings");
  let own := match get settings app with Some v => v | None => object end in
  own ← match value with Some v => set own key v | None => remove own key end;
  settings ← set settings app own;
  c ← doc_set (document s) "appSettings" settings;
  e ← event s "apps" "app.settings" app;
  Ok (c, e).

Definition setting (app key : string) (value : option Value) : M (St := St) unit :=
  let* s := getM in
  let* (c, e) := liftR (prepare_setting s app key value) in
  commit c e.

Definition prepare_app_state (s : Store St) (app : string) (value : Value) : Result (Document * Event) :=
  _ ← record (document s) "apps" app;
  state ← ok_or (get (root (document s)) "appState") (Missing "appState");
  state ← set state app value;
  c ← doc_set (document s) "appState" state;
  e ← event s "apps" "app.state" app;
  Ok (c, e).

Definition app_state (app : string) (value : Value) : M (St := St) unit :=
  let* s := getM in
  let* (c, e) := liftR (prepare_app_state s app value) in
  commit c e.

Definition prepare_system (s : Store St) (value : Value) : Result (Document * Event) :=
  _ ← ok_or (as_object value) (Invalid "system settings must be an object");
  c ← doc_set (document s) "system" value;
  e ← event s "system" "system.update" "system";
  Ok (c, e).

Definition system (value : Value) : M (St := St) unit :=
  let* s := getM in
  let* (c, e) := liftR (prepare_system s value) in
  let* _ := commit c e in
  modifyM (fun s => if statistics_enabled s then s else with_stats s stats_new None false).

(** ** The history of a Flow *)

Definition prepare_flow_result (s : Store St) (previous : Value) (ran_at error now : string) : Result (Document * Event) :=
  r ← set_all previous [("lastRunAt", VString ran_at); ("updatedAt", VString now); ("lastError", VString error)];
  revision ← ok_or (checked_add (uint r "revision") 1) Full;
  r ← set r "revision" (value_uint revision);
  c ← replace_record (document s) "flows" r;
  e ← event s "flow" "flow.run" (text previous "id");
  Ok (c, e).

Definition flow_result (id ran_at error now : string) : M (St := St) unit :=
  let* s := getM in
  let* previous := liftR (record (document s) "flows" id) in
  if time_is_before ran_at (text previous "lastRunAt") then retM tt else
  let* (c, e) := liftR (prepare_flow_result s previous ran_at error now) in
  commit c e.
End Ops3.

Section Ops4.
Context {St : Type} {HS : Storage St}.

(** ** Observations *)

Definition take_scene_trip (s : Store St) : option Value * Store St :=
  match last (scene_trips s) with
  | Some v => (Some v, with_trips s (removelast (scene_trips s)))
  | None => (None, s)
  end.

Definition is_obs (id : string) (o : Observation) : bool := (ob_id o =? id)%string.
Definition find_live (id : string) (s : Store St) : option Observation := find (is_obs id) (live s).

(** The change cursors: a capability keeps its cursor while its value stays the same. *)
Definition next_revisions (previous : option Observation) (state : Value) (seq : Z) : Object :=
  let kept :=
    match previous with
    | Some old =>
        map (fun kv => match kv with (cap, revision) =>
               (cap, if equal (get_null (ob_state old) cap) (get_null state cap)
                     then revision else value_uint seq) end)
          (default [] (as_object (ob_revisions old)))
    | None => []
    end in
  let fresh :=
    List.filter (fun cap => match previous with
                            | Some old => negb (bool_decide (is_Some (get (ob_revisions old) cap)))
                            | None => true end)
      (obj_keys (default [] (as_object state))) in
  kept ++ map (fun cap => (cap, value_uint seq)) fresh.

(** [n > limit.saturating_sub(used)] *)
Definition exceeds {A B} (new : list A) (limit : Z) (used : list B) : bool :=
  saturating_sub limit (Z.of_nat (length used)) <? Z.of_nat (length new).

Definition prepare_observe (s : Store St) (app id : string) (state : Value) (available : bool) (message : string)
  : Result (Event * list Observation * list Value * list Value * string) :=
  r ← record (document s) "devices" id;
  if negb (text r "appId" =? app)%string then Err (Invalid "device belongs to another app") else
  _ ← ok_or (as_object state) (Invalid "device state must be an object");
  let previous := find_live id s in
  trips ← match previous with
          | Some old => Scenes.trips (document s) id (ob_state old) state
          | None => Ok []
          end;
  if exceeds trips 256 (scene_trips s) then Err Full else
  changes ← match previous with
            | Some old => Triggers.changes r (ob_state old) state
            | None => Ok []
            end;
  if exceeds changes Triggers.MAX_TRIGGERS (triggers s) then Err Full else
  seq ← ok_or (checked_add (sequence s) 1) Full;
  let next := mk_obs id state (VObject (next_revisions previous state seq)) available message in
  e ← event s "devices" "device.update" id;
  all ← match previous with
        | Some _ => Ok (update_first (is_obs id) (fun _ => next) (live s))
        | None => push (live s) next MAX_RECORDS
        end;
  Ok (e, all, trips, changes, text r "name").

Definition observe (app id : string) (state : Value) (available : bool) (message : string) : M (St := St) unit :=
  let* s := getM in
  let* (e, all, trips, changes, name) := liftR (prepare_observe s app id state available message) in
  modifyM (fun s =>
    let s := collect id name state (with_live s all) in
    let s := with_triggers s (triggers s ++ changes) in
    let s := with_trips s (scene_trips s ++ trips) in
    publish e s).

Definition capability_revision (id cap : string) (s : Store St) : Z :=
  match find_live id s with
  | Some o => uint (ob_revisions o) cap
  | None =>
      match strip_prefix "scene:" id with
      | Some sid => match record (document s) "scenes" sid with
                    | Ok r => uint r "revision"
                    | Err _ => 0
                    end
      | None => 0
      end
  end.

(** The scene behind a scene device. *)
Definition scene_of (s : Store St) (id : string) (device : Value) : option Value :=
  sid ← strip_prefix "scene:" id;
  if (text device "appId" =? Scenes.APP_ID)%string then res_ok (record (document s) "scenes" sid) else None.

Definition device (id : string) (s : Store St) : Result Value :=
  out ← record (document s) "devices" id;
  out ← match find (fun kv => (kv.1 =? id)%string) (caches s) with
        | Some (_, cache) =>
            store ← set_all (match get out "store" with Some v => v | None => object end)
                      (default [] (as_object cache));
            set out "store" store
        | None => Ok out
        end;
  let observation := find_live id s in
  let scene := scene_of s id out in
  let observed := match observation with Some o => ob_state o | None => object end in
  let state :=
    match scene with
    | Some sc => if negb (text sc "kind" =? "button")%string
                 then fields [("onoff", VBool (boolean sc "active"))] else observed
    | None => observed
    end in
  set_all out
    [("state", state);
     ("available", VBool (bool_decide (is_Some scene)
                          || match observation with Some o => ob_available o | None => false end));
     ("unavailableMessage", VString (match observation with Some o => ob_message o | None => "" end))].

(** ** Scenes ([store/scenes.rs]) *)

Definition prepare_scene_state (s : Store St) (id : string) (scene : Value)
  : Result (Document * Event * list Value * Value * Value) :=
  revision ← ok_or (checked_add (uint scene "revision") 1) Full;
  scene ← set scene "revision" (value_uint revision);
  dev ← device (Scenes.device_id id) s;
  before ← record (document s) "scenes" id;
  let old := fields [("onoff", VBool (boolean before "active"))] in
  let new := fields [("onoff", VBool (boolean scene "active"))] in
  changes ← Triggers.changes dev old new;
  if exceeds changes Triggers.MAX_TRIGGERS (triggers s) then Err Full else
  _ ← ok_or (checked_add (sequence s) 2) Full;
  c ← replace_record (document s) "scenes" scene;
  e ← event s "scene" "scene.state" id;
  Ok (c, e, changes, dev, new).

Definition commit_scene_state (id : string) (scene : Value) : M (St := St) unit :=
  let* s := getM in
  let* (c, e, changes, dev, new) := liftR (prepare_scene_state s id scene) in
  let* _ := commit c e in
  let* s := getM in
  let* e2 := liftR (event s "devices" "device.update" (Scenes.device_id id)) in
  modifyM (fun s =>
    let s := publish e2 s in
    let s := collect (text dev "id") (text dev "name") new s in
    with_triggers s (triggers s ++ changes)).

(** Durable baseline before any device command; a second activation does not overwrite it. *)
Definition begin_scene (id : string) (previous : list Value) : M (St := St) bool :=
  let* s := getM in
  let* scene := liftR (record (document s) "scenes" id) in
  if (text scene "kind" =? "button")%string then liftR (Err (Invalid "button scene has no restore state")) else
  if boolean scene "active" then retM false else
  let* _ := liftR (Scenes.validate_states previous) in
  let* scene := liftR (set scene "previous" (VArray previous)) in
  let* scene := liftR (set scene "active" (VBool true)) in
  let* _ := commit_scene_state id scene in
  retM true.

Definition scene_remaining (id : string) (remaining : list Value) : M (St := St) unit :=
  let* _ := liftR (Scenes.validate_states remaining) in
  let* s := getM in
  let* scene := liftR (record (document s) "scenes" id) in
  if (text scene "kind" =? "button")%string then liftR (Err (Invalid "button scene has no restore state")) else
  let* scene := liftR (set scene "active" (VBool (negb (bool_decide (remaining = []))))) in
  let* scene := liftR (set scene "previous" (VArray remaining)) in
  commit_scene_state id scene.

(** ** Groups ([store/groups.rs]) *)

(** [for (index, id) in ids.iter().enumerate()]; [before] is [ids.iter().take(index)]. *)
Fixpoint check_members (d : Document) (group : string) (before ids : list string) : Result unit :=
  match ids with
  | [] => Ok tt
  | id :: ids =>
      if existsb (String.eqb id) before then Err (Invalid "device is not a unique group member")
      else
        dev ← record d "devices" id;
        if negb (text dev "groupId" =? group)%string then Err (Invalid "device is not a unique group member")
        else check_members d group (before ++ [id]) ids
  end.

Definition reorder_device (ids : list string) (dev : Value) : Result Value :=
  match Flow.position (fun id => (id =? text dev "id")%string) ids with
  | Some index => set dev "sortOrder" (value_uint (Z.of_nat (index + 1) * 10))
  | None => Ok dev
  end.

Definition prepare_reorder (s : Store St) (group : string) (ids : list string) : Result (Document * Event) :=
  _ ← (if negb (is_empty group) then record (document s) "deviceGroups" group else Ok VNull);
  if negb (length (List.filter (fun d => (text d "groupId" =? group)%string) (records (document s) "devices"))
           =? length ids)%nat
  then Err Changed else
  _ ← check_members (document s) group [] ids;
  rs ← push_all (reorder_device ids) MAX_RECORDS (records (document s) "devices") [];
  c ← replace (document s) "devices" rs;
  e ← event s "devices" "device.reorder" group;
  Ok (c, e).

Definition reorder_devices (group : string) (ids : list string) : M (St := St) unit :=
  let* s := getM in
  let* (c, e) := liftR (prepare_reorder s group ids) in
  commit c e.

(** ** Triggers ([store/triggers.rs]) *)

Definition non_null (v : option Value) : Value := match v with Some w => w | None => VNull end.

Definition prepare_trigger (s : Store St) (app : string) (params : Value) : Result (list Value) :=
  r ← record (document s) "apps" app;
  if negb (boolean r "enabled") then Err (Invalid "app is disabled") else
  let id := text params "id" in
  let kind := text params "kind" in
  if is_empty id || (256 <? len id) || negb (kind =? "trigger")%string then Err (Invalid "invalid flow trigger") else
  let state := non_null (get params "state") in
  let tokens := non_null (get params "tokens") in
  if (negb (is_null state) && negb (bool_decide (is_Some (as_object state))))
     || (negb (is_null tokens) && negb (bool_decide (is_Some (as_object tokens))))
  then Err (Invalid "flow context must be an object") else
  let dev := text state "deviceId" in
  owner ← (if negb (is_empty dev) then
             d ← record (document s) "devices" dev; Ok (text d "appId" =? app)%string
           else Ok true);
  if negb owner then Err (Invalid "trigger device belongs to another app") else
  push (triggers s)
    (fields [("appId", VString (if boolean params "system" then "stulp" else app)); ("kind", VString kind);
             ("id", VString id); ("tokens", tokens); ("state", state)]) Triggers.MAX_TRIGGERS.

Definition trigger (app : string) (params : Value) : M (St := St) unit :=
  let* s := getM in
  let* all := liftR (prepare_trigger s app params) in
  modifyM (fun s => with_triggers s all).

Definition pending_triggers (s : Store St) : nat := length (triggers s).

Definition take_trigger (s : Store St) : option Value * Store St :=
  match triggers s with
  | [] => (None, s)
  | v :: l => (Some v, with_triggers s l)
  end.
End Ops4.
