(* ===== verification/References.v ===== *)
(** * References: rewriting what Flows and scenes refer to
    ([crates/core/src/store/references.rs] and [crates/core/src/store/consolidation.rs]) *)

From Stdlib Require Import ZArith Lia Ascii String.
From S2P Require Import Prelude Text Errors Slots Float Value Json Document Stats Store.
From S2P Require Flow Scenes Triggers.

Local Open Scope Z_scope.

(** ** Rewriting values *)

(** [replace]: every string equal to [old] becomes [new], at most 64 levels deep. *)
Fixpoint replace_text (old new : string) (depth : nat) (v : Value) {struct v} : Result Value :=
  if (64 <? depth)%nat then Err Full else
  match v with
  | VString s => Ok (if (s =? old)%string then VString new else v)
  | VObject o =>
      out ← (fix go (l : Object) : Result Object :=
               match l with
               | [] => Ok []
               | (k, w) :: l => w' ← replace_text old new (S depth) w; l' ← go l; Ok ((k, w') :: l')
               end) o;
      Ok (VObject out)
  | VArray a =>
      out ← (fix go (l : list Value) : Result (list Value) :=
               match l with
               | [] => Ok []
               | w :: l => w' ← replace_text old new (S depth) w; l' ← go l; Ok (w' :: l')
               end) a;
      if MAX_INPUT <? Z.of_nat (length out) then Err Full else Ok (VArray out)
  | _ => Ok v
  end.

(** The first argument that names a device. *)
Fixpoint first_device (args : Object) : string :=
  match args with
  | [] => ""
  | (_, v) :: args => let id := text v "$device" in if is_empty id then first_device args else id
  end.

(** ["capability." ++ cap ++ "." ++ action] taken apart. *)
Definition split_card (card : string) : option (string * string) :=
  rest ← strip_prefix "capability." card; split_last "." rest.

Definition join_card (cap action : string) : string := ("capability." ++ cap ++ "." ++ action)%string.

Definition replace_key (original : Value) (old new key : string) (out : Value) : Result Value :=
  match get original key with
  | Some v => v' ← replace_text old new 0 v; set out key v'
  | None => Ok out
  end.

Definition step (original replacements : Value) : Result Value :=
  match as_object (get_null original "args") with
  | None => Ok original
  | Some args =>
      let old := first_device args in
      match get replacements old with
      | None => Ok original
      | Some replacement =>
          let new := text replacement "deviceId" in
          let caps := get_null replacement "capabilities" in
          out ← replace_key original old new "args" original;
          out ← replace_key original old new "state" out;
          let args := get_null out "args" in
          let renamed := text caps (text args "capability") in
          args ← (if is_empty renamed then Ok args else set args "capability" (VString renamed));
          out ← set out "args" args;
          match split_card (text original "cardId") with
          | Some (cap, action) =>
              let new := text caps cap in
              if negb (is_empty new) && negb (new =? cap)%string
              then set out "cardId" (VString (join_card new action)) else Ok out
          | None => Ok out
          end
      end
  end.

Definition rewrite_node (replacements node : Value) : Result Value :=
  updated ← step (get_null node "step") replacements; set node "step" updated.

Definition flow (original replacements : Value) : Result Value :=
  nodes ← push_all (rewrite_node replacements) (Z.of_nat Flow.MAX_NODES) (array original "nodes") [];
  set original "nodes" (VArray nodes).

Definition rewrite_state (replacements st : Value) : Result Value :=
  match get replacements (text st "deviceId") with
  | None => Ok st
  | Some replacement =>
      let cap := text (get_null replacement "capabilities") (text st "capabilityId") in
      st ← (if is_empty cap then Ok st else set st "capabilityId" (VString cap));
      set st "deviceId" (VString (text replacement "deviceId"))
  end.

Definition rewrite_states (original replacements : Value) (key : string) (out : Value) : Result Value :=
  match get original key with
  | None => Ok out
  | Some _ =>
      states ← push_all (rewrite_state replacements) 256 (array original key) [];
      _ ← Scenes.validate_states states;
      set out key (VArray states)
  end.

Definition scene (original replacements : Value) : Result Value :=
  out ← rewrite_states original replacements "states" original;
  rewrite_states original replacements "previous" out.

Section Ops.
Context {St : Type} {HS : Storage St}.

(** ** [rewrite_references] *)

Definition is_bad_route (kv : string * Value) : bool :=
  is_empty kv.1 || match as_str kv.2 with Some t => is_empty t | None => true end.

Definition owned (s : Store St) (app id : string) : Result unit :=
  dev ← record (document s) "devices" id;
  if negb (text dev "appId" =? app)%string
  then Err (Invalid "replacement device belongs to another app") else Ok tt.

Fixpoint validate_entries (s : Store St) (app : string) (entries : Object) : Result unit :=
  match entries with
  | [] => Ok tt
  | (old, r) :: entries =>
      let new := text r "deviceId" in
      if is_empty new then Err (Invalid "replacement device id missing") else
      _ ← owned s app old;
      _ ← owned s app new;
      _ ← match get r "capabilities" with
          | None | Some VNull => Ok tt
          | Some caps =>
              o ← ok_or (as_object caps) (Invalid "replacement capabilities must be an object");
              if existsb is_bad_route o then Err (Invalid "invalid capability replacement") else Ok tt
          end;
      validate_entries s app entries
  end.

Definition validate_replacements (s : Store St) (app : string) (replacements : Value) : Result unit :=
  entries ← ok_or (as_object replacements) (Invalid "replacements must be an object");
  if MAX_RECORDS <? Z.of_nat (length entries) then Err Full
  else validate_entries s app entries.

(** One more event of a batch, numbered after the ones before. *)
Definition batch_event (s : Store St) (manager kind id : string) (acc : list Event * Z) : Result (list Event * Z) :=
  e ← event s manager kind id;
  n ← ok_or (checked_add acc.2 1) Full;
  evs ← push acc.1 (mk_event n (ev_manager e) (ev_kind e) (ev_id e)) (MAX_RECORDS * 4);
  Ok (evs, n).

Definition rewrite_record (s : Store St) (collection manager kind : string) (replacements : Value)
    (now : string) (old : Value) (acc : list Event * Z) : Result (Value * (list Event * Z)) :=
  next ← (if (collection =? "flows")%string then flow old replacements else scene old replacements);
  if equal old next then Ok (next, acc) else
  _ ← (if (collection =? "flows")%string then Flow.validate next else Ok tt);
  revision ← ok_or (checked_add (uint old "revision") 1) Full;
  next ← set next "revision" (value_uint revision);
  next ← set next "updatedAt" (VString now);
  acc ← batch_event s manager kind (text old "id") acc;
  acc ← (if (collection =? "scenes")%string
         then batch_event s "devices" "device.update" (Scenes.device_id (text old "id")) acc else Ok acc);
  Ok (next, acc).

Fixpoint rewrite_records (s : Store St) (collection manager kind : string) (replacements : Value)
    (now : string) (olds out : list Value) (acc : list Event * Z) : Result (list Value * (list Event * Z)) :=
  match olds with
  | [] => Ok (out, acc)
  | old :: olds =>
      '(next, acc) ← rewrite_record s collection manager kind replacements now old acc;
      out ← push out next MAX_RECORDS;
      rewrite_records s collection manager kind replacements now olds out acc
  end.

Definition rewrite_references (s : Store St) (c : Document) (replacements : Value) (now : string)
    (acc : list Event * Z) : Result (Document * (list Event * Z)) :=
  '(flows, acc) ← rewrite_records s "flows" "flow" "flow.update" replacements now
                    (records (document s) "flows") [] acc;
  c ← replace c "flows" flows;
  '(scenes, acc) ← rewrite_records s "scenes" "scene" "scene.update" replacements now
                     (records (document s) "scenes") [] acc;
  c ← replace c "scenes" scenes;
  Ok (c, acc).

Definition publish_all (evs : list Event) (s : Store St) : Store St :=
  fold_left (fun s e => publish e s) evs s.

Definition replace_references (app : string) (replacements : Value) (now : string) : M (St := St) unit :=
  let* s := getM in
  let* _ := liftR (validate_replacements s app replacements) in
  if match as_object replacements with Some [] => true | _ => false end then retM tt else
  let* (c, acc) := liftR (rewrite_references s (document s) replacements now ([], sequence s)) in
  if bool_decide (acc.1 = []) then retM tt else
  let* c := liftR (Scenes.reconcile c) in
  let* _ := save c in
  modifyM (publish_all acc.1).

(** ** [consolidation.rs] *)

(** A reference to a source device, as a queued event or scene trip carries it. *)
Definition route_key (r v : Value) (key : string) (out : Value) : Result Value :=
  match get (get_null r "capabilities") (text v key) with
  | Some cap => set out key cap
  | None => Ok out
  end.

Definition reference (v replacements : Value) : Result Value :=
  match get replacements (text v "deviceId") with
  | None => Ok v
  | Some r =>
      out ← set v "deviceId" (get_null r "deviceId");
      out ← route_key r v "capability" out;
      route_key r v "capabilityId" out
  end.

Definition reference_key (v replacements : Value) (key : string) (out : Value) : Result Value :=
  match get v key with
  | Some w => w' ← reference w replacements; set out key w'
  | None => Ok out
  end.

(** A queued Flow event; [v] before, the result after. *)
Definition queued (v replacements : Value) : Result Value :=
  out ← reference v replacements;
  out ← reference_key v replacements "state" out;
  out ← reference_key v replacements "tokens" out;
  match get replacements (text (get_null v "state") "deviceId"), split_card (text v "id") with
  | Some r, Some (cap, action) =>
      match get (get_null r "capabilities") cap ≫= as_str with
      | Some new => set out "id" (VString (join_card new action))
      | None => Ok out
      end
  | _, _ => Ok out
  end.

(** The pairing identity, name and creation time of the surviving device. *)
Fixpoint keep_identity (keys : list string) (previous merged : Value) : Result Value :=
  match keys with
  | [] => Ok merged
  | k :: keys =>
      merged ← match get previous k with Some v => set merged k v | None => remove merged k end;
      keep_identity keys previous merged
  end.

Record Routes := mk_routes { rt_targets : list string; rt_state : Value; rt_revisions : Value }.

Definition copy_field (from : Value) (cap target : string) (out : Value) : Result Value :=
  match get from cap with Some v => set out target v | None => Ok out end.

(** The capabilities of one source, each to its own destination. *)
Fixpoint route_caps (s : Store St) (merged : Value) (old : string) (caps : Object) (acc : Routes) : Result Routes :=
  match caps with
  | [] => Ok acc
  | (cap, v) :: caps =>
      target ← ok_or (as_str v) (Invalid "invalid capability route");
      if is_empty target || existsb (String.eqb target) (rt_targets acc)
         || negb (existsb (fun w => bool_decide (as_str w = Some target)) (array merged "capabilities"))
      then Err (Invalid "invalid consolidation capability route") else
      targets ← push (rt_targets acc) target MAX_RECORDS;
      acc ← match find_live old s with
            | Some o =>
                st ← copy_field (ob_state o) cap target (rt_state acc);
                rv ← copy_field (ob_revisions o) cap target (rt_revisions acc);
                Ok (mk_routes targets st rv)
            | None => Ok (mk_routes targets (rt_state acc) (rt_revisions acc))
            end;
      route_caps s merged old caps acc
  end.

Fixpoint route_entries (s : Store St) (merged previous : Value) (id : string) (entries : Object) (acc : Routes)
  : Result Routes :=
  match entries with
  | [] => Ok acc
  | (old, r) :: entries =>
      source ← record (document s) "devices" old;
      if negb (text r "deviceId" =? id)%string || negb (text source "driverId" =? text previous "driverId")%string
      then Err (Invalid "consolidation crosses device identity") else
      caps ← ok_or (as_object (get_null r "capabilities")) (Invalid "consolidation requires capability routes");
      if existsb (fun cap => match as_str cap with
                             | Some c => negb (bool_decide (is_Some (obj_get caps c)))
                             | None => true end) (array source "capabilities")
      then Err (Invalid "consolidation would lose a capability") else
      acc ← route_caps s merged old caps acc;
      route_entries s merged previous id entries acc
  end.

(** Removes the sources that do not survive, with an event for each. *)
Fixpoint remove_sources (s : Store St) (id : string) (entries : Object) (c : Document) (acc : list Event * Z)
  : Result (Document * (list Event * Z)) :=
  match entries with
  | [] => Ok (c, acc)
  | (old, _) :: entries =>
      c ← (if (old =? id)%string then Ok c else remove_record c "devices" old);
      acc ← batch_event s "devices" (if (old =? id)%string then "device.update" else "device.delete") old acc;
      remove_sources s id entries c acc
  end.

Record Consolidated := mk_consolidated {
  co_document : Document; co_events : list Event; co_observation : Observation;
  co_cache : option (string * Value); co_triggers : list Value; co_trips : list Value
}.

Definition prepare_consolidate (s : Store St) (app : string) (merged0 replacements : Value) (now : string)
  : Result Consolidated :=
  _ ← validate_replacements s app replacements;
  entries ← ok_or (as_object replacements) (Invalid "missing replacements");
  let id := text merged0 "id" in
  if (length entries <? 2)%nat || negb (bool_decide (is_Some (get replacements id)))
  then Err (Invalid "consolidation requires a surviving source device") else
  previous ← record (document s) "devices" id;
  merged ← keep_identity ["appId"; "driverId"; "data"; "name"; "createdAt"] previous merged0;
  routes ← route_entries s merged previous id entries (mk_routes [] object object);
  if negb (length (rt_targets routes) =? length (array merged "capabilities"))%nat
  then Err (Invalid "consolidation introduced an unmapped capability") else
  let obs := mk_obs id (rt_state routes) (rt_revisions routes) (boolean merged "available")
               (text merged "unavailableMessage") in
  cache ← prepare_cache s id merged;
  merged ← normalize_device s merged (Some previous);
  merged ← set merged "updatedAt" (VString now);
  c ← replace_record (document s) "devices" merged;
  '(c, acc) ← rewrite_references s c replacements now ([], sequence s);
  '(c, acc) ← remove_sources s id entries c acc;
  c ← Scenes.reconcile c;
  trgs ← push_all (fun e => queued e replacements) Triggers.MAX_TRIGGERS (triggers s) [];
  trps ← push_all (fun e => reference e replacements) 256 (scene_trips s) [];
  Ok (mk_consolidated c acc.1 obs cache trgs trps).

Definition not_replaced (replacements : Value) (id : string) : bool :=
  negb (bool_decide (is_Some (get replacements id))).

Definition consolidate_devices (app : string) (merged replacements : Value) (now : string) : M (St := St) unit :=
  let* s := getM in
  let* r := liftR (prepare_consolidate s app merged replacements now) in
  let* _ := save (co_document r) in
  modifyM (fun s =>
    let s := with_live s (List.filter (fun o => not_replaced replacements (ob_id o)) (live s) ++ [co_observation r]) in
    let s := with_caches s (List.filter (fun kv => not_replaced replacements kv.1) (caches s)
                            ++ match co_cache r with Some c => [c] | None => [] end) in
    let s := with_media s (List.filter (fun kv => not_replaced replacements kv.1) (media s)) in
    let s := with_trips (with_triggers s (co_triggers r)) (co_trips r) in
    publish_all (co_events r) s).
End Ops.
