(* ===== verification/Media.v ===== *)
(** * Media: declared media slots and image tickets ([crates/core/src/store/media.rs]) *)

From Stdlib Require Import ZArith Lia Ascii String.
From S2P Require Import Prelude Text Errors Slots Float Value Document Stats Store.

Local Open Scope Z_scope.

(** A label of a slot: absent and null read as empty. *)
Definition label (item : Value) (key : string) : Result string :=
  t ← match get item key with
      | None | Some VNull => Ok ""
      | Some v => ok_or (as_str v) (Invalid "media label must be a string")
      end;
  if 512 <? len t then Err Full else Ok t.

Definition is_media_kind (k : string) : bool := (k =? "video")%string || (k =? "image")%string.

(** What of a declared slot is public; [slots] are the ones before. *)
Definition public_slot (id : string) (slots : list Value) (item : Value) : Result Value :=
  let slot := text item "slot" in
  let kind := text item "kind" in
  if is_empty slot || (128 <? len slot) || contains_byte 47 slot || negb (is_media_kind kind)
  then Err (Invalid "invalid media slot") else
  if existsb (fun v => (text v "slot" =? slot)%string && (text v "kind" =? kind)%string) slots
  then Err (Conflict "duplicate media slot") else
  title ← label item "title";
  public ← set (fields [("deviceId", VString id); ("slot", VString slot); ("kind", VString kind)])
             "title" (VString title);
  resource ← label item "resourceId";
  public ← set public "resourceId" (VString resource);
  match get item "options" with
  | None | Some VNull => Ok public
  | Some options =>
      _ ← ok_or (as_object options) (Invalid "media options must be an object");
      set public "options" options
  end.

Fixpoint public_slots (id : string) (items slots : list Value) : Result (list Value) :=
  match items with
  | [] => Ok slots
  | item :: items =>
      public ← public_slot id slots item;
      slots ← push slots public 16;
      public_slots id items slots
  end.

Definition MAX_IMAGES : nat := 8.
Definition IMAGE_MS : Z := 900000.

(** [b.is_ascii_alphanumeric() || b"-_".contains(&b)] *)
Definition is_ticket_byte (b : Z) : bool :=
  between 48 b 57 || between 65 b 90 || between 97 b 122 || (b =? 45) || (b =? 95).

Section Ops.
Context {St : Type} {HS : Storage St}.

Definition media_is (id : string) (kv : string * Value) : bool := (kv.1 =? id)%string.

Definition prepare_media (s : Store St) (app : string) (params : Value) : Result (list (string * Value)) :=
  let id := text params "deviceId" in
  dev ← record (document s) "devices" id;
  if negb (text dev "appId" =? app)%string then Err (Invalid "media device belongs to another app") else
  if match get params "media" with
     | Some v => negb (is_null v) && negb (bool_decide (is_Some (as_array v)))
     | None => false
     end
  then Err (Invalid "media must be an array") else
  slots ← public_slots id (array params "media") [];
  if existsb (media_is id) (media s)
  then Ok (update_first (media_is id) (fun kv => (kv.1, VArray slots)) (media s))
  else push (media s) (id, VArray slots) MAX_RECORDS.

Definition register_media (app : string) (params : Value) : M (St := St) unit :=
  let* s := getM in
  let* all := liftR (prepare_media s app params) in
  modifyM (fun s => with_media s all).

Definition device_media (id : string) (s : Store St) : Result Value :=
  d ← record (document s) "devices" id;
  if negb (app_status (text d "appId") s =? "running")%string then Ok (VArray []) else
  Ok (match find (media_is id) (media s) with Some (_, v) => v | None => VArray [] end).

Definition is_image (v : Value) : bool := (text v "kind" =? "image")%string.

(** The images of one device for the list of choices. *)
Definition image_entry (d m : Value) : Value :=
  let name := text d "name" in
  let title := text m "title" in
  fields [("deviceId", VString (text d "id")); ("deviceName", VString name); ("slot", VString (text m "slot"));
          ("title", VString (if is_empty title then name else title))].

Fixpoint collect_images (s : Store St) (devices images : list Value) : Result (list Value) :=
  match devices with
  | [] => Ok images
  | d :: devices =>
      m ← device_media (text d "id") s;
      images ← push_all (fun m => Ok (image_entry d m)) 4096
                 (List.filter is_image (default [] (as_array m))) images;
      collect_images s devices images
  end.

Definition image_sources (s : Store St) : Result Value :=
  images ← collect_images s (records (document s) "devices") [];
  Ok (VArray images).

Definition prepare_share (s : Store St) (id dev slot : string) (now : Z) : Result SharedImage :=
  if (len id <? 32) || negb (forallb is_ticket_byte (as_bytes id))
     || existsb (fun t => (im_id t =? id)%string) (images s)
  then Err (Invalid "invalid image ticket") else
  m ← device_media dev s;
  source ← ok_or (find (fun v => is_image v && (is_empty slot || (text v "slot" =? slot)%string))
                    (default [] (as_array m)))
             (Missing "device has no image slot");
  Ok (mk_image id dev (text source "slot") (saturating_add now IMAGE_MS)).

(** Expired tickets go first, then the oldest. *)
Definition add_ticket (ticket : SharedImage) (now : Z) (l : list SharedImage) : list SharedImage :=
  let l := List.filter (fun t => now <? im_expires t) l in
  let l := if (length l =? MAX_IMAGES)%nat then tail l else l in
  l ++ [ticket].

Definition share_image (id dev slot : string) (now : Z) : M (St := St) Value :=
  let* s := getM in
  let* ticket := liftR (prepare_share s id dev slot now) in
  let* _ := modifyM (fun s => with_images s (add_ticket ticket now (images s))) in
  retM (fields [("url", VString ("/image/" ++ id)%string)]).

Definition image_source (id : string) (now : Z) (s : Store St) : Result (string * Value) :=
  t ← ok_or (find (fun t => (im_id t =? id)%string && (now <? im_expires t)) (images s))
        (Missing "image does not exist");
  d ← record (document s) "devices" (im_device t);
  slots ← device_media (im_device t) s;
  if negb (existsb (fun v => (text v "slot" =? im_slot t)%string && is_image v) (default [] (as_array slots)))
  then Err (Missing "image source unavailable") else
  Ok (text d "appId",
      fields [("deviceId", VString (im_device t)); ("slot", VString (im_slot t)); ("kind", VString "image")]).
End Ops.
