(* ===== verification/Display.v ===== *)
(** * Display: capability defaults and what a token reads as
    ([crates/core/src/capability.rs], [crates/core/src/display.rs])

    [defaults] gives a built-in capability its type, unit and bounds; [capability_unit] prefers
    it over what an app declares; [token] turns a numeric token into text with its unit. *)

From Stdlib Require Import ZArith Lia Ascii String.
From S2P Require Import Prelude Text Errors Slots Float Value Document Stats Store.
From S2P Require Units Manifest Flow.

Local Open Scope Z_scope.

(** [matches!(s, "a" | "b" | ..)] *)
Definition is_one_of (l : list string) (s : string) : bool := existsb (fun x => (x =? s)%string) l.

(** ** [capability.rs] *)

Definition when (b : bool) (f : Value -> Result Value) (v : Value) : Result Value := if b then f v else Ok v.

(** The unit and step of the built-in measures. *)
Definition unit_step (base : string) : string * f64 :=
  if is_one_of ["measure_temperature"; "target_temperature"] base then ("°C", Units.lit 1 (-2))
  else if is_one_of ["measure_humidity"; "measure_battery"] base then ("%", Units.lit 1 (-2))
  else if (base =? "measure_pressure")%string then ("hPa", Units.lit 1 (-1))
  else if is_one_of ["measure_co2"; "measure_co"] base then ("ppm", Units.lit 1 0)
  else if (base =? "measure_pm25")%string then ("µg/m³", Units.lit 1 (-1))
  else if (base =? "measure_luminance")%string then ("lx", Units.lit 1 0)
  else if (base =? "measure_power")%string then ("W", Units.lit 1 (-3))
  else if (base =? "measure_current")%string then ("A", Units.lit 1 (-3))
  else if (base =? "measure_voltage")%string then ("V", Units.lit 1 (-3))
  else if (base =? "meter_power")%string then ("kWh", Units.lit 1 (-3))
  else if is_one_of ["speaker_position"; "speaker_duration"] base then ("s", Units.lit 1 0)
  else (EmptyString, Units.lit 0 0).

(** id, Dutch and English title of the enumerated capabilities *)
Definition enum_values (base : string) : list (string * string * string) :=
  if (base =? "windowcoverings_state")%string
  then [("up", "Omhoog", "Up"); ("idle", "Stop", "Stop"); ("down", "Omlaag", "Down")]
  else if (base =? "speaker_repeat")%string
  then [("none", "Uit", "Off"); ("track", "Eén nummer", "One track"); ("playlist", "Afspeellijst", "Playlist")]
  else if (base =? "air_quality_state")%string
  then [("unknown", "Onbekend", "Unknown"); ("good", "Goed", "Good"); ("fair", "Redelijk", "Fair");
        ("moderate", "Matig", "Moderate"); ("poor", "Slecht", "Poor"); ("very_poor", "Zeer slecht", "Very poor");
        ("extremely_poor", "Extreem slecht", "Extremely poor")]
  else [].

Definition enum_value (v : string * string * string) : Value :=
  let '(id, nl, en) := v in
  fields [("id", VString id); ("title", fields [("nl", VString nl); ("en", VString en)])].

Definition defaults (result : Value) (base : string) : Result Value :=
  result ← when (is_one_of ["onoff"; "button"; "locked"; "volume_mute"; "speaker_playing"; "speaker_shuffle";
                            "speaker_next"; "speaker_prev"] base)
             (fun r => set r "type" (VString "boolean")) result;
  result ← when (is_one_of ["speaker_next"; "speaker_prev"] base)
             (fun r => r ← set r "getable" (VBool false); set r "setable" (VBool true)) result;
  result ← when (base =? "speaker_repeat")%string (fun r => set r "setable" (VBool true)) result;
  result ← when (is_one_of ["speaker_position"; "speaker_duration"; "measure_co2"; "measure_co"; "measure_pm25";
                            "measure_luminance"; "measure_voltage"; "measure_current"; "meter_power"] base)
             (fun r => set r "min" (value_uint 0)) result;
  let '(unit, step) := unit_step base in
  result ← when (negb (is_empty unit))
             (fun r => set_all r [("type", VString "number"); ("units", VString unit); ("step", VNumber (Float step))]) result;
  result ← when (is_one_of ["dim"; "light_hue"; "light_saturation"; "windowcoverings_set"; "volume_set"] base)
             (fun r => set_all r [("type", VString "number"); ("min", VNumber (Float (Units.lit 0 0)));
                                  ("max", VNumber (Float (Units.lit 1 0))); ("step", VNumber (Float (Units.lit 1 (-2))))]) result;
  result ← when (is_one_of ["measure_humidity"; "measure_battery"] base)
             (fun r => set_all r [("min", value_uint 0); ("max", value_uint 100)]) result;
  let values := enum_values base in
  if bool_decide (values = []) then Ok result
  else
    arr ← push_all (fun v => Ok (enum_value v)) 8 values [];
    set_all result [("values", VArray arr); ("type", VString "enum")].

(** ** [display.rs] *)

Section Display.
Context {St : Type} {HS : Storage St}.

Definition localized_unit (definition : Value) : string := trim (Manifest.localized (get_null definition "units") "en").

(** The unit the first app that knows the capability declares. *)
Fixpoint declared_unit (s : Store St) (cap : string) (apps : list Value) : string :=
  match apps with
  | [] => EmptyString
  | app :: apps =>
      match manifest_of (text app "id") s with
      | Some m =>
          let unit := localized_unit (get_null (get_null m "capabilities") cap) in
          if negb (is_empty unit) then unit else declared_unit s cap apps
      | None => declared_unit s cap apps
      end
  end.

Definition capability_unit (s : Store St) (cap : string) : Result string :=
  definition ← defaults object (before_first "." cap);
  let unit := localized_unit definition in
  Ok (if negb (is_empty unit) then unit else declared_unit s cap (records (document s) "apps")).

Definition drop_prefix (p s : string) : string := match strip_prefix p s with Some r => r | None => s end.

(** The capability whose value a token of a trigger carries. *)
Definition token_capability (input : Value) (token : string) : string :=
  let id := text input "id" in
  if is_one_of ["value"; "oldValue"] token then
    match strip_prefix "capability." id with
    | Some rest => match split_last "." rest with Some (cap, _) => cap | None => EmptyString end
    | None => if (id =? "device_capability_changed")%string then text (get_null input "tokens") "capability" else EmptyString
    end
  else EmptyString.

(** The unit of the token in the cards with this id, in the order of the manifest. *)
Fixpoint token_unit (cards : list Value) (id token : string) : option string :=
  match cards with
  | [] => None
  | card :: cards =>
      if negb (text card "id" =? id)%string then token_unit cards id token
      else match find (fun t => (text t "name" =? token)%string) (array card "tokens") with
           | Some t => Some (localized_unit t)
           | None => token_unit cards id token
           end
  end.

Definition manifest_cards (m : Value) : list Value :=
  flat_map (array (get_null m "flow")) ["triggers"; "conditions"; "actions"].

Definition token (s : Store St) (input : Value) (name : string) (value : Value) : Result (option string) :=
  match value with
  | VNumber number =>
      let token := drop_prefix "state." (drop_prefix "tokens." name) in
      unit ← capability_unit s (token_capability input token);
      let unit :=
        if is_empty unit then
          match manifest_of (text input "appId") s with
          | Some m => default unit (token_unit (manifest_cards m) (text input "id") token)
          | None => unit
          end
        else unit in
      if is_empty unit then Ok None
      else
        let settings := get_null (get_null (root (document s)) "system") "units" in
        t ← Units.measurement_text settings (as_f64 number) unit;
        Ok (Some t)
  | _ => Ok None
  end.

Definition builtin_number (id name : string) : bool :=
  match strip_prefix "capability." id ≫= split_last "." with
  | Some (_, action) =>
      ((name =? "value")%string && is_one_of ["is"; "set"; "above"; "below"; "rose_above"; "fell_below"; "became"] action)
      || ((name =? "seconds")%string && is_one_of ["on_for"; "off_for"] action)
  | None =>
      (is_one_of ["set_device_capability"; "device_capability_equals"; "device_capability_changed"; "device_capability_stays"] id
         && (name =? "value")%string)
      || (is_one_of ["device_capability_stays"; "delay"] id && (name =? "seconds")%string)
      || (is_one_of ["sunrise"; "sunset"] id && (name =? "offset")%string)
  end.

Definition wants_number (s : Store St) (step : Value) (name : string) : bool :=
  let id := text step "cardId" in
  if (text step "appId" =? "stulp")%string then builtin_number id name
  else
    match manifest_of (text step "appId") s with
    | None => false
    | Some m =>
        let kind := Flow.card_kind (text step "cardType") in
        let list := if (kind =? "trigger")%string then "triggers"
                    else if (kind =? "condition")%string then "conditions" else "actions" in
        match find (fun c => (text c "id" =? id)%string) (array (get_null m "flow") list) with
        | Some c =>
            match find (fun a => (text a "name" =? name)%string) (array c "args") with
            | Some a => is_one_of ["number"; "range"; "capability-value"] (text a "type")
            | None => false
            end
        | None => false
        end
    end.
End Display.
