(* ===== verification/StoreDoc.v ===== *)
(** * StoreDoc: what the steps on a candidate document keep

    Lemmas on [replace_record], [remove_record], [reconcile], [lift_children] and [uninstall]:
    each keeps a document well-formed ([doc_ok]), and what each does to the collections. *)

From Stdlib Require Import ZArith Lia Ascii String.
From S2P Require Import Prelude Text Errors Float Value Document Store.
From S2P Require Flow Scenes Groups.

Local Open Scope Z_scope.

(** ** Edits of a record: keys stay unique, the id stays *)

Definition edits (r r' : Value) : Prop := (uniq r = true -> uniq r' = true) /\ text r' "id" = text r "id".

#[export] Instance edits_preorder : PreOrder edits.
Proof. split; [by intros r; split|]. intros a b c [H1 H2] [H3 H4]. split; [auto|congruence]. Qed.

Lemma edits_set r k w r' : set r k w = Ok r' -> k <> "id" -> uniq w = true -> edits r r'.
Proof.
  intros Hs Hk Hw. split; [intros Hr; by apply (uniq_set _ _ _ _ Hs)|by eapply text_set_ne].
Qed.

Lemma edits_remove r k r' : remove r k = Ok r' -> k <> "id" -> edits r r'.
Proof. intros Hs Hk. split; [by apply (uniq_remove _ _ _ Hs)|by eapply text_remove_ne]. Qed.

Lemma edits_set_all kvs r r' :
  set_all r kvs = Ok r' -> Forall (fun kv => kv.1 <> "id" /\ uniq kv.2 = true) kvs -> edits r r'.
Proof.
  revert r. induction kvs as [|[k w] kvs IH]; intros r H Hf; cbn in H; [by injection H as <-|].
  apply Forall_cons in Hf as [[Hk Hw] Hf]. destruct (set r k w) as [r1|] eqn:E; [|done]. cbn in H.
  etrans; [by eapply edits_set|by eapply IH].
Qed.

Lemma edits_remove_all ks r r' : remove_all r ks = Ok r' -> "id" ∉ ks -> edits r r'.
Proof.
  revert r. induction ks as [|k ks IH]; intros r H Hf; cbn in H; [by injection H as <-|].
  apply not_elem_of_cons in Hf as [Hk Hf]. destruct (remove r k) as [r1|] eqn:E; [|done]. cbn in H.
  etrans; [by eapply edits_remove|by eapply IH].
Qed.

#[export] Hint Extern 1 (uniq (VString _) = true) => reflexivity : stulp.
#[export] Hint Extern 1 (uniq (VBool _) = true) => reflexivity : stulp.
#[export] Hint Extern 1 (uniq (VArray []) = true) => reflexivity : stulp.
#[export] Hint Extern 1 (uniq (value_uint _) = true) => reflexivity : stulp.
#[export] Hint Extern 1 (uniq object = true) => reflexivity : stulp.

(** ** Copying a collection *)

Lemma push_all_bound {A B} (f : A -> Result B) max xs out out' :
  push_all f max xs out = Ok out' -> Z.of_nat (length out) <= max -> Z.of_nat (length out') <= max.
Proof.
  intros (ys & HF & -> & [->|H])%push_all_Ok Hl; [|done].
  apply Forall2_nil_inv_l in HF as ->. by rewrite app_nil_r.
Qed.

Lemma sublist_Forall {A} (P : A -> Prop) l k : l `sublist_of` k -> Forall P k -> Forall P l.
Proof. rewrite !Forall_forall. intros Hs Hk x Hx. by eapply Hk, elem_of_sublist. Qed.

Lemma sublist_map {A B} (f : A -> B) l k : l `sublist_of` k -> map f l `sublist_of` map f k.
Proof. induction 1; by constructor. Qed.

Lemma ids_app a b : ids (a ++ b) = ids a ++ ids b.
Proof. apply map_app. Qed.

Lemma ids_filter_sub p rs : ids (List.filter p rs) `sublist_of` ids rs.
Proof.
  induction rs as [|r rs IH]; [constructor|]. cbn. destruct (p r); [by constructor|by constructor].
Qed.

Lemma records_ok_sublist rs rs' : records_ok rs -> ids rs' `sublist_of` ids rs -> records_ok rs'.
Proof.
  intros (Hl & Hne & Hnd) Hs. split_and!.
  - apply sublist_length in Hs. unfold ids in Hs. rewrite !length_map in Hs. lia.
  - by eapply sublist_Forall.
  - by eapply sublist_NoDup.
Qed.

Lemma ids_Permutation a b : a ≡ₚ b -> ids a ≡ₚ ids b.
Proof. intros H. unfold ids. by rewrite H. Qed.

Lemma others_Ok d c id rs : others d c id = Ok rs -> rs = List.filter (fun r => negb (id_is id r)) (records d c).
Proof. intros H. by apply push_all_id in H. Qed.

Lemma others_id d c id rs : others d c id = Ok rs -> id ∉ ids rs.
Proof.
  intros ->%others_Ok (r & Hr & Hi)%list_elem_of_fmap. apply list_elem_of_In, filter_In in Hi as [_ Hi].
  unfold id_is in Hi. by rewrite Hr, String.eqb_refl in Hi.
Qed.

Lemma filter_sublist {A} (p : A -> bool) l : List.filter p l `sublist_of` l.
Proof. induction l as [|x l IH]; cbn; [constructor|]. destruct (p x); by constructor. Qed.

Lemma filter_length_le {A} (f : A -> bool) l : (length (List.filter f l) <= length l)%nat.
Proof. induction l as [|x l IH]; cbn; [lia|]. destruct (f x); cbn; lia. Qed.

Lemma filter_shrinks {A} (f g : A -> bool) l x :
  (forall y, y ∈ l -> g y = true -> f y = true) -> x ∈ l -> f x = true -> g x = false ->
  (length (List.filter g l) < length (List.filter f l))%nat.
Proof.
  induction l as [|y l IH]; intros Hfg Hx Hf Hg; [by apply not_elem_of_nil in Hx|].
  assert (forall z, z ∈ l -> g z = true -> f z = true) as Hl by (intros; apply Hfg; [by right|done]).
  assert (length (List.filter g l) <= length (List.filter f l))%nat as Hle.
  { clear -Hl. induction l as [|z l IHl]; [done|]. cbn. pose proof (Hl z ltac:(by left)).
    specialize (IHl ltac:(intros; apply Hl; [by right|done])). destruct (g z); [rewrite H by done; cbn; lia|].
    destruct (f z); cbn; lia. }
  apply elem_of_cons in Hx as [->|Hx]; cbn.
  - rewrite Hf, Hg. cbn. lia.
  - specialize (IH Hl Hx Hf Hg). pose proof (Hfg y ltac:(by left)). destruct (g y); [rewrite H by done; cbn; lia|].
    destruct (f y); cbn; lia.
Qed.

Lemma filter_elem {A} (p : A -> bool) l x : x ∈ List.filter p l <-> x ∈ l /\ p x = true.
Proof. by rewrite !list_elem_of_In, filter_In. Qed.

(** [find_id] on a list with distinct ids. *)
Lemma find_id_Some id rs r : find_id id rs = Some r -> r ∈ rs /\ text r "id" = id.
Proof. intros [Hi Hb]%find_some. split; [by apply list_elem_of_In|]. by apply String.eqb_eq. Qed.

Lemma find_id_elem rs r : NoDup (ids rs) -> r ∈ rs -> find_id (text r "id") rs = Some r.
Proof.
  intros Hnd Hr. destruct (find_id (text r "id") rs) as [r'|] eqn:E.
  - apply find_id_Some in E as [Hr' Hid]. f_equal.
    apply list_elem_of_lookup in Hr as [i Hi]. apply list_elem_of_lookup in Hr' as [j Hj].
    assert (i = j) as ->; [|congruence].
    eapply NoDup_lookup; [exact Hnd|unfold ids; rewrite list_lookup_fmap, Hi; done|].
    unfold ids. rewrite list_lookup_fmap, Hj. cbn. by rewrite Hid.
  - exfalso. apply list_elem_of_In in Hr. pose proof (find_none _ _ E r Hr) as Hf. cbn beta in Hf. by rewrite String.eqb_refl in Hf.
Qed.

Lemma find_id_None id rs : find_id id rs = None <-> id ∉ ids rs.
Proof.
  split.
  - intros Hf (r & -> & Hr)%list_elem_of_fmap. apply list_elem_of_In in Hr.
    pose proof (find_none _ _ Hf r Hr) as Hn. cbn beta in Hn. by rewrite String.eqb_refl in Hn.
  - intros Hn. destruct (find_id id rs) as [r|] eqn:E; [|done]. exfalso.
    apply find_id_Some in E as [Hr <-]. apply Hn. apply list_elem_of_fmap. by exists r.
Qed.

Lemma record_Ok d c id r : record d c id = Ok r <-> find_id id (records d c) = Some r.
Proof. unfold record, ok_or. destruct (find_id _ _); split; congruence. Qed.

Lemma record_is_ok d c id : is_ok (record d c id) = true <-> id ∈ ids (records d c).
Proof.
  unfold record, ok_or. pose proof (find_id_None id (records d c)) as Hn.
  destruct (find_id id (records d c)) as [r|] eqn:E; cbn.
  - split; [|done]. intros _. apply find_id_Some in E as [Hr <-]. apply list_elem_of_fmap. by exists r.
  - split; [done|]. tauto.
Qed.

Lemma record_props d c id r :
  doc_ok d -> record d c id = Ok r -> uniq r = true /\ text r "id" = id /\ r ∈ records d c.
Proof.
  intros Hd [Hr Hid]%record_Ok%find_id_Some. split_and!; [|done|done].
  pose proof (records_uniq d c (do_uniq _ Hd)) as Hu. rewrite Forall_forall in Hu. auto.
Qed.

Lemma records_ne d d' c : get (root d') c = get (root d) c -> records d' c = records d c.
Proof. intros H. unfold records, array. by rewrite H. Qed.

(** ** [replace_record] and [remove_record] *)

Lemma insert_newest_perm r l : insert_newest r l ≡ₚ r :: l.
Proof. induction l as [|t l IH]; [done|]. cbn. destruct (str_leb _ _); [done|]. rewrite IH. apply Permutation_swap. Qed.

Lemma sort_newest_perm l : sort_newest l ≡ₚ l.
Proof. induction l as [|r l IH]; [done|]. cbn. by rewrite insert_newest_perm, IH. Qed.

Lemma records_ok_others d c id rs :
  doc_ok d -> c ∈ COLLECTIONS -> others d c id = Ok rs ->
  records_ok rs /\ Forall (fun r => uniq r = true) rs /\ (c = "devices" -> Forall clean rs).
Proof.
  intros Hd Hc ->%others_Ok. destruct (doc_records d c Hd Hc) as [_ Hrs]. split_and!.
  - eapply records_ok_sublist; [exact Hrs|apply ids_filter_sub].
  - pose proof (records_uniq d c (do_uniq _ Hd)) as Hu. rewrite Forall_forall in Hu |- *.
    intros r [Hr _]%filter_elem. auto.
  - intros ->. pose proof (do_clean _ Hd) as Hu. rewrite Forall_forall in Hu |- *.
    intros r [Hr _]%filter_elem. auto.
Qed.

Lemma replace_record_ok d c r d' :
  doc_ok d -> c ∈ COLLECTIONS -> uniq r = true -> text r "id" <> EmptyString ->
  (c = "devices" -> clean r) -> replace_record d c r = Ok d' ->
  doc_ok d' /\ (forall k, k <> c -> get (root d') k = get (root d) k) /\
  (c <> "notifications" ->
   records d' c = List.filter (fun x => negb (id_is (text r "id") x)) (records d c) ++ [r]).
Proof.
  intros Hd Hc Hu Hid Hcl H. unfold replace_record in H.
  destruct (others d c (text r "id")) as [rs|] eqn:Eo; cbn [mbind result_bind] in H; [|done].
  destruct (push rs r MAX_RECORDS) as [rs1|] eqn:Ep; cbn [mbind result_bind] in H; [|done].
  apply push_Ok in Ep as [Hlen ->].
  pose proof (others_id _ _ _ _ Eo) as Hni. destruct (records_ok_others d c _ rs Hd Hc Eo) as ((H1 & H2 & H3) & Hu' & Hcl').
  assert (Hrs : records_ok (rs ++ [r])).
  { unfold records_ok. rewrite ids_app. split_and!.
    - rewrite length_app. cbn. lia.
    - apply Forall_app. split; [done|by repeat constructor].
    - apply NoDup_app. split_and!; [done| |apply NoDup_singleton].
      by intros x Hx ->%list_elem_of_singleton. }
  set (rs2 := if (c =? "notifications")%string then _ else _) in H.
  assert (Hsub : exists l, rs2 `sublist_of` l /\ l ≡ₚ rs ++ [r]).
  { unfold rs2. destruct (c =? "notifications")%string.
    - exists (sort_newest (rs ++ [r])). split; [apply sublist_take|apply sort_newest_perm].
    - by exists (rs ++ [r]). }
  destruct Hsub as (l & Hsl & Hl).
  assert (Hall : forall P : Value -> Prop, Forall P (rs ++ [r]) -> Forall P rs2).
  { intros P HP. eapply sublist_Forall; [exact Hsl|]. by rewrite Hl. }
  destruct (replace_ok d c rs2 d' Hd Hc) as (Hd' & Hrec & Hne).
  - apply (records_ok_sublist l); [|by apply sublist_map].
    destruct Hrs as (G1 & G2 & G3). unfold records_ok. by rewrite (ids_Permutation _ _ Hl), Hl.
  - apply Hall, Forall_app. split; [done|by repeat constructor].
  - intros Hdev. apply Hall, Forall_app. split; [auto|]. apply Forall_singleton. by apply Hcl.
  - exact H.
  - split_and!; [done|exact Hne|]. intros Hnot. rewrite Hrec. unfold rs2.
    apply String.eqb_neq in Hnot as ->. by rewrite (others_Ok _ _ _ _ Eo).
Qed.

Lemma remove_record_ok d c id d' :
  doc_ok d -> c ∈ COLLECTIONS -> remove_record d c id = Ok d' ->
  doc_ok d' /\ (forall k, k <> c -> get (root d') k = get (root d) k) /\
  records d' c = List.filter (fun x => negb (id_is id x)) (records d c).
Proof.
  intros Hd Hc H. unfold remove_record in H.
  destruct (others d c id) as [rs|] eqn:Eo; cbn [mbind result_bind] in H; [|done].
  destruct (records_ok_others d c _ rs Hd Hc Eo) as (Hrs & Hu & Hcl).
  destruct (replace_ok d c rs d' Hd Hc Hrs Hu Hcl H) as (Hd' & Hrec & Hne).
  split_and!; [done|done|]. by rewrite Hrec, (others_Ok _ _ _ _ Eo).
Qed.

(** What is found after a record was replaced. *)
Lemma record_after_replace d c r d' id :
  doc_ok d -> c ∈ COLLECTIONS -> c <> "notifications" -> uniq r = true -> text r "id" <> EmptyString ->
  (c = "devices" -> clean r) -> replace_record d c r = Ok d' ->
  record d' c id = if (text r "id" =? id)%string then Ok r else record d c id.
Proof.
  intros Hd Hc Hn Hu Hid Hcl H. destruct (replace_record_ok d c r d' Hd Hc Hu Hid Hcl H) as (Hd' & _ & Hrec).
  specialize (Hrec Hn). unfold record. rewrite Hrec.
  assert (Hfind : find_id id (List.filter (fun x => negb (id_is (text r "id") x)) (records d c) ++ [r]) =
                  if (text r "id" =? id)%string then Some r else find_id id (records d c)).
  { generalize (records d c) as rs. induction rs as [|x rs IH]; cbn.
    - by destruct (text r "id" =? id)%string.
    - unfold id_is at 1. destruct (String.eqb_spec (text x "id") (text r "id")) as [Hx|Hx]; cbn.
      + unfold find_id in IH. rewrite IH. rewrite Hx. by destruct (text r "id" =? id)%string.
      + unfold find_id in IH. rewrite IH. destruct (String.eqb_spec (text x "id") id) as [He|He]; [|done].
        destruct (String.eqb_spec (text r "id") id); [congruence|done]. }
  rewrite Hfind. by destruct (text r "id" =? id)%string.
Qed.

(** ** [reconcile] *)

Definition scene_key (sc : Value) : string := Scenes.device_id (text sc "id").

(** The fields of a scene device. *)
Definition scene_fields (sc : Value) : Object :=
  [("id", VString (scene_key sc)); ("appId", VString Scenes.APP_ID); ("driverId", VString "scene");
   ("class", VString "scene"); ("name", VString (text sc "name"));
   ("capabilities", VArray [VString (if (text sc "kind" =? "button")%string then "button" else "onoff")]);
   ("data", fields [("sceneId", VString (text sc "id"))])].

Lemma scene_device_fields sc dev : Scenes.scene_device sc dev = set_all dev (scene_fields sc).
Proof. done. Qed.

Lemma set_all_get kvs v v' k w :
  set_all v kvs = Ok v' -> NoDup (map fst kvs) -> (k, w) ∈ kvs -> get v' k = Some w.
Proof.
  revert v. induction kvs as [|[k' w'] kvs IH]; intros v H Hn Hi; [by apply not_elem_of_nil in Hi|].
  cbn in H, Hn. apply NoDup_cons in Hn as [Hk Hn]. destruct (set v k' w') as [v1|] eqn:E; [|done]. cbn in H.
  apply elem_of_cons in Hi as [[= -> ->]|Hi]; [|by eapply IH].
  assert (Hrest : forall kvs v1 v', set_all v1 kvs = Ok v' -> k' ∉ map fst kvs -> get v' k' = get v1 k').
  { clear. intros kvs. induction kvs as [|[a b] kvs IH]; intros v1 v' H Hk; cbn in *; [by injection H as <-|].
    apply not_elem_of_cons in Hk as [Ha Hk]. destruct (set v1 a b) as [v2|] eqn:E; [|done]. cbn in H.
    rewrite (IH _ _ H Hk). eapply get_set_ne; [exact E|congruence]. }
  rewrite (Hrest _ _ _ H Hk). by eapply get_set_eq.
Qed.

Lemma set_all_get_ne kvs v v' k : set_all v kvs = Ok v' -> k ∉ map fst kvs -> get v' k = get v k.
Proof.
  revert v. induction kvs as [|[a b] kvs IH]; intros v H Hk; cbn in *; [by injection H as <-|].
  apply not_elem_of_cons in Hk as [Ha Hk]. destruct (set v a b) as [v2|] eqn:E; [|done]. cbn in H.
  rewrite (IH _ H Hk). eapply get_set_ne; [exact E|congruence].
Qed.

Lemma set_all_uniq kvs v v' :
  set_all v kvs = Ok v' -> Forall (fun kv => uniq kv.2 = true) kvs -> uniq v = true -> uniq v' = true.
Proof.
  revert v. induction kvs as [|[a b] kvs IH]; intros v H Hf Hv; cbn in *; [by injection H as <-|].
  apply Forall_cons in Hf as [Hb Hf]. destruct (set v a b) as [v2|] eqn:E; [|done]. cbn in H.
  eapply IH; [exact H|done|]. by apply (uniq_set _ _ _ _ E).
Qed.

Lemma nodup_strings (l : list string) : nodup_keys l = true -> NoDup l.
Proof. apply nodup_keys_NoDup. Qed.

Lemma clean_ext r r' :
  clean r -> (forall k, k ∈ "store" :: OBSERVED -> get r' k = get r k) -> clean r'.
Proof.
  intros [Hf Hs] Heq. split.
  - rewrite Forall_forall in Hf |- *. intros k Hk. rewrite Heq by (by right). auto.
  - intros st. rewrite Heq by (by left). auto.
Qed.

Lemma clean_set r k w r' : clean r -> set r k w = Ok r' -> k ∉ "store" :: OBSERVED -> clean r'.
Proof.
  intros Hc Hs Hk. eapply clean_ext; [exact Hc|]. intros k' Hk'. eapply get_set_ne; [exact Hs|congruence].
Qed.

Lemma scene_device_ok sc dev dev' :
  uniq dev = true -> clean dev -> Scenes.scene_device sc dev = Ok dev' ->
  uniq dev' = true /\ clean dev' /\ text dev' "id" = scene_key sc /\ text dev' "appId" = Scenes.APP_ID.
Proof.
  rewrite scene_device_fields. intros Hu Hc H.
  assert (Hn : NoDup (map fst (scene_fields sc))) by (by apply nodup_strings).
  assert (Hg : forall k w, (k, w) ∈ scene_fields sc -> get dev' k = Some w) by (intros k w; by eapply set_all_get).
  split_and!.
  - eapply set_all_uniq; [exact H| |done]. by repeat constructor.
  - eapply clean_ext; [exact Hc|]. intros k Hk. eapply set_all_get_ne; [exact H|].
    vm_compute in Hk |- *. set_solver.
  - unfold text. rewrite (Hg "id" (VString (scene_key sc))); [done|]. by left.
  - unfold text. rewrite (Hg "appId" (VString Scenes.APP_ID)); [done|]. right. by left.
Qed.

Lemma scene_device_of_ok d sc dev' :
  doc_ok d -> Scenes.scene_device_of d sc = Ok dev' ->
  uniq dev' = true /\ clean dev' /\ text dev' "id" = scene_key sc /\ text dev' "appId" = Scenes.APP_ID /\
  (forall r, record d "devices" (scene_key sc) = Ok r -> text r "appId" = Scenes.APP_ID).
Proof.
  intros Hd H. unfold Scenes.scene_device_of in H. fold (scene_key sc) in H.
  destruct (record d "devices" (scene_key sc)) as [dev|] eqn:Er.
  - destruct (String.eqb_spec (text dev "appId") Scenes.APP_ID) as [Ha|]; cbn [mbind result_bind] in H; [|done].
    destruct (record_props _ _ _ _ Hd Er) as (Hu & _ & Hin).
    pose proof (do_clean _ Hd) as Hc. rewrite Forall_forall in Hc.
    destruct (scene_device_ok sc dev dev' Hu (Hc _ Hin) H) as (H1 & H2 & H3 & H4).
    split_and!; try done. by intros r [= <-].
  - cbn [mbind result_bind] in H.
    assert (Hc : clean object) by (split; [by repeat constructor|done]).
    destruct (scene_device_ok sc object dev' eq_refl Hc H) as (H1 & H2 & H3 & H4). by split_and!.
Qed.

Lemma device_id_inj a b : Scenes.device_id a = Scenes.device_id b -> a = b.
Proof. unfold Scenes.device_id. cbn. intros H. injection H as H. exact H. Qed.

(** The devices after [reconcile]: those of other apps, then one for each scene. *)
Lemma reconcile_ok d d' :
  doc_ok d -> Scenes.reconcile d = Ok d' ->
  doc_ok d' /\ (forall k, k <> "devices" -> get (root d') k = get (root d) k) /\
  exists devs, Forall2 (fun sc dev => Scenes.scene_device_of d sc = Ok dev) (records d "scenes") devs /\
    records d' "devices" =
      List.filter (fun dev => negb (Scenes.is_scene_device dev)) (records d "devices") ++ devs.
Proof.
  intros Hd H. unfold Scenes.reconcile in H. set (kept := List.filter _ (records d "devices")) in *.
  destruct (push_all Ok MAX_RECORDS kept []) as [k|] eqn:Ek; cbn [mbind result_bind] in H; [|done].
  assert (k = kept) as -> by (by apply push_all_id in Ek).
  destruct (push_all (Scenes.scene_device_of d) MAX_RECORDS (records d "scenes") kept) as [all|] eqn:Ea;
    cbn [mbind result_bind] in H; [|done].
  pose proof (push_all_bound _ _ _ _ _ Ek ltac:(cbn; unfold MAX_RECORDS; lia)) as Hlk.
  pose proof (push_all_bound _ _ _ _ _ Ea Hlk) as Hla.
  apply push_all_Ok in Ea as (devs & HF & -> & _).
  destruct (doc_records d "devices" Hd) as [_ Hdev]; [by right; left|].
  destruct (doc_records d "scenes" Hd) as [_ (_ & _ & Hsn)]; [vm_compute; set_solver|].
  assert (Hk : records_ok kept) by (eapply records_ok_sublist; [exact Hdev|apply ids_filter_sub]).
  assert (Hprops : Forall2 (fun sc dev => uniq dev = true /\ clean dev /\ text dev "id" = scene_key sc /\
            text dev "appId" = Scenes.APP_ID /\
            (forall r, record d "devices" (scene_key sc) = Ok r -> text r "appId" = Scenes.APP_ID))
            (records d "scenes") devs).
  { eapply Forall2_impl; [exact HF|]. intros sc dev. by apply scene_device_of_ok. }
  assert (Hown : forall sc, sc ∈ records d "scenes" ->
    forall r, record d "devices" (scene_key sc) = Ok r -> text r "appId" = Scenes.APP_ID).
  { apply (proj1 (Forall_forall (fun sc => forall r, record d "devices" (scene_key sc) = Ok r ->
      text r "appId" = Scenes.APP_ID) _)). clear - Hprops.
    induction Hprops as [|sc dev l k (_ & _ & _ & _ & Hx) _ IH]; constructor; auto. }
  assert (Hids : ids devs = map scene_key (records d "scenes")).
  { clear - Hprops. induction Hprops as [|sc dev l k (_ & _ & Hid & _) _ IH]; [done|].
    unfold ids in *. cbn [map]. by rewrite Hid, IH. }
  assert (Hall : forall P : Value -> Prop,
    (forall sc dev, uniq dev = true /\ clean dev /\ text dev "id" = scene_key sc -> P dev) -> Forall P devs).
  { intros P HP. clear - Hprops HP. induction Hprops as [|sc dev l k (? & ? & ? & _) _ IH]; constructor; eauto. }
  destruct (replace_ok d "devices" (kept ++ devs) d' Hd) as (Hd' & Hrec & Hne); [by right; left| | | |exact H|].
  - destruct Hk as (_ & Hk2 & Hk3). split_and!; [done| |].
    + rewrite ids_app, Hids. apply Forall_app. split; [done|]. apply Forall_map, Forall_forall. by intros sc _.
    + rewrite ids_app, Hids. apply NoDup_app. split_and!; [done| |].
      * intros id (r & -> & [Hr Hb]%filter_elem)%list_elem_of_fmap (sc & Hsc & Hin)%list_elem_of_fmap.
        specialize (Hown sc Hin r).
        unfold Scenes.is_scene_device in Hb. rewrite Hown, String.eqb_refl in Hb; [done|].
        apply record_Ok. rewrite <-Hsc. apply find_id_elem; [apply Hdev|done].
      * unfold ids in Hsn. clear - Hsn. induction (records d "scenes") as [|sc l IH]; [constructor|].
        cbn in Hsn |- *. apply NoDup_cons in Hsn as [Hn Hnd]. apply NoDup_cons. split; [|auto].
        intros (sc' & Heq & Hi)%list_elem_of_fmap. apply device_id_inj in Heq. apply Hn.
        apply list_elem_of_fmap. by exists sc'.
  - apply Forall_app. split; [|apply Hall; tauto].
    pose proof (records_uniq d "devices" (do_uniq _ Hd)) as Hu. rewrite Forall_forall in Hu |- *.
    intros r [Hr _]%filter_elem. auto.
  - intros _. apply Forall_app. split; [|apply Hall; tauto].
    pose proof (do_clean _ Hd) as Hu. rewrite Forall_forall in Hu |- *. intros r [Hr _]%filter_elem. auto.
  - split_and!; [done|done|]. by exists devs.
Qed.

(** ** Changing every record of a collection *)

Lemma map_records_ok d c f rs d' :
  doc_ok d -> c ∈ COLLECTIONS -> push_all f MAX_RECORDS (records d c) [] = Ok rs ->
  (forall r r', r ∈ records d c -> f r = Ok r' -> edits r r' /\ (c = "devices" -> clean r -> clean r')) ->
  replace d c rs = Ok d' ->
  doc_ok d' /\ (forall k, k <> c -> get (root d') k = get (root d) k) /\
  Forall2 (fun r r' => f r = Ok r') (records d c) (records d' c).
Proof.
  intros Hd Hc Hp Hf H. apply push_all_Ok in Hp as (ys & HF & -> & _). cbn [app] in H.
  destruct (doc_records d c Hd Hc) as [_ (H1 & H2 & H3)].
  pose proof (records_uniq d c (do_uniq _ Hd)) as Hu.
  assert (Hcl : c = "devices" -> Forall clean (records d c)) by (intros ->; apply do_clean, Hd).
  assert (Hys : ids ys = ids (records d c) /\ length ys = length (records d c) /\
            Forall (fun r => uniq r = true) ys /\ (c = "devices" -> Forall clean ys)).
  { clear H H1 H2 H3. revert Hf Hu Hcl. generalize (records d c) ys HF. clear HF ys.
    intros rs ys HF. induction HF as [|r r' rs ys Hr _ IH]; intros Hf Hu Hcl.
    { split_and!; [done|done|constructor|constructor]. }
    apply Forall_cons in Hu as [Hur Hu].
    destruct IH as (G1 & G2 & G3 & G4); [intros; apply Hf; [by right|done]|done|by intros Hx; specialize (Hcl Hx); inversion Hcl|].
    destruct (Hf r r') as [[He1 He2] He3]; [by left|done|].
    unfold ids in *. cbn [map length]. rewrite He2, G1, G2. split_and!; [done|done|constructor; auto|].
    intros Hx. specialize (Hcl Hx). inversion Hcl; subst. constructor; auto. }
  destruct Hys as (Hids & Hlen & Hu' & Hcl').
  destruct (replace_ok d c ys d' Hd Hc) as (Hd' & Hrec & Hne); [|done|done|done|].
  - unfold records_ok. by rewrite Hids, Hlen.
  - split_and!; [done|done|]. by rewrite Hrec.
Qed.

Lemma filter_records_ok d c p rs d' :
  doc_ok d -> c ∈ COLLECTIONS -> push_all Ok MAX_RECORDS (List.filter p (records d c)) [] = Ok rs ->
  replace d c rs = Ok d' ->
  doc_ok d' /\ (forall k, k <> c -> get (root d') k = get (root d) k) /\
  records d' c = List.filter p (records d c).
Proof.
  intros Hd Hc ->%push_all_id H. cbn [app] in H. destruct (doc_records d c Hd Hc) as [_ Hrs].
  destruct (replace_ok d c (List.filter p (records d c)) d' Hd Hc) as (Hd' & Hrec & Hne); [| | |done|done].
  - eapply records_ok_sublist; [exact Hrs|apply ids_filter_sub].
  - pose proof (records_uniq d c (do_uniq _ Hd)) as Hu. rewrite Forall_forall in Hu |- *.
    intros r [Hr _]%filter_elem. auto.
  - intros ->. pose proof (do_clean _ Hd) as Hu. rewrite Forall_forall in Hu |- *.
    intros r [Hr _]%filter_elem. auto.
Qed.

Lemma set_settings_ok d key v d' :
  doc_ok d -> key ∈ SETTINGS -> uniq v = true -> (exists o, v = VObject o) -> doc_set d key v = Ok d' ->
  doc_ok d' /\ (forall k, k <> key -> get (root d') k = get (root d) k) /\ get (root d') key = Some v.
Proof.
  intros [H1 H2 H3 H4 H5] Hk Hu [o ->] Hs%doc_set_Ok.
  assert (Hne : forall k, k <> key -> get (root d') k = get (root d) k)
    by (intros k Hkk; eapply get_set_ne; [exact Hs|congruence]).
  split_and!; [|exact Hne|by eapply get_set_eq].
  split.
  - by apply (uniq_set _ _ _ _ Hs).
  - rewrite Hne; [done|]. intros <-. vm_compute in Hk. set_solver.
  - intros c Hc. rewrite Hne; [by apply H3|]. intros <-. clear - Hc Hk. vm_compute in Hc, Hk. set_solver.
  - intros k Hkk. destruct (decide (k = key)) as [->|Hkey].
    + exists o. by eapply get_set_eq.
    + rewrite Hne by done. by apply H4.
  - unfold records, array. rewrite Hne; [exact H5|]. intros <-. vm_compute in Hk. set_solver.
Qed.

(** ** [lift_children] *)

Lemma lift_record_edits key id parent r r' :
  key <> "id" -> Groups.lift_record key id parent r = Ok r' -> edits r r'.
Proof.
  intros Hk H. unfold Groups.lift_record in H. destruct (_ =? _)%string; [|by injection H as <-].
  by eapply edits_set.
Qed.

Lemma lift_ok d c key id parent d' :
  doc_ok d -> c ∈ COLLECTIONS -> key ∉ "id" :: "store" :: OBSERVED ->
  Groups.lift d c key id parent = Ok d' ->
  doc_ok d' /\ (forall k, k <> c -> get (root d') k = get (root d) k) /\
  Forall2 (fun r r' => Groups.lift_record key id parent r = Ok r') (records d c) (records d' c).
Proof.
  intros Hd Hc Hk H. apply not_elem_of_cons in Hk as [Hki Hk]. unfold Groups.lift in H.
  destruct (push_all _ _ _ _) as [rs|] eqn:Ep; cbn [mbind result_bind] in H; [|done].
  eapply map_records_ok; [done|done|exact Ep| |exact H].
  intros r r' _ Hr. split; [by eapply lift_record_edits|]. intros _ Hcl.
  unfold Groups.lift_record in Hr. destruct (_ =? _)%string; [|by injection Hr as <-]. by eapply clean_set.
Qed.

Lemma lift_children_ok d id d' :
  doc_ok d -> Groups.lift_children d id = Ok d' ->
  doc_ok d' /\ exists g, record d "deviceGroups" id = Ok g /\
    Forall2 (fun r r' => Groups.lift_record "parentId" id (text g "parentId") r = Ok r')
      (records d "deviceGroups") (records d' "deviceGroups") /\
    Forall2 (fun r r' => Groups.lift_record "groupId" id (text g "parentId") r = Ok r')
      (records d "devices") (records d' "devices") /\
    (forall k, k <> "deviceGroups" -> k <> "devices" -> get (root d') k = get (root d) k).
Proof.
  intros Hd H. unfold Groups.lift_children in H.
  destruct (record d "deviceGroups" id) as [g|] eqn:Eg; cbn [mbind result_bind] in H; [|done].
  destruct (Groups.lift d "deviceGroups" "parentId" id (text g "parentId")) as [d1|] eqn:E1;
    cbn [mbind result_bind] in H; [|done].
  apply lift_ok in E1 as (Hd1 & Hne1 & HF1); [|done|vm_compute; set_solver|vm_compute; set_solver].
  apply lift_ok in H as (Hd' & Hne2 & HF2); [|done|vm_compute; set_solver|vm_compute; set_solver].
  split; [done|]. exists g. split; [done|]. split_and!.
  - rewrite (records_ne d1 d' "deviceGroups") by (by apply Hne2). exact HF1.
  - rewrite <-(records_ne d d1 "devices") by (by apply Hne1). exact HF2.
  - intros k Hk1 Hk2. rewrite Hne2, Hne1 by done. done.
Qed.

(** ** [uninstall] *)

Lemma disable_flow_edits d app f f' : disable_flow d app f = Ok f' -> edits f f'.
Proof.
  unfold disable_flow. intros H. destruct (references_app d f app); [|by injection H as <-].
  destruct (set f "enabled" _) as [f1|] eqn:E1; cbn [mbind result_bind] in H; [|done].
  destruct (set f1 "lastError" _) as [f2|] eqn:E2; cbn [mbind result_bind] in H; [|done].
  destruct (checked_add _ _) as [n|]; cbn [mbind result_bind ok_or] in H; [|done].
  etrans; [by eapply edits_set|]. etrans; [by eapply edits_set|]. by eapply edits_set.
Qed.

Lemma forget_app_ok d key app d' :
  doc_ok d -> key ∈ SETTINGS -> forget_app d key app = Ok d' ->
  doc_ok d' /\ (forall k, k <> key -> get (root d') k = get (root d) k) /\
  exists v, get (root d') key = Some v /\ get v app = None.
Proof.
  intros Hd Hk H. unfold forget_app in H.
  destruct (do_settings _ Hd key Hk) as [o Hg]. rewrite Hg in H. cbn [ok_or mbind result_bind] in H.
  destruct (remove (VObject o) app) as [v|] eqn:Er; cbn [mbind result_bind] in H; [|done].
  assert (Huo : uniq (VObject o) = true) by (eapply uniq_get; [exact (do_uniq _ Hd)|exact Hg]).
  apply set_settings_ok in H as (Hd' & Hne & Hget); [|done|done|by apply (uniq_remove _ _ _ Er)|].
  - split_and!; [done|done|]. exists v. split; [done|]. by apply (get_remove_eq _ _ _ Er).
  - apply remove_Ok in Er as (o' & _ & ->). by eexists.
Qed.

Lemma uninstall_ok d app d' :
  doc_ok d -> uninstall d app = Ok d' ->
  doc_ok d' /\
  Forall2 (fun f f' => disable_flow d app f = Ok f') (records d "flows") (records d' "flows") /\
  records d' "devices" = List.filter (fun dev => negb (text dev "appId" =? app)%string) (records d "devices") /\
  (forall key, key = "appSettings" \/ key = "appState" -> exists v, get (root d') key = Some v /\ get v app = None) /\
  (forall k, k ∉ ["flows"; "devices"; "appSettings"; "appState"] -> get (root d') k = get (root d) k).
Proof.
  intros Hd H. unfold uninstall in H.
  destruct (push_all (disable_flow d app) _ _ _) as [fl|] eqn:Ef; cbn [mbind result_bind] in H; [|done].
  destruct (replace d "flows" fl) as [d1|] eqn:E1; cbn [mbind result_bind] in H; [|done].
  apply (map_records_ok d "flows" (disable_flow d app)) in E1 as (Hd1 & Hne1 & HF);
    [|done|vm_compute; set_solver|done|intros f f' _ Hf; split; [by eapply disable_flow_edits|done]].
  destruct (push_all Ok _ _ _) as [dv|] eqn:Ed; cbn [mbind result_bind] in H; [|done].
  destruct (replace d1 "devices" dv) as [d2|] eqn:E2; cbn [mbind result_bind] in H; [|done].
  eapply filter_records_ok in E2 as (Hd2 & Hne2 & Hrec2); [|done|vm_compute; set_solver|exact Ed].
  destruct (forget_app d2 "appSettings" app) as [d3|] eqn:E3; cbn [mbind result_bind] in H; [|done].
  apply forget_app_ok in E3 as (Hd3 & Hne3 & v3 & Hg3 & Hv3); [|done|vm_compute; set_solver].
  apply forget_app_ok in H as (Hd4 & Hne4 & v4 & Hg4 & Hv4); [|done|vm_compute; set_solver].
  split; [done|]. split_and!.
  - rewrite (records_ne d1 d' "flows") by (by rewrite Hne4, Hne3, Hne2). exact HF.
  - rewrite (records_ne d2 d' "devices") by (by rewrite Hne4, Hne3).
    rewrite Hrec2. by rewrite (records_ne d d1 "devices") by (by apply Hne1).
  - intros key [->| ->]; [exists v3; by rewrite Hne4|by exists v4].
  - intros k Hk. repeat (apply not_elem_of_cons in Hk as [? Hk]). by rewrite Hne4, Hne3, Hne2, Hne1.
Qed.
