(* ===== verification/StoreInv.v ===== *)
(** * StoreInv: what every operation of the store keeps

    The operations as one type [Op] with its step [run_op], and the properties all of them
    share: a failed operation changes nothing in memory, the document only becomes what the
    storage has acknowledged, and the invariant [store_ok] of the owner holds. *)

From Stdlib Require Import ZArith Lia Ascii String.
From S2P Require Import Prelude Text Errors Slots Float Value Json Time Document Stats Store StoreDoc References Media.
From S2P Require Flow Scenes Groups Triggers Manifest.

Local Open Scope Z_scope.

Section Inv.
Context {St : Type} {HS : Storage St}.

(** ** The operations *)

Inductive Op :=
| OpPut (collection : string) (r : Value) (create : bool) (revision : option Z) (now : string)
| OpDelete (collection id : string)
| OpSetting (app key : string) (value : option Value)
| OpAppState (app : string) (value : Value)
| OpSystem (value : Value)
| OpFlowResult (id ran_at error now : string)
| OpObserve (app id : string) (state : Value) (available : bool) (message : string)
| OpBeginScene (id : string) (previous : list Value)
| OpSceneRemaining (id : string) (remaining : list Value)
| OpReorder (group : string) (ids : list string)
| OpTrigger (app : string) (params : Value)
| OpReplaceReferences (app : string) (replacements : Value) (now : string)
| OpConsolidate (app : string) (merged replacements : Value) (now : string)
| OpRegisterMedia (app : string) (params : Value)
| OpShareImage (id dev slot : string) (now : Z)
| OpAnnounce (id : string) (manifest : Value)
| OpSetAppStatus (id state : string)
| OpSetAppRuntime (id : string) (details : Value)
| OpRestore (bytes : list Z)
| OpConfigure (lang tz : string)
| OpTick (unix_ms : Z)
| OpTakeTrigger
| OpTakeSceneTrip
| OpTakeStatisticsFault.

Definition voidM {A} (m : M (St := St) A) : M (St := St) unit := let* _ := m in retM tt.

Definition run_op (op : Op) : M (St := St) unit :=
  match op with
  | OpPut c r create rev now => put c r create rev now
  | OpDelete c id => delete c id
  | OpSetting app key v => setting app key v
  | OpAppState app v => app_state app v
  | OpSystem v => system v
  | OpFlowResult id ran err now => flow_result id ran err now
  | OpObserve app id st av msg => observe app id st av msg
  | OpBeginScene id prev => voidM (begin_scene id prev)
  | OpSceneRemaining id rem => scene_remaining id rem
  | OpReorder g ids => reorder_devices g ids
  | OpTrigger app p => trigger app p
  | OpReplaceReferences app rs now => replace_references app rs now
  | OpConsolidate app m rs now => consolidate_devices app m rs now
  | OpRegisterMedia app p => register_media app p
  | OpShareImage id dev slot now => voidM (share_image id dev slot now)
  | OpAnnounce id m => announce id m
  | OpSetAppStatus id st => set_app_status id st
  | OpSetAppRuntime id d => set_app_runtime id d
  | OpRestore bs => restore bs
  | OpConfigure l t => configure l t
  | OpTick t => modifyM (store_tick t)
  | OpTakeTrigger => modifyM (fun s => (take_trigger s).2)
  | OpTakeSceneTrip => modifyM (fun s => (take_scene_trip s).2)
  | OpTakeStatisticsFault => modifyM (fun s => (take_statistics_fault s).2)
  end.

(** ** Shapes of operations *)

(** At most one save: the document is the candidate when the storage took it, and the old one
    when it did not. *)
Inductive saved (s s' : Store St) : bool -> Prop :=
| no_save b : document s' = document s -> storage s' = storage s -> saved s s' b
| save_taken bs : encode (document s') = Ok bs -> storage_save bs (storage s) = (Ok tt, storage s') -> saved s s' true
| save_failed c bs e : document s' = document s -> encode c = Ok bs ->
    storage_save bs (storage s) = (Err e, storage s') -> saved s s' false.

(** [m] leaves memory alone when it fails, and a document it leaves was just saved. *)
Definition atomic {A} (m : M (St := St) A) : Prop := forall s r s', m s = (r, s') ->
  saved s s' (is_ok r) /\ match r with Err _ => s' = with_storage s (storage s') | Ok _ => True end.

(** [m] only reads. *)
Definition reads_only {A} (m : M (St := St) A) : Prop := forall s r s', m s = (r, s') -> s' = s.

(** [m] always succeeds and does not touch document and storage. *)
Definition total {A} (m : M (St := St) A) : Prop := forall s, exists a s', m s = (Ok a, s') /\
  document s' = document s /\ storage s' = storage s.

Lemma with_storage_id (s : Store St) : with_storage s (storage s) = s.
Proof. by destruct s. Qed.

Lemma with_storage_twice (s : Store St) a b : with_storage (with_storage s a) b = with_storage s b.
Proof. done. Qed.

Lemma reads_only_lift {A} (r : Result A) : reads_only (liftR r).
Proof. by intros s r' s' [= _ <-]. Qed.

Lemma reads_only_get : reads_only getM.
Proof. by intros s r' s' [= _ <-]. Qed.

Lemma reads_atomic {A} (m : M (St := St) A) : reads_only m -> atomic m.
Proof.
  intros Hr s r s' H. apply Hr in H as ->. split; [by apply no_save|]. destruct r; [done|]. by rewrite with_storage_id.
Qed.

Lemma atomic_ret {A} (a : A) : atomic (retM a).
Proof. apply reads_atomic. by intros s r s' [= _ <-]. Qed.

Lemma atomic_lift {A} (r : Result A) : atomic (liftR r).
Proof. apply reads_atomic, reads_only_lift. Qed.

Lemma total_modify f :
  (forall s : Store St, document (f s) = document s /\ storage (f s) = storage s) -> total (modifyM f).
Proof. intros Hf s. exists tt, (f s). split; [done|]. apply Hf. Qed.

Lemma total_atomic {A} (m : M (St := St) A) : total m -> atomic m.
Proof.
  intros Ht s r s' H. destruct (Ht s) as (a & s1 & Hm & Hd & Hst). rewrite Hm in H. injection H as <- <-.
  split; [by apply no_save|done].
Qed.

Lemma atomic_bind_read {A B} (m : M (St := St) A) (k : A -> M B) :
  reads_only m -> (forall a, atomic (k a)) -> atomic (bindM m k).
Proof.
  intros Hm Hk s r s' H. unfold bindM in H. destruct (m s) as [[a|e] s1] eqn:E.
  - apply Hm in E as ->. by eapply Hk.
  - apply Hm in E as ->. injection H as <- <-. split; [by apply no_save|]. by rewrite with_storage_id.
Qed.

Lemma atomic_bind_total {A B} (m : M (St := St) A) (k : A -> M B) :
  atomic m -> (forall a, total (k a)) -> atomic (bindM m k).
Proof.
  intros Hm Hk s r s' H. unfold bindM in H. destruct (m s) as [[a|e] s1] eqn:E.
  - destruct (Hk a s1) as (b & s2 & Hb & Hd & Hs). rewrite Hb in H. injection H as <- <-.
    split; [|done]. destruct (Hm _ _ _ E) as [Hsv _]. cbn [is_ok] in *.
    inversion Hsv as [b' Hd' Hs'|bs He Hss|]; subst.
    + apply no_save; congruence.
    + apply (save_taken _ _ bs); congruence.
  - injection H as <- <-. by apply Hm in E.
Qed.

Lemma save_spec c (s : Store St) r s' :
  save c s = (r, s') ->
  (exists e, r = Err e /\ s' = with_storage s (storage s') /\ saved s s' false) \/
  (r = Ok tt /\ exists bs st, encode c = Ok bs /\ storage_save bs (storage s) = (Ok tt, st) /\
     s' = with_document (with_storage s st) c).
Proof.
  unfold save. destruct (encode c) as [bs|e] eqn:Ee.
  2:{ intros [= <- <-]. left. exists e. split_and!; [done|by rewrite with_storage_id|by apply no_save]. }
  destruct (storage_save bs (storage s)) as [[[]|e] st] eqn:E; intros [= <- <-].
  - right. split; [done|]. by exists bs, st.
  - left. exists e. split_and!; [done|done|]. by apply (save_failed _ _ c bs e).
Qed.

Lemma atomic_save c : atomic (save c).
Proof.
  intros s r s' [(e & -> & Hs & Hsv)|(-> & bs & st & He & Hsv & ->)]%save_spec; [done|].
  split; [|done]. by apply (save_taken _ _ bs).
Qed.

Lemma atomic_commit c e : atomic (commit c e).
Proof. apply atomic_bind_total; [apply atomic_save|]. intros _. by apply total_modify. Qed.

(** One conditional of the code. *)
Lemma atomic_if {A} (b : bool) (m k : M (St := St) A) : atomic m -> atomic k -> atomic (if b then m else k).
Proof. by destruct b. Qed.
End Inv.

#[export] Hint Resolve reads_only_lift reads_only_get atomic_ret atomic_lift atomic_save atomic_commit : stulp.

(** Takes an operation apart: reads first, one save, then what cannot fail. *)
Ltac atomic_steps :=
  repeat first
    [ solve [auto with stulp]
    | progress (unfold voidM)
    | apply atomic_if
    | apply atomic_bind_read; [solve [auto with stulp]|intros ?]
    | match goal with |- atomic (match ?p with _ => _ end) => destruct p end
    | apply atomic_bind_total; [|intros ?; solve [apply total_modify; intros ?; done]] ].

Section Atomic.
Context {St : Type} {HS : Storage St}.

(** ** Every operation is atomic *)

Definition framed (f : Store St -> Store St) : Prop :=
  forall s, document (f s) = document s /\ storage (f s) = storage s.

Lemma framed_collect id name v : framed (collect id name v).
Proof.
  intros s. unfold collect. destruct (statistics_enabled s); [|done].
  destruct (Stats.observe _ _ _ _ _) as [[[]|e] st]; [done|]. by destruct (statistics_reported s).
Qed.

Lemma framed_put_cache c : framed (put_cache c).
Proof. intros s. unfold put_cache. destruct c as [[id v]|]; [|done]. by destruct (existsb _ _). Qed.

Lemma framed_forget c id : framed (forget c id).
Proof.
  intros s. unfold forget. by destruct (c =? "apps")%string, (c =? "devices")%string.
Qed.

Lemma framed_publish_all evs : framed (publish_all evs).
Proof.
  unfold publish_all. induction evs as [|e evs IH]; intros s; [done|]. cbn [fold_left].
  destruct (IH (publish e s)) as [-> ->]. done.
Qed.

Lemma framed_tick t : framed (store_tick t).
Proof. intros s. unfold store_tick. by destruct (statistics_enabled _). Qed.

Lemma put_atomic c r create rev now : atomic (put (St := St) c r create rev now).
Proof.
  unfold put. apply atomic_bind_read; [auto with stulp|]. intros s. apply atomic_bind_read; [auto with stulp|].
  intros [[d e] cache]. apply atomic_bind_total; [auto with stulp|]. intros _.
  apply total_modify, framed_put_cache.
Qed.

Lemma delete_atomic c id : atomic (delete (St := St) c id).
Proof.
  unfold delete. apply atomic_bind_read; [auto with stulp|]. intros s. apply atomic_bind_read; [auto with stulp|].
  intros [d e]. apply atomic_bind_total; [auto with stulp|]. intros _. apply total_modify, framed_forget.
Qed.

Lemma system_atomic v : atomic (system (St := St) v).
Proof.
  unfold system. apply atomic_bind_read; [auto with stulp|]. intros s. apply atomic_bind_read; [auto with stulp|].
  intros [d e]. apply atomic_bind_total; [auto with stulp|]. intros _. apply total_modify.
  intros s'. by destruct (statistics_enabled s').
Qed.

Lemma observe_atomic app id v av msg : atomic (observe (St := St) app id v av msg).
Proof.
  unfold observe. apply atomic_bind_read; [auto with stulp|]. intros s. apply atomic_bind_read; [auto with stulp|].
  intros [[[[e all] trips] changes] name]. apply total_atomic, total_modify. intros s'.
  cbn. destruct (framed_collect id name v (with_live s' all)) as [-> ->]. done.
Qed.

Lemma commit_spec c e (s : Store St) r s' :
  commit c e s = (r, s') ->
  (exists er, r = Err er /\ s' = with_storage s (storage s') /\ saved s s' false) \/
  (r = Ok tt /\ exists bs st, encode c = Ok bs /\ storage_save bs (storage s) = (Ok tt, st) /\
     s' = publish e (with_document (with_storage s st) c)).
Proof.
  unfold commit, bindM. destruct (save c s) as [r1 s1] eqn:E.
  destruct (save_spec _ _ _ _ E) as [(er & -> & Hs & Hf)|(-> & bs & st & He & Hsv & ->)]; intros [= <- <-].
  - left. by exists er.
  - right. split; [done|]. by exists bs, st.
Qed.

Lemma event_Ok (s : Store St) m k id e :
  event s m k id = Ok e <-> sequence s + 1 <= U64_MAX /\ e = mk_event (sequence s + 1) m k id.
Proof.
  unfold event. destruct (checked_add (sequence s) 1) as [n|] eqn:E; cbn.
  - apply checked_add_Some in E as [-> Hle]. split; [by intros [= <-]|]. by intros [_ ->].
  - split; [done|]. intros [Hle _]. exfalso.
    assert (checked_add (sequence s) 1 = Some (sequence s + 1)) by (by apply checked_add_Some). congruence.
Qed.

Lemma publish_sequence e (s : Store St) : sequence (publish e s) = ev_sequence e.
Proof. done. Qed.

(** [commit_scene_state] checked that both its events have a number. *)
Lemma scene_state_spec id sc (s : Store St) r s' :
  commit_scene_state id sc s = (r, s') ->
  (exists er, r = Err er /\ s' = with_storage s (storage s') /\ saved s s' false) \/
  (r = Ok tt /\ exists c e changes dev new bs st e2,
     prepare_scene_state s id sc = Ok (c, e, changes, dev, new) /\
     encode c = Ok bs /\ storage_save bs (storage s) = (Ok tt, st) /\
     e2 = mk_event (sequence s + 2) "devices" "device.update" (Scenes.device_id id) /\
     s' = (let s1 := publish e2 (publish e (with_document (with_storage s st) c)) in
           let s2 := collect (text dev "id") (text dev "name") new s1 in
           with_triggers s2 (triggers s2 ++ changes))).
Proof.
  unfold commit_scene_state. unfold bindM at 1. cbn [getM]. unfold bindM at 1. unfold liftR at 1.
  destruct (prepare_scene_state s id sc) as [[[[[c e] changes] dev] new]|er] eqn:Ep.
  2:{ intros [= <- <-]. left. exists er. split_and!; [done|by rewrite with_storage_id|by apply no_save]. }
  unfold bindM at 1. destruct (commit c e s) as [r1 s1] eqn:Ec.
  destruct (commit_spec _ _ _ _ _ Ec) as [(er & -> & Hs & Hf)|(-> & bs & st & He & Hsv & ->)].
  { intros [= <- <-]. left. by exists er. }
  assert (Hseq : ev_sequence e = sequence s + 1 /\ sequence s + 2 <= U64_MAX).
  { unfold prepare_scene_state in Ep. inv_ok Ep.
    match goal with H : event _ _ _ _ = Ok _ |- _ => apply event_Ok in H as [_ ->] end. split; [done|].
    match goal with H : ok_or (checked_add (sequence s) 2) Full = Ok _ |- _ =>
      destruct (checked_add (sequence s) 2) eqn:Ek in H; [|done]; by apply checked_add_Some in Ek as [_ ?] end. }
  destruct Hseq as [Hse Hle].
  unfold bindM. cbn [getM]. unfold liftR.
  set (s1 := publish e (with_document (with_storage s st) c)).
  assert (He2 : event s1 "devices" "device.update" (Scenes.device_id id) =
                Ok (mk_event (sequence s + 2) "devices" "device.update" (Scenes.device_id id))).
  { apply event_Ok. unfold s1. rewrite publish_sequence, Hse. split; [lia|]. f_equal. lia. }
  rewrite He2. intros [= <- <-]. right. split; [done|]. by repeat eexists.
Qed.

Lemma scene_state_atomic id sc : atomic (commit_scene_state (St := St) id sc).
Proof.
  intros s r s' H. destruct (scene_state_spec _ _ _ _ _ H) as
    [(er & -> & Hs & Hf)|(-> & c & e & changes & dev & new & bs & st & e2 & _ & He & Hsv & -> & ->)]; [done|].
  split; [|done]. cbn zeta. set (s1 := publish _ _).
  destruct (framed_collect (text dev "id") (text dev "name") new s1) as [Hd Hst].
  apply (save_taken _ _ bs); cbn [document storage with_triggers]; by rewrite ?Hd, ?Hst.
Qed.

#[local] Hint Resolve scene_state_atomic : stulp.

Lemma begin_scene_atomic id prev : atomic (begin_scene (St := St) id prev).
Proof.
  unfold begin_scene. atomic_steps. apply atomic_bind_total; [apply scene_state_atomic|].
  intros _ s. by exists true, s.
Qed.

Lemma run_op_atomic op : atomic (run_op (St := St) op).
Proof.
  destruct op; cbn [run_op].
  - apply put_atomic.
  - apply delete_atomic.
  - unfold setting. atomic_steps.
  - unfold app_state. atomic_steps.
  - apply system_atomic.
  - unfold flow_result. atomic_steps.
  - apply observe_atomic.
  - apply atomic_bind_total; [apply begin_scene_atomic|]. intros a s. by exists tt, s.
  - unfold scene_remaining. atomic_steps.
  - unfold reorder_devices. atomic_steps.
  - unfold trigger. atomic_steps. by apply total_atomic, total_modify.
  - unfold replace_references. atomic_steps. apply atomic_bind_total; [auto with stulp|].
    intros _. apply total_modify, framed_publish_all.
  - unfold consolidate_devices. atomic_steps. apply atomic_bind_total; [auto with stulp|].
    intros _. apply total_modify. intros s'. cbn. by edestruct framed_publish_all as [-> ->].
  - unfold register_media. atomic_steps. by apply total_atomic, total_modify.
  - unfold share_image. atomic_steps. apply total_atomic. intros s. by eexists _, _.
  - unfold announce. atomic_steps. by apply total_atomic, total_modify.
  - unfold set_app_status. atomic_steps. apply total_atomic, total_modify. intros s'.
    by destruct (negb (state =? "running")%string).
  - unfold set_app_runtime. atomic_steps. by apply total_atomic, total_modify.
  - unfold restore. atomic_steps.
  - unfold configure. by apply total_atomic, total_modify.
  - apply total_atomic, total_modify, framed_tick.
  - apply total_atomic, total_modify. intros s. unfold take_trigger. by destruct (triggers s).
  - apply total_atomic, total_modify. intros s. unfold take_scene_trip. by destruct (last (scene_trips s)).
  - by apply total_atomic, total_modify.
Qed.
End Atomic.
