(* ===== verification/StoreDocOps.v ===== *)
(** * StoreDocOps: every candidate the store prepares is a document

    For each operation that commits, the candidate it prepares from a well-formed document is
    well-formed again ([doc_ok]); the arguments are JSON values with unique keys. *)

From Stdlib Require Import ZArith Lia Ascii String.
From S2P Require Import Prelude Text Errors Slots Float Value Json Time Document Stats Store StoreDoc References.
From S2P Require Flow Scenes Groups Triggers.

Local Open Scope Z_scope.

(** Takes one [?] of the code apart. *)
Ltac step_ok H :=
  match type of H with
  | (mbind _ ?r) = Ok _ =>
      let E := fresh "E" in destruct r eqn:E; cbn [mbind result_bind] in H; [|discriminate H]
  | (if ?b then _ else _) = Ok _ => let E := fresh "E" in destruct b eqn:E; [discriminate H|]
  end.

Section Ops.
Context {St : Type} {HS : Storage St}.

(** ** Records of a collection *)

Lemma settle_edits d name g g' : Groups.settle d name g = Ok g' -> edits g g'.
Proof.
  unfold Groups.settle. intros H. step_ok H. etrans; [by eapply edits_set|].
  destruct (uint a "sortOrder" =? 0); [|by injection H as <-].
  step_ok H. by eapply edits_set.
Qed.

Lemma climb_edits n d id p name g g' : Groups.climb n d id p name g = Ok g' -> edits g g'.
Proof.
  revert p. induction n as [|n IH]; intros p H; cbn in H; [done|].
  destruct (is_empty p); [by eapply settle_edits|]. destruct (p =? id)%string; [done|].
  destruct (record d "deviceGroups" p) as [q|]; cbn in H; [|done]. by eapply IH.
Qed.

Lemma group_edits d g g' : Groups.validate d g = Ok g' -> edits g g'.
Proof.
  unfold Groups.validate. intros H. step_ok H. etrans; [by eapply edits_set|].
  repeat step_ok H. by eapply climb_edits.
Qed.

Lemma scene_edits r p r' : Scenes.validate r p = Ok r' -> edits r r'.
Proof.
  unfold Scenes.validate. intros H. repeat step_ok H.
  etrans; [by eapply edits_set|]. 
  assert (He : edits a a0) by (destruct (is_empty (text a "kind")); [by eapply edits_set|by injection E2 as <-]).
  etrans; [exact He|]. etrans; [by eapply edits_set|]. by eapply edits_set.
Qed.

Lemma fill_objects_edits ks r r' : fill_objects ks r = Ok r' -> "id" ∉ ks -> edits r r'.
Proof.
  revert r. induction ks as [|k ks IH]; intros r H Hk; cbn [fill_objects] in H; [by injection H as <-|].
  apply not_elem_of_cons in Hk as [Hki Hk]. step_ok H.
  etrans; [|by eapply IH].
  destruct (get r k) as [[]|]; try (injection E as <-; reflexivity);
    (eapply edits_set; [exact E|congruence|done]).
Qed.

Lemma normalize_device_ok (s : Store St) r p r' :
  normalize_device s r p = Ok r' -> edits r r' /\ (uniq r = true -> clean r').
Proof.
  unfold normalize_device. intros H. repeat step_ok H.
  match goal with Hf : fill_objects _ r = Ok ?x |- _ => rename Hf into Ef; rename x into r1 end.
  apply fill_objects_edits in Ef as Hedit; [|vm_compute; set_solver].
  match goal with Hs : ok_or (get r1 "store") _ = Ok ?x |- _ => rename Hs into Es; rename x into store end.
  match goal with Hh : (if is_empty (text store _) then _ else _) = Ok ?x |- _ => rename Hh into Eh; rename x into store' end.
  match goal with Ho : ok_or (as_object store') _ = Ok ?x |- _ => rename Ho into Eo; rename x into o end.
  match goal with Hs2 : set r1 "store" _ = Ok ?x |- _ => rename Hs2 into Es2; rename x into r2 end.
  destruct (get r1 "store") as [st|] eqn:Eg; [|done]. injection Es as ->.
  assert (Hst : uniq r1 = true -> uniq (VObject (persistent o)) = true).
  { intros Hu. apply persistent_uniq. pose proof (uniq_get _ _ _ Hu Eg) as Hus.
    destruct store'; try done. injection Eo as ->.
    destruct (is_empty (text store _)); [by apply (uniq_set _ _ _ _ Eh)|by injection Eh as <-]. }
  assert (He2 : edits r1 r2) by (split; [intros Hu; apply (uniq_set _ _ _ _ Es2); auto|by eapply text_set_ne]).
  apply edits_remove_all in H as He3; [|vm_compute; set_solver].
  split; [etrans; [exact Hedit|]; by etrans|].
  intros Hu. destruct (remove_all_Ok OBSERVED r2 r') as (_ & Hnone & Hrest); [|done|].
  { apply He2, Hedit, Hu. }
  split; [done|]. intros st Hg. rewrite Hrest in Hg by (vm_compute; set_solver).
  rewrite (get_set_eq _ _ _ _ Es2) in Hg. injection Hg as <-. apply persistent_clean.
Qed.

Lemma normalize_ok (s : Store St) c r p r' :
  normalize s c r p = Ok r' -> edits r r' /\ (c = "devices" -> uniq r = true -> clean r').
Proof.
  unfold normalize. intros H.
  destruct (String.eqb_spec c "flows") as [->|H1].
  { split; [|done]. step_ok H. repeat step_ok H. injection H as <-. by eapply edits_set. }
  destruct (String.eqb_spec c "deviceGroups") as [->|H2]; [split; [by eapply group_edits|done]|].
  destruct (String.eqb_spec c "scenes") as [->|H3]; [split; [|done]; step_ok H; by eapply scene_edits|].
  destruct (String.eqb_spec c "devices") as [->|H4].
  { apply normalize_device_ok in H as [? ?]. auto. }
  destruct (String.eqb_spec c "notifications") as [->|H5].
  { split; [|done]. step_ok H. by eapply edits_set. }
  destruct (c =? "apps")%string; [|done]. injection H as <-. split; [done|]. by intros ->.
Qed.

Lemma inherit_edits ks p r r' :
  inherit ks p r = Ok r' -> "id" ∉ ks -> (forall q, p = Some q -> uniq q = true) -> edits r r'.
Proof.
  revert r. induction ks as [|k ks IH]; intros r H Hk Hp; cbn [inherit] in H; [by injection H as <-|].
  apply not_elem_of_cons in Hk as [Hki Hk].
  step_ok H.
  etrans; [|by eapply IH].
  destruct p as [q|]; cbn in E; [|by injection E as <-].
  destruct (get q k) as [v|] eqn:Eg; [|by injection E as <-].
  eapply edits_set; [exact E|congruence|]. eapply uniq_get; [by apply Hp|exact Eg].
Qed.

Lemma put_record_ok (s : Store St) c r create p now r' :
  put_record s c r create p now = Ok r' -> (forall q, p = Some q -> uniq q = true) ->
  edits r r' /\ (c = "devices" -> uniq r = true -> clean r').
Proof.
  unfold put_record. intros H Hp. step_ok H.
  assert (H1 : edits r a).
  { destruct (is_revised c); [|by injection E as <-]. step_ok E. by eapply edits_set. }
  step_ok H. apply inherit_edits in E0; [|vm_compute; set_solver|done].
  step_ok H. assert (H2 : edits a0 a1) by (destruct create; [by eapply edits_set|by injection E1 as <-]).
  step_ok H. assert (H3 : edits a1 a2) by (by eapply edits_set).
  apply normalize_ok in H as [H4 H5].
  assert (H6 : edits r a2) by (etrans; [exact H1|]; etrans; [exact E0|]; by etrans).
  split; [by etrans|]. intros Hc Hu. apply H5; [done|]. by apply H6.
Qed.

Lemma collection_events_In c x : collection_events c = Ok x -> c ∈ COLLECTIONS.
Proof.
  unfold collection_events, COLLECTIONS. rewrite !elem_of_cons.
  repeat (match goal with |- context [(c =? ?k)%string] => destruct (String.eqb_spec c k) as [->|?] end; [tauto|]).
  done.
Qed.

Lemma event_seq (s : Store St) m k id e : event s m k id = Ok e -> ev_sequence e = sequence s + 1.
Proof.
  unfold event. destruct (checked_add (sequence s) 1) as [n|] eqn:E; cbn; [|done].
  apply checked_add_Some in E as [-> _]. by intros [= <-].
Qed.

(** ** Preparing *)

Lemma prepare_put_ok (s : Store St) c r create rev now d e cache :
  doc_ok (document s) -> uniq r = true -> prepare_put s c r create rev now = Ok (d, e, cache) ->
  doc_ok d /\ ev_sequence e = sequence s + 1 /\
  exists r', put_record s c r create (res_ok (record (document s) c (text r "id"))) now = Ok r' /\
    text r' "id" = text r "id" /\ text r "id" <> EmptyString /\ c ∈ COLLECTIONS /\
    (c <> "scenes" -> replace_record (document s) c r' = Ok d) /\
    (c = "scenes" -> exists d1, replace_record (document s) c r' = Ok d1 /\ Scenes.reconcile d1 = Ok d) /\
    uniq r' = true /\ (c = "devices" -> clean r').
Proof.
  intros Hd Hu H. unfold prepare_put in H.
  destruct (collection_events c) as [[[[m cr] up] del]|] eqn:Ec; cbn [mbind result_bind] in H; [|done].
  pose proof (collection_events_In _ _ Ec) as Hc. repeat step_ok H.
  match goal with Hp : put_record _ _ _ _ _ _ = Ok ?x |- _ => rename Hp into Ep; rename x into r' end.
  match goal with Hp : event _ _ _ _ = Ok ?x |- _ => rename Hp into Ee; rename x into e1 end.
  match goal with Hp : replace_record _ _ _ = Ok ?x |- _ => rename Hp into Er; rename x into d1 end.
  match goal with Hp : (if (c =? "scenes")%string then _ else _) = Ok ?x |- _ => rename Hp into Es; rename x into d2 end.
  injection H as <- <- <-.
  assert (Hid : text r "id" <> EmptyString).
  { match goal with Hi : is_empty _ = false |- _ => unfold is_empty in Hi; by apply String.eqb_neq end. }
  destruct (put_record_ok _ _ _ _ _ _ _ Ep) as [[He1 He2] He3].
  { intros q Hq. destruct (record (document s) c (text r "id")) as [q'|] eqn:Eq; [|done].
    injection Hq as ->. by apply (record_props _ _ _ _ Hd Eq). }
  destruct (replace_record_ok (document s) c r' d1 Hd Hc) as (Hd1 & _); [auto|congruence|auto|done|].
  pose proof (event_seq _ _ _ _ _ Ee) as Hev.
  split_and!; [|done|].
  - destruct (c =? "scenes")%string; [by eapply reconcile_ok|by injection Es as <-].
  - exists r'. split_and!; try done; [| |auto|auto].
    + intros Hns. apply String.eqb_neq in Hns. rewrite Hns in Es. by injection Es as <-.
    + intros ->. by exists d1.
Qed.

Lemma prepare_delete_ok (s : Store St) c id d e :
  doc_ok (document s) -> prepare_delete s c id = Ok (d, e) -> doc_ok d /\ ev_sequence e = sequence s + 1.
Proof.
  intros Hd H. unfold prepare_delete in H. do 3 step_ok H.
  destruct (collection_events c) as [[[[m cr] up] del]|] eqn:Ec; cbn [mbind result_bind] in H; [|done].
  pose proof (collection_events_In _ _ Ec) as Hc. do 5 step_ok H. injection H as <- <-.
  split; [|by eapply event_seq].
  match goal with Hx : (if (c =? "deviceGroups")%string then _ else _) = Ok ?x |- _ => assert (H1 : doc_ok x) end.
  { destruct (c =? "deviceGroups")%string; [by eapply lift_children_ok|congruence]. }
  match goal with Hx : (if (c =? "apps")%string then _ else _) = Ok ?x |- _ => assert (H2 : doc_ok x) end.
  { destruct (c =? "apps")%string; [by eapply uninstall_ok|congruence]. }
  match goal with Hx : remove_record _ _ _ = Ok ?x |- _ => assert (H3 : doc_ok x) by (by eapply remove_record_ok) end.
  destruct (c =? "scenes")%string; [by eapply reconcile_ok|congruence].
Qed.

Lemma settings_object d k v : doc_ok d -> k ∈ SETTINGS -> ok_or (get (root d) k) (Missing k) = Ok v ->
  (exists o, v = VObject o) /\ uniq v = true.
Proof.
  intros Hd Hk H. destruct (do_settings _ Hd k Hk) as [o Hg]. rewrite Hg in H. injection H as <-.
  split; [by exists o|]. eapply uniq_get; [apply do_uniq, Hd|exact Hg].
Qed.

Lemma set_object v k w v' : set v k w = Ok v' -> exists o, v' = VObject o.
Proof. intros (o & _ & ->)%set_Ok. by eexists. Qed.

Lemma prepare_setting_ok (s : Store St) app key v d e :
  doc_ok (document s) -> (forall w, v = Some w -> uniq w = true) -> prepare_setting s app key v = Ok (d, e) ->
  doc_ok d /\ ev_sequence e = sequence s + 1.
Proof.
  intros Hd Hv H. unfold prepare_setting in H. do 2 step_ok H.
  match goal with Hx : ok_or (get (root _) _) _ = Ok ?x |- _ => rename Hx into Eg; rename x into settings end.
  apply settings_object in Eg as [[o ->] Hu]; [|done|vm_compute; set_solver].
  cbn zeta in H. do 4 step_ok H. injection H as <- <-. split; [|by eapply event_seq].
  match goal with Hx : doc_set _ _ ?x = Ok _ |- _ => eapply set_settings_ok in Hx; [by apply Hx|done|vm_compute; set_solver| |by eapply set_object] end.
  match goal with Hx : set (VObject o) app _ = Ok _ |- _ => apply (uniq_set _ _ _ _ Hx); [done|] end.
  assert (Hown : uniq (match get (VObject o) app with Some w => w | None => object end) = true).
  { destruct (get (VObject o) app) eqn:E'; [|done]. by eapply uniq_get. }
  destruct v as [w|];
    match goal with
    | Hx : set _ key _ = Ok _ |- _ => apply (uniq_set _ _ _ _ Hx); auto
    | Hx : remove _ key = Ok _ |- _ => by apply (uniq_remove _ _ _ Hx)
    end.
Qed.

Lemma prepare_app_state_ok (s : Store St) app v d e :
  doc_ok (document s) -> uniq v = true -> prepare_app_state s app v = Ok (d, e) ->
  doc_ok d /\ ev_sequence e = sequence s + 1.
Proof.
  intros Hd Hv H. unfold prepare_app_state in H. do 2 step_ok H.
  match goal with Hx : ok_or (get (root _) _) _ = Ok ?x |- _ => rename Hx into Eg; rename x into state end.
  apply settings_object in Eg as [[o ->] Hu]; [|done|vm_compute; set_solver].
  do 3 step_ok H. injection H as <- <-. split; [|by eapply event_seq].
  match goal with Hx : doc_set _ _ ?x = Ok _ |- _ => eapply set_settings_ok in Hx; [by apply Hx|done|vm_compute; set_solver| |by eapply set_object] end.
  match goal with Hx : set (VObject o) app _ = Ok _ |- _ => by apply (uniq_set _ _ _ _ Hx) end.
Qed.

Lemma prepare_system_ok (s : Store St) v d e :
  doc_ok (document s) -> uniq v = true -> prepare_system s v = Ok (d, e) ->
  doc_ok d /\ ev_sequence e = sequence s + 1.
Proof.
  intros Hd Hv H. unfold prepare_system in H. do 3 step_ok H. injection H as <- <-. split; [|by eapply event_seq].
  match goal with Hx : doc_set _ _ _ = Ok _ |- _ => eapply set_settings_ok in Hx; [by apply Hx|done|vm_compute; set_solver|done|] end.
  destruct v; try done. by eexists.
Qed.

Lemma prepare_flow_result_ok (s : Store St) id p ran err now d e :
  doc_ok (document s) -> record (document s) "flows" id = Ok p ->
  prepare_flow_result s p ran err now = Ok (d, e) -> doc_ok d /\ ev_sequence e = sequence s + 1.
Proof.
  intros Hd Hp H. unfold prepare_flow_result in H. do 5 step_ok H. injection H as <- <-.
  split; [|by eapply event_seq]. destruct (record_props _ _ _ _ Hd Hp) as (Hu & Hid & Hin).
  match goal with Hx : set_all p _ = Ok ?x |- _ => apply edits_set_all in Hx as [He1 He2]; [|by repeat constructor] end.
  match goal with Hx : set _ "revision" _ = Ok ?x |- _ => apply edits_set in Hx as [He3 He4]; [|done|done] end.
  match goal with Hx : replace_record _ _ _ = Ok _ |- _ => eapply replace_record_ok in Hx; [by apply Hx|done|vm_compute; set_solver|auto| |done] end.
  rewrite He4, He2. destruct (doc_records _ "flows" Hd) as [_ (_ & Hne & _)]; [vm_compute; set_solver|].
  rewrite Forall_forall in Hne. apply Hne, list_elem_of_fmap. by exists p.
Qed.

Lemma prepare_scene_state_ok (s : Store St) id r sc c e ch dev new :
  doc_ok (document s) -> record (document s) "scenes" id = Ok r -> edits r sc ->
  prepare_scene_state s id sc = Ok (c, e, ch, dev, new) ->
  doc_ok c /\ ev_sequence e = sequence s + 1 /\
  (Z.of_nat (length (triggers s)) <= Triggers.MAX_TRIGGERS ->
   Z.of_nat (length (triggers s ++ ch)) <= Triggers.MAX_TRIGGERS).
Proof.
  intros Hd Hr [He1 He2] H. destruct (record_props _ _ _ _ Hd Hr) as (Hu & Hid & Hin).
  unfold prepare_scene_state in H. do 9 step_ok H. injection H as <- <- <- <- <-. split_and!; [|by eapply event_seq|].
  - match goal with Hx : set sc "revision" _ = Ok ?x |- _ => apply edits_set in Hx as [He3 He4]; [|done|done] end.
    match goal with Hx : replace_record _ _ _ = Ok _ |- _ => eapply replace_record_ok in Hx; [by apply Hx|done|vm_compute; set_solver|auto| |done] end.
    rewrite He4, He2. destruct (doc_records _ "scenes" Hd) as [_ (_ & Hne & _)]; [vm_compute; set_solver|].
    rewrite Forall_forall in Hne. apply Hne, list_elem_of_fmap. by exists r.
  - match goal with Hx : exceeds _ _ _ = false |- _ => unfold exceeds, saturating_sub in Hx; apply Z.ltb_ge in Hx end.
    intros Ht. rewrite length_app. unfold Triggers.MAX_TRIGGERS in *. lia.
Qed.

Lemma prepare_reorder_ok (s : Store St) g l d e :
  doc_ok (document s) -> prepare_reorder s g l = Ok (d, e) -> doc_ok d /\ ev_sequence e = sequence s + 1.
Proof.
  intros Hd H. unfold prepare_reorder in H. do 6 step_ok H. injection H as <- <-. split; [|by eapply event_seq].
  match goal with Hx : replace _ _ _ = Ok _ |- _ => eapply map_records_ok in Hx; [by apply Hx|done|vm_compute; set_solver|done|] end.
  intros r r' _ Hr. unfold reorder_device in Hr. destruct (Flow.position _ l); [|by injection Hr as <-].
  split; [by eapply edits_set|]. intros _ Hc. eapply clean_set; [exact Hc|exact Hr|vm_compute; set_solver].
Qed.

(** ** Rewriting references *)

Lemma replace_text_uniq old new v depth v' :
  replace_text old new depth v = Ok v' -> uniq v = true -> uniq v' = true.
Proof.
  revert depth v'. induction v as [| | | |a IH|o IH] using Value_ind; intros depth v' H Hu;
    cbn [replace_text] in H; (destruct (64 <? depth)%nat; [done|]); try (by injection H as <-).
  - injection H as <-. by destruct (_ =? _)%string.
  - step_ok H. destruct (_ <? _); [done|]. injection H as <-. apply uniq_array in Hu. apply uniq_array.
    revert a0 E. induction a as [|w a IHa]; intros out E; [by injection E as <-|].
    apply Forall_cons in IH as [IHw IH]. apply Forall_cons in Hu as [Hw Hu].
    do 2 step_ok E. injection E as <-. constructor; [by eapply IHw|]. by eapply IHa.
  - step_ok H. injection H as <-. apply uniq_object in Hu as [Hn Hu]. apply uniq_object.
    assert (Hk : obj_keys a = obj_keys o /\ Forall (fun kv => uniq kv.2 = true) a); [|by destruct Hk as [-> ?]].
    clear Hn. revert a E. induction o as [|[k w] o IHo]; intros out E; [injection E as <-; by split|].
    apply Forall_cons in IH as [IHw IH]. apply Forall_cons in Hu as [Hw Hu].
    do 2 step_ok E. injection E as <-. destruct (IHo IH Hu _ eq_refl) as [Hk Hf].
    unfold obj_keys in *. cbn [map fst]. rewrite Hk. split; [done|]. constructor; [by eapply IHw|done].
Qed.

Lemma uniq_get_null v k : uniq v = true -> uniq (get_null v k) = true.
Proof. intros Hu. unfold get_null. destruct (get v k) eqn:E; [by eapply uniq_get|done]. Qed.

Lemma replace_key_uniq o old new k out out' :
  replace_key o old new k out = Ok out' -> uniq o = true -> uniq out = true -> uniq out' = true.
Proof.
  unfold replace_key. intros H Ho Hout. destruct (get o k) as [v|] eqn:Eg; [|by injection H as <-].
  step_ok H. apply (uniq_set _ _ _ _ H); [done|]. exact (replace_text_uniq _ _ _ _ _ E (uniq_get _ _ _ Ho Eg)).
Qed.

Lemma step_uniq o rs o' : step o rs = Ok o' -> uniq o = true -> uniq o' = true.
Proof.
  unfold step. intros H Ho. destruct (as_object _) as [args|]; [|by injection H as <-].
  destruct (get rs _) as [rp|]; [|by injection H as <-]. do 4 step_ok H.
  pose proof (replace_key_uniq _ _ _ _ _ _ E Ho Ho) as H1. pose proof (replace_key_uniq _ _ _ _ _ _ E0 Ho H1) as H2.
  assert (H3 : uniq a1 = true).
  { destruct (is_empty (text _ (text _ "capability"))); [injection E1 as <-; by apply uniq_get_null|].
    apply (uniq_set _ _ _ _ E1); [by apply uniq_get_null|done]. }
  assert (H4 : uniq a2 = true) by (by apply (uniq_set _ _ _ _ E2)).
  destruct (split_card _) as [[cap action]|]; [|by injection H as <-].
  destruct (_ && _); [|by injection H as <-]. by apply (uniq_set _ _ _ _ H).
Qed.

Lemma push_all_Forall {A B} (f : A -> Result B) (P : A -> Prop) (Q : B -> Prop) max xs ys :
  push_all f max xs [] = Ok ys -> (forall x y, P x -> f x = Ok y -> Q y) -> Forall P xs -> Forall Q ys.
Proof.
  intros (zs & HF & -> & _)%push_all_Ok Hf HP. cbn [app]. induction HF; [constructor|].
  apply Forall_cons in HP as [? ?]. constructor; eauto.
Qed.

Lemma uniq_elems v k : uniq v = true -> Forall (fun w => uniq w = true) (array v k).
Proof. intros Hu. apply Forall_forall. intros w Hw. by eapply uniq_elem. Qed.

Lemma flow_edits o rs o' : flow o rs = Ok o' -> edits o o'.
Proof.
  unfold flow. intros H. step_ok H. split; [|by eapply text_set_ne].
  intros Hu. apply (uniq_set _ _ _ _ H); [done|]. apply uniq_array.
  eapply push_all_Forall; [exact E| |by apply uniq_elems].
  intros n n' Hn Hr. cbn in Hn. unfold rewrite_node in Hr. step_ok Hr.
  apply (uniq_set _ _ _ _ Hr); [done|]. eapply step_uniq; [done|]. by apply uniq_get_null.
Qed.

Lemma rewrite_states_edits o rs k out out' :
  rewrite_states o rs k out = Ok out' -> k <> "id" -> uniq o = true -> edits out out'.
Proof.
  unfold rewrite_states. intros H Hk Ho. destruct (get o k); [|by injection H as <-]. do 2 step_ok H.
  eapply edits_set; [exact H|done|]. apply uniq_array.
  eapply push_all_Forall; [exact E| |by apply uniq_elems].
  intros st st' Hs Hr. cbn in Hs. unfold rewrite_state in Hr.
  destruct (get rs _) as [rp|]; [|by injection Hr as <-]. step_ok Hr.
  apply (uniq_set _ _ _ _ Hr); [|done].
  destruct (is_empty (text (get_null rp _) _)); [by injection E1 as <-|]. by apply (uniq_set _ _ _ _ E1).
Qed.

Lemma scene_rewrite_edits o rs o' : scene o rs = Ok o' -> uniq o = true -> edits o o'.
Proof.
  unfold scene. intros H Hu. step_ok H. etrans; [by eapply rewrite_states_edits|]. by eapply rewrite_states_edits.
Qed.

(** ** Batches of events *)

(** [evs] are numbered from [n0 + 1], the last is [n]. *)
Definition batch (n0 : Z) (acc : list Event * Z) : Prop :=
  acc.2 = n0 + Z.of_nat (length acc.1) /\
  forall i e, acc.1 !! i = Some e -> ev_sequence e = n0 + 1 + Z.of_nat i.

Lemma batch_nil n0 : batch n0 ([], n0).
Proof. split; [cbn; lia|]. intros i e Hi. cbn in Hi. by rewrite lookup_nil in Hi. Qed.

Lemma batch_event_ok (s : Store St) m k id n0 acc acc' :
  batch n0 acc -> batch_event s m k id acc = Ok acc' -> batch n0 acc' /\ acc'.1 <> [].
Proof.
  intros [H1 H2] H. unfold batch_event in H. do 3 step_ok H. injection H as <-.
  destruct (checked_add acc.2 1) as [n|] eqn:En; [|done]. apply checked_add_Some in En as [-> _].
  injection E0 as <-. apply push_Ok in E1 as [_ ->].
  split; [|cbn; by destruct acc.1]. split; cbn [fst snd].
  - rewrite length_app. cbn. lia.
  - intros i ev Hi. apply lookup_app_Some in Hi as [Hi|[Hge Hi]]; [by apply H2|].
    apply list_lookup_singleton_Some in Hi as [Hi <-]. cbn. lia.
Qed.

Lemma rewrite_record_ok (s : Store St) c m k rs now old n0 acc next acc' :
  batch n0 acc -> uniq old = true -> rewrite_record s c m k rs now old acc = Ok (next, acc') ->
  edits old next /\ batch n0 acc'.
Proof.
  intros Hb Hu H. unfold rewrite_record in H. step_ok H.
  assert (H1 : edits old a).
  { destruct (c =? "flows")%string; [by eapply flow_edits|by eapply scene_rewrite_edits]. }
  destruct (equal old a); [injection H as <- <-; done|]. do 6 step_ok H. injection H as <- <-.
  pose proof (edits_set _ _ _ _ E2 ltac:(done) eq_refl) as H2.
  pose proof (edits_set _ _ _ _ E3 ltac:(done) eq_refl) as H3.
  split; [etrans; [exact H1|]; by etrans|].
  destruct (batch_event_ok _ _ _ _ _ _ _ Hb E4) as [Hb4 _].
  destruct (c =? "scenes")%string; [by eapply batch_event_ok|by injection E5 as <-].
Qed.

Lemma rewrite_records_ok (s : Store St) c m k rs now olds out n0 acc out' acc' :
  batch n0 acc -> Forall (fun r => uniq r = true) olds ->
  rewrite_records s c m k rs now olds out acc = Ok (out', acc') ->
  batch n0 acc' /\ exists ys, out' = out ++ ys /\ ids ys = ids olds /\ Forall (fun r => uniq r = true) ys.
Proof.
  revert out acc. induction olds as [|old olds IH]; intros out acc Hb Hu H; cbn [rewrite_records] in H.
  { injection H as <- <-. split; [done|]. exists []. by rewrite app_nil_r. }
  apply Forall_cons in Hu as [Hu1 Hu].
  destruct (rewrite_record s c m k rs now old acc) as [[next acc1]|] eqn:E; cbn [mbind result_bind] in H; [|done].
  destruct (rewrite_record_ok _ _ _ _ _ _ _ _ _ _ _ Hb Hu1 E) as [[He1 He2] Hb1].
  step_ok H. apply push_Ok in E0 as [_ ->].
  destruct (IH _ _ Hb1 Hu H) as (Hb' & ys & -> & Hids & Hys). split; [done|]. exists (next :: ys).
  rewrite <-app_assoc. split; [done|]. unfold ids in *. cbn [map]. rewrite He2, Hids. split; [done|].
  constructor; auto.
Qed.

Lemma records_ok_ids rs rs' : records_ok rs -> ids rs' = ids rs -> records_ok rs'.
Proof.
  intros (H1 & H2 & H3) Hids. unfold records_ok. rewrite Hids. split_and!; [|done|done].
  apply (f_equal length) in Hids. unfold ids in Hids. rewrite !length_map in Hids. lia.
Qed.

Lemma rewrite_references_ok (s : Store St) c rs now n0 acc c' acc' :
  doc_ok (document s) -> doc_ok c -> batch n0 acc ->
  rewrite_references s c rs now acc = Ok (c', acc') ->
  doc_ok c' /\ batch n0 acc' /\ (forall k, k <> "flows" -> k <> "scenes" -> get (root c') k = get (root c) k).
Proof.
  intros Hs Hc Hb H. unfold rewrite_references in H.
  destruct (rewrite_records s "flows" _ _ _ _ _ _ _) as [[fl acc1]|] eqn:E1; cbn [mbind result_bind] in H; [|done].
  apply (rewrite_records_ok _ _ _ _ _ _ _ _ n0) in E1 as (Hb1 & fl' & -> & Hids1 & Hu1);
    [|done|apply records_uniq, do_uniq, Hs]. cbn [app] in H.
  destruct (replace c "flows" fl') as [c1|] eqn:R1; cbn [mbind result_bind] in H; [|done].
  destruct (rewrite_records s "scenes" _ _ _ _ _ _ _) as [[sc acc2]|] eqn:E2; cbn [mbind result_bind] in H; [|done].
  apply (rewrite_records_ok _ _ _ _ _ _ _ _ n0) in E2 as (Hb2 & sc' & -> & Hids2 & Hu2);
    [|done|apply records_uniq, do_uniq, Hs]. cbn [app] in H.
  destruct (replace c1 "scenes" sc') as [c2|] eqn:R2; cbn [mbind result_bind] in H; [|done].
  injection H as <- <-.
  assert (Hok : forall k, k ∈ COLLECTIONS -> records_ok (records (document s) k)) by (intros k Hk; by apply doc_records).
  apply replace_ok in R1 as (Hd1 & _ & Hne1); [|done|vm_compute; set_solver|refine (records_ok_ids _ _ _ Hids1); apply Hok; vm_compute; set_solver|done|done].
  apply replace_ok in R2 as (Hd2 & _ & Hne2); [|done|vm_compute; set_solver|refine (records_ok_ids _ _ _ Hids2); apply Hok; vm_compute; set_solver|done|done].
  split_and!; [done|done|]. intros k Hk1 Hk2. by rewrite Hne2, Hne1.
Qed.

(** ** Consolidation *)

Lemma filter_filter_and {A} (p q : A -> bool) l :
  List.filter p (List.filter q l) = List.filter (fun x => q x && p x) l.
Proof. induction l as [|x l IH]; [done|]. cbn. destruct (q x); cbn; [destruct (p x); congruence|done]. Qed.

Lemma filter_all {A} (p : A -> bool) l : (forall x, p x = true) -> List.filter p l = l.
Proof. intros Hp. induction l as [|x l IH]; [done|]. cbn. rewrite Hp. congruence. Qed.

Lemma keep_identity_edits ks p r r' :
  keep_identity ks p r = Ok r' -> "id" ∉ ks -> uniq p = true -> edits r r'.
Proof.
  revert r. induction ks as [|k ks IH]; intros r H Hk Hp; cbn [keep_identity] in H; [by injection H as <-|].
  apply not_elem_of_cons in Hk as [Hki Hk]. step_ok H. etrans; [|by eapply IH].
  destruct (get p k) as [w|] eqn:Eg.
  - eapply edits_set; [exact E|congruence|by eapply uniq_get].
  - eapply edits_remove; [exact E|congruence].
Qed.

Lemma remove_sources_ok (s : Store St) id entries c n0 acc c' acc' :
  doc_ok c -> batch n0 acc -> remove_sources s id entries c acc = Ok (c', acc') ->
  doc_ok c' /\ batch n0 acc' /\ (forall k, k <> "devices" -> get (root c') k = get (root c) k) /\
  records c' "devices" =
    List.filter (fun r => negb (existsb (fun kv => id_is kv.1 r && negb (kv.1 =? id)%string) entries))
      (records c "devices").
Proof.
  revert c acc. induction entries as [|[old v] entries IH]; intros c acc Hc Hb H; cbn [remove_sources] in H.
  { injection H as <- <-. split_and!; [done|done|done|]. cbn [existsb negb].
    by rewrite filter_all. }
  do 2 step_ok H. destruct (batch_event_ok _ _ _ _ _ _ _ Hb E0) as [Hb1 _].
  assert (Hx : doc_ok a /\ (forall k, k <> "devices" -> get (root a) k = get (root c) k) /\
    records a "devices" = List.filter (fun r => negb (id_is old r && negb (old =? id)%string)) (records c "devices")).
  { destruct (old =? id)%string; cbn [negb].
    - injection E as <-. split_and!; [done|done|]. rewrite filter_all; [done|]. intros x. by rewrite andb_false_r.
    - apply remove_record_ok in E as (H1 & H2 & H3); [|done|vm_compute; set_solver]. split_and!; [done|done|].
      rewrite H3. apply List.filter_ext. intros x. by rewrite andb_true_r. }
  destruct Hx as (Ha & Hne & Hrec). destruct (IH _ _ Ha Hb1 H) as (Hc' & Hb' & Hne' & Hrec').
  split_and!; [done|done|intros k Hk; by rewrite Hne', Hne|]. rewrite Hrec', Hrec, filter_filter_and.
  apply List.filter_ext. intros x. cbn [existsb fst]. by rewrite negb_orb.
Qed.

Lemma consolidate_steps (s : Store St) app m rs now r :
  doc_ok (document s) -> uniq m = true -> prepare_consolidate s app m rs now = Ok r ->
  (exists n, batch (sequence s) (co_events r, n)) /\
  (exists c1 c2 entries, as_object rs = Some entries /\ doc_ok c2 /\
     records c2 "devices" = List.filter (fun x => negb (existsb (fun kv => id_is kv.1 x && negb (kv.1 =? text m "id")%string) entries))
                              (records c1 "devices") /\
     Scenes.reconcile c2 = Ok (co_document r)) /\
  Z.of_nat (length (co_triggers r)) <= Triggers.MAX_TRIGGERS /\ Z.of_nat (length (co_trips r)) <= 256.
Proof.
  intros Hd Hm H. unfold prepare_consolidate in H. do 7 step_ok H. do 4 step_ok H.
  destruct (record_props _ _ _ _ Hd E2) as (Hu1 & Hid1 & Hin1).
  pose proof (keep_identity_edits _ _ _ _ E3 ltac:(vm_compute; set_solver) Hu1) as K1.
  destruct (normalize_device_ok _ _ _ _ E7) as [K2 Hcl].
  pose proof (edits_set _ _ _ _ E8 ltac:(done) eq_refl) as K3.
  assert (K : edits m a6) by (etrans; [exact K1|]; etrans; [exact K2|exact K3]).
  assert (Hne : text a6 "id" <> EmptyString).
  { rewrite (proj2 K), <-Hid1. destruct (doc_records _ "devices" Hd) as [_ (_ & Hne & _)]; [vm_compute; set_solver|].
    rewrite Forall_forall in Hne. apply Hne, list_elem_of_fmap. by exists a1. }
  apply replace_record_ok in E9 as [Hd7 _]; [|done|vm_compute; set_solver|by apply K|done|].
  2:{ intros _. eapply clean_set; [|exact E8|vm_compute; set_solver]. by apply Hcl, K1. }
  destruct (rewrite_references s a7 rs now _) as [[c1 acc1]|] eqn:R1; cbn [mbind result_bind] in H; [|done].
  destruct (rewrite_references_ok _ _ _ _ _ _ _ _ Hd Hd7 (batch_nil _) R1) as (Hd1 & Hb1 & _).
  destruct (remove_sources s _ a0 c1 acc1) as [[c2 acc2]|] eqn:R2; cbn [mbind result_bind] in H; [|done].
  destruct (remove_sources_ok _ _ _ _ _ _ _ _ Hd1 Hb1 R2) as (Hd2 & Hb2 & _ & Hrec).
  do 3 step_ok H. injection H as <-. cbn [co_document co_events co_triggers co_trips].
  split_and!.
  - exists acc2.2. by destruct acc2.
  - exists c1, c2, a0. split_and!; [by destruct (as_object rs); [injection E0 as ->|]|done|done|done].
  - by eapply push_all_bound.
  - by eapply push_all_bound.
Qed.
Lemma prepare_consolidate_ok (s : Store St) app m rs now r :
  doc_ok (document s) -> uniq m = true -> prepare_consolidate s app m rs now = Ok r ->
  doc_ok (co_document r) /\
  (exists n, batch (sequence s) (co_events r, n)) /\
  Z.of_nat (length (co_triggers r)) <= Triggers.MAX_TRIGGERS /\ Z.of_nat (length (co_trips r)) <= 256.
Proof.
  intros Hd Hm H. destruct (consolidate_steps _ _ _ _ _ _ Hd Hm H) as (Hb & (c1 & c2 & es & _ & Hd2 & _ & Hr) & Ht & Hp).
  split_and!; [by eapply reconcile_ok|done|done|done].
Qed.
End Ops.
