(* ===== verification/StoreOk.v ===== *)
(** * StoreOk: the invariant of the owner

    [store_ok] is what holds of a store between operations: a document that decodes, an event
    log without gaps, bounded queues, and at most one entry per device or app in every table.
    [run_op_ok]: every operation keeps it. *)

From Stdlib Require Import ZArith Lia Ascii String.
From S2P Require Import Prelude Text Errors Slots Float Value Json Time Document Stats Store StoreDoc References Media StoreInv StoreDocOps.
From S2P Require Flow Scenes Groups Triggers Manifest.

Local Open Scope Z_scope.

(** ** The event log *)

(** The log holds the last events before [n], in order and without gaps. *)
Record event_log (n : Z) (evs : list Event) : Prop := {
  el_bound : (length evs <= EVENT_CAPACITY)%nat;
  el_start : Z.of_nat (length evs) <= n;
  el_first : evs = [] -> n = 0;
  el_seq : forall i e, evs !! i = Some e -> ev_sequence e = n - Z.of_nat (length evs) + 1 + Z.of_nat i
}.

Lemma event_log_new : event_log 0 [].
Proof. split; cbn; [lia|lia|done|]. intros i e Hi. by rewrite lookup_nil in Hi. Qed.

Lemma event_log_push n evs e :
  event_log n evs -> ev_sequence e = n + 1 ->
  event_log (n + 1) ((if (length evs =? EVENT_CAPACITY)%nat then tail evs else evs) ++ [e]).
Proof.
  intros [H1 H2 _ H4] He. destruct (Nat.eqb_spec (length evs) EVENT_CAPACITY) as [Hl|Hl].
  - destruct evs as [|x evs]; [done|]. cbn [tail length] in *.
    split; [rewrite length_app; cbn; lia|rewrite length_app; cbn; lia|by destruct evs|].
    intros i e' Hi. rewrite length_app. cbn [length].
    apply lookup_app_Some in Hi as [Hi|[Hge Hi]]; [rewrite (H4 (S i) e' Hi); lia|].
    apply list_lookup_singleton_Some in Hi as [Hi <-]. lia.
  - split; [rewrite length_app; cbn; unfold EVENT_CAPACITY in *; lia|rewrite length_app; cbn; lia|by destruct evs|].
    intros i e' Hi. rewrite length_app. cbn [length].
    apply lookup_app_Some in Hi as [Hi|[Hge Hi]]; [rewrite (H4 i e' Hi); lia|].
    apply list_lookup_singleton_Some in Hi as [Hi <-]. lia.
Qed.

Lemma event_log_restart n e : 0 <= n -> ev_sequence e = n + 1 -> event_log (n + 1) [e].
Proof.
  intros Hn He. split; cbn; [unfold EVENT_CAPACITY; lia|lia|done|].
  intros i x Hi. apply list_lookup_singleton_Some in Hi as [-> <-]. lia.
Qed.

Lemma batch_cons n0 e evs n : batch n0 (e :: evs, n) -> ev_sequence e = n0 + 1 /\ batch (n0 + 1) (evs, n).
Proof.
  intros [H1 H2]. cbn [fst snd length] in *. split; [rewrite (H2 0%nat e eq_refl); lia|].
  split; cbn [fst snd]; [lia|]. intros i x Hi. rewrite (H2 (S i) x Hi). lia.
Qed.

(** ** The tables *)

Lemma update_first_map {A B} (p : A -> bool) (f : A -> A) (g : A -> B) l :
  (forall x, p x = true -> g (f x) = g x) -> map g (update_first p f l) = map g l.
Proof.
  intros Hf. induction l as [|x l IH]; [done|]. cbn. destruct (p x) eqn:E; cbn; [by rewrite Hf|by rewrite IH].
Qed.

Lemma nodup_filter {A B} (g : A -> B) (p : A -> bool) l : NoDup (map g l) -> NoDup (map g (List.filter p l)).
Proof.
  induction l as [|x l IH]; [done|]. cbn. intros [Hx Hl]%NoDup_cons.
  destruct (p x); cbn; [|by apply IH]. apply NoDup_cons. split; [|by apply IH].
  contradict Hx. apply list_elem_of_fmap in Hx as (y & -> & Hy). apply filter_elem in Hy as [Hy _].
  apply list_elem_of_fmap. by exists y.
Qed.

Lemma nodup_snoc {A B} (g : A -> B) l x : NoDup (map g l) -> g x ∉ map g l -> NoDup (map g (l ++ [x])).
Proof.
  intros Hl Hx. rewrite map_app. apply NoDup_app. split; [done|]. split; [|apply NoDup_singleton].
  intros y Hy Hs. apply list_elem_of_singleton in Hs as ->. done.
Qed.

Lemma find_none_map {A} (g : A -> string) id l :
  find (fun x => (g x =? id)%string) l = None -> id ∉ map g l.
Proof.
  induction l as [|x l IH]; cbn; [by intros _ ?%elem_of_nil|]. destruct (String.eqb_spec (g x) id) as [|Hn]; [done|].
  intros Hf [->|Hin]%elem_of_cons; [done|]. by apply IH.
Qed.

Lemma existsb_none_map {A} (g : A -> string) id l :
  existsb (fun x => (g x =? id)%string) l = false -> id ∉ map g l.
Proof.
  induction l as [|x l IH]; cbn; [by intros _ ?%elem_of_nil|]. destruct (String.eqb_spec (g x) id) as [|Hn]; [done|].
  intros Hf [->|Hin]%elem_of_cons; [done|]. by apply IH.
Qed.

(** At most one entry per key and at most [MAX_RECORDS] entries. *)
Definition table {A} (g : A -> string) (l : list A) : Prop :=
  NoDup (map g l) /\ Z.of_nat (length l) <= MAX_RECORDS.

Lemma table_nil {A} (g : A -> string) : table g [].
Proof. split; [constructor|done]. Qed.

Lemma table_filter {A} (g : A -> string) p l : table g l -> table g (List.filter p l).
Proof. intros [H1 H2]. split; [by apply nodup_filter|]. pose proof (List.filter_length_le p l). lia. Qed.

Lemma table_update {A} (g : A -> string) p f l :
  (forall x, p x = true -> g (f x) = g x) -> table g l -> table g (update_first p f l).
Proof.
  intros Hf [H1 H2]. pose proof (update_first_map p f g l Hf) as Hm. split; [by rewrite Hm|].
  apply (f_equal length) in Hm. rewrite !length_map in Hm. lia.
Qed.

Lemma table_push {A} (g : A -> string) l x l' :
  table g l -> g x ∉ map g l -> push l x MAX_RECORDS = Ok l' -> table g l'.
Proof.
  intros [H1 H2] Hx [Hb ->]%push_Ok. split; [by apply nodup_snoc|]. rewrite length_app. cbn. lia.
Qed.

Lemma Forall_kept {A} (P : A -> Prop) p l : Forall P l -> Forall P (List.filter p l).
Proof. rewrite !Forall_forall. intros H x [Hx _]%filter_elem. auto. Qed.

Lemma Forall_update {A} (P : A -> Prop) p f l :
  Forall P l -> (forall x, P x -> P (f x)) -> Forall P (update_first p f l).
Proof. intros Hl Hf. induction Hl as [|x l Hx Hl IH]; cbn; [done|]. destruct (p x); auto. Qed.

Section Ok.
Context {St : Type} {HS : Storage St}.

(** ** The invariant *)

Record store_ok (s : Store St) : Prop := {
  so_doc : doc_ok (document s);
  so_log : event_log (sequence s) (events s);
  so_triggers : Z.of_nat (length (triggers s)) <= Triggers.MAX_TRIGGERS;
  so_trips : Z.of_nat (length (scene_trips s)) <= 256;
  so_images : (length (images s) <= MAX_IMAGES)%nat;
  so_stats : stats_ok (statistics s);
  so_apps : table app_id (apps s);
  so_media : table fst (media s);
  so_live : NoDup (map ob_id (live s));
  so_caches : NoDup (map fst (caches s));
  so_states : Forall (fun o => uniq (ob_state o) = true) (live s);
  so_cached : Forall (fun kv => uniq kv.2 = true) (caches s)
}.

(** Arguments as the parser gives them: no object has a key twice. *)
Definition op_ok (op : Op) : Prop :=
  match op with
  | OpPut _ r _ _ _ => uniq r = true
  | OpSetting _ _ v => forall w, v = Some w -> uniq w = true
  | OpAppState _ v | OpSystem v | OpObserve _ _ v _ _ => uniq v = true
  | OpConsolidate _ m _ _ => uniq m = true
  | OpBeginScene _ l | OpSceneRemaining _ l => Forall (fun v => uniq v = true) l
  | _ => True
  end.

Ltac keep := constructor; cbn; auto.

Lemma ok_storage (s : Store St) st : store_ok s -> store_ok (with_storage s st).
Proof. intros []. keep. Qed.

Lemma ok_publish (s : Store St) e : store_ok s -> ev_sequence e = sequence s + 1 -> store_ok (publish e s).
Proof. intros [] He. keep. rewrite He. by apply event_log_push. Qed.

Lemma ok_save (s : Store St) c st : store_ok s -> doc_ok c -> store_ok (with_document (with_storage s st) c).
Proof. intros [] Hc. keep. Qed.

Lemma ok_commit (s : Store St) c e st :
  store_ok s -> doc_ok c -> ev_sequence e = sequence s + 1 ->
  store_ok (publish e (with_document (with_storage s st) c)).
Proof. intros Hs Hc He. apply ok_publish; [by apply ok_save|done]. Qed.

Lemma ok_publish_all evs (s : Store St) :
  store_ok s -> (exists n, batch (sequence s) (evs, n)) -> store_ok (publish_all evs s).
Proof.
  unfold publish_all. revert s. induction evs as [|e evs IH]; intros s Hs [n Hb]; [done|]. cbn [fold_left].
  apply batch_cons in Hb as [He Hb]. apply IH; [by apply ok_publish|]. exists n. by rewrite publish_sequence, He.
Qed.

Lemma ok_stats (s : Store St) x f r : store_ok s -> stats_ok x -> store_ok (with_stats s x f r).
Proof. intros [] Hx. keep. Qed.

Lemma ok_collect id name v (s : Store St) : store_ok s -> store_ok (collect id name v s).
Proof.
  intros Hs. unfold collect. destruct (statistics_enabled s); [|done].
  pose proof (observe_ok (statistics s) id name v (clock_ms s) (so_stats _ Hs)) as Ho.
  destruct (Stats.observe _ _ _ _ _) as [[[]|e] st]; [by apply ok_stats|].
  destruct (statistics_reported s); by apply ok_stats.
Qed.

Lemma collect_frame id name v (s : Store St) :
  sequence (collect id name v s) = sequence s /\ triggers (collect id name v s) = triggers s /\
  scene_trips (collect id name v s) = scene_trips s.
Proof.
  unfold collect. destruct (statistics_enabled s); [|done].
  destruct (Stats.observe _ _ _ _ _) as [[[]|e] st]; [done|]. by destruct (statistics_reported s).
Qed.

Lemma ok_put_cache c (s : Store St) :
  store_ok s -> (forall k v, c = Some (k, v) -> uniq v = true) -> store_ok (put_cache c s).
Proof.
  intros Hs Hc. unfold put_cache. destruct c as [[id v]|]; [|done]. specialize (Hc id v eq_refl).
  destruct (existsb _ (caches s)) eqn:E; destruct Hs; keep.
  - by rewrite update_first_map.
  - by apply Forall_update.
  - apply nodup_snoc; [done|]. by apply existsb_none_map in E.
  - apply Forall_app. by repeat constructor.
Qed.

Lemma prepare_cache_uniq (s : Store St) id r k v :
  uniq r = true -> prepare_cache s id r = Ok (Some (k, v)) -> uniq v = true.
Proof.
  intros Hu. unfold prepare_cache. destruct (get r "store") as [w|] eqn:Eg; [|done].
  cbn [mbind option_bind]. destruct w as [| | | | |o]; try done. cbn [as_object].
  destruct (bool_decide _); [done|]. destruct (_ && _); [done|]. intros [= _ <-].
  apply (uniq_get _ _ _ Hu) in Eg. apply uniq_object in Eg as [Hn Hf]. apply uniq_object.
  split; [by apply nodup_filter|by apply Forall_kept].
Qed.

Lemma prepare_put_cache (s : Store St) c r create rev now d e cache k v :
  uniq r = true -> prepare_put s c r create rev now = Ok (d, e, cache) ->
  cache = Some (k, v) -> uniq v = true.
Proof.
  intros Hu H ->. unfold prepare_put in H.
  destruct (collection_events c) as [[[[m cr] up] del]|]; cbn [mbind result_bind] in H; [|done].
  destruct (is_empty _); [done|].
  destruct (if (c =? "devices")%string then _ else _) as [ca|] eqn:Ec; cbn [mbind result_bind] in H; [|done].
  repeat step_ok H. injection H as _ _ ->. destruct (c =? "devices")%string; [|done].
  by eapply prepare_cache_uniq.
Qed.

Lemma ok_forget c id (s : Store St) : store_ok s -> store_ok (forget c id s).
Proof.
  intros []. unfold forget.
  destruct (c =? "apps")%string, (c =? "devices")%string; keep; auto using table_filter, nodup_filter, Forall_kept.
Qed.

Lemma ok_tick t (s : Store St) : store_ok s -> store_ok (store_tick t s).
Proof.
  intros Hs. unfold store_tick.
  assert (Hc : store_ok (with_clock s t)) by (destruct Hs; keep).
  destruct (statistics_enabled _); [|done]. apply ok_stats; [done|]. apply tick_ok, Hc.
Qed.

Lemma ok_with_triggers (s : Store St) l :
  store_ok s -> Z.of_nat (length l) <= Triggers.MAX_TRIGGERS -> store_ok (with_triggers s l).
Proof. intros [] Hl. keep. Qed.

Lemma ok_with_trips (s : Store St) l : store_ok s -> Z.of_nat (length l) <= 256 -> store_ok (with_trips s l).
Proof. intros [] Hl. keep. Qed.

Lemma ok_with_apps (s : Store St) l : store_ok s -> table app_id l -> store_ok (with_apps s l).
Proof. intros [] Hl. keep. Qed.

Lemma ok_with_media (s : Store St) l : store_ok s -> table fst l -> store_ok (with_media s l).
Proof. intros [] Hl. keep. Qed.

Lemma exceeds_false {A B} (new : list A) limit (used : list B) :
  exceeds new limit used = false -> Z.of_nat (length used) <= limit ->
  Z.of_nat (length used) + Z.of_nat (length new) <= limit.
Proof. unfold exceeds, saturating_sub. intros H%Z.ltb_ge Hu. lia. Qed.

(** A new store. *)
Lemma open_ok bytes (st : St) s : open bytes st = Ok s -> store_ok s.
Proof.
  unfold open. intros H. step_ok H. step_ok H. injection H as <-.
  apply decode_ok in E. destruct (reconcile_ok _ _ E E0) as [Hd _].
  constructor; cbn; auto using event_log_new, stats_new_ok, table_nil, NoDup_nil_2; unfold Triggers.MAX_TRIGGERS; lia.
Qed.

(** ** Every operation keeps it *)

(** [m] keeps the invariant when it succeeds. *)
Definition keeps {A} (m : M (St := St) A) : Prop :=
  forall s a s', store_ok s -> m s = (Ok a, s') -> store_ok s'.

Lemma bind_get {A} (k : Store St -> M A) s : bindM getM k s = k s s.
Proof. done. Qed.

Lemma bind_lift {A B} (r : Result A) (k : A -> M (St := St) B) s :
  bindM (liftR r) k s = match r with Ok a => k a s | Err e => (Err e, s) end.
Proof. by destruct r. Qed.

Lemma commit_keeps c e {A} (k : unit -> M (St := St) A) s a s' :
  store_ok s -> doc_ok c -> ev_sequence e = sequence s + 1 ->
  bindM (commit c e) k s = (Ok a, s') ->
  exists s1, store_ok s1 /\ document s1 = c /\ k tt s1 = (Ok a, s').
Proof.
  intros Hs Hc He H. unfold bindM in H. destruct (commit c e s) as [r s1] eqn:E.
  destruct (commit_spec _ _ _ _ _ E) as [(er & -> & _)|(-> & bs & st & _ & _ & ->)]; [done|].
  exists (publish e (with_document (with_storage s st) c)). split_and!; [by apply ok_commit|done|done].
Qed.

Lemma commit_last c e s (a : unit) s' :
  store_ok s -> doc_ok c -> ev_sequence e = sequence s + 1 -> commit c e s = (Ok a, s') -> store_ok s'.
Proof.
  intros Hs Hc He E. destruct (commit_spec _ _ _ _ _ E) as [(er & ? & _)|(_ & bs & st & _ & _ & ->)]; [done|].
  by apply ok_commit.
Qed.

Lemma put_keeps c r create rev now : uniq r = true -> keeps (put c r create rev now).
Proof.
  intros Hu s a s' Hs H. unfold put in H. rewrite bind_get, bind_lift in H.
  destruct (prepare_put s c r create rev now) as [[[d e] cache]|] eqn:E; [|done].
  destruct (prepare_put_ok _ _ _ _ _ _ _ _ _ (so_doc _ Hs) Hu E) as (Hd & He & _).
  destruct (commit_keeps _ _ _ _ _ _ Hs Hd He H) as (s1 & Hs1 & _ & [= _ <-]). apply ok_put_cache; [done|].
  intros k v. by apply (prepare_put_cache _ _ _ _ _ _ _ _ _ _ _ Hu E).
Qed.

Lemma delete_keeps c id : keeps (delete c id).
Proof.
  intros s a s' Hs H. unfold delete in H. rewrite bind_get, bind_lift in H.
  destruct (prepare_delete s c id) as [[d e]|] eqn:E; [|done].
  destruct (prepare_delete_ok _ _ _ _ _ (so_doc _ Hs) E) as (Hd & He).
  destruct (commit_keeps _ _ _ _ _ _ Hs Hd He H) as (s1 & Hs1 & _ & [= _ <-]). by apply ok_forget.
Qed.

Lemma setting_keeps app key v : (forall w, v = Some w -> uniq w = true) -> keeps (setting app key v).
Proof.
  intros Hv s a s' Hs H. unfold setting in H. rewrite bind_get, bind_lift in H.
  destruct (prepare_setting s app key v) as [[d e]|] eqn:E; [|done].
  destruct (prepare_setting_ok _ _ _ _ _ _ (so_doc _ Hs) Hv E) as (Hd & He). by eapply commit_last.
Qed.

Lemma app_state_keeps app v : uniq v = true -> keeps (app_state app v).
Proof.
  intros Hv s a s' Hs H. unfold app_state in H. rewrite bind_get, bind_lift in H.
  destruct (prepare_app_state s app v) as [[d e]|] eqn:E; [|done].
  destruct (prepare_app_state_ok _ _ _ _ _ (so_doc _ Hs) Hv E) as (Hd & He). by eapply commit_last.
Qed.

Lemma system_keeps v : uniq v = true -> keeps (system v).
Proof.
  intros Hv s a s' Hs H. unfold system in H. rewrite bind_get, bind_lift in H.
  destruct (prepare_system s v) as [[d e]|] eqn:E; [|done].
  destruct (prepare_system_ok _ _ _ _ (so_doc _ Hs) Hv E) as (Hd & He).
  destruct (commit_keeps _ _ _ _ _ _ Hs Hd He H) as (s1 & Hs1 & _ & [= _ <-]).
  destruct (statistics_enabled s1); [done|]. apply ok_stats; [done|apply stats_new_ok].
Qed.

Lemma flow_result_keeps id ran err now : keeps (flow_result id ran err now).
Proof.
  intros s a s' Hs H. unfold flow_result in H. rewrite bind_get, bind_lift in H.
  destruct (record (document s) "flows" id) as [p|] eqn:Ep; [|done].
  destruct (time_is_before _ _); [by injection H as _ <-|]. rewrite bind_lift in H.
  destruct (prepare_flow_result s p ran err now) as [[d e]|] eqn:E; [|done].
  destruct (prepare_flow_result_ok _ _ _ _ _ _ _ _ (so_doc _ Hs) Ep E) as (Hd & He). by eapply commit_last.
Qed.

Lemma observe_keeps app id v av msg : uniq v = true -> keeps (observe app id v av msg).
Proof.
  intros Hv s a s' Hs H. unfold observe in H. rewrite bind_get, bind_lift in H.
  destruct (prepare_observe s app id v av msg) as [[[[[e all] trips] changes] name]|] eqn:E; [|done].
  injection H as _ <-. unfold prepare_observe in E. repeat step_ok E. injection E as <- <- <- <- <-.
  assert (Hlive : NoDup (map ob_id a6)).
  { destruct (find_live id s) eqn:El.
    - injection E9 as <-. rewrite update_first_map; [apply Hs|]. by intros x ->%String.eqb_eq.
    - apply push_Ok in E9 as [_ ->]. apply nodup_snoc; [apply Hs|]. by apply find_none_map in El. }
  assert (Hu : Forall (fun o => uniq (ob_state o) = true) a6).
  { destruct (find_live id s) eqn:El.
    - injection E9 as <-. apply Forall_update; [apply Hs|done].
    - apply push_Ok in E9 as [_ ->]. apply Forall_app. split; [apply Hs|by repeat constructor]. }
  assert (H1 : store_ok (with_live s a6)) by (destruct Hs; keep).
  apply (ok_collect id (text a0 "name") v) in H1 as H2.
  destruct (collect_frame id (text a0 "name") v (with_live s a6)) as (Hq & Ht & Hp).
  apply ok_publish; [|cbn; rewrite Hq; by eapply event_seq].
  apply ok_with_trips; [apply ok_with_triggers; [done|]|]; rewrite ?Ht, ?Hp, length_app, Nat2Z.inj_add.
  - apply (exceeds_false _ _ _ E6), Hs.
  - apply (exceeds_false _ _ _ E4), Hs.
Qed.

Lemma scene_state_keeps id r sc s a s' :
  store_ok s -> record (document s) "scenes" id = Ok r -> edits r sc ->
  commit_scene_state id sc s = (Ok a, s') -> store_ok s'.
Proof.
  intros Hs Hr He H. destruct (scene_state_spec _ _ _ _ _ H) as
    [(er & ? & _)|(_ & c & e & ch & dev & new & bs & st & e2 & Hp & _ & _ & -> & ->)]; [done|].
  destruct (prepare_scene_state_ok _ _ _ _ _ _ _ _ _ (so_doc _ Hs) Hr He Hp) as (Hc & Hse & Htr).
  cbn zeta. set (s1 := publish _ (publish _ _)).
  assert (H1 : store_ok s1).
  { apply ok_publish; [by apply ok_commit|]. rewrite publish_sequence, Hse. cbn. lia. }
  apply (ok_collect (text dev "id") (text dev "name") new) in H1 as H2.
  apply ok_with_triggers; [done|]. destruct (collect_frame (text dev "id") (text dev "name") new s1) as (_ & -> & _).
  apply Htr, Hs.
Qed.

Lemma begin_scene_keeps id l : Forall (fun v => uniq v = true) l -> keeps (begin_scene id l).
Proof.
  intros Hl s a s' Hs H. unfold begin_scene in H. rewrite bind_get, bind_lift in H.
  destruct (record (document s) "scenes" id) as [r|] eqn:Er; [|done].
  destruct (text r "kind" =? "button")%string; [done|].
  destruct (boolean r "active"); [by injection H as _ <-|]. rewrite bind_lift in H.
  destruct (Scenes.validate_states l); [|done]. rewrite bind_lift in H.
  destruct (set r "previous" (VArray l)) as [r1|] eqn:E1; [|done]. rewrite bind_lift in H.
  destruct (set r1 "active" (VBool true)) as [r2|] eqn:E2; [|done].
  unfold bindM in H. destruct (commit_scene_state id r2 s) as [[]] eqn:Ec; [|done]. injection H as _ <-.
  eapply scene_state_keeps; [done|done| |exact Ec].
  etrans; [eapply edits_set; [exact E1|done|by apply uniq_array]|]. by eapply edits_set.
Qed.

Lemma scene_remaining_keeps id l : Forall (fun v => uniq v = true) l -> keeps (scene_remaining id l).
Proof.
  intros Hl s a s' Hs H. unfold scene_remaining in H. rewrite bind_lift in H.
  destruct (Scenes.validate_states l); [|done]. rewrite bind_get, bind_lift in H.
  destruct (record (document s) "scenes" id) as [r|] eqn:Er; [|done].
  destruct (text r "kind" =? "button")%string; [done|]. rewrite bind_lift in H.
  destruct (set r "active" _) as [r1|] eqn:E1; [|done]. rewrite bind_lift in H.
  destruct (set r1 "previous" _) as [r2|] eqn:E2; [|done].
  eapply scene_state_keeps; [done|done| |exact H].
  etrans; [by eapply edits_set|]. eapply edits_set; [exact E2|done|by apply uniq_array].
Qed.

Lemma reorder_keeps g l : keeps (reorder_devices g l).
Proof.
  intros s a s' Hs H. unfold reorder_devices in H. rewrite bind_get, bind_lift in H.
  destruct (prepare_reorder s g l) as [[d e]|] eqn:E; [|done].
  destruct (prepare_reorder_ok _ _ _ _ _ (so_doc _ Hs) E) as (Hd & He). by eapply commit_last.
Qed.

Lemma trigger_keeps app p : keeps (trigger app p).
Proof.
  intros s a s' Hs H. unfold trigger in H. rewrite bind_get, bind_lift in H.
  destruct (prepare_trigger s app p) as [all|] eqn:E; [|done]. injection H as _ <-.
  unfold prepare_trigger in E. repeat step_ok E. apply push_Ok in E as [Hlt ->].
  apply ok_with_triggers; [done|]. rewrite length_app. cbn. lia.
Qed.

Lemma replace_references_keeps app rs now : keeps (replace_references app rs now).
Proof.
  intros s a s' Hs H. unfold replace_references in H. rewrite bind_get, bind_lift in H.
  destruct (validate_replacements s app rs); [|done].
  destruct (match as_object rs with Some [] => true | _ => false end); [by injection H as _ <-|].
  rewrite bind_lift in H.
  destruct (rewrite_references s (document s) rs now ([], sequence s)) as [[c acc]|] eqn:E; [|done].
  destruct (rewrite_references_ok _ _ _ _ _ _ _ _ (so_doc _ Hs) (so_doc _ Hs) (batch_nil _) E) as (Hc & Hb & _).
  destruct (bool_decide (acc.1 = [])); [by injection H as _ <-|]. rewrite bind_lift in H.
  destruct (Scenes.reconcile c) as [c'|] eqn:Er; [|done].
  unfold bindM in H. destruct (save c' s) as [r s1] eqn:Es.
  destruct (save_spec _ _ _ _ Es) as [(er & -> & _)|(-> & bs & st & _ & _ & ->)]; [done|]. injection H as _ <-.
  apply ok_publish_all; [|exists acc.2; by destruct acc]. apply ok_save; [done|]. by eapply reconcile_ok.
Qed.

Lemma not_replaced_false rs k v id :
  get rs id = Some v -> not_replaced rs k = true -> k <> id.
Proof. unfold not_replaced. intros Hg Hn ->. rewrite Hg in Hn. by rewrite bool_decide_eq_true_2 in Hn. Qed.

Lemma nodup_replaced {A} (g : A -> string) rs id v (l : list A) x :
  get rs id = Some v -> g x = id -> NoDup (map g l) ->
  NoDup (map g (List.filter (fun y => not_replaced rs (g y)) l ++ [x])).
Proof.
  intros Hg Hx Hl. apply nodup_snoc; [by apply nodup_filter|].
  intros (y & Hy & Hin)%list_elem_of_fmap. apply filter_elem in Hin as [_ Hn].
  apply (not_replaced_false _ _ _ _ Hg Hn). congruence.
Qed.

Lemma copy_field_uniq from cap target out out' :
  uniq from = true -> uniq out = true -> copy_field from cap target out = Ok out' -> uniq out' = true.
Proof.
  unfold copy_field. destruct (get from cap) as [v|] eqn:E; [|by intros _ ? [= <-]].
  intros Hf Ho H. apply (uniq_get _ _ _ Hf) in E. by eapply uniq_set.
Qed.

Lemma route_caps_uniq (s : Store St) merged old caps : forall acc acc',
  store_ok s -> uniq (rt_state acc) = true -> route_caps s merged old caps acc = Ok acc' ->
  uniq (rt_state acc') = true.
Proof.
  induction caps as [|[cap v] caps IH]; intros acc acc' Hs Ha H; cbn [route_caps] in H;
    [by injection H as <-|].
  step_ok H. destruct (_ || _ || _); [done|]. step_ok H.
  destruct (find_live old s) as [o|] eqn:El; [|by eapply IH; [done| |exact H]].
  destruct (copy_field (ob_state o) cap _ _) as [st|] eqn:Ec; cbn [mbind result_bind] in H; [|done].
  destruct (copy_field (ob_revisions o) cap _ _) as [rv|]; cbn [mbind result_bind] in H; [|done].
  eapply IH; [done| |exact H]. eapply copy_field_uniq; [|exact Ha|exact Ec].
  apply find_some in El as [El _]. apply list_elem_of_In in El.
  pose proof (so_states _ Hs) as HF. rewrite Forall_forall in HF. by apply HF.
Qed.

Lemma route_entries_uniq (s : Store St) merged previous id es : forall acc acc',
  store_ok s -> uniq (rt_state acc) = true -> route_entries s merged previous id es acc = Ok acc' ->
  uniq (rt_state acc') = true.
Proof.
  induction es as [|[old r] es IH]; intros acc acc' Hs Ha H; cbn [route_entries] in H;
    [by injection H as <-|].
  repeat step_ok H. eapply IH; [done| |exact H]. by eapply route_caps_uniq.
Qed.

(** What the consolidation adds belongs to the surviving device, which is one of the sources. *)
Lemma consolidate_survivor (s : Store St) app m rs now r :
  prepare_consolidate s app m rs now = Ok r ->
  store_ok s -> uniq m = true ->
  (exists v, get rs (text m "id") = Some v) /\ ob_id (co_observation r) = text m "id" /\
  uniq (ob_state (co_observation r)) = true /\
  forall k c, co_cache r = Some (k, c) -> k = text m "id" /\ uniq c = true.
Proof.
  intros H Hs Hu. unfold prepare_consolidate in H. do 3 step_ok H. do 8 step_ok H.
  destruct (rewrite_references s _ rs now _) as [[c1 acc1]|]; cbn [mbind result_bind] in H; [|done].
  destruct (remove_sources s _ _ c1 acc1) as [[c2 acc2]|]; cbn [mbind result_bind] in H; [|done].
  do 3 step_ok H. injection H as <-. cbn. split_and!; [|done| |].
  - apply orb_false_iff in E1 as [_ E1]. apply negb_false_iff, bool_decide_eq_true in E1 as [v Hv]. by exists v.
  - by eapply route_entries_uniq; [exact Hs| |exact E4].
  - intros k c ->. split.
    2:{ eapply prepare_cache_uniq; [|exact E6].
        destruct (record_props _ _ _ _ (so_doc _ Hs) E2) as (Hu1 & _).
        by apply (keep_identity_edits _ _ _ _ E3 ltac:(vm_compute; set_solver) Hu1). }
    unfold prepare_cache in E6. destruct (_ ≫= as_object); [|done].
    destruct (bool_decide (List.filter _ _ = [])); [done|]. destruct (negb _ && _); [done|]. by injection E6 as <- _.
Qed.

Lemma consolidate_keeps app m rs now : uniq m = true -> keeps (consolidate_devices app m rs now).
Proof.
  intros Hu s a s' Hs H. unfold consolidate_devices in H. rewrite bind_get, bind_lift in H.
  destruct (prepare_consolidate s app m rs now) as [r|] eqn:E; [|done].
  destruct (prepare_consolidate_ok _ _ _ _ _ _ (so_doc _ Hs) Hu E) as (Hc & Hb & Ht & Hp).
  destruct (consolidate_survivor _ _ _ _ _ _ E Hs Hu) as ([v Hv] & Hob & Hst & Hca).
  unfold bindM in H. destruct (save (co_document r) s) as [r1 s1] eqn:Es.
  destruct (save_spec _ _ _ _ Es) as [(er & -> & _)|(-> & bs & st & _ & _ & ->)]; [done|]. injection H as _ <-.
  apply ok_publish_all; [|done]. destruct Hs. keep; auto using table_filter.
  - by eapply (nodup_replaced ob_id).
  - destruct (co_cache r) as [[k c]|] eqn:Eca.
    + eapply (nodup_replaced fst); [exact Hv|by eapply Hca|done].
    + rewrite app_nil_r. by apply nodup_filter.
  - apply Forall_app. split; [by apply Forall_kept|by repeat constructor].
  - apply Forall_app. split; [by apply Forall_kept|].
    destruct (co_cache r) as [[k c]|] eqn:Eca; [|done]. repeat constructor. by eapply Hca.
Qed.

Lemma media_keeps app p : keeps (register_media app p).
Proof.
  intros s a s' Hs H. unfold register_media in H. rewrite bind_get, bind_lift in H.
  destruct (prepare_media s app p) as [all|] eqn:E; [|done]. injection H as _ <-.
  apply ok_with_media; [done|]. unfold prepare_media in E. repeat step_ok E.
  destruct (existsb _ (media s)) eqn:Em.
  - injection E as <-. apply table_update; [done|apply Hs].
  - eapply table_push; [apply Hs| |exact E]. by apply existsb_none_map in Em.
Qed.

Lemma add_ticket_bound t now l : (length l <= MAX_IMAGES)%nat -> (length (add_ticket t now l) <= MAX_IMAGES)%nat.
Proof.
  intros Hl. unfold add_ticket. pose proof (List.filter_length_le (fun t => now <? im_expires t) l).
  set (k := List.filter _ l) in *. rewrite length_app. cbn [length].
  destruct (Nat.eqb_spec (length k) MAX_IMAGES); [destruct k; [done|]; cbn in *; lia|lia].
Qed.

Lemma share_keeps id dev slot now : keeps (share_image id dev slot now).
Proof.
  intros s a s' Hs H. unfold share_image in H. rewrite bind_get, bind_lift in H.
  destruct (prepare_share s id dev slot now) as [t|]; [|done]. injection H as _ <-.
  destruct Hs. keep. by apply add_ticket_bound.
Qed.

Lemma announce_keeps id m : keeps (announce id m).
Proof.
  intros s a s' Hs H. unfold announce in H. rewrite bind_get, bind_lift in H.
  destruct (Manifest.validate m); [|done]. destruct (negb _); [done|]. rewrite bind_lift in H.
  destruct (event s _ _ id) as [e|] eqn:Ee; [|done]. rewrite bind_lift in H.
  destruct (match find_app id s with Some _ => _ | None => _ end) as [all|] eqn:Ea; [|done]. injection H as _ <-.
  apply ok_publish; [|by eapply event_seq]. apply ok_with_apps; [done|]. destruct (find_app id s) eqn:Ef.
  - injection Ea as <-. apply table_update; [done|apply Hs].
  - eapply table_push; [apply Hs| |exact Ea]. by apply find_none_map in Ef.
Qed.

Lemma status_keeps id st : keeps (set_app_status id st).
Proof.
  intros s a s' Hs H. unfold set_app_status in H. rewrite bind_get in H.
  destruct (app_status id s =? st)%string; [by injection H as _ <-|]. rewrite bind_lift in H.
  destruct (event s _ _ id) as [e|] eqn:Ee; [|done]. rewrite bind_lift in H.
  destruct (match find_app id s with Some _ => _ | None => _ end) as [all|] eqn:Ea; [|done]. injection H as _ <-.
  apply ok_publish; [|destruct (negb _); by eapply event_seq].
  assert (H1 : store_ok (with_apps s all)).
  { apply ok_with_apps; [done|]. destruct (find_app id s) eqn:Ef.
    - injection Ea as <-. apply table_update; [done|apply Hs].
    - step_ok Ea. eapply table_push; [apply Hs| |exact Ea]. by apply find_none_map in Ef. }
  destruct (negb _); [|done]. unfold clear_app_media. apply ok_with_media; [done|]. apply table_filter, Hs.
Qed.

Lemma runtime_keeps id d : keeps (set_app_runtime id d).
Proof.
  intros s a s' Hs H. unfold set_app_runtime in H. rewrite bind_get in H.
  destruct (match app_runtime id s with Some _ => _ | None => _ end); [by injection H as _ <-|].
  rewrite bind_lift in H. destruct (event s _ _ id) as [e|] eqn:Ee; [|done]. rewrite bind_lift in H.
  destruct (ok_or _ _); [|done]. injection H as _ <-.
  apply ok_publish; [|by eapply event_seq]. apply ok_with_apps; [done|]. apply table_update; [done|apply Hs].
Qed.

Lemma restore_keeps bs : keeps (restore bs).
Proof.
  intros s a s' Hs H. unfold restore in H. rewrite bind_get, bind_lift in H.
  destruct (decode bs ≫= _) as [c|] eqn:Ec; [|done]. step_ok Ec. rewrite bind_lift in H.
  destruct (event s _ _ _) as [e|] eqn:Ee; [|done].
  unfold bindM in H. destruct (save c s) as [r1 s1] eqn:Es.
  destruct (save_spec _ _ _ _ Es) as [(er & -> & _)|(-> & b & st & _ & _ & ->)]; [done|]. injection H as _ <-.
  apply decode_ok in E. apply reconcile_ok in Ec as [Hc _]; [|done]. apply event_seq in Ee.
  constructor; cbn; auto using stats_new_ok, table_nil, NoDup_nil_2; try (unfold Triggers.MAX_TRIGGERS; lia).
  rewrite Ee. apply event_log_restart; [|done]. destruct (so_log _ Hs). lia.
Qed.

Lemma keeps_void {A} (m : M (St := St) A) : keeps m -> keeps (voidM m).
Proof.
  intros Hm s [] s' Hs H. unfold voidM, bindM in H. destruct (m s) as [[a|] s1] eqn:E; [|done].
  injection H as <-. by eapply Hm.
Qed.

Lemma keeps_modify f : (forall s, store_ok s -> store_ok (f s)) -> keeps (modifyM f).
Proof. intros Hf s [] s' Hs [= <-]. auto. Qed.

Lemma run_op_keeps op : op_ok op -> keeps (run_op op).
Proof.
  destruct op; cbn [op_ok run_op]; intros Hop; try apply keeps_void;
    eauto using put_keeps, delete_keeps, setting_keeps, app_state_keeps, system_keeps, flow_result_keeps,
      observe_keeps, begin_scene_keeps, scene_remaining_keeps, reorder_keeps, trigger_keeps,
      replace_references_keeps, consolidate_keeps, media_keeps, share_keeps, announce_keeps, status_keeps,
      runtime_keeps, restore_keeps; apply keeps_modify; intros s Hs.
  - destruct Hs. keep.
  - by apply ok_tick.
  - unfold take_trigger. destruct (triggers s) eqn:E; [done|]. apply ok_with_triggers; [done|].
    pose proof (so_triggers _ Hs) as Ht. rewrite E in Ht. cbn in Ht. cbn. lia.
  - unfold take_scene_trip. destruct (last (scene_trips s)); [|done]. apply ok_with_trips; [done|].
    pose proof (so_trips _ Hs) as Ht. rewrite List.removelast_firstn_len, length_firstn. lia.
  - apply ok_stats; [done|apply Hs].
Qed.

(** Whatever the outcome, the store stays valid. *)
Lemma run_op_ok op (s : Store St) r s' : op_ok op -> store_ok s -> run_op op s = (r, s') -> store_ok s'.
Proof.
  intros Hop Hs H. destruct r as [a|e]; [by eapply run_op_keeps|].
  apply run_op_atomic in H as [_ ->]. by apply ok_storage.
Qed.
End Ok.
