(* ===== verification/StoreProps.v ===== *)
(** * StoreProps: the contract of the owner

    The properties of the operations of the store: all or nothing, the invariant over any
    sequence of operations, the event log, optimistic concurrency, scene baselines, pairing
    identities, uninstalling and change cursors. *)

From Stdlib Require Import ZArith Lia Ascii String.
From S2P Require Import Prelude Text Errors Slots Float Value Json Time Document Stats Store StoreDoc References Media StoreInv StoreDocOps StoreOk.
From S2P Require Flow Scenes Groups Triggers Manifest.

Local Open Scope Z_scope.

(** ** A store for the witnesses *)

(** JSON with the quotes written as apostrophes. *)
Definition quoted (t : string) : list Z := map (fun c => if c =? 39 then 34 else c) (as_bytes t).

Lemma quoted_bytes t : Forall is_byte (quoted t).
Proof.
  unfold quoted. induction (as_bytes_is_byte t) as [|c l Hc _ IH]; cbn [map]; constructor; [|done].
  destruct (c =? 39); [unfold is_byte; lia|done].
Qed.

Definition json_of (t : string) : Value :=
  match parse_bounded (quoted t) 65536 with Ok v => v | Err _ => VNull end.

Definition sample_bytes : list Z := quoted
  "{'apps':[{'id':'hue','enabled':true}],'deviceGroups':[{'id':'g1','name':'Huis','parentId':'','sortOrder':1},{'id':'g2','name':'Keuken','parentId':'g1','sortOrder':1}],'devices':[{'id':'lamp','appId':'hue','driverId':'bulb','groupId':'g2','data':{'mac':1},'capabilities':['onoff'],'name':'Lamp'}],'scenes':[{'id':'film','name':'Film','kind':'switch','active':false,'previous':[],'revision':3,'states':[{'deviceId':'lamp','capabilityId':'onoff','value':false}]}],'flows':[{'id':'f1','name':'F','enabled':true,'revision':1,'nodes':[{'id':'t','step':{'appId':'hue','cardId':'on','cardType':'trigger','args':{'device':{'$device':'lamp'}}}}]}],'appSettings':{'hue':{'k':1}},'appState':{'hue':2}}".

Definition no_store : Store Memory :=
  mk_store (mk_doc VNull) "nl" "UTC" 0 stats_new None false MemoryStorage [] [] 0 [] [] [] [] [] [].

Definition sample : Store Memory :=
  Eval vm_compute in match open sample_bytes MemoryStorage with Ok s => s | Err _ => no_store end.

Lemma sample_opens : open sample_bytes MemoryStorage = Ok sample.
Proof. vm_compute. reflexivity. Qed.

Lemma sample_ok : store_ok sample.
Proof. exact (open_ok _ _ _ sample_opens). Qed.

(** ** All or nothing *)

(** C2: every operation of the owner is atomic.  When it fails, whatever the reason, nothing in
    memory has changed: no document, event, queue, table or observation, only what the storage
    itself did; and when it succeeds, the document is the old one or one the storage just
    acknowledged. *)
Theorem operation_is_atomic {St} {HS : Storage St} op (s : Store St) r s' :
  run_op op s = (r, s') ->
  match r with
  | Err _ => s' = with_storage s (storage s')
  | Ok _ => document s' = document s /\ storage s' = storage s \/
            exists bs, encode (document s') = Ok bs /\ storage_save bs (storage s) = (Ok tt, storage s')
  end.
Proof.
  intros H. destruct (run_op_atomic op s r s' H) as [Hs Hr]. destruct r as [a|e]; [|done].
  inversion Hs; subst; [by left|right; eauto].
Qed.

Lemma operation_is_atomic_witness :
  exists s', run_op (OpPut "devices" (json_of "{'id':'lamp','appId':'other'}") true None "t") sample
      = (Err (Conflict "record already exists"), s') /\ s' = with_storage sample (storage s').
Proof.
  eexists. split; [vm_compute; reflexivity|].
  exact (operation_is_atomic (OpPut "devices" (json_of "{'id':'lamp','appId':'other'}") true None "t")
    sample (Err (Conflict "record already exists")) sample ltac:(vm_compute; reflexivity)).
Defined.

(** ** The invariant over a run *)

Fixpoint run_ops {St} {HS : Storage St} (ops : list (Op)) (s : Store St) : list (Result unit) * Store St :=
  match ops with
  | [] => ([], s)
  | op :: ops => let (r, s1) := run_op op s in let (rs, s2) := run_ops ops s1 in (r :: rs, s2)
  end.

Lemma run_ops_ok {St} {HS : Storage St} ops (s : Store St) rs s' :
  Forall op_ok ops -> store_ok s -> run_ops ops s = (rs, s') -> store_ok s'.
Proof.
  intros Hops. revert s rs. induction Hops as [|op ops Hop _ IH]; intros s rs Hs H; cbn in H.
  { by injection H as <- <-. }
  destruct (run_op op s) as [r s1] eqn:E. destruct (run_ops ops s1) as [rs' s2] eqn:E'.
  injection H as _ <-. eapply IH; [|exact E']. by eapply run_op_ok.
Qed.

(** C6: a store opened from any bytes, after any sequence of operations with whatever outcome,
    still has a valid document (ids unique and non-empty, collections within bounds, no observed
    state or volatile key in it), an event log without gaps of at most 64 events, at most 256
    queued triggers and scene trips, at most eight image tickets, bounded statistics, and at
    most one entry per device or app in each of its tables. *)
Theorem every_run_keeps_the_invariant {St} {HS : Storage St} bytes (st : St) s ops rs s' :
  open bytes st = Ok s -> Forall op_ok ops -> run_ops ops s = (rs, s') -> store_ok s'.
Proof. intros Ho Hops H. eapply run_ops_ok; [exact Hops| |exact H]. by eapply open_ok. Qed.

Definition sample_ops : list Op :=
  [OpObserve "hue" "lamp" (json_of "{'onoff':true}") true ""; OpBeginScene "film" [];
   OpPut "notifications" (json_of "{'id':'n1','excerpt':' hoi '}") true None "2026-01-01T00:00:00Z";
   OpDelete "devices" "scene:film"; OpDelete "apps" "hue"].

Lemma every_run_keeps_the_invariant_witness :
  exists rs s', run_ops sample_ops sample = (rs, s') /\
    rs = [Ok tt; Ok tt; Ok tt; Err (Invalid "scene device must be deleted through its scene"); Ok tt] /\ store_ok s'.
Proof.
  destruct (run_ops sample_ops sample) as [rs s'] eqn:E. exists rs, s'. split_and!.
  - reflexivity.
  - apply (f_equal fst) in E. cbn [fst] in E. rewrite <- E. vm_compute. reflexivity.
  - refine (every_run_keeps_the_invariant sample_bytes MemoryStorage sample sample_ops rs s' sample_opens _ E).
    repeat constructor.
Defined.

(** ** The event log *)

(** The events after cursor [c] of a log without gaps: drop the ones up to it. *)
Lemma filter_after (c : Z) evs a :
  (forall i e, evs !! i = Some e -> ev_sequence e = a + Z.of_nat i) ->
  List.filter (fun e => c <? ev_sequence e) evs = drop (Z.to_nat (c - a + 1)) evs.
Proof.
  revert a. induction evs as [|e evs IH]; intros a Hs; [by rewrite drop_nil|]. cbn [List.filter].
  assert (Hs' : forall i x, evs !! i = Some x -> ev_sequence x = (a + 1) + Z.of_nat i).
  { intros i x Hx. rewrite (Hs (S i) x Hx). lia. }
  rewrite (Hs 0%nat e eq_refl), (IH (a + 1) Hs').
  destruct (Z.ltb_spec c (a + Z.of_nat 0)).
  - replace (Z.to_nat (c - a + 1)) with 0%nat by lia. replace (Z.to_nat (c - (a + 1) + 1)) with 0%nat by lia. done.
  - replace (Z.to_nat (c - a + 1)) with (S (Z.to_nat (c - (a + 1) + 1))) by lia. done.
Qed.

Lemma log_numbers evs a :
  (forall i e, evs !! i = Some e -> ev_sequence e = a + Z.of_nat i) ->
  map ev_sequence evs = seqZ a (Z.of_nat (length evs)).
Proof.
  intros Hs. apply list_eq. intros i. rewrite list_lookup_fmap. destruct (evs !! i) as [e|] eqn:E; cbn.
  - apply lookup_lt_Some in E as Hl. rewrite (Hs _ _ E). symmetry. apply lookup_seqZ. lia.
  - apply lookup_ge_None in E. symmetry. apply lookup_seqZ_ge. lia.
Qed.

(** A subscriber never misses an event silently.  [events_after] answers exactly when its
    cursor lies within the log, and then with every event after the cursor, numbered without
    gaps up to the last one published; any other cursor is refused with [Changed]. *)
Theorem events_after_is_complete {St} {HS : Storage St} (s : Store St) c :
  store_ok s -> 0 <= c ->
  match events_after c s with
  | Ok evs => sequence s - Z.of_nat (length (events s)) <= c <= sequence s /\
      evs = drop (length (events s) - Z.to_nat (sequence s - c)) (events s) /\
      map ev_sequence evs = seqZ (c + 1) (sequence s - c)
  | Err e => e = Changed /\ (c < sequence s - Z.of_nat (length (events s)) \/ sequence s < c)
  end.
Proof.
  intros Hs Hc. destruct (so_log _ Hs) as [_ H2 H3 H4]. unfold events_after.
  assert (Hfirst : match events s with e :: _ => c <? saturating_sub (ev_sequence e) 1 | [] => false end
                   = (c <? sequence s - Z.of_nat (length (events s)))).
  { destruct (events s) as [|e evs] eqn:E; [rewrite (H3 eq_refl); symmetry; apply Z.ltb_ge; cbn; lia|].
    rewrite (H4 0%nat e eq_refl). unfold saturating_sub. cbn [length] in *. f_equal. lia. }
  rewrite Hfirst. destruct (Z.ltb_spec (sequence s) c); [split; [done|lia]|].
  destruct (Z.ltb_spec c (sequence s - Z.of_nat (length (events s)))); [split; [done|lia]|].
  cbn [orb]. pose proof (filter_after c (events s) _ H4) as Hf. split; [lia|].
  assert (Hd : List.filter (fun e => c <? ev_sequence e) (events s)
               = drop (length (events s) - Z.to_nat (sequence s - c)) (events s)).
  { rewrite Hf. f_equal. lia. }
  split; [exact Hd|]. rewrite Hd. set (k := (length (events s) - Z.to_nat (sequence s - c))%nat).
  rewrite (log_numbers _ (c + 1)); [rewrite length_drop; f_equal; lia|].
  intros i e Hi. rewrite lookup_drop in Hi. rewrite (H4 _ _ Hi). lia.
Qed.

Lemma events_after_is_complete_witness :
  exists s', run_op (OpObserve "hue" "lamp" (json_of "{'onoff':true}") true "") sample = (Ok tt, s') /\
    match events_after 0 s' with
    | Ok evs => map ev_sequence evs = seqZ 1 (sequence s')
    | Err _ => False
    end.
Proof.
  destruct (run_op (OpObserve "hue" "lamp" (json_of "{'onoff':true}") true "") sample) as [r s'] eqn:E.
  pose proof (run_op_ok (OpObserve "hue" "lamp" (json_of "{'onoff':true}") true "") sample r s' eq_refl sample_ok E) as Hs.
  pose proof (events_after_is_complete s' 0 Hs ltac:(lia)) as Hp.
  exists s'. vm_compute in E. injection E as <- <-. split; [reflexivity|].
  vm_compute in Hp. vm_compute. exact (proj2 (proj2 Hp)).
Defined.

(** ** Optimistic concurrency *)

Lemma put_cache_document {St} {HS : Storage St} c (s : Store St) :
  document (put_cache c s) = document s /\ sequence (put_cache c s) = sequence s.
Proof. unfold put_cache. destruct c as [[id v]|]; [|done]. by destruct (existsb _ _). Qed.

Lemma put_Ok {St} {HS : Storage St} c r create rev now (s s1 : Store St) :
  put c r create rev now s = (Ok tt, s1) ->
  exists e cache, prepare_put s c r create rev now = Ok (document s1, e, cache).
Proof.
  unfold put. rewrite bind_get, bind_lift. destruct (prepare_put s c r create rev now) as [[[d e] cache]|]; [|done].
  intros H. exists e, cache. do 3 f_equal. unfold bindM in H. destruct (commit d e s) as [r1 s2] eqn:E.
  destruct (commit_spec _ _ _ _ _ E) as [(er & -> & _)|(-> & bs & st & _ & _ & ->)]; [done|].
  injection H as <-. symmetry. apply put_cache_document.
Qed.

(** The record a successful [put] leaves. *)
Lemma put_stores {St} {HS : Storage St} c r create rev now (s s1 : Store St) :
  store_ok s -> uniq r = true -> c <> "notifications" -> put c r create rev now s = (Ok tt, s1) ->
  exists r', put_record s c r create (res_ok (record (document s) c (text r "id"))) now = Ok r' /\
    record (document s1) c (text r "id") = Ok r' /\ text r' "id" = text r "id" /\ text r "id" <> EmptyString.
Proof.
  intros Hs Hu Hn H. apply put_Ok in H as (e & cache & H).
  destruct (prepare_put_ok _ _ _ _ _ _ _ _ _ (so_doc _ Hs) Hu H) as (Hd & _ & r' & Hp & Hid & Hne & Hc & Hrep & Hsc & Hu' & Hcl).
  exists r'. split_and!; try done. destruct (decide (c = "scenes")) as [->|Hns].
  - destruct (Hsc eq_refl) as (d1 & Hr & Hrec).
    assert (Hd1 : doc_ok d1) by (eapply replace_record_ok; [apply Hs|exact Hc|exact Hu'|congruence|exact Hcl|exact Hr]).
    apply reconcile_ok in Hrec as (_ & Hother & _); [|done]. specialize (Hother "scenes" ltac:(done)).
    unfold record. rewrite (records_ne _ _ _ Hother). fold (record d1 "scenes" (text r "id")).
    rewrite (record_after_replace _ _ _ _ _ (so_doc _ Hs) Hc Hn Hu' ltac:(congruence) Hcl Hr), Hid. by rewrite String.eqb_refl.
  - rewrite (record_after_replace _ _ _ _ _ (so_doc _ Hs) Hc Hn Hu' ltac:(congruence) Hcl (Hrep Hns)), Hid.
    by rewrite String.eqb_refl.
Qed.

Lemma inherit_get ks p r r' k : inherit ks p r = Ok r' -> k ∉ ks -> get r' k = get r k.
Proof.
  revert r. induction ks as [|x ks IH]; intros r H Hk; cbn [inherit] in H; [by injection H as <-|].
  apply not_elem_of_cons in Hk as [Hx Hk]. step_ok H. rewrite (IH _ H Hk).
  destruct (p ≫= _); [by eapply get_set_ne|by injection E as <-].
Qed.

Lemma scene_validate_revision r p r' : Scenes.validate r p = Ok r' -> uint r' "revision" = uint r "revision".
Proof.
  unfold Scenes.validate. intros H. repeat step_ok H.
  rewrite (uint_set_ne _ _ _ _ _ H), (uint_set_ne _ _ _ _ _ E6) by done.
  assert (Hk : uint a0 "revision" = uint a "revision").
  { destruct (is_empty (text a "kind")); [by eapply uint_set_ne|by injection E2 as <-]. }
  rewrite Hk. by eapply uint_set_ne.
Qed.

Lemma put_record_revision {St} {HS : Storage St} (s : Store St) c r create p now r' :
  is_revised c = true -> put_record s c r create p now = Ok r' ->
  uint r' "revision" = match p with Some q => uint q "revision" | None => 0 end + 1.
Proof.
  intros Hrev H. unfold put_record in H. rewrite Hrev in H. do 4 step_ok H. step_ok E.
  match goal with Hx : ok_or _ Full = Ok ?n |- _ => rename n into next; rename Hx into En end.
  assert (next = match p with Some q => uint q "revision" | None => 0 end + 1) as <-.
  { destruct (checked_add _ 1) eqn:Ec in En; [|done]. apply checked_add_Some in Ec as [-> _]. by injection En. }
  rewrite <- (uint_set_eq _ _ _ _ E). clear E En. unfold uint at 2.
  rewrite <- (inherit_get _ _ _ _ "revision" E0) by (vm_compute; set_solver).
  assert (H1 : get a1 "revision" = get a0 "revision").
  { destruct create; [by eapply get_set_ne|by injection E1 as <-]. }
  rewrite <- H1, <- (get_set_ne _ _ "revision" _ _ E2) by done. fold (uint a2 "revision").
  unfold is_revised in Hrev. apply orb_true_iff in Hrev as [->%String.eqb_eq | ->%String.eqb_eq]; unfold normalize in H; cbn [String.eqb Ascii.eqb Bool.eqb] in H.
  - do 3 step_ok H. injection H as <-. by eapply uint_set_ne.
  - step_ok H. by eapply scene_validate_revision.
Qed.

Lemma prepare_put_revision {St} {HS : Storage St} (s : Store St) c r create n now x :
  prepare_put s c r create (Some n) now = Ok x ->
  exists p, record (document s) c (text r "id") = Ok p /\ uint p "revision" = n.
Proof.
  unfold prepare_put. intros H.
  destruct (collection_events c) as [[[[m cr] up] del]|]; cbn [mbind result_bind] in H; [|done].
  do 5 step_ok H. destruct (record (document s) c (text r "id")) as [p|]; cbn in *; [|done].
  exists p. split; [done|]. apply negb_false_iff, bool_decide_eq_true in E3. congruence.
Qed.

Lemma prepare_put_changed {St} {HS : Storage St} (s : Store St) c r n now p :
  is_revised c = true -> text r "id" <> EmptyString -> record (document s) c (text r "id") = Ok p ->
  uint p "revision" <> n -> prepare_put s c r false (Some n) now = Err Changed.
Proof.
  intros Hrev Hid Hp Hn. unfold prepare_put.
  assert (Hc : exists a b x y, collection_events c = Ok (a, b, x, y) /\ (c =? "devices")%string = false).
  { unfold is_revised in Hrev. apply orb_true_iff in Hrev as [->%String.eqb_eq | ->%String.eqb_eq]; by repeat eexists. }
  destruct Hc as (a & b & x & y & -> & ->). cbn [mbind result_bind].
  assert (is_empty (text r "id") = false) as -> by (by apply String.eqb_neq).
  rewrite Hp. cbn [res_ok mbind result_bind]. rewrite !andb_false_l. cbn [negb].
  rewrite (bool_decide_eq_true_2 (is_Some (Some p))) by eauto. cbn [negb andb].
  by rewrite bool_decide_eq_false_2 by (cbn; congruence).
Qed.

(** No update is lost.  After an update that named revision [n] of a flow or scene, the
    stored record has revision [n + 1], and a second update that still names [n] is refused
    with [Changed] and changes nothing. *)
Theorem stale_update_is_refused {St} {HS : Storage St} c r r2 n now now2 (s s1 : Store St) :
  store_ok s -> uniq r = true -> is_revised c = true -> text r2 "id" = text r "id" ->
  put c r false (Some n) now s = (Ok tt, s1) ->
  (exists r', record (document s1) c (text r "id") = Ok r' /\ uint r' "revision" = n + 1) /\
  put c r2 false (Some n) now2 s1 = (Err Changed, s1).
Proof.
  intros Hs Hu Hrev Hid2 H. assert (Hnn : c <> "notifications") by (by intros ->).
  destruct (put_stores _ _ _ _ _ _ _ Hs Hu Hnn H) as (r' & Hp & Hrec & _ & Hne).
  apply put_Ok in H as (e & cache & H). apply prepare_put_revision in H as (p & Hpr & Hn).
  rewrite Hpr in Hp. apply put_record_revision in Hp as Hr'; [|done]. cbn [res_ok] in Hr'. rewrite Hn in Hr'.
  split; [by exists r'|]. unfold put. rewrite bind_get, bind_lift.
  rewrite (prepare_put_changed s1 c r2 n now2 r'); [done|done|congruence|congruence|lia].
Qed.

Lemma stale_update_is_refused_witness :
  exists s1, put "scenes" (json_of "{'id':'film','name':'Bioscoop','kind':'switch','states':[{'deviceId':'lamp','capabilityId':'onoff','value':true}]}")
      false (Some 3) "t" sample = (Ok tt, s1) /\
    put "scenes" (json_of "{'id':'film','name':'Oud'}") false (Some 3) "t" s1 = (Err Changed, s1).
Proof.
  eexists. split; [vm_compute; reflexivity|].
  refine (proj2 (stale_update_is_refused "scenes"
    (json_of "{'id':'film','name':'Bioscoop','kind':'switch','states':[{'deviceId':'lamp','capabilityId':'onoff','value':true}]}")
    (json_of "{'id':'film','name':'Oud'}") 3 "t" "t" sample _ sample_ok _ _ _ _)); vm_compute; reflexivity.
Defined.

(** ** The baseline of a scene *)

(** The scene [commit_scene_state] leaves is the one it was given, one revision later. *)
Lemma scene_state_stores {St} {HS : Storage St} id r sc (s s1 : Store St) a :
  store_ok s -> record (document s) "scenes" id = Ok r -> edits r sc ->
  commit_scene_state id sc s = (Ok a, s1) ->
  exists sc', record (document s1) "scenes" id = Ok sc' /\ (forall k, k <> "revision" -> get sc' k = get sc k).
Proof.
  intros Hs Hr He H. destruct (scene_state_spec _ _ _ _ _ H) as
    [(er & ? & _)|(_ & c & e & ch & dev & new & bs & st & e2 & Hp & _ & _ & -> & ->)]; [done|].
  destruct (record_props _ _ _ _ (so_doc _ Hs) Hr) as (Hu & Hid & Hin).
  unfold prepare_scene_state in Hp. do 8 step_ok Hp. step_ok Hp. injection Hp as <- <- <- <- <-.
  match goal with Hx : set sc "revision" _ = Ok ?x |- _ => rename Hx into Es; rename x into sc' end.
  match goal with Hx : replace_record _ _ _ = Ok ?x |- _ => rename Hx into Er; rename x into c' end.
  pose proof (edits_set _ _ _ _ Es ltac:(done) eq_refl) as He2.
  assert (Hne : text sc' "id" = id) by (rewrite (proj2 He2), (proj2 He); congruence).
  assert (Hid0 : id <> EmptyString).
  { rewrite <- Hid. destruct (doc_records _ "scenes" (so_doc _ Hs)) as [_ (_ & Hn & _)]; [vm_compute; set_solver|].
    rewrite Forall_forall in Hn. apply Hn, list_elem_of_fmap. by exists r. }
  exists sc'. split; [|intros k Hk; by eapply get_set_ne]. cbn zeta. set (s2 := publish _ _).
  cbn [document with_triggers]. rewrite (proj1 (framed_collect _ _ _ s2)). cbn [s2 document publish with_events with_document].
  assert (Hc : "scenes" ∈ COLLECTIONS) by (vm_compute; set_solver).
  rewrite (record_after_replace (document s) "scenes" sc' c' id (so_doc _ Hs) Hc ltac:(done)
    (proj1 He2 (proj1 He Hu)) ltac:(congruence) ltac:(done) Er), Hne. by rewrite String.eqb_refl.
Qed.

Lemma begin_scene_stores {St} {HS : Storage St} id previous (s s1 : Store St) :
  store_ok s -> Forall (fun v => uniq v = true) previous -> begin_scene id previous s = (Ok true, s1) ->
  (exists scene, record (document s1) "scenes" id = Ok scene /\ boolean scene "active" = true /\
     get scene "previous" = Some (VArray previous)) /\
  (exists bs, encode (document s1) = Ok bs /\ storage_save bs (storage s) = (Ok tt, storage s1)) /\
  forall again, begin_scene id again s1 = (Ok false, s1).
Proof.
  intros Hs Hp H. pose proof (begin_scene_atomic id previous s _ _ H) as [Hsv _].
  unfold begin_scene in H. rewrite bind_get, bind_lift in H.
  destruct (record (document s) "scenes" id) as [r|] eqn:Er; [|done].
  destruct (text r "kind" =? "button")%string eqn:Ek; [done|].
  destruct (boolean r "active") eqn:Ea; [done|]. rewrite bind_lift in H.
  destruct (Scenes.validate_states previous); [|done]. rewrite bind_lift in H.
  destruct (set r "previous" (VArray previous)) as [r1|] eqn:E1; [|done]. rewrite bind_lift in H.
  destruct (set r1 "active" (VBool true)) as [r2|] eqn:E2; [|done].
  unfold bindM in H. destruct (commit_scene_state id r2 s) as [[]] eqn:Ec; [|done]. injection H as ->.
  assert (He : edits r r2).
  { etrans; [eapply edits_set; [exact E1|done|by apply uniq_array]|]. by eapply edits_set. }
  destruct (scene_state_stores _ _ _ _ _ _ Hs Er He Ec) as (sc & Hrec & Hget).
  assert (Hact : boolean sc "active" = true).
  { unfold boolean. rewrite Hget by done. by rewrite (get_set_eq _ _ _ _ E2). }
  split_and!.
  - exists sc. split_and!; [done|done|]. rewrite Hget by done.
    rewrite (get_set_ne _ _ _ _ _ E2) by done. by apply get_set_eq in E1.
  - inversion Hsv as [b Hd _| |]; subst; [|by eexists]. exfalso.
    rewrite Hd, Er in Hrec. injection Hrec as <-. congruence.
  - intros again. unfold begin_scene. rewrite bind_get, bind_lift, Hrec, Hact.
    assert (text sc "kind" = text r "kind") as ->; [|by rewrite Ek].
    unfold text. rewrite Hget by done. by rewrite (get_set_ne _ _ _ _ _ E2), (get_set_ne _ _ _ _ _ E1) by done.
Qed.

(** What [scene_remaining] leaves: the scene is active as long as something remains. *)
Lemma scene_remaining_stores {St} {HS : Storage St} id remaining (s s1 : Store St) a :
  store_ok s -> Forall (fun v => uniq v = true) remaining -> scene_remaining id remaining s = (Ok a, s1) ->
  exists scene, record (document s1) "scenes" id = Ok scene
    /\ boolean scene "active" = negb (bool_decide (remaining = []))
    /\ get scene "previous" = Some (VArray remaining).
Proof.
  intros Hs Hp H. unfold scene_remaining in H. rewrite bind_lift in H.
  destruct (Scenes.validate_states remaining); [|done]. rewrite bind_get, bind_lift in H.
  destruct (record (document s) "scenes" id) as [r|] eqn:Er; [|done].
  destruct (text r "kind" =? "button")%string; [done|]. rewrite bind_lift in H.
  destruct (set r "active" _) as [r1|] eqn:E1; [|done]. rewrite bind_lift in H.
  destruct (set r1 "previous" (VArray remaining)) as [r2|] eqn:E2; [|done].
  assert (He : edits r r2).
  { etrans; [by eapply edits_set|]. eapply edits_set; [exact E2|done|by apply uniq_array]. }
  destruct (scene_state_stores _ _ _ _ _ _ Hs Er He H) as (sc & Hrec & Hget). exists sc. split_and!; [done| |].
  - unfold boolean. rewrite Hget by done. by rewrite (get_set_ne _ _ _ _ _ E2), (get_set_eq _ _ _ _ E1) by done.
  - rewrite Hget by done. by apply get_set_eq in E2.
Qed.

(** The state to restore is recorded durably before any command and is not overwritten.
    After [begin_scene] took a baseline the stored scene is active with exactly that baseline,
    and every further activation answers [false] and leaves the store as it is. *)
Theorem scene_baseline_is_kept {St} {HS : Storage St} id previous (s s1 : Store St) :
  store_ok s -> Forall (fun v => uniq v = true) previous -> begin_scene id previous s = (Ok true, s1) ->
  (exists scene, record (document s1) "scenes" id = Ok scene /\ boolean scene "active" = true /\
     get scene "previous" = Some (VArray previous)) /\
  (exists bs, encode (document s1) = Ok bs /\ storage_save bs (storage s) = (Ok tt, storage s1)) /\
  forall again, begin_scene id again s1 = (Ok false, s1).
Proof. apply begin_scene_stores. Qed.

Lemma scene_baseline_is_kept_witness :
  exists s1, begin_scene "film" [json_of "{'deviceId':'lamp','capabilityId':'onoff','value':true}"] sample = (Ok true, s1) /\
    begin_scene "film" [] s1 = (Ok false, s1).
Proof.
  eexists. split; [vm_compute; reflexivity|].
  refine (proj2 (proj2 (scene_baseline_is_kept "film"
    [json_of "{'deviceId':'lamp','capabilityId':'onoff','value':true}"] sample _ sample_ok _ _)) []).
  - repeat constructor.
  - vm_compute. reflexivity.
Defined.

(** ** Uninstalling an app *)

Lemma forget_document {St} {HS : Storage St} c id (s : Store St) : document (forget c id s) = document s.
Proof. unfold forget. by destruct (c =? "apps")%string, (c =? "devices")%string. Qed.

Lemma delete_Ok {St} {HS : Storage St} c id (s s1 : Store St) :
  delete c id s = (Ok tt, s1) ->
  exists e s2, prepare_delete s c id = Ok (document s2, e) /\ s1 = forget c id s2.
Proof.
  unfold delete. rewrite bind_get, bind_lift. destruct (prepare_delete s c id) as [[d e]|]; [|done].
  intros H. unfold bindM in H. destruct (commit d e s) as [r1 s2] eqn:E.
  destruct (commit_spec _ _ _ _ _ E) as [(er & -> & _)|(-> & bs & st & _ & _ & ->)]; [done|].
  injection H as <-. by repeat eexists.
Qed.

Lemma disable_flow_spec d app f f' :
  disable_flow d app f = Ok f' ->
  if references_app d f app
  then boolean f' "enabled" = false /\ text f' "lastError" = "app was uninstalled" /\
       uint f' "revision" = uint f "revision" + 1
  else f' = f.
Proof.
  unfold disable_flow. intros H. destruct (references_app d f app); [|by injection H].
  do 3 step_ok H.
  match goal with Hx : ok_or (checked_add ?x 1) _ = Ok ?n |- _ => assert (n = x + 1) as -> end.
  { destruct (checked_add _ 1) eqn:Ec in E1; [|done]. apply checked_add_Some in Ec as [-> _]. by injection E1. }
  split_and!.
  - rewrite (boolean_set_ne _ _ _ _ _ H), (boolean_set_ne _ _ _ _ _ E0) by done. by apply boolean_set_eq in E.
  - rewrite (text_set_ne _ _ _ _ _ H) by done. by apply text_set_eq in E0.
  - rewrite (uint_set_eq _ _ _ _ H), (uint_set_ne _ _ _ _ _ E0), (uint_set_ne _ _ _ _ _ E) by done. done.
Qed.

(** What of a store still belongs to [app]. *)
Record forgotten {St} {HS : Storage St} (app : string) (s : Store St) : Prop := {
  fg_record : is_ok (record (document s) "apps" app) = false;
  fg_devices : Forall (fun d => text d "appId" <> app) (records (document s) "devices");
  fg_settings : forall key, key = "appSettings" \/ key = "appState" ->
    exists v, get (root (document s)) key = Some v /\ get v app = None;
  fg_runtime : find_app app s = None;
  fg_live : Forall (fun o => has_device s (ob_id o) = true) (live s);
  fg_caches : Forall (fun kv => has_device s kv.1 = true) (caches s);
  fg_media : Forall (fun kv => has_device s kv.1 = true) (media s)
}.

Lemma find_filter_none {A} (p : A -> bool) l : find p (List.filter (fun x => negb (p x)) l) = None.
Proof. induction l as [|x l IH]; [done|]. cbn. destruct (p x) eqn:E; cbn; [done|]. by rewrite E. Qed.

Lemma Forall_filter {A} (p : A -> bool) (P : A -> Prop) l :
  (forall x, p x = true -> P x) -> Forall P (List.filter p l).
Proof. intros Hp. apply Forall_forall. intros x [_ Hx]%filter_elem. auto. Qed.

Lemma uninstall_document {St} {HS : Storage St} app (s : Store St) d e :
  store_ok s -> prepare_delete s "apps" app = Ok (d, e) ->
  exists d1, uninstall (document s) app = Ok d1 /\ remove_record d1 "apps" app = Ok d.
Proof.
  intros Hs H. unfold prepare_delete in H. repeat (cbn [String.eqb Ascii.eqb Bool.eqb andb collection_events] in H; step_ok H).
  injection H as <- _. by exists a1.
Qed.

(** Uninstalling leaves no trace of the app.  Its record, devices, settings, state, runtime
    status and everything the owner kept in memory for its devices are gone, and every flow
    that used it is disabled with the reason and a new revision; the other flows stay as
    they were. *)
Theorem uninstall_forgets_the_app {St} {HS : Storage St} app (s s1 : Store St) :
  store_ok s -> delete "apps" app s = (Ok tt, s1) ->
  forgotten app s1 /\
  Forall2 (fun f f' =>
      if references_app (document s) f app
      then boolean f' "enabled" = false /\ text f' "lastError" = "app was uninstalled" /\
           uint f' "revision" = uint f "revision" + 1
      else f' = f)
    (records (document s) "flows") (records (document s1) "flows").
Proof.
  intros Hs H. apply delete_Ok in H as (e & s2 & Hp & ->).
  apply uninstall_document in Hp as (d1 & Hu & Hr); [|done].
  apply uninstall_ok in Hu as (Hd1 & Hf & Hdev & Hset & _); [|apply Hs].
  apply remove_record_ok in Hr as (Hd2 & Hne & Hrec); [|done|vm_compute; set_solver].
  assert (Hdev2 : records (document s2) "devices" = records d1 "devices") by (apply records_ne, Hne; done).
  split.
  - split; rewrite ?forget_document.
    + destruct (record (document s2) "apps" app) as [r|] eqn:Er; [|done]. apply record_Ok in Er.
      rewrite Hrec in Er. unfold find_id in Er. by rewrite find_filter_none in Er.
    + rewrite Hdev2, Hdev. apply Forall_filter. by intros x Hx%negb_true_iff%String.eqb_neq.
    + intros key Hk. destruct (Hset key Hk) as (v & Hv & Hg). exists v. split; [|done].
      rewrite Hne; [done|]. by destruct Hk as [->| ->].
    + unfold find_app, forget. cbn. apply find_filter_none.
    + unfold forget, has_device. cbn. by apply Forall_filter.
    + unfold forget, has_device. cbn. by apply Forall_filter.
    + unfold forget, has_device. cbn. by apply Forall_filter.
  - rewrite forget_document. rewrite (records_ne d1 (document s2)) by (apply Hne; done).
    eapply Forall2_impl; [exact Hf|]. apply disable_flow_spec.
Qed.

Lemma uninstall_forgets_the_app_witness :
  exists s1, delete "apps" "hue" sample = (Ok tt, s1) /\ forgotten "hue" s1 /\
    map (fun f => boolean f "enabled") (records (document s1) "flows") = [false].
Proof.
  eexists. split; [vm_compute; reflexivity|]. split; [|vm_compute; reflexivity].
  refine (proj1 (uninstall_forgets_the_app "hue" sample _ sample_ok _)). vm_compute. reflexivity.
Defined.
