(* ===== verification/Devices.v ===== *)
(** * Devices: pairing identities and change cursors

    What [put] promises about the identity of a paired device, and what [observe] promises
    about the cursors of its capabilities. *)

From Stdlib Require Import ZArith Lia Ascii String.
From S2P Require Import Prelude Text Errors Slots Float Value Json Time Document Stats Store StoreDoc References Media StoreInv StoreDocOps StoreOk StoreProps.
From S2P Require Flow Scenes Groups Triggers Manifest.

Local Open Scope Z_scope.

(** ** Pairing identity *)

Lemma fill_objects_get ks r r' k :
  fill_objects ks r = Ok r' -> get_null r k <> VNull \/ k ∉ ks -> get r' k = get r k.
Proof.
  revert r. induction ks as [|x ks IH]; intros r H Hk; cbn [fill_objects] in H; [by injection H as <-|].
  step_ok H.
  assert (Hg : get a k = get r k).
  { destruct (decide (x = k)) as [->|Hne].
    - destruct Hk as [Hk|Hk]; [|set_solver]. unfold get_null in Hk.
      destruct (get r k) as [[]|] eqn:Eg; try done; by injection E as <-.
    - destruct (get r x) as [[]|]; try (by injection E as <-); by eapply get_set_ne. }
  rewrite <- Hg. apply (IH _ H). destruct Hk as [Hk|Hk]; [left|right; set_solver]. unfold get_null in *. by rewrite Hg.
Qed.

Lemma remove_all_get ks r r' k : remove_all r ks = Ok r' -> k ∉ ks -> get r' k = get r k.
Proof.
  revert r. induction ks as [|x ks IH]; intros r H Hk; cbn [remove_all] in H; [by injection H as <-|].
  apply not_elem_of_cons in Hk as [Hx Hk]. step_ok H. rewrite (IH _ H Hk). eapply get_remove_ne; [exact E|congruence].
Qed.

Definition IDENTITY : list string := ["appId"; "driverId"; "data"].

Lemma normalize_device_get {St} {HS : Storage St} (s : Store St) r p r' k :
  normalize_device s r p = Ok r' -> k ∉ "store" :: "settings" :: OBSERVED -> get_null r k <> VNull \/ k <> "data" ->
  get r' k = get r k.
Proof.
  unfold normalize_device. intros H Hk Hd. repeat step_ok H.
  rewrite (remove_all_get _ _ _ _ H) by set_solver.
  match goal with Hs2 : set _ "store" _ = Ok _ |- _ => rewrite (get_set_ne _ _ _ _ _ Hs2) by (intros <-; set_solver) end.
  match goal with Hf : fill_objects _ r = Ok _ |- _ => apply (fill_objects_get _ _ _ _ Hf) end.
  destruct Hd as [Hd|Hd]; [by left|]. right. set_solver.
Qed.

Lemma normalize_device_identity {St} {HS : Storage St} (s : Store St) r p r' :
  normalize_device s r p = Ok r' ->
  (forall old k, p = Some old -> k ∈ IDENTITY -> same_field old r k = true) /\
  forall x, x ∈ records (document s) "devices" -> same_identity r x = false.
Proof.
  unfold normalize_device. intros H. repeat step_ok H. split.
  - intros old k -> Hk. apply negb_false_iff in E1. rewrite forallb_forall in E1. apply E1. by apply list_elem_of_In.
  - intros x Hx. destruct (same_identity r x) eqn:Es; [|done]. rewrite <- not_true_iff_false in E2. exfalso.
    apply E2, existsb_exists. exists x. split; [by apply list_elem_of_In|done].
Qed.

Lemma put_device_get {St} {HS : Storage St} (s : Store St) r create p now r' :
  put_record s "devices" r create p now = Ok r' ->
  exists r1, normalize_device s r1 p = Ok r' /\
    forall k, k ∉ ["createdAt"; "lastRunAt"; "lastError"; "updatedAt"] -> get r1 k = get r k.
Proof.
  unfold put_record. intros H. do 4 step_ok H. exists a2. split; [exact H|]. intros k Hk.
  rewrite (get_set_ne _ _ _ _ _ E2) by (intros <-; set_solver).
  assert (get a1 k = get a0 k) as ->.
  { destruct create; [|by injection E1 as <-]. eapply get_set_ne; [exact E1|intros <-; set_solver]. }
  rewrite (inherit_get _ _ _ _ _ E0) by set_solver. by injection E as <-.
Qed.

Lemma same_identity_ext r1 r2 x :
  (forall k, k ∈ "id" :: IDENTITY -> get r1 k = get r2 k) -> same_identity r1 x = same_identity r2 x.
Proof.
  intros Hk. unfold same_identity, same_field, text, get_null.
  by rewrite !(Hk "id"), !(Hk "appId"), !(Hk "driverId"), !(Hk "data") by (vm_compute; set_solver).
Qed.

(** The identity of a paired device is fixed and taken once.  A device stored with
    [data] keeps its app, driver and data when it already existed, and no other device of
    the document has the same app, driver and data. *)
Theorem paired_identity_is_unique {St} {HS : Storage St} r create rev now (s s1 : Store St) :
  store_ok s -> uniq r = true -> get_null r "data" <> VNull ->
  put "devices" r create rev now s = (Ok tt, s1) ->
  exists r', record (document s1) "devices" (text r "id") = Ok r' /\
    (forall old k, record (document s) "devices" (text r "id") = Ok old -> k ∈ IDENTITY -> same_field old r' k = true) /\
    (forall x, x ∈ records (document s1) "devices" -> text x "id" <> text r "id" -> same_identity r' x = false).
Proof.
  intros Hs Hu Hdata H. destruct (put_stores "devices" r create rev now s s1 Hs Hu ltac:(done) H) as (r' & Hp & Hrec & Hid & Hne).
  apply put_device_get in Hp as (r1 & Hn & Hget). exists r'. split; [done|].
  assert (Hg : forall k, k ∈ "id" :: IDENTITY -> get r' k = get r1 k).
  { intros k Hk. apply (normalize_device_get _ _ _ _ _ Hn).
    - clear - Hk. vm_compute in Hk |- *. set_solver.
    - destruct (decide (k = "data")) as [->|]; [left|by right]. unfold get_null. rewrite Hget by (vm_compute; set_solver). exact Hdata. }
  destruct (normalize_device_identity _ _ _ _ Hn) as [Hold Hother]. split.
  - intros old k Ho Hk. rewrite Ho in Hold. unfold same_field, get_null. rewrite Hg by (by right). by apply Hold.
  - intros x Hx Hxid. rewrite (same_identity_ext _ r1) by exact Hg. apply Hother.
    apply put_Ok in H as (e & cache & H).
    destruct (prepare_put_ok _ _ _ _ _ _ _ _ _ (so_doc _ Hs) Hu H) as (_ & _ & r2 & _ & Hid2 & _ & Hc & Hrep & _ & Hu2 & Hcl2).
    destruct (replace_record_ok _ _ _ _ (so_doc _ Hs) Hc Hu2 ltac:(congruence) Hcl2 (Hrep ltac:(done))) as (_ & _ & Hrs).
    rewrite Hrs in Hx by done. apply elem_of_app in Hx as [Hx|Hx]; [by apply filter_elem in Hx as [? _]|].
    apply list_elem_of_singleton in Hx as ->. done.
Qed.

Lemma paired_identity_is_unique_witness :
  exists s1 r', put "devices" (json_of "{'id':'l2','appId':'hue','driverId':'bulb','data':{'mac':2}}") true None "t" sample
      = (Ok tt, s1) /\ record (document s1) "devices" "l2" = Ok r' /\
    forall x, x ∈ records (document s1) "devices" -> text x "id" <> "l2" -> same_identity r' x = false.
Proof.
  eexists. destruct (paired_identity_is_unique
    (json_of "{'id':'l2','appId':'hue','driverId':'bulb','data':{'mac':2}}") true None "t" sample
    ltac:(let s := eval vm_compute in (put "devices" (json_of "{'id':'l2','appId':'hue','driverId':'bulb','data':{'mac':2}}") true None "t" sample).2 in exact s)
    sample_ok) as (r' & Hr & _ & Ho).
  - vm_compute. reflexivity.
  - vm_compute. discriminate.
  - vm_compute. reflexivity.
  - exists r'. split; [vm_compute; reflexivity|]. split; [exact Hr|exact Ho].
Defined.

(** Without [data] there is no such protection: the identity is compared before an absent
    [data] is stored as an empty object, so the same app and driver can pair any number of
    devices whose stored identities are equal. *)
Example absent_data_pairs_twice :
  exists s1 s2 a b,
    put "devices" (json_of "{'id':'a','appId':'hue','driverId':'bulb'}") true None "t" sample = (Ok tt, s1) /\
    put "devices" (json_of "{'id':'b','appId':'hue','driverId':'bulb'}") true None "t" s1 = (Ok tt, s2) /\
    record (document s2) "devices" "a" = Ok a /\ record (document s2) "devices" "b" = Ok b /\
    same_identity b a = true.
Proof. do 4 eexists. split_and!; [vm_compute; reflexivity..|vm_compute; reflexivity]. Qed.

(** ** Change cursors *)

Lemma obj_get_map (f : string -> Value -> Value) o k :
  obj_get (map (fun kv => match kv with (x, w) => (x, f x w) end) o) k = f k <$> obj_get o k.
Proof.
  induction o as [|[x w] o IH]; [done|]. cbn. destruct (String.eqb_spec x k) as [->|]; [done|exact IH].
Qed.

Lemma obj_get_app o1 o2 k :
  obj_get (o1 ++ o2) k = match obj_get o1 k with Some v => Some v | None => obj_get o2 k end.
Proof. induction o1 as [|[x w] o1 IH]; [done|]. cbn. by destruct (x =? k)%string. Qed.

Lemma obj_get_same ks w k : obj_get (map (fun x => (x, w)) ks) k = if existsb (String.eqb k) ks then Some w else None.
Proof.
  induction ks as [|x ks IH]; [done|]. cbn. rewrite IH, (String.eqb_sym k x). by destruct (x =? k)%string.
Qed.

Lemma existsb_filter_keys (p : string -> bool) o k :
  existsb (String.eqb k) (List.filter p (obj_keys o)) = p k && bool_decide (is_Some (obj_get o k)).
Proof.
  induction o as [|[x w] o IH]; unfold obj_keys in *; cbn [obj_get map List.filter existsb fst].
  { rewrite bool_decide_eq_false_2 by (by intros []). by rewrite andb_false_r. }
  destruct (String.eqb_spec x k) as [->|Hne].
  - rewrite (bool_decide_eq_true_2 (is_Some (Some w))) by eauto. rewrite andb_true_r.
    destruct (p k) eqn:Ep; cbn [existsb]; [by rewrite String.eqb_refl|by rewrite IH].
  - destruct (p x); cbn [existsb]; [|exact IH].
    rewrite String.eqb_sym. apply String.eqb_neq in Hne. by rewrite Hne.
Qed.

(** The cursor of one capability of the new state. *)
Lemma next_revisions_get previous state seq cap v :
  get state cap = Some v ->
  obj_get (next_revisions previous state seq) cap = Some
    match previous with
    | Some old =>
        match get (ob_revisions old) cap with
        | Some r => if equal (get_null (ob_state old) cap) v then r else value_uint seq
        | None => value_uint seq
        end
    | None => value_uint seq
    end.
Proof.
  intros Hv. unfold next_revisions. rewrite obj_get_app, obj_get_same, existsb_filter_keys.
  assert (Ho : is_Some (obj_get (default [] (as_object state)) cap)).
  { unfold get in Hv. destruct (as_object state); [by exists v|done]. }
  rewrite (bool_decide_eq_true_2 _ Ho), andb_true_r.
  destruct previous as [old|]; [|done].
  rewrite (obj_get_map (fun c r => if equal (get_null (ob_state old) c) (get_null state c) then r else value_uint seq)).
  assert (Hg : obj_get (default [] (as_object (ob_revisions old))) cap = get (ob_revisions old) cap).
  { unfold get. by destruct (as_object (ob_revisions old)). }
  rewrite Hg. destruct (get (ob_revisions old) cap) as [r|]; cbn.
  - unfold get_null at 2. by rewrite Hv.
  - done.
Qed.

Lemma find_update_first {A} (p : A -> bool) f l x :
  (forall y, p y = true -> p (f y) = true) -> find p l = Some x -> find p (update_first p f l) = Some (f x).
Proof.
  intros Hf. induction l as [|y l IH]; cbn; [done|]. destruct (p y) eqn:E; [|cbn; by rewrite E].
  intros [= ->]. cbn. by rewrite Hf.
Qed.

Lemma find_snoc {A} (p : A -> bool) l x : find p l = None -> p x = true -> find p (l ++ [x]) = Some x.
Proof. intros Hl Hx. induction l as [|y l IH]; cbn in *; [by rewrite Hx|]. destruct (p y); [done|auto]. Qed.

Lemma observe_Ok {St} {HS : Storage St} app id state av msg (s s1 : Store St) :
  observe app id state av msg s = (Ok tt, s1) ->
  sequence s1 = sequence s + 1 /\ document s1 = document s /\
  find_live id s1 = Some (mk_obs id state (VObject (next_revisions (find_live id s) state (sequence s + 1))) av msg).
Proof.
  unfold observe. rewrite bind_get, bind_lift.
  destruct (prepare_observe s app id state av msg) as [[[[[e all] trips] changes] name]|] eqn:E; [|done].
  intros [= <-]. unfold prepare_observe in E. repeat step_ok E. injection E as <- <- <- <- <-.
  match goal with Hx : ok_or (checked_add _ 1) _ = Ok ?n |- _ => rename Hx into En; assert (n = sequence s + 1) as -> end.
  { destruct (checked_add _ 1) eqn:Ec in En; [|done]. apply checked_add_Some in Ec as [-> _]. by injection En. }
  match goal with Hx : event _ _ _ _ = Ok _ |- _ => apply event_seq in Hx as Hev end.
  match goal with Hx : _ = Ok ?l |- context [with_live s ?l] => rename Hx into El; rename l into all' end.
  cbn [document sequence publish with_events with_trips with_triggers]. split_and!; [done|by rewrite (proj1 (framed_collect _ _ _ _))|].
  assert (Hlive : live (collect id (text a "name") state (with_live s all')) = all').
  { unfold collect. destruct (statistics_enabled _); [|done].
    destruct (Stats.observe _ _ _ _ _) as [[[]|er] st]; [done|]. by destruct (statistics_reported _). }
  unfold find_live at 1. cbn [live publish with_events with_trips with_triggers]. rewrite Hlive.
  destruct (find_live id s) as [old|] eqn:Ef.
  - injection El as <-. erewrite find_update_first; [reflexivity| |exact Ef]. intros y _. apply String.eqb_refl.
  - apply push_Ok in El as [_ ->]. apply find_snoc; [exact Ef|apply String.eqb_refl].
Qed.

(** A cursor moves exactly when the value changed.  After an observation every reported
    capability has the number of this observation as its cursor when it is new or its value
    differs from the one before, and keeps the cursor it had when the value is the same. *)
Theorem cursor_moves_on_change {St} {HS : Storage St} app id state av msg cap v (s s1 : Store St) :
  observe app id state av msg s = (Ok tt, s1) -> get state cap = Some v ->
  sequence s1 = sequence s + 1 /\
  capability_revision id cap s1 =
    match find_live id s with
    | Some old =>
        match get (ob_revisions old) cap with
        | Some _ => if equal (get_null (ob_state old) cap) v then capability_revision id cap s else sequence s1
        | None => sequence s1
        end
    | None => sequence s1
    end.
Proof.
  intros H Hv. apply observe_Ok in H as (Hseq & _ & Hl). split; [done|]. rewrite Hseq.
  unfold capability_revision at 1. rewrite Hl. unfold uint, get at 1. cbn [ob_revisions as_object].
  cbn [option_bind mbind]. rewrite (next_revisions_get _ _ _ _ _ Hv).
  unfold capability_revision. destruct (find_live id s) as [old|]; [|done].
  destruct (get (ob_revisions old) cap) as [r|] eqn:Eg; [|done].
  destruct (equal _ v); [|done]. unfold uint. by rewrite Eg.
Qed.

Definition seen_once : Store Memory :=
  Eval vm_compute in (observe "hue" "lamp" (json_of "{'onoff':true,'dim':1}") true "" sample).2.

Lemma cursor_moves_on_change_witness :
  exists s2, observe "hue" "lamp" (json_of "{'onoff':false,'dim':1}") true "" seen_once = (Ok tt, s2) /\
    capability_revision "lamp" "onoff" s2 = 2 /\ capability_revision "lamp" "dim" s2 = 1.
Proof.
  eexists. split; [vm_compute; reflexivity|]. split.
  - etrans; [refine (proj2 (cursor_moves_on_change "hue" "lamp" (json_of "{'onoff':false,'dim':1}") true ""
      "onoff" (VBool false) seen_once _ _ _))|]; vm_compute; reflexivity.
  - etrans; [refine (proj2 (cursor_moves_on_change "hue" "lamp" (json_of "{'onoff':false,'dim':1}") true ""
      "dim" (VNumber (Uint 1)) seen_once _ _ _))|]; vm_compute; reflexivity.
Defined.

(** * GroupTree: device groups stay a forest

    [validate] climbs from the new parent to the top and refuses to meet the group itself;
    [lift_children] moves the content of a deleted group to its parent.  Both keep every
    parent chain finite and without dangling ids. *)

(** ** [trim] twice *)

Lemma drop_white_suffix cs : exists ws, cs = ws ++ drop_white cs.
Proof.
  induction cs as [|c cs [ws IH]]; [by exists []|]. cbn. destruct (is_whitespace c); [|by exists []].
  exists (c :: ws). cbn. by rewrite <- IH.
Qed.

Lemma drop_white_stop cs : drop_white (drop_white cs) = drop_white cs.
Proof.
  induction cs as [|c cs IH]; [done|]. cbn. destruct (is_whitespace c) eqn:E; [done|]. cbn. by rewrite E.
Qed.

Definition trim_chars (cs : list Z) : list Z := rev (drop_white (rev (drop_white cs))).

Lemma trim_chars_twice cs : trim_chars (trim_chars cs) = trim_chars cs.
Proof.
  unfold trim_chars. set (l := drop_white cs).
  assert (Hl : drop_white l = l) by apply drop_white_stop.
  assert (Hr : drop_white (rev (drop_white (rev l))) = rev (drop_white (rev l))).
  { destruct (drop_white_suffix (rev l)) as [ws Hw]. apply (f_equal (@rev Z)) in Hw.
    rewrite rev_involutive, rev_app_distr in Hw. destruct (rev (drop_white (rev l))) as [|c k]; [done|].
    rewrite Hw in Hl. cbn in Hl |- *. destruct (is_whitespace c); [|done]. exfalso.
    destruct (drop_white_suffix (k ++ rev ws)) as [us Hu]. apply (f_equal (@length Z)) in Hu, Hl.
    cbn [length] in Hl. rewrite (length_app us) in Hu. lia. }
  by rewrite Hr, rev_involutive, drop_white_stop.
Qed.

Lemma forallb_sub {A} (p : A -> bool) (l k : list A) : (forall x, x ∈ l -> x ∈ k) -> forallb p k = true -> forallb p l = true.
Proof.
  rewrite !forallb_forall. intros Hs Hk x Hx. apply Hk, list_elem_of_In, Hs. by apply list_elem_of_In.
Qed.

Lemma drop_white_elem cs x : x ∈ drop_white cs -> x ∈ cs.
Proof. intros Hx. destruct (drop_white_suffix cs) as [ws ->]. apply elem_of_app. by right. Qed.

Lemma trim_twice s : trim (trim s) = trim s.
Proof.
  unfold trim. fold (trim_chars (chars s)). rewrite chars_of_chars.
  - fold (trim_chars (trim_chars (chars s))). by rewrite trim_chars_twice.
  - eapply forallb_sub; [|apply (chars_valid s)]. intros x Hx. unfold trim_chars in Hx.
    apply drop_white_elem. apply list_elem_of_In. apply in_rev. apply list_elem_of_In. apply drop_white_elem.
    apply list_elem_of_In. apply in_rev. by apply list_elem_of_In.
Qed.

(** ** The forest *)

(** The chain of parents from this group on ends at the top. *)
Inductive rooted (d : Document) : string -> Prop :=
| rooted_top : rooted d EmptyString
| rooted_up id g : record d "deviceGroups" id = Ok g -> rooted d (text g "parentId") -> rooted d id.

Definition forest (d : Document) : Prop :=
  forall g, g ∈ records d "deviceGroups" -> rooted d (text g "parentId").

Lemma settle_parent d name g g' : Groups.settle d name g = Ok g' -> text g' "parentId" = text g "parentId".
Proof.
  unfold Groups.settle. intros H. step_ok H. rewrite <- (text_set_ne _ _ "parentId" _ _ E) by done.
  destruct (uint a "sortOrder" =? 0); [|by injection H as <-]. step_ok H. by eapply text_set_ne.
Qed.

(** What [climb] saw: a chain to the top that does not meet the group. *)
Lemma climb_rooted n d d' id p name g g' :
  (forall i, i <> id -> record d' "deviceGroups" i = record d "deviceGroups" i) ->
  Groups.climb n d id p name g = Ok g' -> rooted d' p /\ text g' "parentId" = text g "parentId".
Proof.
  intros Hsame. revert p. induction n as [|n IH]; intros p H; cbn in H; [done|].
  destruct (is_empty p) eqn:Ep.
  { apply String.eqb_eq in Ep as ->. split; [constructor|by eapply settle_parent]. }
  destruct (String.eqb_spec p id) as [->|Hne]; [done|].
  destruct (record d "deviceGroups" p) as [q|] eqn:Eq; cbn in H; [|done].
  apply IH in H as [H1 H2]. split; [|done]. eapply rooted_up; [|exact H1]. by rewrite Hsame.
Qed.

Lemma validate_rooted d d' g g' :
  (forall i, i <> text g "id" -> record d' "deviceGroups" i = record d "deviceGroups" i) ->
  Groups.validate d g = Ok g' -> rooted d' (text g' "parentId").
Proof.
  intros Hsame H. unfold Groups.validate in H. step_ok H. repeat step_ok H.
  assert (Hid : text a "id" = text g "id") by (by eapply text_set_ne). rewrite Hid in H.
  apply climb_rooted with (d' := d') in H as [H1 H2]; [|done]. rewrite H2.
  rewrite (text_set_eq _ _ _ _ E) in *. by rewrite trim_twice in H1.
Qed.

(** Replacing one group by one with a rooted parent. *)
Lemma forest_replace d d' id g :
  (forall i, i <> id -> record d' "deviceGroups" i = record d "deviceGroups" i) ->
  record d' "deviceGroups" id = Ok g -> rooted d' (text g "parentId") ->
  forall p, rooted d p -> rooted d' p.
Proof.
  intros Hsame Hg Hp p Hr. induction Hr as [|i q Hq _ IH]; [constructor|].
  destruct (decide (i = id)) as [->|Hne]; [by eapply rooted_up|].
  eapply rooted_up; [by rewrite Hsame|exact IH].
Qed.

Lemma records_record d c g : doc_ok d -> c ∈ COLLECTIONS -> g ∈ records d c -> record d c (text g "id") = Ok g.
Proof.
  intros Hd Hc Hg. apply record_Ok, find_id_elem; [|done]. destruct (doc_records d c Hd Hc) as [_ (_ & _ & Hn)]. exact Hn.
Qed.

Lemma groups_collection : "deviceGroups" ∈ COLLECTIONS.
Proof. vm_compute. set_solver. Qed.

Lemma put_group_validate {St} {HS : Storage St} (s : Store St) r create p now r' :
  put_record s "deviceGroups" r create p now = Ok r' ->
  exists r1, Groups.validate (document s) r1 = Ok r' /\ text r' "id" = text r1 "id".
Proof.
  unfold put_record. intros H. do 4 step_ok H. exists a2. split; [exact H|].
  by apply group_edits in H as [_ ?].
Qed.

(** C15: creating, renaming or moving a device group keeps the groups a forest: from every
    group the chain of parents exists and ends at the top, so no group is its own
    ancestor. *)
Theorem put_keeps_groups_a_forest {St} {HS : Storage St} r create rev now (s s1 : Store St) :
  store_ok s -> uniq r = true -> forest (document s) ->
  put "deviceGroups" r create rev now s = (Ok tt, s1) -> forest (document s1).
Proof.
  intros Hs Hu Hf H. apply put_Ok in H as (e & cache & H).
  destruct (prepare_put_ok _ _ _ _ _ _ _ _ _ (so_doc _ Hs) Hu H) as (Hd & _ & r' & Hp & Hid & Hne & Hc & Hrep & _ & Hu' & _).
  specialize (Hrep ltac:(done)).
  assert (Hrec : forall i, record (document s1) "deviceGroups" i =
    if (text r' "id" =? i)%string then Ok r' else record (document s) "deviceGroups" i).
  { intros i. eapply record_after_replace; [apply Hs|done|done|done|congruence|done|done]. }
  assert (Hsame : forall i, i <> text r' "id" -> record (document s1) "deviceGroups" i = record (document s) "deviceGroups" i).
  { intros i Hi. rewrite Hrec. destruct (String.eqb_spec (text r' "id") i); [congruence|done]. }
  apply put_group_validate in Hp as (r1 & Hv & Hid1). rewrite Hid1 in Hsame.
  apply validate_rooted with (d' := document s1) in Hv as Hr; [|done]. rewrite <- Hid1 in Hsame.
  assert (Hself : record (document s1) "deviceGroups" (text r' "id") = Ok r') by (rewrite Hrec; by rewrite String.eqb_refl).
  intros g Hg. apply (records_record _ _ _ Hd Hc) in Hg as Hg'. rewrite Hrec in Hg'.
  destruct (String.eqb_spec (text r' "id") (text g "id")); [by injection Hg' as <-|].
  eapply forest_replace; [exact Hsame|exact Hself|exact Hr|].
  apply Hf. by apply record_props in Hg' as (_ & _ & ?); [|apply Hs].
Qed.

Lemma sample_forest : forest (document sample).
Proof.
  intros g Hg. vm_compute in Hg. apply elem_of_cons in Hg as [->|Hg]; [vm_compute; constructor|].
  apply list_elem_of_singleton in Hg as ->. eapply rooted_up; [vm_compute; reflexivity|]. vm_compute. constructor.
Qed.

Lemma put_keeps_groups_a_forest_witness :
  exists s1, put "deviceGroups" (json_of "{'id':'g3','name':'Zolder','parentId':'g2'}") true None "t" sample = (Ok tt, s1) /\
    forest (document s1).
Proof.
  eexists. split; [vm_compute; reflexivity|].
  refine (put_keeps_groups_a_forest (json_of "{'id':'g3','name':'Zolder','parentId':'g2'}") true None "t" sample _
    sample_ok _ sample_forest _); vm_compute; reflexivity.
Defined.

Example cycle_is_refused :
  (put "deviceGroups" (json_of "{'id':'g1','name':'Huis','parentId':'g2'}") false None "t" sample).1
  = Err (Invalid "group parent would create a cycle").
Proof. vm_compute. reflexivity. Qed.

(** ** Deleting a group *)

Definition relink (id parent p : string) : string := if (p =? id)%string then parent else p.

Lemma lift_record_text key id parent r r' :
  Groups.lift_record key id parent r = Ok r' -> text r' key = relink id parent (text r key).
Proof.
  unfold Groups.lift_record, relink. intros H. destruct (text r key =? id)%string; [by eapply text_set_eq|by injection H as <-].
Qed.

Lemma Forall2_find (R : Value -> Value -> Prop) xs ys id r :
  (forall x y, R x y -> text y "id" = text x "id") -> Forall2 R xs ys -> find_id id xs = Some r ->
  exists r', find_id id ys = Some r' /\ R r r'.
Proof.
  intros Hid HF. unfold find_id. induction HF as [|x y xs ys Hxy _ IH]; cbn; [done|].
  rewrite (Hid _ _ Hxy). destruct (text x "id" =? id)%string; [intros [= <-]; eauto|done].
Qed.

Lemma find_filter_ne id i rs r :
  i <> id -> find_id i rs = Some r -> find_id i (List.filter (fun x => negb (id_is id x)) rs) = Some r.
Proof.
  intros Hne. unfold find_id. induction rs as [|x rs IH]; cbn; [done|]. unfold id_is at 1.
  destruct (String.eqb_spec (text x "id") i) as [Hx|Hx].
  - intros [= ->]. destruct (String.eqb_spec (text r "id") id); [congruence|]. cbn. by rewrite Hx, String.eqb_refl.
  - intros Hf. destruct (text x "id" =? id)%string; [by apply IH|]. cbn.
    apply String.eqb_neq in Hx. rewrite Hx. by apply IH.
Qed.

Lemma delete_group_document {St} {HS : Storage St} id (s : Store St) d e :
  prepare_delete s "deviceGroups" id = Ok (d, e) ->
  exists d1, Groups.lift_children (document s) id = Ok d1 /\ remove_record d1 "deviceGroups" id = Ok d.
Proof.
  intros H. unfold prepare_delete in H. repeat (cbn [String.eqb Ascii.eqb Bool.eqb andb collection_events] in H; step_ok H).
  injection H as <- _. by eexists.
Qed.

(** Deleting a group loses nothing but the group.  Its subgroups and devices move to its
    parent, every other record keeps its place, and the groups that remain are a forest. *)
Theorem deleted_group_lifts_its_content {St} {HS : Storage St} id (s s1 : Store St) :
  store_ok s -> forest (document s) -> delete "deviceGroups" id s = (Ok tt, s1) ->
  forest (document s1) /\ exists g, record (document s) "deviceGroups" id = Ok g /\
    (forall i r, record (document s) "deviceGroups" i = Ok r -> i <> id ->
       exists r', record (document s1) "deviceGroups" i = Ok r' /\
         text r' "parentId" = relink id (text g "parentId") (text r "parentId")) /\
    is_ok (record (document s1) "deviceGroups" id) = false /\
    Forall2 (fun r r' => text r' "id" = text r "id" /\
               text r' "groupId" = relink id (text g "parentId") (text r "groupId"))
      (records (document s) "devices") (records (document s1) "devices").
Proof.
  intros Hs Hf H. apply delete_Ok in H as (e & s2 & Hp & ->). rewrite forget_document.
  apply delete_group_document in Hp as (d1 & Hl & Hr).
  apply lift_children_ok in Hl as (Hd1 & g & Hg & HG & HD & _); [|apply Hs].
  apply remove_record_ok in Hr as (Hd2 & Hne & Hrec); [|done|apply groups_collection].
  assert (Hmove : forall i r, record (document s) "deviceGroups" i = Ok r -> i <> id ->
    exists r', record (document s2) "deviceGroups" i = Ok r' /\
      text r' "parentId" = relink id (text g "parentId") (text r "parentId")).
  { intros i r Hi%record_Ok Hii. eapply Forall2_find in HG as (r' & Hr' & Hlift); [| |exact Hi].
    - exists r'. split; [|by apply lift_record_text in Hlift]. apply record_Ok. rewrite Hrec. by apply find_filter_ne.
    - intros x y Hxy. by apply lift_record_edits in Hxy as [_ ?]. }
  assert (Hchain : forall p, rooted (document s) p -> rooted (document s2) (relink id (text g "parentId") p)).
  { intros p Hp. induction Hp as [|i q Hq _ IH].
    - unfold relink. destruct (String.eqb_spec EmptyString id) as [<-|]; [|constructor].
      apply record_props in Hg as (_ & Hgid & Hgin); [|apply Hs].
      destruct (doc_records _ "deviceGroups" (so_doc _ Hs) groups_collection) as [_ (_ & Hn & _)].
      rewrite Forall_forall in Hn. exfalso. apply (Hn (text g "id")); [|done]. apply list_elem_of_fmap. by exists g.
    - unfold relink at 1. destruct (String.eqb_spec i id) as [->|Hii].
      + rewrite Hq in Hg. injection Hg as ->. unfold relink in IH. by destruct (text g "parentId" =? id)%string.
      + destruct (Hmove i q Hq Hii) as (r' & Hr' & Hpar). eapply rooted_up; [exact Hr'|]. by rewrite Hpar. }
  split; [|exists g; split_and!; [done|done| |]].
  - intros x Hx. rewrite Hrec in Hx. apply filter_elem in Hx as [Hx _].
    apply list_elem_of_lookup in Hx as [i Hi]. destruct (Forall2_lookup_r _ _ _ _ _ HG Hi) as (y & Hy & Hlift).
    rewrite (lift_record_text _ _ _ _ _ Hlift). apply Hchain, Hf. by eapply list_elem_of_lookup_2.
  - destruct (record (document s2) "deviceGroups" id) as [r|] eqn:Er; [|done]. apply record_Ok in Er.
    rewrite Hrec in Er. unfold find_id in Er. by rewrite find_filter_none in Er.
  - rewrite (records_ne d1 (document s2)) by (by apply Hne). eapply Forall2_impl; [exact HD|].
    intros x y Hxy. split; [by apply lift_record_edits in Hxy as [_ ?]|by apply lift_record_text in Hxy].
Qed.

Lemma deleted_group_lifts_its_content_witness :
  exists s1, delete "deviceGroups" "g2" sample = (Ok tt, s1) /\ forest (document s1) /\
    map (fun d => text d "groupId") (records (document s1) "devices") = ["g1"; EmptyString].
Proof.
  eexists. split; [vm_compute; reflexivity|]. split; [|vm_compute; reflexivity].
  refine (proj1 (deleted_group_lifts_its_content "g2" sample _ sample_ok sample_forest _)). vm_compute. reflexivity.
Defined.

(** * SceneDevices: every scene appears as exactly one device

    [reconcile] rebuilds the devices of the built-in scene app from the scenes. *)

Lemma set_all_same v kvs : Forall (fun kv => get v kv.1 = Some kv.2) kvs -> set_all v kvs = Ok v.
Proof. induction 1 as [|[k w] kvs Hk _ IH]; [done|]. cbn in *. by rewrite (set_same _ _ _ Hk). Qed.

Lemma scene_device_get d sc dev k w :
  Scenes.scene_device_of d sc = Ok dev -> (k, w) ∈ scene_fields sc -> get dev k = Some w.
Proof.
  unfold Scenes.scene_device_of. intros H Hi. step_ok H. rewrite scene_device_fields in H.
  eapply set_all_get; [exact H|by apply nodup_strings|done].
Qed.

Lemma filter_none {A} (p : A -> bool) l : Forall (fun x => p x = false) l -> List.filter p l = [].
Proof. induction 1 as [|x l Hx _ IH]; [done|]. cbn. by rewrite Hx. Qed.

Lemma filter_all_Forall {A} (p : A -> bool) l : Forall (fun x => p x = true) l -> List.filter p l = l.
Proof. induction 1 as [|x l Hx _ IH]; [done|]. cbn. rewrite Hx. by f_equal. Qed.

Definition physical (d : Document) : list Value :=
  List.filter (fun dev => negb (Scenes.is_scene_device dev)) (records d "devices").

Definition scene_devices (d : Document) : list Value :=
  List.filter Scenes.is_scene_device (records d "devices").

Lemma reconcile_split d d' devs :
  doc_ok d -> Forall2 (fun sc dev => Scenes.scene_device_of d sc = Ok dev) (records d "scenes") devs ->
  records d' "devices" = physical d ++ devs -> physical d' = physical d /\ scene_devices d' = devs.
Proof.
  intros Hd HF Hrec.
  assert (Hs : Forall (fun dev => Scenes.is_scene_device dev = true) devs).
  { clear Hrec. induction HF as [|sc dev l k Hdev _ IH]; constructor; [|done]. unfold Scenes.is_scene_device.
    apply scene_device_of_ok in Hdev as (_ & _ & _ & -> & _); [|done]. by rewrite String.eqb_refl. }
  unfold physical at 1, scene_devices. rewrite Hrec, !List.filter_app. unfold physical. rewrite !filter_filter_and. split.
  - rewrite (filter_none _ devs), app_nil_r; [|eapply Forall_impl; [exact Hs|]; by intros x ->].
    apply List.filter_ext. intros x. by rewrite andb_diag.
  - rewrite (filter_all_Forall _ devs Hs), filter_none; [done|]. apply Forall_forall. intros x _.
    by destruct (Scenes.is_scene_device x).
Qed.

(** The device of a scene is found again and needs no change. *)
Lemma scene_device_again d d' sc dev :
  doc_ok d' -> dev ∈ records d' "devices" -> text dev "id" = scene_key sc ->
  Scenes.scene_device_of d sc = Ok dev -> Scenes.scene_device_of d' sc = Ok dev.
Proof.
  intros Hd' Hin Hid H. unfold Scenes.scene_device_of at 1. fold (scene_key sc).
  assert (Hr : record d' "devices" (scene_key sc) = Ok dev).
  { apply record_Ok. rewrite <- Hid. apply find_id_elem; [|done].
    destruct (doc_records d' "devices" Hd') as [_ (_ & _ & Hn)]; [vm_compute; set_solver|exact Hn]. }
  rewrite Hr. assert (Ha : text dev "appId" = Scenes.APP_ID).
  { unfold text. rewrite (scene_device_get _ _ _ "appId" (VString Scenes.APP_ID) H); [done|]. right. by left. }
  rewrite Ha, String.eqb_refl. cbn [mbind result_bind]. rewrite scene_device_fields. apply set_all_same.
  apply Forall_forall. intros [k w] Hk. by eapply scene_device_get.
Qed.

Lemma reconcile_again d' devs :
  doc_ok d' -> Forall2 (fun sc dev => Scenes.scene_device_of d' sc = Ok dev) (records d' "scenes") devs ->
  records d' "devices" = physical d' ++ devs -> Scenes.reconcile d' = Ok d'.
Proof.
  intros Hd' HF Hrec. destruct (doc_records d' "devices" Hd') as [Hg (Hl & _)]; [vm_compute; set_solver|].
  pose proof (Forall2_length _ _ _ HF) as Hlen.
  assert (Hb : Z.of_nat (length (physical d') + length (records d' "scenes")) <= MAX_RECORDS).
  { rewrite Hrec, length_app in Hl. lia. }
  unfold Scenes.reconcile. fold (physical d').
  rewrite (push_all_complete Ok MAX_RECORDS (physical d') (physical d') []).
  - cbn [app mbind result_bind]. rewrite (push_all_complete _ _ _ devs); [|done|done]. cbn [mbind result_bind].
    rewrite <- Hrec. apply replace_Ok. split; [done|]. by apply set_same.
  - clear. by induction (physical d'); constructor.
  - cbn. lia.
Qed.

(** After [reconcile] every scene has exactly one device, in the order of the scenes, with
    the id, name, capability and data of the scene; the devices of all other apps are
    untouched; and a second [reconcile] changes nothing. *)
Theorem every_scene_has_one_device d d' :
  doc_ok d -> Scenes.reconcile d = Ok d' ->
  doc_ok d' /\ physical d' = physical d /\ records d' "scenes" = records d "scenes" /\
  Forall2 (fun sc dev => forall k w, (k, w) ∈ scene_fields sc -> get dev k = Some w)
    (records d "scenes") (scene_devices d') /\
  Scenes.reconcile d' = Ok d'.
Proof.
  intros Hd H. destruct (reconcile_ok d d' Hd H) as (Hd' & Hne & devs & HF & Hrec).
  destruct (reconcile_split d d' devs Hd HF Hrec) as [Hph Hsc].
  assert (Hscenes : records d' "scenes" = records d "scenes") by (apply records_ne, Hne; done).
  split_and!; [done|done|done| |].
  - rewrite Hsc. eapply Forall2_impl; [exact HF|]. intros sc dev Hdev k w Hk. exact (scene_device_get _ _ _ _ _ Hdev Hk).
  - apply (reconcile_again d' devs); [done| |by rewrite Hph]. rewrite Hscenes.
    assert (Hin : forall dev, dev ∈ devs -> dev ∈ records d' "devices") by (intros dev Hi; rewrite Hrec; apply elem_of_app; by right).
    clear Hrec Hsc Hscenes Hne. induction HF as [|sc dev l k Hdev _ IH]; constructor.
    + apply (scene_device_again d d'); [done|apply Hin; by left| |done].
      by apply scene_device_of_ok in Hdev as (_ & _ & ? & _).
    + apply IH. intros x Hx. apply Hin. by right.
Qed.

Lemma every_scene_has_one_device_witness :
  exists d, Scenes.reconcile (document sample) = Ok d /\ Scenes.reconcile d = Ok d /\
    map (fun x => text x "id") (scene_devices d) = ["scene:film"].
Proof.
  eexists. split; [vm_compute; reflexivity|]. split; [|vm_compute; reflexivity].
  refine (proj2 (proj2 (proj2 (proj2 (every_scene_has_one_device (document sample) _ (so_doc _ sample_ok) _))))).
  vm_compute. reflexivity.
Defined.
