(* ===== verification/Restart.v ===== *)
(** * Restart: what a later start finds

    The owner on the two-slot files of [Slots]: every byte the writer produces is a byte, every
    operation makes at most one save, and a restart finds the document of the store that was
    running. *)

From Stdlib Require Import ZArith Lia Ascii String SpecFloat.
From S2P Require Import Prelude Text Errors Slots Float Value Json JsonRoundtrip Time Document Stats Store StoreDoc References Media StoreInv StoreDocOps StoreOk StoreProps.
From S2P Require Scenes Triggers.

Local Open Scope Z_scope.

(** ** The writer produces bytes *)

Lemma document_encode_bytes d bs : Document.encode d = Ok bs -> Forall is_byte bs.
Proof.
  unfold Document.encode. destruct (write (root d)) as [out|] eqn:E; cbn; [|done].
  destruct (_ <=? _); [done|]. intros [= <-]. apply Forall_app. split; [by eapply write_bytes|].
  repeat constructor; unfold is_byte; lia.
Qed.

(** ** The document an operation prepares

    What the operation leaves where its save succeeds: the same operation over a storage that
    takes everything. *)

Definition Always {St} : Storage St := {| storage_path := fun _ => None; storage_save := fun _ st => (Ok tt, st) |}.

Definition prepared {St} (op : Op) (s : Store St) : Document := document (run_op (HS := Always) op s).2.

Section Intends.
Context {St : Type} {HS : Storage St}.
Notation M' := (M (St := St)).

(** No save failed: there was none, or the document is what was saved. *)
Definition unspoiled (s s' : Store St) : Prop :=
  (document s' = document s /\ storage s' = storage s)
  \/ exists bs, Document.encode (document s') = Ok bs /\ storage_save bs (storage s) = (Ok tt, storage s').

(** [m0] does what [m] does, or [m] failed to save the document that [m0] leaves. *)
Definition intends {A} (m m0 : M' A) : Prop := forall s r s', m s = (r, s') ->
  (m0 s = (r, with_storage s' (storage s)) /\ unspoiled s s') \/
  (is_ok r = false /\ exists bs e, storage_save bs (storage s) = (Err e, storage s')
     /\ document s' = document s /\ Document.encode (document (m0 s).2) = Ok bs).

(** [m] leaves the document alone and does not look at the storage. *)
Definition trailing {A} (m : M' A) : Prop := forall s,
  document (m s).2 = document s /\ storage (m s).2 = storage s
  /\ forall st, m (with_storage s st) = ((m s).1, with_storage (m s).2 st).

Lemma trailing_lift {A} (r : Result A) : trailing (liftR r).
Proof. done. Qed.

Lemma trailing_modify f :
  framed f -> (forall s st, f (with_storage s st) = with_storage (f s) st) -> trailing (modifyM f).
Proof. intros H1 H2 s. destruct (H1 s). split_and!; [done|done|]. intros st. unfold modifyM. by rewrite H2. Qed.

Lemma trailing_bind {A B} (m : M' A) (k : A -> M' B) : trailing m -> (forall a, trailing (k a)) -> trailing (bindM m k).
Proof.
  intros Hm Hk s. destruct (Hm s) as (H1 & H2 & H3). unfold bindM. destruct (m s) as [[a|e] s1] eqn:E; cbn in *.
  - destruct (Hk a s1) as (K1 & K2 & K3). split_and!; [congruence..|]. intros st. by rewrite H3, K3.
  - split_and!; [done..|]. intros st. by rewrite H3.
Qed.

(** Reading what a trailing step may see. *)
Lemma trailing_get {A} (g : Store St -> Result A) :
  (forall s st, g (with_storage s st) = g s) -> trailing (let* s := getM in liftR (g s)).
Proof. intros H s. split_and!; [done..|]. intros st. unfold bindM, getM, liftR. by rewrite H. Qed.

Lemma intends_trailing {A} (m : M' A) : trailing m -> intends m m.
Proof.
  intros H s r s' E. left. destruct (H s) as (Hd & Hs & _). rewrite E in Hd, Hs |- *. cbn in Hd, Hs.
  split; [|by left]. by rewrite <- Hs, with_storage_id.
Qed.

Lemma intends_read {A B} (m : M' A) (k k0 : A -> M' B) :
  reads_only m -> (forall a, intends (k a) (k0 a)) -> intends (bindM m k) (bindM m k0).
Proof.
  intros Hm Hk s r s' E. unfold bindM in *. destruct (m s) as [[a|e] s1] eqn:Em; apply Hm in Em as ->; [by apply Hk|].
  left. injection E as <- <-. split; [by rewrite with_storage_id|by left].
Qed.

Lemma intends_then {A B} (m m0 : M' A) (k : A -> M' B) :
  intends m m0 -> (forall a, trailing (k a)) -> intends (bindM m k) (bindM m0 k).
Proof.
  intros Hm Hk s r s' E. unfold bindM in *. destruct (m s) as [r1 s1] eqn:Em.
  destruct (Hm s r1 s1 Em) as [[E0 Hu]|(Hr & bs & e & H1 & H2 & H3)].
  - left. rewrite E0. destruct r1 as [a|e]; [|by injection E as <- <-].
    destruct (Hk a s1) as (Hd & Hst & Hs). rewrite Hs, E. rewrite E in Hd, Hst. cbn in Hd, Hst.
    split; [done|]. unfold unspoiled in *. by rewrite Hd, Hst.
  - right. destruct r1 as [a|er]; [done|]. injection E as <- <-. split; [done|]. exists bs, e. split_and!; [done..|].
    rewrite <- H3. destruct (m0 s) as [[a|e0] s0]; cbn; [|done]. by rewrite (proj1 (Hk a s0)).
Qed.

Lemma intends_save c : intends (save c) (save (HS := Always) c).
Proof.
  intros s r s' E. unfold save in *. destruct (Document.encode c) as [bs|e] eqn:Ec.
  2:{ injection E as <- <-. left. split; [by rewrite with_storage_id|by left]. }
  cbn. destruct (storage_save bs (storage s)) as [[[]|e] st] eqn:Es; injection E as <- <-.
  - left. split; [by destruct s|]. right. by exists bs.
  - right. split; [done|]. by exists bs, e.
Qed.

Lemma intends_commit c e : intends (commit c e) (commit (HS := Always) c e).
Proof. apply intends_then; [apply intends_save|]. intros _. by apply trailing_modify. Qed.

Lemma intends_if {A} (b : bool) (m k m0 k0 : M' A) :
  intends m m0 -> intends k k0 -> intends (if b then m else k) (if b then m0 else k0).
Proof. by destruct b. Qed.
End Intends.

(** [m] never touches the document and the storage. *)
Definition quiet {St A} (m : M (St := St) A) : Prop := forall s,
  document (m s).2 = document s /\ storage (m s).2 = storage s.

Lemma intends_quiet {St} {HS : Storage St} {A} (m : M (St := St) A) : quiet m -> intends m m.
Proof.
  intros H s r s' E. left. destruct (H s) as [Hd Hs]. rewrite E in Hd, Hs |- *. cbn in Hd, Hs.
  split; [by rewrite <- Hs, with_storage_id|by left].
Qed.

Lemma silent_bind {St A B} (m : M (St := St) A) (k : A -> M B) : quiet m -> (forall a, quiet (k a)) -> quiet (bindM m k).
Proof.
  intros Hm Hk s. specialize (Hm s). unfold bindM. destruct (m s) as [[a|e] s1]; cbn in *; [|done]. destruct (Hk a s1). split; etrans; by try apply Hm.
Qed.

Lemma silent_get {St} : quiet (getM (St := St)).
Proof. done. Qed.
Lemma silent_ret {St A} (a : A) : quiet (retM (St := St) a).
Proof. done. Qed.
Lemma silent_lift {St A} (r : Result A) : quiet (liftR (St := St) r).
Proof. done. Qed.
Lemma quiet_modify {St} (f : Store St -> Store St) : framed f -> quiet (modifyM f).
Proof. intros H s. apply H. Qed.

#[local] Hint Resolve silent_get silent_ret silent_lift intends_commit intends_save trailing_lift : core.

Section Same.
Context {St : Type}.
Implicit Types (s : Store St) (st : St).

(** The steps after a save commute with an exchange of the storage. *)
Lemma put_cache_storage c s st : put_cache c (with_storage s st) = with_storage (put_cache c s) st.
Proof. unfold put_cache. destruct c as [[id v]|]; [|done]. cbn. by destruct (existsb _ _). Qed.

Lemma forget_storage c id s st : forget c id (with_storage s st) = with_storage (forget c id s) st.
Proof. unfold forget. by destruct (c =? "apps")%string, (c =? "devices")%string. Qed.

Lemma collect_storage id name v s st : collect id name v (with_storage s st) = with_storage (collect id name v s) st.
Proof.
  unfold collect, statistics_enabled. cbn. destruct (match get _ _ with Some _ => _ | None => _ end); [|done].
  destruct (Stats.observe _ _ _ _ _) as [[u|e] x]; [done|]. cbn. by destruct (statistics_reported s).
Qed.

Lemma publish_all_storage evs : forall s st, publish_all evs (with_storage s st) = with_storage (publish_all evs s) st.
Proof. unfold publish_all. induction evs as [|e evs IH]; intros s st; [done|]. cbn [fold_left]. by rewrite <- IH. Qed.
End Same.

(** Takes an operation apart: reads, one save, and what follows it. *)
Ltac intends_steps :=
  repeat first
    [ solve [auto]
    | apply intends_if
    | apply intends_read; [solve [auto with stulp]|intros ?]
    | match goal with |- intends (match ?p with _ => _ end) _ => destruct p end
    | apply intends_then; [solve [auto]|intros ?] ].

Ltac quiet_steps :=
  repeat first
    [ solve [auto]
    | match goal with |- quiet (match ?p with _ => _ end) => destruct p end
    | apply silent_bind; [|intros ?]
    | apply quiet_modify; intros ? ].

Lemma scene_state_intends {St} {HS : Storage St} id sc :
  intends (commit_scene_state (St := St) id sc) (commit_scene_state (HS := Always) id sc).
Proof.
  unfold commit_scene_state. apply intends_read; [auto with stulp|]. intros s. apply intends_read; [auto with stulp|].
  intros [[[[c e] changes] dev] new]. apply intends_then; [auto|]. intros [].
  assert (forall (m : M (St := St) Event) (k : Event -> M (St := St) unit),
    bindM getM (fun s => bindM (liftR (event s "devices" "device.update" (Scenes.device_id id))) k)
    = bindM (bindM getM (fun s => liftR (event s "devices" "device.update" (Scenes.device_id id)))) k) as Ha by done.
  rewrite Ha by exact (liftR (Err Full)). apply trailing_bind; [by apply trailing_get|]. intros e2.
  apply trailing_modify.
  - intros s1. cbn zeta. destruct (framed_collect (text dev "id") (text dev "name") new (publish e2 s1)) as [H1 H2].
    split; [exact H1|exact H2].
  - intros s1 st. cbn zeta. change (publish e2 (with_storage s1 st)) with (with_storage (publish e2 s1) st).
    by rewrite collect_storage.
Qed.

Lemma lift_intends {St} {HS : Storage St} {A} (r : Result A) : intends (liftR (St := St) r) (liftR r).
Proof. by apply intends_quiet. Qed.

#[local] Hint Resolve scene_state_intends lift_intends : core.

Lemma run_op_intends {St} {HS : Storage St} op : intends (run_op (St := St) op) (run_op (HS := Always) op).
Proof.
  destruct op; cbn [run_op].
  - unfold put. intends_steps. apply trailing_modify; [apply framed_put_cache|apply put_cache_storage].
  - unfold delete. intends_steps. apply trailing_modify; [apply framed_forget|apply forget_storage].
  - unfold setting. intends_steps.
  - unfold app_state. intends_steps.
  - unfold system. intends_steps. apply trailing_modify; intros s0; unfold statistics_enabled; cbn.
    + by destruct (match get _ _ with Some _ => _ | None => _ end).
    + intros st. by destruct (match get _ _ with Some _ => _ | None => _ end).
  - unfold flow_result. intends_steps. by apply intends_quiet.
  - apply intends_quiet. unfold observe. quiet_steps. cbn.
    match goal with |- context [collect ?i ?n ?v ?s] => destruct (framed_collect i n v s) as [-> ->] end. done.
  - unfold voidM, begin_scene. apply intends_then; [|intros ?; by apply trailing_lift].
    intends_steps; [by apply intends_quiet|by apply trailing_lift].
  - unfold scene_remaining. intends_steps.
  - unfold reorder_devices. intends_steps.
  - apply intends_quiet. unfold trigger. quiet_steps.
  - unfold replace_references. intends_steps; [by apply intends_quiet..|].
    apply trailing_modify; [apply framed_publish_all|intros s st; apply publish_all_storage].
  - unfold consolidate_devices. intends_steps. apply trailing_modify.
    + intros s. cbn. by edestruct (framed_publish_all (St := St)) as [-> ->].
    + intros s st. rewrite <- publish_all_storage. done.
  - apply intends_quiet. unfold register_media. quiet_steps; try done.
  - apply intends_quiet. unfold voidM, share_image. quiet_steps; try done.
  - apply intends_quiet. unfold announce. quiet_steps; try done.
  - apply intends_quiet. unfold set_app_status. quiet_steps; by destruct (negb (state =? "running")%string).
  - apply intends_quiet. unfold set_app_runtime. quiet_steps; try done.
  - unfold restore. intends_steps. by apply trailing_modify.
  - by apply intends_quiet.
  - apply intends_quiet, quiet_modify, framed_tick.
  - apply intends_quiet. intros s. cbn. unfold take_trigger. by destruct (triggers s).
  - apply intends_quiet. intros s. cbn. unfold take_scene_trip. by destruct (last (scene_trips s)).
  - by apply intends_quiet.
Qed.

(** ** The owner on two slots *)

(** [d] are the bytes of the document that an operation of [ops] had prepared when it failed;
    nothing was saved since. *)
Definition lost_save {St} {HS : Storage St} (ops : list Op) (s s' : Store St) (d : list Z) : Prop :=
  exists ops1 op ops2 rs1 s1, ops = ops1 ++ op :: ops2 /\ run_ops ops1 s = (rs1, s1)
    /\ is_ok (run_op op s1).1 = false /\ document s1 = document s' /\ Document.encode (prepared op s1) = Ok d.

Lemma lost_save_later {St} {HS : Storage St} op ops (s s1 s' : Store St) r d :
  run_op op s = (r, s1) -> lost_save ops s1 s' d -> lost_save (op :: ops) s s' d.
Proof.
  intros E (ops1 & o & ops2 & rs1 & s2 & -> & E1 & H). exists (op :: ops1), o, ops2, (r :: rs1), s2.
  split_and!; [done| |apply H..]. cbn. by rewrite E, E1.
Qed.

Section Files.
Context {B : Type} {BB : Backend B} {HB : BackendSpec B}.

Definition on_disk (s : Store (Files B)) (cur : list Z) (pend : option (list Z)) : Prop :=
  disk_inv (view (backend (storage s))) (active (storage s)) (generation (storage s)) cur pend.

(** The bytes of the last acknowledged document: what the store was opened from, until the
    first save. *)
Definition acknowledged (first : list Z) (d0 : Document) (s : Store (Files B)) (cur : list Z) : Prop :=
  (cur = first /\ document s = d0) \/ Document.encode (document s) = Ok cur.

Lemma op_on_disk op (s : Store (Files B)) r s' first d0 cur pend :
  run_op op s = (r, s') -> on_disk s cur pend -> acknowledged first d0 s cur ->
  exists cur' pend', on_disk s' cur' pend' /\ acknowledged first d0 s' cur' /\
    (pend' = None \/ document s' = document s
      /\ (pend' = pend \/ is_ok r = false /\ exists b, pend' = Some b /\ Document.encode (prepared op s) = Ok b)).
Proof.
  intros H Hd Ha. destruct (run_op_intends op s r s' H) as [H0|(Hr & bs & e & Hsv & Hdoc & He)].
  - destruct H0 as [_ [[Hdoc Hst]|(bs & He & Hsv)]].
    + exists cur, pend. unfold on_disk, acknowledged in *. rewrite Hst, Hdoc. split_and!; [done|done|auto].
    + exists bs, None. apply document_encode_bytes in He as Hby.
      pose proof (files_save_step _ _ _ _ _ _ Hd Hby Hsv) as Hn. split_and!; [exact Hn|by right|auto].
  - exists cur. apply document_encode_bytes in He as Hby.
    pose proof (files_save_step _ _ _ _ _ _ Hd Hby Hsv) as (_ & _ & p & Hp & Hn).
    exists p. split_and!; [exact Hn|unfold acknowledged in *; by rewrite Hdoc|].
    destruct Hp as [->|[->| ->]]; [auto| |auto]. right. split; [done|]. right. split; [done|]. by exists bs.
Qed.

Lemma run_on_disk ops : forall (s : Store (Files B)) rs s' first d0 cur pend,
  run_ops ops s = (rs, s') -> on_disk s cur pend -> acknowledged first d0 s cur ->
  exists cur' pend', on_disk s' cur' pend' /\ acknowledged first d0 s' cur' /\
    (pend' = None \/ (pend' = pend /\ document s' = document s) \/ exists b, pend' = Some b /\ lost_save ops s s' b).
Proof.
  induction ops as [|op ops IH]; intros s rs s' first d0 cur pend H Hd Ha; cbn in H.
  { injection H as <- <-. exists cur, pend. split_and!; [done|done|auto]. }
  destruct (run_op op s) as [r s1] eqn:E1. destruct (run_ops ops s1) as [rs' s2] eqn:E2. injection H as <- <-.
  destruct (op_on_disk _ _ _ _ _ _ _ _ E1 Hd Ha) as (c1 & p1 & Hd1 & Ha1 & Hp1).
  destruct (IH _ _ _ _ _ _ _ E2 Hd1 Ha1) as (c2 & p2 & Hd2 & Ha2 & Hp2). exists c2, p2. split_and!; [done|done|].
  destruct Hp2 as [->|[[-> Hdoc]|(b & -> & Hl)]]; [by left| |right; right; exists b; split; [done|by eapply lost_save_later]].
  destruct Hp1 as [->|[Hdoc1 [->|(Hr & b & -> & Hb)]]]; [by left|right; left; split; [done|congruence]|].
  right. right. exists b. split; [done|]. exists [], op, ops, [], s. split_and!; [done|done|by rewrite E1|congruence|done].
Qed.

(** While the legacy document is the active one, nothing was ever written that succeeded. *)
Lemma run_legacy ops : forall (s : Store (Files B)) rs s',
  run_ops ops s = (rs, s') ->
  view (backend (storage s')) SlotLegacy = view (backend (storage s)) SlotLegacy
  /\ (active (storage s') = SlotLegacy -> active (storage s) = SlotLegacy
      /\ (existsb (fun r => negb (is_ok r)) rs = true \/ storage s' = storage s)).
Proof.
  induction ops as [|op ops IH]; intros s rs s' H; cbn in H; [injection H as <- <-; auto|].
  destruct (run_op op s) as [r s1] eqn:E1. destruct (run_ops ops s1) as [rs' s2] eqn:E2. injection H as <- <-.
  destruct (IH _ _ _ E2) as [Hv Ha]. cbn [existsb].
  destruct (run_op_intends op s r s1 E1) as [[_ [[_ Hst]|(bs & _ & Hsv)]]|(Hr & bs & e & Hsv & _)].
  - rewrite Hst in Hv, Ha. split; [done|]. intros [? [Hf|Hs]]%Ha; split; auto. left. by rewrite Hf, orb_true_r.
  - apply files_save_legacy in Hsv as [Hl Hn]. split; [congruence|]. intros [Hs _]%Ha. by destruct (Hn Hs).
  - apply files_save_legacy in Hsv as [Hl Hn]. split; [congruence|]. intros [Hs _]%Ha. destruct (Hn Hs) as [? _].
    split; [done|]. left. by rewrite Hr.
Qed.

Lemma document_encode_nonempty d bs : Document.encode d = Ok bs -> bs <> [].
Proof.
  unfold Document.encode. destruct (write (root d)) as [out|]; cbn; [|done]. destruct (_ <=? _); [done|].
  intros [= <-] H. by apply app_eq_nil in H as [_ H].
Qed.

Lemma restart_finds (b : B) f first s ops rs s' :
  (forall sl l, view b sl = Some l -> Forall is_byte l) ->
  files_open b = Ok (f, first) ->
  open first f = Ok s -> run_ops ops s = (rs, s') -> healthy (backend (storage s')) ->
  (exists f' d, files_open (backend (storage s')) = Ok (f', d) /\
    (acknowledged first (document s) s' d \/ lost_save ops s s' d))
  \/ (active f = SlotLegacy /\ view b SlotLegacy = None /\ document s' = document s
      /\ existsb (fun r => negb (is_ok r)) rs = true
      /\ files_open (backend (storage s')) = Err (Invalid "no valid document slot and no legacy document")).
Proof.
  intros Hb Ho Hs Hr Hh. apply files_open_Ok in Ho as [Ho Hv].
  pose proof (open_view_inv _ _ _ Hb Ho) as Hi. cbn in Hi. apply (disk_inv_ext _ (view (backend f))) in Hi; [|done].
  assert (Hst : storage s = f).
  { unfold open in Hs. step_ok Hs. step_ok Hs. by injection Hs as <-. }
  destruct (run_on_disk ops s rs s' first (document s) first None Hr) as (cur & pend & Hd & Ha & Hp).
  { unfold on_disk. by rewrite Hst. }
  { by left. }
  pose proof (files_open_healthy _ Hh) as HF. pose proof Hd as Hd0.
  apply inv_open_view in Hd as [(Hact & HN & HE)|(act & r & HO & HR)].
  - right. rewrite HE in HF. destruct (run_legacy _ _ _ _ Hr) as [Hl Hk]. destruct (Hk Hact) as [Ha0 Hf].
    rewrite Hst in Ha0, Hl. rewrite Hv in Hl. split_and!; [done|congruence| | |done].
    + destruct Ha as [[_ ?]|He]; [done|]. apply document_encode_nonempty in He. unfold on_disk, disk_inv in Hd0.
      rewrite Hact, HN in Hd0. by destruct Hd0 as (_ & _ & <- & _).
    + destruct Hf as [|Hf]; [done|]. exfalso. rewrite Hf, Hst in HE. unfold open_view, decoded in HE, Ho.
      rewrite !Hv in HE. congruence.
  - left. rewrite HO in HF. destruct HF as [b' HF].
    do 2 eexists. split; [exact HF|]. destruct HR as [->|HR]; [by left|].
    destruct Hp as [->|[[-> _]|(x & -> & Hx)]]; [done|done|]. injection HR as ->. by right.
Qed.
End Files.


(** A disk with the sample configuration; the second write tears. *)
Definition sample_disk : Disk.disk := Disk.mk_disk None None (Some sample_bytes) [Disk.Works; Disk.Torn 40].

Definition disk_ops : list Op :=
  [OpSystem (json_of "{'language':'nl'}"); OpSystem (json_of "{'language':'en'}")].

Definition disk_store : Store (Files Disk.disk) :=
  Eval vm_compute in mk_store (document sample) "nl" "UTC" 0 stats_new None false (mk_files sample_disk SlotLegacy 0)
    [] [] 0 [] [] [] [] [] [].

Lemma sample_disk_bytes sl l : view sample_disk sl = Some l -> Forall is_byte l.
Proof. destruct sl; try discriminate. intros H. injection H as <-. apply quoted_bytes. Qed.


(** Without a failed operation a restart gives the very document that was in memory: the
    bytes it finds decode to it, or to it before the scene devices are rebuilt when nothing
    was saved since the start. *)
Theorem restart_reads_the_document_back {B} {BB : Backend B} {HB : BackendSpec B} (b : B) f first s ops rs s' :
  (forall sl l, view b sl = Some l -> Forall is_byte l) ->
  files_open b = Ok (f, first) ->
  open first f = Ok s -> Forall op_ok ops -> run_ops ops s = (rs, s') -> healthy (backend (storage s')) ->
  forallb is_ok rs = true ->
  exact (root (document s')) = true -> (vdepth (root (document s')) <= MAX_DEPTH)%nat ->
  exists f' d, files_open (backend (storage s')) = Ok (f', d) /\
    (Document.decode d = Ok (document s') \/ (c ← Document.decode d; Scenes.reconcile c) = Ok (document s')).
Proof.
  intros H1 H2 H4 Hops H5 H6 Hrs Hex Hdep.
  assert (existsb (fun r => negb (is_ok r)) rs = true -> False) as Hno.
  { clear - Hrs. induction rs as [|r rs IH]; [done|]. cbn in *. destruct (is_ok r); [by apply IH|done]. }
  destruct (restart_finds b f first s ops rs s' H1 H2 H4 H5 H6) as [(f' & d & Hf & Hd)|(_ & _ & _ & Hbad & _)]; [|by destruct Hno].
  exists f', d. split; [done|].
  pose proof (run_ops_ok ops s rs s' Hops (open_ok _ _ _ H4) H5) as Hok.
  destruct Hd as [[[-> Hdoc]|He]|Hl].
  - right. rewrite Hdoc. unfold open in H4. destruct (Document.decode first) as [c|]; cbn [mbind result_bind] in H4 |- *; [|done].
    step_ok H4. by injection H4 as <-.
  - left. by apply decode_encode_id; [apply Hok|..].
  - destruct Hno. destruct Hl as (ops1 & op & ops2 & rs1 & s1 & -> & E1 & Hbad & _). clear - E1 Hbad H5.
    revert s rs rs1 E1 H5. induction ops1 as [|o ops1 IH]; intros s rs rs1 E1 H5; cbn in E1, H5.
    + injection E1 as _ ->. destruct (run_op op s1) as [r s2]. destruct (run_ops ops2 s2) as [rs' s3]. cbn in Hbad.
      injection H5 as <- _. cbn [existsb]. by rewrite Hbad.
    + destruct (run_op o s) as [r s2]. destruct (run_ops ops1 s2) as [rs1' s3] eqn:E1'.
      destruct (run_ops (ops1 ++ op :: ops2) s2) as [rs' s4] eqn:E5. injection E1 as _ ->. injection H5 as <- ->.
      cbn [existsb]. rewrite (IH _ _ _ E1' E5). by rewrite orb_true_r.
Qed.

Lemma restart_reads_the_document_back_witness :
  exists s' f' d, run_ops [OpSystem (json_of "{'language':'nl'}")] disk_store = ([Ok tt], s') /\
    files_open (backend (storage s')) = Ok (f', d) /\
    (Document.decode d = Ok (document s') \/ (c ← Document.decode d; Scenes.reconcile c) = Ok (document s')).
Proof.
  destruct (run_ops [OpSystem (json_of "{'language':'nl'}")] disk_store) as [rs s'] eqn:E.
  assert (Hrs : rs = [Ok tt]) by (apply (f_equal fst) in E; cbn [fst] in E; rewrite <- E; vm_compute; reflexivity).
  assert (Hdoc : document s' = document (run_ops [OpSystem (json_of "{'language':'nl'}")] disk_store).2)
    by (rewrite E; reflexivity).
  destruct (restart_reads_the_document_back sample_disk (mk_files sample_disk SlotLegacy 0) sample_bytes disk_store
    [OpSystem (json_of "{'language':'nl'}")] rs s' sample_disk_bytes) as (f' & d & Hf & Hd).
  - vm_compute. reflexivity.
  - vm_compute. reflexivity.
  - repeat constructor.
  - exact E.
  - exact I.
  - rewrite Hrs. reflexivity.
  - rewrite Hdoc. vm_compute. reflexivity.
  - rewrite Hdoc. vm_compute. lia.
  - exists s', f', d. rewrite <- Hrs. split; [reflexivity|]. split; [exact Hf|exact Hd].
Defined.

(** ** A document that is written but not read back *)

(** The body of a request that sets a setting: an object with [n] nested arrays as its value. *)
Definition deep_body (n : nat) : list Z := quoted "{'value':" ++ repeat 91 n ++ repeat 93 n ++ [125].

(** The nesting limit of the reader is not checked when a value is stored.  A request body
    within the limit of 32 levels sets an app setting, the operation succeeds and the
    document is saved, but it is nested three levels deeper than the value, and the bytes it
    was saved as are refused by [decode]: the next start does not open.  Values nested two
    levels less are read back. *)
Theorem deep_setting_is_saved_but_not_read :
  exists body v s' bs e, parse_bounded (deep_body 31) 65536 = Ok body /\ get body "value" = Some v /\
    setting "hue" "k" (Some v) sample = (Ok tt, s') /\ Document.encode (document s') = Ok bs /\
    Document.decode bs = Err e.
Proof.
  do 5 eexists. split; [vm_compute; reflexivity|]. split; [vm_compute; reflexivity|].
  split; [vm_compute; reflexivity|]. split; [vm_compute; reflexivity|]. vm_compute. reflexivity.
Qed.

Example shallow_setting_is_read_back :
  exists body v s' bs, parse_bounded (deep_body 29) 65536 = Ok body /\ get body "value" = Some v /\
    setting "hue" "k" (Some v) sample = (Ok tt, s') /\ Document.encode (document s') = Ok bs /\
    Document.decode bs = Ok (document s').
Proof.
  do 4 eexists. split; [vm_compute; reflexivity|]. split; [vm_compute; reflexivity|].
  split; [vm_compute; reflexivity|]. split; [vm_compute; reflexivity|]. vm_compute. reflexivity.
Qed.

(** * MediaProps: image tickets and consolidation

    A shared image is served until its ticket expires, and the devices a consolidation merges
    away leave nothing behind. *)

(** ** Image tickets *)

Lemma find_app_r {A} (p : A -> bool) l x : existsb p l = false -> find p (l ++ [x]) = if p x then Some x else None.
Proof. induction l as [|y l IH]; cbn; [done|]. by destruct (p y). Qed.

Lemma existsb_sub {A} (p q : A -> bool) l k :
  (forall x, x ∈ l -> x ∈ k) -> (forall x, p x = true -> q x = true) -> existsb q k = false -> existsb p l = false.
Proof.
  intros Hl Hp Hq. apply not_true_iff_false. intros (x & Hx & Hpx)%existsb_exists.
  apply not_true_iff_false in Hq. apply Hq, existsb_exists. exists x.
  split; [apply list_elem_of_In, Hl; by apply list_elem_of_In|auto].
Qed.

(** A shared image is served from the device and slot it was shared for, until fifteen
    minutes after it was shared and not a millisecond longer; and a slot that was asked for
    is the slot that is served. *)
Theorem shared_image_is_served {St} {HS : Storage St} id dev slot now v (s s1 : Store St) :
  share_image id dev slot now s = (Ok v, s1) ->
  exists d slot', record (document s) "devices" dev = Ok d /\ (is_empty slot = false -> slot' = slot) /\
    forall t, image_source id t s1 =
      if t <? saturating_add now IMAGE_MS
      then Ok (text d "appId", fields [("deviceId", VString dev); ("slot", VString slot'); ("kind", VString "image")])
      else Err (Missing "image does not exist").
Proof.
  unfold share_image. rewrite bind_get, bind_lift. intros H.
  destruct (prepare_share s id dev slot now) as [ticket|] eqn:E; [|done]. injection H as _ <-.
  unfold prepare_share in E. step_ok E. do 2 step_ok E. injection E as <-.
  apply orb_false_iff in E0 as [_ Hnew]. destruct (find _ (default [] _)) as [src|] eqn:Ef in E2; [|done]. injection E2 as <-.
  apply find_some in Ef as [Hin Hp]. apply andb_true_iff in Hp as [Himg Hslot].
  unfold device_media in E1. destruct (record (document s) "devices" dev) as [d|] eqn:Ed; cbn [mbind result_bind] in E1; [|done].
  exists d, (text src "slot"). split; [done|]. split.
  { intros He. rewrite He in Hslot. by apply String.eqb_eq in Hslot. }
  intros t. unfold image_source. cbn [images with_images]. unfold add_ticket. cbv zeta. rewrite find_app_r; cbn [im_id im_expires].
  2:{ eapply existsb_sub; [| |exact Hnew]; [|by intros x [? _]%andb_true_iff].
      intros x Hx. destruct (length _ =? MAX_IMAGES)%nat; [|by apply filter_elem in Hx as [? _]].
      destruct (List.filter _ (images s)) as [|y l] eqn:El; [by apply not_elem_of_nil in Hx|].
      assert (x ∈ y :: l) as Hx' by (by right). rewrite <- El in Hx'. by apply filter_elem in Hx' as [? _]. }
  rewrite String.eqb_refl. cbn [andb]. destruct (t <? _); [|done]. cbn [ok_or mbind result_bind im_device im_slot].
  unfold device_media. cbn [document with_images]. rewrite Ed. cbn [mbind result_bind].
  change (app_status (text d "appId") (with_images s _)) with (app_status (text d "appId") s). cbn [media with_images].
  rewrite E1. cbn [mbind result_bind].
  assert (existsb (fun w => (text w "slot" =? text src "slot")%string && is_image w) (default [] (as_array a)) = true) as ->.
  { apply existsb_exists. exists src. by rewrite String.eqb_refl, Himg. }
  done.
Qed.

(** The sample with its app running and a camera slot declared. *)
Definition camera_store : Store Memory :=
  Eval vm_compute in (run_ops [OpSetAppStatus "hue" "running";
    OpRegisterMedia "hue" (json_of "{'deviceId':'lamp','media':[{'slot':'cam','kind':'image','title':'Deur'}]}")] sample).2.

Definition ticket_id : string := "0123456789abcdef0123456789abcdef".

Lemma shared_image_is_served_witness :
  exists v s1, share_image ticket_id "lamp" "" 1000 camera_store = (Ok v, s1) /\
    image_source ticket_id 900999 s1 = Ok ("hue",
      fields [("deviceId", VString "lamp"); ("slot", VString "cam"); ("kind", VString "image")]) /\
    image_source ticket_id 901000 s1 = Err (Missing "image does not exist").
Proof.
  destruct (share_image ticket_id "lamp" "" 1000 camera_store) as [r s1] eqn:E.
  assert (Hr : exists v, r = Ok v) by (apply (f_equal fst) in E; cbn [fst] in E; rewrite <- E; vm_compute; eauto).
  destruct Hr as [v ->]. exists v, s1. split; [reflexivity|].
  destruct (shared_image_is_served ticket_id "lamp" "" 1000 v camera_store s1 E) as (d & sl & Hd & _ & Hs).
  vm_compute in E. injection E as _ <-. split; vm_compute; reflexivity.
Defined.

(** ** Consolidation *)

(** Nothing of a device is left: no record, observation, cache or media. *)
Definition gone {St} {HS : Storage St} (id : string) (s : Store St) : Prop :=
  has_device s id = false /\ id ∉ map ob_id (live s) /\ id ∉ map fst (caches s) /\ id ∉ map fst (media s).

Record same_tables {St} (a b : Store St) : Prop := {
  st_document : document a = document b; st_live : live a = live b; st_caches : caches a = caches b;
  st_media : media a = media b; st_triggers : triggers a = triggers b; st_trips : scene_trips a = scene_trips b
}.

Lemma publish_all_frame {St} {HS : Storage St} evs (s : Store St) : same_tables (publish_all evs s) s.
Proof.
  unfold publish_all. revert s. induction evs as [|e evs IH]; intros s; [done|]. cbn [fold_left].
  by destruct (IH (publish e s)); split.
Qed.

Lemma reconcile_no_new d d' id :
  doc_ok d -> Scenes.reconcile d = Ok d' -> starts_with "scene:" id = false ->
  is_ok (record d "devices" id) = false -> is_ok (record d' "devices" id) = false.
Proof.
  intros Hd H Hid Hno. apply not_true_iff_false in Hno. apply not_true_iff_false.
  rewrite record_is_ok in *. intros Hin. apply Hno. clear Hno.
  apply reconcile_ok in H as (_ & _ & devs & HF & Hrec); [|done].
  rewrite Hrec, ids_app in Hin. apply elem_of_app in Hin as [Hin|Hin].
  - unfold ids in *. apply list_elem_of_fmap in Hin as (x & -> & Hx). apply filter_elem in Hx as [Hx _].
    apply list_elem_of_fmap. by exists x.
  - exfalso. clear Hrec. induction HF as [|sc dev l k Hdev _ IH]; [by apply not_elem_of_nil in Hin|].
    cbn in Hin. apply elem_of_cons in Hin as [->|Hin]; [|by apply IH].
    apply scene_device_of_ok in Hdev as (_ & _ & Hk & _); [|done]. rewrite Hk in Hid.
    unfold starts_with, scene_key, Scenes.device_id in Hid. cbn in Hid. by destruct (text sc "id").
Qed.

Lemma consolidate_removes {St} {HS : Storage St} (s : Store St) app m rs now r entries old :
  doc_ok (document s) -> uniq m = true -> prepare_consolidate s app m rs now = Ok r ->
  as_object rs = Some entries -> old ∈ obj_keys entries -> old <> text m "id" -> starts_with "scene:" old = false ->
  is_ok (record (co_document r) "devices" old) = false.
Proof.
  intros Hd Hm H He Hold Hne Hsc.
  destruct (consolidate_steps _ _ _ _ _ _ Hd Hm H) as (_ & (c1 & c2 & es & Hes & Hd2 & Hrec & Hr) & _).
  rewrite He in Hes. injection Hes as <-. eapply reconcile_no_new; [exact Hd2|exact Hr|exact Hsc|].
  apply not_true_iff_false. rewrite record_is_ok, Hrec. unfold ids. intros (x & -> & Hx)%list_elem_of_fmap.
  apply filter_elem in Hx as [_ Hx]. apply negb_true_iff, not_true_iff_false in Hx. apply Hx, existsb_exists.
  apply list_elem_of_fmap in Hold as ([k w] & Hk & Hin). cbn in Hk. exists (k, w).
  split; [by apply list_elem_of_In|]. cbn. unfold id_is. rewrite <- Hk, String.eqb_refl. apply negb_true_iff. by apply String.eqb_neq.
Qed.

Lemma not_in_replaced {A} (g : A -> string) rs old l :
  is_Some (get rs old) -> old ∉ map g (List.filter (fun y => not_replaced rs (g y)) l).
Proof.
  intros Hs (y & -> & Hy)%list_elem_of_fmap. apply filter_elem in Hy as [_ Hy]. unfold not_replaced in Hy.
  by rewrite bool_decide_eq_true_2 in Hy.
Qed.

Lemma push_all_length {A B} (f : A -> Result B) max xs ys : push_all f max xs [] = Ok ys -> length ys = length xs.
Proof. intros (zs & HF & -> & _)%push_all_Ok. symmetry. by apply Forall2_length in HF. Qed.

Lemma consolidate_queues {St} {HS : Storage St} (s : Store St) app m rs now r :
  prepare_consolidate s app m rs now = Ok r ->
  length (co_triggers r) = length (triggers s) /\ length (co_trips r) = length (scene_trips s).
Proof.
  intros H. unfold prepare_consolidate in H. do 3 step_ok H. do 8 step_ok H.
  destruct (rewrite_references s _ rs now _) as [[c1 acc1]|]; cbn [mbind result_bind] in H; [|done].
  destruct (remove_sources s _ _ c1 acc1) as [[c2 acc2]|]; cbn [mbind result_bind] in H; [|done].
  do 3 step_ok H. injection H as <-. split; by eapply push_all_length.
Qed.

(** A consolidation leaves nothing of the devices it merges away: their records,
    observations, caches and media are gone, the surviving device has an
    observation, and no queued trigger or scene trip is lost. *)
Theorem consolidation_leaves_only_the_survivor {St} {HS : Storage St} app m rs now entries (s s1 : Store St) :
  store_ok s -> uniq m = true -> as_object rs = Some entries ->
  consolidate_devices app m rs now s = (Ok tt, s1) ->
  (forall old, old ∈ obj_keys entries -> old <> text m "id" -> starts_with "scene:" old = false -> gone old s1) /\
  text m "id" ∈ map ob_id (live s1) /\
  length (triggers s1) = length (triggers s) /\ length (scene_trips s1) = length (scene_trips s).
Proof.
  intros Hs Hm He H. unfold consolidate_devices in H. rewrite bind_get, bind_lift in H.
  destruct (prepare_consolidate s app m rs now) as [r|] eqn:E; [|done].
  destruct (consolidate_survivor _ _ _ _ _ _ E Hs Hm) as ([v Hv] & Hob & _ & Hca).
  unfold bindM in H. destruct (save (co_document r) s) as [r1 s2] eqn:Es.
  destruct (save_spec _ _ _ _ Es) as [(er & -> & _)|(-> & bs & st & _ & _ & ->)]; [done|]. injection H as <-.
  match goal with |- context [publish_all _ ?x] => set (s2 := x); destruct (publish_all_frame (co_events r) s2) as [H1 H2 H3 H4 H5 H6] end.
  rewrite H2, H5, H6. destruct (consolidate_queues _ _ _ _ _ _ E) as [Ht Hp]. split_and!; [|set_solver|done|done].
  intros old Hold Hne Hsc. unfold gone, has_device. rewrite H1, H2, H3, H4. cbn [document live caches media s2 with_trips with_triggers with_media with_caches with_live with_document].
  assert (Hsome : is_Some (get rs old)).
  { unfold get. rewrite He. destruct (obj_get entries old) eqn:Eo; [eauto|]. by apply obj_get_None in Eo. }
  split_and!.
  - eapply consolidate_removes; [apply Hs|exact Hm|exact E|exact He|done|done|done].
  - rewrite map_app, elem_of_app. intros [Hx|Hx]; [by eapply (not_in_replaced ob_id)|].
    cbn in Hx. apply list_elem_of_singleton in Hx. congruence.
  - rewrite map_app, elem_of_app. intros [Hx|Hx]; [by eapply (not_in_replaced fst)|].
    destruct (co_cache r) as [[k c]|]; [|by apply not_elem_of_nil in Hx]. cbn in Hx. apply list_elem_of_singleton in Hx.
    rewrite (proj1 (Hca k c eq_refl)) in Hx. done.
  - by apply (not_in_replaced fst).
Qed.

(** Two lamps of one driver, and the record they become. *)
Definition second_lamp : list Op := [OpPut "devices"
  (json_of "{'id':'l2','appId':'hue','driverId':'bulb','data':{'mac':2},'capabilities':['dim'],'store':{'~c':1}}") true None "t"].

Definition two_lamps : Store Memory := Eval vm_compute in (run_ops second_lamp sample).2.

Lemma two_lamps_ok : store_ok two_lamps.
Proof. apply (run_ops_ok second_lamp sample [Ok tt]); [repeat constructor|exact sample_ok|vm_compute; reflexivity]. Qed.

Definition merged_lamp : Value := json_of "{'id':'lamp','capabilities':['onoff','dim'],'available':true}".

Definition lamp_routes : Value := json_of
  "{'lamp':{'deviceId':'lamp','capabilities':{'onoff':'onoff'}},'l2':{'deviceId':'lamp','capabilities':{'dim':'dim'}}}".

Lemma consolidation_leaves_only_the_survivor_witness :
  exists s1, consolidate_devices "hue" merged_lamp lamp_routes "t" two_lamps = (Ok tt, s1) /\ gone "l2" s1.
Proof.
  eexists. split; [vm_compute; reflexivity|].
  refine (proj1 (consolidation_leaves_only_the_survivor "hue" merged_lamp lamp_routes "t"
    (default [] (as_object lamp_routes)) two_lamps _ _ _ _ _) "l2" _ _ _).
  - exact two_lamps_ok.
  - vm_compute. reflexivity.
  - vm_compute. reflexivity.
  - vm_compute. reflexivity.
  - vm_compute. right. left.
  - vm_compute. discriminate.
  - vm_compute. reflexivity.
Defined.
