(* ===== verification/Mutations.v ===== *)
(** * Mutations: what an app may change

    Models [crates/runtime/src/mutations.rs]: [dispatch] carries out one request of an
    authenticated app on the store, [device_op] the requests about one of its devices.
    Also the texts of errors ([Display] of [crates/core/src/lib.rs] and
    [vendor/types/src/error.rs]), which an app receives when a request is refused.

    The out-parameter [out] is threaded as a list: a failing request has appended nothing
    to it, because the append is the last thing every branch does. *)

From Stdlib Require Import ZArith Lia Ascii String.
From S2P Require Import Prelude Text Errors Slots Float Value Document Stats Store References Media Wire.

Local Open Scope Z_scope.

(** ** Error texts *)

Definition show (z : Z) : string := of_bytes (show_Z z).
Definition QUOTE : string := of_bytes [34].

Definition hop_error_text (e : HopError) : string :=
  match e with
  | OutOfMemory => "out of memory"
  | TooLarge len max => "input of " ++ show len ++ " bytes exceeds " ++ show max
  | TooDeep offset max => "nesting deeper than " ++ show max ++ " at byte " ++ show offset
  | Syntax offset expected => "invalid JSON at byte " ++ show offset ++ ": expected " ++ expected
  | Trailing offset => "more than one JSON document (second starts at byte " ++ show offset ++ ")"
  | DuplicateKey key => "duplicate key " ++ QUOTE ++ key ++ QUOTE
  | NotFinite => "number is not finite"
  | WrongType field want => field ++ ": expected " ++ want
  | UnknownField field => "unknown field " ++ QUOTE ++ field ++ QUOTE
  | OutOfRange field => field ++ ": number out of range"
  | HopInvalid field why => field ++ ": " ++ why
  | TooMany field max => field ++ ": more than " ++ show max ++ " entries"
  end.

Definition error_text (e : Error) : string :=
  match e with
  | Full => "capacity exceeded"
  | Errors.Memory => "allocation failed"
  | Invalid s | Missing s | Conflict s => s
  | Changed => "record changed since it was read"
  | EStorage => "document persistence failed"
  | Json e => "JSON: " ++ hop_error_text e
  end.

Definition MAX_OUTBOX : Z := 64.

Section Ops.
Context {St : Type} {HS : Storage St}.

(** The field of the document that belongs to one app, or an empty object. *)
Definition app_field (s : Store St) (field id : string) : Value :=
  match get (root (document s)) field ≫= fun v => get v id with
  | Some v => v
  | None => object
  end.

(** [device.set] *)
Definition set_field (dev params : Value) (field : string) : Result Value :=
  value ← ok_or (get params "value") (Missing "device value is required");
  if (((field =? "name")%string || (field =? "class")%string || (field =? "unavailableMessage")%string)
        && bool_decide (is_Some (as_str value)))
     || ((field =? "available")%string && bool_decide (is_Some (as_bool value)))
  then set dev field value
  else Err (Invalid "device field cannot be set to that value").

(** [device.merge] *)
Definition merge_field (dev params : Value) (field : string) : Result Value :=
  if negb ((field =? "settings")%string || (field =? "store")%string || (field =? "state")%string)
  then Err (Invalid "device field is not a map")
  else
    patch ← ok_or (get params "patch" ≫= as_object) (Invalid "device patch must be an object");
    target ← set_all (match get dev field with Some v => v | None => object end) patch;
    set dev field target.

(** [capability.add] and [capability.remove] *)
Definition change_capabilities (dev params : Value) (add : bool) : Result Value :=
  let cap := text params "capability" in
  if is_empty cap then Err (Invalid "capability id is required")
  else
    caps ← push_all Ok 1024
             (List.filter (fun v => negb (bool_decide (as_str v = Some cap))) (array dev "capabilities")) [];
    caps ← (if add then push caps (VString cap) 1024 else Ok caps);
    set dev "capabilities" (VArray caps).

Definition change_device (dev : Value) (method : string) (params : Value) : Result Value :=
  let field := text params "field" in
  if (method =? "device.set")%string then set_field dev params field
  else if (method =? "device.merge")%string then merge_field dev params field
  else if (method =? "capability.add")%string then change_capabilities dev params true
  else if (method =? "capability.remove")%string then change_capabilities dev params false
  else Err (Invalid "unknown device operation").

(** The event that tells the app what its device looks like now. *)
Definition device_frame (id : string) (dev : Value) : Result Value :=
  request 0 "state.device" (fields [("deviceId", VString id); ("device", dev)]).

(** [mutations::device] *)
Definition device_op (app method : string) (params : Value) (now : string) (out : list Value)
  : M (list Value) :=
  let id := text params "deviceId" in
  let* s := getM in
  let* dev := liftR (device id s) in
  if negb (text dev "appId" =? app)%string
  then liftR (Err (Invalid "device belongs to another app"))
  else
    let* dev := liftR (change_device dev method params) in
    let field := text params "field" in
    let* _ :=
      (if (field =? "state")%string || (field =? "available")%string
          || (field =? "unavailableMessage")%string
       then
         let* st := liftR (ok_or (get dev "state") (Missing "device state")) in
         observe app id st (boolean dev "available") (text dev "unavailableMessage")
       else put "devices" dev false None now) in
    let* s := getM in
    let* updated := liftR (device id s) in
    let* f := liftR (device_frame id updated) in
    liftR (push out f MAX_OUTBOX).

(** [setting.set] and [setting.unset] *)
Definition setting_op (app method : string) (params : Value) (out : list Value) : M (list Value) :=
  let key := text params "key" in
  if is_empty key then liftR (Err (Invalid "setting key is required"))
  else
    let value := if (method =? "setting.set")%string then Some (get_null params "value") else None in
    let* _ := setting app key value in
    let* s := getM in
    let* f := liftR (request 0 "state.settings" (app_field s "appSettings" app)) in
    liftR (push out f MAX_OUTBOX).

Definition is_device_method (m : string) : bool :=
  (m =? "device.set")%string || (m =? "device.merge")%string
  || (m =? "capability.add")%string || (m =? "capability.remove")%string.

(** The result of a request that only changes the store. *)
Definition done_with (out : list Value) (m : M (St := St) unit) : M (St := St) (Value * list Value) :=
  let* _ := m in retM (VNull, out).

(** [mutations::dispatch]; [now] and [clock] are the time as text and in milliseconds. *)
Definition dispatch (app method : string) (params : Value) (now : string) (clock : Z)
    (new_id : string) (out : list Value) : M (Value * list Value) :=
  if (method =? "images.list")%string then
    let* s := getM in let* v := liftR (image_sources s) in retM (v, out)
  else if (method =? "image.url")%string then
    let* v := share_image new_id (text params "deviceId") (text params "slot") clock in retM (v, out)
  else if (method =? "device.replace")%string then
    done_with out (replace_references app (get_null params "replacements") now)
  else if (method =? "flow.trigger")%string then done_with out (trigger app params)
  else if (method =? "media.register")%string then done_with out (register_media app params)
  else if is_device_method method then
    let* out := device_op app method params now out in retM (VNull, out)
  else if (method =? "setting.set")%string || (method =? "setting.unset")%string then
    let* out := setting_op app method params out in retM (VNull, out)
  else if (method =? "state.set")%string then
    done_with out (app_state app (get_null params "state"))
  else if (method =? "notification")%string then
    done_with out
      (put "notifications"
         (fields [("id", VString new_id); ("appId", VString app);
                  ("excerpt", VString (text params "excerpt"))]) true None now)
  else if (method =? "capability.options")%string then
    liftR (Err (Invalid "capability options are declared in app.json and cannot be set at runtime"))
  else liftR (Err (Invalid "unknown app method")).
End Ops.

(** * Batch: a group of commands to one device

    Models [crates/runtime/src/groups.rs]: the commands of a [capabilities.invoke] request
    are sent one by one when (and only when) the app says it does not know that method.
    [Group_run] feeds the replies of the app to the group; [fallback_in_order] says what
    the app then receives and what the owner gets back. *)

Record Group : Type := mk_group {
  g_owner : Z; g_deadline : Z; g_params : Value; g_sent : nat; g_singles : bool; g_errors : Value
}.

Inductive Step : Type :=
| Original
| Call (params : Value)
| Done (errors : Value).

(** [Group::new] *)
Definition Group_new (owner now : Z) (params : Value) : Result Group :=
  let commands := array params "commands" in
  if (256 <? length commands)%nat then Err Full
  else if existsb (fun c => is_empty (text c "capability") || negb (bool_decide (is_Some (get c "value"))))
            commands
  then Err (Invalid "invalid grouped capability command")
  else Ok (mk_group owner (saturating_add now 30000) params 0 false object).

(** [s.contains(p)] *)
Definition contains (p s : string) : bool :=
  match String.index 0 p s with Some _ => true | None => false end.

(** The message of an error frame: the error itself, or its [message]. *)
Definition reply_message (f : Frame) : string :=
  let error := get_null (f_value f) "e" in
  match as_str error with Some s => s | None => text error "message" end.

Definition INVOCATION_FAILED : string := "capability invocation failed".

(** The errors after a reply to a single command. *)
Definition note_error (g : Group) (f : Frame) : Result Value :=
  if bool_decide (f_kind f = ErrorKind) then
    previous ← ok_or (array (g_params g) "commands" !! (g_sent g - 1)%nat) Changed;
    let message := reply_message f in
    set (g_errors g) (text previous "capability")
      (VString (if is_empty message then INVOCATION_FAILED else message))
  else Ok (g_errors g).

(** The parameters of the next single command. *)
Definition single_params (params command : Value) : Result Value :=
  p ← set command "deviceId" (VString (text params "deviceId"));
  set p "options" (match get params "options" with Some o => o | None => object end).

(** [Group::reply], once the group sends its commands one by one. *)
Definition next_single (g : Group) : Result Step * Group :=
  match array (g_params g) "commands" !! g_sent g with
  | None => (Ok (Done (g_errors g)), g)
  | Some command =>
      match single_params (g_params g) command with
      | Err e => (Err e, g)
      | Ok p => (Ok (Call p), mk_group (g_owner g) (g_deadline g) (g_params g) (S (g_sent g))
                               (g_singles g) (g_errors g))
      end
  end.

Definition group_reply (g : Group) (f : Frame) : Result Step * Group :=
  if negb (g_singles g) then
    if negb (bool_decide (f_kind f = ErrorKind)) || negb (contains "unknown method" (reply_message f))
    then (Ok Original, g)
    else next_single (mk_group (g_owner g) (g_deadline g) (g_params g) (g_sent g) true (g_errors g))
  else
    match note_error g f with
    | Err e => (Err e, g)
    | Ok errors =>
        next_single (mk_group (g_owner g) (g_deadline g) (g_params g) (g_sent g) true errors)
    end.

(** The steps of a group for the replies it receives, until one ends it. *)
Fixpoint Group_run (g : Group) (replies : list Frame) : list (Result Step) :=
  match replies with
  | [] => []
  | f :: replies =>
      match group_reply g f with
      | (Ok (Call p), g') => Ok (Call p) :: Group_run g' replies
      | (r, _) => [r]
      end
  end.

(** ** Specification *)

(** The errors after the replies to the first commands, one by one. *)
Fixpoint errors_after (commands : list Value) (replies : list Frame) (errors : Value) : Result Value :=
  match commands, replies with
  | c :: commands, f :: replies =>
      errors ← (if bool_decide (f_kind f = ErrorKind)
                then set errors (text c "capability")
                       (VString (if is_empty (reply_message f) then INVOCATION_FAILED
                                 else reply_message f))
                else Ok errors);
      errors_after commands replies errors
  | _, _ => Ok errors
  end.

(** ** Lemmas *)

Lemma set_objects v k w : (exists o, v = VObject o) -> exists o, set v k w = Ok (VObject o).
Proof. intros [o ->]. unfold set. cbn. eauto. Qed.

Lemma errors_after_ok commands : forall replies errors,
  (exists o, errors = VObject o) -> exists o, errors_after commands replies errors = Ok (VObject o).
Proof.
  induction commands as [|c commands IH]; intros [|f replies] errors He; cbn [errors_after];
    try (destruct He as [o ->]; by exists o).
  destruct (bool_decide _); [|by apply IH].
  destruct (set_objects errors (text c "capability") (VString (if is_empty (reply_message f)
    then INVOCATION_FAILED else reply_message f)) He) as [o ->]. apply IH. by exists o.
Qed.

Lemma valid_command c : negb (is_empty (text c "capability") || negb (bool_decide (is_Some (get c "value")))) = true ->
  exists o, c = VObject o.
Proof. destruct c; cbn; try done. eauto. Qed.

Lemma single_params_ok params c : (exists o, c = VObject o) -> exists p, single_params params c = Ok p.
Proof. intros [o ->]. unfold single_params, set. cbn. eauto. Qed.

(** The remaining commands [later] and as many replies: each reply produces the call of the
    next command, the last one the errors collected. *)
Lemma singles_run later : forall done_ params owner deadline errors replies prev,
  array params "commands" = done_ ++ prev :: later ->
  (exists o, errors = VObject o) -> Forall (fun c => exists o, c = VObject o) later ->
  length replies = S (length later) ->
  exists es, errors_after (prev :: later) replies errors = Ok es /\
  Group_run (mk_group owner deadline params (length (done_ ++ [prev])) true errors) replies
  = map (fun c => p ← single_params params c; Ok (Call p)) later ++ [Ok (Done es)].
Proof.
  induction later as [|c later IH]; intros done_ params owner deadline errors [|f replies] prev Hc He HF Hl;
    try done.
  all: cbn [Group_run]; unfold group_reply; cbn [g_singles negb]; unfold note_error;
    cbn [g_params g_sent g_errors]; rewrite length_app; cbn [length];
    replace (length done_ + 1 - 1)%nat with (length done_) by lia.
  all: rewrite Hc, list_lookup_middle by done; cbn [ok_or mbind result_bind errors_after].
  all: set (message := if is_empty (reply_message f) then INVOCATION_FAILED else reply_message f).
  all: assert (exists o, (if bool_decide (f_kind f = ErrorKind)
        then set errors (text prev "capability") (VString message) else Ok errors) = Ok (VObject o)) as [o Ho]
      by (destruct (bool_decide _); [by apply set_objects|destruct He as [o ->]; by exists o]).
  all: rewrite Ho; cbn [mbind result_bind]; unfold next_single; cbn [g_params g_sent].
  - destruct replies; [|done]. rewrite Hc, lookup_ge_None_2 by (rewrite length_app; cbn; lia).
    exists (VObject o). done.
  - assert (array params "commands" !! (length done_ + 1)%nat = Some c) as ->.
    { rewrite Hc, lookup_app_r by lia. by replace (length done_ + 1 - length done_)%nat with 1%nat by lia. }
    apply Forall_cons in HF as [Hco HF]. destruct (single_params_ok params c Hco) as [p Hp]. rewrite Hp.
    cbn [g_owner g_deadline g_singles g_errors map mbind result_bind app]. rewrite Hp.
    specialize (IH (done_ ++ [prev]) params owner deadline (VObject o) replies c).
    rewrite <- app_assoc in IH. destruct (IH Hc ltac:(by exists o) HF ltac:(cbn in Hl; lia)) as (es & Hes & HR).
    exists es. split; [done|]. f_equal. rewrite <- HR. f_equal. f_equal.
    rewrite !length_app. cbn. lia.
Qed.

(** ** Properties *)

(** When an app does not know the batch method, each command of the batch is sent exactly
    once, alone and in order, each after the reply to the one before; the owner then gets
    the errors of exactly the commands that failed.  No call of the sequence is lost: after
    as many replies as there are commands the batch is done. *)
Theorem fallback_in_order owner now params g refusal replies :
  Group_new owner now params = Ok g ->
  f_kind refusal = ErrorKind -> contains "unknown method" (reply_message refusal) = true ->
  length replies = length (array params "commands") ->
  exists errors, errors_after (array params "commands") replies object = Ok errors /\
  Group_run g (refusal :: replies)
  = map (fun c => p ← single_params params c; Ok (Call p)) (array params "commands")
    ++ [Ok (Done errors)].
Proof.
  unfold Group_new. intros H Hk Hc Hl. destruct (_ <? _)%nat; [done|].
  destruct (existsb _ _) eqn:Ev; [done|]. injection H as <-.
  assert (Forall (fun c => exists o, c = VObject o) (array params "commands")) as HF.
  { apply Forall_forall. intros c Hin. apply valid_command.
    destruct (_ || _) eqn:E in |- *; [|done]. rewrite <- not_true_iff_false in Ev. destruct Ev.
    apply existsb_exists. exists c. split; [by apply list_elem_of_In|done]. }
  cbn [Group_run]. unfold group_reply. cbn [g_singles negb].
  rewrite (bool_decide_eq_true_2 _ Hk), Hc. cbn [negb orb]. unfold next_single.
  cbn [g_owner g_deadline g_params g_sent g_errors g_singles].
  destruct (array params "commands") as [|c later] eqn:Ec.
  - destruct replies; [|done]. by exists object.
  - apply Forall_cons in HF as [Hco HF]. cbn [lookup list_lookup].
    destruct (single_params_ok params c Hco) as [p Hp]. rewrite Hp.
    destruct (singles_run later [] params owner (saturating_add now 30000) object replies c)
      as (es & Hes & HR); [done|by exists []|done|done|].
    exists es. split; [exact Hes|]. cbn [map mbind result_bind app]. rewrite Hp. f_equal. exact HR.
Qed.

Definition two_commands : Value :=
  VObject [("deviceId", VString "lamp");
           ("commands", VArray [VObject [("capability", VString "onoff"); ("value", VBool true)];
                                VObject [("capability", VString "dim"); ("value", VNumber (Uint 1))]])].

Definition refused : Frame :=
  mk_frame ErrorKind 1 (VObject [("e", VObject [("message", VString "unknown method x")])]).

Lemma fallback_in_order_witness :
  exists g errors, Group_new 7 0 two_commands = Ok g /\
    errors_after (array two_commands "commands") [mk_frame Response 2 object; refused] object = Ok errors /\
    Group_run g [refused; mk_frame Response 2 object; refused]
    = map (fun c => p ← single_params two_commands c; Ok (Call p)) (array two_commands "commands")
      ++ [Ok (Done errors)]
    /\ errors = VObject [("dim", VString "unknown method x")].
Proof.
  destruct (Group_new 7 0 two_commands) as [g|e] eqn:Eg; [|vm_compute in Eg; discriminate Eg].
  destruct (fallback_in_order 7 0 two_commands g refused [mk_frame Response 2 object; refused] Eg
    eq_refl ltac:(vm_compute; reflexivity) ltac:(vm_compute; reflexivity)) as (errors & H1 & H2).
  exists g, errors. split; [reflexivity|]. split; [exact H1|]. split; [exact H2|].
  vm_compute in H1. injection H1 as <-. reflexivity.
Defined.
