(* ===== verification/MutationsOk.v ===== *)
(** * MutationsOk: requests of apps are safe for the store

    Every request of an app either changes nothing in memory or leaves the store valid
    ([tame]); an app changes only its own devices. *)

From Stdlib Require Import ZArith Lia Ascii String.
From S2P Require Import Prelude Text Errors Slots Float Value Json Time Document Stats Store StoreDoc References Media StoreInv StoreDocOps StoreOk StoreProps Devices Wire Mutations.

Local Open Scope Z_scope.

Section Tame.
Context {St : Type} {HS : Storage St}.

(** [m] in state [s]: the store stays valid, and a failure leaves memory as it was. *)
Definition tame {A} (m : M (St := St) A) (s : Store St) : Prop :=
  forall r s', m s = (r, s') ->
  store_ok s' /\ match r with Err _ => s' = with_storage s (storage s') | Ok _ => True end.

Lemma tame_op op s : op_ok op -> store_ok s -> tame (run_op op) s.
Proof.
  intros Ho Hs r s' H. split; [by eapply run_op_ok|]. by apply run_op_atomic in H as [_ H].
Qed.

Lemma tame_lift {A} (r : Result A) s : store_ok s -> tame (liftR r) s.
Proof. intros Hs r' s' [= <- <-]. split; [done|]. destruct r; [done|by rewrite with_storage_id]. Qed.

Lemma tame_bind_lift {A B} (r : Result A) (k : A -> M (St := St) B) s :
  store_ok s -> (forall a, r = Ok a -> tame (k a) s) -> tame (bindM (liftR r) k) s.
Proof.
  intros Hs Hk r' s'. rewrite bind_lift. destruct r as [a|e]; [by apply Hk|].
  intros [= <- <-]. split; [done|]. by rewrite with_storage_id.
Qed.

Lemma tame_bind_get {A} (k : Store St -> M (St := St) A) s : tame (k s) s -> tame (bindM getM k) s.
Proof. intros H r s'. rewrite bind_get. apply H. Qed.

(** A continuation that cannot fail after a success keeps an operation tame. *)
Lemma tame_then {A B} (m : M (St := St) A) (k : A -> M B) s :
  tame m s -> (forall a s1, m s = (Ok a, s1) -> store_ok s1 -> exists b, k a s1 = (Ok b, s1)) ->
  tame (bindM m k) s.
Proof.
  intros Hm Hk r s'. unfold bindM. destruct (m s) as [[a|e] s1] eqn:E.
  - destruct (Hm _ _ E) as [Hs _]. destruct (Hk a s1 eq_refl Hs) as [b Hb]. rewrite Hb.
    by intros [= <- <-].
  - intros [= <- <-]. by apply (Hm _ _ E).
Qed.

Lemma tame_done op out s : op_ok op -> store_ok s -> tame (done_with out (run_op op)) s.
Proof.
  intros Ho Hs. unfold done_with. apply tame_then; [by apply tame_op|]. intros [] s1 _ _. by exists (VNull, out).
Qed.

(** ** Devices as they are read *)

Lemma set_all_object pairs : forall o, exists o', set_all (VObject o) pairs = Ok (VObject o').
Proof.
  induction pairs as [|[k w] pairs IH]; intros o; cbn [set_all]; [by exists o|].
  unfold set at 1. cbn [as_object mbind result_bind]. apply IH.
Qed.

Lemma find_live_state id (s : Store St) o : store_ok s -> find_live id s = Some o -> uniq (ob_state o) = true.
Proof.
  intros Hs [Hin _]%find_some. apply list_elem_of_In in Hin.
  pose proof (so_states _ Hs) as HF. rewrite Forall_forall in HF. by apply HF.
Qed.

Lemma device_uniq id (s : Store St) dev : store_ok s -> device id s = Ok dev -> uniq dev = true.
Proof.
  intros Hs H. unfold device in H. step_ok H.
  destruct (record_props _ _ _ _ (so_doc _ Hs) E) as (Hu & _).
  destruct (match find _ (caches s) with Some _ => _ | None => _ end) as [v|] eqn:Ec;
    cbn [mbind result_bind] in H; [|done].
  assert (uniq v = true) as Hv.
  { destruct (find _ (caches s)) as [[k cache]|] eqn:Ef; [|by injection Ec as <-]. step_ok Ec.
    apply find_some in Ef as [Ef _]. apply list_elem_of_In in Ef.
    pose proof (so_cached _ Hs) as HF. rewrite Forall_forall in HF. specialize (HF _ Ef). cbn in HF.
    eapply uniq_set; [exact Ec|done|]. eapply set_all_uniq; [exact E0| |].
    - destruct cache as [| | | | |o]; cbn; try constructor. by apply uniq_object in HF as [_ HF].
    - destruct (get a "store") as [w|] eqn:Eg; [exact (uniq_get _ _ _ Hu Eg)|done]. }
  eapply set_all_uniq; [exact H| |done]. repeat constructor; cbn [snd].
  destruct (scene_of s id v) as [sc|]; [destruct (negb _); [done|]|];
    (destruct (find_live id s) eqn:El; [by eapply find_live_state|done]).
Qed.

(** A device can be read when its record can be and its store is an object. *)
Lemma device_readable id (s : Store St) r :
  record (document s) "devices" id = Ok r -> is_Some (as_object r) ->
  match get r "store" with Some w => is_Some (as_object w) | None => True end ->
  exists dev, device id s = Ok dev.
Proof.
  intros Hr [o Ho] Hst. unfold device. rewrite Hr. cbn [mbind result_bind].
  destruct r as [| | | | |o']; try done. injection Ho as ->.
  assert (exists o2, match find (fun kv : string * Value => (kv.1 =? id)%string) (caches s) with
      | Some (_, cache) =>
          store ← set_all (match get (VObject o) "store" with Some v => v | None => object end)
                    (default [] (as_object cache));
          set (VObject o) "store" store
      | None => Ok (VObject o)
      end = Ok (VObject o2)) as [o2 ->].
  { destruct (find _ (caches s)) as [[k cache]|]; [|by exists o].
    destruct (get (VObject o) "store") as [w|].
    - destruct Hst as [ow Hw]. destruct w; try done. injection Hw as ->.
      destruct (set_all_object (default [] (as_object cache)) ow) as [o3 ->]. cbn. eauto.
    - destruct (set_all_object (default [] (as_object cache)) []) as [o3 Ho3].
      unfold object. rewrite Ho3. cbn. eauto. }
  cbn [mbind result_bind]. match goal with |- exists dev, set_all _ ?l = _ => destruct (set_all_object l o2) as [o4 ->] end.
  eauto.
Qed.
(** ** The request about a device *)

Lemma change_device_edits dev m p dev' :
  change_device dev m p = Ok dev' -> uniq dev = true -> uniq p = true ->
  uniq dev' = true /\ text dev' "id" = text dev "id" /\ text dev' "appId" = text dev "appId".
Proof.
  intros H Hd Hp.
  assert (forall k w, set dev k w = Ok dev' -> uniq w = true -> k <> "id" -> k <> "appId" ->
    uniq dev' = true /\ text dev' "id" = text dev "id" /\ text dev' "appId" = text dev "appId") as Hset.
  { intros k w Hs Hw H1 H2. split; [by eapply uniq_set|]. split; by eapply text_set_ne. }
  assert (forall add, change_capabilities dev p add = Ok dev' ->
    uniq dev' = true /\ text dev' "id" = text dev "id" /\ text dev' "appId" = text dev "appId") as Hcaps.
  { intros add Hc. unfold change_capabilities in Hc. destruct (is_empty _); [done|].
    step_ok Hc. step_ok Hc. eapply Hset; [exact Hc| |done|done]. apply uniq_array.
    apply push_all_id in E as ->. cbn [app] in E0.
    assert (Forall (fun v => uniq v = true) (List.filter (fun v =>
        negb (bool_decide (as_str v = Some (text p "capability")))) (array dev "capabilities"))) as HF
      by (apply Forall_kept; by apply uniq_elems).
    destruct add; [|by injection E0 as <-]. apply push_Ok in E0 as [_ ->].
    apply Forall_app. by repeat constructor. }
  unfold change_device in H. destruct (m =? "device.set")%string.
  - unfold set_field in H. destruct (get p "value") as [v|] eqn:Ev; cbn [ok_or mbind result_bind] in H; [|done].
    destruct (_ || _) eqn:E; [|done]. eapply Hset; [exact H|by eapply uniq_get|..];
      intros Hf; rewrite Hf in E; done.
  - destruct (m =? "device.merge")%string.
    + unfold merge_field in H. destruct (negb _) eqn:E; [done|]. apply negb_false_iff in E.
      step_ok H. step_ok H.
      eapply Hset; [exact H| |intros Hf; rewrite Hf in E; done..].
      destruct (get p "patch") as [w|] eqn:Ew; [|done]. destruct w as [| | | | |o]; try done.
      injection E0 as <-. apply (uniq_get _ _ _ Hp) in Ew. apply uniq_object in Ew as [_ HF].
      eapply set_all_uniq; [exact E1|exact HF|].
      destruct (get dev _) as [w|] eqn:Eg; [exact (uniq_get _ _ _ Hd Eg)|done].
    + destruct (m =? "capability.add")%string; [by eapply Hcaps|].
      destruct (m =? "capability.remove")%string; [by eapply Hcaps|done].
Qed.

(** The fields of a device that are not overlaid are those of its record. *)
Lemma device_fields id (s : Store St) dev r k :
  device id s = Ok dev -> record (document s) "devices" id = Ok r ->
  k ∉ ["store"; "state"; "available"; "unavailableMessage"] -> get dev k = get r k.
Proof.
  intros H Hr Hk. unfold device in H. rewrite Hr in H. cbn [mbind result_bind] in H.
  destruct (match find _ (caches s) with Some _ => _ | None => _ end) as [v|] eqn:Ec;
    cbn [mbind result_bind] in H; [|done].
  apply (set_all_get_ne _ _ _ k) in H as ->; [|cbn; set_solver].
  destruct (find _ (caches s)) as [[n cache]|]; [|by injection Ec as <-].
  step_ok Ec. eapply get_set_ne; [exact Ec|set_solver].
Qed.

Lemma device_record id (s : Store St) dev :
  device id s = Ok dev -> exists r, record (document s) "devices" id = Ok r.
Proof. unfold device. destruct (record _ _ id) as [r|]; [by exists r|done]. Qed.

(** A device that could be read can be read after its observation changed. *)
Lemma device_reread id (s s1 : Store St) dev :
  device id s = Ok dev -> document s1 = document s -> caches s1 = caches s ->
  exists dev1, device id s1 = Ok dev1.
Proof.
  intros H Hd Hc. unfold device in *. rewrite Hd, Hc.
  destruct (record (document s) "devices" id) as [r|]; cbn [mbind result_bind] in *; [|done].
  destruct (match find _ (caches s) with Some _ => _ | None => _ end) as [v|];
    cbn [mbind result_bind] in *; [|done].
  destruct v as [| | | | |o]; try done.
  match goal with |- exists dev1, set_all _ ?l = _ => destruct (set_all_object l o) as [o1 ->] end.
  eauto.
Qed.

Lemma collect_caches id name v (s : Store St) : caches (collect id name v s) = caches s.
Proof.
  unfold collect. destruct (statistics_enabled s); [|done].
  destruct (Stats.observe _ _ _ _ _) as [[[]|e] st]; [done|]. by destruct (statistics_reported s).
Qed.

Lemma observe_caches app id v av msg (s s1 : Store St) :
  observe app id v av msg s = (Ok tt, s1) -> caches s1 = caches s.
Proof.
  unfold observe. rewrite bind_get, bind_lift.
  destruct (prepare_observe s app id v av msg) as [[[[[e all] trips] changes] name]|]; [|done].
  intros [= <-]. unfold publish. cbn. etrans; [apply collect_caches|done].
Qed.

Lemma normalize_device_store (s : Store St) r p r' :
  normalize_device s r p = Ok r' -> exists o, get r' "store" = Some (VObject o).
Proof.
  unfold normalize_device. intros H. repeat step_ok H.
  match goal with Hs2 : set _ "store" (VObject ?x) = Ok _ |- _ => exists x; rename Hs2 into Es end.
  rewrite (remove_all_get _ _ _ _ H) by set_solver. by apply get_set_eq in Es.
Qed.

Lemma put_device_readable dev now (s s1 : Store St) :
  store_ok s -> uniq dev = true -> put "devices" dev false None now s = (Ok tt, s1) ->
  exists dev1, device (text dev "id") s1 = Ok dev1.
Proof.
  intros Hs Hu H. destruct (put_stores "devices" dev false None now s s1 Hs Hu ltac:(done) H) as (r' & Hp & Hr & _ & _).
  apply put_device_get in Hp as (r1 & Hp & _). apply normalize_device_store in Hp as [o Ho].
  eapply device_readable; [exact Hr| |by rewrite Ho].
  destruct r'; try done.
Qed.

Lemma device_op_tame app m p now out s :
  uniq p = true -> Z.of_nat (length out) < MAX_OUTBOX -> store_ok s ->
  tame (device_op app m p now out) s.
Proof.
  intros Hp Hout Hs. unfold device_op. apply tame_bind_get, tame_bind_lift; [done|].
  intros dev Hdev. destruct (negb _); [by apply tame_lift|]. apply tame_bind_lift; [done|].
  intros dev' Hch. pose proof (device_uniq _ _ _ Hs Hdev) as Hu.
  destruct (device_record _ _ _ Hdev) as [r Hr].
  destruct (change_device_edits _ _ _ _ Hch Hu Hp) as (Hu' & Hid & _).
  assert (text dev "id" = text p "deviceId") as Hid0.
  { unfold text at 1. rewrite (device_fields _ _ _ _ "id" Hdev Hr) by set_solver.
    by apply (record_props _ _ _ _ (so_doc _ Hs) Hr). }
  assert (forall s1, (exists dev1, device (text p "deviceId") s1 = Ok dev1) ->
    exists b, bindM getM (fun s : Store St => bindM (liftR (device (text p "deviceId") s)) (fun updated =>
      bindM (liftR (device_frame (text p "deviceId") updated)) (fun f => liftR (push out f MAX_OUTBOX)))) s1
      = (Ok b, s1)) as Hreply.
  { intros s1 [dev1 Hd1]. rewrite bind_get, bind_lift, Hd1. unfold device_frame, request.
    rewrite bind_lift. unfold push. destruct (Z.leb_spec MAX_OUTBOX (Z.of_nat (length out))); [lia|].
    eauto. }
  destruct (_ || _ || _).
  - destruct (ok_or (get dev' "state") _) as [st|e] eqn:Est.
    + assert (uniq st = true) as Hst.
      { destruct (get dev' "state") as [w|] eqn:Eg; [|done]. injection Est as ->.
        exact (uniq_get _ _ _ Hu' Eg). }
      apply tame_then; [apply tame_bind_lift; [done|]; intros x [= <-];
        by apply (tame_op (OpObserve app (text p "deviceId") st _ _))|].
      intros [] s1 H _. rewrite bind_lift in H. apply Hreply.
      apply (device_reread _ s s1 dev Hdev); [|by apply observe_caches in H].
      by apply observe_Ok in H as (_ & H & _).
    + intros r' s'. unfold bindM at 1. rewrite bind_lift. intros [= <- <-].
      split; [done|]. by rewrite with_storage_id.
  - apply tame_then; [by apply (tame_op (OpPut "devices" dev' false None now))|].
    intros [] s1 H _. apply Hreply. rewrite <- Hid0, <- Hid. by eapply put_device_readable.
Qed.

Lemma setting_op_tame app m p out s :
  uniq p = true -> Z.of_nat (length out) < MAX_OUTBOX -> store_ok s ->
  tame (setting_op app m p out) s.
Proof.
  intros Hp Hout Hs. unfold setting_op. destruct (is_empty _); [by apply tame_lift|].
  apply tame_then.
  - apply (tame_op (OpSetting app (text p "key") _)); [|done]. cbn [op_ok]. intros w.
    destruct (_ =? _)%string; [|done]. intros [= <-]. by apply uniq_get_null.
  - intros [] s1 _ _. rewrite bind_get. unfold request. rewrite bind_lift. unfold push.
    destruct (Z.leb_spec MAX_OUTBOX (Z.of_nat (length out))); [lia|]. eauto.
Qed.

Lemma dispatch_tame app m p now clock nid out s :
  uniq p = true -> Z.of_nat (length out) < MAX_OUTBOX -> store_ok s ->
  tame (dispatch app m p now clock nid out) s.
Proof.
  intros Hp Hout Hs. unfold dispatch.
  assert (uniq (get_null p "state") = true) as Hst by (by apply uniq_get_null).
  repeat (lazymatch goal with |- context [if ?b then _ else _] => destruct b end);
    try (by apply tame_lift).
  - apply tame_bind_get, tame_bind_lift; [done|]. intros v _. intros r s' [= <- <-]. done.
  - intros r s' H.
    assert (tame (voidM (share_image nid (text p "deviceId") (text p "slot") clock)) s) as Ht
      by (by apply (tame_op (OpShareImage nid (text p "deviceId") (text p "slot") clock))).
    unfold bindM in H. specialize (Ht (match r with Ok _ => Ok tt | Err e => Err e end) s').
    unfold voidM, bindM in Ht. destruct (share_image _ _ _ _ s) as [[v|e] s1]; cbn in H;
      injection H as <- <-; by apply Ht.
  - by apply (tame_done (OpReplaceReferences app (get_null p "replacements") now)).
  - by apply (tame_done (OpTrigger app p)).
  - by apply (tame_done (OpRegisterMedia app p)).
  - apply tame_then; [by apply device_op_tame|]. intros o s1 _ _. by exists (VNull, o).
  - apply tame_then; [by apply setting_op_tame|]. intros o s1 _ _. by exists (VNull, o).
  - by apply (tame_done (OpAppState app (get_null p "state"))).
  - by apply (tame_done (OpPut "notifications" (fields [("id", VString nid); ("appId", VString app);
      ("excerpt", VString (text p "excerpt"))]) true None now)).
Qed.
End Tame.

(** ** Isolation of apps *)

Section Isolation.
Context {St : Type} {HS : Storage St}.

(** A device of another app. *)
Definition foreign (app : string) (s : Store St) (x : string) : Prop :=
  exists r, record (document s) "devices" x = Ok r /\ text r "appId" <> app.

(** What of the document belongs to other apps is the same in both stores; the scene devices
    belong to nobody and follow their scenes.  A notification of another app is never altered,
    and goes only when newer ones need its place. *)
Record document_isolated (app : string) (s s' : Store St) : Prop := {
  iso_devices : forall x r, record (document s) "devices" x = Ok r -> text r "appId" <> app ->
    Scenes.is_scene_device r = false -> record (document s') "devices" x = Ok r;
  iso_settings : forall f other, f ∈ ["appSettings"; "appState"] -> other <> app ->
    app_field s' f other = app_field s f other;
  iso_notifications : forall n, text n "appId" <> app ->
    (n ∈ records (document s') "notifications" -> n ∈ records (document s) "notifications")
    /\ (n ∈ records (document s) "notifications" ->
        n ∈ records (document s') "notifications"
        \/ length (records (document s') "notifications") = MAX_NOTIFICATIONS);
  iso_rest : forall k, k ∉ ["devices"; "flows"; "scenes"; "notifications"; "appSettings"; "appState"] ->
    get (root (document s')) k = get (root (document s)) k
}.

(** The app may queue this trigger: it is about a device of its own, or about none. *)
Definition own_trigger (app : string) (s : Store St) (t : Value) : Prop :=
  text (get_null t "state") "deviceId" = EmptyString
  \/ exists r, record (document s) "devices" (text (get_null t "state") "deviceId") = Ok r /\ text r "appId" = app.

(** What is known in memory about the devices of other apps, what the apps are said to do, and
    the image tickets that were handed out, are the same; new triggers are the own ones. *)
Record memory_isolated (app : string) (s s' : Store St) : Prop := {
  iso_live : forall x, foreign app s x -> find_live x s' = find_live x s;
  iso_caches : forall x, foreign app s x ->
    find (fun kv : string * Value => (kv.1 =? x)%string) (caches s') = find (fun kv => (kv.1 =? x)%string) (caches s);
  iso_media : forall x, foreign app s x -> find (media_is x) (media s') = find (media_is x) (media s);
  iso_apps : apps s' = apps s;
  iso_images : forall t, t ∈ images s' -> t ∈ images s \/ forall u, u ∈ images s -> im_id u <> im_id t;
  iso_triggers : exists new, triggers s' = triggers s ++ new /\ Forall (own_trigger app s) new
}.

(** What belongs to other apps is the same in both stores. *)
Definition isolated (app : string) (s s' : Store St) : Prop := document_isolated app s s' /\ memory_isolated app s s'.

Lemma memory_same app (s s' : Store St) :
  live s' = live s -> caches s' = caches s -> media s' = media s -> apps s' = apps s -> images s' = images s ->
  triggers s' = triggers s -> memory_isolated app s s'.
Proof.
  unfold find_live. intros H1 H2 H3 H4 H5 H6. constructor; unfold find_live; try (by rewrite ?H1, ?H2, ?H3).
  - rewrite H5. by left.
  - exists []. by rewrite H6, app_nil_r.
Qed.

Lemma document_isolated_same app (s s' : Store St) : document s' = document s -> document_isolated app s s'.
Proof.
  intros H. constructor; [by rewrite H| |rewrite H; auto|by rewrite H]. intros f other _ _. unfold app_field. by rewrite H.
Qed.

Lemma isolated_refl app (s : Store St) : isolated app s s.
Proof. split; [by apply document_isolated_same|by apply memory_same]. Qed.

Lemma isolated_storage app (s : Store St) st : isolated app s (with_storage s st).
Proof. split; [by apply document_isolated_same|by apply memory_same]. Qed.

(** Documents that agree outside one of the own fields. *)
Lemma document_isolated_keys app (s s' : Store St) :
  get (root (document s')) "devices" = get (root (document s)) "devices" ->
  get (root (document s')) "notifications" = get (root (document s)) "notifications" ->
  (forall f other, f ∈ ["appSettings"; "appState"] -> other <> app ->
     app_field s' f other = app_field s f other) ->
  (forall k, k ∉ ["devices"; "flows"; "scenes"; "notifications"; "appSettings"; "appState"] ->
    get (root (document s')) k = get (root (document s)) k) -> document_isolated app s s'.
Proof.
  intros Hd Hn Hf Hr. constructor; [|done| |done].
  - intros x r Hx _ _. unfold record in *. by rewrite (records_ne _ _ _ Hd).
  - intros n _. rewrite (records_ne _ _ _ Hn). auto.
Qed.

Lemma app_field_same (s s' : Store St) f other :
  get (root (document s')) f = get (root (document s)) f -> app_field s' f other = app_field s f other.
Proof. unfold app_field. by intros ->. Qed.

Lemma doc_set_get d k v d' : doc_set d k v = Ok d' -> get (root d') k = Some v.
Proof. unfold doc_set. intros H. step_ok H. injection H as <-. cbn. by eapply get_set_eq. Qed.

Lemma doc_set_ne d k v d' k' : doc_set d k v = Ok d' -> k <> k' -> get (root d') k' = get (root d) k'.
Proof. unfold doc_set. intros H. step_ok H. injection H as <-. cbn. by eapply get_set_ne. Qed.

Lemma isolated_field app (s s' : Store St) f settings settings' own :
  get (root (document s)) f = Some settings -> set settings app own = Ok settings' ->
  doc_set (document s) f settings' = Ok (document s') -> f ∈ ["appSettings"; "appState"] ->
  document_isolated app s s'.
Proof.
  intros Hg Hs Hd Hf.
  apply document_isolated_keys; [apply (doc_set_ne _ _ _ _ _ Hd); set_solver..| |intros k Hk; apply (doc_set_ne _ _ _ _ _ Hd); set_solver].
  intros g other _ Ho. destruct (decide (g = f)) as [->|Hgf].
  - unfold app_field. rewrite (doc_set_get _ _ _ _ Hd), Hg. cbn [mbind option_bind].
    by rewrite (get_set_ne _ _ _ _ _ Hs) by congruence.
  - apply app_field_same. by apply (doc_set_ne _ _ _ _ _ Hd).
Qed.

Lemma find_filter_keep {A} (p q : A -> bool) l x :
  find p l = Some x -> q x = true -> find p (List.filter q l) = Some x.
Proof.
  induction l as [|y l IH]; cbn; [done|]. destruct (p y) eqn:Ep.
  - intros [= ->] Hq. rewrite Hq. cbn. by rewrite Ep.
  - intros Hf Hq. destruct (q y); [cbn; rewrite Ep|]; auto.
Qed.

Lemma find_app_l {A} (p : A -> bool) l k x : find p l = Some x -> find p (l ++ k) = Some x.
Proof. induction l as [|y l IH]; cbn; [done|]. destruct (p y); auto. Qed.

Lemma reconcile_keeps_devices d d' x r :
  doc_ok d -> Scenes.reconcile d = Ok d' -> record d "devices" x = Ok r ->
  Scenes.is_scene_device r = false -> record d' "devices" x = Ok r.
Proof.
  intros Hd H Hr Hn. destruct (reconcile_ok d d' Hd H) as (_ & _ & devs & _ & E).
  unfold record, find_id in *. rewrite E.
  destruct (find _ (records d "devices")) as [y|] eqn:Ef; [|done]. injection Hr as ->.
  rewrite (find_app_l _ _ _ r); [done|]. apply find_filter_keep; [done|]. by rewrite Hn.
Qed.

Lemma publish_all_document evs (s : Store St) : document (publish_all evs s) = document s.
Proof. apply framed_publish_all. Qed.

(** Reading after an operation does not change the store. *)
Lemma after_read {A B} (m : M (St := St) A) (k : A -> M B) s b s' :
  (forall a, reads_only (k a)) -> bindM m k s = (Ok b, s') -> exists a, m s = (Ok a, s').
Proof.
  intros Hk. unfold bindM. destruct (m s) as [[a|e] s1]; [|done]. intros H.
  rewrite (Hk a _ _ _ H). by exists a.
Qed.

Lemma reads_bind {A B} (m : M (St := St) A) (k : A -> M B) :
  reads_only m -> (forall a, reads_only (k a)) -> reads_only (bindM m k).
Proof.
  intros Hm Hk s r s'. unfold bindM. destruct (m s) as [[a|e] s1] eqn:E.
  - intros H. rewrite (Hk a _ _ _ H). by apply Hm in E.
  - intros [= _ <-]. by apply Hm in E.
Qed.

Lemma put_documents c r create now (s s1 : Store St) :
  store_ok s -> uniq r = true -> c <> "scenes" -> put c r create None now s = (Ok tt, s1) ->
  exists r', text r' "id" = text r "id" /\ text r "id" <> EmptyString /\ c ∈ COLLECTIONS /\
    uniq r' = true /\ (c = "devices" -> clean r') /\
    replace_record (document s) c r' = Ok (document s1).
Proof.
  intros Hs Hu Hc H. apply put_Ok in H as (e & cache & H).
  destruct (prepare_put_ok _ _ _ _ _ _ _ _ _ (so_doc _ Hs) Hu H)
    as (_ & _ & r' & _ & Hid & Hne & Hin & Hr & _ & Hu' & Hcl).
  exists r'. split_and!; auto.
Qed.

Lemma setting_isolated app key v (s s1 : Store St) :
  setting app key v s = (Ok tt, s1) -> document_isolated app s s1.
Proof.
  unfold setting. rewrite bind_get, bind_lift.
  destruct (prepare_setting s app key v) as [[c e]|] eqn:E; [|done]. intros H.
  destruct (commit_spec _ _ _ _ _ H) as [(er & ? & _)|(_ & bs & st & _ & _ & ->)]; [done|].
  unfold prepare_setting in E. do 2 step_ok E. cbn zeta in E. do 4 step_ok E. injection E as <- <-.
  destruct (get (root (document s)) "appSettings") as [w|] eqn:Eg; [|done]. injection E1 as ->.
  eapply isolated_field; [exact Eg|exact E3|exact E4|set_solver].
Qed.

Lemma app_state_isolated app v (s s1 : Store St) :
  app_state app v s = (Ok tt, s1) -> document_isolated app s s1.
Proof.
  unfold app_state. rewrite bind_get, bind_lift.
  destruct (prepare_app_state s app v) as [[c e]|] eqn:E; [|done]. intros H.
  destruct (commit_spec _ _ _ _ _ H) as [(er & ? & _)|(_ & bs & st & _ & _ & ->)]; [done|].
  unfold prepare_app_state in E. do 2 step_ok E. do 3 step_ok E. injection E as <- <-.
  destruct (get (root (document s)) "appState") as [w|] eqn:Eg; [|done]. injection E1 as ->.
  eapply isolated_field; [exact Eg|exact E2|exact E3|set_solver].
Qed.

(** The notifications after one was put: this one, and of the others the newest that fit. *)
Lemma notifications_after d r d' :
  doc_ok d -> uniq r = true -> text r "id" <> EmptyString -> text r "id" ∉ ids (records d "notifications") ->
  replace_record d "notifications" r = Ok d' ->
  forall n, n <> r ->
    (n ∈ records d' "notifications" -> n ∈ records d "notifications")
    /\ (n ∈ records d "notifications" ->
        n ∈ records d' "notifications" \/ length (records d' "notifications") = MAX_NOTIFICATIONS).
Proof.
  intros Hd Hu Hid Hnew H n Hn. pose proof (proj1 (replace_record_ok d "notifications" r d' Hd ltac:(vm_compute; set_solver) Hu Hid ltac:(done) H)) as Hd'.
  unfold replace_record in H. destruct (others d _ _) as [rs|] eqn:Eo; cbn [mbind result_bind] in H; [|done].
  destruct (push rs r MAX_RECORDS) as [rs1|] eqn:Ep; cbn [mbind result_bind] in H; [|done]. apply push_Ok in Ep as [_ ->].
  cbn [String.eqb Ascii.eqb Bool.eqb] in H. apply others_Ok in Eo.
  assert (records d' "notifications" = take MAX_NOTIFICATIONS (sort_newest (rs ++ [r]))) as Hrec.
  { apply replace_Ok in H as [_ Hset]. by eapply array_set_eq. }
  rewrite Hrec. split.
  - intros Hin. pose proof (elem_of_sublist _ _ _ Hin (sublist_take _ _)) as Hk.
    rewrite sort_newest_perm in Hk. apply elem_of_app in Hk as [Hk| ->%list_elem_of_singleton]; [|done].
    rewrite Eo in Hk. by apply filter_elem in Hk as [? _].
  - intros Hin. destruct (decide (length (sort_newest (rs ++ [r])) <= MAX_NOTIFICATIONS)%nat) as [Hl|Hl].
    + left. rewrite take_ge by done. rewrite sort_newest_perm. apply elem_of_app. left. rewrite Eo.
      apply filter_elem. split; [done|]. unfold id_is. apply negb_true_iff, String.eqb_neq. intros He. apply Hnew.
      unfold ids. apply list_elem_of_fmap. by exists n.
    + right. rewrite length_take. lia.
Qed.

Lemma put_notification_new r now (s s1 : Store St) :
  store_ok s -> uniq r = true -> put "notifications" r true None now s = (Ok tt, s1) ->
  exists r', text r' "id" = text r "id" /\ text r' "appId" = text r "appId" /\ text r "id" <> EmptyString /\ uniq r' = true
    /\ text r "id" ∉ ids (records (document s) "notifications")
    /\ replace_record (document s) "notifications" r' = Ok (document s1).
Proof.
  intros Hs Hu H. apply put_Ok in H as (e & cache & H).
  destruct (prepare_put_ok _ _ _ _ _ _ _ _ _ (so_doc _ Hs) Hu H) as (_ & _ & r' & Hp & Hid & Hne & _ & Hrep & _ & Hu' & _).
  assert (is_ok (record (document s) "notifications" (text r "id")) = false) as Hnone.
  { unfold prepare_put in H. cbn [collection_events String.eqb Ascii.eqb Bool.eqb mbind result_bind andb] in H.
    destruct (is_empty (text r "id")); [done|]. by destruct (record _ _ _). }
  exists r'. split_and!; [done| |done|by apply Hu'| |by apply Hrep].
  - assert (res_ok (record (document s) "notifications" (text r "id")) = None) as Hr by (by destruct (record _ _ _)).
    rewrite Hr in Hp. unfold put_record in Hp.
    cbn [is_revised String.eqb Ascii.eqb Bool.eqb orb mbind result_bind inherit option_bind] in Hp.
    destruct (set r "createdAt" _) as [r1|] eqn:E1; cbn [mbind result_bind] in Hp; [|done].
    destruct (set r1 "updatedAt" _) as [r2|] eqn:E2; cbn [mbind result_bind] in Hp; [|done].
    unfold normalize in Hp. cbn [String.eqb Ascii.eqb Bool.eqb] in Hp. destruct (_ || _); [done|].
    rewrite (text_set_ne _ _ _ _ _ Hp), (text_set_ne _ _ _ _ _ E2), (text_set_ne _ _ _ _ _ E1); done.
  - intros Hin. apply record_is_ok in Hin. congruence.
Qed.

Lemma notification_isolated r now (s s1 : Store St) :
  store_ok s -> uniq r = true -> put "notifications" r true None now s = (Ok tt, s1) ->
  document_isolated (text r "appId") s s1.
Proof.
  intros Hs Hu H. destruct (put_notification_new r now s s1 Hs Hu H) as (r' & Hid & Happ & Hne & Hu' & Hnew & Hr).
  pose proof (replace_record_ok _ "notifications" _ _ (so_doc _ Hs) ltac:(vm_compute; set_solver) Hu' ltac:(congruence) ltac:(done) Hr) as (_ & Hk & _).
  constructor.
  - intros x q Hx _ _. unfold record in *. by rewrite (records_ne _ _ _ (Hk "devices" ltac:(done))).
  - intros f other Hf _. apply app_field_same, Hk. set_solver.
  - intros n Hn. apply (notifications_after _ r'); [apply Hs|done|congruence|by rewrite Hid|done|].
    intros ->. congruence.
  - intros k Hk'. apply Hk. set_solver.
Qed.

Lemma replace_references_isolated app rs now (s s1 : Store St) :
  store_ok s -> replace_references app rs now s = (Ok tt, s1) -> document_isolated app s s1.
Proof.
  intros Hs H. unfold replace_references in H. rewrite bind_get, bind_lift in H.
  destruct (validate_replacements s app rs); [|done].
  destruct (match as_object rs with Some [] => true | _ => false end);
    [injection H as <-; by apply document_isolated_same|].
  rewrite bind_lift in H.
  destruct (rewrite_references s (document s) rs now ([], sequence s)) as [[c acc]|] eqn:E; [|done].
  destruct (rewrite_references_ok _ _ _ _ _ _ _ _ (so_doc _ Hs) (so_doc _ Hs) (batch_nil _) E) as (Hc & _ & Hk).
  destruct (bool_decide (acc.1 = [])); [injection H as <-; by apply document_isolated_same|]. rewrite bind_lift in H.
  destruct (Scenes.reconcile c) as [c'|] eqn:Er; [|done].
  unfold bindM in H. destruct (save c' s) as [r s2] eqn:Es.
  destruct (save_spec _ _ _ _ Es) as [(er & -> & _)|(-> & bs & st & _ & _ & ->)]; [done|]. injection H as <-.
  constructor.
  - intros x r Hr _ Hn. rewrite publish_all_document.
    eapply reconcile_keeps_devices; [exact Hc|exact Er| |exact Hn].
    unfold record in *. by rewrite (records_ne _ _ _ (Hk "devices" ltac:(done) ltac:(done))).
  - intros f other Hf _. apply app_field_same. rewrite publish_all_document.
    destruct (reconcile_ok _ _ Hc Er) as (_ & Hk' & _). cbn.
    rewrite Hk' by set_solver. apply Hk; set_solver.
  - intros n _. rewrite publish_all_document. destruct (reconcile_ok _ _ Hc Er) as (_ & Hk' & _). cbn.
    assert (get (root c') "notifications" = get (root (document s)) "notifications") as Hn
      by (rewrite Hk' by set_solver; apply Hk; set_solver).
    rewrite (records_ne _ _ _ Hn). auto.
  - intros k Hk0. rewrite publish_all_document. destruct (reconcile_ok _ _ Hc Er) as (_ & Hk' & _). cbn.
    rewrite Hk' by set_solver. apply Hk; set_solver.
Qed.

(** *** In memory *)

Lemma commit_memory app c e (s s1 : Store St) : commit c e s = (Ok tt, s1) -> memory_isolated app s s1.
Proof.
  intros H. destruct (commit_spec _ _ _ _ _ H) as [(er & ? & _)|(_ & bs & st & _ & _ & ->)]; [done|]. by apply memory_same.
Qed.

Lemma find_update_other {A} (p q : A -> bool) (g : A -> A) l :
  (forall x, p x = true -> q x = false /\ q (g x) = false) -> find q (update_first p g l) = find q l.
Proof.
  intros Hg. induction l as [|x l IH]; cbn; [done|]. destruct (p x) eqn:Ep; cbn; [|by rewrite IH].
  by destruct (Hg x Ep) as [-> ->].
Qed.

Lemma find_snoc_other {A} (q : A -> bool) l x : q x = false -> find q (l ++ [x]) = find q l.
Proof. intros Hq. induction l as [|y l IH]; cbn; [by rewrite Hq|by rewrite IH]. Qed.

Lemma foreign_ne app (s : Store St) x y r :
  foreign app s x -> record (document s) "devices" y = Ok r -> text r "appId" = app -> x <> y.
Proof. intros (q & Hq & Hn) Hr Ha ->. congruence. Qed.

Lemma publish_all_memory evs : forall s : Store St,
  live (publish_all evs s) = live s /\ caches (publish_all evs s) = caches s /\ media (publish_all evs s) = media s
  /\ apps (publish_all evs s) = apps s /\ images (publish_all evs s) = images s /\ triggers (publish_all evs s) = triggers s.
Proof.
  unfold publish_all. induction evs as [|e evs IH]; intros s; [done|]. cbn [fold_left].
  destruct (IH (publish e s)) as (-> & -> & -> & -> & -> & ->). done.
Qed.

Lemma replace_references_memory app rs now (s s1 : Store St) :
  replace_references app rs now s = (Ok tt, s1) -> memory_isolated app s s1.
Proof.
  intros H. unfold replace_references in H. rewrite bind_get, bind_lift in H.
  destruct (validate_replacements s app rs); [|done].
  destruct (match as_object rs with Some [] => true | _ => false end); [injection H as <-; by apply memory_same|].
  rewrite bind_lift in H.
  destruct (rewrite_references s (document s) rs now ([], sequence s)) as [[c acc]|]; [|done].
  destruct (bool_decide (acc.1 = [])); [injection H as <-; by apply memory_same|]. rewrite bind_lift in H.
  destruct (Scenes.reconcile c) as [c'|]; [|done].
  unfold bindM in H. destruct (save c' s) as [r s2] eqn:Es.
  destruct (save_spec _ _ _ _ Es) as [(er & -> & _)|(-> & bs & st & _ & _ & ->)]; [done|]. injection H as <-.
  destruct (publish_all_memory acc.1 (with_document (with_storage s st) c')) as (H1 & H2 & H3 & H4 & H5 & H6).
  by apply memory_same.
Qed.

Lemma trigger_memory app p (s s1 : Store St) : trigger app p s = (Ok tt, s1) -> memory_isolated app s s1.
Proof.
  unfold trigger. rewrite bind_get, bind_lift. destruct (prepare_trigger s app p) as [all|] eqn:E; [|done]. intros [= <-].
  constructor; try done; [by left|]. unfold prepare_trigger in E. step_ok E.
  destruct (negb _) in E; [done|]. cbn zeta in E. destruct (_ || _ || _) in E; [done|]. destruct (_ || _) in E; [done|].
  set (state := non_null (get p "state")) in *.
  destruct (is_empty (text state "deviceId")) eqn:Ed; cbn [negb mbind result_bind] in E.
  - apply push_Ok in E as [_ ->]. eexists. split; [done|]. apply Forall_singleton. left. unfold is_empty in Ed. cbn.
    by apply String.eqb_eq in Ed.
  - destruct (record _ _ (text state "deviceId")) as [d|] eqn:Er; cbn [mbind result_bind] in E; [|done].
    destruct (String.eqb_spec (text d "appId") app); cbn [negb] in E; [|done].
    apply push_Ok in E as [_ ->]. eexists. split; [done|]. apply Forall_singleton. right. by exists d.
Qed.

Lemma register_media_memory app p (s s1 : Store St) : register_media app p s = (Ok tt, s1) -> memory_isolated app s s1.
Proof.
  unfold register_media. rewrite bind_get, bind_lift. destruct (prepare_media s app p) as [all|] eqn:E; [|done]. intros [= <-].
  unfold prepare_media in E. destruct (record _ _ _) as [d|] eqn:Er; cbn [mbind result_bind] in E; [|done].
  destruct (String.eqb_spec (text d "appId") app) as [Ha|]; cbn [negb] in E; [|done]. destruct (match get p "media" with Some _ => _ | None => _ end); [done|].
  destruct (public_slots _ _ _) as [slots|]; cbn [mbind result_bind] in E; [|done].
  constructor; try done; [|by left|exists []; by rewrite app_nil_r].
  intros x Hx. pose proof (foreign_ne _ _ _ _ _ Hx Er Ha) as Hne. cbn [media with_media].
  destruct (existsb _ _).
  - injection E as <-. apply find_update_other. intros [k v] Hk. unfold media_is in *. cbn in *.
    apply String.eqb_eq in Hk as ->. split; apply String.eqb_neq; congruence.
  - apply push_Ok in E as [_ ->]. apply find_snoc_other. unfold media_is. cbn. apply String.eqb_neq. congruence.
Qed.

Lemma share_memory app id dev slot now v (s s1 : Store St) :
  share_image id dev slot now s = (Ok v, s1) -> memory_isolated app s s1.
Proof.
  unfold share_image. rewrite bind_get, bind_lift. destruct (prepare_share s id dev slot now) as [t|] eqn:E; [|done].
  intros [= _ <-]. constructor; try done; [|exists []; by rewrite app_nil_r].
  intros u Hu. cbn [images with_images] in Hu. unfold add_ticket in Hu. cbv zeta in Hu.
  apply elem_of_app in Hu as [Hu| ->%list_elem_of_singleton].
  - left. assert (u ∈ List.filter (fun t => now <? im_expires t) (images s)) as Hf.
    { destruct (_ =? _)%nat; [|done]. destruct (List.filter _ _); [done|]. by right. }
    by apply filter_elem in Hf as [? _].
  - right. intros u Hu Hid. unfold prepare_share in E.
    destruct (_ || existsb _ (images s)) eqn:Ex; [done|]. apply orb_false_iff in Ex as [_ Ex].
    apply not_true_iff_false in Ex. apply Ex. apply existsb_exists. exists u. split; [by apply list_elem_of_In|].
    destruct (device_media _ _); cbn [mbind result_bind] in E; [|done].
    destruct (ok_or _ _); cbn [mbind result_bind] in E; [|done]. injection E as <-. cbn in Hid. rewrite Hid. apply String.eqb_refl.
Qed.

Lemma changes_own r old new evs :
  Triggers.changes r old new = Ok evs -> Forall (fun t => text (get_null t "state") "deviceId" = text r "id") evs.
Proof.
  unfold Triggers.changes. destruct (as_object new) as [o|]; [|intros [= <-]; constructor]. intros ->%push_all_id. cbn [app].
  apply Forall_forall. intros t Ht. apply list_elem_of_In, in_flat_map in Ht as ([k v] & _ & Ht). unfold Triggers.field_events in Ht.
  destruct (equal _ _); [done|]. apply in_map_iff in Ht as (card & <- & _). done.
Qed.

Lemma observe_memory app id v av msg (s s1 : Store St) :
  store_ok s -> observe app id v av msg s = (Ok tt, s1) -> memory_isolated app s s1.
Proof.
  intros Hs. unfold observe. rewrite bind_get, bind_lift.
  destruct (prepare_observe s app id v av msg) as [[[[[e all] trips] changes] name]|] eqn:E; [|done]. intros [= <-].
  unfold prepare_observe in E. repeat step_ok E. injection E as <- <- <- <- <-.
  match goal with Hx : record _ _ _ = Ok ?x |- _ => rename x into r; rename Hx into Er end.
  match goal with Hx : negb _ = false |- _ => apply negb_false_iff, String.eqb_eq in Hx; rename Hx into Ha end.
  match goal with Hx : match find_live id s with Some _ => Triggers.changes _ _ _ | None => _ end = Ok ?x |- _ =>
    rename x into ch; rename Hx into Ec end.
  match goal with Hx : match find_live id s with Some _ => Ok (update_first _ _ _) | None => _ end = Ok ?x |- _ =>
    rename x into l; rename Hx into El end.
  assert (forall s0 : Store St, live (collect id (text r "name") v s0) = live s0 /\ media (collect id (text r "name") v s0) = media s0
    /\ apps (collect id (text r "name") v s0) = apps s0 /\ images (collect id (text r "name") v s0) = images s0
    /\ triggers (collect id (text r "name") v s0) = triggers s0) as Hcol.
  { intros s0. unfold collect. destruct (statistics_enabled s0); [|done].
    destruct (Stats.observe _ _ _ _ _) as [[[]|er] st]; [done|]. by destruct (statistics_reported s0). }
  destruct (Hcol (with_live s l)) as (C1 & C2 & C3 & C4 & C5).
  constructor; unfold find_live; cbn [live caches media apps images triggers publish with_events with_trips with_triggers].
  - intros x Hx. pose proof (foreign_ne _ _ _ _ _ Hx Er Ha) as Hne. rewrite C1. cbn [live with_live].
    destruct (find_live id s).
    + injection El as <-. apply find_update_other. intros y Hy. unfold is_obs in *. apply String.eqb_eq in Hy.
      cbn. split; apply String.eqb_neq; congruence.
    + apply push_Ok in El as [_ ->]. apply find_snoc_other. unfold is_obs. cbn. apply String.eqb_neq. congruence.
  - intros x _. by rewrite collect_caches.
  - intros x _. by rewrite C2.
  - by rewrite C3.
  - intros t. rewrite C4. by left.
  - exists ch. rewrite C5. cbn [triggers with_live]. split; [done|].
    assert (Forall (fun t => text (get_null t "state") "deviceId" = text r "id") ch) as Hch.
    { destruct (find_live id s); [by eapply changes_own|injection Ec as <-; constructor]. }
    eapply Forall_impl; [exact Hch|]. intros t Ht. right. rewrite Ht.
    destruct (record_props _ _ _ _ (so_doc _ Hs) Er) as (_ & -> & _). by exists r.
Qed.

Lemma put_device_memory app dev now (s s1 : Store St) r :
  record (document s) "devices" (text dev "id") = Ok r -> text r "appId" = app ->
  put "devices" dev false None now s = (Ok tt, s1) -> memory_isolated app s s1.
Proof.
  intros Hr Ha H. unfold put in H. rewrite bind_get, bind_lift in H.
  destruct (prepare_put s "devices" dev false None now) as [[[d e] cache]|] eqn:Ep; [|done].
  unfold bindM in H. destruct (commit d e s) as [r1 s2] eqn:E.
  destruct (commit_spec _ _ _ _ _ E) as [(er & -> & _)|(-> & bs & st & _ & _ & ->)]; [done|]. injection H as <-.
  assert (forall k v, cache = Some (k, v) -> k = text dev "id") as Hk.
  { intros k v ->. unfold prepare_put in Ep. cbn [collection_events String.eqb Ascii.eqb Bool.eqb mbind result_bind] in Ep.
    destruct (is_empty _); [done|]. destruct (prepare_cache _ _ _) as [c|] eqn:Ec; cbn [mbind result_bind] in Ep; [|done].
    repeat step_ok Ep. injection Ep as _ _ ->. unfold prepare_cache in Ec. destruct (_ ≫= as_object); [|done].
    destruct (bool_decide _); [done|]. destruct (_ && _); [done|]. by injection Ec as <- _. }
  destruct cache as [[k v]|]; [|by apply memory_same]. specialize (Hk k v eq_refl). subst k. unfold put_cache.
  cbn [caches publish with_events with_document with_storage].
  destruct (existsb _ _) eqn:Ex.
  - constructor; try done; [|by left|exists []; by rewrite app_nil_r]. intros x Hx.
    pose proof (foreign_ne _ _ _ _ _ Hx Hr Ha) as Hne. cbn [caches with_caches]. apply find_update_other.
    intros [k w] Hk. cbn in *. apply String.eqb_eq in Hk as ->. split; apply String.eqb_neq; congruence.
  - constructor; try done; [|by left|exists []; by rewrite app_nil_r]. intros x Hx.
    pose proof (foreign_ne _ _ _ _ _ Hx Hr Ha) as Hne. cbn [caches with_caches]. apply find_snoc_other. cbn.
    apply String.eqb_neq. congruence.
Qed.

Lemma device_op_isolated app m p now out (s s1 : Store St) out' :
  uniq p = true -> store_ok s -> device_op app m p now out s = (Ok out', s1) ->
  isolated app s s1 /\
  exists r, record (document s) "devices" (text p "deviceId") = Ok r /\ text r "appId" = app.
Proof.
  intros Hp Hs H. unfold device_op in H. rewrite bind_get, bind_lift in H.
  destruct (device (text p "deviceId") s) as [dev|] eqn:Hdev; [|done].
  destruct (negb _) eqn:Eapp; [done|]. apply negb_false_iff, String.eqb_eq in Eapp.
  rewrite bind_lift in H. destruct (change_device dev m p) as [dev'|] eqn:Hch; [|done].
  pose proof (device_uniq _ _ _ Hs Hdev) as Hu. destruct (device_record _ _ _ Hdev) as [r Hr].
  destruct (change_device_edits _ _ _ _ Hch Hu Hp) as (Hu' & Hid & _).
  destruct (record_props _ _ _ _ (so_doc _ Hs) Hr) as (_ & Hrid & _).
  assert (text dev "id" = text p "deviceId") as Hid0
    by (unfold text at 1; by rewrite (device_fields _ _ _ _ "id" Hdev Hr) by set_solver).
  assert (text r "appId" = app) as Hown
    by (rewrite <- Eapp; unfold text; by rewrite (device_fields _ _ _ _ "appId" Hdev Hr) by set_solver).
  split; [|by exists r].
  apply after_read in H as [u H].
  2:{ intros []. repeat (apply reads_bind; [apply reads_only_get || apply reads_only_lift|intros ?]).
      apply reads_only_lift. }
  destruct (_ || _ || _).
  - rewrite bind_lift in H. destruct (ok_or _ _) as [st|]; [|done]. destruct u.
    split; [|by eapply observe_memory]. apply observe_Ok in H as (_ & H & _). by apply document_isolated_same.
  - destruct u. destruct (put_documents "devices" dev' false now s s1 Hs Hu' ltac:(done) H)
      as (r' & Hid' & Hne & Hin & Hur & Hcl & Hrep).
    split; [|by eapply put_device_memory; [rewrite Hid, Hid0; exact Hr|..]].
    constructor.
    + intros x q Hq Hqa _.
      rewrite (record_after_replace _ _ _ _ x (so_doc _ Hs) Hin ltac:(done) Hur ltac:(congruence) Hcl Hrep).
      destruct (String.eqb_spec (text r' "id") x) as [Hx|]; [|done].
      rewrite Hid', Hid, Hid0 in Hx. subst x. congruence.
    + intros f other Hf _. apply app_field_same.
      apply replace_record_ok in Hrep as (_ & Hk & _); [|by apply Hs|done|done|congruence|done].
      apply Hk. set_solver.
    + intros n _. apply replace_record_ok in Hrep as (_ & Hk & _); [|by apply Hs|done|done|congruence|done].
      rewrite (records_ne _ _ _ (Hk "notifications" ltac:(done))). auto.
    + intros k Hk0. apply replace_record_ok in Hrep as (_ & Hk & _); [|by apply Hs|done|done|congruence|done].
      apply Hk. set_solver.
Qed.

Lemma dispatch_isolated app m p now clock nid (s : Store St) v s' :
  store_ok s -> uniq p = true -> dispatch app m p now clock nid [] s = (Ok v, s') ->
  isolated app s s' /\
  (is_device_method m = true ->
   exists r, record (document s) "devices" (text p "deviceId") = Ok r /\ text r "appId" = app).
Proof.
  intros Hs Hp H.
  assert (is_device_method m = true -> exists out, device_op app m p now [] s = (Ok out, s')) as Hdev.
  { intros Hm. unfold dispatch in H. rewrite Hm in H. revert H. unfold is_device_method in Hm.
    destruct (String.eqb_spec m "images.list") as [->|]; [done|].
    destruct (String.eqb_spec m "image.url") as [->|]; [done|].
    destruct (String.eqb_spec m "device.replace") as [->|]; [done|].
    destruct (String.eqb_spec m "flow.trigger") as [->|]; [done|].
    destruct (String.eqb_spec m "media.register") as [->|]; [done|]. intros H.
    apply after_read in H as [out H]; [by exists out|]. intros out. apply reads_only_lift. }
  split; [|intros Hm; destruct (Hdev Hm) as [out Ho]; by eapply device_op_isolated].
  destruct (is_device_method m) eqn:Em; [destruct (Hdev eq_refl) as [out Ho]; by eapply device_op_isolated|].
  unfold dispatch in H. rewrite Em in H.
  assert (forall op, done_with [] op s = (Ok v, s') -> op s = (Ok tt, s')) as Hdone.
  { intros op Ho. apply after_read in Ho as [[] Ho]; [done|]. intros []. intros x y z [= _ <-]. done. }
  repeat (lazymatch type of H with context [if ?b then _ else _] => destruct b end); try done.
  - rewrite bind_get, bind_lift in H. destruct (image_sources s); [|done]. injection H as _ <-.
    apply isolated_refl.
  - apply after_read in H as [u H]; [|intros ?; intros x y z [= _ <-]; done].
    split; [|by eapply share_memory]. unfold share_image in H. rewrite bind_get, bind_lift in H.
    destruct (prepare_share s _ _ _ _) as [t|]; [|done]. injection H as _ <-. by apply document_isolated_same.
  - apply Hdone in H. split; [by eapply replace_references_isolated|by eapply replace_references_memory].
  - apply Hdone in H. split; [|by eapply trigger_memory]. unfold trigger in H. rewrite bind_get, bind_lift in H.
    destruct (prepare_trigger s app p); [|done]. injection H as <-. by apply document_isolated_same.
  - apply Hdone in H. split; [|by eapply register_media_memory]. unfold register_media in H. rewrite bind_get, bind_lift in H.
    destruct (prepare_media s app p); [|done]. injection H as <-. by apply document_isolated_same.
  - apply after_read in H as [out H]; [|intros ?; intros x y z [= _ <-]; done].
    unfold setting_op in H. destruct (is_empty _); [done|].
    apply after_read in H as [[] H].
    2:{ intros []. repeat (apply reads_bind; [apply reads_only_get || apply reads_only_lift|intros ?]).
        apply reads_only_lift. }
    split; [by eapply setting_isolated|]. unfold setting in H. rewrite bind_get, bind_lift in H.
    destruct (prepare_setting _ _ _ _) as [[c e]|]; [|done]. by eapply commit_memory.
  - apply Hdone in H. split; [by eapply app_state_isolated|]. unfold app_state in H. rewrite bind_get, bind_lift in H.
    destruct (prepare_app_state _ _ _) as [[c e]|]; [|done]. by eapply commit_memory.
  - apply Hdone in H. split; [exact (notification_isolated (fields [("id", VString nid); ("appId", VString app); ("excerpt", VString (text p "excerpt"))]) now s s' Hs eq_refl H)|].
    unfold put in H. rewrite bind_get, bind_lift in H.
    destruct (prepare_put _ _ _ _ _ _) as [[[d e] cache]|] eqn:Ep; [|done].
    assert (cache = None) as ->.
    { unfold prepare_put in Ep. cbn [collection_events String.eqb Ascii.eqb Bool.eqb mbind result_bind] in Ep.
      destruct (is_empty _); [done|]. repeat step_ok Ep. by injection Ep. }
    unfold bindM in H. destruct (commit d e s) as [r1 s2] eqn:E. destruct r1 as [[]|]; [|done]. injection H as <-.
    by eapply commit_memory.
Qed.
End Isolation.

(** ** Properties *)

Section Properties.
Context {St : Type} {HS : Storage St}.

(** Every request of an app is all or nothing: when it is refused, memory is what it was
    (so the error the app receives is true), and whatever the outcome the store stays
    valid.  The reply never fails after the change was made. *)
Theorem app_request_is_atomic app m p now clock nid (s : Store St) r s' :
  store_ok s -> uniq p = true -> dispatch app m p now clock nid [] s = (r, s') ->
  store_ok s' /\ (is_ok r = false -> s' = with_storage s (storage s')).
Proof.
  intros Hs Hp H. destruct (dispatch_tame app m p now clock nid [] s Hp ltac:(done) Hs _ _ H) as [Hs' Hr].
  split; [done|]. by destruct r.
Qed.

End Properties.

Definition rename_lamp : Value :=
  json_of "{'deviceId':'lamp','field':'name','value':'Hall'}".

Lemma app_request_is_atomic_witness :
  exists r s', dispatch "other" "device.set" rename_lamp "2024-01-01T00:00:00Z" 0 "" [] sample = (r, s')
    /\ r = Err (Invalid "device belongs to another app")
    /\ store_ok s' /\ (is_ok r = false -> s' = with_storage sample (storage s')).
Proof.
  destruct (dispatch "other" "device.set" rename_lamp "2024-01-01T00:00:00Z" 0 "" [] sample)
    as [r s'] eqn:E. exists r, s'. split; [reflexivity|]. split.
  - apply (f_equal fst) in E. cbn [fst] in E. rewrite <- E. vm_compute. reflexivity.
  - apply (app_request_is_atomic "other" "device.set" rename_lamp "2024-01-01T00:00:00Z" 0 "" sample r s'
      sample_ok eq_refl E).
Defined.

