(* ===== verification/AppRun.v ===== *)
(** * AppRun: the controller's side of one app

    Models [crates/runtime/src/lib.rs]: [App] greets the app, initialises it, carries out its
    requests, sends it calls and matches its answers.  [receive] handles one frame,
    [follow] brings the app up to date with the store.  An operation that changes the app
    and may fail returns the app next to its result, because the code keeps what it had
    already changed. *)

From Stdlib Require Import ZArith Lia Ascii String.
From S2P Require Import Prelude Text Errors Slots Float Value Document Stats Store Media Wire Mutations.
From S2P Require Session Manifest.

Local Open Scope Z_scope.

(** Initialisation is [app.init] and two calls for each device. *)
Definition MAX_STARTUP : Z := 8193.

(** [env!("CARGO_PKG_VERSION")]: the version in [Cargo.toml] of the workspace. *)
Definition PKG_VERSION : string := "3.0.37".

Record App : Type := mk_run {
  a_id : string; a_manifest : Value; a_welcomed : bool; a_running : bool;
  a_startup : list (string * Value); a_pending : Session.Session; a_cursor : Z;
  a_known : list string; a_initializing : bool; a_groups : list Group; a_manual : bool
}.

Record Completion : Type := mk_completion { c_owner : Z; c_failed : bool; c_value : Value }.
Record Received : Type := mk_received { r_outgoing : list Value; r_completed : option Completion }.

Definition set_welcomed (a : App) b := mk_run (a_id a) (a_manifest a) b (a_running a) (a_startup a) (a_pending a) (a_cursor a) (a_known a) (a_initializing a) (a_groups a) (a_manual a).
Definition set_phase (a : App) r i := mk_run (a_id a) (a_manifest a) (a_welcomed a) r (a_startup a) (a_pending a) (a_cursor a) (a_known a) i (a_groups a) (a_manual a).
Definition set_startup (a : App) x := mk_run (a_id a) (a_manifest a) (a_welcomed a) (a_running a) x (a_pending a) (a_cursor a) (a_known a) (a_initializing a) (a_groups a) (a_manual a).
Definition set_pending (a : App) x := mk_run (a_id a) (a_manifest a) (a_welcomed a) (a_running a) (a_startup a) x (a_cursor a) (a_known a) (a_initializing a) (a_groups a) (a_manual a).
Definition set_cursor (a : App) x := mk_run (a_id a) (a_manifest a) (a_welcomed a) (a_running a) (a_startup a) (a_pending a) x (a_known a) (a_initializing a) (a_groups a) (a_manual a).
Definition set_known (a : App) x := mk_run (a_id a) (a_manifest a) (a_welcomed a) (a_running a) (a_startup a) (a_pending a) (a_cursor a) x (a_initializing a) (a_groups a) (a_manual a).
Definition set_groups (a : App) x := mk_run (a_id a) (a_manifest a) (a_welcomed a) (a_running a) (a_startup a) (a_pending a) (a_cursor a) (a_known a) (a_initializing a) x (a_manual a).
Definition set_manual (a : App) b := mk_run (a_id a) (a_manifest a) (a_welcomed a) (a_running a) (a_startup a) (a_pending a) (a_cursor a) (a_known a) (a_initializing a) (a_groups a) b.

Definition App_new (id : string) (manifest : Value) : Result App :=
  _ ← Manifest.validate manifest;
  if negb (text manifest "id" =? id)%string then Err (Invalid "manifest belongs to another app")
  else Ok (mk_run id manifest false false [] Session.Session_new 0 [] false [] false).

(** [App::manual] *)
Definition App_manual (id : string) (manifest : Value) : Result App :=
  a ← App_new id manifest; Ok (set_manual a true).

(** ** Timeouts *)

Definition callback_timeout (method : string) : Z :=
  if (method =? "video.resolve")%string then 60000
  else if (method =? "pair.list")%string || (method =? "pair.emit")%string
          || (method =? "api.invoke")%string then 90000
  else 30000.

Definition callback_timeout_for (app method : string) (params : Value) : Z :=
  if (app =? "com.stulp.sigenergy")%string
     && ((method =? "pair.list")%string
         || ((method =? "pair.emit")%string && (text params "event" =? "list_devices")%string)
         || ((method =? "api.invoke")%string && (text params "handler" =? "test")%string))
  then 900000 else callback_timeout method.

(** ** Starting *)

(** Sends the next initialisation call, or notes that there is none left. *)
Definition start_next (a : App) (now : Z) (out : list Value) : Result (list Value) * App :=
  match last (a_startup a) with
  | Some (method, params) =>
      let a := set_phase (set_startup a (removelast (a_startup a))) (a_running a) true in
      match Session.begin (a_pending a) 0 now 30000 with
      | Err e => (Err e, a)
      | Ok (id, s) =>
          (f ← request id method params; push out f MAX_OUTBOX, set_pending a s)
      end
  | None => (Ok out, set_phase a true false)
  end.

Section WithStore.
Context {St : Type} {HS : Storage St}.

Definition is_own (a : App) (dev : Value) : bool := (text dev "appId" =? a_id a)%string.
Definition own_devices (a : App) (s : Store St) : list Value :=
  List.filter (is_own a) (records (document s) "devices").

(** The devices of the app by id, each as it is read. *)
Fixpoint welcome_devices (s : Store St) (devices : list Value) (o : Object) : Result Object :=
  match devices with
  | [] => Ok o
  | d :: devices =>
      v ← device (text d "id") s;
      welcome_devices s devices (obj_push o (text d "id") v)
  end.

Definition welcome (a : App) (s : Store St) : Result Value :=
  app ← record (document s) "apps" (a_id a);
  if (negb (a_manual a) && negb (boolean app "enabled")) || boolean app "offered"
  then Err (Invalid "app is not enabled")
  else
    devices ← welcome_devices s (own_devices a s) [];
    Ok (fields [("protocol", value_uint 1); ("appId", VString (a_id a));
                ("stulpId", VString "stulp"); ("stulpVersion", VString PKG_VERSION);
                ("language", VString (language s)); ("timezone", VString (timezone s));
                ("manifest", a_manifest a); ("env", object); ("locale", object);
                ("devices", VObject devices);
                ("settings", app_field s "appSettings" (a_id a));
                ("appState", app_field s "appState" (a_id a))]).

(** The two initialisation calls of a device. *)
Definition driver_init (dev : Value) : string * Value :=
  ("driver.init"%string, fields [("driverId", VString (text dev "driverId"))]).
Definition device_init (dev : Value) : string * Value :=
  ("device.init"%string,
   fields [("driverId", VString (text dev "driverId")); ("deviceId", VString (text dev "id"))]).

(** The calls of all devices in order; [known] grows with them. *)
Fixpoint startup_calls (devices : list Value) (known : list string) (calls : list (string * Value))
  : Result (list (string * Value)) * list string :=
  match devices with
  | [] => (Ok calls, known)
  | d :: devices =>
      match push known (text d "id") 4096 with
      | Err e => (Err e, known)
      | Ok known =>
          match (calls ← push calls (driver_init d) MAX_STARTUP; push calls (device_init d) MAX_STARTUP) with
          | Err e => (Err e, known)
          | Ok calls => startup_calls devices known calls
          end
      end
  end.

(** The calls are a stack: the first one to send is the last of the list. *)
Definition prepare_startup (a : App) (s : Store St) : Result unit * App :=
  match push [] ("app.init"%string, object) MAX_STARTUP with
  | Err e => (Err e, a)
  | Ok calls =>
      let '(r, known) := startup_calls (own_devices a s) (a_known a) calls in
      let a := set_known a known in
      match r with
      | Err e => (Err e, a)
      | Ok calls => (Ok tt, set_startup a (rev calls))
      end
  end.

(** ** Requests of the app *)

(** [App::request]: the result and what was queued before it. *)
Definition app_request (a : App) (f : Frame) (now_ms : Z) (now new_id : string) (out : list Value)
    (s : Store St) : Result (Value * list Value) * App * Store St :=
  let params := get_null (f_value f) "p" in
  if (method f =? "$appproto.ping")%string then (Ok (VNull, out), a, s)
  else if (method f =? "hello")%string then
    if a_welcomed a then (Err (Conflict "app already said hello"), a, s)
    else if negb (uint params "protocol" =? 1) then (Err (Invalid "app protocol version mismatch"), a, s)
    else
      match welcome a s with
      | Err e => (Err e, a, s)
      | Ok w =>
          match prepare_startup a s with
          | (Err e, a) => (Err e, a, s)
          | (Ok _, a) => (Ok (w, out), set_welcomed a true, s)
          end
      end
  else if negb (a_welcomed a) then (Err (Invalid "app must say hello first"), a, s)
  else
    let '(r, s) := dispatch (a_id a) (method f) params now now_ms new_id out s in (r, a, s).

(** ** Answers of the app *)

(** [self.groups.iter().position(|g| g.owner == owner)] and [remove]. *)
Fixpoint take_group (owner : Z) (l : list Group) : option (Group * list Group) :=
  match l with
  | [] => None
  | g :: l =>
      if g_owner g =? owner then Some (g, l)
      else match take_group owner l with Some (h, l) => Some (h, g :: l) | None => None end
  end.

(** The completion an ordinary answer gives its owner. *)
Definition completion (owner : Z) (f : Frame) : Completion :=
  let failed := bool_decide (f_kind f = ErrorKind) in
  mk_completion owner failed (get_null (f_value f) (if failed then "e" else "r")).

Definition timed_out (owner : Z) : Completion :=
  mk_completion owner true (fields [("message", VString "grouped capability callback timed out")]).

(** The next single call of a batch. *)
Definition call_single (a : App) (g : Group) (params : Value) (now : Z) (out : list Value)
  : Result (option Completion * list Value) * App :=
  if g_deadline g <=? now then (Ok (Some (timed_out (g_owner g)), out), a)
  else
    match Session.begin (a_pending a) (g_owner g) now (g_deadline g - now) with
    | Err e => (Err e, a)
    | Ok (id, s) =>
        let a := set_pending a s in
        match (f ← request id "capability.invoke" params; push out f MAX_OUTBOX) with
        | Ok out => (Ok (None, out), set_groups a (a_groups a ++ [g]))
        | Err e => (Err e, set_pending a (Session.complete s id).2)
        end
    end.

Definition app_reply (a : App) (f : Frame) (now : Z) (out : list Value)
  : Result (option Completion * list Value) * App :=
  let '(owner, s) := Session.complete (a_pending a) (f_id f) in
  let a := set_pending a s in
  match owner with
  | None => (Ok (None, out), a)
  | Some owner =>
      if owner =? 0 then
        if bool_decide (f_kind f = ErrorKind)
        then (Err (Invalid "app initialization callback failed"), a)
        else
          match start_next a now out with
          | (Err e, a) => (Err e, a)
          | (Ok out, a) => (Ok (None, out), a)
          end
      else
        match take_group owner (a_groups a) with
        | Some (g, groups) =>
            let a := set_groups a groups in
            match group_reply g f with
            | (Err e, _) => (Err e, a)
            | (Ok Original, _) => (Ok (Some (completion owner f), out), a)
            | (Ok (Done errors), _) => (Ok (Some (mk_completion owner false errors), out), a)
            | (Ok (Call p), g) => call_single a g p now out
            end
        | None => (Ok (Some (completion owner f), out), a)
        end
  end.

(** ** One frame *)

(** The frame that answers a request. *)
Definition answer (id : Z) (r : Result Value) : Result Value :=
  response id (match r with Ok v => Ok v | Err e => Err (error_text e) end).

Definition receive (a : App) (f : Frame) (now_ms : Z) (now new_id : string) (s : Store St)
  : Result Received * App * Store St :=
  if bool_decide (f_kind f = Response) || bool_decide (f_kind f = ErrorKind) then
    match app_reply a f now_ms [] with
    | (Err e, a) => (Err e, a, s)
    | (Ok (completed, out), a) => (Ok (mk_received out completed), a, s)
    end
  else if negb (bool_decide (f_kind f = Request)) then (Err (Invalid "app must send requests"), a, s)
  else
    let first_hello := (method f =? "hello")%string && negb (a_welcomed a) in
    let '(outcome, a, s) := app_request a f now_ms now new_id [] s in
    let out := match outcome with Ok (_, out) => out | Err _ => [] end in
    let start := first_hello && is_ok outcome in
    match (r ← answer (f_id f) (match outcome with Ok (v, _) => Ok v | Err e => Err e end);
           push out r MAX_OUTBOX) with
    | Err e => (Err e, a, s)
    | Ok out =>
        match (if start then start_next a now_ms out else (Ok out, a)) with
        | (Err e, a) => (Err e, a, s)
        | (Ok out, a) => (Ok (mk_received out None), set_cursor a (sequence s), s)
        end
    end.

(** ** Calls to the app *)

Definition has_group (owner : Z) (a : App) : bool := existsb (fun g => g_owner g =? owner) (a_groups a).

(** [App::call]: the frame to send. *)
Definition call (a : App) (owner : Z) (method : string) (params : Value) (now : Z)
  : Result Value * App :=
  if negb (a_running a) then (Err (Invalid "app is not running"), a)
  else if owner =? 0 then (Err (Invalid "request owner zero is reserved"), a)
  else
    match (if (method =? "capabilities.invoke")%string
           then if (Session.MAX_PENDING <=? length (a_groups a))%nat || has_group owner a
                then Err Full
                else g ← Group_new owner now params; Ok (Some g)
           else Ok None) with
    | Err e => (Err e, a)
    | Ok group =>
        match Session.begin (a_pending a) owner now (callback_timeout_for (a_id a) method params) with
        | Err e => (Err e, a)
        | Ok (id, s) =>
            let a := set_pending a s in
            match request id method params with
            | Ok frame =>
                (Ok frame, match group with Some g => set_groups a (a_groups a ++ [g]) | None => a end)
            | Err e => (Err e, set_pending a (Session.complete s id).2)
            end
        end
    end.

Definition adopt (a : App) (dev : Value) : Result Value * App :=
  let id := text dev "id" in
  if negb (a_running a) || negb (is_own a dev) || is_empty id
  then (Err (Invalid "device cannot be adopted by this app"), a)
  else
    match device_frame id dev with
    | Err e => (Err e, a)
    | Ok frame =>
        if existsb (String.eqb id) (a_known a) then (Ok frame, a)
        else match push (a_known a) id 4096 with
             | Err e => (Err e, a)
             | Ok known => (Ok frame, set_known a known)
             end
    end.

(** ** Following the store *)

(** The settings event of the app itself. *)
Definition follow_settings (a : App) (e : Store.Event) (s : Store St) (out : list Value) : Result (list Value) :=
  if (ev_manager e =? "apps")%string && (ev_kind e =? "app.settings")%string && (ev_id e =? a_id a)%string
  then f ← request 0 "state.settings" (app_field s "appSettings" (a_id a)); push out f MAX_OUTBOX
  else Ok out.

Inductive followed : Type :=
| Skip
| Gone
| Present (dev : Value).

(** What an event about a device means for this app. *)
Definition follow_device (a : App) (e : Store.Event) (s : Store St) : Result followed :=
  match device (ev_id e) s with
  | Ok dev => if is_own a dev then Ok (Present dev) else Ok Skip
  | Err (Missing _) => if existsb (String.eqb (ev_id e)) (a_known a) then Ok Gone else Ok Skip
  | Err e => Err e
  end.

(** A device that is new to the app: its two calls go behind all others of the stack. *)
Definition new_device (a : App) (id : string) (dev : Value) : Result unit * App :=
  match push (a_known a) id 4096 with
  | Err e => (Err e, a)
  | Ok known =>
      let a := set_known a known in
      if MAX_STARTUP <? Z.of_nat (length (a_startup a)) + 2 then (Err Full, a)
      else
        let driver := fields [("driverId", VString (text dev "driverId"))] in
        match set driver "deviceId" (VString id) with
        | Err e => (Err e, a)
        | Ok params =>
            (Ok tt, set_startup a (("device.init"%string, params) :: ("driver.init"%string, driver)
                                     :: a_startup a))
        end
  end.

Definition follow_event (a : App) (e : Store.Event) (s : Store St) (out : list Value)
  : Result (list Value) * App :=
  match follow_settings a e s out with
  | Err er => (Err er, a)
  | Ok out =>
      if negb (ev_manager e =? "devices")%string then (Ok out, a)
      else
        match follow_device a e s with
        | Err er => (Err er, a)
        | Ok Skip => (Ok out, a)
        | Ok found =>
            let dev := match found with Present d => d | _ => VNull end in
            match (f ← device_frame (ev_id e) dev; push out f MAX_OUTBOX) with
            | Err er => (Err er, a)
            | Ok out =>
                match found with
                | Present d =>
                    if existsb (String.eqb (ev_id e)) (a_known a) then (Ok out, a)
                    else match new_device a (ev_id e) d with
                         | (Err er, a) => (Err er, a)
                         | (Ok _, a) => (Ok out, a)
                         end
                | _ => (Ok out, set_known a (List.filter (fun id => negb (id =? ev_id e)%string) (a_known a)))
                end
            end
        end
  end.

Fixpoint follow_events (a : App) (es : list Store.Event) (s : Store St) (out : list Value)
  : Result (list Value) * App :=
  match es with
  | [] => (Ok out, a)
  | e :: es =>
      match follow_event a e s out with
      | (Err er, a) => (Err er, a)
      | (Ok out, a) => follow_events a es s out
      end
  end.

Definition follow (a : App) (s : Store St) (now : Z) : Result (list Value) * App :=
  if negb (a_welcomed a) then (Ok [], a)
  else
    match events_after (a_cursor a) s with
    | Err e => (Err e, a)
    | Ok es =>
        match follow_events a es s [] with
        | (Err e, a) => (Err e, a)
        | (Ok out, a) =>
            match (if negb (a_initializing a) && negb (bool_decide (a_startup a = []))
                   then start_next a now out else (Ok out, a)) with
            | (Err e, a) => (Err e, a)
            | (Ok out, a) => (Ok out, set_cursor a (sequence s))
            end
        end
    end.
End WithStore.

(** ** Giving up *)

Definition drop_owner (owner : Z) (l : list Group) : list Group :=
  List.filter (fun g => negb (g_owner g =? owner)) l.

Definition cancel (a : App) (id : Z) : App :=
  let '(owner, s) := Session.complete (a_pending a) id in
  let a := set_pending a s in
  match owner with Some o => set_groups a (drop_owner o (a_groups a)) | None => a end.

Definition disconnect (a : App) : list Z * App :=
  let '(owners, s) := Session.disconnect (a_pending a) in
  (owners, set_pending (set_groups a []) s).

Definition expire (a : App) (now : Z) : option Z * App :=
  let '(r, s) := Session.expire (a_pending a) now in
  let a := set_pending a s in
  match r with
  | Some (_, owner) => (Some owner, set_groups a (drop_owner owner (a_groups a)))
  | None => (None, a)
  end.
