(* ===== verification/AppRunOk.v ===== *)
(** * AppRunOk: properties of the connection with one app

    The initialisation protocol, the order of frames on the wire, the bookkeeping of
    pending calls and batches, and the composition with the parser and the store. *)

From Stdlib Require Import ZArith Lia Ascii String.
From stdpp Require Import gmap.
From S2P Require Import Prelude Text Errors Slots Float Value Json JsonRoundtrip Document Stats Store StoreDoc StoreInv StoreDocOps StoreOk StoreProps Media Wire Mutations MutationsOk AppRun.
From S2P Require Session.

Local Open Scope Z_scope.

(** ** From bytes to the store *)

Lemma frame_of_value v f : frame_of v = Ok f -> f_value f = v.
Proof.
  unfold frame_of. destruct (kind_of _); cbn [mbind result_bind]; [|done].
  repeat (destruct (_ && _); [done|]). by intros [= <-].
Qed.

Lemma frame_decode_uniq bytes f : frame_decode bytes = Ok f -> uniq (f_value f) = true.
Proof.
  unfold frame_decode. destruct (parse_bounded bytes MAX_FRAME) as [v|] eqn:E; [|done].
  cbn [from_hop mbind result_bind]. intros H. rewrite (frame_of_value _ _ H). apply wf_uniq.
  unfold parse_bounded in E. destruct (parse bytes _) as [[w|]|] eqn:Ep; [|done..].
  injection E as ->. by destruct (accepted_wf _ _ _ Ep).
Qed.

Section WithStore.
Context {St : Type} {HS : Storage St}.

Lemma start_next_id a now out r a' : start_next a now out = (r, a') -> a_id a' = a_id a.
Proof.
  unfold start_next. destruct (last (a_startup a)) as [[m p]|]; [|by intros [= _ <-]].
  destruct (Session.begin _ _ _ _) as [[id s]|]; by intros [= _ <-].
Qed.

Lemma app_request_store a f now_ms now nid (s : Store St) r a' s' :
  store_ok s -> uniq (f_value f) = true -> app_request a f now_ms now nid [] s = (r, a', s') ->
  store_ok s' /\ (is_ok r = true -> isolated (a_id a) s s') /\
  (is_ok r = false -> s' = with_storage s (storage s')).
Proof.
  intros Hs Hu. unfold app_request.
  assert (forall (x : Result (Value * list Value)) (y : App) r a' s', (x, y, s) = (r, a', s') ->
    store_ok s' /\ (is_ok r = true -> isolated (a_id a) s s') /\
    (is_ok r = false -> s' = with_storage s (storage s'))) as Hsame.
  { intros x y r0 a0 s0 [= <- <- <-]. split_and!; [done|intros _; apply isolated_refl|].
    intros _. by rewrite with_storage_id. }
  destruct (_ =? _)%string; [apply Hsame|]. destruct (_ =? _)%string.
  - destruct (a_welcomed a); [apply Hsame|]. destruct (negb _); [apply Hsame|].
    destruct (welcome a s); [|apply Hsame]. destruct (prepare_startup a s) as [[|] a1]; apply Hsame.
  - destruct (negb _); [apply Hsame|].
    destruct (dispatch _ _ _ _ _ _ _ s) as [r0 s0] eqn:E. intros [= <- <- <-].
    assert (uniq (get_null (f_value f) "p") = true) as Hp by (by apply uniq_get_null).
    destruct (dispatch_tame (a_id a) (method f) _ now now_ms nid [] s Hp ltac:(done) Hs _ _ E) as [Hs' Hr].
    split; [done|]. destruct r0 as [v|e]; split; try done. intros _. by eapply dispatch_isolated.
Qed.

Lemma receive_store a f now_ms now nid (s : Store St) r a' s' :
  store_ok s -> uniq (f_value f) = true -> receive a f now_ms now nid s = (r, a', s') ->
  store_ok s' /\ (isolated (a_id a) s s').
Proof.
  intros Hs Hu. unfold receive. destruct (_ || _).
  - destruct (app_reply _ _ _ _) as [[[c out]|e] a1]; intros [= <- <- <-];
      (split; [done|apply isolated_refl]).
  - destruct (negb _); [intros [= <- <- <-]; split; [done|apply isolated_refl]|].
    destruct (app_request a f now_ms now nid [] s) as [[outcome a1] s1] eqn:E.
    destruct (app_request_store _ _ _ _ _ _ _ _ _ Hs Hu E) as (Hs1 & Ho & He).
    assert (isolated (a_id a) s s1) as Hi.
    { destruct outcome; [by apply Ho|]. rewrite He by done. apply isolated_storage. }
    case_match; [|by intros [= <- <- <-]].
    destruct (if (_ && _) && is_ok outcome then _ else _) as [[out1|e] a2]; by intros [= <- <- <-].
Qed.
End WithStore.

(** ** The frames of one request *)

Definition is_event (v : Value) : Prop := text v "t" = "ev"%string.

Lemma answer_shape id r :
  exists resp, answer id r = Ok resp /\ uint resp "id" = id
    /\ text resp "t" = (if is_ok r then "res" else "err")%string
    /\ match r with
       | Ok v => get resp "r" = Some v
       | Err e => get resp "e" = Some (fields [("message", VString (error_text e))])
       end.
Proof. unfold answer, response, set, fields. destruct r; cbn; eexists; split; try done. Qed.

Section Frames.
Context {St : Type} {HS : Storage St}.

Lemma request_event m p f : request 0 m p = Ok f -> is_event f.
Proof. by intros [= <-]. Qed.

Lemma device_op_out app m p now (s s1 : Store St) out :
  device_op app m p now [] s = (Ok out, s1) -> exists e, out = [e] /\ is_event e.
Proof.
  unfold device_op. rewrite bind_get, bind_lift. destruct (device _ s); [|done].
  destruct (negb _); [done|]. rewrite bind_lift. destruct (change_device _ _ _); [|done].
  unfold bindM at 1. match goal with |- match ?x with _ => _ end = _ -> _ => destruct x as [[[]|] s2]; [|done] end.
  rewrite bind_get, bind_lift. destruct (device _ s2); [|done]. rewrite bind_lift.
  destruct (device_frame _ _) as [f|] eqn:Ef; [|done]. intros [= H _].
  exists f. split; [done|by eapply request_event].
Qed.

Lemma setting_op_out app m p (s s1 : Store St) out :
  setting_op app m p [] s = (Ok out, s1) -> exists e, out = [e] /\ is_event e.
Proof.
  unfold setting_op. destruct (is_empty _); [done|].
  unfold bindM at 1. destruct (setting _ _ _ s) as [[[]|] s2]; [|done].
  rewrite bind_get, bind_lift. destruct (request _ _ _) as [f|] eqn:Ef; [|done]. intros [= H _].
  exists f. split; [done|by eapply request_event].
Qed.

(** A request of an app queues at most one event, before its answer. *)
Lemma dispatch_out app m p now clock nid (s s1 : Store St) v out :
  dispatch app m p now clock nid [] s = (Ok (v, out), s1) ->
  out = [] \/ exists e, out = [e] /\ is_event e.
Proof.
  unfold dispatch, done_with.
  assert (forall A (op : M (St := St) A) (k : A -> Value), bindM op (fun a => retM (k a, [])) s = (Ok (v, out), s1) ->
    out = [] \/ exists e, out = [e] /\ is_event e) as Hnone.
  { intros A op k. unfold bindM. destruct (op s) as [[a|] s2]; [|done]. intros [= _ <- _]. by left. }
  repeat (lazymatch goal with |- context [if ?b then _ else _] => destruct b end); try done.
  - rewrite bind_get, bind_lift. destruct (image_sources s); [|done]. intros [= _ <- _]. by left.
  - apply (Hnone _ _ id).
  - apply (Hnone _ _ (fun _ => VNull)).
  - apply (Hnone _ _ (fun _ => VNull)).
  - apply (Hnone _ _ (fun _ => VNull)).
  - unfold bindM. destruct (device_op _ _ _ _ _ s) as [[o|] s2] eqn:E; [|done].
    intros [= _ <- _]. right. by eapply device_op_out.
  - unfold bindM. destruct (setting_op _ _ _ _ s) as [[o|] s2] eqn:E; [|done].
    intros [= _ <- _]. right. by eapply setting_op_out.
  - apply (Hnone _ _ (fun _ => VNull)).
  - apply (Hnone _ _ (fun _ => VNull)).
Qed.

Lemma app_request_out a f now_ms now nid (s : Store St) v out a' s' :
  app_request a f now_ms now nid [] s = (Ok (v, out), a', s') ->
  out = [] \/ exists e, out = [e] /\ is_event e.
Proof.
  unfold app_request. destruct (_ =? _)%string; [intros [= _ <- _ _]; by left|].
  destruct (_ =? _)%string.
  - destruct (a_welcomed a); [done|]. destruct (negb _); [done|]. destruct (welcome a s); [|done].
    destruct (prepare_startup a s) as [[|] a1]; [|done]. intros [= _ <- _ _]. by left.
  - destruct (negb _); [done|]. destruct (dispatch _ _ _ _ _ _ _ s) as [r0 s0] eqn:E.
    intros [= -> <- <-]. by eapply dispatch_out.
Qed.

Lemma start_next_out a now out out' a' :
  Session.session_ok (a_pending a) -> start_next a now out = (Ok out', a') ->
  out' = out \/ exists q, out' = out ++ [q] /\ text q "t" = "req"%string.
Proof.
  intros Hs. unfold start_next. destruct (last (a_startup a)) as [[m p]|]; [|intros [= <- _]; by left].
  cbn [set_phase set_startup a_pending].
  destruct (Session.begin _ _ _ _) as [[id s]|] eqn:E; [|done].
  unfold request. cbn [mbind result_bind]. intros [= H _]. apply push_Ok in H as [_ ->].
  right. eexists. split; [done|]. apply Session.begin_Ok in E as (-> & _).
  pose proof (Session.ok_next _ Hs) as [Hn _].
  destruct (Z.eqb_spec (Session.next (a_pending a) + 1) 0); [lia|done].
Qed.
End Frames.

(** ** Calls and batches *)

(** Every batch still has a request in flight for its owner. *)
Definition groups_ok (s : Session.Session) (gs : list Group) : Prop :=
  NoDup (map g_owner gs) /\
  Forall (fun g => g_owner g <> 0 /\ exists id d, Session.in_flight s !! id = Some (d, g_owner g)) gs.

(** What holds of the controller's side between operations. *)
Record app_ok (a : App) : Prop := {
  ao_session : Session.session_ok (a_pending a);
  ao_groups : groups_ok (a_pending a) (a_groups a);
  ao_silent : a_welcomed a = false ->
    a_running a = false /\ a_startup a = [] /\ Session.in_flight (a_pending a) = ∅
}.

Lemma groups_sub s gs gs' : groups_ok s gs -> gs' `sublist_of` gs -> groups_ok s gs'.
Proof.
  intros [HN HF] Hsub. split; [|by eapply sublist_Forall].
  eapply sublist_NoDup; [exact HN|by apply sublist_map].
Qed.

Lemma groups_insert s s' gs id x :
  groups_ok s gs -> Session.in_flight s !! id = None ->
  Session.in_flight s' = <[id := x]> (Session.in_flight s) -> groups_ok s' gs.
Proof.
  intros [HN HF] Hn He. split; [done|]. eapply Forall_impl; [exact HF|].
  intros g (H0 & i & d & Hi). split; [done|]. exists i, d. rewrite He, lookup_insert_ne; [done|congruence].
Qed.

Lemma groups_delete s s' gs id d o :
  groups_ok s gs -> Session.in_flight s !! id = Some (d, o) ->
  Session.in_flight s' = base.delete id (Session.in_flight s) ->
  Forall (fun g => g_owner g <> o) gs -> groups_ok s' gs.
Proof.
  intros [HN HF] Hi He Ho. split; [done|]. rewrite Forall_forall in *. intros g Hg.
  destruct (HF g Hg) as (H0 & i & d' & Hi'). split; [done|]. exists i, d'.
  rewrite He, lookup_delete_ne; [done|]. intros <-. apply (Ho g Hg). congruence.
Qed.

Lemma groups_snoc s gs g id d :
  groups_ok s gs -> g_owner g <> 0 -> Forall (fun h => g_owner h <> g_owner g) gs ->
  Session.in_flight s !! id = Some (d, g_owner g) -> groups_ok s (gs ++ [g]).
Proof.
  intros [HN HF] H0 Ho Hi. split.
  - apply nodup_snoc; [done|]. intros (h & Hh & Hin)%list_elem_of_fmap.
    rewrite Forall_forall in Ho. by apply (Ho h).
  - apply Forall_app. split; [done|]. repeat constructor; [done|]. by exists id, d.
Qed.

Lemma drop_owner_ne o gs : Forall (fun g => g_owner g <> o) (drop_owner o gs).
Proof. apply Forall_forall. intros g [_ H]%filter_elem. by apply negb_true_iff, Z.eqb_neq in H. Qed.

Lemma take_group_Some o gs g gs' :
  take_group o gs = Some (g, gs') ->
  g_owner g = o /\ exists l1 l2, gs = l1 ++ g :: l2 /\ gs' = l1 ++ l2.
Proof.
  revert g gs'. induction gs as [|h gs IH]; intros g gs'; cbn; [done|].
  destruct (Z.eqb_spec (g_owner h) o) as [E|E].
  - intros [= <- <-]. split; [done|]. by exists [], gs.
  - destruct (take_group o gs) as [[k l]|]; [|done]. intros [= <- <-].
    destruct (IH _ _ eq_refl) as (Ho & l1 & l2 & -> & ->). split; [done|]. by exists (h :: l1), l2.
Qed.

Lemma take_group_None o gs : take_group o gs = None -> Forall (fun g => g_owner g <> o) gs.
Proof.
  induction gs as [|h gs IH]; cbn; [done|]. destruct (Z.eqb_spec (g_owner h) o); [done|].
  destruct (take_group o gs) as [[k l]|]; [done|]. auto.
Qed.

Lemma take_group_rest o s gs g gs' :
  groups_ok s gs -> take_group o gs = Some (g, gs') ->
  groups_ok s gs' /\ Forall (fun h => g_owner h <> o) gs'.
Proof.
  intros Hg H. destruct (take_group_Some _ _ _ _ H) as (<- & l1 & l2 & -> & ->). split.
  - eapply groups_sub; [exact Hg|]. apply sublist_app; [done|by constructor].
  - destruct Hg as [HN _]. rewrite map_app in HN. cbn in HN. apply Forall_forall. intros h Hh E.
    apply NoDup_app in HN as (_ & Hd & [Hn _]%NoDup_cons). apply elem_of_app in Hh as [Hh|Hh].
    + apply (Hd (g_owner h)); [by apply list_elem_of_fmap_2|]. rewrite E. apply list_elem_of_here.
    + apply Hn. rewrite <- E. by apply list_elem_of_fmap_2.
Qed.

Lemma begin_in_flight s owner now t id s' :
  Session.session_ok s -> Session.begin s owner now t = Ok (id, s') ->
  Session.session_ok s' /\ Session.in_flight s !! id = None /\
  Session.in_flight s' = <[id := (now + t, owner)]> (Session.in_flight s).
Proof.
  intros Hs E. pose proof (Session.begin_map s owner now t Hs) as H. rewrite E in H. tauto.
Qed.

Lemma set_phase_ok a r i : app_ok a -> (a_welcomed a = false -> r = false) -> app_ok (set_phase a r i).
Proof. intros [H1 H2 H3] Hr. constructor; cbn; auto. intros Hw. destruct (H3 Hw) as (_ & ? & ?). auto. Qed.

Lemma start_next_ok a now out r a' :
  app_ok a -> a_welcomed a = true -> start_next a now out = (r, a') -> app_ok a' /\ a_welcomed a' = true.
Proof.
  intros Ha Hw. unfold start_next. destruct (last (a_startup a)) as [[m p]|].
  2:{ intros [= _ <-]. split; [|done]. apply set_phase_ok; [done|congruence]. }
  assert (app_ok (set_phase (set_startup a (removelast (a_startup a))) (a_running a) true)) as Ha1
    by (destruct Ha as [H1 H2 H3]; constructor; cbn; auto; congruence).
  destruct (Session.begin _ _ _ _) as [[id s]|] eqn:E; intros [= _ <-]; [|done].
  split; [|done]. destruct Ha1 as [H1 H2 H3]. apply begin_in_flight in E as (Hs & Hn & He); [|done].
  constructor; cbn; [done| |intros; congruence]. by eapply groups_insert.
Qed.

Lemma call_single_ok a g p now out r a' :
  app_ok a -> a_welcomed a = true -> g_owner g <> 0 ->
  Forall (fun h => g_owner h <> g_owner g) (a_groups a) ->
  call_single a g p now out = (r, a') -> app_ok a' /\ a_welcomed a' = true.
Proof.
  intros Ha Hw H0 Ho. unfold call_single. destruct (_ <=? _); [by intros [= _ <-]|].
  destruct (Session.begin _ _ _ _) as [[id s]|] eqn:E; [|by intros [= _ <-]].
  destruct Ha as [H1 H2 H3]. apply begin_in_flight in E as (Hs & Hn & He); [|done].
  cbn [set_pending a_groups]. case_match; intros [= _ <-].
  - split; [|done]. constructor; cbn; [done| |intros; congruence].
    eapply groups_snoc; [by eapply groups_insert|done|done|]. rewrite He. apply lookup_insert_eq.
  - destruct (Session.complete s id) as [o s2] eqn:Ec.
    apply Session.complete_map in Ec as (Hs2 & _ & He2); [|done]. split; [|done].
    constructor; cbn; [done| |intros; congruence].
    rewrite He, delete_insert_id in He2 by done.
    destruct H2 as [HN HF]. split; [done|]. by rewrite He2.
Qed.

Lemma group_reply_owner g f r g' : group_reply g f = (r, g') -> g_owner g' = g_owner g.
Proof.
  unfold group_reply, next_single. intros H. repeat case_match; injection H as _ <-; done.
Qed.

Lemma app_reply_ok a f now out r a' :
  app_ok a -> app_reply a f now out = (r, a') -> app_ok a'.
Proof.
  intros Ha. unfold app_reply. destruct (Session.complete (a_pending a) (f_id f)) as [owner s] eqn:Ec.
  destruct Ha as [H1 H2 H3]. apply Session.complete_map in Ec as (Hs & -> & He); [|done].
  destruct (Session.in_flight (a_pending a) !! f_id f) as [[d owner]|] eqn:El; cbn [snd fmap option_fmap option_map].
  2:{ intros [= _ <-]. constructor; cbn; [done| |].
      - rewrite delete_id in He by done. destruct H2 as [HN HF]. split; [done|]. by rewrite He.
      - intros Hw. destruct (H3 Hw) as (? & ? & Hi). rewrite He, Hi. auto. }
  assert (a_welcomed a = true) as Hw.
  { destruct (a_welcomed a); [done|]. destruct (H3 eq_refl) as (_ & _ & Hi). by rewrite Hi in El. }
  assert (forall gs, gs `sublist_of` a_groups a -> Forall (fun g => g_owner g <> owner) gs ->
    groups_ok s gs) as Hgs.
  { intros gs Hsub Ho. eapply groups_delete; [|exact El|exact He|exact Ho]. by eapply groups_sub. }
  destruct (Z.eqb_spec owner 0) as [->|H0].
  - assert (app_ok (set_pending a s)) as Ha1.
    { constructor; cbn; [done| |congruence]. apply Hgs; [done|]. destruct H2 as [_ HF].
      eapply Forall_impl; [exact HF|]. by intros g [? _]. }
    destruct (bool_decide _); [by intros [= _ <-]|].
    destruct (start_next (set_pending a s) now out) as [[o|e] a1] eqn:E; intros [= _ <-];
      eapply start_next_ok in E; [|done|done| |done|done]; tauto.
  - cbn [set_pending a_groups]. destruct (take_group owner (a_groups a)) as [[g gs]|] eqn:Et.
    + destruct (take_group_rest _ _ _ _ _ H2 Et) as [_ Hne].
      destruct (take_group_Some _ _ _ _ Et) as (Hg & l1 & l2 & Egs & El').
      assert (app_ok (set_groups (set_pending a s) gs)) as Ha1.
      { constructor; cbn; [done| |congruence]. apply Hgs; [|done].
        rewrite Egs, El'. apply sublist_app; [done|by constructor]. }
      destruct (group_reply g f) as [[[|p|errors]|e] g'] eqn:Er; try (by intros [= _ <-]).
      intros E. pose proof (group_reply_owner _ _ _ _ Er) as Hg'. rewrite Hg in Hg'.
      eapply call_single_ok; [exact Ha1|done|by rewrite Hg'|by rewrite Hg'|exact E].
    + intros [= _ <-]. constructor; cbn; [done| |congruence]. apply Hgs; [done|].
      by apply take_group_None.
Qed.

Lemma has_group_false o a : has_group o a = false -> Forall (fun g => g_owner g <> o) (a_groups a).
Proof.
  unfold has_group. intros H. apply Forall_forall. intros g Hg E.
  rewrite <- not_true_iff_false in H. apply H, existsb_exists. exists g.
  split; [by apply list_elem_of_In|by apply Z.eqb_eq].
Qed.

Lemma Group_new_owner o now p g : Group_new o now p = Ok g -> g_owner g = o.
Proof. unfold Group_new. repeat (destruct (_ : bool); [done|]). by intros [= <-]. Qed.

Lemma running_welcomed a : app_ok a -> a_running a = true -> a_welcomed a = true.
Proof.
  intros [_ _ H] Hr. destruct (a_welcomed a); [done|]. destruct (H eq_refl) as [? _]. congruence.
Qed.

Lemma call_ok a owner m p now r a' : app_ok a -> call a owner m p now = (r, a') -> app_ok a'.
Proof.
  intros Ha. unfold call. destruct (a_running a) eqn:Hr; [cbn [negb]|by intros [= _ <-]].
  pose proof (running_welcomed _ Ha Hr) as Hw.
  destruct (Z.eqb_spec owner 0) as [|H0]; [by intros [= _ <-]|].
  destruct (if (m =? "capabilities.invoke")%string then _ else _) as [group|e] eqn:Eg; [|by intros [= _ <-]].
  destruct (Session.begin _ _ _ _) as [[id s]|] eqn:E; [|by intros [= _ <-]].
  unfold request. intros [= _ <-].
  destruct Ha as [H1 H2 H3]. apply begin_in_flight in E as (Hs & Hn & He); [|done].
  assert (groups_ok s (a_groups a)) as Hg by (by eapply groups_insert).
  destruct group as [g|]; [|constructor; cbn; auto; congruence].
  assert (g_owner g = owner /\ Forall (fun h => g_owner h <> owner) (a_groups a)) as [Ho Hf].
  { destruct (_ =? _)%string; [|done]. destruct (_ || _) eqn:B; [done|].
    apply orb_false_iff in B as [_ B]. step_ok Eg. injection Eg as ->.
    split; [by eapply Group_new_owner|by apply has_group_false]. }
  constructor; cbn; [done| |congruence]. eapply groups_snoc; [done|congruence|by rewrite Ho|].
  rewrite He, Ho. apply lookup_insert_eq.
Qed.

Lemma expire_ok a now r a' : app_ok a -> expire a now = (r, a') -> app_ok a'.
Proof.
  intros [H1 H2 H3]. unfold expire. destruct (Session.expire (a_pending a) now) as [x s] eqn:E.
  apply Session.expire_map in E as [Hs HM]; [|done]. destruct x as [[id o]|]; intros [= _ <-].
  - destruct HM as (d & Hl & _ & He). constructor; cbn; [done| |].
    + eapply groups_delete; [eapply groups_sub; [exact H2|apply filter_sublist]|exact Hl|exact He|].
      apply drop_owner_ne.
    + intros Hw. destruct (H3 Hw) as (? & ? & Hi). by rewrite Hi in Hl.
  - destruct HM as [-> _]. by constructor.
Qed.

Lemma cancel_ok a id : app_ok a -> app_ok (cancel a id).
Proof.
  intros [H1 H2 H3]. unfold cancel. destruct (Session.complete (a_pending a) id) as [o s] eqn:E.
  apply Session.complete_map in E as (Hs & -> & He); [|done].
  destruct (Session.in_flight (a_pending a) !! id) as [[d o]|] eqn:El; cbn [snd fmap option_fmap option_map].
  - constructor; cbn; [done| |].
    + eapply groups_delete; [eapply groups_sub; [exact H2|apply filter_sublist]|exact El|exact He|].
      apply drop_owner_ne.
    + intros Hw. destruct (H3 Hw) as (? & ? & Hi). by rewrite Hi in El.
  - rewrite delete_id in He by done. constructor; cbn; [done| |].
    + destruct H2 as [HN HF]. split; [done|]. by rewrite He.
    + intros Hw. destruct (H3 Hw) as (? & ? & Hi). by rewrite He, Hi.
Qed.

Lemma disconnect_ok a os a' : app_ok a -> disconnect a = (os, a') -> app_ok a'.
Proof.
  intros [H1 H2 H3]. unfold disconnect. destruct (Session.disconnect (a_pending a)) as [o s] eqn:E.
  apply Session.disconnect_map in E as (Hs & _ & He); [|done]. intros [= _ <-].
  constructor; cbn; [done|split; constructor|]. intros Hw. destruct (H3 Hw) as (? & ? & _). auto.
Qed.

Lemma set_known_ok a x : app_ok a -> app_ok (set_known a x).
Proof. intros [H1 H2 H3]. by constructor. Qed.

Lemma set_cursor_ok a x : app_ok a -> app_ok (set_cursor a x).
Proof. intros [H1 H2 H3]. by constructor. Qed.

Lemma set_startup_ok a x : app_ok a -> a_welcomed a = true -> app_ok (set_startup a x).
Proof. intros [H1 H2 H3] Hw. constructor; cbn; auto. congruence. Qed.

Lemma adopt_ok a dev r a' : app_ok a -> adopt a dev = (r, a') -> app_ok a'.
Proof.
  intros Ha. unfold adopt. intros H. repeat case_match; injection H as _ <-; auto using set_known_ok.
Qed.

Section Follow.
Context {St : Type} {HS : Storage St}.

Lemma follow_event_ok a e (s : Store St) out r a' :
  app_ok a -> a_welcomed a = true -> follow_event a e s out = (r, a') -> app_ok a' /\ a_welcomed a' = true.
Proof.
  intros Ha Hw. unfold follow_event, new_device. intros H.
  repeat case_match; injection H as _ <-; simplify_eq; cbn [a_welcomed set_known set_startup];
    auto using set_known_ok, set_startup_ok.
Qed.

Lemma follow_events_ok es : forall a (s : Store St) out r a',
  app_ok a -> a_welcomed a = true -> follow_events a es s out = (r, a') -> app_ok a' /\ a_welcomed a' = true.
Proof.
  induction es as [|e es IH]; intros a s out r a' Ha Hw; cbn [follow_events]; [by intros [= _ <-]|].
  destruct (follow_event a e s out) as [[o|er] a1] eqn:E; apply follow_event_ok in E as [Ha1 Hw1]; try done.
  - by apply IH.
  - by intros [= _ <-].
Qed.

Lemma follow_ok a (s : Store St) now r a' : app_ok a -> follow a s now = (r, a') -> app_ok a'.
Proof.
  intros Ha. unfold follow. destruct (a_welcomed a) eqn:Hw; [cbn [negb]|by intros [= _ <-]].
  destruct (events_after _ s); [|by intros [= _ <-]].
  destruct (follow_events _ _ _ _) as [[o|er] a1] eqn:E; apply follow_events_ok in E as [Ha1 Hw1]; try done;
    [|by intros [= _ <-]].
  destruct (_ && _); [|intros [= _ <-]; by apply set_cursor_ok].
  destruct (start_next a1 now o) as [[o1|er] a2] eqn:En; apply start_next_ok in En as [Ha2 _]; try done;
    intros [= _ <-]; auto using set_cursor_ok.
Qed.

Lemma app_request_ok a f now_ms now nid out (s : Store St) r a' s' :
  app_ok a -> app_request a f now_ms now nid out s = (r, a', s') ->
  app_ok a' /\ ((method f =? "hello")%string = true -> is_ok r = true -> a_welcomed a = false -> a_welcomed a' = true).
Proof.
  intros Ha. unfold app_request.
  destruct (String.eqb_spec (method f) "$appproto.ping") as [Hp|_].
  { intros [= _ <- _]. split; [done|]. by rewrite Hp. }
  destruct (method f =? "hello")%string.
  - destruct (a_welcomed a) eqn:Hw; [by intros [= <- <- _]|]. destruct (negb _); [by intros [= <- <- _]|].
    destruct (welcome a s); [|by intros [= <- <- _]]. unfold prepare_startup.
    destruct (push _ _ _) as [c|]; [|by intros [= <- <- _]].
    destruct (startup_calls _ _ _) as [[calls|] known]; intros [= <- <- _].
    + split; [|done]. destruct Ha as [H1 H2 H3]. constructor; cbn; auto. done.
    + split; [by apply set_known_ok|done].
  - destruct (negb _); [by intros [= _ <- _]|].
    destruct (dispatch _ _ _ _ _ _ _ s) as [r0 s0]. by intros [= _ <- _].
Qed.

Lemma receive_ok a f now_ms now nid (s : Store St) r a' s' :
  app_ok a -> receive a f now_ms now nid s = (r, a', s') -> app_ok a'.
Proof.
  intros Ha. unfold receive. destruct (_ || _).
  - destruct (app_reply _ _ _ _) as [[[c out]|e] a1] eqn:E; apply app_reply_ok in E; try done;
      by intros [= _ <- _].
  - destruct (negb _); [by intros [= _ <- _]|].
    destruct (app_request a f now_ms now nid [] s) as [[outcome a1] s1] eqn:E.
    apply app_request_ok in E as [Ha1 Hh]; [|done].
    case_match; [|by intros [= _ <- _]].
    destruct (_ && _ && _) eqn:B.
    + apply andb_true_iff in B as [[Bm Bw]%andb_true_iff Bo]. apply negb_true_iff in Bw.
      destruct (start_next a1 now_ms _) as [[o|er] a2] eqn:En; apply start_next_ok in En as [Ha2 _];
        try done; auto; intros [= _ <- _]; auto using set_cursor_ok.
    + intros [= _ <- _]. by apply set_cursor_ok.
Qed.
End Follow.

(** ** Runs of a connection *)

Section Runs.
Context {St : Type} {HS : Storage St}.

(** What can happen between one app and the controller; [Other] is any operation another
    client makes on the store. *)
Inductive conn_op : Type :=
| Frame_in (bytes : list Z) (now_ms : Z) (now new_id : string)
| Call_out (owner : Z) (method : string) (params : Value) (now : Z)
| Follow (now : Z)
| Expire (now : Z)
| Cancel (id : Z)
| Adopt (dev : Value)
| Disconnect
| Other (op : Op).

Definition conn_step (c : App * Store St) (o : conn_op) : App * Store St :=
  let '(a, s) := c in
  match o with
  | Frame_in bytes now_ms now new_id =>
      match frame_decode bytes with
      | Ok f => let '(_, a, s) := receive a f now_ms now new_id s in (a, s)
      | Err _ => (a, s)
      end
  | Call_out owner method params now => ((call a owner method params now).2, s)
  | Follow now => ((follow a s now).2, s)
  | Expire now => ((expire a now).2, s)
  | Cancel id => (cancel a id, s)
  | Adopt dev => ((adopt a dev).2, s)
  | Disconnect => ((disconnect a).2, s)
  | Other op => (a, (run_op op s).2)
  end.

Definition conn_op_ok (o : conn_op) : Prop := match o with Other op => op_ok op | _ => True end.

Lemma conn_step_ok a s o a' s' :
  app_ok a -> store_ok s -> conn_op_ok o -> conn_step (a, s) o = (a', s') -> app_ok a' /\ store_ok s'.
Proof.
  intros Ha Hs Ho. destruct o; cbn [conn_step].
  - destruct (frame_decode bytes) as [f|] eqn:E; [|by intros [= <- <-]].
    apply frame_decode_uniq in E.
    destruct (receive a f now_ms now new_id s) as [[r a1] s1] eqn:Er. intros [= <- <-].
    split; [by eapply receive_ok|]. by eapply receive_store.
  - destruct (call _ _ _ _ _) eqn:E. intros [= <- <-]. split; [by eapply call_ok|done].
  - destruct (follow a s now) eqn:E. intros [= <- <-]. split; [by eapply follow_ok|done].
  - destruct (expire a now) eqn:E. intros [= <- <-]. split; [by eapply expire_ok|done].
  - intros [= <- <-]. split; [by apply cancel_ok|done].
  - destruct (adopt a dev) eqn:E. intros [= <- <-]. split; [by eapply adopt_ok|done].
  - destruct (disconnect a) eqn:E. intros [= <- <-]. split; [by eapply disconnect_ok|done].
  - destruct (run_op op s) as [r s1] eqn:E. intros [= <- <-]. split; [done|]. by eapply run_op_ok.
Qed.

Lemma App_new_ok id m a : App_new id m = Ok a -> app_ok a /\ a_id a = id.
Proof.
  unfold App_new. destruct (Manifest.validate m); [cbn [mbind result_bind]|done].
  destruct (negb _); [done|]. intros [= <-]. split; [|done].
  constructor; cbn; [apply Session.Session_new_ok|split; constructor|].
  intros _. split_and!; [done|done|]. vm_compute. done.
Qed.

Lemma conn_run_ok ops : forall a s a' s',
  app_ok a -> store_ok s -> Forall conn_op_ok ops -> fold_left conn_step ops (a, s) = (a', s') ->
  app_ok a' /\ store_ok s'.
Proof.
  induction ops as [|o ops IH]; intros a s a' s' Ha Hs Ho; cbn [fold_left]; [by intros [= <- <-]|].
  apply Forall_cons in Ho as [Ho1 Ho]. destruct (conn_step (a, s) o) as [a1 s1] eqn:E.
  destruct (conn_step_ok _ _ _ _ _ Ha Hs Ho1 E) as [Ha1 Hs1]. by apply IH.
Qed.

(** C3: Whatever bytes an app sends and however its frames, the controller's calls, timeouts,
    cancellations and the operations of other clients interleave, the store stays valid;
    at most 64 calls are in flight; every batch that is being sent one by one still has a
    request in flight for its owner (so the owner hears of it by an answer, a timeout or
    the end of the connection), no owner has two batches; and an app that never said hello
    is not running and is never called. *)
Theorem connection_invariant id m a (s : Store St) ops a' s' :
  App_new id m = Ok a -> store_ok s -> Forall conn_op_ok ops ->
  fold_left conn_step ops (a, s) = (a', s') ->
  store_ok s'
  /\ (size (Session.in_flight (a_pending a')) <= Session.MAX_PENDING)%nat
  /\ NoDup (map g_owner (a_groups a'))
  /\ Forall (fun g => exists id d, Session.in_flight (a_pending a') !! id = Some (d, g_owner g)) (a_groups a')
  /\ (a_welcomed a' = false -> a_running a' = false /\ Session.in_flight (a_pending a') = ∅).
Proof.
  intros Hn Hs Ho H. destruct (App_new_ok _ _ _ Hn) as [Ha _].
  destruct (conn_run_ok _ _ _ _ _ Ha Hs Ho H) as [[H1 [H2 H3] H4] Hs'].
  split_and!; [done| |done| |].
  - rewrite (Session.in_flight_size _ H1), <- (Session.ok_slots _ H1). apply Session.to_pairs_length.
  - eapply Forall_impl; [exact H3|]. by intros g [_ ?].
  - intros Hw. destruct (H4 Hw) as (? & _ & ?). done.
Qed.

(** From bytes to disk: a frame that the parser accepts, whatever it asks, leaves the
    store valid and everything that belongs to other apps untouched. *)
Theorem frame_bytes_are_safe bytes f a now_ms now nid (s : Store St) r a' s' :
  frame_decode bytes = Ok f -> store_ok s -> receive a f now_ms now nid s = (r, a', s') ->
  store_ok s' /\ isolated (a_id a) s s'.
Proof. intros Hf Hs H. eapply receive_store; [exact Hs|by eapply frame_decode_uniq|exact H]. Qed.

(** C16: Every accepted request of an app gets exactly one answer, with its own id: a result
    when it was carried out and the error when it was refused.  On the wire the state event
    of the request comes before its answer and the first initialisation call after it. *)
Theorem every_request_is_answered a f now_ms now nid (s : Store St) r a' s' :
  app_ok a -> store_ok s -> uniq (f_value f) = true -> f_kind f = Request ->
  receive a f now_ms now nid s = (Ok r, a', s') ->
  exists before resp after, r_outgoing r = before ++ resp :: after
    /\ Forall is_event before /\ (length before <= 1)%nat
    /\ uint resp "id" = f_id f /\ text resp "t" ∈ ["res"; "err"]%string
    /\ (text resp "t" = "err"%string -> s' = with_storage s (storage s'))
    /\ Forall (fun q => text q "t" = "req"%string) after /\ (length after <= 1)%nat
    /\ r_completed r = None /\ a_cursor a' = sequence s'.
Proof.
  intros Ha Hs Hu Hk H. unfold receive in H. rewrite Hk in H. cbn [bool_decide] in H.
  rewrite !(bool_decide_eq_false_2 (Request = _)), bool_decide_eq_true_2 in H by done.
  cbn [orb negb] in H.
  destruct (app_request a f now_ms now nid [] s) as [[outcome a1] s1] eqn:E.
  pose proof (app_request_ok _ _ _ _ _ _ _ _ _ _ Ha E) as [Ha1 _].
  set (out := match outcome with Ok (_, out) => out | Err _ => [] end) in *.
  assert (out = [] \/ exists e, out = [e] /\ is_event e) as Hout.
  { unfold out. destruct outcome as [[v o]|]; [|by left]. by eapply app_request_out. }
  destruct (answer_shape (f_id f) (match outcome with Ok (v, _) => Ok v | Err e => Err e end))
    as (resp & Hr & Hid & Ht & _). rewrite Hr in H. cbn [mbind result_bind] in H.
  destruct (push out resp MAX_OUTBOX) as [out1|] eqn:Ep; [|done]. apply push_Ok in Ep as [_ ->].
  destruct (if _ && _ && is_ok outcome then _ else _) as [[out2|] a2] eqn:Es; [|done].
  injection H as <- <- <-. cbn [r_outgoing r_completed].
  assert (exists after, out2 = out ++ resp :: after
    /\ Forall (fun q => text q "t" = "req"%string) after /\ (length after <= 1)%nat) as (after & -> & Hq & Hlen).
  { destruct (_ && _ && _) in Es.
    - apply start_next_out in Es as [->|(q & -> & Hq)]; [|..|apply Ha1].
      + exists []. split_and!; [done|constructor|cbn; lia].
      + exists [q]. rewrite <- app_assoc. split; [done|]. split; [by repeat constructor|cbn; lia].
    - injection Es as <- _. exists []. split_and!; [done|constructor|cbn; lia]. }
  exists out, resp, after. split_and!; try done.
  - destruct Hout as [E0|(e & E0 & He)]; rewrite E0; by repeat constructor.
  - destruct Hout as [E0|(e & E0 & He)]; rewrite E0; cbn; lia.
  - rewrite Ht. destruct outcome as [[v o]|e]; cbn; repeat constructor.
  - rewrite Ht. destruct outcome as [[v o]|e]; [done|]. intros _.
    destruct (app_request_store _ _ _ _ _ _ _ _ _ Hs Hu E) as (_ & _ & He). by apply He.
Qed.
End Runs.

(** ** A connection *)

(** An app and its greeting. *)
Definition sample_manifest : Value := json_of "{'id':'hue','version':'1','sdk':3}".
Definition sample_app : App :=
  mk_run "hue" sample_manifest false false [] Session.Session_new 0 [] false [] false.
Definition hello_bytes : list Z := quoted "{'t':'req','id':1,'m':'hello','p':{'protocol':1}}".
Definition hello_frame : Frame :=
  Eval vm_compute in match frame_decode hello_bytes with Ok f => f | Err _ => mk_frame Request 0 VNull end.
Definition rename_bytes : list Z := quoted
  "{'t':'req','id':7,'m':'device.set','p':{'deviceId':'lamp','field':'name','value':'Hall'}}".

(** The greeted app. *)
Definition greeted : App :=
  Eval vm_compute in (receive sample_app hello_frame 0 "2024-01-01T00:00:00Z" "n" sample).1.2.

Definition sample_run : list conn_op :=
  [Frame_in hello_bytes 0 "2024-01-01T00:00:00Z" "n";
   Frame_in (quoted "{'t':'res','id':1,'r':null}") 5 "2024-01-01T00:00:00Z" "n";
   Other (OpDelete "devices" "lamp");
   Follow 9; Expire 40000; Disconnect].

Lemma connection_invariant_witness :
  exists a' s', App_new "hue" sample_manifest = Ok sample_app
    /\ fold_left conn_step sample_run (sample_app, sample) = (a', s') /\ store_ok s' /\ a_welcomed a' = true.
Proof.
  destruct (fold_left conn_step sample_run (sample_app, sample)) as [a' s'] eqn:E. exists a', s'.
  split; [vm_compute; reflexivity|]. split; [reflexivity|]. split.
  - refine (proj1 (connection_invariant "hue" sample_manifest sample_app sample sample_run a' s' _ sample_ok _ E)).
    + vm_compute. reflexivity.
    + repeat constructor.
  - vm_compute in E. injection E as <- _. reflexivity.
Defined.

Lemma frame_bytes_are_safe_witness :
  exists r a' s', receive greeted (match frame_decode rename_bytes with Ok f => f | Err _ => hello_frame end)
      1 "2024-01-01T00:00:00Z" "n" sample = (r, a', s')
    /\ store_ok s' /\ isolated "hue" sample s' /\
    (fun d => text d "name") <$> res_ok (device "lamp" s') = Some "Hall"%string.
Proof.
  destruct (frame_decode rename_bytes) as [f|] eqn:Ef; [|vm_compute in Ef; discriminate Ef].
  destruct (receive greeted f 1 "2024-01-01T00:00:00Z" "n" sample) as [[r a'] s'] eqn:E.
  exists r, a', s'. split; [reflexivity|].
  destruct (frame_bytes_are_safe rename_bytes f greeted 1 "2024-01-01T00:00:00Z" "n" sample r a' s' Ef sample_ok E)
    as [H1 H2]. split; [exact H1|]. split; [exact H2|].
  vm_compute in Ef. injection Ef as <-. vm_compute in E. injection E as _ _ <-. vm_compute. reflexivity.
Defined.

Lemma every_request_is_answered_witness :
  exists r a' s', receive sample_app hello_frame 0 "2024-01-01T00:00:00Z" "n" sample = (Ok r, a', s')
    /\ length (r_outgoing r) = 2%nat
    /\ exists before resp after, r_outgoing r = before ++ resp :: after /\ uint resp "id" = 1.
Proof.
  destruct (receive sample_app hello_frame 0 "2024-01-01T00:00:00Z" "n" sample) as [[[r|e] a'] s'] eqn:E;
    [|vm_compute in E; discriminate E].
  exists r, a', s'. split; [reflexivity|]. split.
  - vm_compute in E. injection E as <- _ _. reflexivity.
  - destruct (every_request_is_answered sample_app hello_frame 0 "2024-01-01T00:00:00Z" "n" sample r a' s')
      as (before & resp & after & Ho & _ & _ & Hid & _).
    + apply (App_new_ok "hue" sample_manifest). vm_compute. reflexivity.
    + exact sample_ok.
    + vm_compute. reflexivity.
    + reflexivity.
    + exact E.
    + exists before, resp, after. split; [exact Ho|exact Hid].
Defined.

(** * AppInit: the initialisation of an app, and following the store

    After its greeting an app receives [app.init] and, for every device in the order of the
    document, [driver.init] and [device.init], each after the answer to the one before; it
    is running exactly when all of them were answered.  From then on [follow] tells it of
    every change of its devices. *)

(** A frame with which the controller calls the app. *)
Definition call_frame (id : Z) (c : string * Value) : Value :=
  fields [("t", VString "req"); ("id", value_uint id); ("m", VString c.1); ("p", c.2)].

Fixpoint call_frames (id : Z) (cs : list (string * Value)) : list Value :=
  match cs with [] => [] | c :: cs => call_frame id c :: call_frames (id + 1) cs end.

(** The app answers the call with number [id], the next one with [id + 1], and so on; each
    answer comes at its own time.  The frames it receives meanwhile. *)
Fixpoint init_run (a : App) (id : Z) (answers : list (Value * Z)) : option (list Value * App) :=
  match answers with
  | [] => Some ([], a)
  | (v, t) :: answers =>
      match app_reply a (mk_frame Response id v) t [] with
      | (Ok (None, out), a) =>
          match init_run a (id + 1) answers with
          | Some (sent, a) => Some (out ++ sent, a)
          | None => None
          end
      | _ => None
      end
  end.

Definition init_time (t : Z) : Prop := 0 <= t /\ t + 30000 <= U64_MAX.

(** The app waits for the answer to call [id], and [cs] are the calls still to come. *)
Record initialising (a : App) (id : Z) (cs : list (string * Value)) : Prop := {
  in_session : Session.session_ok (a_pending a);
  in_flight_one : exists d, Session.in_flight (a_pending a) = {[id := (d, 0)]};
  in_next : Session.next (a_pending a) = id;
  in_rest : a_startup a = rev cs;
  in_running : a_running a = false
}.

Lemma begin_some s owner now t :
  Session.session_ok s -> Session.in_flight s = ∅ -> Session.next s + 1 <= U64_MAX ->
  now + t <= U64_MAX ->
  exists s', Session.begin s owner now t = Ok (Session.next s + 1, s') /\ Session.session_ok s' /\
    Session.in_flight s' = {[Session.next s + 1 := (now + t, owner)]}.
Proof.
  intros Hs He Hn Ht. pose proof (Session.begin_map s owner now t Hs) as H.
  destruct (Session.begin s owner now t) as [[id s']|e] eqn:E.
  - destruct H as (Hs' & -> & _ & Hm). exists s'. split_and!; [done|done|]. by rewrite Hm, He, insert_empty.
  - destruct H as (_ & [H|[H|H]]); [|lia..]. rewrite He, map_size_empty in H. done.
Qed.

Lemma start_next_call a c cs now out :
  Session.session_ok (a_pending a) -> Session.in_flight (a_pending a) = ∅ ->
  Session.next (a_pending a) + 1 <= U64_MAX -> init_time now -> a_running a = false ->
  a_startup a = rev (c :: cs) -> Z.of_nat (length out) < MAX_OUTBOX ->
  exists a', start_next a now out
      = (Ok (out ++ [call_frame (Session.next (a_pending a) + 1) c]), a')
    /\ initialising a' (Session.next (a_pending a) + 1) cs.
Proof.
  intros Hs He Hn [Ht0 Ht] Hr Hst Ho. unfold start_next. rewrite Hst. cbn [rev].
  rewrite last_snoc, removelast_last. destruct c as [m p].
  destruct (begin_some (a_pending a) 0 now 30000 Hs He Hn Ht) as (s' & Hb & Hs' & Hf).
  cbn [set_phase set_startup a_pending]. rewrite Hb. unfold request, push.
  cbn [mbind result_bind]. destruct (Z.leb_spec MAX_OUTBOX (Z.of_nat (length out))); [lia|].
  pose proof (Session.ok_next _ Hs) as [Hn0 _].
  destruct (Z.eqb_spec (Session.next (a_pending a) + 1) 0); [lia|].
  eexists. split; [done|]. apply Session.begin_Ok in Hb as (_ & Hb & _).
  constructor; cbn; [done|by eexists|done|done|done].
Qed.

(** One answer of the initialisation. *)
Lemma init_step a id cs v t :
  initialising a id cs -> id + 1 <= U64_MAX -> init_time t ->
  match cs with
  | c :: cs => exists a', app_reply a (mk_frame Response id v) t [] = (Ok (None, [call_frame (id + 1) c]), a')
      /\ initialising a' (id + 1) cs
  | [] => exists a', app_reply a (mk_frame Response id v) t [] = (Ok (None, []), a')
      /\ a_running a' = true /\ a_initializing a' = false
  end.
Proof.
  intros [Hs [d Hf] Hn Hst Hr] Hid Ht. unfold app_reply. cbn [f_id f_kind].
  destruct (Session.complete (a_pending a) id) as [o s] eqn:Ec.
  pose proof (Session.complete_next _ _ _ _ Ec) as Hn'.
  apply Session.complete_map in Ec as (Hs' & -> & He); [|done].
  rewrite Hf, lookup_singleton_eq. cbn [fmap option_fmap option_map snd Z.eqb].
  rewrite bool_decide_eq_false_2 by done.
  assert (Session.in_flight s = ∅) as Hempty by (rewrite He, Hf; apply delete_singleton_eq).
  destruct cs as [|c cs].
  - unfold start_next. cbn [set_pending a_startup]. rewrite Hst. cbn. eexists. split_and!; done.
  - pose proof (start_next_call (set_pending a s) c cs t [] Hs' Hempty) as HN.
    cbn [set_pending a_pending a_running a_startup] in HN. rewrite Hn', Hn in HN.
    destruct (HN ltac:(lia) Ht Hr Hst ltac:(done)) as (a' & -> & Ha'). by exists a'.
Qed.

Lemma init_run_spec answers : forall a id cs,
  initialising a id cs -> id + Z.of_nat (length answers) <= U64_MAX ->
  Forall (fun vt => init_time vt.2) answers -> (length answers <= S (length cs))%nat ->
  exists a', init_run a id answers = Some (call_frames (id + 1) (take (length answers) cs), a')
    /\ a_running a' = (length answers =? S (length cs))%nat.
Proof.
  induction answers as [|[v t] answers IH]; intros a id cs Ha Hid HF Hl.
  - exists a. split; [done|]. apply Ha.
  - cbn [length] in *. apply Forall_cons in HF as [Ht HF]. cbn [snd] in Ht.
    pose proof (init_step a id cs v t Ha ltac:(lia) Ht) as HS. cbn [init_run].
    destruct cs as [|c cs].
    + destruct HS as (a' & -> & Hr & _). destruct answers; [|cbn in Hl; lia]. cbn. by exists a'.
    + destruct HS as (a' & -> & Ha'). destruct (IH a' (id + 1) cs Ha' ltac:(lia) HF ltac:(cbn in Hl; lia))
        as (a2 & -> & Hr). exists a2. split; [done|]. by rewrite Hr.
Qed.

Section Hello.
Context {St : Type} {HS : Storage St}.

(** The calls of the initialisation, in order. *)
Definition init_calls (a : App) (s : Store St) : list (string * Value) :=
  ("app.init"%string, object) :: flat_map (fun d => [driver_init d; device_init d]) (own_devices a s).

Lemma startup_calls_Ok ds : forall known calls calls' known',
  startup_calls ds known calls = (Ok calls', known') ->
  calls' = calls ++ flat_map (fun d => [driver_init d; device_init d]) ds.
Proof.
  induction ds as [|d ds IH]; intros known calls calls' known'; cbn [startup_calls flat_map].
  - intros [= <- _]. by rewrite app_nil_r.
  - destruct (push known _ _) as [k|]; [|done].
    destruct (push calls (driver_init d) MAX_STARTUP) as [c1|] eqn:E1; cbn [mbind result_bind]; [|done].
    destruct (push c1 (device_init d) MAX_STARTUP) as [c2|] eqn:E2; [|done].
    apply push_Ok in E1 as [_ ->], E2 as [_ ->]. intros H. rewrite (IH _ _ _ _ H).
    by rewrite <- !app_assoc.
Qed.

Lemma startup_calls_bound ds : forall known calls calls' known',
  startup_calls ds known calls = (Ok calls', known') -> Z.of_nat (length calls) <= MAX_STARTUP ->
  Z.of_nat (length calls') <= MAX_STARTUP.
Proof.
  induction ds as [|d ds IH]; intros known calls calls' known'; cbn [startup_calls]; [by intros [= <- _]|].
  destruct (push known _ _) as [k|]; [|done].
  destruct (push calls (driver_init d) MAX_STARTUP) as [c1|] eqn:E1; cbn [mbind result_bind]; [|done].
  destruct (push c1 (device_init d) MAX_STARTUP) as [c2|] eqn:E2; [|done].
  intros H Hl. eapply IH; [exact H|]. apply push_Ok in E1 as [_ ->], E2 as [H2 ->].
  rewrite !length_app in *. cbn in *. lia.
Qed.

Lemma prepare_startup_Ok a (s : Store St) a' :
  prepare_startup a s = (Ok tt, a') ->
  a_startup a' = rev (init_calls a s) /\ Z.of_nat (length (init_calls a s)) <= MAX_STARTUP /\
  a_pending a' = a_pending a /\ a_running a' = a_running a.
Proof.
  unfold prepare_startup. destruct (push [] _ _) as [c|] eqn:E; [|done]. cbn in E. injection E as <-.
  destruct (startup_calls _ _ _) as [[calls|] known] eqn:Ec; [|done]. intros [= <-].
  pose proof (startup_calls_bound _ _ _ _ _ Ec ltac:(unfold MAX_STARTUP; cbn; lia)) as Hb.
  apply startup_calls_Ok in Ec as ->. done.
Qed.

(** An accepted greeting sends the first call. *)
Lemma hello_starts id m a (s : Store St) hello now_ms now nid r a1 s1 :
  App_new id m = Ok a -> f_kind hello = Request -> method hello = "hello"%string -> init_time now_ms ->
  receive a hello now_ms now nid s = (Ok r, a1, s1) -> a_welcomed a1 = true ->
  exists resp, r_outgoing r = [resp; call_frame 1 ("app.init"%string, object)]
    /\ initialising a1 1 (tail (init_calls a s)) /\ Z.of_nat (length (init_calls a s)) <= MAX_STARTUP.
Proof.
  intros Hn Hk Hm Ht H Hw. destruct (App_new_ok _ _ _ Hn) as [[Hs _ Hsil] _].
  unfold App_new in Hn. destruct (Manifest.validate m); [cbn [mbind result_bind] in Hn|done].
  destruct (negb _); [done|]. injection Hn as <-. destruct (Hsil eq_refl) as (_ & _ & Hempty).
  unfold receive in H. rewrite Hk, !(bool_decide_eq_false_2 (Request = _)), bool_decide_eq_true_2 in H by done.
  cbn [orb negb] in H. rewrite Hm in H.
  change (("hello" =? "hello")%string && negb (a_welcomed (mk_run id m false false [] Session.Session_new 0 []
    false [] false))) with true in H.
  set (a := mk_run id m false false [] Session.Session_new 0 [] false [] false) in *.
  destruct (app_request a hello now_ms now nid [] s) as [[outcome a2] s2] eqn:E.
  destruct (answer_shape (f_id hello) (match outcome with Ok (v, _) => Ok v | Err e => Err e end))
    as (resp & Hr & _). rewrite Hr in H. cbn [mbind result_bind] in H.
  unfold app_request in E. rewrite Hm in E. cbn [String.eqb Ascii.eqb Bool.eqb] in E.
  change (a_welcomed a) with false in E. cbv iota in E.
  destruct (negb (uint _ _ =? 1)).
  { injection E as <- <- <-. cbn in H. by injection H as _ <-. }
  destruct (welcome a s) as [w|].
  2:{ injection E as <- <- <-. cbn in H. by injection H as _ <-. }
  destruct (prepare_startup a s) as [[[]|e] a3] eqn:Ep.
  2:{ injection E as <- <- <-. cbn in H. injection H as _ <-. cbn in Hw. unfold prepare_startup in Ep.
      destruct (push _ _ _); [|by injection Ep as _ <-].
      destruct (startup_calls _ _ _) as [[|] known]; injection Ep as _ <-; done. }
  injection E as <- <- <-. destruct (prepare_startup_Ok _ _ _ Ep) as (Hst & Hb & Hp & Hrun).
  cbn [is_ok andb] in H. change (push [] resp MAX_OUTBOX) with (Ok (E := Error) [resp]) in H.
  cbv iota beta in H. unfold init_calls in Hst.
  pose proof (start_next_call (set_welcomed a3 true) ("app.init"%string, object)
    (tail (init_calls a s)) now_ms [resp]) as HN.
  cbn [set_welcomed a_pending a_startup a_running] in HN. rewrite Hp in HN.
  destruct (HN Hs Hempty ltac:(vm_compute; discriminate) Ht Hrun Hst ltac:(done)) as (a4 & HE & Ha4).
  rewrite HE in H. injection H as <- <- _. exists resp. split; [done|]. split; [|done].
  destruct Ha4 as [I1 I2 I3 I4 I5]. by constructor.
Qed.

(** C12: Initialisation in order.  After the greeting of a new app was accepted, the app
    receives [app.init] and then, for every one of its devices in the order of the
    document, [driver.init] and [device.init]: one call at a time, the next one after the
    answer to the one before, numbered without gaps.  The app is running exactly when all
    calls were answered, and not before. *)
Theorem initialisation_in_order id m a (s : Store St) hello now_ms now nid r a1 s1 answers k :
  App_new id m = Ok a -> f_kind hello = Request -> method hello = "hello"%string -> init_time now_ms ->
  receive a hello now_ms now nid s = (Ok r, a1, s1) -> a_welcomed a1 = true ->
  Forall (fun vt => init_time vt.2) answers -> length answers = length (init_calls a s) ->
  (k <= length answers)%nat ->
  (exists resp, r_outgoing r = [resp; call_frame 1 ("app.init"%string, object)]) /\
  exists a', init_run a1 1 (take k answers)
      = Some (call_frames 2 (take k (tail (init_calls a s))), a')
    /\ a_running a' = (k =? length answers)%nat.
Proof.
  intros Hn Hk Hm Ht H Hw HF Hl Hkl.
  destruct (hello_starts _ _ _ _ _ _ _ _ _ _ _ Hn Hk Hm Ht H Hw) as (resp & Hout & Hi & Hb).
  split; [by exists resp|].
  destruct (init_run_spec (take k answers) a1 1 (tail (init_calls a s)) Hi) as (a' & HR & Hrun).
  - rewrite length_take. unfold MAX_STARTUP, U64_MAX in *. lia.
  - by apply Forall_take.
  - rewrite length_take. unfold init_calls in *. cbn [tail length] in *. lia.
  - rewrite length_take, Nat.min_l in HR, Hrun by lia. exists a'. split; [exact HR|].
    rewrite Hrun, Hl. done.
Qed.
End Hello.

(** ** Following the store *)

Section Following.
Context {St : Type} {HS : Storage St}.

(** The state of the device [id], for the app: [None] when the device is gone. *)
Definition state_frame (id : string) (dev : option Value) : Value :=
  fields [("t", VString "ev"); ("id", value_uint 0); ("m", VString "state.device");
          ("p", fields [("deviceId", VString id); ("device", default VNull dev)])].

Definition settings_frame (a : App) (s : Store St) : Value :=
  fields [("t", VString "ev"); ("id", value_uint 0); ("m", VString "state.settings");
          ("p", app_field s "appSettings" (a_id a))].

(** What one event makes the app hear, [known] the devices it was told of before. *)
Definition tells (a : App) (s : Store St) (known : list string) (e : Store.Event) : list Value :=
  (if (ev_manager e =? "apps")%string && (ev_kind e =? "app.settings")%string && (ev_id e =? a_id a)%string
   then [settings_frame a s] else []) ++
  (if (ev_manager e =? "devices")%string then
     match device (ev_id e) s with
     | Ok dev => if is_own a dev then [state_frame (ev_id e) (Some dev)] else []
     | Err _ => if existsb (String.eqb (ev_id e)) known then [state_frame (ev_id e) None] else []
     end
   else []).

(** The devices the app knows after the event. *)
Definition knows (a : App) (s : Store St) (known : list string) (e : Store.Event) : list string :=
  if (ev_manager e =? "devices")%string then
    match device (ev_id e) s with
    | Ok dev => if is_own a dev && negb (existsb (String.eqb (ev_id e)) known)
                then known ++ [ev_id e] else known
    | Err _ => List.filter (fun id => negb (id =? ev_id e)%string) known
    end
  else known.

Fixpoint tells_all (a : App) (s : Store St) (known : list string) (es : list Store.Event) : list Value :=
  match es with
  | [] => []
  | e :: es => tells a s known e ++ tells_all a s (knows a s known e) es
  end.

Definition knows_all (a : App) (s : Store St) (known : list string) (es : list Store.Event) : list string :=
  fold_left (knows a s) es known.

Lemma follow_settings_Ok a e (s : Store St) out out' :
  follow_settings a e s out = Ok out' ->
  out' = out ++ (if (ev_manager e =? "apps")%string && (ev_kind e =? "app.settings")%string
                    && (ev_id e =? a_id a)%string then [settings_frame a s] else []).
Proof.
  unfold follow_settings, request. destruct (_ && _); cbn [mbind result_bind].
  - by intros [_ ->]%push_Ok.
  - intros [= <-]. by rewrite app_nil_r.
Qed.

Lemma new_device_Ok a id dev u a' :
  new_device a id dev = (Ok u, a') ->
  a_known a' = a_known a ++ [id] /\ a_id a' = a_id a /\ a_initializing a' = a_initializing a.
Proof.
  unfold new_device. destruct (push (a_known a) id 4096) as [k|] eqn:E; [|done].
  apply push_Ok in E as [_ ->]. destruct (_ <? _); [done|].
  destruct (set _ _ _); [|done]. by intros [= <- <-].
Qed.

Lemma follow_event_Ok a e (s : Store St) out out' a' :
  follow_event a e s out = (Ok out', a') ->
  out' = out ++ tells a s (a_known a) e /\ a_known a' = knows a s (a_known a) e /\ a_id a' = a_id a.
Proof.
  unfold follow_event, tells, knows. destruct (follow_settings a e s out) as [o|] eqn:Es; [|done].
  apply follow_settings_Ok in Es as ->. destruct (ev_manager e =? "devices")%string; cbn [negb].
  2:{ intros [= <- <-]. by rewrite app_nil_r. }
  unfold follow_device. destruct (device (ev_id e) s) as [dev|er].
  - destruct (is_own a dev) eqn:Ho; cbn [andb].
    2:{ intros [= <- <-]. by rewrite app_nil_r. }
    unfold device_frame, request. cbn [mbind result_bind Z.eqb].
    destruct (push _ _ MAX_OUTBOX) as [o|] eqn:Ep; [|done]. apply push_Ok in Ep as [_ ->].
    destruct (existsb _ _); cbn [negb].
    + intros [= <- <-]. by rewrite <- app_assoc.
    + destruct (new_device a (ev_id e) dev) as [[u|] a1] eqn:En; [|done]. intros [= <- <-].
      apply new_device_Ok in En as (-> & -> & _). by rewrite <- app_assoc.
  - destruct er; try done. destruct (existsb _ _) eqn:Ek.
    + unfold device_frame, request. cbn [mbind result_bind Z.eqb].
      destruct (push _ _ MAX_OUTBOX) as [o|] eqn:Ep; [|done]. apply push_Ok in Ep as [_ ->].
      intros [= <- <-]. by rewrite <- app_assoc.
    + intros [= <- <-]. rewrite app_nil_r. split_and!; [done| |done].
      induction (a_known a) as [|k ks IH]; [done|]. cbn in *. apply orb_false_iff in Ek as [E1 E2].
      rewrite String.eqb_sym in E1. rewrite E1. cbn. by rewrite <- IH.
Qed.

(** [tells] and [knows] depend on the app only through its name. *)
Lemma tells_id a a' (s : Store St) known e : a_id a' = a_id a -> tells a' s known e = tells a s known e.
Proof. intros H. unfold tells, settings_frame, is_own. by rewrite H. Qed.

Lemma knows_id a a' (s : Store St) known e : a_id a' = a_id a -> knows a' s known e = knows a s known e.
Proof. intros H. unfold knows, is_own. by rewrite H. Qed.

Lemma tells_all_id a a' (s : Store St) es : a_id a' = a_id a -> forall known,
  tells_all a' s known es = tells_all a s known es.
Proof. intros H. induction es as [|e es IH]; intros k; cbn; [done|]. by rewrite (tells_id a), (knows_id a), IH. Qed.

Lemma knows_all_id a a' (s : Store St) es : a_id a' = a_id a -> forall known,
  knows_all a' s known es = knows_all a s known es.
Proof. intros H. unfold knows_all. induction es as [|e es IH]; intros k; cbn; [done|]. by rewrite (knows_id a), IH. Qed.

Lemma follow_events_Ok es : forall a (s : Store St) out out' a',
  follow_events a es s out = (Ok out', a') ->
  out' = out ++ tells_all a s (a_known a) es /\ a_known a' = knows_all a s (a_known a) es.
Proof.
  induction es as [|e es IH]; intros a s out out' a'; cbn [follow_events tells_all].
  - intros [= <- <-]. by rewrite app_nil_r.
  - destruct (follow_event a e s out) as [[o|] a1] eqn:E; [|done].
    apply follow_event_Ok in E as (-> & Hk & Hi). intros [-> ->]%IH.
    rewrite Hk, <- app_assoc, (tells_all_id a a1), (knows_all_id a a1) by done. done.
Qed.

Lemma tells_all_elem a (s : Store St) e es : e ∈ es -> forall known,
  exists known', forall f, f ∈ tells a s known' e -> f ∈ tells_all a s known es.
Proof.
  induction 1 as [e es|e e' es _ IH]; intros known; cbn.
  - exists known. set_solver.
  - destruct (IH (knows a s known e')) as [k Hk]. exists k. set_solver.
Qed.

Lemma follow_events_pending es : forall a (s : Store St) out r a',
  follow_events a es s out = (r, a') -> a_pending a' = a_pending a.
Proof.
  induction es as [|e es IH]; intros a s o r a'; cbn; [by intros [= _ <-]|].
  destruct (follow_event a e s o) as [r1 a1] eqn:E.
  assert (a_pending a1 = a_pending a) as <-.
  { unfold follow_event, new_device in E. repeat case_match; simplify_eq; done. }
  destruct r1; [apply IH|by intros [= _ <-]].
Qed.

Lemma start_optional (b : bool) a now out out' a' :
  Session.session_ok (a_pending a) -> (if b then start_next a now out else (Ok out, a)) = (Ok out', a') ->
  exists calls, out' = out ++ calls /\ (length calls <= 1)%nat
    /\ Forall (fun q => text q "t" = "req"%string) calls.
Proof.
  intros Hs. destruct b.
  - intros H. destruct (start_next_out _ _ _ _ _ Hs H) as [->|(q & -> & Hq)].
    + exists []. rewrite app_nil_r. split_and!; [done|cbn; lia|done].
    + exists [q]. split_and!; [done|cbn; lia|by apply Forall_singleton].
  - intros [= <- _]. exists []. rewrite app_nil_r. split_and!; [done|cbn; lia|done].
Qed.

(** C11: Following the store.  What [follow] sends to a greeted app is, in the order of the
    events since the last time, exactly one frame for every change of one of its devices
    and of its own settings, each with the state of now, a final empty one for a device
    that is gone, and at most one initialisation call for a new device; never anything
    about a device of another app.  Afterwards the app is up to date with the store. *)
Theorem follow_tells_every_change a (s : Store St) now es out a' :
  Session.session_ok (a_pending a) -> a_welcomed a = true ->
  events_after (a_cursor a) s = Ok es -> follow a s now = (Ok out, a') ->
  a_cursor a' = sequence s
  /\ (exists calls, out = tells_all a s (a_known a) es ++ calls /\ (length calls <= 1)%nat
        /\ Forall (fun q => text q "t" = "req"%string) calls)
  /\ (forall e dev, e ∈ es -> ev_manager e = "devices"%string -> device (ev_id e) s = Ok dev ->
        text dev "appId" = a_id a -> state_frame (ev_id e) (Some dev) ∈ out).
Proof.
  intros Hs Hw He. unfold follow. rewrite Hw, He. cbn [negb].
  destruct (follow_events a es s []) as [[o|] a1] eqn:Ef; [|done].
  rewrite <- (follow_events_pending _ _ _ _ _ _ Ef) in Hs.
  apply follow_events_Ok in Ef as [-> _]. cbn [app].
  match goal with |- match ?x with _ => _ end = _ -> _ => destruct x as [[o|] a2] eqn:En; [|done] end.
  intros [= <- <-]. apply start_optional in En as (calls & -> & Hl & Hc); [|done].
  split_and!; [done|by exists calls|].
  intros e dev Hel Hm Hd Ho. destruct (tells_all_elem a s e es Hel (a_known a)) as [k Hk].
  apply elem_of_app. left. apply Hk. unfold tells. rewrite Hm, Hd. cbn [String.eqb Ascii.eqb Bool.eqb].
  unfold is_own. rewrite Ho, String.eqb_refl. set_solver.
Qed.
End Following.

(** ** A connection that follows a lamp *)

Lemma initialisation_in_order_witness :
  exists r a1 s1 a', receive sample_app hello_frame 0 "2024-01-01T00:00:00Z" "n" sample = (Ok r, a1, s1)
    /\ length (init_calls sample_app sample) = 3%nat
    /\ init_run a1 1 (repeat (VNull, 5) 3) = Some (call_frames 2 (tail (init_calls sample_app sample)), a')
    /\ a_running a' = true.
Proof.
  destruct (receive sample_app hello_frame 0 "2024-01-01T00:00:00Z" "n" sample) as [[[r|e] a1] s1] eqn:E;
    [|vm_compute in E; discriminate E].
  destruct (initialisation_in_order "hue" sample_manifest sample_app sample hello_frame 0 "2024-01-01T00:00:00Z" "n"
    r a1 s1 (repeat (VNull, 5) 3) 3) as [_ (a' & HR & Hrun)].
  - vm_compute. reflexivity.
  - reflexivity.
  - vm_compute. reflexivity.
  - split; vm_compute; discriminate.
  - exact E.
  - vm_compute in E. injection E as _ <- _. reflexivity.
  - repeat constructor; vm_compute; discriminate.
  - vm_compute. reflexivity.
  - cbn. lia.
  - exists r, a1, s1, a'. split; [reflexivity|]. split; [vm_compute; reflexivity|].
    split; [exact HR|exact Hrun].
Defined.

Lemma greeted_ok : app_ok greeted.
Proof.
  destruct (receive sample_app hello_frame 0 "2024-01-01T00:00:00Z" "n" sample) as [[r a] s] eqn:E.
  assert (a = greeted) as <- by (vm_compute in E; by injection E as _ <- _).
  eapply receive_ok; [|exact E]. apply (App_new_ok "hue" sample_manifest). vm_compute. reflexivity.
Qed.

(** The lamp is observed to be on; the app, greeted before, hears of it. *)
Lemma follow_tells_every_change_witness :
  exists s' out a' dev, run_op (OpObserve "hue" "lamp" (json_of "{'onoff':true}") true "") sample = (Ok tt, s')
    /\ device "lamp" s' = Ok dev /\ follow greeted s' 7 = (Ok out, a')
    /\ a_cursor a' = sequence s' /\ sequence s' <> 0 /\ state_frame "lamp" (Some dev) ∈ out.
Proof.
  destruct (run_op (OpObserve "hue" "lamp" (json_of "{'onoff':true}") true "") sample) as [[[]|e] s'] eqn:Eo;
    [|vm_compute in Eo; discriminate Eo].
  destruct (events_after (a_cursor greeted) s') as [es|] eqn:Ee;
    [|vm_compute in Eo; injection Eo as <-; vm_compute in Ee; discriminate Ee].
  destruct (follow greeted s' 7) as [[out|] a'] eqn:Ef;
    [|vm_compute in Eo; injection Eo as <-; vm_compute in Ef; discriminate Ef].
  destruct (device "lamp" s') as [dev|] eqn:Ed;
    [|vm_compute in Eo; injection Eo as <-; vm_compute in Ed; discriminate Ed].
  destruct (follow_tells_every_change greeted s' 7 es out a') as (Hc & _ & Hall).
  - exact (ao_session _ greeted_ok).
  - reflexivity.
  - exact Ee.
  - exact Ef.
  - exists s', out, a', dev. split; [reflexivity|]. split; [exact Ed|]. split; [exact Ef|].
    split; [exact Hc|]. vm_compute in Eo. injection Eo as <-. split; [vm_compute; discriminate|].
    destruct es as [|e es]; [vm_compute in Ee; discriminate Ee|].
    pose proof (Hall e dev (list_elem_of_here _ _)) as He. clear Hall. vm_compute in Ee.
    injection Ee as <- _. vm_compute in Ed. injection Ed as <-.
    apply He; vm_compute; reflexivity.
Defined.
