(* ===== verification/SceneRun.v ===== *)
(** * SceneRun: one execution of a scene

    Models [crates/runtime/src/scenes.rs]: [start] reads the current values, makes the plan
    and stores the baseline before the first command; [next_group] hands out the commands of
    one device at a time; [complete] and [cancel] settle plans; [finish] stores what is left
    to restore and reports.  An operation that may fail after it changed some plans returns
    the scene next to its result. *)

From Stdlib Require Import ZArith Lia Ascii String Sorted Permutation.
From stdpp Require Import gmap.
From S2P Require Import Prelude Text Errors Slots Float Value Document Stats Scenes Store StoreDoc StoreInv StoreDocOps StoreOk StoreProps MutationsOk.

Local Open Scope Z_scope.

Definition MAX_STATES : Z := 256.

Record Plan : Type := mk_plan { p_state : Value; p_result : option Value; p_sent : bool }.

Record Scene : Type := mk_scene {
  sc_definition : Value;
  sc_plans : list Plan;
  sc_first : bool;
  sc_on : bool;
  sc_momentary : bool
}.

Definition set_plans (sc : Scene) (x : list Plan) : Scene :=
  mk_scene (sc_definition sc) x (sc_first sc) (sc_on sc) (sc_momentary sc).

Definition key (a b : Value) : bool :=
  (text a "deviceId" =? text b "deviceId")%string && (text a "capabilityId" =? text b "capabilityId")%string.

(** [result]: the report of one state. *)
Definition result (state : Value) (error : option string) (unchanged : bool) : Result Value :=
  r ← set state "success" (VBool (bool_decide (error = None)));
  r ← match error with Some e => set r "error" (VString e) | None => Ok r end;
  if unchanged then set r "unchanged" (VBool true) else Ok r.

(** The states an execution works through. *)
Definition wanted_states (definition : Value) (on active : bool) : list Value :=
  if on then array definition "states"
  else if active then array definition "previous" else [].

Section WithStore.
Context {St : Type} {HS : Storage St}.

(** The present value of a wanted state, when its device reports one. *)
Definition present (s : Store St) (wanted : Value) : option Value :=
  match device (text wanted "deviceId") s with
  | Ok d => match get (get_null d "state") (text wanted "capabilityId") with
            | Some v => if is_null v then None else Some v
            | None => None
            end
  | Err _ => None
  end.

(** The first loop of [start]: the present values and, for an activation, the baseline. *)
Fixpoint read_states (s : Store St) (keep : bool) (states : list Value)
    (current : list (option Value)) (previous : list Value) : Result (list (option Value) * list Value) :=
  match states with
  | [] => Ok (current, previous)
  | wanted :: states =>
      let value := present s wanted in
      previous ← match value with
                 | Some v => if keep then prior ← set wanted "value" v; push previous prior MAX_STATES
                             else Ok previous
                 | None => Ok previous
                 end;
      current ← push current value MAX_STATES;
      read_states s keep states current previous
  end.

(** What is already decided about a wanted state before anything is sent. *)
Definition outcome (definition wanted : Value) (current : option Value) (guarded : bool)
  : Result (option Value) :=
  if match current with Some v => Scenes.same v (get_null wanted "value") | None => false end
  then r ← result wanted None true; Ok (Some r)
  else if guarded && negb (existsb (fun p => key p wanted) (array definition "previous"))
  then r ← result wanted (Some "current or stored restore value is unavailable"%string) false; Ok (Some r)
  else Ok None.

(** The second loop; [index] numbers the states. *)
Fixpoint make_plans (definition : Value) (guarded : bool) (current : list (option Value)) (index : nat)
    (states : list Value) (plans : list Plan) : Result (list Plan) :=
  match states with
  | [] => Ok plans
  | wanted :: states =>
      o ← outcome definition wanted (default None (current !! index)) guarded;
      plans ← push plans (mk_plan wanted o false) MAX_STATES;
      make_plans definition guarded current (S index) states plans
  end.

(** What [start] computes before it stores the baseline. *)
Definition prepare (s : Store St) (id : string) (on : bool) : Result (Scene * list Value) :=
  definition ← record (document s) "scenes" (trim id);
  let momentary := (text definition "kind" =? "button")%string in
  if momentary && negb on then Err (Invalid "button scene cannot be turned off") else
  let active := boolean definition "active" in
  '(current, previous) ← read_states s (on && negb momentary) (wanted_states definition on active) [] [];
  let first := on && negb momentary && negb active in
  definition ← (if first then set definition "previous" (VArray previous) else Ok definition);
  plans ← make_plans definition (on && negb momentary) current 0 (wanted_states definition on active) [];
  baseline ← (if first then push_all (fun p => Ok p) MAX_STATES (array definition "previous") []
              else Ok []);
  Ok (mk_scene definition plans first on momentary, baseline).

Definition start (id : string) (on : bool) : M (St := St) Scene :=
  let* s := getM in
  let* (sc, baseline) := liftR (prepare s id on) in
  if sc_first sc then let* _ := begin_scene (trim id) baseline in retM sc else retM sc.
End WithStore.

Definition id (sc : Scene) : string := text (sc_definition sc) "id".

Definition is_open (p : Plan) : bool := bool_decide (p_result p = None).
Definition of_device (device : string) (p : Plan) : bool := (text (p_state p) "deviceId" =? device)%string.

(** Switching on comes first and switching off last. *)
Definition priority (state : Value) : Z :=
  if (before_first "."%char (text state "capabilityId") =? "onoff")%string then
    match as_bool (get_null state "value") with Some true => 0 | Some false => 2 | None => 1 end
  else 1.

(** [sort_unstable_by_key(|i| (priority, *i))]: the indices come in increasing order, so
    sorting by priority alone, stable, is the same. *)
Fixpoint insert_command (c : nat * Value) (l : list (nat * Value)) : list (nat * Value) :=
  match l with
  | [] => [c]
  | d :: l' => if (priority c.2 <? priority d.2)
                  || ((priority c.2 =? priority d.2) && (c.1 <=? d.1)%nat)
               then c :: d :: l' else d :: insert_command c l'
  end.
Definition sort_commands (l : list (nat * Value)) : list (nat * Value) := fold_right insert_command [] l.

(** The open plans of a device with their indices. *)
Definition group_of (device : string) (plans : list Plan) : list (nat * Value) :=
  map (fun ip => (ip.1, p_state ip.2))
    (List.filter (fun ip => is_open ip.2 && of_device device ip.2) (imap pair plans)).

Definition command (state : Value) : Value :=
  fields [("capability", VString (text state "capabilityId")); ("value", get_null state "value")].

Definition mark_sent (device : string) (p : Plan) : Plan :=
  if is_open p && of_device device p then mk_plan (p_state p) (p_result p) true else p.

Definition next_group (sc : Scene) : Result (option (string * Value)) * Scene :=
  match find (fun p => is_open p && negb (p_sent p)) (sc_plans sc) with
  | None => (Ok None, sc)
  | Some plan =>
      let device := text (p_state plan) "deviceId" in
      match (indices ← push_all (fun i => Ok i) MAX_STATES (group_of device (sc_plans sc)) [];
             push_all (fun c => Ok (command c.2)) MAX_STATES (sort_commands indices) []) with
      | Err e => (Err e, sc)
      | Ok commands =>
          (Ok (Some (device, fields [("deviceId", VString device); ("commands", VArray commands);
                                     ("options", object)])),
           set_plans sc (map (mark_sent device) (sc_plans sc)))
      end
  end.

(** Gives every plan [which] selects the result [error] decides. *)
Fixpoint settle (which : Plan -> bool) (error : Plan -> option string) (plans : list Plan)
  : Result unit * list Plan :=
  match plans with
  | [] => (Ok tt, [])
  | p :: plans =>
      if which p then
        match result (p_state p) (error p) false with
        | Err e => (Err e, p :: plans)
        | Ok r => let '(res, l) := settle which error plans in
                  (res, mk_plan (p_state p) (Some r) (p_sent p) :: l)
        end
      else let '(res, l) := settle which error plans in (res, p :: l)
  end.

(** The error of one capability: that of the whole group, or its own. *)
Definition plan_error (errors : Value) (failure : option string) (p : Plan) : option string :=
  match failure with
  | Some f => Some f
  | None => match get errors (text (p_state p) "capabilityId") ≫= as_str with
            | Some e => if is_empty e then None else Some e
            | None => None
            end
  end.

Definition complete (device : string) (errors : Value) (failure : option string) (sc : Scene)
  : Result unit * Scene :=
  let '(r, l) := settle (fun p => is_open p && p_sent p && of_device device p)
                        (plan_error errors failure) (sc_plans sc) in
  (r, set_plans sc l).

Definition cancel (sc : Scene) : Result unit * Scene :=
  let '(r, l) := settle is_open (fun _ => Some "scene execution timed out"%string) (sc_plans sc) in
  (r, set_plans sc l).

Definition done (sc : Scene) : bool := forallb (fun p => negb (is_open p)) (sc_plans sc).

(** Whether the state with the key of [before] was carried out. *)
Definition achieved (sc : Scene) (before : Value) : bool :=
  match find (fun p => key (p_state p) before) (sc_plans sc) with
  | Some p => match p_result p with Some r => boolean r "success" | None => false end
  | None => false
  end.

(** What is still to be restored afterwards. *)
Definition retained (sc : Scene) : list Value :=
  List.filter (fun before => Bool.eqb (achieved sc before) (sc_on sc)) (array (sc_definition sc) "previous").

Section Finish.
Context {St : Type} {HS : Storage St}.

(** The results in order and how many succeeded. *)
Fixpoint outcomes (plans : list Plan) (states : list Value) (succeeded : Z) : Result (list Value * Z) :=
  match plans with
  | [] => Ok (states, succeeded)
  | p :: plans =>
      r ← ok_or (p_result p) (Missing "scene outcome missing");
      let succeeded := if boolean r "success" then succeeded + 1 else succeeded in
      states ← push states r MAX_STATES;
      outcomes plans states succeeded
  end.

Definition report (sc : Scene) (states : list Value) (succeeded : Z) (active : bool) : Result Value :=
  let count := Z.of_nat (length (sc_plans sc)) in
  let success := (succeeded =? count) && (sc_momentary sc || Bool.eqb active (sc_on sc)) in
  let out := fields [("sceneId", VString (id sc)); ("sceneName", VString (text (sc_definition sc) "name"));
                     ("requestedOn", VBool (sc_on sc)); ("active", VBool active);
                     ("success", VBool success); ("attempted", value_uint count);
                     ("succeeded", value_uint succeeded); ("failed", value_uint (count - succeeded));
                     ("states", VArray states)] in
  if sc_momentary sc then set out "momentary" (VBool true) else Ok out.

Definition finish (sc : Scene) : M (St := St) Value :=
  if negb (done sc) then liftR (Err (Conflict "scene still has pending commands")) else
  let* (states, succeeded) := liftR (outcomes (sc_plans sc) [] 0) in
  let* _ := (if negb (sc_momentary sc)
                && (sc_first sc || (negb (sc_on sc) && boolean (sc_definition sc) "active"))
             then let* l := liftR (push_all (fun v => Ok v) MAX_STATES (retained sc) []) in
                  scene_remaining (id sc) l
             else retM tt) in
  let* s := getM in
  let* scene := liftR (record (document s) "scenes" (id sc)) in
  liftR (report sc states succeeded (boolean scene "active")).
End Finish.

(** * SceneRunOk: what one execution of a scene guarantees

    Nothing is sent whose old value is not durably stored; every device is asked at most
    once, with all its open states in the right order, and in the end every open state was
    sent; afterwards the scene holds exactly what is still to be restored. *)

(** ** Starting *)

Section Start.
Context {St : Type} {HS : Storage St}.

(** The baseline of one wanted state. *)
Definition prior (s : Store St) (wanted : Value) : option Value :=
  v ← present s wanted; res_ok (set wanted "value" v).

Lemma read_states_Ok (s : Store St) keep states : forall cur prev cur' prev',
  read_states s keep states cur prev = Ok (cur', prev') ->
  (keep = true -> prev' = prev ++ omap (prior s) states /\
     Forall (fun w => is_Some (present s w) -> is_Some (prior s w)) states).
Proof.
  induction states as [|w states IH]; intros cur prev cur' prev'; cbn [read_states].
  - intros [= _ <-] _. by rewrite app_nil_r.
  - intros H ->. unfold prior at 1. cbn [omap list_omap]. unfold prior at 1.
    destruct (present s w) as [v|] eqn:E.
    + destruct (set w "value" v) as [p|] eqn:Es; cbn [mbind result_bind] in H; [|done].
      destruct (push prev p MAX_STATES) as [pr|] eqn:Ep; cbn [mbind result_bind] in H; [|done].
      destruct (push cur (Some v) MAX_STATES) as [cu|] eqn:Ec; cbn [mbind result_bind] in H; [|done].
      apply push_Ok in Ep as [_ ->]. apply IH in H as [-> HF]; [|done].
      cbn. rewrite Es. cbn. rewrite <- app_assoc. split; [done|]. constructor; [|done].
      intros _. unfold prior. rewrite E. cbn. rewrite Es. by eexists.
    + cbn [mbind result_bind] in H.
      destruct (push cur None MAX_STATES) as [cu|] eqn:Ec; cbn [mbind result_bind] in H; [|done].
      apply IH in H as [-> HF]; [|done]. cbn. split; [done|]. constructor; [|done].
      rewrite E. by intros [? ?].
Qed.

Lemma make_plans_Ok def guarded cur states : forall i plans plans',
  make_plans def guarded cur i states plans = Ok plans' ->
  exists new, plans' = plans ++ new /\ map p_state new = states
    /\ Forall (fun p => p_sent p = false) new
    /\ (states <> [] -> Z.of_nat (length plans') <= MAX_STATES)
    /\ Forall (fun p => p_result p = None -> guarded = true ->
         existsb (fun q => key q (p_state p)) (array def "previous") = true) new.
Proof.
  induction states as [|w states IH]; intros i plans plans'; cbn [make_plans].
  - intros [= <-]. exists []. rewrite app_nil_r. split_and!; by try constructor.
  - destruct (outcome _ _ _ _) as [o|] eqn:Eo; cbn [mbind result_bind]; [|done].
    destruct (push plans _ MAX_STATES) as [pl|] eqn:Ep; cbn [mbind result_bind]; [|done].
    apply push_Ok in Ep as [Hl ->]. intros H.
    destruct (IH _ _ _ H) as (new & -> & Hs & Hu & Hb & Hg).
    exists (mk_plan w o false :: new). rewrite <- app_assoc. split_and!; [done|cbn; congruence|by constructor| |].
    + intros _. destruct states.
      * destruct new; [|done]. rewrite length_app in *. cbn in *. lia.
      * rewrite <- app_assoc in Hb. by apply Hb.
    + constructor; [|done]. cbn. intros -> ->. unfold outcome in Eo. cbn [andb] in Eo.
      destruct (existsb _ (array def "previous")); [done|]. cbn [negb] in Eo.
      destruct (result w None true), (result w (Some _) false); case_match; done.
Qed.

Lemma key_sym a b : key a b = key b a.
Proof. unfold key. f_equal; apply String.eqb_sym. Qed.

Lemma key_spec a b : key a b = true <->
  text a "deviceId" = text b "deviceId" /\ text a "capabilityId" = text b "capabilityId".
Proof. unfold key. by rewrite andb_true_iff, !String.eqb_eq. Qed.

Lemma present_key (s : Store St) a b : key a b = true -> present s a = present s b.
Proof. intros [H1 H2]%key_spec. unfold present. by rewrite H1, H2. Qed.

Lemma prior_spec (s : Store St) w p :
  prior s w = Some p -> key p w = true /\ get p "value" = present s w.
Proof.
  unfold prior. destruct (present s w) as [v|]; [|done]. cbn.
  destruct (set w "value" v) as [p'|] eqn:E; [|done]. intros [= <-]. split.
  - apply key_spec. by rewrite !(text_set_ne _ _ _ _ _ E).
  - by apply get_set_eq in E.
Qed.

Lemma present_uniq (s : Store St) w v : store_ok s -> present s w = Some v -> uniq v = true.
Proof.
  intros Hs. unfold present. destruct (device _ s) as [d|] eqn:Ed; [|done].
  destruct (get _ _) as [x|] eqn:Eg; [|done]. destruct (is_null x); [done|]. intros [= <-].
  eapply uniq_get; [|exact Eg]. apply uniq_get_null. by eapply device_uniq.
Qed.

(** What a prepared execution is. *)
Record prepared (s : Store St) (id : string) (on : bool) (sc : Scene) (baseline : list Value) : Prop := {
  pr_record : exists definition, record (document s) "scenes" (trim id) = Ok definition
    /\ sc_first sc = on && negb (sc_momentary sc) && negb (boolean definition "active")
    /\ (sc_first sc = false -> sc_definition sc = definition)
    /\ text (sc_definition sc) "id" = text definition "id";
  pr_on : sc_on sc = on;
  pr_unsent : Forall (fun p => p_sent p = false) (sc_plans sc);
  pr_bound : Z.of_nat (length (sc_plans sc)) <= MAX_STATES;
  pr_uniq : uniq (sc_definition sc) = true;
  pr_baseline : sc_first sc = true -> baseline = array (sc_definition sc) "previous"
    /\ Forall (fun q => get q "value" = present s q) baseline;
  pr_held : on = true -> sc_momentary sc = false -> Forall (fun p => p_result p = None ->
    exists q, q ∈ array (sc_definition sc) "previous" /\ key q (p_state p) = true) (sc_plans sc);
  pr_states : on = false -> map p_state (sc_plans sc) =
    if boolean (sc_definition sc) "active" then array (sc_definition sc) "previous" else []
}.

Lemma omap_prior (s : Store St) states : Forall (fun q => get q "value" = present s q) (omap (prior s) states).
Proof.
  apply Forall_forall. intros q (w & _ & Hw)%list_elem_of_omap.
  apply prior_spec in Hw as [Hk ->]. symmetry. by apply present_key.
Qed.

Lemma omap_prior_uniq (s : Store St) states :
  store_ok s -> Forall (fun w => uniq w = true) states -> Forall (fun w => uniq w = true) (omap (prior s) states).
Proof.
  intros Hs HF. apply Forall_forall. intros q (w & Hin & Hw)%list_elem_of_omap.
  rewrite Forall_forall in HF. unfold prior in Hw. destruct (present s w) as [v|] eqn:E; [|done]. cbn in Hw.
  destruct (set w "value" v) eqn:Es; [|done]. injection Hw as <-.
  apply (uniq_set _ _ _ _ Es); [by apply HF|by eapply present_uniq].
Qed.

Lemma prepare_Ok (s : Store St) id on sc baseline :
  store_ok s -> prepare s id on = Ok (sc, baseline) -> prepared s id on sc baseline.
Proof.
  intros Hs H. unfold prepare in H. destruct (record _ _ _) as [def|] eqn:Er; cbn [mbind result_bind] in H; [|done].
  destruct (record_props _ _ _ _ (so_doc _ Hs) Er) as (Hu & _ & _).
  destruct (_ && negb on); [done|].
  set (mom := (text def "kind" =? "button")%string) in *. set (act := boolean def "active") in *.
  destruct (read_states _ _ _ _ _) as [[cur prev]|] eqn:Ers; cbn [mbind result_bind] in H; [|done].
  destruct (if on && negb mom && negb act then _ else _) as [def'|] eqn:Ed in H; cbn [mbind result_bind] in H; [|done].
  destruct (make_plans _ _ _ _ _ _) as [plans|] eqn:Em; cbn [mbind result_bind] in H; [|done].
  destruct (if on && negb mom && negb act then _ else _) as [bl|] eqn:Eb in H; cbn [mbind result_bind] in H; [|done].
  injection H as <- <-. apply make_plans_Ok in Em as (new & -> & Hst & Hun & Hbd & Hg). cbn [app] in *.
  constructor; cbn [sc_first sc_definition sc_plans sc_on sc_momentary].
  - exists def. split_and!; [done|done| |].
    + intros E. rewrite E in Ed. by injection Ed.
    + destruct (_ && _) in Ed; [by rewrite (text_set_ne _ _ _ _ _ Ed)|by injection Ed as <-].
  - done.
  - done.
  - destruct (wanted_states def' on act) eqn:Ew; [by rewrite (map_eq_nil _ _ Hst)|by apply Hbd].
  - destruct (on && negb mom && negb act) eqn:Ef; [|by injection Ed as <-].
    apply (uniq_set _ _ _ _ Ed); [done|]. apply uniq_array.
    apply andb_true_iff in Ef as [Ef _]. rewrite Ef in Ers.
    destruct (read_states_Ok _ _ _ _ _ _ _ Ers eq_refl) as [-> _]. apply omap_prior_uniq; [done|].
    apply andb_true_iff in Ef as [-> _]. by apply uniq_elems.
  - intros Ef. rewrite Ef in *. apply push_all_id in Eb as ->. cbn [app].
    rewrite (array_set_eq _ _ _ _ Ed). split; [done|].
    apply andb_true_iff in Ef as [Ef _]. rewrite Ef in Ers.
    destruct (read_states_Ok _ _ _ _ _ _ _ Ers eq_refl) as [-> _]. apply omap_prior.
  - intros -> Hm. eapply Forall_impl; [exact Hg|]. intros p Hp Ho.
    rewrite Hm in Hp. destruct (proj1 (existsb_exists _ _) (Hp Ho eq_refl)) as (q & Hq & Hk).
    exists q. split; [by apply list_elem_of_In|done].
  - intros ->. injection Ed as <-. rewrite Hst. unfold wanted_states, act. done.
Qed.

(** C5: A scene that is no button sends nothing without a way back.  When switching it on has
    succeeded, before anything is sent, the stored scene is active, and every command the
    execution is going to send has an entry for its device and capability in the stored
    baseline; for a scene that was not active yet that entry holds the value the device has at
    this moment and the storage has just acknowledged it.  When switching it off has begun,
    nothing has changed yet, and every command is an entry of the stored baseline of a scene
    that is active. *)
Theorem commands_have_a_baseline id on (s : Store St) sc s1 :
  store_ok s -> start id on s = (Ok sc, s1) -> sc_momentary sc = false ->
  exists scene, record (document s1) "scenes" (trim id) = Ok scene
    /\ (on = true ->
         boolean scene "active" = true
         /\ (sc_first sc = true ->
               exists bs, encode (document s1) = Ok bs /\ storage_save bs (storage s) = (Ok tt, storage s1))
         /\ Forall (fun p => p_result p = None -> exists q, q ∈ array scene "previous"
              /\ key q (p_state p) = true /\ (sc_first sc = true -> get q "value" = present s (p_state p)))
              (sc_plans sc))
    /\ (on = false ->
         s1 = s /\ Forall (fun p => boolean scene "active" = true /\ p_state p ∈ array scene "previous") (sc_plans sc)).
Proof.
  intros Hs H Hm. unfold start in H. rewrite bind_get, bind_lift in H.
  destruct (prepare s id on) as [[sc' bl]|] eqn:Ep; [|done].
  assert (sc' = sc) as ->.
  { destruct (sc_first sc'); [|by injection H as ->]. unfold bindM in H.
    destruct (begin_scene _ _ _) as [[]]; [|done]. by injection H as ->. }
  apply prepare_Ok in Ep; [|done]. destruct Ep as [(def & Hr & Hf & Hd & _) Hon _ _ Hu Hb Hh Hoff].
  rewrite Hm in Hf. destruct on; cbn [andb negb] in Hf.
  2:{ rewrite Hf in H. injection H as <-. exists def. split; [done|]. split; [done|]. intros _. split; [done|].
      rewrite <- (Hd Hf). specialize (Hoff eq_refl). apply Forall_forall. intros p Hp.
      assert (p_state p ∈ map p_state (sc_plans sc)) as Hin by (apply list_elem_of_fmap; by exists p).
      rewrite Hoff in Hin. destruct (boolean _ _); [done|by apply elem_of_nil in Hin]. }
  specialize (Hh eq_refl Hm).
  destruct (sc_first sc) eqn:Ef.
  - destruct (Hb eq_refl) as [-> Hv]. unfold bindM in H.
    destruct (begin_scene (trim id) (array (sc_definition sc) "previous") s) as [[b|] s2] eqn:Eb; [|done].
    injection H as <-.
    assert (b = true) as ->.
    { unfold begin_scene in Eb. rewrite bind_get, bind_lift, Hr in Eb.
      destruct (_ =? _)%string; [done|]. destruct (boolean def "active"); [done|].
      rewrite bind_lift in Eb. destruct (Scenes.validate_states _); [|done]. rewrite bind_lift in Eb.
      destruct (set def _ _) as [d1|]; [|done]. rewrite bind_lift in Eb. destruct (set d1 _ _); [|done].
      unfold bindM in Eb. destruct (commit_scene_state _ _ _) as [[]]; [|done]. by injection Eb as <-. }
    apply begin_scene_stores in Eb as ((scene & H1 & H2 & H3) & H4 & _); [|done|by apply uniq_elems].
    exists scene. split; [done|]. split; [|done]. intros _. split_and!; [done|done|].
    assert (array scene "previous" = array (sc_definition sc) "previous") as -> by (unfold array at 1; by rewrite H3).
    eapply Forall_impl; [exact Hh|]. intros p Hp Ho. destruct (Hp Ho) as (q & Hq & Hk).
    exists q. split_and!; [done|done|]. intros _. rewrite Forall_forall in Hv. rewrite (Hv q Hq).
    by apply present_key.
  - injection H as <-. exists def. split; [done|]. split; [|done]. intros _. split_and!; [|done|].
    + by destruct (boolean def "active").
    + rewrite <- (Hd eq_refl). eapply Forall_impl; [exact Hh|]. intros p Hp Ho.
      destruct (Hp Ho) as (q & Hq & Hk). exists q. by split_and!.
Qed.
End Start.

(** ** Sending *)

(** What happens to an execution while it runs. *)
Inductive scene_op : Type :=
| Next
| Answered (device : string) (errors : Value) (failure : option string).

Definition scene_step (sc : Scene) (op : scene_op) : list (string * Value) * Scene :=
  match op with
  | Next => match next_group sc with
            | (Ok (Some g), sc) => ([g], sc)
            | (_, sc) => ([], sc)
            end
  | Answered device errors failure => ([], (complete device errors failure sc).2)
  end.

(** The groups that were handed out, in order. *)
Fixpoint scene_run (sc : Scene) (ops : list scene_op) : list (string * Value) * Scene :=
  match ops with
  | [] => ([], sc)
  | op :: ops =>
      let '(sent, sc) := scene_step sc op in
      let '(more, sc) := scene_run sc ops in (sent ++ more, sc)
  end.

Definition plan_device (p : Plan) : string := text (p_state p) "deviceId".

(** The states of a device that are not settled from the start. *)
Definition open_states (device : string) (sc : Scene) : list Value :=
  map p_state (List.filter (fun p => is_open p && of_device device p) (sc_plans sc)).

(** *** Sorting a group *)

Definition before (a b : nat * Value) : Prop := priority a.2 <= priority b.2.

Lemma sort_commands_perm l : sort_commands l ≡ₚ l.
Proof.
  unfold sort_commands. induction l as [|c l IH]; [done|]. cbn. rewrite <- IH at 2.
  generalize (fold_right insert_command [] l). intros k. induction k as [|d k IHk]; [done|]. cbn.
  case_match; [done|]. by rewrite IHk, Permutation_swap.
Qed.

Lemma insert_command_sorted c l : StronglySorted before l -> StronglySorted before (insert_command c l).
Proof.
  induction 1 as [|d l Hl IH Hd]; cbn; [by repeat constructor|].
  destruct (_ || _) eqn:E.
  - constructor; [by constructor|]. constructor.
    + unfold before. apply orb_true_iff in E as [E|[E _]%andb_true_iff]; lia.
    + eapply Forall_impl; [exact Hd|]. unfold before. intros x Hx.
      apply orb_true_iff in E as [E|[E _]%andb_true_iff]; lia.
  - constructor; [done|]. apply Forall_forall. intros x Hx.
    assert (x ∈ c :: l) as Hx'.
    { clear -Hx. induction l as [|y l IHl]; cbn in *; [done|]. case_match; [done|set_solver]. }
    apply elem_of_cons in Hx' as [->|Hx'].
    + apply orb_false_iff in E as [E1 E2]. unfold before. lia.
    + rewrite Forall_forall in Hd. by apply Hd.
Qed.

Lemma sort_commands_sorted l : StronglySorted before (sort_commands l).
Proof. induction l; [constructor|]. by apply insert_command_sorted. Qed.

Lemma filter_imap {A} (f : A -> bool) (l : list A) : forall h : nat -> A -> nat * A,
  (forall i x, (h i x).2 = x) ->
  map snd (List.filter (fun ip => f ip.2) (imap h l)) = List.filter f l.
Proof.
  induction l as [|x l IH]; intros h Hh; [done|]. rewrite imap_cons. cbn. rewrite Hh.
  pose proof (IH (h ∘ S) (fun i y => Hh (S i) y)) as H. destruct (f x); cbn; [|exact H].
  by rewrite Hh, H.
Qed.

Lemma group_of_states device plans :
  map snd (group_of device plans) = map p_state (List.filter (fun p => is_open p && of_device device p) plans).
Proof.
  unfold group_of. rewrite map_map. cbn.
  rewrite <- (map_map snd p_state). f_equal.
  exact (filter_imap (fun p => is_open p && of_device device p) plans pair (fun _ _ => eq_refl)).
Qed.

(** *** The plans while the execution runs *)

(** A plan [p] that was [p0] at the start, [asked] the devices that got their group. *)
Definition evolves (asked : list string) (p0 p : Plan) : Prop :=
  p_state p = p_state p0 /\
  if is_open p then is_open p0 = true /\ p_sent p = bool_decide (plan_device p ∈ asked)
  else p = p0 \/ (is_open p0 = true /\ plan_device p ∈ asked).

Lemma evolves_start plans :
  Forall (fun p => p_sent p = false) plans -> Forall2 (evolves []) plans plans.
Proof.
  induction 1 as [|p l Hp _ IH]; constructor; [|done]. split; [done|].
  destruct (is_open p) eqn:E; [|by left]. split; [done|]. rewrite Hp. symmetry. apply bool_decide_eq_false. set_solver.
Qed.

Lemma evolves_group asked d P0 plans :
  Forall2 (evolves asked) P0 plans -> d ∉ asked ->
  map p_state (List.filter (fun p => is_open p && of_device d p) plans)
  = map p_state (List.filter (fun p => is_open p && of_device d p) P0).
Proof.
  intros HF Hd. induction HF as [|p0 p P0 plans [Hs Hp] _ IH]; [done|]. cbn.
  assert (of_device d p = of_device d p0) as Ho by (unfold of_device; by rewrite Hs).
  assert (is_open p && of_device d p = is_open p0 && of_device d p0) as ->.
  { rewrite Ho. destruct (is_open p) eqn:Eo.
    - by destruct Hp as [-> _].
    - destruct Hp as [->|[-> Ha]]; [by rewrite Eo|].
      symmetry. cbn. rewrite <- Ho. apply String.eqb_neq. intros <-. done. }
  destruct (_ && _); cbn; rewrite IH; [by rewrite Hs|done].
Qed.

Lemma evolves_mark asked d P0 plans :
  Forall2 (evolves asked) P0 plans -> Forall2 (evolves (asked ++ [d])) P0 (map (mark_sent d) plans).
Proof.
  induction 1 as [|p0 p P0 plans [Hs Hp] _ IH]; constructor; [|done]. unfold mark_sent, evolves, of_device.
  destruct (is_open p) eqn:Eo; cbn [andb].
  - destruct Hp as [Hp0 Hst]. destruct (String.eqb_spec (text (p_state p) "deviceId") d) as [Ed|Ed]; cbn.
    + change (is_open (mk_plan (p_state p) (p_result p) true)) with (is_open p). rewrite Eo. split_and!; [done|done|].
      symmetry. apply bool_decide_eq_true. unfold plan_device. cbn. rewrite Ed. set_solver.
    + rewrite Eo. split_and!; [done|done|]. rewrite Hst. apply bool_decide_ext. unfold plan_device in *. set_solver.
  - rewrite Eo. split; [done|]. destruct Hp as [->|[? ?]]; [by left|right]. set_solver.
Qed.

Lemma evolves_settle asked d err P0 : forall plans r l,
  Forall2 (evolves asked) P0 plans ->
  settle (fun p => is_open p && p_sent p && of_device d p) err plans = (r, l) -> Forall2 (evolves asked) P0 l.
Proof.
  intros plans r l HF. revert r l. induction HF as [|p0 p P0 plans [Hs Hp] HF IH]; intros r l; cbn.
  { intros [= _ <-]. constructor. }
  destruct (is_open p && p_sent p && of_device d p) eqn:E.
  - destruct (result _ _ _) as [v|e].
    + destruct (settle _ _ _) as [res l1] eqn:E1. intros [= _ <-]. constructor; [|by eapply IH].
      apply andb_true_iff in E as [[Eo Es]%andb_true_iff _]. rewrite Eo in Hp. destruct Hp as [H0 Hst].
      split; [done|]. cbn. right. split; [done|]. rewrite Es in Hst. symmetry in Hst.
      by apply bool_decide_eq_true in Hst.
    + intros [= _ <-]. constructor; [by split|done].
  - destruct (settle _ _ _) as [res l1] eqn:E1. intros [= _ <-]. constructor; [by split|by eapply IH].
Qed.

Lemma push_all_fits {A B} (f : A -> Result B) g xs :
  (forall x, f x = Ok (g x)) -> Z.of_nat (length xs) <= MAX_STATES ->
  push_all f MAX_STATES xs [] = Ok (map g xs).
Proof.
  intros Hf Hl. apply (push_all_complete f MAX_STATES xs (map g xs) []); [|cbn; lia].
  induction xs; constructor; [apply Hf|apply IHxs; cbn in Hl; lia].
Qed.

(** One group is handed out, or nothing is left to send. *)
Lemma next_group_spec sc P0 asked :
  Forall2 (evolves asked) P0 (sc_plans sc) -> Z.of_nat (length P0) <= MAX_STATES ->
  (next_group sc = (Ok None, sc) /\ Forall (fun p => is_open p = true -> p_sent p = true) (sc_plans sc))
  \/ exists d params l, next_group sc = (Ok (Some (d, params)), set_plans sc (map (mark_sent d) (sc_plans sc)))
      /\ d ∉ asked /\ text params "deviceId" = d /\ array params "commands" = map command l
      /\ l ≡ₚ map p_state (List.filter (fun p => is_open p && of_device d p) P0)
      /\ StronglySorted (fun a b => priority a <= priority b) l
      /\ exists p, p ∈ sc_plans sc /\ is_open p = true /\ p_sent p = false /\ plan_device p = d.
Proof.
  intros HF Hl. unfold next_group. destruct (find _ _) as [p|] eqn:Ef.
  - right. apply find_some in Ef as [Hin [Ho Hs]%andb_true_iff]. apply negb_true_iff in Hs.
    apply list_elem_of_In in Hin. set (d := text (p_state p) "deviceId").
    assert (d ∉ asked) as Hd.
    { apply list_elem_of_lookup in Hin as [i Hi]. destruct (Forall2_lookup_r _ _ _ _ _ HF Hi) as (p0 & _ & _ & Hp).
      rewrite Ho, Hs in Hp. destruct Hp as [_ Hp]. symmetry in Hp. by apply bool_decide_eq_false in Hp. }
    assert (Z.of_nat (length (group_of d (sc_plans sc))) <= MAX_STATES) as Hg.
    { apply Forall2_length in HF. unfold group_of. rewrite length_map.
      pose proof (filter_length_le (fun ip => is_open ip.2 && of_device d ip.2) (imap pair (sc_plans sc))).
      rewrite length_imap in *. lia. }
    rewrite (push_all_fits _ (fun x => x)) by done. cbn [mbind result_bind]. rewrite map_id.
    rewrite (push_all_fits _ (fun c => command c.2)) by (by rewrite ?sort_commands_perm).
    eexists d, _, (map snd (sort_commands (group_of d (sc_plans sc)))).
    split; [done|]. split; [done|]. split; [done|]. split; [cbn; by rewrite map_map|]. split_and!.
    + rewrite sort_commands_perm, group_of_states. by erewrite evolves_group.
    + pose proof (sort_commands_sorted (group_of d (sc_plans sc))) as HS. revert HS.
      generalize (sort_commands (group_of d (sc_plans sc))). induction 1 as [|c l _ IH Hc]; constructor; [done|].
      clear -Hc. induction Hc; constructor; done.
    + by exists p.
  - left. split; [done|]. apply Forall_forall. intros p Hp Ho.
    apply list_elem_of_In in Hp. pose proof (find_none _ _ Ef _ Hp) as Hn. cbn in Hn. rewrite Ho in Hn.
    by destruct (p_sent p).
Qed.

(** *** The whole execution *)

(** What one group must be, [sc] the execution at its start. *)
Definition group_ok (sc : Scene) (g : string * Value) : Prop :=
  text g.2 "deviceId" = g.1 /\
  exists l, array g.2 "commands" = map command l /\ l ≡ₚ open_states g.1 sc
    /\ StronglySorted (fun a b => priority a <= priority b) l.

Lemma scene_run_spec ops : forall sc0 sc asked gs sc',
  Forall2 (evolves asked) (sc_plans sc0) (sc_plans sc) -> Z.of_nat (length (sc_plans sc0)) <= MAX_STATES ->
  NoDup asked -> scene_run sc ops = (gs, sc') ->
  NoDup (asked ++ map fst gs) /\ Forall (group_ok sc0) gs
  /\ Forall2 (evolves (asked ++ map fst gs)) (sc_plans sc0) (sc_plans sc')
  /\ sc_definition sc' = sc_definition sc /\ sc_first sc' = sc_first sc
  /\ sc_on sc' = sc_on sc /\ sc_momentary sc' = sc_momentary sc.
Proof.
  induction ops as [|op ops IH]; intros sc0 sc asked gs sc' HF Hl HN; cbn [scene_run].
  - intros [= <- <-]. rewrite app_nil_r. by split_and!.
  - destruct (scene_step sc op) as [sent sc1] eqn:E. destruct (scene_run sc1 ops) as [more sc2] eqn:Er.
    intros [= <- <-]. destruct op as [|d errs fl]; cbn [scene_step] in E.
    + destruct (next_group_spec _ _ _ HF Hl) as [[En _]|(d & params & l & En & Hd & Hid & Hc & Hp & Hst & _)];
        rewrite En in E; injection E as <- <-.
      * by apply (IH sc0 sc asked).
      * apply (IH sc0 _ (asked ++ [d])) in Er as (H1 & H2 & H3 & H4).
        -- cbn [map app fst]. rewrite <- app_assoc in H1, H3. split_and!; [done| |done|apply H4..].
           constructor; [|done]. split; [done|]. by exists l.
        -- by apply evolves_mark.
        -- done.
        -- apply NoDup_app. split_and!; [done|set_solver|apply NoDup_singleton].
    + injection E as <- <-. unfold complete in Er. destruct (settle _ _ _) as [r l] eqn:Es. cbn in Er.
      apply (IH sc0 _ asked) in Er; [exact Er| |done..]. by eapply evolves_settle.
Qed.

Lemma start_prepared {St} {HS : Storage St} id on (s : Store St) sc s1 :
  store_ok s -> start id on s = (Ok sc, s1) -> exists baseline, prepared s id on sc baseline.
Proof.
  intros Hs H. unfold start in H. rewrite bind_get, bind_lift in H.
  destruct (prepare s id on) as [[sc' bl]|] eqn:Ep; [|done]. exists bl. apply prepare_Ok; [done|].
  destruct (sc_first sc'); [|by injection H as <- _]. unfold bindM in H.
  destruct (begin_scene _ _ _) as [[]]; [|done]. by injection H as <- _.
Qed.

(** Starting keeps the store valid. *)
Lemma start_keeps {St} {HS : Storage St} id on (s : Store St) sc s1 :
  store_ok s -> start id on s = (Ok sc, s1) -> store_ok s1.
Proof.
  intros Hs H. unfold start in H. rewrite bind_get, bind_lift in H.
  destruct (prepare s id on) as [[sc' bl]|] eqn:Ep; [|done]. apply prepare_Ok in Ep as []; [|done].
  destruct (sc_first sc') eqn:Ef; [|by injection H as _ <-]. unfold bindM in H.
  destruct (begin_scene _ _ _) as [[b|] s2] eqn:Eb; [|done]. injection H as _ <-.
  destruct (pr_baseline0 eq_refl) as [-> _]. eapply begin_scene_keeps; [|exact Hs|exact Eb].
  by apply uniq_elems.
Qed.

(** Every device is asked once.  However sending and answers interleave while a scene
    runs, no device gets a second group; a group holds exactly the states of its device
    that were not settled at the start, switching on before everything else and switching
    off after it; handing out the next group never fails; and when there is none left,
    every such state has been sent to its device. *)
Theorem each_device_is_asked_once {St} {HS : Storage St} id on (s : Store St) sc s1 ops gs sc' :
  store_ok s -> start id on s = (Ok sc, s1) -> scene_run sc ops = (gs, sc') ->
  NoDup (map fst gs) /\ Forall (group_ok sc) gs
  /\ is_ok (next_group sc').1 = true
  /\ ((next_group sc').1 = Ok None ->
      Forall (fun p => is_open p = true -> plan_device p ∈ map fst gs) (sc_plans sc)).
Proof.
  intros Hs H Hr. destruct (start_prepared _ _ _ _ _ Hs H) as [bl [_ _ Hu Hb _ _ _ _]].
  destruct (scene_run_spec ops sc sc [] gs sc' (evolves_start _ Hu) Hb ltac:(constructor) Hr)
    as (H1 & H2 & H3 & _). cbn [app] in *. split_and!; [done|done| |].
  - destruct (next_group_spec _ _ _ H3 Hb) as [[-> _]|(d & params & l & -> & _)]; done.
  - intros Hn. destruct (next_group_spec _ _ _ H3 Hb) as [[_ HF]|(d & params & l & E & _)].
    2:{ rewrite E in Hn. discriminate. }
    apply Forall_forall. intros p0 Hin Ho. apply list_elem_of_lookup in Hin as [i Hi].
    destruct (Forall2_lookup_l _ _ _ _ _ H3 Hi) as (p & Hp & Hs' & He).
    assert (plan_device p0 = plan_device p) as -> by (unfold plan_device; by rewrite Hs').
    destruct (is_open p) eqn:Eo.
    + rewrite Forall_forall in HF. destruct He as [_ He].
      rewrite (HF p (list_elem_of_lookup_2 _ _ _ Hp) Eo) in He. symmetry in He. by apply bool_decide_eq_true in He.
    + destruct He as [->|[_ He]]; [congruence|done].
Qed.

(** ** Finishing *)

Section Finish.
Context {St : Type} {HS : Storage St}.

Lemma outcomes_spec plans : forall states n states' n',
  outcomes plans states n = Ok (states', n') ->
  n' = n + Z.of_nat (length (List.filter (fun p => match p_result p with Some r => boolean r "success" | None => false end) plans)).
Proof.
  induction plans as [|p plans IH]; intros states n states' n'; cbn; [intros [= _ <-]; lia|].
  destruct (p_result p) as [r|]; cbn [ok_or mbind result_bind]; [|done].
  destruct (push _ _ _); cbn [mbind result_bind]; [|done]. intros H. rewrite (IH _ _ _ _ H).
  destruct (boolean r "success"); cbn [length]; lia.
Qed.

(** Whether finishing stores what is left to restore. *)
Definition touches (sc : Scene) : bool :=
  negb (sc_momentary sc) && (sc_first sc || (negb (sc_on sc) && boolean (sc_definition sc) "active")).

Definition succeeded (p : Plan) : bool :=
  match p_result p with Some r => boolean r "success" | None => false end.

Lemma filter_length_all {A} (f : A -> bool) l : length (List.filter f l) = length l <-> Forall (fun x => f x = true) l.
Proof.
  induction l as [|x l IH]; cbn; [done|]. rewrite Forall_cons, <- IH. pose proof (filter_length_le f l).
  destruct (f x); cbn; split; [intros ?; split; [done|lia]|intros [_ ?]; lia|lia|by intros [? _]].
Qed.

(** What is left to restore stays.  When an execution that keeps a baseline is finished,
    the stored scene holds exactly those entries of the baseline that still matter: after
    switching on the ones whose command succeeded, after switching off the ones whose
    command did not; it is active exactly as long as there is one; and the report calls the
    execution a success exactly when every state succeeded and the scene is what was asked. *)
Theorem finish_keeps_what_is_left id on (s : Store St) sc s1 ops gs sc' s2 r s3 :
  store_ok s -> start id on s = (Ok sc, s1) -> scene_run sc ops = (gs, sc') ->
  store_ok s2 -> touches sc' = true -> finish sc' s2 = (Ok r, s3) ->
  exists scene, record (document s3) "scenes" (SceneRun.id sc) = Ok scene
    /\ array scene "previous"
       = List.filter (fun q => Bool.eqb (achieved sc' q) on) (array (sc_definition sc) "previous")
    /\ boolean scene "active" = negb (bool_decide (array scene "previous" = []))
    /\ (boolean r "success" = true <->
          Forall (fun p => succeeded p = true) (sc_plans sc') /\ boolean scene "active" = on).
Proof.
  intros Hs H Hr Hs2 Ht Hf. destruct (start_prepared _ _ _ _ _ Hs H) as [bl [_ Hon Hu Hb Hq _ _ _]].
  destruct (scene_run_spec ops sc sc [] gs sc' (evolves_start _ Hu) Hb ltac:(constructor) Hr)
    as (_ & _ & _ & Hdef & _ & Hon' & Hmom).
  unfold finish in Hf. destruct (negb (done sc')); [done|]. rewrite bind_lift in Hf.
  destruct (outcomes _ _ _) as [[states n]|] eqn:Eo; [|done]. apply outcomes_spec in Eo.
  fold (touches sc') in Hf. rewrite Ht in Hf. unfold bindM at 1 in Hf. rewrite bind_lift in Hf.
  destruct (push_all _ _ (retained sc') _) as [l|] eqn:El; [|done].
  apply push_all_id in El as ->. cbn [app] in Hf.
  destruct (scene_remaining _ _ s2) as [[[]|] s4] eqn:Er; [|done].
  apply scene_remaining_stores in Er as (scene & H1 & H2 & H3); [|done|].
  2:{ unfold retained. rewrite Hdef. apply Forall_forall. intros q [Hin _]%filter_elem.
      pose proof (uniq_elems _ "previous" Hq) as HF. rewrite Forall_forall in HF. by apply HF. }
  assert (array scene "previous" = retained sc') as Ha by (unfold array; by rewrite H3).
  rewrite bind_get, bind_lift, H1 in Hf. cbn [mret] in Hf. unfold liftR in Hf.
  destruct (report _ _ _ _) as [r'|] eqn:Erep; [|done]. injection Hf as -> ->.
  exists scene. unfold SceneRun.id in *. rewrite Hdef in H1. split_and!; [done| | |].
  - rewrite Ha. unfold retained. by rewrite Hdef, Hon', Hon.
  - by rewrite Ha.
  - assert (sc_momentary sc' = false) as Hm by (unfold touches in Ht; by destruct (sc_momentary sc')).
    unfold report in Erep. rewrite Hm in Erep. injection Erep as <-. unfold boolean at 1. cbn.
    rewrite andb_true_iff, Z.eqb_eq, eqb_true_iff, Hon', Hon.
    change (List.filter _ (sc_plans sc')) with (List.filter succeeded (sc_plans sc')) in Eo.
    rewrite <- (filter_length_all succeeded). intuition lia.
Qed.
End Finish.

(** ** A scene that switches a lamp off, and back on *)

Definition lit : Store Memory :=
  Eval vm_compute in (run_op (OpObserve "hue" "lamp" (json_of "{'onoff':true}") true "") sample).2.

Lemma lit_ok : store_ok lit.
Proof.
  destruct (run_op (OpObserve "hue" "lamp" (json_of "{'onoff':true}") true "") sample) as [r s] eqn:E.
  assert (s = lit) as <- by (vm_compute in E; by injection E as _ <-).
  eapply (run_op_ok _ _ _ _ _ sample_ok E). Unshelve. reflexivity.
Qed.

Definition film : Scene :=
  Eval vm_compute in match (start "film" true lit).1 with Ok sc => sc | Err _ => mk_scene VNull [] false false false end.
Definition film_store : Store Memory := Eval vm_compute in (start "film" true lit).2.
Definition film_sent : list (string * Value) * Scene :=
  Eval vm_compute in scene_run film [Next; Answered "lamp" object None; Next].

Lemma film_starts : start "film" true lit = (Ok film, film_store).
Proof. vm_compute. reflexivity. Qed.

Lemma commands_have_a_baseline_witness :
  start "film" true lit = (Ok film, film_store) /\ length (sc_plans film) = 1%nat
  /\ exists scene, record (document film_store) "scenes" "film" = Ok scene /\ boolean scene "active" = true.
Proof.
  split; [exact film_starts|]. split; [reflexivity|].
  destruct (commands_have_a_baseline "film" true lit film film_store lit_ok film_starts eq_refl)
    as (scene & H1 & H2 & _). exists scene. split; [exact H1|]. destruct (H2 eq_refl) as [H3 _]. exact H3.
Defined.

Lemma each_device_is_asked_once_witness :
  exists gs sc', scene_run film [Next; Answered "lamp" object None; Next] = (gs, sc')
    /\ map fst gs = ["lamp"%string] /\ Forall (group_ok film) gs
    /\ Forall (fun p => is_open p = true -> plan_device p ∈ map fst gs) (sc_plans film).
Proof.
  destruct (scene_run film [Next; Answered "lamp" object None; Next]) as [gs sc'] eqn:E.
  destruct (each_device_is_asked_once "film" true lit film film_store
    [Next; Answered "lamp" object None; Next] gs sc' lit_ok film_starts E) as (_ & Hg & _ & Hall).
  exists gs, sc'. split; [reflexivity|]. split; [vm_compute in E; injection E as <- _; reflexivity|].
  split; [exact Hg|]. apply Hall. vm_compute in E. injection E as _ <-. vm_compute. reflexivity.
Defined.

Lemma film_store_ok : store_ok film_store.
Proof.
  exact (start_keeps "film" true lit film film_store lit_ok film_starts).
Qed.

Lemma finish_keeps_what_is_left_witness :
  exists r s3 scene, finish film_sent.2 film_store = (Ok r, s3)
    /\ record (document s3) "scenes" "film" = Ok scene /\ boolean r "success" = true
    /\ length (array scene "previous") = 1%nat.
Proof.
  destruct (finish film_sent.2 film_store) as [[r|e] s3] eqn:E; [|vm_compute in E; discriminate E].
  destruct (finish_keeps_what_is_left "film" true lit film film_store
    [Next; Answered "lamp" object None; Next] film_sent.1 film_sent.2 film_store r s3
    lit_ok film_starts eq_refl film_store_ok eq_refl E) as (scene & H1 & H2 & H3 & H4).
  exists r, s3, scene. split; [reflexivity|]. split; [exact H1|]. split.
  - vm_compute in E. injection E as <- _. reflexivity.
  - rewrite H2. vm_compute. reflexivity.
Defined.
