(* ===== verification/Templates.v ===== *)
(** * Templates: the arguments of a card

    Models [lookup], [resolve] and [args] of [crates/runtime/src/flow_triggers.rs]: tokens of
    the trigger between double braces are replaced in the arguments of a card, as the value
    itself when the whole text is one token and as text inside a longer text. *)

From Stdlib Require Import ZArith Lia Ascii String.
From S2P Require Import Prelude Text Errors Slots Float Value Json Document Stats Store Display.

Local Open Scope Z_scope.

(** What comes before and after the first occurrence of [p]: [find] with the two slices. *)
Fixpoint split_str (p s : string) : option (string * string) :=
  match strip_prefix p s with
  | Some rest => Some (EmptyString, rest)
  | None =>
      match s with
      | EmptyString => None
      | String c s => '(a, b) ← split_str p s; Some (String c a, b)
      end
  end.

(** [s.contains(p)] *)
Definition contains_str (p s : string) : bool := bool_decide (is_Some (split_str p s)).

Fixpoint rev_string (s acc : string) : string :=
  match s with EmptyString => acc | String c s => rev_string s (String c acc) end.

(** [s.strip_suffix(p)] *)
Definition strip_suffix (p s : string) : option string :=
  r ← strip_prefix (rev_string p EmptyString) (rev_string s EmptyString); Some (rev_string r EmptyString).

(** The whole text is one token. *)
Definition sole_token (s : string) : option string :=
  name ← strip_prefix "{{" s ≫= strip_suffix "}}";
  if contains_str "{{" name then None else Some (trim name).

Definition lookup_token (name : string) (context : Value) : option Value :=
  match strip_prefix "state." name with
  | Some key => get (get_null context "state") key
  | None =>
      let tokens := get_null context "tokens" in
      match strip_prefix "tokens." name with
      | Some key => get tokens key
      | None => match get tokens name with
                | Some v => Some v
                | None => get (get_null context "state") name
                end
      end
  end.

(** [to_string]: the compact text of a value. *)
Definition to_string (v : Value) : Result string := l ← from_hop (write v); Ok (of_bytes l).

Section WithStore.
Context {St : Type} {HS : Storage St}.

(** The text that replaces a token inside a longer text. *)
Definition replacement (s : Store St) (context : Value) (name : string) : Result string :=
  match lookup_token name context with
  | Some (VString t) => Ok t
  | Some v => t ← token s context name v;
              match t with Some t => Ok t | None => to_string v end
  | None => Ok EmptyString
  end.

(** At most [rounds] replacements, each at the first token of the text so far. *)
Fixpoint expand (rounds : nat) (s : Store St) (context : Value) (out : string) : Result string :=
  match rounds with
  | O => Ok out
  | S rounds =>
      match split_str "{{" out with
      | None => Ok out
      | Some (pre, rest) =>
          match split_str "}}" rest with
          | None => Ok out
          | Some (inner, post) =>
              r ← replacement s context (trim inner);
              let growth := Z.max 0 (len r - (len inner + 4)) in
              if MAX_INPUT <? len out + growth then Err Full
              else expand rounds s context (pre ++ r ++ post)
          end
      end
  end.

Definition resolve_text (s : Store St) (context : Value) (as_text : bool) (t : string) : Result Value :=
  match sole_token t ≫= (fun name => v ← lookup_token name context; Some (name, v)) with
  | Some (name, v) =>
      shown ← (if as_text then token s context name v else Ok None);
      match shown with Some t => Ok (VString t) | None => Ok v end
  | None => out ← expand 100 s context t; Ok (VString out)
  end.

Fixpoint resolve (s : Store St) (context : Value) (as_text : bool) (depth : Z) (v : Value) {struct v}
  : Result Value :=
  if 64 <? depth then Err Full else
  match v with
  | VObject o =>
      out ← (fix go (l : Object) (out : Object) : Result Object :=
               match l with
               | [] => Ok out
               | (k, w) :: l =>
                   w ← resolve s context as_text (depth + 1) w;
                   go l (obj_push out k w)
               end) o [];
      Ok (VObject out)
  | VArray a =>
      out ← (fix go (l : list Value) (out : list Value) : Result (list Value) :=
               match l with
               | [] => Ok out
               | w :: l =>
                   w ← resolve s context as_text (depth + 1) w;
                   out ← push out w MAX_INPUT;
                   go l out
               end) a [];
      Ok (VArray out)
  | VString t => resolve_text s context as_text t
  | _ => Ok v
  end.

Fixpoint resolve_args (s : Store St) (step context : Value) (l out : Object) : Result Object :=
  match l with
  | [] => Ok out
  | (name, v) :: l =>
      w ← resolve s context (negb (wants_number s step name)) 0 v;
      resolve_args s step context l (obj_push out name w)
  end.

Definition args (s : Store St) (step context : Value) : Result Value :=
  out ← resolve_args s step context (default [] (as_object (get_null step "args"))) [];
  Ok (VObject out).
End WithStore.
