(* ===== verification/Runs.v ===== *)
(** * Runs: one execution of a Flow against the store

    Models [crates/runtime/src/flows.rs] and the [Run] part of
    [crates/runtime/src/flow_triggers.rs]: a run owns its copy of the Flow, hands out at most
    one effect at a time and keeps the results.  An operation that may fail after it changed
    the run returns the run next to its result. *)

From Stdlib Require Import ZArith Lia Ascii String.
From S2P Require Import Prelude Text Errors Slots Float Value Document Stats Flow Store Mutations Templates.

Local Open Scope Z_scope.

Definition TIMEOUT_MS : Z := 45000.
Definition MAX_CARDS : Z := 128.

Inductive Effect : Type :=
| Call (app method : string) (params : Value)
| Notification (excerpt : string)
| Waiting
| Finished.

Record Run : Type := mk_flow_run {
  definition : Value;
  execution : Execution;
  ran_at : string;
  deadline : Z;
  wake : option Z;
  waiting : option Value;
  conditions : list Value;
  actions : list Value;
  blocked : bool;
  done : bool;
  error : string;
  context : Value;
  filters : list (string * Value);
  run_starts : list string;
  starting : bool;
  filtering : option string
}.

Definition with_execution (r : Run) x := mk_flow_run (definition r) x (ran_at r) (deadline r) (wake r) (waiting r) (conditions r) (actions r) (blocked r) (done r) (error r) (context r) (filters r) (run_starts r) (starting r) (filtering r).
Definition with_wake (r : Run) x := mk_flow_run (definition r) (execution r) (ran_at r) (deadline r) x (waiting r) (conditions r) (actions r) (blocked r) (done r) (error r) (context r) (filters r) (run_starts r) (starting r) (filtering r).
Definition with_waiting (r : Run) x := mk_flow_run (definition r) (execution r) (ran_at r) (deadline r) (wake r) x (conditions r) (actions r) (blocked r) (done r) (error r) (context r) (filters r) (run_starts r) (starting r) (filtering r).
Definition with_results (r : Run) c a := mk_flow_run (definition r) (execution r) (ran_at r) (deadline r) (wake r) (waiting r) c a (blocked r) (done r) (error r) (context r) (filters r) (run_starts r) (starting r) (filtering r).
Definition with_blocked (r : Run) x := mk_flow_run (definition r) (execution r) (ran_at r) (deadline r) (wake r) (waiting r) (conditions r) (actions r) x (done r) (error r) (context r) (filters r) (run_starts r) (starting r) (filtering r).
Definition with_end (r : Run) d e := mk_flow_run (definition r) (execution r) (ran_at r) (deadline r) (wake r) (waiting r) (conditions r) (actions r) (blocked r) d e (context r) (filters r) (run_starts r) (starting r) (filtering r).
Definition with_context (r : Run) x := mk_flow_run (definition r) (execution r) (ran_at r) (deadline r) (wake r) (waiting r) (conditions r) (actions r) (blocked r) (done r) (error r) x (filters r) (run_starts r) (starting r) (filtering r).
Definition with_start (r : Run) f s b := mk_flow_run (definition r) (execution r) (ran_at r) (deadline r) (wake r) (waiting r) (conditions r) (actions r) (blocked r) (done r) (error r) (context r) f s b (filtering r).
Definition with_filtering (r : Run) x := mk_flow_run (definition r) (execution r) (ran_at r) (deadline r) (wake r) (waiting r) (conditions r) (actions r) (blocked r) (done r) (error r) (context r) (filters r) (run_starts r) (starting r) x.

(** ** Starting *)

(** The ids of all triggers. *)
Definition trigger_ids (definition : Value) : Result (list string) :=
  push_all (fun n => Ok (text n "id")) MAX_CARDS
    (List.filter (is_kind "trigger") (array definition "nodes")) [].

Definition manual (definition : Value) (now_ms : Z) (ran_at : string) : Result Run :=
  starts ← trigger_ids definition;
  execution ← start_many definition starts;
  deadline ← ok_or (checked_add now_ms TIMEOUT_MS) Full;
  Ok (mk_flow_run definition execution ran_at deadline None None [] [] false false EmptyString VNull
        [] [] false None).

Definition selected (definition : Value) (starts : list string) (context : Value) (now : Z)
    (ran_at : string) : Result Run :=
  run ← manual definition now ran_at;
  execution ← start_many definition starts;
  Ok (with_context (with_execution run execution) context).

(** A finite number. *)
Definition number (value : Value) : option f64 :=
  match value with
  | VNumber n => let v := as_f64 n in if is_finite v then Some v else None
  | _ => None
  end.

(** [derived]: the capability and the operation of a built-in card of one capability. *)
Definition derived (id : string) : option (string * string) :=
  strip_prefix "capability." id ≫= split_last ".".

(** Whether a built-in trigger accepts the event. *)
Definition builtin (step input : Value) : Result bool :=
  let args := get_null step "args" in
  let state := get_null input "state" in
  let wanted (key : string) := let w := text args key in is_empty w || (w =? text state key)%string in
  let general : Result bool := Ok (wanted "capability"%string && wanted "event"%string) in
  match derived (text step "cardId") with
  | Some (_, action) =>
      if (action =? "became")%string then Ok (equal (get_null args "value") (get_null state "value"))
      else if (action =? "rose_above")%string || (action =? "fell_below")%string then
        threshold ← ok_or (number (get_null args "value")) (Invalid "numeric trigger threshold is required");
        Ok match number (get_null state "value"), number (get_null state "oldValue") with
           | Some current, Some previous =>
               if (action =? "rose_above")%string
               then f_leb previous threshold && f_ltb threshold current
               else f_leb threshold previous && f_ltb current threshold
           | _, _ => false
           end
      else general
  | None => general
  end.

(** Whether the node is a trigger for this event, app filters aside. *)
Definition listens (input node : Value) : bool :=
  let step := get_null node "step" in
  is_kind "trigger" node
  && (text step "appId" =? text input "appId")%string
  && (text step "cardId" =? text input "id")%string
  && forallb (fun kv => let id := text kv.2 "$device" in
                        is_empty id || (id =? text (get_null input "state") "deviceId")%string)
       (default [] (as_object (get_null step "args"))).

(** The loop of [triggered] over the nodes. *)
Fixpoint match_nodes (input : Value) (nodes : list Value) (matched : list string)
    (filters : list (string * Value)) : Result (list string * list (string * Value)) :=
  match nodes with
  | [] => Ok (matched, filters)
  | node :: nodes =>
      let step := get_null node "step" in
      if negb (listens input node) then match_nodes input nodes matched filters
      else if (text step "appId" =? "stulp")%string then
        b ← builtin step input;
        matched ← (if (b : bool) then push matched (text node "id") MAX_CARDS else Ok matched);
        match_nodes input nodes matched filters
      else
        filters ← push filters (text node "id", step) MAX_CARDS;
        match_nodes input nodes matched filters
  end.

Definition triggered (definition input : Value) (now : Z) (ran_at : string) : Result (option Run) :=
  if negb (boolean definition "enabled") then Ok None
  else if negb (text input "kind" =? "trigger")%string then Ok None
  else
    '(matched, filters) ← match_nodes input (array definition "nodes") [] [];
    if bool_decide (matched = []) && bool_decide (filters = []) then Ok None
    else
      run ← manual definition now ran_at;
      execution ← start_many definition [];
      Ok (Some (with_start (with_context (with_execution run execution) input) filters matched true)).

(** ** Results *)

Definition step_result (step : Value) : Value :=
  fields [("appId", VString (text step "appId")); ("cardId", VString (text step "cardId"));
          ("cardType", VString (text step "cardType"))].

Definition is_condition (step : Value) : bool := (text step "cardType" =? "condition")%string.

(** Ends the run; the waiting card is in the result. *)
Definition stop (message : string) (r : Run) : Result unit * Run :=
  if done r then (Ok tt, r)
  else
    let r := match waiting r with
             | Some step =>
                 if is_condition step then with_results r (conditions r ++ [step_result step]) (actions r)
                 else with_results r (conditions r) (actions r ++ [step_result step])
             | None => r
             end in
    (Ok tt, with_end (with_wake (with_waiting r None) None) true message).

Definition timed_out : string := "flow execution timed out".

Definition complete (value : Value) (now : Z) (r : Run) : Result unit * Run :=
  if done r then (Ok tt, r)
  else if deadline r <=? now then stop timed_out r
  else
    match filtering r with
    | Some id =>
        let r := with_filtering r None in
        match as_bool value with
        | None => stop "flow trigger filter did not return a boolean" r
        | Some passed =>
            if passed then
              match push (run_starts r) id MAX_CARDS with
              | Err e => (Err e, r)
              | Ok l => (Ok tt, with_waiting (with_start r (filters r) l (starting r)) None)
              end
            else (Ok tt, with_waiting r None)
        end
    | None =>
        match waiting r with
        | None => (Err (Conflict "no flow callback pending"), r)
        | Some step =>
            let condition := is_condition step in
            match (if condition then as_bool value else Some true) with
            | None => stop "flow condition did not return a boolean" r
            | Some raw =>
                let passed := xorb raw (boolean step "inverted") in
                match (result ← set (step_result step) "result" value;
                       if condition then set result "passed" (VBool passed) else Ok result) with
                | Err e => (Err e, r)
                | Ok result =>
                    match Flow.complete (definition r) raw (execution r) with
                    | (Err e, x) => (Err e, with_execution r x)
                    | (Ok _, x) =>
                        let r := with_wake (with_waiting (with_execution r x) None) None in
                        (Ok tt,
                         if condition
                         then with_results (with_blocked r (blocked r || negb passed))
                                (conditions r ++ [result]) (actions r)
                         else with_results r (conditions r) (actions r ++ [result]))
                    end
                end
            end
        end
    end.

(** The waiting card failed: an action ends its own branch, everything else the run. *)
Definition fail (message : string) (r : Run) : Result unit * Run :=
  if done r then (Ok tt, r)
  else
    match waiting r with
    | Some step =>
        if bool_decide (filtering r = None) && (text step "cardType" =? "action")%string then
          let r := with_waiting r None in
          match set (step_result step) "error" (VString message) with
          | Err e => (Err e, r)
          | Ok result =>
              match skip (execution r) with
              | (Err e, x) => (Err e, with_execution r x)
              | (Ok _, x) =>
                  let r := with_results (with_wake (with_execution r x) None)
                             (conditions r) (actions r ++ [result]) in
                  (Ok tt, if is_empty (error r) then with_end r (done r) message else r)
              end
          end
        else stop message r
    | None => stop message r
    end.

Definition id (r : Run) : string := text (definition r) "id".

Definition result (r : Run) : Result Value :=
  if negb (done r) then Err (Conflict "flow is still running")
  else
    let ok := is_empty (error r) in
    let out := fields [("flowId", VString (id r)); ("success", VBool ok);
                       ("stopped", VBool (ok && blocked r && bool_decide (actions r = [])));
                       ("ranAt", VString (ran_at r)); ("conditions", VArray (conditions r));
                       ("actions", VArray (actions r))] in
    if ok then Ok out else set out "error" (VString (error r)).

(** ** One card *)

(** The first device among the arguments. *)
Definition selected_device (args : Value) : string :=
  match find (fun kv => negb (is_empty (text kv.2 "$device"))) (default [] (as_object args)) with
  | Some kv => text kv.2 "$device"
  | None => EmptyString
  end.

Section WithStore.
Context {St : Type} {HS : Storage St}.

Definition condition (s : Store St) (id : string) (args : Value) : Result bool :=
  '(capability, comparison) ←
    (if (id =? "device_capability_equals")%string then Ok (text args "capability", "is"%string)
     else ok_or (derived id) (Invalid "unknown built-in condition"));
  dev ← device (selected_device args) s;
  let current := default VNull (get dev "state" ≫= fun st => get st capability) in
  let value := get_null args "value" in
  if (comparison =? "is")%string then Ok (equal current value)
  else if (comparison =? "is_on")%string then Ok (bool_decide (as_bool current = Some true))
  else if (comparison =? "is_off")%string then Ok (bool_decide (as_bool current = Some false))
  else if (comparison =? "above")%string || (comparison =? "below")%string then
    a ← ok_or (number current) (Invalid "capability must be numeric");
    b ← ok_or (number value) (Invalid "threshold must be numeric");
    Ok (if (comparison =? "above")%string then f_ltb b a else f_ltb a b)
  else Err (Invalid "unknown built-in condition").

Definition action (s : Store St) (id : string) (args : Value) : Result Effect :=
  '(capability, operation) ←
    (if (id =? "set_device_capability")%string then Ok (text args "capability", "set"%string)
     else ok_or (derived id) (Invalid "unknown built-in action"));
  let device_id := selected_device args in
  dev ← device device_id s;
  if negb (existsb (fun v => bool_decide (as_str v = Some capability)) (array dev "capabilities"))
  then Err (Missing "device capability does not exist")
  else
    value ←
      (if (operation =? "run")%string || (operation =? "turn_on")%string then Ok (VBool true)
       else if (operation =? "turn_off")%string then Ok (VBool false)
       else if (operation =? "toggle")%string then
         b ← ok_or (get dev "state" ≫= fun st => get st capability ≫= as_bool)
               (Invalid "capability has no boolean state to toggle");
         Ok (VBool (negb b))
       else if (operation =? "set")%string then Ok (get_null args "value")
       else Err (Invalid "unknown built-in action"));
    Ok (Call (text dev "appId") "capability.invoke"
          (fields [("deviceId", VString device_id); ("capability", VString capability);
                   ("value", value); ("options", object)])).

Definition delay_error : Error := Invalid "delay must be between 0 and 30 seconds".

(** [dispatch] *)
Definition dispatch (s : Store St) (step : Value) (now : Z) (r : Run) : Result Effect * Run :=
  let app := text step "appId" in
  let id := text step "cardId" in
  match args s step (context r) with
  | Err e => (Err e, r)
  | Ok a =>
      if negb (app =? "stulp")%string then
        match resolve s (context r) false 0 (default object (get step "state")) with
        | Err e => (Err e, r)
        | Ok state =>
            (Ok (Call app "flow.run" (fields [("kind", VString (text step "cardType")); ("id", VString id);
                                              ("args", a); ("state", state)])), r)
        end
      else if is_condition step then
        match condition s id a with
        | Err e => (Err e, r)
        | Ok b => let '(res, r) := complete (VBool b) now r in (_ ← res; Ok Waiting, r)
        end
      else if (id =? "delay")%string then
        match number (get_null a "seconds") with
        | None => (Err delay_error, r)
        | Some seconds =>
            if negb (f_leb (f64_of_decimal false 0 0) seconds && f_leb seconds (f64_of_decimal false 30 0))
            then (Err delay_error, r)
            else (Ok Waiting,
                  with_wake r (Some (saturating_add now (to_u64 (f64_mul seconds (f64_of_decimal false 1000 0))))))
        end
      else if (id =? "notification")%string then (Ok (Notification (text a "excerpt")), r)
      else (action s id a, r)
  end.

(** One filter of an app, or the start of the execution. *)
Definition filter_step (s : Store St) (r : Run) : Result (option Effect) * Run :=
  if negb (starting r) then (Ok None, r)
  else
    match filters r with
    | (id, step) :: rest =>
        let r := with_start r rest (run_starts r) (starting r) in
        match (a ← args s step (context r);
               let state := get_null (context r) "state" in
               let state := if is_null state then object else state in
               overlay ← resolve s (context r) false 0 (get_null step "state");
               state ← set_all state (default [] (as_object overlay));
               Ok (Call (text step "appId") "flow.run"
                     (fields [("kind", VString "trigger"); ("id", VString (text step "cardId"));
                              ("args", a); ("state", state)]))) with
        | Err e => (Err e, r)
        | Ok effect => (Ok (Some effect), with_waiting (with_filtering r (Some id)) (Some step))
        end
    | [] =>
        match (starts ← push_all (fun id => Ok id) MAX_CARDS (run_starts r) [];
               start_many (definition r) starts) with
        | Err e => (Err e, r)
        | Ok x => (Ok None, with_start (with_execution r x) (filters r) (run_starts r) false)
        end
    end.

(** The next card, or the end. *)
Definition advance_card (s : Store St) (now : Z) (r : Run) : Result Effect * Run :=
  match next (definition r) (execution r) with
  | (Err e, x) => (Err e, with_execution r x)
  | (Ok None, x) => (Ok Finished, with_end (with_execution r x) true (error r))
  | (Ok (Some node), x) =>
      let r := with_execution r x in
      match get node "step" with
      | None => (Err (Missing "flow step"), r)
      | Some step =>
          match dispatch s step now (with_waiting r (Some step)) with
          | (Ok effect, r) => (Ok effect, r)
          | (Err e, r) =>
              let '(res, r) := fail (error_text e) r in
              (_ ← res; Ok (if done r then Finished else Waiting), r)
          end
      end
  end.

Definition advance (s : Store St) (now : Z) (r : Run) : Result Effect * Run :=
  if done r then (Ok Finished, r)
  else if deadline r <=? now then let '(res, r) := stop timed_out r in (_ ← res; Ok Finished, r)
  else
    match wake r with
    | Some w =>
        if w <=? now then
          let '(res, r) := complete (VBool true) now (with_wake r None) in (_ ← res; Ok Waiting, r)
        else (Ok Waiting, r)
    | None =>
        match waiting r with
        | Some _ => (Ok Waiting, r)
        | None =>
            match filter_step s r with
            | (Err e, r) => (Err e, r)
            | (Ok (Some effect), r) => (Ok effect, r)
            | (Ok None, r) => advance_card s now r
            end
        end
    end.
End WithStore.
