(* ===== verification/RunsOk.v ===== *)
(** * RunsOk: a run carries out its Flow

    However effects, answers, failures, timers and other changes of the store interleave, a
    run hands out exactly the cards the Flow prescribes for the outcomes they had, each
    once; it ends at its deadline at the latest and then never changes again. *)

From Stdlib Require Import ZArith Lia Ascii String.
From S2P Require Import Prelude Text Errors Slots Float Value Document Stats Flow FlowGraph FlowRun Store StoreOk StoreProps Mutations Templates Runs.

Local Open Scope Z_scope.

(** ** Executions whose outcomes are only known afterwards *)

(** The outcomes of the cards that were delivered and reported, in order. *)
Abbreviation history := (list (nat * Outcome)).

Definition agrees (outcome : nat -> Outcome) (h : history) : Prop :=
  Forall (fun io => outcome io.1 = io.2) h.

(** The outcomes a history knows. *)
Fixpoint oracle (h : history) (i : nat) : Outcome :=
  match h with
  | [] => Failed
  | (j, o) :: h => if (i =? j)%nat then o else oracle h i
  end.

Lemma oracle_agrees h : NoDup (map fst h) -> agrees (oracle h) h.
Proof.
  induction h as [|[j o] h IH]; intros HN; [constructor|]. cbn in HN. apply NoDup_cons in HN as [Hj HN].
  constructor; [cbn; by rewrite Nat.eqb_refl|]. specialize (IH HN). unfold agrees in IH. rewrite Forall_forall in IH.
  apply Forall_forall. intros [i p] Hin. cbn. destruct (Nat.eqb_spec i j) as [->|Hne]; [|by apply (IH (i, p))].
  exfalso. apply Hj. apply list_elem_of_fmap. by exists (j, p).
Qed.

Lemma agrees_snoc outcome h i o : agrees outcome (h ++ [(i, o)]) <-> agrees outcome h /\ outcome i = o.
Proof. unfold agrees. rewrite Forall_app, Forall_singleton. done. Qed.

Section Exec.
Context (def : Value) (Hok : graph_ok def) (ids : list string).
Abbreviation nodes := (array def "nodes").

(** The execution is between two cards. *)
Record exec_idle (h : history) (e : Execution) : Prop := {
  ei_log : map fst h = take (ex_head e) (Flow.pending e);
  ei_once : NoDup (map fst h);
  ei_idle : forall outcome, agrees outcome h -> exists opened, idle def (starts def ids) opened outcome e
}.

(** Card [i] is out. *)
Definition exec_out (h : history) (i : nat) (n : Value) (e1 : Execution) : Prop :=
  exists e, exec_idle h e /\ ex_head e <> ex_tail e /\ next def e = (Ok (Some n), e1)
    /\ Flow.waiting e1 = Some i /\ nodes !! i = Some n.

Definition drained (e : Execution) : Prop := Flow.waiting e = None /\ ex_head e = ex_tail e.

Lemma exec_idle_oracle h e : exec_idle h e -> exists opened, idle def (starts def ids) opened (oracle h) e.
Proof. intros [_ HN Hid]. by apply Hid, oracle_agrees. Qed.

Lemma exec_next h e : exec_idle h e ->
  (next def e = (Ok None, e) /\ drained e)
  \/ exists i n e1, next def e = (Ok (Some n), e1) /\ exec_out h i n e1.
Proof.
  intros He. destruct (exec_idle_oracle h e He) as [opened Hid]. pose proof (idle_waiting _ _ _ _ _ Hid) as Hw.
  pose proof (inv_head _ _ _ _ (idle_inv _ _ _ _ _ Hid)) as Hht.
  destruct (decide (ex_head e = ex_tail e)) as [Heq|Hne].
  - left. split; [|by split]. unfold next. by rewrite Hw, (proj2 (Nat.eqb_eq _ _) Heq).
  - right. destruct (drive_step def Hok _ _ _ e Hid ltac:(lia)) as (i & n & e1 & e2 & o' & Hn & Hw1 & Hp & _).
    exists i, n, e1. split; [done|]. exists e. split_and!; [done|done|done|done|].
    unfold next in Hn. rewrite Hw, (proj2 (Nat.eqb_neq _ _) Hne), Hp in Hn.
    destruct (nodes !! i); [by injection Hn as -> _|done].
Qed.

Lemma exec_report h i n e1 o : exec_out h i n e1 ->
  exists e2, report def o e1 = (Ok tt, e2) /\ exec_idle (h ++ [(i, o)]) e2.
Proof.
  intros (e & He & Hne & Hn & Hw & Hi). pose proof He as [Hlog HN Hid].
  destruct (exec_idle_oracle h e He) as [op0 Hid0].
  pose proof (inv_head _ _ _ _ (idle_inv _ _ _ _ _ Hid0)) as Hht.
  assert (Flow.pending e !! ex_head e = Some i /\ i ∉ map fst h) as [Hp Hnew].
  { destruct (drive_step def Hok _ _ _ e Hid0 ltac:(lia)) as (i' & n' & e1' & _ & _ & Hn' & Hw' & Hp & _).
    rewrite Hn in Hn'. injection Hn' as <- <-. rewrite Hw in Hw'. injection Hw' as <-. split; [done|].
    rewrite Hlog. intros Hin.
    pose proof (inv_queue_nodup _ _ _ _ (idle_inv _ _ _ _ _ Hid0)) as HNq. unfold queued in HNq.
    apply list_elem_of_lookup in Hin as [k Hk]. apply lookup_take_Some in Hk as [Hk Hlt].
    assert (k = ex_head e) as ->; [|lia].
    eapply NoDup_lookup; [exact HNq|apply lookup_take_Some; split; [exact Hk|lia]|].
    apply lookup_take_Some. split; [exact Hp|lia]. }
  assert (HN2 : NoDup (map fst (h ++ [(i, o)]))).
  { rewrite map_app. apply NoDup_app. split_and!; [done|cbn; set_solver|apply NoDup_singleton]. }
  assert (Hstep : forall outcome, agrees outcome (h ++ [(i, o)]) -> exists e2 opened',
    report def o e1 = (Ok tt, e2) /\ idle def (starts def ids) opened' outcome e2 /\
    ex_head e2 = S (ex_head e) /\ take (ex_head e) (Flow.pending e2) = take (ex_head e) (Flow.pending e) /\
    Flow.pending e2 !! ex_head e = Some i).
  { intros outcome [Ha Ho]%agrees_snoc. destruct (Hid outcome Ha) as [opened Hidle].
    destruct (drive_step def Hok _ _ _ e Hidle ltac:(lia))
      as (i' & n' & e1' & e2 & opened' & Hn' & Hw' & _ & Hr & Hid' & Hh & Ht & Hp').
    rewrite Hn in Hn'. injection Hn' as <- <-. rewrite Hw in Hw'. injection Hw' as <-. rewrite Ho in Hr.
    by exists e2, opened'. }
  destruct (Hstep _ (oracle_agrees _ HN2)) as (e2 & op2 & Hr & _ & Hh & Ht & Hp2).
  exists e2. split; [done|]. constructor.
  - rewrite map_app, Hlog, Hh, (take_S_r _ _ _ Hp2), Ht. done.
  - done.
  - intros outcome Ha. destruct (Hstep outcome Ha) as (e2' & op' & Hr' & Hid' & _).
    rewrite Hr in Hr'. injection Hr' as <-. by exists op'.
Qed.

(** What was delivered when nothing is left. *)
Lemma exec_drained h e : exec_idle h e -> drained e ->
  forall outcome, agrees outcome h -> forall j, j ∈ map fst h <-> runs def (starts def ids) outcome j.
Proof.
  intros [Hlog _ Hid] [_ Hd] outcome Ha. destruct (Hid outcome Ha) as [opened [Hi Hw Ht Hop Hc]].
  rewrite Hlog, Hd. change (take (ex_tail e) (Flow.pending e)) with (queued e). intros j. split.
  - by apply causal_runs.
  - pose proof (inv_queue _ _ _ _ Hi) as Hq.
    induction 1 as [i j HT Hij|i j _ IHr Ho Hij]; apply Hq; exists i; (split; [|done]); apply Hop; [by left|].
    right. rewrite Hd. by split.
Qed.

(** Whatever was delivered so far was due. *)
Lemma exec_due h e : exec_idle h e ->
  forall outcome, agrees outcome h -> forall j, j ∈ map fst h -> runs def (starts def ids) outcome j.
Proof.
  intros [Hlog _ Hid] outcome Ha j Hj. destruct (Hid outcome Ha) as [opened [Hi Hw Ht Hop Hc]].
  eapply causal_runs; [exact Hc|]. rewrite Hlog in Hj. unfold queued.
  eapply elem_of_sublist; [exact Hj|]. pose proof (inv_head _ _ _ _ Hi).
  rewrite <- (Nat.min_l (ex_head e) (ex_tail e)), <- take_take by lia. apply sublist_take.
Qed.
End Exec.

Lemma exec_start def ids e : start_many def ids = Ok e -> graph_ok def /\ exec_idle def ids [] e.
Proof.
  unfold start_many. intros Hs. destruct (validate def) as [[]|er] eqn:Ev; cbn [mbind result_bind] in Hs; [|done].
  assert (Hok : graph_ok def) by (by apply validate_graph_ok). split; [done|].
  assert (forall outcome, idle def (starts def ids) (starts def ids) outcome e /\ ex_head e = 0%nat) as H.
  { intros outcome. destruct (start_triggers_idle def Hok ids no_node outcome _ _ (idle_start _ _) eq_refl Hs) as [Hid Hh].
    split; [|done]. eapply idle_ext; [| |exact Hid]; unfold no_node; tauto. }
  constructor; [by rewrite (proj2 (H (fun _ => Failed)))|constructor|].
  intros outcome _. exists (starts def ids). apply H.
Qed.

(** ** The results of the cards *)

Section RunOk.
Context (def : Value) (ids : list string).
Abbreviation nodes := (array def "nodes").

Definition card_step (i : nat) : option Value := n ← nodes !! i; get n "step".
Definition card_condition (i : nat) : bool :=
  match card_step i with Some step => is_condition step | None => false end.

(** The report [v] of a condition that was delivered as [io]. *)
Definition condition_report (io : nat * Outcome) (v : Value) : Prop :=
  exists n step raw, nodes !! io.1 = Some n /\ get n "step" = Some step /\ io.2 = Completed raw
    /\ text v "cardId" = text step "cardId" /\ boolean v "passed" = negb (blocks n raw).

Definition action_report (io : nat * Outcome) (v : Value) : Prop :=
  exists n step, nodes !! io.1 = Some n /\ get n "step" = Some step
    /\ text v "cardId" = text step "cardId"
    /\ ((io.2 = Failed /\ is_Some (get v "error")) \/ (io.2 = Completed true /\ get v "error" = None)).

(** The results are the reports of the history, in its order. *)
Definition results (h : history) (r : Run) : Prop :=
  Forall2 condition_report (List.filter (fun io => card_condition io.1) h) (conditions r) /\
  Forall2 action_report (List.filter (fun io => negb (card_condition io.1)) h) (actions r).

Record run_ok (h : history) (r : Run) : Prop := {
  rk_definition : definition r = def;
  rk_started : starting r = false;
  rk_filter : filtering r = None;
  rk_going : done r = false -> results h r /\
    match waiting r with
    | None => exec_idle def ids h (execution r)
    | Some step => exists i n, exec_out def ids h i n (execution r) /\ get n "step" = Some step
    end;
  rk_done : done r = true -> drained (execution r) -> exec_idle def ids h (execution r) /\ results h r
}.

Lemma results_app h r io :
  results h r ->
  (forall v, card_condition io.1 = true -> condition_report io v ->
     results (h ++ [io]) (with_results r (conditions r ++ [v]) (actions r))) /\
  (forall v, card_condition io.1 = false -> action_report io v ->
     results (h ++ [io]) (with_results r (conditions r) (actions r ++ [v]))).
Proof.
  intros [Hc Ha]. unfold results. cbn [conditions actions with_results].
  rewrite !List.filter_app. cbn [List.filter]. split; intros v -> Hv; cbn [negb]; rewrite app_nil_r; split;
    try done; apply Forall2_app; try done; by repeat constructor.
Qed.

Lemma results_ext h r r' :
  conditions r' = conditions r -> actions r' = actions r -> results h r -> results h r'.
Proof. unfold results. by intros -> ->. Qed.

Lemma step_result_text step k : k <> "appId"%string -> k <> "cardType"%string -> k <> "cardId"%string ->
  get (step_result step) k = None.
Proof.
  intros H1 H2 H3. unfold step_result, get, fields. cbn [as_object mbind option_bind obj_get].
  by repeat match goal with |- context [(?a =? ?b)%string] => destruct (String.eqb_spec a b); [congruence|] end.
Qed.

(** A run that stops keeps what it had; a waiting card leaves its execution undrained. *)
Lemma stop_ok h m r : run_ok h r -> run_ok h (stop m r).2.
Proof.
  intros Hr. pose proof Hr as [H1 H2 H3 H4 H5]. unfold stop. destruct (done r) eqn:Ed; [done|].
  destruct (H4 eq_refl) as [Hres Hp]. destruct (waiting r) as [step|] eqn:Ew.
  - destruct Hp as (i & n & (e & _ & _ & _ & Hw & _) & _).
    destruct (is_condition step); constructor; cbn; try done; intros _ [Hd _]; congruence.
  - by constructor.
Qed.

Lemma card_condition_step i n step :
  nodes !! i = Some n -> get n "step" = Some step -> card_condition i = is_condition step.
Proof. intros Hn Hs. unfold card_condition, card_step. rewrite Hn. cbn. by rewrite Hs. Qed.

Lemma kind_step n step : get n "step" = Some step -> kind n = card_kind (text step "cardType").
Proof. intros H. unfold kind. by rewrite H. Qed.

(** The reports the two ways of ending a card leave. *)
Lemma set_result step k v : exists x, set (step_result step) k v = Ok x /\ get x k = Some v /\
  (forall k', k <> k' -> get x k' = get (step_result step) k').
Proof.
  destruct (set (step_result step) k v) as [x|] eqn:E; [|done]. exists x. split; [done|].
  split; [by apply get_set_eq in E|]. intros k' Hk. by apply (get_set_ne _ _ _ _ _ E).
Qed.

Lemma complete_ok h v now r : graph_ok def -> run_ok h r -> exists h', run_ok h' (complete v now r).2.
Proof.
  intros Hg Hr. pose proof Hr as [H1 H2 H3 H4 H5]. unfold complete. destruct (done r) eqn:Ed; [by exists h|].
  destruct (deadline r <=? now); [exists h; by apply stop_ok|]. rewrite H3.
  destruct (waiting r) as [step|] eqn:Ew; [|by exists h].
  destruct (H4 eq_refl) as [Hres (i & n & Ho & Hn)].
  assert (nodes !! i = Some n) as Hi by (destruct Ho as (? & _ & _ & _ & _ & ?); done).
  pose proof (card_condition_step i n step Hi Hn) as Hcc.
  destruct (if is_condition step then as_bool v else Some true) as [raw|] eqn:Eraw; [|exists h; by apply stop_ok].
  destruct (set_result step "result" v) as (x & Ex & _ & Hx). rewrite Ex. cbn [mbind result_bind].
  destruct (exec_report def Hg ids h i n (execution r) (Completed raw) Ho) as (e2 & He & Hid). cbn [report] in He.
  exists (h ++ [(i, Completed raw)]). rewrite H1.
  assert (Hx1 : forall k, k <> "result"%string -> get x k = get (step_result step) k) by (intros; by apply Hx).
  destruct (is_condition step) eqn:Ec.
  - destruct (set x "passed" _) as [y|] eqn:Ey; [|].
    2:{ destruct (set_is_object _ _ _ _ Ex) as [o Ho']. unfold set in Ey. by rewrite Ho' in Ey. }
    rewrite He. constructor; cbn; try done; [|intros ?; congruence].
    intros _. split; [|done].
    eapply results_ext; [| |apply (proj1 (results_app h r (i, Completed raw) Hres) y)]; try done.
    exists n, step, raw. split_and!; try done.
    + rewrite (text_set_ne _ _ _ _ _ Ey) by done. unfold text. by rewrite Hx1.
    + unfold boolean. rewrite (get_set_eq _ _ _ _ Ey). cbn. unfold blocks. rewrite Hn.
      rewrite (kind_step _ _ Hn). unfold is_condition in Ec. apply String.eqb_eq in Ec. rewrite Ec.
      unfold boolean. by destruct raw, (default false (get step "inverted" ≫= as_bool)).
  - rewrite He. injection Eraw as <-. constructor; cbn; try done; [|intros ?; congruence].
    intros _. split; [|done].
    eapply results_ext; [| |apply (proj2 (results_app h r (i, Completed true) Hres) x)]; try done.
    exists n, step. split_and!; try done; [unfold text; by rewrite Hx1|]. right. split; [done|].
    rewrite Hx1 by done. by apply step_result_text.
Qed.

Lemma fail_ok h m r : graph_ok def -> run_ok h r -> exists h', run_ok h' (fail m r).2.
Proof.
  intros Hg Hr. pose proof Hr as [H1 H2 H3 H4 H5]. unfold fail. destruct (done r) eqn:Ed; [by exists h|].
  destruct (waiting r) as [step|] eqn:Ew; [|exists h; by apply stop_ok]. rewrite H3. cbn [bool_decide andb].
  rewrite bool_decide_eq_true_2 by done. cbn [andb].
  destruct (text step "cardType" =? "action")%string eqn:Ea; [|exists h; by apply stop_ok].
  destruct (H4 eq_refl) as [Hres (i & n & Ho & Hn)].
  assert (nodes !! i = Some n) as Hi by (destruct Ho as (? & _ & _ & _ & _ & ?); done).
  destruct (set_result step "error" (VString m)) as (x & Ex & Hget & Hx). rewrite Ex.
  destruct (exec_report def Hg ids h i n (execution r) Failed Ho) as (e2 & He & Hid). cbn [report] in He.
  cbn [execution with_waiting]. rewrite He. exists (h ++ [(i, Failed)]).
  assert (run_ok (h ++ [(i, Failed)]) (with_results (with_wake (with_execution (with_waiting r None) e2) None)
    (conditions r) (actions r ++ [x]))) as Hok'.
  { constructor; cbn; try done; [|intros ?; congruence]. intros _. split; [|done].
    apply String.eqb_eq in Ea.
    eapply results_ext; [| |apply (proj2 (results_app h r (i, Failed) Hres) x)]; try done.
    - cbn. rewrite (card_condition_step i n step Hi Hn). unfold is_condition. by rewrite Ea.
    - exists n, step. split_and!; try done; [unfold text; by rewrite Hx|]. left. by rewrite Hget. }
  cbn [snd error]. destruct (is_empty _); [|done].
  destruct Hok' as [G1 G2 G3 G4 G5]. constructor; cbn in *; try done.
Qed.

Lemma node_has_step i n : graph_ok def -> nodes !! i = Some n -> is_Some (get n "step").
Proof.
  intros Hg Hn. pose proof (go_cards _ Hg) as HF. rewrite Forall_forall in HF.
  specialize (HF n (list_elem_of_lookup_2 _ _ _ Hn)). unfold validate_node in HF.
  destruct (is_empty _); [done|]. destruct (is_empty _); [done|]. by destruct (get n "step").
Qed.

Lemma with_wake_ok h r w : run_ok h r -> run_ok h (with_wake r w).
Proof. intros [H1 H2 H3 H4 H5]. by constructor. Qed.

Section WithStore.
Context {St : Type} {HS : Storage St}.

(** What a card does to the run that waits for it: nothing, its own completion, or a timer. *)
Lemma dispatch_frame (s : Store St) step now r :
  (dispatch s step now r).2 = r
  \/ (exists b, (dispatch s step now r).2 = (complete (VBool b) now r).2)
  \/ (exists w, (dispatch s step now r).2 = with_wake r w).
Proof.
  unfold dispatch. destruct (args s step (context r)) as [a|e]; [|by left].
  destruct (negb _). { destruct (resolve _ _ _ _ _); by left. }
  destruct (is_condition step).
  - destruct (condition s _ a) as [b|e]; [|by left]. right. left. exists b.
    by destruct (complete (VBool b) now r).
  - destruct (_ =? _)%string.
    + destruct (number _) as [x|]; [|by left]. destruct (negb _); [by left|]. right. right. by eexists.
    + destruct (_ =? _)%string; by left.
Qed.

Lemma dispatch_ok h (s : Store St) step now r :
  graph_ok def -> run_ok h r -> exists h', run_ok h' (dispatch s step now r).2.
Proof.
  intros Hg Hr. destruct (dispatch_frame s step now r) as [->|[[b ->]|[w ->]]].
  - by exists h.
  - by apply complete_ok with h.
  - exists h. by apply with_wake_ok.
Qed.

Lemma advance_card_ok h (s : Store St) now r :
  graph_ok def -> run_ok h r -> done r = false -> waiting r = None ->
  exists h', run_ok h' (advance_card s now r).2.
Proof.
  intros Hg [H1 H2 H3 H4 H5] Ed Ew. rewrite Ew in H4. destruct (H4 Ed) as [Hres Hid].
  unfold advance_card. rewrite H1.
  destruct (exec_next def Hg ids h _ Hid) as [[-> Hd]|(i & n & e1 & -> & Ho)].
  - exists h. by constructor.
  - assert (Hi : nodes !! i = Some n) by (destruct Ho as (? & _ & _ & _ & _ & ?); done).
    destruct (node_has_step i n Hg Hi) as [step Hst].
    rewrite Hst.
    assert (run_ok h (with_waiting (with_execution r e1) (Some step))) as Hr1.
    { constructor; cbn; try done; [|congruence]. intros _. split; [done|]. by exists i, n. }
    destruct (dispatch_ok h s step now _ Hg Hr1) as [h1 Hr2].
    destruct (dispatch _ _ _ _) as [[ef|er] r2]; cbn [snd] in Hr2; [by exists h1|].
    destruct (fail_ok h1 (error_text er) r2 Hg Hr2) as [h2 Hr3].
    destruct (fail _ _) as [res r3]. by exists h2.
Qed.

Lemma advance_ok h (s : Store St) now r :
  graph_ok def -> run_ok h r -> exists h', run_ok h' (advance s now r).2.
Proof.
  intros Hg Hr. unfold advance. destruct (done r) eqn:Ed; [by exists h|].
  destruct (deadline r <=? now).
  { pose proof (stop_ok h timed_out r Hr) as Hs. destruct (stop timed_out r). by exists h. }
  destruct (wake r) as [w|].
  { destruct (w <=? now); [|by exists h].
    pose proof (complete_ok h (VBool true) now (with_wake r None) Hg (with_wake_ok h r None Hr)) as Hc.
    by destruct (complete _ _ _). }
  destruct (waiting r) as [step|] eqn:Ew; [by exists h|].
  unfold filter_step. rewrite (rk_started _ _ Hr). cbn [negb]. by eapply advance_card_ok.
Qed.
End WithStore.
End RunOk.

(** ** Runs as a whole *)

(** What can happen to a run; [Advance] may see a different store every time. *)
Inductive run_event {St : Type} : Type :=
| Advance (s : Store St) (now : Z)
| Answer (value : Value) (now : Z)
| Failure (message : string)
| Stop (message : string).

(** *** The account of a run

    What a run does, told without its queue: the cards that were carried out with their outcomes,
    what is reported of them, and whether a card is out. *)

Inductive Phase : Type := Ready | Out (i : nat) (until : option Z) | Over.

#[export] Instance Phase_eq_dec : EqDecision Phase.
Proof. solve_decision. Defined.

Record Account : Type := mk_account {
  ac_log : history;
  ac_conditions : list Value;
  ac_actions : list Value;
  ac_blocked : bool;
  ac_error : string;
  ac_phase : Phase
}.

Definition with_phase (a : Account) (p : Phase) : Account :=
  mk_account (ac_log a) (ac_conditions a) (ac_actions a) (ac_blocked a) (ac_error a) p.

(** What the result says of a card. *)
Definition told (step : Value) (more : list (string * Value)) : Value :=
  fields ([("appId", VString (text step "appId")); ("cardId", VString (text step "cardId"));
           ("cardType", VString (text step "cardType"))]%string ++ more).

(** The whole run ends; a card that is out is told without an outcome. *)
Definition ended (card : option Value) (message : string) (a : Account) : Account :=
  match card with
  | Some step =>
      if is_condition step
      then mk_account (ac_log a) (ac_conditions a ++ [told step []]) (ac_actions a) (ac_blocked a) message Over
      else mk_account (ac_log a) (ac_conditions a) (ac_actions a ++ [told step []]) (ac_blocked a) message Over
  | None => mk_account (ac_log a) (ac_conditions a) (ac_actions a) (ac_blocked a) message Over
  end.

(** The card answered [v]: a condition must say yes or no, and an inverted one is told the
    other way around; an action is done. *)
Definition answered (i : nat) (step v : Value) (a : Account) : Account :=
  if is_condition step then
    match as_bool v with
    | Some raw =>
        let passed := xorb raw (boolean step "inverted") in
        mk_account (ac_log a ++ [(i, Completed raw)])
          (ac_conditions a ++ [told step [("result", v); ("passed", VBool passed)]%string]) (ac_actions a)
          (ac_blocked a || negb passed) (ac_error a) Ready
    | None => ended (Some step) "flow condition did not return a boolean" a
    end
  else
    mk_account (ac_log a ++ [(i, Completed true)]) (ac_conditions a)
      (ac_actions a ++ [told step [("result", v)]%string]) (ac_blocked a) (ac_error a) Ready.

(** The card failed: an action ends its own branch, and the run tells the first such failure;
    everything else ends the run. *)
Definition broken (i : nat) (step : Value) (message : string) (a : Account) : Account :=
  if (text step "cardType" =? "action")%string then
    mk_account (ac_log a ++ [(i, Failed)]) (ac_conditions a)
      (ac_actions a ++ [told step [("error", VString message)]%string]) (ac_blocked a)
      (if is_empty (ac_error a) then message else ac_error a) Ready
  else ended (Some step) message a.

(** What a card asks for when it is delivered. *)
Inductive Served : Type :=
| Hands (e : Effect)
| Waits (until : Z)
| Settles (b : bool)
| Breaks (message : string).

Section Serves.
Context {St : Type} (s : Store St) (ctx : Value) (now : Z).

(** A built-in condition about the first device of its arguments. *)
Inductive holds (id : string) (a : Value) : bool -> Prop :=
| holds_equals dev :
    id = "device_capability_equals"%string -> device (selected_device a) s = Ok dev ->
    holds id a (equal (get_null (get_null dev "state") (text a "capability")) (get_null a "value"))
| holds_is cap dev :
    derived id = Some (cap, "is"%string) -> id <> "device_capability_equals"%string ->
    device (selected_device a) s = Ok dev ->
    holds id a (equal (get_null (get_null dev "state") cap) (get_null a "value"))
| holds_on cap dev b :
    derived id = Some (cap, "is_on"%string) -> device (selected_device a) s = Ok dev ->
    (b = true <-> get_null (get_null dev "state") cap = VBool true) -> holds id a b
| holds_off cap dev b :
    derived id = Some (cap, "is_off"%string) -> device (selected_device a) s = Ok dev ->
    (b = true <-> get_null (get_null dev "state") cap = VBool false) -> holds id a b
| holds_above cap dev x y :
    derived id = Some (cap, "above"%string) -> device (selected_device a) s = Ok dev ->
    number (get_null (get_null dev "state") cap) = Some x -> number (get_null a "value") = Some y ->
    holds id a (f_ltb y x)
| holds_below cap dev x y :
    derived id = Some (cap, "below"%string) -> device (selected_device a) s = Ok dev ->
    number (get_null (get_null dev "state") cap) = Some x -> number (get_null a "value") = Some y ->
    holds id a (f_ltb x y).

(** The capability a built-in action sets, and to which value. *)
Inductive wants (dev : Value) (id : string) (a : Value) : string -> Value -> Prop :=
| wants_value : id = "set_device_capability"%string -> wants dev id a (text a "capability") (get_null a "value")
| wants_set cap : derived id = Some (cap, "set"%string) -> wants dev id a cap (get_null a "value")
| wants_run cap : derived id = Some (cap, "run"%string) -> wants dev id a cap (VBool true)
| wants_on cap : derived id = Some (cap, "turn_on"%string) -> wants dev id a cap (VBool true)
| wants_off cap : derived id = Some (cap, "turn_off"%string) -> wants dev id a cap (VBool false)
| wants_toggle cap b :
    derived id = Some (cap, "toggle"%string) -> get_null (get_null dev "state") cap = VBool b ->
    wants dev id a cap (VBool (negb b)).

Inductive serves (step : Value) : Served -> Prop :=
| serves_app a state :
    text step "appId" <> "stulp"%string -> args s step ctx = Ok a ->
    resolve s ctx false 0 (default object (get step "state")) = Ok state ->
    serves step (Hands (Call (text step "appId") "flow.run"
      (fields [("kind", VString (text step "cardType")); ("id", VString (text step "cardId"));
               ("args", a); ("state", state)]%string)))
| serves_condition a b :
    text step "appId" = "stulp"%string -> is_condition step = true -> args s step ctx = Ok a ->
    holds (text step "cardId") a b -> serves step (Settles b)
| serves_delay a seconds :
    text step "appId" = "stulp"%string -> is_condition step = false -> text step "cardId" = "delay"%string ->
    args s step ctx = Ok a -> number (get_null a "seconds") = Some seconds ->
    f_leb (f64_of_decimal false 0 0) seconds = true -> f_leb seconds (f64_of_decimal false 30 0) = true ->
    serves step (Waits (saturating_add now (to_u64 (f64_mul seconds (f64_of_decimal false 1000 0)))))
| serves_notification a :
    text step "appId" = "stulp"%string -> is_condition step = false -> text step "cardId" = "notification"%string ->
    args s step ctx = Ok a -> serves step (Hands (Notification (text a "excerpt")))
| serves_action a dev cap v :
    text step "appId" = "stulp"%string -> is_condition step = false ->
    text step "cardId" <> "delay"%string -> text step "cardId" <> "notification"%string ->
    args s step ctx = Ok a -> device (selected_device a) s = Ok dev ->
    VString cap ∈ array dev "capabilities" -> wants dev (text step "cardId") a cap v ->
    serves step (Hands (Call (text dev "appId") "capability.invoke"
      (fields [("deviceId", VString (selected_device a)); ("capability", VString cap); ("value", v);
               ("options", object)]%string)))
| serves_no_arguments e : args s step ctx = Err e -> serves step (Breaks (error_text e))
| serves_no_state a e :
    args s step ctx = Ok a -> text step "appId" <> "stulp"%string ->
    resolve s ctx false 0 (default object (get step "state")) = Err e -> serves step (Breaks (error_text e))
| serves_no_condition a e :
    args s step ctx = Ok a -> text step "appId" = "stulp"%string -> is_condition step = true ->
    condition s (text step "cardId") a = Err e -> serves step (Breaks (error_text e))
| serves_no_delay a :
    args s step ctx = Ok a -> text step "appId" = "stulp"%string -> is_condition step = false ->
    text step "cardId" = "delay"%string ->
    (forall x, number (get_null a "seconds") = Some x ->
       f_leb (f64_of_decimal false 0 0) x && f_leb x (f64_of_decimal false 30 0) = false) ->
    serves step (Breaks (error_text delay_error))
| serves_no_action a e :
    args s step ctx = Ok a -> text step "appId" = "stulp"%string -> is_condition step = false ->
    text step "cardId" <> "delay"%string -> text step "cardId" <> "notification"%string ->
    action s (text step "cardId") a = Err e -> serves step (Breaks (error_text e)).

Lemma state_value dev cap :
  default VNull (get dev "state" ≫= fun st => get st cap) = get_null (get_null dev "state") cap.
Proof. unfold get_null. by destruct (get dev "state"). Qed.

Lemma as_bool_is v b : as_bool v = Some b <-> v = VBool b.
Proof. split; [by destruct v as [|? | | | |]; intros [= ->]|by intros ->]. Qed.

Lemma condition_holds id a b : condition s id a = Ok b -> holds id a b.
Proof.
  unfold condition. intros H.
  destruct (String.eqb_spec id "device_capability_equals") as [Hid|Hid]; cbn [mbind result_bind] in H.
  - destruct (device _ s) as [dev|] eqn:Ed; cbn [mbind result_bind] in H; [|done].
    rewrite state_value in H. injection H as <-. by eapply holds_equals.
  - destruct (derived id) as [[cap op]|] eqn:Ei; cbn [ok_or mbind result_bind] in H; [|done].
    destruct (device _ s) as [dev|] eqn:Ed; cbn [mbind result_bind] in H; [|done]. rewrite state_value in H.
    destruct (String.eqb_spec op "is") as [->|_]; [injection H as <-; by eapply holds_is|].
    destruct (String.eqb_spec op "is_on") as [->|_].
    { injection H as <-. eapply holds_on; [done..|]. by rewrite bool_decide_eq_true, as_bool_is. }
    destruct (String.eqb_spec op "is_off") as [->|_].
    { injection H as <-. eapply holds_off; [done..|]. by rewrite bool_decide_eq_true, as_bool_is. }
    destruct (String.eqb_spec op "above") as [->|_]; cbn [orb] in H.
    { destruct (number (get_null (get_null dev "state") cap)) as [x|] eqn:Ex; cbn [ok_or mbind result_bind] in H; [|done].
      destruct (number (get_null a "value")) as [y|] eqn:Ey; cbn [ok_or mbind result_bind] in H; [|done].
      injection H as <-. by eapply holds_above. }
    destruct (String.eqb_spec op "below") as [->|_]; [|done].
    destruct (number (get_null (get_null dev "state") cap)) as [x|] eqn:Ex; cbn [ok_or mbind result_bind] in H; [|done].
    destruct (number (get_null a "value")) as [y|] eqn:Ey; cbn [ok_or mbind result_bind] in H; [|done].
    injection H as <-. by eapply holds_below.
Qed.

Lemma action_wants id a e :
  action s id a = Ok e ->
  exists dev cap v, device (selected_device a) s = Ok dev /\ VString cap ∈ array dev "capabilities" /\ wants dev id a cap v
    /\ e = Call (text dev "appId") "capability.invoke"
         (fields [("deviceId", VString (selected_device a)); ("capability", VString cap); ("value", v);
                  ("options", object)]%string).
Proof.
  unfold action. intros H.
  assert (forall dev cap, existsb (fun v => bool_decide (as_str v = Some cap)) (array dev "capabilities") = true ->
    VString cap ∈ array dev "capabilities") as Hin.
  { intros dev cap (v & Hv & Hb)%existsb_exists. apply list_elem_of_In in Hv. apply bool_decide_eq_true in Hb.
    destruct v; try done. by injection Hb as ->. }
  destruct (String.eqb_spec id "set_device_capability") as [Hid|Hid]; cbn [mbind result_bind] in H.
  - destruct (device _ s) as [dev|] eqn:Ed; cbn [mbind result_bind] in H; [|done].
    destruct (existsb _ _) eqn:Ex; [|done]. cbn in H. injection H as <-. exists dev, (text a "capability"), (get_null a "value").
    split_and!; [done|by apply Hin|by apply wants_value|done].
  - destruct (derived id) as [[cap op]|] eqn:Ei; cbn [ok_or mbind result_bind] in H; [|done].
    destruct (device _ s) as [dev|] eqn:Ed; cbn [mbind result_bind] in H; [|done].
    destruct (existsb _ _) eqn:Ex; [|done]. cbn [negb] in H.
    destruct (_ : Result Value) as [v|] eqn:Ev in H; cbn [mbind result_bind] in H; [|done]. injection H as <-.
    exists dev, cap, v. split_and!; [done|by apply Hin| |done].
    destruct (String.eqb_spec op "run") as [->|_]; [injection Ev as <-; by apply wants_run|].
    destruct (String.eqb_spec op "turn_on") as [->|_]; [injection Ev as <-; by apply wants_on|]. cbn [orb] in Ev.
    destruct (String.eqb_spec op "turn_off") as [->|_]; [injection Ev as <-; by apply wants_off|].
    destruct (String.eqb_spec op "toggle") as [->|_].
    { destruct (get dev "state" ≫= _) as [b|] eqn:Eb; cbn [ok_or mbind result_bind] in Ev; [|done]. injection Ev as <-.
      apply wants_toggle; [done|]. rewrite <- state_value. destruct (get dev "state") as [st|]; [|done]. cbn in *.
      destruct (get st cap) as [w|]; [|done]. cbn in *. by apply as_bool_is. }
    destruct (String.eqb_spec op "set") as [->|_]; [injection Ev as <-; by apply wants_set|done].
Qed.
End Serves.

(** The time at which something is looked at. *)
Definition moment {St} (op : run_event (St := St)) : option Z :=
  match op with Advance _ now | Answer _ now => Some now | _ => None end.

Section Account.
Context {St : Type} {HS : Storage St} (def : Value) (ids : list string) (ctx : Value) (limit : Z).

Definition out_card (a : Account) : option Value :=
  match ac_phase a with Out i _ => card_step def i | _ => None end.

(** One event of a run, the effect it gives to whoever advances the run, and the account after
    it.  [limit] is the deadline of the run and [ctx] what its templates may refer to. *)
Inductive account_step (a : Account) : run_event (St := St) -> option Effect -> Account -> Prop :=
| as_over op :
    ac_phase a = Over ->
    account_step a op (match op with Advance _ _ => Some Finished | _ => None end) a
| as_late op now :
    ac_phase a <> Over -> moment op = Some now -> limit <= now ->
    account_step a op (match op with Advance _ _ => Some Finished | _ => None end) (ended (out_card a) timed_out a)
| as_stop m : ac_phase a <> Over -> account_step a (Stop m) None (ended (out_card a) m a)
| as_lost m : ac_phase a = Ready -> account_step a (Failure m) None (ended None m a)
| as_failure m i w step :
    ac_phase a = Out i w -> card_step def i = Some step -> account_step a (Failure m) None (broken i step m a)
| as_unasked v now : ac_phase a = Ready -> now < limit -> account_step a (Answer v now) None a
| as_answer v now i w step :
    ac_phase a = Out i w -> now < limit -> card_step def i = Some step ->
    account_step a (Answer v now) None (answered i step v a)
| as_wait s now i w :
    ac_phase a = Out i w -> now < limit -> (forall u, w = Some u -> now < u) ->
    account_step a (Advance s now) (Some Waiting) a
| as_wake s now i u step :
    ac_phase a = Out i (Some u) -> now < limit -> u <= now -> card_step def i = Some step ->
    account_step a (Advance s now) (Some Waiting) (answered i step (VBool true) a)
| as_end s now :
    ac_phase a = Ready -> now < limit ->
    (forall outcome, agrees outcome (ac_log a) -> forall j, runs def (starts def ids) outcome j <-> j ∈ map fst (ac_log a)) ->
    account_step a (Advance s now) (Some Finished) (with_phase a Over)
| as_card s now i step sv :
    ac_phase a = Ready -> now < limit -> i ∉ map fst (ac_log a) ->
    (forall outcome, agrees outcome (ac_log a) -> runs def (starts def ids) outcome i) ->
    card_step def i = Some step -> serves s ctx now step sv ->
    account_step a (Advance s now)
      (Some match sv with
            | Hands e => e
            | Waits _ | Settles _ => Waiting
            | Breaks m => match ac_phase (broken i step m a) with Over => Finished | _ => Waiting end
            end)
      match sv with
      | Hands _ => with_phase a (Out i None)
      | Waits u => with_phase a (Out i (Some u))
      | Settles b => answered i step (VBool b) a
      | Breaks m => broken i step m a
      end.

(** The account of a whole run: its events with the effects they gave. *)
Inductive accounts (a : Account) : list (run_event (St := St) * option Effect) -> Account -> Prop :=
| accounts_nil : accounts a [] a
| accounts_cons op out l a1 a2 : account_step a op out a1 -> accounts a1 l a2 -> accounts a ((op, out) :: l) a2.

(** The account and the run agree. *)
Record sim (a : Account) (r : Run) : Prop := {
  sm_definition : definition r = def;
  sm_started : starting r = false;
  sm_filter : filtering r = None;
  sm_context : context r = ctx;
  sm_deadline : deadline r = limit;
  sm_conditions : conditions r = ac_conditions a;
  sm_actions : actions r = ac_actions a;
  sm_blocked : blocked r = ac_blocked a;
  sm_error : error r = ac_error a;
  sm_phase :
    match ac_phase a with
    | Ready => done r = false /\ waiting r = None /\ wake r = None /\ exec_idle def ids (ac_log a) (execution r)
    | Out i w => done r = false /\ wake r = w /\ exists n step, exec_out def ids (ac_log a) i n (execution r)
                   /\ get n "step" = Some step /\ waiting r = Some step
    | Over => done r = true
    end
}.

Lemma told_step step : step_result step = told step [].
Proof. done. Qed.

Lemma out_step h i n e step : exec_out def ids h i n e -> get n "step" = Some step -> card_step def i = Some step.
Proof. intros (? & _ & _ & _ & _ & Hi) Hs. unfold card_step. rewrite Hi. done. Qed.

Lemma sim_stop m a r : sim a r -> ac_phase a <> Over -> sim (ended (out_card a) m a) (stop m r).2.
Proof.
  intros [] Hp. unfold stop, ended, out_card. destruct (ac_phase a) as [|i w|]; [| |done].
  - destruct sm_phase0 as (-> & -> & _). by constructor.
  - destruct sm_phase0 as (-> & _ & n & step & Ho & Hs & ->). rewrite (out_step _ _ _ _ _ Ho Hs).
    destruct (is_condition step); constructor; cbn; try done; by rewrite ?sm_conditions0, ?sm_actions0, told_step.
Qed.

Context (Hg : graph_ok def).

Lemma sim_complete v now a r i w step :
  sim a r -> ac_phase a = Out i w -> card_step def i = Some step -> now < limit ->
  exists r', complete v now r = (Ok tt, r') /\ sim (answered i step v a) r'.
Proof.
  intros Hs Hp Hc Hn. pose proof (sim_stop "flow condition did not return a boolean" a r Hs ltac:(by rewrite Hp)) as Hstop.
  destruct Hs as []. rewrite Hp in sm_phase0.
  destruct sm_phase0 as (Hd & Hw & n & step' & Ho & Hst & Hwt). rewrite (out_step _ _ _ _ _ Ho Hst) in Hc. injection Hc as ->.
  unfold complete. rewrite Hd, sm_deadline0, sm_filter0, Hwt. destruct (Z.leb_spec limit now); [lia|].
  unfold out_card in Hstop. rewrite Hp, (out_step _ _ _ _ _ Ho Hst) in Hstop.
  unfold answered. destruct (is_condition step) eqn:Ec.
  - destruct (as_bool v) as [raw|].
    2:{ unfold stop in *. rewrite Hd in *. by eexists. }
    destruct (exec_report def Hg ids _ i n (execution r) (Completed raw) Ho) as (e2 & He & Hid). cbn [report] in He.
    change (set (step_result step) "result" v) with (Ok (told step [("result", v)]%string) : Result Value).
    cbn [mbind result_bind]. set (passed := xorb raw _).
    change (set (told step [("result", v)]%string) "passed" (VBool passed))
      with (Ok (told step [("result", v); ("passed", VBool passed)]%string) : Result Value).
    cbn [mbind result_bind]. rewrite sm_definition0, He. eexists. split; [done|].
    constructor; cbn; try done; by rewrite ?sm_conditions0, ?sm_actions0, ?sm_blocked0.
  - destruct (exec_report def Hg ids _ i n (execution r) (Completed true) Ho) as (e2 & He & Hid). cbn [report] in He.
    change (set (step_result step) "result" v) with (Ok (told step [("result", v)]%string) : Result Value).
    cbn [mbind result_bind]. rewrite sm_definition0, He. eexists. split; [done|].
    constructor; cbn; try done; by rewrite ?sm_conditions0, ?sm_actions0, ?sm_blocked0.
Qed.

Lemma sim_fail m a r i w step :
  sim a r -> ac_phase a = Out i w -> card_step def i = Some step ->
  exists r', fail m r = (Ok tt, r') /\ sim (broken i step m a) r'.
Proof.
  intros Hs Hp Hc. pose proof (sim_stop m a r Hs ltac:(by rewrite Hp)) as Hstop.
  destruct Hs as []. rewrite Hp in sm_phase0.
  destruct sm_phase0 as (Hd & Hw & n & step' & Ho & Hst & Hwt). rewrite (out_step _ _ _ _ _ Ho Hst) in Hc. injection Hc as ->.
  unfold out_card in Hstop. rewrite Hp, (out_step _ _ _ _ _ Ho Hst) in Hstop.
  unfold fail, broken. rewrite Hd, Hwt, sm_filter0, bool_decide_eq_true_2 by done. cbn [andb].
  destruct (_ =? _)%string eqn:Ea.
  2:{ unfold stop in *. rewrite Hd in *. by eexists. }
  destruct (exec_report def Hg ids _ i n (execution r) Failed Ho) as (e2 & He & Hid). cbn [report] in He.
  change (set (step_result step) "error" (VString m)) with (Ok (told step [("error", VString m)]%string) : Result Value).
  cbn [execution with_waiting]. rewrite He. eexists. split; [done|]. cbn [error with_results with_wake with_execution with_waiting].
  rewrite sm_error0. destruct (is_empty _); constructor; cbn; try done; by rewrite ?sm_conditions0, ?sm_actions0, ?sm_blocked0.
Qed.

Lemma exec_out_due h i n e : exec_out def ids h i n e ->
  i ∉ map fst h /\ forall outcome, agrees outcome h -> runs def (starts def ids) outcome i.
Proof.
  intros Ho. split.
  - destruct (exec_report def Hg ids h i n e Failed Ho) as (e2 & _ & Hid). pose proof (ei_once _ _ _ _ Hid) as HN.
    rewrite map_app in HN. apply NoDup_app in HN as (_ & HN & _). intros Hi. apply (HN i Hi). cbn. by left.
  - intros outcome Ha. destruct (exec_report def Hg ids h i n e (outcome i) Ho) as (e2 & _ & Hid).
    apply (exec_due def ids _ e2 Hid outcome); [by apply agrees_snoc|]. rewrite map_app. apply elem_of_app. right. cbn. by left.
Qed.

(** What handing out a card does is what the card asks for. *)
Lemma dispatch_serves (s : Store St) step now a r i :
  sim a r -> ac_phase a = Out i None -> card_step def i = Some step -> now < limit ->
  exists sv, serves s ctx now step sv /\
    match sv with
    | Hands e => dispatch s step now r = (Ok e, r)
    | Waits u => dispatch s step now r = (Ok Waiting, with_wake r (Some u))
    | Settles b => exists r', complete (VBool b) now r = (Ok tt, r') /\ dispatch s step now r = (Ok Waiting, r')
    | Breaks m => exists e, m = error_text e /\ dispatch s step now r = (Err e, r)
    end.
Proof.
  intros Hs Hp Hc Hn. unfold dispatch. rewrite (sm_context _ _ Hs).
  destruct (args s step ctx) as [v|e] eqn:Ea; [|exists (Breaks (error_text e)); split; [by apply serves_no_arguments|by exists e]].
  destruct (String.eqb_spec (text step "appId") "stulp") as [Happ|Happ]; cbn [negb].
  2:{ destruct (resolve _ _ _ _ _) as [state|e] eqn:Er.
      - eexists (Hands _). split; [by apply serves_app|done].
      - exists (Breaks (error_text e)). split; [by eapply serves_no_state|by exists e]. }
  destruct (is_condition step) eqn:Ec.
  - destruct (condition _ _ _) as [b|e] eqn:Eb.
    + exists (Settles b). split; [eapply serves_condition; [done..|]; by apply condition_holds|].
      destruct (sim_complete (VBool b) now a r i None step Hs Hp Hc Hn) as (r' & Hr & _). exists r'. split; [done|]. by rewrite Hr.
    + exists (Breaks (error_text e)). split; [by eapply serves_no_condition|by exists e].
  - destruct (String.eqb_spec (text step "cardId") "delay") as [Hd|Hd].
    + destruct (number _) as [x|] eqn:Ex.
      * destruct (_ && _) eqn:Eb; cbn [negb].
        -- apply andb_true_iff in Eb as [E1 E2]. eexists (Waits _). split; [by eapply serves_delay|done].
        -- eexists (Breaks (error_text delay_error)). split; [|by exists delay_error].
           eapply serves_no_delay; try done. intros y Hy. congruence.
      * eexists (Breaks (error_text delay_error)). split; [|by exists delay_error].
        eapply serves_no_delay; try done. intros y Hy. congruence.
    + destruct (String.eqb_spec (text step "cardId") "notification") as [Hno|Hno].
      * eexists (Hands _). split; [by apply serves_notification|done].
      * destruct (action _ _ _) as [e|e] eqn:Eb.
        -- destruct (action_wants _ _ _ _ Eb) as (dev & cap & w & H1 & H2 & H3 & ->).
           eexists (Hands _). split; [by eapply serves_action|done].
        -- exists (Breaks (error_text e)). split; [by eapply serves_no_action|by exists e].
Qed.

Lemma sim_phase_out a r i w :
  sim a r -> ac_phase a = Out i (Some w) -> sim (with_phase a (Out i None)) (with_wake r None).
Proof.
  intros [] Hp. rewrite Hp in sm_phase0. destruct sm_phase0 as (Hd & Hw & n & step & H).
  constructor; cbn; try done. split_and!; [done|done|by exists n, step].
Qed.

Lemma sim_card (s : Store St) now a r :
  sim a r -> ac_phase a = Ready -> now < limit ->
  exists out a' r', advance_card s now r = (Ok out, r') /\ account_step a (Advance s now) (Some out) a' /\ sim a' r'.
Proof.
  intros Hs Hp Hn. pose proof Hs as []. rewrite Hp in sm_phase0. destruct sm_phase0 as (Hd & Hwt & Hwk & Hid).
  unfold advance_card. rewrite sm_definition0.
  destruct (exec_next def Hg ids _ _ Hid) as [[-> Hdr]|(i & n & e1 & -> & Ho)].
  { eexists Finished, (with_phase a Over), _. split; [done|]. split; [|by constructor].
    apply as_end; [done..|]. intros outcome Ha j. symmetry. by eapply exec_drained. }
  assert (Hi : array def "nodes" !! i = Some n) by (destruct Ho as (? & _ & _ & _ & _ & ?); done).
  destruct (node_has_step def i n Hg Hi) as [step Hst]. rewrite Hst.
  pose proof (out_step _ _ _ _ _ Ho Hst) as Hc. destruct (exec_out_due _ _ _ _ Ho) as [Hnew Hdue].
  set (r1 := with_waiting _ _). set (a1 := with_phase a (Out i None)).
  assert (Hs1 : sim a1 r1).
  { constructor; cbn; try done. split_and!; [done|done|by exists n, step]. }
  destruct (dispatch_serves s step now a1 r1 i Hs1 eq_refl Hc Hn) as (sv & Hsv & Hdi).
  assert (forall out a', account_step a (Advance s now) (Some out) a' -> True) as _ by done.
  pose proof (as_card a s now i step sv Hp Hn Hnew Hdue Hc Hsv) as Hstep.
  destruct sv as [e|u|b|m].
  - rewrite Hdi. do 3 eexists. split; [done|]. by split.
  - rewrite Hdi. do 3 eexists. split; [done|]. split; [exact Hstep|].
    destruct Hs1. constructor; cbn; try done. split_and!; [done|done|by exists n, step].
  - destruct Hdi as (r' & Hcm & ->). destruct (sim_complete (VBool b) now a1 r1 i None step Hs1 eq_refl Hc Hn) as (r2 & Hcm2 & Hs2).
    rewrite Hcm in Hcm2. injection Hcm2 as <-. do 3 eexists. split; [done|]. by split.
  - destruct Hdi as (e & -> & ->). destruct (sim_fail (error_text e) a1 r1 i None step Hs1 eq_refl Hc) as (r2 & -> & Hs2).
    change (broken i step (error_text e) a1) with (broken i step (error_text e) a) in Hs2.
    cbn [mbind result_bind]. do 3 eexists. split; [done|]. split; [|exact Hs2].
    enough ((if done r2 then Finished else Waiting) = match ac_phase (broken i step (error_text e) a) with Over => Finished | _ => Waiting end)
      as -> by done.
    pose proof (sm_phase _ _ Hs2) as Hph. destruct (ac_phase (broken i step (error_text e) a)); [by destruct Hph as [-> _]..|by rewrite Hph].
Qed.

Lemma sim_advance (s : Store St) now a r :
  sim a r -> exists out a' r', advance s now r = (Ok out, r') /\ account_step a (Advance s now) (Some out) a' /\ sim a' r'.
Proof.
  intros Hs. unfold advance. rewrite (sm_deadline _ _ Hs). pose proof (sm_phase _ _ Hs) as Hph.
  destruct (ac_phase a) as [|i w|] eqn:Hp.
  - destruct Hph as (-> & Hwt & Hwk & _). destruct (Z.leb_spec limit now).
    + pose proof (sim_stop timed_out a r Hs ltac:(by rewrite Hp)) as Hst.
      pose proof (as_late a (Advance s now) now ltac:(by rewrite Hp) eq_refl ltac:(done)) as Hl.
      assert ((stop timed_out r).1 = Ok tt) as H1 by (unfold stop; by repeat case_match).
      destruct (stop timed_out r) as [res r1]. cbn in *. subst res. do 3 eexists. split; [done|]. by split.
    + rewrite Hwk, Hwt. unfold filter_step. rewrite (sm_started _ _ Hs). cbn [negb]. by apply sim_card.
  - destruct Hph as (-> & Hwk & n & step & Ho & Hst & Hwt). pose proof (out_step _ _ _ _ _ Ho Hst) as Hc.
    destruct (Z.leb_spec limit now).
    + pose proof (sim_stop timed_out a r Hs ltac:(by rewrite Hp)) as Hstop.
      pose proof (as_late a (Advance s now) now ltac:(by rewrite Hp) eq_refl ltac:(done)) as Hl.
      assert ((stop timed_out r).1 = Ok tt) as H1 by (unfold stop; by repeat case_match).
      destruct (stop timed_out r) as [res r1]. cbn in *. subst res. do 3 eexists. split; [done|]. by split.
    + rewrite Hwk, Hwt. destruct w as [u|].
      * destruct (Z.leb_spec u now).
        -- destruct (sim_complete (VBool true) now _ _ i None step (sim_phase_out a r i u Hs Hp) eq_refl Hc ltac:(done))
             as (r' & -> & Hs'). exists Waiting, (answered i step (VBool true) a), r'. split; [done|]. split; [by eapply as_wake|exact Hs'].
        -- do 3 eexists. split; [done|]. split; [|exact Hs]. eapply as_wait; [done..|]. by intros ? [= <-].
      * do 3 eexists. split; [done|]. split; [|exact Hs]. by eapply as_wait.
  - rewrite Hph. do 3 eexists. split; [done|]. split; [|exact Hs]. by apply (as_over a (Advance s now)).
Qed.
End Account.

Section Whole.
Context {St : Type} {HS : Storage St}.

Definition run_step (r : Run) (op : run_event (St := St)) : Run :=
  match op with
  | Advance s now => (advance s now r).2
  | Answer v now => (complete v now r).2
  | Failure m => (fail m r).2
  | Stop m => (stop m r).2
  end.

(** The effect that advancing gives, if any. *)
Definition effect_of (r : Run) (op : run_event (St := St)) : option Effect :=
  match op with
  | Advance s now => match (advance s now r).1 with Ok e => Some e | Err _ => None end
  | _ => None
  end.

(** The events of a run with the effects they gave. *)
Fixpoint trace (ops : list (run_event (St := St))) (r : Run) : list (run_event (St := St) * option Effect) :=
  match ops with
  | [] => []
  | op :: ops => (op, effect_of r op) :: trace ops (run_step r op)
  end.

Lemma sim_step def ids ctx limit a r op :
  graph_ok def -> sim def ids ctx limit a r ->
  exists a', account_step def ids ctx limit a op (effect_of r op) a' /\ sim def ids ctx limit a' (run_step r op).
Proof.
  intros Hg Hs. destruct op as [s now|v now|m|m]; cbn [run_step effect_of].
  - destruct (sim_advance _ _ _ _ Hg s now a r Hs) as (out & a' & r' & -> & H1 & H2). by exists a'.
  - pose proof (sm_phase _ _ _ _ _ _ Hs) as Hph. destruct (ac_phase a) as [|i w|] eqn:Hp.
    + destruct Hph as (Hd & Hwt & _). destruct (Z.leb_spec limit now).
      * eexists. split; [by eapply (as_late _ _ _ _ a (Answer v now)); [by rewrite Hp|..]|].
        unfold complete. rewrite Hd, (sm_deadline _ _ _ _ _ _ Hs). destruct (Z.leb_spec limit now); [|lia].
        apply sim_stop; [done|by rewrite Hp].
      * exists a. split; [by apply as_unasked|]. unfold complete.
        rewrite Hd, (sm_deadline _ _ _ _ _ _ Hs), (sm_filter _ _ _ _ _ _ Hs), Hwt. by destruct (Z.leb_spec limit now); [lia|].
    + destruct Hph as (Hd & Hwk & n & step & Ho & Hst & Hwt). pose proof (out_step _ _ _ _ _ _ _ Ho Hst) as Hc.
      destruct (Z.leb_spec limit now).
      * eexists. split; [by eapply (as_late _ _ _ _ a (Answer v now)); [by rewrite Hp|..]|].
        unfold complete. rewrite Hd, (sm_deadline _ _ _ _ _ _ Hs). destruct (Z.leb_spec limit now); [|lia].
        apply sim_stop; [done|by rewrite Hp].
      * destruct (sim_complete _ _ _ _ Hg v now a r i w step Hs Hp Hc ltac:(done)) as (r' & -> & Hs').
        eexists. split; [by eapply as_answer|done].
    + exists a. split; [by apply (as_over _ _ _ _ a (Answer v now))|]. unfold complete. by rewrite Hph.
  - pose proof (sm_phase _ _ _ _ _ _ Hs) as Hph. destruct (ac_phase a) as [|i w|] eqn:Hp.
    + destruct Hph as (Hd & Hwt & _). eexists. split; [by apply as_lost|]. unfold fail. rewrite Hd, Hwt.
      pose proof (sim_stop _ _ _ _ m a r Hs ltac:(by rewrite Hp)) as Hst. unfold out_card in Hst. by rewrite Hp in Hst.
    + destruct Hph as (Hd & Hwk & n & step & Ho & Hst & Hwt). pose proof (out_step _ _ _ _ _ _ _ Ho Hst) as Hc.
      destruct (sim_fail _ _ _ _ Hg m a r i w step Hs Hp Hc) as (r' & -> & Hs').
      eexists. split; [by eapply as_failure|done].
    + exists a. split; [by apply (as_over _ _ _ _ a (Failure m))|]. unfold fail. by rewrite Hph.
  - pose proof (sm_phase _ _ _ _ _ _ Hs) as Hph. destruct (decide (ac_phase a = Over)) as [Hp|Hp].
    + rewrite Hp in Hph. exists a. split; [by apply (as_over _ _ _ _ a (Stop m))|]. unfold stop. by rewrite Hph.
    + eexists. split; [by apply as_stop|]. by apply sim_stop.
Qed.

Lemma sim_run def ids ctx limit ops : forall a r,
  graph_ok def -> sim def ids ctx limit a r ->
  exists a', accounts def ids ctx limit a (trace ops r) a' /\ sim def ids ctx limit a' (fold_left run_step ops r).
Proof.
  induction ops as [|op ops IH]; intros a r Hg Hs; [exists a; split; [constructor|done]|].
  destruct (sim_step def ids ctx limit a r op Hg Hs) as (a1 & H1 & Hs1).
  destruct (IH a1 _ Hg Hs1) as (a2 & H2 & Hs2). exists a2. split; [by econstructor|done].
Qed.

Lemma run_events_ok def ids ops : forall h r,
  graph_ok def -> run_ok def ids h r -> exists h', run_ok def ids h' (fold_left run_step ops r).
Proof.
  induction ops as [|op ops IH]; intros h r Hg Hr; cbn [fold_left]; [by exists h|].
  assert (exists h1, run_ok def ids h1 (run_step r op)) as [h1 Hr1]; [|by eapply IH].
  destruct op; cbn [run_step].
  - by apply advance_ok with h.
  - by apply complete_ok with h.
  - by apply fail_ok with h.
  - exists h. by apply stop_ok.
Qed.

Lemma manual_Ok def now at_ r :
  manual def now at_ = Ok r -> definition r = def /\ done r = false /\ starting r = false /\ filtering r = None
    /\ waiting r = None /\ conditions r = [] /\ actions r = [] /\ deadline r = now + TIMEOUT_MS /\ error r = EmptyString.
Proof.
  unfold manual. destruct (trigger_ids def); cbn [mbind result_bind]; [|done].
  destruct (start_many def _); cbn [mbind result_bind]; [|done].
  unfold checked_add. destruct (_ <=? _) eqn:E; cbn; [|done]. intros [= <-]. by split_and!.
Qed.

Lemma selected_ok def ids ctx now at_ r :
  selected def ids ctx now at_ = Ok r -> graph_ok def /\ run_ok def ids [] r /\ done r = false
    /\ deadline r = now + TIMEOUT_MS.
Proof.
  unfold selected. destruct (manual def now at_) as [r0|] eqn:E; cbn [mbind result_bind]; [|done].
  apply manual_Ok in E as (H1 & H2 & H3 & H4 & H5 & H6 & H7 & H8 & _).
  destruct (start_many def ids) as [e|] eqn:Es; cbn [mbind result_bind]; [|done]. intros [= <-].
  apply exec_start in Es as [Hg Hid]. split_and!; [done| |done|done].
  constructor; cbn; try done; [|congruence]. intros _. rewrite H5. split; [|done]. split; cbn; rewrite ?H6, ?H7; constructor.
Qed.

(** What the results of a run say, [ids] the triggers it started from. *)
Definition carried_out (def : Value) (ids : list string) (r : Run) : Prop :=
  exists (log : list nat) (outcome : nat -> Outcome),
    NoDup log
    /\ Forall2 (condition_report def) (map (fun i => (i, outcome i)) (List.filter (card_condition def) log)) (conditions r)
    /\ Forall2 (action_report def)
         (map (fun i => (i, outcome i)) (List.filter (fun i => negb (card_condition def i)) log)) (actions r)
    /\ (forall j, j ∈ log -> runs def (starts def ids) outcome j)
    /\ (drained (execution r) -> forall j, runs def (starts def ids) outcome j -> j ∈ log).

Lemma run_ok_carried_out def ids h r :
  run_ok def ids h r -> done r = false \/ drained (execution r) -> carried_out def ids r.
Proof.
  intros [H1 H2 H3 H4 H5] Hd.
  assert (exists e, exec_idle def ids h e /\ results def h r /\ (drained (execution r) -> drained e)) as (e & He & [Hrc Hra] & Hdr).
  { destruct (done r).
    - destruct Hd as [|Hd]; [done|]. destruct (H5 eq_refl Hd) as [Hid Hres]. by exists (execution r).
    - destruct (H4 eq_refl) as [Hres Hp]. destruct (waiting r); [|by exists (execution r)].
      destruct Hp as (i & n & (e & He & _ & _ & Hw & _) & _). exists e. split_and!; [done|done|].
      intros [Hw' _]. congruence. }
  pose proof (oracle_agrees h (ei_once _ _ _ _ He)) as Ha. exists (map fst h), (oracle h).
  assert (forall p : nat -> bool, map (fun i => (i, oracle h i)) (List.filter p (map fst h))
    = List.filter (fun io => p io.1) h) as Hmap.
  { intros p. clear -Ha. unfold agrees in Ha. revert Ha. generalize (oracle h). intros oc Ha.
    induction h as [|[i o] h IH]; [done|]. apply Forall_cons in Ha as [Ho Ha]. cbn in *.
    destruct (p i); cbn; rewrite IH by done; [by rewrite Ho|done]. }
  rewrite !Hmap. split_and!; [apply He|done|done|by apply (exec_due def ids h e He)|].
  intros Hd' j Hj. by apply (exec_drained def ids h e He (Hdr Hd') (oracle h) Ha).
Qed.

(** The account before anything happened. *)
Definition blank : Account := mk_account [] [] [] false EmptyString Ready.

Lemma sim_selected def ids ctx now at_ r :
  selected def ids ctx now at_ = Ok r -> sim def ids ctx (now + TIMEOUT_MS) blank r.
Proof.
  unfold selected. destruct (manual def now at_) as [r0|] eqn:E; cbn [mbind result_bind]; [|done].
  destruct (start_many def ids) as [e|] eqn:Es; cbn [mbind result_bind]; [|done]. intros [= <-].
  apply exec_start in Es as [Hg Hid]. unfold manual in E.
  destruct (trigger_ids def); cbn [mbind result_bind] in E; [|done].
  destruct (start_many def _); cbn [mbind result_bind] in E; [|done].
  unfold checked_add in E. destruct (_ <=? _); cbn in E; [|done]. injection E as <-. by constructor.
Qed.

(** In an account no card is carried out twice, and every card was due. *)
Record account_ok (def : Value) (ids : list string) (a : Account) : Prop := {
  ak_once : NoDup (map fst (ac_log a));
  ak_due : forall outcome, agrees outcome (ac_log a) -> forall j, j ∈ map fst (ac_log a) -> runs def (starts def ids) outcome j;
  ak_out : forall i w, ac_phase a = Out i w ->
    i ∉ map fst (ac_log a) /\ forall outcome, agrees outcome (ac_log a) -> runs def (starts def ids) outcome i
}.

Lemma account_ok_over def ids a c m : account_ok def ids a -> account_ok def ids (ended c m a).
Proof. intros []. unfold ended. destruct c as [step|]; [destruct (is_condition step)|]; by constructor. Qed.

Lemma account_ok_log def ids a a' i o :
  account_ok def ids a -> i ∉ map fst (ac_log a) ->
  (forall outcome, agrees outcome (ac_log a) -> runs def (starts def ids) outcome i) ->
  ac_log a' = ac_log a ++ [(i, o)] -> ac_phase a' = Ready -> account_ok def ids a'.
Proof.
  intros [] Hi Hdue Hl Hp. split; rewrite ?Hl, ?Hp, ?map_app; [| |done].
  - apply NoDup_app. split_and!; [done| |apply NoDup_singleton]. intros x Hx ->%list_elem_of_singleton. by apply Hi.
  - intros outcome [Ha _]%agrees_snoc j [Hj| ->%list_elem_of_singleton]%elem_of_app; eauto.
Qed.

Lemma account_ok_answered def ids a i step v :
  account_ok def ids a -> i ∉ map fst (ac_log a) ->
  (forall outcome, agrees outcome (ac_log a) -> runs def (starts def ids) outcome i) -> account_ok def ids (answered i step v a).
Proof.
  intros Ha Hi Hd. unfold answered. destruct (is_condition step); [destruct (as_bool v)|].
  - by eapply account_ok_log.
  - by apply account_ok_over.
  - by eapply account_ok_log.
Qed.

Lemma account_ok_broken def ids a i step m :
  account_ok def ids a -> i ∉ map fst (ac_log a) ->
  (forall outcome, agrees outcome (ac_log a) -> runs def (starts def ids) outcome i) -> account_ok def ids (broken i step m a).
Proof.
  intros Ha Hi Hd. unfold broken. destruct (_ =? _)%string; [by eapply account_ok_log|by apply account_ok_over].
Qed.

Lemma account_ok_step def ids ctx limit a (op : run_event (St := St)) out a' :
  account_ok def ids a -> account_step def ids ctx limit a op out a' -> account_ok def ids a'.
Proof.
  intros Ha Hs. pose proof (ak_out _ _ _ Ha) as Ho. destruct Hs as [| | | |? ? ? ? Hp| |? ? ? ? ? Hp| |? ? ? ? ? Hp|? ? ?|? ? ? ? sv ? ? Hi Hd].
  all: try (by apply account_ok_over); try done.
  - destruct (Ho _ _ Hp). by apply account_ok_broken.
  - destruct (Ho _ _ Hp). by apply account_ok_answered.
  - destruct (Ho _ _ Hp). by apply account_ok_answered.
  - destruct Ha. by constructor.
  - destruct sv; [destruct Ha; constructor; cbn; try done; by intros ? ? [= <- _]..|by apply account_ok_answered|by apply account_ok_broken].
Qed.

Lemma accounts_ok def ids ctx limit a (l : list (run_event (St := St) * option Effect)) a' :
  account_ok def ids a -> accounts def ids ctx limit a l a' -> account_ok def ids a'.
Proof. intros Ha. induction 1; [done|]. apply IHaccounts. by eapply account_ok_step. Qed.


(** ** The end of a run *)

Lemma done_final r op : done r = true -> run_step r op = r.
Proof.
  intros Hd. destruct op; cbn [run_step]; unfold advance, complete, fail, stop; by rewrite Hd.
Qed.

(** Nothing moves the deadline. *)
Lemma deadline_stop m r : deadline (stop m r).2 = deadline r.
Proof. unfold stop. repeat case_match; done. Qed.

Lemma deadline_complete v now r : deadline (complete v now r).2 = deadline r.
Proof.
  unfold complete. repeat first [rewrite deadline_stop | case_match; simplify_eq; try done]; done.
Qed.

Lemma deadline_fail m r : deadline (fail m r).2 = deadline r.
Proof. unfold fail. repeat first [rewrite deadline_stop | case_match; simplify_eq; try done]; done. Qed.

Lemma deadline_dispatch (s : Store St) step now r : deadline (dispatch s step now r).2 = deadline r.
Proof.
  destruct (dispatch_frame s step now r) as [->|[[b ->]|[w ->]]]; [done|apply deadline_complete|done].
Qed.

Lemma deadline_filter (s : Store St) r : deadline (filter_step s r).2 = deadline r.
Proof. unfold filter_step. repeat case_match; simplify_eq; done. Qed.

Lemma deadline_advance (s : Store St) now r : deadline (advance s now r).2 = deadline r.
Proof.
  unfold advance. destruct (done r); [done|]. destruct (deadline r <=? now).
  { pose proof (deadline_stop timed_out r). by destruct (stop timed_out r). }
  destruct (wake r) as [w|].
  { destruct (w <=? now); [|done]. pose proof (deadline_complete (VBool true) now (with_wake r None)).
    by destruct (complete _ _ _). }
  destruct (waiting r); [done|]. pose proof (deadline_filter s r) as Hf.
  destruct (filter_step s r) as [[[ef|]|e] r1]; cbn [snd] in Hf; [done| |done].
  unfold advance_card. destruct (next _ _) as [[[n|]|] x]; [|done..]. destruct (get n "step") as [step|]; [|done].
  pose proof (deadline_dispatch s step now (with_waiting (with_execution r1 x) (Some step))) as Hd.
  destruct (dispatch _ _ _ _) as [[ef|er] r2]; cbn [snd] in *; [by rewrite Hd|].
  pose proof (deadline_fail (error_text er) r2) as Hl. destruct (fail _ _). cbn [snd] in *. by rewrite Hl, Hd.
Qed.

Lemma deadline_ops ops : forall r, deadline (fold_left run_step ops r) = deadline r.
Proof.
  induction ops as [|op ops IH]; intros r; [done|]. cbn [fold_left]. rewrite IH.
  destruct op; cbn [run_step]; [apply deadline_advance|apply deadline_complete|apply deadline_fail|apply deadline_stop].
Qed.

(** C24: A run ends in time.  Whatever happens to a run, the first time it is advanced 45
    seconds after its start it is finished, its result can be read, and nothing that comes
    later changes it. *)
Theorem run_ends_in_time def ids ctx now at_ r0 ops (s : Store St) later :
  selected def ids ctx now at_ = Ok r0 -> now + TIMEOUT_MS <= later ->
  exists r v, advance s later (fold_left run_step ops r0) = (Ok Finished, r) /\ result r = Ok v
    /\ forall more, fold_left run_step more r = r.
Proof.
  intros H Hl. apply selected_ok in H as (_ & _ & _ & Hd). pose proof (deadline_ops ops r0) as Hdl.
  set (r1 := fold_left run_step ops r0) in *.
  assert (exists r, advance s later r1 = (Ok Finished, r) /\ done r = true) as (r & Ha & Hdone).
  { unfold advance. destruct (done r1) eqn:Ed; [by exists r1|]. rewrite Hdl, Hd.
    destruct (Z.leb_spec (now + TIMEOUT_MS) later); [|lia]. unfold stop. rewrite Ed. by eexists. }
  assert (exists v, result r = Ok v) as [v Hv].
  { unfold result. rewrite Hdone. cbn [negb]. destruct (is_empty (error r)); [by eexists|].
    unfold fields, set. cbn [as_object]. by eexists. }
  exists r, v. split_and!; [done|done|]. intros more. induction more as [|op more IH]; [done|].
  cbn [fold_left]. by rewrite done_final.
Qed.

(** ** Runs an event started *)

(** The trigger with this id listens to the event, and a built-in one accepts it. *)
Definition accepts (def input : Value) (id : string) : Prop :=
  exists node, node ∈ array def "nodes" /\ text node "id" = id /\ listens input node = true
    /\ (text (get_null node "step") "appId" = "stulp"%string -> builtin (get_null node "step") input = Ok true).

(** A run that still asks the apps about their triggers. *)
Record asking (def input : Value) (r : Run) : Prop := {
  as_definition : definition r = def;
  as_starting : starting r = true;
  as_waiting : done r = false -> waiting r = None -> filtering r = None;
  as_idle : Flow.waiting (execution r) = None;
  as_starts : Forall (accepts def input) (run_starts r);
  as_filters : Forall (fun f => accepts def input f.1) (filters r);
  as_asked : forall id, filtering r = Some id -> accepts def input id;
  as_silent : done r = false -> conditions r = [] /\ actions r = []
}.

Lemma match_nodes_Ok def input ns : forall m fs m' fs',
  match_nodes input ns m fs = Ok (m', fs') ->
  (forall n, n ∈ ns -> n ∈ array def "nodes") ->
  Forall (accepts def input) m -> Forall (fun f => accepts def input f.1) fs ->
  Forall (accepts def input) m' /\ Forall (fun f => accepts def input f.1) fs'.
Proof.
  induction ns as [|n ns IH]; intros m fs m' fs'; cbn [match_nodes]; [by intros [= <- <-]|].
  intros H Hin Hm Hf.
  assert (forall n', n' ∈ ns -> n' ∈ array def "nodes") as Hin' by (intros; apply Hin; by right).
  destruct (listens input n) eqn:El; cbn [negb] in H; [|by eapply IH].
  destruct (String.eqb_spec (text (get_null n "step") "appId") "stulp") as [Ea|Ea].
  - destruct (builtin _ _) as [b|] eqn:Eb; cbn [mbind result_bind] in H; [|done]. destruct b.
    + destruct (push m _ _) as [m1|] eqn:Ep; cbn [mbind result_bind] in H; [|done]. apply push_Ok in Ep as [_ ->].
      eapply IH; [exact H|done| |done]. apply Forall_app. split; [done|]. apply Forall_singleton.
      exists n. split_and!; [apply Hin; by left|done|done|done].
    + cbn [mbind result_bind] in H. by eapply IH.
  - destruct (push fs _ _) as [f1|] eqn:Ep; cbn [mbind result_bind] in H; [|done]. apply push_Ok in Ep as [_ ->].
    eapply IH; [exact H|done|done|]. apply Forall_app. split; [done|]. apply Forall_singleton.
    exists n. split_and!; [apply Hin; by left|done|done|done].
Qed.

Lemma triggered_asking def input now at_ r :
  triggered def input now at_ = Ok (Some r) -> boolean def "enabled" = true /\ asking def input r.
Proof.
  unfold triggered. destruct (boolean def "enabled"); [|done]. cbn [negb].
  destruct (negb _); [done|]. destruct (match_nodes _ _ _ _) as [[m fs]|] eqn:Em; cbn [mbind result_bind]; [|done].
  destruct (_ && _); [done|]. destruct (manual def now at_) as [r0|] eqn:E; cbn [mbind result_bind]; [|done].
  destruct (start_many def []) as [e|] eqn:Es; cbn [mbind result_bind]; [|done]. intros [= <-]. split; [done|].
  apply exec_start in Es as [_ He]. destruct (exec_idle_oracle _ _ _ _ He) as [opened Hid].
  destruct (match_nodes_Ok def input _ _ _ _ _ Em) as [Hm Hf]; [done|constructor|constructor|].
  apply manual_Ok in E as (H1 & H2 & H3 & H4 & H5 & H6 & H7 & _).
  constructor; cbn; try done; [by eapply idle_waiting|congruence].
Qed.

Lemma asking_stop def input m r : asking def input r -> asking def input (stop m r).2.
Proof.
  intros Ha. pose proof Ha as [H1 H2 H3 H4 H5 H6 H7 H8]. unfold stop. destruct (done r); [done|].
  destruct (waiting r); [destruct (is_condition _)|]; by constructor.
Qed.

Lemma asking_complete def input v now r : asking def input r -> asking def input (complete v now r).2.
Proof.
  intros Ha. pose proof Ha as [H1 H2 H3 H4 H5 H6 H7 H8]. unfold complete. destruct (done r) eqn:Ed; [done|].
  destruct (deadline r <=? now); [by apply asking_stop|]. destruct (filtering r) as [id|] eqn:Ef.
  - assert (asking def input (with_filtering r None)) as Ha1 by (constructor; cbn; try done; by rewrite ?Ed).
    destruct (as_bool v) as [[]|]; [| |by apply asking_stop].
    + destruct (push _ _ _) as [l|] eqn:Ep; [|done]. apply push_Ok in Ep as [_ ->].
      constructor; cbn; try done; [|by rewrite Ed]. apply Forall_app. split; [done|]. apply Forall_singleton. by apply H7.
    + constructor; cbn; try done; by rewrite Ed.
  - destruct (waiting r) as [step|] eqn:Ew; [|done].
    destruct (if is_condition step then _ else _) as [raw|]; [|by apply asking_stop].
    match goal with |- context [match ?x with Ok _ => _ | Err _ => _ end] => destruct x as [res|]; [|done] end.
    unfold Flow.complete, Flow.finish. rewrite H4. cbn. constructor; cbn; try done; by rewrite ?Ed, ?Ew, ?Ef.
Qed.

Lemma asking_fail def input m r : asking def input r -> asking def input (fail m r).2.
Proof.
  intros Ha. pose proof Ha as [H1 H2 H3 H4 H5 H6 H7 H8]. unfold fail. destruct (done r) eqn:Ed; [done|].
  destruct (waiting r) as [step|] eqn:Ew; [|by apply asking_stop].
  destruct (_ && _) eqn:Ea; [|by apply asking_stop]. apply andb_true_iff in Ea as [Ef _]. apply bool_decide_eq_true in Ef.
  assert (asking def input (with_waiting r None)) as Ha1 by (constructor; cbn; auto).
  destruct (set _ _ _); [|done]. unfold skip, Flow.finish. cbn. rewrite H4. cbn.
  constructor; cbn; try done; by rewrite Ed.
Qed.

Lemma asking_advance def input (s : Store St) now r :
  asking def input r ->
  asking def input (advance s now r).2 \/
  exists ids h, graph_ok def /\ Forall (accepts def input) ids /\ run_ok def ids h (advance s now r).2.
Proof.
  intros Ha. pose proof Ha as [H1 H2 H3 H4 H5 H6 H7 H8]. unfold advance. destruct (done r) eqn:Ed; [by left|].
  destruct (deadline r <=? now).
  { left. pose proof (asking_stop def input timed_out r Ha). by destruct (stop _ _). }
  destruct (wake r) as [w|].
  { left. destruct (w <=? now); [|done].
    assert (asking def input (with_wake r None)) as Hw by (constructor; cbn; try done; by rewrite Ed).
    pose proof (asking_complete def input (VBool true) now _ Hw). by destruct (complete _ _ _). }
  destruct (waiting r) as [step|] eqn:Ew; [by left|]. pose proof (H3 eq_refl eq_refl) as Ef.
  destruct (H8 eq_refl) as [Hc Hac].
  unfold filter_step. rewrite H2. cbn [negb]. destruct (filters r) as [|[id step] rest] eqn:Efs.
  - destruct (push_all _ _ _ _) as [ids|] eqn:Ep; cbn [mbind result_bind]; [|by left].
    apply push_all_id in Ep as ->. cbn [app]. rewrite H1.
    destruct (start_many def (run_starts r)) as [x|] eqn:Es; [|by left]. right.
    apply exec_start in Es as [Hg Hid]. exists (run_starts r).
    destruct (advance_card_ok def (run_starts r) [] s now
      (with_start (with_execution r x) [] (run_starts r) false) Hg) as [h Hh]; [|done|done|by exists h].
    constructor; cbn; [done|done|done| |congruence]. intros _. rewrite Ew. split; [|done].
    split; cbn; rewrite ?Hc, ?Hac; constructor.
  - left. apply Forall_cons in H6 as [Hid Hrest].
    match goal with |- context [match ?x with Ok _ => _ | Err _ => _ end] => destruct x as [effect|] end.
    + constructor; cbn; auto; [discriminate|by intros ? [= <-]].
    + constructor; cbn; auto.
Qed.

(** An event starts only what listens to it.  A run that an event started belongs to a
    Flow that is switched on; once the apps were asked, everything it carries out is what
    the Flow prescribes from triggers of this very event, for this device, whose built-in
    condition holds; before that it has carried out nothing. *)
Theorem triggered_run_starts_at_listeners def input now at_ r0 ops r :
  triggered def input now at_ = Ok (Some r0) -> fold_left run_step ops r0 = r ->
  boolean def "enabled" = true /\
  (done r = false \/ drained (execution r) ->
   (starting r = true /\ (done r = false -> conditions r = [] /\ actions r = []))
   \/ exists ids, Forall (accepts def input) ids /\ carried_out def ids r).
Proof.
  intros H <-. apply triggered_asking in H as [He Ha]. split; [done|].
  assert (asking def input (fold_left run_step ops r0) \/
    exists ids h, graph_ok def /\ Forall (accepts def input) ids /\ run_ok def ids h (fold_left run_step ops r0)) as Hor.
  { assert (asking def input r0 \/
      exists ids h, graph_ok def /\ Forall (accepts def input) ids /\ run_ok def ids h r0) as H0 by (by left).
    clear Ha. revert H0. generalize r0. induction ops as [|op ops IH]; intros r [Ha|(ids & h & Hg & Hi & Hr)]; cbn [fold_left].
    - by left.
    - right. by exists ids, h.
    - apply IH. destruct op; cbn [run_step]; [by apply asking_advance|left..].
      + by apply asking_complete.
      + by apply asking_fail.
      + by apply asking_stop.
    - right. destruct (run_events_ok def ids (op :: ops) h r Hg Hr) as [h' Hh']. by exists ids, h'. }
  intros Hd. destruct Hor as [[]|(ids & h & Hg & Hi & Hr)]; [by left|].
  right. exists ids. split; [done|]. by eapply run_ok_carried_out.
Qed.
End Whole.

(** ** A Flow that blinks a lamp when it is off *)

Definition blink : Value := json_of
  "{'id':'f','name':'F','enabled':true,'nodes':[{'id':'t','step':{'appId':'hue','cardId':'pressed','cardType':'trigger','args':{'device':{'$device':'lamp'}}}},{'id':'c','step':{'appId':'stulp','cardId':'capability.onoff.is_off','cardType':'condition','args':{'device':{'$device':'lamp'}},'inverted':true}},{'id':'a','step':{'appId':'hue','cardId':'blink','cardType':'action','args':{'text':'{{tokens.who}} rang'}}}],'edges':[{'from':'t','to':'c'},{'from':'c','to':'a'}]}".

Definition ring : Value := json_of
  "{'kind':'trigger','appId':'hue','id':'pressed','tokens':{'who':'Ann'},'state':{'deviceId':'lamp'}}".

Definition blink_run : Run := Eval vm_compute in
  match selected blink ["t"%string] ring 1000 "2024-01-01T00:00:00Z" with
  | Ok r => r | Err _ => mk_flow_run VNull exec_new "" 0 None None [] [] false false "" VNull [] [] false None end.

Definition blink_ops : list (run_event (St := Memory)) :=
  [Advance sample 1001; Advance sample 1002; Answer VNull 1003; Advance sample 1004].


Lemma run_ends_in_time_witness :
  exists r v, advance sample 46000 (fold_left run_step [Advance sample 1001; Advance sample 1002] blink_run)
      = (Ok Finished, r) /\ result r = Ok v /\ text v "error" = timed_out.
Proof.
  destruct (run_ends_in_time blink ["t"%string] ring 1000 "2024-01-01T00:00:00Z" blink_run
    [Advance sample 1001; Advance sample 1002] sample 46000) as (r & v & H & Hv & _).
  - vm_compute. reflexivity.
  - vm_compute. discriminate.
  - exists r, v. split; [exact H|]. split; [exact Hv|].
    vm_compute in H. injection H as <-. vm_compute in Hv. injection Hv as <-. vm_compute. reflexivity.
Defined.

Lemma triggered_run_starts_at_listeners_witness :
  exists r0 r, triggered blink ring 1000 "2024-01-01T00:00:00Z" = Ok (Some r0)
    /\ fold_left run_step (Advance sample 1001 :: Answer (VBool true) 1002 :: blink_ops) r0 = r
    /\ done r = true /\ length (actions r) = 1%nat
    /\ exists ids, Forall (accepts blink ring) ids /\ carried_out blink ids r.
Proof.
  destruct (triggered blink ring 1000 "2024-01-01T00:00:00Z") as [[r0|]|e] eqn:Et;
    [|vm_compute in Et; discriminate Et..].
  eexists r0, _. split; [reflexivity|]. split; [reflexivity|].
  destruct (triggered_run_starts_at_listeners blink ring 1000 "2024-01-01T00:00:00Z" r0
    (Advance sample 1001 :: Answer (VBool true) 1002 :: blink_ops) _ Et eq_refl) as [_ H].
  vm_compute in Et. injection Et as <-. split; [vm_compute; reflexivity|]. split; [vm_compute; reflexivity|].
  destruct H as [[H _]|H].
  - right. split; vm_compute; reflexivity.
  - vm_compute in H. discriminate H.
  - exact H.
Defined.
