(* ===== verification/Stability.v ===== *)
(** * Stability: triggers for a value that stays

    Models [crates/runtime/src/stability.rs]: one watch for every stability trigger of an
    enabled Flow whose value holds now; its deadline moves only when the value was reported
    anew or the trigger was edited. *)

From Stdlib Require Import ZArith Lia Ascii String.
From S2P Require Import Prelude Text Errors Slots Float Value Document Stats Flow Store StoreDoc StoreInv StoreOk StoreProps Runs RunsOk.

Local Open Scope Z_scope.

Definition MAX_WATCHES : Z := 4096.

Record Watch : Type := mk_watch {
  w_flow : string; w_node : string; w_spec : Value; w_deadline : Z; w_revision : Z;
  w_fired : bool; w_seen : bool
}.

Definition with_seen (w : Watch) (b : bool) : Watch :=
  mk_watch (w_flow w) (w_node w) (w_spec w) (w_deadline w) (w_revision w) (w_fired w) b.

(** [seconds] as the delay in milliseconds, when it is one. *)
Definition seconds_ok (x : f64) : bool :=
  is_finite x && f_ltb (f64_of_decimal false 0 0) x && f_leb x (f64_of_decimal false 86400 0).

(** The capability and the value the card waits for. *)
Definition spec_target (id : string) (args : Value) : option (string * Value) :=
  if (id =? "device_capability_stays")%string then Some (text args "capability", get_null args "value")
  else
    match derived id with
    | Some (cap, suffix) =>
        if (suffix =? "on_for")%string || (suffix =? "off_for")%string
        then Some (cap, VBool (suffix =? "on_for")%string) else None
    | None => None
    end.

Definition spec (node : Value) : Result (option Value) :=
  let step := get_null node "step" in
  if negb (is_kind "trigger" node) || negb (text step "appId" =? "stulp")%string then Ok None
  else
    let args := get_null step "args" in
    match spec_target (text step "cardId") args with
    | None => Ok None
    | Some (cap, target) =>
        let device := get_null args "device" in
        let device := match as_str device with Some d => d | None => text device "$device" end in
        match get_null args "seconds" with
        | VNumber n =>
            let seconds := as_f64 n in
            if is_empty device || is_empty cap || negb (seconds_ok seconds) then Ok None
            else
              let delay := to_u64 (f64_mul seconds (f64_of_decimal false 1000 0)) in
              if delay =? 0 then Err (Invalid "stability interval is below clock resolution")
              else Ok (Some (fields [("deviceId", VString device); ("capability", VString cap);
                                     ("value", target); ("seconds", VNumber (Float seconds));
                                     ("delay", value_uint delay)]))
        | _ => Ok None
        end
    end.

Definition is_watch (flow node : string) (w : Watch) : bool :=
  (w_flow w =? flow)%string && (w_node w =? node)%string.

(** The first watch with this flow and node, changed. *)
Fixpoint update_watch (flow node : string) (f : Watch -> Watch) (l : list Watch) : list Watch :=
  match l with
  | [] => []
  | w :: l => if is_watch flow node w then f w :: l else w :: update_watch flow node f l
  end.

(** A watch whose card still holds. *)
Definition refresh (sp : Value) (now revision : Z) (w : Watch) : Watch :=
  if negb (equal (w_spec w) sp) || negb (w_revision w =? revision)
  then mk_watch (w_flow w) (w_node w) sp (saturating_add now (uint sp "delay")) revision false true
  else with_seen w true.

Section WithStore.
Context {St : Type} {HS : Storage St}.

(** Whether the value of the card is there now. *)
Definition holds_now (s : Store St) (sp : Value) : bool :=
  match device (text sp "deviceId") s with
  | Err _ => false
  | Ok d => let current := get_null (get_null d "state") (text sp "capability") in
            negb (is_null current) && equal current (get_null sp "value")
  end.

(** One card of one enabled Flow. *)
Definition reconcile_node (s : Store St) (now : Z) (definition node : Value) (ws : list Watch)
  : Result (list Watch) :=
  o ← spec node;
  match o with
  | None => Ok ws
  | Some sp =>
      if negb (holds_now s sp) then Ok ws
      else
        let fid := text definition "id" in
        let nid := text node "id" in
        let revision := capability_revision (text sp "deviceId") (text sp "capability") s in
        if existsb (is_watch fid nid) ws
        then Ok (update_watch fid nid (refresh sp now revision) ws)
        else push ws (mk_watch fid nid sp (saturating_add now (uint sp "delay")) revision false true) MAX_WATCHES
  end.

(** The cards of the enabled Flows, in order. *)
Definition cards (s : Store St) : list (Value * Value) :=
  flat_map (fun d => map (pair d) (array d "nodes"))
    (List.filter (fun d => boolean d "enabled") (records (document s) "flows")).

Fixpoint reconcile_cards (s : Store St) (now : Z) (l : list (Value * Value)) (ws : list Watch)
  : Result unit * list Watch :=
  match l with
  | [] => (Ok tt, List.filter w_seen ws)
  | (definition, node) :: l =>
      match reconcile_node s now definition node ws with
      | Err e => (Err e, ws)
      | Ok ws => reconcile_cards s now l ws
      end
  end.

Definition reconcile (s : Store St) (now : Z) (ws : list Watch) : Result unit * list Watch :=
  reconcile_cards s now (cards s) (map (fun w => with_seen w false) ws).

Definition is_due (now : Z) (w : Watch) : bool := negb (w_fired w) && (w_deadline w <=? now).

(** The run of a watch. *)
Definition watch_run (s : Store St) (w : Watch) (now : Z) (ran_at : string) : Result Run :=
  d ← device (text (w_spec w) "deviceId") s;
  let state := fields [("device", VString (text d "name")); ("deviceId", get_null (w_spec w) "deviceId");
                       ("capability", get_null (w_spec w) "capability"); ("value", get_null (w_spec w) "value");
                       ("seconds", get_null (w_spec w) "seconds")] in
  definition ← record (document s) "flows" (w_flow w);
  selected definition [w_node w] (fields [("tokens", state); ("state", state)]) now ran_at.

Fixpoint fire_first (now : Z) (l : list Watch) : list Watch :=
  match l with
  | [] => []
  | w :: l => if is_due now w
              then mk_watch (w_flow w) (w_node w) (w_spec w) (w_deadline w) (w_revision w) true (w_seen w) :: l
              else w :: fire_first now l
  end.

Definition due (s : Store St) (now : Z) (ran_at : string) (ws : list Watch) : Result (option Run) * list Watch :=
  match find (is_due now) ws with
  | None => (Ok None, ws)
  | Some w => match watch_run s w now ran_at with
              | Err e => (Err e, ws)
              | Ok run => (Ok (Some run), fire_first now ws)
              end
  end.

(** ** The time a value stayed *)

(** What happens to the watches. *)
Inductive st_event : Type :=
| Reconcile (now : Z) (s : Store St)
| Due (now : Z) (s : Store St) (ran_at : string).

Definition st_step (ws : list Watch) (e : st_event) : Result (option Run) * list Watch :=
  match e with
  | Reconcile now s => let '(r, ws) := reconcile s now ws in (_ ← r; Ok None, ws)
  | Due now s ran_at => due s now ran_at ws
  end.

Definition st_run (es : list st_event) : list Watch := fold_left (fun ws e => (st_step ws e).2) es [].

(** At the reconciliation with this store, the Flow was enabled, its card waited for what the
    watch waits for, and the value was there with the revision of the watch. *)
Definition stays (s : Store St) (w : Watch) : Prop :=
  exists definition node sp, (definition, node) ∈ cards s
    /\ text definition "id" = w_flow w /\ text node "id" = w_node w /\ spec node = Ok (Some sp)
    /\ (w_spec w = sp \/ equal (w_spec w) sp = true) /\ holds_now s sp = true
    /\ capability_revision (text sp "deviceId") (text sp "capability") s = w_revision w.

(** *** One reconciliation *)

Definition w_key (w : Watch) : string * string := (w_flow w, w_node w).

(** Equal but for [w_seen]. *)
Definition same_watch (w v : Watch) : Prop := with_seen w true = with_seen v true.

Lemma is_watch_key fl nd w : is_watch fl nd w = true <-> w_key w = (fl, nd).
Proof.
  unfold is_watch, w_key. rewrite andb_true_iff, !String.eqb_eq. split; [by intros [-> ->]|by intros [= -> ->]].
Qed.

Lemma same_watch_stays s w v : same_watch w v -> stays s w -> stays s v.
Proof. destruct w, v. unfold same_watch, with_seen, stays. cbn. by intros [= -> -> -> -> -> ->]. Qed.

(** What holds of every watch while the cards are gone through, [old] the watches before. *)
Definition tracked (s : Store St) (now : Z) (old : list Watch) (w : Watch) : Prop :=
  (w_seen w = true -> stays s w) /\
  ((exists v, v ∈ old /\ same_watch v w) \/
   (w_seen w = true /\ w_fired w = false /\ w_deadline w = saturating_add now (uint (w_spec w) "delay"))).

Lemma update_watch_elem fl nd f l w :
  w ∈ update_watch fl nd f l -> w ∈ l \/ exists v, v ∈ l /\ is_watch fl nd v = true /\ w = f v.
Proof.
  induction l as [|x l IH]; cbn [update_watch]; [by left|]. destruct (is_watch fl nd x) eqn:E.
  - intros [->|Hw]%elem_of_cons; [right; exists x; split_and!; [by left|done|done]|left; by right].
  - intros [->|Hw]%elem_of_cons; [left; by left|]. destruct (IH Hw) as [H|(v & Hv & H)]; [left; by right|].
    right. exists v. split; [by right|done].
Qed.

Lemma update_watch_keys fl nd f l :
  (forall w, w_key (f w) = w_key w) -> map w_key (update_watch fl nd f l) = map w_key l.
Proof.
  intros Hf. induction l as [|x l IH]; cbn; [done|]. destruct (is_watch fl nd x); cbn; [by rewrite Hf|by rewrite IH].
Qed.

Lemma refresh_key sp now rev w : w_key (refresh sp now rev w) = w_key w.
Proof. unfold refresh. by destruct (_ || _). Qed.

Lemma reconcile_node_tracked s now old d n ws ws' :
  (d, n) ∈ cards s -> reconcile_node s now d n ws = Ok ws' ->
  Forall (tracked s now old) ws -> NoDup (map w_key ws) ->
  Forall (tracked s now old) ws' /\ NoDup (map w_key ws').
Proof.
  intros Hin H HF HN. unfold reconcile_node in H. destruct (spec n) as [[sp|]|] eqn:Es; cbn [mbind result_bind] in H;
    [|by injection H as <-|done].
  destruct (holds_now s sp) eqn:Eh; cbn [negb] in H; [|by injection H as <-].
  destruct (existsb _ ws) eqn:Ex.
  - injection H as <-. split; [|by rewrite update_watch_keys by apply refresh_key].
    rewrite Forall_forall in HF |- *. intros w Hw.
    apply update_watch_elem in Hw as [Hw|(v & Hv & Hk & ->)]; [by apply HF|].
    apply is_watch_key in Hk. injection Hk as Hkf Hkn. destruct (HF v Hv) as [_ Ho]. unfold refresh.
    destruct (equal (w_spec v) sp) eqn:Ee; cbn [negb orb].
    + destruct (Z.eqb_spec (w_revision v) (capability_revision (text sp "deviceId") (text sp "capability") s)) as [Er|Er]; cbn [negb].
      * split; cbn.
        -- intros _. exists d, n, sp. split_and!; try done; cbn; auto.
        -- destruct Ho as [(u & Hu & Hs)|(_ & H1 & H2)]; [left; exists u; split; [done|by destruct v]|by right].
      * split; cbn; [|by right]. intros _. exists d, n, sp. split_and!; cbn; auto.
    + split; cbn; [|by right]. intros _. exists d, n, sp. split_and!; cbn; auto.
  - apply push_Ok in H as [_ ->]. split.
    + apply Forall_app. split; [done|]. apply Forall_singleton. split; cbn; [|by right].
      intros _. exists d, n, sp. split_and!; cbn; auto.
    + rewrite map_app. apply NoDup_app. split_and!; [done| |apply NoDup_singleton].
      intros k Hk ->%list_elem_of_singleton. apply list_elem_of_fmap in Hk as (w & Hkw & Hw).
      apply not_true_iff_false in Ex. apply Ex. apply existsb_exists. exists w. split; [by apply list_elem_of_In|].
      apply is_watch_key. by rewrite <- Hkw.
Qed.

Lemma reconcile_cards_tracked s now old l : forall ws r ws',
  (forall c, c ∈ l -> c ∈ cards s) -> reconcile_cards s now l ws = (r, ws') ->
  Forall (tracked s now old) ws -> NoDup (map w_key ws) ->
  Forall (tracked s now old) ws' /\ NoDup (map w_key ws')
  /\ (is_ok r = true -> Forall (fun w => w_seen w = true) ws').
Proof.
  induction l as [|[d n] l IH]; intros ws r ws' Hl; cbn [reconcile_cards].
  - intros [= <- <-] HF HN. split_and!.
    + rewrite Forall_forall in HF |- *. intros w [Hw _]%filter_elem. by apply HF.
    + eapply sublist_NoDup; [exact HN|]. apply sublist_map, filter_sublist.
    + intros _. apply Forall_forall. by intros w [_ Hw]%filter_elem.
  - destruct (reconcile_node s now d n ws) as [ws1|] eqn:E.
    + intros H HF HN. destruct (reconcile_node_tracked s now old d n ws ws1) as [HF1 HN1];
        [apply Hl; by left|done|done|done|]. eapply IH; [|exact H|done|done]. intros c Hc. apply Hl. by right.
    + intros [= <- <-] HF HN. by split_and!.
Qed.

Lemma reconcile_tracked s now ws r ws' :
  reconcile s now ws = (r, ws') -> NoDup (map w_key ws) ->
  NoDup (map w_key ws') /\ Forall (tracked s now ws) ws' /\
  (is_ok r = true -> Forall (fun w => w_seen w = true) ws').
Proof.
  intros H HN. unfold reconcile in H. apply (reconcile_cards_tracked s now ws) in H as (H1 & H2 & H3); [done|done| |].
  - apply Forall_forall. intros w (v & -> & Hv)%list_elem_of_fmap. split; cbn; [done|]. left. exists v. split; [done|].
    by destruct v.
  - rewrite map_map. exact HN.
Qed.

(** *** The whole history *)

(** This reconciliation, after these events, went through. *)
Definition went_through (before : list st_event) (s : Store St) (now : Z) : Prop :=
  is_ok (st_step (st_run before) (Reconcile now s)).1 = true.

(** This event, after these events, starts a run for the watch with this key. *)
Definition fires (before : list st_event) (e : st_event) (key : string * string) : Prop :=
  match e with
  | Reconcile _ _ => False
  | Due now s at_ => exists v, find (is_due now) (st_run before) = Some v
      /\ is_ok (watch_run s v now at_) = true /\ w_key v = key
  end.

(** The stretch of time a watch measures: it began at the reconciliation at [t0], and at every
    reconciliation since that went through the value was still there, never reported anew. *)
Record stretch (es : list st_event) (w : Watch) (t0 : Z) : Prop := {
  sr_split : exists pre s0 post, es = pre ++ Reconcile t0 s0 :: post /\ stays s0 w
    /\ (forall p t s q, post = p ++ Reconcile t s :: q ->
           went_through (pre ++ Reconcile t0 s0 :: p) s t -> stays s w)
    /\ (w_fired w = false -> forall p e q, post = p ++ e :: q ->
           ~ fires (pre ++ Reconcile t0 s0 :: p) e (w_key w));
  sr_deadline : w_deadline w = saturating_add t0 (uint (w_spec w) "delay")
}.

Lemma snoc_split {A} (l p q : list A) x y :
  l ++ [x] = p ++ y :: q -> (q = [] /\ p = l /\ y = x) \/ exists q', q = q' ++ [x] /\ l = p ++ y :: q'.
Proof.
  destruct q as [|z q _] using rev_ind.
  - intros H. apply app_inj_tail in H as [-> ->]. by left.
  - rewrite app_comm_cons, app_assoc. intros H. apply app_inj_tail in H as [-> ->]. right. by exists q.
Qed.

Lemma st_run_snoc es e : st_run (es ++ [e]) = (st_step (st_run es) e).2.
Proof. unfold st_run. by rewrite fold_left_app. Qed.

(** A stretch goes on over one more event. *)
Lemma stretch_snoc es w v t0 e :
  stretch es w t0 -> same_watch w v \/ (same_watch w (mk_watch (w_flow v) (w_node v) (w_spec v) (w_deadline v)
      (w_revision v) (w_fired w) (w_seen v)) /\ w_fired v = true) ->
  (forall t s, e = Reconcile t s -> went_through es s t -> stays s v) ->
  (w_fired v = false -> ~ fires es e (w_key v)) ->
  stretch (es ++ [e]) v t0.
Proof.
  intros [(pre & s0 & post & -> & H1 & H2 & H3) H4] Hv Hnew Hf.
  assert (w_key w = w_key v /\ w_spec w = w_spec v /\ w_deadline w = w_deadline v
    /\ w_revision w = w_revision v /\ (w_fired v = false -> w_fired w = false)) as (Hk & Hs & Hd & Hr & Hfi).
  { destruct w, v. unfold same_watch, with_seen, w_key in *. cbn in *.
    destruct Hv as [[= -> -> -> -> -> ->]|[[= -> -> -> -> ->] ->]]; by split_and!. }
  assert (forall s, stays s w -> stays s v) as Hst.
  { intros s. unfold stays. injection Hk as <- <-. by rewrite Hs, Hr. }
  constructor; [|congruence]. exists pre, s0, (post ++ [e]). split_and!.
  - by rewrite <- app_assoc.
  - by apply Hst.
  - intros p t s q [(-> & -> & <-)|(q' & -> & ->)]%snoc_split Hw; [by eapply Hnew|]. eapply Hst, H2; [done|exact Hw].
  - intros Hv0 p e' q [(-> & -> & ->)|(q' & -> & ->)]%snoc_split; [by apply Hf|].
    rewrite <- Hk. eapply H3; [by apply Hfi|done].
Qed.

Lemma fire_first_keys now l : map w_key (fire_first now l) = map w_key l.
Proof. induction l as [|w l IH]; cbn; [done|]. destruct (is_due now w); cbn; [done|by rewrite IH]. Qed.

(** Every watch measures a stretch. *)
Definition history_ok (es : list st_event) : Prop :=
  NoDup (map w_key (st_run es)) /\ Forall (fun w => exists t0, stretch es w t0) (st_run es).

Lemma history_reconcile es t s : history_ok es -> history_ok (es ++ [Reconcile t s]).
Proof.
  intros [HN HF]. unfold history_ok. rewrite st_run_snoc. cbn [st_step].
  destruct (reconcile s t (st_run es)) as [r ws] eqn:E. cbn [snd].
  destruct (reconcile_tracked _ _ _ _ _ E HN) as (HN' & HT & Hseen). split; [done|].
  rewrite Forall_forall in HF, HT |- *. intros w Hw. destruct (HT w Hw) as [Hst [(v & Hv & Hs)|(H1 & H2 & H3)]].
  - destruct (HF v Hv) as [t0 Hsr]. exists t0. eapply stretch_snoc; [exact Hsr|by left| |by intros _ []].
    intros t' s' [= <- <-] Hok. apply Hst. unfold went_through in Hok. cbn [st_step] in Hok. rewrite E in Hok.
    cbn [fst] in Hok. destruct r; [|done]. specialize (Hseen eq_refl). rewrite Forall_forall in Hseen. by apply Hseen.
  - exists t. constructor; [|done]. exists es, s, []. split_and!; [done|by apply Hst| |].
    + intros p ? ? q Hp. by destruct p.
    + intros _ p e q Hp. by destruct p.
Qed.

(** The watch that [due] starts is marked, and it alone. *)
Lemma fire_first_elem now l w :
  NoDup (map w_key l) -> w ∈ fire_first now l ->
  exists v, v ∈ l /\ w_flow w = w_flow v /\ w_node w = w_node v /\ w_spec w = w_spec v
    /\ w_deadline w = w_deadline v /\ w_revision w = w_revision v /\ w_seen w = w_seen v
    /\ ((w_fired w = w_fired v /\ forall u, find (is_due now) l = Some u -> w_key u <> w_key w) \/ w_fired w = true).
Proof.
  intros HN. induction l as [|x l IH]; cbn [fire_first]; [by intros ?%not_elem_of_nil|].
  cbn in HN. apply NoDup_cons in HN as [Hx HN]. cbn [find]. destruct (is_due now x) eqn:E.
  - intros [->|Hw]%elem_of_cons.
    + exists x. split; [by left|]. cbn. split_and!; try done. by right.
    + exists w. split; [by right|]. split_and!; try done. left. split; [done|]. intros u [= <-] Hk.
      apply Hx. rewrite Hk. apply list_elem_of_fmap. by exists w.
  - intros [->|Hw]%elem_of_cons.
    + exists x. split; [by left|]. split_and!; try done. left. split; [done|]. intros u Hu Hk.
      apply find_some in Hu as [Hu _]. apply Hx. rewrite <- Hk. apply list_elem_of_fmap. exists u.
      split; [done|by apply list_elem_of_In].
    + destruct (IH HN Hw) as (v & Hv & H). exists v. split; [by right|done].
Qed.

Lemma history_due es t s at_ : history_ok es -> history_ok (es ++ [Due t s at_]).
Proof.
  intros [HN HF]. unfold history_ok. rewrite st_run_snoc. cbn [st_step]. unfold due.
  destruct (find (is_due t) (st_run es)) as [u|] eqn:Ef; [destruct (watch_run s u t at_) as [run|] eqn:Er|]; cbn [snd].
  - rewrite fire_first_keys. split; [done|]. rewrite Forall_forall in HF |- *. intros w Hw.
    destruct (fire_first_elem _ _ _ HN Hw) as (v & Hv & E1 & E2 & E3 & E4 & E5 & E6 & Hor).
    destruct (HF v Hv) as [t0 Hsr]. exists t0. eapply stretch_snoc; [exact Hsr| |done|].
    + destruct Hor as [[Hf _]|Hf]; [left|right]; destruct v, w; cbn in *; subst; done.
    + intros Hwf (u' & Hu' & _ & Hk). rewrite Ef in Hu'. injection Hu' as <-.
      destruct Hor as [[_ Hne]|Hf]; [by eapply Hne|congruence].
  - split; [done|]. rewrite Forall_forall in HF |- *. intros w Hw. destruct (HF w Hw) as [t0 Hsr]. exists t0.
    eapply stretch_snoc; [exact Hsr|by left|done|]. intros _ (u' & Hu' & Hok & _).
    rewrite Ef in Hu'. injection Hu' as <-. by rewrite Er in Hok.
  - split; [done|]. rewrite Forall_forall in HF |- *. intros w Hw. destruct (HF w Hw) as [t0 Hsr]. exists t0.
    eapply stretch_snoc; [exact Hsr|by left|done|]. intros _ (u' & Hu' & _). congruence.
Qed.

Lemma history_all es : history_ok es.
Proof.
  induction es as [|e es IH] using rev_ind; [split; constructor|].
  destruct e; [by apply history_reconcile|by apply history_due].
Qed.

(** C13: A stability trigger means what it says.  Whatever happened before, when [due] starts
    a run, the value of its card was found at a reconciliation at least the delay of the
    card ago and at every reconciliation that went through since, with one and the same
    revision, so it was never reported anew in between; and no run was started for this
    card in all that time. *)
Theorem stability_means_it_stayed es now (s : Store St) at_ run ws :
  st_step (st_run es) (Due now s at_) = (Ok (Some run), ws) ->
  exists w t0, w ∈ st_run es /\ watch_run s w now at_ = Ok run /\ w_fired w = false
    /\ stretch es w t0 /\ saturating_add t0 (uint (w_spec w) "delay") <= now.
Proof.
  cbn [st_step]. unfold due. destruct (find _ _) as [w|] eqn:Ef; [|done].
  destruct (watch_run s w now at_) as [r|] eqn:Er; [|done]. intros [= -> _].
  apply find_some in Ef as [Hin [Hf Hd]%andb_true_iff]. apply list_elem_of_In in Hin.
  pose proof (history_all es) as [_ HF]. rewrite Forall_forall in HF. destruct (HF w Hin) as [t0 Hsr].
  exists w, t0. split_and!; [done|done|by apply negb_true_iff|done|].
  rewrite <- (sr_deadline _ _ _ Hsr). lia.
Qed.
End WithStore.

(** ** A lamp that stays on for two seconds *)

Definition watched : Value := json_of
  "{'id':'f','name':'F','enabled':true,'revision':1,'nodes':[{'id':'t','step':{'appId':'stulp','cardId':'capability.onoff.on_for','cardType':'trigger','args':{'device':{'$device':'lamp'},'seconds':2}}}]}".

Definition watched_ops : list Op :=
  [OpPut "flows" watched true None "2024-01-01T00:00:00Z";
   OpObserve "hue" "lamp" (json_of "{'onoff':true}") true ""].

Definition watched_store : Store Memory := Eval vm_compute in (run_ops watched_ops sample).2.

Lemma stability_means_it_stayed_witness :
  exists run ws w t0,
    st_step (st_run [Reconcile 100 watched_store; Reconcile 1500 watched_store]) (Due 2100 watched_store "t")
      = (Ok (Some run), ws)
    /\ stretch [Reconcile 100 watched_store; Reconcile 1500 watched_store] w t0
    /\ saturating_add t0 (uint (w_spec w) "delay") <= 2100 /\ id run = "f"%string.
Proof.
  destruct (st_step (st_run [Reconcile 100 watched_store; Reconcile 1500 watched_store]) (Due 2100 watched_store "t"))
    as [[[run|]|e] ws] eqn:E; [|vm_compute in E; discriminate E..].
  destruct (stability_means_it_stayed [Reconcile 100 watched_store; Reconcile 1500 watched_store] 2100
    watched_store "t" run ws E) as (w & t0 & _ & _ & _ & Hs & Hd).
  exists run, ws, w, t0. split; [reflexivity|]. split; [exact Hs|]. split; [exact Hd|].
  vm_compute in E. injection E as <- _. vm_compute. reflexivity.
Defined.
