(* ===== verification/Schedule.v ===== *)
(** * Schedule: triggers at a time of the day

    Models [crates/runtime/src/schedule.rs]: every minute the cards of a Flow whose time has
    come start together, each once for one local minute and offset.  The clock, which knows
    the time zone and the sun, is an interface. *)

From Stdlib Require Import ZArith Lia Ascii String.
From S2P Require Import Prelude Text Errors Slots Float Value Time Calendar Document Stats Flow Store StoreDoc StoreInv StoreOk StoreProps Runs RunsOk.

Local Open Scope Z_scope.

(** [trait Clock] *)
Class Clock := {
  local : Z -> Result Civil;
  solar : Civil -> f64 -> f64 -> bool -> Result (option Z)
}.

Record Last : Type := mk_last { l_flow : string; l_node : string; l_minute : Civil }.

Definition scheduled (node : Value) : bool :=
  let step := get_null node "step" in
  is_kind "trigger" node && (text step "appId" =? "stulp")%string
  && ((text step "cardId" =? "time_at")%string || (text step "cardId" =? "sunrise")%string
      || (text step "cardId" =? "sunset")%string).

Definition as_number (v : Value) : option f64 :=
  match v with VNumber n => Some (as_f64 n) | _ => None end.

(** [s.split_once(c)] *)
Fixpoint split_once (c : ascii) (s : string) : option (string * string) :=
  match s with
  | EmptyString => None
  | String a s => if Ascii.eqb a c then Some (EmptyString, s)
                  else '(x, y) ← split_once c s; Some (String a x, y)
  end.

Definition is_digit (b : Z) : bool := between 48 b 57.

(** [s.parse::<u8>().ok()] of at most two digits. *)
Definition parse_u8 (s : string) : option Z :=
  match as_bytes s with
  | [] => None
  | l => if forallb is_digit l then Some (fold_left (fun n b => 10 * n + (b - 48)) l 0) else None
  end.

(** The time of a [time_at] card is this hour and minute. *)
Definition matches_time (time : string) (now : Civil) : bool :=
  match split_once ":" time with
  | None => false
  | Some (h, m) =>
      forallb is_digit (as_bytes h) && forallb is_digit (as_bytes m)
      && (len h <=? 2) && negb (is_empty h) && (len m =? 2)
      && bool_decide (parse_u8 h = Some (hour now)) && bool_decide (parse_u8 m = Some (minute now))
  end.

Definition same_minute (a b : Civil) : bool :=
  (year a =? year b) && (month a =? month b) && (day a =? day b) && (hour a =? hour b) && (minute a =? minute b).

Definition in_range (lo x hi : f64) : bool := f_leb lo x && f_leb x hi.
Definition whole (z : Z) : f64 := f64_of_Z z.

Section WithClock.
Context {HC : Clock}.

(** [matches] *)
Definition matches_card (node : Value) (now : Civil) : Result bool :=
  let step := get_null node "step" in
  let args := get_null step "args" in
  let id := text step "cardId" in
  if (id =? "time_at")%string then Ok (matches_time (text args "time") now)
  else
    match as_number (get_null args "latitude"), as_number (get_null args "longitude") with
    | Some latitude, Some longitude =>
        if negb (in_range (whole (-90)) latitude (whole 90)) || negb (in_range (whole (-180)) longitude (whole 180))
        then Ok false
        else
          let offset := default (whole 0) (as_number (get_null args "offset")) in
          if negb (is_finite offset) || f_ltb (whole 10000000) (f_abs offset) then Ok false
          else
            target ← solar now latitude longitude (id =? "sunrise")%string;
            match target with
            | None => Ok false
            | Some t => t ← ok_or (checked_add_i64 t (to_i64 (f64_mul offset (whole 60)))) Full;
                        c ← local t;
                        Ok (same_minute c now)
            end
    | _, _ => Ok false
    end.

Section WithStore.
Context {St : Type} {HS : Storage St}.

Definition is_last (flow node : string) (l : Last) : bool :=
  (l_flow l =? flow)%string && (l_node l =? node)%string.

(** The card of an entry is still scheduled in an enabled Flow. *)
Definition still_scheduled (s : Store St) (flow node : string) : bool :=
  match record (document s) "flows" flow with
  | Ok f => boolean f "enabled" && existsb (fun n => (text n "id" =? node)%string && scheduled n) (array f "nodes")
  | Err _ => false
  end.

Definition handled (last : list Last) (flow node : string) (now : Civil) : bool :=
  existsb (fun l => is_last flow node l && bool_decide (l_minute l = now)) last.

(** The nodes of a Flow whose time has come. *)
Fixpoint starts_of (last : list Last) (fid : string) (now : Civil) (nodes : list Value) (out : list string)
  : Result (list string) :=
  match nodes with
  | [] => Ok out
  | n :: nodes =>
      if negb (scheduled n) || handled last fid (text n "id") now then starts_of last fid now nodes out
      else
        b ← matches_card n now;
        out ← (if (b : bool) then push out (text n "id") MAX_CARDS else Ok out);
        starts_of last fid now nodes out
  end.

Definition pad_signed (n : nat) (z : Z) : list Z := if z <? 0 then 45 :: pad (n - 1) (- z) else pad n z.

(** [HH:MM] and [YYYY-MM-DD] *)
Definition clock_text (now : Civil) : string := of_bytes (pad 2 (hour now) ++ [58] ++ pad 2 (minute now)).
Definition date_text (now : Civil) : string :=
  of_bytes (pad_signed 4 (year now) ++ [45] ++ pad 2 (month now) ++ [45] ++ pad 2 (day now)).

Definition time_context (now : Civil) : Value :=
  let values := fields [("time", VString (clock_text now)); ("date", VString (date_text now))] in
  fields [("tokens", values); ("state", values)].

(** One entry replaces the one of its card or comes last. *)
Fixpoint note_last (e : Last) (l : list Last) : list Last :=
  match l with
  | [] => [e]
  | x :: l => if is_last (l_flow e) (l_node e) x then e :: l else x :: note_last e l
  end.

(** The loop over the Flows. *)
Fixpoint due_flows (now : Civil) (now_ms : Z) (ran_at : string) (flows : list Value) (last : list Last)
  : Result (option Run) * list Last :=
  match flows with
  | [] => (Ok None, last)
  | definition :: flows =>
      let fid := text definition "id" in
      match starts_of last fid now (array definition "nodes") [] with
      | Err e => (Err e, last)
      | Ok [] => due_flows now now_ms ran_at flows last
      | Ok starts =>
          match (run ← selected definition starts (time_context now) now_ms ran_at;
                 entries ← push_all (fun id => Ok (mk_last fid id now)) MAX_CARDS starts [];
                 let new := length (List.filter (fun e => negb (existsb (is_last (l_flow e) (l_node e)) last)) entries) in
                 if 4096 <? Z.of_nat (length last + new) then Err Full else Ok (run, entries)) with
          | Err e => (Err e, last)
          | Ok (run, entries) => (Ok (Some run), fold_left (fun l e => note_last e l) entries last)
          end
      end
  end.

Definition enabled_flows (s : Store St) : list Value :=
  List.filter (fun d => boolean d "enabled") (records (document s) "flows").

Definition due (s : Store St) (unix now_ms : Z) (ran_at : string) (last : list Last)
  : Result (option Run) * list Last :=
  let last := List.filter (fun e => still_scheduled s (l_flow e) (l_node e)) last in
  match local unix with
  | Err e => (Err e, last)
  | Ok now => due_flows now now_ms ran_at (enabled_flows s) last
  end.

(** ** What is started *)

(** The entries that are kept at the start of a call. *)
Definition retained (s : Store St) (last : list Last) : list Last :=
  List.filter (fun e => still_scheduled s (l_flow e) (l_node e)) last.

(** The first Flow that has cards to start, with their ids. *)
Fixpoint first_due (now : Civil) (last : list Last) (flows : list Value) : option (Value * list string) :=
  match flows with
  | [] => None
  | d :: flows =>
      match starts_of last (text d "id") now (array d "nodes") [] with
      | Ok [] => first_due now last flows
      | Ok starts => Some (d, starts)
      | Err _ => None
      end
  end.

Lemma is_last_spec f n l : is_last f n l = true <-> l_flow l = f /\ l_node l = n.
Proof. unfold is_last. by rewrite andb_true_iff, !String.eqb_eq. Qed.

Lemma handled_spec last f n now :
  handled last f n now = true <-> exists l, l ∈ last /\ l_flow l = f /\ l_node l = n /\ l_minute l = now.
Proof.
  unfold handled. rewrite existsb_exists. setoid_rewrite andb_true_iff. setoid_rewrite is_last_spec.
  setoid_rewrite bool_decide_eq_true. setoid_rewrite <- list_elem_of_In. naive_solver.
Qed.

Lemma note_last_elem e l x : x ∈ l -> is_last (l_flow e) (l_node e) x = false -> x ∈ note_last e l.
Proof.
  induction l as [|y l IH]; [by intros ?%not_elem_of_nil|]. intros [->|Hx]%elem_of_cons Hn; cbn.
  - rewrite Hn. by left.
  - destruct (is_last _ _ y); [by right|]. right. by apply IH.
Qed.

Lemma note_last_new e l : e ∈ note_last e l.
Proof. induction l as [|y l IH]; cbn; [by left|]. destruct (is_last _ _ y); [by left|by right]. Qed.

(** Noting an entry of this minute never loses another one of this minute. *)
Lemma handled_note e l f n now :
  l_minute e = now -> handled l f n now = true -> handled (note_last e l) f n now = true.
Proof.
  intros He (x & Hx & Hf & Hn & Hm)%handled_spec. apply handled_spec.
  destruct (is_last (l_flow e) (l_node e) x) eqn:E.
  - apply is_last_spec in E as [E1 E2]. exists e. split_and!; [apply note_last_new|congruence..].
  - exists x. split_and!; [by apply note_last_elem|done..].
Qed.

Lemma handled_notes entries l f n now :
  Forall (fun e => l_minute e = now) entries -> handled l f n now = true ->
  handled (fold_left (fun l e => note_last e l) entries l) f n now = true.
Proof.
  intros HF. revert l. induction HF as [|e entries He _ IH]; intros l Hl; [done|]. cbn. apply IH. by apply handled_note.
Qed.

Lemma handled_noted entries l e now :
  Forall (fun e => l_minute e = now) entries -> e ∈ entries ->
  handled (fold_left (fun l e => note_last e l) entries l) (l_flow e) (l_node e) now = true.
Proof.
  intros HF He. revert l. induction HF as [|x entries Hx HF IH]; intros l; [by apply not_elem_of_nil in He|].
  apply elem_of_cons in He as [->|He]; cbn; [|by apply IH]. apply handled_notes; [done|].
  apply handled_spec. exists x. split_and!; [apply note_last_new|done..].
Qed.

(** The chosen nodes: scheduled, not handled yet, and their time has come. *)
Definition comes_due (last : list Last) (now : Civil) (d n : Value) : Prop :=
  scheduled n = true /\ handled last (text d "id") (text n "id") now = false /\ matches_card n now = Ok true.

Lemma starts_of_Ok last d now nodes : forall out out',
  starts_of last (text d "id") now nodes out = Ok out' ->
  exists new, out' = out ++ new
    /\ (forall id, id ∈ new <-> exists n, n ∈ nodes /\ text n "id" = id /\ comes_due last now d n).
Proof.
  induction nodes as [|n nodes IH]; intros out out'; cbn [starts_of].
  - intros [= <-]. exists []. rewrite app_nil_r. split; [done|]. intros id. split; [by intros ?%not_elem_of_nil|].
    by intros (n & ?%not_elem_of_nil & _).
  - destruct (negb (scheduled n) || handled last (text d "id") (text n "id") now) eqn:E.
    + intros (new & -> & HE)%IH. exists new. split; [done|]. intros id. rewrite HE. split.
      * intros (m & Hm & Hr). exists m. split; [by right|done].
      * intros (m & [->|Hm]%elem_of_cons & Hid & Hs & Hh & Hx); [|by exists m].
        rewrite Hs, Hh in E. done.
    + apply orb_false_iff in E as [E1%negb_false_iff E2].
      destruct (matches_card n now) as [b|] eqn:Eb; cbn [mbind result_bind]; [|done]. destruct b.
      * destruct (push out _ _) as [o|] eqn:Ep; cbn [mbind result_bind]; [|done]. apply push_Ok in Ep as [_ ->].
        intros (new & -> & HE)%IH. exists (text n "id" :: new). rewrite <- app_assoc. split; [done|].
        intros id. rewrite elem_of_cons, HE. split.
        -- intros [->|(m & Hm & Hr)]; [exists n; split_and!; [by left|done..]|exists m; split; [by right|done]].
        -- intros (m & [->|Hm]%elem_of_cons & Hid & Hr); [left; congruence|right; by exists m].
      * cbn [mbind result_bind]. intros (new & -> & HE)%IH. exists new. split; [done|]. intros id. rewrite HE. split.
        -- intros (m & Hm & Hr). exists m. split; [by right|done].
        -- intros (m & [->|Hm]%elem_of_cons & Hid & Hs & Hh & Hx); [congruence|by exists m].
Qed.

Lemma entries_Ok fid now starts entries :
  push_all (fun id => Ok (mk_last fid id now)) MAX_CARDS starts [] = Ok entries ->
  entries = map (fun id => mk_last fid id now) starts.
Proof.
  intros (ys & HF & -> & _)%push_all_Ok. cbn. induction HF as [|x y xs ys [= <-] _ IH]; [done|]. cbn. by f_equal.
Qed.

(** One call: nothing is due, or the chosen cards of one Flow start and are noted. *)
Lemma due_flows_Ok now ms at_ flows : forall last r last',
  due_flows now ms at_ flows last = (Ok r, last') ->
  match r with
  | None => first_due now last flows = None /\ last' = last
      /\ Forall (fun d => starts_of last (text d "id") now (array d "nodes") [] = Ok []) flows
  | Some run => exists d starts before after, flows = before ++ d :: after
      /\ first_due now last flows = Some (d, starts)
      /\ Forall (fun d => starts_of last (text d "id") now (array d "nodes") [] = Ok []) before
      /\ starts_of last (text d "id") now (array d "nodes") [] = Ok starts /\ starts <> []
      /\ selected d starts (time_context now) ms at_ = Ok run
      /\ last' = fold_left (fun l e => note_last e l) (map (fun id => mk_last (text d "id") id now) starts) last
  end.
Proof.
  induction flows as [|d flows IH]; intros last r last'; cbn [due_flows first_due].
  - intros [= <- <-]. by split_and!.
  - destruct (starts_of _ _ _ _ _) as [[|id ids]|] eqn:Es; [| |done].
    + intros H%IH. destruct r as [run|].
      * destruct H as (d' & starts & before & after & -> & H1 & H2 & H3). exists d', starts, (d :: before), after.
        split_and!; [done|done|by constructor|apply H3..].
      * destruct H as (H1 & H2 & H3). split_and!; [done|done|by constructor].
    + destruct (selected _ _ _ _ _) as [run|] eqn:Er; cbn [mbind result_bind]; [|done].
      destruct (push_all _ _ _ _) as [entries|] eqn:Ep; cbn [mbind result_bind]; [|done].
      apply entries_Ok in Ep as ->. destruct (_ <? _); [done|]. intros [= <- <-].
      exists d, (id :: ids), [], flows. by split_and!.
Qed.

(** *** A sequence of calls *)

Record tick : Type := mk_tick { t_store : Store St; t_unix : Z; t_ms : Z; t_at : string }.

Definition sched_step (last : list Last) (t : tick) : list Last :=
  (due (t_store t) (t_unix t) (t_ms t) (t_at t) last).2.

(** This call starts the card. *)
Definition starts_card (last : list Last) (t : tick) (fid nid : string) : Prop :=
  exists now run d starts, local (t_unix t) = Ok now
    /\ (due (t_store t) (t_unix t) (t_ms t) (t_at t) last).1 = Ok (Some run)
    /\ first_due now (retained (t_store t) last) (enabled_flows (t_store t)) = Some (d, starts)
    /\ selected d starts (time_context now) (t_ms t) (t_at t) = Ok run
    /\ text d "id" = fid /\ nid ∈ starts.

Lemma handled_retained s last f n now :
  still_scheduled s f n = true -> handled last f n now = true -> handled (retained s last) f n now = true.
Proof.
  intros Hs (x & Hx & Hf & Hn & Hm)%handled_spec. apply handled_spec. exists x. split_and!; [|done..].
  apply filter_elem. split; [done|]. by rewrite Hf, Hn.
Qed.

Lemma sched_step_handled last t f n now :
  local (t_unix t) = Ok now -> still_scheduled (t_store t) f n = true -> handled last f n now = true ->
  handled (sched_step last t) f n now = true.
Proof.
  intros Hl Hs Hh. apply (handled_retained _ _ _ _ _ Hs) in Hh. unfold sched_step, due. rewrite Hl.
  fold (retained (t_store t) last). destruct (due_flows _ _ _ _ _) as [r last'] eqn:E. cbn [snd].
  destruct r as [r|e].
  - apply due_flows_Ok in E. destruct r as [run|]; [|by destruct E as (_ & -> & _)].
    destruct E as (d & starts & before & after & _ & _ & _ & _ & _ & _ & ->). apply handled_notes; [|done].
    apply Forall_forall. by intros x (id & -> & _)%list_elem_of_fmap.
  - assert (last' = retained (t_store t) last) as ->; [|done]. clear Hl Hh. revert E.
    generalize (retained (t_store t) last). intros l. induction (enabled_flows (t_store t)) as [|d fl IH]; cbn; [done|].
    destruct (starts_of _ _ _ _ _) as [[|id ids]|]; [done| |by intros [= _ <-]].
    match goal with |- context [match ?x with Ok _ => _ | Err _ => _ end] => destruct x as [[]|] end;
      [done|by intros [= _ <-]].
Qed.

Lemma starts_card_handled last t f n now :
  local (t_unix t) = Ok now -> starts_card last t f n ->
  handled (retained (t_store t) last) f n now = false /\ handled (sched_step last t) f n now = true.
Proof.
  intros Hl (now' & run & d & starts & Hl' & Hr & Hfd & Hsel & <- & Hin). rewrite Hl in Hl'. injection Hl' as <-.
  unfold sched_step. unfold due in *. rewrite Hl in *. fold (retained (t_store t) last) in *.
  destruct (due_flows _ _ _ _ _) as [r last'] eqn:E. cbn [fst snd] in *. subst r.
  apply due_flows_Ok in E as (d' & starts' & before & after & _ & Hfd' & _ & Hs & _ & _ & ->).
  rewrite Hfd in Hfd'. injection Hfd' as <- <-. split.
  - apply starts_of_Ok in Hs as (new & E & Hnew). cbn in E. subst new.
    apply Hnew in Hin as (m & _ & <- & _ & Hh & _). done.
  - change (text d "id") with (l_flow (mk_last (text d "id") n now)) at 2.
    change n with (l_node (mk_last (text d "id") n now)) at 2. apply handled_noted.
    + apply Forall_forall. by intros x (id & -> & _)%list_elem_of_fmap.
    + apply list_elem_of_fmap. by exists n.
Qed.

(** Once a minute.  While the local minute (with its offset) stays the same and the card
    stays scheduled in an enabled Flow, the card is started by at most one call, whatever
    else the calls meet: other Flows, failures, another store. *)
Theorem a_card_starts_once_a_minute last before t1 between t2 now fid nid :
  Forall (fun t => local (t_unix t) = Ok now /\ still_scheduled (t_store t) fid nid = true)
    (t1 :: between ++ [t2]) ->
  let last1 := fold_left sched_step before last in
  starts_card last1 t1 fid nid -> ~ starts_card (fold_left sched_step between (sched_step last1 t1)) t2 fid nid.
Proof.
  intros HF last1 H1 H2. apply Forall_cons in HF as [[Hl1 Hs1] HF]. apply Forall_app in HF as [HF H].
  apply Forall_singleton in H as [Hl2 Hs2].
  destruct (starts_card_handled _ _ _ _ _ Hl1 H1) as [_ Hh].
  destruct (starts_card_handled _ _ _ _ _ Hl2 H2) as [Hn _].
  assert (handled (fold_left sched_step between (sched_step last1 t1)) fid nid now = true) as Hb.
  { clear H1 H2 Hn. revert Hh. generalize (sched_step last1 t1). induction HF as [|t l [Hlt Hst] _ IH]; intros la Hla; [done|].
    cbn. apply IH. by apply sched_step_handled. }
  apply (handled_retained _ _ _ _ _ Hs2) in Hb. congruence.
Qed.

(** *** The whole minute *)

(** The calls of one minute on one store: until nothing is due or a call fails. *)
Fixpoint drain (fuel : nat) (t : tick) (last : list Last) (started : list Run)
  : Result (list Run) * list Last :=
  match fuel with
  | O => (Err Full, last)
  | S fuel =>
      match due (t_store t) (t_unix t) (t_ms t) (t_at t) last with
      | (Err e, last) => (Err e, last)
      | (Ok None, last) => (Ok started, last)
      | (Ok (Some run), last) => drain fuel t last (started ++ [run])
      end
  end.

(** The Flows with cards to start. *)
Definition busy (now : Civil) (last : list Last) (d : Value) : bool :=
  match starts_of last (text d "id") now (array d "nodes") [] with Ok [] => false | _ => true end.

Lemma starts_of_empty last d now nodes :
  starts_of last (text d "id") now nodes [] = Ok [] <->
  Forall (fun n => scheduled n = false \/ handled last (text d "id") (text n "id") now = true
                  \/ matches_card n now = Ok false) nodes.
Proof.
  induction nodes as [|n nodes IH]; cbn [starts_of]; [by split; [constructor|]|].
  rewrite Forall_cons. destruct (scheduled n); cbn [negb orb]; [|rewrite IH; naive_solver].
  destruct (handled _ _ _ _); [rewrite IH; naive_solver|].
  destruct (matches_card n now) as [[]|]; cbn [mbind result_bind]; [|rewrite IH; naive_solver|naive_solver].
  split; [|naive_solver]. cbn. intros H.
  destruct (starts_of_Ok last d now nodes _ _ H) as (new & E & _). by destruct new.
Qed.

Lemma still_scheduled_here s d n :
  store_ok s -> d ∈ enabled_flows s -> n ∈ array d "nodes" -> scheduled n = true ->
  still_scheduled s (text d "id") (text n "id") = true.
Proof.
  intros Hs [Hd He]%filter_elem Hn Hsch. unfold still_scheduled.
  assert (record (document s) "flows" (text d "id") = Ok d) as ->.
  { apply record_Ok. apply find_id_elem; [|done].
    by destruct (doc_records _ "flows" (so_doc _ Hs)) as [_ (_ & _ & HN)]; [vm_compute; set_solver|]. }
  rewrite He. cbn [andb]. apply existsb_exists. exists n. split; [by apply list_elem_of_In|].
  by rewrite String.eqb_refl, Hsch.
Qed.

Lemma starts_of_matched last d now nodes : forall out out',
  starts_of last (text d "id") now nodes out = Ok out' ->
  Forall (fun n => scheduled n = false \/ handled last (text d "id") (text n "id") now = true
                  \/ exists b, matches_card n now = Ok b) nodes.
Proof.
  induction nodes as [|n nodes IH]; intros out out'; cbn [starts_of]; [constructor|].
  destruct (scheduled n) eqn:Es; cbn [negb orb]; [|constructor; [by left|by eapply IH]].
  destruct (handled _ _ _ _) eqn:Eh; [constructor; [by right; left|by eapply IH]|].
  destruct (matches_card n now) as [b|] eqn:Em; cbn [mbind result_bind]; [|done].
  destruct (if b then _ else _) as [o|]; cbn [mbind result_bind]; [|done].
  intros H. constructor; [right; right; by exists b|by eapply IH].
Qed.

(** One call that starts something makes fewer Flows busy. *)
Lemma busy_decreases (t : tick) now last run last' :
  store_ok (t_store t) -> local (t_unix t) = Ok now ->
  due (t_store t) (t_unix t) (t_ms t) (t_at t) last = (Ok (Some run), last') ->
  (length (List.filter (busy now (retained (t_store t) last')) (enabled_flows (t_store t)))
   < length (List.filter (busy now (retained (t_store t) last)) (enabled_flows (t_store t))))%nat.
Proof.
  intros Hs Hl H. set (s := t_store t) in *. set (fl := enabled_flows s) in *.
  assert (forall d n, d ∈ fl -> n ∈ array d "nodes" -> scheduled n = true ->
    handled (retained s last) (text d "id") (text n "id") now = true ->
    handled (retained s last') (text d "id") (text n "id") now = true) as Hmono.
  { intros d n Hd Hn Hsc Hh. apply handled_retained; [by eapply still_scheduled_here|].
    assert (last' = sched_step last t) as -> by (unfold sched_step; fold s; by rewrite H).
    apply sched_step_handled; [done|by eapply still_scheduled_here|].
    apply handled_spec in Hh as (x & [Hx _]%filter_elem & Hr). apply handled_spec. by exists x. }
  unfold due in H. rewrite Hl in H. fold (retained s last) in H.
  apply due_flows_Ok in H as (d & starts & before & after & Hfl & _ & _ & Hst & Hne & _ & Hlast').
  assert (d ∈ fl) as Hd by (change fl with (enabled_flows s); rewrite Hfl; set_solver).
  apply filter_shrinks with d; [|done| |].
  - intros x Hx. unfold busy. intros Hb.
    destruct (starts_of (retained s last) (text x "id") now (array x "nodes") []) as [[]|] eqn:E; [|done..].
    exfalso. rewrite starts_of_empty, Forall_forall in E.
    assert (starts_of (retained s last') (text x "id") now (array x "nodes") [] = Ok []) as E'; [|by rewrite E' in Hb].
    apply starts_of_empty. apply Forall_forall. intros n Hn. destruct (scheduled n) eqn:Esc; [|by left].
    destruct (E n Hn) as [?|[Hh|Hm]]; [congruence|right; left; by apply Hmono|right; by right].
  - unfold busy. rewrite Hst. by destruct starts.
  - unfold busy. assert (starts_of (retained s last') (text d "id") now (array d "nodes") [] = Ok []) as ->; [|done].
    pose proof (starts_of_matched _ _ _ _ _ _ Hst) as Hm. rewrite Forall_forall in Hm.
    apply starts_of_empty. apply Forall_forall. intros n Hn. destruct (scheduled n) eqn:Esc; [|by left]. right.
    destruct (handled (retained s last) (text d "id") (text n "id") now) eqn:Eh; [left; by apply Hmono|].
    destruct (Hm n Hn) as [?|[?|[[] Hb]]]; [congruence..| |by right]. left.
    apply handled_retained; [by eapply still_scheduled_here|]. subst last'.
    apply (handled_noted _ _ (mk_last (text d "id") (text n "id") now)).
    + apply Forall_forall. by intros x (i & -> & _)%list_elem_of_fmap.
    + apply list_elem_of_fmap. exists (text n "id"). split; [done|].
      apply starts_of_Ok in Hst as (new & -> & Hnew). apply Hnew. by exists n.
Qed.

Lemma drain_spec (t : tick) now : store_ok (t_store t) -> local (t_unix t) = Ok now ->
  forall fuel last started,
  (length (List.filter (busy now (retained (t_store t) last)) (enabled_flows (t_store t))) < fuel)%nat ->
  match drain fuel t last started with
  | (Err e, _) => exists last0, (due (t_store t) (t_unix t) (t_ms t) (t_at t) last0).1 = Err e
  | (Ok _, last') => Forall (fun d => starts_of last' (text d "id") now (array d "nodes") [] = Ok [])
      (enabled_flows (t_store t))
  end.
Proof.
  intros Hs Hl. induction fuel as [|fuel IH]; intros last started Hf; [lia|]. cbn [drain].
  destruct (due _ _ _ _ last) as [[[run|]|e] last'] eqn:E.
  - pose proof (busy_decreases t now last run last' Hs Hl E). apply IH. lia.
  - unfold due in E. rewrite Hl in E. fold (retained (t_store t) last) in E.
    apply due_flows_Ok in E as (_ & -> & HF). done.
  - exists last. by rewrite E.
Qed.

(** Every card of the minute starts.  Calling [due] again within one minute ends after at
    most one call more than there are enabled Flows, unless a call fails; when it ends,
    every scheduled card of an enabled Flow whose time has come was started in this minute. *)
Theorem every_due_card_starts (t : tick) now last :
  store_ok (t_store t) -> local (t_unix t) = Ok now ->
  match drain (S (length (enabled_flows (t_store t)))) t last [] with
  | (Err e, _) => exists last0, (due (t_store t) (t_unix t) (t_ms t) (t_at t) last0).1 = Err e
  | (Ok _, last') => forall d n, d ∈ enabled_flows (t_store t) -> n ∈ array d "nodes" ->
      scheduled n = true -> matches_card n now = Ok true ->
      handled last' (text d "id") (text n "id") now = true
  end.
Proof.
  intros Hs Hl.
  pose proof (drain_spec t now Hs Hl (S (length (enabled_flows (t_store t)))) last []) as H.
  destruct (drain _ _ _ _) as [[runs|e] last'].
  - rewrite Forall_forall in H. intros d n Hd Hn Hsc Hm.
    specialize (H ltac:(apply le_n_S, filter_length_le) d Hd).
    rewrite starts_of_empty, Forall_forall in H. destruct (H n Hn) as [?|[?|?]]; [congruence|done|congruence].
  - apply H, le_n_S, filter_length_le.
Qed.
End WithStore.
End WithClock.

(** ** A clock without a sun, and a Flow at half past seven *)

#[local] Instance plain_clock : Clock := {
  local := fun unix => civil unix 0;
  solar := fun _ _ _ _ => Ok None
}.

Definition morning : Value := json_of
  "{'id':'f','name':'F','enabled':true,'revision':1,'nodes':[{'id':'t','step':{'appId':'stulp','cardId':'time_at','cardType':'trigger','args':{'time':'7:30'}}}]}".

Definition morning_store : Store Memory :=
  Eval vm_compute in (run_op (OpPut "flows" morning true None "2024-01-01T00:00:00Z") sample).2.

Lemma morning_store_ok : store_ok morning_store.
Proof.
  destruct (run_op (OpPut "flows" morning true None "2024-01-01T00:00:00Z") sample) as [r s] eqn:E.
  assert (s = morning_store) as <- by (vm_compute in E; by injection E as _ <-).
  eapply (run_op_ok _ _ _ _ _ sample_ok E). Unshelve. vm_compute. reflexivity.
Qed.

(** 07:30:05 and 07:30:40 on the first of January 1970. *)
Definition tick1 : tick (St := Memory) := mk_tick morning_store 27005 5 "t".
Definition tick2 : tick (St := Memory) := mk_tick morning_store 27040 40 "t".

Lemma a_card_starts_once_a_minute_witness :
  starts_card [] tick1 "f" "t" /\ ~ starts_card (sched_step [] tick1) tick2 "f" "t".
Proof.
  assert (starts_card [] tick1 "f" "t") as H1.
  { unfold starts_card. eexists _, _, _, _. split; [vm_compute; reflexivity|]. split; [vm_compute; reflexivity|].
    split; [vm_compute; reflexivity|]. split; [vm_compute; reflexivity|]. split; [vm_compute; reflexivity|].
    apply list_elem_of_here. }
  split; [exact H1|].
  apply (a_card_starts_once_a_minute [] [] tick1 [] tick2 (mk_civil 1970 1 1 7 30 0) "f" "t"); [|exact H1].
  repeat constructor; vm_compute; reflexivity.
Defined.

Lemma every_due_card_starts_witness :
  exists runs last', drain 3 tick1 [] [] = (Ok runs, last') /\ length runs = 1%nat
    /\ handled last' "f" "t" (mk_civil 1970 1 1 7 30 0) = true.
Proof.
  pose proof (every_due_card_starts tick1 (mk_civil 1970 1 1 7 30 0) [] morning_store_ok eq_refl) as H.
  change (S (length (enabled_flows (t_store tick1)))) with 3%nat in H.
  destruct (drain 3 tick1 [] []) as [[runs|e] last'] eqn:E; [|vm_compute in E; discriminate E].
  exists runs, last'. split; [reflexivity|]. split; [vm_compute in E; injection E as <- _; reflexivity|].
  refine (H (nth 1 (enabled_flows (t_store tick1)) VNull) (hd VNull (array morning "nodes")) _ _ _ _).
  - apply list_elem_of_In. vm_compute. tauto.
  - apply list_elem_of_In. vm_compute. tauto.
  - vm_compute. reflexivity.
  - vm_compute. reflexivity.
Defined.
