(* ===== verification/Timezone.v ===== *)
(** * Timezone: IANA zones and POSIX rules

    Models [crates/controller/src/timezone.rs]: decoding a TZif file, the offset of an instant
    from its transitions or from the POSIX rule behind them, and the local calendar. *)

From Stdlib Require Import ZArith Lia Ascii String Sorted Floats.SpecFloat.
From S2P Require Import Prelude Text Errors Value Float Calendar Wire Time Schedule.

Local Open Scope Z_scope.

Record Zone : Type := mk_zone { z_offset : Z; z_dst : bool }.
Record Transition : Type := mk_transition { t_at : Z; t_zone : nat }.

Inductive RuleKind : Type :=
| Julian (day : Z)
| Day (day : Z)
| Month (month week day : Z).

Record Rule : Type := mk_rule { r_kind : RuleKind; r_seconds : Z }.
Record Extension : Type := mk_extension { e_std : Z; e_dst : Z; e_rules : option (Rule * Rule) }.
Record Timezone : Type := mk_timezone {
  zones : list Zone; transitions : list Transition; extend : option Extension
}.

(** ** POSIX rules *)

(** The parser is the text that is left. *)
Definition P (A : Type) : Type := list Z -> Result (A * list Z).

Definition eat (c : Z) (l : list Z) : bool * list Z :=
  match l with x :: t => if x =? c then (true, t) else (false, l) | [] => (false, []) end.

Definition require (c : Z) : P unit := fun l =>
  match eat c l with (true, t) => Ok (tt, t) | (false, _) => Err (Invalid "invalid timezone rule") end.

Definition is_digit (b : Z) : bool := between 48 b 57.

(** [bytes().take_while(p).count()] and [split_at] *)
Fixpoint span (p : Z -> bool) (l : list Z) : list Z * list Z :=
  match l with
  | [] => ([], [])
  | x :: t => if p x then let '(a, b) := span p t in (x :: a, b) else ([], l)
  end.

Definition digits_value (l : list Z) : Z := fold_left (fun n b => 10 * n + (b - 48)) l 0.

Definition number (min max : Z) : P Z := fun l =>
  let '(ds, rest) := span is_digit l in
  if (match ds with [] => true | _ => false end) || (2147483647 <? digits_value ds)
  then Err (Invalid "invalid timezone number")
  else if negb (between min (digits_value ds) max) then Err (Invalid "timezone number out of range")
  else Ok (digits_value ds, rest).

(** What follows the first [c], and how much came before it. *)
Fixpoint find_byte (c : Z) (l : list Z) : option (nat * list Z) :=
  match l with
  | [] => None
  | x :: t => if x =? c then Some (O, t)
              else match find_byte c t with Some (n, r) => Some (S n, r) | None => None end
  end.

Definition name_byte (b : Z) : bool := negb (is_digit b) && negb ((b =? 44) || (b =? 43) || (b =? 45)).

Definition name : P unit := fun l =>
  match eat 60 l with
  | (true, l) =>
      match find_byte 62 l with
      | None => Err (Invalid "invalid timezone name")
      | Some (O, _) => Err (Invalid "empty timezone name")
      | Some (_, rest) => Ok (tt, rest)
      end
  | (false, l) =>
      let '(n, rest) := span name_byte l in
      if (length n <? 3)%nat then Err (Invalid "invalid timezone name") else Ok (tt, rest)
  end.

Definition offset_text : P Z := fun l =>
  let '(minus, l) := eat 45 l in
  let l := if minus then l else (eat 43 l).2 in
  let sign := if minus then -1 else 1 in
  '(h, l) ← number 0 168 l;
  match eat 58 l with
  | (false, l) => Ok (sign * (h * 3600), l)
  | (true, l) =>
      '(m, l) ← number 0 59 l;
      match eat 58 l with
      | (false, l) => Ok (sign * (h * 3600 + m * 60), l)
      | (true, l) => '(s, l) ← number 0 59 l; Ok (sign * (h * 3600 + m * 60 + s), l)
      end
  end.

Definition rule_kind : P RuleKind := fun l =>
  match eat 74 l with
  | (true, l) => '(d, l) ← number 1 365 l; Ok (Julian d, l)
  | (false, l) =>
      match eat 77 l with
      | (true, l) =>
          '(month, l) ← number 1 12 l;
          '(_, l) ← require 46 l;
          '(week, l) ← number 1 5 l;
          '(_, l) ← require 46 l;
          '(day, l) ← number 0 6 l;
          Ok (Month month week day, l)
      | (false, l) => '(d, l) ← number 0 365 l; Ok (Day d, l)
      end
  end.

Definition rule : P Rule := fun l =>
  '(k, l) ← rule_kind l;
  match eat 47 l with
  | (true, l) => '(s, l) ← offset_text l; Ok (mk_rule k s, l)
  | (false, l) => Ok (mk_rule k 7200, l)
  end.

Definition ends_here (l : list Z) : bool := match l with [] => true | b :: _ => b =? 44 end.

Definition DEFAULT_RULES : list Z := as_bytes ",M3.2.0,M11.1.0".

Definition parse (l : list Z) : Result Extension :=
  '(_, l) ← name l;
  '(o, l) ← offset_text l;
  let std := - o in
  if ends_here l then Ok (mk_extension std std None)
  else
    '(_, l) ← name l;
    '(dst, l) ← (if ends_here l then Ok (std + 3600, l) else '(o, l) ← offset_text l; Ok (- o, l));
    let l := match l with [] => DEFAULT_RULES | _ => l end in
    '(_, l) ← match eat 44 l with (true, l) => Ok (tt, l) | (false, l) => require 59 l end;
    '(start, l) ← rule l;
    '(_, l) ← require 44 l;
    '(end_, l) ← rule l;
    match l with
    | [] => Ok (mk_extension std dst (Some (start, end_)))
    | _ => Err (Invalid "invalid timezone extension suffix")
    end.

(** The days since the first of January that a rule names. *)
Definition rule_days (k : RuleKind) (year : Z) : Result Z :=
  match k with
  | Julian day => Ok (day - 1 + (if leap year && (60 <=? day) then 1 else 0))
  | Day day => Ok day
  | Month month week day =>
      first ← midnight year 1 1;
      start ← midnight year month 1;
      let weekday := (start / 86400 + 4) mod 7 in
      let d := (day - weekday) mod 7 + 7 * (week - 1) in
      let d := if month_days year month <=? d then d - 7 else d in
      Ok ((start - first) / 86400 + d)
  end.

(** [Rule::at]: the instant of a rule in a year. *)
Definition rule_at (r : Rule) (year offset : Z) : Result Z :=
  first ← midnight year 1 1;
  days ← rule_days (r_kind r) year;
  Ok (first + days * 86400 + r_seconds r - offset).

Definition extension_offset (e : Extension) (unix : Z) : Result Z :=
  match e_rules e with
  | None => Ok (e_std e)
  | Some (start, end_) =>
      c ← civil unix 0;
      start ← rule_at start (year c) (e_std e);
      end_ ← rule_at end_ (year c) (e_dst e);
      let daylight := if start <? end_ then (start <=? unix) && (unix <? end_)
                      else (start <=? unix) || (unix <? end_) in
      Ok (if daylight then e_dst e else e_std e)
  end.

(** ** The file *)

(** [bytes.get(a..b)] *)
Definition get_range (l : list Z) (a b : Z) : option (list Z) :=
  if (a <=? b) && (b <=? Z.of_nat (length l)) then Some (take (Z.to_nat (b - a)) (drop (Z.to_nat a) l)) else None.

(** The counts of a header, in the order of the file: UTC and standard markers, leap
    seconds, transitions, types and name bytes. *)
Record Counts : Type := mk_counts { c_ut : Z; c_std : Z; c_leap : Z; c_time : Z; c_types : Z; c_chars : Z }.

Definition be_at (l : list Z) (i n : nat) : Z := from_be_bytes (take n (drop i l)).

Definition TZIF : list Z := as_bytes "TZif".

Definition header (b : list Z) (start : Z) : Result (Z * Counts) :=
  h ← ok_or (get_range b start (start + 44)) (Invalid "truncated timezone header");
  if negb (bool_decide (take 4 h = TZIF)) then Err (Invalid "invalid timezone header")
  else Ok (nth 4 h 0,
           mk_counts (be_at h 20 4) (be_at h 24 4) (be_at h 28 4) (be_at h 32 4) (be_at h 36 4) (be_at h 40 4)).

(** Every checked product and sum of [size] fits as soon as the total does. *)
Definition size (c : Counts) (width : Z) : Result Z :=
  let n := c_time c * (width + 1) + c_types c * 6 + c_chars c + c_leap c * (width + 4) + c_std c + c_ut c in
  if U64_MAX <? n then Err Full else Ok n.

Definition signed (bits v : Z) : Z := if v <? 2 ^ (bits - 1) then v else v - 2 ^ bits.

(** The types, [i] of [n] done. *)
Fixpoint read_zones (block strings : list Z) (p : Z) (n : nat) (out : list Zone) : Result (list Zone) :=
  match n with
  | O => Ok out
  | S n =>
      b ← ok_or (get_range block p (p + 4)) Full;
      rest ← ok_or (get_range block (p + 4) (p + 6)) Full;
      let dst := nth 0 rest 0 in
      let name := Z.to_nat (nth 1 rest 0) in
      if (1 <? dst) || (length strings <? name)%nat || negb (existsb (Z.eqb 0) (drop name strings))
      then Err (Invalid "invalid timezone type")
      else
        out ← push out (mk_zone (signed 32 (from_be_bytes b)) (negb (dst =? 0))) 256;
        read_zones block strings (p + 6) n out
  end.

(** The transitions, [i] the next one and [n] of them left. *)
Fixpoint read_transitions (block : list Z) (width times types : Z) (i : Z) (n : nat) (out : list Transition)
  : Result (list Transition) :=
  match n with
  | O => Ok out
  | S n =>
      b ← ok_or (get_range block (i * width) ((i + 1) * width)) Full;
      let at_ := signed (8 * width) (from_be_bytes b) in
      z ← ok_or (get_range block (times * width + i) (times * width + i + 1)) Full;
      let zone := nth 0 z 0 in
      if (types <=? zone) || match last out with Some t => at_ <=? t_at t | None => false end
      then Err (Invalid "invalid timezone transition")
      else
        out ← push out (mk_transition at_ (Z.to_nat zone)) 100000;
        read_transitions block width times types (i + 1) n out
  end.

(** [strip_prefix(b"\n")], [strip_suffix(b"\n")] and not empty. *)
Definition footer (l : list Z) : option (list Z) :=
  match l with
  | 10 :: t => match last t with
               | Some 10 => match removelast t with [] => None | s => Some s end
               | _ => None
               end
  | _ => None
  end.

Definition decode (bytes : list Z) : Result Timezone :=
  '(version, counts) ← header bytes 0;
  '(start, width, c) ←
    (if (version =? 50) || (version =? 51) || (version =? 52) then
       n ← size counts 4;
       next ← ok_or (checked_add 44 n) Full;
       '(_, c) ← header bytes next;
       Ok (next + 44, 8, c)
     else if version =? 0 then Ok (44, 4, counts)
     else Err (Invalid "unsupported timezone format"));
  n ← size c width;
  end_ ← ok_or (checked_add start n) Full;
  block ← ok_or (get_range bytes start end_) (Invalid "truncated timezone");
  if (c_types c =? 0) || (256 <? c_types c) || (100000 <? c_time c)
  then Err (Invalid "invalid timezone counts")
  else
    let zone_start := c_time c * (width + 1) in
    strings ← ok_or (get_range block (zone_start + c_types c * 6) (zone_start + c_types c * 6 + c_chars c))
                (Invalid "timezone names missing");
    zones ← read_zones block strings zone_start (Z.to_nat (c_types c)) [];
    transitions ← read_transitions block width (c_time c) (c_types c) 0 (Z.to_nat (c_time c)) [];
    extend ← match footer (drop (Z.to_nat end_) bytes) with
             | None => Ok None
             | Some s => if negb (is_ok (from_utf8 s)) then Err (Invalid "invalid timezone extension")
                         else e ← parse s; Ok (Some e)
             end;
    Ok (mk_timezone zones transitions extend).

(** ** The offset of an instant *)

Fixpoint position_from {A} (p : A -> bool) (l : list A) (i : nat) : option nat :=
  match l with [] => None | x :: l => if p x then Some i else position_from p l (S i) end.

(** [(0..n).rev().find(p)] *)
Fixpoint rfind (p : nat -> bool) (n : nat) : option nat :=
  match n with O => None | S n => if p n then Some n else rfind p n end.

Definition is_standard (tz : Timezone) (i : nat) : bool :=
  match zones tz !! i with Some z => negb (z_dst z) | None => false end.

(** The type before the first transition. *)
Definition first_type (tz : Timezone) : nat :=
  if negb (existsb (fun t => (t_zone t =? 0)%nat) (transitions tz)) then 0%nat
  else
    let other := default 0%nat (position_from (fun z => negb (z_dst z)) (zones tz) 0) in
    match transitions tz with
    | t :: _ =>
        if match zones tz !! t_zone t with Some z => z_dst z | None => false end
        then default other (rfind (is_standard tz) (t_zone t))
        else other
    | [] => other
    end.

(** [partition_point(|t| t.at <= unix)] of a sorted table *)
Fixpoint partition_point (unix : Z) (l : list Transition) : nat :=
  match l with
  | [] => O
  | t :: l => if t_at t <=? unix then S (partition_point unix l) else O
  end.

Definition offset_at (tz : Timezone) (unix : Z) : Result Z :=
  if (length (zones tz) =? 0)%nat then Ok 0
  else
    match (if match last (transitions tz) with Some t => t_at t <=? unix | None => true end
           then extend tz else None) with
    | Some ext => extension_offset ext unix
    | None =>
        index ← match partition_point unix (transitions tz) with
                | S i => t ← ok_or (transitions tz !! i) Full; Ok (t_zone t)
                | O => Ok (first_type tz)
                end;
        z ← ok_or (zones tz !! index) (Invalid "timezone type missing");
        Ok (z_offset z)
    end.

Definition local (tz : Timezone) (unix : Z) : Result Civil :=
  o ← offset_at tz unix; civil unix o.

(** ** Proofs: rules *)

(** The range of an accepted rule. *)
Definition kind_ok (k : RuleKind) : Prop :=
  match k with
  | Julian d => 1 <= d <= 365
  | Day d => 0 <= d <= 365
  | Month m w d => 1 <= m <= 12 /\ 1 <= w <= 5 /\ 0 <= d <= 6
  end.

Definition MAX_OFFSET : Z := 608399.

Record extension_ok (e : Extension) : Prop := {
  eo_std : - MAX_OFFSET <= e_std e <= MAX_OFFSET;
  eo_dst : - MAX_OFFSET <= e_dst e <= MAX_OFFSET + 3600;
  eo_rules : forall a b, e_rules e = Some (a, b) -> kind_ok (r_kind a) /\ kind_ok (r_kind b)
}.

Lemma number_Ok min max l n rest : number min max l = Ok (n, rest) -> min <= n <= max.
Proof.
  unfold number. destruct (span is_digit l) as [ds r]. destruct (_ || _); [done|].
  destruct (between min (digits_value ds) max) eqn:E; [|done]. cbn [negb]. intros [= <- _].
  unfold between in E. lia.
Qed.

Lemma offset_text_Ok l o rest : offset_text l = Ok (o, rest) -> - MAX_OFFSET <= o <= MAX_OFFSET.
Proof.
  unfold offset_text, MAX_OFFSET. destruct (eat 45 l) as [minus l0].
  set (l1 := if minus then l0 else (eat 43 l0).2). set (sign := if minus then -1 else 1).
  assert (sign = 1 \/ sign = -1) as Hs by (unfold sign; destruct minus; auto).
  destruct (number 0 168 l1) as [[h l2]|] eqn:Eh; cbn [mbind result_bind]; [|done]. apply number_Ok in Eh.
  destruct (eat 58 l2) as [[] l3]; [|intros [= <- _]; lia].
  destruct (number 0 59 l3) as [[m l4]|] eqn:Em; cbn [mbind result_bind]; [|done]. apply number_Ok in Em.
  destruct (eat 58 l4) as [[] l5]; [|intros [= <- _]; lia].
  destruct (number 0 59 l5) as [[q l6]|] eqn:Eq; cbn [mbind result_bind]; [|done]. apply number_Ok in Eq.
  intros [= <- _]. lia.
Qed.

Lemma rule_Ok l r rest : rule l = Ok (r, rest) -> kind_ok (r_kind r).
Proof.
  unfold rule. destruct (rule_kind l) as [[k l1]|] eqn:Ek; cbn [mbind result_bind]; [|done].
  assert (kind_ok k) as Hk.
  { unfold rule_kind in Ek. destruct (eat 74 l) as [[] l2].
    - destruct (number 1 365 l2) as [[d l3]|] eqn:En; cbn [mbind result_bind] in Ek; [|done].
      injection Ek as <- _. by apply number_Ok in En.
    - destruct (eat 77 l2) as [[] l3].
      + destruct (number 1 12 l3) as [[m l4]|] eqn:E1; cbn [mbind result_bind] in Ek; [|done].
        destruct (require 46 l4) as [[? l5]|]; cbn [mbind result_bind] in Ek; [|done].
        destruct (number 1 5 l5) as [[w l6]|] eqn:E2; cbn [mbind result_bind] in Ek; [|done].
        destruct (require 46 l6) as [[? l7]|]; cbn [mbind result_bind] in Ek; [|done].
        destruct (number 0 6 l7) as [[d l8]|] eqn:E3; cbn [mbind result_bind] in Ek; [|done].
        injection Ek as <- _. apply number_Ok in E1, E2, E3. done.
      + destruct (number 0 365 l3) as [[d l4]|] eqn:En; cbn [mbind result_bind] in Ek; [|done].
        injection Ek as <- _. by apply number_Ok in En. }
  destruct (eat 47 l1) as [[] l2]; [|by intros [= <- _]].
  destruct (offset_text l2) as [[o l3]|]; cbn [mbind result_bind]; [|done]. by intros [= <- _].
Qed.

Lemma parse_Ok l e : parse l = Ok e -> extension_ok e.
Proof.
  unfold parse. destruct (name l) as [[[] l1]|]; cbn [mbind result_bind]; [|done].
  destruct (offset_text l1) as [[o l2]|] eqn:Eo; cbn [mbind result_bind]; [|done]. apply offset_text_Ok in Eo.
  destruct (ends_here l2). { intros [= <-]. constructor; cbn; unfold MAX_OFFSET in *; [lia|lia|done]. }
  destruct (name l2) as [[[] l3]|]; cbn [mbind result_bind]; [|done].
  match goal with |- context [if ends_here l3 then ?a else ?b] =>
    destruct (if ends_here l3 then a else b) as [[dst l4]|] eqn:Ed; cbn [mbind result_bind]; [|done] end.
  assert (- MAX_OFFSET <= dst <= MAX_OFFSET + 3600) as Hdst.
  { destruct (ends_here l3); [injection Ed as <- _; lia|].
    destruct (offset_text l3) as [[o2 ?]|] eqn:E2; cbn [mbind result_bind] in Ed; [|done].
    injection Ed as <- _. apply offset_text_Ok in E2. lia. }
  set (l5 := match l4 with [] => DEFAULT_RULES | _ => l4 end).
  match goal with |- context [match eat 44 l5 with _ => _ end] =>
    destruct (match eat 44 l5 with (true, l) => Ok (tt, l) | (false, l) => require 59 l end) as [[? l6]|];
    cbn [mbind result_bind]; [|done] end.
  destruct (rule l6) as [[a l7]|] eqn:Ea; cbn [mbind result_bind]; [|done].
  destruct (require 44 l7) as [[? l8]|]; cbn [mbind result_bind]; [|done].
  destruct (rule l8) as [[b l9]|] eqn:Eb; cbn [mbind result_bind]; [|done].
  destruct l9; [|done]. intros [= <-]. constructor; cbn; [lia|done|].
  intros ? ? [= <- <-]. split; by eapply rule_Ok.
Qed.

Lemma month_days_pos y m : 1 <= m <= 12 -> 28 <= month_days y m <= 31.
Proof.
  intros Hm. unfold month_days. repeat case_match; bool_prop; try lia.
Qed.

Lemma day_number_in_month y m d : day_number y m d = day_number y m 1 + d - 1.
Proof. unfold day_number, day_of_year. lia. Qed.

(** The day of the month that a rule names. *)
Definition rule_day (y m w d : Z) : Z :=
  let i := (d - (day_number y m 1 + 4) mod 7) mod 7 + 7 * (w - 1) in
  (if month_days y m <=? i then i - 7 else i) + 1.

Lemma rule_day_range y m w d : 1 <= m <= 12 -> 1 <= w <= 5 -> 1 <= rule_day y m w d <= month_days y m.
Proof.
  intros Hm Hw. pose proof (month_days_pos y m Hm). unfold rule_day.
  pose proof (Z.mod_pos_bound (d - (day_number y m 1 + 4) mod 7) 7 ltac:(lia)).
  destruct (Z.leb_spec (month_days y m) ((d - (day_number y m 1 + 4) mod 7) mod 7 + 7 * (w - 1))); lia.
Qed.

Lemma rule_days_month y m w d :
  1 <= y <= 9999 -> 1 <= m <= 12 -> 1 <= w <= 5 ->
  rule_days (Month m w d) y = Ok (day_number y m (rule_day y m w d) - day_number y 1 1).
Proof.
  intros Hy Hm Hw. cbn [rule_days]. pose proof (month_days_pos y m Hm). pose proof (month_days_pos y 1 ltac:(lia)).
  rewrite (midnight_eq y 1 1), (midnight_eq y m 1) by (split; lia). cbn [mbind result_bind].
  rewrite Z.div_mul by lia. rewrite (day_number_in_month y m (rule_day y m w d)). unfold rule_day. do 2 f_equal.
  rewrite <- Z.mul_sub_distr_r, Z.div_mul by lia. lia.
Qed.

(** The rule of a month means what POSIX says: [Mm.w.d] is an existing day of month [m], a
    weekday [d] (0 is Sunday), the [w]-th one of the month, and the last one for [w = 5]. *)
Theorem month_rule_is_the_weekday y m w d :
  1 <= y <= 9999 -> kind_ok (Month m w d) ->
  exists day n, rule_days (Month m w d) y = Ok n /\ 1 <= day <= month_days y m
    /\ midnight y m day = Ok ((day_number y 1 1 + n) * 86400)
    /\ (day_number y m day + 4) mod 7 = d
    /\ (w < 5 -> 7 * (w - 1) < day <= 7 * w) /\ (w = 5 -> month_days y m < day + 7).
Proof.
  intros Hy (Hm & Hw & Hd). pose proof (rule_day_range y m w d Hm Hw) as Hr.
  exists (rule_day y m w d), (day_number y m (rule_day y m w d) - day_number y 1 1).
  split; [by apply rule_days_month|]. split; [done|].
  split; [rewrite midnight_eq by (split; lia); do 2 f_equal; lia|].
  pose proof (month_days_pos y m Hm). unfold rule_day in *. rewrite (day_number_in_month y m (_ + 1)).
  set (a := day_number y m 1) in *.
  pose proof (Z.mod_pos_bound (d - (a + 4) mod 7) 7 ltac:(lia)) as Hb.
  assert ((a + (d - (a + 4) mod 7) mod 7 + 4) mod 7 = d) as Hwd.
  { clearbody a. clear -Hd. Z.to_euclidean_division_equations. lia. }
  set (i := (d - (a + 4) mod 7) mod 7) in *.
  split; [|destruct (Z.leb_spec (month_days y m) (i + 7 * (w - 1))); lia].
  rewrite <- Hwd.
  destruct (Z.leb_spec (month_days y m) (i + 7 * (w - 1))).
  - replace (a + (i + 7 * (w - 1) - 7 + 1) - 1 + 4) with (a + i + 4 + (w - 2) * 7) by lia. by rewrite Z.mod_add.
  - replace (a + (i + 7 * (w - 1) + 1) - 1 + 4) with (a + i + 4 + (w - 1) * 7) by lia. by rewrite Z.mod_add.
Qed.

Lemma rule_at_total r y off : 1 <= y <= 9999 -> kind_ok (r_kind r) -> exists t, rule_at r y off = Ok t.
Proof.
  intros Hy Hk. unfold rule_at. pose proof (month_days_pos y 1 ltac:(lia)).
  rewrite (midnight_eq y 1 1) by (split; lia). cbn [mbind result_bind].
  destruct (r_kind r) as [j|j|m w d]; [by eexists..|]. destruct Hk as (Hm & Hw & _).
  rewrite rule_days_month by done. by eexists.
Qed.

(** ** Proofs: the calendar never fails in the common era *)

Definition EARLY : Z := -46000000000.
Definition LATE : Z := 237000000000.

Lemma civil_total unix off :
  EARLY <= unix <= LATE -> -2147483648 <= off <= 2147483647 ->
  exists c, civil unix off = Ok c /\ 1 <= year c <= 9999.
Proof.
  unfold EARLY, LATE. intros Hu Ho. rewrite civil_eq. unfold checked_add_i64.
  rewrite (proj2 (Z.leb_le (-9223372036854775808) _)), (proj2 (Z.leb_le _ 9223372036854775807)) by lia. cbn [andb].
  set (z := (unix + off) / 86400 + 719468).
  assert (146097 <= z < 24 * 146097) as Hz by (unfold z; Z.to_euclidean_division_equations; lia).
  destruct (date_of z) as [[y m] d] eqn:E.
  assert (1 <= y <= 9999) as Hy.
  { unfold date_of in E. set (doe := z mod 146097) in E.
    assert (0 <= doe <= 146096) as Hdoe by (unfold doe; pose proof (Z.mod_pos_bound z 146097); lia).
    destruct (year_exists doe Hdoe) as (yo & Hyo & Hin). rewrite (year_of_spec yo doe Hyo Hin) in E.
    destruct (month_part _) as [m0 d0]. injection E as <- _ _.
    assert (1 <= z / 146097 < 24) by (Z.to_euclidean_division_equations; lia).
    destruct (m0 <=? 2); lia. }
  rewrite (proj2 (Z.leb_le 1 y)), (proj2 (Z.leb_le y 9999)) by lia. cbn. by eexists.
Qed.

(** ** Proofs: decoding *)

(** What the code relies on. *)
Record timezone_ok (tz : Timezone) : Prop := {
  tz_types : (1 <= length (zones tz) <= 256)%nat;
  tz_offsets : Forall (fun z => -2147483648 <= z_offset z <= 2147483647) (zones tz);
  tz_sorted : StronglySorted (fun a b => t_at a < t_at b) (transitions tz);
  tz_indices : Forall (fun t => (t_zone t < length (zones tz))%nat) (transitions tz);
  tz_extend : forall e, extend tz = Some e -> extension_ok e
}.

Lemma get_range_bytes l a b r : Forall is_byte l -> get_range l a b = Some r -> Forall is_byte r.
Proof.
  intros Hl. unfold get_range. destruct (_ && _); [|done]. intros [= <-]. by apply Forall_take, Forall_drop.
Qed.

Lemma get_range_length l a b r : 0 <= a -> get_range l a b = Some r -> Z.of_nat (length r) = b - a.
Proof.
  intros Ha. unfold get_range. destruct (_ && _) eqn:E; [|done]. bool_prop. intros [= <-].
  rewrite length_take, length_drop. lia.
Qed.

Lemma signed32_range l : Forall is_byte l -> length l = 4%nat ->
  -2147483648 <= signed 32 (from_be_bytes l) <= 2147483647.
Proof.
  intros Hl Hn. unfold from_be_bytes, signed.
  assert (0 <= le_val (rev l) < 2 ^ 32) as H.
  { pose proof (le_val_bound (rev l)) as H. rewrite length_rev, Hn in H. apply H.
    apply Forall_forall. intros x Hx. rewrite Forall_forall in Hl. apply Hl.
    apply list_elem_of_In. apply list_elem_of_In in Hx. by apply in_rev. }
  change (2 ^ 32) with 4294967296 in *. change (2 ^ (32 - 1)) with 2147483648.
  destruct (Z.ltb_spec (le_val (rev l)) 2147483648); lia.
Qed.

Lemma read_zones_Ok block strings n : forall p out zs,
  Forall is_byte block -> 0 <= p -> read_zones block strings p n out = Ok zs ->
  length zs = (length out + n)%nat /\
  (Forall (fun z => -2147483648 <= z_offset z <= 2147483647) out ->
   Forall (fun z => -2147483648 <= z_offset z <= 2147483647) zs).
Proof.
  induction n as [|n IH]; intros p out zs Hb Hp; cbn [read_zones]; [intros [= <-]; split; [lia|done]|].
  destruct (get_range block p (p + 4)) as [b|] eqn:E; cbn [ok_or mbind result_bind]; [|done].
  destruct (get_range block (p + 4) (p + 6)) as [rest|]; cbn [ok_or mbind result_bind]; [|done].
  destruct (_ || _); [done|]. destruct (push out _ 256) as [o|] eqn:Ep; cbn [mbind result_bind]; [|done].
  apply push_Ok in Ep as [_ ->]. intros H. apply IH in H as [Hl HF]; [|done|lia].
  rewrite length_app in Hl. cbn [length] in Hl. split; [lia|]. intros Ho. apply HF. apply Forall_app. split; [done|].
  apply Forall_singleton. cbn. apply signed32_range; [by eapply get_range_bytes|].
  apply get_range_length in E; [lia|done].
Qed.

Lemma StronglySorted_snoc {A} (R : A -> A -> Prop) l x :
  (forall a b c, R a b -> R b c -> R a c) ->
  StronglySorted R l -> (forall y, last l = Some y -> R y x) -> StronglySorted R (l ++ [x]).
Proof.
  intros Ht. induction 1 as [|a l Hl IH Ha]; intros Hx; cbn; [by repeat constructor|].
  assert (StronglySorted R (l ++ [x])) as Hs.
  { apply IH. intros y Hy. apply Hx. destruct l; [done|]. cbn in *. done. }
  constructor; [done|]. apply Forall_app. split; [done|]. apply Forall_singleton.
  destruct (last l) as [y|] eqn:E.
  - assert (y ∈ l) as Hy. { apply last_Some in E as [l' ->]. set_solver. }
    rewrite Forall_forall in Ha. eapply Ht; [by apply Ha|]. apply Hx. destruct l; [done|]. done.
  - apply last_None in E as ->. by apply Hx.
Qed.

Lemma read_transitions_Ok block width times types n : forall i out ts,
  read_transitions block width times types i n out = Ok ts ->
  StronglySorted (fun a b => t_at a < t_at b) out -> Forall (fun t => Z.of_nat (t_zone t) < Z.max 1 types) out ->
  StronglySorted (fun a b => t_at a < t_at b) ts /\ Forall (fun t => Z.of_nat (t_zone t) < Z.max 1 types) ts.
Proof.
  induction n as [|n IH]; intros i out ts; cbn [read_transitions]; [by intros [= <-]|].
  destruct (get_range block (i * width) _) as [b|]; cbn [ok_or mbind result_bind]; [|done].
  destruct (get_range block (times * width + i) _) as [z|]; cbn [ok_or mbind result_bind]; [|done].
  destruct (types <=? nth 0 z 0) eqn:Et; [done|]. cbn [orb].
  destruct (match last out with Some t => _ | None => false end) eqn:El; [done|].
  destruct (push out _ 100000) as [o|] eqn:Ep; cbn [mbind result_bind]; [|done].
  apply push_Ok in Ep as [_ ->]. intros H Hs HF. apply IH in H; [done| |].
  - apply StronglySorted_snoc; [lia|done|]. intros y Hy. rewrite Hy in El. cbn. lia.
  - apply Forall_app. split; [done|]. apply Forall_singleton. cbn. lia.
Qed.

Lemma header_Ok b start v c : Forall is_byte b -> header b start = Ok (v, c) -> 0 <= c_time c /\ 0 <= c_types c.
Proof.
  intros Hb. unfold header. destruct (get_range b start _) as [h|] eqn:E; cbn [ok_or mbind result_bind]; [|done].
  destruct (negb _); [done|]. intros [= _ <-]. apply get_range_bytes in E; [|done]. cbn [c_time c_types].
  assert (forall i, 0 <= be_at h i 4) as Hbe; [|by split; apply Hbe].
  intros i. unfold be_at, from_be_bytes. apply le_val_bound. apply Forall_forall. intros x Hx%list_elem_of_In.
  apply in_rev in Hx. apply list_elem_of_In in Hx.
  assert (Forall is_byte (take 4 (drop i h))) as HF by (by apply Forall_take, Forall_drop).
  rewrite Forall_forall in HF. by apply HF.
Qed.

(** A time zone that is accepted is sound: it has between one and 256 types, its
    transitions are strictly ordered and name types that exist, and its rules are in range. *)
Lemma zone_decode_ok bytes tz : Forall is_byte bytes -> decode bytes = Ok tz -> timezone_ok tz.
Proof.
  intros Hb H. unfold decode in H.
  destruct (header bytes 0) as [[v c0]|] eqn:E0; cbn [mbind result_bind] in H; [|done].
  apply header_Ok in E0; [|done].
  match type of H with (mbind _ ?x = _) => destruct x as [[[start width] c]|] eqn:Es; cbn [mbind result_bind] in H; [|done] end.
  assert (0 <= c_time c /\ 0 <= c_types c /\ 0 <= width) as (Hct & Hcy & Hw).
  { destruct ((v =? 50) || (v =? 51) || (v =? 52)).
    - destruct (size c0 4) as [n|]; cbn [mbind result_bind] in Es; [|done].
      destruct (ok_or _ _) as [nx|]; cbn [mbind result_bind] in Es; [|done].
      destruct (header bytes nx) as [[v' c']|] eqn:Eh; cbn [mbind result_bind] in Es; [|done].
      injection Es as _ <- <-. apply header_Ok in Eh; [|done]. lia.
    - destruct (v =? 0); [|done]. injection Es as _ <- <-. lia. }
  destruct (size c width) as [n|]; cbn [mbind result_bind] in H; [|done].
  destruct (ok_or (checked_add start n) _) as [end_|]; cbn [mbind result_bind] in H; [|done].
  destruct (get_range bytes start end_) as [block|] eqn:Eb; cbn [ok_or mbind result_bind] in H; [|done].
  apply get_range_bytes in Eb; [|done].
  destruct ((c_types c =? 0) || (256 <? c_types c) || (100000 <? c_time c)) eqn:Ec in H; [done|]. bool_prop.
  destruct (ok_or (get_range block _ _) _) as [strings|]; cbn [mbind result_bind] in H; [|done].
  destruct (read_zones _ _ _ _ _) as [zs|] eqn:Ez; cbn [mbind result_bind] in H; [|done].
  destruct (read_transitions _ _ _ _ _ _ _) as [ts|] eqn:Et; cbn [mbind result_bind] in H; [|done].
  match type of H with (mbind _ ?x = _) => destruct x as [ext|] eqn:Ee; cbn [mbind result_bind] in H; [|done] end.
  injection H as <-. apply read_zones_Ok in Ez as [Hzl Hzo]; [|done|nia].
  apply read_transitions_Ok in Et as [Hts Hti]; [|constructor|constructor].
  cbn [length] in Hzl. constructor; cbn [zones transitions extend].
  - lia.
  - apply Hzo. constructor.
  - done.
  - eapply Forall_impl; [exact Hti|]. cbn. intros t Ht. lia.
  - intros e ->. destruct (footer _) as [f|]; [|done]. destruct (negb _); [done|].
    destruct (parse f) as [e'|] eqn:Ep; cbn [mbind result_bind] in Ee; [|done]. injection Ee as <-. by eapply parse_Ok.
Qed.

(** ** Proofs: the offset of an instant *)

Lemma partition_point_sorted unix before after :
  Forall (fun t => t_at t <= unix) before -> Forall (fun t => unix < t_at t) after ->
  partition_point unix (before ++ after) = length before.
Proof.
  intros Hb Ha. induction Hb as [|t l Ht _ IH]; cbn.
  - destruct Ha as [|t l Ht]; cbn; [done|]. by rewrite (proj2 (Z.leb_gt _ _)).
  - by rewrite (proj2 (Z.leb_le _ _)), IH.
Qed.

Lemma partition_point_split unix l :
  StronglySorted (fun a b => t_at a < t_at b) l ->
  exists before after, l = before ++ after /\ Forall (fun t => t_at t <= unix) before
    /\ Forall (fun t => unix < t_at t) after.
Proof.
  induction 1 as [|t l _ (b & a & -> & Hb & Ha) Ht]; [by exists [], []|].
  destruct (Z.leb_spec (t_at t) unix).
  - exists (t :: b), a. split_and!; [done|by constructor|done].
  - exists [], (t :: b ++ a). split_and!; [done|constructor|]. constructor; [done|].
    eapply Forall_impl; [exact Ht|]. cbn. lia.
Qed.

Lemma first_type_lt tz : timezone_ok tz -> (first_type tz < length (zones tz))%nat.
Proof.
  intros [Hn _ _ Hi _]. unfold first_type. cbv zeta. destruct (negb _); [lia|].
  assert (forall n i, (n <= length (zones tz))%nat -> rfind (is_standard tz) n = Some i -> (i < length (zones tz))%nat) as Hr.
  { induction n as [|n IH]; intros i Hle; cbn; [done|]. destruct (is_standard tz n); [intros [= <-]; lia|apply IH; lia]. }
  assert (forall (l : list Zone) k i, position_from (fun z => negb (z_dst z)) l k = Some i -> (i < k + length l)%nat) as Hp.
  { induction l as [|z l IH]; intros k i; cbn; [done|]. destruct (negb (z_dst z)); [intros [= <-]; lia|].
    intros H%IH. lia. }
  assert (default 0%nat (position_from (fun z => negb (z_dst z)) (zones tz) 0) < length (zones tz))%nat as Ho.
  { destruct (position_from _ _ _) as [i|] eqn:E; cbn; [apply Hp in E; lia|lia]. }
  destruct (transitions tz) as [|t ts]; [done|]. apply Forall_cons in Hi as [Ht _].
  destruct (match zones tz !! t_zone t with Some z => z_dst z | None => false end); [|done].
  destruct (rfind _ _) as [i|] eqn:E; cbn; [|done]. eapply Hr; [|exact E]. lia.
Qed.

(** The type the transitions give an instant. *)
Definition table_type (tz : Timezone) (unix : Z) : nat :=
  match last (List.filter (fun t => t_at t <=? unix) (transitions tz)) with
  | Some t => t_zone t
  | None => first_type tz
  end.

Lemma filter_split unix before after :
  Forall (fun t => t_at t <= unix) before -> Forall (fun t => unix < t_at t) after ->
  List.filter (fun t => t_at t <=? unix) (before ++ after) = before.
Proof.
  intros Hb Ha. rewrite List.filter_app.
  assert (List.filter (fun t => t_at t <=? unix) after = []) as ->.
  { induction Ha as [|t l Ht _ IH]; [done|]. cbn. by rewrite (proj2 (Z.leb_gt _ _)), IH. }
  rewrite app_nil_r. induction Hb as [|t l Ht _ IH]; [done|]. cbn. by rewrite (proj2 (Z.leb_le _ _)), IH.
Qed.

Lemma offset_at_table tz unix :
  timezone_ok tz ->
  (match last (transitions tz) with Some t => t_at t <=? unix | None => true end = true -> extend tz = None) ->
  exists z, zones tz !! table_type tz unix = Some z /\ offset_at tz unix = Ok (z_offset z).
Proof.
  intros Hok He. pose proof Hok as [Hn _ Hs Hi _]. unfold offset_at.
  destruct (Nat.eqb_spec (length (zones tz)) 0); [lia|].
  assert ((if match last (transitions tz) with Some t => t_at t <=? unix | None => true end then extend tz else None) = None) as ->.
  { revert He. destruct (last (transitions tz)) as [t|]; [destruct (t_at t <=? unix)|]; auto. }
  destruct (partition_point_split unix _ Hs) as (b & a & Et & Hb & Ha). unfold table_type.
  rewrite Et, partition_point_sorted, filter_split by done. rewrite Et in Hi.
  destruct (last b) as [t|] eqn:El.
  - apply last_Some in El as [b' ->]. rewrite length_app. cbn [length]. rewrite Nat.add_1_r.
    rewrite lookup_app_l by (rewrite length_app; cbn; lia).
    rewrite list_lookup_middle by done. cbn [ok_or mbind result_bind].
    rewrite !Forall_app, Forall_singleton in Hi. destruct Hi as [[_ Ht] _].
    destruct (lookup_lt_is_Some_2 (zones tz) (t_zone t) Ht) as [z Hz]. exists z. by rewrite Hz.
  - apply last_None in El as ->. cbn [length mbind result_bind].
    destruct (lookup_lt_is_Some_2 (zones tz) (first_type tz) (first_type_lt tz Hok)) as [z Hz].
    exists z. by rewrite Hz.
Qed.

Lemma extension_offset_total e unix :
  extension_ok e -> EARLY <= unix <= LATE ->
  exists o, extension_offset e unix = Ok o /\ - MAX_OFFSET <= o <= MAX_OFFSET + 3600.
Proof.
  intros [Hs Hd Hr] Hu. unfold extension_offset. destruct (e_rules e) as [[a b]|].
  2:{ eexists. split; [done|]. lia. }
  destruct (Hr a b eq_refl) as [Ha Hb]. destruct (civil_total unix 0 Hu ltac:(lia)) as (c & -> & Hy).
  cbn [mbind result_bind]. destruct (rule_at_total a (year c) (e_std e) Hy Ha) as [ta ->].
  cbn [mbind result_bind]. destruct (rule_at_total b (year c) (e_dst e) Hy Hb) as [tb ->].
  cbn [mbind result_bind]. eexists. split; [done|]. destruct (if ta <? tb then _ else _); lia.
Qed.

(** The instant lies before the end of the table, or there is no rule behind it. *)
Definition in_table (tz : Timezone) (unix : Z) : bool :=
  match last (transitions tz) with Some t => unix <? t_at t | None => false end || bool_decide (extend tz = None).

(** The clock of an accepted time zone never fails between the years 513 and 9480; within
    the table of the file, and everywhere when the file has no rule, the offset is that of
    the last transition at or before the instant. *)
Theorem accepted_zone_never_fails bytes tz unix :
  Forall is_byte bytes -> decode bytes = Ok tz -> EARLY <= unix <= LATE ->
  (exists c, local tz unix = Ok c /\ 1 <= year c <= 9999) /\
  (in_table tz unix = true ->
   exists z, zones tz !! table_type tz unix = Some z /\ offset_at tz unix = Ok (z_offset z)).
Proof.
  intros Hb Hd Hu. apply zone_decode_ok in Hd; [|done]. split.
  - assert (exists o, offset_at tz unix = Ok o /\ -2147483648 <= o <= 2147483647) as (o & Ho & Hr).
    { destruct (if match last (transitions tz) with Some t => t_at t <=? unix | None => true end then extend tz else None)
        as [e|] eqn:E.
      - assert (extend tz = Some e) as He by (destruct (last (transitions tz)) as [t|]; [destruct (t_at t <=? unix)|]; done).
        destruct (extension_offset_total e unix (tz_extend _ Hd _ He) Hu) as (o & Ho & Hr). exists o.
        unfold MAX_OFFSET in Hr. split; [|lia]. unfold offset_at. rewrite E.
        destruct (Nat.eqb_spec (length (zones tz)) 0); [|done]. pose proof (tz_types _ Hd). lia.
      - destruct (offset_at_table tz unix Hd) as (z & Hz & Ho).
        { intros H. rewrite H in E. done. }
        exists (z_offset z). split; [done|]. pose proof (tz_offsets _ Hd) as HF. rewrite Forall_forall in HF.
        apply HF. by eapply list_elem_of_lookup_2. }
    unfold local. rewrite Ho. cbn [mbind result_bind]. by apply civil_total.
  - intros Hi. apply offset_at_table; [done|]. intros Hl. unfold in_table in Hi.
    apply orb_true_iff in Hi as [Hi|Hi]; [|by apply bool_decide_eq_true in Hi].
    destruct (last (transitions tz)) as [t|]; [|done]. lia.
Qed.

(** ** Amsterdam, by rule: [CET-1CEST,M3.5.0,M10.5.0/3] *)

Definition be (n : nat) (z : Z) : list Z := be_bytes n z.

(** A version 2 file: an empty old block, then one transition to the type with offset 3600. *)
Definition sample_zone : list Z :=
  TZIF ++ [50] ++ repeat 0 15 ++ flat_map (be 4) [0; 0; 0; 0; 0; 0]
  ++ TZIF ++ [50] ++ repeat 0 15 ++ flat_map (be 4) [0; 0; 0; 1; 2; 4]
  ++ be 8 1000 ++ [1] ++ be 4 1172 ++ [0; 0] ++ be 4 3600 ++ [0; 0] ++ as_bytes "CET" ++ [0]
  ++ [10] ++ as_bytes "CET-1CEST,M3.5.0,M10.5.0/3" ++ [10].

Lemma sample_zone_bytes : Forall is_byte sample_zone.
Proof. apply Forall_forall. intros x Hx%list_elem_of_In. vm_compute in Hx. unfold is_byte. lia. Qed.

Definition amsterdam : Timezone :=
  Eval vm_compute in match decode sample_zone with Ok tz => tz | Err _ => mk_timezone [] [] None end.

(** The thirty-first of March 2024, 01:00 UTC: summer time begins. *)
Lemma accepted_zone_never_fails_witness :
  decode sample_zone = Ok amsterdam
  /\ (exists c, local amsterdam 1711846800 = Ok c /\ (hour c, minute c, offset c) = (3, 0, 7200))
  /\ (exists z, zones amsterdam !! table_type amsterdam 999 = Some z /\ offset_at amsterdam 999 = Ok (z_offset z)).
Proof.
  assert (decode sample_zone = Ok amsterdam) as Hd by (vm_compute; reflexivity).
  split; [exact Hd|]. split.
  - destruct (accepted_zone_never_fails sample_zone amsterdam 1711846800 sample_zone_bytes Hd) as [(c & Hc & _) _].
    + split; vm_compute; discriminate.
    + exists c. split; [exact Hc|]. vm_compute in Hc. injection Hc as <-. reflexivity.
  - apply (accepted_zone_never_fails sample_zone amsterdam 999 sample_zone_bytes Hd).
    + split; vm_compute; discriminate.
    + reflexivity.
Defined.

(** The last Sunday of March 2024 is the thirty-first. *)
Lemma month_rule_is_the_weekday_witness :
  kind_ok (Month 3 5 0) /\ rule_days (Month 3 5 0) 2024 = Ok 90
  /\ exists day, midnight 2024 3 day = Ok ((day_number 2024 1 1 + 90) * 86400) /\ day = 31.
Proof.
  assert (kind_ok (Month 3 5 0)) as Hk by (cbn; lia).
  split; [exact Hk|]. split; [vm_compute; reflexivity|].
  destruct (month_rule_is_the_weekday 2024 3 5 0 ltac:(lia) Hk) as (day & n & Hn & Hd & Hm & _ & _ & Hl).
  assert (n = 90) as -> by (vm_compute in Hn; congruence).
  exists day. split; [exact Hm|]. specialize (Hl eq_refl). change (month_days 2024 3) with 31 in *.
  rewrite midnight_eq in Hm by (split; [lia|change (month_days 2024 3) with 31; lia]).
  injection Hm as Hm. rewrite day_number_in_month in Hm. vm_compute (day_number 2024 1 1) in Hm.
  vm_compute (day_number 2024 3 1) in Hm. lia.
Defined.

(** * Sun: the clock of the server

    Models [crates/controller/src/calendar.rs]: a time zone as the [Clock] of the schedule,
    with sunrise and sunset by the steps of NOAA.  The functions of [libm] are an interface. *)

(** The functions of [libm] that the sun uses, on [f64]. *)
Class Libm := {
  sin : f64 -> f64; cos : f64 -> f64; tan : f64 -> f64;
  asin : f64 -> f64; acos : f64 -> f64; atan : f64 -> f64;
  floor : f64 -> f64; fmod : f64 -> f64 -> f64
}.

(** A literal [m * 10 ^ e] *)
Definition lit (m e : Z) : f64 := f64_of_decimal (m <? 0) (Z.abs m) e.

Definition PI : f64 := Eval vm_compute in lit 314159265358979323846264338327950288 (-35).
Definition to_radians (x : f64) : f64 := f64_mul x (f64_div PI (f64_of_Z 180)).
Definition to_degrees (x : f64) : f64 := f64_mul x (f64_div (f64_of_Z 180) PI).

Section WithLibm.
Context {HL : Libm}.

Definition pipe_rem (x divisor : f64) : f64 :=
  let r := fmod x divisor in if f_ltb r (f64_of_Z 0) then f64_add r divisor else r.

(** Where the sun stands: the hour angle, or nothing when it does not rise or set. *)
Definition mean_anomaly (t : f64) : f64 := f64_sub (f64_mul (lit 9856 (-4)) t) (lit 3289 (-3)).

Definition true_longitude (mean : f64) : f64 :=
  pipe_rem
    (f64_add
       (f64_add (f64_add mean (f64_mul (lit 1916 (-3)) (sin (to_radians mean))))
                (f64_mul (lit 20 (-3)) (sin (to_radians (f64_mul (f64_of_Z 2) mean)))))
       (lit 282634 (-3)))
    (f64_of_Z 360).

Definition right_ascension (longitude : f64) : f64 :=
  let ninety := f64_of_Z 90 in
  let ra := pipe_rem (to_degrees (atan (f64_mul (lit 91764 (-5)) (tan (to_radians longitude))))) (f64_of_Z 360) in
  let ra := f64_add ra (f64_sub (f64_mul (floor (f64_div longitude ninety)) ninety)
                                (f64_mul (floor (f64_div ra ninety)) ninety)) in
  f64_div ra (f64_of_Z 15).

Definition cos_hour (longitude lat : f64) : f64 :=
  let sin_dec := f64_mul (lit 39782 (-5)) (sin (to_radians longitude)) in
  let cos_dec := cos (asin sin_dec) in
  f64_div (f64_sub (cos (to_radians (lit 90833 (-3)))) (f64_mul sin_dec (sin (to_radians lat))))
          (f64_mul cos_dec (cos (to_radians lat))).

Definition solar_time (date : Civil) (lat lon : f64) (rise : bool) : Result (option Z) :=
  midnight_ ← midnight (year date) (month date) (day date);
  first ← midnight (year date) 1 1;
  let day := Z.quot (midnight_ - first) 86400 + 1 in
  let lng := f64_div lon (f64_of_Z 15) in
  let hour := if rise then f64_of_Z 6 else f64_of_Z 18 in
  let t := f64_add (f64_of_Z day) (f64_div (f64_sub hour lng) (f64_of_Z 24)) in
  let longitude := true_longitude (mean_anomaly t) in
  let ra := right_ascension longitude in
  let cos_h := cos_hour longitude lat in
  if negb (in_range (f64_of_Z (-1)) cos_h (f64_of_Z 1)) then Ok None
  else
    let h := to_degrees (acos cos_h) in
    let h := if rise then f64_sub (f64_of_Z 360) h else h in
    let h := f64_div h (f64_of_Z 15) in
    let local := f64_sub (f64_sub (f64_add h ra) (f64_mul (lit 6571 (-5)) t)) (lit 6622 (-3)) in
    let ut := pipe_rem (f64_sub local lng) (f64_of_Z 24) in
    t ← ok_or (checked_add_i64 midnight_ (to_i64 (f64_mul ut (f64_of_Z 3600)))) Full;
    Ok (Some t).

(** [impl Clock for Timezone] *)
Definition zone_clock (tz : Timezone) : Clock := {| Schedule.local := local tz; solar := solar_time |}.

End WithLibm.
