(* ===== verification/Tlv.v ===== *)
(** * Tlv: the errors of apps and the tagged values of Matter

    Models the error type of [crates/sdk/src/lib.rs] and the bounded buffers of
    [plugins/matter/src/lib.rs]: what the codecs of an app return and append to. *)

From Stdlib Require Import ZArith Lia Ascii String.
From S2P Require Import Prelude Text Errors Mutations.
From S2P Require Value.

Local Open Scope Z_scope.

(** [stulp_sdk::Error] *)
Inductive Error : Type :=
| Core (e : Errors.Error)
| Invalid (s : string)
| Remote (s : string)
| Transport (s : string)
| Cancelled
| Timeout.

#[export] Instance Error_eq_dec : EqDecision Error.
Proof. solve_decision. Defined.

(** [stulp_sdk::Result] *)
Abbreviation Result := (result Error).

(** [From<stulp_core::Error>], applied by [?] *)
Definition from_core {A} (r : Errors.Result A) : Result A :=
  match r with Ok a => Ok a | Err e => Err (Core e) end.

(** [Display] *)
Definition error_text (e : Error) : string :=
  match e with
  | Core e => Mutations.error_text e
  | Invalid s | Transport s | Remote s => s
  | Cancelled => "Opdracht geannuleerd."
  | Timeout => "operation timed out"
  end.

(** ** Buffers of at most 65535 bytes *)

Definition MAX : Z := 65535.

Definition append (out bytes : list Z) : Result (list Z) :=
  if saturating_sub MAX (Z.of_nat (length out)) <? Z.of_nat (length bytes)
  then Err (Invalid "Matter buffer exceeds 65535 bytes")
  else Ok (out ++ bytes).

Definition copy (bytes : list Z) : Result (list Z) := append [] bytes.

Lemma append_Ok out bytes l :
  append out bytes = Ok l -> l = out ++ bytes /\ (Z.of_nat (length bytes) = 0 \/ Z.of_nat (length l) <= MAX).
Proof.
  unfold append, saturating_sub. destruct (Z.ltb_spec (Z.max 0 (MAX - Z.of_nat (length out))) (Z.of_nat (length bytes)));
    [done|]. intros [= <-]. rewrite length_app. split; [done|lia].
Qed.

Lemma append_fits out bytes :
  Z.of_nat (length (out ++ bytes)) <= MAX -> append out bytes = Ok (out ++ bytes).
Proof.
  rewrite length_app. intros H. unfold append, saturating_sub.
  destruct (Z.ltb_spec (Z.max 0 (MAX - Z.of_nat (length out))) (Z.of_nat (length bytes))); [lia|done].
Qed.

Lemma copy_Ok bytes l : copy bytes = Ok l -> l = bytes.
Proof. unfold copy. intros [-> _]%append_Ok. done. Qed.

Lemma copy_fits bytes : Z.of_nat (length bytes) <= MAX -> copy bytes = Ok bytes.
Proof. apply (append_fits []). Qed.

(** * Tlv: the tagged values of Matter

    Models [plugins/matter/src/tlv.rs]: the bounded writer, the streaming reader, and the
    trees of messages and certificates.  A float is its bit pattern, and so is an [f32]. *)

Definition MAX_DEPTH : Z := 32.

Inductive Tag : Type :=
| Anonymous
| Context (n : Z)
| Common (n : Z)
| Implicit (n : Z)
| FullTag (vendor profile n : Z).

#[export] Instance Tag_eq_dec : EqDecision Tag.
Proof. solve_decision. Defined.

Inductive Value : Type :=
| Int (n : Z)
| Uint (n : Z)
| VBool (b : bool)
| Float (bits : Z)
| VString (s : string)
| Bytes (b : list Z)
| VNull
| Structure
| VArray
| VList
| End.

Record Element : Type := mk_element { e_tag : Tag; e_value : Value }.

(** ** The writer *)

Record Writer : Type := mk_writer { w_bytes : list Z; w_depth : Z }.
Definition Writer_default : Writer := mk_writer [] 0.

(** The number of bytes is [2 ^ width n]. *)
Definition width (n : Z) : Z :=
  if n <=? 255 then 0 else if n <=? 65535 then 1 else if n <=? U32_MAX then 2 else 3.

Definition put (w : Writer) (b : list Z) : Result Writer :=
  bytes ← append (w_bytes w) b; Ok (mk_writer bytes (w_depth w)).

Definition tag_number (w : Writer) (n : Z) : Result Writer :=
  put w (take (if 65535 <? n then 4%nat else 2%nat) (le_bytes 4 n)).

Definition control (tag : Tag) (kind : Z) (w : Writer) : Result Writer :=
  match tag with
  | Anonymous => put w [kind]
  | Context n => put w [Z.lor 32 kind; n]
  | Common n => w ← put w [Z.lor (Z.lor 64 (if 65535 <? n then 32 else 0)) kind]; tag_number w n
  | Implicit n => w ← put w [Z.lor (Z.lor 128 (if 65535 <? n then 32 else 0)) kind]; tag_number w n
  | FullTag v p n =>
      w ← put w [Z.lor (if 65535 <? n then 224 else 192) kind];
      w ← put w (le_bytes 2 v);
      w ← put w (le_bytes 2 p);
      tag_number w n
  end.

Definition uint_width (tag : Tag) (n : Z) (bytes : nat) (w : Writer) : Result Writer :=
  k ← match bytes with
      | 1%nat => Ok 0 | 2%nat => Ok 1 | 4%nat => Ok 2 | 8%nat => Ok 3
      | _ => Err (Invalid "invalid TLV integer width")
      end;
  if (bytes <? 8)%nat && (Z.shiftl 1 (Z.of_nat bytes * 8) <=? n)
  then Err (Invalid "TLV integer does not fit width")
  else w ← control tag (4 + k) w; put w (take bytes (le_bytes 8 n)).

Definition uint (tag : Tag) (n : Z) (w : Writer) : Result Writer :=
  uint_width tag n (Z.to_nat (Z.shiftl 1 (width n))) w.

(** [iN::try_from(n).is_ok()] *)
Definition fits (bits n : Z) : bool := (- 2 ^ (bits - 1) <=? n) && (n <? 2 ^ (bits - 1)).
Definition int_width (n : Z) : Z := if fits 8 n then 0 else if fits 16 n then 1 else if fits 32 n then 2 else 3.

Definition int (tag : Tag) (n : Z) (w : Writer) : Result Writer :=
  w ← control tag (int_width n) w;
  put w (take (Z.to_nat (Z.shiftl 1 (int_width n))) (le_bytes 8 n)).

Definition boolean (tag : Tag) (n : bool) (w : Writer) : Result Writer := control tag (if n then 9 else 8) w.
Definition float32 (tag : Tag) (bits : Z) (w : Writer) : Result Writer :=
  w ← control tag 10 w; put w (le_bytes 4 bits).
Definition float64 (tag : Tag) (bits : Z) (w : Writer) : Result Writer :=
  w ← control tag 11 w; put w (le_bytes 8 bits).

Definition data (tag : Tag) (kind : Z) (b : list Z) (w : Writer) : Result Writer :=
  let k := width (Z.of_nat (length b)) in
  w ← control tag (kind + k) w;
  w ← put w (take (Z.to_nat (Z.shiftl 1 k)) (le_bytes 8 (Z.of_nat (length b))));
  put w b.

Definition string_ (tag : Tag) (s : string) (w : Writer) : Result Writer := data tag 12 (as_bytes s) w.
Definition bytes (tag : Tag) (b : list Z) (w : Writer) : Result Writer := data tag 16 b w.
Definition null (tag : Tag) (w : Writer) : Result Writer := control tag 20 w.

Definition start (tag : Tag) (kind : Value) (w : Writer) : Result Writer :=
  code ← match kind with
         | Structure => Ok 21 | VArray => Ok 22 | VList => Ok 23
         | _ => Err (Invalid "not a TLV container")
         end;
  if MAX_DEPTH <=? w_depth w then Err (Invalid "TLV nesting exceeds 32")
  else w ← control tag code w; Ok (mk_writer (w_bytes w) (w_depth w + 1)).

Definition end_ (w : Writer) : Result Writer :=
  if w_depth w =? 0 then Err (Invalid "TLV end without container")
  else w ← put w [24]; Ok (mk_writer (w_bytes w) (w_depth w - 1)).

Definition finish (w : Writer) : Result (list Z) :=
  if negb (w_depth w =? 0) then Err (Invalid "TLV has unterminated containers") else Ok (w_bytes w).

(** ** The reader *)

Record Reader : Type := mk_reader { r_data : list Z; r_at : nat; r_depth : Z }.

Definition Reader_new (data : list Z) : Result Reader :=
  if MAX <? Z.of_nat (length data) then Err (Invalid "TLV input exceeds 65535 bytes")
  else Ok (mk_reader data 0 0).

(** A step of the reader. *)
Definition R (A : Type) : Type := Reader -> Result (A * Reader).

Definition take_ (n : Z) : R (list Z) := fun r =>
  end_ ← ok_or (checked_add (Z.of_nat (r_at r)) n) (Invalid "TLV length overflow");
  b ← ok_or (slice (r_data r) (r_at r) (Z.to_nat end_)) (Invalid "truncated TLV element");
  Ok (b, mk_reader (r_data r) (Z.to_nat end_) (r_depth r)).

(** Every width the reader asks for is at most eight. *)
Definition le (n : Z) : R Z := fun r =>
  if 8 <? n then Err (Invalid "TLV width") else '(b, r) ← take_ n r; Ok (le_val b, r).

Definition read_tag (form : Z) : R Tag := fun r =>
  match form with
  | 0 => Ok (Anonymous, r)
  | 1 => '(n, r) ← le 1 r; Ok (Context n, r)
  | 2 => '(n, r) ← le 2 r; Ok (Common n, r)
  | 3 => '(n, r) ← le 4 r; Ok (Common n, r)
  | 4 => '(n, r) ← le 2 r; Ok (Implicit n, r)
  | 5 => '(n, r) ← le 4 r; Ok (Implicit n, r)
  | 6 => '(v, r) ← le 2 r; '(p, r) ← le 2 r; '(n, r) ← le 2 r; Ok (FullTag v p n, r)
  | _ => '(v, r) ← le 2 r; '(p, r) ← le 2 r; '(n, r) ← le 4 r; Ok (FullTag v p n, r)
  end.

(** [v as iN as i64] *)
Definition signed (bits v : Z) : Z := if v <? 2 ^ (bits - 1) then v else v - 2 ^ bits.

(** [f64::from(f32::from_bits(b))], on bit patterns; a NaN becomes quiet. *)
Definition widen (b : Z) : Z :=
  let sign := Z.shiftl (Z.shiftr b 31) 63 in
  let exp := Z.land (Z.shiftr b 23) 255 in
  let man := Z.land b 8388607 in
  if exp =? 255 then
    sign + Z.shiftl 2047 52 + (if man =? 0 then 0 else Z.lor (Z.shiftl 1 51) (Z.shiftl man 29))
  else if exp =? 0 then
    if man =? 0 then sign
    else let k := Z.log2 man in sign + Z.shiftl (k - 149 + 1023) 52 + Z.shiftl (man - 2 ^ k) (52 - k)
  else sign + Z.shiftl (exp - 127 + 1023) 52 + Z.shiftl man 29.

Definition set_depth (r : Reader) (d : Z) : Reader := mk_reader (r_data r) (r_at r) d.

Definition read_value (tag : Tag) (kind : Z) : R Value := fun r =>
  if kind <=? 3 then
    let w := Z.shiftl 1 kind in '(v, r) ← le w r; Ok (Int (signed (8 * w) v), r)
  else if kind <=? 7 then '(v, r) ← le (Z.shiftl 1 (kind - 4)) r; Ok (Uint v, r)
  else if kind =? 8 then Ok (VBool false, r)
  else if kind =? 9 then Ok (VBool true, r)
  else if kind =? 10 then '(v, r) ← le 4 r; Ok (Float (widen v), r)
  else if kind =? 11 then '(v, r) ← le 8 r; Ok (Float v, r)
  else if kind <=? 19 then
    '(n, r) ← le (Z.shiftl 1 (Z.land kind 3)) r;
    '(b, r) ← take_ n r;
    if kind <? 16 then
      if is_ok (from_utf8 b) then Ok (VString (of_bytes b), r) else Err (Invalid "TLV string is not UTF-8")
    else Ok (Bytes b, r)
  else if kind =? 20 then Ok (VNull, r)
  else if kind <=? 23 then
    if MAX_DEPTH <=? r_depth r then Err (Invalid "TLV nesting exceeds 32")
    else Ok (if kind =? 21 then Structure else if kind =? 22 then VArray else VList,
             set_depth r (r_depth r + 1))
  else if kind =? 24 then
    if (r_depth r =? 0) || negb (bool_decide (tag = Anonymous)) then Err (Invalid "invalid TLV container end")
    else Ok (End, set_depth r (r_depth r - 1))
  else Err (Invalid "reserved TLV type").

(** [Reader::next] *)
Definition next : R (option Element) := fun r =>
  if (r_at r =? length (r_data r))%nat then
    if negb (r_depth r =? 0) then Err (Invalid "unterminated TLV container") else Ok (None, r)
  else
    '(c, r) ← le 1 r;
    '(tag, r) ← read_tag (Z.shiftr c 5) r;
    '(value, r) ← read_value tag (Z.land c 31) r;
    Ok (Some (mk_element tag value), r).

(** ** Trees *)

Inductive Node : Type := mk_node (element : Element) (children : list Node).

Definition element (n : Node) : Element := match n with mk_node e _ => e end.
Definition children (n : Node) : list Node := match n with mk_node _ c => c end.
Definition n_tag (n : Node) : Tag := e_tag (element n).
Definition n_value (n : Node) : Value := e_value (element n).

Definition is_container (v : Value) : bool :=
  match v with Structure | VArray | VList => true | _ => false end.
Definition is_end (v : Value) : bool := match v with End => true | _ => false end.
Definition is_structure (v : Value) : bool := match v with Structure => true | _ => false end.

Definition has_tag (t : Tag) (l : list Node) : bool := existsb (fun n => bool_decide (n_tag n = t)) l.

(** An answer, or [None] when the fuel was not enough; see [parse_answers]. *)
Definition Answer (A : Type) : Type := option (Result A).
Definition answer_bind {A B} (a : Answer A) (f : A -> Answer B) : Answer B :=
  match a with None => None | Some (Err e) => Some (Err e) | Some (Ok a) => f a end.
Definition lift {A} (r : Result A) : Answer A := Some r.

(** [Node::read], with the loop over the children of a container. *)
Fixpoint read (fuel : nat) (e : Element) (count : Z) (r : Reader) : Answer (Node * Z * Reader) :=
  match fuel with
  | O => None
  | S fuel =>
      if 4096 <? count + 1 then lift (Err (Invalid "too many TLV elements"))
      else if is_container (e_value e) then
        answer_bind (read_children fuel e [] (count + 1) r) (fun '(kids, count, r) =>
          lift (Ok (mk_node e kids, count, r)))
      else lift (Ok (mk_node e [], count + 1, r))
  end
with read_children (fuel : nat) (e : Element) (kids : list Node) (count : Z) (r : Reader)
  : Answer (list Node * Z * Reader) :=
  match fuel with
  | O => None
  | S fuel =>
      answer_bind (lift (next r)) (fun '(o, r) =>
        match o with
        | None => lift (Err (Invalid "unterminated TLV tree"))
        | Some c =>
            if is_end (e_value c) then lift (Ok (kids, count, r))
            else if is_structure (e_value e) && has_tag (e_tag c) kids
            then lift (Err (Invalid "duplicate TLV structure tag"))
            else
              answer_bind (read fuel c count r) (fun '(child, count, r) =>
                answer_bind (lift (from_core (Value.push kids child 4096))) (fun kids =>
                  read_children fuel e kids count r))
        end)
  end.

(** Every element takes two calls and at least a byte. *)
Definition read_fuel (data : list Z) : nat := 2 * length data + 2.

Definition parse (data : list Z) : Answer Node :=
  answer_bind (lift (Reader_new data)) (fun r =>
    answer_bind (lift (next r)) (fun '(o, r) =>
      match o with
      | None => lift (Err (Invalid "empty TLV"))
      | Some e =>
          answer_bind (read (read_fuel data) e 0 r) (fun '(n, _, r) =>
            answer_bind (lift (next r)) (fun '(o, _) =>
              match o with
              | Some _ => lift (Err (Invalid "multiple TLV roots"))
              | None => lift (Ok n)
              end))
      end)).

Definition get (n : Node) (tag : Z) : option Node :=
  List.find (fun c => bool_decide (n_tag c = Context tag)) (children n).

Definition uint_field (n : Node) (tag : Z) : Result Z :=
  match n_value <$> get n tag with
  | Some (Uint v) => Ok v
  | _ => Err (Invalid "missing unsigned TLV field")
  end.

Definition bytes_field (n : Node) (tag : Z) : Result (list Z) :=
  match n_value <$> get n tag with
  | Some (Bytes b) => Ok b
  | _ => Err (Invalid "missing TLV bytes field")
  end.

(** [Node::take]: the field, and the node without it. *)
Fixpoint remove_first (p : Node -> bool) (l : list Node) : option (Node * list Node) :=
  match l with
  | [] => None
  | c :: l => if p c then Some (c, l) else '(x, l) ← remove_first p l; Some (x, c :: l)
  end.

Definition take_field (n : Node) (tag : Z) : option (Node * Node) :=
  '(c, rest) ← remove_first (fun c => bool_decide (n_tag c = Context tag)) (children n);
  Some (c, mk_node (element n) rest).

(** [Writer::node] *)
Fixpoint node (n : Node) (tag : Tag) (w : Writer) {struct n} : Result Writer :=
  match n with
  | mk_node (mk_element _ v) kids =>
      match v with
      | Int z => int tag z w
      | Uint z => uint tag z w
      | VBool b => boolean tag b w
      | Float b => float64 tag b w
      | VString s => string_ tag s w
      | Bytes b => bytes tag b w
      | VNull => null tag w
      | Structure | VArray | VList =>
          w ← start tag v w;
          w ← (fix go (l : list Node) (w : Writer) : Result Writer :=
                 match l with
                 | [] => Ok w
                 | c :: l => w ← node c (n_tag c) w; go l w
                 end) kids w;
          end_ w
      | End => Err (Invalid "cannot write standalone TLV end")
      end
  end.
