(* ===== verification/TlvOk.v ===== *)
(** * TlvOk: the writer and the reader of Matter agree

    The bytes of an element as a function, what each operation of the writer appends, and
    what the reader makes of it; then the same for trees. *)

From Stdlib Require Import ZArith Lia Ascii String.
From S2P Require Import Prelude Text Errors Tlv.
From S2P Require Value.

Local Open Scope Z_scope.

(** ** Little-endian numbers *)

Lemma take_le_bytes k n z : (k <= n)%nat -> take k (le_bytes n z) = le_bytes k z.
Proof.
  revert n z. induction k as [|k IH]; intros [|n] z H; [done|done|lia|]. cbn. rewrite IH by lia. done.
Qed.

Lemma le_val_mod k z : le_val (le_bytes k z) = z mod 256 ^ Z.of_nat k.
Proof.
  revert z. induction k as [|k IH]; intros z; [by rewrite Z.mod_1_r|].
  cbn [le_bytes le_val]. rewrite IH, Nat2Z.inj_succ, Z.pow_succ_r by lia.
  rewrite (Z.rem_mul_r z 256 (256 ^ Z.of_nat k)) by lia. done.
Qed.

(** ** The bytes of an element *)

Definition form (t : Tag) : Z :=
  match t with
  | Anonymous => 0
  | Context _ => 1
  | Common n => if 65535 <? n then 3 else 2
  | Implicit n => if 65535 <? n then 5 else 4
  | FullTag _ _ n => if 65535 <? n then 7 else 6
  end.

Definition number_bytes (n : Z) : list Z := le_bytes (if 65535 <? n then 4%nat else 2%nat) n.

Definition tag_bytes (t : Tag) : list Z :=
  match t with
  | Anonymous => []
  | Context n => [n]
  | Common n | Implicit n => number_bytes n
  | FullTag v p n => le_bytes 2 v ++ le_bytes 2 p ++ number_bytes n
  end.

Definition pow (k : Z) : nat := Z.to_nat (Z.shiftl 1 k).

Definition kind (v : Value) : Z :=
  match v with
  | Int n => int_width n
  | Uint n => 4 + width n
  | VBool b => if b then 9 else 8
  | Float _ => 11
  | VString s => 12 + width (Z.of_nat (length (as_bytes s)))
  | Bytes b => 16 + width (Z.of_nat (length b))
  | VNull => 20
  | Structure => 21
  | VArray => 22
  | VList => 23
  | End => 24
  end.

Definition data_bytes (b : list Z) : list Z :=
  le_bytes (pow (width (Z.of_nat (length b)))) (Z.of_nat (length b)) ++ b.

Definition body (v : Value) : list Z :=
  match v with
  | Int n => le_bytes (pow (int_width n)) n
  | Uint n => le_bytes (pow (width n)) n
  | Float b => le_bytes 8 b
  | VString s => data_bytes (as_bytes s)
  | Bytes b => data_bytes b
  | _ => []
  end.

Definition head (t : Tag) (k : Z) : list Z := Z.lor (32 * form t) k :: tag_bytes t.
Definition enc (t : Tag) (v : Value) : list Z := head t (kind v) ++ body v.

(** ** What the writer appends *)

Definition within (l : list Z) : Prop := Z.of_nat (length l) <= MAX.
Definition full {A} : Result A := Err (Invalid "Matter buffer exceeds 65535 bytes").

Lemma too_long {A} (a b : list Z) (x : Result A) :
  MAX < Z.of_nat (length a) -> (if Z.of_nat (length (a ++ b)) <=? MAX then x else full) = full.
Proof. intros H. destruct (Z.leb_spec (Z.of_nat (length (a ++ b))) MAX) as [Hb|Hb]; [|done]. rewrite length_app in Hb. lia. Qed.

(** [f] appends [e], or fails exactly when the buffer would become too long. *)
Definition emits (f : Writer -> Result Writer) (e : list Z) : Prop :=
  forall w, within (w_bytes w) ->
  f w = if Z.of_nat (length (w_bytes w ++ e)) <=? MAX then Ok (mk_writer (w_bytes w ++ e) (w_depth w)) else full.

Lemma emits_put e : emits (fun w => put w e) e.
Proof.
  intros w Hw. unfold put, append, saturating_sub, within in *. rewrite length_app.
  destruct (Z.leb_spec (Z.of_nat (length (w_bytes w) + length e)) MAX);
    destruct (Z.ltb_spec (Z.max 0 (MAX - Z.of_nat (length (w_bytes w)))) (Z.of_nat (length e))); try lia; done.
Qed.

Lemma emits_seq f g a b : emits f a -> emits g b -> emits (fun w => w ← f w; g w) (a ++ b).
Proof.
  intros Hf Hg w Hw. rewrite (Hf w Hw). rewrite app_assoc.
  destruct (Z.leb_spec (Z.of_nat (length (w_bytes w ++ a))) MAX) as [Ha|Ha]; cbn [mbind result_bind].
  - rewrite Hg by done. done.
  - by rewrite too_long.
Qed.

Lemma emits_ext f g e : (forall w, f w = g w) -> emits f e -> emits g e.
Proof. intros H Hf w Hw. rewrite <- H. by apply Hf. Qed.

Lemma emits_number n : emits (fun w => tag_number w n) (number_bytes n).
Proof.
  unfold tag_number, number_bytes. rewrite take_le_bytes by (destruct (65535 <? n); lia). apply emits_put.
Qed.

Lemma emits_control t k : emits (control t k) (head t k).
Proof.
  unfold head. destruct t as [|n|n|n|v p n]; cbn [control form tag_bytes].
  - apply (emits_put [k]).
  - apply emits_put.
  - apply (emits_seq (fun w => put w [_]) _ [_]); [|apply emits_number]. destruct (65535 <? n); apply emits_put.
  - apply (emits_seq (fun w => put w [_]) _ [_]); [|apply emits_number]. destruct (65535 <? n); apply emits_put.
  - apply (emits_seq (fun w => put w [_]) _ [_]); [destruct (65535 <? n); apply emits_put|].
    apply (emits_seq (fun w => put w _)); [apply emits_put|].
    apply (emits_seq (fun w => put w _)); [apply emits_put|apply emits_number].
Qed.

Lemma pow_width n : In (width n) [0; 1; 2; 3].
Proof. unfold width. destruct (n <=? 255), (n <=? 65535), (n <=? U32_MAX); cbn; auto. Qed.

Lemma pow_int_width n : In (int_width n) [0; 1; 2; 3].
Proof. unfold int_width. destruct (fits 8 n), (fits 16 n), (fits 32 n); cbn; auto. Qed.

Lemma pow_le k : In k [0; 1; 2; 3] -> (pow k <= 8)%nat.
Proof. intros [<-|[<-|[<-|[<-|[]]]]]; vm_compute; lia. Qed.

Lemma emits_data t k b :
  emits (data t k b) (head t (k + width (Z.of_nat (length b))) ++ data_bytes b).
Proof.
  unfold data, data_bytes. apply emits_seq; [apply emits_control|].
  apply (emits_seq (fun w => put w _)); [|apply emits_put].
  rewrite take_le_bytes by apply pow_le, pow_width. apply emits_put.
Qed.

Lemma emits_int t n : emits (int t n) (enc t (Int n)).
Proof.
  unfold int. apply emits_seq; [apply emits_control|].
  rewrite take_le_bytes by apply pow_le, pow_int_width. apply emits_put.
Qed.

Lemma width_fits n : is_u64 n -> n < 256 ^ Z.of_nat (pow (width n)).
Proof.
  unfold is_u64, width, U64_MAX, U32_MAX. intros H.
  repeat match goal with |- context [?a <=? ?b] => destruct (Z.leb_spec a b) end;
    (eapply Z.le_lt_trans; [eassumption|reflexivity]) || (eapply Z.le_lt_trans; [apply H|reflexivity]).
Qed.

Lemma emits_uint t n : is_u64 n -> emits (uint t n) (enc t (Uint n)).
Proof.
  intros Hn. unfold uint, uint_width, enc. pose proof (width_fits n Hn) as Hw. cbn [kind body].
  fold (pow (width n)).
  pose proof (pow_width n) as Hk. set (k := width n) in *.
  assert (exists j, match pow k with 1%nat => Ok 0 | 2%nat => Ok 1 | 4%nat => Ok 2 | 8%nat => Ok 3
                    | _ => Err (Invalid "invalid TLV integer width") end = Ok j /\ j = k
                    /\ (pow k <? 8)%nat && (Z.shiftl 1 (Z.of_nat (pow k) * 8) <=? n) = false) as (j & Ej & -> & Ef).
  { revert Hw. destruct Hk as [<-|[<-|[<-|[<-|[]]]]]; intros Hw; eexists; (split; [reflexivity|]); (split; [done|]);
    apply andb_false_iff; first [by left|right; apply Z.leb_gt; exact Hw]. }
  rewrite Ej. cbn [mbind result_bind]. rewrite Ef.
  eapply emits_ext; [intros w; reflexivity|]. apply emits_seq; [apply emits_control|].
  rewrite take_le_bytes by (apply pow_le; done). apply emits_put.
Qed.

(** ** What the reader sees *)

(** [l] is what is left to read. *)
Definition sees (r : Reader) (l : list Z) : Prop :=
  exists pre, r_data r = pre ++ l /\ r_at r = length pre /\ within (r_data r).

(** The reader [r'] after [k] bytes of [r], [l] left, at depth [d]. *)
Definition stands (r' : Reader) (l : list Z) (d : Z) : Prop := sees r' l /\ r_depth r' = d.

Lemma take_sees r b l :
  sees r (b ++ l) ->
  exists r', take_ (Z.of_nat (length b)) r = Ok (b, r') /\ stands r' l (r_depth r).
Proof.
  intros (pre & Hd & Ha & Hm). unfold take_, checked_add. unfold within, MAX in Hm.
  assert (Hl := Hm). rewrite Hd, !length_app in Hl.
  destruct (Z.leb_spec (Z.of_nat (r_at r) + Z.of_nat (length b)) U64_MAX); [|unfold U64_MAX in *; lia].
  cbn [ok_or mbind result_bind]. unfold slice. rewrite Ha, Hd, !length_app.
  replace (Z.to_nat (Z.of_nat (length pre) + Z.of_nat (length b))) with (length pre + length b)%nat by lia.
  destruct (Nat.leb_spec (length pre) (length pre + length b)); [|lia].
  destruct (Nat.leb_spec (length pre + length b) (length pre + (length b + length l))); [|lia].
  cbn [andb ok_or mbind result_bind]. rewrite drop_app_length.
  replace (length pre + length b - length pre)%nat with (length b) by lia. rewrite take_app_length.
  eexists. split; [done|]. split; [|done]. exists (pre ++ b). cbn [r_data r_at].
  rewrite length_app, <- app_assoc. rewrite <- Hd. done.
Qed.

Lemma le_sees k r n l :
  (k <= 8)%nat -> sees r (le_bytes k n ++ l) ->
  exists r', le (Z.of_nat k) r = Ok (n mod 256 ^ Z.of_nat k, r') /\ stands r' l (r_depth r).
Proof.
  intros Hk Hs. destruct (take_sees _ _ _ Hs) as (r' & Ht & Hr). exists r'. split; [|done].
  unfold le. destruct (Z.ltb_spec 8 (Z.of_nat k)); [lia|]. rewrite length_le_bytes in Ht. rewrite Ht.
  cbn [mbind result_bind]. by rewrite le_val_mod.
Qed.

(** Everything has the width of its field. *)
Definition is_u8 (n : Z) : Prop := 0 <= n < 256.
Definition is_u16 (n : Z) : Prop := 0 <= n <= 65535.
Definition is_i64 (n : Z) : Prop := - 2 ^ 63 <= n < 2 ^ 63.

Definition tag_ok (t : Tag) : Prop :=
  match t with
  | Anonymous => True
  | Context n => is_u8 n
  | Common n | Implicit n => is_u32 n
  | FullTag v p n => is_u16 v /\ is_u16 p /\ is_u32 n
  end.

Definition value_ok (v : Value) : Prop :=
  match v with
  | Int n => is_i64 n
  | Uint n | Float n => is_u64 n
  | VString s => valid_str s = true /\ len s <= MAX
  | Bytes b => Forall is_byte b /\ within b
  | _ => True
  end.

Lemma number_sees r n l :
  is_u32 n -> sees r (number_bytes n ++ l) ->
  exists r', le (if 65535 <? n then 4 else 2) r = Ok (n, r') /\ stands r' l (r_depth r).
Proof.
  unfold number_bytes, is_u32, U32_MAX. intros Hn Hs. destruct (Z.ltb_spec 65535 n).
  - destruct (le_sees 4 r n l ltac:(lia) Hs) as (r' & E & H'). exists r'. split; [|done].
    change (Z.of_nat 4) with 4 in E. rewrite E. rewrite Z.mod_small; [done|]. change (256 ^ 4) with 4294967296. lia.
  - destruct (le_sees 2 r n l ltac:(lia) Hs) as (r' & E & H'). exists r'. split; [|done].
    change (Z.of_nat 2) with 2 in E. rewrite E. rewrite Z.mod_small; [done|]. change (256 ^ 2) with 65536. lia.
Qed.

Lemma u16_sees r n l :
  is_u16 n -> sees r (le_bytes 2 n ++ l) -> exists r', le 2 r = Ok (n, r') /\ stands r' l (r_depth r).
Proof.
  intros Hn Hs. destruct (le_sees 2 r n l ltac:(lia) Hs) as (r' & E & H'). exists r'. split; [|done].
  change (Z.of_nat 2) with 2 in E. rewrite E. unfold is_u16 in Hn.
  rewrite Z.mod_small; [done|]. change (256 ^ 2) with 65536. lia.
Qed.

Lemma byte_sees r n l : is_u8 n -> sees r (n :: l) -> exists r', le 1 r = Ok (n, r') /\ stands r' l (r_depth r).
Proof.
  intros Hn Hs. unfold is_u8 in Hn. assert (le_bytes 1 n = [n]) as E by (cbn; rewrite Z.mod_small; [done|lia]).
  change (n :: l) with ([n] ++ l) in Hs. rewrite <- E in Hs.
  destruct (le_sees 1 r n l ltac:(lia) Hs) as (r' & E' & H'). exists r'. split; [|done].
  change (Z.of_nat 1) with 1 in E'. rewrite E'. rewrite Z.mod_small; [done|]. change (256 ^ 1) with 256. lia.
Qed.

Lemma tag_sees r t l :
  tag_ok t -> sees r (tag_bytes t ++ l) ->
  exists r', read_tag (form t) r = Ok (t, r') /\ stands r' l (r_depth r).
Proof.
  destruct t as [|n|n|n|v p n]; cbn [tag_ok tag_bytes form]; intros Hok Hs.
  - exists r. by repeat split.
  - destruct (byte_sees _ _ _ Hok Hs) as (r' & E & H'). exists r'. cbn [read_tag]. by rewrite E.
  - destruct (number_sees _ _ _ Hok Hs) as (r' & E & H'). exists r'. destruct (65535 <? n); cbn [read_tag]; by rewrite E.
  - destruct (number_sees _ _ _ Hok Hs) as (r' & E & H'). exists r'. destruct (65535 <? n); cbn [read_tag]; by rewrite E.
  - destruct Hok as (Hv & Hp & Hn). rewrite <- !app_assoc in Hs.
    destruct (u16_sees _ _ _ Hv Hs) as (r1 & E1 & Hs1 & D1).
    destruct (u16_sees _ _ _ Hp Hs1) as (r2 & E2 & Hs2 & D2).
    destruct (number_sees _ _ _ Hn Hs2) as (r3 & E3 & Hs3 & D3). exists r3.
    split; [|split; [done|congruence]].
    destruct (65535 <? n); cbn [read_tag]; rewrite E1; cbn [mbind result_bind]; rewrite E2;
      cbn [mbind result_bind]; by rewrite E3.
Qed.

(** The control byte holds the form of the tag and the kind of the value. *)
Lemma control_byte :
  forallb (fun k => forallb (fun f =>
    let c := Z.lor (32 * f) k in (Z.shiftr c 5 =? f) && (Z.land c 31 =? k) && (c <? 256) && (0 <=? c))
    (map Z.of_nat (seq 0 8))) (map Z.of_nat (seq 0 25)) = true.
Proof. vm_compute. reflexivity. Qed.

Lemma form_range t : 0 <= form t <= 7.
Proof. destruct t; cbn; repeat match goal with |- context [if ?b then _ else _] => destruct b end; lia. Qed.

Lemma width_range n : 0 <= width n <= 3.
Proof. destruct (pow_width n) as [<-|[<-|[<-|[<-|[]]]]]; lia. Qed.
Lemma int_width_range n : 0 <= int_width n <= 3.
Proof. destruct (pow_int_width n) as [<-|[<-|[<-|[<-|[]]]]]; lia. Qed.

Lemma kind_range v : 0 <= kind v <= 24.
Proof.
  destruct v; cbn; try lia; try (destruct b; lia).
  - pose proof (int_width_range n). lia.
  - pose proof (width_range n). lia.
  - pose proof (width_range (Z.of_nat (length (as_bytes s)))). lia.
  - pose proof (width_range (Z.of_nat (length b))). lia.
Qed.

Lemma control_splits t k :
  0 <= k <= 24 ->
  let c := Z.lor (32 * form t) k in
  Z.shiftr c 5 = form t /\ Z.land c 31 = k /\ is_u8 c.
Proof.
  intros Hk. pose proof control_byte as H. rewrite forallb_forall in H. pose proof (form_range t) as Hf.
  assert (forall n z, 0 <= z < Z.of_nat n -> In z (map Z.of_nat (seq 0 n))) as Hin.
  { intros n z Hz. rewrite <- (Z2Nat.id z) by lia. apply in_map, in_seq. lia. }
  specialize (H _ (Hin 25%nat k ltac:(lia))). rewrite forallb_forall in H.
  specialize (H _ (Hin 8%nat (form t) ltac:(lia))). cbv zeta in *. unfold is_u8.
  repeat rewrite andb_true_iff in H. lia.
Qed.

(** How an element changes the depth. *)
Definition delta (v : Value) : Z := if is_container v then 1 else if is_end v then -1 else 0.

Definition depth_ok (t : Tag) (v : Value) (d : Z) : Prop :=
  match v with
  | Structure | VArray | VList => d < MAX_DEPTH
  | End => d <> 0 /\ t = Anonymous
  | _ => True
  end.

Lemma int_width_fits n : is_i64 n -> fits (8 * Z.shiftl 1 (int_width n)) n = true.
Proof.
  unfold is_i64. intros H. unfold int_width. destruct (fits 8 n) eqn:E8; [exact E8|].
  destruct (fits 16 n) eqn:E16; [exact E16|]. destruct (fits 32 n) eqn:E32; [exact E32|].
  change (8 * Z.shiftl 1 3) with 64. unfold fits. change (64 - 1) with 63. lia.
Qed.

(** Two's complement comes back. *)
Lemma signed_mod bits n : 0 < bits -> fits bits n = true -> signed bits (n mod 2 ^ bits) = n.
Proof.
  unfold fits, signed. intros Hb H. apply andb_true_iff in H as [H1%Z.leb_le H2%Z.ltb_lt].
  assert (2 ^ bits = 2 * 2 ^ (bits - 1)) as E.
  { rewrite <- Z.pow_succ_r by lia. f_equal. lia. }
  destruct (Z.leb_spec 0 n).
  - rewrite Z.mod_small by lia. destruct (Z.ltb_spec n (2 ^ (bits - 1))); lia.
  - rewrite <- (Z.mod_unique n (2 ^ bits) (-1) (n + 2 ^ bits)) by lia.
    destruct (Z.ltb_spec (n + 2 ^ bits) (2 ^ (bits - 1))); lia.
Qed.

Lemma pow_of k : In k [0; 1; 2; 3] ->
  (pow k <= 8)%nat /\ Z.of_nat (pow k) = Z.shiftl 1 k /\ 256 ^ Z.of_nat (pow k) = 2 ^ (8 * Z.shiftl 1 k)
  /\ 0 < 8 * Z.shiftl 1 k.
Proof. intros [<-|[<-|[<-|[<-|[]]]]]; vm_compute; repeat split; lia. Qed.

(** Settles the comparisons of the goal that [lia] settles. *)
Ltac decide_tests :=
  repeat match goal with
  | |- context [?a <=? ?b] => first [replace (a <=? b) with true by lia | replace (a <=? b) with false by lia]
  | |- context [?a <? ?b] => first [replace (a <? b) with true by lia | replace (a <? b) with false by lia]
  | |- context [?a =? ?b] => first [replace (a =? b) with true by lia | replace (a =? b) with false by lia]
  end.

(** A length and the bytes it announces. *)
Lemma data_sees r b l :
  within b -> sees r (data_bytes b ++ l) ->
  exists n r1 r2, le (Z.shiftl 1 (width (Z.of_nat (length b)))) r = Ok (n, r1)
    /\ take_ n r1 = Ok (b, r2) /\ stands r2 l (r_depth r).
Proof.
  unfold data_bytes. intros Hb Hs. rewrite <- app_assoc in Hs.
  destruct (pow_of _ (pow_width (Z.of_nat (length b)))) as (H8 & Hz & H256 & _).
  destruct (le_sees _ _ _ _ H8 Hs) as (r1 & E1 & Hs1 & D1).
  assert (is_u64 (Z.of_nat (length b))) as Hu by (unfold is_u64, within, MAX, U64_MAX in *; lia).
  rewrite Z.mod_small in E1 by (split; [lia|by apply width_fits]). rewrite Hz in E1.
  destruct (take_sees _ _ _ Hs1) as (r2 & E2 & Hs2 & D2).
  exists (Z.of_nat (length b)), r1, r2. repeat split; [done..|congruence].
Qed.

Lemma land_width k n : (k = 12 \/ k = 16) -> Z.land (k + width n) 3 = width n.
Proof. intros [-> | ->]; destruct (pow_width n) as [<-|[<-|[<-|[<-|[]]]]]; reflexivity. Qed.

Lemma value_sees r t v l :
  value_ok v -> depth_ok t v (r_depth r) -> sees r (body v ++ l) ->
  exists r', read_value t (kind v) r = Ok (v, r') /\ stands r' l (r_depth r + delta v).
Proof.
  destruct v as [n|n|b|n|s|b| | | | |]; cbn [value_ok depth_ok kind body]; unfold read_value, delta; cbn [is_container is_end];
    rewrite ?Z.add_0_r; intros Hok Hd Hs.
  - destruct (pow_of _ (pow_int_width n)) as (H8 & Hz & H256 & Hp).
    destruct (le_sees _ _ _ _ H8 Hs) as (r' & E & Hr). exists r'. pose proof (int_width_range n).
    destruct (Z.leb_spec (int_width n) 3); [|lia]. rewrite Hz in E. rewrite E. cbn [mbind result_bind].
    rewrite <- Hz, H256, Hz. rewrite signed_mod by (done || by apply int_width_fits). done.
  - destruct (pow_of _ (pow_width n)) as (H8 & Hz & _ & _).
    destruct (le_sees _ _ _ _ H8 Hs) as (r' & E & Hr). exists r'. pose proof (width_range n).
    destruct (Z.leb_spec (4 + width n) 3); [lia|]. destruct (Z.leb_spec (4 + width n) 7); [|lia].
    replace (4 + width n - 4) with (width n) by lia. rewrite Hz in E. rewrite E. cbn [mbind result_bind].
    rewrite Z.mod_small; [done|]. split; [apply Hok|]. rewrite <- Hz. by apply width_fits.
  - exists r. by destruct b.
  - destruct (le_sees 8 _ _ _ ltac:(lia) Hs) as (r' & E & Hr). exists r'. cbn -[le]. change (Z.of_nat 8) with 8 in E.
    rewrite E. cbn [mbind result_bind]. rewrite Z.mod_small; [done|]. change (256 ^ 8) with 18446744073709551616.
    unfold is_u64, U64_MAX in Hok. lia.
  - destruct Hok as [Hv Hl]. unfold len in Hl. rewrite <- length_as_bytes in Hl.
    destruct (data_sees _ _ _ Hl Hs) as (n & r1 & r2 & E1 & E2 & Hr). exists r2.
    pose proof (width_range (Z.of_nat (length (as_bytes s)))) as Hw. set (k := 12 + width _) in *.
    rewrite <- (land_width 12 _ (or_introl eq_refl)) in E1. fold k in E1.
    assert (12 <= k <= 15) by lia. decide_tests.
    rewrite E1. cbn [mbind result_bind]. rewrite E2. cbn [mbind result_bind]. unfold valid_str in Hv.
    rewrite Hv, of_as_bytes. done.
  - destruct Hok as [_ Hl]. destruct (data_sees _ _ _ Hl Hs) as (n & r1 & r2 & E1 & E2 & Hr). exists r2.
    pose proof (width_range (Z.of_nat (length b))) as Hw. set (k := 16 + width _) in *.
    rewrite <- (land_width 16 _ (or_intror eq_refl)) in E1. fold k in E1.
    assert (16 <= k <= 19) by lia. decide_tests.
    rewrite E1. cbn [mbind result_bind]. rewrite E2. done.
  - by exists r.
  - exists (set_depth r (r_depth r + 1)). cbn -[Z.leb MAX_DEPTH]. destruct (Z.leb_spec MAX_DEPTH (r_depth r)); [lia|].
    done.
  - exists (set_depth r (r_depth r + 1)). cbn -[Z.leb MAX_DEPTH]. destruct (Z.leb_spec MAX_DEPTH (r_depth r)); [lia|].
    done.
  - exists (set_depth r (r_depth r + 1)). cbn -[Z.leb MAX_DEPTH]. destruct (Z.leb_spec MAX_DEPTH (r_depth r)); [lia|].
    done.
  - destruct Hd as [Hd ->]. exists (set_depth r (r_depth r - 1)). cbn. destruct (Z.eqb_spec (r_depth r) 0); [done|].
    done.
Qed.

(** The reader knows the tag and the kind of an element from its head. *)
Lemma head_sees r t k l :
  0 <= k <= 24 -> tag_ok t -> sees r (head t k ++ l) ->
  exists r', next r = ('(v, r) ← read_value t k r'; Ok (Some (mk_element t v), r)) /\ stands r' l (r_depth r).
Proof.
  intros Hk Ht Hs. unfold head in Hs. cbn [app] in Hs. destruct (control_splits t k Hk) as (Hf & Hc & H8). cbv zeta in *.
  unfold next. assert ((r_at r =? length (r_data r))%nat = false) as ->.
  { apply Nat.eqb_neq. destruct Hs as (pre & -> & -> & _). rewrite length_app. cbn. lia. }
  destruct (byte_sees _ _ _ H8 Hs) as (r1 & E1 & Hs1 & D1). rewrite E1. cbn [mbind result_bind].
  destruct (tag_sees _ _ _ Ht Hs1) as (r2 & E2 & Hs2 & D2). rewrite Hf, Hc, E2. cbn [mbind result_bind].
  exists r2. split; [done|split; [done|congruence]].
Qed.

(** The reader gives back the element whose bytes come next. *)
Lemma next_sees r t v l :
  tag_ok t -> value_ok v -> depth_ok t v (r_depth r) -> sees r (enc t v ++ l) ->
  exists r', next r = Ok (Some (mk_element t v), r') /\ stands r' l (r_depth r + delta v).
Proof.
  intros Ht Hv Hd Hs. unfold enc in Hs. rewrite <- app_assoc in Hs.
  destruct (head_sees _ _ _ _ (kind_range v) Ht Hs) as (r1 & E1 & Hs1 & D1). rewrite E1.
  rewrite <- D1 in Hd. destruct (value_sees _ t _ _ Hv Hd Hs1) as (r2 & E2 & Hr2). rewrite E2.
  cbn [mbind result_bind]. exists r2. by rewrite <- D1.
Qed.

(** A number in more bytes than it needs is the same number. *)
Lemma wide_sees r t n k l :
  tag_ok t -> In k [0; 1; 2; 3] -> 0 <= n < 256 ^ Z.of_nat (pow k) ->
  sees r ((head t (4 + k) ++ le_bytes (pow k) n) ++ l) ->
  exists r', next r = Ok (Some (mk_element t (Uint n)), r') /\ stands r' l (r_depth r).
Proof.
  intros Ht Hk Hn Hs. rewrite <- app_assoc in Hs.
  assert (0 <= k <= 3) as Hr by (destruct Hk as [<-|[<-|[<-|[<-|[]]]]]; lia).
  destruct (head_sees _ _ _ _ (ltac:(lia) : 0 <= 4 + k <= 24) Ht Hs) as (r1 & E1 & Hs1 & D1). rewrite E1.
  destruct (pow_of k Hk) as (H8 & Hz & _ & _). destruct (le_sees _ _ _ _ H8 Hs1) as (r2 & E2 & Hs2 & D2).
  unfold read_value. decide_tests. replace (4 + k - 4) with k by lia. rewrite Hz in E2. rewrite E2. cbn [mbind result_bind].
  rewrite Z.mod_small by (rewrite <- Hz; done). exists r2. split; [done|split; [done|congruence]].
Qed.

(** ** Trees *)

Lemma Node_ind' (P : Node -> Prop) :
  (forall e kids, Forall P kids -> P (mk_node e kids)) -> forall n, P n.
Proof.
  intros H. fix IH 1. intros [e kids]. apply H. induction kids as [|c kids IHk]; constructor; [apply IH|apply IHk].
Qed.

Fixpoint size (n : Node) : Z := match n with mk_node _ kids => 1 + foldr Z.add 0 (map size kids) end.
Fixpoint height (n : Node) : Z :=
  match n with mk_node e kids => if is_container (e_value e) then 1 + foldr Z.max 0 (map height kids) else 0 end.

Definition sizes (l : list Node) : Z := foldr Z.add 0 (map size l).
Definition heights (l : list Node) : Z := foldr Z.max 0 (map height l).

(** A tree of the wire: fields of their width, valid text, leaves without children, and a
    structure never has two fields with one tag. *)
Fixpoint tree_ok (n : Node) : Prop :=
  match n with
  | mk_node e kids =>
      tag_ok (e_tag e) /\ value_ok (e_value e) /\ is_end (e_value e) = false
      /\ (is_container (e_value e) = false -> kids = [])
      /\ (is_structure (e_value e) = true -> NoDup (map n_tag kids))
      /\ foldr and True (map tree_ok kids)
  end.

Lemma foldr_and {A} (P : A -> Prop) l : foldr and True (map P l) <-> Forall P l.
Proof.
  induction l as [|x l IH]; cbn; [split; [constructor|done]|]. rewrite IH. by rewrite Forall_cons.
Qed.

(** The bytes of a tree, with its root tagged [t]. *)
Fixpoint enc_node (n : Node) (t : Tag) : list Z :=
  match n with
  | mk_node e kids =>
      enc t (e_value e)
      ++ if is_container (e_value e) then concat (map (fun c => enc_node c (n_tag c)) kids) ++ [24] else []
  end.

Definition enc_children (l : list Node) : list Z := concat (map (fun c => enc_node c (n_tag c)) l).

Lemma size_pos n : 1 <= size n.
Proof.
  induction n as [e kids IH] using Node_ind'. cbn. enough (0 <= foldr Z.add 0 (map size kids)) by lia.
  induction IH; cbn; lia.
Qed.

Lemma sizes_nonneg l : 0 <= sizes l.
Proof. unfold sizes. induction l as [|c l IH]; cbn; [lia|]. pose proof (size_pos c). lia. Qed.

Lemma heights_nonneg l : 0 <= heights l.
Proof. unfold heights. induction l as [|c l IH]; cbn; lia. Qed.

Lemma height_nonneg n : 0 <= height n.
Proof. destruct n as [e kids]. cbn. fold (heights kids). pose proof (heights_nonneg kids). destruct (is_container _); lia. Qed.

Lemma enc_nonempty t v : (1 <= length (enc t v))%nat.
Proof. unfold enc, head. cbn. lia. Qed.

(** Every element takes at least a byte. *)
Lemma enc_node_size n : tree_ok n -> forall t, size n <= Z.of_nat (length (enc_node n t)).
Proof.
  induction n as [e kids IH] using Node_ind'. intros (_ & _ & _ & Hl & _ & Hk) t. cbn [size enc_node].
  rewrite length_app. pose proof (enc_nonempty t (e_value e)).
  destruct (is_container (e_value e)); [|rewrite Hl by done; cbn; lia].
  rewrite length_app. enough (foldr Z.add 0 (map size kids)
    <= Z.of_nat (length (concat (map (fun c => enc_node c (n_tag c)) kids)))) by lia.
  clear Hl. apply foldr_and in Hk. induction IH as [|c kids Hc _ IHk]; [cbn; lia|].
  apply Forall_cons in Hk as [Hok Hk]. cbn [map foldr concat]. rewrite length_app.
  specialize (IHk Hk). specialize (Hc Hok (n_tag c)). lia.
Qed.

(** *** Writing a tree *)

(** The loop of [Writer::node] over children. *)
Fixpoint nodes (l : list Node) (w : Writer) : Result Writer :=
  match l with
  | [] => Ok w
  | c :: l => w ← node c (n_tag c) w; nodes l w
  end.

Lemma node_container e kids t w :
  is_container (e_value e) = true ->
  node (mk_node e kids) t w = (w ← start t (e_value e) w; w ← nodes kids w; end_ w).
Proof.
  destruct e as [et v]. cbn [e_value]. intros Hc.
  assert (forall l w, (fix go (l : list Node) (w : Writer) : Result Writer :=
                 match l with [] => Ok w | c :: l => w ← node c (n_tag c) w; go l w end) l w = nodes l w) as Hgo.
  { induction l as [|c l IH]; intros w'; cbn [nodes]; [done|].
    destruct (node c (n_tag c) w') as [w''|]; cbn [mbind result_bind]; [apply IH|done]. }
  destruct v; try discriminate Hc; cbn [node];
    destruct (start t _ w) as [w1|]; cbn [mbind result_bind]; try done; rewrite Hgo; done.
Qed.

(** [f] appends [e] to a writer with room for [h] more levels. *)
Definition emits_at (h : Z) (f : Writer -> Result Writer) (e : list Z) : Prop :=
  forall w, within (w_bytes w) -> 0 <= w_depth w -> w_depth w + h <= MAX_DEPTH ->
  f w = if Z.of_nat (length (w_bytes w ++ e)) <=? MAX then Ok (mk_writer (w_bytes w ++ e) (w_depth w)) else full.

Lemma emits_at_of h f e : emits f e -> emits_at h f e.
Proof. intros H w Hw _ _. by apply H. Qed.

Lemma start_spec t v w :
  is_container v = true -> w_depth w < MAX_DEPTH ->
  start t v w = (w ← control t (kind v) w; Ok (mk_writer (w_bytes w) (w_depth w + 1))).
Proof.
  intros Hc Hd. unfold start. destruct v; try discriminate Hc; cbn [mbind result_bind kind];
    destruct (Z.leb_spec MAX_DEPTH (w_depth w)); (done || lia).
Qed.

Lemma emits_nodes l h :
  Forall (fun c => tree_ok c -> forall t, emits_at (height c) (node c t) (enc_node c t)) l ->
  Forall tree_ok l -> heights l <= h -> emits_at h (nodes l) (enc_children l).
Proof.
  induction 1 as [|c l Hc _ IH]; intros Hok Hh w Hw H0 Hd.
  - cbn. rewrite app_nil_r. unfold within in Hw. destruct (Z.leb_spec (Z.of_nat (length (w_bytes w))) MAX); [|lia].
    by destruct w.
  - apply Forall_cons in Hok as [Hc' Hl]. unfold heights in Hh. cbn in Hh. fold (heights l) in Hh.
    cbn [nodes]. rewrite (Hc Hc') by (done || lia). unfold enc_children. cbn [map concat]. fold (enc_children l).
    rewrite app_assoc.
    destruct (Z.leb_spec (Z.of_nat (length (w_bytes w ++ enc_node c (n_tag c)))) MAX) as [Ha|Ha]; cbn [mbind result_bind].
    + rewrite (IH Hl ltac:(lia)); cbn [w_bytes w_depth]; done.
    + by rewrite too_long.
Qed.

Lemma emits_leaf et v t :
  value_ok v -> is_container v = false -> is_end v = false -> emits (node (mk_node (mk_element et v) []) t) (enc t v).
Proof.
  destruct v; try discriminate; cbn [node value_ok]; intros Hv _ _.
  - apply emits_int.
  - by apply emits_uint.
  - unfold boolean, enc. cbn [body]. rewrite app_nil_r. destruct b; apply emits_control.
  - apply emits_seq; [apply emits_control|apply emits_put].
  - apply emits_data.
  - apply emits_data.
  - unfold null, enc. cbn [body]. rewrite app_nil_r. apply emits_control.
Qed.

(** [Writer::node] appends the bytes of the tree, or the buffer is full. *)
Lemma emits_node n : tree_ok n -> forall t, emits_at (height n) (node n t) (enc_node n t).
Proof.
  induction n as [e kids IH] using Node_ind'. intros (Ht & Hv & He & Hl & _ & Hk) t.
  apply foldr_and in Hk. destruct (is_container (e_value e)) eqn:Hc.
  - intros w Hw H0 Hd. cbn [height] in Hd. rewrite Hc in Hd. fold (heights kids) in Hd.
    pose proof (heights_nonneg kids). rewrite node_container, start_spec by (done || lia).
    cbn [enc_node]. rewrite Hc. unfold enc. fold (enc_children kids).
    replace (body (e_value e)) with (@nil Z) by (by destruct (e_value e)). rewrite app_nil_r, !app_assoc.
    rewrite emits_control by done. cbn [enc_node].
    destruct (Z.leb_spec (Z.of_nat (length (w_bytes w ++ head t (kind (e_value e))))) MAX) as [Ha|Ha]; cbn [mbind result_bind].
    2:{ rewrite too_long; [done|]. rewrite length_app. lia. }
    cbn [w_bytes w_depth]. rewrite (emits_nodes kids _ IH Hk (Z.le_refl _)) by (cbn [w_bytes w_depth]; (done || lia)).
    cbn [w_bytes w_depth].
    destruct (Z.leb_spec (Z.of_nat (length ((w_bytes w ++ head t (kind (e_value e))) ++ enc_children kids))) MAX)
      as [Hb|Hb]; cbn [mbind result_bind].
    2:{ by rewrite too_long. }
    unfold end_. cbn [w_depth]. destruct (Z.eqb_spec (w_depth w + 1) 0); [lia|].
    rewrite emits_put by done. cbn [w_bytes w_depth].
    match goal with |- context [?b <=? MAX] => destruct (Z.leb_spec b MAX) end; cbn [mbind result_bind]; [|done].
    cbn [w_bytes w_depth]. do 2 f_equal. lia.
  - rewrite (Hl eq_refl). cbn [enc_node]. rewrite Hc, app_nil_r. apply emits_at_of. destruct e as [et v]. by apply emits_leaf.
Qed.

(** *** Reading a tree *)

(** What follows the first element of a tree. *)
Definition tail (n : Node) : list Z :=
  if is_container (e_value (element n)) then enc_children (children n) ++ [24] else [].

Definition open_levels (n : Node) : Z := if is_container (e_value (element n)) then 1 else 0.

Lemma enc_node_split n t : enc_node n t = enc t (n_value n) ++ tail n.
Proof. by destruct n as [e kids]. Qed.

Lemma sees_end r l : 1 <= r_depth r -> sees r (24 :: l) ->
  exists r', next r = Ok (Some (mk_element Anonymous End), r') /\ stands r' l (r_depth r - 1).
Proof. intros Hd Hs. apply (next_sees r Anonymous End l I I); [split; [lia|done]|exact Hs]. Qed.

Lemma has_tag_false t l : t ∉ map n_tag l -> has_tag t l = false.
Proof.
  intros H. apply not_true_iff_false. unfold has_tag. rewrite existsb_exists. intros (c & Hc & Ht%bool_decide_eq_true).
  apply H. rewrite <- Ht. apply list_elem_of_In. by apply in_map.
Qed.

(** The reader of a tree is right about [n], whose bytes after the first element are [tl]. *)
Definition reads (n : Node) (tl : list Z) : Prop := forall fuel count r l,
  0 <= count -> 2 * size n <= Z.of_nat fuel -> count + size n <= 4096 -> open_levels n <= r_depth r ->
  r_depth r + height n <= MAX_DEPTH + open_levels n -> sees r (tl ++ l) ->
  exists r', read fuel (element n) count r = Some (Ok (n, count + size n, r'))
    /\ stands r' l (r_depth r - open_levels n).

(** The reader finds the element [e] in [hd]. *)
Definition announces (e : Element) (hd : list Z) : Prop := forall r l,
  depth_ok (e_tag e) (e_value e) (r_depth r) -> sees r (hd ++ l) ->
  exists r', next r = Ok (Some e, r') /\ stands r' l (r_depth r + delta (e_value e)).

(** The bytes [b] stand for the tree [n], in the form of the writer or another. *)
Record codes (n : Node) (b : list Z) : Prop := {
  cd_split : exists hd tl, b = hd ++ tl /\ announces (element n) hd /\ reads n tl;
  cd_end : is_end (e_value (element n)) = false;
  cd_size : size n <= Z.of_nat (length b)
}.

Lemma open_delta n : is_end (e_value (element n)) = false -> delta (e_value (element n)) = open_levels n.
Proof. unfold delta, open_levels. by intros ->. Qed.

Lemma open_range n : 0 <= open_levels n <= 1.
Proof. unfold open_levels. destruct (is_container _); lia. Qed.

(** A tree that fits below the depth of the reader may begin there. *)
Lemma depth_room e kids d :
  is_end (e_value e) = false -> 0 <= d -> d + height (mk_node e kids) <= MAX_DEPTH -> depth_ok (e_tag e) (e_value e) d.
Proof.
  cbn [height]. pose proof (heights_nonneg kids). unfold heights in *.
  destruct (e_value e); cbn [is_container depth_ok is_end]; (done || lia).
Qed.

Lemma reads_children e kids bs : Forall2 codes kids bs -> forall fuel before count r l,
  (is_structure (e_value e) = true -> NoDup (map n_tag (before ++ kids))) ->
  0 <= count -> Z.of_nat (length before) + sizes kids <= 4096 ->
  2 * sizes kids + 1 <= Z.of_nat fuel -> count + sizes kids <= 4096 -> 1 <= r_depth r ->
  r_depth r + heights kids <= MAX_DEPTH -> sees r (concat bs ++ 24 :: l) ->
  exists r', read_children fuel e before count r = Some (Ok (before ++ kids, count + sizes kids, r'))
    /\ stands r' l (r_depth r - 1).
Proof.
  induction 1 as [|c b kids bs [(hd & tl & -> & Hhd & Htl) He _] _ IH];
    intros fuel before count r l Hn H0 Hb Hf Hc H1 Hd Hs.
  - destruct fuel as [|fuel]; [cbn in *; lia|]. destruct (sees_end r l H1 Hs) as (r' & E & Hr). exists r'.
    cbn [read_children]. rewrite E. cbn. by rewrite app_nil_r, Z.add_0_r.
  - unfold sizes, heights in *. cbn [map foldr concat] in *. fold (sizes kids) in *.
    fold (heights kids) in *. pose proof (sizes_nonneg kids). pose proof (size_pos c). pose proof (height_nonneg c).
    pose proof (heights_nonneg kids).
    destruct fuel as [|fuel]; [lia|]. rewrite <- !app_assoc in Hs. destruct c as [ec kc]. cbn [element] in *.
    destruct (Hhd r _ (depth_room ec kc (r_depth r) He ltac:(lia) ltac:(lia)) Hs) as (r1 & E1 & Hs1 & D1).
    pose proof (open_delta (mk_node ec kc) He) as Ed. cbn [element] in Ed. rewrite Ed in D1. pose proof (open_range (mk_node ec kc)).
    cbn [read_children answer_bind lift]. rewrite E1. cbn [answer_bind lift]. rewrite He.
    replace (is_structure (e_value e) && has_tag (e_tag ec) before) with false.
    2:{ symmetry. destruct (is_structure (e_value e)); [|done]. apply has_tag_false. intros Hin.
        specialize (Hn eq_refl). rewrite map_app in Hn. apply NoDup_app in Hn as (_ & Hn & _).
        eapply (Hn (e_tag ec)); [done|]. cbn. by left. }
    destruct (Htl fuel count r1 (concat bs ++ 24 :: l)) as (r2 & E2 & Hs2 & D2); [lia..|done|].
    cbn [element] in E2. rewrite E2. cbn [answer_bind lift].
    unfold Value.push. destruct (Z.leb_spec 4096 (Z.of_nat (length before))); [lia|].
    cbn [from_core answer_bind lift].
    destruct (IH fuel (before ++ [mk_node ec kc]) (count + size (mk_node ec kc)) r2 l)
      as (r3 & E3 & Hr3); [|lia|rewrite length_app; cbn [length]; lia|lia..|done|].
    { intros Hst. rewrite <- app_assoc. by apply Hn. }
    exists r3. rewrite E3, <- app_assoc, Z.add_assoc. split; [done|]. replace (r_depth r - 1) with (r_depth r2 - 1) by lia. done.
Qed.

Lemma codes_size kids bs : Forall2 codes kids bs -> sizes kids <= Z.of_nat (length (concat bs)).
Proof.
  induction 1 as [|c b kids bs [_ _ Hc] _ IH]; cbn; [lia|]. fold (sizes kids). rewrite length_app. lia.
Qed.

(** An element that is not a container, however its number is written. *)
Lemma codes_alone e hd :
  announces e hd -> is_container (e_value e) = false -> is_end (e_value e) = false -> (1 <= length hd)%nat ->
  codes (mk_node e []) hd.
Proof.
  intros Hhd Hc He Hl. split; [exists hd, []; rewrite app_nil_r; split; [done|split; [done|]]|done|cbn; lia].
  intros fuel count r l H0 Hf Hz _ _ Hs. unfold open_levels. cbn [element size] in *. rewrite Hc.
  destruct fuel as [|fuel]; [cbn in *; lia|]. cbn [read]. cbn in Hz. destruct (Z.ltb_spec 4096 (count + 1)); [lia|]. rewrite Hc.
  exists r. split; [done|]. rewrite Z.sub_0_r. done.
Qed.

Lemma codes_leaf t v :
  tag_ok t -> value_ok v -> is_container v = false -> is_end v = false ->
  codes (mk_node (mk_element t v) []) (enc t v).
Proof.
  intros Ht Hv Hc He. apply codes_alone; [|done..|apply enc_nonempty].
  intros r l Hd Hs. by apply next_sees.
Qed.

Lemma codes_container e kids bs :
  Forall2 codes kids bs -> tag_ok (e_tag e) -> is_container (e_value e) = true ->
  (is_structure (e_value e) = true -> NoDup (map n_tag kids)) ->
  codes (mk_node e kids) (enc (e_tag e) (e_value e) ++ concat bs ++ [24]).
Proof.
  intros Hk Ht Hc Hn. split; [|cbn; by destruct (e_value e)|].
  - eexists _, _. split; [reflexivity|split].
    + intros r l Hd Hs. destruct e as [t v]. apply next_sees; try done. by destruct v.
    + unfold reads, open_levels. cbn [element size height]. rewrite Hc.
      intros fuel count r l H0 Hf Hz H1 Hd Hs. fold (sizes kids) in *. fold (heights kids) in *.
      pose proof (sizes_nonneg kids). destruct fuel as [|fuel]; [lia|]. cbn [read].
      destruct (Z.ltb_spec 4096 (count + 1)); [lia|]. rewrite Hc. rewrite <- app_assoc in Hs.
      destruct (reads_children e kids bs Hk fuel [] (count + 1) r l Hn) as (r' & E & Hr); try done; try lia.
      { cbn. lia. }
      rewrite E. exists r'. cbn [answer_bind lift app]. by rewrite Z.add_assoc.
  - cbn [size]. fold (sizes kids). pose proof (codes_size _ _ Hk). pose proof (enc_nonempty (e_tag e) (e_value e)).
    rewrite !length_app. cbn. lia.
Qed.

(** The bytes of the writer stand for the tree. *)
Lemma codes_ok n : tree_ok n -> codes n (enc_node n (n_tag n)).
Proof.
  induction n as [e kids IH] using Node_ind'. intros (Ht & Hv & He & Hl & Hn & Hk). apply foldr_and in Hk.
  cbn [enc_node]. destruct (is_container (e_value e)) eqn:Hc.
  - apply codes_container; try done. clear Hn. induction IH as [|c kids Hok _ IHk]; cbn; [constructor|].
    apply Forall_cons in Hk as [Hc' Hk]. constructor; [by apply Hok|apply IHk; done].
  - rewrite (Hl eq_refl), app_nil_r. destruct e as [t v]. by apply codes_leaf.
Qed.

Lemma codes_wide t n k :
  tag_ok t -> In k [0; 1; 2; 3] -> 0 <= n < 256 ^ Z.of_nat (pow k) ->
  codes (mk_node (mk_element t (Uint n)) []) (head t (4 + k) ++ le_bytes (pow k) n).
Proof.
  intros Ht Hk Hn. apply codes_alone; [|done..|unfold head; cbn; lia].
  intros r l _ Hs. cbn [e_value delta is_container is_end]. rewrite Z.add_0_r. by apply (wide_sees _ _ _ k).
Qed.

(** What stands for a tree is parsed as the tree. *)
Lemma codes_parse n b :
  codes n b -> height n <= MAX_DEPTH -> size n <= 4096 -> within b -> parse b = Some (Ok n).
Proof.
  intros [(hd & tl & -> & Hhd & Htl) He Hsz] Hh Hz Hm. unfold within in Hm.
  unfold parse, Reader_new. destruct (Z.ltb_spec MAX (Z.of_nat (length (hd ++ tl)))); [lia|].
  cbn [lift answer_bind]. set (bs := hd ++ tl) in *. set (r := mk_reader bs 0 0).
  assert (sees r (hd ++ tl)) as Hs by (exists []; done).
  destruct n as [e kids]. cbn [element] in *.
  destruct (Hhd r _ (depth_room e kids 0 He ltac:(lia) ltac:(lia)) Hs) as (r1 & E1 & Hs1 & D1).
  rewrite E1. cbn [answer_bind lift]. pose proof (open_delta (mk_node e kids) He) as Ed. cbn [element] in Ed. rewrite Ed in D1. cbn [r_depth r] in D1.
  pose proof (open_range (mk_node e kids)). rewrite <- (app_nil_r tl) in Hs1.
  destruct (Htl (read_fuel bs) 0 r1 []) as (r2 & E2 & (pre & Hd2 & Ha2 & _) & D2);
    [lia|unfold read_fuel; lia|lia|lia|lia|done|].
  cbn [element] in E2. rewrite E2. cbn [answer_bind lift]. unfold next.
  rewrite Ha2, Hd2, app_nil_r, Nat.eqb_refl. replace (r_depth r2) with 0 by lia. done.
Qed.

(** A tree of the wire, at most 32 levels deep and of at most 4096 elements, is written
    exactly when its bytes fit a message, and reading them gives back the tree. *)
Theorem written_tree_is_read_back n :
  tree_ok n -> height n <= MAX_DEPTH -> size n <= 4096 ->
  (w ← node n (n_tag n) Writer_default; finish w)
  = (if Z.of_nat (length (enc_node n (n_tag n))) <=? MAX then Ok (enc_node n (n_tag n)) else full)
  /\ (forall bytes, (w ← node n (n_tag n) Writer_default; finish w) = Ok bytes -> parse bytes = Some (Ok n)).
Proof.
  intros Hok Hh Hz.
  assert ((w ← node n (n_tag n) Writer_default; finish w)
    = (if Z.of_nat (length (enc_node n (n_tag n))) <=? MAX then Ok (enc_node n (n_tag n)) else full)) as E.
  { rewrite (emits_node n Hok (n_tag n) Writer_default); [|vm_compute; discriminate|cbn; lia|cbn in *; lia].
    cbn [w_bytes w_depth Writer_default app]. destruct (_ <=? MAX); done. }
  split; [exact E|]. intros bytes. rewrite E. clear E.
  destruct (Z.leb_spec (Z.of_nat (length (enc_node n (n_tag n)))) MAX) as [Hm|]; [|done]. intros [= <-].
  apply codes_parse; try done. by apply codes_ok.
Qed.

(** ** Whatever the reader accepts is a tree of the wire *)

Record reader_ok (r : Reader) : Prop := {
  ro_within : within (r_data r);
  ro_bytes : Forall is_byte (r_data r);
  ro_at : (r_at r <= length (r_data r))%nat;
  ro_depth : 0 <= r_depth r <= MAX_DEPTH
}.

(** [r'] comes after [r] in the same data. *)
Record after (r r' : Reader) : Prop := {
  af_ok : reader_ok r';
  af_data : r_data r' = r_data r;
  af_at : (r_at r <= r_at r')%nat
}.

Lemma after_refl r : reader_ok r -> after r r.
Proof. by split. Qed.

Lemma after_trans r r1 r2 : after r r1 -> after r1 r2 -> after r r2.
Proof. intros [_ E1 H1] [Hok E2 H2]. split; [done|congruence|lia]. Qed.

Lemma take_yields n r b r' :
  reader_ok r -> 0 <= n -> take_ n r = Ok (b, r') ->
  after r r' /\ r_depth r' = r_depth r /\ r_at r' = (r_at r + Z.to_nat n)%nat
  /\ Forall is_byte b /\ length b = Z.to_nat n /\ within b.
Proof.
  intros [Hw Hb Ha Hd] Hn. unfold take_. destruct (checked_add _ _) as [e|] eqn:Ec; [|done].
  apply checked_add_Some in Ec as [-> _]. cbn [ok_or mbind result_bind].
  destruct (slice _ _ _) as [s|] eqn:Es; [|done]. cbn [ok_or mbind result_bind]. intros [= -> <-].
  cbn [r_data r_at r_depth]. revert Es. unfold slice.
  replace (Z.to_nat (Z.of_nat (r_at r) + n)) with (r_at r + Z.to_nat n)%nat by lia.
  destruct (Nat.leb_spec (r_at r) (r_at r + Z.to_nat n)); [|done].
  destruct (Nat.leb_spec (r_at r + Z.to_nat n) (length (r_data r))) as [Hle|]; [|done].
  cbn [andb]. intros [= <-]. split_and!; try done.
  - by apply Forall_take, Forall_drop.
  - rewrite length_take, length_drop. lia.
  - unfold within in *. rewrite length_take, length_drop. lia.
Qed.

Lemma le_yields k r v r' :
  reader_ok r -> 0 <= k -> le k r = Ok (v, r') ->
  after r r' /\ r_depth r' = r_depth r /\ r_at r' = (r_at r + Z.to_nat k)%nat /\ 0 <= v < 256 ^ k.
Proof.
  intros Hr Hk. unfold le. destruct (8 <? k); [done|].
  destruct (take_ k r) as [[b r1]|] eqn:E; cbn [mbind result_bind]; [|done]. intros [= <- <-].
  destruct (take_yields _ _ _ _ Hr Hk E) as (Ha & Hd & Hat & Hb & Hl & _). split_and!; try done;
    pose proof (le_val_bound b Hb) as Hv; rewrite Hl, Z2Nat.id in Hv by lia; lia.
Qed.

Ltac read_next H :=
  match type of H with
  | context [le ?k ?r] =>
      let v := fresh "v" in let r' := fresh "r" in let E := fresh "E" in let Ha := fresh "Ha" in
      let Hd := fresh "Hd" in let Hv := fresh "Hv" in
      destruct (le k r) as [[v r']|] eqn:E; cbn [mbind result_bind] in H; [|done];
      apply le_yields in E as (Ha & Hd & _ & Hv); [|done || (eapply af_ok; eassumption)|done || lia]
  end.

Lemma tag_yields f r t r' :
  reader_ok r -> read_tag f r = Ok (t, r') -> after r r' /\ r_depth r' = r_depth r /\ tag_ok t.
Proof.
  intros Hr H. unfold read_tag in H.
  do 4 try (match type of H with context [match ?z with _ => _ end] => is_var z; destruct z end);
  repeat read_next H; injection H as <- <-; cbn [tag_ok]; unfold is_u8, is_u16, is_u32, U32_MAX;
    change (256 ^ 1) with 256 in *; change (256 ^ 2) with 65536 in *; change (256 ^ 4) with 4294967296 in *;
    (split; [eauto using after_refl, after_trans|split; [congruence|lia]]).
Qed.

Lemma widen_u64 b : 0 <= b < 2 ^ 32 -> is_u64 (widen b).
Proof.
  intros Hb. unfold widen, is_u64, U64_MAX. cbv zeta. rewrite !Z.shiftr_div_pow2, !(Z.shiftl_mul_pow2 _ 63), !(Z.shiftl_mul_pow2 _ 52), !(Z.shiftl_mul_pow2 _ 51),
    !(Z.shiftl_mul_pow2 _ 29) by lia.
  change 255 with (Z.ones 8). change 8388607 with (Z.ones 23). rewrite !Z.land_ones by lia.
  change (2 ^ 23) with 8388608. change (2 ^ 31) with 2147483648. change (2 ^ 8) with 256.
  change (2 ^ 32) with 4294967296 in Hb.
  assert (0 <= b / 2147483648 <= 1) as Hs by (split; [apply Z.div_pos; lia|enough (b / 2147483648 < 2) by lia; apply Z.div_lt_upper_bound; lia]).
  pose proof (Z.mod_pos_bound (b / 8388608) 256 ltac:(lia)) as He.
  pose proof (Z.mod_pos_bound b 8388608 ltac:(lia)) as Hm.
  set (s := b / 2147483648) in *. set (e := (b / 8388608) mod 256) in *. set (m := b mod 8388608) in *.
  change (2 ^ 63) with 9223372036854775808. change (2 ^ 52) with 4503599627370496. change (2 ^ 29) with 536870912.
  change (Z.ones 8) with 255.
  destruct (Z.eqb_spec e 255) as [_|].
  - destruct (m =? 0); [lia|]. change (1 * 2 ^ 51) with 2251799813685248.
    pose proof (lor_bound 52 2251799813685248 (m * 536870912)) as Hl. change (2 ^ 52) with 4503599627370496 in Hl.
    destruct Hl; lia.
  - destruct (Z.eqb_spec e 0) as [_|]; [|lia]. destruct (Z.eqb_spec m 0) as [_|]; [lia|].
    pose proof (Z.log2_spec m ltac:(lia)) as [Hk1 Hk2].
    assert (Z.log2 m < 23) as Hk by (apply Z.log2_lt_pow2; [lia|]; change (2 ^ 23) with 8388608; lia).
    pose proof (Z.log2_nonneg m). rewrite Z.shiftl_mul_pow2 by lia.
    assert (0 <= (m - 2 ^ Z.log2 m) * 2 ^ (52 - Z.log2 m) < 4503599627370496) as Hx; [|lia].
    rewrite Z.pow_succ_r in Hk2 by lia.
    assert (4503599627370496 = 2 ^ Z.log2 m * 2 ^ (52 - Z.log2 m)) as E.
    { rewrite <- Z.pow_add_r by lia. replace (Z.log2 m + (52 - Z.log2 m)) with 52 by lia. reflexivity. }
    rewrite E. assert (0 < 2 ^ (52 - Z.log2 m)) by (apply Z.pow_pos_nonneg; lia). nia.
Qed.

Lemma signed_i64 k v : In k [0; 1; 2; 3] -> 0 <= v < 256 ^ Z.shiftl 1 k -> is_i64 (signed (8 * Z.shiftl 1 k) v).
Proof.
  intros Hk Hv. unfold is_i64, signed. destruct Hk as [<-|[<-|[<-|[<-|[]]]]];
    match goal with |- context [v <? ?x] => let y := eval vm_compute in x in change x with y end;
    match goal with |- context [v - ?x] => let y := eval vm_compute in x in change x with y end;
    match type of Hv with _ < ?x => let y := eval vm_compute in x in change x with y in Hv
      | _ <= _ < ?x => let y := eval vm_compute in x in change x with y in Hv end;
    change (2 ^ 63) with 9223372036854775808; destruct (_ <? _) eqn:E; lia.
Qed.

Lemma shiftl_pos k : 0 <= Z.shiftl 1 k.
Proof. apply Z.shiftl_nonneg. lia. Qed.

Lemma small_kind k : 0 <= k <= 3 -> In k [0; 1; 2; 3].
Proof. intros H. cbn. lia. Qed.

Lemma uint_u64 k v : In k [0; 1; 2; 3] -> 0 <= v < 256 ^ Z.shiftl 1 k -> is_u64 v.
Proof.
  intros Hk Hv. unfold is_u64, U64_MAX. destruct Hk as [<-|[<-|[<-|[<-|[]]]]];
    match type of Hv with _ <= _ < ?x => let y := eval vm_compute in x in change x with y in Hv end; lia.
Qed.

(** The depth of the reader before and after a value. *)
Definition value_step (t : Tag) (v : Value) (r r' : Reader) : Prop :=
  after r r' /\ value_ok v /\ r_depth r' = r_depth r + delta v
  /\ (is_container v = true -> r_depth r < MAX_DEPTH) /\ (is_end v = true -> t = Anonymous /\ 1 <= r_depth r).

Lemma flat_step t v r r' :
  after r r' -> r_depth r' = r_depth r -> value_ok v -> is_container v = false -> is_end v = false ->
  value_step t v r r'.
Proof.
  intros Ha Hd Hv Hc He. unfold value_step, delta. rewrite Hc, He.
  split; [done|]. split; [done|]. split; [lia|]. done.
Qed.

Lemma deeper_ok r d : reader_ok r -> 0 <= d <= MAX_DEPTH -> after r (set_depth r d).
Proof. intros [Hw Hb Ha Hd] H. split; [by split|done|done]. Qed.

Lemma tlv_value_yields t kind r v r' :
  0 <= kind < 32 -> reader_ok r -> read_value t kind r = Ok (v, r') -> value_step t v r r'.
Proof.
  intros Hk Hr H. unfold read_value in H.
  destruct (Z.leb_spec kind 3).
  { pose proof (shiftl_pos kind). read_next H. injection H as <- <-. apply flat_step; try done.
    apply signed_i64; [apply small_kind; lia|done]. }
  destruct (Z.leb_spec kind 7).
  { pose proof (shiftl_pos (kind - 4)). read_next H. injection H as <- <-. apply flat_step; try done.
    apply (uint_u64 (kind - 4)); [apply small_kind; lia|done]. }
  destruct (kind =? 8); [injection H as <- <-; apply flat_step; auto using after_refl; done|].
  destruct (kind =? 9); [injection H as <- <-; apply flat_step; auto using after_refl; done|].
  destruct (kind =? 10).
  { read_next H. injection H as <- <-. apply flat_step; try done. apply widen_u64. done. }
  destruct (kind =? 11).
  { read_next H. injection H as <- <-. apply flat_step; try done. apply (uint_u64 3); [cbn; auto|done]. }
  destruct (Z.leb_spec kind 19).
  { pose proof (shiftl_pos (Z.land kind 3)). read_next H.
    destruct (take_ _ _) as [[b r2]|] eqn:E; cbn [mbind result_bind] in H; [|done].
    apply take_yields in E as (Ha2 & Hd2 & _ & Hb & _ & Hw); [|by eapply af_ok|lia].
    pose proof (after_trans _ _ _ Ha Ha2) as Ha3. assert (r_depth r2 = r_depth r) as Hd3 by congruence.
    destruct (kind <? 16).
    - destruct (is_ok (from_utf8 b)) eqn:Eu; [|done]. injection H as <- <-. apply flat_step; try done.
      cbn [value_ok]. unfold valid_str, len. rewrite <- length_as_bytes, as_of_bytes by done. done.
    - injection H as <- <-. by apply flat_step. }
  destruct (kind =? 20); [injection H as <- <-; apply flat_step; auto using after_refl; done|].
  destruct (Z.leb_spec kind 23).
  { destruct (Z.leb_spec MAX_DEPTH (r_depth r)); [done|]. injection H as <- <-.
    pose proof (ro_depth _ Hr). unfold value_step.
    split; [apply deeper_ok; [done|lia]|]. destruct (kind =? 21), (kind =? 22); cbn; auto with lia. }
  destruct (kind =? 24); [|done]. destruct (Z.eqb_spec (r_depth r) 0); [done|].
  destruct (bool_decide (t = Anonymous)) eqn:Et; [|done]. injection H as <- <-.
  apply bool_decide_eq_true in Et. pose proof (ro_depth _ Hr). unfold value_step.
  split; [apply deeper_ok; [done|lia]|]. cbn. auto with lia.
Qed.

(** A step of the reader: at least one byte, a well-formed element, the depth kept. *)
Lemma next_yields r o r' :
  reader_ok r -> next r = Ok (o, r') ->
  after r r' /\ match o with
                | Some e => (r_at r < r_at r')%nat /\ tag_ok (e_tag e) /\ value_step (e_tag e) (e_value e) (set_depth r' (r_depth r)) r'
                | None => r' = r /\ r_depth r = 0
                end.
Proof.
  intros Hr. unfold next. destruct (Nat.eqb_spec (r_at r) (length (r_data r))).
  { destruct (Z.eqb_spec (r_depth r) 0); [|done]. intros [= <- <-]. split; [by apply after_refl|done]. }
  intros H. destruct (le 1 r) as [[c r1]|] eqn:E1; cbn [mbind result_bind] in H; [|done].
  apply le_yields in E1 as (Ha1 & Hd1 & Hat & Hc); [|done|lia]. change (256 ^ 1) with 256 in Hc.
  destruct (read_tag _ r1) as [[t r2]|] eqn:E2; cbn [mbind result_bind] in H; [|done].
  apply tag_yields in E2 as (Ha2 & Hd2 & Ht); [|by eapply af_ok].
  destruct (read_value t _ r2) as [[v r3]|] eqn:E3; cbn [mbind result_bind] in H; [|done].
  injection H as <- <-.
  assert (0 <= Z.land c 31 < 32) as Hk.
  { change 31 with (Z.ones 5). rewrite Z.land_ones by lia. apply Z.mod_pos_bound. lia. }
  apply tlv_value_yields in E3 as (Ha3 & Hv & Hd3 & Hco & He); [|done|by eapply af_ok].
  assert (after r r3) as Ha by eauto using after_trans. split; [done|]. cbn [e_tag e_value].
  split; [|split; [done|]].
  - pose proof (af_at _ _ Ha2). pose proof (af_at _ _ Ha3). lia.
  - unfold value_step. cbn [set_depth r_depth]. rewrite <- Hd1, <- Hd2. split; [|done].
    destruct Ha as [[] ? ?]. split; [by split|done|cbn; lia].
Qed.

(** The bytes left to read. *)
Definition left_ (r : Reader) : nat := length (r_data r) - r_at r.

Definition read_result (e : Element) (count : Z) (r : Reader) (a : Result (Node * Z * Reader)) : Prop :=
  match a with
  | Err _ => True
  | Ok (n, count', r') =>
      element n = e /\ tree_ok n /\ count' = count + size n /\ count' <= 4096 /\ after r r'
      /\ r_depth r' = r_depth r - open_levels n /\ r_depth r + height n <= MAX_DEPTH + open_levels n
  end.

Definition children_result (e : Element) (before : list Node) (count : Z) (r : Reader)
    (a : Result (list Node * Z * Reader)) : Prop :=
  match a with
  | Err _ => True
  | Ok (kids, count', r') =>
      exists l, kids = before ++ l /\ Forall tree_ok l /\ count' = count + sizes l /\ count' <= 4096 /\ after r r'
      /\ r_depth r' = r_depth r - 1 /\ r_depth r + heights l <= MAX_DEPTH
      /\ (is_structure (e_value e) = true -> NoDup (map n_tag kids))
  end.

Lemma has_tag_true t l : has_tag t l = false -> t ∉ map n_tag l.
Proof.
  intros H Hin. apply not_true_iff_false in H. apply H. unfold has_tag. rewrite existsb_exists.
  apply list_elem_of_In, in_map_iff in Hin as (c & Hc & Hin). exists c. split; [done|].
  by apply bool_decide_eq_true.
Qed.

Lemma NoDup_snoc_tag l c :
  NoDup (map n_tag l) -> has_tag (n_tag c) l = false -> NoDup (map n_tag (l ++ [c])).
Proof.
  intros Hn Ht%has_tag_true. rewrite map_app. apply NoDup_app. split; [done|]. split; [|apply NoDup_singleton].
  intros x Hx ->%list_elem_of_singleton. done.
Qed.

Ltac conjs := repeat match goal with |- _ /\ _ => split end.

(** Reading always answers, and what it answers is well formed. *)
Lemma reading fuel :
  (forall e count r, reader_ok r -> tag_ok (e_tag e) -> value_ok (e_value e) -> is_end (e_value e) = false ->
     0 <= count <= 4096 -> (is_container (e_value e) = true -> 1 <= r_depth r) -> (2 * left_ r + 2 <= fuel)%nat ->
     exists a, read fuel e count r = Some a /\ read_result e count r a)
  /\ (forall e before count r, reader_ok r -> 0 <= count <= 4096 -> 1 <= r_depth r ->
     (is_structure (e_value e) = true -> NoDup (map n_tag before)) -> (2 * left_ r + 1 <= fuel)%nat ->
     exists a, read_children fuel e before count r = Some a /\ children_result e before count r a).
Proof.
  induction fuel as [|fuel [IHr IHc]]; [split; intros; lia|]. split.
  - intros e count r Hr Ht Hv He Hc Hd Hf. cbn [read].
    destruct (Z.ltb_spec 4096 (count + 1)); [by eexists|].
    destruct (is_container (e_value e)) eqn:Ec.
    + destruct (IHc e [] (count + 1) r Hr ltac:(lia) (Hd eq_refl) ltac:(by intros; constructor) ltac:(lia)) as (a & -> & Ha).
      destruct a as [[[kids count'] r']|err]; [|by eexists]. cbn [answer_bind lift].
      destruct Ha as (l & -> & Hl & Hcnt & Hmx & Haf & Hd' & Hh & Hn). eexists. split; [done|].
      cbn [app] in *. cbn [read_result tree_ok size height]. unfold open_levels. cbn [element]. rewrite Ec.
      fold (sizes l). fold (heights l). apply foldr_and in Hl. conjs; (done || lia).
    + eexists. split; [done|]. cbn [read_result tree_ok size height map foldr]. unfold open_levels.
      cbn [element]. rewrite Ec. pose proof (ro_depth _ Hr). pose proof (after_refl _ Hr).
      conjs; first [done|lia|by intros; constructor].
  - intros e before count r Hr Hc H1 Hn Hf. cbn [read_children answer_bind lift].
    destruct (next r) as [[o r1]|err] eqn:En; cbn [answer_bind lift]; [|by eexists].
    apply next_yields in En as [Ha1 Ho]; [|done]. destruct o as [c|]; [|by eexists].
    destruct Ho as (Hlt & Ht & _ & Hv & Hd1 & Hco & He). cbn [set_depth r_depth] in *.
    destruct (is_end (e_value c)) eqn:Ee.
    { eexists. split; [done|]. exists []. rewrite app_nil_r. unfold delta in Hd1. rewrite Ee in Hd1.
      pose proof (ro_depth _ Hr). destruct (e_value c); try discriminate Ee. cbn [is_container] in Hd1. cbn.
      conjs; first [done|lia|constructor]. }
    destruct (is_structure (e_value e) && has_tag (e_tag c) before) eqn:Edup; [by eexists|].
    assert (left_ r1 < left_ r)%nat as Hlf.
    { pose proof (ro_at _ (af_ok _ _ Ha1)). unfold left_. rewrite (af_data _ _ Ha1) in *. lia. }
    pose proof (ro_depth _ Hr) as Hrd. pose proof (af_ok _ _ Ha1) as Hr1.
    assert (is_container (e_value c) = true -> 1 <= r_depth r1) as Hcd.
    { intros Hcc. rewrite Hd1. unfold delta. rewrite Hcc. lia. }
    destruct (IHr c count r1 Hr1 Ht Hv Ee Hc Hcd ltac:(lia)) as (a & -> & Hres).
    destruct a as [[[child count1] r2]|err]; [|by eexists]. cbn [answer_bind lift].
    destruct Hres as (Hel & Hok & Hcnt & Hmx & Ha2 & Hd2 & Hh). cbn [answer_bind lift].
    unfold Value.push. destruct (4096 <=? Z.of_nat (length before)); cbn [from_core answer_bind lift]; [by eexists|].
    pose proof (size_pos child). pose proof (af_ok _ _ Ha2) as Hr2.
    assert (open_levels child = delta (e_value c)) as Eop.
    { unfold open_levels, delta. rewrite Hel. by rewrite Ee. }
    assert (left_ r2 <= left_ r1)%nat as Hl2.
    { pose proof (af_at _ _ Ha2). unfold left_. rewrite (af_data _ _ Ha2). lia. }
    assert (is_structure (e_value e) = true -> NoDup (map n_tag (before ++ [child]))) as Hn2.
    { intros Hst. apply NoDup_snoc_tag; [by apply Hn|]. unfold n_tag. rewrite Hel.
      rewrite Hst in Edup. exact Edup. }
    destruct (IHc e (before ++ [child]) count1 r2 Hr2 ltac:(lia) ltac:(lia) Hn2 ltac:(lia)) as (a & -> & Hres).
    eexists. split; [done|]. destruct a as [[[kids count2] r3]|err]; [|done].
    destruct Hres as (l & -> & Hl & Hc2 & Hm2 & Ha3 & Hd3 & Hh3 & Hn3). exists (child :: l).
    rewrite <- app_assoc in *. unfold sizes, heights in *. cbn [map foldr] in *.
    conjs; first [done|lia|by constructor|eauto using after_trans].
Qed.

(** Reading a tree always ends with an answer; what it accepts is a tree of the wire, at
    most 32 levels deep, of at most 4096 elements and without a doubled field. *)
Theorem accepted_tree_is_well_formed data :
  Forall is_byte data ->
  exists a, parse data = Some a /\
    forall n, a = Ok n -> tree_ok n /\ height n <= MAX_DEPTH /\ size n <= 4096 /\ within data.
Proof.
  intros Hb. unfold parse, Reader_new. destruct (Z.ltb_spec MAX (Z.of_nat (length data))) as [|Hw]; [by eexists|].
  cbn [answer_bind lift].
  assert (reader_ok (mk_reader data 0 0)) as Hr by (split; cbn; (done || lia)).
  destruct (next _) as [[o r]|err] eqn:En; cbn [answer_bind lift]; [|by eexists].
  apply next_yields in En as [Ha Ho]; [|done]. destruct o as [e|]; [|by eexists].
  destruct Ho as (Hlt & Ht & _ & Hv & Hd & Hco & He). cbn [set_depth r_depth r_at] in *.
  assert (is_end (e_value e) = false) as Ee.
  { destruct (is_end (e_value e)); [|done]. destruct (He eq_refl). lia. }
  assert (r_data r = data) as Edt by apply (af_data _ _ Ha).
  destruct (reading (read_fuel data)) as [IH _].
  destruct (IH e 0 r (af_ok _ _ Ha) Ht Hv Ee ltac:(lia)) as (a & -> & Hres).
  { intros Hc. rewrite Hd. unfold delta. rewrite Hc. lia. }
  { unfold left_, read_fuel. rewrite Edt. lia. }
  destruct a as [[[n count] r2]|err]; [|by eexists]. cbn [answer_bind lift].
  destruct Hres as (Hel & Hok & Hc & Hm & Ha2 & Hd2 & Hh).
  destruct (next r2) as [[[e2|] r3]|err]; cbn [answer_bind lift]; try by eexists.
  eexists. split; [done|]. intros n' [= <-].
  assert (open_levels n = delta (e_value e)) as Eop by (unfold open_levels, delta; rewrite Hel; by rewrite Ee).
  split; [done|]. unfold within. split; [lia|]. split; [lia|done].
Qed.

(** ** Witnesses: a structure with a number, a text and a list *)

Definition sample_tree : Node :=
  mk_node (mk_element Anonymous Structure)
    [mk_node (mk_element (Context 0) (Int (-300))) [];
     mk_node (mk_element (Context 1) (VString "serial")) [];
     mk_node (mk_element (Common 65536) VList) [mk_node (mk_element (FullTag 1 2 3) (Uint 70000)) []]].

Lemma written_tree_is_read_back_witness :
  exists bytes, (w ← node sample_tree (n_tag sample_tree) Writer_default; finish w) = Ok bytes
    /\ parse bytes = Some (Ok sample_tree).
Proof.
  assert (tree_ok sample_tree) as Hok.
  { cbn. unfold is_i64, is_u8, is_u16, is_u32, is_u64, U32_MAX, U64_MAX, len.
    change (2 ^ 63) with 9223372036854775808. cbn.
    conjs; intros; first [done|lia|apply (bool_decide_eq_true_1 _); vm_compute; reflexivity|constructor]. }
  destruct (written_tree_is_read_back sample_tree Hok ltac:(vm_compute; discriminate) ltac:(vm_compute; discriminate))
    as [E H].
  eexists. split; [|apply H]; rewrite E; vm_compute; reflexivity.
Defined.

(** A doubled field in a structure is refused. *)
Lemma accepted_tree_is_well_formed_witness :
  parse [21; 36; 1; 1; 36; 1; 2; 24] = Some (Err (Invalid "duplicate TLV structure tag"))
  /\ exists n, parse [21; 36; 1; 1; 36; 2; 2; 24] = Some (Ok n) /\ tree_ok n /\ size n = 3.
Proof.
  split; [vm_compute; reflexivity|].
  destruct (accepted_tree_is_well_formed [21; 36; 1; 1; 36; 2; 2; 24]) as (a & Ha & Hn).
  - repeat constructor; unfold is_byte; lia.
  - vm_compute in Ha. injection Ha as <-. eexists. split; [vm_compute; reflexivity|].
    split; [apply (Hn _ eq_refl)|reflexivity].
Defined.
