(* ===== verification/Onboarding.v ===== *)
(** * Onboarding: the codes that pair a Matter device

    Models [plugins/matter/src/onboarding.rs]: the payload of a QR code in base 38, and the
    decimal code with the check digit of Verhoeff. *)

From Stdlib Require Import ZArith Lia Ascii String.
From S2P Require Import Prelude Text Errors Tlv TlvOk.
From S2P Require Value.

Local Open Scope Z_scope.

Definition ALPHABET : list Z := as_bytes "0123456789ABCDEFGHIJKLMNOPQRSTUVWXYZ-.".

Record Payload : Type := mk_payload {
  version : Z; vendor : Z; product : Z; flow : Z; discovery : Z; discriminator : Z;
  short : bool; passcode : Z; extensions : list Z
}.

Definition FORBIDDEN : list Z :=
  [0; 11111111; 22222222; 33333333; 44444444; 55555555; 66666666; 77777777; 88888888;
   99999999; 12345678; 87654321].

Definition check_passcode (n : Z) : Result unit :=
  if (Z.shiftl 1 27 <=? n) || existsb (Z.eqb n) FORBIDDEN then Err (Invalid "invalid Matter passcode") else Ok tt.

(** The ten digits of a [u32]. *)
Fixpoint digits10 (k : nat) (n : Z) : list Z :=
  match k with O => [] | S k => digits10 k (n / 10) ++ [48 + n mod 10] end.

(** Every caller asks for at most ten digits. *)
Definition decimal (out : list Z) (n : Z) (width : nat) : list Z := out ++ drop (10 - width) (digits10 10 n).

Definition D : list (list Z) :=
  [[0; 1; 2; 3; 4; 5; 6; 7; 8; 9];
   [1; 2; 3; 4; 0; 6; 7; 8; 9; 5];
   [2; 3; 4; 0; 1; 7; 8; 9; 5; 6];
   [3; 4; 0; 1; 2; 8; 9; 5; 6; 7];
   [4; 0; 1; 2; 3; 9; 5; 6; 7; 8];
   [5; 9; 8; 7; 6; 0; 4; 3; 2; 1];
   [6; 5; 9; 8; 7; 1; 0; 4; 3; 2];
   [7; 6; 5; 9; 8; 2; 1; 0; 4; 3];
   [8; 7; 6; 5; 9; 3; 2; 1; 0; 4];
   [9; 8; 7; 6; 5; 4; 3; 2; 1; 0]].

Definition P : list (list Z) :=
  [[0; 1; 2; 3; 4; 5; 6; 7; 8; 9];
   [1; 5; 7; 6; 2; 8; 3; 0; 9; 4];
   [5; 8; 0; 3; 7; 9; 6; 1; 4; 2];
   [8; 9; 1; 6; 0; 4; 3; 5; 2; 7];
   [9; 4; 5; 3; 1; 2; 6; 8; 7; 0];
   [4; 2; 8; 6; 5; 7; 3; 9; 0; 1];
   [2; 7; 9; 3; 8; 0; 6; 4; 1; 5];
   [7; 0; 4; 6; 9; 1; 3; 2; 5; 8]].

(** [table[i][j]] *)
Definition at2 (t : list (list Z)) (i j : Z) : Z := nth (Z.to_nat j) (nth (Z.to_nat i) t []) 0.

(** [for (i, b) in bytes.iter().rev().enumerate()], from [i] on. *)
Fixpoint checksum_from (i : Z) (rev_bytes : list Z) (c : Z) : Z :=
  match rev_bytes with
  | [] => c
  | b :: l => checksum_from (i + 1) l (at2 D c (at2 P (i mod 8) (b - 48)))
  end.

Definition checksum (bytes : list Z) (extra : Z) : Z := checksum_from extra (rev bytes) 0.

Definition INVERSE : list Z := [0; 4; 3; 2; 1; 5; 6; 7; 8; 9].

(** ** The decimal code *)

Definition is_digit (b : Z) : bool := between 48 b 57.

Fixpoint code_digits (l digits : list Z) : Result (list Z) :=
  match l with
  | [] => Ok digits
  | b :: l =>
      if (b =? 32) || (b =? 45) || (b =? 46) then code_digits l digits
      else if negb (is_digit b) then Err (Invalid "pairing code contains non-digit")
      else digits ← from_core (Value.push digits b 21); code_digits l digits
  end.

Definition group (digits : list Z) (a b : nat) : Z :=
  fold_left (fun n d => n * 10 + (d - 48)) (take (b - a) (drop a digits)) 0.

Definition u16_try_from (n : Z) (message : string) : Result Z :=
  if n <=? 65535 then Ok n else Err (Invalid message).

Definition manual_parse (code : list Z) : Result Payload :=
  digits ← code_digits code [];
  if negb ((length digits =? 11)%nat || (length digits =? 21)%nat) || negb (checksum digits 0 =? 0)
  then Err (Invalid "pairing code length or check digit invalid")
  else
    let first := nth 0 digits 0 - 48 in
    let g2 := group digits 1 6 in
    let g3 := group digits 6 10 in
    let vid := negb (Z.land first 4 =? 0) in
    if (7 <? first) || (65535 <? g2) || negb (Bool.eqb vid (length digits =? 21)%nat)
    then Err (Invalid "invalid pairing code fields")
    else
      let d := Z.lor (Z.shiftl (Z.land first 3) 10) (Z.shiftl (Z.shiftr g2 14) 8) in
      let code := Z.lor (Z.land g2 16383) (Z.shiftl g3 14) in
      p ← (if vid then
             v ← u16_try_from (group digits 10 15) "vendor ID overflow";
             q ← u16_try_from (group digits 15 20) "product ID overflow";
             Ok (mk_payload 0 v q 2 0 d true code [])
           else Ok (mk_payload 0 0 0 0 0 d true code []));
      _ ← check_passcode (passcode p);
      Ok p.

(** [while r.next()?.is_some() {}] *)
Fixpoint exhaust (fuel : nat) (r : Reader) : Answer unit :=
  match fuel with
  | O => None
  | S fuel => answer_bind (lift (next r)) (fun '(o, r) =>
                match o with Some _ => exhaust fuel r | None => lift (Ok tt) end)
  end.

Definition validate (p : Payload) : Answer unit :=
  answer_bind (lift (check_passcode (passcode p))) (fun _ =>
    if negb (version p =? 0) || (2 <? flow p) || (4095 <? discriminator p)
    then lift (Err (Invalid "invalid QR payload fields"))
    else answer_bind (lift (Reader_new (extensions p))) (fun r => exhaust (S (length (extensions p))) r)).

(** The digits before the check digit. *)
Definition manual_digits (p : Payload) : list Z :=
  let top := Z.shiftr (discriminator p) 8 in
  let vid := negb (flow p =? 0) in
  let out := decimal [] (Z.lor (Z.shiftr top 2) (if vid then 4 else 0)) 1 in
  let out := decimal out (Z.lor (Z.shiftl (Z.land top 3) 14) (Z.land (passcode p) 16383)) 5 in
  let out := decimal out (Z.shiftr (passcode p) 14) 4 in
  if vid then decimal (decimal out (vendor p) 5) (product p) 5 else out.

Definition manual (p : Payload) : Answer string :=
  answer_bind (validate p) (fun _ =>
    let out := manual_digits p in
    let digit := nth (Z.to_nat (checksum out 1)) INVERSE 0 in
    lift (Ok (of_bytes (decimal out digit 1)))).

(** ** The QR code *)

(** [packed[at / 8] |= ((value >> bit) & 1) << (at % 8)] for the bits of a field. *)
Definition set_bit (packed : list Z) (at_ : nat) (b : Z) : list Z :=
  alter (fun x => Z.lor x (Z.shiftl b (Z.of_nat (at_ mod 8)))) (at_ / 8)%nat packed.

Fixpoint pack_field (value : Z) (bit n : nat) (s : list Z * nat) : list Z * nat :=
  match n with
  | O => s
  | S n => let '(packed, at_) := s in
           pack_field value (S bit) n (set_bit packed at_ (Z.land (Z.shiftr value (Z.of_nat bit)) 1), S at_)
  end.

Definition fields (p : Payload) : list (Z * nat) :=
  [(version p, 3%nat); (vendor p, 16%nat); (product p, 16%nat); (flow p, 2%nat); (discovery p, 8%nat);
   (discriminator p, 12%nat); (passcode p, 27%nat); (0, 4%nat)].

Definition pack (fs : list (Z * nat)) : list Z :=
  (fold_left (fun s '(v, n) => pack_field v 0 n s) fs (repeat 0 11, 0%nat)).1.

(** [n] characters of base 38. *)
Fixpoint base38 (n : nat) (value : Z) : list Z :=
  match n with O => [] | S n => nth (Z.to_nat (value mod 38)) ALPHABET 0 :: base38 n (value / 38) end.

Definition chunk_value (b : list Z) : Z :=
  (fold_left (fun '(v, i) x => (Z.lor v (Z.shiftl x (i * 8)), i + 1)) b (0, 0)).1.

Definition chunk_chars (n : nat) : nat := match n with 1 => 2 | 2 => 4 | _ => 5 end%nat.

Definition qr (p : Payload) : Answer string :=
  answer_bind (validate p) (fun _ =>
    if short p then lift (Err (Invalid "QR requires the full discriminator"))
    else
      answer_bind (lift (b ← copy (pack (fields p)); append b (extensions p))) (fun bytes =>
        lift (Ok (of_bytes (as_bytes "MT:"
          ++ concat (map (fun b => base38 (chunk_chars (length b)) (chunk_value b)) (chunks 3 bytes))))))).

Fixpoint position (c : Z) (l : list Z) (i : Z) : option Z :=
  match l with [] => None | x :: l => if x =? c then Some i else position c l (i + 1) end.

(** [for ch in chars.iter().rev() { value = value * 38 + index }] *)
Fixpoint unbase38 (rev_chars : list Z) (value : Z) : Result Z :=
  match rev_chars with
  | [] => Ok value
  | c :: l => i ← ok_or (position c ALPHABET 0) (Invalid "invalid base38 character"); unbase38 l (value * 38 + i)
  end.

Definition chars_bytes (n : nat) : option nat :=
  match n with 5 => Some 3 | 4 => Some 2 | 2 => Some 1 | _ => None end%nat.

Fixpoint qr_bytes (cs : list (list Z)) (bytes : list Z) : Result (list Z) :=
  match cs with
  | [] => Ok bytes
  | chars :: cs =>
      n ← ok_or (chars_bytes (length chars)) (Invalid "invalid base38 trailing length");
      value ← unbase38 (rev chars) 0;
      if Z.shiftl 1 (Z.of_nat n * 8) <=? value then Err (Invalid "base38 group overflow")
      else bytes ← append bytes (take n (le_bytes 4 value)); qr_bytes cs bytes
  end.

(** The closure [read]: [n] bits from [at_], least significant first. *)
Fixpoint read_bits (bytes : list Z) (at_ : nat) (i n : nat) (v : Z) : Z :=
  match n with
  | O => v
  | S n =>
      let bit := Z.land (Z.shiftr (nth (at_ / 8) bytes 0) (Z.of_nat (at_ mod 8))) 1 in
      read_bits bytes (S at_) (S i) n (Z.lor v (Z.shiftl bit (Z.of_nat i)))
  end.

Definition field_at (bytes : list Z) (at_ n : nat) : Z := read_bits bytes at_ 0 n 0.

Definition qr_parse (text : list Z) : Answer Payload :=
  answer_bind (lift (qr_bytes (chunks 5 text) [])) (fun bytes =>
    if (length bytes <? 11)%nat then lift (Err (Invalid "QR header too short"))
    else if negb (field_at bytes 84 4 =? 0) then lift (Err (Invalid "QR padding is nonzero"))
    else
      answer_bind (lift (copy (drop 11 bytes))) (fun ext =>
        let p := mk_payload (field_at bytes 0 3) (field_at bytes 3 16) (field_at bytes 19 16) (field_at bytes 35 2)
                   (field_at bytes 37 8) (field_at bytes 45 12) false (field_at bytes 57 27) ext in
        answer_bind (validate p) (fun _ => lift (Ok p)))).

(** [Payload::parse]; a prefix of three ASCII letters always ends at a character. *)
Definition parse (code : string) : Answer Payload :=
  let s := trim code in
  if 8192 <? len s then lift (Err (Invalid "onboarding code too long"))
  else if bool_decide (map ascii_lower (take 3 (as_bytes s)) = as_bytes "mt:")
  then qr_parse (drop 3 (as_bytes s))
  else lift (manual_parse (as_bytes s)).

(** The code of the tests of the program. *)
Definition sample : Payload := mk_payload 0 65521 32769 0 4 3840 false 20202021 [].

Example sample_codes :
  qr sample = Some (Ok "MT:-24J0AFN00KA0648G00"%string) /\ manual sample = Some (Ok "34970112332"%string).
Proof. vm_compute. split; reflexivity. Qed.

(** * OnboardingOk: codes round trip, and the check digit catches slips *)


(** ** The check digit of Verhoeff *)

Definition digit (z : Z) : Prop := 0 <= z < 10.
Definition ten : list Z := [0; 1; 2; 3; 4; 5; 6; 7; 8; 9].

Lemma digit_ten z : digit z -> In z ten.
Proof. unfold digit. cbn. lia. Qed.

(** The tables are small enough to look at every entry. *)
Definition every (f : Z -> bool) : bool := forallb f ten.

Lemma every_ok f z : every f = true -> digit z -> f z = true.
Proof. unfold every. rewrite forallb_forall. intros H Hz. apply H, digit_ten, Hz. Qed.

Lemma D_table : every (fun a => every (fun b => between 0 (at2 D a b) 9)) = true.
Proof. vm_compute. reflexivity. Qed.
Lemma D_assoc_table :
  every (fun a => every (fun b => every (fun c => at2 D (at2 D a b) c =? at2 D a (at2 D b c)))) = true.
Proof. vm_compute. reflexivity. Qed.
Lemma D_unit_table : every (fun a => (at2 D a 0 =? a) && (at2 D 0 a =? a) && (at2 P 0 a =? a)) = true.
Proof. vm_compute. reflexivity. Qed.
Lemma D_inverse_table :
  every (fun a => (at2 D (nth (Z.to_nat a) INVERSE 0) a =? 0) && (at2 D a (nth (Z.to_nat a) INVERSE 0) =? 0)
                  && between 0 (nth (Z.to_nat a) INVERSE 0) 9) = true.
Proof. vm_compute. reflexivity. Qed.
Lemma P_table :
  every (fun i => (8 <=? i) || every (fun a => between 0 (at2 P i a) 9
    && every (fun b => (a =? b) || negb (at2 P i a =? at2 P i b)))) = true.
Proof. vm_compute. reflexivity. Qed.

(** Swapping two neighbours changes the product. *)
Lemma swap_table :
  every (fun i => (8 <=? i) || every (fun a => every (fun b =>
    (a =? b) || negb (at2 D (at2 P i a) (at2 P ((i + 1) mod 8) b) =? at2 D (at2 P i b) (at2 P ((i + 1) mod 8) a))))) = true.
Proof. vm_compute. reflexivity. Qed.

Lemma D_digit a b : digit a -> digit b -> digit (at2 D a b).
Proof.
  intros Ha Hb. pose proof (every_ok _ _ (every_ok _ _ D_table Ha) Hb) as H.
  unfold digit, between in *. cbv beta in H. lia.
Qed.

Lemma D_assoc a b c : digit a -> digit b -> digit c -> at2 D (at2 D a b) c = at2 D a (at2 D b c).
Proof. intros Ha Hb Hc. apply Z.eqb_eq. apply (every_ok _ _ (every_ok _ _ (every_ok _ _ D_assoc_table Ha) Hb) Hc). Qed.

Lemma D_unit a : digit a -> at2 D a 0 = a /\ at2 D 0 a = a /\ at2 P 0 a = a.
Proof. intros Ha. pose proof (every_ok _ _ D_unit_table Ha) as H. cbv beta in H. lia. Qed.

Lemma D_inverse a :
  digit a -> at2 D (nth (Z.to_nat a) INVERSE 0) a = 0 /\ at2 D a (nth (Z.to_nat a) INVERSE 0) = 0
             /\ digit (nth (Z.to_nat a) INVERSE 0).
Proof. intros Ha. pose proof (every_ok _ _ D_inverse_table Ha) as H. unfold digit, between in *. cbv beta in H. lia. Qed.

Lemma D_cancel_l c a b : digit c -> digit a -> digit b -> at2 D c a = at2 D c b -> a = b.
Proof.
  intros Hc Ha Hb H. destruct (D_inverse c Hc) as (Hi & _ & Hd).
  rewrite <- (proj1 (proj2 (D_unit a Ha))), <- (proj1 (proj2 (D_unit b Hb))), <- Hi, !D_assoc by done. by rewrite H.
Qed.

Lemma D_cancel_r c a b : digit c -> digit a -> digit b -> at2 D a c = at2 D b c -> a = b.
Proof.
  intros Hc Ha Hb H. destruct (D_inverse c Hc) as (_ & Hi & Hd).
  rewrite <- (proj1 (D_unit a Ha)), <- (proj1 (D_unit b Hb)), <- Hi, <- !D_assoc by done. by rewrite H.
Qed.

Lemma mod8 i : 0 <= i mod 8 < 8.
Proof. apply Z.mod_pos_bound. lia. Qed.

Lemma P_digit i a : digit a -> digit (at2 P (i mod 8) a).
Proof.
  intros Ha. pose proof (mod8 i) as Hi. assert (digit (i mod 8)) as Hd by (unfold digit; lia).
  pose proof (every_ok _ _ P_table Hd) as H. cbv beta in H. apply orb_true_iff in H as [H|H]; [lia|].
  pose proof (every_ok _ _ H Ha) as H'. unfold between, digit in *. cbv beta in H'. lia.
Qed.

Lemma P_inj i a b : digit a -> digit b -> at2 P (i mod 8) a = at2 P (i mod 8) b -> a = b.
Proof.
  intros Ha Hb E. pose proof (mod8 i) as Hi. assert (digit (i mod 8)) as Hd by (unfold digit; lia).
  pose proof (every_ok _ _ P_table Hd) as H. cbv beta in H. apply orb_true_iff in H as [H|H]; [lia|].
  pose proof (every_ok _ _ H Ha) as H'. cbv beta in H'. apply andb_true_iff in H' as [_ H'].
  pose proof (every_ok _ _ H' Hb) as H''. cbv beta in H''. lia.
Qed.

Lemma P_swap i a b :
  digit a -> digit b -> a <> b ->
  at2 D (at2 P (i mod 8) a) (at2 P ((i + 1) mod 8) b) <> at2 D (at2 P (i mod 8) b) (at2 P ((i + 1) mod 8) a).
Proof.
  intros Ha Hb Hn. pose proof (mod8 i) as Hi. assert (digit (i mod 8)) as Hd by (unfold digit; lia).
  pose proof (every_ok _ _ swap_table Hd) as H. cbv beta in H. apply orb_true_iff in H as [H|H]; [lia|].
  pose proof (every_ok _ _ (every_ok _ _ H Ha) Hb) as H'. cbv beta in H'.
  rewrite Z.add_mod_idemp_l in H' by lia. lia.
Qed.

Definition digits_ok (l : list Z) : Prop := Forall (fun b => is_digit b = true) l.

Lemma is_digit_digit b : is_digit b = true -> digit (b - 48).
Proof. unfold is_digit, between, digit. lia. Qed.

Lemma checksum_from_digit l : forall i c, digits_ok l -> digit c -> digit (checksum_from i l c).
Proof.
  induction l as [|b l IH]; intros i c Hl Hc; [done|]. apply Forall_cons in Hl as [Hb Hl].
  cbn [checksum_from]. apply IH; [done|]. apply D_digit; [done|]. by apply P_digit, is_digit_digit.
Qed.

(** The sum from [c] is [c] times the sum from the unit. *)
Lemma checksum_from_mul l : forall i c, digits_ok l -> digit c -> checksum_from i l c = at2 D c (checksum_from i l 0).
Proof.
  induction l as [|b l IH]; intros i c Hl Hc; cbn [checksum_from]; [symmetry; by apply D_unit|].
  apply Forall_cons in Hl as [Hb%is_digit_digit Hl]. pose proof (P_digit i _ Hb) as Hp.
  assert (digit 0) as H0 by (unfold digit; lia).
  rewrite (IH _ (at2 D c _)), (IH _ (at2 D 0 _)) by (done || by apply D_digit).
  rewrite (proj1 (proj2 (D_unit _ Hp))). apply D_assoc; [done..|]. by apply checksum_from_digit.
Qed.

Lemma checksum_from_app l k : forall i c,
  checksum_from i (l ++ k) c = checksum_from (i + Z.of_nat (length l)) k (checksum_from i l c).
Proof.
  induction l as [|b l IH]; intros i c; cbn [app checksum_from length]; [by rewrite Z.add_0_r|].
  rewrite IH. f_equal. lia.
Qed.

Lemma digits_ok_rev l : digits_ok l -> digits_ok (rev l).
Proof. apply Forall_rev. Qed.

(** One wrong digit changes the sum. *)
Lemma checksum_one_digit l x y k i :
  digits_ok l -> digits_ok k -> is_digit x = true -> is_digit y = true -> x <> y ->
  checksum (l ++ x :: k) i <> checksum (l ++ y :: k) i.
Proof.
  intros Hl Hk Hx Hy Hn. unfold checksum. rewrite !rev_app_distr. cbn [rev]. rewrite <- !app_assoc. cbn [app].
  rewrite !checksum_from_app. cbn [checksum_from]. set (c := checksum_from i (rev k) 0).
  assert (digit c) as Hc by (apply checksum_from_digit; [by apply digits_ok_rev|unfold digit; lia]).
  apply is_digit_digit in Hx as Hx', Hy as Hy'. apply digits_ok_rev in Hl.
  set (j := i + _). pose proof (P_digit j _ Hx') as Px. pose proof (P_digit j _ Hy') as Py. intros E.
  rewrite (checksum_from_mul _ _ (at2 D c (at2 P (j mod 8) (x - 48)))) in E by (done || by apply D_digit).
  rewrite (checksum_from_mul _ _ (at2 D c (at2 P (j mod 8) (y - 48)))) in E by (done || by apply D_digit).
  apply D_cancel_r in E; [|apply checksum_from_digit; [done|unfold digit; lia]|by apply D_digit..].
  apply D_cancel_l in E; [|done..]. apply P_inj in E; [lia|done..].
Qed.

(** Two neighbours in the wrong order change the sum. *)
Lemma checksum_swap l x y k i :
  digits_ok l -> digits_ok k -> is_digit x = true -> is_digit y = true -> x <> y ->
  checksum (l ++ x :: y :: k) i <> checksum (l ++ y :: x :: k) i.
Proof.
  intros Hl Hk Hx Hy Hn. unfold checksum. rewrite !rev_app_distr. cbn [rev]. rewrite <- !app_assoc. cbn [app].
  rewrite !checksum_from_app. cbn [checksum_from]. set (c := checksum_from i (rev k) 0).
  assert (digit c) as Hc by (apply checksum_from_digit; [by apply digits_ok_rev|unfold digit; lia]).
  apply is_digit_digit in Hx as Hx', Hy as Hy'. apply digits_ok_rev in Hl.
  set (j := i + _). pose proof (P_digit j _ Hx') as Px. pose proof (P_digit j _ Hy') as Py.
  pose proof (P_digit (j + 1) _ Hx') as Qx. pose proof (P_digit (j + 1) _ Hy') as Qy. intros E.
  rewrite !(D_assoc c) in E by done.
  rewrite (checksum_from_mul _ _ (at2 D c (at2 D (at2 P (j mod 8) (y - 48)) _))) in E by first [done|repeat apply D_digit; done].
  rewrite (checksum_from_mul _ _ (at2 D c (at2 D (at2 P (j mod 8) (x - 48)) _))) in E by first [done|repeat apply D_digit; done].
  apply D_cancel_r in E; [|apply checksum_from_digit; [done|unfold digit; lia]|repeat apply D_digit; done..].
  apply D_cancel_l in E; [|done|repeat apply D_digit; done..]. revert E. apply P_swap; [done..|lia].
Qed.

(** ** Slips in a decimal code *)

Definition separator (b : Z) : bool := (b =? 32) || (b =? 45) || (b =? 46).
Definition digits_of (l : list Z) : list Z := List.filter (fun b => negb (separator b)) l.

Lemma code_digits_Ok l : forall d ds, code_digits l d = Ok ds -> ds = d ++ digits_of l /\ digits_ok (digits_of l).
Proof.
  induction l as [|b l IH]; intros d ds; cbn [code_digits].
  - intros [= <-]. rewrite app_nil_r. split; [done|constructor].
  - unfold digits_of. cbn [List.filter]. fold (digits_of l).
    change ((b =? 32) || (b =? 45) || (b =? 46)) with (separator b). destruct (separator b); cbn [negb]; [apply IH|]. destruct (is_digit b) eqn:Eb; cbn [negb]; [|done].
    unfold Value.push. destruct (_ <=? _); cbn [from_core mbind result_bind]; [done|].
    intros [-> Hl]%IH. rewrite <- app_assoc. split; [done|by constructor].
Qed.

Lemma code_digits_complete l : forall d,
  digits_ok (digits_of l) -> (length (d ++ digits_of l) <= 21)%nat -> code_digits l d = Ok (d ++ digits_of l).
Proof.
  induction l as [|b l IH]; intros d Hl Hn; cbn [code_digits]; [by rewrite app_nil_r|].
  unfold digits_of in *. cbn [List.filter] in *. fold (digits_of l) in *.
  change ((b =? 32) || (b =? 45) || (b =? 46)) with (separator b).
  destruct (separator b); cbn [negb] in *; [by apply IH|].
  apply Forall_cons in Hl as [-> Hl]. cbn [negb]. unfold Value.push.
  rewrite length_app in Hn. cbn [length] in Hn. destruct (Z.leb_spec 21 (Z.of_nat (length d))); [lia|].
  cbn [from_core mbind result_bind]. rewrite IH; [by rewrite <- app_assoc|done|].
  rewrite !length_app. cbn [length]. lia.
Qed.

Lemma digit_not_separator b : is_digit b = true -> separator b = false.
Proof. unfold is_digit, separator, between. lia. Qed.

Lemma digits_of_cons b l : is_digit b = true -> digits_of (b :: l) = b :: digits_of l.
Proof. intros H. unfold digits_of. cbn. by rewrite digit_not_separator. Qed.

Lemma digits_of_app l k : digits_of (l ++ k) = digits_of l ++ digits_of k.
Proof. apply List.filter_app. Qed.

Definition refused : Result Payload := Err (Invalid "pairing code length or check digit invalid").

Lemma manual_parse_Ok code p :
  manual_parse code = Ok p ->
  digits_ok (digits_of code) /\ (length (digits_of code) = 11 \/ length (digits_of code) = 21)%nat
  /\ checksum (digits_of code) 0 = 0.
Proof.
  unfold manual_parse. destruct (code_digits code []) as [ds|] eqn:E; cbn [mbind result_bind]; [|done].
  apply code_digits_Ok in E as [-> Hd]. cbn [app]. split; [done|].
  destruct (Nat.eqb_spec (length (digits_of code)) 11), (Nat.eqb_spec (length (digits_of code)) 21),
    (Z.eqb_spec (checksum (digits_of code) 0) 0); cbn [orb negb] in *; try done; auto.
Qed.

Lemma manual_parse_refuses code :
  digits_ok (digits_of code) -> (length (digits_of code) <= 21)%nat -> checksum (digits_of code) 0 <> 0 ->
  manual_parse code = refused.
Proof.
  intros Hd Hl Hc. unfold manual_parse. rewrite code_digits_complete by done. cbn [mbind result_bind app].
  destruct (Z.eqb_spec (checksum (digits_of code) 0) 0); [done|]. by rewrite orb_true_r.
Qed.

(** Whoever types an accepted decimal code with one digit wrong, or with two neighbouring
    digits in the wrong order, gets an error and never another device. *)
Theorem typing_slips_are_caught a x y b p :
  is_digit x = true -> is_digit y = true -> x <> y ->
  (manual_parse (a ++ x :: b) = Ok p -> manual_parse (a ++ y :: b) = refused)
  /\ (manual_parse (a ++ x :: y :: b) = Ok p -> manual_parse (a ++ y :: x :: b) = refused).
Proof.
  intros Hx Hy Hn. split; intros (Hd & Hl & Hc)%manual_parse_Ok; apply manual_parse_refuses;
    rewrite digits_of_app, !digits_of_cons in * by done.
  - apply Forall_app in Hd as [Ha Hb]. apply Forall_cons in Hb as [_ Hb]. apply Forall_app; split; [done|by constructor].
  - rewrite length_app in *. cbn [length] in *. lia.
  - intros H. apply Forall_app in Hd as [Ha Hb]. apply Forall_cons in Hb as [_ Hb].
    apply (checksum_one_digit (digits_of a) x y (digits_of b) 0); [done..|congruence].
  - apply Forall_app in Hd as [Ha Hb]. apply Forall_cons in Hb as [_ Hb]. apply Forall_cons in Hb as [_ Hb].
    apply Forall_app; split; [done|by repeat constructor].
  - rewrite length_app in *. cbn [length] in *. lia.
  - intros H. apply Forall_app in Hd as [Ha Hb]. apply Forall_cons in Hb as [_ Hb]. apply Forall_cons in Hb as [_ Hb].
    apply (checksum_swap (digits_of a) x y (digits_of b) 0); [done..|congruence].
Qed.

(** [3497-011-2332] is the sample; its third digit mistyped, and swapped with the fourth. *)
Lemma typing_slips_are_caught_witness :
  (exists p, manual_parse (as_bytes "3497-011-2332") = Ok p)
  /\ manual_parse (as_bytes "3487-011-2332") = refused /\ manual_parse (as_bytes "3479-011-2332") = refused.
Proof.
  destruct (manual_parse (as_bytes "3497-011-2332")) as [p|e] eqn:E; [|vm_compute in E; discriminate E].
  split; [by exists p|]. split.
  - destruct (typing_slips_are_caught (as_bytes "34") 57 56 (as_bytes "7-011-2332") p eq_refl eq_refl ltac:(done)) as [H _].
    exact (H E).
  - destruct (typing_slips_are_caught (as_bytes "34") 57 55 (as_bytes "-011-2332") p eq_refl eq_refl ltac:(done)) as [_ H].
    exact (H E).
Defined.

(** ** Decimal codes round trip *)

Lemma lor_add a b k : 0 <= k -> 0 <= a < 2 ^ k -> Z.lor a (b * 2 ^ k) = a + b * 2 ^ k.
Proof.
  intros Hk Ha. rewrite <- Z.lxor_lor, <- Z.add_nocarry_lxor; [done|..];
    (apply Z.bits_inj'; intros n Hn; rewrite Z.land_spec, Z.bits_0;
     destruct (Z.ltb_spec n k);
     [rewrite Z.mul_pow2_bits_low by done; apply andb_false_r
     |rewrite (testbit_high k a n) by done; done]).
Qed.

Lemma lor_shiftl a b k : 0 <= k -> 0 <= a < 2 ^ k -> Z.lor a (Z.shiftl b k) = a + b * 2 ^ k.
Proof. intros Hk Ha. rewrite Z.shiftl_mul_pow2 by done. by apply lor_add. Qed.

Lemma length_digits10 k n : length (digits10 k n) = k.
Proof. revert n. induction k as [|k IH]; intros n; cbn [digits10]; [done|]. rewrite length_app, IH. cbn. lia. Qed.

Lemma digits10_drop j k n : drop j (digits10 (j + k) n) = digits10 k n.
Proof.
  revert n. induction k as [|k IH]; intros n.
  - rewrite Nat.add_0_r. cbn. apply drop_ge. by rewrite length_digits10.
  - rewrite Nat.add_succ_r. cbn [digits10]. rewrite drop_app_le by (rewrite length_digits10; lia). by rewrite IH.
Qed.

Lemma decimal_eq out n w : (w <= 10)%nat -> decimal out n w = out ++ digits10 w n.
Proof.
  intros H. unfold decimal. f_equal. rewrite <- (digits10_drop (10 - w) w). do 2 f_equal. lia.
Qed.

Lemma digits10_ok k n : digits_ok (digits10 k n).
Proof.
  revert n. induction k as [|k IH]; intros n; cbn [digits10]; [constructor|].
  apply Forall_app. split; [apply IH|]. constructor; [|constructor].
  pose proof (Z.mod_pos_bound n 10 ltac:(lia)). unfold is_digit, between. lia.
Qed.

(** The value of decimal digits. *)
Definition value10 (l : list Z) : Z := fold_left (fun n d => n * 10 + (d - 48)) l 0.

Lemma value10_digits10 k n : 0 <= n < 10 ^ Z.of_nat k -> value10 (digits10 k n) = n.
Proof.
  unfold value10. revert n. induction k as [|k IH]; intros n Hn; cbn [digits10]; [cbn in *; lia|].
  rewrite Nat2Z.inj_succ, Z.pow_succ_r in Hn by lia. rewrite fold_left_app. cbn [fold_left]. rewrite IH.
  - pose proof (Z.div_mod n 10). lia.
  - split; [apply Z.div_pos; lia|]. apply Z.div_lt_upper_bound; lia.
Qed.

Lemma digits_of_digits l : digits_ok l -> digits_of l = l.
Proof. induction 1 as [|b l Hb _ IH]; [done|]. rewrite digits_of_cons by done. by rewrite IH. Qed.

(** The values the types of the fields allow. *)
Record payload_ok (p : Payload) : Prop := {
  po_version : 0 <= version p < 256;
  po_vendor : 0 <= vendor p < 65536;
  po_product : 0 <= product p < 65536;
  po_flow : 0 <= flow p < 256;
  po_discovery : 0 <= discovery p < 256;
  po_discriminator : 0 <= discriminator p < 65536;
  po_passcode : 0 <= passcode p <= U32_MAX;
  po_extensions : Forall is_byte (extensions p)
}.

Lemma validate_Ok p : validate p = Some (Ok tt) ->
  check_passcode (passcode p) = Ok tt /\ passcode p < 2 ^ 27 /\ version p = 0 /\ flow p <= 2 /\ discriminator p <= 4095.
Proof.
  unfold validate. destruct (check_passcode (passcode p)) as [[]|] eqn:E; cbn [answer_bind lift]; [|done].
  destruct (negb (version p =? 0) || (2 <? flow p) || (4095 <? discriminator p)) eqn:Ef; [done|]. intros _.
  assert (passcode p < 2 ^ 27) as Hp.
  { revert E. unfold check_passcode. destruct (Z.leb_spec (Z.shiftl 1 27) (passcode p)) as [|Hp]; cbn [orb]; [done|].
    intros _. exact Hp. }
  split; [done|]. bool_prop. lia.
Qed.

(** What a decimal code keeps of a payload. *)
Definition manual_view (p : Payload) : Payload :=
  let vid := negb (flow p =? 0) in
  mk_payload 0 (if vid then vendor p else 0) (if vid then product p else 0) (if vid then 2 else 0) 0
    (discriminator p / 256 * 256) true (passcode p) [].

Lemma checksum_closes l :
  digits_ok l -> checksum (l ++ [48 + nth (Z.to_nat (checksum l 1)) INVERSE 0]) 0 = 0.
Proof.
  intros Hl. unfold checksum. rewrite rev_app_distr. cbn [rev app checksum_from].
  assert (digit (checksum_from 1 (rev l) 0)) as Hd
    by (apply checksum_from_digit; [by apply digits_ok_rev|unfold digit; lia]).
  destruct (D_inverse _ Hd) as (Hi & _ & Hj). set (c := checksum_from 1 (rev l) 0) in *.
  replace (48 + nth (Z.to_nat c) INVERSE 0 - 48) with (nth (Z.to_nat c) INVERSE 0) by lia.
  rewrite Z.mod_0_l by lia. destruct (D_unit _ Hj) as (_ & H1 & H2). rewrite H2, H1.
  rewrite checksum_from_mul by (done || by apply digits_ok_rev). exact Hi.
Qed.

(** The digits of a decimal code, field by field. *)
Lemma manual_digits_eq p :
  payload_ok p -> passcode p < 2 ^ 27 -> discriminator p <= 4095 ->
  exists a b c, manual_digits p
    = digits10 1 a ++ digits10 5 b ++ digits10 4 c
      ++ (if negb (flow p =? 0) then digits10 5 (vendor p) ++ digits10 5 (product p) else [])
  /\ a = discriminator p / 256 / 4 + (if negb (flow p =? 0) then 4 else 0)
  /\ b = passcode p mod 16384 + (discriminator p / 256) mod 4 * 16384 /\ c = passcode p / 16384.
Proof.
  intros Hok Hp Hd. unfold manual_digits. cbv zeta. rewrite !decimal_eq by lia.
  change 3 with (Z.ones 2). change 16383 with (Z.ones 14). rewrite !Z.land_ones, !Z.shiftr_div_pow2 by lia.
  change (2 ^ 8) with 256. change (2 ^ 2) with 4. change (2 ^ 14) with 16384.
  pose proof (po_discriminator _ Hok). pose proof (po_passcode _ Hok).
  set (vid := negb (flow p =? 0)).
  assert (Z.lor (discriminator p / 256 / 4) (if vid then 4 else 0) = discriminator p / 256 / 4 + (if vid then 4 else 0)) as ->.
  { destruct vid; [|by rewrite Z.lor_0_r, Z.add_0_r].
    apply (lor_add (discriminator p / 256 / 4) 1 2); [lia|]. change (2 ^ 2) with 4.
    split; [repeat apply Z.div_pos; lia|]. repeat (apply Z.div_lt_upper_bound; [lia|]). lia. }
  rewrite (Z.lor_comm (Z.shiftl _ _)), lor_shiftl
    by (try lia; change (2 ^ 14) with 16384; apply Z.mod_pos_bound; lia).
  change (2 ^ 14) with 16384. eexists _, _, _. split; [|by repeat split].
  destruct vid; rewrite ?app_nil_r, <- ?app_assoc; done.
Qed.

Lemma answer_inj {A} (a b : A) : @lift A (Ok a) = Some (Ok b) -> b = a.
Proof. unfold lift. congruence. Qed.

(** Printable ASCII is left alone by [trim]. *)
Definition plain (b : Z) : Prop := 33 <= b < 127.

Lemma encode_chars_ascii l : Forall plain l -> encode_chars l = l.
Proof.
  induction 1 as [|b l Hb _ IH]; [done|]. unfold encode_chars in *. cbn [flat_map]. rewrite IH.
  unfold plain in Hb. unfold encode_char. destruct (Z.ltb_spec b 128); [done|lia].
Qed.

Lemma plain_chars l : Forall plain l -> forallb is_char l = true.
Proof.
  intros H. apply forallb_forall. intros b Hb%list_elem_of_In. rewrite Forall_forall in H. apply H in Hb.
  unfold plain, is_char, between in *. lia.
Qed.

Lemma plain_bytes l : Forall plain l -> as_bytes (of_bytes l) = l.
Proof. intros H. apply as_of_bytes. eapply Forall_impl; [exact H|]. unfold plain, is_byte. lia. Qed.

Lemma drop_white_plain l : Forall plain l -> drop_white l = l.
Proof.
  destruct 1 as [|b l Hb _]; [done|]. cbn. unfold plain in Hb.
  assert (is_whitespace b = false) as -> by (unfold is_whitespace, between; lia). done.
Qed.

Lemma trim_plain l : Forall plain l -> trim (of_bytes l) = of_bytes l.
Proof.
  intros H. unfold trim. assert (of_bytes l = of_chars l) as -> by (unfold of_chars; by rewrite encode_chars_ascii).
  rewrite chars_of_chars by by apply plain_chars. rewrite (drop_white_plain l) by done.
  rewrite drop_white_plain by by apply Forall_rev. by rewrite rev_involutive.
Qed.

Lemma digits_plain l : digits_ok l -> Forall plain l.
Proof. intros H. eapply Forall_impl; [exact H|]. cbn. unfold is_digit, between, plain. lia. Qed.

(** The digits of a field, after those before it. *)
Lemma group_at pre k n post i j :
  i = length pre -> j = (i + k)%nat -> 0 <= n < 10 ^ Z.of_nat k -> group (pre ++ digits10 k n ++ post) i j = n.
Proof.
  intros -> -> Hn. unfold group. rewrite drop_app_length.
  replace (length pre + k - length pre)%nat with (length (digits10 k n)) by (rewrite length_digits10; lia).
  rewrite take_app_length. by apply value10_digits10.
Qed.

(** Any digits that close and have a right length are read field by field. *)
Lemma manual_parse_fields a b c rest k :
  0 <= a <= 7 -> 0 <= b <= 65535 -> 0 <= c < 8192 ->
  let ds := digits10 1 a ++ digits10 5 b ++ digits10 4 c ++ rest ++ [k] in
  digits_ok ds -> checksum ds 0 = 0 ->
  let d := a mod 4 * 1024 + b / 16384 * 256 in
  let code := b mod 16384 + c * 16384 in
  check_passcode code = Ok tt ->
  (a < 4 -> rest = [] -> manual_parse ds = Ok (mk_payload 0 0 0 0 0 d true code []))
  /\ (forall v q, 4 <= a -> rest = digits10 5 v ++ digits10 5 q -> 0 <= v <= 65535 -> 0 <= q <= 65535 ->
      manual_parse ds = Ok (mk_payload 0 v q 2 0 d true code [])).
Proof.
  intros Ha Hb Hc ds Hds Hsum d code Hcode.
  assert (length ds = 11 + length rest)%nat as Hlen.
  { unfold ds. rewrite !length_app, !length_digits10. cbn [length]. lia. }
  assert (length ds <= 21 -> code_digits ds [] = Ok ds)%nat as Hcd.
  { intros H. pose proof (code_digits_complete ds []) as Hx. rewrite digits_of_digits in Hx by done. by apply Hx. }
  assert (nth 0 ds 0 - 48 = a) as Hfirst.
  { unfold ds. cbn [digits10 app nth]. rewrite Z.mod_small by lia. lia. }
  assert (group ds 1 6 = b) as H2 by (apply (group_at (digits10 1 a)); cbn; (done || lia)).
  assert (group ds 6 10 = c) as H3.
  { unfold ds. rewrite app_assoc. apply group_at; [|done|cbn; lia]. by rewrite length_app, !length_digits10. }
  assert (Z.lor (Z.shiftl (Z.land a 3) 10) (Z.shiftl (Z.shiftr b 14) 8) = d) as Hd.
  { change 3 with (Z.ones 2). rewrite Z.land_ones, Z.shiftr_div_pow2, (Z.lor_comm (Z.shiftl _ 10)) by lia.
    rewrite lor_shiftl; [|lia|].
    - rewrite Z.shiftl_mul_pow2 by lia. unfold d. change (2 ^ 2) with 4. change (2 ^ 8) with 256.
      change (2 ^ 10) with 1024. change (2 ^ 14) with 16384. lia.
    - rewrite Z.shiftl_mul_pow2 by lia. change (2 ^ 8) with 256. change (2 ^ 10) with 1024. change (2 ^ 14) with 16384.
      assert (0 <= b / 16384 < 4) by (split; [apply Z.div_pos; lia|apply Z.div_lt_upper_bound; lia]). lia. }
  assert (Z.lor (Z.land b 16383) (Z.shiftl c 14) = code) as Hpc.
  { change 16383 with (Z.ones 14). rewrite Z.land_ones by lia. apply lor_shiftl; [lia|].
    apply Z.mod_pos_bound. lia. }
  assert (negb (Z.land a 4 =? 0) = negb (a <? 4)) as Hvid.
  { assert (In a [0; 1; 2; 3; 4; 5; 6; 7]) as Hin by (cbn; lia).
    repeat (destruct Hin as [<-|Hin]; [reflexivity|]). done. }
  split.
  - intros Ha4 ->. cbn [length] in Hlen. unfold manual_parse. rewrite Hcd by lia. cbn [mbind result_bind].
    rewrite Hlen, Hsum. cbn [Nat.add Nat.eqb orb negb Z.eqb]. rewrite Hfirst, Hvid, H2, H3, Hd, Hpc.
    decide_tests. cbn [orb negb Bool.eqb mbind result_bind passcode]. rewrite Hcode. done.
  - intros v q Ha4 -> Hv Hq. rewrite length_app, !length_digits10 in Hlen. unfold manual_parse.
    rewrite Hcd by lia. cbn [mbind result_bind].
    assert (group ds 10 15 = v) as H4.
    { unfold ds. rewrite <- !app_assoc, (app_assoc _ (digits10 5 b)), (app_assoc _ (digits10 4 c)).
      apply group_at; [|done|cbn; lia]. by rewrite !length_app, !length_digits10. }
    assert (group ds 15 20 = q) as H5.
    { unfold ds. rewrite <- !app_assoc, (app_assoc _ (digits10 5 b)), (app_assoc _ (digits10 4 c)), (app_assoc _ (digits10 5 v)).
      apply group_at; [|done|cbn; lia]. by rewrite !length_app, !length_digits10. }
    rewrite Hlen, Hsum. cbn [Nat.add Nat.eqb orb negb Z.eqb]. rewrite Hfirst, Hvid, H2, H3, H4, H5, Hd, Hpc.
    unfold u16_try_from. decide_tests. cbn [orb negb Bool.eqb mbind result_bind passcode]. rewrite Hcode. done.
Qed.

Lemma parse_digits ds : digits_ok ds -> (length ds <= 21)%nat -> parse (of_bytes ds) = Some (manual_parse ds).
Proof.
  intros Hd Hl. apply digits_plain in Hd as Hp. unfold parse. rewrite trim_plain by done. unfold len.
  rewrite <- length_as_bytes, plain_bytes by done.
  destruct (Z.ltb_spec 8192 (Z.of_nat (length ds))); [lia|]. rewrite bool_decide_eq_false_2; [done|].
  destruct ds as [|b ds]; [done|]. cbn [take map as_bytes]. apply Forall_cons in Hd as [Hb _].
  intros [= Hm _]. revert Hm. unfold ascii_lower, is_digit, between in *. replace ((65 <=? b) && (b <=? 90)) with false by lia.
  change (byte_of_ascii "m") with 109. lia.
Qed.

(** The decimal code of a payload is read as the same device: the passcode, the upper four
    bits of the discriminator, and vendor and product of a custom flow. *)
Theorem manual_roundtrip p t :
  payload_ok p -> manual p = Some (Ok t) -> parse t = Some (Ok (manual_view p)).
Proof.
  intros Hok. unfold manual. destruct (validate p) as [[[]|]|] eqn:Ev; cbn [answer_bind lift]; [|done|done].
  intros ->%answer_inj. apply validate_Ok in Ev as (Hc & Hp & _ & Hf & Hd).
  destruct (manual_digits_eq p Hok Hp Hd) as (a & b & c & E & Ea & Eb & Ec).
  set (vid := negb (flow p =? 0)) in *. set (rest := if vid then _ else _) in E.
  pose proof (po_discriminator _ Hok). pose proof (po_passcode _ Hok). change (2 ^ 27) with 134217728 in Hp.
  assert (digits_ok (manual_digits p)) as Hmd.
  { rewrite E. unfold digits_ok. rewrite !Forall_app. split; [apply digits10_ok|]. split; [apply digits10_ok|].
    split; [apply digits10_ok|]. unfold rest. destruct vid; [|constructor].
    rewrite Forall_app. split; apply digits10_ok. }
  set (x := nth (Z.to_nat (checksum (manual_digits p) 1)) INVERSE 0). pose proof (checksum_closes _ Hmd) as Hsum. fold x in Hsum.
  assert (digit x) as Hx.
  { apply D_inverse. apply checksum_from_digit; [by apply digits_ok_rev|unfold digit; lia]. }
  rewrite decimal_eq by lia. fold x. clearbody x. change (digits10 1 x) with [48 + x mod 10].
  rewrite Z.mod_small by exact Hx.
  assert (digits_ok (manual_digits p ++ [48 + x])) as Hds.
  { apply Forall_app; split; [done|]. repeat constructor. unfold is_digit, between, digit in *. lia. }
  rewrite parse_digits; [|done|].
  2:{ rewrite E, !length_app, !length_digits10. unfold rest. destruct vid; rewrite ?length_app, ?length_digits10; cbn; lia. }
  f_equal. rewrite E, <- !app_assoc in *.
  assert (0 <= discriminator p / 256 / 4 <= 3) as Ht.
  { split; [repeat apply Z.div_pos; lia|]. apply Z.lt_succ_r. repeat (apply Z.div_lt_upper_bound; [lia|]). lia. }
  assert (0 <= (discriminator p / 256) mod 4 <= 3) by (pose proof (Z.mod_pos_bound (discriminator p / 256) 4); lia).
  pose proof (Z.mod_pos_bound (passcode p) 16384 ltac:(lia)).
  assert (0 <= a <= 7) as Ha by (destruct vid; lia).
  assert (0 <= c < 8192) as Hcr by (subst c; split; [apply Z.div_pos; lia|apply Z.div_lt_upper_bound; lia]).
  assert (b mod 16384 + c * 16384 = passcode p) as Hpc.
  { rewrite Eb, Z_mod_plus_full, Zmod_mod, Ec. pose proof (Z.div_mod (passcode p) 16384). lia. }
  assert (a mod 4 * 1024 + b / 16384 * 256 = discriminator p / 256 * 256) as Hdv.
  { rewrite Eb, Z.div_add, (Z.div_small (passcode p mod 16384)) by lia.
    assert (a mod 4 = discriminator p / 256 / 4) as ->.
    { rewrite Ea. symmetry. apply (Z.mod_unique _ 4 (if vid then 1 else 0)); destruct vid; lia. }
    pose proof (Z.div_mod (discriminator p / 256) 4). lia. }
  destruct (manual_parse_fields a b c rest (48 + x) Ha ltac:(lia) Hcr Hds Hsum) as [Hplain Hcustom]; [by rewrite Hpc|].
  rewrite Hpc, Hdv in *. unfold manual_view. fold vid. destruct vid.
  - apply Hcustom; [lia|done|..]; [pose proof (po_vendor _ Hok)|pose proof (po_product _ Hok)]; lia.
  - apply Hplain; [lia|done].
Qed.

Lemma sample_payload_ok : payload_ok sample.
Proof. split; cbn; try constructor; unfold U32_MAX; lia. Qed.

Lemma manual_roundtrip_witness :
  manual sample = Some (Ok "34970112332"%string)
  /\ parse "34970112332" = Some (Ok (mk_payload 0 0 0 0 0 3840 true 20202021 [])).
Proof.
  assert (manual sample = Some (Ok "34970112332"%string)) as E by (vm_compute; reflexivity).
  split; [exact E|]. rewrite (manual_roundtrip sample _ sample_payload_ok E). reflexivity.
Defined.

(** ** QR codes round trip: bits *)

(** Bit [j] of a byte string, least significant bit of the first byte first. *)
Definition bit (l : list Z) (j : nat) : bool := Z.testbit (nth (j / 8) l 0) (Z.of_nat (j mod 8)).

Definition bits_of (v : Z) (n : nat) : list bool := map (fun i => Z.testbit v (Z.of_nat i)) (seq 0 n).

Lemma land_1 z k : Z.land (Z.shiftr z k) 1 = Z.b2z (Z.testbit z k).
Proof.
  change 1 with (Z.ones 1). rewrite Z.land_ones by lia. change (2 ^ 1) with 2.
  by rewrite <- Z.bit0_mod, Z.shiftr_spec, Z.add_0_l by lia.
Qed.

Lemma nth_alter (f : Z -> Z) i j l :
  nth j (alter f i l) 0 = if decide (j = i /\ (i < length l)%nat) then f (nth j l 0) else nth j l 0.
Proof.
  rewrite !nth_lookup. case_decide as H.
  - destruct H as [-> Hi]. rewrite list_lookup_alter_eq. destruct (lookup_lt_is_Some_2 l i Hi) as [x ->]. done.
  - destruct (decide (j = i)) as [->|Hn]; [|by rewrite list_lookup_alter_ne].
    rewrite list_lookup_alter_eq, (proj2 (lookup_ge_None l i)); [done|]. lia.
Qed.

Lemma testbit_b2z b k n : 0 <= k -> 0 <= n -> Z.testbit (Z.shiftl (Z.b2z b) k) n = b && (n =? k).
Proof.
  intros Hk Hn. rewrite Z.shiftl_spec by done. destruct (Z.eqb_spec n k) as [->|Hne].
  - rewrite Z.sub_diag. destruct b; reflexivity.
  - rewrite andb_false_r. destruct (Z.ltb_spec n k); [apply Z.testbit_neg_r; lia|].
    destruct b; cbn [Z.b2z]; [|apply Z.bits_0]. apply (testbit_high 1); [cbn|]; lia.
Qed.

Lemma bit_set_bit l i b j :
  (i / 8 < length l)%nat -> bit (set_bit l i (Z.b2z b)) j = bit l j || (b && (j =? i)%nat).
Proof.
  intros Hi. unfold bit, set_bit. rewrite nth_alter. case_decide as H.
  - destruct H as [E _]. rewrite Z.lor_spec, testbit_b2z by lia. f_equal. f_equal.
    pose proof (Nat.div_mod_eq j 8). pose proof (Nat.div_mod_eq i 8). rewrite E in *.
    destruct (Z.eqb_spec (Z.of_nat (j mod 8)) (Z.of_nat (i mod 8))), (Nat.eqb_spec j i); try done; lia.
  - destruct (Nat.eqb_spec j i) as [->|]; [exfalso; auto|]. by rewrite andb_false_r, orb_false_r.
Qed.

Lemma length_set_bit l i b : length (set_bit l i b) = length l.
Proof. unfold set_bit. apply length_alter. Qed.

(** What a field writes: its bits, one after the other. *)
Lemma pack_field_spec v n : forall k l i,
  (i + n <= 8 * length l)%nat ->
  let '(l', i') := pack_field v k n (l, i) in
  i' = (i + n)%nat /\ length l' = length l
  /\ forall j, bit l' j = bit l j || ((i <=? j)%nat && (j <? i + n)%nat && Z.testbit v (Z.of_nat (k + (j - i)))).
Proof.
  induction n as [|n IH]; intros k l i Hl; cbn [pack_field].
  - split; [lia|]. split; [done|]. intros j.
    replace ((i <=? j)%nat && (j <? i + 0)%nat) with false; [by rewrite orb_false_r|].
    destruct (Nat.leb_spec i j), (Nat.ltb_spec j (i + 0)); try done; lia.
  - rewrite land_1. assert (i / 8 < length l)%nat as Hi by (apply Nat.Div0.div_lt_upper_bound; lia).
    specialize (IH (S k) (set_bit l i (Z.b2z (Z.testbit v (Z.of_nat k)))) (S i)). rewrite length_set_bit in IH.
    destruct (pack_field v (S k) n _) as [l' i']. destruct (IH ltac:(lia)) as (-> & Hl' & Hb).
    split; [lia|]. split; [done|]. intros j. rewrite Hb, bit_set_bit by done. rewrite <- orb_assoc. f_equal.
    destruct (Nat.eqb_spec j i) as [->|Hne].
    + rewrite (proj2 (Nat.leb_gt (S i) i)) by lia. rewrite Nat.leb_refl, (proj2 (Nat.ltb_lt i (i + S n))) by lia.
      rewrite Nat.sub_diag, Nat.add_0_r. cbn [andb]. by rewrite andb_true_r, orb_false_r.
    + rewrite andb_false_r. cbn [orb]. destruct (Nat.leb_spec i j).
      * rewrite (proj2 (Nat.leb_le (S i) j)) by lia. replace (S i + n)%nat with (i + S n)%nat by lia.
        by replace (S k + (j - S i))%nat with (k + (j - i))%nat by lia.
      * by rewrite (proj2 (Nat.leb_gt (S i) j)) by lia.
Qed.

(** The bits of several fields. *)
Definition bits_of_fields (fs : list (Z * nat)) : list bool := concat (map (fun '(v, n) => bits_of v n) fs).

Lemma length_bits_of v n : length (bits_of v n) = n.
Proof. unfold bits_of. by rewrite length_map, length_seq. Qed.

Lemma nth_bits_of v n j : nth j (bits_of v n) false = (j <? n)%nat && Z.testbit v (Z.of_nat j).
Proof.
  unfold bits_of. destruct (Nat.ltb_spec j n).
  - rewrite (nth_indep _ false (Z.testbit v (Z.of_nat 0))) by (rewrite length_map, length_seq; lia).
    rewrite (map_nth (fun i => Z.testbit v (Z.of_nat i))), seq_nth by lia. done.
  - rewrite nth_overflow; [done|]. rewrite length_map, length_seq. lia.
Qed.

Lemma pack_fields fs : forall l i,
  (i + length (bits_of_fields fs) <= 8 * length l)%nat ->
  let '(l', _) := fold_left (fun s '(v, n) => pack_field v 0 n s) fs (l, i) in
  length l' = length l
  /\ forall j, bit l' j = bit l j || ((i <=? j)%nat && nth (j - i) (bits_of_fields fs) false).
Proof.
  induction fs as [|[v n] fs IH]; intros l i Hl; cbn [fold_left].
  - split; [done|]. intros j. destruct (j - i)%nat; cbn; by rewrite andb_false_r, orb_false_r.
  - unfold bits_of_fields in *. cbn [map concat] in *. rewrite length_app, length_bits_of in Hl.
    pose proof (pack_field_spec v n 0 l i ltac:(lia)) as H. destruct (pack_field v 0 n (l, i)) as [l1 i1].
    destruct H as (-> & Hl1 & Hb1). specialize (IH l1 (i + n)%nat). rewrite Hl1 in IH.
    destruct (fold_left _ fs _) as [l' i']. destruct (IH ltac:(lia)) as [Hl' Hb']. split; [congruence|].
    intros j. rewrite Hb', Hb1, <- orb_assoc. f_equal.
    destruct (Nat.leb_spec i j); cbn [andb]; [|rewrite (proj2 (Nat.leb_gt (i + n) j)) by lia; done].
    destruct (Nat.ltb_spec j (i + n)); cbn [andb].
    + rewrite (proj2 (Nat.leb_gt (i + n) j)) by lia. cbn [andb]. rewrite orb_false_r, app_nth1
        by (rewrite length_bits_of; lia). rewrite nth_bits_of, (proj2 (Nat.ltb_lt (j - i) n)) by lia. done.
    + rewrite (proj2 (Nat.leb_le (i + n) j)) by lia. cbn [andb orb]. rewrite app_nth2, length_bits_of
        by (rewrite length_bits_of; lia). f_equal. lia.
Qed.

Lemma read_bits_spec l n : forall at_ i v k,
  0 <= v < 2 ^ Z.of_nat i ->
  Z.testbit (read_bits l at_ i n v) (Z.of_nat k)
  = if (k <? i)%nat then Z.testbit v (Z.of_nat k) else (k <? i + n)%nat && bit l (at_ + (k - i)).
Proof.
  induction n as [|n IH]; intros at_ i v k Hv; cbn [read_bits].
  - destruct (Nat.ltb_spec k i); [done|]. rewrite (proj2 (Nat.ltb_ge k (i + 0))) by lia. cbn [andb].
    apply (testbit_high (Z.of_nat i)); [done|lia].
  - rewrite land_1. fold (bit l at_). rewrite IH.
    + rewrite Z.lor_spec, testbit_b2z by lia. destruct (Nat.ltb_spec k i).
      * rewrite (proj2 (Nat.ltb_lt k (S i))) by lia. rewrite (proj2 (Z.eqb_neq (Z.of_nat k) (Z.of_nat i))) by lia.
        by rewrite andb_false_r, orb_false_r.
      * destruct (Nat.ltb_spec k (S i)).
        -- assert (k = i) as -> by lia. rewrite Z.eqb_refl, andb_true_r, Nat.sub_diag, Nat.add_0_r.
           rewrite (proj2 (Nat.ltb_lt i (i + S n))) by lia. rewrite (testbit_high (Z.of_nat i)) by lia. done.
        -- replace (S i + n)%nat with (i + S n)%nat by lia. f_equal. f_equal. lia.
    + rewrite Nat2Z.inj_succ, Z.pow_succ_r by lia.
      pose proof (lor_bound (Z.of_nat i + 1) v (Z.shiftl (Z.b2z (bit l at_)) (Z.of_nat i))) as Hb.
      rewrite Z.pow_add_r, Z.shiftl_mul_pow2 in Hb by lia. change (2 ^ 1) with 2 in Hb.
      rewrite Z.shiftl_mul_pow2 by lia. rewrite (Z.mul_comm 2). apply Hb; [lia|].
      destruct (bit l at_); cbn [Z.b2z]; lia.
Qed.

(** Reading a field where it was packed. *)
Lemma field_at_bits l at_ n v :
  0 <= v < 2 ^ Z.of_nat n -> (forall k, (k < n)%nat -> bit l (at_ + k) = Z.testbit v (Z.of_nat k)) ->
  field_at l at_ n = v.
Proof.
  intros Hv Hb. unfold field_at. apply Z.bits_inj'. intros k Hk. rewrite <- (Z2Nat.id k) by done.
  rewrite read_bits_spec by (cbn; lia). rewrite (proj2 (Nat.ltb_ge (Z.to_nat k) 0)) by lia. rewrite Nat.sub_0_r, Nat.add_0_l.
  destruct (Nat.ltb_spec (Z.to_nat k) n); cbn [andb]; [by apply Hb|]. symmetry.
  apply (testbit_high (Z.of_nat n)); [done|lia].
Qed.

Lemma set_bit_bytes l i b : Forall is_byte l -> Forall is_byte (set_bit l i (Z.b2z b)).
Proof.
  intros H. apply Forall_alter; [done|]. intros x _ Hx. unfold is_byte in *.
  assert (0 <= Z.of_nat (i mod 8) < 8) as Hk by (pose proof (Nat.mod_upper_bound i 8); lia).
  change 256 with (2 ^ 8). apply lor_bound; [change (2 ^ 8) with 256; lia|]. rewrite Z.shiftl_mul_pow2 by lia.
  assert (0 < 2 ^ Z.of_nat (i mod 8) <= 2 ^ 7) by (split; [lia|apply Z.pow_le_mono_r; lia]).
  change (2 ^ 7) with 128 in *. change (2 ^ 8) with 256. destruct b; cbn [Z.b2z]; lia.
Qed.

Lemma pack_field_bytes v n : forall k l i, Forall is_byte l -> Forall is_byte (pack_field v k n (l, i)).1.
Proof.
  induction n as [|n IH]; intros k l i Hl; cbn [pack_field]; [done|]. rewrite land_1. apply IH.
  by apply set_bit_bytes.
Qed.

Lemma pack_bytes fs : Forall is_byte (pack fs).
Proof.
  assert (forall l i, Forall is_byte l -> Forall is_byte (fold_left (fun s '(v, n) => pack_field v 0 n s) fs (l, i)).1) as H.
  { induction fs as [|[v n] fs IH]; intros l i Hl; [done|]. cbn [fold_left].
    pose proof (pack_field_bytes v n 0 l i Hl) as H. destruct (pack_field v 0 n (l, i)) as [l' i']. by apply IH. }
  apply H. repeat constructor; unfold is_byte; lia.
Qed.

Lemma pack_bits p : length (pack (fields p)) = 11%nat /\ forall j, bit (pack (fields p)) j = nth j (bits_of_fields (fields p)) false.
Proof.
  assert (length (bits_of_fields (fields p)) = 88%nat) as Hl
    by (unfold bits_of_fields, fields; cbn [map concat]; by rewrite !length_app, !length_bits_of).
  pose proof (pack_fields (fields p) (repeat 0 11) 0) as H. rewrite Hl in H. unfold pack.
  destruct (fold_left _ (fields p) _) as [l i]. destruct (H ltac:(cbn; lia)) as [Hn Hb]. split; [exact Hn|].
  intros j. cbn [fst]. rewrite Hb. cbn [andb]. rewrite Nat.sub_0_r. cbn [Nat.leb andb].
  assert (bit (repeat 0 11) j = false) as ->; [|done]. unfold bit.
  assert (forall k, nth k (repeat 0 11) 0 = 0) as -> by (intros k; do 12 (destruct k as [|k]; [done|]); done).
  apply Z.bits_0.
Qed.

Lemma bit_app l k j : (j < 8 * length l)%nat -> bit (l ++ k) j = bit l j.
Proof. intros H. unfold bit. rewrite app_nth1; [done|]. apply Nat.Div0.div_lt_upper_bound. lia. Qed.

(** The field after the bits [before] is read from where it was packed. *)
Lemma field_back p ext before v n after_ :
  bits_of_fields (fields p) = before ++ bits_of v n ++ after_ -> 0 <= v < 2 ^ Z.of_nat n ->
  field_at (pack (fields p) ++ ext) (length before) n = v.
Proof.
  intros E Hv. destruct (pack_bits p) as [Hl Hb]. apply field_at_bits; [done|]. intros k Hk.
  assert (length (bits_of_fields (fields p)) = 88%nat) as H88
    by (unfold bits_of_fields, fields; cbn [map concat]; by rewrite !length_app, !length_bits_of).
  rewrite E, !length_app, length_bits_of in H88.
  rewrite bit_app by lia. rewrite Hb, E, app_nth2 by lia. rewrite Nat.add_comm, Nat.add_sub.
  rewrite app_nth1 by (rewrite length_bits_of; lia). rewrite nth_bits_of, (proj2 (Nat.ltb_lt k n)) by lia. done.
Qed.

Lemma fields_back p ext :
  payload_ok p -> version p = 0 -> flow p <= 2 -> discriminator p <= 4095 -> passcode p < 2 ^ 27 ->
  let l := pack (fields p) ++ ext in
  field_at l 0 3 = version p /\ field_at l 3 16 = vendor p /\ field_at l 19 16 = product p
  /\ field_at l 35 2 = flow p /\ field_at l 37 8 = discovery p /\ field_at l 45 12 = discriminator p
  /\ field_at l 57 27 = passcode p /\ field_at l 84 4 = 0.
Proof.
  intros [Hv Hve Hp Hf Hdi Hd Hc _] H0 H2 H4 H27 l. change (2 ^ 27) with 134217728 in H27.
  set (bs := fun fs => bits_of_fields (take fs (fields p))).
  assert (forall i v n, fields p !! i = Some (v, n) -> 0 <= v < 2 ^ Z.of_nat n -> field_at l (length (bs i)) n = v) as H.
  { intros i v n Hi Hr. apply (field_back p ext (bs i) v n (bits_of_fields (drop (S i) (fields p)))); [|done].
    unfold bs, bits_of_fields. rewrite <- (take_drop_middle (fields p) i (v, n) Hi) at 1.
    by rewrite map_app, concat_app. }
  assert (forall i k, length (bs i) = k -> length (bs i) = k) as _ by done.
  repeat split;
    [apply (H 0%nat _ 3%nat)|apply (H 1%nat _ 16%nat)|apply (H 2%nat _ 16%nat)|apply (H 3%nat _ 2%nat)
    |apply (H 4%nat _ 8%nat)|apply (H 5%nat _ 12%nat)|apply (H 6%nat _ 27%nat)|apply (H 7%nat _ 4%nat)];
    try reflexivity; cbn; lia.
Qed.

(** ** Base 38 *)

Lemma alphabet_table :
  forallb (fun i => match position (nth (Z.to_nat i) ALPHABET 0) ALPHABET 0 with Some j => j =? i | None => false end
                    && between 45 (nth (Z.to_nat i) ALPHABET 0) 90)
    (map Z.of_nat (seq 0 38)) = true.
Proof. vm_compute. reflexivity. Qed.

Lemma alphabet_ok i : 0 <= i < 38 ->
  position (nth (Z.to_nat i) ALPHABET 0) ALPHABET 0 = Some i /\ plain (nth (Z.to_nat i) ALPHABET 0).
Proof.
  intros Hi. pose proof alphabet_table as H. rewrite forallb_forall in H.
  assert (In i (map Z.of_nat (seq 0 38))) as Hin by (rewrite <- (Z2Nat.id i) by lia; apply in_map, in_seq; lia).
  specialize (H _ Hin). cbv beta in H. apply andb_true_iff in H as [H1 H2]. unfold plain, between in *.
  destruct (position _ ALPHABET 0) as [j|]; [|done]. apply Z.eqb_eq in H1 as ->. split; [done|lia].
Qed.

Lemma unbase38_app l k v : unbase38 (l ++ k) v = (x ← unbase38 l v; unbase38 k x).
Proof.
  revert v. induction l as [|c l IH]; intros v; cbn [app unbase38]; [done|].
  destruct (ok_or _ _) as [i|]; cbn [mbind result_bind]; [apply IH|done].
Qed.

Lemma unbase38_base38 n v : 0 <= v < 38 ^ Z.of_nat n -> unbase38 (rev (base38 n v)) 0 = Ok v.
Proof.
  revert v. induction n as [|n IH]; intros v Hv; [cbn in *; f_equal; lia|].
  cbn [base38 rev]. rewrite unbase38_app. rewrite Nat2Z.inj_succ, Z.pow_succ_r in Hv by lia.
  rewrite IH by (split; [apply Z.div_pos; lia|apply Z.div_lt_upper_bound; lia]). cbn [mbind result_bind unbase38].
  destruct (alphabet_ok (v mod 38)) as [-> _]; [apply Z.mod_pos_bound; lia|]. cbn [ok_or mbind result_bind].
  pose proof (Z.div_mod v 38). f_equal. lia.
Qed.

Lemma base38_plain n v : Forall plain (base38 n v).
Proof.
  revert v. induction n as [|n IH]; intros v; constructor; [|apply IH]. apply alphabet_ok, Z.mod_pos_bound. lia.
Qed.

Lemma length_base38 n v : length (base38 n v) = n.
Proof. revert v. induction n; intros v; cbn; auto. Qed.

(** A group of one to three bytes. *)
Definition group_ok (b : list Z) : Prop := Forall is_byte b /\ (1 <= length b <= 3)%nat.

Lemma chunk_value_le b : group_ok b -> chunk_value b = le_val b.
Proof.
  intros [Hb Hl]. unfold chunk_value.
  destruct b as [|x [|y [|z [|w b]]]]; cbn in Hl; try lia;
    repeat match goal with H : Forall _ (_ :: _) |- _ => apply Forall_cons in H as [? H] end;
    unfold is_byte in *; cbn [fold_left fst le_val Z.mul Z.add]; rewrite Z.shiftl_0_r, Z.lor_0_l; [lia|..].
  - change ((0 + 1) * 8) with 8. rewrite (lor_shiftl x y 8) by (cbn; lia). change (2 ^ 8) with 256. lia.
  - change ((0 + 1) * 8) with 8. change ((0 + 1 + 1) * 8) with 16.
    rewrite (lor_shiftl x y 8) by (cbn; lia). rewrite (lor_shiftl _ z 16); [|lia|].
    + change (2 ^ 8) with 256. change (2 ^ 16) with 65536. lia.
    + change (2 ^ 8) with 256. change (2 ^ 16) with 65536. lia.
Qed.

Definition chars_of (b : list Z) : list Z := base38 (chunk_chars (length b)) (chunk_value b).
Definition text_of (bytes : list Z) : list Z := concat (map chars_of (chunks 3 bytes)).

Lemma length_chars_of b : group_ok b -> (length (chars_of b) = chunk_chars (length b)) /\ (2 <= length (chars_of b) <= 5)%nat.
Proof.
  intros [_ Hl]. unfold chars_of. rewrite length_base38. split; [done|].
  destruct (length b) as [|[|[|[|]]]]; cbn; lia.
Qed.

(** The groups of five characters are the groups of three bytes. *)
Lemma chunks_text n : forall bytes, (length bytes <= n)%nat -> Forall is_byte bytes ->
  chunks 5 (text_of bytes) = map chars_of (chunks 3 bytes) /\ Forall group_ok (chunks 3 bytes) /\ concat (chunks 3 bytes) = bytes.
Proof.
  induction n as [|n IH]; intros bytes Hn Hb.
  - destruct bytes; [|cbn in Hn; lia]. repeat split. constructor.
  - destruct (decide (bytes = [])) as [->|Hne]; [repeat split; constructor|].
    unfold text_of. rewrite (chunks_step 3 bytes) by (done || lia). cbn [map concat].
    fold (text_of (drop 3 bytes)). assert (1 <= length bytes)%nat as Hl by (destruct bytes; [done|cbn; lia]).
    destruct (IH (drop 3 bytes)) as (Hc & Hg & Hk); [rewrite length_drop; lia|by apply Forall_drop|].
    assert (group_ok (take 3 bytes)) as Hg0 by (split; [by apply Forall_take|rewrite length_take; lia]).
    destruct (length_chars_of _ Hg0) as [Hlc Hr].
    rewrite Hk, take_drop. split; [|split; [by constructor|done]].
    rewrite chunks_step; [|lia|destruct (chars_of (take 3 bytes)); [cbn in Hr; lia|done]].
    destruct (decide (3 <= length bytes)%nat) as [H3|H3].
    + rewrite length_take, Nat.min_l in Hlc by lia. cbn [chunk_chars] in Hlc.
      rewrite <- Hlc at 1 3. rewrite take_app_length, drop_app_length. by rewrite Hc.
    + rewrite (drop_ge bytes) by lia. unfold text_of, chunks. cbn [length chunks_fuel map concat].
      rewrite app_nil_r, take_ge, drop_ge by lia. done.
Qed.

Lemma chars_bytes_of b : group_ok b -> chars_bytes (length (chars_of b)) = Some (length b).
Proof.
  intros Hg. destruct (length_chars_of _ Hg) as [-> _]. destruct Hg as [_ Hl].
  destruct (length b) as [|[|[|[|]]]]; cbn; (done || lia).
Qed.

Lemma le_bytes_le_val b : Forall is_byte b -> le_bytes (length b) (le_val b) = b.
Proof.
  intros Hb. apply le_val_inj; [apply le_bytes_is_byte|done|apply length_le_bytes|].
  apply le_val_le_bytes. by apply le_val_bound.
Qed.

Lemma qr_bytes_groups gs : forall acc,
  Forall group_ok gs -> within (acc ++ concat gs) -> qr_bytes (map chars_of gs) acc = Ok (acc ++ concat gs).
Proof.
  induction gs as [|b gs IH]; intros acc Hg Hw; cbn [map concat qr_bytes]; [by rewrite app_nil_r|].
  apply Forall_cons in Hg as [Hb Hg]. rewrite chars_bytes_of by done. cbn [ok_or mbind result_bind].
  pose proof Hb as [Hby Hl]. pose proof (le_val_bound b Hby) as Hv.
  assert (256 ^ Z.of_nat (length b) <= 38 ^ Z.of_nat (chunk_chars (length b))) as Hfit
    by (destruct (length b) as [|[|[|[|]]]]; cbn; lia).
  assert (unbase38 (rev (chars_of b)) 0 = Ok (chunk_value b)) as ->
    by (apply unbase38_base38; rewrite chunk_value_le by done; lia).
  cbn [mbind result_bind]. rewrite chunk_value_le by done.
  assert (Z.shiftl 1 (Z.of_nat (length b) * 8) = 256 ^ Z.of_nat (length b)) as ->
    by (destruct (length b) as [|[|[|[|]]]]; cbn; (done || lia)).
  destruct (Z.leb_spec (256 ^ Z.of_nat (length b)) (le_val b)); [lia|].
  rewrite take_le_bytes, le_bytes_le_val by (done || lia). rewrite append_fits.
  - cbn [mbind result_bind]. rewrite IH; [by rewrite <- app_assoc|done|]. by rewrite <- app_assoc.
  - unfold within in Hw. cbn [concat] in Hw. rewrite app_assoc, length_app in Hw. lia.
Qed.

Lemma text_plain bytes : Forall plain (text_of bytes).
Proof.
  unfold text_of. apply Forall_concat, Forall_map. apply Forall_forall. intros b _. apply base38_plain.
Qed.

(** A QR code that the reader does not find too long is read back as the same payload,
    extensions included. *)
Theorem qr_roundtrip p t :
  payload_ok p -> qr p = Some (Ok t) -> len t <= 8192 -> parse t = Some (Ok p).
Proof.
  intros Hok. unfold qr. destruct (validate p) as [[[]|]|] eqn:Ev; cbn [answer_bind lift]; [|done|done].
  destruct (short p) eqn:Es; [done|]. destruct (pack_bits p) as [H11 _].
  rewrite copy_fits by (rewrite H11; unfold MAX; lia). cbn [mbind result_bind].
  destruct (append _ _) as [bytes|] eqn:Ea; cbn [answer_bind]; [|done].
  change (lift (Ok bytes)) with (Some (@Ok Error _ bytes)). cbn [answer_bind].
  apply append_Ok in Ea as [-> Hm]. set (bytes := pack (fields p) ++ extensions p) in *.
  intros Ht%answer_inj Hl.
  change (concat (map (fun b => base38 (chunk_chars (length b)) (chunk_value b)) (chunks 3 bytes))) with (text_of bytes) in Ht.
  change (as_bytes "MT:") with [77; 84; 58] in Ht. subst t.
  assert (Forall plain ([77; 84; 58] ++ text_of bytes)) as Hp.
  { rewrite Forall_app. split; [repeat constructor; unfold plain; lia|apply text_plain]. }
  assert (Forall is_byte bytes) as Hb by (apply Forall_app; split; [apply pack_bytes|apply (po_extensions _ Hok)]).
  destruct (chunks_text _ bytes (le_n _) Hb) as (Hc & Hg & Hk).
  assert (within bytes) as Hw.
  { destruct Hm as [Hm|Hm]; [|exact Hm]. unfold within, bytes, MAX. rewrite length_app, H11. lia. }
  unfold parse. rewrite trim_plain by done. destruct (Z.ltb_spec 8192 (len (of_bytes ([77; 84; 58] ++ text_of bytes)))); [lia|].
  rewrite plain_bytes by done. rewrite bool_decide_eq_true_2 by reflexivity.
  change (drop 3 ([77; 84; 58] ++ text_of bytes)) with (text_of bytes). unfold qr_parse.
  rewrite Hc, (qr_bytes_groups _ [] Hg) by (rewrite Hk; exact Hw). cbn [answer_bind lift app]. rewrite Hk.
  destruct (Nat.ltb_spec (length bytes) 11) as [Hsh|_]; [unfold bytes in Hsh; rewrite length_app, H11 in Hsh; lia|].
  pose proof (validate_Ok _ Ev) as (_ & H27 & H0 & H2 & H4).
  pose proof (fields_back p (extensions p) Hok H0 H2 H4 H27) as Hf. cbv zeta in Hf. fold bytes in Hf.
  destruct Hf as (-> & -> & -> & -> & -> & -> & -> & ->).
  cbn [Z.eqb negb]. unfold bytes at 1. rewrite <- H11, drop_app_length.
  rewrite copy_fits by (unfold within, bytes in Hw; rewrite length_app in Hw; lia). cbn [answer_bind lift].
  destruct p as [a b c d e f g h i]. cbn [short version vendor product flow discovery discriminator passcode extensions] in *.
  subst g. rewrite Ev. reflexivity.
Qed.

Lemma qr_roundtrip_witness :
  qr sample = Some (Ok "MT:-24J0AFN00KA0648G00"%string) /\ parse "MT:-24J0AFN00KA0648G00" = Some (Ok sample).
Proof.
  assert (qr sample = Some (Ok "MT:-24J0AFN00KA0648G00"%string)) as E by (vm_compute; reflexivity).
  split; [exact E|]. apply (qr_roundtrip sample _ sample_payload_ok E). vm_compute. discriminate.
Defined.
