(* ===== verification/Im.v ===== *)
(** * Im: the interaction model of Matter

    Models [plugins/matter/src/im.rs]: the paths, the requests (read, subscribe, invoke, timed,
    write, status) and the answers (reports, results of commands, statuses of writes), written
    and read as TLV, and that a report and the results of commands are read as they were written. *)

From Stdlib Require Import ZArith Lia Ascii String.
From S2P Require Import Prelude Text Errors Tlv TlvOk.
From S2P Require Value Templates.

Local Open Scope Z_scope.

(** A range of [None] is a wildcard. *)
Record AttributePath : Type := mk_attribute_path {
  ap_endpoint : option Z;
  ap_cluster : option Z;
  ap_attribute : option Z;
  ap_list_index : option (option Z)
}.

Record EventPath : Type := mk_event_path {
  ep_node : option Z;
  ep_endpoint : option Z;
  ep_cluster : option Z;
  ep_event : option Z;
  ep_urgent : option bool
}.

Record CommandPath : Type := mk_command_path { cp_endpoint : Z; cp_cluster : Z; cp_command : Z }.

#[export] Instance AttributePath_eq_dec : EqDecision AttributePath.
Proof. solve_decision. Defined.
#[export] Instance CommandPath_eq_dec : EqDecision CommandPath.
Proof. solve_decision. Defined.

Definition U8 : Z := 255.
Definition U16 : Z := 65535.

(** ** Fields of a tree *)

(** [optional::<T>], with the largest value of [T] *)
Definition optional (max : Z) (n : Node) (tag : Z) : Result (option Z) :=
  match n_value <$> get n tag with
  | None => Ok None
  | Some (Uint v) => if v <=? max then Ok (Some v) else Err (Invalid "IM unsigned field overflows")
  | Some _ => Err (Invalid "IM field is not unsigned")
  end.

Definition im_uint (max : Z) (n : Node) (tag : Z) : Result Z :=
  o ← optional max n tag; ok_or o (Invalid "missing IM unsigned field").

Definition flag (n : Node) (tag : Z) : Result (option bool) :=
  match n_value <$> get n tag with
  | None => Ok None
  | Some (VBool b) => Ok (Some b)
  | Some _ => Err (Invalid "IM flag is not boolean")
  end.

(** The three kinds of container are the only values the code asks for. *)
Definition im_kind (n : Node) (wanted : Value) : Result unit :=
  match n_value n, wanted with
  | Structure, Structure | VArray, VArray | VList, VList => Ok tt
  | _, _ => Err (Invalid "unexpected IM container type")
  end.

Definition im_take (n : Node) (tag : Z) : Result (Node * Node) :=
  ok_or (take_field n tag) (Invalid "missing IM field").

Definition child (n : Node) (tag : Z) : Result Node := ok_or (get n tag) (Invalid "missing IM field").

(** [Node::parse]; the fuel is always enough ([Node_parse_answers]). *)
Definition Node_parse (data : list Z) : Result Node :=
  default (Err (Invalid "out of fuel")) (parse data).

Lemma Node_parse_answers data : Forall is_byte data -> parse data = Some (Node_parse data).
Proof. intros (a & E & _)%accepted_tree_is_well_formed. unfold Node_parse. by rewrite E. Qed.

(** [root], once the bytes are a tree. *)
Definition root_of (n : Node) : Result Node :=
  _ ← im_kind n Structure;
  if negb (bool_decide (n_tag n = Anonymous)) then Err (Invalid "IM root must be anonymous")
  else _ ← optional U8 n 255; Ok n.

Definition root (data : list Z) : Result Node := n ← Node_parse data; root_of n.

(** ** Writing *)

(** A step of the writer, and one after another. *)
Definition Step : Type := Writer -> Result Writer.
Definition andthen (f g : Step) : Step := fun w => w ← f w; g w.
Definition skip : Step := fun w => Ok w.
Definition check (r : Result unit) : Step := fun w => _ ← r; Ok w.

(** [w.start(..)?; ...; w.end()?] *)
Definition block (tag : Tag) (v : Value) (body : Step) : Step :=
  fun w => w ← start tag v w; w ← body w; end_ w.

(** [for x in l { ... }] *)
Fixpoint each {A} (f : A -> Step) (l : list A) : Step :=
  match l with [] => skip | x :: l => andthen (f x) (each f l) end.

Declare Scope step_scope.
Delimit Scope step_scope with step.
Infix ">>" := andthen (at level 60, right associativity) : step_scope.
Local Open Scope step_scope.

(** [start], the fields, and [finish] *)
Definition message (body : Step) : Result (list Z) :=
  w ← block Anonymous Structure (body >> uint (Context 255) 1) Writer_default; finish w.

Definition opt (tag : Z) (value : option Z) : Step :=
  match value with Some v => uint (Context tag) v | None => skip end.

Definition flags (n : Node) (suppress more : Z) : Result (bool * bool) :=
  suppress ← flag n suppress;
  more ← flag n more;
  let suppress := default false suppress in
  let more := default false more in
  if suppress && more then Err (Invalid "IM cannot suppress a required chunk response")
  else Ok (suppress, more).

(** ** Paths *)

Fixpoint tags_differ (before l : list Node) : bool :=
  match l with
  | [] => true
  | c :: l => negb (has_tag (n_tag c) before) && tags_differ (before ++ [c]) l
  end.

Definition unique_path (n : Node) : Result unit :=
  if tags_differ [] (children n) then Ok tt else Err (Invalid "duplicate IM path field").

Definition AttributePath_new (endpoint cluster attribute : Z) : AttributePath :=
  mk_attribute_path (Some endpoint) (Some cluster) (Some attribute) None.

Definition concrete (p : AttributePath) : Result unit :=
  match ap_endpoint p, ap_cluster p, ap_attribute p with
  | Some _, Some _, Some _ => Ok tt
  | _, _, _ => Err (Invalid "IM requires a concrete attribute path")
  end.

Definition AttributePath_encode (p : AttributePath) (tag : Tag) : Step :=
  block tag VList
    (opt 2 (ap_endpoint p) >> opt 3 (ap_cluster p) >> opt 4 (ap_attribute p) >>
     match ap_list_index p with
     | Some (Some i) => uint (Context 5) i
     | Some None => null (Context 5)
     | None => skip
     end).

Definition AttributePath_parse (n : Node) : Result AttributePath :=
  _ ← im_kind n VList;
  _ ← unique_path n;
  endpoint ← optional U16 n 2;
  cluster ← optional U32_MAX n 3;
  attribute ← optional U32_MAX n 4;
  list_index ← (match n_value <$> get n 5 with
                | None => Ok None
                | Some VNull => Ok (Some None)
                | Some _ => i ← optional U16 n 5; Ok (Some i)
                end);
  Ok (mk_attribute_path endpoint cluster attribute list_index).

Definition EventPath_encode (p : EventPath) (tag : Tag) : Step :=
  block tag VList
    (opt 0 (ep_node p) >> opt 1 (ep_endpoint p) >> opt 2 (ep_cluster p) >> opt 3 (ep_event p) >>
     match ep_urgent p with Some v => boolean (Context 4) v | None => skip end).

Definition EventPath_parse (n : Node) : Result EventPath :=
  _ ← im_kind n VList;
  _ ← unique_path n;
  node ← optional U64_MAX n 0;
  endpoint ← optional U16 n 1;
  cluster ← optional U32_MAX n 2;
  event ← optional U32_MAX n 3;
  urgent ← flag n 4;
  Ok (mk_event_path node endpoint cluster event urgent).

Definition CommandPath_encode (p : CommandPath) (tag : Tag) : Step :=
  block tag VList
    (uint (Context 0) (cp_endpoint p) >> uint (Context 1) (cp_cluster p) >> uint (Context 2) (cp_command p)).

Definition CommandPath_parse (n : Node) : Result CommandPath :=
  _ ← im_kind n VList;
  _ ← unique_path n;
  endpoint ← im_uint U16 n 0;
  cluster ← im_uint U32_MAX n 1;
  command ← im_uint U32_MAX n 2;
  Ok (mk_command_path endpoint cluster command).

(** ** Statuses *)

Record Status : Type := mk_status { st_global : Z; st_cluster : option Z }.
Definition Status_default : Status := mk_status 0 None.

Definition Status_parse (n : Node) : Result Status :=
  _ ← im_kind n Structure;
  global ← im_uint U8 n 0;
  cluster ← optional U8 n 1;
  Ok (mk_status global cluster).

Definition Status_encode (s : Status) (tag : Tag) : Step :=
  block tag Structure (uint (Context 0) (st_global s) >> opt 1 (st_cluster s)).

(** [Status::result] *)
Definition Status_result (s : Status) : Result unit :=
  if st_global s =? 0 then Ok tt
  else t ← from_core (Templates.to_string (Value.value_uint (st_global s)));
       Err (Remote ("Matter IM status " ++ t)).

(** ** Requests *)

Definition bad_count (n : nat) : bool := (Z.of_nat n =? 0) || (256 <? Z.of_nat n).

(** [read] *)
Definition read_request (paths : list AttributePath) (fabric_filtered : bool) : Result (list Z) :=
  if bad_count (length paths) then Err (Invalid "IM read needs 1..256 paths")
  else message
    (block (Context 0) VArray (each (fun p => AttributePath_encode p Anonymous) paths) >>
     boolean (Context 3) fabric_filtered).

Record Subscription : Type := mk_subscription {
  su_attributes : list AttributePath;
  su_events : list EventPath;
  su_minimum : Z;
  su_maximum : Z;
  su_keep : bool;
  su_fabric_filtered : bool
}.

(** [if !l.is_empty() { ... }] *)
Definition unless_empty {A} (l : list A) (f : Step) : Step := match l with [] => skip | _ => f end.

Definition Subscription_encode (s : Subscription) : Result (list Z) :=
  if bad_count (length (su_attributes s) + length (su_events s))
     || (su_maximum s =? 0) || (su_maximum s <? su_minimum s)
  then Err (Invalid "invalid IM subscription paths or interval")
  else message
    (boolean (Context 0) (su_keep s) >>
     uint_width (Context 1) (su_minimum s) 2 >>
     uint_width (Context 2) (su_maximum s) 2 >>
     unless_empty (su_attributes s)
       (block (Context 3) VArray (each (fun p => AttributePath_encode p Anonymous) (su_attributes s))) >>
     unless_empty (su_events s)
       (block (Context 4) VArray (each (fun p => EventPath_encode p Anonymous) (su_events s))) >>
     boolean (Context 7) (su_fabric_filtered s)).

Record Command : Type := mk_im_command {
  cm_path : CommandPath;
  cm_fields : list Z;
  cm_reference : option Z
}.

(** [invoke] *)
Definition invoke_one (cmd : Command) : Step :=
  block Anonymous Structure
    (CommandPath_encode (cm_path cmd) (Context 0) >>
     (fun w => n ← Node_parse (cm_fields cmd); _ ← im_kind n Structure; node n (Context 1) w) >>
     opt 2 (cm_reference cmd)).

Definition invoke (commands : list Command) (timed : bool) : Result (list Z) :=
  if bad_count (length commands) then Err (Invalid "IM invoke needs 1..256 commands")
  else message
    (boolean (Context 0) false >>
     boolean (Context 1) timed >>
     block (Context 2) VArray (each invoke_one commands)).

(** [timed] *)
Definition timed_request (timeout : Z) : Result (list Z) :=
  if timeout =? 0 then Err (Invalid "IM timed request needs a nonzero timeout")
  else message (uint_width (Context 0) timeout 2).

Record Write : Type := mk_write { wr_path : AttributePath; wr_version : option Z; wr_value : list Z }.

(** [write] *)
Definition write_one (item : Write) : Step :=
  check (concrete (wr_path item)) >>
  block Anonymous Structure
    (opt 0 (wr_version item) >>
     AttributePath_encode (wr_path item) (Context 1) >>
     (fun w => n ← Node_parse (wr_value item); node n (Context 2) w)).

Definition write_request (writes : list Write) (timed : bool) : Result (list Z) :=
  if bad_count (length writes) then Err (Invalid "IM write needs 1..256 values")
  else message
    (boolean (Context 0) false >>
     boolean (Context 1) timed >>
     block (Context 2) VArray (each write_one writes)).

(** [status], [read_status], [subscribed] *)
Definition status_response (code : Z) : Result (list Z) := message (uint (Context 0) code).

Definition read_status (data : list Z) : Result Status :=
  n ← root data; global ← im_uint U8 n 0; Ok (mk_status global None).

Definition subscribed (data : list Z) : Result (Z * Z) :=
  n ← root data;
  id ← im_uint U32_MAX n 0;
  max ← im_uint U16 n 2;
  if max =? 0 then Err (Invalid "subscription maximum interval is zero") else Ok (id, max).

(** ** Reports *)

Record Attribute : Type := mk_attribute {
  at_path : AttributePath;
  at_version : option Z;
  at_value : option Node;
  at_status : option Status
}.

Record Event : Type := mk_event {
  ev_path : EventPath;
  ev_number : Z;
  ev_priority : Z;
  ev_timestamp : option (Z * Z);
  ev_value : option Node;
  ev_status : option Status
}.

Record Report : Type := mk_report {
  rp_subscription : option Z;
  rp_attributes : list Attribute;
  rp_events : list Event;
  rp_suppress : bool;
  rp_more : bool
}.

Definition has (n : Node) (tag : Z) : bool := match get n tag with Some _ => true | None => false end.

(** [attribute] *)
Definition attribute (raw : Node) : Result Attribute :=
  _ ← im_kind raw Structure;
  if has raw 0 && has raw 1 then Err (Invalid "attribute report has both data and status")
  else match take_field raw 0 with
  | Some (s, _) =>
      _ ← im_kind s Structure;
      p ← child s 0;
      path ← AttributePath_parse p;
      c ← child s 1;
      status ← Status_parse c;
      Ok (mk_attribute path None None (Some status))
  | None =>
      '(data, _) ← im_take raw 1;
      _ ← im_kind data Structure;
      p ← child data 1;
      path ← AttributePath_parse p;
      version ← optional U32_MAX data 0;
      '(value, _) ← im_take data 2;
      Ok (mk_attribute path version (Some value) None)
  end.

(** The loop over the tags of a time. *)
Fixpoint timestamps (data : Node) (tags : list Z) (found : option (Z * Z)) : Result (option (Z * Z)) :=
  match tags with
  | [] => Ok found
  | tag :: tags =>
      o ← optional U64_MAX data tag;
      match o with
      | Some n =>
          match found with
          | Some _ => Err (Invalid "event has multiple timestamps")
          | None => timestamps data tags (Some (tag, n))
          end
      | None => timestamps data tags found
      end
  end.

(** [event] *)
Definition event (raw : Node) : Result Event :=
  _ ← im_kind raw Structure;
  if has raw 0 && has raw 1 then Err (Invalid "event report has both data and status")
  else match take_field raw 0 with
  | Some (s, _) =>
      _ ← im_kind s Structure;
      p ← child s 0;
      path ← EventPath_parse p;
      c ← child s 1;
      status ← Status_parse c;
      Ok (mk_event path 0 0 None None (Some status))
  | None =>
      '(data, _) ← im_take raw 1;
      _ ← im_kind data Structure;
      timestamp ← timestamps data [3; 4; 5; 6] None;
      match timestamp with
      | None => Err (Invalid "event has no timestamp")
      | Some _ =>
          p ← child data 0;
          path ← EventPath_parse p;
          number ← im_uint U64_MAX data 1;
          priority ← im_uint U8 data 2;
          '(value, _) ← im_take data 7;
          Ok (mk_event path number priority timestamp (Some value) None)
      end
  end.

(** [for v in a.children { json::push(&mut out, f(v)?, 4096)?; }] *)
Fixpoint collect {A} (f : Node -> Result A) (l : list Node) (out : list A) : Result (list A) :=
  match l with
  | [] => Ok out
  | v :: l => x ← f v; out ← from_core (Value.push out x 4096); collect f l out
  end.

(** The array under a tag that may be absent. *)
Definition collect_opt {A} (f : Node -> Result A) (n : Node) (tag : Z) : Result (list A * Node) :=
  match take_field n tag with
  | Some (a, n) => _ ← im_kind a VArray; out ← collect f (children a) []; Ok (out, n)
  | None => Ok ([], n)
  end.

Definition report_of (n : Node) : Result Report :=
  '(suppress, more) ← flags n 4 3;
  subscription ← optional U32_MAX n 0;
  '(attributes, n) ← collect_opt attribute n 1;
  '(events, _) ← collect_opt event n 2;
  Ok (mk_report subscription attributes events suppress more).

(** [Report::parse] *)
Definition Report_parse (data : list Z) : Result Report := n ← root data; report_of n.

Definition Attribute_encode (a : Attribute) : Step :=
  block Anonymous Structure
    (match at_status a with
     | Some status =>
         check (match at_value a with
                | Some _ => Err (Invalid "attribute has both status and value")
                | None => Ok tt
                end) >>
         block (Context 0) Structure
           (AttributePath_encode (at_path a) (Context 0) >> Status_encode status (Context 1))
     | None =>
         check (concrete (at_path a)) >>
         match at_value a with
         | None => check (Err (Invalid "attribute report value missing"))
         | Some n =>
             block (Context 1) Structure
               (opt 0 (at_version a) >> AttributePath_encode (at_path a) (Context 1) >> node n (Context 2))
         end
     end).

Definition event_concrete (p : EventPath) : Result unit :=
  match ep_endpoint p, ep_cluster p, ep_event p with
  | Some _, Some _, Some _ => Ok tt
  | _, _, _ => Err (Invalid "event report needs a concrete path")
  end.

Definition Event_encode (e : Event) : Step :=
  block Anonymous Structure
    (match ev_status e with
     | Some status =>
         check (match ev_value e with
                | Some _ => Err (Invalid "event has both status and value")
                | None => Ok tt
                end) >>
         block (Context 0) Structure
           (EventPath_encode (ev_path e) (Context 0) >> Status_encode status (Context 1))
     | None =>
         check (event_concrete (ev_path e)) >>
         match ev_value e, ev_timestamp e with
         | None, _ => check (Err (Invalid "event value missing"))
         | Some _, None => check (Err (Invalid "event timestamp missing"))
         | Some n, Some (tag, time) =>
             check (if (3 <=? tag) && (tag <=? 6) then Ok tt else Err (Invalid "invalid event timestamp tag")) >>
             block (Context 1) Structure
               (EventPath_encode (ev_path e) (Context 0) >>
                uint (Context 1) (ev_number e) >>
                uint_width (Context 2) (ev_priority e) 1 >>
                uint (Context tag) time >>
                node n (Context 7))
         end
     end).

(** A flag that is only written when it is set. *)
Definition set_flag (tag : Z) (b : bool) : Step := if b then boolean (Context tag) true else skip.

(** [Report::encode] *)
Definition Report_encode (r : Report) : Result (list Z) :=
  if rp_suppress r && rp_more r then Err (Invalid "report cannot suppress chunk confirmation")
  else message
    (match rp_subscription r with Some id => uint_width (Context 0) id 4 | None => skip end >>
     unless_empty (rp_attributes r) (block (Context 1) VArray (each Attribute_encode (rp_attributes r))) >>
     unless_empty (rp_events r) (block (Context 2) VArray (each Event_encode (rp_events r))) >>
     set_flag 3 (rp_more r) >>
     set_flag 4 (rp_suppress r)).

(** ** Results of commands *)

Record InvokeResult : Type := mk_invoke_result {
  ir_path : CommandPath;
  ir_fields : option Node;
  ir_status : Status;
  ir_reference : option Z
}.

Record InvokeResponse : Type := mk_invoke_response {
  is_results : list InvokeResult;
  is_suppress : bool;
  is_more : bool
}.

Definition invoke_result (raw : Node) : Result InvokeResult :=
  _ ← im_kind raw Structure;
  if has raw 0 && has raw 1 then Err (Invalid "invoke response has both data and status")
  else
    let data := has raw 0 in
    '(answer, _) ← im_take raw (if data then 0 else 1);
    _ ← im_kind answer Structure;
    p ← child answer 0;
    path ← CommandPath_parse p;
    reference ← optional U16 answer 2;
    status ← (if data then Ok Status_default else c ← child answer 1; Status_parse c);
    let fields := if data then fst <$> take_field answer 1 else None in
    _ ← (match fields with Some n => im_kind n Structure | None => Ok tt end);
    Ok (mk_invoke_result path fields status reference).

Definition invoke_response_of (n : Node) : Result InvokeResponse :=
  '(suppress, more) ← flags n 0 2;
  '(responses, _) ← im_take n 1;
  _ ← im_kind responses VArray;
  results ← collect invoke_result (children responses) [];
  Ok (mk_invoke_response results suppress more).

(** [InvokeResponse::parse] *)
Definition InvokeResponse_parse (data : list Z) : Result InvokeResponse := n ← root data; invoke_response_of n.

Definition InvokeResult_encode (r : InvokeResult) : Step :=
  block Anonymous Structure
    (block (Context (match ir_fields r with Some _ => 0 | None => 1 end)) Structure
       (CommandPath_encode (ir_path r) (Context 0) >>
        match ir_fields r with
        | Some n =>
            check (im_kind n Structure) >>
            check (if st_global (ir_status r) =? 0 then Ok tt
                   else Err (Invalid "invoke data cannot carry failed status")) >>
            node n (Context 1)
        | None => Status_encode (ir_status r) (Context 1)
        end >>
        opt 2 (ir_reference r))).

(** [InvokeResponse::encode] *)
Definition InvokeResponse_encode (r : InvokeResponse) : Result (list Z) :=
  if (match is_results r with [] => true | _ => false end) || is_suppress r && is_more r
  then Err (Invalid "invalid invoke response")
  else message
    (boolean (Context 0) (is_suppress r) >>
     block (Context 1) VArray (each InvokeResult_encode (is_results r)) >>
     set_flag 2 (is_more r)).

(** [write_response] *)
Definition write_status (s : Node) : Result (AttributePath * Status) :=
  _ ← im_kind s Structure;
  p ← child s 0;
  path ← AttributePath_parse p;
  c ← child s 1;
  status ← Status_parse c;
  Ok (path, status).

Definition write_response (data : list Z) : Result (list (AttributePath * Status)) :=
  n ← root data;
  '(statuses, _) ← im_take n 0;
  _ ← im_kind statuses VArray;
  collect write_status (children statuses) [].

(** The bytes of [tests/fixtures/report.bin] and [invoke.bin] are read, and written as they were. *)
Definition report_fixture : list Z :=
  [21; 38; 0; 123; 0; 0; 0; 54; 1; 21; 53; 1; 36; 0; 17; 55; 1; 36; 2; 1; 36; 3; 6; 36; 4; 0; 24; 40; 2; 24; 24;
   21; 53; 1; 55; 1; 36; 2; 1; 37; 3; 2; 4; 36; 4; 0; 24; 32; 2; 131; 24; 24; 24; 54; 2; 21; 53; 1; 55; 0; 36; 1; 1;
   36; 2; 59; 36; 3; 1; 24; 39; 1; 1; 0; 0; 0; 0; 0; 32; 0; 36; 2; 1; 36; 4; 42; 53; 7; 36; 0; 7; 24; 24; 24; 24;
   41; 3; 36; 255; 1; 24].
Definition invoke_fixture : list Z :=
  [21; 40; 0; 54; 1; 21; 53; 1; 55; 0; 36; 0; 0; 36; 1; 62; 36; 2; 8; 24; 53; 1; 36; 0; 0; 24; 36; 2; 9; 24; 24;
   21; 53; 0; 55; 0; 36; 0; 0; 36; 1; 48; 36; 2; 5; 24; 53; 1; 36; 0; 0; 44; 1; 8; 99; 111; 109; 112; 108; 101; 116;
   101; 24; 24; 24; 24; 36; 255; 1; 24].

Example report_fixture_roundtrip : (r ← Report_parse report_fixture; Report_encode r) = Ok report_fixture.
Proof. vm_compute. reflexivity. Qed.
Example invoke_fixture_roundtrip :
  (r ← InvokeResponse_parse invoke_fixture; InvokeResponse_encode r) = Ok invoke_fixture.
Proof. vm_compute. reflexivity. Qed.

(** ** What a step writes *)

Definition leaf (tag : Z) (v : Value) : Node := mk_node (mk_element (Context tag) v) [].

(** [f] appends nodes that stand for [ns] at the level of the writer. *)
Definition writes (f : Step) (ns : list Node) : Prop := forall w w',
  within (w_bytes w) -> w_depth w <= MAX_DEPTH -> f w = Ok w' ->
  exists bs, Forall2 codes ns bs /\ w_bytes w' = w_bytes w ++ concat bs /\ w_depth w' = w_depth w
    /\ within (w_bytes w') /\ w_depth w + heights ns <= MAX_DEPTH.

Lemma emits_Ok f e w w' :
  emits f e -> within (w_bytes w) -> f w = Ok w' ->
  w_bytes w' = w_bytes w ++ e /\ w_depth w' = w_depth w /\ within (w_bytes w').
Proof.
  intros H Hw. rewrite (H w Hw). unfold within. destruct (Z.leb_spec (Z.of_nat (length (w_bytes w ++ e))) MAX); [|done].
  intros [= <-]. done.
Qed.

Lemma heights_app a b : heights (a ++ b) = Z.max (heights a) (heights b).
Proof.
  unfold heights. rewrite map_app, foldr_app. pose proof (heights_nonneg b) as H. unfold heights in H.
  induction (map height a) as [|x l IH]; cbn; lia.
Qed.

Lemma writes_codes f n b :
  emits f b -> codes n b -> height n = 0 -> writes f [n].
Proof.
  intros Hf Hc Hh w w' Hw Hd E. destruct (emits_Ok _ _ _ _ Hf Hw E) as (H1 & H2 & H3).
  exists [b]. cbn. rewrite app_nil_r, Hh. split; [constructor; [done|constructor]|]. repeat split; (done || lia).
Qed.

Lemma writes_skip : writes skip [].
Proof.
  intros w w' Hw Hd [= <-]. exists []. cbn. rewrite app_nil_r. split; [constructor|]. repeat split; (done || lia).
Qed.

Lemma writes_check r ns f : (r = Ok tt -> writes f ns) -> writes (check r >> f) ns.
Proof.
  intros H w w' Hw Hd. unfold andthen, check. destruct r as [[]|]; [|done]. cbn [mbind result_bind]. by apply H.
Qed.

Lemma writes_never e : writes (check (Err e)) [].
Proof. done. Qed.

Lemma writes_seq f g a b : writes f a -> writes g b -> writes (f >> g) (a ++ b).
Proof.
  intros Hf Hg w w' Hw Hd. unfold andthen. destruct (f w) as [w1|] eqn:E1; [|done]. cbn [mbind result_bind]. intros E2.
  destruct (Hf _ _ Hw Hd E1) as (b1 & H1 & B1 & D1 & W1 & M1).
  destruct (Hg _ _ W1 ltac:(lia) E2) as (b2 & H2 & B2 & D2 & W2 & M2).
  exists (b1 ++ b2). rewrite concat_app, app_assoc, <- B1, heights_app. split; [by apply Forall2_app|]. repeat split; (done || lia).
Qed.

Lemma writes_each {A} (f : A -> Step) (g : A -> Node) l :
  Forall (fun x => writes (f x) [g x]) l -> writes (each f l) (map g l).
Proof.
  induction 1 as [|x l Hx _ IH]; cbn [each map]; [apply writes_skip|]. apply (writes_seq _ _ [g x]); done.
Qed.

Lemma writes_block t v f ns :
  writes f ns -> tag_ok t -> is_container v = true -> (is_structure v = true -> NoDup (map n_tag ns)) ->
  writes (block t v f) [mk_node (mk_element t v) ns].
Proof.
  intros Hf Ht Hc Hn w w' Hw Hd. unfold block.
  assert (start t v w = if MAX_DEPTH <=? w_depth w then Err (Invalid "TLV nesting exceeds 32")
    else (w ← control t (kind v) w; Ok (mk_writer (w_bytes w) (w_depth w + 1)))) as ->.
  { unfold start. by destruct v. }
  destruct (Z.leb_spec MAX_DEPTH (w_depth w)); [done|].
  destruct (control t (kind v) w) as [w1|] eqn:E1; [|done]. cbn [mbind result_bind].
  destruct (emits_Ok _ _ _ _ (emits_control t (kind v)) Hw E1) as (B1 & D1 & W1).
  destruct (f _) as [w2|] eqn:E2; [|done]. cbn [mbind result_bind]. intros E3.
  destruct (Hf (mk_writer (w_bytes w1) (w_depth w1 + 1)) _ W1 ltac:(cbn; lia) E2) as (bs & H2 & B2 & D2 & W2 & M2). cbn [w_bytes w_depth] in *.
  unfold end_ in E3. destruct (w_depth w2 =? 0); [done|]. destruct (put w2 [24]) as [w3|] eqn:E4; [|done].
  cbn [mbind result_bind] in E3. destruct (emits_Ok _ _ _ _ (emits_put [24]) W2 E4) as (B4 & D4 & W4).
  injection E3 as <-. cbn [w_bytes w_depth]. exists [enc t v ++ concat bs ++ [24]]. cbn [concat]. rewrite app_nil_r.
  split; [|split; [|split; [lia|split; [done|]]]].
  - constructor; [|constructor]. by apply (codes_container (mk_element t v)).
  - rewrite B4, B2, B1. unfold enc. replace (body v) with (@nil Z) by (by destruct v). by rewrite app_nil_r, <- !app_assoc.
  - unfold heights at 1. cbn. rewrite Hc. unfold heights in M2. lia.
Qed.

Lemma writes_ext f g ns : (forall w, f w = g w) -> writes f ns -> writes g ns.
Proof. intros H Hf w w' Hw Hd E. rewrite <- H in E. by apply Hf. Qed.

Lemma writes_leaf et v t :
  tag_ok t -> value_ok v -> is_container v = false -> is_end v = false ->
  writes (node (mk_node (mk_element et v) []) t) [mk_node (mk_element t v) []].
Proof.
  intros Ht Hv Hc He. eapply writes_codes; [by apply emits_leaf|by apply codes_leaf|]. cbn. by rewrite Hc.
Qed.

Lemma writes_uint tag n : is_u8 tag -> is_u64 n -> writes (uint (Context tag) n) [leaf tag (Uint n)].
Proof. intros Ht Hn. by apply (writes_leaf Anonymous (Uint n) (Context tag)). Qed.

Lemma writes_boolean tag b : is_u8 tag -> writes (boolean (Context tag) b) [leaf tag (VBool b)].
Proof. intros Ht. by apply (writes_leaf Anonymous (VBool b) (Context tag)). Qed.

Lemma writes_null tag : is_u8 tag -> writes (null (Context tag)) [leaf tag VNull].
Proof. intros Ht. by apply (writes_leaf Anonymous VNull (Context tag)). Qed.

Lemma writes_wide tag n k :
  In k [0; 1; 2; 3] -> is_u8 tag -> is_u64 n -> writes (uint_width (Context tag) n (pow k)) [leaf tag (Uint n)].
Proof.
  intros Hk Ht Hn w w' Hw Hd E.
  assert ((pow k <? 8)%nat && (Z.shiftl 1 (Z.of_nat (pow k) * 8) <=? n) = false
    /\ uint_width (Context tag) n (pow k) w = (w ← control (Context tag) (4 + k) w; put w (le_bytes (pow k) n)))
    as [Hf E']. 2: {
    assert (0 <= n < 256 ^ Z.of_nat (pow k)) as Hr.
    { unfold is_u64, U64_MAX in Hn. split; [lia|].
      destruct Hk as [<-|[<-|[<-|[<-|[]]]]]; apply andb_false_iff in Hf as [Hf|Hf];
        first [discriminate Hf|apply Z.leb_gt in Hf; exact Hf|eapply Z.le_lt_trans; [apply Hn|reflexivity]]. }
    rewrite E' in E.
    assert (emits (fun w => w ← control (Context tag) (4 + k) w; put w (le_bytes (pow k) n))
      (head (Context tag) (4 + k) ++ le_bytes (pow k) n)) as Hem by (apply emits_seq; [apply emits_control|apply emits_put]).
    apply (writes_codes _ (leaf tag (Uint n)) _ Hem (codes_wide (Context tag) n k Ht Hk Hr) eq_refl _ _ Hw Hd E). }
  unfold uint_width in *.
  assert (match pow k with 1%nat => Ok 0 | 2%nat => Ok 1 | 4%nat => Ok 2 | 8%nat => Ok 3
          | _ => Err (Invalid "invalid TLV integer width") end = Ok k) as Ek
    by (by destruct Hk as [<-|[<-|[<-|[<-|[]]]]]).
  rewrite Ek in *. cbn [mbind result_bind] in *. rewrite take_le_bytes in * by (apply pow_le; done).
  destruct (_ && _); [done|]. done.
Qed.

Definition retag (t : Tag) (n : Node) : Node := mk_node (mk_element t (n_value n)) (children n).

Lemma nodes_each l w : nodes l w = each (fun c => node c (n_tag c)) l w.
Proof.
  revert w. induction l as [|c l IH]; intros w; cbn [nodes each]; [done|]. unfold andthen.
  destruct (node c (n_tag c) w); cbn [mbind result_bind]; [apply IH|done].
Qed.

(** A tree is written as it is, under the tag it is given. *)
Lemma writes_node n : tree_ok n -> forall t, tag_ok t -> writes (node n t) [retag t n].
Proof.
  induction n as [e kids IH] using Node_ind'. intros (Ht' & Hv & He & Hl & Hn & Hk) t Ht. apply foldr_and in Hk.
  destruct e as [et v]. cbn [e_value e_tag] in *. destruct (is_container v) eqn:Hc.
  - eapply writes_ext. { intros w. symmetry. by apply (node_container (mk_element et v)). }
    apply (writes_block t v (nodes kids) kids); try done.
    eapply writes_ext. { intros w. symmetry. apply nodes_each. }
    pose proof (writes_each (fun c => node c (n_tag c)) (fun c => c) kids) as He'. rewrite map_id in He'.
    apply He'. rewrite Forall_forall in *. intros c Hin.
    specialize (IH c Hin (Hk c Hin) (n_tag c)). specialize (Hk c Hin). destruct c as [[ct cv] ck].
    apply IH. apply Hk.
  - rewrite (Hl eq_refl). by apply writes_leaf.
Qed.

(** ** What the other side reads of a message *)

Definition message_tree (ns : list Node) : Node :=
  mk_node (mk_element Anonymous Structure) (ns ++ [leaf 255 (Uint 1)]).

Lemma message_parsed body ns data :
  message body = Ok data -> writes body ns -> NoDup (map n_tag (ns ++ [leaf 255 (Uint 1)])) ->
  size (message_tree ns) <= 4096 -> parse data = Some (Ok (message_tree ns)).
Proof.
  unfold message. intros E Hb Hn Hz.
  assert (writes (block Anonymous Structure (body >> uint (Context 255) 1)) [message_tree ns]) as Hw.
  { apply writes_block; try done. apply writes_seq; [done|]. by apply writes_uint. }
  destruct (block _ _ _ _) as [w|] eqn:Ew; [|done]. cbn [mbind result_bind] in E.
  destruct (Hw Writer_default w ltac:(by vm_compute) ltac:(by vm_compute) Ew) as (bs & Hc & Eb & _ & Hm & Hd).
  unfold finish in E. destruct (negb _); [done|]. injection E as <-.
  apply Forall2_cons_inv_l in Hc as (b & bs' & Hc & Hc' & ->). apply Forall2_nil_inv_l in Hc' as ->.
  cbn [concat Writer_default w_bytes app] in Eb. rewrite app_nil_r in Eb. subst b.
  apply codes_parse; try done. unfold heights in Hd. cbn [map foldr Writer_default w_depth] in Hd. lia.
Qed.

Definition opt_node (tag : Z) (o : option Z) : list Node :=
  match o with Some v => [leaf tag (Uint v)] | None => [] end.

Definition index_nodes (i : option (option Z)) : list Node :=
  match i with Some (Some i) => [leaf 5 (Uint i)] | Some None => [leaf 5 VNull] | None => [] end.

Lemma get_cons e c l t tag :
  n_tag c = Context t -> get (mk_node e (c :: l)) tag = if t =? tag then Some c else get (mk_node e l) tag.
Proof.
  intros H. unfold get. cbn [children List.find]. rewrite H.
  destruct (Z.eqb_spec t tag) as [->|Hne]; [by rewrite bool_decide_eq_true_2|]. rewrite bool_decide_eq_false_2 by congruence. done.
Qed.

Lemma take_cons e c l t tag :
  n_tag c = Context t ->
  take_field (mk_node e (c :: l)) tag
  = if t =? tag then Some (c, mk_node e l)
    else '(x, n) ← take_field (mk_node e l) tag; Some (x, mk_node e (c :: children n)).
Proof.
  intros H. unfold take_field. cbn [children element remove_first]. rewrite H.
  destruct (Z.eqb_spec t tag) as [->|Hne]; [by rewrite bool_decide_eq_true_2|]. rewrite bool_decide_eq_false_2 by congruence.
  destruct (remove_first _ l) as [[x l']|]; done.
Qed.

Lemma has_tag_cons t t' c l :
  n_tag c = Context t' -> has_tag (Context t) (c :: l) = (t =? t') || has_tag (Context t) l.
Proof.
  intros H. unfold has_tag. cbn [existsb]. rewrite H. f_equal. destruct (Z.eqb_spec t t') as [->|Hne].
  - by rewrite bool_decide_eq_true_2.
  - rewrite bool_decide_eq_false_2 by congruence. done.
Qed.

Lemma get_nil e tag : get (mk_node e []) tag = None.
Proof. done. Qed.
Lemma take_nil e tag : take_field (mk_node e []) tag = None.
Proof. done. Qed.

(** Looks fields up among fields whose tags are known. *)
Ltac lookup :=
  unfold im_uint, optional, flag, child, im_take, has;
  repeat first
    [ progress cbn [Z.eqb Pos.eqb fmap option_fmap option_map leaf n_value element e_value app opt_node index_nodes
        mbind option_bind result_bind ok_or children]
    | rewrite get_nil
    | rewrite take_nil
    | match goal with
      | |- context [get (mk_node ?e (?c :: ?l)) ?tag] =>
          match eval hnf in (n_tag c) with Context ?t => rewrite (get_cons e c l t tag eq_refl) end
      | |- context [take_field (mk_node ?e (?c :: ?l)) ?tag] =>
          match eval hnf in (n_tag c) with Context ?t => rewrite (take_cons e c l t tag eq_refl) end
      end ].

Definition within_opt (max : Z) (o : option Z) : Prop := match o with Some v => 0 <= v <= max | None => True end.

Lemma writes_opt max tag o : is_u8 tag -> max <= U64_MAX -> within_opt max o -> writes (opt tag o) (opt_node tag o).
Proof.
  intros Ht Hm Ho. destruct o as [v|]; cbn; [|apply writes_skip]. apply writes_uint; [done|]. unfold is_u64. cbn in Ho. lia.
Qed.

(** *** Paths and statuses *)

(** Known tags are different. *)
Ltac known_tags := apply (bool_decide_unpack _); vm_compute; exact I.

(** A block, with the tags it leaves to compare. *)
Ltac block_of := apply writes_block; [|assumption || done|done|first [solve [intros [=]]|intros _; known_tags|intros _]].

Record path_ok (p : AttributePath) : Prop := {
  po_endpoint : within_opt U16 (ap_endpoint p);
  po_cluster : within_opt U32_MAX (ap_cluster p);
  po_attribute : within_opt U32_MAX (ap_attribute p);
  po_index : match ap_list_index p with Some i => within_opt U16 i | None => True end
}.

Definition path_node (t : Tag) (p : AttributePath) : Node :=
  mk_node (mk_element t VList)
    (opt_node 2 (ap_endpoint p) ++ opt_node 3 (ap_cluster p) ++ opt_node 4 (ap_attribute p) ++ index_nodes (ap_list_index p)).

Lemma writes_path p t : path_ok p -> tag_ok t -> writes (AttributePath_encode p t) [path_node t p].
Proof.
  intros [He Hc Ha Hi] Ht. block_of.
  apply writes_seq; [by apply (writes_opt U16)|]. apply writes_seq; [by apply (writes_opt U32_MAX)|].
  apply writes_seq; [by apply (writes_opt U32_MAX)|]. destruct (ap_list_index p) as [[i|]|]; cbn in *.
  - apply writes_uint; [done|]. unfold is_u64, U16, U64_MAX in *. lia.
  - by apply writes_null.
  - apply writes_skip.
Qed.

Lemma tags_differ_NoDup l : forall before, NoDup (map n_tag (before ++ l)) -> tags_differ before l = true.
Proof.
  induction l as [|c l IH]; intros before H; [done|]. cbn [tags_differ]. rewrite has_tag_false.
  - cbn. apply IH. by rewrite <- app_assoc.
  - rewrite map_app in H. apply NoDup_app in H as (_ & H & _). intros Hin. apply (H _ Hin). cbn. by left.
Qed.

Lemma unique_path_ok n : NoDup (map n_tag (children n)) -> unique_path n = Ok tt.
Proof. intros H. unfold unique_path. by rewrite (tags_differ_NoDup _ []). Qed.

Lemma path_read p t : path_ok p -> AttributePath_parse (path_node t p) = Ok p.
Proof.
  intros [He Hc Ha Hi]. unfold AttributePath_parse. cbn [path_node im_kind n_value element e_value mbind result_bind].
  destruct p as [[e|] [c|] [a|] [[i|]|]]; cbn in He, Hc, Ha, Hi; rewrite unique_path_ok by known_tags;
    cbn [mbind result_bind]; unfold path_node; cbn [ap_endpoint ap_cluster ap_attribute ap_list_index]; lookup; decide_tests; reflexivity.
Qed.

Record event_path_ok (p : EventPath) : Prop := {
  eo_node : within_opt U64_MAX (ep_node p);
  eo_endpoint : within_opt U16 (ep_endpoint p);
  eo_cluster : within_opt U32_MAX (ep_cluster p);
  eo_event : within_opt U32_MAX (ep_event p)
}.

Definition flag_nodes (tag : Z) (b : option bool) : list Node :=
  match b with Some b => [leaf tag (VBool b)] | None => [] end.

Definition event_path_node (t : Tag) (p : EventPath) : Node :=
  mk_node (mk_element t VList)
    (opt_node 0 (ep_node p) ++ opt_node 1 (ep_endpoint p) ++ opt_node 2 (ep_cluster p) ++ opt_node 3 (ep_event p)
     ++ flag_nodes 4 (ep_urgent p)).

Lemma writes_event_path p t : event_path_ok p -> tag_ok t -> writes (EventPath_encode p t) [event_path_node t p].
Proof.
  intros [Hn He Hc Ha] Ht. block_of.
  apply writes_seq; [by apply (writes_opt U64_MAX)|]. apply writes_seq; [by apply (writes_opt U16)|].
  apply writes_seq; [by apply (writes_opt U32_MAX)|]. apply writes_seq; [by apply (writes_opt U32_MAX)|].
  destruct (ep_urgent p) as [b|]; cbn; [by apply writes_boolean|apply writes_skip].
Qed.

Lemma event_path_read p t : event_path_ok p -> EventPath_parse (event_path_node t p) = Ok p.
Proof.
  intros [Hn He Hc Ha]. unfold EventPath_parse. cbn [event_path_node im_kind n_value element e_value mbind result_bind].
  destruct p as [[n|] [e|] [c|] [a|] [u|]]; cbn in Hn, He, Hc, Ha; rewrite unique_path_ok by known_tags;
    cbn [mbind result_bind]; unfold event_path_node; cbn [ep_node ep_endpoint ep_cluster ep_event ep_urgent flag_nodes];
    lookup; decide_tests; reflexivity.
Qed.

Record command_path_ok (p : CommandPath) : Prop := {
  co_endpoint : 0 <= cp_endpoint p <= U16;
  co_cluster : 0 <= cp_cluster p <= U32_MAX;
  co_command : 0 <= cp_command p <= U32_MAX
}.

Definition command_path_node (t : Tag) (p : CommandPath) : Node :=
  mk_node (mk_element t VList)
    [leaf 0 (Uint (cp_endpoint p)); leaf 1 (Uint (cp_cluster p)); leaf 2 (Uint (cp_command p))].

Lemma u64_of n max : max <= U64_MAX -> 0 <= n <= max -> is_u64 n.
Proof. unfold is_u64. lia. Qed.

Lemma writes_command_path p t : command_path_ok p -> tag_ok t -> writes (CommandPath_encode p t) [command_path_node t p].
Proof.
  intros [He Hc Ha] Ht. block_of.
  apply (writes_seq _ _ [_]); [by apply writes_uint, (u64_of _ U16)|].
  apply (writes_seq _ _ [_] [_]); by apply writes_uint, (u64_of _ U32_MAX).
Qed.

Lemma command_path_read p t : command_path_ok p -> CommandPath_parse (command_path_node t p) = Ok p.
Proof.
  intros [He Hc Ha]. unfold CommandPath_parse. cbn [command_path_node im_kind n_value element e_value mbind result_bind].
  rewrite unique_path_ok by known_tags. cbn [mbind result_bind]. unfold command_path_node. lookup. decide_tests. by destruct p.
Qed.

Record status_ok (s : Status) : Prop := {
  so_global : 0 <= st_global s <= U8;
  so_cluster : within_opt U8 (st_cluster s)
}.

Definition status_node (t : Tag) (s : Status) : Node :=
  mk_node (mk_element t Structure) (leaf 0 (Uint (st_global s)) :: opt_node 1 (st_cluster s)).

Lemma writes_status s t : status_ok s -> tag_ok t -> writes (Status_encode s t) [status_node t s].
Proof.
  intros [Hg Hc] Ht. block_of.
  - apply (writes_seq _ _ [_]); [by apply writes_uint, (u64_of _ U8)|]. by apply (writes_opt U8).
  - destruct (st_cluster s); known_tags.
Qed.

Lemma status_read s t : status_ok s -> Status_parse (status_node t s) = Ok s.
Proof.
  intros [Hg Hc]. unfold Status_parse. cbn [status_node im_kind n_value element e_value mbind result_bind].
  destruct s as [g [c|]]; cbn in Hg, Hc; unfold status_node; cbn [st_global st_cluster]; lookup; decide_tests; reflexivity.
Qed.

(** *** Reports *)

Record attribute_ok (a : Attribute) : Prop := {
  ao_path : path_ok (at_path a);
  ao_version : within_opt U32_MAX (at_version a);
  ao_value : match at_value a with Some n => tree_ok n | None => True end;
  ao_status : match at_status a with Some s => status_ok s | None => True end
}.

Definition value_nodes (tag : Z) (o : option Node) : list Node :=
  match o with Some n => [retag (Context tag) n] | None => [] end.

Definition attribute_node (a : Attribute) : Node :=
  mk_node (mk_element Anonymous Structure)
    [match at_status a with
     | Some s => mk_node (mk_element (Context 0) Structure) [path_node (Context 0) (at_path a); status_node (Context 1) s]
     | None => mk_node (mk_element (Context 1) Structure)
                 (opt_node 0 (at_version a) ++ path_node (Context 1) (at_path a) :: value_nodes 2 (at_value a))
     end].

(** A status stands alone; a value gets the tag of its field. *)
Definition received_attribute (a : Attribute) : Attribute :=
  match at_status a with
  | Some s => mk_attribute (at_path a) None None (Some s)
  | None => mk_attribute (at_path a) (at_version a) (retag (Context 2) <$> at_value a) None
  end.

Lemma writes_attribute a : attribute_ok a -> writes (Attribute_encode a) [attribute_node a].
Proof.
  intros [Hp Hv Hn Hs]. block_of.
  destruct (at_status a) as [s|]; cbn in *.
  - apply writes_check. intros _. block_of.
    apply (writes_seq _ _ [_] [_]); [by apply writes_path|by apply writes_status].
  - apply writes_check. intros _. destruct (at_value a) as [n|]; [|by intros w w' _ _ [=]].
    block_of.
    + apply writes_seq; [by apply (writes_opt U32_MAX)|]. apply (writes_seq _ _ [_] [_]); [by apply writes_path|].
      by apply writes_node.
    + destruct (at_version a); known_tags.
Qed.

(** What was written was either a status or a value. *)
Definition decided {A} (value : option Node) (status : option A) : Prop := is_Some status \/ is_Some value.

Lemma attribute_read a :
  attribute_ok a -> decided (at_value a) (at_status a) -> attribute (attribute_node a) = Ok (received_attribute a).
Proof.
  intros [Hp Hv Hn Hs] Hd. unfold attribute, attribute_node, received_attribute. cbn [im_kind n_value element e_value mbind result_bind].
  destruct (at_status a) as [s|].
  - lookup. cbn [andb im_kind]. lookup. rewrite path_read, status_read by done. done.
  - destruct (at_value a) as [n|]; [|by destruct Hd as [[? [=]]|[? [=]]]].
    destruct (at_version a) as [v|]; cbn in Hv; cbn [value_nodes]; lookup; cbn [andb im_kind]; lookup; decide_tests;
      rewrite path_read by done; lookup; done.
Qed.

(** *** Events *)

Record event_ok (e : Event) : Prop := {
  vo_path : event_path_ok (ev_path e);
  vo_number : is_u64 (ev_number e);
  vo_priority : 0 <= ev_priority e <= U8;
  vo_time : match ev_timestamp e with Some (tag, time) => 3 <= tag <= 6 /\ is_u64 time | None => True end;
  vo_value : match ev_value e with Some n => tree_ok n | None => True end;
  vo_status : match ev_status e with Some s => status_ok s | None => True end;
  vo_decided : is_Some (ev_status e) \/ is_Some (ev_value e) /\ is_Some (ev_timestamp e)
}.

Definition time_nodes (o : option (Z * Z)) : list Node :=
  match o with Some (tag, time) => [leaf tag (Uint time)] | None => [] end.

Definition event_node (e : Event) : Node :=
  mk_node (mk_element Anonymous Structure)
    [match ev_status e with
     | Some s => mk_node (mk_element (Context 0) Structure) [event_path_node (Context 0) (ev_path e); status_node (Context 1) s]
     | None => mk_node (mk_element (Context 1) Structure)
                 (event_path_node (Context 0) (ev_path e) :: leaf 1 (Uint (ev_number e)) :: leaf 2 (Uint (ev_priority e))
                  :: time_nodes (ev_timestamp e) ++ value_nodes 7 (ev_value e))
     end].

Definition received_event (e : Event) : Event :=
  match ev_status e with
  | Some s => mk_event (ev_path e) 0 0 None None (Some s)
  | None => mk_event (ev_path e) (ev_number e) (ev_priority e) (ev_timestamp e) (retag (Context 7) <$> ev_value e) None
  end.

Lemma time_tag tag : 3 <= tag <= 6 -> tag = 3 \/ tag = 4 \/ tag = 5 \/ tag = 6.
Proof. lia. Qed.

Lemma writes_event e : event_ok e -> writes (Event_encode e) [event_node e].
Proof.
  intros [Hp Hn Hpr Ht Hv Hs _]. block_of. destruct (ev_status e) as [s|]; cbn in *.
  - apply writes_check. intros _. block_of.
    apply (writes_seq _ _ [_] [_]); [by apply writes_event_path|by apply writes_status].
  - apply writes_check. intros _. destruct (ev_value e) as [n|]; [|by intros w w' _ _ [=]].
    destruct (ev_timestamp e) as [[tag time]|]; [|by intros w w' _ _ [=]]. destruct Ht as [Ht Htime].
    apply writes_check. intros _. block_of; cbn [time_nodes value_nodes app].
    + apply (writes_seq _ _ [_]); [by apply writes_event_path|]. apply (writes_seq _ _ [_]); [by apply writes_uint|].
      apply (writes_seq _ _ [_]); [by apply (writes_wide 2 _ 0); [left|..|apply (u64_of _ U8)]|].
      apply (writes_seq _ _ [_] [_]); [apply writes_uint; [unfold is_u8; lia|done]|by apply writes_node].
    + destruct (time_tag _ Ht) as [-> |[-> |[-> | ->]]]; known_tags.
Qed.

Lemma event_read e : event_ok e -> event (event_node e) = Ok (received_event e).
Proof.
  intros [Hp Hn Hpr Ht Hv Hs Hd]. unfold event, event_node, received_event. cbn [im_kind n_value element e_value mbind result_bind].
  destruct (ev_status e) as [s|].
  - lookup. cbn [andb im_kind]. lookup. rewrite event_path_read, status_read by done. done.
  - destruct Hd as [[? [=]]|[[n En] [[tag time] Et]]]. rewrite En, Et in *. destruct Ht as [Ht Htime].
    unfold is_u64 in *. cbn [time_nodes value_nodes app].
    destruct (time_tag _ Ht) as [-> |[-> |[-> | ->]]]; lookup; cbn [andb im_kind timestamps]; lookup; decide_tests; cbn [timestamps];
      lookup; decide_tests; cbn [timestamps]; lookup; decide_tests; cbn [timestamps]; lookup; decide_tests; cbn [timestamps]; lookup;
      rewrite event_path_read by done; lookup; decide_tests; done.
Qed.

(** *** Reports *)

Lemma collect_map {A B} (f : Node -> Result B) (g : A -> Node) (h : A -> B) l : forall out,
  Forall (fun x => f (g x) = Ok (h x)) l -> Z.of_nat (length out + length l) <= 4096 ->
  collect f (map g l) out = Ok (out ++ map h l).
Proof.
  induction l as [|x l IH]; intros out Hf Hl; cbn [map collect]; [by rewrite app_nil_r|].
  apply Forall_cons in Hf as [-> Hf]. cbn [mbind result_bind length] in *. unfold Value.push.
  destruct (Z.leb_spec 4096 (Z.of_nat (length out))); [lia|]. cbn [from_core mbind result_bind].
  rewrite IH; [by rewrite <- app_assoc|done|rewrite length_app; cbn; lia].
Qed.

Definition array_nodes (tag : Z) (l : list Node) : list Node :=
  match l with [] => [] | _ => [mk_node (mk_element (Context tag) VArray) l] end.

Definition set_nodes (tag : Z) (b : bool) : list Node := if b then [leaf tag (VBool true)] else [].

Definition report_nodes (r : Report) : list Node :=
  opt_node 0 (rp_subscription r) ++ array_nodes 1 (map attribute_node (rp_attributes r))
  ++ array_nodes 2 (map event_node (rp_events r)) ++ set_nodes 3 (rp_more r) ++ set_nodes 4 (rp_suppress r).

Record report_ok (r : Report) : Prop := {
  ro_subscription : within_opt U32_MAX (rp_subscription r);
  ro_attributes : Forall (fun a => attribute_ok a /\ decided (at_value a) (at_status a)) (rp_attributes r);
  ro_events : Forall event_ok (rp_events r)
}.

Definition received (r : Report) : Report :=
  mk_report (rp_subscription r) (map received_attribute (rp_attributes r)) (map received_event (rp_events r))
    (rp_suppress r) (rp_more r).

Lemma writes_array {A} tag (f : A -> Step) (g : A -> Node) l :
  is_u8 tag -> Forall (fun x => writes (f x) [g x]) l ->
  writes (unless_empty l (block (Context tag) VArray (each f l))) (array_nodes tag (map g l)).
Proof.
  intros Ht Hl. destruct l as [|x l]; cbn [unless_empty map array_nodes]; [apply writes_skip|].
  apply writes_block; [by apply (writes_each f g (x :: l))|done..].
Qed.

Lemma writes_set tag b : is_u8 tag -> writes (set_flag tag b) (set_nodes tag b).
Proof. intros Ht. destruct b; cbn; [by apply writes_boolean|apply writes_skip]. Qed.

Lemma report_tags r : NoDup (map n_tag (report_nodes r ++ [leaf 255 (Uint 1)])).
Proof.
  unfold report_nodes. destruct (rp_subscription r), (rp_attributes r), (rp_events r), (rp_more r), (rp_suppress r); known_tags.
Qed.

Lemma report_written r data :
  report_ok r -> size (message_tree (report_nodes r)) <= 4096 -> Report_encode r = Ok data ->
  parse data = Some (Ok (message_tree (report_nodes r))).
Proof.
  intros [Hs Ha He] Hz. unfold Report_encode. destruct (rp_suppress r && rp_more r); [done|]. intros E.
  eapply message_parsed; [exact E| | |done].
  - apply writes_seq.
    { destruct (rp_subscription r); cbn; [|apply writes_skip]. apply (writes_wide 0 _ 2); [by cbn; auto|done|by apply (u64_of _ U32_MAX)]. }
    apply writes_seq.
    { apply writes_array; [done|]. eapply Forall_impl; [exact Ha|]. intros a [Hok _]. by apply writes_attribute. }
    apply writes_seq; [|apply writes_seq; by apply writes_set].
    apply writes_array; [done|]. eapply Forall_impl; [exact He|]. intros e. apply writes_event.
  - apply report_tags.
Qed.

Lemma root_of_message ns : get (message_tree ns) 255 = Some (leaf 255 (Uint 1)) -> root_of (message_tree ns) = Ok (message_tree ns).
Proof. intros H. unfold root_of, optional. rewrite H. done. Qed.

Lemma get_last ns : NoDup (map n_tag (ns ++ [leaf 255 (Uint 1)])) -> get (message_tree ns) 255 = Some (leaf 255 (Uint 1)).
Proof.
  rewrite map_app. intros (_ & H & _)%NoDup_app. unfold get, message_tree. cbn [children].
  induction ns as [|c ns IH]; cbn [app List.find]; [done|]. rewrite bool_decide_eq_false_2.
  - apply IH. intros x Hx. apply H. cbn. by right.
  - intros E. apply (H (n_tag c)); [cbn; by left|rewrite E; cbn; by left].
Qed.

Lemma root_written ns data :
  parse data = Some (Ok (message_tree ns)) -> NoDup (map n_tag (ns ++ [leaf 255 (Uint 1)])) ->
  root data = Ok (message_tree ns).
Proof. intros E H. unfold root, Node_parse. rewrite E. cbn. apply root_of_message. by apply get_last. Qed.

Lemma length_sizes l : Z.of_nat (length l) <= sizes l.
Proof. induction l as [|c l IH]; cbn; [lia|]. fold (sizes l). pose proof (size_pos c). lia. Qed.

Lemma sizes_app a b : sizes (a ++ b) = sizes a + sizes b.
Proof. induction a as [|c a IH]; cbn; [done|]. fold (sizes (a ++ b)) (sizes a). lia. Qed.

Lemma array_sizes {A} tag (g : A -> Node) l : Z.of_nat (length l) <= sizes (array_nodes tag (map g l)).
Proof.
  destruct l as [|x l]; [cbn; lia|]. unfold array_nodes, sizes. cbn [map foldr size]. fold (sizes (map g l)).
  pose proof (length_sizes (map g (x :: l))) as H. unfold sizes in H. cbn [map foldr] in H. fold (sizes (map g l)) in H.
  rewrite length_cons, length_map in H. cbn [length]. lia.
Qed.

Lemma remove_first_app p pre l :
  remove_first p pre = None ->
  remove_first p (pre ++ l) = ('(x, r) ← remove_first p l; Some (x, pre ++ r)).
Proof.
  induction pre as [|c pre IH]; cbn [remove_first app]; [by destruct (remove_first p l) as [[]|]|].
  destruct (p c); [done|]. intros H. destruct (remove_first p pre) as [[]|]; [done|]. rewrite IH by done.
  by destruct (remove_first p l) as [[]|].
Qed.

Lemma take_app e pre l tag :
  take_field (mk_node e pre) tag = None ->
  take_field (mk_node e (pre ++ l)) tag = ('(x, n) ← take_field (mk_node e l) tag; Some (x, mk_node e (pre ++ children n))).
Proof.
  unfold take_field. cbn [children element]. intros H.
  destruct (remove_first _ pre) as [[]|] eqn:E; [done|]. rewrite (remove_first_app _ _ _ E).
  by destruct (remove_first _ l) as [[]|].
Qed.

Lemma collect_array {A B} (f : Node -> Result B) (g : A -> Node) (h : A -> B) l tag e pre rest :
  Forall (fun x => f (g x) = Ok (h x)) l -> Z.of_nat (length l) <= 4096 ->
  take_field (mk_node e pre) tag = None -> take_field (mk_node e rest) tag = None ->
  collect_opt f (mk_node e (pre ++ array_nodes tag (map g l) ++ rest)) tag = Ok (map h l, mk_node e (pre ++ rest)).
Proof.
  intros Hf Hl Hp Hr. unfold collect_opt. rewrite take_app by done. destruct l as [|x l].
  - cbn [map array_nodes app]. by rewrite Hr.
  - cbn [map array_nodes app]. erewrite take_cons by reflexivity. rewrite Z.eqb_refl.
    cbn [im_kind n_value element e_value mbind option_bind result_bind children].
    change (g x :: map g l) with (map g (x :: l)). rewrite (collect_map f g h (x :: l) []); [|done|cbn [length] in *; lia]. done.
Qed.

Lemma report_flags r :
  rp_suppress r && rp_more r = false -> flags (message_tree (report_nodes r)) 4 3 = Ok (rp_suppress r, rp_more r).
Proof.
  unfold flags, message_tree, report_nodes. intros H.
  destruct (rp_subscription r), (rp_attributes r), (rp_events r), (rp_more r), (rp_suppress r); try done;
    cbn [map array_nodes set_nodes]; lookup; done.
Qed.

Lemma report_subscription r :
  within_opt U32_MAX (rp_subscription r) -> optional U32_MAX (message_tree (report_nodes r)) 0 = Ok (rp_subscription r).
Proof.
  unfold message_tree, report_nodes. intros H.
  destruct (rp_subscription r), (rp_attributes r), (rp_events r), (rp_more r), (rp_suppress r);
    cbn in H; cbn [map array_nodes set_nodes]; lookup; decide_tests; done.
Qed.

Lemma report_read r :
  report_ok r -> size (message_tree (report_nodes r)) <= 4096 -> rp_suppress r && rp_more r = false ->
  report_of (message_tree (report_nodes r)) = Ok (received r).
Proof.
  intros [Hs Ha He] Hz Hf.
  assert (Z.of_nat (length (rp_attributes r)) <= 4096 /\ Z.of_nat (length (rp_events r)) <= 4096) as [Hla Hle].
  { unfold message_tree, report_nodes in Hz. cbn [size] in Hz. fold (sizes ((opt_node 0 (rp_subscription r)
      ++ array_nodes 1 (map attribute_node (rp_attributes r)) ++ array_nodes 2 (map event_node (rp_events r))
      ++ set_nodes 3 (rp_more r) ++ set_nodes 4 (rp_suppress r)) ++ [leaf 255 (Uint 1)])) in Hz.
    rewrite !sizes_app in Hz. pose proof (array_sizes 1 attribute_node (rp_attributes r)).
    pose proof (array_sizes 2 event_node (rp_events r)).
    pose proof (sizes_nonneg (opt_node 0 (rp_subscription r))). pose proof (sizes_nonneg (set_nodes 3 (rp_more r))).
    pose proof (sizes_nonneg (set_nodes 4 (rp_suppress r))). pose proof (sizes_nonneg [leaf 255 (Uint 1)]). lia. }
  unfold report_of. rewrite report_flags, report_subscription by done. cbn [mbind result_bind].
  unfold message_tree, report_nodes. rewrite <- !app_assoc.
  rewrite (collect_array attribute attribute_node received_attribute);
    [|eapply Forall_impl; [exact Ha|]; intros a [? ?]; by apply attribute_read|done|by destruct (rp_subscription r)|].
  2:{ destruct (rp_events r), (rp_more r), (rp_suppress r); done. }
  cbn [mbind result_bind].
  rewrite (collect_array event event_node received_event);
    [|eapply Forall_impl; [exact He|]; intros e ?; by apply event_read|done|by destruct (rp_subscription r)|].
  2:{ destruct (rp_more r), (rp_suppress r); done. }
  done.
Qed.

(** C23: A report that is written with at most 4096 elements, which is what the reader takes,
    is read as what it says.  An attribute or event with a value comes back with its path, its
    version, or its number, priority and time, and its value under the tag of its field; one
    with a status, which is written as path and status alone, comes back as these; and the
    subscription and the two flags come back as they were.  A writer bounds only the bytes, so
    a report of more elements can be written that no reader takes. *)
Theorem reports_are_read_back r data :
  report_ok r -> size (message_tree (report_nodes r)) <= 4096 -> Report_encode r = Ok data ->
  Report_parse data = Ok (received r).
Proof.
  intros Hok Hz E. unfold Report_parse. rewrite (root_written (report_nodes r)).
  - cbn [mbind result_bind]. apply report_read; [done..|]. unfold Report_encode in E. by destruct (_ && _).
  - by apply report_written.
  - apply report_tags.
Qed.

(** *** Results of commands *)

Record result_ok (r : InvokeResult) : Prop := {
  uo_path : command_path_ok (ir_path r);
  uo_fields : match ir_fields r with Some n => tree_ok n /\ n_value n = Structure | None => True end;
  uo_status : status_ok (ir_status r);
  uo_reference : within_opt U16 (ir_reference r)
}.

Definition result_node (r : InvokeResult) : Node :=
  mk_node (mk_element Anonymous Structure)
    [mk_node (mk_element (Context (match ir_fields r with Some _ => 0 | None => 1 end)) Structure)
       (command_path_node (Context 0) (ir_path r)
        :: match ir_fields r with Some n => retag (Context 1) n | None => status_node (Context 1) (ir_status r) end
        :: opt_node 2 (ir_reference r))].

(** Data is read as a success, without the status of the cluster. *)
Definition received_result (r : InvokeResult) : InvokeResult :=
  match ir_fields r with
  | Some n => mk_invoke_result (ir_path r) (Some (retag (Context 1) n)) Status_default (ir_reference r)
  | None => r
  end.

Lemma writes_result r : result_ok r -> writes (InvokeResult_encode r) [result_node r].
Proof.
  intros [Hp Hf Hs Hr]. block_of. apply writes_block; [|by destruct (ir_fields r)|done|].
  - apply (writes_seq _ _ [_]); [by apply writes_command_path|]. apply (writes_seq _ _ [_]); [|by apply (writes_opt U16)].
    destruct (ir_fields r) as [n|]; [|by apply writes_status].
    apply writes_check. intros _. apply writes_check. intros _. destruct Hf as [Hf _]. by apply writes_node.
  - intros _. destruct (ir_fields r), (ir_reference r); known_tags.
Qed.

Lemma result_read r : result_ok r -> invoke_result (result_node r) = Ok (received_result r).
Proof.
  intros [Hp Hf Hs Hr]. unfold invoke_result, result_node, received_result. cbn [im_kind n_value element e_value mbind result_bind].
  destruct r as [p [n|] s [v|]]; cbn [ir_path ir_fields ir_status ir_reference] in *; cbn in Hr;
    lookup; cbn [andb im_kind]; lookup; rewrite command_path_read by done; lookup; decide_tests; cbn [mbind result_bind];
    try (rewrite status_read by done); try (destruct Hf as [_ Hf]; unfold retag, im_kind, n_value; cbn [element e_value fst]; 
    unfold n_value in Hf; rewrite Hf); done.
Qed.

Definition response_nodes (r : InvokeResponse) : list Node :=
  [leaf 0 (VBool (is_suppress r)); mk_node (mk_element (Context 1) VArray) (map result_node (is_results r))]
  ++ set_nodes 2 (is_more r).

(** The results of commands are read as they were written: each with its path, its reference and
    its fields or its status. *)
Theorem results_are_read_back r data :
  Forall result_ok (is_results r) -> size (message_tree (response_nodes r)) <= 4096 -> InvokeResponse_encode r = Ok data ->
  InvokeResponse_parse data = Ok (mk_invoke_response (map received_result (is_results r)) (is_suppress r) (is_more r)).
Proof.
  intros Hr Hz E. unfold InvokeResponse_encode in E. destruct (_ || _) eqn:Eb; [done|]. apply orb_false_iff in Eb as [_ Hf].
  assert (NoDup (map n_tag (response_nodes r ++ [leaf 255 (Uint 1)]))) as Hn.
  { unfold response_nodes. destruct (is_more r); known_tags. }
  unfold InvokeResponse_parse. rewrite (root_written (response_nodes r)); [|eapply message_parsed; [exact E|..]; try done|done].
  - cbn [mbind result_bind]. unfold invoke_response_of.
    assert (Z.of_nat (length (is_results r)) <= 4096) as Hl.
    { unfold message_tree, response_nodes in Hz. cbn [app size map foldr] in Hz. fold (sizes (map result_node (is_results r))) in Hz.
      pose proof (length_sizes (map result_node (is_results r))) as H. rewrite length_map in H.
      pose proof (sizes_nonneg (set_nodes 2 (is_more r) ++ [leaf 255 (Uint 1)])) as H'. unfold sizes in H'. cbn in *. lia. }
    unfold flags, message_tree, response_nodes. cbn [app].
    destruct (is_suppress r), (is_more r); try done; cbn [set_nodes]; lookup; cbn [default andb im_kind]; lookup;
      cbn [im_kind]; lookup; rewrite (collect_map _ _ received_result _ []);
      try (eapply Forall_impl; [exact Hr|exact result_read]); try done; cbn [length]; lia.
  - apply (writes_seq _ _ [_]); [by apply writes_boolean|]. apply (writes_seq _ _ [_]); [|by apply writes_set].
    apply writes_block; [|done..]. apply writes_each. eapply Forall_impl; [exact Hr|exact writes_result].
Qed.

(** ** What a device reads of a request *)

Definition im_command_ok (c : Command) (n : Node) : Prop :=
  command_path_ok (cm_path c) /\ Node_parse (cm_fields c) = Ok n /\ tree_ok n /\ within_opt U16 (cm_reference c).

Definition command_node (c : Command * Node) : Node :=
  mk_node (mk_element Anonymous Structure)
    (command_path_node (Context 0) (cm_path (fst c)) :: retag (Context 1) (snd c) :: opt_node 2 (cm_reference (fst c))).

Lemma writes_command c n : im_command_ok c n -> writes (invoke_one c) [command_node (c, n)].
Proof.
  intros (Hp & En & Hn & Hr). block_of; cbn [fst snd].
  - apply (writes_seq _ _ [_]); [by apply writes_command_path|]. apply (writes_seq _ _ [_]); [|by apply (writes_opt U16)].
    intros w w' Hw Hd. rewrite En. cbn [mbind result_bind]. destruct (im_kind n Structure); [|done]. cbn [mbind result_bind].
    by apply writes_node.
  - destruct (cm_reference c); known_tags.
Qed.

Definition invoke_nodes (commands : list (Command * Node)) (timed : bool) : list Node :=
  [leaf 0 (VBool false); leaf 1 (VBool timed); mk_node (mk_element (Context 2) VArray) (map command_node commands)].

(** A device finds in a request exactly the commands that were asked for, in their order, each
    under its own path and with its own fields, and whether a timed request precedes it. *)
Theorem invoke_asks_for_the_commands commands timed data :
  Forall (fun c => im_command_ok (fst c) (snd c)) commands ->
  size (message_tree (invoke_nodes commands timed)) <= 4096 ->
  invoke (map fst commands) timed = Ok data ->
  parse data = Some (Ok (message_tree (invoke_nodes commands timed))).
Proof.
  intros Hc Hz E. unfold invoke in E. destruct (bad_count _); [done|]. eapply message_parsed; [exact E| |known_tags|done].
  apply (writes_seq _ _ [_]); [by apply writes_boolean|]. apply (writes_seq _ _ [_] [_]); [by apply writes_boolean|].
  apply writes_block; [|done..]. clear E Hz. induction Hc as [|[c n] l Hc _ IH]; cbn [map each]; [apply writes_skip|].
  apply (writes_seq _ _ [_]); [by apply writes_command|exact IH].
Qed.

(** ** Witnesses: a chunk with a value, a status and an event *)

Definition sample_report : Report :=
  mk_report (Some 123)
    [mk_attribute (AttributePath_new 1 6 0) (Some 17) (Some (mk_node (mk_element Anonymous (VBool true)) [])) None;
     mk_attribute (mk_attribute_path (Some 1) None None (Some None)) None None (Some (mk_status 134 None))]
    [mk_event (mk_event_path None (Some 1) (Some 59) (Some 1) None) 9007199254740993 1 (Some (4, 42))
       (Some (mk_node (mk_element Anonymous Structure) [leaf 0 (Uint 7)])) None]
    false true.

Lemma reports_are_read_back_witness :
  exists data, Report_encode sample_report = Ok data /\ Report_parse data = Ok (received sample_report).
Proof.
  assert (report_ok sample_report) as Hok.
  { split; [cbn; unfold U32_MAX; lia|..].
    - constructor; [|constructor; [|constructor]].
      + split; [|right; by eexists]. split; [split; cbn; unfold U16, U32_MAX; (done || lia)|cbn; unfold U32_MAX; lia| |done].
        cbn. repeat split; done.
      + split; [|left; by eexists]. split; [split; cbn; unfold U16; (done || lia)|done..|split; cbn; unfold U8; (done || lia)].
    - constructor; [|constructor]. split; cbn -[tree_ok Z.le is_Some].
      + split; cbn; unfold U16, U32_MAX; (done || lia).
      + unfold is_u64, U64_MAX. lia.
      + unfold U8. lia.
      + unfold is_u64, U64_MAX. lia.
      + cbn. repeat split; try done; try (unfold is_u8, U64_MAX; lia). intros _. known_tags.
      + done.
      + right. split; by eexists. }
  eexists. split; [vm_compute; reflexivity|]. apply (reports_are_read_back sample_report _ Hok); [by vm_compute|].
  vm_compute. reflexivity.
Defined.

(** ** The numbers of what was read *)

Lemma tree_child n c : tree_ok n -> In c (children n) -> tree_ok c.
Proof.
  destruct n as [e kids]. intros (_ & _ & _ & _ & _ & Hk) Hin. apply foldr_and in Hk.
  rewrite Forall_forall in Hk. apply Hk. by apply list_elem_of_In.
Qed.

Lemma get_ok n tag c : tree_ok n -> get n tag = Some c -> tree_ok c.
Proof. intros Hn Hg. unfold get in Hg. apply find_some in Hg as [Hin _]. by apply (tree_child n). Qed.

Lemma remove_first_in p l x r : remove_first p l = Some (x, r) -> In x l /\ forall y, In y r -> In y l.
Proof.
  revert x r. induction l as [|c l IH]; intros x r; cbn [remove_first]; [done|]. destruct (p c).
  - intros [= <- <-]. cbn. auto.
  - destruct (remove_first p l) as [[x' r']|]; [|done]. intros [= <- <-]. destruct (IH _ _ eq_refl) as [H1 H2].
    cbn. split; [by right|]. intros y [<-|Hy]; auto.
Qed.

(** Taking a field away leaves fields of the tree. *)
Lemma take_in n tag c m : take_field n tag = Some (c, m) -> In c (children n) /\ forall y, In y (children m) -> In y (children n).
Proof.
  unfold take_field. destruct (remove_first _ (children n)) as [[x r]|] eqn:E; [|done].
  intros [= <- <-]. by apply (remove_first_in _ _ _ _ E).
Qed.

Lemma im_uint_ok max n tag v : tree_ok n -> im_uint max n tag = Ok v -> is_u64 v.
Proof.
  intros Hn. unfold im_uint, optional. destruct (get n tag) as [c|] eqn:Eg; [|done]. cbn.
  pose proof (get_ok _ _ _ Hn Eg) as Hc. destruct c as [[t w] k]. destruct Hc as (_ & Hv & _).
  cbn in *. destruct w; try done. destruct (_ <=? _); [|done]. by intros [= <-].
Qed.

Lemma event_number_ok raw e : tree_ok raw -> event raw = Ok e -> is_u64 (ev_number e).
Proof.
  intros Hn. unfold event. destruct (im_kind raw Structure); [|done]. cbn [mbind result_bind].
  destruct (_ && _); [done|]. destruct (take_field raw 0) as [[s r]|].
  - destruct (im_kind s Structure); [|done]. cbn [mbind result_bind]. destruct (child s 0); [|done]. cbn [mbind result_bind].
    destruct (EventPath_parse _); [|done]. cbn [mbind result_bind]. destruct (child s 1); [|done]. cbn [mbind result_bind].
    destruct (Status_parse _); [|done]. intros [= <-]. cbn. unfold is_u64, U64_MAX. lia.
  - unfold im_take. destruct (take_field raw 1) as [[data r]|] eqn:Et; [|done]. cbn [ok_or mbind result_bind].
    apply take_in in Et as [Hin _]. pose proof (tree_child _ _ Hn Hin) as Hd.
    destruct (im_kind data Structure); [|done]. cbn [mbind result_bind]. destruct (timestamps _ _ _) as [[t|]|]; [|done..]. cbn [mbind result_bind].
    destruct (child data 0); [|done]. cbn [mbind result_bind]. destruct (EventPath_parse _); [|done]. cbn [mbind result_bind].
    destruct (im_uint U64_MAX data 1) as [v|] eqn:Ev; [|done]. cbn [mbind result_bind].
    destruct (im_uint U8 data 2); [|done]. cbn [mbind result_bind]. destruct (ok_or _ _) as [[v' r']|]; [|done].
    intros [= <-]. by apply (im_uint_ok _ _ _ _ Hd Ev).
Qed.

Lemma collect_in {A} (f : Node -> Result A) l : forall out out' x,
  collect f l out = Ok out' -> In x out' -> In x out \/ exists n, In n l /\ f n = Ok x.
Proof.
  induction l as [|n l IH]; intros out out' x; cbn [collect]; [intros [= <-]; auto|].
  destruct (f n) as [y|] eqn:Ef; [|done]. cbn [mbind result_bind]. unfold Value.push. destruct (_ <=? _); [done|].
  cbn [from_core mbind result_bind]. intros E Hx. destruct (IH _ _ _ E Hx) as [Ho|(m & Hm & Em)].
  - apply in_app_iff in Ho as [Ho|[<-|[]]]; [by left|]. right. exists n. cbn. auto.
  - right. exists m. cbn. auto.
Qed.

(** The numbers of the events of a report are 64-bit numbers. *)
Lemma report_numbers data r :
  Forall is_byte data -> Report_parse data = Ok r -> Forall (fun e => is_u64 (ev_number e)) (rp_events r).
Proof.
  intros Hb. unfold Report_parse, root. pose proof (Node_parse_answers data Hb) as Ep.
  destruct (Node_parse data) as [n|]; [|done]. cbn [mbind result_bind].
  assert (tree_ok n) as Hn.
  { destruct (accepted_tree_is_well_formed data Hb) as (o & Ea & Ha). rewrite Ea in Ep. injection Ep as ->. by apply Ha. }
  assert (root_of n = Ok n \/ exists e, root_of n = Err e) as [-> |[e ->]]; [|cbn [mbind result_bind]|done].
  { unfold root_of. destruct (im_kind _ _); cbn [mbind result_bind]; [|by right; eexists]. destruct (negb _); [by right; eexists|].
    destruct (optional _ _ _); cbn [mbind result_bind]; [by left|by right; eexists]. }
  unfold report_of. destruct (flags n 4 3) as [[s m]|]; [|done]. cbn [mbind result_bind].
  destruct (optional _ n 0); [|done]. cbn [mbind result_bind]. unfold collect_opt.
  assert (forall n', (forall y, In y (children n') -> In y (children n)) -> forall ev n2,
    collect_opt event n' 2 = Ok (ev, n2) -> Forall (fun e => is_u64 (ev_number e)) ev) as HE.
  { intros n' Hn' ev n2. unfold collect_opt. destruct (take_field n' 2) as [[arr r']|] eqn:Et; [|intros [= <- _]; constructor].
    destruct (im_kind arr VArray); [|done]. cbn [mbind result_bind]. destruct (collect event (children arr) []) as [out|] eqn:Ec; [|done].
    cbn [mbind result_bind]. intros [= <- _]. rewrite Forall_forall. intros e He%list_elem_of_In.
    destruct (collect_in _ _ _ _ _ Ec He) as [[]|(raw & Hr & Er)]. apply (event_number_ok raw); [|done].
    apply take_in in Et as [Ha _]. apply (tree_child arr); [|done]. apply (tree_child n); auto. }
  destruct (take_field n 1) as [[arr n1]|] eqn:Et.
  - destruct (im_kind arr VArray); [|done]. cbn [mbind result_bind]. destruct (collect attribute _ _); [|done]. cbn [mbind result_bind].
    apply take_in in Et as [_ Hin]. fold (collect_opt event n1 2).
    destruct (collect_opt event n1 2) as [[ev n2]|] eqn:Ec; [|done]. cbn [mbind result_bind]. intros [= <-]. by apply (HE _ Hin _ _ Ec).
  - cbn [mbind result_bind]. fold (collect_opt event n 2). destruct (collect_opt event n 2) as [[ev n2]|] eqn:Ec; [|done].
    cbn [mbind result_bind]. intros [= <-]. by apply (HE n (fun y Hy => Hy) _ _ Ec).
Qed.
