(* ===== verification/Ccm.v ===== *)
(** * Ccm: authenticated encryption of Matter messages

    Models [plugins/matter/src/ccm.rs] over any block cipher: the streaming CBC-MAC, counter
    mode, sealing and opening.  AES and the comparison in constant time are an interface. *)

From Stdlib Require Import ZArith Lia String.
From S2P Require Import Prelude Errors Tlv Wire.

Local Open Scope Z_scope.

(** [Aes128::encrypt_block] under a key, and [ct_eq]. *)
Class Crypto := {
  aes : list Z -> list Z -> list Z;
  ct_eq : list Z -> list Z -> bool
}.

(** A block stays a block, and the comparison compares. *)
Class CryptoLaws {HC : Crypto} : Prop := {
  aes_block : forall key block, length block = 16%nat -> length (aes key block) = 16%nat;
  ct_eq_spec : forall a b, ct_eq a b = true <-> a = b
}.

Record Ccm : Type := mk_ccm { key : list Z; tag : nat }.

Definition Ccm_new (key : list Z) (tag : nat) : Result Ccm :=
  if negb ((4 <=? tag)%nat && (tag <=? 16)%nat) || negb (Nat.even tag) then Err (Invalid "invalid CCM tag size")
  else Ok (mk_ccm key tag).

Definition check_nonce (nonce : list Z) : Result unit :=
  if (7 <=? length nonce)%nat && (length nonce <=? 13)%nat then Ok tt
  else Err (Invalid "CCM nonce must be 7 to 13 bytes").

Definition xor (a b : list Z) : list Z := zip_with Z.lxor a b.

Section WithCrypto.
Context {HC : Crypto}.

(** ** The streaming MAC *)

Record Mac : Type := mk_mac { state : list Z; partial : list Z; used : nat }.

Definition flush (k : list Z) (m : Mac) : Mac := mk_mac (aes k (xor (state m) (partial m))) (partial m) 0.

(** The loop of [Mac::write]; a byte string of [n] bytes takes at most [n] rounds. *)
Fixpoint write_loop (k : list Z) (fuel : nat) (m : Mac) (bytes : list Z) : Mac :=
  match fuel, bytes with
  | S fuel, _ :: _ =>
      let n := Nat.min (16 - used m) (length bytes) in
      let partial := take (used m) (partial m) ++ take n bytes ++ drop (used m + n) (partial m) in
      let m := mk_mac (state m) partial (used m + n) in
      write_loop k fuel (if (used m =? 16)%nat then flush k m else m) (drop n bytes)
  | _, _ => m
  end.

Definition write (k : list Z) (m : Mac) (bytes : list Z) : Mac := write_loop k (length bytes) m bytes.

Definition pad (k : list Z) (m : Mac) : Mac :=
  if (0 <? used m)%nat
  then flush k (mk_mac (state m) (take (used m) (partial m) ++ repeat 0 (16 - used m)) (used m)) else m.

Definition zeros : list Z := repeat 0 16.

(** The block that carries the nonce: a byte of flags, the nonce, zeros, and two last bytes. *)
Definition nonce_block (flags : Z) (nonce : list Z) (last : Z) : list Z :=
  flags :: nonce ++ repeat 0 (13 - length nonce) ++ be_bytes 2 last.

Definition first_block (c : Ccm) (nonce plain aad : list Z) : list Z :=
  nonce_block
    (Z.lor (Z.lor (Z.of_nat (14 - length nonce)) (Z.shiftl (Z.of_nat ((tag c - 2) / 2)) 3))
           (if (length aad =? 0)%nat then 0 else 64))
    nonce (Z.of_nat (length plain)).

(** How the length of the header is written. *)
Definition aad_length (aad : list Z) : list Z :=
  if Z.of_nat (length aad) <? 65280 then be_bytes 2 (Z.of_nat (length aad))
  else [255; 254] ++ be_bytes 4 (Z.of_nat (length aad)).

(** [Ccm::mac] *)
Definition mac (c : Ccm) (nonce plain aad : list Z) : Result (list Z) :=
  _ ← check_nonce nonce;
  if (65535 <? Z.of_nat (length plain)) || (65535 <? Z.of_nat (length aad)) then Err (Invalid "CCM input too long")
  else
    let k := key c in
    let m := write k (mk_mac zeros zeros 0) (first_block c nonce plain aad) in
    let m := if (length aad =? 0)%nat then m
             else pad k (let m := write k m (aad_length aad) in write k m aad) in
    Ok (state (pad k (write k m plain))).

(** ** Counter mode *)

Definition counter (c : Ccm) (nonce : list Z) (value : Z) : list Z :=
  aes (key c) (nonce_block (Z.of_nat (14 - length nonce)) nonce value).

(** [for (i, block) in buf.chunks_mut(16).enumerate()], from block number [i] on. *)
Fixpoint crypt_blocks (c : Ccm) (nonce : list Z) (i : Z) (bs : list (list Z)) : list (list Z) :=
  match bs with
  | [] => []
  | b :: bs => xor b (counter c nonce (i mod 65536)) :: crypt_blocks c nonce (i + 1) bs
  end.

Definition crypt (c : Ccm) (nonce buf : list Z) : list Z := concat (crypt_blocks c nonce 1 (chunks 16 buf)).

Definition seal (c : Ccm) (nonce plain aad : list Z) : Result (list Z) :=
  t ← mac c nonce plain aad;
  out ← copy plain;
  Ok (crypt c nonce out ++ take (tag c) (xor t (counter c nonce 0))).

Definition open (c : Ccm) (nonce wire aad : list Z) : Result (list Z) :=
  _ ← check_nonce nonce;
  if (length wire <? tag c)%nat then Err (Invalid "CCM ciphertext shorter than MIC")
  else
    let n := (length wire - tag c)%nat in
    out ← copy (take n wire);
    let out := crypt c nonce out in
    t ← mac c nonce out aad;
    if negb (ct_eq (take (tag c) (xor t (counter c nonce 0))) (drop n wire))
    then Err (Invalid "CCM authentication failed")
    else Ok out.

(** ** The MAC of RFC 3610 *)

(** CBC over whole blocks. *)
Definition cbc (k st : list Z) (bs : list (list Z)) : list Z := fold_left (fun st b => aes k (xor st b)) bs st.
Definition cbc_mac (k l : list Z) : list Z := cbc k zeros (chunks 16 l).

Definition pad16 (l : list Z) : list Z := l ++ repeat 0 ((16 - length l mod 16) mod 16).

(** What is authenticated: the first block, the header with its length, the payload. *)
Definition formatted (c : Ccm) (nonce plain aad : list Z) : list Z :=
  pad16 (pad16 (first_block c nonce plain aad ++ (if (length aad =? 0)%nat then [] else aad_length aad ++ aad)) ++ plain).

(** *** Proofs *)

Context {HL : CryptoLaws}.

Lemma length_xor a b : length (xor a b) = Nat.min (length a) (length b).
Proof. apply length_zip_with. Qed.

(** What the MAC has taken in: whole blocks, and the start of the next one. *)
Definition holds (k : list Z) (m : Mac) (l : list Z) : Prop :=
  exists bs rest, l = concat bs ++ rest /\ Forall (fun b => length b = 16%nat) bs /\ state m = cbc k zeros bs
    /\ length (state m) = 16%nat /\ length (partial m) = 16%nat /\ take (used m) (partial m) = rest
    /\ used m = length rest /\ (used m < 16)%nat.

Lemma cbc_snoc k st bs b : cbc k st (bs ++ [b]) = aes k (xor (cbc k st bs) b).
Proof. unfold cbc. by rewrite fold_left_app. Qed.

Lemma flush_holds k m bs :
  Forall (fun b => length b = 16%nat) bs -> state m = cbc k zeros bs -> length (state m) = 16%nat ->
  length (partial m) = 16%nat -> holds k (flush k m) (concat bs ++ partial m).
Proof.
  intros Hb Hs Hl Hp. exists (bs ++ [partial m]), []. unfold flush. cbn [state partial used].
  rewrite concat_app, cbc_snoc, <- Hs. cbn [concat]. rewrite !app_nil_r.
  split; [done|]. split; [apply Forall_app; split; [done|by constructor]|]. split; [done|].
  split; [apply aes_block; rewrite length_xor; lia|]. repeat split; [done|lia].
Qed.

Lemma write_loop_holds k fuel : forall m l bytes,
  (length bytes <= fuel)%nat -> holds k m l -> holds k (write_loop k fuel m bytes) (l ++ bytes).
Proof.
  induction fuel as [|fuel IH]; intros m l [|b bytes] Hf Hm; try (cbn in Hf; lia); cbn [write_loop]; rewrite ?app_nil_r; try done.
  set (bs := b :: bytes) in *. set (n := Nat.min (16 - used m) (length bs)).
  destruct Hm as (blocks & rest & -> & Hb & Hs & Hl & Hp & Ht & Hu & Hlt).
  assert (1 <= n)%nat as Hn by (unfold n; cbn; lia). assert (n <= length bs)%nat as Hnl by (unfold n; lia).
  replace ((concat blocks ++ rest) ++ bs) with (((concat blocks ++ rest) ++ take n bs) ++ drop n bs)
    by (rewrite <- app_assoc; by rewrite take_drop).
  set (part := take (used m) (partial m) ++ take n bs ++ drop (used m + n) (partial m)).
  assert (length part = 16%nat) as Hpl.
  { unfold part. rewrite !length_app, length_drop, !length_take. unfold n in *. lia. }
  assert (take (used m + n) part = rest ++ take n bs) as Htp.
  { unfold part. rewrite Ht, app_assoc. apply take_app_length'. rewrite length_app, length_take. lia. }
  apply IH; [rewrite length_drop; lia|]. cbn [used]. destruct (Nat.eqb_spec (used m + n) 16) as [E|E].
  - rewrite <- app_assoc, <- Htp, E, take_ge by lia. apply (flush_holds k (mk_mac (state m) part _)); done.
  - exists blocks, (rest ++ take n bs). cbn [state partial used]. rewrite <- app_assoc.
    repeat (split; [done|]). split; [rewrite length_app, length_take; lia|]. unfold n in *. lia.
Qed.

Lemma write_holds k m l bytes : holds k m l -> holds k (write k m bytes) (l ++ bytes).
Proof. by apply write_loop_holds. Qed.

Lemma length_concat_blocks bs :
  Forall (fun b : list Z => length b = 16%nat) bs -> length (concat bs) = (16 * length bs)%nat.
Proof. induction 1 as [|b bs Hb _ IH]; [done|]. cbn [concat length]. rewrite length_app, Hb, IH. lia. Qed.

Lemma pad_holds k m l : holds k m l -> holds k (pad k m) (pad16 l).
Proof.
  intros (bs & rest & -> & Hb & Hs & Hl & Hp & Ht & Hu & Hlt). unfold pad, pad16.
  assert (length (concat bs ++ rest) mod 16 = length rest)%nat as ->.
  { rewrite length_app, length_concat_blocks by done. rewrite Nat.add_comm, Nat.mul_comm, Nat.Div0.mod_add.
    apply Nat.mod_small. lia. }
  destruct (Nat.ltb_spec 0 (used m)).
  - rewrite (Nat.mod_small (16 - length rest)) by lia. rewrite <- Hu, <- app_assoc, <- Ht.
    apply (flush_holds k (mk_mac (state m) _ _)); [done..|]. cbn [partial].
    rewrite length_app, length_take, repeat_length. lia.
  - assert (rest = []) as -> by (destruct rest; [done|cbn in *; lia]). cbn [length]. rewrite app_nil_r. cbn.
    rewrite app_nil_r. exists bs, []. rewrite app_nil_r. repeat (split; [done|]). done.
Qed.

(** A MAC at a block boundary is CBC over what it took in. *)
Lemma holds_aligned k m l : holds k m l -> (length l mod 16 = 0)%nat -> state m = cbc_mac k l.
Proof.
  intros (bs & rest & -> & Hb & Hs & _ & _ & _ & Hu & Hlt) Ha.
  rewrite length_app, length_concat_blocks in Ha by done.
  rewrite Nat.add_comm, Nat.mul_comm, Nat.Div0.mod_add, Nat.mod_small in Ha by lia.
  assert (rest = []) as -> by (by destruct rest). rewrite app_nil_r. unfold cbc_mac.
  rewrite chunks_concat; [done|lia|]. clear Hs. induction Hb as [|b bs Hb _ IH]; cbn; [done|]. repeat split; [lia..|done|done].
Qed.

Lemma pad16_aligned l : (length (pad16 l) mod 16 = 0)%nat.
Proof.
  unfold pad16. rewrite length_app, repeat_length. pose proof (Nat.div_mod_eq (length l) 16).
  pose proof (Nat.mod_upper_bound (length l) 16 ltac:(lia)).
  destruct (decide (length l mod 16 = 0)%nat) as [E|E].
  - rewrite E. cbn [Nat.sub]. rewrite Nat.Div0.mod_same. by rewrite Nat.add_0_r.
  - rewrite (Nat.mod_small (16 - _)) by lia.
    replace (length l + (16 - length l mod 16))%nat with ((length l / 16 + 1) * 16)%nat by lia. apply Nat.Div0.mod_mul.
Qed.

Lemma length_nonce_block flags nonce last : (length nonce <= 13)%nat -> length (nonce_block flags nonce last) = 16%nat.
Proof. intros H. unfold nonce_block. cbn [length]. rewrite !length_app, repeat_length, length_be_bytes. lia. Qed.

Lemma mac_cbc c nonce plain aad t :
  mac c nonce plain aad = Ok t -> t = cbc_mac (key c) (formatted c nonce plain aad).
Proof.
  unfold mac, check_nonce. destruct ((7 <=? length nonce)%nat && (length nonce <=? 13)%nat) eqn:En; cbn [mbind result_bind]; [|done].
  destruct (_ || _); [done|]. intros [= <-]. bool_prop. apply holds_aligned; [|apply pad16_aligned].
  unfold formatted. apply pad_holds, write_holds.
  assert (holds (key c) (mk_mac zeros zeros 0) []) as Hz by (exists [], []; repeat (split; [done|]); cbn; lia).
  apply (write_holds _ _ _ (first_block c nonce plain aad)) in Hz. cbn [app] in Hz.
  destruct (length aad =? 0)%nat.
  - rewrite app_nil_r. assert (pad16 (first_block c nonce plain aad) = first_block c nonce plain aad) as ->; [|done].
    unfold pad16. unfold first_block at 2. rewrite length_nonce_block by done. apply app_nil_r.
  - apply pad_holds. rewrite app_assoc. by do 2 apply write_holds.
Qed.

(** Counter mode undoes itself. *)
Lemma xor_cancel a k : (length a <= length k)%nat -> xor (xor a k) k = a.
Proof.
  revert k. induction a as [|x a IH]; intros [|y k] H; cbn in *; try done; try lia.
  unfold xor in *. rewrite IH by lia. f_equal. by rewrite Z.lxor_assoc, Z.lxor_nilpotent, Z.lxor_0_r.
Qed.

Lemma length_counter c nonce v : (length nonce <= 13)%nat -> length (counter c nonce v) = 16%nat.
Proof. intros H. by apply aes_block, length_nonce_block. Qed.

Lemma crypt_blocks_chunked c nonce bs : forall i,
  (length nonce <= 13)%nat -> chunked 16 bs -> chunked 16 (crypt_blocks c nonce i bs).
Proof.
  induction bs as [|b bs IH]; intros i Hn; [done|]. cbn [crypt_blocks chunked]. intros (Hb & Hl & Hc).
  rewrite length_xor, length_counter by done. split; [lia|]. split; [|by apply IH].
  intros Hne. rewrite Hl; [done|]. by destruct bs.
Qed.

Lemma crypt_blocks_twice c nonce bs : forall i,
  (length nonce <= 13)%nat -> chunked 16 bs -> crypt_blocks c nonce i (crypt_blocks c nonce i bs) = bs.
Proof.
  induction bs as [|b bs IH]; intros i Hn; [done|]. cbn [crypt_blocks chunked]. intros (Hb & Hl & Hc).
  rewrite IH by done. f_equal. apply xor_cancel. rewrite length_counter by done. lia.
Qed.

Lemma crypt_twice c nonce buf : (length nonce <= 13)%nat -> crypt c nonce (crypt c nonce buf) = buf.
Proof.
  intros Hn. unfold crypt. destruct (chunks_chunked 16 buf ltac:(lia)) as [Hc Hk].
  rewrite chunks_concat by (try lia; by apply crypt_blocks_chunked). by rewrite crypt_blocks_twice.
Qed.

Lemma length_crypt c nonce buf : (length nonce <= 13)%nat -> length (crypt c nonce buf) = length buf.
Proof.
  intros Hn. unfold crypt. destruct (chunks_chunked 16 buf ltac:(lia)) as [Hc Hk]. rewrite <- Hk at 2.
  generalize 1. induction (chunks 16 buf) as [|b bs IH] in Hc |- *; intros i; [done|].
  destruct Hc as (Hb & _ & Hc). cbn [crypt_blocks concat]. rewrite !length_app, length_xor, length_counter, IH by done. lia.
Qed.

Lemma mac_block c nonce plain aad t :
  mac c nonce plain aad = Ok t -> length t = 16%nat /\ (length nonce <= 13)%nat /\ (7 <= length nonce)%nat
  /\ Z.of_nat (length plain) <= 65535.
Proof.
  intros H. pose proof (mac_cbc _ _ _ _ _ H) as ->. revert H. unfold mac, check_nonce.
  destruct ((7 <=? length nonce)%nat && (length nonce <=? 13)%nat) eqn:En; cbn [mbind result_bind]; [|done].
  destruct (_ || _) eqn:E; [done|]. intros _. bool_prop. split; [|lia]. unfold cbc_mac.
  destruct (chunks_chunked 16 (formatted c nonce plain aad) ltac:(lia)) as [Hc Hk].
  assert (Forall (fun b => length b = 16%nat) (chunks 16 (formatted c nonce plain aad))) as Hf.
  { assert (length (concat (chunks 16 (formatted c nonce plain aad))) mod 16 = 0)%nat as Ha
      by (rewrite Hk; apply pad16_aligned).
    clear Hk. induction (chunks 16 _) as [|b bs IH]; [constructor|]. destruct Hc as (Hb & Hl & Hc).
    cbn [concat] in Ha. rewrite length_app in Ha. destruct bs as [|b' bs].
    - constructor; [|constructor]. cbn [concat length] in Ha. rewrite Nat.add_0_r in Ha.
      pose proof (Nat.div_mod_eq (length b) 16). lia.
    - constructor; [by apply Hl|]. apply IH; [done|]. rewrite Hl in Ha by done.
      pose proof (Nat.Div0.mod_add (length (concat (b' :: bs))) 1 16) as Hm. rewrite Nat.mul_1_l, Nat.add_comm in Hm. congruence. }
  clear Hc Hk. unfold cbc. assert (length zeros = 16%nat) as Hz by done. revert Hz. generalize zeros.
  induction Hf as [|b bs Hb _ IH]; intros st Hst; [done|]. cbn [fold_left]. apply IH.
  apply aes_block. rewrite length_xor. lia.
Qed.

Lemma open_seal k n c nonce aad wire plain :
  Ccm_new k n = Ok c ->
  (open c nonce wire aad = Ok plain <-> seal c nonce plain aad = Ok wire).
Proof.
  intros Hc. assert ((4 <= tag c)%nat /\ (tag c <= 16)%nat) as [_ Ht].
  { revert Hc. unfold Ccm_new. destruct (_ || _) eqn:E; [done|]. intros [= <-]. cbn. bool_prop. lia. }
  unfold open, seal. split.
  - unfold check_nonce. destruct ((7 <=? length nonce)%nat && (length nonce <=? 13)%nat) eqn:En; cbn [mbind result_bind]; [|done].
    bool_prop. destruct (Nat.ltb_spec (length wire) (tag c)); [done|].
    destruct (copy (take (length wire - tag c) wire)) as [out|] eqn:Eo; cbn [mbind result_bind]; [|done].
    apply copy_Ok in Eo as ->. set (body := take _ wire).
    destruct (mac c nonce (crypt c nonce body) aad) as [t|] eqn:Em; cbn [mbind result_bind]; [|done].
    destruct (ct_eq _ _) eqn:Ect; cbn [negb]; [|done]. intros [= <-]. rewrite Em. cbn [mbind result_bind].
    apply mac_block in Em as (_ & _ & _ & Hp). apply ct_eq_spec in Ect as ->.
    rewrite copy_fits by exact Hp. cbn [mbind result_bind]. rewrite crypt_twice by done. unfold body.
    by rewrite take_drop.
  - destruct (mac c nonce plain aad) as [t|] eqn:Em; cbn [mbind result_bind]; [|done].
    pose proof (mac_block _ _ _ _ _ Em) as (Hl & Hn & Hn7 & Hp).
    rewrite copy_fits by exact Hp. cbn [mbind result_bind]. intros [= <-].
    unfold check_nonce. rewrite (proj2 (Nat.leb_le 7 (length nonce))), (proj2 (Nat.leb_le (length nonce) 13)) by done.
    cbn [andb mbind result_bind].
    assert (length (take (tag c) (xor t (counter c nonce 0))) = tag c) as Hm.
    { rewrite length_take, length_xor, length_counter, Hl by done. lia. }
    rewrite length_app, Hm. destruct (Nat.ltb_spec (length (crypt c nonce plain) + tag c) (tag c)); [lia|].
    rewrite Nat.add_sub, take_app_length, drop_app_length .
    rewrite copy_fits by (rewrite length_crypt by done; exact Hp). cbn [mbind result_bind].
    rewrite crypt_twice, Em by done. cbn [mbind result_bind]. rewrite (proj2 (ct_eq_spec _ _)) by done. done.
Qed.

(** C22: Opening accepts exactly what sealing produced for the same key, nonce and header, and
    gives back what was sealed: a message, a header or a nonce that differs in anything that
    changes the MAC is refused. *)
Theorem open_accepts_exactly_sealed k n c nonce aad wire plain :
  Ccm_new k n = Ok c ->
  (open c nonce wire aad = Ok plain <-> seal c nonce plain aad = Ok wire).
Proof. apply open_seal. Qed.

(** The streaming MAC is the CBC-MAC of RFC 3610 over the padded blocks. *)
Theorem mac_is_cbc c nonce plain aad :
  (7 <= length nonce <= 13)%nat -> Z.of_nat (length plain) <= 65535 -> Z.of_nat (length aad) <= 65535 ->
  mac c nonce plain aad = Ok (cbc_mac (key c) (formatted c nonce plain aad)).
Proof.
  intros Hn Hp Ha. destruct (mac c nonce plain aad) as [t|e] eqn:E; [by rewrite (mac_cbc _ _ _ _ _ E)|].
  exfalso. revert E. unfold mac, check_nonce.
  rewrite (proj2 (Nat.leb_le 7 (length nonce))), (proj2 (Nat.leb_le (length nonce) 13)) by lia.
  cbn [andb mbind result_bind].
  rewrite (proj2 (Z.ltb_ge 65535 (Z.of_nat (length plain)))), (proj2 (Z.ltb_ge 65535 (Z.of_nat (length aad)))) by done. done.
Qed.

End WithCrypto.

(** ** A concrete block function *)

(** The key is added to the reversed block: any function on blocks will do. *)
Definition toy_aes (k block : list Z) : list Z :=
  map (fun '(a, b) => (a + 7 * b + 1) mod 256) (zip (rev block) (take 16 (k ++ repeat 0 16))).

#[export] Instance toy_crypto : Crypto := {| aes := toy_aes; ct_eq := fun a b => bool_decide (a = b) |}.

#[export] Instance toy_laws : CryptoLaws.
Proof.
  split.
  - intros k block H. cbn. unfold toy_aes.
    rewrite length_map, length_zip, length_take, length_app, repeat_length. unfold zeros. rewrite length_rev. lia.
  - intros a b. cbn. apply bool_decide_eq_true.
Qed.

Definition sample_ccm : Ccm := mk_ccm [1; 2; 3; 4; 5; 6; 7; 8; 9; 10; 11; 12; 13; 14; 15; 16] 16.
Definition sample_nonce : list Z := [0; 1; 2; 3; 4; 5; 6; 7; 8; 9; 10; 11; 12].
Definition sample_plain : list Z := [104; 101; 108; 108; 111; 32; 77; 97; 116; 116; 101; 114; 32; 119; 111; 114; 108; 100].

Lemma open_accepts_exactly_sealed_witness :
  exists wire, seal sample_ccm sample_nonce sample_plain [9; 9] = Ok wire
    /\ open sample_ccm sample_nonce wire [9; 9] = Ok sample_plain
    /\ open sample_ccm sample_nonce wire [9; 8] = Err (Invalid "CCM authentication failed").
Proof.
  eexists. split; [vm_compute; reflexivity|]. split; [|vm_compute; reflexivity].
  apply (open_accepts_exactly_sealed (key sample_ccm) 16 sample_ccm); [reflexivity|vm_compute; reflexivity].
Defined.

Lemma mac_is_cbc_witness :
  mac sample_ccm sample_nonce sample_plain [9; 9]
  = Ok (cbc_mac (key sample_ccm) (formatted sample_ccm sample_nonce sample_plain [9; 9])).
Proof. apply (mac_is_cbc sample_ccm sample_nonce sample_plain [9; 9]); cbn; lia. Defined.
