(* ===== verification/Message.v ===== *)
(** * Message: the frames of Matter

    Models [plugins/matter/src/message.rs]: the header in the clear, the exchange header, and
    messages without and with protection. *)

From Stdlib Require Import ZArith Lia String.
From S2P Require Import Prelude Errors Tlv Wire TlvOk Ccm.

Local Open Scope Z_scope.

Definition MAX_UDP : Z := 1232.

Record Header : Type := mk_header {
  session : Z; kind : Z; control : bool; counter : Z; source : option Z; destination : option Z;
  group : option Z; h_extensions : list Z
}.

Record Protocol : Type := mk_protocol {
  initiator : bool; reliable : bool; ack : option Z; opcode : Z; exchange : Z; protocol : Z;
  vendor : option Z; p_extensions : list Z
}.

Record Message : Type := mk_message { m_header : Header; m_protocol : Protocol; payload : list Z }.

Definition is_some {A} (o : option A) : bool := match o with Some _ => true | None => false end.
Definition is_nil {A} (l : list A) : bool := match l with [] => true | _ => false end.

(** ** Writing *)

Definition ext (out bytes : list Z) : Result (list Z) :=
  if 65535 <? Z.of_nat (length bytes) then Err (Invalid "Matter extension too long")
  else if negb (is_nil bytes) then
    out ← append out (le_bytes 2 (Z.of_nat (length bytes))); append out bytes
  else Ok out.

(** [if let Some(n) = o { append(&mut out, &n.to_le_bytes())? }] *)
Definition append_some (out : list Z) (k : nat) (o : option Z) : Result (list Z) :=
  match o with Some n => append out (le_bytes k n) | None => Ok out end.

Definition header_validate (h : Header) : Result unit :=
  if (1 <? kind h) || (is_some (destination h) && is_some (group h)) || ((kind h =? 1) && negb (is_some (group h)))
  then Err (Invalid "invalid Matter addressing or session type") else Ok tt.

Definition header_flags (h : Header) : Z :=
  Z.lor (if is_some (source h) then 4 else 0)
        (if is_some (destination h) then 1 else if is_some (group h) then 2 else 0).

Definition header_security (h : Header) : Z :=
  Z.lor (Z.lor (kind h) (if control h then 64 else 0)) (if is_nil (h_extensions h) then 0 else 32).

Definition header_encode (h : Header) : Result (list Z) :=
  _ ← header_validate h;
  out ← append [] [header_flags h];
  out ← append out (le_bytes 2 (session h));
  out ← append out [header_security h];
  out ← append out (le_bytes 4 (counter h));
  out ← append_some out 8 (source h);
  out ← append_some out 8 (destination h);
  out ← append_some out 2 (group h);
  ext out (h_extensions h).

Definition protocol_flags (p : Protocol) : Z :=
  Z.lor (Z.lor (Z.lor (Z.lor (if initiator p then 1 else 0) (if is_some (ack p) then 2 else 0))
    (if reliable p then 4 else 0)) (if is_nil (p_extensions p) then 0 else 8)) (if is_some (vendor p) then 16 else 0).

Definition protocol_encode (p : Protocol) : Result (list Z) :=
  out ← append [] [protocol_flags p; opcode p];
  out ← append out (le_bytes 2 (exchange p));
  out ← append_some out 2 (vendor p);
  out ← append out (le_bytes 2 (protocol p));
  out ← append_some out 4 (ack p);
  ext out (p_extensions p).

(** ** Reading *)

(** The cursor is the position in the bytes. *)
Definition C (A : Type) : Type := nat -> Result (A * nat).

Definition read_le (bytes : list Z) (n : nat) : C Z := fun at_ =>
  b ← ok_or (slice bytes at_ (at_ + n)) (Invalid "short Matter header"); Ok (le_val b, (at_ + n)%nat).

Definition read_extension (bytes : list Z) : C (list Z) := fun at_ =>
  '(n, at_) ← read_le bytes 2 at_;
  b ← ok_or (slice bytes at_ (at_ + Z.to_nat n)) (Invalid "short Matter extension");
  b ← copy b; Ok (b, (at_ + Z.to_nat n)%nat).

(** [if flag { Some(c.le(n)?) } else { None }] *)
Definition read_some (bytes : list Z) (flag : bool) (n : nat) : C (option Z) := fun at_ =>
  if flag then '(v, at_) ← read_le bytes n at_; Ok (Some v, at_) else Ok (None, at_).

Definition read_ext (bytes : list Z) (flag : bool) : C (list Z) := fun at_ =>
  if flag then read_extension bytes at_ else Ok ([], at_).

Definition has (flags bit : Z) : bool := negb (Z.land flags bit =? 0).

Definition peek (bytes : list Z) : Result (Header * nat) :=
  '(flags, i) ← read_le bytes 1 0%nat;
  if has flags 248 || (Z.land flags 3 =? 3) then Err (Invalid "unsupported Matter message flags")
  else
    '(session, i) ← read_le bytes 2 i;
    '(security, i) ← read_le bytes 1 i;
    if has security 156 || (1 <? Z.land security 3) then Err (Invalid "unsupported Matter security flags")
    else
      '(counter, i) ← read_le bytes 4 i;
      '(source, i) ← read_some bytes (has flags 4) 8 i;
      '(destination, i) ← read_some bytes (Z.land flags 3 =? 1) 8 i;
      '(group, i) ← read_some bytes (Z.land flags 3 =? 2) 2 i;
      '(extensions, i) ← read_ext bytes (has security 32) i;
      let h := mk_header session (Z.land security 3) (has security 64) counter source destination group extensions in
      _ ← header_validate h;
      Ok (h, i).

Definition protocol_parse (bytes : list Z) : Result (Protocol * nat) :=
  '(flags, i) ← read_le bytes 1 0%nat;
  if has flags 224 then Err (Invalid "reserved Matter exchange flag")
  else
    '(opcode, i) ← read_le bytes 1 i;
    '(exchange, i) ← read_le bytes 2 i;
    '(vendor, i) ← read_some bytes (has flags 16) 2 i;
    '(protocol, i) ← read_le bytes 2 i;
    '(ack, i) ← read_some bytes (has flags 2) 4 i;
    '(extensions, i) ← read_ext bytes (has flags 8) i;
    Ok (mk_protocol (has flags 1) (has flags 4) ack opcode exchange protocol vendor extensions, i).

(** [Header::nonce]: the byte of security flags, the counter and the node of the session. *)
Definition nonce (h : Header) (bytes : list Z) (src : Z) : Result (list Z) :=
  if match source h with Some s => negb (s =? src) | None => false end
  then Err (Invalid "Matter source does not match secure session")
  else b ← ok_or (bytes !! 3%nat) (Invalid "short Matter header");
       Ok (b :: le_bytes 4 (counter h) ++ le_bytes 8 src).

(** ** Messages *)

Definition unsecured (m : Message) : Result unit :=
  if negb (session (m_header m) =? 0) || negb (kind (m_header m) =? 0)
  then Err (Invalid "unsecured Matter message requires unicast session zero") else Ok tt.

Definition encode (m : Message) : Result (list Z) :=
  _ ← unsecured m;
  out ← header_encode (m_header m);
  p ← protocol_encode (m_protocol m);
  out ← append out p;
  append out (payload m).

Definition parse (bytes : list Z) : Result Message :=
  '(header, n) ← peek bytes;
  '(protocol, p) ← protocol_parse (drop n bytes);
  body ← copy (drop (n + p) bytes);
  let m := mk_message header protocol body in
  _ ← unsecured m;
  Ok m.

Definition SESSION_MISSING : Error := Invalid "secured Matter message requires nonzero session".

Section WithCrypto.
Context {HC : Crypto}.

Definition seal (m : Message) (key : list Z) (src : Z) : Result (list Z) :=
  if session (m_header m) =? 0 then Err SESSION_MISSING
  else
    header ← header_encode (m_header m);
    plain ← protocol_encode (m_protocol m);
    plain ← append plain (payload m);
    n ← nonce (m_header m) header src;
    c ← Ccm_new key 16;
    sealed ← Ccm.seal c n plain header;
    append header sealed.

Definition open (bytes key : list Z) (src : Z) : Result Message :=
  '(header, n) ← peek bytes;
  if session header =? 0 then Err SESSION_MISSING
  else
    no ← nonce header bytes src;
    c ← Ccm_new key 16;
    plain ← Ccm.open c no (drop n bytes) (take n bytes);
    '(protocol, p) ← protocol_parse plain;
    body ← copy (drop p plain);
    Ok (mk_message header protocol body).

End WithCrypto.

(** * MessageOk: Matter frames round trip, and protection is checked before anything is read *)

(** ** What encoding writes *)

Definition some_bytes (k : nat) (o : option Z) : list Z := match o with Some n => le_bytes k n | None => [] end.
Definition ext_bytes (b : list Z) : list Z :=
  match b with [] => [] | _ => le_bytes 2 (Z.of_nat (length b)) ++ b end.

Definition header_bytes (h : Header) : list Z :=
  [header_flags h] ++ le_bytes 2 (session h) ++ [header_security h] ++ le_bytes 4 (counter h)
  ++ some_bytes 8 (source h) ++ some_bytes 8 (destination h) ++ some_bytes 2 (group h) ++ ext_bytes (h_extensions h).

Definition protocol_bytes (p : Protocol) : list Z :=
  [protocol_flags p; opcode p] ++ le_bytes 2 (exchange p) ++ some_bytes 2 (vendor p) ++ le_bytes 2 (protocol p)
  ++ some_bytes 4 (ack p) ++ ext_bytes (p_extensions p).

Lemma append_eq a b l : append a b = Ok l -> l = a ++ b.
Proof. by intros [-> _]%append_Ok. Qed.

Lemma append_some_eq a k o l : append_some a k o = Ok l -> l = a ++ some_bytes k o.
Proof. destruct o; cbn; [apply append_eq|]. intros [= ->]. by rewrite app_nil_r. Qed.

Lemma ext_eq a b l : ext a b = Ok l -> l = a ++ ext_bytes b /\ Z.of_nat (length b) <= 65535.
Proof.
  unfold ext. destruct (Z.ltb_spec 65535 (Z.of_nat (length b))); [done|]. destruct b as [|x b]; cbn [is_nil negb].
  - intros [= ->]. by rewrite app_nil_r.
  - destruct (append a _) as [o|] eqn:E; cbn [mbind result_bind]; [|done]. intros ->%append_eq.
    apply append_eq in E as ->. split; [|done]. by rewrite <- app_assoc.
Qed.

(** One step of a chain of appends. *)
Ltac step H :=
  match type of H with
  | context [mbind _ ?r] =>
      let x := fresh "out" in let E := fresh "E" in
      destruct r as [x|] eqn:E; cbn [mbind result_bind] in H; [|done];
      first [apply append_eq in E as -> | apply append_some_eq in E as ->]
  end.

Lemma header_encode_Ok h bs :
  header_encode h = Ok bs -> bs = header_bytes h /\ header_validate h = Ok tt /\ Z.of_nat (length (h_extensions h)) <= 65535.
Proof.
  unfold header_encode, header_bytes. destruct (header_validate h) as [[]|] eqn:E; cbn [mbind result_bind]; [|done].
  intros H. do 7 step H. apply ext_eq in H as [-> Hl]. rewrite <- !app_assoc. done.
Qed.

Lemma protocol_encode_Ok p bs :
  protocol_encode p = Ok bs -> bs = protocol_bytes p /\ Z.of_nat (length (p_extensions p)) <= 65535.
Proof.
  unfold protocol_encode, protocol_bytes. intros H. do 5 step H. apply ext_eq in H as [-> Hl].
  rewrite <- !app_assoc. done.
Qed.

(** ** Reading it back *)

(** [l] is what follows the cursor. *)
Definition follows (bytes : list Z) (at_ : nat) (l : list Z) : Prop := exists pre, bytes = pre ++ l /\ at_ = length pre.

Lemma slice_follows bytes at_ b l :
  follows bytes at_ (b ++ l) -> slice bytes at_ (at_ + length b) = Some b /\ follows bytes (at_ + length b) l.
Proof.
  intros (pre & -> & ->). split.
  - unfold slice. rewrite !length_app. rewrite (proj2 (Nat.leb_le _ _)), (proj2 (Nat.leb_le _ _)) by lia. cbn [andb].
    rewrite drop_app_length. replace (length pre + length b - length pre)%nat with (length b) by lia. by rewrite take_app_length.
  - exists (pre ++ b). by rewrite length_app, <- app_assoc.
Qed.

Lemma read_le_follows bytes at_ k v l :
  0 <= v < 256 ^ Z.of_nat k -> follows bytes at_ (le_bytes k v ++ l) ->
  read_le bytes k at_ = Ok (v, (at_ + k)%nat) /\ follows bytes (at_ + k) l.
Proof.
  intros Hv Hf. destruct (slice_follows _ _ _ _ Hf) as [E H]. rewrite length_le_bytes in E, H. split; [|done].
  unfold read_le. rewrite E. cbn [ok_or mbind result_bind]. by rewrite le_val_le_bytes.
Qed.

Lemma read_byte_follows bytes at_ v l :
  0 <= v < 256 -> follows bytes at_ (v :: l) -> read_le bytes 1 at_ = Ok (v, (at_ + 1)%nat) /\ follows bytes (at_ + 1) l.
Proof.
  intros Hv Hf. apply (read_le_follows bytes at_ 1 v l); [exact Hv|]. cbn [le_bytes app]. by rewrite Z.mod_small.
Qed.

Definition fits_opt (k : nat) (o : option Z) : Prop := match o with Some v => 0 <= v < 256 ^ Z.of_nat k | None => True end.
Definition opt_len (k : nat) (o : option Z) : nat := match o with Some _ => k | None => 0%nat end.

Lemma read_some_follows bytes at_ flag k o l :
  flag = is_some o -> fits_opt k o -> follows bytes at_ (some_bytes k o ++ l) ->
  read_some bytes flag k at_ = Ok (o, (at_ + opt_len k o)%nat) /\ follows bytes (at_ + opt_len k o) l.
Proof.
  intros -> Hv Hf. unfold read_some. destruct o as [v|]; cbn [is_some opt_len some_bytes] in *.
  - destruct (read_le_follows _ _ _ _ _ Hv Hf) as [-> H]. done.
  - rewrite Nat.add_0_r. done.
Qed.

Lemma read_ext_follows bytes at_ flag b l :
  flag = negb (is_nil b) -> Z.of_nat (length b) <= 65535 -> follows bytes at_ (ext_bytes b ++ l) ->
  read_ext bytes flag at_ = Ok (b, (at_ + length (ext_bytes b))%nat) /\ follows bytes (at_ + length (ext_bytes b)) l.
Proof.
  intros -> Hl Hf. unfold read_ext. destruct b as [|x b]; cbn [is_nil negb ext_bytes] in *; [by rewrite Nat.add_0_r|].
  set (e := x :: b) in *. rewrite <- app_assoc in Hf. unfold read_extension.
  destruct (read_le_follows bytes at_ 2 (Z.of_nat (length e)) (e ++ l)) as [-> H]; [change (256 ^ Z.of_nat 2) with 65536; lia|done|].
  cbn [mbind result_bind]. rewrite Nat2Z.id. destruct (slice_follows _ _ _ _ H) as [-> H'].
  cbn [ok_or mbind result_bind]. rewrite copy_fits by (unfold MAX; lia). cbn [mbind result_bind].
  rewrite length_app, length_le_bytes, Nat.add_assoc. done.
Qed.

(** What the types of the fields allow. *)
Record header_ok (h : Header) : Prop := {
  ho_session : 0 <= session h < 65536;
  ho_kind : 0 <= kind h < 256;
  ho_counter : 0 <= counter h < 4294967296;
  ho_source : fits_opt 8 (source h);
  ho_destination : fits_opt 8 (destination h);
  ho_group : fits_opt 2 (group h)
}.

Record protocol_ok (p : Protocol) : Prop := {
  pr_opcode : 0 <= opcode p < 256;
  pr_exchange : 0 <= exchange p < 65536;
  pr_protocol : 0 <= protocol p < 65536;
  pr_ack : fits_opt 4 (ack p);
  pr_vendor : fits_opt 2 (vendor p)
}.

Lemma header_flags_ok h : header_validate h = Ok tt ->
  let f := header_flags h in
  0 <= f < 256 /\ has f 248 = false /\ Z.land f 3 =? 3 = false /\ has f 4 = is_some (source h)
  /\ (Z.land f 3 =? 1) = is_some (destination h) /\ (Z.land f 3 =? 2) = is_some (group h).
Proof.
  unfold header_validate, header_flags. destruct (source h), (destination h), (group h); cbn [is_some andb orb];
    rewrite ?orb_true_r; try done; intros _; vm_compute; repeat split; try done; lia.
Qed.

Lemma header_security_ok h : header_validate h = Ok tt -> 0 <= kind h ->
  let s := header_security h in
  0 <= s < 256 /\ has s 156 = false /\ Z.land s 3 = kind h /\ has s 64 = control h
  /\ has s 32 = negb (is_nil (h_extensions h)) /\ (1 <? kind h) = false.
Proof.
  unfold header_validate, header_security. intros H Hk. destruct (Z.ltb_spec 1 (kind h)); [done|].
  assert (kind h = 0 \/ kind h = 1) as [-> | ->] by lia; destruct (control h), (is_nil (h_extensions h));
    vm_compute; repeat split; try done; lia.
Qed.

Ltac reads E := let H := fresh in destruct E as [H ?]; rewrite H; clear H; cbn [mbind result_bind].

Lemma peek_header h rest :
  header_ok h -> header_validate h = Ok tt -> Z.of_nat (length (h_extensions h)) <= 65535 ->
  peek (header_bytes h ++ rest) = Ok (h, length (header_bytes h)).
Proof.
  intros [Hs Hk Hc Hso Hd Hg] Hv He. set (bytes := header_bytes h ++ rest).
  destruct (header_flags_ok h Hv) as (Hf & F1 & F2 & F3 & F4 & F5).
  destruct (header_security_ok h Hv ltac:(lia)) as (Hse & S1 & S2 & S3 & S4 & S5). cbv zeta in *.
  assert (follows bytes 0 (header_bytes h ++ rest)) as F by (by exists []).
  unfold header_bytes in F. rewrite <- !app_assoc in F. cbn [app] in F. unfold peek.
  destruct (read_byte_follows _ _ _ _ Hf F) as [-> F']; cbn [mbind result_bind]. rewrite F1, F2. cbn [orb].
  destruct (read_le_follows _ _ 2 _ _ Hs F') as [-> F'']; cbn [mbind result_bind]. clear F F'.
  destruct (read_byte_follows _ _ _ _ Hse F'') as [-> F]; cbn [mbind result_bind]. rewrite S1, S2, S5. cbn [orb].
  destruct (read_le_follows _ _ 4 _ _ Hc F) as [-> F']; cbn [mbind result_bind]. clear F F''.
  destruct (read_some_follows _ _ _ 8 _ _ F3 Hso F') as [-> F]; cbn [mbind result_bind]. clear F'.
  destruct (read_some_follows _ _ _ 8 _ _ F4 Hd F) as [-> F']; cbn [mbind result_bind]. clear F.
  destruct (read_some_follows _ _ _ 2 _ _ F5 Hg F') as [-> F]; cbn [mbind result_bind]. clear F'.
  destruct (read_ext_follows _ _ _ _ _ S4 He F) as [-> _]; cbn [mbind result_bind]. rewrite S3.
  destruct h as [a b c d e f g i]. cbn [session kind control counter source destination group h_extensions] in *.
  rewrite Hv. cbn [mbind result_bind]. do 2 f_equal. unfold header_bytes.
  rewrite !length_app, !length_le_bytes. cbn [session kind control counter source destination group h_extensions length].
  destruct e, f, g; cbn [some_bytes opt_len length]; rewrite ?length_le_bytes; lia.
Qed.

Lemma protocol_flags_ok p :
  let f := protocol_flags p in
  0 <= f < 256 /\ has f 224 = false /\ has f 1 = initiator p /\ has f 2 = is_some (ack p) /\ has f 4 = reliable p
  /\ has f 8 = negb (is_nil (p_extensions p)) /\ has f 16 = is_some (vendor p).
Proof.
  unfold protocol_flags. destruct (initiator p), (is_some (ack p)), (reliable p), (is_nil (p_extensions p)), (is_some (vendor p));
    vm_compute; repeat split; try done; lia.
Qed.

Lemma protocol_parse_bytes p rest :
  protocol_ok p -> Z.of_nat (length (p_extensions p)) <= 65535 ->
  protocol_parse (protocol_bytes p ++ rest) = Ok (p, length (protocol_bytes p)).
Proof.
  intros [Ho Hx Hp Ha Hv] He. set (bytes := protocol_bytes p ++ rest).
  destruct (protocol_flags_ok p) as (Hf & F0 & F1 & F2 & F4 & F8 & F16). cbv zeta in *.
  assert (follows bytes 0 (protocol_bytes p ++ rest)) as F by (by exists []).
  unfold protocol_bytes in F. rewrite <- !app_assoc in F. cbn [app] in F. unfold protocol_parse.
  destruct (read_byte_follows _ _ _ _ Hf F) as [-> F']; cbn [mbind result_bind]. rewrite F0.
  destruct (read_byte_follows _ _ _ _ Ho F') as [-> G]; cbn [mbind result_bind]. clear F F'.
  destruct (read_le_follows _ _ 2 _ _ Hx G) as [-> G']; cbn [mbind result_bind]. clear G.
  destruct (read_some_follows _ _ _ 2 _ _ F16 Hv G') as [-> G]; cbn [mbind result_bind]. clear G'.
  destruct (read_le_follows _ _ 2 _ _ Hp G) as [-> G']; cbn [mbind result_bind]. clear G.
  destruct (read_some_follows _ _ _ 4 _ _ F2 Ha G') as [-> G]; cbn [mbind result_bind]. clear G'.
  destruct (read_ext_follows _ _ _ _ _ F8 He G) as [-> _]; cbn [mbind result_bind]. rewrite F1, F4.
  destruct p as [a b c d e f g i]. cbn [initiator reliable ack opcode exchange protocol vendor p_extensions] in *.
  do 2 f_equal. unfold protocol_bytes.
  rewrite !length_app, !length_le_bytes. cbn [initiator reliable ack opcode exchange protocol vendor p_extensions length].
  destruct c, g; cbn [some_bytes opt_len length]; rewrite ?length_le_bytes; lia.
Qed.

(** ** Messages *)

Definition message_ok (m : Message) : Prop := header_ok (m_header m) /\ protocol_ok (m_protocol m).

Lemma append_short a b l : append a b = Ok l -> Z.of_nat (length b) <= MAX.
Proof. intros [-> [H|H]]%append_Ok; [unfold MAX; lia|]. rewrite length_app in H. lia. Qed.

(** The inner part of a message, read at once. *)
Lemma inner_reads p body l :
  protocol_ok p -> Z.of_nat (length (p_extensions p)) <= 65535 -> append (protocol_bytes p) body = Ok l ->
  protocol_parse l = Ok (p, length (protocol_bytes p)) /\ copy (drop (length (protocol_bytes p)) l) = Ok body.
Proof.
  intros Hp He Ha. pose proof (append_short _ _ _ Ha). apply append_eq in Ha as ->.
  split; [by apply protocol_parse_bytes|]. rewrite drop_app_length. by apply copy_fits.
Qed.

(** An unprotected message is read back as it was written. *)
Theorem plain_message_roundtrip m bytes :
  message_ok m -> encode m = Ok bytes -> parse bytes = Ok m.
Proof.
  intros [Hh Hp] H. unfold encode in H. destruct (unsecured m) as [[]|] eqn:Eu; cbn [mbind result_bind] in H; [|done].
  destruct (header_encode _) as [hb|] eqn:Eh; cbn [mbind result_bind] in H; [|done].
  destruct (protocol_encode _) as [pb|] eqn:Ep; cbn [mbind result_bind] in H; [|done].
  apply header_encode_Ok in Eh as (-> & Hv & Hhe). apply protocol_encode_Ok in Ep as [-> Hpe]. step H.
  pose proof (append_short _ _ _ H) as Hl. apply append_eq in H as ->. rewrite <- app_assoc.
  unfold parse. rewrite peek_header by done. cbn [mbind result_bind]. rewrite drop_app_length.
  rewrite protocol_parse_bytes by done. cbn [mbind result_bind].
  rewrite <- length_app, app_assoc, drop_app_length, copy_fits by done. cbn [mbind result_bind].
  destruct m as [h p b]. cbn [m_header m_protocol payload] in *. by rewrite Eu.
Qed.

Section Secured.
Context {HC : Crypto} {HL : CryptoLaws}.

Lemma header_length h : (8 <= length (header_bytes h))%nat.
Proof. unfold header_bytes. rewrite !length_app, !length_le_bytes. cbn [length]. lia. Qed.

Lemma nonce_of_prefix h l k src : (4 <= length l)%nat -> nonce h (l ++ k) src = nonce h l src.
Proof. intros H. unfold nonce. by rewrite lookup_app_l by lia. Qed.

(** A protected message is read back as it was written, under the same key and node. *)
Theorem sealed_message_roundtrip m key src bytes :
  message_ok m -> seal m key src = Ok bytes -> open bytes key src = Ok m.
Proof.
  intros [Hh Hp] H. unfold seal in H. destruct (session (m_header m) =? 0) eqn:Es; [done|].
  destruct (header_encode _) as [hb|] eqn:Eh; cbn [mbind result_bind] in H; [|done].
  destruct (protocol_encode _) as [pb|] eqn:Ep; cbn [mbind result_bind] in H; [|done].
  apply header_encode_Ok in Eh as (-> & Hv & Hhe). apply protocol_encode_Ok in Ep as [-> Hpe].
  destruct (append _ _) as [plain|] eqn:Ea; cbn [mbind result_bind] in H; [|done].
  destruct (nonce _ _ _) as [n|] eqn:En; cbn [mbind result_bind] in H; [|done].
  destruct (Ccm_new _ _) as [c|] eqn:Ec; cbn [mbind result_bind] in H; [|done].
  destruct (Ccm.seal _ _ _ _) as [sealed|] eqn:Ese; cbn [mbind result_bind] in H; [|done].
  apply append_eq in H as ->. apply (open_seal _ _ _ _ _ _ _ Ec) in Ese.
  destruct (inner_reads _ _ _ Hp Hpe Ea) as [Hpp Hcp]. pose proof (header_length (m_header m)).
  unfold open. rewrite peek_header by done. cbn [mbind result_bind]. rewrite Es, nonce_of_prefix, En by lia.
  cbn [mbind result_bind]. rewrite Ec. cbn [mbind result_bind].
  rewrite take_app_length, drop_app_length, Ese. cbn [mbind result_bind]. rewrite Hpp. cbn [mbind result_bind].
  rewrite Hcp. cbn [mbind result_bind]. by destruct m.
Qed.

(** Whatever is opened was sealed under this key: its bytes are a header and what sealing
    produces for the nonce of the session, the inner message and exactly this header. *)
Theorem opened_message_was_sealed bytes key src m :
  open bytes key src = Ok m ->
  exists n no c plain p,
    peek bytes = Ok (m_header m, n) /\ session (m_header m) <> 0 /\ nonce (m_header m) bytes src = Ok no
    /\ Ccm_new key 16 = Ok c /\ Ccm.seal c no plain (take n bytes) = Ok (drop n bytes)
    /\ protocol_parse plain = Ok (m_protocol m, p) /\ payload m = drop p plain.
Proof.
  unfold open. destruct (peek bytes) as [[h n]|] eqn:Ep; cbn [mbind result_bind]; [|done].
  destruct (Z.eqb_spec (session h) 0) as [|Hs]; [done|].
  destruct (nonce h bytes src) as [no|] eqn:En; cbn [mbind result_bind]; [|done].
  destruct (Ccm_new key 16) as [c|] eqn:Ec; cbn [mbind result_bind]; [|done].
  destruct (Ccm.open c no _ _) as [plain|] eqn:Eo; cbn [mbind result_bind]; [|done].
  destruct (protocol_parse plain) as [[pr p]|] eqn:Epp; cbn [mbind result_bind]; [|done].
  destruct (copy _) as [body|] eqn:Eb; cbn [mbind result_bind]; [|done]. apply copy_Ok in Eb. intros [= <-].
  exists n, no, c, plain, p. cbn [m_header m_protocol payload]. apply (open_seal _ _ _ _ _ _ _ Ec) in Eo. auto 10.
Qed.
End Secured.

(** ** Witnesses *)

Definition sample_protocol : Protocol := mk_protocol true true (Some 12) 5 456 1 None [].
Definition sample_plain_message : Message :=
  mk_message (mk_header 0 0 false 345 (Some 123) (Some 456) None [104; 101]) sample_protocol [98; 111].
Definition sample_message : Message :=
  mk_message (mk_header 17 0 false 345 None None None []) sample_protocol [112; 114; 111; 116].

Lemma plain_message_roundtrip_witness :
  exists bytes, encode sample_plain_message = Ok bytes /\ parse bytes = Ok sample_plain_message.
Proof.
  eexists. split; [vm_compute; reflexivity|]. apply plain_message_roundtrip; [|vm_compute; reflexivity].
  split; split; cbn; lia || exact I.
Defined.

Lemma sealed_message_roundtrip_witness :
  exists bytes, seal sample_message (key sample_ccm) 7 = Ok bytes /\ open bytes (key sample_ccm) 7 = Ok sample_message.
Proof.
  eexists. split; [vm_compute; reflexivity|].
  apply sealed_message_roundtrip; [|vm_compute; reflexivity]. split; split; cbn; lia || exact I.
Defined.

Definition sample_sealed : list Z :=
  Eval vm_compute in match seal sample_message (key sample_ccm) 7 with Ok b => b | Err _ => [] end.

(** Flipping a bit of the counter makes the message unreadable. *)
Lemma opened_message_was_sealed_witness :
  open sample_sealed (key sample_ccm) 7 = Ok sample_message
  /\ (exists n no c plain p, peek sample_sealed = Ok (m_header sample_message, n)
      /\ session (m_header sample_message) <> 0
      /\ nonce (m_header sample_message) sample_sealed 7 = Ok no /\ Ccm_new (key sample_ccm) 16 = Ok c
      /\ Ccm.seal c no plain (take n sample_sealed) = Ok (drop n sample_sealed)
      /\ protocol_parse plain = Ok (m_protocol sample_message, p) /\ payload sample_message = drop p plain)
  /\ open (alter (fun b => Z.lxor b 1) 4%nat sample_sealed) (key sample_ccm) 7
     = Err (Invalid "CCM authentication failed").
Proof.
  assert (open sample_sealed (key sample_ccm) 7 = Ok sample_message) as E by (vm_compute; reflexivity).
  split; [exact E|]. split; [exact (opened_message_was_sealed _ _ _ _ E)|vm_compute; reflexivity].
Defined.
