(* ===== verification/Mrp.v ===== *)
(** * Mrp: sessions and exchanges of Matter

    Models [plugins/matter/src/mrp.rs]: the owner of all sessions and exchanges, the window
    against replays, reliable sending with retries, receiving, and the two queues towards the
    socket and the protocols.  A failed operation keeps what it had already changed, so an
    operation is a function to the state it leaves and its result. *)

From Stdlib Require Import ZArith Lia String.
From S2P Require Import Prelude Errors Tlv Wire TlvOk Ccm Message.
From S2P Require Value.

Local Open Scope Z_scope.

Definition MAX_SESSIONS : Z := 64.
Definition MAX_EXCHANGES : Z := 128.
Definition MAX_EVENTS : nat := 64.
Definition MAX_OUT : nat := 64.

(** ** Timing *)

Record Timing : Type := mk_timing { idle : Z; active : Z; threshold : Z }.

Definition timing_base (t : Timing) (last : option Z) (now : Z) : Z :=
  if (0 <? active t) && (0 <? threshold t)
     && match last with Some last => saturating_sub now last <? threshold t | None => false end
  then active t
  else if 0 <? idle t then idle t
  else if 0 <? active t then active t
  else 500.

(** [u64::saturating_mul] *)
Definition saturating_mul (a b : Z) : Z := Z.min U64_MAX (a * b).

(** [for _ in 1..attempt { n = n.saturating_mul(16) / 10 }], [k] rounds. *)
Fixpoint grow (k : nat) (n : Z) : Z := match k with O => n | S k => grow k (saturating_mul n 16 / 10) end.

Definition interval (base attempt jitter : Z) : Z :=
  let n := grow (Z.to_nat (attempt - 1)) (saturating_mul base 1100 / 1000) in
  Z.max 1 (saturating_add n (saturating_mul n jitter / U32_MAX / 4)).

(** ** The window of 64 counters *)

Record Replay : Type := mk_replay { maximum : option Z; seen : Z }.
Definition Replay_default : Replay := mk_replay None 0.

Definition mark (r : Replay) (counter : Z) : Replay * bool :=
  match maximum r with
  | None => (mk_replay (Some counter) 1, false)
  | Some max =>
      if max <? counter then
        let d := counter - max in
        (mk_replay (Some counter) (if 64 <=? d then 1 else Z.lor (Z.shiftl (seen r) d mod 2 ^ 64) 1), false)
      else
        let d := max - counter in
        if 64 <=? d then (r, true)
        else
          let bit := Z.shiftl 1 d in
          if negb (Z.land (seen r) bit =? 0) then (r, true)
          else (mk_replay (maximum r) (Z.lor (seen r) bit), false)
  end.

(** ** State *)

Record Session : Type := mk_session {
  local : Z; peer : Z; local_node : Z; peer_node : Z; address : string;
  outgoing_key : list Z; incoming_key : list Z; timing : Timing
}.

Record Secure : Type := mk_secure { config : Session; s_counter : Z; s_replay : Replay; last : option Z }.

Record Outgoing : Type := mk_outgoing { o_session : Z; o_address : string; o_bytes : list Z }.

Definition Handle : Type := Z.

Inductive Event : Type :=
| Accepted (h : Handle)
| EMessage (h : Handle) (m : Message)
| Acknowledged (h : Handle) (counter : Z)
| Failed (h : Handle).

Definition event_handle (e : Event) : Handle :=
  match e with Accepted h | EMessage h _ | Acknowledged h _ | Failed h => h end.

Record Pending : Type := mk_pending { p_counter : Z; p_bytes : list Z; attempt : Z; p_next : Z }.

Record Exchange : Type := mk_exchange {
  handle : Handle; remote : string; e_session : Z; id : Z; e_initiator : bool; e_protocol : Z;
  ephemeral : Z; e_replay : Replay; e_ack : option Z; pending : option Pending; retry : Z
}.

Record Node : Type := mk_node {
  sessions : list Secure; exchanges : list Exchange; out : list Outgoing; events : list Event;
  n_counter : Z; next_handle : Z; next_exchange : Z
}.

(** *** Updates of one field *)

Definition set_sessions (n : Node) x := mk_node x (exchanges n) (out n) (events n) (n_counter n) (next_handle n) (next_exchange n).
Definition set_exchanges (n : Node) x := mk_node (sessions n) x (out n) (events n) (n_counter n) (next_handle n) (next_exchange n).
Definition set_out (n : Node) x := mk_node (sessions n) (exchanges n) x (events n) (n_counter n) (next_handle n) (next_exchange n).
Definition set_events (n : Node) x := mk_node (sessions n) (exchanges n) (out n) x (n_counter n) (next_handle n) (next_exchange n).
Definition set_counter (n : Node) x := mk_node (sessions n) (exchanges n) (out n) (events n) x (next_handle n) (next_exchange n).
Definition set_next_handle (n : Node) x := mk_node (sessions n) (exchanges n) (out n) (events n) (n_counter n) x (next_exchange n).
Definition set_next_exchange (n : Node) x := mk_node (sessions n) (exchanges n) (out n) (events n) (n_counter n) (next_handle n) x.

Definition with_counter (s : Secure) c := mk_secure (config s) c (s_replay s) (last s).
Definition with_seen (s : Secure) r now := mk_secure (config s) (s_counter s) r (Some now).

Definition with_ack (e : Exchange) a :=
  mk_exchange (handle e) (remote e) (e_session e) (id e) (e_initiator e) (e_protocol e) (ephemeral e) (e_replay e) a (pending e) (retry e).
Definition with_pending (e : Exchange) p :=
  mk_exchange (handle e) (remote e) (e_session e) (id e) (e_initiator e) (e_protocol e) (ephemeral e) (e_replay e) (e_ack e) p (retry e).
Definition with_replay (e : Exchange) r :=
  mk_exchange (handle e) (remote e) (e_session e) (id e) (e_initiator e) (e_protocol e) (ephemeral e) r (e_ack e) (pending e) (retry e).

(** ** Operations *)

Definition Op (A : Type) : Type := Node -> Node * Result A.
Definition ret {A} (a : A) : Op A := fun n => (n, Ok a).
Definition fail {A} (e : Error) : Op A := fun n => (n, Err e).
Definition bind {A B} (m : Op A) (f : A -> Op B) : Op B := fun n =>
  match m n with (n, Ok a) => f a n | (n, Err e) => (n, Err e) end.
Definition get : Op Node := fun n => (n, Ok n).
Definition modify (f : Node -> Node) : Op unit := fun n => (f n, Ok tt).
Definition try_ {A} (r : Result A) : Op A := fun n => (n, r).

Local Notation "'let!' x := m 'in' f" := (bind m (fun x => f)) (at level 10, x pattern, f at level 200).
Local Notation "m1 ;; m2" := (bind m1 (fun _ => m2)) (at level 100, right associativity).

(** [queue] of a bounded queue *)
Definition queue {A} (q : list A) (item : A) (max : nat) : Result (list A) :=
  if (max <=? length q)%nat then Err (Invalid "Matter transport queue full") else Ok (q ++ [item]).

Definition send_out (o : Outgoing) : Op unit := fun n =>
  match queue (out n) o MAX_OUT with Ok q => (set_out n q, Ok tt) | Err e => (n, Err e) end.

Definition push_event (e : Event) : Op unit := modify (fun n => set_events n (events n ++ [e])).

(** [u32::checked_add(1)] *)
Definition next_counter (c : Z) (message : string) : Result Z :=
  if c + 1 <=? U32_MAX then Ok (c + 1) else Err (Invalid message).

Definition Node_new (counter_seed exchange_seed : Z) : Node :=
  mk_node [] [] [] [] (Z.land counter_seed 268435455) 0 exchange_seed.

Definition is_local (id : Z) (s : Secure) : bool := local (config s) =? id.
Definition has_session (n : Node) (id : Z) : bool := existsb (is_local id) (sessions n).

Definition register (c : Session) (counter_seed : Z) : Op unit := fun n =>
  if (local c =? 0) || (peer c =? 0) || (address c =? "")%string || has_session n (local c)
  then (n, Err (Invalid "invalid or duplicate Matter session"))
  else
    match Value.push (sessions n) (mk_secure c (Z.land counter_seed 268435455) Replay_default None) MAX_SESSIONS with
    | Ok l => (set_sessions n l, Ok tt)
    | Err e => (n, Err (Core e))
    end.

(** The event belongs to an open exchange of this session. *)
Definition belongs (n : Node) (id : Z) (ev : Event) : bool :=
  existsb (fun e => (handle e =? event_handle ev) && (e_session e =? id)) (exchanges n).

Definition remove (id : Z) : Op unit := fun n =>
  let gone := List.filter (fun e => e_session e =? id) (exchanges n) in
  let retained := List.filter (fun ev => negb (belongs n id ev)) (events n) in
  if (MAX_EVENTS <? length gone + length retained)%nat then (n, Err (Invalid "Matter event queue full"))
  else
    (mk_node (List.filter (fun s => negb (is_local id s)) (sessions n))
             (List.filter (fun e => negb (e_session e =? id)) (exchanges n))
             (List.filter (fun o => negb (o_session o =? id)) (out n))
             (retained ++ map (fun e => Failed (handle e)) (rev gone))
             (n_counter n) (next_handle n) (next_exchange n), Ok tt).

Definition new_handle : Op Handle := fun n =>
  match checked_add (next_handle n) 1 with
  | None => (n, Err (Invalid "Matter handles exhausted"))
  | Some h => (set_next_handle n h, Ok h)
  end.

Fixpoint find_from {A} (p : A -> bool) (l : list A) (i : nat) : option nat :=
  match l with [] => None | x :: l => if p x then Some i else find_from p l (S i) end.
Definition find_index {A} (p : A -> bool) (l : list A) : option nat := find_from p l 0.

Definition position (n : Node) (h : Handle) : Result nat :=
  ok_or (find_index (fun e => handle e =? h) (exchanges n)) (Invalid "Matter exchange closed").

(** The exchange at a position that was just found. *)
Definition no_exchange : Exchange := mk_exchange 0 "" 0 0 false 0 0 Replay_default None None 0.
Definition exchange_at (n : Node) (i : nat) : Exchange := nth i (exchanges n) no_exchange.
Definition update_exchange (i : nat) (f : Exchange -> Exchange) : Op unit :=
  modify (fun n => set_exchanges n (alter f i (exchanges n))).

(** The loop over exchange ids: the next that is free, in [k] rounds. *)
Fixpoint free_id (k : nat) (address : string) (session : Z) : Op (option Z) := fun n =>
  match k with
  | O => (n, Ok None)
  | S k =>
      let x := (next_exchange n + 1) mod 65536 in
      let n := set_next_exchange n x in
      if negb (existsb (fun e => e_initiator e && (id e =? x) && (remote e =? address)%string && (e_session e =? session))
                 (exchanges n))
      then (n, Ok (Some x)) else free_id k address session n
  end.

Definition MAX_EPHEMERAL : Z := 18446744004990074879.
Definition bad_ephemeral (e : Z) : bool := (e =? 0) || (MAX_EPHEMERAL <? e).

Definition initiate (addr : string) (session protocol eph retry_ms : Z) : Op Handle :=
  let! n := get in
  if (session =? 0) && bad_ephemeral eph then fail (Invalid "invalid ephemeral initiator ID")
  else if negb (session =? 0)
          && negb (existsb (fun s => is_local session s && (address (config s) =? addr)%string) (sessions n))
  then fail (Invalid "Matter session missing for peer")
  else
    let! o := free_id (Z.to_nat (MAX_EXCHANGES + 1)) addr session in
    let! x := try_ (ok_or o (Invalid "Matter exchange IDs unavailable")) in
    let! h := new_handle in
    let! n := get in
    let! l := try_ (from_core (Value.push (exchanges n)
                (mk_exchange h addr session x true protocol eph Replay_default None None retry_ms) MAX_EXCHANGES)) in
    modify (fun n => set_exchanges n l) ;; ret h.

Definition awaiting (h : Handle) (n : Node) : Result bool :=
  i ← position n h; Ok (match pending (exchange_at n i) with Some _ => true | None => false end).

Definition peer_of (h : Handle) (n : Node) : Result (string * Z * Z * Z) :=
  i ← position n h;
  let e := exchange_at n i in
  let node := match List.find (is_local (e_session e)) (sessions n) with Some s => peer_node (config s) | None => 0 end in
  Ok (remote e, e_session e, e_protocol e, node).

Definition close (h : Handle) (n : Node) : Node := set_exchanges n (List.filter (fun e => negb (handle e =? h)) (exchanges n)).

Definition outgoing (n : Node) : Node * option Outgoing :=
  match out n with [] => (n, None) | o :: l => (set_out n l, Some o) end.

Definition event (n : Node) : Node * option Event :=
  match events n with [] => (n, None) | e :: l => (set_events n l, Some e) end.

Section WithCrypto.
Context {HC : Crypto}.

(** [Node::build]: the frame and its counter, which is used up even when the frame fails. *)
Definition build (i : nat) (protocol opcode : Z) (payload : list Z) (reliable : bool) : Op (list Z * Z) :=
  let! n := get in
  let e := exchange_at n i in
  let secure := find_index (is_local (e_session e)) (sessions n) in
  let current := match secure with
                 | Some j => match sessions n !! j with Some s => s_counter s | None => 0 end
                 | None => n_counter n
                 end in
  let! counter := try_ (next_counter current "Matter counter exhausted") in
  let! payload := try_ (copy payload) in
  let p := mk_protocol (e_initiator e) reliable (e_ack e) opcode (id e) protocol None [] in
  let! frame :=
    match secure with
    | Some j =>
        match sessions n !! j with
        | None => fail (Invalid "Matter session expired")
        | Some s =>
            modify (fun n => set_sessions n (<[j := with_counter s counter]> (sessions n))) ;;
            try_ (Message.seal (mk_message (mk_header (peer (config s)) 0 false counter None None None []) p payload)
                    (outgoing_key (config s)) (local_node (config s)))
        end
    | None =>
        if negb (e_session e =? 0) then fail (Invalid "Matter session expired")
        else
          modify (fun n => set_counter n counter) ;;
          let source := if e_initiator e then Some (ephemeral e) else None in
          let destination := if e_initiator e then None else Some (ephemeral e) in
          try_ (Message.encode (mk_message (mk_header 0 0 false counter source destination None []) p payload))
    end in
  if MAX_UDP <? Z.of_nat (length frame) then fail (Invalid "Matter datagram exceeds IPv6 UDP budget")
  else ret (frame, counter).

Definition base (n : Node) (i : nat) (now : Z) : Z :=
  let e := exchange_at n i in
  if 0 <? retry e then retry e
  else match List.find (is_local (e_session e)) (sessions n) with
       | Some s => timing_base (timing (config s)) (last s) now
       | None => 500
       end.

Definition send (h : Handle) (opcode : Z) (payload : list Z) (reliable : bool) (now jitter : Z) : Op unit :=
  let! n := get in
  let! i := try_ (position n h) in
  if match pending (exchange_at n i) with Some _ => true | None => false end
  then fail (Invalid "Matter exchange already awaits acknowledgement")
  else
    let! (bytes, counter) := build i (e_protocol (exchange_at n i)) opcode payload reliable in
    let! n := get in
    let! p := (if reliable then
                 let! b := try_ (copy bytes) in
                 ret (Some (mk_pending counter b 0 (saturating_add now (interval (base n i now) 0 jitter))))
               else ret None) in
    let e := exchange_at n i in
    send_out (mk_outgoing (e_session e) (remote e) bytes) ;;
    update_exchange i (fun e => with_ack (with_pending e p) None).

Definition acknowledge (h : Handle) : Op unit :=
  let! n := get in
  let! i := try_ (position n h) in
  match e_ack (exchange_at n i) with
  | None => ret tt
  | Some _ =>
      let! (bytes, _) := build i 0 16 [] false in
      let! n := get in
      let e := exchange_at n i in
      send_out (mk_outgoing (e_session e) (remote e) bytes) ;;
      update_exchange i (fun e => with_ack e None)
  end.

Definition late_ack (addr : string) (m : Message) : Op unit :=
  if (session (m_header m) =? 0) || negb (reliable (m_protocol m)) then ret tt
  else
    let! n := get in
    let! j := try_ (ok_or (find_index (fun s => is_local (session (m_header m)) s && (address (config s) =? addr)%string) (sessions n))
                      (Invalid "Matter session missing")) in
    match sessions n !! j with
    | None => fail (Invalid "Matter session missing")
    | Some s =>
        let! counter := try_ (next_counter (s_counter s) "Matter counter exhausted; establish a new session") in
        modify (fun n => set_sessions n (<[j := with_counter s counter]> (sessions n))) ;;
        let a := mk_message (mk_header (peer (config s)) 0 false counter None None None [])
                   (mk_protocol (negb (initiator (m_protocol m))) false (Some (Message.counter (m_header m))) 16 (exchange (m_protocol m)) 0 None []) [] in
        let! bytes := try_ (Message.seal a (outgoing_key (config s)) (local_node (config s))) in
        send_out (mk_outgoing (session (m_header m)) addr bytes)
    end.

(** The session a header names, and the message it protects. *)
Definition authenticate (n : Node) (secure : option nat) (local_ : Z) (bytes : list Z) : Result Message :=
  if local_ =? 0 then Message.parse bytes
  else
    s ← ok_or (match secure with Some j => sessions n !! j | None => None end)
          (Invalid "unknown Matter secure session or address");
    m ← Message.open bytes (incoming_key (config s)) (peer_node (config s));
    if match destination (m_header m) with Some d => negb (d =? local_node (config s)) | None => false end
    then Err (Invalid "Matter destination differs from session") else Ok m.

(** A bare acknowledgement of the secure channel. *)
Definition lone_ack (p : Protocol) : bool := (opcode p =? 16) && (protocol p =? 0).

Definition matches_exchange (addr : string) (local_ : Z) (p : Protocol) (e : Exchange) : bool :=
  (remote e =? addr)%string && (e_session e =? local_) && (id e =? exchange p) && negb (Bool.eqb (e_initiator e) (initiator p)).

(** The replay window of the session takes the counter; no session, no duplicate. *)
Definition mark_session (secure : option nat) (counter now : Z) : Op bool := fun n =>
  match secure with
  | None => (n, Ok false)
  | Some j =>
      match sessions n !! j with
      | None => (n, Ok false)
      | Some s => let '(r, d) := mark (s_replay s) counter in
                  (set_sessions n (<[j := with_seen s r now]> (sessions n)), Ok d)
      end
  end.

(** The exchange of a message that belongs to none yet: a new one, at the end of the table. *)
Definition accept (addr : string) (local_ : Z) (m : Message) : Op nat :=
  let eph := default 0 (source (m_header m)) in
  if (local_ =? 0) && bad_ephemeral eph then fail (Invalid "invalid peer ephemeral ID")
  else
    let! h := new_handle in
    let! n := get in
    let! l := try_ (from_core (Value.push (exchanges n)
                (mk_exchange h addr local_ (exchange (m_protocol m)) false (protocol (m_protocol m)) eph
                   Replay_default None None 0) MAX_EXCHANGES)) in
    modify (fun n => set_exchanges n l) ;; ret (length (exchanges n)).

(** What a message does to its exchange. *)
Definition deliver (local_ : Z) (m : Message) (duplicate : bool) (i : nat) (accepted : bool) : Op unit :=
  let p := m_protocol m in
  let! n := get in
  let e := exchange_at n i in
  if negb (protocol p =? e_protocol e) && negb (lone_ack p)
  then fail (Invalid "message belongs to another Matter protocol")
  else if (local_ =? 0)
          && negb (bool_decide ((if e_initiator e then destination (m_header m) else source (m_header m)) = Some (ephemeral e)))
  then fail (Invalid "unsecured message addresses another initiator")
  else
    (if (accepted : bool) then push_event (Accepted (handle e)) else ret tt) ;;
    match ack p, pending e with
    | Some c, Some w =>
        if p_counter w =? c
        then update_exchange i (fun e => with_pending e None) ;; push_event (Acknowledged (handle e) c)
        else ret tt
    | _, _ => ret tt
    end ;;
    let! duplicate :=
      (if local_ =? 0 then
         let '(r, d) := mark (e_replay e) (Message.counter (m_header m)) in
         update_exchange i (fun e => with_replay e r) ;; ret d
       else ret duplicate) in
    (if reliable p then update_exchange i (fun e => with_ack e (Some (Message.counter (m_header m)))) else ret tt) ;;
    if lone_ack p then ret tt
    else if (duplicate : bool) then acknowledge (handle e)
    else push_event (EMessage (handle e) m).

Definition receive (addr : string) (bytes : list Z) (now : Z) : Op unit :=
  if MAX_UDP <? Z.of_nat (length bytes) then fail (Invalid "oversized Matter datagram")
  else
    let! n := get in
    if (MAX_EVENTS - 3 <? length (events n))%nat || (MAX_OUT <=? length (out n))%nat
    then fail (Invalid "Matter transport backpressure")
    else
      let! (header, _) := try_ (peek bytes) in
      if negb (kind header =? 0) || control header
      then fail (Invalid "Matter group and counter-control messages unsupported")
      else
        let local_ := session header in
        let secure := find_index (fun s => is_local local_ s && (address (config s) =? addr)%string) (sessions n) in
        let! m := try_ (authenticate n secure local_ bytes) in
        let p := m_protocol m in
        if is_some (vendor p) then fail (Invalid "vendor-specific Matter protocols unsupported")
        else if (local_ =? 0) && Bool.eqb (is_some (source (m_header m))) (is_some (destination (m_header m)))
        then fail (Invalid "unsecured Matter message needs one ephemeral ID")
        else
          let found := find_index (matches_exchange addr local_ p) (exchanges n) in
          let fresh := match found with Some _ => false | None => initiator p && negb (lone_ack p) end in
          if fresh && (MAX_EXCHANGES <=? Z.of_nat (length (exchanges n)))
          then fail (Invalid "Matter exchange table full")
          else
            let! duplicate := mark_session secure (Message.counter (m_header m)) now in
            match found with
            | Some i => deliver local_ m duplicate i false
            | None =>
                if duplicate || negb (initiator p) || lone_ack p then late_ack addr m
                else let! i := accept addr local_ m in deliver local_ m duplicate i true
            end.

Definition due (now : Z) (e : Exchange) : bool :=
  match pending e with Some p => p_next p <=? now | None => false end.

Definition remove_at {A} (i : nat) (l : list A) : list A := take i l ++ drop (S i) l.

Definition tick (now jitter : Z) : Op unit :=
  let! n := get in
  match find_index (due now) (exchanges n) with
  | None => ret tt
  | Some i =>
      let e := exchange_at n i in
      match pending e with
      | None => fail (Invalid "Matter retry missing")
      | Some p =>
          if 4 <=? attempt p then
            let! q := try_ (queue (events n) (Failed (handle e)) MAX_EVENTS) in
            modify (fun n => set_exchanges (set_events n q) (remove_at i (exchanges n)))
          else
            let next := saturating_add now (interval (base n i now) (attempt p + 1) jitter) in
            let! b := try_ (copy (p_bytes p)) in
            send_out (mk_outgoing (e_session e) (remote e) b) ;;
            update_exchange i (fun e => with_pending e (Some (mk_pending (p_counter p) (p_bytes p) (attempt p + 1) next)))
      end
  end.

End WithCrypto.
