(* ===== verification/MrpOk.v ===== *)
(** * MrpOk: no nonce twice, no message twice

    The window against replays is exact, and over every run of the transport no two frames of
    a session share a counter unless they are the same bytes, and no message is handed to a
    protocol twice. *)

From Stdlib Require Import ZArith Lia String.
From S2P Require Import Prelude Errors Tlv Wire TlvOk Ccm Message Mrp.
From S2P Require Value.

Local Open Scope Z_scope.

(** ** The window *)

(** The window says of [c] that it was seen or is too old. *)
Definition marked (r : Replay) (c : Z) : Prop :=
  exists max, maximum r = Some max /\ c <= max /\ (max - c < 64 -> Z.testbit (seen r) (max - c) = true).

Lemma land_bit x d : 0 <= d -> negb (Z.land x (Z.shiftl 1 d) =? 0) = Z.testbit x d.
Proof.
  intros Hd. rewrite Z.shiftl_1_l. destruct (Z.testbit x d) eqn:E.
  - apply negb_true_iff, Z.eqb_neq. intros H.
    assert (Z.testbit (Z.land x (2 ^ d)) d = true) as Ht by (rewrite Z.land_spec, Z.pow2_bits_true, E by done; done).
    by rewrite H, Z.bits_0 in Ht.
  - apply negb_false_iff, Z.eqb_eq. apply Z.bits_inj'. intros n Hn. rewrite Z.land_spec, Z.bits_0.
    destruct (Z.eq_dec n d) as [->|Hne]; [by rewrite E|]. by rewrite Z.pow2_bits_false, andb_false_r by lia.
Qed.

Lemma mark_true r c : (mark r c).2 = true <-> marked r c.
Proof.
  unfold mark, marked. destruct (maximum r) as [max|]; [|split; [done|by intros (? & ? & _)]].
  destruct (Z.ltb_spec max c).
  { split; [done|]. intros (m & [= <-] & ? & _). lia. }
  destruct (Z.leb_spec 64 (max - c)).
  { split; [|done]. intros _. exists max. split; [done|]. lia. }
  rewrite land_bit by lia. destruct (Z.testbit (seen r) (max - c)) eqn:E; cbn [snd].
  - split; [|done]. intros _. exists max. done.
  - split; [done|]. intros (m & [= <-] & _ & Hb). rewrite Hb in E by lia. done.
Qed.

Lemma shift_bit s d n : 0 <= d -> 0 <= n < 64 ->
  Z.testbit (Z.lor (Z.shiftl s d mod 2 ^ 64) 1) n = (n =? 0) || ((d <=? n) && Z.testbit s (n - d)).
Proof.
  intros Hd Hn. rewrite Z.lor_spec, Z.mod_pow2_bits_low, Z.shiftl_spec by lia.
  change 1 with (2 ^ 0) at 1. rewrite Z.pow2_bits_eqb by lia.
  rewrite (Z.eqb_sym 0 n). destruct (n =? 0); [by rewrite orb_true_r|]. rewrite orb_false_r.
  destruct (Z.leb_spec d n); [done|]. apply Z.testbit_neg_r. lia.
Qed.

(** Marking adds the counter, and forgets nothing that was marked. *)
Lemma mark_marked r c : marked (mark r c).1 c.
Proof.
  unfold mark, marked. destruct (maximum r) as [max|] eqn:Em.
  2:{ exists c. cbn. split; [done|]. split; [lia|]. intros _. by rewrite Z.sub_diag. }
  destruct (Z.ltb_spec max c).
  { exists c. cbn [fst maximum seen]. split; [done|]. split; [lia|]. intros _. rewrite Z.sub_diag.
    destruct (64 <=? c - max); [done|]. rewrite shift_bit by lia. done. }
  destruct (Z.leb_spec 64 (max - c)); [exists max; cbn [fst]; split; [done|lia]|].
  rewrite land_bit by lia. destruct (Z.testbit (seen r) (max - c)) eqn:E; cbn [fst]; exists max; cbn [maximum seen].
  - done.
  - split; [done|]. split; [done|]. intros _. rewrite Z.lor_spec, Z.shiftl_1_l, Z.pow2_bits_true by lia.
    apply orb_true_r.
Qed.

Lemma mark_keeps r c x : marked r x -> marked (mark r c).1 x.
Proof.
  intros (max & Em & Hx & Hb). unfold mark, marked. rewrite Em. destruct (Z.ltb_spec max c).
  { exists c. cbn [fst maximum seen]. split; [done|]. split; [lia|]. intros Hc.
    destruct (Z.leb_spec 64 (c - max)); [lia|]. rewrite shift_bit by lia.
    replace (c - x - (c - max)) with (max - x) by lia. rewrite Hb by lia.
    destruct (Z.leb_spec (c - max) (c - x)); [|lia]. apply orb_true_r. }
  destruct (Z.leb_spec 64 (max - c)); [by exists max|].
  destruct (negb _); cbn [fst]; [by exists max|]. exists max. cbn [maximum seen]. split; [done|]. split; [done|].
  intros Hd. by rewrite Z.lor_spec, Hb.
Qed.

(** Only what was marked, or is 64 behind, is marked. *)
Lemma mark_only r c x :
  marked (mark r c).1 x -> marked r x \/ x = c \/ (maximum r = None \/ exists m, maximum r = Some m /\ m < c) /\ x + 64 <= c.
Proof.
  unfold mark, marked. destruct (maximum r) as [max|] eqn:Em.
  2:{ cbn. intros (m & [= <-] & Hx & Hb). destruct (Z.ltb_spec (c - x) 64); [|right; right; split; [by left|lia]].
      right. left. specialize (Hb ltac:(lia)). destruct (Z.eq_dec (c - x) 0); [lia|].
      change 1 with (2 ^ 0) in Hb. rewrite Z.pow2_bits_false in Hb by lia. done. }
  destruct (Z.ltb_spec max c).
  { cbn [fst maximum seen]. intros (m & [= <-] & Hx & Hb). destruct (Z.ltb_spec (c - x) 64);
      [|right; right; split; [right; eauto|lia]].
    specialize (Hb ltac:(lia)). destruct (Z.eq_dec (c - x) 0); [right; left; lia|].
    destruct (Z.leb_spec 64 (c - max)).
    - change 1 with (2 ^ 0) in Hb. rewrite Z.pow2_bits_false in Hb by lia. done.
    - rewrite shift_bit in Hb by lia. destruct (Z.eqb_spec (c - x) 0); [lia|]. cbn [orb] in Hb.
      apply andb_true_iff in Hb as [Hd Hb]. left. exists max. split; [done|]. split; [lia|]. intros _.
      replace (max - x) with (c - x - (c - max)) by lia. done. }
  destruct (64 <=? max - c); [cbn [fst]; rewrite Em; by left|]. destruct (negb _); cbn [fst]; [rewrite Em; by left|].
  intros (m & [= <-] & Hx & Hb). cbn [maximum seen] in *. destruct (Z.eq_dec x c) as [->|Hne]; [by right; left|].
  left. exists max. split; [done|]. split; [done|]. intros Hd. specialize (Hb Hd). rewrite Z.lor_spec in Hb.
  apply orb_true_iff in Hb as [Hb|Hb]; [done|]. rewrite Z.shiftl_1_l in Hb.
  destruct (Z.ltb_spec (max - c) 0); [rewrite Z.pow_neg_r, Z.bits_0 in Hb by lia; done|].
  rewrite Z.pow2_bits_false in Hb by lia. done.
Qed.

(** The window after some counters. *)
Definition marks (cs : list Z) : Replay := fold_left (fun r c => (mark r c).1) cs Replay_default.

Lemma marks_snoc cs c : marks (cs ++ [c]) = (mark (marks cs) c).1.
Proof. unfold marks. by rewrite fold_left_app. Qed.

Lemma marks_maximum cs : match maximum (marks cs) with
                         | None => cs = []
                         | Some m => In m cs /\ forall c, In c cs -> c <= m
                         end.
Proof.
  induction cs as [|c cs IH] using rev_ind; [done|]. rewrite marks_snoc. unfold mark.
  destruct (maximum (marks cs)) as [max|] eqn:Em; [|subst cs; cbn; split; [auto|intros x [<-|[]]; lia]].
  destruct IH as [Hin Hmax].
  assert (forall x, In x (cs ++ [c]) -> x <= Z.max max c) as Hle.
  { intros x [Hx|[<-|[]]]%in_app_iff; [apply Hmax in Hx|]; lia. }
  destruct (Z.ltb_spec max c); cbn [fst maximum].
  - split; [apply in_app_iff; right; by left|]. intros x Hx. apply Hle in Hx. lia.
  - assert (maximum (if 64 <=? max - c then (marks cs, true)
       else if negb (Z.land (seen (marks cs)) (Z.shiftl 1 (max - c)) =? 0) then (marks cs, true)
       else (mk_replay (Some max) (Z.lor (seen (marks cs)) (Z.shiftl 1 (max - c))), false)).1 = Some max) as ->
      by (destruct (64 <=? _); [done|]; destruct (negb _); done).
    split; [apply in_app_iff; by left|]. intros x Hx. apply Hle in Hx. lia.
Qed.

Lemma marks_marked cs c : marked (marks cs) c <-> In c cs \/ exists m, In m cs /\ c + 64 <= m.
Proof.
  revert c. induction cs as [|y cs IH] using rev_ind; intros c.
  - split; [intros (m & ? & _); done|intros [[]|(m & [] & _)]].
  - rewrite marks_snoc. split.
    + intros [H|[->|[Hmax Hold]]]%mark_only.
      * apply IH in H as [H|(m & H & Hm)]; [left|right; exists m; split; [|done]]; apply in_app_iff; by left.
      * left. apply in_app_iff. right. by left.
      * right. exists y. split; [apply in_app_iff; right; by left|done].
    + intros H.
      assert (In c cs \/ (exists m, In m cs /\ c + 64 <= m) \/ c = y \/ c + 64 <= y) as [H'|[H'|[->|Hy]]].
      { destruct H as [[H|[H|[]]]%in_app_iff|(m & [H|[H|[]]]%in_app_iff & Hm)]; subst; eauto. }
      * apply mark_keeps, IH. by left.
      * apply mark_keeps, IH. by right.
      * apply mark_marked.
      * destruct (mark_marked (marks cs) y) as (m & Em & Hm & _). exists m. split; [done|]. split; [lia|].
        intros Hl. exfalso. lia.
Qed.

(** The window of 64 counters refuses exactly the counters it has seen and those at least
    64 behind the highest one: a duplicate never passes, and nothing fresh is refused. *)
Theorem replay_window_is_exact cs c :
  (mark (marks cs) c).2 = true <-> In c cs \/ exists m, In m cs /\ c + 64 <= m.
Proof. rewrite mark_true. apply marks_marked. Qed.

Lemma replay_window_is_exact_example : (mark (marks [100; 99; 200]) 137).2 = false /\ (mark (marks [100; 99; 200]) 136).2 = true.
Proof. by vm_compute. Qed.

(** ** Searching the tables *)

Lemma find_from_Some {A} (p : A -> bool) l : forall k i,
  find_from p l k = Some i -> exists x, (k <= i)%nat /\ l !! (i - k)%nat = Some x /\ p x = true /\ List.find p l = Some x.
Proof.
  induction l as [|y l IH]; intros k i; cbn [find_from List.find]; [done|]. destruct (p y) eqn:E.
  - intros [= <-]. exists y. rewrite Nat.sub_diag. done.
  - intros (x & Hk & Hl & Hp)%IH. exists x. split; [lia|]. replace (i - k)%nat with (S (i - S k)) by lia. done.
Qed.

Lemma find_index_Some {A} (p : A -> bool) l i :
  find_index p l = Some i -> exists x, l !! i = Some x /\ p x = true /\ List.find p l = Some x.
Proof. intros (x & _ & Hl & Hp)%find_from_Some. exists x. by rewrite Nat.sub_0_r in Hl. Qed.

Lemma find_index_None {A} (p : A -> bool) l : find_index p l = None -> List.find p l = None.
Proof.
  unfold find_index. generalize 0%nat. induction l as [|y l IH]; intros k; cbn [find_from List.find]; [done|].
  destruct (p y); [done|]. apply IH.
Qed.

Lemma find_app {A} (p : A -> bool) l k :
  List.find p (l ++ k) = match List.find p l with Some x => Some x | None => List.find p k end.
Proof. induction l as [|y l IH]; cbn; [done|]. by destruct (p y). Qed.

(** The session of an id. *)
Definition session_of (n : Node) (x : Z) : option Secure := List.find (is_local x) (sessions n).

Lemma is_local_true x s : is_local x s = true <-> local (config s) = x.
Proof. unfold is_local. apply Z.eqb_eq. Qed.

(** Each id has one session, and zero none. *)
Definition unique (l : list Secure) : Prop := NoDup (0 :: map (fun s => local (config s)) l).

Lemma unique_find l j s : unique l -> l !! j = Some s -> List.find (is_local (local (config s))) l = Some s.
Proof.
  intros [_ Hu]%NoDup_cons. revert j Hu. induction l as [|y l IH]; intros j Hu Hl; [done|]. apply NoDup_cons in Hu as [Hy Hu].
  cbn [List.find]. destruct j as [|j]; cbn in Hl.
  - injection Hl as ->. unfold is_local at 1. by rewrite Z.eqb_refl.
  - destruct (is_local _ y) eqn:E; [|by eapply IH]. apply is_local_true in E. exfalso. apply Hy. rewrite E.
    apply list_elem_of_fmap. exists s. split; [done|]. by eapply list_elem_of_lookup_2.
Qed.

(** Replacing a session by one of the same id. *)
Lemma unique_insert l j s s' : l !! j = Some s -> config s' = config s -> unique l -> unique (<[j := s']> l).
Proof.
  unfold unique. intros Hl Hc Hu. change (map ?f (<[j := s']> l)) with (f <$> <[j := s']> l).
  rewrite list_fmap_insert, Hc, list_insert_id; [done|]. change (fmap ?f l !! j) with ((f <$> l) !! j).
  by rewrite list_lookup_fmap, Hl.
Qed.

Lemma unique_app l s : unique l -> local (config s) <> 0 -> (forall s', In s' l -> local (config s') <> local (config s)) ->
  unique (l ++ [s]).
Proof.
  unfold unique. rewrite map_app. intros Hu Hz Hn. change (0 :: ?a ++ ?b) with ((0 :: a) ++ b). apply NoDup_app.
  split; [done|]. split; [|apply NoDup_singleton]. intros x Hx ->%list_elem_of_singleton.
  apply elem_of_cons in Hx as [|(s' & He & Hs')%list_elem_of_fmap]; [done|]. by apply list_elem_of_In, Hn in Hs'.
Qed.

Lemma unique_filter p l : unique l -> unique (List.filter p l).
Proof.
  unfold unique. rewrite !NoDup_cons. intros [Hz Hu]. induction l as [|s l IH]; [done|]. cbn in *.
  apply not_elem_of_cons in Hz as [Hz Hzl]. apply NoDup_cons in Hu as [Hs Hu]. destruct (IH Hzl Hu) as [IHz IHu].
  destruct (p s); [|done]. cbn. split; [by apply not_elem_of_cons|]. apply NoDup_cons. split; [|done].
  intros (s' & He & Hs')%list_elem_of_fmap. apply Hs. rewrite He. apply list_elem_of_fmap. exists s'. split; [done|].
  apply list_elem_of_In in Hs'. apply filter_In in Hs' as [Hs' _]. by apply list_elem_of_In.
Qed.

Lemma unique_nonzero l s : unique l -> In s l -> local (config s) <> 0.
Proof.
  intros [Hz _]%NoDup_cons Hs He. apply Hz. apply list_elem_of_fmap. exists s. split; [done|]. by apply list_elem_of_In.
Qed.

(** Removing other sessions. *)
Lemma find_filter x y l : y <> x \/ unique l /\ y = 0 ->
  List.find (is_local y) (List.filter (fun s => negb (is_local x s)) l) = List.find (is_local y) l.
Proof.
  intros Hy. destruct (decide (y = x)) as [->|Hne].
  - destruct Hy as [|[Hu ->]]; [done|]. f_equal. induction l as [|s l IH]; [done|]. cbn [List.filter].
    destruct (is_local 0 s) eqn:E; [apply is_local_true in E; by apply (unique_nonzero _ s) in Hu; [|left]|].
    cbn [negb]. f_equal. apply IH. unfold unique in *. cbn in Hu.
    apply NoDup_cons in Hu as [Hz Hu]. apply NoDup_cons in Hu as [_ Hu]. apply not_elem_of_cons in Hz as [_ Hz].
    by apply NoDup_cons.
  - clear Hy. induction l as [|s l IH]; [done|]. cbn [List.filter List.find]. destruct (is_local x s) eqn:Ex; cbn [negb].
    + apply is_local_true in Ex. assert (is_local y s = false) as -> by (apply Z.eqb_neq; congruence). done.
    + cbn [List.find]. by destruct (is_local y s).
Qed.

Lemma find_insert l j s s' x : l !! j = Some s -> config s' = config s -> unique l ->
  List.find (is_local x) (<[j := s']> l) = if local (config s) =? x then Some s' else List.find (is_local x) l.
Proof.
  intros Hl Hc Hu. destruct (Z.eqb_spec (local (config s)) x) as [<-|Hne].
  - rewrite <- Hc. eapply unique_find; [by eapply unique_insert|]. apply list_lookup_insert_eq. by eapply lookup_lt_Some.
  - clear Hu. revert j Hl. induction l as [|y l IH]; intros [|j] Hl; cbn in Hl |- *; [done|done| |].
    + injection Hl as ->. unfold is_local at 1 3. rewrite Hc. by rewrite (proj2 (Z.eqb_neq _ _) Hne).
    + destruct (is_local x y); [done|]. by apply IH.
Qed.

(** ** Runs of the transport *)

Section WithCrypto.
Context {HC : Crypto}.

(** A call of its owner; the last two take from the queues. *)
Inductive Call : Type :=
| Register (c : Session) (seed : Z)
| Remove (x : Z)
| Initiate (addr : string) (session protocol eph retry_ms : Z)
| Send (h : Handle) (opcode : Z) (payload : list Z) (reliable : bool) (now jitter : Z)
| Acknowledge (h : Handle)
| Close (h : Handle)
| Receive (addr : string) (bytes : list Z) (now : Z)
| Tick (now jitter : Z)
| TakeOutgoing
| TakeEvent.

Definition perform (c : Call) : Op unit :=
  match c with
  | Register c seed => register c seed
  | Remove x => remove x
  | Initiate addr session protocol eph retry_ms => bind (initiate addr session protocol eph retry_ms) (fun _ => ret tt)
  | Send h opcode payload reliable now jitter => send h opcode payload reliable now jitter
  | Acknowledge h => acknowledge h
  | Close h => modify (close h)
  | Receive addr bytes now => receive addr bytes now
  | Tick now jitter => tick now jitter
  | TakeOutgoing => modify (fun n => (outgoing n).1)
  | TakeEvent => modify (fun n => (event n).1)
  end.

Definition message_of (e : Event) : option (Handle * Message) := match e with EMessage h m => Some (h, m) | _ => None end.

(** The messages that wait for a protocol. *)
Definition inbox (n : Node) : list (Handle * Message) := omap message_of (events n).

(** The node, the frames that left it and the messages it handed to the protocols, both for the
    keys that are still in use: removing a session discards its keys. *)
Record World : Type := mk_world { node : Node; sent : list Outgoing; told : list (Handle * Message) }.

Definition revoke (x : Z) (l : list Outgoing) : list Outgoing :=
  if x =? 0 then l else List.filter (fun o => negb (o_session o =? x)) l.
Definition forget (x : Z) (l : list (Handle * Message)) : list (Handle * Message) :=
  if x =? 0 then l else List.filter (fun k => negb (session (m_header k.2) =? x)) l.

Definition step (w : World) (c : Call) : World :=
  let '(n, r) := perform c (node w) in
  match c, r with
  | Remove x, Ok _ => mk_world n (revoke x (sent w)) (forget x (told w))
  | TakeOutgoing, _ => mk_world n (sent w ++ take 1 (out (node w))) (told w)
  | _, _ => mk_world n (sent w) (told w ++ drop (length (inbox (node w))) (inbox n))
  end.

Definition run (calls : list Call) (n : Node) : World := fold_left step calls (mk_world n [] []).

End WithCrypto.

(** ** A logic of operations

    [I] is kept by an operation whether it fails or not; [Q] is what holds after a success. *)

Definition triple {A} (I P : Node -> Prop) (m : Op A) (Q : A -> Node -> Prop) : Prop :=
  forall n, I n -> P n -> I (m n).1 /\ match (m n).2 with Ok a => Q a (m n).1 | Err _ => True end.

Section Logic.
Context (I : Node -> Prop).

Lemma triple_ret {A} (P : Node -> Prop) (a : A) (Q : A -> Node -> Prop) : (forall n, I n -> P n -> Q a n) -> triple I P (ret a) Q.
Proof. intros H n Hi Hp. cbn. auto. Qed.

Lemma triple_fail {A} P e (Q : A -> Node -> Prop) : triple I P (fail e) Q.
Proof. by intros n Hi Hp. Qed.

Lemma triple_bind {A B} P (m : Op A) (f : A -> Op B) R Q :
  triple I P m R -> (forall a, triple I (R a) (f a) Q) -> triple I P (bind m f) Q.
Proof.
  intros Hm Hf n Hi Hp. destruct (Hm n Hi Hp) as [Hi' Hr]. unfold bind. destruct (m n) as [n' [a|e]]; cbn in *; [|done].
  by apply Hf.
Qed.

Lemma triple_get {B} P (f : Node -> Op B) Q :
  (forall n0, triple I (fun n => n = n0 /\ P n0) (f n0) Q) -> triple I P (bind get f) Q.
Proof. intros H n Hi Hp. unfold bind, get. by apply H. Qed.

Lemma triple_try {A B} P (r : Result A) (f : A -> Op B) Q :
  (forall a, r = Ok a -> triple I P (f a) Q) -> triple I P (bind (try_ r) f) Q.
Proof. intros H n Hi Hp. unfold bind, try_. destruct r as [a|e]; [by apply H|done]. Qed.

Lemma triple_try_ {A} (P : Node -> Prop) (r : Result A) (Q : A -> Node -> Prop) :
  (forall a n, r = Ok a -> I n -> P n -> Q a n) -> triple I P (try_ r) Q.
Proof. intros H n Hi Hp. unfold try_. destruct r; cbn; auto. Qed.

Lemma triple_modify P f (Q : unit -> Node -> Prop) :
  (forall n, I n -> P n -> I (f n) /\ Q tt (f n)) -> triple I P (modify f) Q.
Proof. intros H n Hi Hp. by apply H. Qed.

Lemma triple_conseq {A} (P P' : Node -> Prop) (m : Op A) (Q Q' : A -> Node -> Prop) :
  (forall n, I n -> P' n -> P n) -> (forall a n, I n -> Q a n -> Q' a n) -> triple I P m Q -> triple I P' m Q'.
Proof. intros H H' Ht n Hi Hp. destruct (Ht n Hi (H n Hi Hp)) as [Hi' Hr]. split; [done|]. destruct (m n).2; auto. Qed.

Lemma triple_if {A} P (b : bool) (m m' : Op A) Q :
  (b = true -> triple I P m Q) -> (b = false -> triple I P m' Q) -> triple I P (if b then m else m') Q.
Proof. destruct b; auto. Qed.

(** A fact that the precondition implies. *)
Lemma triple_pure {A} (F : Prop) P (m : Op A) Q : (forall n, I n -> P n -> F) -> (F -> triple I P m Q) -> triple I P m Q.
Proof. intros HF H n Hi Hp. by apply (H (HF n Hi Hp)). Qed.

(** An operation of which only the invariant matters. *)
Definition keeps {A} (m : Op A) : Prop := triple I (fun _ => True) m (fun _ _ => True).

Lemma keeps_triple {A} P (m : Op A) : keeps m -> triple I P m (fun _ _ => True).
Proof. apply triple_conseq; done. Qed.

Lemma triple_keeps {A} (m : Op A) Q : triple I (fun _ => True) m Q -> keeps m.
Proof. apply triple_conseq; done. Qed.

Lemma keeps_ret {A} (a : A) : keeps (ret a).
Proof. by apply triple_ret. Qed.

Lemma keeps_fail {A} e : keeps (@fail A e).
Proof. apply triple_fail. Qed.

Lemma keeps_try_ {A} (r : Result A) : keeps (try_ r).
Proof. by apply triple_try_. Qed.

Lemma keeps_bind {A B} (m : Op A) (f : A -> Op B) : keeps m -> (forall a, keeps (f a)) -> keeps (bind m f).
Proof. intros Hm Hf. eapply triple_bind; [exact Hm|]. intros a. apply Hf. Qed.

Lemma op_keeps_modify f : (forall n, I n -> I (f n)) -> keeps (modify f).
Proof. intros H. apply triple_modify. auto. Qed.

End Logic.

(** Takes an operation apart, down to the steps that change the node. *)
Ltac keeps :=
  repeat (cbv zeta;
    match goal with
    | |- keeps _ (ret _) => apply keeps_ret
    | |- keeps _ (fail _) => apply keeps_fail
    | |- keeps _ (try_ _) => apply keeps_try_
    | |- keeps _ (bind _ _) => apply keeps_bind; [|intros ?]
    | |- keeps _ (if ?b then _ else _) => destruct b
    | |- keeps _ (match ?x with _ => _ end) => destruct x
    end).

(** * MrpNonce: no nonce twice

    Over every run of the transport of Matter, two frames of a session that carry the same
    counter are the same bytes: a retry repeats the ciphertext and every other frame takes a
    fresh counter, whatever fails on the way. *)

Local Notation "'let!' x := m 'in' f" := (bind m (fun x => f)) (at level 10, x pattern, f at level 200).

(** ** The counter of a frame *)

Definition frame_counter (bytes : list Z) : Z := le_val (take 4 (drop 4 bytes)).

Lemma header_counter h rest : 0 <= counter h <= U32_MAX -> frame_counter (header_bytes h ++ rest) = counter h.
Proof.
  intros Hc. unfold frame_counter, header_bytes. rewrite <- !app_assoc. cbn [app].
  change (drop 4 (?f :: le_bytes 2 ?s ++ ?t :: ?r)) with (drop (2 + 1) (le_bytes 2 s ++ t :: r)).
  rewrite <- drop_drop, drop_app_length' by (symmetry; apply length_le_bytes). cbn [drop]. rewrite drop_0.
  rewrite take_app_length' by (symmetry; apply length_le_bytes). apply le_val_le_bytes. unfold U32_MAX in Hc. cbn. lia.
Qed.

(** ** The counter a session has reached *)

Definition current (n : Node) (x : Z) : option Z :=
  match session_of n x with
  | Some s => Some (s_counter s)
  | None => if x =? 0 then Some (n_counter n) else None
  end.

Section WithCrypto.
Context {HC : Crypto}.

(** What has left the node, and what waits for the socket. *)
Definition frames (taken : list Outgoing) (n : Node) : list Outgoing := taken ++ out n.

Definition same_frame (o o' : Outgoing) : Prop := o_session o = o_session o' /\ o_bytes o = o_bytes o'.

Record nonces (taken : list Outgoing) (n : Node) : Prop := mk_nonces {
  no_locals : unique (sessions n);
  no_counters : forall x c, current n x = Some c -> 0 <= c <= U32_MAX;
  no_sent : forall o, In o (frames taken n) ->
    exists c, current n (o_session o) = Some c /\ frame_counter (o_bytes o) <= c;
  no_once : forall o o', In o (frames taken n) -> In o' (frames taken n) -> o_session o = o_session o' ->
    frame_counter (o_bytes o) = frame_counter (o_bytes o') -> o_bytes o = o_bytes o';
  no_pending : forall e p, In e (exchanges n) -> pending e = Some p ->
    exists o, In o (frames taken n) /\ o_session o = e_session e /\ o_bytes o = p_bytes p
}.

(** A fresh frame: it carries the counter just reached, which no frame of the session has. *)
Definition fresh (taken : list Outgoing) (x : Z) (b : list Z) (n : Node) : Prop :=
  current n x = Some (frame_counter b)
  /\ forall o, In o (frames taken n) -> o_session o = x -> frame_counter (o_bytes o) < frame_counter b.

Definition was_sent (taken : list Outgoing) (x : Z) (b : list Z) (n : Node) : Prop :=
  exists o, In o (frames taken n) /\ o_session o = x /\ o_bytes o = b.

Lemma nonces_out taken n o :
  nonces taken n -> fresh taken (o_session o) (o_bytes o) n \/ was_sent taken (o_session o) (o_bytes o) n ->
  nonces taken (set_out n (out n ++ [o])).
Proof.
  intros [Hl Hc Hs Ho Hp] Hf.
  assert (forall o', In o' (frames taken (set_out n (out n ++ [o]))) <-> In o' (frames taken n) \/ o' = o) as Hin.
  { intros o'. unfold frames. cbn [out set_out]. rewrite !in_app_iff. cbn. intuition congruence. }
  constructor; [done|done| | |].
  - intros o' [H| ->]%Hin; [by apply Hs|]. destruct Hf as [[Hf _]|(o' & Hi & <- & <-)]; [|by apply Hs].
    exists (frame_counter (o_bytes o)). split; [done|lia].
  - assert (forall a, In a (frames taken n) -> o_session a = o_session o ->
       frame_counter (o_bytes a) = frame_counter (o_bytes o) -> o_bytes a = o_bytes o) as Hnew.
    { intros a Ha Hs' Hc'. destruct Hf as [[_ Hf]|(o' & Hi & Hos & Hob)]; [specialize (Hf a Ha Hs'); lia|].
      rewrite <- Hob. apply Ho; [done|done| |]; congruence. }
    intros a b [Ha| ->]%Hin [Hb| ->]%Hin Hs' Hc'; auto. symmetry. by apply Hnew.
  - intros e p He Hpe. destruct (Hp e p He Hpe) as (o' & Hi & Hrest). exists o'. split; [|done]. apply Hin. by left.
Qed.

Lemma nonces_exchanges taken n l :
  nonces taken n ->
  (forall e, In e l -> pending e = None \/ (exists e', In e' (exchanges n) /\ e_session e' = e_session e /\ pending e' = pending e)
                       \/ exists p, pending e = Some p /\ was_sent taken (e_session e) (p_bytes p) n) ->
  nonces taken (set_exchanges n l).
Proof.
  intros [Hl Hc Hs Ho Hp] H. constructor; try done. intros e p He Hpe. cbn [exchanges set_exchanges] in He.
  destruct (H e He) as [Hn|[(e' & He' & Hse & Hpe')|(q & Hq & Hsent)]]; [congruence| |].
  - rewrite <- Hpe' in Hpe. destruct (Hp e' p He' Hpe) as (o & Hi & Hos & Hob). exists o. split; [done|]. by rewrite Hos.
  - assert (p = q) as -> by congruence. done.
Qed.

Lemma current_session n j s c x : unique (sessions n) -> sessions n !! j = Some s ->
  current (set_sessions n (<[j := with_counter s c]> (sessions n))) x = if local (config s) =? x then Some c else current n x.
Proof.
  intros Hu Hj. unfold current, session_of. cbn [sessions set_sessions n_counter].
  rewrite (find_insert _ j s) by done. by destruct (_ =? _).
Qed.

Lemma current_counter n c x : session_of n 0 = None -> current (set_counter n c) x = if 0 =? x then Some c else current n x.
Proof.
  intros Hn. unfold current, session_of in *. cbn [sessions set_counter n_counter].
  destruct (Z.eqb_spec 0 x) as [<-|Hx]; [by rewrite Hn|]. destruct (List.find _ _); [done|].
  by rewrite (proj2 (Z.eqb_neq x 0)) by lia.
Qed.

(** Reaching the next counter of [x] leaves it free for one frame. *)
Lemma nonces_raise taken n n' x c :
  nonces taken n -> current n x = Some c -> c + 1 <= U32_MAX ->
  unique (sessions n') -> out n' = out n -> exchanges n' = exchanges n ->
  (forall y, current n' y = if x =? y then Some (c + 1) else current n y) ->
  nonces taken n' /\ (forall b, frame_counter b = c + 1 -> fresh taken x b n').
Proof.
  intros [Hl Hc Hs Ho Hp] Hx Hle Hu Hout Hex Hcur.
  assert (frames taken n' = frames taken n) as Hf by (unfold frames; by rewrite Hout).
  split; [constructor|].
  - done.
  - intros y d. rewrite Hcur. destruct (x =? y); [|apply Hc]. intros [= <-]. specialize (Hc x c Hx). lia.
  - intros o Hi. rewrite Hf in Hi. destruct (Hs o Hi) as (d & Hd & Hdl). rewrite Hcur.
    destruct (Z.eqb_spec x (o_session o)) as [->|_]; [|by exists d]. exists (c + 1). split; [done|].
    rewrite Hx in Hd. injection Hd as ->. lia.
  - rewrite Hf. apply Ho.
  - rewrite Hex, Hf. apply Hp.
  - intros b Hb. split; [by rewrite Hcur, Z.eqb_refl, Hb|]. intros o Hi Hso. rewrite Hf in Hi.
    destruct (Hs o Hi) as (d & Hd & Hdl). rewrite Hso, Hx in Hd. injection Hd as ->. lia.
Qed.

(** ** Each operation keeps it *)

Lemma seal_counter m key src b :
  0 <= counter (m_header m) <= U32_MAX -> Message.seal m key src = Ok b -> frame_counter b = counter (m_header m).
Proof.
  intros Hc. unfold Message.seal. destruct (_ =? 0); [done|].
  destruct (header_encode _) as [hb|] eqn:Eh; cbn [mbind result_bind]; [|done].
  destruct (protocol_encode _) as [pb|]; cbn [mbind result_bind]; [|done].
  destruct (append pb _); cbn [mbind result_bind]; [|done]. destruct (nonce _ _ _); cbn [mbind result_bind]; [|done].
  destruct (Ccm_new _ _); cbn [mbind result_bind]; [|done]. destruct (Ccm.seal _ _ _ _); cbn [mbind result_bind]; [|done].
  intros ->%append_eq. apply header_encode_Ok in Eh as (-> & _). by apply header_counter.
Qed.

Lemma encode_counter m b :
  0 <= counter (m_header m) <= U32_MAX -> encode m = Ok b -> frame_counter b = counter (m_header m).
Proof.
  intros Hc. unfold encode. destruct (unsecured m); cbn [mbind result_bind]; [|done].
  destruct (header_encode _) as [hb|] eqn:Eh; cbn [mbind result_bind]; [|done].
  destruct (protocol_encode _) as [pb|]; cbn [mbind result_bind]; [|done].
  destruct (append hb pb) as [all|] eqn:Ea; cbn [mbind result_bind]; [|done]. apply append_eq in Ea as ->.
  intros ->%append_eq. apply header_encode_Ok in Eh as (-> & _). rewrite <- app_assoc. by apply header_counter.
Qed.

Lemma next_counter_Ok c s d : next_counter c s = Ok d -> d = c + 1 /\ c + 1 <= U32_MAX.
Proof. unfold next_counter. destruct (Z.leb_spec (c + 1) U32_MAX); [|done]. by intros [= <-]. Qed.

Section Ops.
Context (taken : list Outgoing).
Let I := nonces taken.

Lemma build_nonces n0 i protocol opcode payload reliable :
  triple I (fun n => n = n0) (build i protocol opcode payload reliable)
    (fun r n => fresh taken (e_session (exchange_at n0 i)) r.1 n /\ exchanges n = exchanges n0).
Proof.
  unfold build. apply triple_get. intros n. cbv zeta. set (e := exchange_at n i).
  apply triple_try. intros c Hn. apply next_counter_Ok in Hn as [Hc Hle]. apply triple_try. intros body _.
  eapply triple_bind.
  2:{ intros frame. apply triple_if; [intros _; apply triple_fail|]. intros _. apply triple_ret. cbn [fst].
      intros m _ Hm. exact Hm. }
  cbn beta. destruct (find_index _ _) as [j|] eqn:Ej.
  - apply find_index_Some in Ej as (s & Hj & Hs%is_local_true & Hfind). rewrite Hj in Hc, Hle |- *.
    assert (current n (e_session e) = Some (s_counter s)) as Hcur by (unfold current, session_of; by rewrite Hfind).
    intros m Hm [-> <-]. unfold bind, modify, try_. cbn [fst snd].
    destruct (nonces_raise taken n (set_sessions n (<[j := with_counter s c]> (sessions n))) (e_session e) (s_counter s) Hm Hcur Hle) as [Hk Hf]; try done.
    { apply (unique_insert _ _ s); [done|done|apply Hm]. }
    { intros y. rewrite current_session, Hs, Hc by (done || apply Hm). done. }
    split; [exact Hk|]. destruct (Message.seal _ _ _) as [b|] eqn:Eb; [|done]. split; [|done]. cbn [fst]. apply Hf.
    apply Hm in Hcur. apply seal_counter in Eb; cbn in *; lia.
  - apply find_index_None in Ej. apply triple_if; [intros _; apply triple_fail|].
    intros H0%negb_false_iff%Z.eqb_eq. rewrite H0 in Ej. intros m Hm [-> <-]. unfold bind, modify, try_. cbn [fst snd].
    assert (current n 0 = Some (n_counter n)) as Hcur by (unfold current, session_of; by rewrite Ej).
    destruct (nonces_raise taken n (set_counter n c) 0 (n_counter n) Hm Hcur Hle) as [Hk Hf]; try done.
    { apply Hm. }
    { intros y. rewrite current_counter by done. by rewrite Hc. }
    split; [exact Hk|]. destruct (encode _) as [b|] eqn:Eb; [|done]. split; [|done]. cbn [fst]. fold e. rewrite H0. apply Hf.
    apply Hm in Hcur. apply encode_counter in Eb; cbn in *; lia.
Qed.

(** Sending a frame, after which the exchange at [i] changes. *)
Lemma send_out_nonces o P :
  (forall n, I n -> P n -> fresh taken (o_session o) (o_bytes o) n \/ was_sent taken (o_session o) (o_bytes o) n) ->
  triple I P (send_out o) (fun _ n => was_sent taken (o_session o) (o_bytes o) n
                                     /\ exists m, P m /\ exchanges n = exchanges m /\ out n = out m ++ [o]).
Proof.
  intros H n Hi Hp. unfold send_out, queue. destruct (_ <=? _)%nat; cbn [fst snd]; [done|].
  split; [by apply nonces_out; [|apply H]|]. split.
  - exists o. split; [|done]. unfold frames. cbn. apply in_app_iff. right. apply in_app_iff. right. by left.
  - exists n. done.
Qed.

Lemma in_alter {A} (f : A -> A) i l x : In x (alter f i l) -> In x l \/ exists y, l !! i = Some y /\ x = f y.
Proof.
  intros H%list_elem_of_In%list_elem_of_lookup. destruct H as [j Hj]. destruct (decide (i = j)) as [->|Hne].
  - rewrite list_lookup_alter_eq in Hj. destruct (l !! j) as [y|]; [|done]. injection Hj as <-. right. by exists y.
  - rewrite list_lookup_alter_ne in Hj by done. left. apply list_elem_of_In. by eapply list_elem_of_lookup_2.
Qed.

(** An exchange that keeps its session and what it waits for, or waits for a frame that was sent. *)
Lemma update_nonces i f P (Q : unit -> Node -> Prop) :
  (forall n e, I n -> P n -> exchanges n !! i = Some e -> e_session (f e) = e_session e
     /\ (pending (f e) = None \/ pending (f e) = pending e
         \/ exists p, pending (f e) = Some p /\ was_sent taken (e_session e) (p_bytes p) n)) ->
  (forall n, P n -> Q tt (set_exchanges n (alter f i (exchanges n)))) ->
  triple I P (update_exchange i f) Q.
Proof.
  intros H HQ. apply triple_modify. intros n Hi Hp. split; [|by apply HQ]. apply nonces_exchanges; [done|].
  intros x [Hx|(e & He & ->)]%in_alter; [right; left; by exists x|].
  destruct (H n e Hi Hp He) as [Hs [Hn|[Hn|(p & Hn & Hsent)]]]; [by left| |].
  - right. left. exists e. split; [|done]. apply list_elem_of_In. by eapply list_elem_of_lookup_2.
  - right. right. exists p. by rewrite Hs.
Qed.

Lemma position_Ok n h i : position n h = Ok i -> exchanges n !! i = Some (exchange_at n i) /\ handle (exchange_at n i) = h.
Proof.
  unfold position. destruct (find_index _ _) as [j|] eqn:E; [|done]. intros [= <-].
  apply find_index_Some in E as (e & He & Hh%Z.eqb_eq & _). unfold exchange_at.
  rewrite (nth_lookup_Some _ _ _ _ He). done.
Qed.

Lemma send_nonces h opcode payload reliable now jitter :
  triple I (fun _ => True) (send h opcode payload reliable now jitter) (fun _ _ => True).
Proof.
  unfold send. apply triple_get. intros n. apply triple_try. intros i Hi.
  apply triple_if; [intros _; apply triple_fail|]. intros _.
  eapply triple_bind; [eapply triple_conseq; [|done|apply build_nonces]; cbn; intros m _ [-> _]; done|].
  intros [bytes c]. cbn [fst]. apply triple_get. intros n1.
  set (sess := e_session (exchange_at n i)).
  eapply (triple_bind _ _ _ _ (fun p m => m = n1 /\ fresh taken sess bytes n1 /\ exchanges n1 = exchanges n
                                     /\ match p with Some p => p_bytes p = bytes | None => True end)).
  { apply triple_if; intros _.
    - apply triple_try. intros b ->%append_eq. apply triple_ret. intros m _ [-> [Hf He]]. done.
    - apply triple_ret. intros m _ [-> [Hf He]]. done. }
  intros p. cbv zeta. eapply triple_bind.
  { apply send_out_nonces. intros m _ (-> & Hf & He & _). left. cbn. unfold exchange_at. by rewrite He. }
  intros []. cbn beta. apply update_nonces; [|done].
  intros m e _ (Hsent & m' & (-> & _ & He & Hp) & Hex & _) Hie. split; [done|]. destruct p as [p|]; cbn; [|by left].
  right. right. exists p. split; [done|]. rewrite Hp. replace (e_session e) with (e_session (exchange_at n1 i)); [done|].
  unfold exchange_at. rewrite <- Hex. by rewrite (nth_lookup_Some _ _ _ _ Hie).
Qed.

Lemma acknowledge_nonces h : triple I (fun _ => True) (acknowledge h) (fun _ _ => True).
Proof.
  unfold acknowledge. apply triple_get. intros n. apply triple_try. intros i Hi.
  destruct (e_ack _); [|by apply triple_ret].
  eapply triple_bind; [eapply triple_conseq; [|done|apply build_nonces]; cbn; intros m _ [-> _]; done|].
  intros [bytes c]. cbn [fst]. apply triple_get. intros n1. cbv zeta. eapply triple_bind.
  { apply send_out_nonces. intros m _ (-> & Hf & He). left. cbn. unfold exchange_at. by rewrite He. }
  intros []. cbn beta. apply update_nonces; [|done]. intros m e _ _ _. split; [done|]. cbn. auto.
Qed.

Lemma nonces_same n n' :
  I n -> (forall x, current n' x = current n x) -> unique (sessions n') -> out n' = out n -> exchanges n' = exchanges n -> I n'.
Proof.
  intros [Hl Hc Hs Ho Hp] Hcur Hu Hout Hex. assert (frames taken n' = frames taken n) as Hf by (unfold frames; by rewrite Hout).
  constructor; [done|..].
  - intros x c. rewrite Hcur. apply Hc.
  - intros o. rewrite Hf, Hcur. apply Hs.
  - by rewrite Hf.
  - by rewrite Hex, Hf.
Qed.

Lemma get_keeps : keeps I get.
Proof. by intros n Hi _. Qed.

Lemma push_event_keeps e : keeps I (push_event e).
Proof. apply op_keeps_modify. intros n Hi. apply (nonces_same n); try done. apply Hi. Qed.

Lemma update_keeps i f :
  (forall e, e_session (f e) = e_session e /\ (pending (f e) = None \/ pending (f e) = pending e)) ->
  keeps I (update_exchange i f).
Proof. intros H. apply update_nonces; [|done]. intros n e _ _ _. destruct (H e) as [Hs [Hp|Hp]]; auto. Qed.

Lemma late_ack_keeps addr m : keeps I (late_ack addr m).
Proof.
  unfold late_ack. apply triple_if; [intros _; apply keeps_ret|]. intros _. apply triple_get. intros n.
  apply triple_try. intros j Hj. destruct (find_index _ _) as [k|] eqn:Ej; [|done]. injection Hj as ->.
  apply find_index_Some in Ej as (s & Hj & [Hs%is_local_true _]%andb_true_iff & _). rewrite Hj. set (x := session (m_header m)) in *.
  apply triple_try. intros c [Hc Hle]%next_counter_Ok.
  apply (triple_bind _ _ _ _ (fun _ n' => 0 <= c <= U32_MAX /\ forall b, frame_counter b = c -> fresh taken x b n')).
  { apply triple_modify. intros n0 Hm [-> _].
    assert (current n x = Some (s_counter s)) as Hcur.
    { unfold current, session_of. rewrite <- Hs. by rewrite (unique_find _ _ _ (no_locals _ _ Hm) Hj). }
    destruct (nonces_raise taken n (set_sessions n (<[j:=with_counter s c]> (sessions n))) x (s_counter s)) as [Hk Hf]; try done.
    - apply (unique_insert _ _ s); [done|done|apply Hm].
    - intros y. rewrite (current_session n j s), Hs, Hc by (done || apply Hm). done.
    - split; [done|]. split; [apply Hm in Hcur; lia|]. intros b Hb. apply Hf. lia. }
  intros []. cbv zeta. apply triple_bind with (R := fun b n' => fresh taken x b n').
  - apply triple_try_. intros b n' Eb _ [Hr Hb]. apply Hb. by apply seal_counter in Eb.
  - intros b. eapply triple_conseq; [|done|apply send_out_nonces]; [|intros n' _ Hf; left; exact Hf]. done.
Qed.

Lemma mark_session_keeps secure c now : keeps I (mark_session secure c now).
Proof.
  intros n Hi _. unfold mark_session. destruct secure as [j|]; [|done]. destruct (sessions n !! j) as [s|] eqn:Hj; [|done].
  destruct (mark (s_replay s) c) as [r d]. cbn [fst snd]. split; [|done].
  assert (unique (sessions n)) as Hu by apply Hi. apply (nonces_same n); try done.
  - intros x. unfold current, session_of. cbn [sessions set_sessions n_counter]. rewrite (find_insert _ j s) by done.
    destruct (Z.eqb_spec (local (config s)) x) as [<-|]; [|done]. by rewrite (unique_find _ _ _ Hu Hj).
  - by apply (unique_insert _ _ s).
Qed.

Lemma new_handle_keeps : keeps I new_handle.
Proof.
  intros n Hi _. unfold new_handle. destruct (checked_add _ _); [|done]. split; [|done]. cbn [fst].
  apply (nonces_same n); try done. apply Hi.
Qed.

(** A new exchange waits for nothing. *)
Lemma push_exchange_keeps (f : Node -> Exchange) {A} (k : Node -> A) :
  (forall n, pending (f n) = None) ->
  keeps I (let! n := get in
           let! l := try_ (from_core (Value.push (exchanges n) (f n) MAX_EXCHANGES)) in
           bind (modify (fun n => set_exchanges n l)) (fun _ => ret (k n))).
Proof.
  intros Hf. apply triple_get. intros n. apply triple_try. intros l Hl.
  destruct (Value.push _ _ _) as [l'|] eqn:E; [|done]. injection Hl as ->. apply Value.push_Ok in E as [_ ->].
  apply (triple_bind _ _ _ _ (fun _ _ => True)); [|intros []; by apply triple_ret]. apply triple_modify. intros n' Hi [-> _]. split; [|done].
  apply nonces_exchanges; [done|]. intros e [He|[<-|[]]]%in_app_iff; [|left; apply Hf]. right. left. by exists e.
Qed.

Lemma accept_keeps addr local_ m : keeps I (accept addr local_ m).
Proof.
  unfold accept. apply triple_if; intros _; [apply keeps_fail|]. apply keeps_bind; [apply new_handle_keeps|]. intros h.
  apply (push_exchange_keeps (fun _ => mk_exchange _ _ _ _ _ _ _ _ _ _ _) (fun n => length (exchanges n))). done.
Qed.

Lemma deliver_keeps local_ m duplicate i accepted : keeps I (deliver local_ m duplicate i accepted).
Proof.
  unfold deliver. apply triple_get. intros n. apply keeps_triple.
  keeps; first [apply push_event_keeps | apply acknowledge_nonces | apply get_keeps | apply update_keeps; cbn; auto].
Qed.

Lemma receive_keeps addr bytes now : keeps I (receive addr bytes now).
Proof.
  unfold receive. apply triple_if; [intros _; apply keeps_fail|]. intros _. apply triple_get. intros n.
  apply keeps_triple.
  keeps; first [apply mark_session_keeps | apply deliver_keeps | apply late_ack_keeps | apply accept_keeps | apply get_keeps].
Qed.

Lemma in_remove_at {A} i (l : list A) x : In x (remove_at i l) -> In x l.
Proof.
  unfold remove_at. rewrite <- (take_drop (S i) l) at 3. rewrite !in_app_iff. intros [H|H]; [left|by right].
  replace i with (min i (S i)) in H by lia. rewrite <- take_take in H. rewrite <- (take_drop i (take (S i) l)).
  apply in_app_iff. by left.
Qed.

Lemma tick_keeps now jitter : keeps I (tick now jitter).
Proof.
  unfold tick. apply triple_get. intros n. destruct (find_index _ _) as [i|] eqn:Ei; [|by apply triple_ret].
  apply find_index_Some in Ei as (e & He & _). cbv zeta.
  assert (exchange_at n i = e) as -> by (unfold exchange_at; by rewrite (nth_lookup_Some _ _ _ _ He)).
  destruct (pending e) as [p|] eqn:Ep; [|apply triple_fail]. apply triple_if; intros _.
  - apply triple_try. intros q _. apply triple_modify. intros m Hm [-> _]. split; [|done].
    apply (nonces_exchanges taken (set_events n q)).
    + apply (nonces_same n); try done. apply Hm.
    + intros e' He'%in_remove_at. right. left. by exists e'.
  - apply triple_try. intros b ->%append_eq. cbn [app]. eapply triple_bind.
    + apply send_out_nonces. intros m Hm [-> _]. right. cbn. apply (no_pending _ _ Hm e p); [|done].
      apply list_elem_of_In. by eapply list_elem_of_lookup_2.
    + intros []. cbn beta. apply update_nonces; [|done]. intros m e' _ (Hsent & m' & (-> & _) & Hex & _) Hie.
      rewrite Hex, He in Hie. injection Hie as ->. split; [done|]. right. right. eexists. split; [done|]. exact Hsent.
Qed.

Lemma initiate_keeps addr session protocol eph retry_ms : keeps I (initiate addr session protocol eph retry_ms).
Proof.
  unfold initiate. apply triple_get. intros n. apply keeps_triple.
  apply triple_if; intros _; [apply keeps_fail|]. apply triple_if; intros _; [apply keeps_fail|].
  apply keeps_bind; [|intros o; apply keeps_bind; [apply keeps_try_|intros x; apply keeps_bind; [apply new_handle_keeps|intros h]]].
  - generalize (Z.to_nat (MAX_EXCHANGES + 1)). intros k m Hm _. revert m Hm. induction k as [|k IH]; intros m Hm; [done|].
    cbn [free_id]. cbv zeta. set (m' := set_next_exchange m _).
    assert (I m') as Hm' by (apply (nonces_same m); try done; apply Hm). destruct (negb _); [done|]. by apply IH.
  - apply (push_exchange_keeps (fun _ => mk_exchange _ _ _ _ _ _ _ _ _ _ _) (fun _ => _)). done.
Qed.

Lemma register_keeps c seed : keeps I (register c seed).
Proof.
  intros n Hi _. unfold register. destruct (_ || _) eqn:E; [done|]. destruct (Value.push _ _ _) as [l|] eqn:El; [|done].
  cbn [fst snd]. split; [|done]. apply Value.push_Ok in El as [_ ->].
  apply orb_false_iff in E as [E Hh]. apply orb_false_iff in E as [E _]. apply orb_false_iff in E as [E%Z.eqb_neq _].
  assert (forall s, In s (sessions n) -> local (config s) <> local c) as Hnew.
  { intros s Hs He. unfold has_session in Hh. assert (existsb (is_local (local c)) (sessions n) = true); [|congruence].
    apply existsb_exists. exists s. split; [done|]. by apply is_local_true. }
  set (s := mk_secure c _ _ _).
  assert (forall x, current (set_sessions n (sessions n ++ [s])) x = if local c =? x then Some (s_counter s) else current n x) as Hcur.
  { intros x. unfold current, session_of. cbn [sessions set_sessions n_counter]. rewrite find_app. cbn [List.find].
    destruct (List.find (is_local x) (sessions n)) as [s'|] eqn:Ef.
    - apply find_some in Ef as [Hs' Hx%is_local_true]. destruct (Z.eqb_spec (local c) x); [|done]. subst x. by apply Hnew in Hs'.
    - unfold is_local. cbn [config s]. by destruct (Z.eqb_spec (local c) x). }
  assert (current n (local c) = None) as Hnone.
  { unfold current, session_of. destruct (List.find _ _) as [s'|] eqn:Ef.
    - apply find_some in Ef as [Hs' Hx%is_local_true]. by apply Hnew in Hs'.
    - by rewrite (proj2 (Z.eqb_neq _ _)). }
  destruct Hi as [Hl Hc Hs Ho Hp]. constructor; try done.
  - by apply unique_app.
  - intros x d. rewrite Hcur. destruct (_ =? _); [|apply Hc]. intros [= <-]. cbn [s_counter s].
    change 268435455 with (Z.ones 28). rewrite Z.land_ones by lia. pose proof (Z.mod_pos_bound seed (2 ^ 28)). unfold U32_MAX. lia.
  - intros o Hin. destruct (Hs o Hin) as (d & Hd & Hle). exists d. split; [|done]. rewrite Hcur.
    destruct (Z.eqb_spec (local c) (o_session o)) as [He|]; [|done]. rewrite <- He, Hnone in Hd. done.
Qed.

Lemma close_keeps h n : I n -> I (close h n).
Proof.
  intros Hi. unfold close. apply nonces_exchanges; [done|]. intros e [He _]%filter_In. right. left. by exists e.
Qed.

Lemma event_keeps n : I n -> I (event n).1.
Proof. intros Hi. unfold event. destruct (events n); [done|]. cbn. apply (nonces_same n); try done. apply Hi. Qed.

End Ops.

Lemma remove_nonces taken x n :
  nonces taken n -> match remove x n with (n, Ok _) => nonces (revoke x taken) n | (n, Err _) => nonces taken n end.
Proof.
  intros [Hl Hc Hs Ho Hp]. unfold remove. destruct (_ <? _)%nat; [by constructor|]. set (n' := mk_node _ _ _ _ _ _ _).
  assert (forall o, In o (frames (revoke x taken) n') -> In o (frames taken n) /\ (x = 0 \/ o_session o <> x)) as Hin.
  { intros o. unfold frames, revoke. cbn [out n']. rewrite !in_app_iff. destruct (Z.eqb_spec x 0).
    - intros [H|[H _]%filter_In]; auto.
    - intros [[H Hx%negb_true_iff%Z.eqb_neq]%filter_In|[H Hx%negb_true_iff%Z.eqb_neq]%filter_In]; auto. }
  assert (forall o, In o (frames taken n) -> o_session o <> x -> In o (frames (revoke x taken) n')) as Hstay.
  { intros o. unfold frames, revoke. cbn [out n']. rewrite !in_app_iff. intros H Hx.
    assert (negb (o_session o =? x) = true) as Hb by (by apply negb_true_iff, Z.eqb_neq).
    destruct (Z.eqb_spec x 0).
    - destruct H; [by left|]. right. by apply filter_In.
    - destruct H; [left|right]; by apply filter_In. }
  assert (forall y, x = 0 \/ y <> x -> current n' y = current n y) as Hcur.
  { intros y Hy. unfold current, session_of. cbn [sessions n' n_counter]. rewrite find_filter; [done|].
    destruct (decide (y = x)) as [->|]; [|by left]. right. split; [done|]. by destruct Hy. }
  constructor.
  - by apply unique_filter.
  - intros y c Hy. destruct (decide (x = 0 \/ y <> x)) as [Hd|Hd]; [rewrite Hcur in Hy by done; by apply Hc in Hy|].
    exfalso. assert (y = x /\ x <> 0) as [-> Hx] by lia. unfold current, session_of in Hy. cbn [sessions n' n_counter] in Hy.
    destruct (List.find _ _) as [s|] eqn:Ef.
    + apply find_some in Ef as [[_ Hf%negb_true_iff]%filter_In Ht]. congruence.
    + by rewrite (proj2 (Z.eqb_neq _ _)) in Hy.
  - intros o [Ho' Hx]%Hin. rewrite Hcur by done. by apply Hs.
  - intros o o' [Ho1 _]%Hin [Ho2 _]%Hin. by apply Ho.
  - intros e p [He Hx%negb_true_iff%Z.eqb_neq]%filter_In Hpe. destruct (Hp e p He Hpe) as (o & Hi & Hos & Hob).
    exists o. split; [|done]. apply Hstay; [done|]. by rewrite Hos.
Qed.

(** ** Runs *)

Lemma step_nonces w c : nonces (sent w) (node w) -> nonces (sent (step w c)) (node (step w c)).
Proof.
  intros Hn. unfold step. destruct c as [c seed|x|a s p e r|h o b r now j|h|h|a b now|now j| |].
  2:{ pose proof (remove_nonces (sent w) x (node w) Hn). cbn [perform]. by destruct (remove x (node w)) as [n' [[]|]]. }
  8:{ cbn [perform modify outgoing]. destruct (node w) as [ss es o evs c h x] eqn:En. unfold outgoing. cbn [out].
      destruct o as [|o l]; cbn [fst take sent node]; rewrite ?app_nil_r; [done|].
      set (n' := set_out _ l). change (nonces (sent w ++ [o]) n'). assert (frames (sent w ++ [o]) n' = frames (sent w) (mk_node ss es (o :: l) evs c h x)) as Hf.
      { unfold frames. cbn. by rewrite <- app_assoc. }
      destruct Hn as [Hl Hc Hs Ho Hp]. constructor; rewrite ?Hf; [exact Hl|exact Hc|exact Hs|exact Ho|exact Hp]. }
  all: match goal with |- context [perform ?c ?n] => destruct (perform c n) as [n' r'] eqn:E end.
  all: cbn [sent node]; change n' with (n', r').1; rewrite <- E; cbn [perform].
  - by apply register_keeps.
  - apply (keeps_bind (nonces (sent w)) (initiate a s p e r) (fun _ => ret tt)); [apply initiate_keeps|intros; apply keeps_ret|done|done].
  - by apply send_nonces.
  - by apply acknowledge_nonces.
  - by apply close_keeps.
  - by apply receive_keeps.
  - by apply tick_keeps.
  - by apply event_keeps.
Qed.

Lemma run_nonces calls seed exch : let w := run calls (Node_new seed exch) in nonces (sent w) (node w).
Proof.
  unfold run. cbv zeta.
  assert (forall w, nonces (sent w) (node w) -> nonces (sent (fold_left step calls w)) (node (fold_left step calls w))) as H.
  { induction calls as [|c calls IH]; intros w Hw; [done|]. cbn [fold_left]. apply IH. by apply step_nonces. }
  apply H. cbn. constructor; try done.
  - unfold unique. cbn. apply NoDup_singleton.
  - intros x c. unfold current, session_of. cbn. destruct (x =? 0); [|done]. intros [= <-].
    change 268435455 with (Z.ones 28). rewrite Z.land_ones by lia. pose proof (Z.mod_pos_bound seed (2 ^ 28)). unfold U32_MAX. lia.
Qed.

(** C17: Whatever the owner calls and whatever arrives, two frames that leave a node under the
    same session carry the same counter only when they are the same bytes: no nonce of a key
    protects two messages, and a retry repeats its frame. *)
Theorem nonces_are_never_reused calls seed exch o o' :
  let w := run calls (Node_new seed exch) in
  In o (sent w) -> In o' (sent w) -> o_session o = o_session o' -> frame_counter (o_bytes o) = frame_counter (o_bytes o') ->
  o_bytes o = o_bytes o'.
Proof.
  intros w Ho Ho'. apply (no_once _ _ (run_nonces calls seed exch)); apply in_app_iff; by left.
Qed.

End WithCrypto.

(** ** A run with a retry *)

Section Sample.
Local Existing Instance toy_crypto.

Definition sample_session : Session :=
  mk_session 1 2 11 22 "b" (repeat 1 16) (repeat 2 16) (mk_timing 17000 300 4000).

Definition sample_calls : list Call :=
  [Register sample_session 3; Initiate "b" 1 1 0 1; Send 1 2 [114; 101; 97; 100] true 0 0; TakeOutgoing; Tick 10 0;
   TakeOutgoing; Acknowledge 1; Close 1].

Definition sample_sent : list Outgoing := Eval vm_compute in sent (run sample_calls (Node_new 1 0)).
Definition sample_frame : Outgoing := Eval vm_compute in nth 0 sample_sent (mk_outgoing 0 "" []).

(** The frame and its retry. *)
Lemma nonces_are_never_reused_witness :
  let w := run sample_calls (Node_new 1 0) in
  sent w = [sample_frame; sample_frame] /\ frame_counter (o_bytes sample_frame) = 4
  /\ exists o o', In o (sent w) /\ In o' (sent w) /\ o_session o = o_session o' /\ o_bytes o = o_bytes o'.
Proof.
  split; [by vm_compute|]. split; [by vm_compute|]. exists sample_frame, sample_frame.
  assert (In sample_frame (sent (run sample_calls (Node_new 1 0)))) as H by (vm_compute; by left).
  split; [exact H|]. split; [exact H|]. split; [reflexivity|].
  by apply (nonces_are_never_reused sample_calls 1 0 sample_frame sample_frame H H).
Defined.

End Sample.
