(* ===== verification/MrpBounds.v ===== *)
(** * MrpBounds: no message twice, bounded tables, forgeries do nothing

    Over every run of the transport of Matter, a message is handed to a protocol at most once:
    once for each session and counter, and without a session once for each exchange and
    counter, however often its datagram arrives. *)

From Stdlib Require Import ZArith Lia String.
From S2P Require Import Prelude Errors Tlv Wire TlvOk Ccm Message Mrp MrpOk.
From S2P Require Value.

Local Open Scope Z_scope.

Local Notation "'let!' x := m 'in' f" := (bind m (fun x => f)) (at level 10, x pattern, f at level 200).

(** ** What delivery depends on *)

Record View : Type := mk_view {
  windows : list (Z * Replay);        (* of the sessions, by id *)
  boxes : list (Handle * Replay);     (* of the exchanges *)
  messages : list (Handle * Message); (* that wait for a protocol *)
  last_handle : Z
}.

Definition window (s : Secure) : Z * Replay := (local (config s), s_replay s).
Definition box (e : Exchange) : Handle * Replay := (handle e, e_replay e).

Definition view (n : Node) : View :=
  mk_view (map window (sessions n)) (map box (exchanges n)) (inbox n) (next_handle n).

(** What a delivery is the only one of. *)
Definition key (k : Handle * Message) : Z * Z * Z :=
  let '(h, m) := k in (session (m_header m), if session (m_header m) =? 0 then h else 0, counter (m_header m)).

(** A window holds the counter of a delivered message as long as the message can come again. *)
Definition settled (v : View) (k : Handle * Message) : Prop :=
  let '(h, m) := k in
  if session (m_header m) =? 0
  then h <= last_handle v /\ forall r, In (h, r) (boxes v) -> marked r (counter (m_header m))
  else exists r, In (session (m_header m), r) (windows v) /\ marked r (counter (m_header m)).

(** The messages delivered before, and those behind the first [k] of the queue. *)
Definition log (seen : list (Handle * Message)) (k : nat) (v : View) : list (Handle * Message) := seen ++ drop k (messages v).

Record once (seen : list (Handle * Message)) (k : nat) (v : View) : Prop := mk_once {
  on_queue : (k <= length (messages v))%nat;
  on_windows : NoDup (map fst (windows v));
  on_boxes : NoDup (map fst (boxes v));
  on_handles : forall h r, In (h, r) (boxes v) -> h <= last_handle v;
  on_settled : forall d, In d (log seen k v) -> settled v d;
  on_once : NoDup (map key (log seen k v))
}.

Definition deliverable (seen : list (Handle * Message)) (k : nat) (v : View) (d : Handle * Message) : Prop :=
  settled v d /\ ~ In (key d) (map key (log seen k v)).

(** ** How a view may change *)

(** Windows forget nothing, and a box is a known one or has a new handle. *)
Definition grows (v v' : View) : Prop :=
  last_handle v <= last_handle v' /\ messages v' = messages v
  /\ (forall x r, In (x, r) (windows v) -> exists r', In (x, r') (windows v') /\ forall c, marked r c -> marked r' c)
  /\ (forall h r', In (h, r') (boxes v') ->
        last_handle v < h \/ exists r, In (h, r) (boxes v) /\ forall c, marked r c -> marked r' c).

Lemma settled_grows v v' d : grows v v' -> settled v d -> settled v' d.
Proof.
  intros (Hl & _ & Hw & Hb). destruct d as [h m]. unfold settled. destruct (_ =? 0).
  - intros [Hh Hr]. split; [lia|]. intros r' [Hn|(r & Hi & Hm)]%Hb; [lia|]. by apply Hm, Hr.
  - intros (r & Hi & Hm). destruct (Hw _ _ Hi) as (r' & Hi' & Hm'). exists r'. auto.
Qed.

Lemma once_grows seen k v v' :
  once seen k v -> grows v v' -> NoDup (map fst (windows v')) -> NoDup (map fst (boxes v')) ->
  (forall h r, In (h, r) (boxes v') -> h <= last_handle v') -> once seen k v'.
Proof.
  intros [Hq Hw Hb Hh Hs Ho] Hg Hw' Hb' Hh'. pose proof Hg as (_ & Hm & _).
  constructor; unfold log; rewrite ?Hm; try done. intros d Hd. by apply (settled_grows v), Hs.
Qed.

Lemma deliverable_grows seen k v v' d : grows v v' -> deliverable seen k v d -> deliverable seen k v' d.
Proof. intros Hg [Hs Hn]. pose proof Hg as (_ & Hm & _). split; [by apply (settled_grows v)|]. unfold log. by rewrite Hm. Qed.

Definition with_message (v : View) d := mk_view (windows v) (boxes v) (messages v ++ [d]) (last_handle v).

Lemma once_deliver seen k v d : once seen k v -> deliverable seen k v d -> once seen k (with_message v d).
Proof.
  intros [Hq Hw Hb Hh Hs Ho] [Hk Hn].
  assert (log seen k (with_message v d) = log seen k v ++ [d]) as Hlog.
  { unfold log. cbn [messages with_message]. by rewrite drop_app_le, app_assoc. }
  constructor; rewrite ?Hlog; try done.
  - cbn [messages with_message]. rewrite length_app. lia.
  - intros d' [H|[<-|[]]]%in_app_iff; [by apply Hs in H|done].
  - rewrite map_app. apply NoDup_app. split; [done|]. split; [|apply NoDup_singleton].
    intros x Hx%list_elem_of_In ->%list_elem_of_singleton. done.
Qed.

(** *** Marking a counter *)

Lemma map_fst_insert {A} (l : list (Z * A)) j x r r' : l !! j = Some (x, r) -> map fst (<[j := (x, r')]> l) = map fst l.
Proof.
  intros Hj. change (map fst ?l) with (fst <$> l). rewrite list_fmap_insert. apply list_insert_id.
  by rewrite list_lookup_fmap, Hj.
Qed.

Lemma in_insert {A} (l : list A) j x y : In y (<[j := x]> l) -> In y l \/ y = x.
Proof.
  intros H%list_elem_of_In%list_elem_of_lookup. destruct H as [i Hi].
  destruct (decide (j = i)) as [->|Hne].
  - destruct (decide (i < length l)%nat) as [Hl|Hl].
    + rewrite list_lookup_insert_eq in Hi by done. injection Hi as ->. by right.
    + rewrite list_insert_ge in Hi by lia. left. apply list_elem_of_In. by eapply list_elem_of_lookup_2.
  - rewrite list_lookup_insert_ne in Hi by done. left. apply list_elem_of_In. by eapply list_elem_of_lookup_2.
Qed.

Lemma lookup_insert_in {A} (l : list A) j x y : l !! j = Some y -> In x (<[j := x]> l).
Proof.
  intros Hj. apply list_elem_of_In. apply (list_elem_of_lookup_2 _ j). apply list_lookup_insert_eq.
  by eapply lookup_lt_Some.
Qed.

(** Two entries of one id are the same. *)
Lemma nodup_fst {A} (l : list (Z * A)) x r r' : NoDup (map fst l) -> In (x, r) l -> In (x, r') l -> r = r'.
Proof.
  induction l as [|[y s] l IH]; [done|]. cbn. intros [Hn Hd]%NoDup_cons.
  assert (forall t, In (y, t) l -> False) as Hno.
  { intros t Ht. apply Hn. apply list_elem_of_fmap. exists (y, t). split; [done|]. by apply list_elem_of_In. }
  intros [[= -> ->]|H] [[= <-]|H']; auto; [subst; by apply Hno in H'|by apply Hno in H].
Qed.

Definition with_window (v : View) j w := mk_view (<[j := w]> (windows v)) (boxes v) (messages v) (last_handle v).
Definition with_box (v : View) i b := mk_view (windows v) (<[i := b]> (boxes v)) (messages v) (last_handle v).

Lemma grows_window v j x r c : windows v !! j = Some (x, r) -> grows v (with_window v j (x, (mark r c).1)).
Proof.
  intros Hj. split; [cbn; lia|]. split; [done|]. split; cbn [windows boxes with_window].
  - intros y s Hs. apply list_elem_of_In, list_elem_of_lookup in Hs as [i Hi]. destruct (decide (i = j)) as [->|Hne].
    + rewrite Hj in Hi. injection Hi as -> ->. eexists. split; [by eapply lookup_insert_in|]. intros d. apply mark_keeps.
    + exists s. split; [|done]. apply list_elem_of_In, (list_elem_of_lookup_2 _ i). by rewrite list_lookup_insert_ne.
  - intros h r' Hi. right. exists r'. done.
Qed.

Lemma grows_box v i h r c : boxes v !! i = Some (h, r) -> grows v (with_box v i (h, (mark r c).1)).
Proof.
  intros Hi. split; [cbn; lia|]. split; [done|]. split; cbn [windows boxes with_box].
  - intros x s Hs. by exists s.
  - intros h' r' [Hin|[= -> ->]]%in_insert; right; [by exists r'|]. exists r.
    split; [apply list_elem_of_In; by eapply list_elem_of_lookup_2|]. intros d. apply mark_keeps.
Qed.

Lemma once_window seen k v j x r c :
  once seen k v -> windows v !! j = Some (x, r) -> once seen k (with_window v j (x, (mark r c).1)).
Proof.
  intros Hv Hj. apply (once_grows seen k v); [done|by apply grows_window|..]; cbn [windows boxes with_window]; try apply Hv.
  rewrite (map_fst_insert _ _ _ r) by done. apply Hv.
Qed.

Lemma once_box seen k v i h r c :
  once seen k v -> boxes v !! i = Some (h, r) -> once seen k (with_box v i (h, (mark r c).1)).
Proof.
  intros Hv Hi. apply (once_grows seen k v); [done|by apply grows_box|..]; cbn [windows boxes with_box]; try apply Hv.
  - rewrite (map_fst_insert _ _ _ r) by done. apply Hv.
  - intros h' r' [Hin|[= -> ->]]%in_insert; [by eapply Hv|]. eapply Hv. apply list_elem_of_In. by eapply list_elem_of_lookup_2.
Qed.

(** A message whose counter was not yet marked may be delivered. *)
Lemma deliverable_window seen k v j r h m :
  once seen k v -> windows v !! j = Some (session (m_header m), r) -> session (m_header m) <> 0 ->
  (mark r (counter (m_header m))).2 = false ->
  deliverable seen k (with_window v j (session (m_header m), (mark r (counter (m_header m))).1)) (h, m).
Proof.
  intros Hv Hj Hx Hf. split; unfold settled.
  - rewrite (proj2 (Z.eqb_neq _ _)) by done. eexists. split; [by eapply lookup_insert_in|]. apply mark_marked.
  - intros ([h' m'] & Hk & Hin)%in_map_iff. unfold key in Hk. injection Hk as Hs _ Hc.
    apply (on_settled _ _ _ Hv) in Hin. unfold settled in Hin. rewrite Hs, Hc, (proj2 (Z.eqb_neq _ _)) in Hin by done.
    destruct Hin as (r' & Hin & Hm). assert (r' = r) as ->.
    { eapply nodup_fst; [apply Hv|exact Hin|]. apply list_elem_of_In. by eapply list_elem_of_lookup_2. }
    apply mark_true in Hm. congruence.
Qed.

Lemma deliverable_box seen k v i h r m :
  once seen k v -> boxes v !! i = Some (h, r) -> session (m_header m) = 0 ->
  (mark r (counter (m_header m))).2 = false ->
  deliverable seen k (with_box v i (h, (mark r (counter (m_header m))).1)) (h, m).
Proof.
  intros Hv Hi Hx Hf. assert (In (h, r) (boxes v)) as Hbox by (apply list_elem_of_In; by eapply list_elem_of_lookup_2).
  split; unfold settled.
  - rewrite Hx, Z.eqb_refl. split; [by eapply Hv|]. intros r' Hr.
    assert (r' = (mark r (counter (m_header m))).1) as ->; [|apply mark_marked].
    eapply nodup_fst; [|exact Hr|by eapply lookup_insert_in]. cbn [boxes with_box].
    rewrite (map_fst_insert _ _ _ r) by done. apply Hv.
  - intros ([h' m'] & Hk & Hin)%in_map_iff. unfold key in Hk. rewrite Hx in Hk. injection Hk as Hs Hh Hc.
    rewrite Hs, Z.eqb_refl in Hh. cbn in Hh. subst h'.
    apply (on_settled _ _ _ Hv) in Hin. unfold settled in Hin. rewrite Hs, Z.eqb_refl, Hc in Hin.
    destruct Hin as [_ Hin]. specialize (Hin r Hbox). apply mark_true in Hin. congruence.
Qed.

(** *** New exchanges, and fewer of everything *)

Definition with_handle (v : View) h := mk_view (windows v) (boxes v) (messages v) h.
Definition with_new (v : View) b := mk_view (windows v) (boxes v ++ [b]) (messages v) (last_handle v).

Lemma grows_open v h : last_handle v < h -> grows v (with_new (with_handle v h) (h, Replay_default)).
Proof.
  intros Hh. split; [cbn; lia|]. split; [done|]. split; cbn [windows boxes with_new with_handle].
  - intros x s Hs. by exists s.
  - intros h' r' [Hin|[[= <- <-]|[]]]%in_app_iff; [right; by exists r'|by left].
Qed.

Lemma once_handle seen k v h : once seen k v -> last_handle v <= h -> once seen k (with_handle v h).
Proof.
  intros Hv Hh. apply (once_grows seen k v); [done| |apply Hv|apply Hv|].
  - split; [done|]. split; [done|]. split; [intros x s Hs; by exists s|intros h' r' Hr; right; by exists r'].
  - intros h' r' Hr. cbn. apply Hv in Hr. lia.
Qed.

Lemma once_open seen k v h : once seen k v -> last_handle v < h -> once seen k (with_new (with_handle v h) (h, Replay_default)).
Proof.
  intros Hv Hh. apply (once_grows seen k v); [done|by apply grows_open|apply Hv|..]; cbn [boxes with_new with_handle last_handle].
  - rewrite map_app. apply NoDup_app. split; [apply Hv|]. split; [|apply NoDup_singleton].
    intros x Hx%list_elem_of_fmap Hs%list_elem_of_singleton. destruct Hx as ([y r] & Hy & Hin). cbn in Hy, Hs. subst x y.
    apply list_elem_of_In, Hv in Hin. lia.
  - intros h' r' [Hin|[[= <- _]|[]]]%in_app_iff; [apply Hv in Hin; lia|lia].
Qed.

(** A sublist in the sense of a filter. *)
Lemma nodup_map_filter {A B} (f : A -> B) p l : NoDup (map f l) -> NoDup (map f (List.filter p l)).
Proof.
  induction l as [|x l IH]; [done|]. cbn. intros [Hx Hl]%NoDup_cons. specialize (IH Hl). destruct (p x); [|done].
  cbn. apply NoDup_cons. split; [|done]. intros (y & Hy & Hin)%list_elem_of_fmap. apply Hx. rewrite Hy.
  apply list_elem_of_fmap. exists y. split; [done|]. by apply list_elem_of_In, filter_In, proj1, list_elem_of_In in Hin.
Qed.

Lemma once_fewer seen k v l :
  once seen k v -> NoDup (map fst l) -> (forall b, In b l -> In b (boxes v)) ->
  once seen k (mk_view (windows v) l (messages v) (last_handle v)).
Proof.
  intros Hv Hl Hin. apply (once_grows seen k v); [done| |apply Hv|done|].
  - split; [done|]. split; [done|]. split; [intros x s Hs; by exists s|]. intros h r Hr. right. exists r. split; [by apply Hin|done].
  - intros h r Hr. cbn. eapply Hv. by apply Hin.
Qed.

(** ** Operations that leave the view as it is *)

Section WithCrypto.
Context {HC : Crypto}.

Definition quiet {A} (m : Op A) : Prop := forall n, view (m n).1 = view n.

Lemma quiet_bind {A B} (m : Op A) (f : A -> Op B) : quiet m -> (forall a, quiet (f a)) -> quiet (bind m f).
Proof.
  intros Hm Hf n. unfold bind. specialize (Hm n). destruct (m n) as [n' [a|e]]; cbn [fst] in *; [|done]. by rewrite Hf.
Qed.

Lemma quiet_ret {A} (a : A) : quiet (ret a). Proof. done. Qed.
Lemma quiet_fail {A} e : quiet (@fail A e). Proof. done. Qed.
Lemma quiet_try {A} (r : Result A) : quiet (try_ r). Proof. done. Qed.
Lemma quiet_get : quiet get. Proof. done. Qed.

Lemma quiet_send_out o : quiet (send_out o).
Proof. intros n. unfold send_out. by destruct (queue _ _ _). Qed.

Lemma map_alter_same {A B} (f : A -> B) g i l : (forall x, f (g x) = f x) -> map f (alter g i l) = map f l.
Proof.
  intros H. change (map f ?l) with (f <$> l). apply list_eq. intros j. rewrite !list_lookup_fmap.
  destruct (decide (i = j)) as [->|Hne]; [rewrite list_lookup_alter_eq|by rewrite list_lookup_alter_ne].
  destruct (l !! j); cbn; [by rewrite H|done].
Qed.

Lemma quiet_update i f : (forall e, box (f e) = box e) -> quiet (update_exchange i f).
Proof. intros H n. unfold update_exchange, modify, view. cbn. by rewrite map_alter_same. Qed.

Lemma quiet_event e : message_of e = None -> quiet (push_event e).
Proof. intros H n. unfold push_event, modify, view, inbox. cbn. rewrite omap_app. cbn. by rewrite H, app_nil_r. Qed.

Lemma windows_counter n j s c :
  sessions n !! j = Some s -> view (set_sessions n (<[j := with_counter s c]> (sessions n))) = view n.
Proof.
  intros Hj. unfold view. cbn. f_equal. change (map window ?l) with (window <$> l). rewrite list_fmap_insert.
  apply list_insert_id. by rewrite list_lookup_fmap, Hj.
Qed.

Ltac quiet :=
  repeat (cbv zeta;
    match goal with
    | |- quiet (ret _) => apply quiet_ret
    | |- quiet (fail _) => apply quiet_fail
    | |- quiet (try_ _) => apply quiet_try
    | |- quiet get => apply quiet_get
    | |- quiet (send_out _) => apply quiet_send_out
    | |- quiet (bind _ _) => apply quiet_bind; [|intros ?]
    | |- quiet (if ?b then _ else _) => destruct b
    | |- quiet (match ?x with _ => _ end) => destruct x
    end).

(** The first step of an operation reads the node. *)
Lemma get_at {B} (f : Node -> Op B) n : view (f n n).1 = view n -> view (bind get f n).1 = view n.
Proof. done. Qed.

Lemma bind_at {A B} (m : Op A) (f : A -> Op B) n :
  view (m n).1 = view n -> (forall a, quiet (f a)) -> view (bind m f n).1 = view n.
Proof. intros Hm Hf. unfold bind. destruct (m n) as [n' [a|e]]; cbn [fst] in *; [|done]. by rewrite Hf. Qed.

Lemma try_at {A B} (r : Result A) (f : A -> Op B) n :
  (forall a, r = Ok a -> view (f a n).1 = view n) -> view (bind (try_ r) f n).1 = view n.
Proof. intros H. unfold bind, try_. destruct r; [by apply H|done]. Qed.

Lemma build_quiet i protocol opcode payload reliable : quiet (build i protocol opcode payload reliable).
Proof.
  intros n. unfold build. apply get_at. cbv zeta. apply try_at. intros c _. apply try_at. intros body _.
  apply bind_at; [|intros frame; quiet]. destruct (find_index _ _) as [j|].
  - destruct (sessions n !! j) as [s|] eqn:Hj; [|done]. apply bind_at; [|intros []; quiet].
    unfold modify. by apply windows_counter.
  - destruct (negb _); [done|]. apply bind_at; [done|]. intros []. quiet.
Qed.

Lemma send_quiet h opcode payload reliable now jitter : quiet (send h opcode payload reliable now jitter).
Proof. unfold send. quiet; [apply build_quiet|]. by apply quiet_update. Qed.

Lemma acknowledge_quiet h : quiet (acknowledge h).
Proof. unfold acknowledge. quiet; [apply build_quiet|]. by apply quiet_update. Qed.

Lemma late_ack_quiet addr m : quiet (late_ack addr m).
Proof.
  intros n. unfold late_ack. destruct (_ || _); [done|]. apply get_at. apply try_at. intros j _.
  destruct (sessions n !! j) as [s|] eqn:Hj; [|done]. apply try_at. intros c _. apply bind_at; [|intros []; quiet].
  unfold modify. by apply windows_counter.
Qed.

(** ** Receiving *)

Section Ops.
Context (seen : list (Handle * Message)) (k : nat).
Let I n := once seen k (view n).

(** A quiet step keeps everything that is said of the view. *)
Lemma quiet_triple {A} v (m : Op A) : quiet m -> triple I (fun n => view n = v) m (fun _ n => view n = v).
Proof.
  intros H n Hi Hv. specialize (H n). split; [unfold I; by rewrite H|]. destruct (m n).2; [by rewrite H|done].
Qed.

Lemma quiet_keeps {A} (m : Op A) : quiet m -> keeps I m.
Proof. intros H n Hi _. split; [unfold I; by rewrite H|]. by destruct (m n).2. Qed.

Lemma push_message_keeps v d :
  (once seen k v -> deliverable seen k v d) ->
  triple I (fun n => view n = v) (push_event (EMessage d.1 d.2)) (fun _ _ => True).
Proof.
  intros Hk. apply triple_modify. intros n Hi <-. split; [|done]. destruct d as [h m].
  assert (view (set_events n (events n ++ [EMessage h m])) = with_message (view n) (h, m)) as Hv.
  { unfold view, with_message, inbox. cbn. by rewrite omap_app. }
  unfold I. cbn [fst snd]. rewrite Hv. apply once_deliver; [done|by apply Hk].
Qed.

Lemma view_box n i f r' h r :
  boxes (view n) !! i = Some (h, r) -> (forall e, box (f e) = (handle e, r')) ->
  view (set_exchanges n (alter f i (exchanges n))) = with_box (view n) i (h, r').
Proof.
  intros Hb Hf. unfold view, with_box. cbn in *. f_equal. change (map box ?l) with (box <$> l) in *.
  rewrite list_lookup_fmap in Hb. destruct (exchanges n !! i) as [e|] eqn:He; [|done]. injection Hb as Hh Hr.
  apply list_eq. intros j. rewrite list_lookup_fmap. destruct (decide (i = j)) as [->|Hne].
  - rewrite list_lookup_alter_eq, He, list_lookup_insert_eq by (rewrite length_fmap; by eapply lookup_lt_Some).
    cbn. by rewrite Hf, <- Hh.
  - by rewrite list_lookup_alter_ne, list_lookup_insert_ne, list_lookup_fmap.
Qed.

(** The message reaches the exchange at [i] while its session has marked it, if it has one. *)
Lemma deliver_keeps_once m duplicate i accepted v h r :
  boxes v !! i = Some (h, r) ->
  (session (m_header m) <> 0 -> duplicate = false -> deliverable seen k v (h, m)) ->
  triple I (fun n => view n = v) (deliver (session (m_header m)) m duplicate i accepted) (fun _ _ => True).
Proof.
  intros Hb Hd. unfold deliver. apply triple_get. intros n. cbv zeta. set (e := exchange_at n i).
  apply (triple_pure _ (handle e = h /\ e_replay e = r)).
  { intros n' _ [-> <-]. cbn in Hb. change (map box ?l) with (box <$> l) in Hb. rewrite list_lookup_fmap in Hb.
    destruct (exchanges n !! i) as [x|] eqn:Hx; [|done]. injection Hb as <- <-. unfold e, exchange_at.
    by rewrite (nth_lookup_Some _ _ _ _ Hx). }
  intros [He Hr]. apply triple_if; intros _; [apply triple_fail|]. apply triple_if; intros _; [apply triple_fail|].
  apply (triple_conseq I (fun n => view n = v) _ _ (fun _ _ => True)); [by intros m' _ [-> <-]|done|].
  eapply triple_bind; [apply quiet_triple; destruct accepted; [by apply quiet_event|apply quiet_ret]|intros []].
  eapply triple_bind; [apply quiet_triple|intros []].
  { destruct (ack (m_protocol m)) as [c|], (pending e) as [w|]; try apply quiet_ret. destruct (p_counter w =? c); [|apply quiet_ret].
    apply quiet_bind; [by apply quiet_update|]. intros []. by apply quiet_event. }
  cbn beta. set (d' := fun (d : bool) v' => d = false -> once seen k v' -> deliverable seen k v' (h, m)).
  apply triple_bind with (R := fun d n => d' d (view n)).
  - apply triple_if; intros Hs.
    + apply Z.eqb_eq in Hs. rewrite Hr. destruct (mark r (counter (m_header m))) as [r' d] eqn:Em.
      apply triple_bind with (R := fun _ n => view n = with_box v i (h, r') /\ once seen k v); [|intros []; apply triple_ret].
      * apply triple_modify. intros n' Hi Hv. cbn beta.
        rewrite (view_box n' i _ r' h r), Hv by (rewrite ?Hv; done). split; [|by rewrite <- Hv].
        unfold I. rewrite (view_box n' i _ r' h r), Hv by (rewrite ?Hv; done).
        replace r' with (mark r (counter (m_header m))).1 by by rewrite Em. apply once_box; [by rewrite <- Hv|done].
      * intros n' _ [Hv Ho] Hf _. rewrite Hv. replace r' with (mark r (counter (m_header m))).1 by by rewrite Em.
        apply deliverable_box; try done. by rewrite Em.
    + apply Z.eqb_neq in Hs. apply triple_ret. intros n' _ -> Hf _. by apply Hd.
  - intros d. apply triple_bind with (R := fun _ n => d' d (view n)).
    + intros n' Hi Hp. assert (quiet (if reliable (m_protocol m) then
        update_exchange i (fun e0 => with_ack e0 (Some (counter (m_header m)))) else ret tt)) as Hq.
      { destruct (reliable _); [by apply quiet_update|apply quiet_ret]. }
      specialize (Hq n'). unfold I. rewrite Hq. split; [done|]. by destruct (_ n').2.
    + intros []. apply triple_if; intros _; [by apply triple_ret|]. destruct d.
      * eapply triple_conseq; [| |apply quiet_keeps, acknowledge_quiet]; done.
      * intros n' Hi Hp. rewrite He. apply (push_message_keeps (view n') (h, m)); [|done|done]. intros Ho. by apply Hp.
Qed.

Lemma authenticate_header n secure bytes h i m :
  peek bytes = Ok (h, i) -> authenticate n secure (session h) bytes = Ok m -> m_header m = h.
Proof.
  intros Hp. unfold authenticate. destruct (session h =? 0).
  - unfold Message.parse. rewrite Hp. cbn [mbind result_bind]. destruct (protocol_parse _) as [[p k']|]; cbn [mbind result_bind]; [|done].
    destruct (copy _); cbn [mbind result_bind]; [|done]. destruct (unsecured _) as [[]|]; cbn [mbind result_bind]; [|done].
    by intros [= <-].
  - destruct (ok_or _ _) as [s|]; cbn [mbind result_bind]; [|done].
    destruct (Message.open _ _ _) as [m'|] eqn:E; cbn [mbind result_bind]; [|done]. intros H.
    assert (m' = m) as -> by (destruct (match destination _ with Some _ => _ | None => _ end); [done|by injection H]).
    revert E. unfold Message.open. rewrite Hp. cbn [mbind result_bind]. destruct (_ =? 0); [done|].
    destruct (nonce _ _ _); cbn [mbind result_bind]; [|done]. destruct (Ccm_new _ _); cbn [mbind result_bind]; [|done].
    destruct (Ccm.open _ _ _ _); cbn [mbind result_bind]; [|done].
    destruct (protocol_parse _) as [[p k']|]; cbn [mbind result_bind]; [|done].
    destruct (copy _); cbn [mbind result_bind]; [|done]. by intros [= <-].
Qed.

(** The window of the session, which takes the counter of the message. *)
Lemma mark_session_once m secure now n0 :
  (session (m_header m) <> 0 -> exists j s, secure = Some j /\ sessions n0 !! j = Some s /\ local (config s) = session (m_header m)) ->
  triple I (fun n => n = n0) (mark_session secure (counter (m_header m)) now)
    (fun d n => exchanges n = exchanges n0
       /\ (session (m_header m) <> 0 -> d = false -> forall h, deliverable seen k (view n) (h, m))).
Proof.
  intros Hs n Hi ->. unfold mark_session. destruct secure as [j|].
  2:{ split; [done|]. split; [done|]. intros Hx. by destruct (Hs Hx) as (j & s & Hj & _). }
  destruct (sessions n0 !! j) as [s|] eqn:Ej.
  2:{ split; [done|]. split; [done|]. intros Hx. destruct (Hs Hx) as (j' & s & Hj & Hl & _). congruence. }
  destruct (mark (s_replay s) (counter (m_header m))) as [r d] eqn:Em. cbn [fst snd].
  assert (windows (view n0) !! j = Some (local (config s), s_replay s)) as Hw.
  { cbn. change (map window ?l) with (window <$> l). by rewrite list_lookup_fmap, Ej. }
  assert (view (set_sessions n0 (<[j := with_seen s r now]> (sessions n0)))
          = with_window (view n0) j (local (config s), (mark (s_replay s) (counter (m_header m))).1)) as Hv.
  { unfold view, with_window. cbn. rewrite Em. f_equal. change (map window ?l) with (window <$> l). by rewrite list_fmap_insert. }
  unfold I. rewrite Hv. split; [by apply once_window|]. split; [done|]. intros Hx Hd h.
  destruct (Hs Hx) as (j' & s' & [= <-] & Hl & Hid). rewrite Ej in Hl. injection Hl as <-. rewrite Hid in *.
  apply deliverable_window; try done. by rewrite Em, Hd.
Qed.

(** A new exchange takes a handle that was never used. *)
Lemma open_view {A} (f : Handle -> Exchange) (g : Handle -> Node -> A) n :
  (forall h, box (f h) = (h, Replay_default)) ->
  let h := next_handle n + 1 in
  let '(n', r) := (let! h := new_handle in
                   let! n := get in
                   let! l := try_ (from_core (Value.push (exchanges n) (f h) MAX_EXCHANGES)) in
                   bind (modify (fun n => set_exchanges n l)) (fun _ => ret (g h n))) n in
  match r with
  | Ok a => a = g h (set_next_handle n h) /\ view n' = with_new (with_handle (view n) h) (h, Replay_default)
  | Err _ => view n' = view n \/ view n' = with_handle (view n) h
  end.
Proof.
  intros Hf. unfold bind, get, try_, modify, ret, new_handle.
  destruct (checked_add (next_handle n) 1) as [h|] eqn:Eh; [|by left]. apply checked_add_Some in Eh as [-> _].
  destruct (Value.push _ _ _) as [l|] eqn:El; cbn [from_core]; [|by right].
  apply Value.push_Ok in El as [_ ->]. split; [done|]. unfold view, with_new, with_handle. cbn. by rewrite map_app, <- Hf.
Qed.

Lemma once_opened n n' : I n ->
  view n' = view n \/ view n' = with_handle (view n) (next_handle n + 1)
  \/ view n' = with_new (with_handle (view n) (next_handle n + 1)) (next_handle n + 1, Replay_default) -> I n'.
Proof.
  intros Hi H. assert (last_handle (view n) < next_handle n + 1) as Hlt by (change (next_handle n < next_handle n + 1); lia).
  unfold I. destruct H as [-> |[-> | ->]]; [done|apply once_handle; [done|lia]|by apply once_open].
Qed.

Lemma accept_once addr m d :
  triple I (fun n => session (m_header m) <> 0 -> d = false -> forall h, deliverable seen k (view n) (h, m))
    (accept addr (session (m_header m)) m)
    (fun i n => exists h, boxes (view n) !! i = Some (h, Replay_default)
       /\ (session (m_header m) <> 0 -> d = false -> deliverable seen k (view n) (h, m))).
Proof.
  unfold accept. apply triple_if; intros _; [apply triple_fail|]. cbv zeta. intros n Hi Hp.
  pose proof (open_view (fun h => mk_exchange h addr (session (m_header m)) (exchange (m_protocol m)) false
    (protocol (m_protocol m)) (default 0 (source (m_header m))) Replay_default None None 0)
    (fun _ n => length (exchanges n)) n (fun _ => eq_refl)) as H. cbv zeta in H.
  destruct (bind new_handle _ n) as [n' [i|]]; cbn [fst snd].
  - destruct H as [-> Hv]. split; [apply (once_opened n); auto|]. rewrite Hv. exists (next_handle n + 1). split.
    + cbn. rewrite <- (length_map box (exchanges n)). by apply list_lookup_middle.
    + intros Hx Hd. apply (deliverable_grows seen k (view n)); [|by apply Hp].
      apply grows_open. change (next_handle n < next_handle n + 1). lia.
  - split; [|done]. apply (once_opened n); tauto.
Qed.

Lemma receive_once addr bytes now : keeps I (receive addr bytes now).
Proof.
  unfold receive. apply triple_if; intros _; [apply triple_fail|]. apply triple_get. intros n.
  apply triple_if; intros _; [apply triple_fail|]. apply triple_try. intros [header i0] Hpeek.
  apply triple_if; intros _; [apply triple_fail|]. cbv zeta. apply triple_try. intros m Hauth.
  pose proof (authenticate_header _ _ _ _ _ _ Hpeek Hauth) as <-.
  set (secure := find_index _ (sessions n)) in *. set (found := find_index _ (exchanges n)).
  apply triple_if; intros _; [apply triple_fail|]. apply triple_if; intros _; [apply triple_fail|].
  apply triple_if; intros _; [apply triple_fail|].
  assert (session (m_header m) <> 0 -> exists j s, secure = Some j /\ sessions n !! j = Some s
            /\ local (config s) = session (m_header m)) as Hsec.
  { intros Hx. unfold authenticate in Hauth. rewrite (proj2 (Z.eqb_neq _ _) Hx) in Hauth.
    destruct secure as [j|] eqn:Es; [|done]. apply find_index_Some in Es as (s & Hj & [Hs%is_local_true _]%andb_true_iff & _).
    by exists j, s. }
  eapply triple_bind; [eapply triple_conseq; [|done|apply (mark_session_once m secure now n Hsec)]; by intros n' _ [-> _]|].
  intros d. cbn beta. destruct found as [i|] eqn:Ef.
  - apply find_index_Some in Ef as (e & He & _). intros n' Hi [Hex Hd].
    apply (deliver_keeps_once m d i false (view n') (handle e) (e_replay e)); [|by intros; apply Hd|done|done].
    cbn. change (map box ?l) with (box <$> l). by rewrite list_lookup_fmap, Hex, He.
  - apply triple_if; intros _; [apply keeps_triple, quiet_keeps, late_ack_quiet|].
    eapply triple_bind; [eapply triple_conseq; [|done|apply (accept_once addr m d)]; by intros n' _ [_ Hd]|].
    intros i n' Hi (h & Hb & Hd). by apply (deliver_keeps_once m d i true (view n') h Replay_default).
Qed.

Lemma initiate_once addr session protocol eph retry_ms : keeps I (initiate addr session protocol eph retry_ms).
Proof.
  unfold initiate. apply triple_get. intros n. apply keeps_triple.
  apply triple_if; intros _; [apply keeps_fail|]. apply triple_if; intros _; [apply keeps_fail|].
  apply keeps_bind; [|intros o; apply keeps_bind; [apply keeps_try_|intros x]].
  - apply quiet_keeps. generalize (Z.to_nat (MAX_EXCHANGES + 1)). intros f m. revert m. induction f as [|f IH]; intros m; [done|].
    cbn [free_id]. destruct (negb _); [done|]. by rewrite IH.
  - intros m Hi _. pose proof (open_view (fun h => mk_exchange h addr session x true protocol eph Replay_default None None retry_ms)
      (fun h _ => h) m (fun _ => eq_refl)) as H. cbv zeta in H.
    destruct (bind new_handle _ m) as [m' [h|]]; cbn [fst snd]; (split; [|done]); apply (once_opened m); tauto.
Qed.

Lemma nodup_remove_at {A} i (l : list A) : NoDup l -> NoDup (remove_at i l).
Proof.
  unfold remove_at. intros H. revert i. induction l as [|x l IH]; intros [|i]; cbn; try done; apply NoDup_cons in H as [Hx H].
  - by rewrite drop_0.
  - apply NoDup_cons. split; [|by apply IH]. intros Hin. apply Hx. apply list_elem_of_In. apply list_elem_of_In in Hin.
    by apply in_remove_at in Hin.
Qed.

Lemma tick_once now jitter : keeps I (tick now jitter).
Proof.
  unfold tick. apply triple_get. intros n.
  destruct (find_index _ _) as [i|]; [|by apply triple_ret]. cbv zeta. destruct (pending _) as [p|]; [|apply triple_fail].
  apply triple_if; intros _.
  2:{ apply keeps_triple, quiet_keeps. apply quiet_bind; [apply quiet_try|intros b].
      apply quiet_bind; [apply quiet_send_out|intros []]. by apply quiet_update. }
  apply triple_try. intros q Hq. unfold queue in Hq. destruct (_ <=? _)%nat; [done|]. injection Hq as <-.
  apply triple_modify. intros n' Hi [-> _]. split; [|done].
  assert (view (set_exchanges (set_events n (events n ++ [Failed (handle (exchange_at n i))])) (remove_at i (exchanges n)))
          = mk_view (windows (view n)) (remove_at i (boxes (view n))) (messages (view n)) (last_handle (view n))) as Hv.
  { unfold view, inbox. cbn. rewrite omap_app. cbn. rewrite app_nil_r. f_equal. unfold remove_at.
    rewrite map_app. change (map box ?l) with (box <$> l). by rewrite fmap_take, fmap_drop. }
  unfold I. rewrite Hv. apply once_fewer; [done| |by intros b Hb%in_remove_at].
  assert (map fst (remove_at i (boxes (view n))) = remove_at i (map fst (boxes (view n)))) as ->.
  { unfold remove_at. rewrite map_app. change (map fst ?l) with (fst <$> l). by rewrite fmap_take, fmap_drop. }
  apply nodup_remove_at, Hi.
Qed.

Lemma close_once h n : I n -> I (close h n).
Proof.
  intros Hi. unfold close, I.
  assert (view (set_exchanges n (List.filter (fun e => negb (handle e =? h)) (exchanges n)))
          = mk_view (windows (view n)) (List.filter (fun b => negb (b.1 =? h)) (boxes (view n))) (messages (view n)) (last_handle (view n))) as ->.
  { unfold view. cbn. f_equal. induction (exchanges n) as [|e l IH]; [done|]. cbn. destruct (negb _); cbn; by rewrite IH. }
  apply once_fewer; [done| |by intros b [Hb _]%filter_In]. apply nodup_map_filter, Hi.
Qed.

Lemma register_once c seed : keeps I (register c seed).
Proof.
  intros n Hi _. unfold register. destruct (_ || _) eqn:E; [done|]. destruct (Value.push _ _ _) as [l|] eqn:El; [|done].
  cbn [fst snd]. split; [|done]. apply Value.push_Ok in El as [_ ->]. apply orb_false_iff in E as [_ Hh].
  unfold I. set (s := mk_secure c _ _ _).
  assert (view (set_sessions n (sessions n ++ [s]))
          = mk_view (windows (view n) ++ [window s]) (boxes (view n)) (messages (view n)) (last_handle (view n))) as ->.
  { unfold view. cbn. by rewrite map_app. }
  apply (once_grows seen k (view n)); [done| | |apply Hi|apply Hi].
  - split; [done|]. split; [done|]. split; [|intros h r Hr; right; by exists r]. intros x r Hr. exists r. split; [|done].
    apply in_app_iff. by left.
  - cbn [windows]. rewrite map_app. apply NoDup_app. split; [apply Hi|]. split; [|apply NoDup_singleton].
    intros x Hx%list_elem_of_fmap Hs%list_elem_of_singleton. destruct Hx as ([y r] & Hy & Hin). cbn in Hy, Hs. subst x y.
    apply list_elem_of_fmap in Hin as (s' & Hw & Hin%list_elem_of_In). injection Hw as Hid _.
    unfold has_session in Hh. assert (existsb (is_local (local c)) (sessions n) = true); [|congruence].
    apply existsb_exists. exists s'. split; [done|]. by apply is_local_true.
Qed.

End Ops.

(** ** Runs *)

(** Between two calls nothing in the queue is new. *)
Definition settled_world (w : World) : Prop := once (told w) (length (inbox (node w))) (view (node w)).

Lemma log_end seen v : log seen (length (messages v)) v = seen.
Proof. unfold log. by rewrite drop_all, app_nil_r. Qed.

(** The messages of a call join those handed out before. *)
Lemma once_settle seen k v : once seen k v -> once (seen ++ drop k (messages v)) (length (messages v)) v.
Proof. intros [Hq Hw Hb Hh Hs Ho]. by constructor; rewrite ?log_end. Qed.

(** Only what was handed out, the windows and the exchanges matter, and they may become fewer together. *)
Lemma once_forget seen seen' v v' :
  once seen (length (messages v)) v -> last_handle v' = last_handle v ->
  NoDup (map fst (windows v')) -> NoDup (map fst (boxes v')) -> (forall b, In b (boxes v') -> In b (boxes v)) ->
  NoDup (map key seen') ->
  (forall d, In d seen' -> In d seen /\ (session (m_header d.2) <> 0 ->
     forall r, In (session (m_header d.2), r) (windows v) -> In (session (m_header d.2), r) (windows v'))) ->
  once seen' (length (messages v')) v'.
Proof.
  intros [_ Hw Hb Hh Hs Ho] Hl Hw' Hb' Hbs Ho' Hd. constructor; rewrite ?log_end; try done.
  - intros h r Hr. rewrite Hl. by eapply Hh, Hbs.
  - intros [h m] Hin. destruct (Hd _ Hin) as [Hin' Hkeep]. rewrite log_end in Hs. specialize (Hs _ Hin').
    unfold settled in *. cbn [snd] in Hkeep. destruct (Z.eqb_spec (session (m_header m)) 0).
    + rewrite Hl. destruct Hs as [Hh' Hr]. split; [done|]. intros r Hi. by apply Hr, Hbs.
    + destruct Hs as (r & Hi & Hm). exists r. split; [by apply Hkeep|done].
Qed.

Lemma remove_once w x n : settled_world w -> remove x (node w) = (n, Ok tt) ->
  once (forget x (told w)) (length (inbox n)) (view n).
Proof.
  intros Hw H. unfold remove in H. destruct (_ <? _)%nat; [done|]. injection H as <-. set (n' := mk_node _ _ _ _ _ _ _).
  change (inbox n') with (messages (view n')). apply (once_forget (told w) _ (view (node w))); [done|done| | | | |].
  - cbn. assert (map window (List.filter (fun s => negb (is_local x s)) (sessions (node w)))
      = List.filter (fun b => negb (b.1 =? x)) (map window (sessions (node w)))) as ->; [|apply nodup_map_filter, Hw].
    induction (sessions (node w)) as [|s l IH]; [done|]. cbn. unfold is_local at 1. destruct (_ =? _); cbn; by rewrite IH.
  - cbn. rewrite map_map. assert (forall l, NoDup (map fst (map box l)) ->
      NoDup (map (fun e => (box e).1) (List.filter (fun e => negb (e_session e =? x)) l))) as Hf.
    { intros l Hl. rewrite map_map in Hl. by apply nodup_map_filter. }
    apply Hf, Hw.
  - intros b (e & <- & [He _]%filter_In)%in_map_iff. apply in_map_iff. by exists e.
  - unfold forget. pose proof (on_once _ _ _ Hw) as Ho. change (inbox (node w)) with (messages (view (node w))) in Ho.
    rewrite log_end in Ho. destruct (x =? 0); [done|]. by apply nodup_map_filter.
  - intros d Hd. assert (In d (told w) /\ (session (m_header d.2) <> 0 -> session (m_header d.2) <> x)) as [Hin Hne].
    { unfold forget in Hd. destruct (Z.eqb_spec x 0) as [->|Hx]; [done|].
      apply filter_In in Hd as [Hd Hb%negb_true_iff%Z.eqb_neq]. done. }
    split; [done|]. intros Hs0 r (s & Hws & Hs)%in_map_iff. cbn. apply in_map_iff. exists s. split; [done|].
    apply filter_In. split; [done|]. apply negb_true_iff. injection Hws as Hid _. unfold is_local. apply Z.eqb_neq.
    rewrite Hid. by apply Hne.
Qed.

Lemma step_once w c : settled_world w -> settled_world (step w c).
Proof.
  intros Hw. set (seen := told w). set (k := length (inbox (node w))).
  assert (forall n, once seen k (view n) -> settled_world (mk_world n (sent w) (seen ++ drop k (inbox n)))) as Hset.
  { intros n Hn. by apply (once_settle seen k (view n)). }
  assert (forall m : Op unit, keeps (fun n => once seen k (view n)) m ->
    once seen k (view (m (node w)).1)) as Hkeeps by (intros m Hm; by apply Hm).
  unfold step. destruct c as [c seed|x|a s p e r|h o b r now j|h|h|a b now|now j| |].
  2:{ cbn [perform]. destruct (remove x (node w)) as [n [[]|e]] eqn:E; [by apply remove_once|].
      apply Hset. replace n with (node w); [done|]. unfold remove in E. destruct (_ <? _)%nat; by injection E. }
  8:{ cbn [perform modify]. unfold outgoing. destruct (out (node w)); unfold settled_world; cbn; rewrite ?app_nil_r; done. }
  8:{ cbn [perform modify]. unfold event. destruct (events (node w)) as [|ev l] eqn:Eev; cbn [fst]; [by apply Hset|].
      set (n' := set_events _ l). assert (length (inbox n') <= k)%nat as Hle.
      { unfold k, inbox. rewrite Eev. cbn. destruct (message_of ev); cbn; lia. }
      change (settled_world (mk_world n' (sent w) (told w ++ drop k (inbox n')))). rewrite (drop_ge _ _ Hle), app_nil_r.
      change (once (told w) (length (messages (view n'))) (view n')).
      apply (once_forget seen _ (view (node w))); [done|done|apply Hw|apply Hw|done| |done].
      pose proof (on_once _ _ _ Hw) as Ho. change (inbox (node w)) with (messages (view (node w))) in Ho.
      by rewrite log_end in Ho. }
  all: match goal with |- context [perform ?c ?n] => destruct (perform c n) as [n' r'] eqn:E end.
  all: apply Hset; change n' with (n', r').1; rewrite <- E; cbn [perform]; apply Hkeeps.
  - by apply register_once.
  - apply keeps_bind; [apply initiate_once|intros; apply keeps_ret].
  - apply quiet_keeps, send_quiet.
  - apply quiet_keeps, acknowledge_quiet.
  - apply op_keeps_modify. by apply close_once.
  - apply receive_once.
  - apply tick_once.
Qed.

Lemma run_once calls seed exch : settled_world (run calls (Node_new seed exch)).
Proof.
  unfold run. assert (forall w, settled_world w -> settled_world (fold_left step calls w)) as H.
  { induction calls as [|c calls IH]; intros w Hw; [done|]. cbn [fold_left]. apply IH. by apply step_once. }
  apply H. constructor; cbn; try done; constructor.
Qed.

(** C18: Whatever the owner calls and whatever arrives, a message is handed to a protocol at most
    once: no two of the messages handed out have the same session and counter, and without a
    session no two have the same exchange and counter. *)
Theorem messages_are_delivered_once calls seed exch : NoDup (map key (told (run calls (Node_new seed exch)))).
Proof.
  pose proof (on_once _ _ _ (run_once calls seed exch)) as Ho.
  change (inbox ?n) with (messages (view n)) in Ho. by rewrite log_end in Ho.
Qed.

End WithCrypto.

(** ** Duplicates *)

Section Sample.
Local Existing Instance toy_crypto.

Definition peer_session : Session :=
  mk_session 2 1 22 11 "a" (repeat 2 16) (repeat 1 16) (mk_timing 0 0 0).

(** The frame of the other side arrives three times, also after its exchange was closed. *)
Definition duplicate_calls : list Call :=
  let bytes := o_bytes sample_frame in
  [Register peer_session 4; Receive "a" bytes 0; TakeEvent; TakeEvent; Receive "a" bytes 1; Close 1; Receive "a" bytes 2].

Example one_delivery :
  map key (told (run duplicate_calls (Node_new 2 0))) = [(2, 0, 4)]
  /\ length (out (node (run duplicate_calls (Node_new 2 0)))) = 2%nat.
Proof. by vm_compute. Qed.

End Sample.

(** * MrpBounds: the tables stay bounded, retries run out, forgeries do nothing *)

Section WithCrypto.
Context {HC : Crypto}.

(** ** Bounds *)

(** Every table is within its limit, the events within [k]. *)
Record within (k : nat) (n : Node) : Prop := mk_within {
  w_sessions : Z.of_nat (length (sessions n)) <= MAX_SESSIONS;
  w_exchanges : Z.of_nat (length (exchanges n)) <= MAX_EXCHANGES;
  w_out : (length (out n) <= MAX_OUT)%nat;
  w_events : (length (events n) <= k)%nat
}.

Definition bounded : Node -> Prop := within MAX_EVENTS.

Lemma within_weaken j k n : (j <= k)%nat -> within j n -> within k n.
Proof. intros H []. constructor; try done. lia. Qed.

Lemma queue_Ok {A} (q : list A) x max l : queue q x max = Ok l -> l = q ++ [x] /\ (length q < max)%nat.
Proof. unfold queue. destruct (Nat.leb_spec max (length q)); [done|]. by intros [= <-]. Qed.

Section Keeps.
Context (k : nat).

Lemma send_out_within o : keeps (within k) (send_out o).
Proof.
  intros n Hn _. unfold send_out. destruct (queue _ _ _) as [q|] eqn:E; [|done]. split; [|done].
  apply queue_Ok in E as [-> Hl]. destruct Hn. constructor; try done. cbn. rewrite length_app. cbn. lia.
Qed.

Lemma update_within i f : keeps (within k) (update_exchange i f).
Proof. intros n [] _. split; [|done]. constructor; try done. cbn. by rewrite length_alter. Qed.

Lemma get_within : keeps (within k) get.
Proof. done. Qed.

Lemma build_within i protocol opcode payload reliable : keeps (within k) (build i protocol opcode payload reliable).
Proof.
  unfold build. keeps; try apply get_within; intros n' [] _; (split; [|done]); constructor; try done.
  cbn. by rewrite length_insert.
Qed.

Lemma acknowledge_within h : keeps (within k) (acknowledge h).
Proof. unfold acknowledge. keeps; first [apply get_within | apply build_within | apply send_out_within | apply update_within]. Qed.

Lemma send_within h opcode payload reliable now jitter : keeps (within k) (send h opcode payload reliable now jitter).
Proof. unfold send. keeps; first [apply get_within | apply build_within | apply send_out_within | apply update_within]. Qed.

Lemma late_ack_within addr m : keeps (within k) (late_ack addr m).
Proof.
  unfold late_ack. keeps; first [apply get_within | apply send_out_within | idtac].
  intros n' [] _. split; [|done]. constructor; try done. cbn. by rewrite length_insert.
Qed.

Lemma mark_session_within secure c now : keeps (within k) (mark_session secure c now).
Proof.
  intros n Hn _. unfold mark_session. destruct secure as [j|]; [|done]. destruct (sessions n !! j); [|done].
  destruct (mark _ _). split; [|done]. destruct Hn. constructor; try done. cbn. by rewrite length_insert.
Qed.

Lemma new_handle_within : keeps (within k) new_handle.
Proof. intros n [] _. unfold new_handle. destruct (checked_add _ _); by split. Qed.

Lemma push_exchange_within (f : Node -> Exchange) {A} (g : Node -> A) :
  keeps (within k) (bind get (fun n => bind (try_ (from_core (Value.push (exchanges n) (f n) MAX_EXCHANGES)))
    (fun l => bind (modify (fun n => set_exchanges n l)) (fun _ => ret (g n))))).
Proof.
  intros n Hn _. unfold bind, get, try_, modify, ret. destruct (Value.push _ _ _) as [l|] eqn:E; cbn [from_core fst snd]; [|done].
  split; [|done]. apply Value.push_Ok in E as [Hl ->]. destruct Hn. constructor; try done. cbn. rewrite length_app. cbn. lia.
Qed.

Lemma accept_within addr local_ m : keeps (within k) (accept addr local_ m).
Proof.
  unfold accept. apply triple_if; intros _; [apply keeps_fail|]. apply keeps_bind; [apply new_handle_within|]. intros h.
  apply (push_exchange_within (fun _ => mk_exchange _ _ _ _ _ _ _ _ _ _ _) (fun n => length (exchanges n))).
Qed.

Lemma initiate_within addr session protocol eph retry_ms : keeps (within k) (initiate addr session protocol eph retry_ms).
Proof.
  unfold initiate. apply keeps_bind; [apply get_within|]. intros n.
  apply triple_if; intros _; [apply keeps_fail|]. apply triple_if; intros _; [apply keeps_fail|].
  apply keeps_bind; [|intros o; apply keeps_bind; [apply keeps_try_|intros x; apply keeps_bind; [apply new_handle_within|intros h]]].
  - generalize (Z.to_nat (MAX_EXCHANGES + 1)). intros f m Hm _. revert m Hm. induction f as [|f IH]; intros m Hm; [done|].
    cbn [free_id]. cbv zeta. set (m' := set_next_exchange m _).
    assert (within k m') as Hm' by (by destruct Hm). destruct (negb _); [done|]. by apply IH.
  - apply (push_exchange_within (fun _ => mk_exchange _ _ _ _ _ _ _ _ _ _ _) (fun _ => _)).
Qed.

End Keeps.

(** One event more. *)
Lemma push_event_within k e : (k < MAX_EVENTS)%nat ->
  triple bounded (within k) (push_event e) (fun _ => within (S k)).
Proof.
  intros Hk. apply triple_modify. intros n Hb Hn. assert (within (S k) (set_events n (events n ++ [e]))) as H.
  { destruct Hn. constructor; try done. cbn. rewrite length_app. cbn. lia. }
  split; [|done]. eapply within_weaken; [|exact H]. lia.
Qed.

Lemma within_triple {A} k (m : Op A) : (k <= MAX_EVENTS)%nat -> keeps (within k) m -> triple bounded (within k) m (fun _ => within k).
Proof.
  intros Hk Hm n _ Hn. destruct (Hm n Hn I) as [H _]. split; [by eapply within_weaken|]. by destruct (m n).2.
Qed.

Lemma deliver_bounded local_ m duplicate i accepted :
  triple bounded (within 61) (deliver local_ m duplicate i accepted) (fun _ _ => True).
Proof.
  assert (forall j k (n : Node), (j <= k)%nat -> within j n -> within k n) as Hw by (intros; by eapply within_weaken).
  unfold deliver. eapply triple_bind; [apply within_triple; [cbv; lia|apply get_within]|]. intros n. cbn beta zeta.
  apply triple_if; intros _; [apply triple_fail|]. apply triple_if; intros _; [apply triple_fail|].
  apply triple_bind with (R := fun _ => within 62).
  { destruct accepted; [apply push_event_within; cbv; lia|]. apply triple_ret. intros n' _. by apply Hw; lia. }
  intros []. apply triple_bind with (R := fun _ => within 63).
  { assert (triple bounded (within 62) (ret tt) (fun _ => within 63)) as Hr by (apply triple_ret; intros n' _; by apply Hw; lia).
    destruct (ack (m_protocol m)) as [c|], (pending (exchange_at n i)) as [w|]; try exact Hr. destruct (p_counter w =? c); [|exact Hr].
    eapply triple_bind; [apply within_triple; [cbv; lia|apply update_within]|]. intros []. apply push_event_within. cbv. lia. }
  intros []. apply triple_bind with (R := fun _ => within 63).
  { apply within_triple; [cbv; lia|]. destruct (local_ =? 0); [|apply keeps_ret]. destruct (mark _ _).
    apply keeps_bind; [apply update_within|]. intros []. apply keeps_ret. }
  intros d. apply triple_bind with (R := fun _ => within 63).
  { apply within_triple; [cbv; lia|]. destruct (reliable _); [apply update_within|apply keeps_ret]. }
  intros []. apply triple_if; intros _; [by apply triple_ret|]. destruct d.
  - apply keeps_triple, acknowledge_within.
  - eapply triple_conseq; [done| |apply (push_event_within 63); cbv; lia]. done.
Qed.

Lemma receive_bounded addr bytes now : keeps bounded (receive addr bytes now).
Proof.
  unfold receive. apply triple_if; intros _; [apply triple_fail|]. apply triple_get. intros n.
  destruct (_ || _) eqn:Hfull; [apply triple_fail|]. apply orb_false_iff in Hfull as [Hfull%Nat.ltb_ge _].
  apply (triple_conseq _ (within 61) _ _ (fun _ _ => True)); [|done|].
  { intros n' Hb [-> _]. destruct Hb. constructor; try done. }
  apply triple_try. intros [h i0] _. apply triple_if; intros _; [apply triple_fail|]. cbv zeta. apply triple_try. intros m _.
  apply triple_if; intros _; [apply triple_fail|]. apply triple_if; intros _; [apply triple_fail|].
  apply triple_if; intros _; [apply triple_fail|].
  eapply triple_bind; [apply within_triple; [cbv; lia|apply mark_session_within]|]. intros d. cbn beta.
  destruct (find_index _ _) as [i|]; [apply deliver_bounded|].
  apply triple_if; intros _; [apply keeps_triple, late_ack_within|].
  eapply triple_bind; [apply within_triple; [cbv; lia|apply accept_within]|]. intros i. apply deliver_bounded.
Qed.

Lemma length_remove_at {A} i (l : list A) : (length (remove_at i l) <= length l)%nat.
Proof. unfold remove_at. rewrite length_app, length_take, length_drop. lia. Qed.

Lemma tick_bounded now jitter : keeps bounded (tick now jitter).
Proof.
  unfold tick. apply triple_get. intros n. destruct (find_index _ _) as [i|]; [|by apply triple_ret].
  cbv zeta. destruct (pending _) as [p|]; [|apply triple_fail]. apply triple_if; intros _.
  - apply triple_try. intros q [-> Hl]%queue_Ok. apply triple_modify. intros n' Hb [-> _]. split; [|done].
    pose proof (length_remove_at i (exchanges n)). destruct Hb. constructor; try done; cbn; [lia|]. rewrite length_app. cbn. lia.
  - apply keeps_triple. apply keeps_bind; [apply keeps_try_|intros b].
    apply keeps_bind; [apply send_out_within|intros []; apply update_within].
Qed.

Lemma length_filter_le {A} (p : A -> bool) l : (length (List.filter p l) <= length l)%nat.
Proof. induction l as [|x l IH]; cbn; [done|]. destruct (p x); cbn; lia. Qed.

Lemma perform_bounded c : keeps bounded (perform c).
Proof.
  destruct c as [c seed|x|a s p e r|h o b r now j|h|h|a b now|now j| |]; cbn [perform].
  - intros n Hb _. unfold register. destruct (_ || _); [done|]. destruct (Value.push _ _ _) as [l|] eqn:E; [|done].
    split; [|done]. apply Value.push_Ok in E as [Hl ->]. destruct Hb. constructor; try done. cbn. rewrite length_app. cbn. lia.
  - intros n Hb _. unfold remove. destruct (Nat.ltb_spec MAX_EVENTS
      (length (List.filter (fun e => e_session e =? x) (exchanges n)) + length (List.filter (fun ev => negb (belongs n x ev)) (events n)))); [done|].
    split; [|done]. destruct Hb. constructor; cbn [sessions exchanges out events fst].
    + pose proof (length_filter_le (fun s => negb (is_local x s)) (sessions n)). lia.
    + pose proof (length_filter_le (fun e => negb (e_session e =? x)) (exchanges n)). lia.
    + pose proof (length_filter_le (fun o => negb (o_session o =? x)) (out n)). lia.
    + rewrite length_app, length_map, length_rev. lia.
  - apply keeps_bind; [apply initiate_within|intros; apply keeps_ret].
  - apply send_within.
  - apply acknowledge_within.
  - apply op_keeps_modify. intros n []. constructor; try done. unfold close. cbn.
    pose proof (length_filter_le (fun e => negb (handle e =? h)) (exchanges n)). lia.
  - apply receive_bounded.
  - apply tick_bounded.
  - apply op_keeps_modify. intros n Hb. unfold outgoing. destruct (out n) eqn:E; [done|]. destruct Hb as [Hs He Ho Hv].
    rewrite E in Ho. constructor; try done. cbn in *. lia.
  - apply op_keeps_modify. intros n Hb. unfold event. destruct (events n) eqn:E; [done|]. destruct Hb as [Hs He Ho Hv].
    rewrite E in Hv. constructor; try done. cbn in *. lia.
Qed.

(** Whatever the owner calls and whatever arrives, the node keeps at most 64 sessions,
    128 exchanges, 64 datagrams to send and 64 events to take. *)
Theorem transport_stays_bounded calls seed exch :
  let n := node (run calls (Node_new seed exch)) in
  (length (sessions n) <= 64 /\ length (exchanges n) <= 128 /\ length (out n) <= 64 /\ length (events n) <= 64)%nat.
Proof.
  assert (forall w, bounded (node w) -> bounded (node (fold_left step calls w))) as H.
  { induction calls as [|c calls IH]; intros w Hw; [done|]. cbn [fold_left]. apply IH.
    destruct (perform_bounded c (node w) Hw I) as [Hp _]. unfold step. destruct (perform c (node w)) as [n r]. by destruct c, r. }
  cbv zeta. destruct (H (mk_world (Node_new seed exch) [] [])) as [Hs He Ho Hv].
  { constructor; cbn; unfold MAX_SESSIONS, MAX_EXCHANGES; lia. }
  fold (run calls (Node_new seed exch)) in *. unfold MAX_SESSIONS, MAX_EXCHANGES, MAX_OUT, MAX_EVENTS in *. lia.
Qed.

(** ** Retries run out *)

(** What an exchange waits for: at most four retries were sent, the next is at a time of the clock. *)
Definition waits_ok (e : Exchange) : Prop :=
  match pending e with
  | Some p => 0 <= attempt p <= 4 /\ p_next p <= U64_MAX /\ Z.of_nat (length (p_bytes p)) <= MAX
  | None => True
  end.
Definition waiting_ok (n : Node) : Prop := forall e, In e (exchanges n) -> waits_ok e.

Lemma saturating_add_max a b : saturating_add a b <= U64_MAX.
Proof. unfold saturating_add. lia. Qed.

Lemma update_waiting P i f :
  (forall n e, P n -> exchanges n !! i = Some e -> waits_ok e -> waits_ok (f e)) ->
  triple waiting_ok P (update_exchange i f) (fun _ _ => True).
Proof.
  intros H. apply triple_modify. intros n Hn Hp. split; [|done]. intros e [He|(e' & He & ->)]%in_alter; [by apply Hn|].
  apply (H n); [done|done|]. apply Hn. apply list_elem_of_In. by eapply list_elem_of_lookup_2.
Qed.

Lemma same_exchanges {A} (m : Op A) : (forall n, exchanges (m n).1 = exchanges n) -> keeps waiting_ok m.
Proof. intros H n Hn _. split; [|by destruct (m n).2]. intros e. rewrite H. apply Hn. Qed.

Lemma send_out_waiting o : keeps waiting_ok (send_out o).
Proof. apply same_exchanges. intros n. unfold send_out. by destruct (queue _ _ _). Qed.

Lemma build_waiting i protocol opcode payload reliable : keeps waiting_ok (build i protocol opcode payload reliable).
Proof. unfold build. keeps; apply same_exchanges; done. Qed.

Lemma quiet_update_waiting i f : (forall e, pending (f e) = None \/ pending (f e) = pending e) -> keeps waiting_ok (update_exchange i f).
Proof. intros H. apply update_waiting. intros n e _ _. unfold waits_ok. by destruct (H e) as [-> | ->]. Qed.

Lemma acknowledge_waiting h : keeps waiting_ok (acknowledge h).
Proof.
  unfold acknowledge. keeps; first [by apply same_exchanges | apply build_waiting | apply send_out_waiting | idtac].
  apply quiet_update_waiting. by right.
Qed.

Lemma send_waiting h opcode payload reliable now jitter : keeps waiting_ok (send h opcode payload reliable now jitter).
Proof.
  unfold send. apply triple_get. intros n. apply triple_try. intros i _. apply triple_if; intros _; [apply triple_fail|].
  eapply triple_bind; [apply keeps_triple, build_waiting|]. intros [bytes c]. apply triple_get. intros n1. cbn beta.
  apply triple_bind with (R := fun p _ => match p with
     Some p => 0 <= attempt p <= 4 /\ p_next p <= U64_MAX /\ Z.of_nat (length (p_bytes p)) <= MAX | None => True end).
  { apply triple_if; intros _; [|by apply triple_ret]. apply triple_try. intros b Hb. apply triple_ret. intros n' _ _.
    cbn. split; [lia|]. split; [apply saturating_add_max|]. pose proof (append_short _ _ _ Hb). by apply append_eq in Hb as ->. }
  intros p. cbv zeta. eapply triple_pure; [intros n' _ Hp; exact Hp|]. cbn beta. intros Hp. apply keeps_triple.
  apply keeps_bind; [apply send_out_waiting|]. intros []. apply update_waiting. intros n2 e _ _ _. exact Hp.
Qed.

Lemma push_exchange_waiting (f : Node -> Exchange) {A} (g : Node -> A) : (forall n, pending (f n) = None) ->
  keeps waiting_ok (bind get (fun n => bind (try_ (from_core (Value.push (exchanges n) (f n) MAX_EXCHANGES)))
    (fun l => bind (modify (fun n => set_exchanges n l)) (fun _ => ret (g n))))).
Proof.
  intros Hf n Hn _. unfold bind, get, try_, modify, ret. destruct (Value.push _ _ _) as [l|] eqn:E; cbn [from_core fst snd]; [|done].
  split; [|done]. apply Value.push_Ok in E as [_ ->]. intros e [He|[<-|[]]]%in_app_iff; [by apply Hn|].
  unfold waits_ok. by rewrite Hf.
Qed.

Lemma new_handle_waiting : keeps waiting_ok new_handle.
Proof. apply same_exchanges. intros n. unfold new_handle. by destruct (checked_add _ _). Qed.

Lemma initiate_waiting addr session protocol eph retry_ms : keeps waiting_ok (initiate addr session protocol eph retry_ms).
Proof.
  unfold initiate. apply keeps_bind; [by apply same_exchanges|]. intros n.
  apply triple_if; intros _; [apply keeps_fail|]. apply triple_if; intros _; [apply keeps_fail|].
  apply keeps_bind; [|intros o; apply keeps_bind; [apply keeps_try_|intros x; apply keeps_bind; [apply new_handle_waiting|intros h]]].
  - apply same_exchanges. generalize (Z.to_nat (MAX_EXCHANGES + 1)). intros f m. revert m. induction f as [|f IH]; intros m; [done|].
    cbn [free_id]. destruct (negb _); [done|]. by rewrite IH.
  - by apply (push_exchange_waiting (fun _ => mk_exchange _ _ _ _ _ _ _ _ _ _ _) (fun _ => _)).
Qed.

Lemma deliver_waiting local_ m duplicate i accepted : keeps waiting_ok (deliver local_ m duplicate i accepted).
Proof.
  unfold deliver. keeps; first [by apply same_exchanges | apply acknowledge_waiting | apply quiet_update_waiting; cbn; auto].
Qed.

Lemma receive_waiting addr bytes now : keeps waiting_ok (receive addr bytes now).
Proof.
  assert (forall secure c, keeps waiting_ok (mark_session secure c now)) as Hmark.
  { intros secure c. apply same_exchanges. intros n. unfold mark_session. destruct secure as [j|]; [|done].
    destruct (sessions n !! j); [|done]. by destruct (mark _ _). }
  assert (forall m, keeps waiting_ok (late_ack addr m)) as Hlate.
  { intros m. unfold late_ack. keeps; first [apply send_out_waiting | by apply same_exchanges]. }
  assert (forall x m, keeps waiting_ok (accept addr x m)) as Hacc.
  { intros x m. unfold accept. apply triple_if; intros _; [apply keeps_fail|].
    apply keeps_bind; [apply new_handle_waiting|]. intros h.
    by apply (push_exchange_waiting (fun _ => mk_exchange _ _ _ _ _ _ _ _ _ _ _) (fun n => length (exchanges n))). }
  unfold receive. keeps; first [apply Hmark | apply Hlate | apply Hacc | apply deliver_waiting | by apply same_exchanges].
Qed.

(** What one round of retries does to the exchange whose time has come. *)
Lemma tick_round now jitter n : waiting_ok n ->
  match find_index (due now) (exchanges n) with
  | None => tick now jitter n = (n, Ok tt)
  | Some i => exists e p, exchanges n !! i = Some e /\ pending e = Some p /\
      if 4 <=? attempt p
      then if (length (events n) <? MAX_EVENTS)%nat
           then tick now jitter n = (set_exchanges (set_events n (events n ++ [Failed (handle e)])) (remove_at i (exchanges n)), Ok tt)
           else (tick now jitter n).1 = n
      else if (length (out n) <? MAX_OUT)%nat
           then exists next, next <= U64_MAX /\
             tick now jitter n = (set_exchanges (set_out n (out n ++ [mk_outgoing (e_session e) (remote e) (p_bytes p)]))
               (alter (fun e => with_pending e (Some (mk_pending (p_counter p) (p_bytes p) (attempt p + 1) next))) i (exchanges n)), Ok tt)
           else (tick now jitter n).1 = n
  end.
Proof.
  intros Hn. unfold tick, bind, get, try_, modify, send_out, update_exchange, queue, ret. destruct (find_index _ _) as [i|] eqn:Ei; [|done].
  apply find_index_Some in Ei as (e & He & Hd & _). unfold due in Hd.
  assert (exchange_at n i = e) as -> by (unfold exchange_at; by rewrite (nth_lookup_Some _ _ _ _ He)).
  exists e. destruct (pending e) as [p|] eqn:Ep; [|done]. exists p. split; [done|]. split; [done|].
  assert (waits_ok e) as Hw by (apply Hn, list_elem_of_In; by eapply list_elem_of_lookup_2).
  unfold waits_ok in Hw. rewrite Ep in Hw. destruct Hw as (_ & _ & Hl).
  destruct (4 <=? attempt p).
  - rewrite Nat.ltb_antisym. by destruct (MAX_EVENTS <=? length (events n))%nat.
  - rewrite copy_fits by done. rewrite Nat.ltb_antisym. destruct (MAX_OUT <=? length (out n))%nat; [done|]. cbn [negb].
    eexists. split; [|done]. apply saturating_add_max.
Qed.

(** The queues are taken empty, and a round of retries runs when every deadline has passed. *)
Definition drain (n : Node) : Node := set_events (set_out n []) [].
Definition round (jitter : Z) (n : Node) : Node := drain (tick U64_MAX jitter n).1.

(** The sends and the failure that the exchanges still have before them. *)
Definition left_ (e : Exchange) : Z := match pending e with Some p => 5 - attempt p | None => 0 end.
Definition total (l : list Exchange) : Z := fold_right (fun e t => left_ e + t) 0 l.

Lemma total_app a b : total (a ++ b) = total a + total b.
Proof. unfold total in *. induction a as [|e a IH]; cbn; [done|]. rewrite IH. lia. Qed.

Lemma total_remove l i e : l !! i = Some e -> total (remove_at i l) = total l - left_ e.
Proof.
  intros H. unfold remove_at. rewrite <- (take_drop_middle _ _ _ H) at 3. rewrite !total_app. cbn.
  unfold total. lia.
Qed.

Lemma total_alter l i e f : l !! i = Some e -> total (alter f i l) = total l - left_ e + left_ (f e).
Proof.
  intros H. rewrite <- (take_drop_middle _ _ _ H). rewrite alter_app_r_alt by (rewrite length_take; lia).
  assert (i < length l)%nat by by eapply lookup_lt_Some.
  rewrite length_take, Nat.min_l, Nat.sub_diag, !total_app by lia. cbn. lia.
Qed.

Lemma total_bound l : (forall e, In e l -> waits_ok e) -> 0 <= total l <= 5 * Z.of_nat (length l).
Proof.
  induction l as [|e l IH]; intros H; [done|]. cbn [total fold_right length]. destruct IH as [H0 H1]; [intros; apply H; by right|].
  specialize (H e (or_introl eq_refl)). assert (0 <= left_ e <= 5) by (unfold waits_ok, left_ in *; destruct (pending e); lia).
  unfold total in *. lia.
Qed.

Lemma waiting_drain n : waiting_ok n -> waiting_ok (drain n).
Proof. done. Qed.

Lemma round_counts jitter n : waiting_ok n -> out n = [] -> events n = [] ->
  waiting_ok (round jitter n) /\ total (exchanges (round jitter n)) = Z.max 0 (total (exchanges n) - 1).
Proof.
  intros Hn Ho He. pose proof (tick_round U64_MAX jitter n Hn) as H. pose proof (total_bound _ Hn) as Hb. unfold round.
  destruct (find_index _ _) as [i|] eqn:Ei.
  - destruct H as (e & p & Hi & Hp & H). rewrite Ho, He in H.
    assert (waits_ok e) as Hw by (apply Hn, list_elem_of_In; by eapply list_elem_of_lookup_2).
    assert (left_ e = 5 - attempt p) as Hl by (unfold left_; by rewrite Hp).
    pose proof (total_remove _ _ _ Hi) as Hrem.
    assert (0 <= total (remove_at i (exchanges n))) as Hrest by (apply total_bound; intros x Hx%in_remove_at; by apply Hn).
    unfold waits_ok in Hw. rewrite Hp in Hw. destruct (Z.leb_spec 4 (attempt p)).
    + change ((length [] <? MAX_EVENTS)%nat) with true in H. cbn match in H. rewrite H. cbn [fst drain set_events set_out exchanges set_exchanges].
      split; [intros x Hx%in_remove_at; by apply Hn|]. unfold drain. cbn [exchanges set_events set_out set_exchanges]. lia.
    + change ((length [] <? MAX_OUT)%nat) with true in H. cbn match in H. destruct H as (next & Hnext & ->). cbn [fst].
      split.
      * intros x [Hx|(y & Hy & ->)]%in_alter; [by apply Hn|]. unfold waits_ok. cbn. split; [lia|]. split; [done|]. tauto.
      * unfold drain. cbn [exchanges set_events set_out set_exchanges]. rewrite (total_alter _ _ _ _ Hi). unfold left_ at 2. cbn. lia.
  - rewrite H. cbn [fst]. split; [done|]. unfold drain. cbn [exchanges set_events set_out].
    assert (total (exchanges n) = 0) as ->; [|done]. apply find_index_None in Ei. clear H Hb.
    assert (forall e, In e (exchanges n) -> pending e = None) as Hnone.
    { intros e Hin. destruct (pending e) as [p|] eqn:Hp; [|done]. pose proof (find_none _ _ Ei e Hin) as Hd.
      specialize (Hn e Hin). unfold waits_ok in Hn. unfold due in Hd. rewrite Hp in *. lia. }
    induction (exchanges n) as [|e l IH]; [done|]. change (left_ e + total l = 0). unfold left_. rewrite (Hnone e) by by left.
    rewrite IH; [done| |intros; apply Hnone; by right]. cbn in Ei. by destruct (due _ e).
Qed.

Lemma rounds_count jitter k n : waiting_ok n -> out n = [] -> events n = [] ->
  waiting_ok (Nat.iter k (round jitter) n) /\ out (Nat.iter k (round jitter) n) = [] /\ events (Nat.iter k (round jitter) n) = []
  /\ total (exchanges (Nat.iter k (round jitter) n)) = Z.max 0 (total (exchanges n) - Z.of_nat k).
Proof.
  intros Hn Ho He. induction k as [|k (IHn & IHo & IHe & IHt)].
  - change (Nat.iter 0 (round jitter) n) with n. pose proof (total_bound _ Hn).
    split; [done|]. split; [done|]. split; [done|]. lia.
  - change (Nat.iter (S k) (round jitter) n) with (round jitter (Nat.iter k (round jitter) n)). destruct (round_counts jitter _ IHn IHo IHe) as [H Ht].
    split; [done|]. split; [done|]. split; [done|]. rewrite Ht, IHt. lia.
Qed.

(** A known pending frame counts. *)
Lemma total_zero l : (forall e, In e l -> waits_ok e) -> total l <= 0 -> forall e, In e l -> pending e = None.
Proof.
  induction l as [|e l IH]; intros H Ht; [done|]. change (left_ e + total l <= 0) in Ht.
  pose proof (total_bound l (fun x Hx => H x (or_intror Hx))). specialize (H e (or_introl eq_refl)) as He.
  unfold waits_ok, left_ in He, Ht. intros x [<-|Hx].
  - destruct (pending e); [lia|done].
  - apply IH; [intros; apply H; by right| |done]. destruct (pending e); lia.
Qed.

Lemma perform_waiting c : keeps waiting_ok (perform c).
Proof.
  destruct c as [c seed|x|a s p e r|h o b r now j|h|h|a b now|now j| |]; cbn [perform].
  - apply same_exchanges. intros n. unfold register. destruct (_ || _); [done|]. by destruct (Value.push _ _ _).
  - intros n Hn _. unfold remove. destruct (_ <? _)%nat; [done|]. split; [|done]. cbn [fst].
    intros e [He _]%filter_In. by apply Hn.
  - apply keeps_bind; [apply initiate_waiting|intros; apply keeps_ret].
  - apply send_waiting.
  - apply acknowledge_waiting.
  - apply op_keeps_modify. intros n Hn e [He _]%filter_In. by apply Hn.
  - apply receive_waiting.
  - intros n Hn _. pose proof (tick_round now j n Hn) as H. destruct (find_index _ _) as [i|]; [|by rewrite H].
    destruct H as (e & p & Hi & Hp & H). split; [|by destruct (tick now j n).2].
    assert (waits_ok e) as Hw by (apply Hn, list_elem_of_In; by eapply list_elem_of_lookup_2).
    unfold waits_ok in Hw. rewrite Hp in Hw. destruct (Z.leb_spec 4 (attempt p)).
    + destruct (_ <? _)%nat; rewrite H; [|done]. intros x Hx%in_remove_at. by apply Hn.
    + destruct (_ <? _)%nat; [|by rewrite H]. destruct H as (next & Hnext & ->).
      intros x [Hx|(y & Hy & ->)]%in_alter; [by apply Hn|]. unfold waits_ok. cbn. split; [lia|]. tauto.
  - apply same_exchanges. intros n. unfold modify, outgoing. by destruct (out n).
  - apply same_exchanges. intros n. unfold modify, event. by destruct (events n).
Qed.

Lemma run_waiting calls seed exch : waiting_ok (node (run calls (Node_new seed exch))).
Proof.
  assert (forall w, waiting_ok (node w) -> waiting_ok (node (fold_left step calls w))) as H.
  { induction calls as [|c calls IH]; intros w Hw; [done|]. cbn [fold_left]. apply IH.
    destruct (perform_waiting c (node w) Hw I) as [Hp _]. unfold step. destruct (perform c (node w)) as [n r]. by destruct c, r. }
  apply H. by intros e [].
Qed.

(** Retries come to an end: after any run, rounds of retries past every deadline, with the
    queues taken empty between them, leave no exchange waiting for an acknowledgement, after at
    most five rounds for each exchange. *)
Theorem retries_come_to_an_end calls seed exch jitter :
  let n := drain (node (run calls (Node_new seed exch))) in
  Forall (fun e => pending e = None) (exchanges (Nat.iter (5 * length (exchanges n)) (round jitter) n)).
Proof.
  intros n. apply Forall_forall. intros e He%list_elem_of_In. revert e He. assert (waiting_ok n) as Hn by (apply waiting_drain, run_waiting).
  destruct (rounds_count jitter (5 * length (exchanges n)) n Hn eq_refl eq_refl) as (Hw & _ & _ & Ht).
  apply total_zero; [exact Hw|]. rewrite Ht. pose proof (total_bound _ Hn). lia.
Qed.

(** ** Authentication *)

Section Authentic.
Context {HL : CryptoLaws}.

(** C19: A datagram that changes a node in any way has a header the node reads, and when it names
    a session it was sealed under the incoming key of that session of its sender: its bytes are
    the header and what sealing some inner message gives. *)
Theorem only_authentic_datagrams_matter addr bytes now n :
  (receive addr bytes now n).1 <> n ->
  exists h i, peek bytes = Ok (h, i) /\
    (session h <> 0 -> exists s no c plain,
       In s (sessions n) /\ local (config s) = session h /\ address (config s) = addr
       /\ nonce h bytes (peer_node (config s)) = Ok no /\ Ccm_new (incoming_key (config s)) 16 = Ok c
       /\ Ccm.seal c no plain (take i bytes) = Ok (drop i bytes)).
Proof.
  unfold receive. destruct (_ <? _); [done|]. unfold bind at 1, get at 1. destruct (_ || _); [done|].
  unfold bind at 1, try_ at 1. destruct (peek bytes) as [[h i]|] eqn:Ep; [|done]. destruct (_ || _); [done|]. cbv zeta.
  unfold bind at 1, try_ at 1. destruct (authenticate _ _ _ _) as [m|] eqn:Ea; [|done]. intros _.
  exists h, i. split; [done|]. intros Hs. unfold authenticate in Ea. rewrite (proj2 (Z.eqb_neq _ _) Hs) in Ea.
  destruct (find_index _ _) as [j|] eqn:Ej; [|done].
  apply find_index_Some in Ej as (s & Hj & [Hid%is_local_true Had%String.eqb_eq]%andb_true_iff & _).
  rewrite Hj in Ea. cbn [ok_or mbind result_bind] in Ea.
  destruct (Message.open _ _ _) as [m'|] eqn:Eo; [|done].
  destruct (opened_message_was_sealed _ _ _ _ Eo) as (i' & no & c & plain & p & Hp & _ & Hno & Hc & Hseal & _).
  rewrite Ep in Hp. injection Hp as -> ->. exists s, no, c, plain. split; [apply list_elem_of_In; by eapply list_elem_of_lookup_2|].
  done.
Qed.

End Authentic.

End WithCrypto.

(** ** Examples *)

Section Sample.
Local Existing Instance toy_crypto.

Definition waiting_calls : list Call := take 3 sample_calls.

(** Five rounds: four retries, then the exchange fails. *)
Example five_rounds :
  let n := drain (node (run waiting_calls (Node_new 1 0))) in
  map (fun k => (length (exchanges (Nat.iter k (round 0) n)))) [4; 5]%nat = [1; 0]%nat
  /\ map (fun k => length (out (tick U64_MAX 0 (Nat.iter k (round 0) n)).1)) [0; 3; 4]%nat = [1; 1; 0]%nat
  /\ events (tick U64_MAX 0 (Nat.iter 4 (round 0) n)).1 = [Failed 1].
Proof. by vm_compute. Qed.

Definition peer_node_ : Node := node (run [Register (mk_session 2 1 22 11 "a" (repeat 2 16) (repeat 1 16) (mk_timing 0 0 0)) 4] (Node_new 2 0)).

Lemma only_authentic_datagrams_matter_witness :
  exists h i, peek (o_bytes sample_frame) = Ok (h, i) /\ session h = 2
    /\ exists s no c plain, In s (sessions peer_node_) /\ local (config s) = 2
    /\ Ccm.seal c no plain (take i (o_bytes sample_frame)) = Ok (drop i (o_bytes sample_frame)).
Proof.
  destruct (only_authentic_datagrams_matter "a" (o_bytes sample_frame) 0 peer_node_) as (h & i & Hp & H).
  { intros H. apply (f_equal (fun n => length (events n))) in H. vm_compute in H. discriminate H. }
  exists h, i. split; [exact Hp|].
  assert (session h = 2) as Hs.
  { apply (f_equal (fun r => match r with Ok (h, _) => session h | Err _ => 0 end)) in Hp. vm_compute in Hp. by symmetry. }
  split; [exact Hs|]. destruct H as (s & no & c & plain & Hin & Hid & _ & _ & _ & Hseal); [by rewrite Hs|].
  exists s, no, c, plain. split; [exact Hin|]. split; [by rewrite Hid|exact Hseal].
Defined.

End Sample.
