(* ===== verification/Web.v ===== *)
(** * Web: requests and responses

    Models the transport-free types of [crates/web/src/lib.rs]: [Request], [Body], [Response] with
    its two constructors, [Environment], and the value of a form query. *)

From Stdlib Require Import ZArith Lia Ascii String.
From S2P Require Import Prelude Text Errors Value Json.

Local Open Scope Z_scope.

(** [json::parse], the reader with the limit of ordinary JSON *)
Definition json_parse (bytes : list Z) : Result Value := from_hop (parse_bounded bytes MAX_INPUT).

Record Request : Type := mk_request {
  r_method : string; r_path : string; r_query : string; r_cookie : string; r_host : string; r_origin : string;
  r_headers : Value; r_body : list Z
}.

Inductive Body : Type :=
| Static (bytes : list Z)
| Bytes (bytes : list Z)
| Owned (text : list Z)
| Backup (document : list Z)
| BRestore (destination : string) (archive : list Z)
| Proxy (url mime : string) (owner : Z).

Definition body_bytes (b : Body) : list Z :=
  match b with Static l | Bytes l | Owned l => l | Backup _ | BRestore _ _ | Proxy _ _ _ => [] end.

Record Response : Type := mk_response {
  status : Z; content_type : string; body : Body; cookie : option string; headers : list (string * string)
}.

Definition Response_json (code : Z) (v : Value) : Result Response :=
  t ← from_hop (write v); Ok (mk_response code "application/json; charset=utf-8" (Owned t) None []).

Definition Response_error (code : Z) (message : string) : Result Response :=
  Response_json code (fields [("error"%string, VString message); ("error_description"%string, VString message)]).

(** [trait Environment]: the clock and the fresh identities of the platform. *)
Class Environment (E : Type) : Type := {
  env_id : E -> Result string * E;
  env_now : E -> Result string;
  env_log : string -> string -> string -> E -> E
}.

(** ** Form queries *)

Definition hex_value (b : Z) : option Z :=
  if between 48 b 57 then Some (b - 48) else if between 65 b 70 then Some (b - 55)
  else if between 97 b 102 then Some (b - 87) else None.

(** The bytes of a part: a plus is a space, a percent sign introduces two digits. *)
Fixpoint decode_bytes (l : list Z) : Result (list Z) :=
  match l with
  | [] => Ok []
  | 43 :: l => r ← decode_bytes l; Ok (32 :: r)
  | 37 :: l =>
      match l with
      | a :: l =>
          h ← ok_or (hex_value a) (Invalid "invalid query escape");
          match l with
          | b :: l => k ← ok_or (hex_value b) (Invalid "invalid query escape");
                      r ← decode_bytes l; Ok (h * 16 + k :: r)
          | [] => Err (Invalid "invalid query escape")
          end
      | [] => Err (Invalid "invalid query escape")
      end
  | b :: l => r ← decode_bytes l; Ok (b :: r)
  end.

Definition decode_part (l : list Z) : Result string :=
  b ← decode_bytes l;
  if is_ok (from_utf8 b) then Ok (of_bytes b) else Err (Invalid "query is not UTF-8").

(** [split(c)] of bytes *)
Fixpoint split_at (c : Z) (l : list Z) : list (list Z) :=
  match l with
  | [] => [[]]
  | b :: l => if b =? c then [] :: split_at c l
              else match split_at c l with p :: ps => (b :: p) :: ps | [] => [[b]] end
  end.

(** [split_once('=')] with an empty value where there is none *)
Fixpoint key_value (l : list Z) : list Z * list Z :=
  match l with
  | [] => ([], [])
  | b :: l => if b =? 61 then ([], l) else let '(k, v) := key_value l in (b :: k, v)
  end.

Fixpoint find_part (parts : list (list Z)) (key : string) : Result string :=
  match parts with
  | [] => Ok ""%string
  | part :: parts =>
      let '(k, v) := key_value part in
      k ← decode_part k;
      if (k =? key)%string then decode_part v else find_part parts key
  end.

Definition query_value (query key : string) : Result string := find_part (split_at 38 (as_bytes query)) key.

(** ** Lemmas *)

Lemma write_strings l : exists t, write (VObject (map (fun kv => (kv.1, VString kv.2)) l)) = Ok t.
Proof.
  cbn [write]. assert (forall first, exists t, write_sep
    (fun kv : string * Value => match kv with (k, x) => t ← write x; Ok (write_string k ++ 58 :: t) end) first
    (map (fun kv : string * string => (kv.1, VString kv.2)) l) = Ok t) as H.
  { induction l as [|[k v] l IH]; intros first; cbn; [by eexists|].
    destruct (IH false) as (t & Ht). rewrite Ht. by eexists. }
  destruct (H true) as (t & Ht). rewrite Ht. by eexists.
Qed.

(** Error responses and plain confirmations are always made. *)
Lemma Response_error_Ok code m : exists r, Response_error code m = Ok r /\ status r = code.
Proof.
  unfold Response_error, Response_json, fields. 
  destruct (write_strings [("error"%string, m); ("error_description"%string, m)]) as (t & Ht). cbn [map fst snd] in Ht.
  rewrite Ht. by eexists.
Qed.
