(* ===== verification/ArchiveIo.v ===== *)
(** * ArchiveIo: bounded input and output of archives

    Models [controller/src/archive/io.rs]: the traits [Read], [Write] and [Seek] with the
    exact read, the limited reader, the cursor over bytes and the bounded buffer.  A failed
    operation is final for its callers, so the state it leaves is not kept.  A loop over a
    source that is not bounded by its arguments has fuel, and [None] means it is still busy. *)

From Stdlib Require Import ZArith Lia String.
From S2P Require Import Prelude Errors.

Local Open Scope Z_scope.

(** A result, or [None] as long as the fuel does not suffice. *)
Definition Run (A : Type) : Type := option (Result A).
Definition ret {A} (a : A) : Run A := Some (Ok a).
Definition stop {A} (e : Error) : Run A := Some (Err e).
Definition bind {A B} (m : Run A) (f : A -> Run B) : Run B :=
  match m with Some (Ok a) => f a | Some (Err e) => Some (Err e) | None => None end.

Declare Scope run_scope.
Delimit Scope run_scope with run.
Notation "'let!' x := m 'in' f" := (bind m (fun x => f)) (at level 10, x pattern, f at level 200) : run_scope.
Local Open Scope run_scope.

(** [read] into a buffer of so many bytes gives the bytes it wrote at its start. *)
Class Read (R : Type) : Type := read : R -> nat -> Run (list Z * R).

Section Exact.
Context {R : Type} {HR : Read R}.

(** [while !out.is_empty()], each round of which takes a byte: [f] rounds for at most [f] bytes. *)
Fixpoint read_exact_loop (f : nat) (r : R) (n : nat) : Run (list Z * R) :=
  match f with
  | O => ret ([], r)
  | S f =>
      if (n =? 0)%nat then ret ([], r)
      else
        let! (data, r) := read r n in
        if (length data =? 0)%nat || (n <? length data)%nat then stop (Invalid "truncated archive")
        else let! (rest, r) := read_exact_loop f r (n - length data) in ret (data ++ rest, r)
  end.

Definition read_exact (r : R) (n : nat) : Run (list Z * R) := read_exact_loop n r n.

End Exact.

(** ** A limited reader *)

Record Take (R : Type) : Type := mk_take { inner : R; remaining : N }.
Arguments mk_take {R}. Arguments inner {R}. Arguments remaining {R}.

#[export] Instance take_read {R} {HR : Read R} : Read (Take R) := fun t n =>
  let cap := if (remaining t <? N.of_nat n)%N then N.to_nat (remaining t) else n in
  let! (data, r) := read (inner t) cap in
  if (remaining t <? N.of_nat (length data))%N then stop Full
  else ret (data, mk_take r (remaining t - N.of_nat (length data))).

(** ** Bytes in memory *)

(** [impl Read for &[u8]] *)
#[export] Instance slice_read : Read (list Z) := fun l n => ret (take n l, drop n l).

Class Write (W : Type) : Type := write_all : W -> list Z -> Run W.

(** [impl Write for Vec<u8>]: at most 80 MiB. *)
#[export] Instance vec_write : Write (list Z) := fun w bytes =>
  if saturating_sub (Z.shiftl 80 20) (Z.of_nat (length w)) <? Z.of_nat (length bytes) then stop Full
  else ret (w ++ bytes).

Inductive SeekFrom : Type := Start (n : Z) | End_ (n : Z).

Class Seek (R : Type) : Type := seek : R -> SeekFrom -> Run (Z * R).

Record Cursor : Type := mk_cursor { c_bytes : list Z; c_at : Z }.
Definition Cursor_new (bytes : list Z) : Cursor := mk_cursor bytes 0.

#[export] Instance cursor_read : Read Cursor := fun c n =>
  if Z.of_nat (length (c_bytes c)) <? c_at c then stop Full
  else
    let data := take n (drop (Z.to_nat (c_at c)) (c_bytes c)) in
    ret (data, mk_cursor (c_bytes c) (c_at c + Z.of_nat (length data))).

#[export] Instance cursor_seek : Seek Cursor := fun c at_ =>
  let len := Z.of_nat (length (c_bytes c)) in
  let n := match at_ with
           | Start n => Some n
           | End_ n => if (0 <=? len + n) && (len + n <=? U64_MAX) then Some (len + n) else None
           end in
  match n with
  | None => stop Full
  | Some n => if len <? n then stop (Invalid "archive seek past end") else ret (n, mk_cursor (c_bytes c) n)
  end.

(** ** What a reader of bytes promises *)

(** [yields r l]: the bytes still to come are [l].  A read gives the first of them, and nothing
    only into an empty buffer or at the end. *)
Class ReadLaws (R : Type) {HR : Read R} : Type := {
  yields : R -> list Z -> Prop;
  read_yields : forall r l n, yields r l -> exists data r' l',
    read r n = ret (data, r') /\ l = data ++ l' /\ yields r' l' /\ (length data <= n)%nat
    /\ (data = [] -> n = 0%nat \/ l = [])
}.

#[export] Program Instance slice_laws : ReadLaws (list Z) := {| yields l l' := l = l' |}.
Next Obligation.
  intros l _ n <-. exists (take n l), (drop n l), (drop n l). split; [done|]. split; [by rewrite take_drop|].
  split; [done|]. split; [rewrite length_take; lia|]. destruct n as [|n], l; cbn; auto; done.
Qed.

#[export] Program Instance cursor_laws : ReadLaws Cursor :=
  {| yields c l := 0 <= c_at c <= Z.of_nat (length (c_bytes c)) /\ l = drop (Z.to_nat (c_at c)) (c_bytes c) |}.
Next Obligation.
  intros [b i] l n [Hi Hl]. unfold read, cursor_read. cbn [c_bytes c_at] in *.
  destruct (Z.ltb_spec (Z.of_nat (length b)) i); [lia|]. rewrite <- Hl. set (data := take n l).
  assert (length data = Nat.min n (length l)) as Hd by (unfold data; by rewrite length_take).
  assert (length l = (length b - Z.to_nat i)%nat) as Hlen by (by rewrite Hl, length_drop).
  exists data, (mk_cursor b (i + Z.of_nat (length data))), (drop n l). cbn [c_bytes c_at]. split; [done|].
  split; [unfold data; by rewrite take_drop|]. split.
  - split; [lia|]. replace (Z.to_nat (i + Z.of_nat (length data))) with (Z.to_nat i + length data)%nat by lia.
    rewrite <- drop_drop, <- Hl, Hd. destruct (decide (n <= length l)%nat); [f_equal; lia|]. rewrite !drop_ge by lia. done.
  - split; [lia|]. intros Hn. rewrite Hn in Hd. cbn in Hd. destruct (decide (n = 0%nat)); [by left|]. right.
    apply length_zero_iff_nil. lia.
Qed.

Section Laws.
Context {R : Type} {HR : Read R} {HL : ReadLaws R}.

Lemma read_exact_loop_yields f : forall r l n, yields r l -> (n <= f)%nat -> (n <= length l)%nat -> exists r',
  read_exact_loop f r n = ret (take n l, r') /\ yields r' (drop n l).
Proof.
  induction f as [|f IH]; intros r l n Hv Hf Hn; cbn [read_exact_loop].
  - assert (n = 0%nat) as -> by lia. by exists r.
  - destruct (Nat.eqb_spec n 0) as [->|H0]; [by exists r|].
    destruct (read_yields r l n Hv) as (data & r' & l' & -> & Hs & Hv' & Hl & He). unfold bind at 1, ret at 1.
    destruct (Nat.eqb_spec (length data) 0) as [Hd|Hd].
    { apply length_zero_iff_nil in Hd. destruct (He Hd) as [|Hnil]; [done|]. rewrite Hnil in Hn. cbn in Hn. lia. }
    destruct (Nat.ltb_spec n (length data)); [lia|]. cbn [orb]. rewrite Hs, length_app in Hn.
    destruct (IH r' l' (n - length data)%nat Hv' ltac:(lia) ltac:(lia)) as (r'' & -> & Hv'').
    exists r''. rewrite Hs, take_app_ge, drop_app_ge by lia. done.
Qed.

Lemma read_exact_yields r l n : yields r l -> (n <= length l)%nat -> exists r',
  read_exact r n = ret (take n l, r') /\ yields r' (drop n l).
Proof. intros Hv H. by apply read_exact_loop_yields. Qed.

(** A limited reader gives the first bytes of its source. *)
#[export] Program Instance take_laws : ReadLaws (Take R) :=
  {| yields t l := exists l0, yields (inner t) l0 /\ l = take (N.to_nat (remaining t)) l0 |}.
Next Obligation.
  intros [r k] l n (l0 & Hv & Hl). unfold read at 1, take_read. cbn [remaining inner] in *.
  set (cap := if (k <? N.of_nat n)%N then N.to_nat k else n).
  assert (cap = Nat.min n (N.to_nat k)) as Hcap by (subst cap; destruct (N.ltb_spec k (N.of_nat n)); lia).
  destruct (read_yields r l0 cap Hv) as (data & r' & l' & -> & Hs & Hv' & Hd & He). unfold bind, ret at 1.
  destruct (N.ltb_spec k (N.of_nat (length data))); [lia|].
  exists data, (mk_take r' (k - N.of_nat (length data))), (take (N.to_nat (k - N.of_nat (length data))) l').
  split; [done|]. cbn [remaining inner]. split.
  - rewrite Hl, Hs, take_app_ge by lia. do 2 f_equal. lia.
  - split; [by exists l'|]. split; [lia|]. intros ->. destruct (He eq_refl) as [H0|Hnil].
    + rewrite Hcap in H0. destruct (decide (n = 0%nat)); [by left|]. right. rewrite Hl.
      by assert (N.to_nat k = 0%nat) as -> by lia.
    + right. by rewrite Hl, Hnil, take_nil.
Qed.

End Laws.
