(* ===== verification/Inflate.v ===== *)
(** * Inflate: the decoder of DEFLATE (RFC 1951)

    Models [controller/src/archive/inflate.rs] (and its copy in [crates/host]): the reader of
    bits, canonical Huffman codes decoded bit by bit, the state machine with its window of
    32 KiB that stops wherever the buffer is full, and CRC-32. *)

From Stdlib Require Import ZArith Lia String.
From S2P Require Import Prelude Errors ArchiveIo Slots.

Local Open Scope Z_scope.
Local Open Scope run_scope.

Definition WSIZE : Z := 32768.
Definition INBUF : nat := 8 * 1024.
Definition MAXBITS : nat := 15.
Definition MAXLCODES : nat := 288.
Definition MAXDCODES : nat := 32.

Definition LEN_BASE : list Z :=
  [3; 4; 5; 6; 7; 8; 9; 10; 11; 13; 15; 17; 19; 23; 27; 31; 35; 43; 51; 59; 67; 83; 99; 115; 131; 163; 195; 227; 258].
Definition LEN_EXTRA : list nat :=
  [0; 0; 0; 0; 0; 0; 0; 0; 1; 1; 1; 1; 2; 2; 2; 2; 3; 3; 3; 3; 4; 4; 4; 4; 5; 5; 5; 5; 0]%nat.
Definition DIST_BASE : list Z :=
  [1; 2; 3; 4; 5; 7; 9; 13; 17; 25; 33; 49; 65; 97; 129; 193; 257; 385; 513; 769; 1025; 1537; 2049; 3073; 4097; 6145;
   8193; 12289; 16385; 24577].
Definition DIST_EXTRA : list nat :=
  [0; 0; 0; 0; 1; 1; 2; 2; 3; 3; 4; 4; 5; 5; 6; 6; 7; 7; 8; 8; 9; 9; 10; 10; 11; 11; 12; 12; 13; 13]%nat.
Definition CL_ORDER : list nat := [16; 17; 18; 0; 8; 7; 9; 6; 10; 5; 11; 4; 12; 3; 13; 2; 14; 1; 15]%nat.

Definition corrupt {A} (why : string) : Run A := stop (Invalid why).

(** ** Bits *)

(** What the decoder asks of its source: some bits as a number, the first bit lowest, the next
    byte boundary, and whether it is at the end there. *)
Class Bits (B : Type) : Type := {
  bits : B -> nat -> Run (Z * B);
  align : B -> B;
  at_end : B -> Run (bool * B)
}.

Record BitReader (R : Type) : Type := mk_reader {
  src : R; buf : list Z; pos : nat; len : nat; b_bits : Z; nbits : nat
}.
Arguments mk_reader {R}. Arguments src {R}. Arguments buf {R}. Arguments pos {R}. Arguments len {R}.
Arguments b_bits {R}. Arguments nbits {R}.

Section Reader.
Context {R : Type} {HR : Read R}.

Definition BitReader_new (r : R) : BitReader R := mk_reader r (repeat 0 INBUF) 0 0 0 0.

Definition next_byte (br : BitReader R) : Run (option Z * BitReader R) :=
  let! br :=
    (if (len br <=? pos br)%nat then
       let! (data, r) := read (src br) (length (buf br)) in
       ret (mk_reader r (data ++ drop (length data) (buf br)) 0 (length data) (b_bits br) (nbits br))
     else ret br) in
  if (len br =? 0)%nat then ret (None, br)
  else ret (buf br !! pos br, mk_reader (src br) (buf br) (S (pos br)) (len br) (b_bits br) (nbits br)).

(** [while self.nbits < n], each round of which adds eight bits. *)
Fixpoint fill (f : nat) (n : nat) (br : BitReader R) : Run (BitReader R) :=
  match f with
  | O => ret br
  | S f =>
      if (nbits br <? n)%nat then
        let! (o, br) := next_byte br in
        match o with
        | None => corrupt "unexpected end of stream"
        | Some b =>
            fill f n (mk_reader (src br) (buf br) (pos br) (len br)
                        (Z.lor (b_bits br) (Z.shiftl b (Z.of_nat (nbits br)) mod 2 ^ 64)) (nbits br + 8))
        end
      else ret br
  end.

Definition reader_bits (br : BitReader R) (n : nat) : Run (Z * BitReader R) :=
  let! br := fill n n br in
  let v := Z.land (b_bits br) (Z.shiftl 1 (Z.of_nat n) - 1) in
  ret (v, mk_reader (src br) (buf br) (pos br) (len br) (Z.shiftr (b_bits br) (Z.of_nat n)) (nbits br - n)).

Definition reader_align (br : BitReader R) : BitReader R :=
  let drop := (nbits br mod 8)%nat in
  mk_reader (src br) (buf br) (pos br) (len br) (Z.shiftr (b_bits br) (Z.of_nat drop)) (nbits br - drop).

Definition reader_at_end (br : BitReader R) : Run (bool * BitReader R) :=
  if (0 <? nbits br)%nat then ret (false, br)
  else
    let! (o, br) := next_byte br in
    match o with
    | None => ret (true, br)
    | Some b => ret (false, mk_reader (src br) (buf br) (pos br) (len br) b 8)
    end.

#[export] Instance reader_Bits : Bits (BitReader R) :=
  {| bits := reader_bits; align := reader_align; at_end := reader_at_end |}.

End Reader.

(** ** Huffman codes *)

Record Huffman : Type := mk_huffman { h_count : list Z; h_symbol : list Z }.

Definition count_lengths (lengths : list Z) : list Z :=
  fold_left (fun count l => alter (Z.add 1) (Z.to_nat l) count) lengths (repeat 0 (S MAXBITS)).

(** The codes of each length fit: [left] stays at least zero. *)
Fixpoint subscribed (left : Z) (counts : list Z) : bool :=
  match counts with
  | [] => true
  | c :: counts => let left := left * 2 - c in if left <? 0 then false else subscribed left counts
  end.

(** [for len in 1..MAXBITS { offs[len + 1] = offs[len] + count[len] }] *)
Definition offsets (count : list Z) : list Z :=
  fold_left (fun offs l => match offs !! l, count !! l with
                           | Some o, Some c => <[S l := o + c]> offs
                           | _, _ => offs
                           end)
    (seq 1 (MAXBITS - 1)) (repeat 0 (S MAXBITS)).

(** One symbol takes its place. *)
Definition place (st : list Z * list Z) (entry : nat * Z) : list Z * list Z :=
  let '(offs, symbol) := st in
  let '(sym, l) := entry in
  if l =? 0 then (offs, symbol)
  else match offs !! Z.to_nat l with
       | None => (offs, symbol)
       | Some o => (<[Z.to_nat l := o + 1]> offs, <[Z.to_nat o := Z.of_nat sym]> symbol)
       end.

Definition Huffman_new (lengths : list Z) : Result Huffman :=
  let count := count_lengths lengths in
  if negb (subscribed 1 (drop 1 count)) then Err (Invalid "over-subscribed huffman code")
  else
    let '(_, symbol) := fold_left place (zip (seq 0 (length lengths)) lengths) (offsets count, repeat 0 (length lengths)) in
    Ok (mk_huffman count symbol).

Section Decoder.
Context {B : Type} {HB : Bits B}.

Fixpoint decode_loop (symbol counts : list Z) (code first index : Z) (br : B) : Run (Z * B) :=
  match counts with
  | [] => corrupt "invalid huffman code"
  | count :: counts =>
      let! (b, br) := bits br 1 in
      let code := Z.lor code b in
      if code - count <? first then
        let at_ := index + (code - first) in
        match (if at_ <? 0 then None else symbol !! Z.to_nat at_) with
        | Some s => ret (s, br)
        | None => corrupt "huffman symbol out of range"
        end
      else decode_loop symbol counts (Z.shiftl code 1) (Z.shiftl (first + count) 1) (index + count) br
  end.

Definition decode (h : Huffman) (br : B) : Run (Z * B) := decode_loop (h_symbol h) (drop 1 (h_count h)) 0 0 0 br.

(** ** The state machine *)

Inductive State : Type := Header | Stored (n : Z) | Codes | Done.

Record Inflate : Type := mk_inflate {
  state : State; last : bool; window : list Z; wpos : Z; total : Z; copy_len : Z; copy_dist : Z; lit : Huffman; dist : Huffman
}.

Definition no_codes : Huffman := mk_huffman (repeat 0 (S MAXBITS)) [].
Definition Inflate_new : Inflate :=
  mk_inflate Header false (repeat 0 (Z.to_nat WSIZE)) 0 0 0 0 no_codes no_codes.

Definition set_state (st : Inflate) (s : State) : Inflate :=
  mk_inflate s (last st) (window st) (wpos st) (total st) (copy_len st) (copy_dist st) (lit st) (dist st).
Definition set_last (st : Inflate) (b : bool) : Inflate :=
  mk_inflate (state st) b (window st) (wpos st) (total st) (copy_len st) (copy_dist st) (lit st) (dist st).
Definition set_copy (st : Inflate) (l d : Z) : Inflate :=
  mk_inflate (state st) (last st) (window st) (wpos st) (total st) l d (lit st) (dist st).
Definition set_codes (st : Inflate) (l d : Huffman) : Inflate :=
  mk_inflate (state st) (last st) (window st) (wpos st) (total st) (copy_len st) (copy_dist st) l d.

Definition is_done (st : Inflate) : bool :=
  match state st with Done => copy_len st =? 0 | _ => false end.

(** [emit]: the byte joins the window; the buffer of the caller has room for it. *)
Definition emit (st : Inflate) (b : Z) : Inflate :=
  mk_inflate (state st) (last st) (<[Z.to_nat (wpos st) := b]> (window st)) ((wpos st + 1) mod WSIZE)
    (saturating_add (total st) 1) (copy_len st) (copy_dist st) (lit st) (dist st).

(** A length or a distance: a base and some extra bits. *)
Definition based (bases : list Z) (extras : list nat) (i : Z) (br : B) (why : string) : Run (Z * B) :=
  match bases !! Z.to_nat i, extras !! Z.to_nat i with
  | Some base, Some extra => let! (x, br) := bits br extra in ret (base + x, br)
  | _, _ => corrupt why
  end.

Definition symbol (st : Inflate) (br : B) : Run (list Z * Inflate * B) :=
  let! (sym, br) := decode (lit st) br in
  if sym <? 256 then ret ([sym], emit st sym, br)
  else if sym =? 256 then ret ([], set_state st Header, br)
  else
    let! (l, br) := based LEN_BASE LEN_EXTRA (sym - 257) br "invalid length symbol" in
    let! (d, br) := decode (dist st) br in
    let! (far, br) := based DIST_BASE DIST_EXTRA d br "invalid distance symbol" in
    if total st <? far then corrupt "distance too far back" else ret ([], set_copy st l far, br).

Definition fixed_length (sym : nat) : Z :=
  if (sym <=? 143)%nat then 8 else if (sym <=? 255)%nat then 9 else if (sym <=? 279)%nat then 7 else 8.

Definition fixed : Result (Huffman * Huffman) :=
  l ← Huffman_new (map fixed_length (seq 0 MAXLCODES));
  d ← Huffman_new (repeat 5 MAXDCODES);
  Ok (l, d).

(** The lengths of the codes for code lengths. *)
Fixpoint read_cl (order : list nat) (cl : list Z) (br : B) : Run (list Z * B) :=
  match order with
  | [] => ret (cl, br)
  | i :: order => let! (l, br) := bits br 3 in read_cl order (<[i := l]> cl) br
  end.

(** [for l in lengths.iter_mut().skip(i).take(repeat) { *l = value }] *)
Definition set_range (lengths : list Z) (i n : nat) (value : Z) : list Z :=
  fold_left (fun ls k => <[k := value]> ls) (seq i n) lengths.

(** [while i < total], each round of which sets a length: [f] rounds for at most [f] of them. *)
Fixpoint read_lengths (f : nat) (clcode : Huffman) (total i : nat) (lengths : list Z) (br : B) : Run (list Z * B) :=
  match f with
  | O => ret (lengths, br)
  | S f =>
      if (i <? total)%nat then
        let! (sym, br) := decode clcode br in
        if sym <? 16 then read_lengths f clcode total (S i) (<[i := sym]> lengths) br
        else
          let! (value, repeat, br) :=
            (if sym =? 16 then
               match i with
               | O => corrupt "repeat with no previous length"
               | S p => match lengths !! p with
                        | Some prev => let! (x, br) := bits br 2 in ret (prev, 3 + x, br)
                        | None => corrupt "repeat with no previous length"
                        end
               end
             else if sym =? 17 then let! (x, br) := bits br 3 in ret (0, 3 + x, br)
             else let! (x, br) := bits br 7 in ret (0, 11 + x, br)) in
          let repeat := Z.to_nat repeat in
          if (total <? i + repeat)%nat then corrupt "too many code lengths"
          else read_lengths f clcode total (i + repeat) (set_range lengths i repeat value) br
      else ret (lengths, br)
  end.

Definition dynamic (br : B) : Run (Huffman * Huffman * B) :=
  let! (a, br) := bits br 5 in
  let! (b, br) := bits br 5 in
  let! (c, br) := bits br 4 in
  let nlen := (Z.to_nat a + 257)%nat in
  let ndist := (Z.to_nat b + 1)%nat in
  let ncode := (Z.to_nat c + 4)%nat in
  if (286 <? nlen)%nat || (30 <? ndist)%nat then corrupt "too many length or distance codes"
  else
    let! (cl, br) := read_cl (take ncode CL_ORDER) (repeat 0 19) br in
    let! clcode := Some (Huffman_new cl) in
    let total := (nlen + ndist)%nat in
    let! (lengths, br) := read_lengths total clcode total 0 (repeat 0 (MAXLCODES + MAXDCODES)) br in
    if default 0 (lengths !! 256%nat) =? 0 then corrupt "no end-of-block code"
    else
      let! l := Some (Huffman_new (default [] (slice lengths 0 nlen))) in
      let! d := Some (Huffman_new (default [] (slice lengths nlen total))) in
      ret (l, d, br).

Definition header (st : Inflate) (br : B) : Run (Inflate * B) :=
  if last st then ret (set_state st Done, br)
  else
    let! (l, br) := bits br 1 in
    let st := set_last st (l =? 1) in
    let! (kind, br) := bits br 2 in
    if kind =? 0 then
      let br := align br in
      let! (n, br) := bits br 16 in
      let! (m, br) := bits br 16 in
      if negb (n =? Z.land (Z.lxor m U32_MAX) 65535) then corrupt "stored block length does not match its complement"
      else ret (set_state st (Stored n), br)
    else if kind =? 1 then
      let! (l, d) := Some fixed in ret (set_state (set_codes st l d) Codes, br)
    else if kind =? 2 then
      let! (l, d, br) := dynamic br in ret (set_state (set_codes st l d) Codes, br)
    else corrupt "invalid block type".

(** One round of [read]: the bytes it gives, or [None] at the end. *)
Definition round (st : Inflate) (br : B) : Run (option (list Z) * Inflate * B) :=
  if 0 <? copy_len st then
    let at_ := (wpos st + WSIZE - copy_dist st) mod WSIZE in
    let b := default 0 (window st !! Z.to_nat at_) in
    let st := emit st b in
    ret (Some [b], set_copy st (copy_len st - 1) (copy_dist st), br)
  else
    match state st with
    | Done => ret (None, st, br)
    | Header => let! (st, br) := header st br in ret (Some [], st, br)
    | Stored n =>
        if n =? 0 then ret (Some [], set_state st Header, br)
        else let! (b, br) := bits br 8 in ret (Some [b], set_state (emit st b) (Stored (n - 1)), br)
    | Codes => let! (out, st, br) := symbol st br in ret (Some out, st, br)
    end.

(** [while n < out.len()] *)
Fixpoint read_loop (f : nat) (max : nat) (st : Inflate) (br : B) (out : list Z) : Run (list Z * Inflate * B) :=
  match f with
  | O => None
  | S f =>
      if (length out <? max)%nat then
        let! (o, st, br) := round st br in
        match o with
        | None => ret (out, st, br)
        | Some bytes => read_loop f max st br (out ++ bytes)
        end
      else ret (out, st, br)
  end.

End Decoder.

(** ** CRC-32 *)

Definition Crc32_new : Z := U32_MAX.
Definition crc_update (c : Z) (data : list Z) : Z := Slots.crc c data.
Definition crc_sum (c : Z) : Z := Z.lxor c U32_MAX.

(** ** A raw stream as a reader *)

Record Deflate (R : Type) : Type := mk_deflate { br : BitReader R; inflate : Inflate }.
Arguments mk_deflate {R}. Arguments br {R}. Arguments inflate {R}.

Section Stream.
Context {R : Type} {HR : Read R} (fuel : nat).

Definition Deflate_new (r : R) : Deflate R := mk_deflate (BitReader_new r) Inflate_new.

Definition deflate_read : Read (Deflate R) := fun d n =>
  let! (out, st, b) := read_loop fuel n (inflate d) (br d) [] in
  if (length out =? 0)%nat && negb (n =? 0)%nat then
    if negb (is_done st) then corrupt "incomplete deflate stream"
    else
      let! (e, b) := at_end (align b) in
      if (e : bool) then ret (out, mk_deflate b st) else corrupt "trailing deflate bytes"
  else ret (out, mk_deflate b st).

End Stream.
