(* ===== verification/InflateOk.v ===== *)
(** * InflateOk: the decoder of DEFLATE refines a reference

    A list of bits is the simplest source of the decoder.  The buffered reader over any source
    of bytes behaves like the list of the bits to come, so everything the decoder does with a
    source it does with that list. *)

From Stdlib Require Import ZArith Lia String.
From S2P Require Import Prelude Errors ArchiveIo Inflate.

Local Open Scope Z_scope.
Local Open Scope run_scope.

(** ** Lists of bits *)

(** The first bit is the lowest. *)
Definition bits_val (l : list bool) : Z := fold_right (fun b v => Z.b2z b + 2 * v) 0 l.
Definition z_bits (n : nat) (v : Z) : list bool := map (fun i => Z.testbit v (Z.of_nat i)) (seq 0 n).
Definition bytes_bits (l : list Z) : list bool := concat (map (z_bits 8) l).

#[export] Instance list_Bits : Bits (list bool) := {|
  bits l n := if (length l <? n)%nat then corrupt "unexpected end of stream" else ret (bits_val (take n l), drop n l);
  align l := drop (length l mod 8) l;
  at_end l := ret ((length l =? 0)%nat, l)
|}.

Lemma length_z_bits n v : length (z_bits n v) = n.
Proof. unfold z_bits. by rewrite length_map, length_seq. Qed.

Lemma length_bytes_bits l : length (bytes_bits l) = (8 * length l)%nat.
Proof.
  unfold bytes_bits. induction l as [|b l IH]; [done|]. cbn [map concat length]. rewrite length_app, length_z_bits, IH. lia.
Qed.

Lemma bytes_bits_app a b : bytes_bits (a ++ b) = bytes_bits a ++ bytes_bits b.
Proof. unfold bytes_bits. by rewrite map_app, concat_app. Qed.

Lemma z_bits_lookup n v i : z_bits n v !! i = if (i <? n)%nat then Some (Z.testbit v (Z.of_nat i)) else None.
Proof.
  unfold z_bits. change (map ?f ?l) with (f <$> l). rewrite list_lookup_fmap. destruct (Nat.ltb_spec i n).
  - by rewrite lookup_seq_lt.
  - by rewrite lookup_seq_ge.
Qed.

Lemma take_z_bits k n v : (k <= n)%nat -> take k (z_bits n v) = z_bits k v.
Proof.
  intros H. apply list_eq. intros i. rewrite z_bits_lookup. destruct (Nat.ltb_spec i k).
  - rewrite lookup_take_lt, z_bits_lookup by done. destruct (Nat.ltb_spec i n); [done|lia].
  - apply lookup_take_ge. lia.
Qed.

Lemma drop_z_bits k n v : drop k (z_bits n v) = z_bits (n - k) (Z.shiftr v (Z.of_nat k)).
Proof.
  apply list_eq. intros i. rewrite lookup_drop, !z_bits_lookup, Z.shiftr_spec by lia.
  destruct (Nat.ltb_spec (k + i) n), (Nat.ltb_spec i (n - k)); try lia; [|done]. do 2 f_equal. lia.
Qed.

Lemma z_bits_app n m v b : 0 <= v < 2 ^ Z.of_nat n ->
  z_bits (n + m) (Z.lor v (Z.shiftl b (Z.of_nat n))) = z_bits n v ++ z_bits m b.
Proof.
  intros Hv. apply list_eq. intros i. destruct (decide (i < n)%nat) as [Hi|Hi].
  - rewrite lookup_app_l by (by rewrite length_z_bits). rewrite !z_bits_lookup, Z.lor_spec, Z.shiftl_spec by lia.
    destruct (Nat.ltb_spec i (n + m)), (Nat.ltb_spec i n); try lia. by rewrite (Z.testbit_neg_r b), orb_false_r by lia.
  - rewrite lookup_app_r by (rewrite length_z_bits; lia). rewrite length_z_bits, !z_bits_lookup, Z.lor_spec, Z.shiftl_spec by lia.
    rewrite (testbit_high (Z.of_nat n)) by lia. cbn [orb].
    destruct (Nat.ltb_spec i (n + m)), (Nat.ltb_spec (i - n) m); try lia; [|done]. do 2 f_equal. lia.
Qed.

Lemma bits_val_bound l : 0 <= bits_val l < 2 ^ Z.of_nat (length l).
Proof.
  induction l as [|b l IH]; [done|]. cbn [bits_val fold_right length]. fold (bits_val l).
  rewrite Nat2Z.inj_succ, Z.pow_succ_r by lia. destruct b; cbn [Z.b2z]; lia.
Qed.

Lemma bits_val_testbit l i : (i < length l)%nat -> l !! i = Some (Z.testbit (bits_val l) (Z.of_nat i)).
Proof.
  revert i. induction l as [|b l IH]; intros i Hi; [cbn in Hi; lia|]. cbn [bits_val fold_right]. fold (bits_val l).
  destruct i as [|i].
  - cbn. by rewrite Z.add_comm, Z.testbit_0_r.
  - rewrite Nat2Z.inj_succ, Z.add_comm, Z.testbit_succ_r by lia. apply IH. cbn in Hi. lia.
Qed.

Lemma bits_val_z_bits n v : 0 <= v -> bits_val (z_bits n v) = Z.land v (Z.shiftl 1 (Z.of_nat n) - 1).
Proof.
  intros Hv. rewrite Z.shiftl_1_l. change (2 ^ Z.of_nat n - 1) with (Z.pred (2 ^ Z.of_nat n)).
  rewrite <- Z.ones_equiv, Z.land_ones by lia. apply Z.bits_inj'. intros i Hi.
  destruct (Z.ltb_spec i (Z.of_nat n)).
  - rewrite Z.mod_pow2_bits_low by lia. pose proof (bits_val_testbit (z_bits n v) (Z.to_nat i)) as H0.
    rewrite length_z_bits, z_bits_lookup in H0. destruct (Nat.ltb_spec (Z.to_nat i) n); [|lia].
    specialize (H0 ltac:(lia)). rewrite Z2Nat.id in H0 by lia. by injection H0.
  - rewrite Z.mod_pow2_bits_high by lia. apply (testbit_high (Z.of_nat n)); [|lia].
    pose proof (bits_val_bound (z_bits n v)) as H0. by rewrite length_z_bits in H0.
Qed.

(** ** Sources that are as good as a list *)

(** The same answer, and [S] between what is left. *)
Definition similar {B A} (S : B -> list bool -> Prop) (m : Run (A * B)) (m' : Run (A * list bool)) : Prop :=
  match m, m' with
  | Some (Ok (a, b)), Some (Ok (a', l)) => a = a' /\ S b l
  | Some (Err e), Some (Err e') => e = e'
  | None, None => True
  | _, _ => False
  end.

Class BitsLaws (B : Type) {HB : Bits B} : Type := {
  holds : B -> list bool -> Prop;
  bits_law : forall b l n, (n <= 32)%nat -> holds b l -> similar holds (bits b n) (bits l n);
  align_law : forall b l, holds b l -> holds (align b) (align l);
  at_end_law : forall b l, holds b l -> similar holds (at_end b) (at_end l)
}.

(** ** The bits to come *)

Section Reader.
Context {R : Type} {HR : Read R} {HL : ReadLaws R}.

(** A reader and the bits it will give. *)
Definition gives (br : BitReader R) (l : list bool) : Prop :=
  exists rest, yields (src br) rest /\ Forall is_byte rest
    /\ (pos br <= len br <= length (buf br))%nat /\ length (buf br) = INBUF
    /\ Forall is_byte (take (len br) (buf br))
    /\ 0 <= b_bits br < 2 ^ Z.of_nat (nbits br) /\ (nbits br <= 40)%nat
    /\ l = z_bits (nbits br) (b_bits br) ++ bytes_bits (drop (pos br) (take (len br) (buf br)) ++ rest).

Lemma gives_new r l : yields r l -> Forall is_byte l -> gives (BitReader_new r) (bytes_bits l).
Proof.
  intros Hr Hl. exists l. unfold BitReader_new. cbn [src buf pos len b_bits nbits]. split; [done|]. split; [done|].
  split; [lia|]. split; [apply repeat_length|]. split; [constructor|]. split; [cbn; lia|]. split; [lia|]. done.
Qed.

(** The bytes behind those bits that were taken in. *)
Lemma next_byte_gives br l : gives br l ->
  exists o br', next_byte br = ret (o, br') /\ nbits br' = nbits br /\ b_bits br' = b_bits br /\
    match o with
    | None => l = z_bits (nbits br) (b_bits br) /\ gives br' l
    | Some b => is_byte b /\ exists l', l = z_bits (nbits br) (b_bits br) ++ z_bits 8 b ++ l'
                /\ forall bs n, 0 <= bs < 2 ^ Z.of_nat n -> (n <= 40)%nat ->
                     gives (mk_reader (src br') (buf br') (pos br') (len br') bs n) (z_bits n bs ++ l')
    end.
Proof.
  destruct br as [r b p k v n]. intros (rest & Hy & Hrest & Hp & Hb & Hbytes & Hv & Hn & ->).
  cbn [src buf pos len b_bits nbits] in *. unfold next_byte. cbn [src buf pos len b_bits nbits].
  assert (forall r b p k rest, yields r rest -> Forall is_byte rest -> (p < k <= length b)%nat -> length b = INBUF ->
    Forall is_byte (take k b) ->
    exists o br', ret (b !! p, mk_reader r b (S p) k v n) = ret (o, br') /\ nbits br' = n /\ b_bits br' = v /\
    match o with
    | None => z_bits n v ++ bytes_bits (drop p (take k b) ++ rest) = z_bits n v
              /\ gives br' (z_bits n v ++ bytes_bits (drop p (take k b) ++ rest))
    | Some x => is_byte x /\ exists l', z_bits n v ++ bytes_bits (drop p (take k b) ++ rest) = z_bits n v ++ z_bits 8 x ++ l'
                /\ forall bs n, 0 <= bs < 2 ^ Z.of_nat n -> (n <= 40)%nat ->
                     gives (mk_reader (src br') (buf br') (pos br') (len br') bs n) (z_bits n bs ++ l')
    end) as Hsome.
  { clear. intros r b p k rest Hy Hrest Hp Hb Hbytes. assert (p < length b)%nat as Hlt by lia.
    destruct (lookup_lt_is_Some_2 _ _ Hlt) as [x Hx]. eexists _, _. split; [reflexivity|]. split; [done|]. split; [done|].
    rewrite Hx. assert (take k b !! p = Some x) as Hx' by (by rewrite lookup_take_lt by lia).
    split; [by eapply Forall_lookup_1|]. exists (bytes_bits (drop (S p) (take k b) ++ rest)). split.
    - rewrite (drop_S _ _ _ Hx'). done.
    - intros bs m Hbs Hm. exists rest. cbn [src buf pos len b_bits nbits]. split; [done|]. split; [done|]. split; [lia|]. done. }
  destruct (Nat.leb_spec k p) as [Hkp|Hkp].
  - destruct (read_yields r rest (length b) Hy) as (data & r' & rest' & -> & -> & Hy' & Hd & He). unfold bind at 1 2, ret at 1 2 3.
    cbn [len pos buf src b_bits nbits]. apply Forall_app in Hrest as [Hdata Hrest].
    rewrite (drop_ge _ p) by (rewrite length_take; lia). cbn [app].
    destruct (Nat.eqb_spec (length data) 0) as [H0|H0].
    + apply length_zero_iff_nil in H0 as ->. destruct (He eq_refl) as [Hz|Hz]; [rewrite Hb in Hz; discriminate Hz|].
      cbn in Hz. subst rest'. eexists None, _. split; [reflexivity|]. split; [done|]. split; [done|].
      cbn [app bytes_bits map concat]. rewrite app_nil_r. split; [done|]. exists []. cbn [src buf pos len b_bits nbits].
      rewrite drop_0. split; [done|]. split; [done|]. split; [lia|]. split; [done|]. split; [constructor|]. split; [done|].
      split; [done|]. cbn. by rewrite app_nil_r.
    + destruct (Hsome r' (data ++ drop (length data) b) 0%nat (length data) rest') as (o & br' & E & Hrest').
      * done.
      * done.
      * rewrite length_app. lia.
      * rewrite length_app, length_drop. lia.
      * by rewrite take_app_length.
      * rewrite take_app_length, drop_0 in Hrest'. by exists o, br'.
  - unfold bind at 1, ret at 1. cbn [len pos buf src b_bits nbits]. destruct (Nat.eqb_spec k 0); [lia|].
    apply Hsome; [done|done|lia|done|done].
Qed.

Lemma fill_gives f : forall n br l, gives br l -> (n <= 32)%nat -> (n <= nbits br + 8 * f)%nat ->
  if (length l <? n)%nat then fill f n br = corrupt "unexpected end of stream"
  else exists br', fill f n br = ret br' /\ gives br' l /\ (n <= nbits br')%nat.
Proof.
  induction f as [|f IH]; intros n br l Hg Hn Hf; cbn [fill].
  - assert (nbits br <= length l)%nat as Hl.
    { destruct Hg as (rest & _ & _ & _ & _ & _ & _ & _ & ->). rewrite length_app, length_z_bits. lia. }
    destruct (Nat.ltb_spec (length l) n); [lia|]. exists br. split; [done|]. split; [done|]. lia.
  - destruct (Nat.ltb_spec (nbits br) n) as [Hlt|Hge].
    2:{ assert (nbits br <= length l)%nat as Hl.
        { destruct Hg as (rest & _ & _ & _ & _ & _ & _ & _ & ->). rewrite length_app, length_z_bits. lia. }
        destruct (Nat.ltb_spec (length l) n); [lia|]. exists br. done. }
    destruct (next_byte_gives br l Hg) as (o & br' & -> & Hnb & Hbb & Ho). cbn [bind ret].
    destruct o as [b|].
    + destruct Ho as (Hb & l' & -> & Hgl). rewrite Hnb, Hbb.
      assert (0 <= b_bits br < 2 ^ Z.of_nat (nbits br)) as Hv by (by destruct Hg as (rest & _ & _ & _ & _ & _ & Hv & _)).
      unfold is_byte in Hb.
      assert (2 ^ Z.of_nat (nbits br + 8) = 2 ^ Z.of_nat (nbits br) * 256) as Hpow by (by rewrite Nat2Z.inj_add, Z.pow_add_r by lia).
      assert (0 <= Z.shiftl b (Z.of_nat (nbits br)) < 2 ^ Z.of_nat (nbits br + 8)) as Hs.
      { rewrite Z.shiftl_mul_pow2 by lia. nia. }
      assert (Z.shiftl b (Z.of_nat (nbits br)) mod 2 ^ 64 = Z.shiftl b (Z.of_nat (nbits br))) as ->.
      { apply Z.mod_small. split; [lia|]. eapply Z.lt_le_trans; [apply Hs|]. apply Z.pow_le_mono_r; lia. }
      specialize (IH n (mk_reader (src br') (buf br') (pos br') (len br')
        (Z.lor (b_bits br) (Z.shiftl b (Z.of_nat (nbits br)))) (nbits br + 8)) (z_bits (nbits br) (b_bits br) ++ z_bits 8 b ++ l')).
      apply IH; [|done|cbn [nbits]; lia]. rewrite app_assoc, <- z_bits_app by done. apply Hgl; [|lia].
      apply lor_bound; [|done]. split; [apply Hv|]. eapply Z.lt_le_trans; [apply Hv|]. apply Z.pow_le_mono_r; lia.
    + destruct Ho as [-> _]. rewrite length_z_bits. destruct (Nat.ltb_spec (nbits br) n); [done|lia].
Qed.

Lemma gives_length br l : gives br l -> exists k, length l = (nbits br + 8 * k)%nat.
Proof.
  intros (rest & _ & _ & _ & _ & _ & _ & _ & ->). eexists. by rewrite length_app, length_z_bits, length_bytes_bits.
Qed.

(** Dropping bits that were taken in. *)
Lemma gives_drop br l k : gives br l -> (k <= nbits br)%nat ->
  gives (mk_reader (src br) (buf br) (pos br) (len br) (Z.shiftr (b_bits br) (Z.of_nat k)) (nbits br - k)) (drop k l).
Proof.
  intros (rest & Hy & Hrest & Hp & Hb & Hbytes & Hv & Hn & ->) Hk. exists rest. cbn [src buf pos len b_bits nbits].
  split; [done|]. split; [done|]. split; [done|]. split; [done|]. split; [done|]. split; [|split; [lia|]].
  - rewrite Z.shiftr_div_pow2 by lia. split; [apply Z.div_pos; lia|]. apply Z.div_lt_upper_bound; [lia|].
    rewrite <- Z.pow_add_r by lia. replace (Z.of_nat k + Z.of_nat (nbits br - k)) with (Z.of_nat (nbits br)) by lia. lia.
  - rewrite drop_app_le by (rewrite length_z_bits; lia). by rewrite drop_z_bits.
Qed.

#[export] Program Instance reader_laws : BitsLaws (BitReader R) := {| holds := gives |}.
Next Obligation.
  intros br l n Hn Hg. cbn [bits reader_Bits list_Bits]. unfold reader_bits.
  pose proof (fill_gives n n br l Hg Hn ltac:(lia)) as H. destruct (Nat.ltb_spec (length l) n) as [Hlt|Hge]; [by rewrite H|].
  destruct H as (br' & -> & Hg' & Hnb). cbn [bind ret similar]. split; [|by apply gives_drop].
  destruct Hg' as (rest & _ & _ & _ & _ & _ & Hv & _ & ->). rewrite take_app_le by (by rewrite length_z_bits).
  rewrite take_z_bits by done. symmetry. apply bits_val_z_bits. lia.
Qed.
Next Obligation.
  intros br l Hg. cbn [align reader_Bits list_Bits]. unfold reader_align. destruct (gives_length _ _ Hg) as [k Hk].
  replace (length l mod 8)%nat with (nbits br mod 8)%nat.
  - apply gives_drop; [done|]. pose proof (Nat.Div0.mod_le (nbits br) 8). lia.
  - rewrite Hk, Nat.mul_comm. symmetry. by rewrite Nat.Div0.mod_add.
Qed.
Next Obligation.
  intros br l Hg. cbn [at_end reader_Bits list_Bits]. unfold reader_at_end. destruct (gives_length _ _ Hg) as [k Hk].
  destruct (Nat.ltb_spec 0 (nbits br)) as [H|H].
  - cbn [similar ret]. split; [|done]. symmetry. apply Nat.eqb_neq. lia.
  - destruct (next_byte_gives br l Hg) as (o & br' & -> & Hnb & Hbb & Ho). cbn [bind ret].
    assert (nbits br = 0%nat) as Hz by lia. rewrite Hz in Ho. cbn [z_bits map seq app] in Ho. destruct o as [b|].
    + destruct Ho as (Hb & l' & -> & Hgl). cbn [similar]. split; [|apply Hgl; [by unfold is_byte in Hb|lia]].
      symmetry. by apply Nat.eqb_neq.
    + destruct Ho as [-> Hg']. cbn [similar]. done.
Qed.

End Reader.

(** ** What the decoder does with such a source *)

Section Decoder.
Context {B : Type} {HB : Bits B} {HL : BitsLaws B}.

Lemma similar_bind {A C} (m : Run (A * B)) m' (f : A * B -> Run (C * B)) f' :
  similar holds m m' -> (forall a b l, holds b l -> similar holds (f (a, b)) (f' (a, l))) ->
  similar holds (bind m f) (bind m' f').
Proof.
  intros H Hf. unfold similar in H. destruct m as [[[a b]|e]|], m' as [[[a' l]|e']|]; try done.
  destruct H as [<- H]. by apply Hf.
Qed.

Lemma similar_ret {A} (a : A) b l : holds b l -> similar holds (ret (a, b)) (ret (a, l)).
Proof. done. Qed.

Lemma similar_stop {A} e : similar (A := A) holds (stop e : Run (A * B)) (stop e).
Proof. done. Qed.

Ltac similar :=
  repeat match goal with
  | |- similar _ (bind (bits _ _) _) (bind _ _) => apply similar_bind; [by apply bits_law|intros ? ? ? ?]
  | |- similar _ (ret _) _ => by apply similar_ret
  | |- similar _ (corrupt _) _ => apply similar_stop
  | |- similar _ (stop _) _ => apply similar_stop
  | |- similar _ (if ?b then _ else _) _ => destruct b
  | |- similar _ (match ?x with _ => _ end) _ => destruct x
  end.

Lemma decode_similar h br l : holds br l -> similar holds (decode h br) (decode h l).
Proof.
  unfold decode. generalize (drop 1 (h_count h)). intros counts. generalize 0 at 1 4. generalize 0 at 1 3. generalize 0.
  intros x y z. revert x y z br l. induction counts as [|c counts IH]; intros x y z br l H; cbn [decode_loop]; [done|].
  apply similar_bind; [apply bits_law; [lia|done]|]. intros a b l' Hb. cbn beta iota. similar. by apply IH.
Qed.

Lemma based_similar bases extras i why br l : (forall x, In x extras -> (x <= 32)%nat) -> holds br l ->
  similar holds (based bases extras i br why) (based bases extras i l why).
Proof.
  intros Hx H. unfold based. destruct (bases !! _); [|done]. destruct (extras !! _) as [x|] eqn:E; [|done].
  apply similar_bind; [|intros; by apply similar_ret]. apply bits_law; [|done]. apply Hx.
  apply list_elem_of_In. by eapply list_elem_of_lookup_2.
Qed.

Lemma len_extra_small x : In x LEN_EXTRA -> (x <= 32)%nat.
Proof. revert x. apply List.Forall_forall. unfold LEN_EXTRA. repeat constructor; lia. Qed.

Lemma dist_extra_small x : In x DIST_EXTRA -> (x <= 32)%nat.
Proof. revert x. apply List.Forall_forall. unfold DIST_EXTRA. repeat constructor; lia. Qed.

Lemma symbol_similar st br l : holds br l -> similar holds (symbol st br) (symbol st l).
Proof.
  intros H. unfold symbol. apply similar_bind; [by apply decode_similar|]. intros s b l' Hb. cbn beta iota.
  destruct (s <? 256); [done|]. destruct (s =? 256); [done|].
  apply similar_bind; [apply based_similar; [apply len_extra_small|done]|]. intros n b2 l2 Hb2. cbn beta iota.
  apply similar_bind; [by apply decode_similar|]. intros d b3 l3 Hb3. cbn beta iota.
  apply similar_bind; [apply based_similar; [apply dist_extra_small|done]|]. intros far b4 l4 Hb4. cbn beta iota.
  by destruct (total st <? far).
Qed.

Lemma read_cl_similar order : forall cl br l, holds br l -> similar holds (read_cl order cl br) (read_cl order cl l).
Proof.
  induction order as [|i order IH]; intros cl br l H; cbn [read_cl]; [done|].
  apply similar_bind; [apply bits_law; [lia|done]|]. intros a b l' Hb. by apply IH.
Qed.

Lemma read_lengths_similar f clcode total : forall i lengths br l, holds br l ->
  similar holds (read_lengths f clcode total i lengths br) (read_lengths f clcode total i lengths l).
Proof.
  induction f as [|f IH]; intros i lengths br l H; cbn [read_lengths]; [done|]. destruct (i <? total)%nat; [|done].
  apply similar_bind; [by apply decode_similar|]. intros s b l' Hb. cbn beta iota. destruct (s <? 16); [by apply IH|].
  apply (similar_bind (A := Z * Z)).
  - destruct (s =? 16).
    + destruct i as [|p]; [done|]. destruct (lengths !! p); [|done].
      apply similar_bind; [apply bits_law; [lia|done]|]. done.
    + destruct (s =? 17); (apply similar_bind; [apply bits_law; [lia|done]|]; done).
  - intros [v n] b2 l2 Hb2. cbn beta iota zeta. destruct (total <? i + Z.to_nat n)%nat; [done|]. by apply IH.
Qed.

Lemma dynamic_similar br l : holds br l -> similar holds (dynamic br) (dynamic l).
Proof.
  intros H. unfold dynamic. apply similar_bind; [apply bits_law; [lia|done]|]. intros a b1 l1 H1. cbn beta iota.
  apply similar_bind; [apply bits_law; [lia|done]|]. intros b b2 l2 H2. cbn beta iota.
  apply similar_bind; [apply bits_law; [lia|done]|]. intros c b3 l3 H3. cbn beta iota zeta.
  destruct (_ || _); [done|]. apply similar_bind; [by apply read_cl_similar|]. intros cl b4 l4 H4. cbn beta iota.
  destruct (Huffman_new cl) as [clcode|e]; cbn [bind]; [|done].
  apply similar_bind; [by apply read_lengths_similar|]. intros ls b5 l5 H5. cbn beta iota.
  destruct (default 0 _ =? 0); [done|]. destruct (Huffman_new (default [] (slice ls 0 _))); cbn [bind]; [|done].
  destruct (Huffman_new _); cbn [bind]; done.
Qed.

Lemma header_similar st br l : holds br l -> similar holds (header st br) (header st l).
Proof.
  intros H. unfold header. destruct (last st); [done|].
  apply similar_bind; [apply bits_law; [lia|done]|]. intros a b1 l1 H1. cbn beta iota zeta.
  apply similar_bind; [apply bits_law; [lia|done]|]. intros k b2 l2 H2. cbn beta iota zeta.
  destruct (k =? 0).
  - apply similar_bind; [apply bits_law; [lia|by apply align_law]|]. intros n b3 l3 H3. cbn beta iota.
    apply similar_bind; [apply bits_law; [lia|done]|]. intros m b4 l4 H4. cbn beta iota. by destruct (negb _).
  - destruct (k =? 1); [destruct fixed as [[x y]|e]; done|]. destruct (k =? 2); [|done].
    apply similar_bind; [by apply dynamic_similar|]. by intros [x y] b3 l3 H3.
Qed.

Lemma round_similar st br l : holds br l -> similar holds (round st br) (round st l).
Proof.
  intros H. unfold round. destruct (0 <? copy_len st); [done|]. destruct (state st).
  - apply similar_bind; [by apply header_similar|]. done.
  - destruct (n =? 0); [done|]. apply similar_bind; [apply bits_law; [lia|done]|]. done.
  - apply similar_bind; [by apply symbol_similar|]. by intros [o st'] b l' Hb.
  - done.
Qed.

Lemma read_loop_similar f max : forall st br l out, holds br l ->
  similar holds (read_loop f max st br out) (read_loop f max st l out).
Proof.
  induction f as [|f IH]; intros st br l out H; cbn [read_loop]; [done|]. destruct (length out <? max)%nat; [|done].
  apply similar_bind; [by apply round_similar|]. intros [o st'] b l' Hb. cbn beta iota. destruct o; [by apply IH|done].
Qed.

End Decoder.

(** * InflateOk: the decoder refines a reference

    The reference decodes a whole list of bits and keeps everything it wrote.  The decoder of
    the program keeps 32 KiB, stops when the buffer of its caller is full and goes on from
    there; whatever the sizes of the buffers, it gives exactly the bytes of the reference. *)

Local Open Scope run_scope.

(** ** The reference *)

(** [n] bytes from [far] back, one after the other: they may be copies of copies. *)
Fixpoint copy_back (n : nat) (far : Z) (hist : list Z) : list Z :=
  match n with
  | O => hist
  | S n => copy_back n far (hist ++ [nth (length hist - Z.to_nat far) hist 0])
  end.

Fixpoint stored (n : nat) (bs : list bool) (hist : list Z) : Run (list Z * list bool) :=
  match n with
  | O => ret (hist, bs)
  | S n => let! (b, bs) := bits bs 8 in stored n bs (hist ++ [b])
  end.

(** Symbols up to the end of the block; each takes a bit at least. *)
Fixpoint codes (f : nat) (l d : Huffman) (bs : list bool) (hist : list Z) : Run (list Z * list bool) :=
  match f with
  | O => None
  | S f =>
      let! (sym, bs) := decode l bs in
      if sym <? 256 then codes f l d bs (hist ++ [sym])
      else if sym =? 256 then ret (hist, bs)
      else
        let! (n, bs) := based LEN_BASE LEN_EXTRA (sym - 257) bs "invalid length symbol" in
        let! (x, bs) := decode d bs in
        let! (far, bs) := based DIST_BASE DIST_EXTRA x bs "invalid distance symbol" in
        if Z.of_nat (length hist) <? far then corrupt "distance too far back"
        else codes f l d bs (copy_back (Z.to_nat n) far hist)
  end.

Definition block (kind : Z) (bs : list bool) (hist : list Z) : Run (list Z * list bool) :=
  if kind =? 0 then
    let! (n, bs) := bits (align bs) 16 in
    let! (m, bs) := bits bs 16 in
    if negb (n =? Z.land (Z.lxor m U32_MAX) 65535) then corrupt "stored block length does not match its complement"
    else stored (Z.to_nat n) bs hist
  else if kind =? 1 then let! (l, d) := Some fixed in codes (S (length bs)) l d bs hist
  else if kind =? 2 then let! (l, d, bs) := dynamic bs in codes (S (length bs)) l d bs hist
  else corrupt "invalid block type".

(** Blocks up to the one that is marked as the last. *)
Fixpoint blocks (f : nat) (bs : list bool) (hist : list Z) : Run (list Z * list bool) :=
  match f with
  | O => None
  | S f =>
      let! (l, bs) := bits bs 1 in
      let! (kind, bs) := bits bs 2 in
      let! (hist, bs) := block kind bs hist in
      if l =? 1 then ret (hist, bs) else blocks f bs hist
  end.

(** Nothing follows the last block but the rest of its last byte. *)
Definition finish (r : Run (list Z * list bool)) : Run (list Z) :=
  let! (hist, bs) := r in
  match align bs with [] => ret hist | _ => corrupt "trailing deflate bytes" end.

(** All bytes of a stream. *)
Definition reference (bs : list bool) : Run (list Z) := finish (blocks (S (length bs)) bs []).

(** ** Bits are used up *)

Lemma bits_shrinks bs n v bs' : bits bs n = ret (v, bs') -> bs' = drop n bs /\ (n <= length bs)%nat /\ 0 <= v < 2 ^ Z.of_nat n.
Proof.
  cbn [bits list_Bits]. destruct (Nat.ltb_spec (length bs) n); [done|]. intros [= <- <-]. split; [done|]. split; [done|].
  pose proof (bits_val_bound (take n bs)) as Hb. by rewrite length_take_le in Hb.
Qed.

Lemma bits_length bs n v bs' : bits bs n = ret (v, bs') -> length bs = (n + length bs')%nat.
Proof. intros (-> & Hn & _)%bits_shrinks. rewrite length_drop. lia. Qed.

Lemma bind_ret {A C} (m : Run A) (f : A -> Run C) c : bind m f = ret c -> exists a, m = ret a /\ f a = ret c.
Proof. destruct m as [[a|e]|]; cbn; [|done|done]. intros H. by exists a. Qed.

Lemma decode_shrinks h bs s bs' : decode h bs = ret (s, bs') -> (length bs' < length bs)%nat.
Proof.
  unfold decode. generalize (drop 1 (h_count h)). generalize 0 at 1. generalize 0 at 1. generalize 0. intros x y z cs.
  revert x y z bs. induction cs as [|c cs IH]; intros x y z bs; cbn [decode_loop]; [done|].
  intros ([b bs1] & Hb%bits_length & H)%bind_ret. cbv zeta in H. destruct (_ <? _).
  - destruct (if _ <? 0 then None else _) as [v|]; [|done]. injection H as _ <-. lia.
  - apply IH in H. lia.
Qed.

Lemma based_shrinks bases extras i bs why v bs' : based bases extras i bs why = ret (v, bs') -> (length bs' <= length bs)%nat.
Proof.
  unfold based. destruct (bases !! _); [|done]. destruct (extras !! _); [|done].
  intros ([b bs1] & Hb%bits_length & H)%bind_ret. injection H as _ <-. lia.
Qed.

Lemma codes_enough f : forall g l d bs hist, (length bs < f)%nat -> (length bs < g)%nat ->
  codes f l d bs hist = codes g l d bs hist.
Proof.
  induction f as [|f IH]; intros [|g] l d bs hist Hf Hg; try lia. cbn [codes].
  destruct (decode l bs) as [[[s bs1]|]|] eqn:E; cbn [bind]; [|done|done]. apply decode_shrinks in E.
  destruct (s <? 256); [apply IH; lia|]. destruct (s =? 256); [done|].
  destruct (based _ _ _ bs1 _) as [[[n bs2]|]|] eqn:E2; cbn [bind]; [|done|done]. apply based_shrinks in E2.
  destruct (decode d bs2) as [[[x bs3]|]|] eqn:E3; cbn [bind]; [|done|done]. apply decode_shrinks in E3.
  destruct (based _ _ _ bs3 _) as [[[far bs4]|]|] eqn:E4; cbn [bind]; [|done|done]. apply based_shrinks in E4.
  destruct (_ <? far); [done|]. apply IH; lia.
Qed.

Lemma stored_shrinks n : forall bs hist h' bs', stored n bs hist = ret (h', bs') -> (length bs' <= length bs)%nat.
Proof.
  induction n as [|n IH]; intros bs hist h' bs'; cbn [stored]; [by intros [= _ <-]|].
  intros ([b bs1] & Hb%bits_length & H)%bind_ret. apply IH in H. lia.
Qed.

Lemma codes_shrinks f : forall l d bs hist h' bs', codes f l d bs hist = ret (h', bs') -> (length bs' <= length bs)%nat.
Proof.
  induction f as [|f IH]; intros l d bs hist h' bs'; cbn [codes]; [done|].
  intros ([s bs1] & E%decode_shrinks & H)%bind_ret. destruct (s <? 256); [apply IH in H; lia|].
  destruct (s =? 256); [injection H as _ <-; lia|]. apply bind_ret in H as ([n bs2] & E2%based_shrinks & H).
  apply bind_ret in H as ([x bs3] & E3%decode_shrinks & H). apply bind_ret in H as ([far bs4] & E4%based_shrinks & H).
  destruct (_ <? far); [done|]. apply IH in H. lia.
Qed.

Lemma read_cl_shrinks order : forall cl bs cl' bs', read_cl order cl bs = ret (cl', bs') -> (length bs' <= length bs)%nat.
Proof.
  induction order as [|i order IH]; intros cl bs cl' bs'; cbn [read_cl]; [by intros [= _ <-]|].
  intros ([b bs1] & Hb%bits_length & H)%bind_ret. apply IH in H. lia.
Qed.

Lemma read_lengths_shrinks f clcode total : forall i ls bs ls' bs',
  read_lengths f clcode total i ls bs = ret (ls', bs') -> (length bs' <= length bs)%nat.
Proof.
  induction f as [|f IH]; intros i ls bs ls' bs'; cbn [read_lengths]; [by intros [= _ <-]|].
  destruct (i <? total)%nat; [|by intros [= _ <-]]. intros ([s bs1] & E%decode_shrinks & H)%bind_ret.
  destruct (s <? 16); [apply IH in H; lia|]. apply bind_ret in H as ([[v n] bs2] & E2 & H).
  assert (length bs2 <= length bs1)%nat as Hl.
  { destruct (s =? 16).
    - destruct i as [|p]; [done|]. destruct (ls !! p); [|done].
      apply bind_ret in E2 as ([x bs3] & Hb%bits_length & E2). injection E2 as _ _ <-. lia.
    - destruct (s =? 17); apply bind_ret in E2 as ([x bs3] & Hb%bits_length & E2); injection E2 as _ _ <-; lia. }
  destruct (total <? _)%nat; [done|]. apply IH in H. lia.
Qed.

Lemma dynamic_shrinks bs l d bs' : dynamic bs = ret (l, d, bs') -> (length bs' <= length bs)%nat.
Proof.
  unfold dynamic. intros ([a bs1] & H1%bits_length & H)%bind_ret. apply bind_ret in H as ([b bs2] & H2%bits_length & H).
  apply bind_ret in H as ([c bs3] & H3%bits_length & H). cbv zeta in H. destruct (_ || _); [done|].
  apply bind_ret in H as ([cl bs4] & H4%read_cl_shrinks & H). apply bind_ret in H as (clcode & _ & H).
  apply bind_ret in H as ([ls bs5] & H5%read_lengths_shrinks & H). destruct (_ =? 0); [done|].
  apply bind_ret in H as (x & _ & H). apply bind_ret in H as (y & _ & H). injection H as _ _ <-. lia.
Qed.

Lemma align_shrinks (bs : list bool) : (length (align bs) <= length bs)%nat.
Proof. cbn [align list_Bits]. rewrite length_drop. lia. Qed.

Lemma block_shrinks kind bs hist h' bs' : block kind bs hist = ret (h', bs') -> (length bs' <= length bs)%nat.
Proof.
  unfold block. destruct (kind =? 0).
  - intros ([n bs1] & H1%bits_length & H)%bind_ret. apply bind_ret in H as ([m bs2] & H2%bits_length & H).
    destruct (negb _); [done|]. apply stored_shrinks in H. pose proof (align_shrinks bs). lia.
  - destruct (kind =? 1); [|destruct (kind =? 2); [|done]].
    + intros ([l d] & _ & H)%bind_ret. by apply codes_shrinks in H.
    + intros ([[l d] bs1] & H1%dynamic_shrinks & H)%bind_ret. apply codes_shrinks in H. lia.
Qed.

Lemma blocks_enough f : forall g bs hist, (length bs < f)%nat -> (length bs < g)%nat -> blocks f bs hist = blocks g bs hist.
Proof.
  induction f as [|f IH]; intros [|g] bs hist Hf Hg; try lia. cbn [blocks].
  destruct (bits bs 1) as [[[l bs1]|]|] eqn:E; cbn [bind]; [|done|done]. apply bits_length in E.
  destruct (bits bs1 2) as [[[k bs2]|]|] eqn:E2; cbn [bind]; [|done|done]. apply bits_length in E2.
  destruct (block k bs2 hist) as [[[h bs3]|]|] eqn:E3; cbn [bind]; [|done|done]. apply block_shrinks in E3.
  destruct (l =? 1); [done|]. apply IH; lia.
Qed.

(** ** The window is the end of the history *)

Definition windowed (st : Inflate) (hist : list Z) : Prop :=
  length (window st) = Z.to_nat WSIZE /\ wpos st = Z.of_nat (length hist) mod WSIZE
  /\ total st = Z.min U64_MAX (Z.of_nat (length hist))
  /\ forall j b, hist !! j = Some b -> Z.of_nat (length hist) - Z.of_nat j <= WSIZE ->
       window st !! Z.to_nat (Z.of_nat j mod WSIZE) = Some b.

Lemma wsize_pos : 0 < WSIZE.
Proof. done. Qed.

Lemma emit_windowed st hist b : windowed st hist -> windowed (emit st b) (hist ++ [b]).
Proof.
  intros (Hw & Hp & Ht & Hh). pose proof wsize_pos as Hpos. unfold windowed, emit. cbn [window wpos total].
  rewrite length_app. cbn [length]. rewrite Nat2Z.inj_add. change (Z.of_nat 1) with 1.
  split; [by rewrite length_insert|]. split; [|split].
  - rewrite Hp. rewrite Zplus_mod_idemp_l. done.
  - rewrite Ht. unfold saturating_add. lia.
  - intros j x Hj Hn. rewrite Hp.
    pose proof (Z.mod_pos_bound (Z.of_nat (length hist)) WSIZE Hpos) as Hb1. pose proof (Z.mod_pos_bound (Z.of_nat j) WSIZE Hpos) as Hb2.
    destruct (decide (j = length hist)) as [->|Hne].
    + rewrite list_lookup_insert_eq by (rewrite Hw; lia). by rewrite list_lookup_middle in Hj.
    + assert (j < length hist)%nat as Hlt.
      { apply lookup_lt_Some in Hj. rewrite length_app in Hj. cbn in Hj. lia. }
      rewrite lookup_app_l in Hj by done. rewrite list_lookup_insert_ne; [apply Hh; [done|lia]|].
      intros He. apply Z2Nat.inj in He; [|lia|lia].
      assert ((Z.of_nat (length hist) - Z.of_nat j) mod WSIZE = 0) as Hm by (rewrite Zminus_mod, He, Z.sub_diag; done).
      rewrite Z.mod_small in Hm by lia. lia.
Qed.

Lemma window_lookup st hist far : windowed st hist -> 1 <= far <= WSIZE -> far <= Z.of_nat (length hist) ->
  default 0 (window st !! Z.to_nat ((wpos st + WSIZE - far) mod WSIZE)) = nth (length hist - Z.to_nat far) hist 0.
Proof.
  intros (Hw & Hp & Ht & Hh) Hf Hl. set (j := (length hist - Z.to_nat far)%nat).
  assert (j < length hist)%nat as Hj by lia. destruct (lookup_lt_is_Some_2 _ _ Hj) as [b Hb].
  assert ((wpos st + WSIZE - far) mod WSIZE = Z.of_nat j mod WSIZE) as ->.
  { rewrite Hp. replace (Z.of_nat (length hist) mod WSIZE + WSIZE - far)
      with ((Z.of_nat (length hist) mod WSIZE + (WSIZE - far))) by lia.
    rewrite Zplus_mod_idemp_l. replace (Z.of_nat (length hist) + (WSIZE - far)) with (Z.of_nat j + 1 * WSIZE) by lia.
    by rewrite Z_mod_plus_full. }
  rewrite (Hh j b Hb) by lia. by rewrite (nth_lookup_Some _ _ _ _ Hb).
Qed.

(** ** Lengths and distances *)

Definition in_range (lo hi : Z) (p : Z * nat) : bool := (lo <=? p.1) && (p.1 + 2 ^ Z.of_nat p.2 - 1 <=? hi).

Lemma based_range lo hi bases extras i bs why v bs' :
  forallb (in_range lo hi) (zip bases extras) = true -> based bases extras i bs why = ret (v, bs') -> lo <= v <= hi.
Proof.
  intros Hall. unfold based. destruct (bases !! _) as [b|] eqn:Eb; [|done]. destruct (extras !! _) as [x|] eqn:Ex; [|done].
  intros ([y bs1] & (_ & _ & Hy)%bits_shrinks & H)%bind_ret. injection H as <- _.
  rewrite forallb_forall in Hall. specialize (Hall (b, x)). unfold in_range in Hall. cbn [fst snd] in Hall.
  assert (In (b, x) (zip bases extras)) as Hin.
  { apply list_elem_of_In, (list_elem_of_lookup_2 _ (Z.to_nat i)). by rewrite lookup_zip_with, Eb; cbn; rewrite Ex. }
  apply Hall, andb_true_iff in Hin as [H1%Z.leb_le H2%Z.leb_le]. lia.
Qed.

Lemma distance_range i bs why v bs' : based DIST_BASE DIST_EXTRA i bs why = ret (v, bs') -> 1 <= v <= WSIZE.
Proof. apply based_range. by vm_compute. Qed.

Lemma length_range i bs why v bs' : based LEN_BASE LEN_EXTRA i bs why = ret (v, bs') -> 3 <= v <= 258.
Proof. apply based_range. by vm_compute. Qed.

(** ** What is still to come *)

(** The history once the pending copy is done. *)
Definition copied (st : Inflate) (hist : list Z) : list Z := copy_back (Z.to_nat (copy_len st)) (copy_dist st) hist.

(** After a block: the end, or the next one. *)
Definition onward (is_last : bool) (r : Run (list Z * list bool)) : Run (list Z * list bool) :=
  let! (hist, bs) := r in if is_last then ret (hist, bs) else blocks (S (length bs)) bs hist.

(** What the reference makes of the rest, from any state of the decoder. *)
Definition rest_of (st : Inflate) (bs : list bool) (hist : list Z) : Run (list Z * list bool) :=
  match state st with
  | Done => ret (copied st hist, bs)
  | Header => onward (last st) (ret (copied st hist, bs))
  | Stored n => onward (last st) (stored (Z.to_nat n) bs (copied st hist))
  | Codes => onward (last st) (codes (S (length bs)) (lit st) (dist st) bs (copied st hist))
  end.

Record good (st : Inflate) (hist : list Z) : Prop := mk_good {
  go_window : windowed st hist;
  go_copy : 0 <= copy_len st <= 258;
  go_far : 0 < copy_len st -> 1 <= copy_dist st <= WSIZE /\ copy_dist st <= Z.of_nat (length hist);
  go_stored : match state st with Stored n => 0 <= n | _ => True end
}.

Definition rank (s : State) : nat := match s with Stored _ => 2 | Header => 1 | _ => 0 end.
Definition weight (st : Inflate) (bs : list bool) : nat := (Z.to_nat (copy_len st) + 300 * length bs + rank (state st))%nat.

(** What a round promises. *)
Definition round_ok (st : Inflate) (bs : list bool) (hist : list Z) (r : Run (option (list Z) * Inflate * list bool)) : Prop :=
  match r with
  | Some (Ok (Some out, st', bs')) =>
      good st' (hist ++ out) /\ rest_of st' bs' (hist ++ out) = rest_of st bs hist
      /\ (weight st' bs' < weight st bs)%nat /\ (length out <= 1)%nat
  | Some (Ok (None, st', bs')) => st' = st /\ bs' = bs /\ is_done st = true /\ rest_of st bs hist = ret (hist, bs)
  | Some (Err e) => rest_of st bs hist = stop e
  | None => False
  end.

Lemma copied_nothing st hist : copy_len st = 0 -> copied st hist = hist.
Proof. intros H. unfold copied. by rewrite H. Qed.

Lemma round_copy st bs hist : good st hist -> 0 < copy_len st -> round_ok st bs hist (round st bs).
Proof.
  intros [Hw Hc Hf Hs] Hpos. unfold round. rewrite (proj2 (Z.ltb_lt _ _)) by done. cbv zeta. destruct (Hf Hpos) as [Hf1 Hf2].
  rewrite (window_lookup st hist) by done. set (b := nth _ hist 0). cbn [round_ok ret].
  assert (copied (set_copy (emit st b) (copy_len (emit st b) - 1) (copy_dist (emit st b))) (hist ++ [b]) = copied st hist) as Hcop.
  { unfold copied. cbn [copy_len copy_dist set_copy emit].
    replace (Z.to_nat (copy_len st)) with (S (Z.to_nat (copy_len st - 1))) by lia. done. }
  split; [constructor|split; [|split]].
  - exact (emit_windowed _ _ b Hw).
  - cbn [copy_len set_copy emit]. lia.
  - cbn [copy_len copy_dist set_copy emit]. rewrite length_app. cbn. lia.
  - exact Hs.
  - unfold rest_of. rewrite Hcop. done.
  - unfold weight. cbn [copy_len state set_copy emit]. lia.
  - cbn. lia.
Qed.

(** Moving on without output, with the same history. *)
Lemma good_state st hist s : good st hist -> match s with Stored n => 0 <= n | _ => True end -> good (set_state st s) hist.
Proof. intros [Hw Hc Hf Hs] H. by constructor. Qed.

Lemma good_emit st hist b s : good st hist -> copy_len st = 0 -> match s with Stored n => 0 <= n | _ => True end ->
  good (set_state (emit st b) s) (hist ++ [b]).
Proof.
  intros [Hw Hc Hf Hs] H0 H. constructor; [exact (emit_windowed _ _ b Hw)|exact Hc|cbn; lia|exact H].
Qed.

Lemma round_stored st bs hist n : good st hist -> copy_len st = 0 -> state st = Stored n -> round_ok st bs hist (round st bs).
Proof.
  intros Hg Hc Hs. pose proof (go_stored _ _ Hg) as Hn. rewrite Hs in Hn. unfold round. rewrite Hc, Hs. cbn [Z.ltb Z.compare].
  pose proof (copied_nothing _ hist Hc) as Hcop. destruct (Z.eqb_spec n 0) as [->|Hne].
  - cbn [round_ok ret]. rewrite app_nil_r. split; [by apply good_state|]. split; [|split].
    + unfold rest_of. by rewrite Hs.
    + unfold weight. rewrite Hs. cbn [state copy_len set_state rank]. lia.
    + cbn. lia.
  - assert (Z.to_nat n = S (Z.to_nat (n - 1))) as En by lia.
    destruct (bits bs 8) as [[[b bs1]|e]|] eqn:E; cbn [bind round_ok ret].
    + apply bits_length in E as El. split; [apply good_emit; [done|done|lia]|]. split; [|split].
      * unfold rest_of. cbn [state set_state last emit]. rewrite Hs, Hcop, En. cbn [stored]. rewrite E. cbn [bind].
        f_equal. unfold copied. cbn [copy_len set_state emit]. by rewrite Hc.
      * unfold weight. rewrite Hs. cbn [state copy_len set_state emit rank]. lia.
      * cbn. lia.
    + unfold rest_of. rewrite Hs, Hcop, En. cbn [stored]. by rewrite E.
    + cbn [bits list_Bits] in E. by destruct (_ <? _)%nat in E.
Qed.

Lemma decode_runs h bs : decode h bs <> None.
Proof.
  unfold decode. generalize (drop 1 (h_count h)). generalize 0 at 1. generalize 0 at 1. generalize 0. intros x y z cs.
  revert x y z bs. induction cs as [|c cs IH]; intros x y z bs; cbn [decode_loop]; [done|].
  cbn [bits list_Bits]. destruct (_ <? 1)%nat; cbn [bind corrupt stop ret]; [done|]. destruct (_ <? _); [|apply IH].
  by destruct (if _ <? 0 then None else _).
Qed.

Lemma based_runs bases extras i (bs : list bool) why : based bases extras i bs why <> None.
Proof.
  unfold based. destruct (bases !! _); [|done]. destruct (extras !! _); [|done]. cbn [bits list_Bits]. by destruct (_ <? _)%nat.
Qed.

Lemma round_codes st bs hist : good st hist -> copy_len st = 0 -> state st = Codes -> round_ok st bs hist (round st bs).
Proof.
  intros Hg Hc Hs. unfold round. rewrite Hc, Hs. cbn [Z.ltb Z.compare].
  assert (rest_of st bs hist = onward (last st) (codes (S (length bs)) (lit st) (dist st) bs hist)) as Hrest.
  { unfold rest_of. by rewrite Hs, copied_nothing. }
  unfold round_ok. rewrite Hrest. clear Hrest. cbn [codes]. unfold symbol.
  destruct (decode (lit st) bs) as [[[s bs1]|e]|] eqn:E1; cbn [bind]; [|done|by apply decode_runs in E1].
  apply decode_shrinks in E1. destruct (s <? 256).
  { cbn [bind ret]. split; [|split; [|split]].
    - pose proof (good_emit st hist s Codes Hg Hc I) as H. destruct st. cbn in *. by subst.
    - unfold rest_of. cbn [state emit]. rewrite Hs, copied_nothing by done. cbn [last lit dist emit].
      f_equal. by apply codes_enough; lia.
    - unfold weight. cbn [copy_len state emit]. lia.
    - cbn. lia. }
  destruct (s =? 256).
  { cbn [bind ret]. rewrite app_nil_r. split; [by apply good_state|]. split; [|split; [|cbn; lia]].
    - unfold rest_of. cbn [state set_state last]. by rewrite copied_nothing.
    - unfold weight. cbn [copy_len state set_state rank]. lia. }
  destruct (based LEN_BASE _ _ bs1 _) as [[[n bs2]|e]|] eqn:E2; cbn [bind]; [|done|by apply based_runs in E2].
  apply length_range in E2 as Hn. apply based_shrinks in E2.
  destruct (decode (dist st) bs2) as [[[d bs3]|e]|] eqn:E3; cbn [bind]; [|done|by apply decode_runs in E3].
  apply decode_shrinks in E3.
  destruct (based DIST_BASE _ _ bs3 _) as [[[far bs4]|e]|] eqn:E4; cbn [bind]; [|done|by apply based_runs in E4].
  apply distance_range in E4 as Hf. apply based_shrinks in E4.
  destruct Hg as [(Hw & Hp & Ht & Hh) Hcl Hfar Hst]. unfold WSIZE in Hf. rewrite Ht.
  destruct (Z.ltb_spec (Z.min U64_MAX (Z.of_nat (length hist))) far) as [Hlt|Hge],
           (Z.ltb_spec (Z.of_nat (length hist)) far); unfold U64_MAX in *; try lia; cbn [bind corrupt stop ret]; [done|].
  rewrite app_nil_r. split; [|split; [|split; [|cbn; lia]]].
  - constructor; cbn [copy_len copy_dist set_copy state]; [done|lia| |by rewrite Hs]. intros _. unfold WSIZE. lia.
  - unfold rest_of. cbn [state set_copy last lit dist]. rewrite Hs. unfold copied. cbn [copy_len copy_dist set_copy].
    f_equal. apply codes_enough; lia.
  - unfold weight. cbn [copy_len state set_copy]. rewrite Hs. lia.
Qed.

Lemma read_cl_runs order : forall cl (bs : list bool), read_cl order cl bs <> None.
Proof.
  induction order as [|i order IH]; intros cl bs; cbn [read_cl]; [done|]. cbn [bits list_Bits].
  destruct (_ <? 3)%nat; cbn [bind corrupt stop ret]; [done|]. apply IH.
Qed.

Lemma read_lengths_runs f clcode total : forall i ls (bs : list bool), read_lengths f clcode total i ls bs <> None.
Proof.
  induction f as [|f IH]; intros i ls bs; cbn [read_lengths]; [done|]. destruct (i <? total)%nat; [|done].
  destruct (decode clcode bs) as [[[s bs1]|e]|] eqn:E; cbn [bind]; [|done|by apply decode_runs in E].
  destruct (s <? 16); [apply IH|]. cbn [bits list_Bits].
  destruct (s =? 16); [destruct i as [|p]; [done|]; destruct (ls !! p); [|done]|destruct (s =? 17)];
    (destruct (_ <? _)%nat; cbn [bind corrupt stop ret]; [done|]; cbv zeta; destruct (total <? _)%nat; [done|apply IH]).
Qed.

Lemma dynamic_runs (bs : list bool) : dynamic bs <> None.
Proof.
  unfold dynamic. cbn [bits list_Bits]. destruct (_ <? 5)%nat; cbn [bind corrupt stop ret]; [done|].
  destruct (_ <? 5)%nat; cbn [bind corrupt stop ret]; [done|]. destruct (_ <? 4)%nat; cbn [bind corrupt stop ret]; [done|].
  cbv zeta. destruct (_ || _); [done|].
  destruct (read_cl _ _ _) as [[[cl bs1]|e]|] eqn:E; cbn [bind]; [|done|by apply read_cl_runs in E].
  destruct (Huffman_new cl); cbn [bind]; [|done].
  destruct (read_lengths _ _ _ _ _ _) as [[[ls bs2]|e]|] eqn:E2; cbn [bind]; [|done|by apply read_lengths_runs in E2].
  destruct (_ =? 0); [done|]. destruct (Huffman_new _); cbn [bind]; [|done]. by destruct (Huffman_new _).
Qed.

Lemma bits_runs (bs : list bool) n : bits bs n <> None.
Proof. cbn [bits list_Bits]. by destruct (_ <? _)%nat. Qed.

(** A block behind its header. *)
Lemma block_state st0 l kind bs hist : good st0 hist -> copy_len st0 = 0 ->
  let st := set_last st0 l in
  match (if kind =? 0 then
           let! (n, bs) := bits (align bs) 16 in
           let! (m, bs) := bits bs 16 in
           if negb (n =? Z.land (Z.lxor m U32_MAX) 65535)
           then corrupt "stored block length does not match its complement"
           else ret (set_state st (Stored n), bs)
         else if kind =? 1 then let! (l, d) := Some fixed in ret (set_state (set_codes st l d) Codes, bs)
         else if kind =? 2 then let! (l, d, bs) := dynamic bs in ret (set_state (set_codes st l d) Codes, bs)
         else corrupt "invalid block type") with
  | Some (Ok (st', bs')) =>
      good st' hist /\ rest_of st' bs' hist = onward l (block kind bs hist) /\ copy_len st' = 0
      /\ (length bs' <= length bs)%nat
  | Some (Err e) => onward l (block kind bs hist) = stop e
  | None => False
  end.
Proof.
  intros Hg Hc st. assert (good st hist) as Hg' by (by destruct Hg). unfold block. destruct (kind =? 0).
  - pose proof (align_shrinks bs) as Ha. destruct (bits (align bs) 16) as [[[n bs1]|e]|] eqn:E; cbn [bind]; [|done|by apply bits_runs in E].
    apply bits_shrinks in E as Hn. apply bits_length in E.
    destruct (bits bs1 16) as [[[m bs2]|e]|] eqn:E2; cbn [bind]; [|done|by apply bits_runs in E2]. apply bits_length in E2.
    destruct (negb _); cbn [corrupt stop ret]; [done|]. split; [apply good_state; [done|lia]|]. split; [|split; [done|lia]].
    unfold rest_of. cbn [state set_state last set_last st]. by rewrite copied_nothing.
  - destruct (kind =? 1); [|destruct (kind =? 2); [|done]].
    + destruct fixed as [[x y]|e]; cbn [bind ret]; [|done].
      split; [by destruct Hg'|]. split; [|split; [done|lia]]. unfold rest_of. cbn [state set_state last set_codes set_last lit dist st].
      by rewrite copied_nothing.
    + destruct (dynamic bs) as [[[[x y] bs1]|e]|] eqn:E; cbn [bind ret]; [|done|by apply dynamic_runs in E].
      apply dynamic_shrinks in E. split; [by destruct Hg'|]. split; [|split; [done|lia]].
      unfold rest_of. cbn [state set_state last set_codes set_last lit dist st]. by rewrite copied_nothing.
Qed.

Lemma round_header st bs hist : good st hist -> copy_len st = 0 -> state st = Header -> round_ok st bs hist (round st bs).
Proof.
  intros Hg Hc Hs. unfold round. rewrite Hc, Hs. cbn [Z.ltb Z.compare]. pose proof (copied_nothing _ hist Hc) as Hcop.
  assert (rest_of st bs hist = onward (last st) (ret (hist, bs))) as Hrest by (unfold rest_of; by rewrite Hs, Hcop).
  unfold round_ok, header. rewrite Hrest. clear Hrest. destruct (last st) eqn:Hl.
  - cbn [bind ret]. rewrite app_nil_r. split; [by apply good_state|]. split; [|split; [|cbn; lia]].
    + unfold rest_of, onward. cbn [state set_state bind ret]. by rewrite copied_nothing.
    + unfold weight. cbn [copy_len state set_state rank]. rewrite Hs. cbn [rank]. lia.
  - unfold onward. cbn [bind ret blocks].
    destruct (bits bs 1) as [[[l bs1]|e]|] eqn:E; cbn [bind]; [|done|by apply bits_runs in E]. apply bits_length in E.
    destruct (bits bs1 2) as [[[k bs2]|e]|] eqn:E2; cbn [bind]; [|done|by apply bits_runs in E2]. apply bits_length in E2.
    assert ((let! (hist, bs0) := block k bs2 hist in if l =? 1 then ret (hist, bs0) else blocks (length bs) bs0 hist)
            = onward (l =? 1) (block k bs2 hist)) as ->.
    { unfold onward. destruct (block k bs2 hist) as [[[h b]|e]|] eqn:E3; cbn [bind]; [|done|done].
      apply block_shrinks in E3. destruct (l =? 1); [done|]. apply blocks_enough; lia. }
    pose proof (block_state st (l =? 1) k bs2 hist Hg Hc) as H. cbv zeta in *.
    destruct (if k =? 0 then _ else _) as [[[st' bs']|e]|]; cbn [bind ret]; [|done|done].
    destruct H as (Hg' & Hr & Hc' & Hle). rewrite app_nil_r. split; [done|]. split; [done|]. split; [|cbn; lia].
    unfold weight. rewrite Hc, Hc'. destruct (state st'); cbn [rank]; lia.
Qed.

Lemma round_good st bs hist : good st hist -> round_ok st bs hist (round st bs).
Proof.
  intros Hg. destruct (Z.ltb_spec 0 (copy_len st)) as [Hpos|Hz]; [by apply round_copy|].
  assert (copy_len st = 0) as Hc by (pose proof (go_copy _ _ Hg); lia).
  destruct (state st) eqn:Hs; [by apply round_header|by eapply round_stored|by apply round_codes|].
  unfold round. rewrite Hc, Hs. cbn. split; [done|]. split; [done|]. split.
  - unfold is_done. by rewrite Hs, Hc.
  - unfold rest_of. by rewrite Hs, copied_nothing.
Qed.

(** ** Reading *)

(** The history only grows. *)
Lemma copy_back_grows n far : forall hist, hist `prefix_of` copy_back n far hist.
Proof. induction n as [|n IH]; intros hist; cbn [copy_back]; [done|]. etrans; [|apply IH]. by apply prefix_app_r. Qed.

Lemma stored_grows n : forall bs hist h' bs', stored n bs hist = ret (h', bs') -> hist `prefix_of` h'.
Proof.
  induction n as [|n IH]; intros bs hist h' bs'; cbn [stored]; [by intros [= <- _]|].
  intros ([b bs1] & _ & H%IH)%bind_ret. etrans; [|exact H]. by apply prefix_app_r.
Qed.

Lemma codes_grows f : forall l d bs hist h' bs', codes f l d bs hist = ret (h', bs') -> hist `prefix_of` h'.
Proof.
  induction f as [|f IH]; intros l d bs hist h' bs'; cbn [codes]; [done|].
  intros ([s bs1] & _ & H)%bind_ret. destruct (s <? 256).
  { apply IH in H. etrans; [|exact H]. by apply prefix_app_r. }
  destruct (s =? 256); [by injection H as <- _|]. apply bind_ret in H as ([n bs2] & _ & H).
  apply bind_ret in H as ([x bs3] & _ & H). apply bind_ret in H as ([far bs4] & _ & H).
  destruct (_ <? far); [done|]. apply IH in H. etrans; [apply copy_back_grows|exact H].
Qed.

Lemma block_grows kind bs hist h' bs' : block kind bs hist = ret (h', bs') -> hist `prefix_of` h'.
Proof.
  unfold block. destruct (kind =? 0).
  - intros ([n bs1] & _ & H)%bind_ret. apply bind_ret in H as ([m bs2] & _ & H). destruct (negb _); [done|].
    by apply stored_grows in H.
  - destruct (kind =? 1); [|destruct (kind =? 2); [|done]].
    + intros ([l d] & _ & H)%bind_ret. by apply codes_grows in H.
    + intros ([[l d] bs1] & _ & H)%bind_ret. by apply codes_grows in H.
Qed.

Lemma blocks_grows f : forall bs hist h' bs', blocks f bs hist = ret (h', bs') -> hist `prefix_of` h'.
Proof.
  induction f as [|f IH]; intros bs hist h' bs'; cbn [blocks]; [done|]. intros ([l bs1] & _ & H)%bind_ret.
  apply bind_ret in H as ([k bs2] & _ & H). apply bind_ret in H as ([h bs3] & E%block_grows & H).
  destruct (l =? 1); [by injection H as <- _|]. apply IH in H. by etrans.
Qed.

Lemma rest_grows st bs hist h' rest : rest_of st bs hist = ret (h', rest) -> hist `prefix_of` h'.
Proof.
  assert (forall b r, onward b r = ret (h', rest) -> exists h bs, r = ret (h, bs) /\ h `prefix_of` h') as Hon.
  { intros b r. unfold onward. intros ([h bs1] & -> & H)%bind_ret. exists h, bs1. split; [done|].
    destruct b; [by injection H as <- _|by apply blocks_grows in H]. }
  assert (hist `prefix_of` copied st hist) as Hc by apply copy_back_grows.
  unfold rest_of. destruct (state st).
  - intros (h & bs1 & E & H)%Hon. injection E as <- _. by etrans.
  - intros (h & bs1 & E%stored_grows & H)%Hon. by do 2 (etrans; [eassumption|]).
  - intros (h & bs1 & E%codes_grows & H)%Hon. by do 2 (etrans; [eassumption|]).
  - intros [= <- _]. done.
Qed.

(** ** Reading *)

(** A read goes on with the rest of the reference, and stops early only at its end. *)
Lemma read_loop_rest f max : forall st bs hist out, good st hist -> (length out <= max)%nat ->
  match read_loop f max st bs out with
  | Some (Ok (out', st', bs')) => exists more, out' = out ++ more /\ (length out' <= max)%nat
      /\ good st' (hist ++ more) /\ rest_of st' bs' (hist ++ more) = rest_of st bs hist
      /\ (weight st' bs' <= weight st bs)%nat
      /\ ((length out' < max)%nat -> is_done st' = true /\ rest_of st bs hist = ret (hist ++ more, bs'))
  | Some (Err e) => rest_of st bs hist = stop e
  | None => (f <= weight st bs)%nat
  end.
Proof.
  induction f as [|f IH]; intros st bs hist out Hg Ho; cbn [read_loop]; [lia|].
  destruct (Nat.ltb_spec (length out) max) as [Hlt|Hge].
  2:{ exists []. rewrite !app_nil_r. split; [done|]. split; [done|]. split; [done|]. split; [done|]. split; [done|]. lia. }
  pose proof (round_good st bs hist Hg) as H. destruct (round st bs) as [[[[o st'] bs']|e]|]; cbn [bind]; [|done|done].
  destruct o as [out'|]; cbn [round_ok] in H.
  - destruct H as (Hg' & Hr & Hw & Hl). specialize (IH st' bs' (hist ++ out') (out ++ out') Hg').
    rewrite length_app in IH at 1. specialize (IH ltac:(lia)). rewrite Hr in IH.
    destruct (read_loop f max st' bs' (out ++ out')) as [[[[o2 st2] bs2]|e]|]; [|done|lia].
    destruct IH as (more & -> & Hlen & Hg2 & Hr2 & Hw2 & Hd). exists (out' ++ more). rewrite <- !app_assoc in *.
    split; [done|]. split; [done|]. split; [done|]. split; [done|]. split; [lia|done].
  - destruct H as (-> & -> & Hd & Hr). exists []. rewrite !app_nil_r. done.
Qed.

Lemma good_new : good Inflate_new [].
Proof.
  constructor; cbn [copy_len copy_dist state Inflate_new]; [|lia|lia|done].
  unfold windowed. cbn [window wpos total Inflate_new length]. split; [apply repeat_length|]. split; [done|]. split; [done|].
  intros j b Hj. by rewrite lookup_nil in Hj.
Qed.

(** ** A raw stream is a reader *)

Section Stream.
Context {R : Type} {HR : Read R} {HL : ReadLaws R} (fuel : nat).

(** A decoder that gave [hist], of a stream of the bits [bs0]. *)
Definition tracks (bs0 : list bool) (d : Deflate R) (hist : list Z) : Prop :=
  exists bs, gives (br d) bs /\ good (inflate d) hist /\ (weight (inflate d) bs < fuel)%nat
    /\ finish (rest_of (inflate d) bs hist) = reference bs0.

Lemma tracks_new r l : yields r l -> Forall is_byte l -> (1 + 2400 * length l < fuel)%nat ->
  tracks (bytes_bits l) (Deflate_new r) [].
Proof.
  intros Hr Hl Hf. exists (bytes_bits l). cbn [br inflate Deflate_new]. split; [by apply gives_new|]. split; [apply good_new|].
  split; [|done]. unfold weight. cbn [copy_len state Inflate_new rank]. rewrite length_bytes_bits. lia.
Qed.

(** One read: it gives what follows in the reference, at most what the buffer takes; it gives
    nothing only at the end, and fails only as the reference fails. *)
Lemma deflate_read_tracks bs0 d hist n : tracks bs0 d hist ->
  match deflate_read fuel d n with
  | Some (Ok (out, d')) => tracks bs0 d' (hist ++ out) /\ (length out <= n)%nat
      /\ (out = [] -> n = 0%nat \/ reference bs0 = ret hist)
  | Some (Err e) => reference bs0 = stop e
  | None => False
  end.
Proof.
  intros (bs & Hb & Hg & Hf & Hr). unfold deflate_read.
  pose proof (read_loop_rest fuel n (inflate d) bs hist [] Hg ltac:(cbn; lia)) as Hrun.
  pose proof (read_loop_similar fuel n (inflate d) (br d) bs [] Hb) as H.
  destruct (read_loop fuel n (inflate d) bs []) as [[[[out st] bs']|e]|]; [| |lia].
  2:{ destruct (read_loop fuel n (inflate d) (br d) []) as [[[? ?]|e']|]; cbn [similar] in H; [done| |done].
      subst e'. cbn [bind]. by rewrite <- Hr, Hrun. }
  destruct (read_loop fuel n (inflate d) (br d) []) as [[[[out' st'] b]|e]|]; cbn [similar] in H; [|done|done].
  destruct H as [[= -> ->] Hb']. cbn [bind]. destruct Hrun as (more & -> & Hlen & Hg' & Hr' & Hw & Hd). cbn [app] in *.
  assert (tracks bs0 (mk_deflate b st) (hist ++ more)) as Htr.
  { exists bs'. cbn [br inflate]. split; [done|]. split; [done|]. split; [lia|]. by rewrite Hr'. }
  destruct (Nat.eqb_spec (length more) 0) as [H0|H0]; cbn [andb].
  2:{ split; [done|]. split; [done|]. intros ->. done. }
  apply length_zero_iff_nil in H0 as ->. rewrite app_nil_r in *.
  destruct (Nat.eqb_spec n 0) as [->|Hn]; cbn [negb ret]; [rewrite app_nil_r; split; [done|]; split; [done|]; by left|].
  destruct (Hd ltac:(cbn; lia)) as [Hdone Hfin]. rewrite Hdone. cbn [negb]. rewrite Hfin in Hr. cbn [finish bind ret] in Hr.
  pose proof (align_law b bs' Hb') as Hal. set (al := align bs') in *.
  pose proof (at_end_law (align b) al Hal) as H. cbn [at_end list_Bits] in H.
  destruct (at_end (align b)) as [[[e b']|e]|]; cbn [similar ret] in H; [|done|done]. destruct H as [-> Hb2].
  cbn [bind]. destruct al as [|x l]; cbn [length Nat.eqb corrupt stop ret]; [|by rewrite <- Hr].
  rewrite app_nil_r. split; [|split; [done|]; intros _; right; by rewrite <- Hr].
  exists []. cbn [br inflate]. split; [done|]. split; [done|]. unfold is_done in Hdone. destruct (state st) eqn:Es; try done.
  apply Z.eqb_eq in Hdone. split; [unfold weight; rewrite Hdone, Es; cbn; lia|].
  unfold rest_of. rewrite Es, copied_nothing by done. cbn [finish bind ret align list_Bits]. by rewrite drop_nil.
Qed.

(** What was given is the start of what the reference gives. *)
Lemma tracks_prefix bs0 d hist all : tracks bs0 d hist -> reference bs0 = ret all -> hist `prefix_of` all.
Proof.
  intros (bs & _ & _ & _ & Hr) Hall. rewrite Hall in Hr. apply bind_ret in Hr as ([h rest] & Hr & H).
  apply rest_grows in Hr. destruct (align rest); [|done]. by injection H as ->.
Qed.

#[export] Program Instance deflate_laws : @ReadLaws (Deflate R) (deflate_read fuel) :=
  {| yields d l := exists bs0 hist, tracks bs0 d hist /\ reference bs0 = ret (hist ++ l) |}.
Next Obligation.
  intros d l n (bs0 & hist & Ht & Hall). pose proof (deflate_read_tracks bs0 d hist n Ht) as H. unfold read.
  destruct (deflate_read fuel d n) as [[[out d']|e]|]; [|by rewrite Hall in H|done].
  destruct H as (Ht' & Hl & He). pose proof (tracks_prefix _ _ _ _ Ht' Hall) as [l' Hp].
  rewrite <- app_assoc in Hp. apply app_inv_head in Hp as ->. exists out, d', l'. split; [done|]. split; [done|].
  split; [exists bs0, (hist ++ out); split; [done|]; by rewrite <- app_assoc|]. split; [done|].
  intros Hnil. destruct (He Hnil) as [|Href]; [by left|]. right. rewrite Hall in Href. injection Href as Href.
  rewrite <- (app_nil_r hist) in Href at 2. by apply app_inv_head in Href.
Qed.

(** Reads with buffers of these sizes, up to the first that gives nothing. *)
Fixpoint collect (ns : list nat) (d : Deflate R) (got : list Z) : Run (list Z * bool) :=
  match ns with
  | [] => ret (got, false)
  | n :: ns =>
      let! (out, d) := deflate_read fuel d n in
      match out with [] => ret (got, true) | _ => collect ns d (got ++ out) end
  end.

Lemma collect_tracks bs0 ns : forall d got, tracks bs0 d got -> Forall (fun n => 0 < n)%nat ns ->
  match collect ns d got with
  | Some (Ok (all, true)) => reference bs0 = ret all
  | Some (Ok (part, false)) => (length got + length ns <= length part)%nat
      /\ forall all, reference bs0 = ret all -> part `prefix_of` all
  | Some (Err e) => reference bs0 = stop e
  | None => False
  end.
Proof.
  induction ns as [|n ns IH]; intros d got Ht Hns; cbn [collect].
  - cbn [ret length]. split; [lia|]. intros all Hall. by eapply tracks_prefix.
  - apply Forall_cons in Hns as [Hn Hns]. pose proof (deflate_read_tracks bs0 d got n Ht) as H.
    destruct (deflate_read fuel d n) as [[[out d']|e]|]; cbn [bind]; [|done|done].
    destruct H as (Ht' & Hl & He). destruct out as [|x out]; [destruct (He eq_refl); [lia|done]|].
    specialize (IH d' (got ++ x :: out) Ht' Hns). destruct (collect ns d' _) as [[[part [|]]|e]|]; try done.
    destruct IH as [Hlen Hpre]. split; [|done]. rewrite length_app in Hlen. cbn [length] in *. lia.
Qed.

(** C20: The decoder of DEFLATE with its window of 32 KiB gives, whatever the sizes of the buffers
    it is read with and however its source cuts the input, exactly the bytes that the reference
    with its whole history gives: it ends when that ends, fails as that fails, and never runs out
    of fuel. *)
Theorem inflate_refines_reference r l ns :
  yields r l -> Forall is_byte l -> (1 + 2400 * length l < fuel)%nat -> Forall (fun n => 0 < n)%nat ns ->
  match collect ns (Deflate_new r) [] with
  | Some (Ok (all, true)) => reference (bytes_bits l) = ret all
  | Some (Ok (part, false)) => (length ns <= length part)%nat
      /\ forall all, reference (bytes_bits l) = ret all -> part `prefix_of` all
  | Some (Err e) => reference (bytes_bits l) = stop e
  | None => False
  end.
Proof. intros Hr Hl Hf Hns. by apply (collect_tracks _ ns _ []); [apply tracks_new|]. Qed.

End Stream.

(** ** A stream with a copy that overlaps itself *)

Definition sample_stream : list Z := [203; 72; 205; 201; 201; 87; 200; 64; 39; 1].
Definition sample_text : list Z := flat_map (fun w => w) [[104; 101; 108; 108; 111]; [32]; [104; 101; 108; 108; 111]; [32];
  [104; 101; 108; 108; 111]; [32]; [104; 101; 108; 108; 111]].

Lemma inflate_refines_reference_witness : reference (bytes_bits sample_stream) = ret sample_text.
Proof.
  pose proof (inflate_refines_reference (R := list Z) (Z.to_nat 24100) sample_stream sample_stream [5; 7; 1; 100; 9]%nat) as H.
  assert (collect (R := list Z) (Z.to_nat 24100) [5; 7; 1; 100; 9]%nat (Deflate_new sample_stream) [] = ret (sample_text, true)) as E
    by (vm_compute; reflexivity).
  rewrite E in H. apply H.
  - reflexivity.
  - unfold sample_stream, is_byte. repeat constructor; lia.
  - cbn [length sample_stream]. lia.
  - repeat constructor; lia.
Defined.

(** * HuffmanOk: the codes are those of RFC 1951

    The tables of a code are built from the lengths of its symbols alone.  Decoding bit by bit
    reads a symbol exactly where the input starts with the code that the RFC assigns to it:
    codes of one length count up in the order of the symbols, and each length starts behind
    the shorter ones. *)

(** ** The codes of the RFC *)

(** How many symbols have length [l]. *)
Fixpoint count_of (lengths : list Z) (l : Z) : Z :=
  match lengths with [] => 0 | x :: lengths => (if x =? l then 1 else 0) + count_of lengths l end.

(** [bl_count]: the symbols of length zero have no code. *)
Definition coded (lengths : list Z) (l : nat) : Z := match l with O => 0 | _ => count_of lengths (Z.of_nat l) end.

(** [next_code]: [code = (code + bl_count[bits - 1]) << 1] *)
Fixpoint first_code (lengths : list Z) (l : nat) : Z :=
  match l with O => 0 | S k => 2 * (first_code lengths k + coded lengths k) end.

(** The symbols with shorter codes. *)
Fixpoint shorter (lengths : list Z) (l : nat) : Z :=
  match l with O => 0 | S k => shorter lengths k + coded lengths k end.

(** The code of a symbol of length [l]: the first of its length, and one more for each symbol
    of this length before it. *)
Definition code_of (lengths : list Z) (s : nat) (l : nat) : Z :=
  first_code lengths l + count_of (take s lengths) (Z.of_nat l).

(** A code of [l] bits, the highest first. *)
Definition code_bits (l : nat) (c : Z) : list bool := rev (z_bits l c).

(** ** The tables *)

Lemma count_of_app a b l : count_of (a ++ b) l = count_of a l + count_of b l.
Proof. induction a as [|x a IH]; cbn; [done|]. rewrite IH. lia. Qed.

Lemma count_of_nonneg lengths l : 0 <= count_of lengths l.
Proof. induction lengths as [|x lengths IH]; cbn; [done|]. destruct (x =? l); lia. Qed.

Lemma coded_nonneg lengths l : 0 <= coded lengths l.
Proof. destruct l; [done|]. apply count_of_nonneg. Qed.

Lemma count_of_take lengths s l : lengths !! s = Some l -> count_of (take s lengths) l + 1 <= count_of lengths l.
Proof.
  intros H. rewrite <- (take_drop_middle _ _ _ H) at 2. rewrite count_of_app. cbn. rewrite Z.eqb_refl.
  pose proof (count_of_nonneg (drop (S s) lengths) l). lia.
Qed.

(** The symbol of a length and a rank. *)
Lemma count_of_find lengths l r : 0 <= r < count_of lengths l ->
  exists s, lengths !! s = Some l /\ count_of (take s lengths) l = r.
Proof.
  induction lengths as [|x lengths IH] using rev_ind; cbn; [lia|]. rewrite count_of_app. cbn. intros H.
  destruct (decide (r < count_of lengths l)) as [Hr|Hr].
  - destruct (IH ltac:(lia)) as (s & Hs & Hc). exists s. assert (s < length lengths)%nat as Hl by by eapply lookup_lt_Some.
    rewrite lookup_app_l, take_app_le by lia. done.
  - destruct (Z.eqb_spec x l) as [->|]; [|lia]. exists (length lengths). rewrite list_lookup_middle, take_app_length by done.
    split; [done|lia].
Qed.

(** A rank names one symbol. *)
Lemma count_of_inj lengths l s t : lengths !! s = Some l -> lengths !! t = Some l ->
  count_of (take s lengths) l = count_of (take t lengths) l -> s = t.
Proof.
  assert (forall s t, lengths !! s = Some l -> (s < t)%nat -> count_of (take s lengths) l < count_of (take t lengths) l) as H.
  { intros a b Ha Hab. assert (take b lengths !! a = Some l) as Ha' by (by rewrite lookup_take_lt).
    apply count_of_take in Ha'. rewrite take_take, Nat.min_l in Ha' by lia. lia. }
  intros Hs Ht He. destruct (Nat.lt_trichotomy s t) as [Hl|[|Hl]]; [|done|].
  - specialize (H s t Hs Hl). lia.
  - specialize (H t s Ht Hl). lia.
Qed.

Lemma count_lengths_from lengths : forall count k, (k < length count)%nat ->
  fold_left (fun count l => alter (Z.add 1) (Z.to_nat l) count) lengths count !! k
  = (fun c => c + fold_right (fun l n => (if decide (Z.to_nat l = k) then 1 else 0) + n) 0 lengths) <$> (count !! k).
Proof.
  induction lengths as [|x lengths IH]; intros count k Hk; cbn [fold_left fold_right].
  - destruct (count !! k); cbn; [|done]. f_equal. lia.
  - rewrite IH by (by rewrite length_alter). destruct (decide (Z.to_nat x = k)) as [->|Hne].
    + rewrite list_lookup_alter_eq. destruct (count !! k); cbn; [|done]. f_equal. lia.
    + rewrite list_lookup_alter_ne by done. destruct (count !! k); cbn; [|done]. f_equal.
Qed.

(** Lengths that the table has room for. *)
Definition lengths_ok (lengths : list Z) : Prop := Forall (fun l => 0 <= l <= 15) lengths.

Lemma count_lengths_spec lengths k : lengths_ok lengths -> (k <= 15)%nat ->
  count_lengths lengths !! k = Some (count_of lengths (Z.of_nat k)).
Proof.
  intros Hok Hk. unfold count_lengths. rewrite count_lengths_from by (rewrite repeat_length; unfold MAXBITS; lia).
  rewrite repeat_lookup by (unfold MAXBITS; lia). cbn [fmap option_fmap option_map]. f_equal. rewrite Z.add_0_l.
  induction Hok as [|x lengths Hx _ IH]; cbn [fold_right count_of]; [done|]. rewrite IH.
  destruct (decide (Z.to_nat x = k)), (Z.eqb_spec x (Z.of_nat k)); lia.
Qed.

Lemma count_lengths_length lengths : length (count_lengths lengths) = 16%nat.
Proof.
  unfold count_lengths. generalize (repeat_length 0 (S MAXBITS)). generalize (repeat 0 (S MAXBITS)).
  induction lengths as [|x lengths IH]; intros c Hc; cbn; [done|]. apply IH. by rewrite length_alter.
Qed.

Lemma offsets_spec lengths : lengths_ok lengths ->
  length (offsets (count_lengths lengths)) = 16%nat
  /\ forall k, (1 <= k <= 15)%nat -> offsets (count_lengths lengths) !! k = Some (shorter lengths k).
Proof.
  intros Hok. unfold offsets. set (step := fun offs l => _).
  assert (forall n, (n <= 14)%nat -> let offs := fold_left step (seq 1 n) (repeat 0 (S MAXBITS)) in
    length offs = 16%nat /\ forall k, (1 <= k <= S n)%nat -> offs !! k = Some (shorter lengths k)) as H.
  { induction n as [|n IH]; intros Hn offs.
    - split; [apply repeat_length|]. intros k Hk. assert (k = 1%nat) as -> by lia. done.
    - unfold offs. rewrite seq_S, fold_left_app. destruct (IH ltac:(lia)) as [Hl Hk].
      set (offs' := fold_left step (seq 1 n) _) in *. cbn [fold_left].
      assert (step offs' (1 + n)%nat = <[S (1 + n) := shorter lengths (1 + n) + count_of lengths (Z.of_nat (1 + n))]> offs') as ->.
      { unfold step. by rewrite (Hk (1 + n)%nat), count_lengths_spec by (done || lia). }
      split; [by rewrite length_insert|].
      intros k Hk'. destruct (decide (k = S (1 + n))) as [->|Hne].
      + rewrite list_lookup_insert_eq by lia. done.
      + rewrite list_lookup_insert_ne by done. apply Hk. lia. }
  apply (H 14%nat). lia.
Qed.

(** ** Every symbol has its place *)

Lemma shorter_mono lengths l k : (l < k)%nat -> shorter lengths l + coded lengths l <= shorter lengths k.
Proof.
  induction k as [|k IH]; [lia|]. intros H. cbn [shorter]. pose proof (coded_nonneg lengths k).
  destruct (decide (l = k)) as [->|]; [lia|]. specialize (IH ltac:(lia)). lia.
Qed.

Lemma shorter_cons x lengths k :
  shorter (x :: lengths) k = shorter lengths k + (if (1 <=? x) && (x <? Z.of_nat k) then 1 else 0).
Proof.
  induction k as [|k IH].
  - cbn [shorter]. destruct (Z.leb_spec 1 x), (Z.ltb_spec x (Z.of_nat 0)); cbn [andb]; lia.
  - cbn [shorter]. rewrite IH. destruct k as [|k]; cbn [coded count_of].
    + destruct (Z.leb_spec 1 x), (Z.ltb_spec x (Z.of_nat 0)), (Z.ltb_spec x (Z.of_nat 1)); cbn [andb]; lia.
    + destruct (Z.leb_spec 1 x), (Z.ltb_spec x (Z.of_nat (S k))), (Z.ltb_spec x (Z.of_nat (S (S k)))),
        (Z.eqb_spec x (Z.of_nat (S k))); cbn [andb]; lia.
Qed.

Lemma shorter_bound lengths k : shorter lengths k <= Z.of_nat (length lengths).
Proof.
  induction lengths as [|x lengths IH].
  - induction k as [|k IH]; cbn [shorter]; [done|]. assert (coded [] k = 0) as -> by (by destruct k). lia.
  - rewrite shorter_cons. cbn [length]. destruct (_ && _); lia.
Qed.

(** After some symbols, those with a code are where their length and their rank say. *)
Definition placed (lengths : list Z) (n : nat) (st : list Z * list Z) : Prop :=
  length st.1 = 16%nat /\ length st.2 = length lengths
  /\ (forall l, (1 <= l <= 15)%nat -> st.1 !! l = Some (shorter lengths l + count_of (take n lengths) (Z.of_nat l)))
  /\ (forall s l, (s < n)%nat -> (1 <= l)%nat -> lengths !! s = Some (Z.of_nat l) ->
         st.2 !! Z.to_nat (shorter lengths l + count_of (take s lengths) (Z.of_nat l)) = Some (Z.of_nat s)).

Lemma shorter_nonneg lengths l : 0 <= shorter lengths l.
Proof. induction l as [|l IH]; cbn; [done|]. pose proof (coded_nonneg lengths l). lia. Qed.

Lemma place_placed lengths n st x : lengths_ok lengths -> placed lengths n st -> lengths !! n = Some x ->
  placed lengths (S n) (place st (n, x)).
Proof.
  intros Hok (Hl1 & Hl2 & Hoff & Hsym) Hx. destruct st as [offs symbol]. cbn [fst snd] in *. unfold place.
  assert (0 <= x <= 15) as Hr by (eapply Forall_lookup_1 in Hok; [exact Hok|done]).
  assert (forall l, count_of (take (S n) lengths) l = count_of (take n lengths) l + (if x =? l then 1 else 0)) as Hc.
  { intros l. rewrite (take_S_r _ _ x) by done. rewrite count_of_app. cbn. lia. }
  destruct (Z.eqb_spec x 0) as [->|Hx0].
  - split; [done|]. split; [done|]. cbn [fst snd]. split.
    + intros l Hl. rewrite Hc, Hoff by done. destruct (Z.eqb_spec 0 (Z.of_nat l)); [lia|]. f_equal. lia.
    + intros s l Hs Hl Hsl. destruct (decide (s = n)) as [->|]; [|apply Hsym; [lia|done|done]].
      rewrite Hx in Hsl. injection Hsl as Hsl. lia.
  - rewrite (Hoff (Z.to_nat x)) by lia. cbv beta iota. rewrite Z2Nat.id by lia. set (o := shorter lengths (Z.to_nat x) + _).
    assert (count_of (take n lengths) x + 1 <= count_of lengths x) as Hlt by by apply count_of_take.
    assert (coded lengths (Z.to_nat x) = count_of lengths x) as Hcx.
    { unfold coded. destruct (Z.to_nat x) eqn:E; [lia|]. rewrite <- E, Z2Nat.id by lia. done. }
    pose proof (count_of_nonneg (take n lengths) x). pose proof (shorter_nonneg lengths (Z.to_nat x)).
    assert (o < Z.of_nat (length lengths)) as Hob.
    { pose proof (shorter_bound lengths (S (Z.to_nat x))) as Hb. cbn [shorter] in Hb. lia. }
    unfold placed. cbn [fst snd]. split; [by rewrite length_insert|]. split; [by rewrite length_insert|]. split.
    + intros l Hl. rewrite Hc. destruct (decide (Z.to_nat x = l)) as [<-|Hne].
      * rewrite list_lookup_insert_eq by lia. rewrite Z2Nat.id, Z.eqb_refl by lia. f_equal. unfold o. lia.
      * rewrite list_lookup_insert_ne, Hoff by done. destruct (Z.eqb_spec x (Z.of_nat l)); [lia|]. f_equal. lia.
    + intros s l Hs Hl Hsl. destruct (decide (s = n)) as [->|Hne].
      * rewrite Hx in Hsl. injection Hsl as ->.
        replace (shorter lengths l + count_of (take n lengths) (Z.of_nat l)) with o by (unfold o; by rewrite Nat2Z.id).
        apply list_lookup_insert_eq. lia.
      * rewrite list_lookup_insert_ne; [apply Hsym; [lia|done|done]|].
        assert (Z.of_nat l <= 15) as Hl15 by (eapply Forall_lookup_1 in Hok as [_ H2]; [exact H2|exact Hsl]).
        pose proof (count_of_take _ _ _ Hsl) as Hts. pose proof (count_of_nonneg (take s lengths) (Z.of_nat l)).
        pose proof (shorter_nonneg lengths l).
        assert (coded lengths l = count_of lengths (Z.of_nat l)) as Hcl by (by destruct l; [lia|]).
        destruct (Nat.lt_trichotomy l (Z.to_nat x)) as [Hlx|[->|Hlx]].
        -- pose proof (shorter_mono lengths l (Z.to_nat x) Hlx). unfold o. lia.
        -- rewrite Z2Nat.id in * by lia. intros He. apply Hne. apply (count_of_inj lengths x); [done|done|]. unfold o in He. lia.
        -- pose proof (shorter_mono lengths (Z.to_nat x) l Hlx). unfold o. lia.
Qed.

Lemma places_placed lengths : lengths_ok lengths ->
  placed lengths (length lengths)
    (fold_left place (zip (seq 0 (length lengths)) lengths) (offsets (count_lengths lengths), repeat 0 (length lengths))).
Proof.
  intros Hok.
  assert (forall done_ todo st, done_ ++ todo = lengths -> placed lengths (length done_) st ->
    placed lengths (length lengths) (fold_left place (zip (seq (length done_) (length todo)) todo) st)) as H.
  { intros done_ todo. revert done_. induction todo as [|x todo IH]; intros done_ st <- Hst.
    - by rewrite app_nil_r in *.
    - cbn [length seq zip zip_with fold_left]. replace (S (length done_)) with (length (done_ ++ [x])) by (rewrite length_app; cbn; lia).
      specialize (IH (done_ ++ [x]) (place st (length done_, x))). rewrite <- app_assoc in IH. apply IH; [done|].
      rewrite length_app, Nat.add_1_r. apply place_placed; [done|done|]. by apply list_lookup_middle. }
  apply (H [] lengths _ eq_refl). destruct (offsets_spec lengths Hok) as [Hl Ho]. split; [done|]. split; [apply repeat_length|].
  split; [|intros s l Hs; cbn in Hs; lia]. intros l Hl'. cbn [fst length]. rewrite take_0, Ho by done. cbn [count_of]. f_equal. lia.
Qed.

(** The tables of an accepted code. *)
Lemma Huffman_new_tables lengths h : lengths_ok lengths -> Huffman_new lengths = Ok h ->
  subscribed 1 (drop 1 (count_lengths lengths)) = true /\ h_count h = count_lengths lengths
  /\ forall s l, (1 <= l)%nat -> lengths !! s = Some (Z.of_nat l) ->
       h_symbol h !! Z.to_nat (shorter lengths l + count_of (take s lengths) (Z.of_nat l)) = Some (Z.of_nat s).
Proof.
  intros Hok. unfold Huffman_new. destruct (subscribed _ _); cbn [negb]; [|done].
  pose proof (places_placed lengths Hok) as (_ & _ & _ & Hs). destruct (fold_left place _ _) as [offs symbol].
  intros [= <-]. split; [done|]. split; [done|]. intros s l Hl H. apply Hs; [by eapply lookup_lt_Some|done|done].
Qed.

(** No code is longer than its length in bits. *)
Lemma subscribed_fits lengths k : lengths_ok lengths -> subscribed 1 (drop 1 (count_lengths lengths)) = true -> (1 <= k <= 15)%nat ->
  first_code lengths k + coded lengths k <= 2 ^ Z.of_nat k.
Proof.
  intros Hok. assert (forall m j, (j + m = 15)%nat -> subscribed (2 ^ Z.of_nat j - first_code lengths j - coded lengths j) (drop (S j) (count_lengths lengths)) = true ->
    (S j <= k <= 15)%nat -> first_code lengths k + coded lengths k <= 2 ^ Z.of_nat k) as H.
  { induction m as [|m IH]; intros j Hj Hs Hk; [lia|].
    assert (count_lengths lengths !! S j = Some (coded lengths (S j))) as Hc by (rewrite count_lengths_spec by (done || lia); done).
    rewrite (drop_S _ _ _ Hc) in Hs. cbn [subscribed] in Hs.
    replace ((2 ^ Z.of_nat j - first_code lengths j - coded lengths j) * 2 - coded lengths (S j))
      with (2 ^ Z.of_nat (S j) - first_code lengths (S j) - coded lengths (S j)) in Hs
      by (cbn [first_code]; rewrite Nat2Z.inj_succ, Z.pow_succ_r by lia; lia).
    destruct (Z.ltb_spec (2 ^ Z.of_nat (S j) - first_code lengths (S j) - coded lengths (S j)) 0); [done|].
    destruct (decide (k = S j)) as [->|]; [lia|]. apply (IH (S j)); [lia|done|lia]. }
  intros Hs Hk. apply (H 15%nat 0%nat); [done|exact Hs|lia].
Qed.

(** ** Decoding *)

(** The number that bits stand for, the highest first, behind those of [p]. *)
Definition msb (p : Z) (w : list bool) : Z := fold_left (fun v b => 2 * v + Z.b2z b) w p.

Lemma msb_bounds w : forall p, p * 2 ^ Z.of_nat (length w) <= msb p w < (p + 1) * 2 ^ Z.of_nat (length w).
Proof.
  induction w as [|b w IH]; intros p; cbn [msb fold_left length]; [cbn; lia|]. fold (msb (2 * p + Z.b2z b) w).
  specialize (IH (2 * p + Z.b2z b)). rewrite Nat2Z.inj_succ, Z.pow_succ_r by lia.
  assert (0 < 2 ^ Z.of_nat (length w)) by lia. destruct b; cbn [Z.b2z] in *; nia.
Qed.

Lemma msb_rev l p : msb p (rev l) = p * 2 ^ Z.of_nat (length l) + bits_val l.
Proof.
  revert p. induction l as [|b l IH]; intros p; [cbn; lia|]. cbn [rev length]. unfold msb. rewrite fold_left_app.
  fold (msb p (rev l)). rewrite IH. cbn [fold_left bits_val fold_right]. fold (bits_val l).
  rewrite Nat2Z.inj_succ, Z.pow_succ_r by lia. lia.
Qed.

Lemma msb_code_bits l c : 0 <= c < 2 ^ Z.of_nat l -> msb 0 (code_bits l c) = c.
Proof.
  intros Hc. unfold code_bits. rewrite msb_rev, bits_val_z_bits, Z.shiftl_1_l by lia.
  change (2 ^ Z.of_nat l - 1) with (Z.pred (2 ^ Z.of_nat l)). rewrite <- Z.ones_equiv, Z.land_ones, Z.mod_small by lia. lia.
Qed.

Lemma msb_inj w : forall w' p, length w = length w' -> msb p w = msb p w' -> w = w'.
Proof.
  induction w as [|b w IH]; intros [|b' w'] p Hl H; try done. cbn [msb fold_left] in H. injection Hl as Hl.
  fold (msb (2 * p + Z.b2z b) w) in H. fold (msb (2 * p + Z.b2z b') w') in H.
  assert (b = b') as ->.
  { pose proof (msb_bounds w (2 * p + Z.b2z b)) as H1. pose proof (msb_bounds w' (2 * p + Z.b2z b')) as H2.
    rewrite Hl in H1. assert (0 < 2 ^ Z.of_nat (length w')) by lia. destruct b, b'; cbn [Z.b2z] in *; try done; nia. }
  f_equal. by apply (IH w' (2 * p + Z.b2z b')).
Qed.

Lemma first_code_mono lengths k l : (k <= l)%nat -> 
  (k < l)%nat -> (first_code lengths k + coded lengths k) * 2 ^ Z.of_nat (l - k) <= first_code lengths l.
Proof.
  intros _. induction l as [|l IH]; [lia|]. intros H. cbn [first_code]. pose proof (coded_nonneg lengths l).
  destruct (decide (k = l)) as [->|Hne]; [rewrite Nat.sub_succ_l, Nat.sub_diag by lia; cbn; lia|].
  specialize (IH ltac:(lia)). rewrite Nat.sub_succ_l, Nat2Z.inj_succ, Z.pow_succ_r by lia. lia.
Qed.

(** From the [k]-th bit on, behind the bits of [p]. *)
Definition reads_code (lengths : list Z) (k : nat) (p : Z) (bs : list bool) (s : Z) (bs' : list bool) : Prop :=
  exists l t w, (k <= l)%nat /\ s = Z.of_nat t /\ lengths !! t = Some (Z.of_nat l) /\ bs = w ++ bs'
    /\ length w = (S l - k)%nat /\ msb p w = code_of lengths t l.

Lemma decode_loop_spec lengths h : lengths_ok lengths -> Huffman_new lengths = Ok h ->
  forall m k p bs s bs', (k + m = 16)%nat -> (1 <= k)%nat -> first_code lengths k <= 2 * p ->
    decode_loop (h_symbol h) (drop k (h_count h)) (2 * p) (first_code lengths k) (shorter lengths k) bs = ret (s, bs')
    <-> reads_code lengths k p bs s bs'.
Proof.
  intros Hok Hnew. destruct (Huffman_new_tables _ _ Hok Hnew) as (Hsub & -> & Hsym).
  induction m as [|m IH]; intros k p bs s bs' Hk H1 Hp.
  - rewrite drop_ge by (rewrite count_lengths_length; lia). cbn [decode_loop]. split; [done|].
    intros (l & t & w & Hl & _ & Ht & _). eapply Forall_lookup_1 in Hok; [|exact Ht]. lia.
  - assert (count_lengths lengths !! k = Some (coded lengths k)) as Hc.
    { rewrite count_lengths_spec by (done || lia). by destruct k; [lia|]. }
    rewrite (drop_S _ _ _ Hc). cbn [decode_loop bits list_Bits].
    destruct bs as [|b bs].
    { cbn. split; [done|]. intros (l & t & w & Hl & _ & Ht & Hw & Hlen & _). symmetry in Hw. apply app_nil in Hw as [-> _].
      cbn in Hlen. lia. }
    assert (bits_val (take 1 (b :: bs)) = Z.b2z b) as Hb by (by destruct b).
    replace (length (b :: bs) <? 1)%nat with false by done. cbn [bind ret]. rewrite Hb.
    assert (Z.lor (2 * p) (Z.b2z b) = 2 * p + Z.b2z b) as ->.
    { destruct b; cbn [Z.b2z]; [|by rewrite Z.lor_0_r, Z.add_0_r]. assert (Z.land (2 * p) 1 = 0) as Hz.
      { change 1 with (Z.ones 1). rewrite Z.land_ones, Z.mul_comm by lia. apply Z_mod_mult. }
      by rewrite <- Z.lxor_lor, Z.add_nocarry_lxor. }
    set (c := 2 * p + Z.b2z b). cbv zeta. change (drop 1 (b :: bs)) with bs.
    assert (forall l t w, (k <= l)%nat -> lengths !! t = Some (Z.of_nat l) -> length w = (S l - k)%nat ->
      msb p w = code_of lengths t l -> b :: bs = w ++ bs' ->
      if c - coded lengths k <? first_code lengths k then l = k /\ w = [b] else (S k <= l)%nat) as Hcase.
    { intros l t w Hl Ht Hlen Hm Hw. destruct w as [|b' w]; [cbn in Hlen; lia|]. injection Hw as <- Hw.
      pose proof (count_of_take _ _ _ Ht) as Hrank. pose proof (count_of_nonneg (take t lengths) (Z.of_nat l)) as Hr0.
      assert (coded lengths l = count_of lengths (Z.of_nat l)) as Hcl by (by destruct l; [lia|]).
      cbn [msb fold_left] in Hm. fold c in Hm. fold (msb c w) in Hm. unfold code_of in Hm.
      destruct (Z.ltb_spec (c - coded lengths k) (first_code lengths k)) as [Hlt|Hge].
      - destruct (decide (l = k)) as [->|Hne]; [split; [done|]; destruct w; [done|cbn in Hlen; lia]|].
        exfalso. pose proof (first_code_mono lengths k l Hl ltac:(lia)) as Hmono. pose proof (msb_bounds w c) as [_ Hb2].
        assert (length w = (l - k)%nat) as Hlw by (cbn in Hlen; lia). rewrite Hlw in Hb2.
        assert ((c + 1) * 2 ^ Z.of_nat (l - k) <= (first_code lengths k + coded lengths k) * 2 ^ Z.of_nat (l - k)) by
          (apply Z.mul_le_mono_nonneg_r; lia). lia.
      - destruct (decide (l = k)) as [->|]; [|lia]. exfalso. destruct w; [|cbn in Hlen; lia]. cbn in Hm. lia. }
    destruct (Z.ltb_spec (c - coded lengths k) (first_code lengths k)) as [Hlt|Hge].
    + assert (first_code lengths k <= c) as Hfc by (unfold c; destruct b; cbn [Z.b2z]; lia).
      assert (coded lengths k = count_of lengths (Z.of_nat k)) as Hck by (by destruct k; [lia|]).
      destruct (count_of_find lengths (Z.of_nat k) (c - first_code lengths k) ltac:(lia)) as (t & Ht & Hrt).
      pose proof (shorter_nonneg lengths k). destruct (Z.ltb_spec (shorter lengths k + (c - first_code lengths k)) 0); [lia|].
      pose proof (Hsym t k H1 Ht) as Hs. rewrite Hrt in Hs. rewrite Hs. split.
      * intros [= <- <-]. exists k, t, [b]. split; [done|]. split; [done|]. split; [done|]. split; [done|].
        split; [cbn; lia|]. cbn. unfold code_of. rewrite Hrt. fold c. lia.
      * intros (l & t' & w & Hl & -> & Ht' & Hw & Hlen & Hm). destruct (Hcase l t' w Hl Ht' Hlen Hm Hw) as [-> ->].
        injection Hw as <-. do 3 f_equal. cbn in Hm. fold c in Hm. unfold code_of in Hm.
        f_equal. apply (count_of_inj lengths (Z.of_nat k)); [done|done|lia].
    + assert (Z.shiftl c 1 = 2 * c) as -> by (rewrite Z.shiftl_mul_pow2 by lia; lia).
      assert (Z.shiftl (first_code lengths k + coded lengths k) 1 = first_code lengths (S k)) as ->
        by (rewrite Z.shiftl_mul_pow2 by lia; cbn [first_code]; lia).
      change (shorter lengths k + coded lengths k) with (shorter lengths (S k)).
      rewrite (IH (S k) c bs s bs') by (cbn [first_code]; lia). split.
      * intros (l & t & w & Hl & -> & Ht & -> & Hlen & Hm). exists l, t, (b :: w). split; [lia|]. split; [done|]. split; [done|].
        split; [done|]. split; [cbn; lia|]. exact Hm.
      * intros (l & t & w & Hl & -> & Ht & Hw & Hlen & Hm). pose proof (Hcase l t w Hl Ht Hlen Hm Hw) as Hk'.
        destruct w as [|b' w]; [cbn in Hlen; lia|]. injection Hw as <- ->. exists l, t, w. split; [done|]. split; [done|].
        split; [done|]. split; [done|]. split; [cbn in Hlen; lia|]. exact Hm.
Qed.

(** A code that the decoder accepts is decoded as RFC 1951 assigns it: a symbol is read
    exactly where the input starts with its code, which counts up within each length and starts
    behind the shorter ones, and what follows is left. *)
Theorem decoding_reads_canonical_codes lengths h bs s bs' : lengths_ok lengths -> Huffman_new lengths = Ok h ->
  decode h bs = ret (s, bs')
  <-> exists l t, (1 <= l)%nat /\ s = Z.of_nat t /\ lengths !! t = Some (Z.of_nat l)
        /\ bs = code_bits l (code_of lengths t l) ++ bs'.
Proof.
  intros Hok Hnew. unfold decode. rewrite (decode_loop_spec lengths h Hok Hnew 15 1 0) by (cbn; lia).
  destruct (Huffman_new_tables _ _ Hok Hnew) as (Hsub & _ & _).
  assert (forall l t, (1 <= l)%nat -> lengths !! t = Some (Z.of_nat l) -> msb 0 (code_bits l (code_of lengths t l)) = code_of lengths t l) as Hmsb.
  { intros l t Hl Ht. apply msb_code_bits. pose proof (count_of_take _ _ _ Ht). unfold code_of.
    assert (coded lengths l = count_of lengths (Z.of_nat l)) as Hcl by (by destruct l; [lia|]).
    assert (Z.of_nat l <= 15) by (eapply Forall_lookup_1 in Hok as [_ H2]; [exact H2|exact Ht]).
    pose proof (subscribed_fits lengths l Hok Hsub ltac:(lia)). pose proof (count_of_nonneg (take t lengths) (Z.of_nat l)).
    assert (0 <= first_code lengths l); [|lia]. clear. induction l as [|l IH]; cbn [first_code]; [done|].
    pose proof (coded_nonneg lengths l). lia. }
  assert (forall l c, length (code_bits l c) = l) as Hlen by (intros; unfold code_bits; by rewrite length_rev, length_z_bits).
  split.
  - intros (l & t & w & Hl & -> & Ht & -> & Hw & Hm). exists l, t. split; [done|]. split; [done|]. split; [done|]. f_equal.
    apply (msb_inj w _ 0); [rewrite Hlen; lia|]. by rewrite Hmsb.
  - intros (l & t & Hl & -> & Ht & ->). exists l, t, (code_bits l (code_of lengths t l)). split; [done|]. split; [done|].
    split; [done|]. split; [done|]. split; [rewrite Hlen; lia|]. by apply Hmsb.
Qed.

(** The symbols 0 to 3 have the codes 10, 0, 110 and 111. *)
Definition sample_lengths : list Z := [2; 1; 3; 3].
Definition sample_code : Huffman := Eval vm_compute in match Huffman_new sample_lengths with Ok h => h | Err _ => no_codes end.

Lemma decoding_reads_canonical_codes_witness :
  decode sample_code [true; true; false; true] = ret (2, [true])
  /\ exists l t, (1 <= l)%nat /\ 2 = Z.of_nat t /\ sample_lengths !! t = Some (Z.of_nat l)
       /\ [true; true; false; true] = code_bits l (code_of sample_lengths t l) ++ [true].
Proof.
  assert (decode sample_code [true; true; false; true] = ret (2, [true])) as H by (vm_compute; reflexivity).
  split; [exact H|]. apply (decoding_reads_canonical_codes sample_lengths sample_code); [|reflexivity|exact H].
  repeat constructor; lia.
Defined.
