(* ===== verification/Zip.v ===== *)
(** * Zip: the directory and the contents of an archive

    Models [controller/src/archive/zip.rs]: reading the directory of a ZIP file with its
    extensions for large files, reading an entry against its directory record, length and
    checksum, and the writer of stored entries. *)

From Stdlib Require Import ZArith Lia String.
From S2P Require Import Prelude Text Errors Slots ArchiveIo Inflate.

Local Open Scope Z_scope.
Local Open Scope run_scope.

Definition MAX_FILES : Z := 100000.
Definition MAX_BYTES : Z := 2147483648.

Definition bad {A} (message : string) : Run A := stop (Invalid message).

(** A little-endian field of [n] bytes. *)
Definition le (n : nat) (b : list Z) (at_ : nat) : Result Z :=
  s ← ok_or (slice b at_ (at_ + n)) (Invalid "truncated ZIP field"); Ok (le_val s).
Definition le16 := le 2.
Definition le32 := le 4.
Definition le64 := le 8.

Record Entry : Type := mk_entry {
  name : string; mode : Z; size : Z; method : Z; flags : Z; compressed : Z; crc : Z; offset : Z; end_ : Z
}.

Definition ends_with_slash (s : string) : bool := match list.last (as_bytes s) with Some b => b =? 47 | None => false end.
Definition entry_directory (e : Entry) : bool := (Z.land (mode e) 61440 =? 16384) || ends_with_slash (name e).

(** ** Copying with a checksum *)

Section Copy.
Context {R W : Type} {HR : Read R} {HW : Write W}.

(** [loop]: each round takes up to 8192 bytes, until none come. *)
Fixpoint copy_loop (f : nat) (max : Z) (src : R) (output : W) (sum count : Z) : Run (Z * Z * R * W) :=
  match f with
  | O => None
  | S f =>
      let! (part, src) := read src INBUF in
      if (length part =? 0)%nat then ret (count, crc_sum sum, src, output)
      else
        match checked_add count (Z.of_nat (length part)) with
        | Some n =>
            if n <=? max then
              let sum := crc_update sum part in
              let! output := write_all output part in
              copy_loop f max src output sum n
            else bad "ZIP expands beyond declared size"
        | None => bad "ZIP expands beyond declared size"
        end
  end.

Definition copy (f : nat) (src : R) (output : W) (max : Z) : Run (Z * Z * R * W) :=
  copy_loop f max src output Crc32_new 0.

End Copy.

(** ** Reading an entry *)

Section Source.
Context {R : Type} {HR : Read R} {HS : Seek R}.

Definition entry_copy {W} {HW : Write W} (f : nat) (e : Entry) (src : R) (output : W) : Run (R * W) :=
  let! (_, src) := seek src (Start (offset e)) in
  let! (header, src) := read_exact src 30 in
  let! sig := Some (le32 header 0) in
  let! m := Some (if sig =? 67324752 then le16 header 8 else Ok (method e)) in
  let! fl := Some (if (sig =? 67324752) && (m =? method e) then le16 header 6 else Ok (flags e)) in
  if negb (sig =? 67324752) || negb (m =? method e) || negb (fl =? flags e)
  then bad "ZIP local header disagrees with directory"
  else
    let! name_len := Some (le16 header 26) in
    let! extra := Some (le16 header 28) in
    let! (n, src) := read_exact src (Z.to_nat name_len) in
    if negb (bool_decide (n = as_bytes (name e))) then bad "ZIP local name disagrees with directory"
    else
      let! start := Some (ok_or (checked_add (offset e) (30 + name_len + extra)) (Invalid "ZIP offset overflow")) in
      if match checked_add start (compressed e) with Some n => end_ e <? n | None => true end
      then bad "ZIP payload overlaps directory"
      else
        let! (_, src) := seek src (Start start) in
        let raw := mk_take src (Z.to_N (compressed e)) in
        let! (sz, sum, src, output) :=
          (if method e =? 0 then
             let! (sz, sum, raw, output) := copy f raw output (size e) in ret (sz, sum, inner raw, output)
           else if method e =? 8 then
             let! (sz, sum, d, output) := copy (HR := deflate_read f) f (Deflate_new raw) output (size e) in
             ret (sz, sum, inner (Inflate.src (br d)), output)
           else bad "unsupported ZIP compression") in
        if negb (sz =? size e) || negb (sum =? crc e) then bad "ZIP length or checksum mismatch"
        else ret (src, output).

Definition entry_bytes (f : nat) (e : Entry) (src : R) (limit : Z) : Run (R * list Z) :=
  if entry_directory e || (limit <? size e) then bad "ZIP entry exceeds document limit"
  else entry_copy f e src ([] : list Z).

(** ** The directory *)

(** [(0..n).rev().find(p)] *)
Fixpoint rfind (p : nat -> bool) (n : nat) : option nat :=
  match n with O => None | S n => if p n then Some n else rfind p n end.

Definition is_end (tail : list Z) (i : nat) : bool :=
  match le32 tail i with
  | Ok sig => (sig =? 101010256) && match le16 tail (i + 20) with
                                    | Ok n => (i + 22 + Z.to_nat n =? length tail)%nat
                                    | Err _ => false
                                    end
  | Err _ => false
  end.

(** A block of the extra field of an entry: the values that did not fit. *)
Definition wide (v : Z) (block : list Z) (k : nat) : Result (Z * nat) :=
  if v =? U32_MAX then n ← le64 block k; Ok (n, (k + 8)%nat) else Ok (v, k).

Definition widen (e : Entry) (block : list Z) : Result Entry :=
  '(sz, k) ← wide (size e) block 0;
  '(cm, k) ← wide (compressed e) block k;
  '(off, _) ← wide (offset e) block k;
  Ok (mk_entry (name e) (mode e) sz (method e) (flags e) cm (crc e) off (end_ e)).

(** [while !extra.is_empty()], each round of which takes four bytes at least. *)
Fixpoint extras (f : nat) (e : Entry) (extra : list Z) : Result Entry :=
  match f with
  | O => Ok e
  | S f =>
      if (length extra =? 0)%nat then Ok e
      else
        kind ← le16 extra 0;
        n ← le16 extra 2;
        let n := Z.to_nat n in
        block ← ok_or (slice extra 4 (4 + n)) (Invalid "truncated ZIP extra block");
        e ← (if kind =? 1 then widen e block else Ok e);
        extras f e (drop (4 + n) extra)
  end.

Definition unsupported (e : Entry) : bool :=
  negb (Z.land (flags e) 65 =? 0) || negb ((method e =? 0) || (method e =? 8))
  || negb ((Z.land (mode e) 61440 =? 0) || (Z.land (mode e) 61440 =? 32768) || (Z.land (mode e) 61440 =? 16384)).

(** One record of the directory: the entry and where the next one starts. *)
Definition read_entry (data : list Z) (offset : Z) (at_ : nat) : Result (Entry * nat) :=
  h ← ok_or (slice data at_ (at_ + 46)) (Invalid "truncated ZIP directory");
  sig ← le32 h 0;
  disk ← (if sig =? 33639248 then le16 h 34 else Ok 0);
  if negb (sig =? 33639248) || negb (disk =? 0) then Err (Invalid "invalid ZIP entry")
  else
    n ← le16 h 28;
    x ← le16 h 30;
    c ← le16 h 32;
    let '(n, x, c) := (Z.to_nat n, Z.to_nat x, Z.to_nat c) in
    raw ← ok_or (slice data (at_ + 46) (at_ + 46 + n)) (Invalid "truncated ZIP name");
    if negb (is_ok (from_utf8 raw)) then Err (Invalid "ZIP name is not UTF-8")
    else
      made ← le16 h 4;
      mode ← (if Z.shiftr made 8 =? 3 then m ← le32 h 38; Ok (Z.shiftr m 16) else Ok 0);
      sz ← le32 h 24;
      method ← le16 h 10;
      flags ← le16 h 8;
      compressed ← le32 h 20;
      sum ← le32 h 16;
      off ← le32 h 42;
      extra ← ok_or (slice data (at_ + 46 + n) (at_ + 46 + n + x)) (Invalid "truncated ZIP extra");
      e ← extras (length extra) (mk_entry (of_bytes raw) mode sz method flags compressed sum off offset) extra;
      if unsupported e then Err (Invalid "encrypted, special or unsupported ZIP entry")
      else Ok (e, (at_ + (46 + n + x + c))%nat).

(** [for _ in 0..count] *)
Fixpoint read_entries (count : nat) (data : list Z) (offset : Z) (at_ : nat) (expanded : Z) (entries : list Entry)
  : Result (list Entry * nat) :=
  match count with
  | O => Ok (entries, at_)
  | S count =>
      '(e, next) ← read_entry data offset at_;
      match checked_add expanded (size e) with
      | Some v =>
          if v <=? MAX_BYTES then
            if (length data <? next)%nat then Err (Invalid "truncated ZIP comment")
            else read_entries count data offset next v (entries ++ [e])
          else Err (Invalid "backup expands beyond 2 GiB")
      | None => Err (Invalid "backup expands beyond 2 GiB")
      end
  end.

(** The record at the end of the directory, or its extension: number, size, place and end. *)
Definition read_end (src : R) (h : list Z) (end_ : Z) : Run (Z * Z * Z * Z * R) :=
  let! count := Some (le16 h 10) in
  let! size := Some (le32 h 12) in
  let! offset := Some (le32 h 16) in
  if (count =? 65535) || (size =? U32_MAX) || (offset =? U32_MAX) then
    let loc_at := end_ - 20 in
    if loc_at <? 0 then bad "missing ZIP64 locator"
    else
      let! (_, src) := seek src (Start loc_at) in
      let! (locator, src) := read_exact src 20 in
      let! sig := Some (le32 locator 0) in
      let! disk := Some (le32 locator 4) in
      let! disks := Some (le32 locator 16) in
      if negb (sig =? 117853008) || negb (disk =? 0) || negb (disks =? 1) then bad "invalid ZIP64 locator"
      else
        let! directory_end := Some (le64 locator 8) in
        let! (_, src) := seek src (Start directory_end) in
        let! (h, src) := read_exact src 56 in
        let! sig := Some (le32 h 0) in
        let! d1 := Some (le32 h 16) in
        let! d2 := Some (le32 h 20) in
        let! c1 := Some (le64 h 24) in
        let! c2 := Some (le64 h 32) in
        if (loc_at <? directory_end + 56) || negb (sig =? 101075792) || negb (d1 =? 0) || negb (d2 =? 0) || negb (c1 =? c2)
        then bad "invalid ZIP64 directory"
        else
          let! size := Some (le64 h 40) in
          let! offset := Some (le64 h 48) in
          ret (c2, size, offset, directory_end, src)
  else ret (count, size, offset, end_, src).

Definition directory (src : R) : Run (list Entry * R) :=
  let! (len, src) := seek src (End_ 0) in
  let n := Z.to_nat (Z.min len 65557) in
  let! (_, src) := seek src (End_ (- Z.of_nat n)) in
  let! (tail, src) := read_exact src n in
  match rfind (is_end tail) (length tail - 21) with
  | None => bad "missing ZIP directory"
  | Some at_ =>
      let h := drop at_ tail in
      let! d1 := Some (le16 h 4) in
      let! d2 := Some (le16 h 6) in
      let! c1 := Some (le16 h 8) in
      let! c2 := Some (le16 h 10) in
      if negb (d1 =? 0) || negb (d2 =? 0) || negb (c1 =? c2) then bad "multi-disk ZIP unsupported"
      else
        let! (count, size, offset, directory_end, src) := read_end src h (len - Z.of_nat n + Z.of_nat at_) in
        if (MAX_FILES <? count) || (Z.shiftl 64 20 <? size)
           || match checked_add offset size with Some e => directory_end <? e | None => true end
        then bad "ZIP directory exceeds limits"
        else
          let! (_, src) := seek src (Start offset) in
          let! (data, src) := read_exact src (Z.to_nat size) in
          let! (entries, at_) := Some (read_entries (Z.to_nat count) data offset 0 0 []) in
          if negb (at_ =? length data)%nat then bad "unexpected ZIP directory bytes" else ret (entries, src)
  end.

End Source.

(** ** The writer *)

(** [h[at..][..len].copy_from_slice(bytes)] *)
Definition put (at_ : nat) (bytes h : list Z) : list Z := take at_ h ++ bytes ++ drop (at_ + length bytes) h.

Record Writer (W : Type) : Type := mk_writer { w_out : W; w_offset : Z; w_total : Z; w_entries : list Entry }.
Arguments mk_writer {W}. Arguments w_out {W}. Arguments w_offset {W}. Arguments w_total {W}. Arguments w_entries {W}.

Section Writer.
Context {W : Type} {HW : Write W}.

Definition Writer_new (out : W) : Writer W := mk_writer out 0 0 [].

Definition local_header (name : string) : list Z :=
  put 26 (le_bytes 2 (Text.len name)) (put 6 (le_bytes 2 2056) (put 4 (le_bytes 2 20) (put 0 (le_bytes 4 67324752) (repeat 0 30)))).

(** The data descriptor, a word at a time. *)
Fixpoint write_words (out : W) (ns : list Z) : Run W :=
  match ns with [] => ret out | n :: ns => let! out := write_all out (le_bytes 4 n) in write_words out ns end.

Definition add {R} {HR : Read R} (f : nat) (w : Writer W) (name : string) (mode : Z) (source : R) : Run (Writer W) :=
  if (MAX_FILES <=? Z.of_nat (length (w_entries w))) || (65535 <? Text.len name)
  then bad "too many ZIP entries or name too long"
  else
    let! out := write_all (w_out w) (local_header name) in
    let! out := write_all out (as_bytes name) in
    let! (size, crc, _, out) := copy f source out (MAX_BYTES - w_total w) in
    let! out := write_words out [134695760; crc; size mod 2 ^ 32; size mod 2 ^ 32] in
    ret (mk_writer out (w_offset w + (30 + Text.len name + size + 16)) (w_total w + size)
           (w_entries w ++ [mk_entry name mode size 0 2056 size crc (w_offset w) 0])).

Definition central_header (e : Entry) (off : Z) : list Z :=
  put 42 (le_bytes 4 off) (put 38 (le_bytes 4 (Z.shiftl (mode e) 16 mod 2 ^ 32)) (put 28 (le_bytes 2 (Text.len (name e)))
    (put 24 (le_bytes 4 (size e mod 2 ^ 32)) (put 20 (le_bytes 4 (size e mod 2 ^ 32)) (put 16 (le_bytes 4 (crc e))
      (put 8 (le_bytes 2 (flags e)) (put 6 (le_bytes 2 20) (put 4 (le_bytes 2 788) (put 0 (le_bytes 4 33639248) (repeat 0 46)))))))))).

(** [u32::try_from(n).map_err(..)] *)
Definition small (n : Z) (message : string) : Run Z := if n <=? U32_MAX then ret n else bad message.

Fixpoint write_directory (out : W) (offset : Z) (entries : list Entry) : Run (W * Z) :=
  match entries with
  | [] => ret (out, offset)
  | e :: entries =>
      let! off := small (Zip.offset e) "ZIP exceeds 32-bit offsets" in
      let! out := write_all out (central_header e off) in
      let! out := write_all out (as_bytes (name e)) in
      write_directory out (offset + (46 + Text.len (name e))) entries
  end.

Definition zip64_end (count size start : Z) : list Z :=
  put 48 (le_bytes 8 start) (put 40 (le_bytes 8 size) (put 32 (le_bytes 8 count) (put 24 (le_bytes 8 count)
    (put 14 (le_bytes 2 45) (put 12 (le_bytes 2 45) (put 4 (le_bytes 8 44) (put 0 (le_bytes 4 101075792) (repeat 0 56)))))))).

Definition zip64_locator (offset : Z) : list Z :=
  put 16 (le_bytes 4 1) (put 8 (le_bytes 8 offset) (put 0 (le_bytes 4 117853008) (repeat 0 20))).

Definition end_record (count size start : Z) : list Z :=
  let short := le_bytes 2 (Z.min count 65535) in
  put 16 (le_bytes 4 start) (put 12 (le_bytes 4 size) (put 10 short (put 8 short (put 0 (le_bytes 4 101010256) (repeat 0 22))))).

Definition finish (w : Writer W) : Run W :=
  let start := w_offset w in
  let! (out, offset) := write_directory (w_out w) start (w_entries w) in
  let size := offset - start in
  let count := Z.of_nat (length (w_entries w)) in
  let! out :=
    (if 65535 <=? count then
       let! out := write_all out (zip64_end count size start) in write_all out (zip64_locator offset)
     else ret out) in
  let! size := small size "ZIP directory too large" in
  let! start := small start "ZIP too large" in
  write_all out (end_record count size start).

End Writer.
