(* ===== verification/ZipOk.v ===== *)
(** * ZipOk: what an archive holds

    The bytes the writer of [zip.rs] leaves, that the reader finds in them the files that were
    added, and that nothing is read whose length or checksum differ from the directory. *)

From Stdlib Require Import ZArith Lia String.
From S2P Require Import Prelude Text Errors Slots ArchiveIo Inflate Zip.

Local Open Scope Z_scope.
Local Open Scope run_scope.

Definition crc32 (l : list Z) : Z := crc_sum (crc_update Crc32_new l).

Lemma crc32_u32 l : Forall is_byte l -> is_u32 (crc32 l).
Proof.
  intros H. pose proof (crc_u32 U32_MAX l U32_MAX_u32 H) as Hc. unfold crc32, crc_sum, crc_update, Crc32_new, is_u32 in *.
  pose proof (lxor_bound 32 (Slots.crc U32_MAX l) U32_MAX). unfold U32_MAX in *. lia.
Qed.

(** ** Copying *)

Section Copy.
Context {R : Type} {HR : Read R}.

(** What was copied has the length and the checksum that are returned. *)
Lemma copy_loop_sound f max : forall r (out : list Z) sum count n c r' out',
  copy_loop f max r out sum count = ret (n, c, r', out') ->
  exists data, out' = out ++ data /\ n = count + Z.of_nat (length data) /\ c = crc_sum (crc_update sum data) /\ (n = count \/ n <= max).
Proof.
  induction f as [|f IH]; intros r out sum count n c r' out' H; [done|]. cbn [copy_loop] in H.
  destruct (read r INBUF) as [[[part r1]|]|]; [|done..]. cbn [bind] in H.
  destruct (Nat.eqb_spec (length part) 0).
  { injection H as <- <- <- <-. exists []. rewrite app_nil_r. cbn. split; [done|]. split; [lia|]. split; [done|lia]. }
  destruct (checked_add _ _) as [n1|] eqn:Ea; [|done]. apply checked_add_Some in Ea as [-> _].
  destruct (Z.leb_spec (count + Z.of_nat (length part)) max); [|done].
  unfold write_all, vec_write in H. destruct (_ <? _); [done|]. cbn [bind ret] in H.
  apply IH in H as (data & -> & -> & -> & Hm). exists (part ++ data). rewrite app_assoc, length_app. split; [done|].
  split; [lia|]. split; [|lia]. unfold crc_update, Slots.crc. by rewrite fold_left_app.
Qed.

Lemma copy_sound f r (out : list Z) max n c r' out' : 0 <= max ->
  copy f r out max = ret (n, c, r', out') ->
  exists data, out' = out ++ data /\ n = Z.of_nat (length data) /\ c = crc32 data /\ n <= max.
Proof. intros Hm H. apply copy_loop_sound in H as (data & ? & ? & ? & ?). exists data. repeat split; [done|lia|done|lia]. Qed.

(** A property of the source that every read keeps. *)
Context (P : R -> Prop) (Hkeep : forall r n d r', P r -> read r n = ret (d, r') -> P r').

Lemma copy_loop_keeps {W} {HW : Write W} f max : forall r (out : W) sum count n c r' out', P r ->
  copy_loop f max r out sum count = ret (n, c, r', out') -> P r'.
Proof using Hkeep.
  induction f as [|f IH]; intros r out sum count n c r' out' HP H; [done|]. cbn [copy_loop] in H.
  destruct (read r INBUF) as [[[part r1]|]|] eqn:E; [|done..]. apply Hkeep in E; [|done]. cbn [bind] in H.
  destruct (length part =? 0)%nat; [by injection H as <- <- <- <-|].
  destruct (checked_add _ _); [|done]. destruct (_ <=? _); [|done]. destruct (write_all out part) as [[w|]|]; [|done..].
  cbn [bind] in H. by eapply IH.
Qed.

End Copy.

Definition CAP : Z := Z.shiftl 80 20.

Lemma CAP_value : CAP = 83886080.
Proof. done. Qed.

Lemma write_room (w l : list Z) : Z.of_nat (length w + length l) <= CAP -> write_all w l = ret (w ++ l).
Proof.
  intros H. unfold write_all, vec_write. fold CAP. unfold saturating_sub.
  destruct (Z.ltb_spec (Z.max 0 (CAP - Z.of_nat (length w))) (Z.of_nat (length l))); [lia|done].
Qed.

Section CopyAll.
Context {R : Type} {HR : Read R} {HL : ReadLaws R}.

(** Everything a reader yields is copied, if there is room for it. *)
Lemma copy_loop_all f max : forall r l (out : list Z) sum count, yields r l -> (length l < f)%nat ->
  0 <= count -> count + Z.of_nat (length l) <= max -> max <= U64_MAX -> Z.of_nat (length out + length l) <= CAP ->
  exists r', copy_loop f max r out sum count
  = ret (count + Z.of_nat (length l), crc_sum (crc_update sum l), r', out ++ l) /\ yields r' [].
Proof.
  induction f as [|f IH]; intros r l out sum count Hy Hf Hc Hm HM Hr; [lia|]. cbn [copy_loop].
  destruct (read_yields r l INBUF Hy) as (data & r1 & l1 & -> & -> & Hy1 & _ & He). cbn [bind ret].
  rewrite length_app in *. destruct (Nat.eqb_spec (length data) 0) as [H0|H0].
  - apply length_zero_iff_nil in H0 as ->. destruct (He eq_refl) as [H1|H1]; [done|]. cbn in H1. subst l1.
    exists r1. cbn. rewrite Z.add_0_r, app_nil_r. done.
  - destruct (checked_add _ _) as [n|] eqn:Ea.
    + apply checked_add_Some in Ea as [-> _]. destruct (Z.leb_spec (count + Z.of_nat (length data)) max); [|lia].
      rewrite write_room by lia. cbn [bind ret].
      destruct (IH r1 l1 (out ++ data) (crc_update sum data) (count + Z.of_nat (length data)) Hy1) as (r' & -> & Hr');
        [lia..|rewrite length_app; lia|].
      exists r'. split; [|done]. unfold crc_update, Slots.crc. rewrite fold_left_app, app_assoc. do 4 f_equal. lia.
    + unfold checked_add in Ea. destruct (Z.leb_spec (count + Z.of_nat (length data)) U64_MAX); [done|lia].
Qed.

Lemma copy_all f max r l (out : list Z) : yields r l -> (length l < f)%nat ->
  Z.of_nat (length l) <= max -> max <= U64_MAX -> Z.of_nat (length out + length l) <= CAP ->
  exists r', copy f r out max = ret (Z.of_nat (length l), crc32 l, r', out ++ l) /\ yields r' [].
Proof. intros Hy Hf Hm HM Hr. unfold copy. apply (copy_loop_all f max r l out Crc32_new 0); lia || done. Qed.

End CopyAll.

(** ** The layout *)

(** A file to be kept: its name, its mode and its bytes. *)
Definition File : Type := string * Z * list Z.

Definition words (ns : list Z) : list Z := flat_map (le_bytes 4) ns.
Definition size_of {A} (l : list A) : Z := Z.of_nat (length l).
Definition local (name : string) (l : list Z) : list Z :=
  local_header name ++ as_bytes name ++ l ++ words [134695760; crc32 l; size_of l mod 2 ^ 32; size_of l mod 2 ^ 32].
Definition bodies (files : list File) : list Z := flat_map (fun '(n, _, l) => local n l) files.
Definition record (name : string) (mode : Z) (l : list Z) (off : Z) : Entry :=
  mk_entry name mode (size_of l) 0 2056 (size_of l) (crc32 l) off 0.
Fixpoint placed (off : Z) (files : list File) : list Entry :=
  match files with
  | [] => []
  | (n, m, l) :: files => record n m l off :: placed (off + size_of (local n l)) files
  end.
Definition centrals (entries : list Entry) : list Z :=
  flat_map (fun e => central_header e (offset e) ++ as_bytes (name e)) entries.
Definition closing (count size start : Z) : list Z :=
  (if 65535 <=? count then zip64_end count size start ++ zip64_locator (start + size) else []) ++ end_record count size start.
Definition archive (files : list File) : list Z :=
  let d := centrals (placed 0 files) in
  bodies files ++ d ++ closing (size_of files) (size_of d) (size_of (bodies files)).

Lemma size_of_app {A} (a b : list A) : size_of (a ++ b) = size_of a + size_of b.
Proof. unfold size_of. rewrite length_app. lia. Qed.

Lemma size_of_nonneg {A} (a : list A) : 0 <= size_of a.
Proof. unfold size_of. lia. Qed.

Lemma length_local_header name : length (local_header name) = 30%nat.
Proof. done. Qed.

Lemma length_central_header e off : length (central_header e off) = 46%nat.
Proof. done. Qed.

Lemma length_words ns : length (words ns) = (4 * length ns)%nat.
Proof. unfold words. induction ns as [|n ns IH]; [done|]. cbn [flat_map length]. rewrite length_app, length_le_bytes, IH. lia. Qed.

Lemma len_size_of name : Text.len name = size_of (as_bytes name).
Proof. unfold size_of, Text.len. by rewrite length_as_bytes. Qed.

Lemma size_of_local name l : size_of (local name l) = 30 + Text.len name + size_of l + 16.
Proof. unfold local. rewrite !size_of_app, len_size_of. unfold size_of. rewrite length_local_header, length_words. cbn [length]. lia. Qed.

Lemma length_placed off files : length (placed off files) = length files.
Proof. revert off. induction files as [|[[n m] l] files IH]; intros off; [done|]. cbn [placed length]. by rewrite IH. Qed.

Lemma size_of_closing count size start : size_of (closing count size start) = (if 65535 <=? count then 98 else 22).
Proof. unfold closing. by destruct (65535 <=? count). Qed.

(** ** The writer *)

Fixpoint add_all (f : nat) (w : Writer (list Z)) (files : list File) : Run (Writer (list Z)) :=
  match files with
  | [] => ret w
  | (n, m, l) :: files => let! w := add f w n m l in add_all f w files
  end.

Definition write_archive (f : nat) (files : list File) : Run (list Z) :=
  let! w := add_all f (Writer_new []) files in finish w.

Lemma write_words_room ns : forall out : list Z, size_of out + 4 * size_of ns <= CAP -> write_words out ns = ret (out ++ words ns).
Proof.
  induction ns as [|n ns IH]; intros out H; cbn [write_words]; [unfold words; cbn; by rewrite app_nil_r|].
  unfold size_of in *. cbn [length] in H. rewrite write_room by (rewrite length_le_bytes; lia). cbn [bind ret].
  rewrite IH by (unfold size_of; rewrite length_app, length_le_bytes; lia). unfold words. cbn [flat_map]. by rewrite app_assoc.
Qed.

Lemma add_room f w name mode l :
  size_of (w_entries w) < MAX_FILES -> Text.len name <= 65535 -> (length l < f)%nat ->
  w_offset w = size_of (w_out w) -> 0 <= w_total w <= w_offset w -> size_of (w_out w ++ local name l) <= CAP ->
  add f w name mode l = ret (mk_writer (w_out w ++ local name l) (size_of (w_out w ++ local name l)) (w_total w + size_of l)
                               (w_entries w ++ [record name mode l (w_offset w)])).
Proof.
  intros He Hn Hf Ho Ht Hr. unfold add. unfold size_of in He.
  destruct (Z.leb_spec MAX_FILES (Z.of_nat (length (w_entries w)))); [lia|].
  destruct (Z.ltb_spec 65535 (Text.len name)); [lia|]. cbn [orb].
  pose proof (size_of_local name l) as Hs. rewrite size_of_app in Hr. pose proof (size_of_nonneg l). rewrite len_size_of in Hs.
  pose proof (size_of_nonneg (as_bytes name)). rewrite CAP_value in Hr.
  rewrite write_room by (rewrite CAP_value, length_local_header; unfold size_of in *; lia). cbn [bind ret].
  rewrite write_room by (rewrite CAP_value, length_app, length_local_header; unfold size_of in *; lia). cbn [bind ret].
  destruct (copy_all f (MAX_BYTES - w_total w) l l ((w_out w ++ local_header name) ++ as_bytes name)) as (r' & -> & _); [done|done| | | |].
  - unfold MAX_BYTES, size_of in *. lia.
  - unfold MAX_BYTES, U64_MAX. lia.
  - rewrite CAP_value, !length_app, length_local_header. unfold size_of in *. lia.
  - cbn [bind ret]. rewrite write_words_room.
    + cbn [bind ret]. fold (size_of l). unfold local. rewrite <- !app_assoc. f_equal. f_equal. f_equal.
      rewrite Ho, len_size_of, !size_of_app. unfold size_of. rewrite length_local_header, length_words. cbn [length]. lia.
    + unfold size_of in *. rewrite CAP_value, !length_app, length_local_header. cbn [length]. lia.
Qed.

Lemma add_all_room f files : forall w,
  size_of (w_entries w) + size_of files <= MAX_FILES ->
  Forall (fun '(n, _, l) => Text.len n <= 65535 /\ (length l < f)%nat) files ->
  w_offset w = size_of (w_out w) -> 0 <= w_total w <= w_offset w -> size_of (w_out w ++ bodies files) <= CAP ->
  exists t, add_all f w files = ret (mk_writer (w_out w ++ bodies files) (size_of (w_out w ++ bodies files)) t
                              (w_entries w ++ placed (w_offset w) files)).
Proof.
  induction files as [|[[n m] l] files IH]; intros w He HF Ho Ht Hr.
  - exists (w_total w). cbn. rewrite !app_nil_r, <- Ho. by destruct w.
  - apply Forall_cons in HF as [[Hn Hl] HF]. cbn [bodies flat_map] in Hr. fold (bodies files) in Hr. cbn [add_all].
    rewrite !size_of_app in Hr. pose proof (size_of_nonneg (bodies files)). pose proof (size_of_nonneg files).
    unfold size_of in He. cbn [length] in He.
    rewrite add_room; [|unfold size_of; lia|done..|rewrite size_of_app; lia]. cbn [bind ret].
    edestruct IH as (t & ->); cycle 5.
    + exists t. cbn [w_out w_entries w_offset placed]. cbn [bodies flat_map]. fold (bodies files). rewrite <- !app_assoc. cbn [app].
      rewrite Ho, <- size_of_app. done.
    + cbn [w_entries]. unfold size_of. rewrite length_app. cbn [length]. lia.
    + done.
    + done.
    + cbn [w_offset w_total]. rewrite size_of_app, size_of_local. pose proof (size_of_nonneg l).
      rewrite len_size_of. pose proof (size_of_nonneg (as_bytes n)). lia.
    + cbn [w_out]. rewrite !size_of_app. lia.
Qed.

Lemma write_directory_room es : forall (out : list Z) off,
  Forall (fun e => offset e <= U32_MAX) es -> size_of (out ++ centrals es) <= CAP ->
  write_directory out off es = ret (out ++ centrals es, off + size_of (centrals es)).
Proof.
  induction es as [|e es IH]; intros out off Ho Hr; cbn [write_directory].
  - cbn. by rewrite app_nil_r, Z.add_0_r.
  - apply Forall_cons in Ho as [He Ho]. unfold centrals in *. cbn [flat_map] in *. fold (centrals es) in *.
    rewrite !size_of_app in Hr. pose proof (size_of_nonneg (centrals es)). pose proof (size_of_nonneg (as_bytes (name e))).
    unfold small. destruct (Z.leb_spec (offset e) U32_MAX); [|lia]. cbn [bind ret].
    assert (size_of (central_header e (offset e)) = 46) as Hh by (unfold size_of; by rewrite length_central_header).
    rewrite write_room by (unfold size_of in *; lia). cbn [bind ret].
    rewrite write_room by (rewrite length_app; unfold size_of in *; lia). cbn [bind ret].
    rewrite IH; [|done|rewrite !size_of_app; lia]. rewrite <- !app_assoc, !size_of_app, len_size_of. rewrite Hh. unfold ret. do 3 f_equal. lia.
Qed.

Lemma placed_offset files : forall off,
  Forall (fun e => off <= offset e <= off + size_of (bodies files)) (placed off files).
Proof.
  induction files as [|[[n m] l] files IH]; intros off; [constructor|].
  change (bodies _) with (local n l ++ bodies files). rewrite size_of_app.
  pose proof (size_of_nonneg (bodies files)). pose proof (size_of_nonneg (local n l)). cbn [placed]. constructor.
  - cbn [record offset]. lia.
  - eapply Forall_impl; [apply IH|]. cbn beta. intros. lia.
Qed.

(** What the files must be for the writer to take them: not too many, names of at most 65535
    bytes, and an archive within the bound of the buffer. *)
Definition fits (f : nat) (files : list File) : Prop :=
  size_of files <= MAX_FILES /\ size_of (archive files) <= CAP
  /\ Forall (fun '(n, _, l) => Text.len n <= 65535 /\ (length l < f)%nat) files.

Lemma archive_sizes files : size_of (archive files) =
  size_of (bodies files) + size_of (centrals (placed 0 files)) + (if 65535 <=? size_of files then 98 else 22).
Proof. unfold archive. rewrite !size_of_app, size_of_closing. lia. Qed.

Lemma length_zip64_end count size start : length (zip64_end count size start) = 56%nat.
Proof. done. Qed.
Lemma length_zip64_locator offset : length (zip64_locator offset) = 20%nat.
Proof. done. Qed.
Lemma length_end_record count size start : length (end_record count size start) = 22%nat.
Proof. done. Qed.

(** The writer leaves the archive of the files it was given. *)
Lemma write_archive_fits f files : fits f files -> write_archive f files = ret (archive files).
Proof.
  intros (Hn & Hr & HF). unfold write_archive. rewrite archive_sizes in Hr.
  pose proof (size_of_nonneg (bodies files)) as Hb. pose proof (size_of_nonneg (centrals (placed 0 files))) as Hc.
  assert (0 <= size_of (bodies files) + size_of (centrals (placed 0 files)) <= CAP) as Hs by (destruct (65535 <=? _); lia).
  rewrite CAP_value in *.
  destruct (add_all_room f files (Writer_new [])) as (t & ->); [done..|cbn [Writer_new w_out app]; rewrite CAP_value; lia|].
  cbn [bind ret Writer_new w_out w_entries w_offset app]. unfold finish. cbn [w_out w_entries w_offset].
  rewrite write_directory_room.
  2:{ eapply Forall_impl; [apply placed_offset|]. cbn. intros e He. unfold U32_MAX. lia. }
  2:{ rewrite size_of_app, CAP_value. lia. }
  cbn [bind ret]. rewrite length_placed. fold (size_of files).
  rewrite Z.add_simpl_l. unfold archive, closing, small.
  set (d := centrals (placed 0 files)) in *. set (b := bodies files) in *.
  destruct (Z.leb_spec 65535 (size_of files)) as [H6|H6].
  - rewrite write_room by (rewrite CAP_value, length_app, length_zip64_end; unfold size_of in *; lia). cbn [bind ret].
    rewrite write_room by (rewrite CAP_value, !length_app, length_zip64_end, length_zip64_locator; unfold size_of in *; lia). cbn [bind ret].
    unfold U32_MAX. destruct (Z.leb_spec (size_of d) 4294967295); [|lia]. cbn [bind ret].
    destruct (Z.leb_spec (size_of b) 4294967295); [|lia]. cbn [bind ret].
    rewrite write_room by (rewrite CAP_value, !length_app, length_zip64_end, length_zip64_locator, length_end_record; unfold size_of in *; lia).
    by rewrite <- !app_assoc.
  - cbn [bind ret]. unfold U32_MAX. destruct (Z.leb_spec (size_of d) 4294967295); [|lia]. cbn [bind ret].
    destruct (Z.leb_spec (size_of b) 4294967295); [|lia]. cbn [bind ret].
    rewrite write_room by (rewrite CAP_value, !length_app, length_end_record; unfold size_of in *; lia).
    by rewrite <- !app_assoc.
Qed.

(** * ZipRead: archives are read back

    The reader of [zip.rs] on the bytes the writer leaves: the directory lists the files that
    were added, and every one of them is read with the bytes it was added with. *)

Local Open Scope run_scope.

(** ** Fields *)

Lemma slice_mid {A} (a b c : list A) : slice (a ++ b ++ c) (length a) (length a + length b) = Some b.
Proof.
  unfold slice. rewrite !length_app. destruct (Nat.leb_spec (length a) (length a + length b)); [|lia].
  destruct (Nat.leb_spec (length a + length b) (length a + (length b + length c))); [|lia]. cbn [andb].
  rewrite drop_app_length, Nat.add_comm, Nat.add_sub, take_app_length. done.
Qed.

Lemma slice_at {A} (a b c : list A) i j : i = length a -> j = (length a + length b)%nat -> slice (a ++ b ++ c) i j = Some b.
Proof. intros -> ->. apply slice_mid. Qed.

(** One more of the bindings of a [Result]. *)
Ltac step := cbn [ok_or mbind result_bind].

Lemma le_at k h i v : slice h i (i + k) = Some (le_bytes k v) -> 0 <= v < 256 ^ Z.of_nat k -> le k h i = Ok v.
Proof. intros H Hv. unfold le. rewrite H. step. by rewrite le_val_le_bytes. Qed.

Lemma small_mod v : 0 <= v <= U32_MAX -> v mod 2 ^ 32 = v.
Proof. intros H. apply Z.mod_small. unfold U32_MAX in H. lia. Qed.

(** What the directory keeps of a stored file. *)
Record storable (e : Entry) : Prop := {
  s_name : valid_str (name e) = true; s_len : Text.len (name e) <= 65535; s_mode : 0 <= mode e < 65536;
  s_kind : unsupported e = false; s_method : method e = 0; s_flags : flags e = 2056; s_size : 0 <= size e <= U32_MAX;
  s_same : compressed e = size e; s_crc : is_u32 (crc e); s_offset : 0 <= offset e <= U32_MAX
}.

(** The record as it is read: with the start of the directory as the bound of the contents. *)
Definition listed (start : Z) (e : Entry) : Entry :=
  mk_entry (name e) (mode e) (size e) (method e) (flags e) (compressed e) (crc e) (offset e) start.

Lemma len_nonneg s : 0 <= Text.len s.
Proof. unfold Text.len. lia. Qed.

Lemma shifted_mode m : 0 <= m < 65536 -> Z.shiftr (Z.shiftl m 16 mod 2 ^ 32) 16 = m.
Proof.
  intros H. rewrite Z.mod_small; [|rewrite Z.shiftl_mul_pow2 by lia; lia].
  rewrite Z.shiftr_shiftl_l by lia. apply Z.shiftl_0_r.
Qed.

Lemma read_entry_central e start pre post : storable e ->
  read_entry (pre ++ (central_header e (offset e) ++ as_bytes (name e)) ++ post) start (length pre)
  = Ok (listed start e, (length pre + (46 + length (as_bytes (name e))))%nat).
Proof.
  intros He. destruct He. unfold read_entry. rewrite <- app_assoc. set (h := central_header e (offset e)).
  assert (length h = 46%nat) as Hh by done.
  assert (slice (pre ++ h ++ as_bytes (name e) ++ post) (length pre) (length pre + 46) = Some h) as -> by (apply slice_at; lia).
  step. pose proof (len_nonneg (name e)) as Hn.
  assert (le32 h 0 = Ok 33639248) as -> by done. step. cbn [Z.eqb Pos.eqb].
  assert (le16 h 34 = Ok 0) as -> by done. step. cbn [Z.eqb Pos.eqb negb orb].
  assert (le16 h 28 = Ok (Text.len (name e))) as -> by (apply le_at; [done|cbn; lia]). step.
  assert (le16 h 30 = Ok 0) as -> by done. step. assert (le16 h 32 = Ok 0) as -> by done. step.
  assert (Z.to_nat (Text.len (name e)) = length (as_bytes (name e))) as Hl by (rewrite len_size_of; unfold size_of; lia).
  rewrite Hl. change (Z.to_nat 0) with 0%nat.
  assert (slice (pre ++ h ++ as_bytes (name e) ++ post) (length pre + 46) (length pre + 46 + length (as_bytes (name e)))
          = Some (as_bytes (name e))) as ->.
  { rewrite (app_assoc pre). apply slice_at; rewrite length_app; lia. }
  step. unfold valid_str in s_name0. rewrite s_name0. cbn [negb].
  assert (le16 h 4 = Ok 788) as -> by done. step.
  assert (le32 h 38 = Ok (Z.shiftl (mode e) 16 mod 2 ^ 32)) as ->.
  { apply le_at; [done|]. change (256 ^ Z.of_nat 4) with (2 ^ 32). apply Z.mod_pos_bound. lia. }
  assert (le32 h 24 = Ok (size e)) as ->.
  { apply le_at; [rewrite <- (small_mod (size e)) at 1 by done; done|unfold U32_MAX in *; cbn; lia]. }
  assert (le16 h 10 = Ok 0) as -> by done. step.
  assert (le16 h 8 = Ok 2056) as -> by (apply le_at; [rewrite <- s_flags0; done|cbn; lia]). step.
  assert (le32 h 20 = Ok (size e)) as ->.
  { apply le_at; [rewrite <- (small_mod (size e)) at 1 by done; done|unfold U32_MAX in *; cbn; lia]. }
  assert (le32 h 16 = Ok (crc e)) as -> by (apply le_at; [done|unfold is_u32, U32_MAX in *; cbn; lia]). step.
  assert (le32 h 42 = Ok (offset e)) as -> by (apply le_at; [done|unfold U32_MAX in *; cbn; lia]). step.
  rewrite shifted_mode, of_as_bytes by done.
  assert (slice (pre ++ h ++ as_bytes (name e) ++ post) (length pre + 46 + length (as_bytes (name e)))
            (length pre + 46 + length (as_bytes (name e)) + 0) = Some []) as ->.
  { rewrite (app_assoc h), (app_assoc pre). change post with ([] ++ post). apply slice_at; rewrite !length_app; cbn; lia. }
  cbn [ok_or mbind result_bind length extras]. change (Z.shiftr 788 8 =? 3) with true. step.
  assert (mk_entry (name e) (mode e) (size e) 0 2056 (size e) (crc e) (offset e) start = listed start e) as ->.
  { unfold listed. by rewrite s_method0, s_flags0, s_same0. }
  change (unsupported (listed start e)) with (unsupported e). rewrite s_kind0. do 3 f_equal. lia.
Qed.

(** ** The records of the directory *)

Definition total (es : list Entry) : Z := foldr (fun e n => size e + n) 0 es.

Lemma total_nonneg es : Forall storable es -> 0 <= total es.
Proof.
  induction 1 as [|e es He _ IH]; [done|]. change (total (e :: es)) with (size e + total es). pose proof (s_size e He). lia.
Qed.

Lemma read_entries_centrals start es : forall pre expanded acc,
  Forall storable es -> 0 <= expanded -> expanded + total es <= MAX_BYTES ->
  read_entries (length es) (pre ++ centrals es) start (length pre) expanded acc
  = Ok (acc ++ map (listed start) es, length (pre ++ centrals es)).
Proof.
  induction es as [|e es IH]; intros pre expanded acc HF H0 Ht.
  - cbn. by rewrite !app_nil_r.
  - apply Forall_cons in HF as [He HF]. pose proof (total_nonneg es HF). pose proof (s_size e He).
    change (total (e :: es)) with (size e + total es) in Ht. cbn [length read_entries].
    change (centrals (e :: es)) with ((central_header e (offset e) ++ as_bytes (name e)) ++ centrals es).
    rewrite read_entry_central by done. step. change (size (listed start e)) with (size e).
    unfold checked_add. unfold MAX_BYTES, U64_MAX in *. destruct (Z.leb_spec (expanded + size e) 18446744073709551615); [|lia].
    destruct (Z.leb_spec (expanded + size e) 2147483648); [|lia].
    set (pre' := pre ++ central_header e (offset e) ++ as_bytes (name e)).
    assert ((length pre + (46 + length (as_bytes (name e))))%nat = length pre') as -> by (unfold pre'; by rewrite !length_app).
    rewrite (app_assoc pre). fold pre'. destruct (Nat.ltb_spec (length (pre' ++ centrals es)) (length pre')) as [Hlt|_].
    { rewrite length_app in Hlt. lia. }
    rewrite IH by (done || lia). cbn [map]. by rewrite <- app_assoc.
Qed.

(** ** A cursor *)

Lemma seek_to b i n : 0 <= n <= size_of b -> seek (mk_cursor b i) (Start n) = ret (n, mk_cursor b n).
Proof. intros H. unfold seek, cursor_seek. cbn [c_bytes]. fold (size_of b). destruct (Z.ltb_spec (size_of b) n); [lia|done]. Qed.

Lemma seek_back b i n : 0 <= n <= size_of b -> size_of b <= U64_MAX ->
  seek (mk_cursor b i) (End_ (- n)) = ret (size_of b - n, mk_cursor b (size_of b - n)).
Proof.
  intros H Hb. unfold seek, cursor_seek. cbn [c_bytes]. fold (size_of b).
  destruct (Z.leb_spec 0 (size_of b + - n)); [|lia]. destruct (Z.leb_spec (size_of b + - n) U64_MAX); [|lia]. cbn [andb].
  destruct (Z.ltb_spec (size_of b) (size_of b + - n)); [lia|done].
Qed.

Lemma read_exact_cursor pre l post : read_exact (mk_cursor (pre ++ l ++ post) (size_of pre)) (length l)
  = ret (l, mk_cursor (pre ++ l ++ post) (size_of (pre ++ l))).
Proof.
  unfold read_exact. rewrite size_of_app. destruct (length l) as [|k] eqn:E.
  { apply length_zero_iff_nil in E as ->. cbn. by rewrite Z.add_0_r. }
  cbn [read_exact_loop Nat.eqb]. unfold read, cursor_read. cbn [c_bytes c_at]. unfold size_of.
  destruct (Z.ltb_spec (Z.of_nat (length (pre ++ l ++ post))) (Z.of_nat (length pre))) as [Hlt|_]; [rewrite length_app in Hlt; lia|].
  rewrite Nat2Z.id, drop_app_length, <- E, take_app_length. cbn [bind ret].
  rewrite E. cbn [Nat.eqb]. rewrite Nat.ltb_irrefl. cbn [orb]. rewrite Nat.sub_diag.
  assert (forall c, read_exact_loop k c 0 = ret ([], c)) as -> by (intros c; by destruct k). cbn [bind ret]. by rewrite app_nil_r.
Qed.

(** The part [l] of the bytes, read from its place. *)
Lemma read_part b pre l post n i : b = pre ++ l ++ post -> n = length l -> i = size_of pre ->
  read_exact (mk_cursor b i) n = ret (l, mk_cursor b (size_of (pre ++ l))).
Proof. intros -> -> ->. apply read_exact_cursor. Qed.

Lemma le_app k pre h i : le k (pre ++ h) (length pre + i) = le k h i.
Proof.
  unfold le, slice. rewrite <- Nat.add_assoc, length_app, Nat.add_sub'. rewrite drop_app_add.
  replace (length pre + i <=? length pre + (i + k))%nat with (i <=? i + k)%nat.
  2:{ destruct (Nat.leb_spec i (i + k)), (Nat.leb_spec (length pre + i) (length pre + (i + k))); lia. }
  replace (length pre + (i + k) <=? length pre + length h)%nat with (i + k <=? length h)%nat.
  2:{ destruct (Nat.leb_spec (i + k) (length h)), (Nat.leb_spec (length pre + (i + k)) (length pre + length h)); lia. }
  replace (length pre + (i + k) - (length pre + i))%nat with k by lia. done.
Qed.

(** ** The whole directory *)

(** What the reader asks of the files of an archive besides. *)
Definition readable (files : list File) : Prop :=
  size_of (centrals (placed 0 files)) <= Z.shiftl 64 20
  /\ Forall (fun '(n, m, l) => valid_str n = true /\ 0 <= m < 65536 /\ unsupported (record n m l 0) = false /\ Forall is_byte l) files.

Lemma placed_storable f files : forall off, 0 <= off -> off + size_of (bodies files) <= CAP ->
  Forall (fun '(n, _, l) => Text.len n <= 65535 /\ (length l < f)%nat) files ->
  Forall (fun '(n, m, l) => valid_str n = true /\ 0 <= m < 65536 /\ unsupported (record n m l 0) = false /\ Forall is_byte l) files ->
  Forall storable (placed off files) /\ total (placed off files) <= size_of (bodies files).
Proof.
  induction files as [|[[n m] l] files IH]; intros off Ho Hc HF HR; [by split; [constructor|]|].
  apply Forall_cons in HF as [[Hn _] HF]. apply Forall_cons in HR as [(Hv & Hm & Hk & Hb) HR].
  change (bodies (_ :: files)) with (local n l ++ bodies files) in *. rewrite size_of_app in *. cbn [placed].
  pose proof (size_of_nonneg (bodies files)). pose proof (size_of_nonneg l). pose proof (len_nonneg n).
  pose proof (size_of_local n l) as Hs. rewrite CAP_value in Hc. unfold U32_MAX.
  destruct (IH (off + size_of (local n l))) as [Hst Htt]; [lia|rewrite CAP_value; lia|done|done|].
  change (total (?e :: ?es)) with (size e + total es). split; [constructor; [|done]|cbn [record size]; lia].
  split; cbn [record name mode size method flags compressed crc offset]; unfold U32_MAX; try done; try lia.
  by apply crc32_u32.
Qed.

Lemma rfind_top p n : p n = true -> rfind p (S n) = Some n.
Proof. intros H. cbn. by rewrite H. Qed.

Lemma is_end_at pre h : le32 h 0 = Ok 101010256 -> le16 h 20 = Ok 0 -> length h = 22%nat -> is_end (pre ++ h) (length pre) = true.
Proof.
  intros H0 H20 Hl. unfold is_end. rewrite <- (Nat.add_0_r (length pre)) at 1. unfold le32, le16 in *. rewrite !le_app, H0, H20.
  cbn [Z.eqb Pos.eqb andb]. apply Nat.eqb_eq. rewrite length_app, Hl. cbn. lia.
Qed.

Section Directory.
Context (count sz start : Z) (Hcount : 0 <= count <= MAX_FILES) (Hsz : 0 <= sz <= Z.shiftl 64 20) (Hstart : 0 <= start <= CAP).

Let h := end_record count sz start.
Let c := Z.min count 65535.

Lemma end_record_fields : le32 h 0 = Ok 101010256 /\ le16 h 4 = Ok 0 /\ le16 h 6 = Ok 0 /\ le16 h 8 = Ok c /\ le16 h 10 = Ok c
  /\ le32 h 12 = Ok sz /\ le32 h 16 = Ok start /\ le16 h 20 = Ok 0.
Proof using Hcount Hsz Hstart.
  rewrite CAP_value in Hstart. change (Z.shiftl 64 20) with 67108864 in Hsz. unfold c.
  repeat split; try done; apply le_at; done || (cbn; lia).
Qed.

(** The record at the end, or its extension before it, tells the directory. *)
Lemma read_end_closing before i : size_of before = start + sz ->
  let b := before ++ closing count sz start in size_of b <= U64_MAX ->
  exists i' e, read_end (mk_cursor b i) h (size_of b - 22) = ret (count, sz, start, e, mk_cursor b i') /\ start + sz <= e.
Proof using Hcount Hsz Hstart.
  intros Hb b Hmax. destruct end_record_fields as (_ & _ & _ & _ & H10 & H12 & H16 & _). unfold read_end. rewrite H10, H12, H16.
  cbn [bind ret]. unfold b, closing in *. rewrite CAP_value in Hstart. change (Z.shiftl 64 20) with 67108864 in Hsz.
  unfold U32_MAX, c. destruct (Z.eqb_spec sz 4294967295); [lia|]. destruct (Z.eqb_spec start 4294967295); [lia|].
  destruct (Z.leb_spec 65535 count) as [H6|H6].
  2:{ destruct (Z.eqb_spec (Z.min count 65535) 65535); [lia|]. cbn [orb].
      replace (Z.min count 65535) with count by lia. eexists _, _. split; [done|]. rewrite !size_of_app.
      unfold size_of at 2 3. rewrite length_end_record. cbn [length]. lia. }
  destruct (Z.eqb_spec (Z.min count 65535) 65535); [|lia]. cbn [orb].
  set (z := zip64_end count sz start). set (l := zip64_locator (start + sz)). fold h.
  set (all := before ++ (z ++ l) ++ h).
  assert (size_of all = start + sz + 98) as Hall.
  { unfold all. rewrite !size_of_app, Hb. unfold size_of. cbn. lia. }
  replace (size_of all - 22 - 20) with (start + sz + 56) by lia.
  destruct (Z.ltb_spec (start + sz + 56) 0); [lia|].
  rewrite seek_to by lia. cbn [bind ret].
  rewrite (read_part all (before ++ z) l h); [|unfold all; by rewrite <- !app_assoc|done|].
  2:{ rewrite size_of_app, Hb. done. }
  cbn [bind ret]. assert (le32 l 0 = Ok 117853008) as -> by done. assert (le32 l 4 = Ok 0) as -> by done.
  assert (le32 l 16 = Ok 1) as -> by done. cbn [bind ret Z.eqb Pos.eqb negb orb].
  assert (le64 l 8 = Ok (start + sz)) as -> by (apply le_at; [done|cbn; lia]). cbn [bind ret].
  rewrite seek_to by lia. cbn [bind ret].
  rewrite (read_part all before z (l ++ h)); [|unfold all; by rewrite <- !app_assoc|done|done].
  cbn [bind ret]. assert (le32 z 0 = Ok 101075792) as -> by done. assert (le32 z 16 = Ok 0) as -> by done.
  assert (le32 z 20 = Ok 0) as -> by done. unfold MAX_FILES in Hcount.
  assert (le64 z 24 = Ok count) as -> by (apply le_at; [done|cbn; lia]).
  assert (le64 z 32 = Ok count) as -> by (apply le_at; [done|cbn; lia]).
  cbn [bind ret Z.eqb Pos.eqb negb]. rewrite Z.eqb_refl. destruct (Z.ltb_spec (start + sz + 56) (start + sz + 56)); [lia|].
  cbn [orb negb]. assert (le64 z 40 = Ok sz) as -> by (apply le_at; [done|cbn; lia]).
  assert (le64 z 48 = Ok start) as -> by (apply le_at; [done|cbn; lia]). cbn [bind ret].
  eexists _, _. split; [done|lia].
Qed.

End Directory.

Lemma closing_end count sz start : exists z, closing count sz start = z ++ end_record count sz start.
Proof. unfold closing. by eexists. Qed.

Lemma end_record_last count sz start before : 0 <= count <= MAX_FILES -> 0 <= sz <= Z.shiftl 64 20 -> 0 <= start <= CAP ->
  let tail := before ++ end_record count sz start in rfind (is_end tail) (length tail - 21) = Some (length before).
Proof.
  intros H1 H2 H3 tail. destruct (end_record_fields count sz start H1 H2 H3) as (H0 & _ & _ & _ & _ & _ & _ & H20).
  assert (length tail - 21 = S (length before))%nat as -> by (unfold tail; rewrite length_app, length_end_record; lia).
  apply rfind_top, is_end_at; done.
Qed.

(** The archive with other bytes where the contents are. *)
Definition archive_over (body : list Z) (files : list File) : list Z :=
  let d := centrals (placed 0 files) in body ++ d ++ closing (size_of files) (size_of d) (size_of (bodies files)).

Lemma directory_over f files body : fits f files -> readable files -> size_of body = size_of (bodies files) -> exists i,
  directory (Cursor_new (archive_over body files))
  = ret (map (listed (size_of (bodies files))) (placed 0 files), mk_cursor (archive_over body files) i).
Proof.
  intros (Hn & Hr & HF) [Hd HR] Hbody. pose proof (archive_sizes files) as Hs.
  pose proof (size_of_nonneg (bodies files)) as Hb0. set (es := placed 0 files) in *.
  pose proof (size_of_nonneg (centrals es)) as Hc0. pose proof (size_of_nonneg files) as Hf0.
  rewrite CAP_value in Hr. change (Z.shiftl 64 20) with 67108864 in Hd.
  assert (size_of (bodies files) <= CAP) as Hb by (rewrite CAP_value; destruct (65535 <=? _); lia).
  destruct (placed_storable f files 0) as [Hst Htot]; [lia|lia|done|done|]. fold es in Hst, Htot. rewrite CAP_value in Hb.
  rewrite Hs in Hr. clear Hs. unfold archive_over. fold es. set (count := size_of files) in *. set (sz := size_of (centrals es)) in *.
  set (start := size_of (bodies files)) in *.
  destruct (closing_end count sz start) as [z Hz].
  set (h := end_record count sz start) in *.
  set (all := body ++ centrals es ++ closing count sz start) in *.
  assert (size_of h = 22) as Hh by done.
  assert (size_of all = start + sz + (if 65535 <=? count then 98 else 22)) as Hs
    by (unfold all; rewrite !size_of_app, size_of_closing, Hbody; lia).
  rewrite <- Hs in Hr.
  set (front := body ++ centrals es ++ z). assert (all = front ++ h) as Hall by (unfold all, front; by rewrite Hz, <- !app_assoc).
  assert (size_of all = size_of front + 22) as Hsa by (rewrite Hall, size_of_app, Hh; done). pose proof (size_of_nonneg front) as Hfr.
  unfold directory, Cursor_new. change (End_ 0) with (End_ (- 0)). rewrite (seek_back all 0 0) by (unfold U64_MAX; lia). rewrite Z.sub_0_r. cbn [bind ret].
  set (n := Z.to_nat (Z.min (size_of all) 65557)).
  assert (Z.of_nat n = Z.min (size_of all) 65557) as Hnn by lia.
  rewrite seek_back by (unfold U64_MAX; lia). cbn [bind ret].
  set (skip := (length all - n)%nat).
  assert (exists a b, front = a ++ b /\ length a = skip) as (a & b & Hab & Ha).
  { exists (take skip front), (drop skip front). rewrite take_drop, length_take. split; [done|]. unfold skip, size_of in *. lia. }
  assert (n = length (b ++ h)) as Hnl.
  { assert (length all = (length a + length (b ++ h))%nat) as Hl by (by rewrite Hall, Hab, <- app_assoc, length_app).
    unfold skip, size_of in *. lia. }
  rewrite (read_part all a (b ++ h) []); [|by rewrite Hall, Hab, app_nil_r, <- app_assoc|done|].
  2:{ unfold size_of. rewrite Ha. unfold skip, size_of in *. lia. }
  cbn [bind ret]. unfold h at 1 2. rewrite end_record_last; [|lia|change (Z.shiftl 64 20) with 67108864; lia|rewrite CAP_value; lia].
  fold h. rewrite drop_app_length.
  destruct (end_record_fields count sz start) as (_ & H4 & H6 & H8 & H10 & _ & _ & _);
    [lia|change (Z.shiftl 64 20) with 67108864; lia|rewrite CAP_value; lia|]. fold h in H4, H6, H8, H10.
  rewrite H4, H6, H8, H10. cbn [bind ret Z.eqb Pos.eqb negb orb]. rewrite Z.eqb_refl. cbn [negb].
  destruct (read_end_closing count sz start) with (before := body ++ centrals es) (i := size_of (a ++ b ++ h)) as (i' & e & Hre & He);
    [lia|change (Z.shiftl 64 20) with 67108864; lia|rewrite CAP_value; lia|by rewrite size_of_app, Hbody| |].
  { rewrite <- app_assoc. fold all. unfold U64_MAX. lia. }
  rewrite <- app_assoc in Hre. fold all h in Hre.
  assert (size_of all - Z.of_nat n + Z.of_nat (length b) = size_of all - 22) as ->.
  { rewrite Hnl, length_app. unfold size_of in Hh. lia. }
  rewrite Hre. cbn [bind ret]. unfold MAX_FILES in *. destruct (Z.ltb_spec 100000 count); [lia|].
  change (Z.shiftl 64 20) with 67108864. destruct (Z.ltb_spec 67108864 sz); [lia|]. cbn [orb].
  unfold checked_add, U64_MAX. destruct (Z.leb_spec (start + sz) 18446744073709551615); [|lia].
  destruct (Z.ltb_spec e (start + sz)); [lia|]. assert (start <= size_of all) by (destruct (65535 <=? count); lia). rewrite seek_to by lia. cbn [bind ret].
  rewrite (read_part all body (centrals es) (closing count sz start)); [|done|unfold sz, size_of; lia|by rewrite Hbody].
  cbn [bind ret]. assert (Z.to_nat count = length es) as -> by (unfold es; rewrite length_placed; unfold count, size_of; lia).
  pose proof (read_entries_centrals start es [] 0 []) as Hre'. cbn [app length] in Hre'. rewrite Hre'; [|done|lia|unfold MAX_BYTES; lia].
  cbn [bind ret]. rewrite Nat.eqb_refl. cbn [negb]. by eexists.
Qed.

Lemma directory_archive f files : fits f files -> readable files -> exists i,
  directory (Cursor_new (archive files))
  = ret (map (listed (size_of (bodies files))) (placed 0 files), mk_cursor (archive files) i).
Proof. intros Hf Hr. by apply (directory_over f files (bodies files)). Qed.

(** ** The contents of an entry *)

Lemma local_header_fields n : Text.len n <= 65535 ->
  let h := local_header n in
  le32 h 0 = Ok 67324752 /\ le16 h 8 = Ok 0 /\ le16 h 6 = Ok 2056 /\ le16 h 26 = Ok (Text.len n) /\ le16 h 28 = Ok 0.
Proof. intros Hn. pose proof (len_nonneg n). repeat split; try done. apply le_at; [done|cbn; lia]. Qed.

Lemma take_keeps b : forall (t : Take Cursor) n d t', c_bytes (inner t) = b -> read t n = ret (d, t') -> c_bytes (inner t') = b.
Proof.
  intros [[b' i] k] n d t' Hb H. cbn in Hb. subst b'. unfold read, take_read, read, cursor_read in H. cbn [inner remaining c_bytes c_at] in H.
  destruct (_ <? i); [done|]. cbn [bind ret] in H. destruct (_ <? _)%N; [done|]. by injection H as <- <-.
Qed.

(** The entry of [l] over a place with [l'] of the same length: the checksum decides. *)
Lemma entry_copy_place f n m l l' d pre post start i (out : list Z) :
  let b := pre ++ (local_header n ++ as_bytes n ++ l' ++ d) ++ post in length l' = length l ->
  Text.len n <= 65535 -> (length l < f)%nat -> size_of pre + 30 + Text.len n + size_of l <= start -> start <= size_of b ->
  size_of b <= CAP -> size_of out + size_of l <= CAP ->
  exists i', entry_copy f (listed start (record n m l (size_of pre))) (mk_cursor b i) out
  = if crc32 l' =? crc32 l then ret (mk_cursor b i', out ++ l') else bad "ZIP length or checksum mismatch".
Proof.
  intros b Hll Hn Hf Hp Hs Hb Ho. destruct (local_header_fields n Hn) as (F0 & F8 & F6 & F26 & F28).
  assert (size_of l' = size_of l) as Hl by (unfold size_of; lia). pose proof (size_of_nonneg pre). pose proof (size_of_nonneg l). pose proof (len_nonneg n).
  rewrite CAP_value in Hb. unfold entry_copy. cbn [listed record offset method flags name compressed end_ size crc].
  rewrite seek_to by lia. cbn [bind ret].
  rewrite (read_part b pre (local_header n) (as_bytes n ++ l' ++ d ++ post)); [|unfold b; by rewrite <- !app_assoc|done|done].
  cbn [bind ret]. rewrite F0, F8. cbn [bind ret Z.eqb Pos.eqb andb]. rewrite F6. cbn [bind ret Z.eqb Pos.eqb negb orb].
  rewrite F26, F28. cbn [bind ret].
  rewrite (read_part b (pre ++ local_header n) (as_bytes n) (l' ++ d ++ post)); [|unfold b; by rewrite <- !app_assoc| |done].
  2:{ rewrite len_size_of. unfold size_of. lia. }
  cbn [bind ret]. rewrite bool_decide_eq_true_2 by done. cbn [negb].
  unfold checked_add, U64_MAX. rewrite !Z.add_0_r.
  destruct (Z.leb_spec (size_of pre + (30 + Text.len n)) 18446744073709551615); [|lia]. cbn [ok_or bind ret].
  destruct (Z.leb_spec (size_of pre + (30 + Text.len n) + size_of l) 18446744073709551615); [|lia].
  destruct (Z.ltb_spec start (size_of pre + (30 + Text.len n) + size_of l)); [lia|].
  rewrite seek_to by lia. cbn [bind ret]. set (at_ := size_of pre + (30 + Text.len n)).
  set (raw := mk_take (mk_cursor b at_) (Z.to_N (size_of l))).
  assert (yields raw l') as Hy.
  { exists (l' ++ d ++ post). split.
    - split; cbn [inner raw c_at c_bytes].
      + fold (size_of b). unfold at_. lia.
      + assert (Z.to_nat at_ = length ((pre ++ local_header n) ++ as_bytes n)) as ->.
        { unfold at_. rewrite !length_app, length_local_header, len_size_of. unfold size_of. lia. }
        unfold b. rewrite <- (app_assoc (local_header n)), <- (app_assoc (as_bytes n)), <- (app_assoc l'). rewrite (app_assoc pre), (app_assoc (pre ++ _)).
        by rewrite drop_app_length.
    - cbn [remaining raw]. rewrite <- Hl. unfold size_of. rewrite take_app_ge by lia.
      replace (N.to_nat (Z.to_N (Z.of_nat (length l'))) - length l')%nat with 0%nat by lia. by rewrite take_0, app_nil_r. }
  rewrite CAP_value in Ho. pose proof (size_of_nonneg out).
  destruct (copy_all f (size_of l) raw l' out Hy) as (raw' & Hcopy & _);
    [lia|unfold size_of; lia|unfold U64_MAX; lia|rewrite CAP_value; unfold size_of in *; lia|].
  pose proof (copy_loop_keeps (fun t => c_bytes (inner t) = b) (take_keeps b) f _ raw out _ _ _ _ raw' _ eq_refl Hcopy) as Hkeep. cbn beta in Hkeep.
  rewrite Hcopy. cbn [bind ret]. fold (size_of l'). rewrite Hl, Z.eqb_refl. cbn [negb orb].
  exists (c_at (inner raw')). destruct raw' as [[b' i'] k]. cbn in Hkeep |- *. subst b'.
  by destruct (crc32 l' =? crc32 l).
Qed.

Lemma entry_copy_local f n m l pre post start i (out : list Z) :
  let b := pre ++ local n l ++ post in
  Text.len n <= 65535 -> (length l < f)%nat -> size_of pre + size_of (local n l) <= start -> start <= size_of b ->
  size_of b <= CAP -> size_of out + size_of l <= CAP ->
  exists i', entry_copy f (listed start (record n m l (size_of pre))) (mk_cursor b i) out = ret (mk_cursor b i', out ++ l).
Proof.
  intros b Hn Hf Hp Hs Hb Ho. pose proof (size_of_local n l).
  destruct (entry_copy_place f n m l l (words [134695760; crc32 l; size_of l mod 2 ^ 32; size_of l mod 2 ^ 32]) pre post start i out)
    as (i' & He); try done; [lia|]. rewrite Z.eqb_refl in He. by exists i'.
Qed.

Lemma placed_split files : forall off k e, placed off files !! k = Some e -> exists f1 n m l f2,
  files = f1 ++ (n, m, l) :: f2 /\ k = length f1 /\ e = record n m l (off + size_of (bodies f1)).
Proof.
  induction files as [|[[n m] l] files IH]; intros off k e H; [done|]. destruct k as [|k]; cbn [placed lookup list_lookup] in H.
  - injection H as <-. exists [], n, m, l, files. cbn. rewrite Z.add_0_r. done.
  - apply IH in H as (f1 & n' & m' & l' & f2 & -> & -> & ->). exists ((n, m, l) :: f1), n', m', l', f2.
    split; [done|]. split; [done|]. f_equal. change (bodies ((n, m, l) :: f1)) with (local n l ++ bodies f1).
    rewrite size_of_app. lia.
Qed.

Lemma bodies_app f1 f2 : bodies (f1 ++ f2) = bodies f1 ++ bodies f2.
Proof. apply flat_map_app. Qed.

(** What is read of an entry is what was added. *)
Definition reads_as (f : nat) (bytes : list Z) (file : File) (e : Entry) : Prop :=
  let '(n, m, l) := file in
  name e = n /\ mode e = m /\ size e = size_of l
  /\ forall i limit, entry_directory e = false -> size_of l <= limit ->
     exists i', entry_bytes f e (mk_cursor bytes i) limit = ret (mk_cursor bytes i', l).

Lemma entries_read_as f files : fits f files ->
  Forall2 (reads_as f (archive files)) files (map (listed (size_of (bodies files))) (placed 0 files)).
Proof.
  intros (Hn & Hr & HF). pose proof (archive_sizes files) as Hs.
  pose proof (size_of_nonneg (centrals (placed 0 files))) as Hc0.
  assert (size_of (bodies files) <= size_of (archive files)) by (destruct (65535 <=? _); lia).
  apply Forall2_same_length_lookup. split; [by rewrite length_map, length_placed|]. intros k file e Hf He.
  apply list_lookup_fmap_Some in He as (e0 & -> & He0). apply placed_split in He0 as (f1 & n & m & l & f2 & Hfs & -> & ->).
  rewrite Hfs, (list_lookup_middle f1 f2 _ _ eq_refl) in Hf. injection Hf as <-. rewrite Z.add_0_l.
  rewrite Hfs in HF. apply Forall_app in HF as [_ HF]. apply Forall_cons in HF as [[Hl1 Hl2] _].
  assert (bodies files = bodies f1 ++ local n l ++ bodies f2) as Hb by (rewrite Hfs, bodies_app; done).
  assert (archive files = bodies f1 ++ local n l ++ (bodies f2 ++ centrals (placed 0 files)
    ++ closing (size_of files) (size_of (centrals (placed 0 files))) (size_of (bodies files)))) as Ha.
  { unfold archive. rewrite Hb at 1. by rewrite <- !app_assoc. }
  cbn [reads_as]. split; [done|]. split; [done|]. split; [done|]. intros i limit Hd Hlim. unfold entry_bytes. rewrite Hd.
  change (size (listed _ _)) with (size_of l). destruct (Z.ltb_spec limit (size_of l)); [lia|]. cbn [orb].
  pose proof (size_of_nonneg (bodies f2)).
  assert (size_of (bodies files) = size_of (bodies f1) + size_of (local n l) + size_of (bodies f2)) as Hsb by (rewrite Hb, !size_of_app; lia).
  rewrite Ha in *. pose proof (size_of_local n l). pose proof (size_of_nonneg (bodies f1)). pose proof (len_nonneg n).
  apply entry_copy_local; try done; [lia|]. change (size_of (@nil Z)) with 0. lia.
Qed.

(** ** Archives are read back *)

(** Whatever files are added to an archive that fits, the writer finishes it, and the reader
    lists from its bytes exactly those files, in their order, with their names, modes and sizes,
    and reads of every entry the bytes that were added; archives of 65535 files and more, whose
    directory needs the extension for large files, included. *)
Theorem archives_are_read_back f files : fits f files -> readable files -> exists bytes i es,
  write_archive f files = ret bytes /\ directory (Cursor_new bytes) = ret (es, mk_cursor bytes i)
  /\ Forall2 (reads_as f bytes) files es.
Proof.
  intros Hf Hr. destruct (directory_archive f files Hf Hr) as (i & Hd).
  exists (archive files), i. eexists. split; [by apply write_archive_fits|]. split; [done|]. by apply entries_read_as.
Qed.

Definition sample_files : list File :=
  [("notes/first.txt"%string, 33152, as_bytes "hello"); ("b"%string, 33152, []); ("c"%string, 33188, [0; 255; 10])].

Lemma sample_fits : fits 10 sample_files.
Proof.
  split; [done|]. split; [vm_compute; by intros|]. unfold sample_files. repeat constructor; try (by intros); cbn; lia.
Qed.

Lemma sample_readable : readable sample_files.
Proof.
  split; [vm_compute; by intros|]. unfold sample_files. repeat constructor; try (by intros); try done; cbn; unfold is_byte; lia.
Qed.

Lemma archives_are_read_back_witness : exists bytes i es,
  write_archive 10 sample_files = ret bytes /\ directory (Cursor_new bytes) = ret (es, mk_cursor bytes i)
  /\ Forall2 (reads_as 10 bytes) sample_files es.
Proof. exact (archives_are_read_back 10 sample_files sample_fits sample_readable). Defined.

(** ** Damage is noticed *)

Lemma crc32_one_byte a x c y : Forall is_byte (a ++ x :: c) -> is_byte y -> crc32 (a ++ x :: c) = crc32 (a ++ y :: c) -> x = y.
Proof. intros Hl Hy H. by apply (checksum_one_byte [] a x y c). Qed.

(** The archive in which one byte of the contents of a file became another. *)
Definition damaged (f1 : list File) (n : string) (m : Z) (a : list Z) (x : Z) (c : list Z) (f2 : list File) (y : Z) : list Z :=
  <[(length (bodies f1) + length (local_header n ++ as_bytes n ++ a))%nat := y]> (archive (f1 ++ (n, m, a ++ x :: c) :: f2)).

Lemma insert_middle {A} (a : list A) x c y k : k = length a -> <[k := y]> (a ++ x :: c) = a ++ y :: c.
Proof. intros ->. rewrite <- (Nat.add_0_r (length a)), insert_app_r. done. Qed.

(** A changed byte in the contents of an archive is refused: the directory still lists the
    files, and reading the entry the byte belongs to fails on the checksum, whatever the byte
    became and whichever of the contents it is. *)
Theorem a_changed_byte_is_refused f f1 n m a x c f2 y i limit :
  let files := f1 ++ (n, m, a ++ x :: c) :: f2 in
  fits f files -> readable files -> is_byte y -> y <> x -> size_of (a ++ x :: c) <= limit ->
  let bytes := damaged f1 n m a x c f2 y in
  exists es e j, directory (Cursor_new bytes) = ret (es, mk_cursor bytes j) /\ es !! length f1 = Some e /\ name e = n
  /\ (entry_directory e = false -> entry_bytes f e (mk_cursor bytes i) limit = bad "ZIP length or checksum mismatch").
Proof.
  intros files Hf Hr Hy Hne Hlim bytes. set (l := a ++ x :: c) in *. set (l' := a ++ y :: c).
  set (d := words [134695760; crc32 l; size_of l mod 2 ^ 32; size_of l mod 2 ^ 32]).
  set (body := bodies f1 ++ (local_header n ++ as_bytes n ++ l' ++ d) ++ bodies f2).
  assert (bodies files = bodies f1 ++ local n l ++ bodies f2) as Hbf by (unfold files; by rewrite bodies_app).
  assert (bytes = archive_over body files) as Hb.
  { unfold bytes, damaged. change (archive (f1 ++ _)) with (archive files).
    assert (archive files = (bodies f1 ++ local_header n ++ as_bytes n ++ a) ++ x :: (c ++ d ++ bodies f2 ++ centrals (placed 0 files)
      ++ closing (size_of files) (size_of (centrals (placed 0 files))) (size_of (bodies files)))) as ->.
    { unfold archive. rewrite Hbf at 1. unfold local. fold d. unfold l at 1. rewrite <- !app_assoc. done. }
    rewrite insert_middle by (rewrite !length_app; lia). unfold archive_over, body, l'. rewrite <- !app_assoc. done. }
  assert (size_of l' = size_of l) as Hl by (unfold l, l', size_of; by rewrite !length_app).
  assert (size_of body = size_of (bodies files)) as Hsb by (rewrite Hbf; unfold body, local; fold d; rewrite !size_of_app, Hl; lia).
  destruct (directory_over f files body Hf Hr Hsb) as (j & Hd). rewrite <- Hb in Hd.
  exists (map (listed (size_of (bodies files))) (placed 0 files)), (listed (size_of (bodies files)) (record n m l (size_of (bodies f1)))), j.
  split; [done|]. split.
  { rewrite list_lookup_fmap. unfold files. clear. generalize (size_of (bodies (f1 ++ (n, m, l) :: f2))). intros st.
    assert (forall off, placed off (f1 ++ (n, m, l) :: f2) !! length f1 = Some (record n m l (off + size_of (bodies f1)))) as H.
    { induction f1 as [|[[n1 m1] l1] f1 IH]; intros off; cbn [app placed length lookup list_lookup]; [by rewrite Z.add_0_r|].
      rewrite IH. do 2 f_equal. change (bodies (_ :: f1)) with (local n1 l1 ++ bodies f1). rewrite size_of_app. lia. }
    by rewrite H. }
  split; [done|]. intros Hdir. unfold entry_bytes. rewrite Hdir. cbn [listed record size]. fold l.
  destruct (Z.ltb_spec limit (size_of l)); [lia|]. cbn [orb].
  destruct Hf as (Hn & Hc & HF). destruct Hr as [_ HR]. unfold files in HF, HR.
  apply Forall_app in HF as [_ HF]. apply Forall_cons in HF as [[Hn1 Hl1] _]. apply Forall_app in HR as [_ HR].
  apply Forall_cons in HR as [(_ & _ & _ & Hbytes) _].
  assert (bytes = bodies f1 ++ (local_header n ++ as_bytes n ++ l' ++ d) ++ (bodies f2 ++ centrals (placed 0 files)
    ++ closing (size_of files) (size_of (centrals (placed 0 files))) (size_of (bodies files)))) as Hb2.
  { rewrite Hb. unfold archive_over, body. by rewrite <- !app_assoc. }
  assert (size_of bytes = size_of (archive files)) as Hs by (rewrite Hb; unfold archive_over, archive; rewrite !size_of_app, Hsb; done).
  rewrite archive_sizes in *. pose proof (size_of_nonneg (centrals (placed 0 files))).
  assert (size_of (bodies files) <= size_of bytes <= CAP) as [Hs1 Hs2] by (destruct (65535 <=? _); lia).
  pose proof (size_of_local n l). pose proof (size_of_nonneg (bodies f1)). pose proof (size_of_nonneg (bodies f2)). pose proof (len_nonneg n).
  assert (size_of (bodies files) = size_of (bodies f1) + size_of (local n l) + size_of (bodies f2)) as Hsf by (rewrite Hbf, !size_of_app; lia).
  edestruct (entry_copy_place f n m l l' d (bodies f1)) with (out := ([] : list Z)) as (i' & He); cycle 7.
  - rewrite <- Hb2 in He. rewrite He. destruct (Z.eqb_spec (crc32 l') (crc32 l)) as [Heq|]; [|done].
    exfalso. apply Hne. by apply eq_sym, (crc32_one_byte a x c y).
  - unfold size_of in Hl. lia.
  - done.
  - done.
  - lia.
  - by rewrite <- Hb2.
  - by rewrite <- Hb2.
  - change (size_of (@nil Z)) with 0. lia.
Qed.

Lemma a_changed_byte_is_refused_witness :
  let bytes := damaged [] "notes/first.txt" 33152 (as_bytes "he") 108 (as_bytes "lo")
                 [("b"%string, 33152, []); ("c"%string, 33188, [0; 255; 10])] 76 in
  exists es e j, directory (Cursor_new bytes) = ret (es, mk_cursor bytes j) /\ es !! 0%nat = Some e /\ name e = "notes/first.txt"%string
  /\ (entry_directory e = false -> entry_bytes 10 e (mk_cursor bytes 0) 5 = bad "ZIP length or checksum mismatch").
Proof.
  refine (a_changed_byte_is_refused 10 [] "notes/first.txt" 33152 (as_bytes "he") 108 (as_bytes "lo") _ 76 0 5 _ _ _ _ _).
  - exact sample_fits.
  - exact sample_readable.
  - unfold is_byte; lia.
  - lia.
  - by intros.
Defined.

(** ** What is read has its checksum *)

Section Any.
Context {R : Type} {HR : Read R} {HS : Seek R}.

Lemma bind_ok {A B} (m : Run A) (f : A -> Run B) b : bind m f = ret b -> exists a, m = ret a /\ f a = ret b.
Proof. destruct m as [[a|]|]; [by exists a|done..]. Qed.

(** One more step of a run that succeeds. *)
Ltac next H :=
  lazymatch type of H with
  | bind _ _ = _ =>
      let a := fresh "a" in let Ha := fresh "Ha" in apply bind_ok in H as (a & Ha & H);
      repeat match type of a with prod _ _ => let x := fresh "x" in destruct a as [a x] end; cbn beta iota zeta in H
  | (if ?c then bad _ else _) = _ => destruct c eqn:?; [discriminate H|]
  end.

(** Of whatever archive, stored or compressed, what is read of an entry has the length and
    the checksum that the directory tells, and is within the limit of the caller. *)
Theorem contents_match_their_directory f e (src : R) limit src' l :
  entry_bytes f e src limit = ret (src', l) -> 0 <= size e ->
  size_of l = size e /\ crc32 l = crc e /\ size_of l <= limit /\ entry_directory e = false.
Proof.
  intros H He. unfold entry_bytes in H. destruct (entry_directory e); [done|]. cbn [orb] in H.
  destruct (Z.ltb_spec limit (size e)); [done|]. unfold entry_copy in H.
  assert (forall n c (out : list Z), (let data := out in n = size_of data /\ c = crc32 data) ->
    negb (n =? size e) || negb (c =? crc e) = false -> size_of out = size e /\ crc32 out = crc e /\ size_of out <= limit /\ false = false) as Hend.
  { cbn zeta. intros n c out [-> ->] Hc. apply orb_false_iff in Hc as [H1%negb_false_iff%Z.eqb_eq H2%negb_false_iff%Z.eqb_eq].
    repeat split; done || lia. }
  repeat next H. injection H as <- <-.
  match goal with Hm : (if method e =? 0 then _ else _) = _ |- _ => rename Hm into Hcopy end.
  match goal with Hc : negb (_ =? size e) || _ = false |- _ => refine (Hend _ _ _ _ Hc) end.
  destruct (method e =? 0); [|destruct (method e =? 8); [|done]]; repeat next Hcopy; injection Hcopy as <- <- <- <-;
    match goal with Hc : copy _ _ _ _ = _ |- _ => apply copy_sound in Hc as (data & -> & -> & -> & _); [by split|done] end.
Qed.

End Any.

Definition sample_entry : Entry := listed (size_of (bodies sample_files)) (record "notes/first.txt" 33152 (as_bytes "hello") 0).

Lemma contents_match_their_directory_witness : exists c, entry_bytes 10 sample_entry (Cursor_new (archive sample_files)) 5 = ret (c, as_bytes "hello")
  /\ (size_of (as_bytes "hello") = size sample_entry /\ crc32 (as_bytes "hello") = Zip.crc sample_entry
      /\ size_of (as_bytes "hello") <= 5 /\ entry_directory sample_entry = false).
Proof.
  eexists. split; [vm_compute; reflexivity|].
  refine (contents_match_their_directory 10 sample_entry (Cursor_new (archive sample_files)) 5 _ _ _ _); [vm_compute; reflexivity|by intros].
Defined.
