(* ===== verification/Archive.v ===== *)
(** * Archive: backups of a controller whose apps run elsewhere

    Models [controller/src/archive/mod.rs]: the archive a document is kept in, its restoration
    and the zones of the archive that comes with the program.  The theorems say that what was
    written is restored, and what a restored document is. *)

From Stdlib Require Import ZArith Lia String.
From S2P Require Import ArchiveIo Inflate Zip ZipOk Prelude Text Errors Slots Value Json JsonRoundtrip Document StoreDoc Web.
From S2P Require Timezone.

Local Open Scope Z_scope.
Local Open Scope run_scope.
Local Notation "'let!' ( x , s ) := m 'in' k" := (bind m (fun p => match p with (x, s) => k end))
  (at level 10, x name, s name, m at level 100, k at level 200) : run_scope.

Definition app_entry (app : Value) : Result Value :=
  if negb (is_empty (text app "root")) then Err (Invalid "backup contains local app bundles; use a bundle-capable host")
  else Ok (fields [("id"%string, VString (text app "id"))]).

Definition backup_meta (created : string) (apps : list Value) : Value :=
  fields [("format"%string, value_uint 1); ("createdAt"%string, VString created); ("apps"%string, VArray apps)].

Definition write_external (f : nat) (document : list Z) (created : string) : Run (list Z) :=
  let! doc := Some (decode document) in
  let! apps := Some (push_all app_entry 4096 (records doc "apps") []) in
  let! meta := Some (from_hop (write (backup_meta created apps))) in
  let! zip := add f (Writer_new []) "backup.json" 33152 meta in
  let! zip := add f zip "stulp.json" 33152 document in
  finish zip.

(** [entries.iter().find(|e| e.name == name)] *)
Definition find_entry (entries : list Entry) (n : string) : option Entry :=
  find (fun e => (name e =? n)%string) entries.

Definition read_entry_named (f : nat) (entries : list Entry) (src : Cursor) (n : string) (cap : Z) : Run (Cursor * list Z) :=
  let! e := Some (ok_or (find_entry entries n) (Missing "backup entry")) in entry_bytes f e src cap.

(** The apps of the description, each of which must be an app of the document. *)
Fixpoint check_apps (doc : Document) (apps : list Value) (ids : list string) : Result (list string) :=
  match apps with
  | [] => Ok ids
  | entry :: apps =>
      let id := text entry "id" in
      bad ← (if is_empty id || bool_decide (id ∈ ids) || negb (is_empty (text entry "path")) then Ok true
             else r ← record doc "apps" id; Ok (negb (is_empty (text r "root"))));
      if bad : bool then Err (Invalid "invalid external backup app")
      else ids ← push ids id 4096; check_apps doc apps ids
  end.

Definition is_backup_name (n : string) : bool := (n =? "backup.json")%string || (n =? "stulp.json")%string.

Definition read_external (f : nat) (archive : list Z) : Run (list Z) :=
  let! (entries, src) := directory (Cursor_new archive) in
  let two := match entries with
             | [a; b] => is_backup_name (name a) && is_backup_name (name b) && negb (name a =? name b)%string
             | _ => false
             end in
  if negb two then stop (Invalid "expected external-slot backup without local app bundles")
  else
    let! (src, meta) := read_entry_named f entries src "backup.json" MAX_INPUT in
    let! meta := Some (json_parse meta) in
    if negb (uint meta "format" =? 1) then stop (Invalid "unsupported backup format")
    else
      let! (_, bytes) := read_entry_named f entries src "stulp.json" MAX_BYTES in
      let! doc := Some (decode bytes) in
      let apps := array meta "apps" in
      if negb (length apps =? length (records doc "apps"))%nat then stop (Invalid "backup app count mismatch")
      else
        let! _ := Some (check_apps doc apps []) in
        Some (encode doc).

(** ** Zones *)

Definition bad_part (p : list Z) : bool := bool_decide (p = []) || bool_decide (p = [46]) || bool_decide (p = [46; 46]).

(** [bundled] is the archive of the zones that is part of the program. *)
Definition timezone (f : nat) (bundled : list Z) (n : string) : Run Timezone.Timezone :=
  if is_empty n || (n =? "UTC")%string || (n =? "Etc/UTC")%string then ret (Timezone.mk_timezone [] [] None)
  else if starts_with "/" n || existsb bad_part (split_at 47 (as_bytes n)) then stop (Invalid "invalid timezone name")
  else
    let! (entries, src) := directory (Cursor_new bundled) in
    let! e := Some (ok_or (find_entry entries n) (Missing "timezone unavailable")) in
    let! (_, bytes) := entry_bytes f e src (Z.shiftl 1 20) in
    Some (Timezone.decode bytes).

(** * ArchiveOk: backups are restored

    What [write_external] leaves is accepted by [read_external] and gives the document back, and
    a document that is restored from any archive is well formed and without local bundles. *)

Local Open Scope run_scope.
Local Notation "'let!' ( x , s ) := m 'in' k" := (bind m (fun p => match p with (x, s) => k end))
  (at level 10, x name, s name, m at level 100, k at level 200) : run_scope.

(** ** The description *)

(** The entry of an app of the document. *)
Definition id_only (app : Value) : Value := fields [("id"%string, VString (text app "id"))].

Lemma id_only_text app : text (id_only app) "id" = text app "id".
Proof. done. Qed.

Lemma app_entries apps : Forall (fun a => text a "root" = ""%string) apps -> Z.of_nat (length apps) <= 4096 ->
  push_all app_entry 4096 apps [] = Ok (map id_only apps).
Proof.
  intros HF Hl. apply (push_all_complete app_entry 4096 apps (map id_only apps) []); [|done].
  apply Forall2_fmap_r, Forall_Forall2_diag. eapply Forall_impl; [exact HF|]. intros a Ha. unfold app_entry. by rewrite Ha.
Qed.

Lemma meta_exact created apps : valid_str created = true -> Forall (fun a => valid_str (text a "id") = true) apps ->
  exact (backup_meta created (map id_only apps)) = true.
Proof.
  intros Hc HF. cbn -[valid_str]. rewrite Hc. change (valid_str "format") with true. change (valid_str "createdAt") with true.
  change (valid_str "apps") with true. cbn [andb]. rewrite andb_true_r. apply forallb_forall. intros v Hv.
  apply in_map_iff in Hv as (a & <- & Ha%list_elem_of_In). rewrite Forall_forall in HF. cbn -[valid_str]. by rewrite (HF a Ha).
Qed.

Lemma meta_depth created apps : (vdepth (backup_meta created (map id_only apps)) <= 32)%nat.
Proof.
  assert (list_max (map vdepth (map id_only apps)) <= 2)%nat as H.
  { apply list_max_le, Forall_forall. intros n Hn. apply list_elem_of_In, in_map_iff in Hn as (v & <- & Hv).
    apply in_map_iff in Hv as (a & <- & _). cbn. lia. }
  change (vdepth (backup_meta created (map id_only apps))) with
    (S (Nat.max 1 (Nat.max 1 (Nat.max (S (list_max (map vdepth (map id_only apps)))) 0)))). lia.
Qed.

(** ** The apps *)

Lemma record_found d c r : r ∈ records d c -> NoDup (ids (records d c)) -> record d c (text r "id") = Ok r.
Proof. intros Hr Hn. by apply record_Ok, find_id_elem. Qed.

Lemma check_apps_all d apps : forall before, records d "apps" = before ++ apps ->
  records_ok (records d "apps") -> Forall (fun a => text a "root" = ""%string) (records d "apps") ->
  check_apps d (map id_only apps) (ids before) = Ok (ids (before ++ apps)).
Proof.
  induction apps as [|a apps IH]; intros before He Hok Hroot; [by rewrite app_nil_r|].
  assert (a ∈ records d "apps") as Ha by (rewrite He; set_solver). destruct Hok as (Hlen & Hne & Hnd).
  cbn [map check_apps]. rewrite id_only_text.
  assert (is_empty (text a "id") = false) as ->.
  { unfold is_empty. destruct (String.eqb_spec (text a "id") ""); [|done]. rewrite Forall_forall in Hne. exfalso. apply (Hne (text a "id")); [|done].
    apply list_elem_of_fmap. by exists a. }
  rewrite bool_decide_eq_false_2.
  2:{ intros Hin. rewrite He in Hnd. unfold ids in Hnd. rewrite map_app in Hnd. apply NoDup_app in Hnd as (_ & Hd & _).
      apply (Hd _ Hin). cbn. by left. }
  change (text (id_only a) "path") with ""%string. cbn [orb is_empty String.eqb negb].
  rewrite (record_found d "apps" a) by done. cbn [mbind result_bind].
  rewrite Forall_forall in Hroot. rewrite (Hroot a Ha). cbn [is_empty String.eqb negb].
  rewrite (proj2 (push_Ok (ids before) (text a "id") 4096 (ids before ++ [text a "id"]))).
  2:{ split; [|done]. rewrite He, length_app in Hlen. cbn [length] in Hlen. unfold ids. rewrite length_map. unfold MAX_RECORDS in Hlen. lia. }
  cbn [mbind result_bind]. change (ids before ++ [text a "id"]) with (ids before ++ ids [a]).
  assert (ids before ++ ids [a] = ids (before ++ [a])) as -> by (unfold ids; by rewrite map_app).
  rewrite IH; [by rewrite <- app_assoc|by rewrite He, <- app_assoc|done|by apply Forall_forall].
Qed.

(** ** Restoration *)

Definition backup_files (meta document : list Z) : list File :=
  [("backup.json"%string, 33152, meta); ("stulp.json"%string, 33152, document)].

Definition local_free (d : Document) : Prop := Forall (fun a => text a "root" = ""%string) (records d "apps").

Section Backup.
Context (f : nat) (document meta : list Z) (created : string) (d : Document).
Context (Hbytes : Forall is_byte document) (Hdoc : decode document = Ok d) (Hlocal : local_free d).
Context (Hcreated : valid_str created = true) (Hids : Forall (fun a => valid_str (text a "id") = true) (records d "apps")).
Context (Hmeta : write (backup_meta created (map id_only (records d "apps"))) = Ok meta) (Hsize : size_of meta <= MAX_INPUT).
Context (Hfuel : (length document < f)%nat) (Hfuel' : (length meta < f)%nat).

Let files := backup_files meta document.

Lemma document_size : size_of document <= MAX_BYTES.
Proof using Hdoc.
  clear - Hdoc. unfold decode in Hdoc. fold (size_of document) in Hdoc. destruct (Z.ltb_spec MAX_BYTES (size_of document)); [done|lia].
Qed.

Lemma backup_fits : fits f files /\ readable files.
Proof using All.
  pose proof document_size as Hd. pose proof (size_of_nonneg meta). pose proof (size_of_nonneg document).
  assert (size_of (centrals (placed 0 files)) = 46 + 11 + (46 + 10)) as Hc by done.
  assert (size_of (bodies files) = (30 + 11 + size_of meta + 16) + (30 + 10 + size_of document + 16)) as Hb.
  { unfold files, backup_files. cbn [bodies flat_map]. rewrite !size_of_app, !size_of_local. change (Text.len "backup.json") with 11. change (Text.len "stulp.json") with 10.
    change (size_of (@nil Z)) with 0. lia. }
  unfold MAX_INPUT, MAX_BYTES in *. split; [split; [done|split]|split].
  - rewrite archive_sizes, Hb, Hc, CAP_value. change (65535 <=? size_of files) with false. lia.
  - unfold files, backup_files. repeat constructor; done.
  - rewrite Hc. done.
  - unfold files, backup_files. constructor; [|constructor; [|constructor]];
      (split; [done|]; split; [lia|]; split; [done|]); [by apply (write_bytes _ _ Hmeta)|done].
Qed.

Lemma write_external_files : write_external f document created = write_archive f files.
Proof using All.
  unfold write_external. rewrite Hdoc. cbn [bind]. destruct (doc_records d "apps" (decode_ok _ _ Hdoc)) as [_ (Hlen & _)]; [vm_compute; set_solver|].
  rewrite app_entries by done. cbn [bind]. rewrite Hmeta. cbn [from_hop bind]. unfold write_archive, files, backup_files. cbn [add_all].
  destruct (add f (Writer_new []) "backup.json" 33152 meta) as [[w|]|]; [|done..]. cbn [bind].
  by destruct (add f w "stulp.json" 33152 document) as [[w2|]|].
Qed.

Lemma meta_reads : json_parse meta = Ok (backup_meta created (map id_only (records d "apps"))).
Proof using All.
  pose proof (meta_exact created (records d "apps") Hcreated Hids) as He.
  destruct (exact_parses _ He) as (bs & Hw & Hp); [apply meta_depth|]. rewrite Hmeta in Hw. injection Hw as <-.
  unfold json_parse, parse_bounded. rewrite Hp; [done|]. exact Hsize.
Qed.

Lemma read_external_archive : read_external f (archive files) = Some (encode d).
Proof using All.
  destruct backup_fits as [Hfit Hread]. destruct (directory_archive f files Hfit Hread) as (i & Hd).
  pose proof (entries_read_as f files Hfit) as Hes. revert Hd Hes.
  generalize (size_of (bodies files)) as st. set (bytes := archive files). intros st Hd Hes.
  set (e1 := listed st (ZipOk.record "backup.json" 33152 meta 0)).
  set (e2 := listed st (ZipOk.record "stulp.json" 33152 document (0 + size_of (local "backup.json" meta)))).
  change (map (listed st) (placed 0 files)) with [e1; e2] in Hd, Hes. clearbody bytes.
  apply Forall2_cons in Hes as [(_ & _ & _ & H1) Hes]. apply Forall2_cons in Hes as [(_ & _ & _ & H2) _].
  unfold read_external. rewrite Hd. cbn [bind ret].
  change (negb (is_backup_name (name e1) && is_backup_name (name e2) && negb (name e1 =? name e2)%string)) with false. cbn match.
  assert (exists i1, read_entry_named f [e1; e2] (mk_cursor bytes i) "backup.json" MAX_INPUT = ret (mk_cursor bytes i1, meta))
    as (i1 & ->) by exact (H1 i MAX_INPUT eq_refl Hsize).
  cbn [bind ret]. rewrite meta_reads. cbn [bind].
  change (uint (backup_meta created _) "format" =? 1) with true. cbn [negb].
  assert (exists i2, read_entry_named f [e1; e2] (mk_cursor bytes i1) "stulp.json" MAX_BYTES = ret (mk_cursor bytes i2, document))
    as (i2 & ->) by exact (H2 i1 MAX_BYTES eq_refl document_size).
  cbn [bind ret]. rewrite Hdoc. cbn [bind].
  change (array (backup_meta created ?a) "apps") with a. rewrite length_map, Nat.eqb_refl. cbn [negb].
  destruct (doc_records d "apps" (decode_ok _ _ Hdoc)) as [_ Hrs]; [vm_compute; set_solver|].
  pose proof (check_apps_all d (records d "apps") [] eq_refl Hrs Hlocal) as Hca. change (ids []) with (@nil string) in Hca. by rewrite Hca.
Qed.

End Backup.

(** C21: A backup is restored: whatever document, without local bundles, is written to an archive,
    its restoration gives the document as it is stored, provided that the description of its
    apps is within the limit of ordinary JSON. *)
Theorem external_backups_are_restored f document meta created d :
  Forall is_byte document -> decode document = Ok d -> local_free d ->
  valid_str created = true -> Forall (fun a => valid_str (text a "id") = true) (records d "apps") ->
  write (backup_meta created (map id_only (records d "apps"))) = Ok meta -> size_of meta <= MAX_INPUT ->
  (length document < f)%nat -> (length meta < f)%nat ->
  exists bytes, write_external f document created = ret bytes /\ read_external f bytes = Some (encode d).
Proof.
  intros Hb Hd Hl Hc Hi Hm Hs Hf Hf'. exists (archive (backup_files meta document)).
  rewrite (write_external_files f document meta created d), (read_external_archive f document meta created d); try done.
  split; [|done]. apply write_archive_fits. by apply (backup_fits f document meta created d).
Qed.

Definition sample_backup : list Z := as_bytes
  (of_bytes (as_bytes "{'version':2,'apps':[{'id':'com.stulp.virtualdevices','enabled':true}],'system':{'timezone':'Europe/Amsterdam'}}"
             ≫= fun c => [if c =? 39 then 34 else c])).
Definition sample_doc : Document := Eval vm_compute in match decode sample_backup with Ok d => d | Err _ => mk_doc VNull end.
Definition sample_meta : list Z := Eval vm_compute in
  match write (backup_meta "2026-10-02T12:00:00Z" (map id_only (records sample_doc "apps"))) with Ok m => m | Err _ => [] end.

Lemma external_backups_are_restored_witness :
  exists bytes, write_external 1000 sample_backup "2026-10-02T12:00:00Z" = ret bytes /\ read_external 1000 bytes = Some (encode sample_doc).
Proof.
  apply (external_backups_are_restored 1000 sample_backup sample_meta "2026-10-02T12:00:00Z" sample_doc).
  - unfold sample_backup. apply as_bytes_is_byte.
  - vm_compute. reflexivity.
  - repeat constructor.
  - reflexivity.
  - repeat constructor.
  - vm_compute. reflexivity.
  - vm_compute. by intros.
  - vm_compute. lia.
  - vm_compute. lia.
Defined.

(** ** What is restored *)

Lemma check_apps_sound d apps : forall before after, check_apps d apps before = Ok after -> NoDup before ->
  exists new, after = before ++ new /\ length new = length apps /\ NoDup after
    /\ Forall (fun i => exists r, record d "apps" i = Ok r /\ text r "root" = ""%string) new.
Proof.
  induction apps as [|entry apps IH]; intros before after H Hn; cbn [check_apps] in H.
  { injection H as <-. exists []. rewrite app_nil_r. repeat split; [done|constructor]. }
  set (i := text entry "id") in *. destruct (is_empty i || bool_decide (i ∈ before) || negb (is_empty (text entry "path"))) eqn:E; [done|].
  apply orb_false_iff in E as [[_ Hi%bool_decide_eq_false]%orb_false_iff _].
  destruct (record d "apps" i) as [r|] eqn:Er; [|done]. cbn [mbind result_bind] in H.
  destruct (is_empty (text r "root")) eqn:Eroot; [|done]. cbn [negb] in H. apply String.eqb_eq in Eroot.
  destruct (push before i 4096) as [b2|] eqn:Ep; [|done]. apply push_Ok in Ep as [_ ->]. cbn [mbind result_bind] in H.
  apply IH in H as (new & -> & Hl & Hnd & HF).
  - exists (i :: new). rewrite <- app_assoc. cbn [app length]. rewrite <- app_assoc in Hnd. repeat split; [lia|done|]. constructor; [by exists r|done].
  - apply NoDup_app. split; [done|]. split; [|apply NoDup_singleton].
    intros x Hx Hx'. apply list_elem_of_singleton in Hx'. by subst x.
Qed.

Lemma all_apps_checked d apps new : records_ok (records d "apps") -> length apps = length (records d "apps") ->
  check_apps d apps [] = Ok new -> local_free d.
Proof.
  intros (_ & _ & Hnd) Hl H. apply check_apps_sound in H as (new' & -> & Hl' & Hn & HF); [|constructor]. cbn [app] in Hn.
  assert (Forall (fun i => i ∈ ids (records d "apps")) new') as Hin.
  { eapply Forall_impl; [exact HF|]. intros i (r & [Hr <-]%record_Ok%find_id_Some & _). apply list_elem_of_fmap. by exists r. }
  assert (new' ≡ₚ ids (records d "apps")) as Hp.
  { apply submseteq_length_Permutation.
    - apply NoDup_submseteq; [done|]. by apply Forall_forall.
    - unfold ids. rewrite length_map. lia. }
  apply Forall_forall. intros a Ha. rewrite Forall_forall in HF.
  destruct (HF (text a "id")) as (r & Hr & Hroot).
  - rewrite Hp. apply list_elem_of_fmap. by exists a.
  - rewrite record_found in Hr by done. by injection Hr as ->.
Qed.

(** Whatever archive is uploaded, a restoration that succeeds gives the text of a
    well-formed document none of whose apps has a local bundle: every app of it is among those
    that were checked, because the description has as many apps and no app twice. *)
Theorem restored_documents_are_external f archive out : read_external f archive = Some (Ok out) ->
  exists d, doc_ok d /\ encode d = Ok out /\ local_free d.
Proof.
  intros H. unfold read_external in H. apply bind_ok in H as ([entries src] & _ & H).
  destruct (negb _); [done|]. apply bind_ok in H as ([src1 meta] & _ & H). apply bind_ok in H as (v & _ & H).
  destruct (negb _); [done|]. apply bind_ok in H as ([src2 bytes] & _ & H). apply bind_ok in H as (d & Hd & H).
  injection Hd as Hd. destruct (Nat.eqb_spec (length (array v "apps")) (length (records d "apps"))) as [Hl|]; [|done]. cbn [negb] in H.
  apply bind_ok in H as (new & Hc & H). injection Hc as Hc. injection H as He. pose proof (decode_ok _ _ Hd) as Hok.
  exists d. split; [done|]. split; [done|]. eapply all_apps_checked; [|exact Hl|exact Hc].
  apply (doc_records d "apps" Hok). vm_compute. set_solver.
Qed.

Definition sample_archive : list Z := Eval vm_compute in
  match write_external 1000 sample_backup "now" with Some (Ok l) => l | _ => [] end.
Definition sample_restored : list Z := Eval vm_compute in
  match read_external 1000 sample_archive with Some (Ok l) => l | _ => [] end.

Lemma restored_documents_are_external_witness :
  read_external 1000 sample_archive = Some (Ok sample_restored) /\
  exists d, doc_ok d /\ encode d = Ok sample_restored /\ local_free d.
Proof.
  split; [vm_compute; reflexivity|]. apply (restored_documents_are_external 1000 sample_archive sample_restored).
  vm_compute. reflexivity.
Defined.
