(* ===== verification/SceneJobs.v ===== *)
(** * SceneJobs: the controller's queue of scenes

    Models [controller/src/scenes.rs] and the traits [Apps] and [Reply] of [controller/src/lib.rs]:
    requests wait in one queue, every group of commands gets a callback handle of its own, and
    the values that a user changed by hand end a scene.  Sending a response is recorded in
    order; what the route makes of it is not the concern of its sender. *)

From Stdlib Require Import ZArith Lia Ascii String Permutation.
From S2P Require Import Prelude Text Errors Slots Value Document Stats Store StoreDoc StoreInv StoreOk Scenes SceneRun Mutations AppRun Templates Web.
From S2P Require Devices.

Local Open Scope Z_scope.

(** [trait Apps]: the connections to the apps. *)
Class Apps (A : Type) : Type := {
  apps_now : A -> Z;
  apps_running : A -> string -> bool;
  apps_call : string -> Z -> string -> Value -> A -> Result unit * A;
  apps_adopt : Value -> A -> Result unit * A;
  apps_log : string -> A -> A
}.

Definition MAX_JOBS : Z := 32.
Definition MAX_CALLS : nat := 16.
Definition MAX_TRIPS : nat := 256.

Record Job (R : Type) : Type := mk_job {
  j_id : string; j_on : bool; j_run : option Scene; j_reply : option R; j_owner : option Z; j_deadline : Z
}.
Arguments mk_job {R}. Arguments j_id {R}. Arguments j_on {R}. Arguments j_run {R}. Arguments j_reply {R}.
Arguments j_owner {R}. Arguments j_deadline {R}.

Record Call : Type := mk_call { call_owner : Z; call_scene : string; call_device : string }.

Record Scenes (R : Type) : Type := mk_scenes { jobs : list (Job R); calls : list Call; trips : list Value }.
Arguments mk_scenes {R}. Arguments jobs {R}. Arguments calls {R}. Arguments trips {R}.

Definition set_run {R} (j : Job R) (r : option Scene) : Job R := mk_job (j_id j) (j_on j) r (j_reply j) (j_owner j) (j_deadline j).

Section Owner.
Context {St : Type} {HS : Storage St} {A : Type} {HA : Apps A} {R : Type}.

Definition Scenes_new : Scenes R := mk_scenes [] [] [].

Definition submit (id : string) (on : bool) (now : Z) (reply : option R) (owner : option Z) (s : Scenes R) : Result (Scenes R) :=
  js ← push (jobs s) (mk_job (trim id) on None reply owner (saturating_add now 45000)) MAX_JOBS;
  Ok (mk_scenes js (calls s) (trips s)).

(** The scene that a device stands for. *)
Definition route (store : Store St) (r : Request) (now : Z) (reply : R) (s : Scenes R) : Result (bool * Scenes R) :=
  if negb (r_method r =? "PUT")%string then Ok (false, s)
  else
    match strip_prefix "/api/manager/devices/device/" (r_path r) ≫= split_str "/capability/" with
    | None => Ok (false, s)
    | Some (id, cap) =>
        d ← device id store;
        if negb (text d "appId" =? APP_ID)%string then Ok (false, s)
        else if negb (existsb (fun v => match as_str v with Some c => (c =? cap)%string | None => false end) (array d "capabilities"))
        then Err (Invalid "scene capability does not exist")
        else
          body ← json_parse (r_body r);
          on ← ok_or (get body "value" ≫= as_bool) (Invalid "scene value must be boolean");
          let scene := match get d "data" with Some v => text v "sceneId" | None => ""%string end in
          s ← submit scene on now (Some reply) None s;
          Ok (true, s)
    end.

(** What a callback says about the commands of its group. *)
Definition failure (c : Completion) : option string :=
  let message := match as_str (c_value c) with Some m => m | None => text (c_value c) "message" end in
  if c_failed c then Some (if is_empty message then "app callback failed"%string else message)
  else if negb (is_null (c_value c)) && negb (bool_decide (is_Some (as_object (c_value c))))
  then Some "invalid grouped capability response"%string
  else None.

(** [jobs.iter_mut().find(..).and_then(..)]: the first job with a run of this scene *)
Fixpoint complete_job (id device : string) (errors : Value) (fail : option string) (js : list (Job R)) : Result unit * list (Job R) :=
  match js with
  | [] => (Ok tt, [])
  | j :: js =>
      match j_run j with
      | Some run =>
          if (j_id j =? id)%string then
            let '(r, run) := SceneRun.complete device errors fail run in (r, set_run j (Some run) :: js)
          else let '(r, js) := complete_job id device errors fail js in (r, j :: js)
      | None => let '(r, js) := complete_job id device errors fail js in (r, j :: js)
      end
  end.

(** [calls.iter().position(..)] and [remove] *)
Fixpoint take_call (owner : Z) (cs : list Call) : option (Call * list Call) :=
  match cs with
  | [] => None
  | c :: cs => if call_owner c =? owner then Some (c, cs)
               else match take_call owner cs with Some (d, cs) => Some (d, c :: cs) | None => None end
  end.

Definition complete (c : Completion) (s : Scenes R) : Result bool * Scenes R :=
  match take_call (c_owner c) (calls s) with
  | None => (Ok false, s)
  | Some (call, cs) =>
      let '(r, js) := complete_job (call_scene call) (call_device call) (c_value c) (failure c) (jobs s) in
      ((_ ← r; Ok true), mk_scenes js cs (trips s))
  end.

(** ** Polling *)

(** What a job works with: the calls of all scenes, the last handle, the store and the apps. *)
Record Env : Type := mk_env { e_calls : list Call; e_owner : Z; e_store : Store St; e_apps : A }.

(** The call of a group to the app of its device. *)
Definition invoke (device : string) (params : Value) (next : Z) (e : Env) : Result unit * A :=
  match record (document (e_store e)) "devices" device with
  | Err x => (Err x, e_apps e)
  | Ok d => if (text d "appId" =? APP_ID)%string then (Err (Invalid "scene cannot control another scene"), e_apps e)
            else apps_call (text d "appId") next "capabilities.invoke" params (e_apps e)
  end.

(** [while calls.len() < MAX_CALLS && !run.done()]: every round sends the commands of a device
    that has not been sent, so that the number of plans bounds the rounds. *)
Fixpoint send_groups (f : nat) (run : Scene) (e : Env) : Result unit * Scene * Env :=
  match f with
  | O => (Ok tt, run, e)
  | S f =>
      if (length (e_calls e) <? MAX_CALLS)%nat && negb (done run) then
        match next_group run with
        | (Err x, run) => (Err x, run, e)
        | (Ok None, run) => (Ok tt, run, e)
        | (Ok (Some (device, params)), run) =>
            match checked_add (e_owner e) 1 with
            | None => (Err Full, run, e)
            | Some next =>
                let '(r, apps) := invoke device params next e in
                match r with
                | Ok _ => send_groups f run (mk_env (e_calls e ++ [mk_call next (SceneRun.id run) device]) next (e_store e) apps)
                | Err x =>
                    let e := mk_env (e_calls e) next (e_store e) apps in
                    match SceneRun.complete device VNull (Some (error_text x)) run with
                    | (Err y, run) => (Err y, run, e)
                    | (Ok _, run) => send_groups f run e
                    end
                end
            end
        end
      else (Ok tt, run, e)
  end.

(** The part of [work] after the scene was started. *)
Definition proceed (now deadline : Z) (run : Scene) (e : Env) : Result (option Value) * Scene * Env :=
  let '(r, run) := if deadline <=? now then SceneRun.cancel run else (Ok tt, run) in
  match r with
  | Err x => (Err x, run, e)
  | Ok _ =>
      let '(r, run, e) := send_groups (S (length (sc_plans run))) run e in
      match r with
      | Err x => (Err x, run, e)
      | Ok _ =>
          if done run then
            let '(r, store) := finish run (e_store e) in
            ((v ← r; Ok (Some v)), run, mk_env (e_calls e) (e_owner e) store (e_apps e))
          else (Ok None, run, e)
      end
  end.

(** The closure of [poll]: one job as far as it goes; a value is the report of a finished scene. *)
Definition work (now : Z) (j : Job R) (e : Env) : Result (option Value) * Job R * Env :=
  match j_run j with
  | Some run => let '(r, run, e) := proceed now (j_deadline j) run e in (r, set_run j (Some run), e)
  | None =>
      if j_deadline j <=? now then (Err (Invalid "scene execution timed out"), j, e)
      else
        let '(r, store) := start (j_id j) (j_on j) (e_store e) in
        let e := mk_env (e_calls e) (e_owner e) store (e_apps e) in
        match r with
        | Err x => (Err x, j, e)
        | Ok run => let '(r, run, e) := proceed now (j_deadline j) run e in (r, set_run j (Some run), e)
        end
  end.

Definition INCOMPLETE : string := "Niet alle scene-opdrachten zijn uitgevoerd; herstel blijft beschikbaar.".

Definition answer_of (value : Value) (failed : bool) : Result Response :=
  if failed then Response_error 502 (if is_empty (text value "message") then INCOMPLETE else text value "message")
  else Response_json 200 (VBool true).

(** The report of a scene that is done, or what went wrong, and whether it failed. *)
Definition verdict (r : Result (option Value)) : option (Value * bool) :=
  match r with
  | Ok None => None
  | Ok (Some v) => Some (v, negb (boolean v "success"))
  | Err x => Some (fields [("message"%string, VString (error_text x))], true)
  end.

Definition drop_calls (id : string) (e : Env) : Env :=
  mk_env (List.filter (fun c => negb (call_scene c =? id)%string) (e_calls e)) (e_owner e) (e_store e) (e_apps e).

(** The answers and completions of the jobs that are done. *)
Definition settle_job (j : Job R) (v : Value) (failed : bool) (sent : list (R * Response)) (out : list Completion)
  : Result (list Completion) * list (R * Response) :=
  let '(r, sent) :=
    match j_reply j with
    | Some reply => match answer_of v failed with Ok a => (Ok tt, sent ++ [(reply, a)]) | Err x => (Err x, sent) end
    | None => (Ok tt, sent)
    end in
  match r with
  | Err x => (Err x, sent)
  | Ok _ =>
      match j_owner j with
      | Some owner => (push out (mk_completion owner failed v) MAX_JOBS, sent)
      | None => (Ok out, sent)
      end
  end.

(** [while i < self.jobs.len()]; [kept] are the jobs before [i]. *)
Fixpoint poll_jobs (now : Z) (kept rest : list (Job R)) (e : Env) (sent : list (R * Response)) (out : list Completion)
  : Result (list Completion) * list (Job R) * Env * list (R * Response) :=
  match rest with
  | [] => (Ok out, kept, e, sent)
  | j :: rest =>
      if negb (bool_decide (is_Some (j_run j))) && existsb (fun k => (j_id k =? j_id j)%string) kept
      then poll_jobs now (kept ++ [j]) rest e sent out
      else
        let '(r, j, e) := work now j e in
        match verdict r with
        | None => poll_jobs now (kept ++ [j]) rest e sent out
        | Some (v, failed) =>
            let e := drop_calls (j_id j) e in
            match settle_job j v failed sent out with
            | (Err x, sent) => (Err x, kept ++ rest, e, sent)
            | (Ok out, sent) => poll_jobs now kept rest e sent out
            end
        end
  end.

(** ** Values that were changed by hand *)

(** [while self.trips.len() < 256 && let Some(trip) = store.take_scene_trip()] *)
Fixpoint collect_trips (f : nat) (ts : list Value) (store : Store St) : Result unit * list Value * Store St :=
  match f with
  | O => (Ok tt, ts, store)
  | S f =>
      if (length ts <? MAX_TRIPS)%nat then
        match take_scene_trip store with
        | (None, store) => (Ok tt, ts, store)
        | (Some trip, store) =>
            if existsb (fun v => equal v trip) ts then collect_trips f ts store
            else match push ts trip (Z.of_nat MAX_TRIPS) with
                 | Err x => (Err x, ts, store)
                 | Ok ts => collect_trips f ts store
                 end
        end
      else (Ok tt, ts, store)
  end.

Definition at_key (device cap : string) (v : Value) : bool :=
  (text v "deviceId" =? device)%string && (text v "capabilityId" =? cap)%string.

(** Whether the value of a trip is no longer the one the scene has set. *)
Definition overridden (store : Store St) (trip : Value) : bool :=
  let device_id := text trip "deviceId" in
  let cap := text trip "capabilityId" in
  match record (document store) "scenes" (text trip "sceneId") with
  | Err _ => false
  | Ok scene =>
      boolean scene "active" && existsb (at_key device_id cap) (array scene "previous")
      && match find (at_key device_id cap) (array scene "states") with
         | None => false
         | Some target =>
             match device device_id store with
             | Err _ => false
             | Ok d =>
                 match get d "state" ≫= fun v => get v cap with
                 | Some current => negb (is_null current) && negb (Scenes.same current (get_null target "value"))
                 | None => false
                 end
             end
         end
  end.

(** [while i < self.trips.len()] *)
Fixpoint follow_trips (js : list (Job R)) (kept rest : list Value) (store : Store St) : Result unit * list Value * Store St :=
  match rest with
  | [] => (Ok tt, kept, store)
  | trip :: rest =>
      if existsb (fun j => (j_id j =? text trip "sceneId")%string) js then follow_trips js (kept ++ [trip]) rest store
      else
        if overridden store trip then
          match scene_remaining (text trip "sceneId") [] store with
          | (Err x, store) => (Err x, kept ++ trip :: rest, store)
          | (Ok _, store) => follow_trips js kept rest store
          end
        else follow_trips js kept rest store
  end.

Definition follow (js : list (Job R)) (ts : list Value) (store : Store St) : Result unit * list Value * Store St :=
  match collect_trips (S (length (Store.scene_trips store))) ts store with
  | (Err x, ts, store) => (Err x, ts, store)
  | (Ok _, ts, store) => follow_trips js [] ts store
  end.

(** What [poll] changes: the owner of the scenes, the last handle, the store and the apps. *)
Record World : Type := mk_world { w_scenes : Scenes R; w_owner : Z; w_store : Store St; w_apps : A }.

Definition poll (w : World) : Result (list Completion) * World * list (R * Response) :=
  let s := w_scenes w in
  let '(r, js, e, sent) := poll_jobs (apps_now (w_apps w)) [] (jobs s) (mk_env (calls s) (w_owner w) (w_store w) (w_apps w)) [] [] in
  match r with
  | Err x => (Err x, mk_world (mk_scenes js (e_calls e) (trips s)) (e_owner e) (e_store e) (e_apps e), sent)
  | Ok out =>
      let '(r, ts, store) := follow js (trips s) (e_store e) in
      let apps := match r with Err x => apps_log ("[stulp:scene-follow] " ++ error_text x) (e_apps e) | Ok _ => e_apps e end in
      (Ok out, mk_world (mk_scenes js (e_calls e) ts) (e_owner e) store apps, sent)
  end.

End Owner.

(** * SceneJobsOk: every scene request is answered

    The invariant of the controller's scenes: bounded queues, one execution of a scene at a
    time, distinct callback handles that belong to a running execution; that polling answers
    every request exactly once, and all of them by their deadline. *)

(** ** The execution of one scene *)

Lemma settle_all err plans l : settle is_open err plans = (Ok tt, l) -> forallb (fun p => negb (is_open p)) l = true.
Proof.
  revert l. induction plans as [|p plans IH]; intros l; cbn; [by intros [= <-]|].
  destruct (is_open p) eqn:E.
  - destruct (result _ _ _) as [v|]; [|done]. destruct (settle is_open err plans) as [r l1] eqn:Es. intros [= -> <-]. cbn. by apply IH.
  - destruct (settle is_open err plans) as [r l1] eqn:Es. intros [= -> <-]. cbn. rewrite E. by apply IH.
Qed.

Lemma cancel_done run run' : SceneRun.cancel run = (Ok tt, run') -> done run' = true.
Proof.
  unfold SceneRun.cancel. destruct (settle _ _ _) as [r l] eqn:E. intros [= -> <-]. unfold done. by apply settle_all in E.
Qed.

Lemma cancel_id run : SceneRun.id (SceneRun.cancel run).2 = SceneRun.id run.
Proof. unfold SceneRun.cancel. by destruct (settle _ _ _). Qed.

Lemma complete_id d errs fl run : SceneRun.id (SceneRun.complete d errs fl run).2 = SceneRun.id run.
Proof. unfold SceneRun.complete. by destruct (settle _ _ _). Qed.

Lemma next_group_id run : SceneRun.id (next_group run).2 = SceneRun.id run.
Proof. unfold next_group. destruct (find _ _); [|done]. by destruct (_ ≫= _). Qed.

Section Start.
Context {St : Type} {HS : Storage St}.

Lemma prepare_id (s : Store St) i on sc baseline : prepare s i on = Ok (sc, baseline) -> SceneRun.id sc = trim i.
Proof.
  intros H. unfold prepare in H. destruct (record _ _ _) as [def|] eqn:Er; cbn [mbind result_bind] in H; [|done].
  apply record_Ok, find_id_Some in Er as [_ Hid]. destruct (_ && negb on); [done|].
  destruct (read_states _ _ _ _ _) as [[cur prev]|]; cbn [mbind result_bind] in H; [|done].
  set (first := on && _ && _) in *.
  destruct (if first then set def "previous" (VArray prev) else Ok def) as [def'|] eqn:Ed; cbn [mbind result_bind] in H; [|done].
  destruct (make_plans _ _ _ _ _ _) as [plans|]; cbn [mbind result_bind] in H; [|done].
  destruct (if first then push_all _ _ _ _ else Ok []) as [bl|]; cbn [mbind result_bind] in H; [|done].
  injection H as <- _. unfold SceneRun.id. cbn [sc_definition]. rewrite <- Hid. destruct first; [|by injection Ed as <-].
  unfold text. by rewrite (get_set_ne _ _ _ _ _ Ed) by done.
Qed.

Lemma start_id (s : Store St) i on sc s1 : start i on s = (Ok sc, s1) -> SceneRun.id sc = trim i.
Proof.
  intros H. unfold start in H. rewrite bind_get, bind_lift in H.
  destruct (prepare s i on) as [[sc' bl]|] eqn:Ep; [|done]. apply prepare_id in Ep.
  destruct (sc_first sc'); [|by injection H as <- _]. unfold bindM in H.
  destruct (begin_scene _ _ _) as [[]]; [|done]. by injection H as <- _.
Qed.

End Start.

Section Queue.
Context {St : Type} {HS : Storage St} {A : Type} {HA : Apps A} {R : Type}.
Local Abbreviation W := (World (St := St) (A := A) (R := R)).
Implicit Types (e : Env (St := St) (A := A)) (j : Job R) (s : Scenes R) (w : W).

(** ** Handles *)

(** Calls of the scene [i] were added, each with a handle of its own. *)
Record grows (i : string) e e' : Prop := {
  gr_owner : e_owner e <= e_owner e';
  gr_calls : exists new, e_calls e' = e_calls e ++ new
    /\ Forall (fun c => e_owner e < call_owner c <= e_owner e' /\ call_scene c = i) new /\ NoDup (map call_owner new);
  gr_len : (length (e_calls e') <= Nat.max MAX_CALLS (length (e_calls e)))%nat
}.

Lemma grows_refl i e : grows i e e.
Proof. split; [lia|exists []; rewrite app_nil_r; split; [done|split; constructor]|lia]. Qed.

Lemma grows_owner i e x st a : e_owner e <= x -> grows i e (mk_env (e_calls e) x st a).
Proof. intros H. split; [done|exists []; cbn; rewrite app_nil_r; split; [done|split; constructor]|cbn; lia]. Qed.

Lemma grows_trans i e1 e2 e3 : grows i e1 e2 -> grows i e2 e3 -> grows i e1 e3.
Proof.
  intros [H1 (n1 & E1 & F1 & D1) L1] [H2 (n2 & E2 & F2 & D2) L2]. split; [lia| |lia].
  exists (n1 ++ n2). rewrite E2, E1, app_assoc. split; [done|]. split.
  - apply Forall_app. split; [eapply Forall_impl; [exact F1|]|eapply Forall_impl; [exact F2|]]; cbn beta; intros c [? ?]; (split; [lia|done]).
  - rewrite map_app. apply NoDup_app. split; [done|]. split; [|done]. intros h Hh1 Hh2.
    apply list_elem_of_fmap in Hh1 as (c1 & -> & Hc1). apply list_elem_of_fmap in Hh2 as (c2 & Heq & Hc2).
    rewrite Forall_forall in F1, F2. destruct (F1 _ Hc1) as [? _]. destruct (F2 _ Hc2) as [? _]. lia.
Qed.

Lemma grows_call i d e st a : (length (e_calls e) < MAX_CALLS)%nat ->
  grows i e (mk_env (e_calls e ++ [mk_call (e_owner e + 1) i d]) (e_owner e + 1) st a).
Proof.
  intros Hl. split; cbn [e_owner e_calls]; [lia| |rewrite length_app; cbn; lia].
  exists [mk_call (e_owner e + 1) i d]. split; [done|]. split.
  - constructor; [|constructor]. cbn. split; [lia|done].
  - cbn. apply NoDup_singleton.
Qed.

Lemma send_groups_grows f : forall run e r run' e', send_groups f run e = (r, run', e') ->
  SceneRun.id run' = SceneRun.id run /\ grows (SceneRun.id run) e e'.
Proof.
  induction f as [|f IH]; intros run e r run' e' H; cbn [send_groups] in H.
  { injection H as <- <- <-. split; [done|apply grows_refl]. }
  destruct (Nat.ltb_spec (length (e_calls e)) MAX_CALLS) as [Hl|]; cbn [andb] in H.
  2:{ injection H as <- <- <-. split; [done|apply grows_refl]. }
  destruct (done run); cbn [negb] in H; [injection H as <- <- <-; split; [done|apply grows_refl]|].
  pose proof (next_group_id run) as Hid. destruct (next_group run) as [[[[d params]|]|x] run1]; cbn [snd] in Hid.
  2-3: injection H as <- <- <-; split; [done|apply grows_refl].
  destruct (checked_add (e_owner e) 1) as [next|] eqn:Ea; [|injection H as <- <- <-; split; [done|apply grows_refl]].
  apply checked_add_Some in Ea as [-> _]. destruct (invoke d params _ e) as [[u|x] apps] eqn:Ei.
  - apply IH in H as [H1 H2]. rewrite Hid in *. split; [done|]. eapply grows_trans; [|exact H2]. by apply grows_call.
  - pose proof (complete_id d VNull (Some (error_text x)) run1) as Hc.
    destruct (SceneRun.complete _ _ _ run1) as [[u|y] run2]; cbn [snd] in Hc.
    + apply IH in H as [H1 H2]. rewrite Hc, Hid in *. split; [done|]. eapply grows_trans; [|exact H2]. apply grows_owner. lia.
    + injection H as <- <- <-. split; [by rewrite Hc, Hid|]. apply grows_owner. lia.
Qed.

Lemma proceed_grows now deadline run e r run' e' : proceed now deadline run e = (r, run', e') ->
  SceneRun.id run' = SceneRun.id run /\ grows (SceneRun.id run) e e'.
Proof.
  unfold proceed. intros H. set (c := if deadline <=? now then SceneRun.cancel run else (Ok tt, run)) in *.
  assert (SceneRun.id c.2 = SceneRun.id run) as Hc by (unfold c; destruct (deadline <=? now); [apply cancel_id|done]).
  destruct c as [[u|x] run1]; cbn [snd] in Hc.
  2:{ injection H as <- <- <-. split; [done|apply grows_refl]. }
  destruct (send_groups _ run1 e) as [[r2 run2] e2] eqn:Es. apply send_groups_grows in Es as [H1 H2]. rewrite Hc in *.
  destruct r2 as [u2|x]; [|injection H as <- <- <-; by split].
  destruct (done run2); [|injection H as <- <- <-; by split].
  destruct (finish run2 (e_store e2)) as [v st]. injection H as <- <- <-. split; [done|].
  eapply grows_trans; [exact H2|]. apply grows_owner. lia.
Qed.

(** *** One job *)

(** The name of a job and of its execution agree. *)
Definition named j : Prop := trim (j_id j) = j_id j /\ forall run, j_run j = Some run -> SceneRun.id run = j_id j.

Definition same_request j j' : Prop :=
  j_id j' = j_id j /\ j_reply j' = j_reply j /\ j_owner j' = j_owner j /\ j_deadline j' = j_deadline j.

Lemma work_spec now j e r j' e' : named j -> work now j e = (r, j', e') ->
  same_request j j' /\ named j' /\ grows (j_id j) e e' /\ (is_Some (j_run j) -> is_Some (j_run j')).
Proof.
  intros [Ht Hn] H. unfold work in H. destruct (j_run j) as [run|] eqn:Er.
  - destruct (proceed _ _ run e) as [[r1 run1] e1] eqn:Ep. apply proceed_grows in Ep as [H1 H2].
    rewrite (Hn _ eq_refl) in *. injection H as <- <- <-. split; [done|]. split; [split; [done|]|split; [done|by eexists]].
    cbn. by intros ? [= <-].
  - destruct (j_deadline j <=? now).
    { injection H as <- <- <-. split; [done|]. split; [split; [done|by rewrite Er]|split; [apply grows_refl|by intros []]]. }
    destruct (start (j_id j) (j_on j) (e_store e)) as [[run|x] st] eqn:Est.
    + apply start_id in Est. rewrite Ht in Est.
      destruct (proceed _ _ run _) as [[r1 run1] e1] eqn:Ep. apply proceed_grows in Ep as [H1 H2]. rewrite Est in *.
      injection H as <- <- <-. split; [done|]. split; [split; [done|]|split].
      * cbn. by intros ? [= <-].
      * eapply grows_trans; [|exact H2]. apply grows_owner. lia.
      * by intros [].
    + injection H as <- <- <-. split; [done|]. split; [split; [done|by rewrite Er]|split; [apply grows_owner; lia|by intros []]].
Qed.

(** A job that goes on has an execution. *)
Lemma work_goes_on now j e j' e' : work now j e = (Ok None, j', e') -> is_Some (j_run j').
Proof.
  unfold work. intros H. destruct (j_run j) as [run|].
  - destruct (proceed _ _ run e) as [[r1 run1] e1]. injection H as _ <- _. by eexists.
  - destruct (_ <=? _); [done|]. destruct (start _ _ _) as [[run|x] st]; [|done].
    destruct (proceed _ _ run _) as [[r1 run1] e1]. injection H as _ <- _. by eexists.
Qed.

(** Past its deadline a job does not go on. *)
Lemma work_at_deadline now j e r j' e' : j_deadline j <= now -> work now j e = (r, j', e') -> is_Some (verdict r).
Proof.
  intros Hd H. unfold work in H. destruct (j_run j) as [run|].
  - destruct (proceed now (j_deadline j) run e) as [[r1 run1] e1] eqn:Ep. injection H as <- _ _. unfold proceed in Ep.
    destruct (Z.leb_spec (j_deadline j) now); [|lia]. destruct (SceneRun.cancel run) as [[u|x] run2] eqn:Ec.
    2:{ injection Ep as <- _ _. by eexists. }
    destruct u. apply cancel_done in Ec. cbn [send_groups] in Ep. rewrite Ec, andb_false_r in Ep. rewrite Ec in Ep.
    destruct (finish run2 (e_store e)) as [[v|x] st]; injection Ep as <- _ _; by eexists.
  - destruct (Z.leb_spec (j_deadline j) now); [|lia]. injection H as <- _ _. by eexists.
Qed.

(** ** The jobs of all scenes *)

(** An execution runs for the first of the jobs of its scene. *)
Definition single (js : list (Job R)) : Prop :=
  forall pre j post, js = pre ++ j :: post -> is_Some (j_run j) -> j_id j ∉ map j_id pre.

Record jobs_ok (js : list (Job R)) e : Prop := {
  jo_named : Forall named js;
  jo_single : single js;
  jo_calls : (length (e_calls e) <= MAX_CALLS)%nat;
  jo_handles : NoDup (map call_owner (e_calls e));
  jo_bound : Forall (fun c => call_owner c <= e_owner e) (e_calls e);
  jo_running : Forall (fun c => exists j, j ∈ js /\ j_id j = call_scene c /\ is_Some (j_run j)) (e_calls e)
}.

Lemma single_remove pre j post : single (pre ++ j :: post) -> single (pre ++ post).
Proof.
  intros H p k q Heq Hk Hin. destruct (app_eq_inv _ _ _ _ Heq) as [(m & Hp & Hq)|(m & Hp & Hq)].
  - destruct m as [|x m].
    + cbn in Hq. rewrite app_nil_r in Hp. subst p post.
      apply (H (pre ++ [j]) k q); [by rewrite <- app_assoc|done|]. rewrite map_app. apply elem_of_app. by left.
    + injection Hq as <- Hq. apply (H p k (m ++ j :: post)); [by rewrite Hp, <- app_assoc|done|done].
  - apply (H (pre ++ j :: m) k q); [by rewrite Hq, <- app_assoc|done|].
    rewrite Hp, map_app in Hin. rewrite map_app. cbn. apply elem_of_app in Hin as [Hin|Hin]; apply elem_of_app; [by left|right].
    by apply elem_of_cons; right.
Qed.

Lemma single_update pre j j' post : j_id j' = j_id j -> (is_Some (j_run j) \/ j_id j ∉ map j_id pre) ->
  single (pre ++ j :: post) -> single (pre ++ j' :: post).
Proof.
  intros Hid Hj H p k q Heq Hk Hin.
  assert (j_id j ∈ map j_id pre -> False) as Hpre.
  { intros Hp. destruct Hj as [Hj|Hj]; [|done]. by apply (H pre j post). }
  destruct (app_eq_inv _ _ _ _ Heq) as [(m & Hp & Hq)|(m & Hp & Hq)].
  - destruct m as [|x m].
    + injection Hq as -> ->. rewrite app_nil_r in Hp. subst p. rewrite Hid in Hin. done.
    + injection Hq as -> Hq. apply (H p x (m ++ j :: post)); [by rewrite Hp, <- app_assoc|done|done].
  - destruct m as [|x m].
    + injection Hq as <- <-. rewrite app_nil_r in Hp. subst p. rewrite Hid in Hin. done.
    + injection Hq as <- Hq. apply (H (pre ++ j :: m) k q); [by rewrite Hq, <- app_assoc|done|].
      rewrite Hp, map_app in Hin. rewrite map_app. cbn in *. by rewrite Hid in Hin.
Qed.

(** A job went on: it has an execution and perhaps more calls. *)
Lemma jobs_ok_goes_on pre j j' post e e' : jobs_ok (pre ++ j :: post) e ->
  (is_Some (j_run j) \/ j_id j ∉ map j_id pre) -> j_id j' = j_id j -> named j' -> is_Some (j_run j') -> grows (j_id j) e e' ->
  jobs_ok (pre ++ j' :: post) e'.
Proof.
  intros [Hn Hs Hc Hh Hb Hr] Hj Hid Hn' Hr' [Ho (new & Hnew & HF & HD) Hl]. split.
  - apply Forall_app in Hn as [H1 H2]. apply Forall_cons in H2 as [_ H2]. apply Forall_app. split; [done|by constructor].
  - by eapply single_update.
  - lia.
  - rewrite Hnew, map_app. apply NoDup_app. split; [done|]. split; [|done]. intros h Hh1 Hh2.
    apply list_elem_of_fmap in Hh1 as (c1 & -> & Hc1). apply list_elem_of_fmap in Hh2 as (c2 & Heq & Hc2).
    rewrite Forall_forall in Hb, HF. specialize (Hb _ Hc1). destruct (HF _ Hc2) as [? _]. cbn beta in *. lia.
  - rewrite Hnew. apply Forall_app. split; [eapply Forall_impl; [exact Hb|]|eapply Forall_impl; [exact HF|]]; cbn beta; intros c ?; lia.
  - rewrite Hnew. apply Forall_app. split; [eapply Forall_impl; [exact Hr|]|eapply Forall_impl; [exact HF|]]; cbn beta.
    + intros c (k & Hk & Hkid & Hkr). apply elem_of_app in Hk as [Hk|Hk]; [exists k; rewrite elem_of_app; tauto|].
      apply elem_of_cons in Hk as [->|Hk]; [|exists k; rewrite elem_of_app, elem_of_cons; tauto].
      exists j'. rewrite elem_of_app, elem_of_cons, Hid. tauto.
    + intros c [_ Hcs]. exists j'. rewrite elem_of_app, elem_of_cons, Hid, Hcs. tauto.
Qed.

(** A job that is done goes, and so do the calls of its scene. *)
Lemma jobs_ok_removed pre j post e e' : jobs_ok (pre ++ j :: post) e -> grows (j_id j) e e' ->
  jobs_ok (pre ++ post) (drop_calls (j_id j) e').
Proof.
  intros [Hn Hs Hc Hh Hb Hr] [Ho (new & Hnew & HF & HD) Hl].
  assert (e_calls (drop_calls (j_id j) e') = List.filter (fun c => negb (call_scene c =? j_id j)%string) (e_calls e)) as Hcalls.
  { unfold drop_calls. cbn [e_calls]. rewrite Hnew, List.filter_app.
    assert (List.filter (fun c => negb (call_scene c =? j_id j)%string) new = []) as ->; [|by rewrite app_nil_r].
    clear -HF. induction HF as [|c new [_ Hc] _ IH]; [done|]. cbn. by rewrite Hc, String.eqb_refl. }
  split.
  - apply Forall_app in Hn as [H1 H2]. apply Forall_cons in H2 as [_ H2]. by apply Forall_app.
  - by eapply single_remove.
  - rewrite Hcalls. pose proof (filter_length_le (fun c => negb (call_scene c =? j_id j)%string) (e_calls e)). lia.
  - rewrite Hcalls. clear -Hh. induction (e_calls e) as [|c cs IH]; [constructor|]. cbn in *. apply NoDup_cons in Hh as [H1 H2].
    destruct (negb _); cbn; [|by apply IH]. apply NoDup_cons. split; [|by apply IH]. intros Hin. apply H1.
    apply list_elem_of_fmap in Hin as (d & -> & Hd). apply list_elem_of_fmap. exists d. split; [done|].
    apply list_elem_of_In, filter_In in Hd as [Hd _]. by apply list_elem_of_In.
  - rewrite Hcalls. cbn [drop_calls e_owner]. apply Forall_forall. intros c Hc'. apply list_elem_of_In, filter_In in Hc' as [Hc' _].
    rewrite Forall_forall in Hb. specialize (Hb c (proj2 (list_elem_of_In _ _) Hc')). cbn beta in *. lia.
  - rewrite Hcalls. apply Forall_forall. intros c Hc'. apply list_elem_of_In, filter_In in Hc' as [Hc' Hne].
    rewrite Forall_forall in Hr. destruct (Hr c (proj2 (list_elem_of_In _ _) Hc')) as (k & Hk & Hkid & Hkr).
    exists k. split; [|done]. apply negb_true_iff, String.eqb_neq in Hne. apply elem_of_app in Hk as [Hk|Hk]; [set_solver|].
    apply elem_of_cons in Hk as [->|Hk]; [by rewrite Hkid in Hne|set_solver].
Qed.

(** ** Answers *)

Definition replies (js : list (Job R)) : list R := omap j_reply js.
Definition owners (js : list (Job R)) : list Z := omap j_owner js.

Lemma answer_of_Ok v failed : exists a, answer_of v failed = Ok a.
Proof.
  unfold answer_of. destruct failed; [|by eexists].
  destruct (Response_error_Ok 502 (if is_empty (text v "message") then INCOMPLETE else text v "message")) as (a & -> & _). by exists a.
Qed.

Lemma settle_job_Ok j v failed sent out : Z.of_nat (length out) < MAX_JOBS -> exists sent1 out1,
  settle_job j v failed sent out = (Ok (out ++ out1), sent ++ sent1)
  /\ map fst sent1 = replies [j] /\ map c_owner out1 = owners [j] /\ (length out1 <= 1)%nat.
Proof.
  intros Hl. unfold settle_job, replies, owners. cbn [omap list_omap].
  destruct (answer_of_Ok v failed) as (a & Ha).
  exists (match j_reply j with Some r => [(r, a)] | None => [] end),
    (match j_owner j with Some o => [mk_completion o failed v] | None => [] end).
  assert (forall x, push out x MAX_JOBS = Ok (out ++ [x])) as Hp by (intros x; by apply push_Ok).
  destruct (j_reply j) as [r|], (j_owner j) as [o|]; rewrite ?Ha, ?Hp, ?app_nil_r; repeat split; cbn; lia.
Qed.

(** What polling the jobs leaves: [rest] are the jobs still to look at. *)
Record polled (kept rest : list (Job R)) e (sent : list (R * Response)) (out : list Completion)
    (r : Result (list Completion)) (js : list (Job R)) e' (sent' : list (R * Response)) : Prop := {
  po_ok : jobs_ok js e';
  po_owner : e_owner e <= e_owner e';
  po_new : Forall (fun c => c ∈ e_calls e \/ e_owner e < call_owner c) (e_calls e');
  po_out : exists left sent1 out1, js = kept ++ left /\ sent' = sent ++ sent1 /\ r = Ok (out ++ out1)
    /\ (length left <= length rest)%nat
    /\ replies rest ≡ₚ map fst sent1 ++ replies left /\ owners rest ≡ₚ map c_owner out1 ++ owners left
}.

Lemma replies_app js1 js2 : replies (js1 ++ js2) = replies js1 ++ replies js2.
Proof. apply omap_app. Qed.
Lemma owners_app js1 js2 : owners (js1 ++ js2) = owners js1 ++ owners js2.
Proof. apply omap_app. Qed.

Lemma same_replies j j' : same_request j j' -> replies [j'] = replies [j] /\ owners [j'] = owners [j].
Proof. intros (_ & Hr & Ho & _). unfold replies, owners. cbn. by rewrite Hr, Ho. Qed.

Lemma grows_new i e e' : grows i e e' -> Forall (fun c => c ∈ e_calls e \/ e_owner e < call_owner c) (e_calls e').
Proof.
  intros [Ho (new & -> & HF & _) _]. apply Forall_app. split; apply Forall_forall; intros c Hc; [by left|right].
  rewrite Forall_forall in HF. apply HF in Hc as [? _]. lia.
Qed.

Lemma new_trans e1 e2 (cs : list Call) : e_owner e1 <= e_owner e2 ->
  Forall (fun c => c ∈ e_calls e1 \/ e_owner e1 < call_owner c) (e_calls e2) ->
  Forall (fun c => c ∈ e_calls e2 \/ e_owner e2 < call_owner c) cs ->
  Forall (fun c => c ∈ e_calls e1 \/ e_owner e1 < call_owner c) cs.
Proof.
  intros Ho H1 H2. rewrite Forall_forall in *. intros c Hc. destruct (H2 _ Hc) as [Hin|]; [by apply H1|right; lia].
Qed.

Lemma poll_jobs_polled now rest : forall kept e sent out r js e' sent',
  jobs_ok (kept ++ rest) e -> Z.of_nat (length out + length rest) <= MAX_JOBS ->
  poll_jobs now kept rest e sent out = (r, js, e', sent') -> polled kept rest e sent out r js e' sent'.
Proof.
  induction rest as [|j rest IH]; intros kept e sent out r js e' sent' Hok Hl H; cbn [poll_jobs] in H.
  { injection H as <- <- <- <-. rewrite app_nil_r in Hok. split; [done|lia|apply Forall_forall; intros; by left|].
    exists [], [], []. rewrite !app_nil_r. done. }
  cbn [length] in Hl. destruct (negb (bool_decide (is_Some (j_run j))) && existsb (fun k => (j_id k =? j_id j)%string) kept) eqn:Eskip.
  { assert (kept ++ j :: rest = (kept ++ [j]) ++ rest) as Heq by (by rewrite <- app_assoc). rewrite Heq in Hok.
    apply IH in H as [H1 H2 H3 (left & sent1 & out1 & -> & -> & -> & Hll & Hr & Ho)]; [|done|lia].
    split; [done|done|done|]. exists (j :: left), sent1, out1. rewrite <- app_assoc. split; [done|]. split; [done|]. split; [done|].
    split; [cbn; lia|]. change (j :: left) with ([j] ++ left). change (j :: rest) with ([j] ++ rest).
    rewrite !replies_app, !owners_app, Hr, Ho. split; solve_Permutation. }
  destruct (work now j e) as [[r1 j1] e1] eqn:Ew.
  pose proof (jo_named _ _ Hok) as Hnk. apply Forall_app in Hnk as [_ Hnk]. apply Forall_cons in Hnk as [Hnj _].
  destruct (work_spec _ _ _ _ _ _ Hnj Ew) as (Hsame & Hn1 & Hg & _). destruct (same_replies _ _ Hsame) as [Hrep Hown].
  pose proof Hsame as (Hid & _ & _ & _). pose proof (grows_new _ _ _ Hg) as Hnew1. pose proof (gr_owner _ _ _ Hg) as Ho1.
  assert (is_Some (j_run j) \/ j_id j ∉ map j_id kept) as Hfirst.
  { apply andb_false_iff in Eskip as [Hb|Hb]; [left; by apply negb_false_iff, bool_decide_eq_true in Hb|right].
    intros Hin. apply list_elem_of_fmap in Hin as (k & Hk & Hkin). apply list_elem_of_In in Hkin.
    assert (existsb (fun k => (j_id k =? j_id j)%string) kept = true); [|congruence].
    apply existsb_exists. exists k. split; [done|]. by apply String.eqb_eq. }
  destruct (verdict r1) as [[v failed]|] eqn:Ev.
  - destruct (settle_job_Ok j1 v failed sent out) as (sent0 & out0 & Hset & Hs0 & Ho0 & Hl0); [lia|]. rewrite Hset in H.
    pose proof (jobs_ok_removed _ _ _ _ _ Hok Hg) as Hok1. rewrite Hid in H.
    apply IH in H as [H1 H2 H3 (left & sent1 & out1 & -> & -> & -> & Hll & Hr & Ho)]; [|done|rewrite length_app; lia].
    cbn [drop_calls e_owner] in H2. split; [done|lia| |].
    + eapply (new_trans e e1); [done|done|]. eapply Forall_impl; [exact H3|]. cbn [drop_calls e_calls e_owner].
      intros c [Hc|Hc]; [left|by right]. apply list_elem_of_In, filter_In in Hc as [Hc _]. by apply list_elem_of_In.
    + exists left, (sent0 ++ sent1), (out0 ++ out1). rewrite <- !app_assoc. split; [done|]. split; [done|]. split; [done|].
      split; [cbn; lia|]. change (j :: rest) with ([j] ++ rest). rewrite !map_app, replies_app, owners_app, Hr, Ho, Hs0, Ho0, Hrep, Hown.
      by rewrite !app_assoc.
  - assert (r1 = Ok None) as -> by (by destruct r1 as [[?|]|]). pose proof (work_goes_on _ _ _ _ _ Ew) as Hrun.
    pose proof (jobs_ok_goes_on _ _ _ _ _ _ Hok Hfirst Hid Hn1 Hrun Hg) as Hok1.
    assert (kept ++ j1 :: rest = (kept ++ [j1]) ++ rest) as Heq by (by rewrite <- app_assoc). rewrite Heq in Hok1.
    apply IH in H as [H1 H2 H3 (left & sent1 & out1 & -> & -> & -> & Hll & Hr & Ho)]; [|done|lia].
    split; [done|lia|by eapply new_trans|]. exists (j1 :: left), sent1, out1. rewrite <- app_assoc. split; [done|]. split; [done|].
    split; [done|]. split; [cbn; lia|]. change (j1 :: left) with ([j1] ++ left). change (j :: rest) with ([j] ++ rest).
    rewrite !replies_app, !owners_app, Hr, Ho, Hrep, Hown. split; solve_Permutation.
Qed.

(** The jobs past their deadline go before any other is looked at. *)
Lemma poll_jobs_due now old new : forall e sent out r js e' sent',
  Forall (fun j => j_deadline j <= now) old -> Z.of_nat (length out + length old) <= MAX_JOBS ->
  poll_jobs now [] (old ++ new) e sent out = (r, js, e', sent') ->
  exists e1 sent1 out1, poll_jobs now [] new e1 sent1 out1 = (r, js, e', sent').
Proof.
  induction old as [|j old IH]; intros e sent out r js e' sent' HF Hl H; [by exists e, sent, out|].
  apply Forall_cons in HF as [Hj HF]. cbn [length] in Hl. cbn [app poll_jobs existsb] in H. rewrite andb_false_r in H.
  destruct (work now j e) as [[r1 j1] e1] eqn:Ew. destruct (work_at_deadline _ _ _ _ _ _ Hj Ew) as [[v failed] Hv]. rewrite Hv in H.
  destruct (settle_job_Ok j1 v failed sent out) as (sent0 & out0 & Hset & _ & _ & Hl0); [lia|]. rewrite Hset in H.
  eapply IH; [done| |exact H]. rewrite length_app. lia.
Qed.

(** Past every deadline nothing is left. *)
Lemma poll_jobs_at_deadline now rest e sent out r js e' sent' :
  Forall (fun j => j_deadline j <= now) rest -> Z.of_nat (length out + length rest) <= MAX_JOBS ->
  poll_jobs now [] rest e sent out = (r, js, e', sent') -> js = [].
Proof.
  intros HF Hl H. rewrite <- (app_nil_r rest) in H. apply poll_jobs_due in H as (e1 & sent1 & out1 & H); [|done..].
  by injection H as _ <- _ _.
Qed.

(** What holds of a request stays true while its job waits. *)
Lemma poll_jobs_all (P : Job R -> Prop) now rest : (forall j j', same_request j j' -> P j -> P j') ->
  forall kept e sent out r js e' sent', Forall P (kept ++ rest) -> Forall named rest ->
  poll_jobs now kept rest e sent out = (r, js, e', sent') -> Forall P js.
Proof.
  intros HP. induction rest as [|j rest IH]; intros kept e sent out r js e' sent' HF Hn H; cbn [poll_jobs] in H.
  { injection H as _ <- _ _. by rewrite app_nil_r in HF. }
  apply Forall_cons in Hn as [Hnj Hn]. apply Forall_app in HF as [H1 H2]. apply Forall_cons in H2 as [H0 H2].
  assert (forall j1, P j1 -> Forall P ((kept ++ [j1]) ++ rest)) as Hmore.
  { intros j1 Hj1. rewrite <- app_assoc. apply Forall_app. split; [done|]. by constructor. }
  assert (Forall P (kept ++ rest)) as Hless by (by apply Forall_app).
  destruct (_ && existsb _ kept); [by eapply (IH (kept ++ [j])); [apply Hmore| |exact H]|].
  destruct (work now j e) as [[r1 j1] e1] eqn:Ew. destruct (work_spec _ _ _ _ _ _ Hnj Ew) as (Hs & _).
  destruct (verdict r1) as [[v failed]|]; [|by eapply (IH (kept ++ [j1])); [apply Hmore; eapply HP| |exact H]].
  destruct (settle_job j1 v failed sent out) as [[out1|x] sent1]; [by eapply IH|by injection H as _ <- _ _].
Qed.

(** ** Values changed by hand *)

Lemma collect_trips_bound f : forall ts (store : Store St) r ts' store', (length ts <= MAX_TRIPS)%nat ->
  collect_trips f ts store = (r, ts', store') -> (length ts' <= MAX_TRIPS)%nat.
Proof.
  induction f as [|f IH]; intros ts store r ts' store' Hl H; cbn [collect_trips] in H; [by injection H as _ <- _|].
  destruct (Nat.ltb_spec (length ts) MAX_TRIPS); [|by injection H as _ <- _].
  destruct (take_scene_trip store) as [[trip|] st]; [|by injection H as _ <- _].
  destruct (existsb _ ts); [by eapply IH|]. destruct (push ts trip _) as [ts1|] eqn:Ep; [|by injection H as _ <- _].
  apply push_Ok in Ep as [_ ->]. eapply IH; [|exact H]. rewrite length_app. cbn. lia.
Qed.

Lemma follow_trips_bound js rest : forall kept (store : Store St) r ts' store',
  follow_trips (R := R) js kept rest store = (r, ts', store') -> (length ts' <= length kept + length rest)%nat.
Proof.
  induction rest as [|trip rest IH]; intros kept store r ts' store' H; cbn [follow_trips] in H.
  { injection H as _ <- _. lia. }
  cbn [length]. destruct (existsb _ js).
  { apply IH in H. rewrite length_app in H. cbn in H. lia. }
  destruct (overridden store trip); [|apply IH in H; lia].
  destruct (scene_remaining _ _ store) as [[u|x] st]; [apply IH in H; lia|].
  injection H as _ <- _. rewrite length_app. cbn. lia.
Qed.

Lemma follow_bound js ts (store : Store St) r ts' store' : (length ts <= MAX_TRIPS)%nat ->
  follow (R := R) js ts store = (r, ts', store') -> (length ts' <= MAX_TRIPS)%nat.
Proof.
  intros Hl H. unfold follow in H. destruct (collect_trips _ ts store) as [[[u|x] ts1] st1] eqn:Ec.
  - apply collect_trips_bound in Ec; [|done]. apply follow_trips_bound in H. cbn in H. lia.
  - injection H as _ <- _. by eapply collect_trips_bound.
Qed.

(** ** The owner of the scenes *)

Definition env_of (w : W) : Env := mk_env (calls (w_scenes w)) (w_owner w) (w_store w) (w_apps w).

Record world_ok (w : W) : Prop := {
  wo_jobs : jobs_ok (jobs (w_scenes w)) (env_of w);
  wo_bound : Z.of_nat (length (jobs (w_scenes w))) <= MAX_JOBS;
  wo_trips : (length (trips (w_scenes w)) <= MAX_TRIPS)%nat
}.

Lemma poll_spec w r w' sent : world_ok w -> poll w = (r, w', sent) ->
  world_ok w' /\ w_owner w <= w_owner w'
  /\ Forall (fun c => c ∈ calls (w_scenes w) \/ w_owner w < call_owner c) (calls (w_scenes w'))
  /\ (exists out, r = Ok out
      /\ replies (jobs (w_scenes w)) ≡ₚ map fst sent ++ replies (jobs (w_scenes w'))
      /\ owners (jobs (w_scenes w)) ≡ₚ map c_owner out ++ owners (jobs (w_scenes w')))
  /\ (Forall (fun j => j_deadline j <= apps_now (w_apps w)) (jobs (w_scenes w)) -> jobs (w_scenes w') = []).
Proof.
  intros [Hok Hb Ht] H. unfold poll in H.
  destruct (poll_jobs _ _ _ _ _ _) as [[[r1 js] e] sent1] eqn:Ep.
  assert (Forall (fun j => j_deadline j <= apps_now (w_apps w)) (jobs (w_scenes w)) -> js = []) as Hend
    by (intros HF; eapply poll_jobs_at_deadline; [exact HF| |exact Ep]; cbn; lia).
  apply poll_jobs_polled in Ep as [H1 H2 H3 (left & sent2 & out1 & -> & -> & -> & Hl & Hr & Ho)]; [|done|cbn; lia].
  cbn [app] in *. destruct (follow left (trips (w_scenes w)) (e_store e)) as [[r2 ts] st] eqn:Ef. apply follow_bound in Ef; [|done].
  injection H as <- <- <-. cbn [w_scenes w_owner w_store w_apps jobs calls trips] in *.
  split; [split; cbn [w_scenes w_owner w_store w_apps jobs calls trips env_of]|].
  - destruct H1. by split.
  - lia.
  - done.
  - split; [done|]. split; [exact H3|]. split; [|exact Hend]. by exists out1.
Qed.

Lemma jobs_ok_snoc js j e : jobs_ok js e -> j_run j = None -> named j -> jobs_ok (js ++ [j]) e.
Proof.
  intros [Hn Hs Hc Hh Hb Hr] Hj Hnj. split; [|  |done..|].
  - apply Forall_app. split; [done|by constructor].
  - intros pre k post Heq Hk. destruct (app_eq_inv _ _ _ _ Heq) as [(m & Hp & Hq)|(m & Hp & Hq)].
    + destruct m as [|x m]; [injection Hq as Hkj _; subst k; rewrite Hj in Hk; by destruct Hk|]. injection Hq as Hkx _. subst x. by apply (Hs pre k m).
    + destruct m as [|x m]; [injection Hq as Hkj _; subst k; rewrite Hj in Hk; by destruct Hk|]. injection Hq as _ Hq. by destruct m.
  - eapply Forall_impl; [exact Hr|]. cbn beta. intros c (k & Hk & Hx). exists k. split; [by apply elem_of_app; left|done].
Qed.

Lemma submit_ok i on now reply owner w s' : world_ok w -> submit i on now reply owner (w_scenes w) = Ok s' ->
  world_ok (mk_world s' (w_owner w) (w_store w) (w_apps w)) /\ exists j, jobs s' = jobs (w_scenes w) ++ [j]
    /\ j_reply j = reply /\ j_owner j = owner /\ j_deadline j = saturating_add now 45000.
Proof.
  intros [Hok Hb Ht] H. unfold submit in H. destruct (push _ _ _) as [js|] eqn:Ep; [|done]. injection H as <-.
  apply push_Ok in Ep as [Hl ->]. split; [|by eexists]. split; cbn [w_scenes jobs calls trips env_of w_owner w_store w_apps].
  - apply jobs_ok_snoc; [by destruct Hok|done|]. split; [apply Devices.trim_twice|done].
  - rewrite length_app. cbn. lia.
  - done.
Qed.

Lemma sublist_all {B} (P : B -> Prop) l k : l `sublist_of` k -> Forall P k -> Forall P l.
Proof. intros H. rewrite !Forall_forall. intros HF x Hx. apply HF. by eapply elem_of_sublist. Qed.

Lemma jobs_ok_fewer_calls js e cs : jobs_ok js e -> cs `sublist_of` e_calls e ->
  jobs_ok js (mk_env cs (e_owner e) (e_store e) (e_apps e)).
Proof.
  intros [Hn Hs Hc Hh Hb Hr] Hsub. split; cbn [e_calls e_owner]; [done|done| | |..].
  - apply sublist_length in Hsub. lia.
  - eapply sublist_NoDup; [exact Hh|]. by apply fmap_sublist.
  - by eapply sublist_all.
  - by eapply sublist_all.
Qed.

Lemma take_call_sublist o cs c cs' : take_call o cs = Some (c, cs') -> cs' `sublist_of` cs.
Proof.
  revert cs'. induction cs as [|d cs IH]; intros cs'; cbn; [done|]. destruct (_ =? o).
  - intros [= _ <-]. by apply sublist_cons.
  - destruct (take_call o cs) as [[d' ds]|]; [|done]. intros [= <- <-]. apply sublist_skip. by apply IH.
Qed.

Lemma complete_job_spec i d v fl js r js' : complete_job (R := R) i d v fl js = (r, js') ->
  js' = js \/ exists pre j post run run', js = pre ++ j :: post /\ j_run j = Some run /\ SceneRun.id run' = SceneRun.id run
    /\ js' = pre ++ set_run j (Some run') :: post.
Proof.
  revert r js'. induction js as [|j js IH]; intros r js'; cbn [complete_job]; [intros [= _ <-]; by left|].
  assert (forall r1 js1, complete_job i d v fl js = (r1, js1) -> js' = j :: js1 -> js' = j :: js \/
    exists pre k post run run', j :: js = pre ++ k :: post /\ j_run k = Some run /\ SceneRun.id run' = SceneRun.id run
    /\ js' = pre ++ set_run k (Some run') :: post) as Hnext.
  { intros r1 js1 H ->. apply IH in H as [->|(pre & k & post & run & run' & -> & H1 & H2 & ->)]; [by left|right].
    by exists (j :: pre), k, post, run, run'. }
  destruct (j_run j) as [run|] eqn:Er.
  - destruct (j_id j =? i)%string.
    + pose proof (complete_id d v fl run) as Hid. destruct (SceneRun.complete d v fl run) as [r1 run1]. intros [= _ <-].
      right. by exists [], j, js, run, run1.
    + destruct (complete_job i d v fl js) as [r1 js1]. intros [= _ <-]. by eapply Hnext.
  - destruct (complete_job i d v fl js) as [r1 js1]. intros [= _ <-]. by eapply Hnext.
Qed.

Lemma answered_ok c w r s' : world_ok w -> SceneJobs.complete c (w_scenes w) = (r, s') ->
  world_ok (mk_world s' (w_owner w) (w_store w) (w_apps w))
  /\ replies (jobs s') = replies (jobs (w_scenes w)) /\ map j_deadline (jobs s') = map j_deadline (jobs (w_scenes w)).
Proof.
  intros [Hok Hb Ht] H. unfold SceneJobs.complete in H. destruct (take_call _ _) as [[call cs]|] eqn:Et; [|injection H as _ <-; by split].
  apply take_call_sublist in Et. pose proof (jobs_ok_fewer_calls _ _ cs Hok Et) as Hok1. cbn [env_of e_calls e_owner e_store e_apps] in Hok1.
  destruct (complete_job _ _ _ _ _) as [r1 js] eqn:Ej. injection H as _ <-. cbn [jobs].
  apply complete_job_spec in Ej as [->|(pre & j & post & run & run' & Hjs & Hrun & Hid & ->)].
  { split; [|done]. split; cbn [w_scenes jobs calls trips env_of w_owner w_store w_apps]; done. }
  rewrite Hjs in *. split.
  - split; cbn [w_scenes jobs calls trips env_of w_owner w_store w_apps].
    + eapply jobs_ok_goes_on; [exact Hok1|left; by rewrite Hrun|done| |by eexists|apply grows_refl].
      pose proof (jo_named _ _ Hok1) as Hn. apply Forall_app in Hn as [_ Hn]. apply Forall_cons in Hn as [[Hn1 Hn2] _].
      split; [done|]. cbn. intros ? [= <-]. by rewrite Hid, (Hn2 _ Hrun).
    + rewrite length_app in *. done.
    + done.
  - change (?x :: ?l) with ([x] ++ l). rewrite !replies_app, !map_app. done.
Qed.

(** ** Histories *)

(** The owner of the scenes works between other operations, which may change the store, the apps
    and the counter of the handles. *)
Inductive op : Type :=
| Submit (i : string) (on : bool) (now : Z) (reply : option R) (owner : option Z)
| Route (r : Request) (now : Z) (reply : R)
| Answer (c : Completion)
| Poll
| Elsewhere (owner : Z) (store : Store St) (apps : A).

Definition with_scenes (w : W) (s : Scenes R) : W := mk_world s (w_owner w) (w_store w) (w_apps w).

(** One operation: the world after it, the replies it accepted and the answers it sent. *)
Definition act (w : W) (o : op) : W * list R * list (R * Response) :=
  match o with
  | Submit i on now reply owner =>
      match submit i on now reply owner (w_scenes w) with
      | Ok s => (with_scenes w s, option_list reply, [])
      | Err _ => (w, [], [])
      end
  | Route r now reply =>
      match route (w_store w) r now reply (w_scenes w) with
      | Ok (taken, s) => (with_scenes w s, if taken : bool then [reply] else [], [])
      | Err _ => (w, [], [])
      end
  | Answer c => (with_scenes w (SceneJobs.complete c (w_scenes w)).2, [], [])
  | Poll => let '(_, w, sent) := poll w in (w, [], sent)
  | Elsewhere owner store apps => (mk_world (w_scenes w) (Z.max (w_owner w) owner) store apps, [], [])
  end.

Fixpoint history (w : W) (os : list op) : W * list R * list (R * Response) :=
  match os with
  | [] => (w, [], [])
  | o :: os =>
      let '(w, asked, sent) := act w o in
      let '(w, asked', sent') := history w os in
      (w, asked ++ asked', sent ++ sent')
  end.

Definition before (t : Z) (o : op) : Prop :=
  match o with Submit _ _ now _ _ | Route _ now _ => now <= t | _ => True end.

Definition due_by (t : Z) (w : W) : Prop := Forall (fun j => j_deadline j <= t + 45000) (jobs (w_scenes w)).

Lemma submit_asked i on now reply owner w s' : submit i on now reply owner (w_scenes w) = Ok s' ->
  replies (jobs s') = replies (jobs (w_scenes w)) ++ option_list reply.
Proof.
  unfold submit. destruct (push _ _ _) as [js|] eqn:Ep; [|done]. intros [= <-]. apply push_Ok in Ep as [_ ->].
  cbn [jobs]. rewrite replies_app. unfold replies at 2. cbn. by destruct reply.
Qed.

Lemma due_submit t i on now reply owner w s' : due_by t w -> now <= t -> submit i on now reply owner (w_scenes w) = Ok s' ->
  due_by t (with_scenes w s').
Proof.
  intros Hd Hn H. unfold submit in H. destruct (push _ _ _) as [js|] eqn:Ep; [|done]. injection H as <-. apply push_Ok in Ep as [_ ->].
  unfold due_by. cbn [with_scenes w_scenes jobs]. apply Forall_app. split; [done|]. constructor; [|constructor]. cbn.
  unfold saturating_add. lia.
Qed.

Lemma same_deadlines t js js' : map j_deadline js' = map j_deadline js ->
  Forall (fun j : Job R => j_deadline j <= t) js -> Forall (fun j => j_deadline j <= t) js'.
Proof.
  intros H HF. rewrite Forall_forall in *. intros j Hj.
  assert (j_deadline j ∈ map j_deadline js) as Hin by (rewrite <- H; apply list_elem_of_fmap; by exists j).
  apply list_elem_of_fmap in Hin as (k & -> & Hk). by apply HF.
Qed.

Lemma poll_all (P : Job R -> Prop) w r w' sent : (forall j j', same_request j j' -> P j -> P j') -> world_ok w ->
  Forall P (jobs (w_scenes w)) -> poll w = (r, w', sent) -> Forall P (jobs (w_scenes w')).
Proof.
  intros HP [Hok _ _] HF H. unfold poll in H. destruct (poll_jobs _ _ _ _ _ _) as [[[r1 js] e] sent1] eqn:Ep.
  apply (poll_jobs_all P) in Ep; [|done..|apply (jo_named _ _ Hok)].
  destruct r1 as [out|x]; [|by injection H as _ <- _]. destruct (follow js _ _) as [[r2 ts] st]. by injection H as _ <- _.
Qed.

Lemma poll_due t w r w' sent : world_ok w -> due_by t w -> poll w = (r, w', sent) -> due_by t w'.
Proof. intros Hok Hd H. eapply (poll_all (fun j => j_deadline j <= t + 45000)); [|done..]. by intros j j' (_ & _ & _ & ->). Qed.

(** Once the jobs with a request are due, no request waits any longer. *)
Lemma poll_answers w old new r w' sent : world_ok w -> jobs (w_scenes w) = old ++ new ->
  Forall (fun j => j_deadline j <= apps_now (w_apps w)) old -> Forall (fun j => j_reply j = None) new ->
  poll w = (r, w', sent) -> replies (jobs (w_scenes w')) = [].
Proof.
  intros [Hok Hb _] Hj Hold Hnew H. unfold poll in H. destruct (poll_jobs _ _ _ _ _ _) as [[[r1 js] e] sent1] eqn:Ep.
  rewrite Hj in *. rewrite length_app in Hb. apply poll_jobs_due in Ep as (e1 & sent2 & out1 & Ep); [|done|cbn; lia].
  pose proof (jo_named _ _ Hok) as Hn. apply Forall_app in Hn as [_ Hn].
  apply (poll_jobs_all (fun j => j_reply j = None)) in Ep; [|by intros j j' (_ & -> & _)|done|done].
  assert (jobs (w_scenes w') = js) as ->.
  { destruct r1 as [out|x]; [|by injection H as _ <- _]. destruct (follow js _ _) as [[r2 ts] st]. by injection H as _ <- _. }
  clear -Ep. unfold replies. induction Ep as [|j js Hj _ IH]; [done|]. cbn. by rewrite Hj.
Qed.

(** A history as a whole. *)
Record history_ok (t : Z) (w : W) (asked : list R) (sent : list (R * Response)) (w0 : W) : Prop := {
  hi_world : world_ok w;
  hi_due : due_by t w;
  hi_replies : replies (jobs (w_scenes w0)) ++ asked ≡ₚ map fst sent ++ replies (jobs (w_scenes w))
}.

Lemma act_ok t w o w' asked sent : world_ok w -> due_by t w -> before t o -> act w o = (w', asked, sent) ->
  history_ok t w' asked sent w.
Proof.
  intros Hok Hd Ht H. destruct o as [i on now reply owner|r now reply|c| |owner store apps]; cbn [act before] in *.
  - destruct (submit i on now reply owner (w_scenes w)) as [s|] eqn:E; injection H as <- <- <-.
    + split; [by apply submit_ok in E as [? _]|by eapply due_submit|]. cbn. by rewrite (submit_asked _ _ _ _ _ _ _ E).
    + split; [done|done|]. by rewrite app_nil_r.
  - destruct (route _ r now reply _) as [[taken s]|] eqn:E; injection H as <- <- <-; [|split; [done|done|by rewrite app_nil_r]].
    unfold route in E. assert (forall (a b : Scenes R), Ok (false, a) = Ok (E := Error) (taken, b) -> taken = false /\ b = a) as Hf by (by intros a b [= <- <-]).
    assert (history_ok t (with_scenes w (w_scenes w)) [] [] w) as Hsame by (destruct w; split; [done|done|by rewrite app_nil_r]).
    destruct (negb _); [apply Hf in E as [-> ->]; exact Hsame|].
    destruct (strip_prefix _ _ ≫= _) as [[i cap]|]; [|apply Hf in E as [-> ->]; exact Hsame].
    destruct (device i (w_store w)) as [d|]; cbn [mbind result_bind] in E; [|done].
    destruct (negb _); [apply Hf in E as [-> ->]; exact Hsame|]. destruct (negb _); [done|].
    destruct (json_parse _) as [b|]; cbn [mbind result_bind] in E; [|done].
    destruct (ok_or _ _) as [on|]; cbn [mbind result_bind] in E; [|done].
    destruct (submit _ on now (Some reply) None (w_scenes w)) as [s1|] eqn:Es; cbn [mbind result_bind] in E; [|done].
    injection E as <- <-. split; [by apply submit_ok in Es as [? _]|by eapply due_submit|].
    cbn. by rewrite (submit_asked _ _ _ _ _ _ _ Es).
  - destruct (SceneJobs.complete c (w_scenes w)) as [r s] eqn:E. injection H as <- <- <-. apply answered_ok in E as (H1 & H2 & H3); [|done].
    split; [done|by eapply same_deadlines|]. cbn. by rewrite H2, app_nil_r.
  - destruct (poll w) as [[r w1] sent1] eqn:E. injection H as <- <- <-. pose proof (poll_due _ _ _ _ _ Hok Hd E) as Hd1.
    apply poll_spec in E as (H1 & _ & _ & (out & _ & Hr & _) & _); [|done]. split; [done|done|]. by rewrite app_nil_r.
  - injection H as <- <- <-. destruct Hok as [[Hn Hs Hc Hh Hb Hr] Hl Htr]. split; [|done|by rewrite app_nil_r].
    split; [|done|done]. split; try done. cbn [env_of e_calls e_owner w_scenes w_owner] in *.
    eapply Forall_impl; [exact Hb|]. cbn beta. intros c ?. lia.
Qed.

Lemma history_keeps t os : forall w w' asked sent, world_ok w -> due_by t w -> Forall (before t) os ->
  history w os = (w', asked, sent) -> history_ok t w' asked sent w.
Proof.
  induction os as [|o os IH]; intros w w' asked sent Hok Hd HF H; cbn [history] in H.
  { injection H as <- <- <-. split; [done|done|by rewrite app_nil_r]. }
  apply Forall_cons in HF as [Ho HF]. destruct (act w o) as [[w1 a1] s1] eqn:Ea. destruct (history w1 os) as [[w2 a2] s2] eqn:Eh.
  injection H as <- <- <-. apply (act_ok t) in Ea as [H1 H2 H3]; [|done..]. apply IH in Eh as [H4 H5 H6]; [|done..].
  split; [done|done|]. rewrite app_assoc, H3, map_app, <- app_assoc, H6, app_assoc. done.
Qed.

Definition idle (owner : Z) (store : Store St) (apps : A) : W := mk_world Scenes_new owner store apps.

Lemma idle_ok t owner store apps : world_ok (idle owner store apps) /\ due_by t (idle owner store apps).
Proof.
  split; [|constructor]. split; [|done|cbn; lia]. split; cbn; try constructor; try lia.
  intros pre j post Heq. by destruct pre.
Qed.

End Queue.

(** ** The properties *)

Section Properties.
Context {St : Type} {HS : Storage St} {A : Type} {HA : Apps A} {R : Type}.
Context (t owner : Z) (store : Store St) (apps : A) (os : list (op (St := St) (A := A) (R := R))).
Context (w : World (St := St) (A := A) (R := R)) (asked : list R) (sent : list (R * Response)).

(** Every scene request is answered, exactly once and in time: whatever requests, answers of
    apps, polls and other operations follow each other, the requests that were accepted are those
    that were answered and those still waiting, each once; and the first poll 45 seconds after
    the last of them answers all that are left, keeps no job and waits for no app any more. *)
Theorem scene_requests_are_answered : Forall (before t) os -> history (idle owner store apps) os = (w, asked, sent) ->
  asked ≡ₚ map fst sent ++ replies (jobs (w_scenes w))
  /\ forall r w' more, poll w = (r, w', more) -> t + 45000 <= apps_now (w_apps w) ->
     is_ok r = true /\ asked ≡ₚ map fst (sent ++ more) /\ jobs (w_scenes w') = [] /\ calls (w_scenes w') = [].
Proof.
  intros HF H. destruct (idle_ok (R := R) t owner store apps) as [Hi1 Hi2].
  apply (history_keeps t) in H as [Hok Hdue Hr]; [|done..]. cbn in Hr. split; [done|]. intros r w' more Hp Hnow.
  apply poll_spec in Hp as (Hok' & _ & _ & (out & -> & Hr' & _) & Hend); [|done].
  assert (jobs (w_scenes w') = []) as He.
  { apply Hend. eapply Forall_impl; [exact Hdue|]. cbn beta. intros j ?. lia. }
  split; [done|]. rewrite He in Hr'. cbn in Hr'. rewrite app_nil_r in Hr'. split; [by rewrite map_app, <- Hr'|]. split; [done|].
  destruct Hok' as [[_ _ _ _ _ Hrun] _ _]. rewrite He in Hrun. cbn [env_of e_calls] in Hrun.
  destruct (calls (w_scenes w')) as [|c cs]; [done|]. apply Forall_cons in Hrun as [(j & Hj & _) _]. by apply not_elem_of_nil in Hj.
Qed.

(** A scene is carried out by one execution at a time: however requests, answers and polls
    follow each other, of all jobs with the same scene only the first has an execution, every
    call that is waited for belongs to an execution and has a handle of its own, and there are
    never more than 32 jobs, 16 calls and 256 changes by hand. *)
Theorem one_execution_of_a_scene : Forall (before t) os -> history (idle owner store apps) os = (w, asked, sent) ->
  (forall i k a b, i < k -> jobs (w_scenes w) !! i = Some a -> jobs (w_scenes w) !! k = Some b -> j_id a = j_id b -> j_run b = None)%nat
  /\ Forall (fun c => exists j, j ∈ jobs (w_scenes w) /\ j_id j = call_scene c /\ is_Some (j_run j)) (calls (w_scenes w))
  /\ NoDup (map call_owner (calls (w_scenes w)))
  /\ (length (jobs (w_scenes w)) <= 32 /\ length (calls (w_scenes w)) <= 16 /\ length (trips (w_scenes w)) <= 256)%nat.
Proof.
  intros HF H. destruct (idle_ok (R := R) t owner store apps) as [Hi1 Hi2].
  apply (history_keeps t) in H as [[[Hn Hs Hc Hh Hb Hr] Hl Htr] _ _]; [|done..].
  split; [|split; [done|split; [done|unfold MAX_JOBS, MAX_CALLS, MAX_TRIPS in *; cbn [env_of e_calls] in Hc; lia]]].
  intros i k a b Hik Ha Hkb Hid. destruct (j_run b) as [run|] eqn:Eb; [|done]. exfalso.
  apply take_drop_middle in Hkb. symmetry in Hkb. apply (Hs _ b _ Hkb); [by rewrite Eb|].
  rewrite <- Hid. apply list_elem_of_fmap. exists a. split; [done|].
  apply (list_elem_of_lookup_2 _ i). by rewrite lookup_take_lt.
Qed.

End Properties.

(** ** Two requests for one scene *)

(** Apps that take every call, at the time that is their state. *)
#[local] Instance patient_apps : Apps Z := {
  apps_now := fun now => now; apps_running := fun _ _ => true; apps_call := fun _ _ _ _ a => (Ok tt, a);
  apps_adopt := fun _ a => (Ok tt, a); apps_log := fun _ a => a
}.

Definition film_history : list (op (St := Memory) (A := Z) (R := nat)) :=
  [Submit " film " true 1000 (Some 1%nat) None; Poll; Submit "film" false 1200 (Some 2%nat) None; Poll;
   Answer (mk_completion 3 false object); Submit "nothing" true 1300 (Some 3%nat) (Some 5); Poll;
   Elsewhere 20 SceneRun.film_store 47000].

Definition film_end := Eval vm_compute in history (idle 7 SceneRun.lit 1000) film_history.

Lemma scene_requests_are_answered_witness :
  film_end.1.2 = [1; 2; 3]%nat /\ map fst film_end.2 = [3]%nat
  /\ exists r w' more, poll film_end.1.1 = (r, w', more)
     /\ [1; 2; 3]%nat ≡ₚ map fst (film_end.2 ++ more) /\ jobs (w_scenes w') = [] /\ calls (w_scenes w') = [].
Proof.
  split; [reflexivity|]. split; [reflexivity|]. destruct (poll film_end.1.1) as [[r w'] more] eqn:E. exists r, w', more. split; [done|].
  destruct (scene_requests_are_answered 1300 7 SceneRun.lit 1000 film_history film_end.1.1 film_end.1.2 film_end.2) as [_ H].
  - repeat constructor; cbn; lia.
  - vm_compute. reflexivity.
  - apply (H r w' more E). vm_compute. by intros.
Defined.

Lemma one_execution_of_a_scene_witness :
  Forall (fun c => exists j, j ∈ jobs (w_scenes film_end.1.1) /\ j_id j = call_scene c /\ is_Some (j_run j)) (calls (w_scenes film_end.1.1))
  /\ NoDup (map call_owner (calls (w_scenes film_end.1.1))).
Proof.
  destruct (one_execution_of_a_scene 1300 7 SceneRun.lit 1000 film_history film_end.1.1 film_end.1.2 film_end.2) as (_ & H1 & H2 & _).
  - repeat constructor; cbn; lia.
  - vm_compute. reflexivity.
  - by split.
Defined.
