(* ===== verification/FlowJobs.v ===== *)
(** * FlowJobs: the controller's runs of Flows

    Models [controller/src/flows.rs]: at most four runs at a time, which requests, stability
    timers, the minute schedule and the queue of triggers start; the answers of apps and scenes
    come back by their handle, and a finished run answers its request and leaves its result.
    The clock of the schedule is that of [Schedule]; a sent response is recorded, as in
    [SceneJobs]. *)

From Stdlib Require Import ZArith Lia Ascii String Permutation.
From S2P Require Import Prelude Text Errors Slots Value Document Stats Time Store StoreDoc StoreInv StoreOk Scenes AppRun Mutations Web SceneJobs Flow Stability Schedule Runs RunsOk.

Local Open Scope Z_scope.

Definition MAX_RUNS : Z := 4.
Definition QUEUE_LOG_DEPTH : nat := 32.
Definition QUEUE_LOG_MS : Z := 5000.

(** How long the event of a run waited, and how long its cards took. *)
Record Timing : Type := mk_timing {
  t_lag : Z; t_started : Z; t_trigger : string; t_device : string; t_card : option (string * Z); t_cards : list (string * Z)
}.

Record FlowJob (R : Type) : Type := mk_fjob {
  f_owner : Z; f_run : Run; f_reply : option R; f_capability : bool; f_timing : option Timing
}.
Arguments mk_fjob {R}. Arguments f_owner {R}. Arguments f_run {R}. Arguments f_reply {R}.
Arguments f_capability {R}. Arguments f_timing {R}.

Record Trigger : Type := mk_trig { tr_event : Value; tr_definitions : list Value; tr_lag : Z }.

Record Flows (R : Type) : Type := mk_flows {
  fl_jobs : list (FlowJob R); fl_trigger : option Trigger; fl_stability : list Watch; fl_schedule : list Last;
  fl_observed : option Z; fl_checked : option (Z * Z); fl_seen : list Z; fl_logged : Z
}.
Arguments mk_flows {R}. Arguments fl_jobs {R}. Arguments fl_trigger {R}. Arguments fl_stability {R}. Arguments fl_schedule {R}.
Arguments fl_observed {R}. Arguments fl_checked {R}. Arguments fl_seen {R}. Arguments fl_logged {R}.

(** [Timing::finished] *)
Definition finished (now : Z) (t : Timing) : Timing :=
  match t_card t with
  | None => t
  | Some (label, at_) =>
      let cards := match push (t_cards t) (label, saturating_sub now at_) 64 with Ok l => l | Err _ => t_cards t end in
      mk_timing (t_lag t) (t_started t) (t_trigger t) (t_device t) None cards
  end.

Definition with_card (t : Timing) (card : option (string * Z)) : Timing :=
  mk_timing (t_lag t) (t_started t) (t_trigger t) (t_device t) card (t_cards t).

Section Fields.
Context {R : Type}.
Implicit Types (j : FlowJob R) (x : Flows R).

Definition job_run j r : FlowJob R := mk_fjob (f_owner j) r (f_reply j) (f_capability j) (f_timing j).
Definition job_timing j t : FlowJob R := mk_fjob (f_owner j) (f_run j) (f_reply j) (f_capability j) t.
Definition job_capability j b : FlowJob R := mk_fjob (f_owner j) (f_run j) (f_reply j) b (f_timing j).

Definition set_jobs x js : Flows R := mk_flows js (fl_trigger x) (fl_stability x) (fl_schedule x) (fl_observed x) (fl_checked x) (fl_seen x) (fl_logged x).
Definition set_trigger x t : Flows R := mk_flows (fl_jobs x) t (fl_stability x) (fl_schedule x) (fl_observed x) (fl_checked x) (fl_seen x) (fl_logged x).
Definition set_stability x w o : Flows R := mk_flows (fl_jobs x) (fl_trigger x) w (fl_schedule x) o (fl_checked x) (fl_seen x) (fl_logged x).
Definition set_schedule x l c : Flows R := mk_flows (fl_jobs x) (fl_trigger x) (fl_stability x) l (fl_observed x) c (fl_seen x) (fl_logged x).
Definition set_seen x l : Flows R := mk_flows (fl_jobs x) (fl_trigger x) (fl_stability x) (fl_schedule x) (fl_observed x) (fl_checked x) l (fl_logged x).
Definition set_logged x t : Flows R := mk_flows (fl_jobs x) (fl_trigger x) (fl_stability x) (fl_schedule x) (fl_observed x) (fl_checked x) (fl_seen x) t.

Definition Flows_new : Flows R := mk_flows [] None [] [] None None [] 0.

(** A run that nothing waits for. *)
Definition own_job (owner : Z) (r : Run) (t : option Timing) : FlowJob R := mk_fjob owner r None false t.
End Fields.

Section Owner.
Context {St : Type} {HS : Storage St} {A : Type} {HA : Apps A} {E : Type} {HE : Environment E} {HC : Clock} {R : Type}.

(** ** Starting *)

Definition definition_run (def : Value) (owner now : Z) (reply : R) (env : E) (x : Flows R) : Result (Flows R) :=
  t ← env_now env;
  run ← manual def now t;
  js ← push (fl_jobs x) (mk_fjob owner run (Some reply) false None) MAX_RUNS;
  Ok (set_jobs x js).

Definition start_run (store : Store St) (id : string) (owner now : Z) (reply : R) (env : E) (x : Flows R) : Result (Flows R) :=
  if MAX_RUNS <=? Z.of_nat (length (fl_jobs x)) then Err Full
  else
    def ← record (document store) "flows" id;
    t ← env_now env;
    run ← manual def now t;
    js ← push (fl_jobs x) (mk_fjob owner run (Some reply) false None) MAX_RUNS;
    Ok (set_jobs x js).

(** ** Automatic starts *)

(** [while self.jobs.len() < MAX_RUNS] over the stability timers: a round adds a job or ends. *)
Fixpoint start_stable (f : nat) (store : Store St) (env : E) (now owner : Z) (x : Flows R) : Result unit * Flows R * Z :=
  match f with
  | O => (Ok tt, x, owner)
  | S f =>
      if Z.of_nat (length (fl_jobs x)) <? MAX_RUNS then
        match checked_add owner 1, env_now env with
        | None, _ => (Err Full, x, owner)
        | _, Err e => (Err e, x, owner)
        | Some next, Ok t =>
            let '(r, ws) := Stability.due store now t (fl_stability x) in
            let x := set_stability x ws (fl_observed x) in
            match r with
            | Err e => (Err e, x, owner)
            | Ok None => (Ok tt, x, owner)
            | Ok (Some run) => start_stable f store env now next (set_jobs x (fl_jobs x ++ [own_job next run None]))
            end
        end
      else (Ok tt, x, owner)
  end.

Definition is_checked (check : Z * Z) (c : option (Z * Z)) : bool :=
  match c with Some p => (p.1 =? check.1) && (p.2 =? check.2) | None => false end.

Fixpoint start_scheduled (f : nat) (store : Store St) (env : E) (unix : Z) (check : Z * Z) (now owner : Z) (x : Flows R)
  : Result unit * Flows R * Z :=
  match f with
  | O => (Ok tt, x, owner)
  | S f =>
      if (Z.of_nat (length (fl_jobs x)) <? MAX_RUNS) && negb (is_checked check (fl_checked x)) then
        match checked_add owner 1, env_now env with
        | None, _ => (Err Full, x, owner)
        | _, Err e => (Err e, x, owner)
        | Some next, Ok t =>
            let '(r, last) := Schedule.due store unix now t (fl_schedule x) in
            match r with
            | Err e => (Err e, set_schedule x last (fl_checked x), owner)
            | Ok None => (Ok tt, set_schedule x last (Some check), owner)
            | Ok (Some run) =>
                start_scheduled f store env unix check now next
                  (set_schedule (set_jobs x (fl_jobs x ++ [own_job next run None])) last (fl_checked x))
            end
        end
      else (Ok tt, x, owner)
  end.

(** The stamps of the waiting events follow the queue of the store. *)
Definition follow_queue (pending : nat) (now : Z) (seen : list Z) : list Z :=
  let kept := drop (length seen - pending) seen in kept ++ repeat now (pending - length kept).

(** The next event with the definitions of all Flows, last first. *)
Definition take_event (store : Store St) (now : Z) (x : Flows R) : Result (option Trigger) * Flows R * Store St :=
  match fl_trigger x with
  | Some t => (Ok (Some t), x, store)
  | None =>
      match take_trigger store with
      | (None, store) => (Ok None, x, store)
      | (Some event, store) =>
          let lag := saturating_sub now (match fl_seen x with s :: _ => s | [] => now end) in
          let x := set_seen x (drop 1 (fl_seen x)) in
          match push_all (fun d => Ok d) 4096 (rev (records (document store) "flows")) [] with
          | Err e => (Err e, x, store)
          | Ok defs => (Ok (Some (mk_trig event defs lag)), set_trigger x (Some (mk_trig event defs lag)), store)
          end
      end
  end.

Definition timing_of (t : Trigger) (now : Z) : Timing :=
  let tokens := get_null (tr_event t) "tokens" in
  let state := get_null (tr_event t) "state" in
  let device := if is_empty (text tokens "device") then text state "deviceId" else text tokens "device" in
  mk_timing (tr_lag t) now (text (tr_event t) "id") device None [].

(** [for _ in 0..128] *)
Fixpoint start_triggered (f : nat) (store : Store St) (env : E) (now owner : Z) (x : Flows R)
  : Result unit * Flows R * Store St * Z :=
  match f with
  | O => (Ok tt, x, store, owner)
  | S f =>
      if MAX_RUNS <=? Z.of_nat (length (fl_jobs x)) then (Ok tt, x, store, owner)
      else
        match take_event store now x with
        | (Err e, x, store) => (Err e, x, store, owner)
        | (Ok None, x, store) => (Ok tt, x, store, owner)
        | (Ok (Some t), x, store) =>
            match last (tr_definitions t) with
            | None => start_triggered f store env now owner (set_trigger x None)
            | Some def =>
                let x := set_trigger x (Some (mk_trig (tr_event t) (removelast (tr_definitions t)) (tr_lag t))) in
                match (at_ ← env_now env; triggered def (tr_event t) now at_) with
                | Err e => (Err e, x, store, owner)
                | Ok None => start_triggered f store env now owner x
                | Ok (Some run) =>
                    match checked_add owner 1 with
                    | None => (Err Full, x, store, owner)
                    | Some next =>
                        match push (fl_jobs x) (own_job next run (Some (timing_of t now))) MAX_RUNS with
                        | Err e => (Err e, x, store, owner)
                        | Ok js => start_triggered f store env now next (set_jobs x js)
                        end
                    end
                end
            end
        end
  end.

(** The seconds of the wall clock. *)
Definition wall_clock (env : E) : Result Z :=
  t ← env_now env;
  unix ← ok_or (unix_seconds t) (Invalid "invalid wall clock");
  if unix <=? 9223372036854775807 then Ok unix else Err Full.

Definition observe_store (store : Store St) (now : Z) (x : Flows R) : Result unit * Flows R :=
  if match fl_observed x with Some s => s =? sequence store | None => false end then (Ok tt, x)
  else
    let '(r, ws) := reconcile store now (fl_stability x) in
    match r with
    | Err e => (Err e, set_stability x ws (fl_observed x))
    | Ok _ => (Ok tt, set_stability x ws (Some (sequence store)))
    end.

Definition start_due (store : Store St) (env : E) (now owner : Z) (x : Flows R) : Result unit * Flows R * Store St * Z :=
  match observe_store store now x with
  | (Err e, x) => (Err e, x, store, owner)
  | (Ok _, x) =>
      match start_stable (Z.to_nat MAX_RUNS) store env now owner x with
      | (Err e, x, owner) => (Err e, x, store, owner)
      | (Ok _, x, owner) =>
          match wall_clock env with
          | Err e => (Err e, x, store, owner)
          | Ok unix =>
              match start_scheduled (Z.to_nat MAX_RUNS) store env unix (unix / 60, sequence store) now owner x with
              | (Err e, x, owner) => (Err e, x, store, owner)
              | (Ok _, x, owner) =>
                  start_triggered 128 store env now owner (set_seen x (follow_queue (pending_triggers store) now (fl_seen x)))
              end
          end
      end
  end.

(** ** Answers *)

Definition completion_message (c : Completion) : string :=
  let m := match as_str (c_value c) with Some m => m | None => text (c_value c) "message" end in
  if is_empty m then "app callback failed" else m.

(** The first job with this handle. *)
Fixpoint complete_run (c : Completion) (now : Z) (js : list (FlowJob R)) : option (Result unit * list (FlowJob R)) :=
  match js with
  | [] => None
  | j :: js =>
      if f_owner j =? c_owner c then
        let j := job_timing j (finished now <$> f_timing j) in
        let '(r, run) := if c_failed c then Runs.fail (completion_message c) (f_run j)
                         else Runs.complete (if f_capability j then VBool true else c_value c) now (f_run j) in
        Some (r, job_run j run :: js)
      else match complete_run c now js with Some (r, js) => Some (r, j :: js) | None => None end
  end.

Definition complete_flow (c : Completion) (now : Z) (x : Flows R) : Result bool * Flows R :=
  match complete_run c now (fl_jobs x) with
  | None => (Ok false, x)
  | Some (r, js) => ((_ ← r; Ok true), set_jobs x js)
  end.

(** ** Polling *)

(** What the runs work with besides their owner. *)
Record FEnv : Type := mk_fenv { fe_store : Store St; fe_apps : A; fe_env : E; fe_scenes : SceneJobs.Scenes R }.

Definition fe_with_store (e : FEnv) s := mk_fenv s (fe_apps e) (fe_env e) (fe_scenes e).
Definition fe_with_apps (e : FEnv) a := mk_fenv (fe_store e) a (fe_env e) (fe_scenes e).
Definition fe_log (m : string) (e : FEnv) : FEnv := fe_with_apps e (apps_log m (fe_apps e)).

(** [call]: a scene device is switched by the owner of the scenes, any other by its app. *)
Definition call_card (app method : string) (params : Value) (owner now : Z) (e : FEnv) : Result unit * FEnv :=
  if (app =? APP_ID)%string && (method =? "capability.invoke")%string then
    match (id ← ok_or (strip_prefix "scene:" (text params "deviceId")) (Invalid "invalid scene device");
           on ← ok_or (get params "value" ≫= as_bool) (Invalid "scene value must be boolean");
           submit id on now None (Some owner) (fe_scenes e)) with
    | Err x => (Err x, e)
    | Ok s => (Ok tt, mk_fenv (fe_store e) (fe_apps e) (fe_env e) s)
    end
  else
    let '(r, apps) := apps_call app owner method params (fe_apps e) in (r, fe_with_apps e apps).

Definition card_label (app : string) (params : Value) : string :=
  let what := if is_empty (text params "capability") then text params "id" else text params "capability" in
  app ++ "/" ++ what.

Definition set_card (app : string) (params : Value) (now : Z) (t : Timing) : Timing :=
  with_card (finished now t) (Some (card_label app params, now)).

(** [advance]: one step of a run; [true] is its end. *)
Definition step_job (now : Z) (j : FlowJob R) (e : FEnv) : Result bool * FlowJob R * FEnv :=
  let '(r, run) := Runs.advance (fe_store e) now (f_run j) in
  let j := job_run j run in
  match r with
  | Err x => (Err x, j, e)
  | Ok Finished => (Ok true, j, e)
  | Ok Waiting => (Ok false, j, e)
  | Ok (Runs.Call app method params) =>
      let j := job_capability j (method =? "capability.invoke")%string in
      let j := job_timing j (set_card app params now <$> f_timing j) in
      match call_card app method params (f_owner j) now e with
      | (Ok _, e) => (Ok false, j, e)
      | (Err x, e) =>
          let e := fe_log ("[stulp:flow] card failed app=" ++ app ++ " method=" ++ method ++ ": " ++ error_text x) e in
          let '(r, run) := Runs.fail (error_text x) (f_run j) in
          ((_ ← r; Ok false), job_run j run, e)
      end
  | Ok (Notification excerpt) =>
      let '(r, env) := env_id (fe_env e) in
      let e := mk_fenv (fe_store e) (fe_apps e) env (fe_scenes e) in
      match r with
      | Err x => (Err x, j, e)
      | Ok id =>
          let rec_ := fields [("id"%string, VString id); ("appId"%string, VString "stulp"); ("excerpt"%string, VString excerpt)] in
          match env_now env with
          | Err x => (Err x, j, e)
          | Ok t =>
              let '(r, store) := put "notifications" rec_ true None t (fe_store e) in
              let e := fe_with_store e store in
              match (_ ← r; record (document store) "notifications" id) with
              | Err x => (Err x, j, e)
              | Ok v => let '(r, run) := Runs.complete v now (f_run j) in ((_ ← r; Ok false), job_run j run, e)
              end
          end
      end
  end.

(** [finish]: the result is kept with the Flow, if it still exists. *)
Definition finish_run (run : Run) (e : FEnv) : Result Response * FEnv :=
  let '(r, e) :=
    if is_ok (record (document (fe_store e)) "flows" (Runs.id run)) then
      match env_now (fe_env e) with
      | Err x => (Err x, e)
      | Ok t => let '(r, store) := flow_result (Runs.id run) (ran_at run) (Runs.error run) t (fe_store e) in (r, fe_with_store e store)
      end
    else (Ok tt, e) in
  match r with
  | Err x => (Err x, e)
  | Ok _ => ((if is_empty (Runs.error run) then v ← Runs.result run; Response_json 200 v
              else Response_error 502 (Runs.error run)), e)
  end.

(** The line about a run that took its time. *)
Definition cards_text (cards : list (string * Z)) : string :=
  String.concat "," (map (fun c : string * Z => (c.1 ++ ":" ++ show c.2)%string) cards).

Definition time_line (run : Run) (t : Timing) (now : Z) : string :=
  "[stulp:flow-time] flow=" ++ QUOTE ++ text (Runs.definition run) "name" ++ QUOTE ++ " trigger=" ++ t_trigger t
  ++ " device=" ++ QUOTE ++ t_device t ++ QUOTE ++ " lag_ms=" ++ show (t_lag t) ++ " run_ms=" ++ show (saturating_sub now (t_started t))
  ++ " cards=" ++ cards_text (t_cards t) ++ (if is_empty (Runs.error run) then "" else " failed").

Definition log_time (j : FlowJob R) (now : Z) (e : FEnv) : FEnv :=
  match finished now <$> f_timing j with
  | Some t => if negb (bool_decide (t_cards t = [])) || (200 <=? t_lag t) then fe_log (time_line (f_run j) t now) e else e
  | None => e
  end.

(** What becomes of a run that is over. *)
Definition close_job (now : Z) (j : FlowJob R) (e : FEnv) : FEnv * list (R * Response) :=
  let e := log_time j now e in
  let '(r, e) := if is_empty (Runs.id (f_run j))
                 then ((v ← Runs.result (f_run j); Response_json 200 v), e)
                 else finish_run (f_run j) e in
  let answer a := match f_reply j with Some reply => [(reply, a)] | None => [] end in
  match r with
  | Ok a => (e, answer a)
  | Err x =>
      let e := fe_log ("[stulp:flow] result persistence failed: " ++ error_text x) e in
      match Response_error 500 (error_text x) with Ok a => (e, answer a) | Err _ => (e, []) end
  end.

(** [while index < self.jobs.len()]; [kept] are the jobs before [index]. *)
Fixpoint poll_runs (now : Z) (kept rest : list (FlowJob R)) (e : FEnv) (sent : list (R * Response))
  : list (FlowJob R) * FEnv * list (R * Response) :=
  match rest with
  | [] => (kept, e, sent)
  | j :: rest =>
      let '(r, j, e) := step_job now j e in
      match r with
      | Ok false => poll_runs now (kept ++ [j]) rest e sent
      | Ok true => let '(e, a) := close_job now j e in poll_runs now kept rest e (sent ++ a)
      | Err x =>
          let j := job_run j (Runs.fail (error_text x) (f_run j)).2 in
          let e := fe_log ("[stulp:flow] execution failed: " ++ error_text x) e in
          let '(e, a) := close_job now j e in poll_runs now kept rest e (sent ++ a)
      end
  end.

(** The line about a queue that grows. *)
Definition log_queue (now : Z) (x : Flows R) (e : FEnv) : Flows R * FEnv :=
  let depth := pending_triggers (fe_store e) in
  if (QUEUE_LOG_DEPTH <=? depth)%nat && (QUEUE_LOG_MS <=? saturating_sub now (fl_logged x)) then
    let oldest := saturating_sub now (match fl_seen x with s :: _ => s | [] => now end) in
    (set_logged x now,
     fe_log ("[stulp:flow-queue] depth=" ++ show (Z.of_nat depth) ++ " oldest_ms=" ++ show oldest
             ++ " runs=" ++ show (Z.of_nat (length (fl_jobs x)))) e)
  else (x, e).

Definition poll_flows (x : Flows R) (owner : Z) (e : FEnv) : Flows R * Z * FEnv * list (R * Response) :=
  let now := apps_now (fe_apps e) in
  let '(r, x, store, owner) := start_due (fe_store e) (fe_env e) now owner x in
  let e := fe_with_store e store in
  let e := match r with Err y => fe_log ("[stulp:flow-trigger] " ++ error_text y) e | Ok _ => e end in
  let '(x, e) := log_queue now x e in
  let '(js, e, sent) := poll_runs now [] (fl_jobs x) e [] in
  (set_jobs x js, owner, e, sent).

End Owner.

(** * FlowJobsOk: the runs of Flows

    What polling does to the runs: a run past its deadline is over, a run that is over answers
    its request, and automatic starts take handles of their own within the bound of the runs. *)

Section Queue.
Context {St : Type} {HS : Storage St} {A : Type} {HA : Apps A} {E : Type} {HE : Environment E} {HC : Clock} {R : Type}.
Implicit Types (j : FlowJob R) (x : Flows R) (e : FEnv (St := St) (A := A) (E := E) (R := R)).

(** ** What identifies a job *)

Definition key j : Z * option R * Z := (f_owner j, f_reply j, deadline (f_run j)).
Definition flow_replies (js : list (FlowJob R)) : list R := omap f_reply js.

Lemma flow_replies_app js1 js2 : flow_replies (js1 ++ js2) = flow_replies js1 ++ flow_replies js2.
Proof. apply omap_app. Qed.

Lemma keys_replies js js' : map key js' = map key js -> flow_replies js' = flow_replies js /\ map f_owner js' = map f_owner js.
Proof.
  revert js'. induction js as [|j js IH]; intros [|j' js'] H; try done. cbn [map] in H. assert (key j' = key j) as Hk by congruence. assert (map key js' = map key js) as H4 by congruence. unfold key in Hk. injection Hk; intros H3 H2 H1.
  destruct (IH _ H4) as [H5 H6]. unfold flow_replies in *. cbn. by rewrite H1, H2, H5, H6.
Qed.

(** ** One step *)

Lemma call_card_scenes app method params owner now e r e' : call_card app method params owner now e = (r, e') ->
  fe_scenes e' = fe_scenes e \/ exists i on o, submit i on now None o (fe_scenes e) = Ok (fe_scenes e').
Proof.
  unfold call_card. destruct (_ && _).
  - destruct (ok_or (strip_prefix _ _) _) as [i|]; cbn [mbind result_bind]; [|intros [= _ <-]; by left].
    destruct (ok_or _ _) as [on|]; cbn [mbind result_bind]; [|intros [= _ <-]; by left].
    destruct (submit i on now None (Some owner) (fe_scenes e)) as [s|] eqn:Es; intros [= _ <-]; [right|by left].
    by exists i, on, (Some owner).
  - destruct (apps_call _ _ _ _ _) as [r1 a]. intros [= _ <-]. by left.
Qed.

(** The queue of the scenes grew by requests of Flows. *)
Inductive queued (now : Z) : Scenes R -> Scenes R -> Prop :=
| queued_same s : queued now s s
| queued_more s i on o s1 s2 : submit i on now None o s = Ok s1 -> queued now s1 s2 -> queued now s s2.

Lemma queued_trans now s1 s2 s3 : queued now s1 s2 -> queued now s2 s3 -> queued now s1 s3.
Proof. induction 1; [done|]. intros H3. econstructor; [done|]. by apply IHqueued. Qed.

Lemma step_job_spec now j e r j' e' : step_job now j e = (r, j', e') -> key j' = key j /\ queued now (fe_scenes e) (fe_scenes e').
Proof.
  unfold step_job. intros H. pose proof (deadline_advance (fe_store e) now (f_run j)) as Hd.
  destruct (Runs.advance (fe_store e) now (f_run j)) as [[ef|y] run]; cbn [snd] in Hd.
  2:{ injection H as _ <- <-. unfold key. cbn. rewrite Hd. split; [done|constructor]. }
  destruct ef as [app method params|excerpt| |].
  - cbv zeta in H. destruct (call_card _ _ _ _ _ e) as [[u|y] e1] eqn:Ec; apply call_card_scenes in Ec.
    + injection H as _ <- <-. unfold key. cbn. rewrite Hd. split; [done|].
      destruct Ec as [->|(i & on & o & Hs)]; [constructor|]. econstructor; [exact Hs|constructor].
    + cbn [f_run job_timing job_capability job_run] in H. pose proof (deadline_fail (error_text y) run) as Hf.
      destruct (Runs.fail (error_text y) run) as [r2 run2]. injection H as _ <- <-. unfold key. cbn in *. rewrite Hf, Hd.
      split; [done|]. destruct Ec as [->|(i & on & o & Hs)]; [constructor|]. econstructor; [exact Hs|constructor].
  - destruct (env_id (fe_env e)) as [[i|y] env]; [|injection H as _ <- <-; unfold key; cbn; rewrite Hd; split; [done|constructor]].
    destruct (env_now env) as [t|y]; [|injection H as _ <- <-; unfold key; cbn; rewrite Hd; split; [done|constructor]].
    destruct (put _ _ _ _ _ _) as [r2 st]. 
    destruct (_ ≫= _) as [v|y]; [|injection H as _ <- <-; unfold key; cbn; rewrite Hd; split; [done|constructor]].
    cbn [f_run job_run] in H. pose proof (deadline_complete v now run) as Hc.
    destruct (Runs.complete v now run) as [r3 run3]. injection H as _ <- <-. unfold key. cbn in *. rewrite Hc, Hd. split; [done|constructor].
  - injection H as _ <- <-. unfold key. cbn. rewrite Hd. split; [done|constructor].
  - injection H as _ <- <-. unfold key. cbn. rewrite Hd. split; [done|constructor].
Qed.

(** Past its deadline a run is over. *)
Lemma step_job_at_deadline now j e : deadline (f_run j) <= now -> (step_job now j e).1.1 = Ok true.
Proof.
  intros Hd. unfold step_job, advance. destruct (done (f_run j)) eqn:Ed; [done|].
  destruct (Z.leb_spec (deadline (f_run j)) now); [|lia]. unfold stop. by rewrite Ed.
Qed.

Lemma fe_log_scenes m e : fe_scenes (fe_log m e) = fe_scenes e.
Proof. done. Qed.

Lemma finish_run_scenes run e : fe_scenes (finish_run run e).2 = fe_scenes e.
Proof.
  unfold finish_run. destruct (is_ok _); [|done]. destruct (env_now _); [|done].
  destruct (flow_result _ _ _ _ _) as [[u|y] st]; done.
Qed.

(** A run that is over answers its request, whatever happens to its result. *)
Lemma close_job_spec now j e e' a : close_job now j e = (e', a) -> map fst a = option_list (f_reply j) /\ fe_scenes e' = fe_scenes e.
Proof.
  unfold close_job. intros H. set (e0 := log_time j now e) in *.
  assert (fe_scenes e0 = fe_scenes e) as H0.
  { unfold e0, log_time. destruct (finished now <$> f_timing j); [|done]. by destruct (_ || _). }
  destruct (if is_empty _ then _ else _) as [r e1] eqn:Er.
  assert (fe_scenes e1 = fe_scenes e) as H1.
  { destruct (is_empty _); [by injection Er as _ <-|]. pose proof (finish_run_scenes (f_run j) e0) as Hf. rewrite Er in Hf. by rewrite <- H0. }
  destruct r as [resp|y].
  - injection H as <- <-. split; [|done]. by destruct (f_reply j).
  - destruct (Response_error_Ok 500 (error_text y)) as (resp & Hr & _). rewrite Hr in H. injection H as <- <-. split; [|done].
    by destruct (f_reply j).
Qed.

(** ** All runs *)

Record ran (now : Z) (kept rest : list (FlowJob R)) e (sent : list (R * Response)) (js : list (FlowJob R)) e' sent' : Prop := {
  ra_out : exists left sent1, js = kept ++ left /\ sent' = sent ++ sent1 /\ map key left `sublist_of` map key rest
    /\ flow_replies rest ≡ₚ map fst sent1 ++ flow_replies left /\ Forall (fun j => now < deadline (f_run j)) left;
  ra_scenes : queued now (fe_scenes e) (fe_scenes e')
}.

Lemma poll_runs_ran now rest : forall kept e sent js e' sent', poll_runs now kept rest e sent = (js, e', sent') ->
  ran now kept rest e sent js e' sent'.
Proof.
  induction rest as [|j rest IH]; intros kept e sent js e' sent' H; cbn [poll_runs] in H.
  { injection H as <- <- <-. split; [|constructor]. exists [], []. rewrite !app_nil_r. done. }
  pose proof (step_job_at_deadline now j e) as Hdl.
  destruct (step_job now j e) as [[r1 j1] e1] eqn:Es. apply step_job_spec in Es as [Hk Hq]. cbn [fst] in Hdl.
  pose proof Hk as Hkeys. unfold key in Hkeys. injection Hkeys; intros Hd Hr Ho.
  assert (forall j2 e2 e3 a, key j2 = key j -> fe_scenes e2 = fe_scenes e1 -> close_job now j2 e2 = (e3, a) ->
    poll_runs now kept rest e3 (sent ++ a) = (js, e', sent') -> ran now kept (j :: rest) e sent js e' sent') as Hclose.
  { intros j2 e2 e3 a Hk2 He2 Hc Hp. unfold key in Hk2. injection Hk2; intros Hd2 Hr2 Ho2. apply close_job_spec in Hc as [Ha Hs].
    apply IH in Hp as [(left & sent1 & -> & -> & Hsub & Hrep & Hall) Hq2].
    split; [|eapply queued_trans; [exact Hq|]; by rewrite <- He2, <- Hs]. exists left, (a ++ sent1). rewrite <- !app_assoc. split; [done|]. split; [done|].
    split; [by apply sublist_cons|]. split; [|done]. change (j :: rest) with ([j] ++ rest).
    rewrite flow_replies_app, Hrep, map_app, Ha, Hr2, !app_assoc. unfold flow_replies at 1. cbn. by destruct (f_reply j). }
  destruct r1 as [[|]|y].
  - destruct (close_job now j1 e1) as [e2 a] eqn:Ec. eapply (Hclose j1 e1 e2 a); [unfold key; congruence|done|done|done].
  - apply IH in H as [(left & sent1 & -> & -> & Hsub & Hrep & Hall) Hq2].
    split; [|by eapply queued_trans]. exists (j1 :: left), sent1. rewrite <- app_assoc. split; [done|]. split; [done|]. split.
    + cbn. replace (key j1) with (key j) by (unfold key; congruence). by apply sublist_skip.
    + split.
      * change (j :: rest) with ([j] ++ rest). change (j1 :: left) with ([j1] ++ left). rewrite !flow_replies_app, Hrep.
        replace (flow_replies [j1]) with (flow_replies [j]) by (unfold flow_replies; cbn; by rewrite Hr). solve_Permutation.
      * constructor; [|done]. rewrite Hd. destruct (Z.ltb_spec now (deadline (f_run j))); [done|]. by discriminate (Hdl ltac:(done)).
  - pose proof (deadline_fail (error_text y) (f_run j1)) as Hf.
    destruct (close_job now _ _) as [e2 a] eqn:Ec in H. refine (Hclose _ _ e2 a _ _ Ec H); [|done].
    unfold key. cbn [job_run f_owner f_reply f_run]. congruence.
Qed.

(** ** Automatic starts *)

(** Runs of their own were started, each with a handle of its own. *)
Record started (x : Flows R) (owner : Z) (x' : Flows R) (owner' : Z) : Prop := {
  st_owner : owner <= owner';
  st_jobs : exists new, fl_jobs x' = fl_jobs x ++ new
    /\ Forall (fun j => f_reply j = None /\ owner < f_owner j <= owner') new /\ NoDup (map f_owner new);
  st_bound : Z.of_nat (length (fl_jobs x')) <= Z.max MAX_RUNS (Z.of_nat (length (fl_jobs x)))
}.

Lemma started_none x x' owner : fl_jobs x' = fl_jobs x -> started x owner x' owner.
Proof. intros H. split; [lia|exists []; rewrite H, app_nil_r; split; [done|split; constructor]|rewrite H; lia]. Qed.

Lemma started_trans x1 o1 x2 o2 x3 o3 : started x1 o1 x2 o2 -> started x2 o2 x3 o3 -> started x1 o1 x3 o3.
Proof.
  intros [H1 (n1 & E1 & F1 & D1) L1] [H2 (n2 & E2 & F2 & D2) L2]. split; [lia| |lia].
  exists (n1 ++ n2). rewrite E2, E1, app_assoc. split; [done|]. split.
  - apply Forall_app. split; [eapply Forall_impl; [exact F1|]|eapply Forall_impl; [exact F2|]]; cbn beta; intros j [? ?]; (split; [done|lia]).
  - rewrite map_app. apply NoDup_app. split; [done|]. split; [|done]. intros h Hh1 Hh2.
    apply list_elem_of_fmap in Hh1 as (c1 & -> & Hc1). apply list_elem_of_fmap in Hh2 as (c2 & Heq & Hc2).
    rewrite Forall_forall in F1, F2. destruct (F1 _ Hc1) as [_ ?]. destruct (F2 _ Hc2) as [_ ?]. lia.
Qed.

Lemma started_one x x' owner run t : Z.of_nat (length (fl_jobs x)) < MAX_RUNS ->
  fl_jobs x' = fl_jobs x ++ [own_job (owner + 1) run t] -> started x owner x' (owner + 1).
Proof.
  intros Hl H. split; [lia| |rewrite H, length_app; cbn; lia]. exists [own_job (owner + 1) run t]. split; [done|]. split.
  - constructor; [|constructor]. cbn. split; [done|lia].
  - cbn. apply NoDup_singleton.
Qed.

Lemma start_stable_started f (store : Store St) (env : E) now : forall owner x r x' owner',
  start_stable f store env now owner x = (r, x', owner') -> started x owner x' owner'.
Proof.
  induction f as [|f IH]; intros owner x r x' owner' H; cbn [start_stable] in H; [injection H as _ <- <-; by apply started_none|].
  destruct (Z.ltb_spec (Z.of_nat (length (fl_jobs x))) MAX_RUNS); [|injection H as _ <- <-; by apply started_none].
  destruct (checked_add owner 1) as [next|] eqn:Ea; [|injection H as _ <- <-; by apply started_none].
  apply checked_add_Some in Ea as [-> _]. destruct (env_now env) as [t|]; [|injection H as _ <- <-; by apply started_none].
  destruct (Stability.due store now t (fl_stability x)) as [[[run|]|y] ws]; [|injection H as _ <- <-; by apply started_none..].
  apply IH in H. eapply started_trans; [|exact H]. by eapply started_one.
Qed.

Lemma start_scheduled_started f (store : Store St) (env : E) unix check now : forall owner x r x' owner',
  start_scheduled f store env unix check now owner x = (r, x', owner') -> started x owner x' owner'.
Proof.
  induction f as [|f IH]; intros owner x r x' owner' H; cbn [start_scheduled] in H; [injection H as _ <- <-; by apply started_none|].
  destruct (Z.ltb_spec (Z.of_nat (length (fl_jobs x))) MAX_RUNS); cbn [andb] in H; [|injection H as _ <- <-; by apply started_none].
  destruct (negb _); [|injection H as _ <- <-; by apply started_none].
  destruct (checked_add owner 1) as [next|] eqn:Ea; [|injection H as _ <- <-; by apply started_none].
  apply checked_add_Some in Ea as [-> _]. destruct (env_now env) as [t|]; [|injection H as _ <- <-; by apply started_none].
  destruct (Schedule.due store unix now t (fl_schedule x)) as [[[run|]|y] ws]; [|injection H as _ <- <-; by apply started_none..].
  apply IH in H. eapply started_trans; [|exact H]. by eapply started_one.
Qed.

Lemma take_event_jobs (store : Store St) now x r x' store' : take_event store now x = (r, x', store') -> fl_jobs x' = fl_jobs x.
Proof.
  unfold take_event. destruct (fl_trigger x); [by intros [= _ <- _]|].
  destruct (take_trigger store) as [[ev|] st]; [|by intros [= _ <- _]]. destruct (push_all _ _ _ _); by intros [= _ <- _].
Qed.

Lemma start_triggered_started f (env : E) now : forall (store : Store St) owner x r x' store' owner',
  start_triggered f store env now owner x = (r, x', store', owner') -> started x owner x' owner'.
Proof.
  induction f as [|f IH]; intros store owner x r x' store' owner' H; cbn [start_triggered] in H;
    [injection H as _ <- _ <-; by apply started_none|].
  destruct (Z.leb_spec MAX_RUNS (Z.of_nat (length (fl_jobs x)))); [injection H as _ <- _ <-; by apply started_none|].
  destruct (take_event store now x) as [[r1 x1] st1] eqn:Et. apply take_event_jobs in Et.
  destruct r1 as [[t|]|y]; [|injection H as _ <- _ <-; by apply started_none..].
  destruct (last (tr_definitions t)) as [def|].
  2:{ apply IH in H. eapply started_trans; [|exact H]. by apply started_none. }
  destruct (at_ ← env_now env; triggered def (tr_event t) now at_) as [[run|]|y].
  - destruct (checked_add owner 1) as [next|] eqn:Ea; [|injection H as _ <- _ <-; by apply started_none].
    apply checked_add_Some in Ea as [-> _].
    destruct (push _ _ _) as [js|] eqn:Ep; [|injection H as _ <- _ <-; by apply started_none].
    apply push_Ok in Ep as [_ ->]. apply IH in H. eapply started_trans; [|exact H]. eapply started_one; [done|]. cbn. by rewrite Et.
  - apply IH in H. eapply started_trans; [|exact H]. by apply started_none.
  - injection H as _ <- _ <-. by apply started_none.
Qed.

Lemma start_due_started (store : Store St) (env : E) now owner x r x' store' owner' :
  start_due store env now owner x = (r, x', store', owner') -> started x owner x' owner'.
Proof.
  unfold start_due. intros H. destruct (observe_store store now x) as [ro x1] eqn:Eo.
  assert (fl_jobs x1 = fl_jobs x) as H1.
  { unfold observe_store in Eo. destruct (match fl_observed x with Some _ => _ | None => _ end); [by injection Eo as _ <-|].
    destruct (reconcile _ _ _) as [[u|y] ws]; by injection Eo as _ <-. }
  destruct ro as [u|y]; [|injection H as _ <- _ <-; by apply started_none].
  destruct (start_stable _ store env now owner x1) as [[[u2|y] x2] o2] eqn:E2; apply start_stable_started in E2;
    (eapply started_trans; [by apply (started_none x x1)|]); [|by injection H as _ <- _ <-].
  destruct (wall_clock env) as [unix|y]; [|by injection H as _ <- _ <-].
  destruct (start_scheduled _ store env unix _ now o2 x2) as [[[u3|y] x3] o3] eqn:E3; apply start_scheduled_started in E3;
    (eapply started_trans; [exact E2|]); [|by injection H as _ <- _ <-].
  apply start_triggered_started in H. eapply started_trans; [exact E3|]. refine (started_trans _ _ _ _ _ _ (started_none x3 _ o3 _) H). done.
Qed.

(** ** Answers *)

Lemma complete_run_keys c now js r js' : complete_run c now js = Some (r, js') -> map key js' = map key js.
Proof.
  revert r js'. induction js as [|j js IH]; intros r js'; cbn [complete_run]; [done|]. destruct (f_owner j =? c_owner c).
  - cbv zeta. cbn [f_run job_timing].
    pose proof (deadline_fail (completion_message c) (f_run j)) as Hf.
    pose proof (deadline_complete (if f_capability j then VBool true else c_value c) now (f_run j)) as Hc.
    destruct (c_failed c).
    + destruct (Runs.fail _ _) as [r1 run1]. intros [= _ <-]. cbn [snd] in Hf. cbn [map]. f_equal. unfold key. cbn. by rewrite Hf.
    + cbn [f_capability job_timing]. destruct (Runs.complete _ _ _) as [r1 run1]. intros [= _ <-]. cbn [snd] in Hc. cbn [map]. f_equal. unfold key. cbn. by rewrite Hc.
  - destruct (complete_run c now js) as [[r1 js1]|]; [|done]. intros [= _ <-]. cbn [map]. by rewrite (IH r1 js1).
Qed.

Lemma complete_flow_keys c now x : map key (fl_jobs (complete_flow c now x).2) = map key (fl_jobs x).
Proof.
  unfold complete_flow. destruct (complete_run c now (fl_jobs x)) as [[r js]|] eqn:Eq0; [|done]. by apply complete_run_keys in Eq0.
Qed.

(** ** One poll *)

Lemma log_queue_spec now x e x' e' : log_queue now x e = (x', e') -> fl_jobs x' = fl_jobs x /\ fe_scenes e' = fe_scenes e.
Proof. unfold log_queue. destruct (_ && _); by intros [= <- <-]. Qed.

Record polled_flows now x owner e x' owner' e' (sent : list (R * Response)) : Prop := {
  pf_owner : owner <= owner';
  pf_jobs : exists new, Forall (fun j => f_reply j = None /\ owner < f_owner j <= owner') new /\ NoDup (map f_owner new)
    /\ Z.of_nat (length (fl_jobs x ++ new)) <= Z.max MAX_RUNS (Z.of_nat (length (fl_jobs x)))
    /\ map key (fl_jobs x') `sublist_of` map key (fl_jobs x ++ new);
  pf_replies : flow_replies (fl_jobs x) ≡ₚ map fst sent ++ flow_replies (fl_jobs x');
  pf_alive : Forall (fun j => now < deadline (f_run j)) (fl_jobs x');
  pf_scenes : queued now (fe_scenes e) (fe_scenes e')
}.

Lemma poll_flows_spec x owner e x' owner' e' sent : poll_flows x owner e = (x', owner', e', sent) ->
  polled_flows (apps_now (fe_apps e)) x owner e x' owner' e' sent.
Proof.
  unfold poll_flows. set (now := apps_now (fe_apps e)).
  destruct (start_due (fe_store e) (fe_env e) now owner x) as [[[r x1] st] o1] eqn:Es.
  apply start_due_started in Es as [Ho (new & Hnew & HF & HD) Hb]. intros H.
  set (e0 := match r with Ok _ => _ | Err _ => _ end) in H.
  assert (fe_scenes e0 = fe_scenes e) as He0 by (unfold e0; by destruct r).
  destruct (log_queue now x1 e0) as [x2 e1] eqn:El. apply log_queue_spec in El as [Hx2 He1].
  destruct (poll_runs now [] (fl_jobs x2) e1 []) as [[js e2] sent2] eqn:Ep. injection H as <- <- <- <-.
  apply poll_runs_ran in Ep as [(left & sent1 & -> & -> & Hsub & Hrep & Hall) Hq]. cbn [app] in *. rewrite Hx2, Hnew in *.
  assert (flow_replies new = []) as Hnone.
  { clear -HF. unfold flow_replies. induction HF as [|j js [Hj _] _ IH]; [done|]. cbn. by rewrite Hj. }
  rewrite flow_replies_app, Hnone, app_nil_r in Hrep.
  split; [done| |done|done|by rewrite <- He0, <- He1]. by exists new.
Qed.

End Queue.

(** ** Time *)

(** The clock of the apps is monotonic: neither calls nor lines in the log turn it back. *)
Class Monotonic (A : Type) {HA : Apps A} : Prop := {
  call_forward : forall app owner method params a, apps_now a <= apps_now (apps_call app owner method params a).2;
  log_forward : forall m a, apps_now a <= apps_now (apps_log m a)
}.

Section Time.
Context {St : Type} {HS : Storage St} {A : Type} {HA : Apps A} {HM : Monotonic A} {E : Type} {HE : Environment E} {HC : Clock} {R : Type}.
Implicit Types (j : FlowJob R) (x : Flows R) (e : FEnv (St := St) (A := A) (E := E) (R := R)).

Definition time e : Z := apps_now (fe_apps e).

Lemma time_log m e : time e <= time (fe_log m e).
Proof. apply log_forward. Qed.

Lemma time_call app method params owner now e : time e <= time (call_card app method params owner now e).2.
Proof.
  unfold call_card. destruct (_ && _).
  - destruct (_ ≫= _) as [s|]; cbn; unfold time; cbn; lia.
  - pose proof (call_forward app owner method params (fe_apps e)) as H. destruct (apps_call _ _ _ _ _) as [r a]. exact H.
Qed.

Lemma time_step now j e : time e <= time (step_job now j e).2.
Proof.
  unfold step_job. destruct (Runs.advance _ _ _) as [[ef|y] run]; [|cbn; lia]. destruct ef as [app method params|excerpt| |]; [| |cbn; lia..].
  - cbv zeta. pose proof (time_call app method params (f_owner (job_run j run)) now e) as H. cbn [f_owner job_timing job_capability job_run] in *.
    destruct (call_card _ _ _ _ _ e) as [[u|y] e1]; cbn [snd] in *; [done|]. destruct (Runs.fail _ _). cbn [snd]. etransitivity; [exact H|apply time_log].
  - destruct (env_id _) as [[i|y] env]; [|cbn; unfold time; cbn; lia].
    destruct (env_now env) as [t|y]; [|cbn; unfold time; cbn; lia]. destruct (put _ _ _ _ _ _) as [r2 st].
    destruct (_ ≫= _) as [v|y]; [destruct (Runs.complete _ _ _)|]; cbn; unfold time; cbn; lia.
Qed.

Lemma time_finish run e : time e <= time (finish_run run e).2.
Proof.
  unfold finish_run. destruct (is_ok _); [|cbn; lia]. destruct (env_now _); [|cbn; lia].
  destruct (flow_result _ _ _ _ _) as [[u|y] st]; cbn; unfold time; cbn; lia.
Qed.

Lemma time_close now j e : time e <= time (close_job now j e).1.
Proof.
  unfold close_job. assert (time e <= time (log_time j now e)) as H0.
  { unfold log_time. destruct (_ <$> _); [|lia]. destruct (_ || _); [apply time_log|lia]. }
  assert (time e <= time (if is_empty (id (f_run j)) then (v ← Runs.result (f_run j); Response_json 200 v, log_time j now e) else finish_run (f_run j) (log_time j now e)).2) as H1.
  { destruct (is_empty _); [done|]. etransitivity; [exact H0|apply time_finish]. }
  revert H1. destruct (if is_empty _ then _ else _) as [[a|y] e1]; cbn [snd fst]; [done|]. intros H1.
  pose proof (time_log ("[stulp:flow] result persistence failed: " ++ error_text y) e1) as H2.
  destruct (Response_error _ _); cbn [fst]; lia.
Qed.

Lemma time_runs now rest : forall kept e sent, time e <= time (poll_runs now kept rest e sent).1.2.
Proof.
  induction rest as [|j rest IH]; intros kept e sent; cbn [poll_runs]; [cbn; lia|].
  pose proof (time_step now j e) as H1. destruct (step_job now j e) as [[[[|]|y] j1] e1]; cbn [snd] in H1.
  - pose proof (time_close now j1 e1) as H2. destruct (close_job now j1 e1) as [e2 a]. cbn [fst] in H2. etransitivity; [|apply IH]. lia.
  - etransitivity; [exact H1|apply IH].
  - set (j2 := job_run j1 _). pose proof (time_log ("[stulp:flow] execution failed: " ++ error_text y) e1) as H3.
    set (e3 := fe_log _ e1) in *. pose proof (time_close now j2 e3) as H2. destruct (close_job now j2 e3) as [e2 a]. cbn [fst] in H2.
    etransitivity; [|apply IH]. lia.
Qed.

(** The runs do not turn the clock back. *)
Lemma poll_flows_forward x owner e x' owner' e' sent : poll_flows x owner e = (x', owner', e', sent) -> time e <= time e'.
Proof.
  unfold poll_flows. destruct (start_due _ _ _ owner x) as [[[r x1] st] o1]. set (e0 := match r with Ok _ => _ | Err _ => _ end).
  assert (time e <= time e0) as H0 by (unfold e0; destruct r; [unfold time; cbn; lia|apply (time_log _ (fe_with_store e st))]).
  destruct (log_queue _ x1 e0) as [x2 e1] eqn:El. assert (time e0 <= time e1) as H1.
  { unfold log_queue in El. destruct (_ && _); injection El as _ <-; [apply time_log|lia]. }
  pose proof (time_runs (apps_now (fe_apps e)) (fl_jobs x2) [] e1 []) as H2.
  destruct (poll_runs _ _ _ _ _) as [[js e2] sent2]. cbn [fst snd] in H2. intros [= _ _ <- _]. lia.
Qed.

End Time.
