(* ===== verification/Controller.v ===== *)
(** * Controller: Flows and scenes in the loop of a server

    Models the part of [controller] in [host/src/server.rs] (the loop of [hopos/src/server.rs] is
    the same) that owns the runs of Flows and the executions of scenes: a turn of the loop, the
    answers of apps, and the requests, each with the next handle. *)

From Stdlib Require Import ZArith Lia Ascii String Permutation.
From S2P Require Import Prelude Text Errors Slots Value Document Time Calendar Stats Store StoreDoc StoreInv StoreOk StoreProps Scenes AppRun Mutations Templates Web SceneJobs Flow Stability Schedule Runs RunsOk FlowJobs.
From S2P Require SceneRun.

Local Open Scope Z_scope.

Section Server.
Context {St : Type} {HS : Storage St} {A : Type} {HA : Apps A} {E : Type} {HE : Environment E} {HC : Clock} {R : Type}.

(** ** The controller *)

(** What a server owns: the runs, the scenes, the counter of the handles, the store, the apps and
    the platform. *)
Record Ctl : Type := mk_ctl { ct_flows : Flows R; ct_scenes : Scenes R; ct_owner : Z; ct_store : Store St; ct_apps : A; ct_env : E }.

Definition set_flows (c : Ctl) x : Ctl := mk_ctl x (ct_scenes c) (ct_owner c) (ct_store c) (ct_apps c) (ct_env c).
Definition put_scenes (c : Ctl) s : Ctl := mk_ctl (ct_flows c) s (ct_owner c) (ct_store c) (ct_apps c) (ct_env c).
Definition put_owner (c : Ctl) owner : Ctl := mk_ctl (ct_flows c) (ct_scenes c) owner (ct_store c) (ct_apps c) (ct_env c).

(** ** The loop *)

(** What the scenes have done goes to the runs, unless MCP takes it. *)
Definition forward (taken : Completion -> bool) (now : Z) (out : list Completion) (x : Flows R) : Flows R :=
  fold_left (fun x d => if taken d then x else (complete_flow d now x).2) out x.

(** One turn: the runs, the scenes, and what the scenes have done. *)
Definition turn (taken : Completion -> bool) (c : Ctl) : Ctl * list (R * Response) :=
  let '(x, owner, e, sent) := poll_flows (ct_flows c) (ct_owner c) (mk_fenv (ct_store c) (ct_apps c) (ct_env c) (ct_scenes c)) in
  let '(r, w, sent') := SceneJobs.poll (mk_world (fe_scenes e) owner (fe_store e) (fe_apps e)) in
  let x := match r with Ok out => forward taken (apps_now (w_apps w)) out x | Err _ => x end in
  (mk_ctl x (w_scenes w) (w_owner w) (w_store w) (w_apps w) (fe_env e), sent ++ sent').

(** An answer of an app that neither MCP nor the catalogue waits for: it goes to the scenes, and
    to the runs if no scene waits for it. *)
Definition deliver (d : Completion) (c : Ctl) : Ctl :=
  match SceneJobs.complete d (ct_scenes c) with
  | (Ok false, s) => put_scenes (set_flows c (complete_flow d (apps_now (ct_apps c)) (ct_flows c)).2) s
  | (_, s) => put_scenes c s
  end.

(** ** Requests *)

(** A response with an error is sent if it can be made. *)
Definition refuse (reply : R) (status : Z) (x : Error) : list (R * Response) :=
  match Response_error status (error_text x) with Ok a => [(reply, a)] | Err _ => [] end.

Definition flow_status (x : Error) : Z := match x with Full => 503 | Missing _ => 404 | _ => 400 end.

(** The path of a request to run a Flow. *)
Definition flow_path (r : Request) : option string :=
  if (r_method r =? "POST")%string then strip_prefix "/api/stulp/flows/" (r_path r) ≫= strip_suffix "/run" else None.

(** A Flow takes the next handle, if its run is started. *)
Definition run_flow (i : string) (now : Z) (reply : R) (c : Ctl) : Ctl * list (R * Response) :=
  match (next ← ok_or (checked_add (ct_owner c) 1) Full;
         x ← start_run (ct_store c) i next now reply (ct_env c) (ct_flows c);
         Ok (put_owner (set_flows c x) next)) with
  | Ok c => (c, [])
  | Err x => (c, refuse reply (flow_status x) x)
  end.

(** The request for a scene, and then for a Flow; [false] leaves it to the other routes. *)
Definition request (r : Request) (now : Z) (reply : R) (c : Ctl) : bool * Ctl * list (R * Response) :=
  match route (ct_store c) r now reply (ct_scenes c) with
  | Ok (true, s) => (true, put_scenes c s, [])
  | Err x => (true, c, refuse reply 400 x)
  | Ok (false, _) =>
      match flow_path r with
      | Some i => let '(c, sent) := run_flow i now reply c in (true, c, sent)
      | None => (false, c, [])
      end
  end.

(** A Flow and a scene on behalf of MCP, which takes the handle in any case. *)
Definition mcp_flow (def : Value) (reply : R) (c : Ctl) : Result unit * Ctl :=
  match checked_add (ct_owner c) 1 with
  | None => (Err Full, c)
  | Some next =>
      let c := put_owner c next in
      match definition_run def next (apps_now (ct_apps c)) reply (ct_env c) (ct_flows c) with
      | Ok x => (Ok tt, set_flows c x)
      | Err x => (Err x, c)
      end
  end.

Definition mcp_scene (i : string) (on : bool) (c : Ctl) : Result Z * Ctl :=
  match checked_add (ct_owner c) 1 with
  | None => (Err Full, c)
  | Some next =>
      let c := put_owner c next in
      match submit i on (apps_now (ct_apps c)) None (Some next) (ct_scenes c) with
      | Ok s => (Ok next, put_scenes c s)
      | Err x => (Err x, c)
      end
  end.

End Server.

(** * ControllerOk: the controller answers every request

    The runs of Flows and the executions of scenes together: every request for a Flow or a scene
    is answered exactly once and in time, and no handle of a callback is ever shared by two that
    wait. *)

Section Server.
Context {St : Type} {HS : Storage St} {A : Type} {HA : Apps A} {E : Type} {HE : Environment E} {HC : Clock} {R : Type}.
Local Abbreviation C := (Ctl (St := St) (A := A) (E := E) (R := R)).
Implicit Types (c : C) (s : Scenes R) (x : Flows R).

(** ** Events *)

Inductive event : Type :=
| Http (r : Request) (now : Z) (reply : R)
| McpFlow (def : Value) (reply : R)
| McpScene (i : string) (on : bool)
| Deliver (d : Completion)
| Turn (taken : Completion -> bool)
| Outside (owner : Z) (store : Store St) (apps : A) (env : E).

(** The controller after an event, the request it takes and the responses it sends. *)
Definition happens c (ev : event) : C * list R * list (R * Response) :=
  match ev with
  | Http r now reply => let '(mine, c, sent) := request r now reply c in (c, if mine : bool then [reply] else [], sent)
  | McpFlow def reply => let '(r, c) := mcp_flow def reply c in (c, match r with Ok _ => [reply] | Err _ => [] end, [])
  | McpScene i on => ((mcp_scene i on c).2, [], [])
  | Deliver d => (deliver d c, [], [])
  | Turn taken => let '(c, sent) := turn taken c in (c, [], sent)
  | Outside owner store apps env => (mk_ctl (ct_flows c) (ct_scenes c) (Z.max (ct_owner c) owner) store apps env, [], [])
  end.

(** The time that an event goes by is not after [t]. *)
Definition timely (t : Z) c (ev : event) : Prop :=
  match ev with
  | Http _ now _ => now <= t
  | McpFlow _ _ | McpScene _ _ | Turn _ => apps_now (ct_apps c) <= t
  | _ => True
  end.

(** The controllers that events up to the time [t] lead to. *)
Inductive reaches (t : Z) : C -> list R -> list (R * Response) -> Prop :=
| reaches_idle owner store apps env : reaches t (mk_ctl Flows_new Scenes_new owner store apps env) [] []
| reaches_event c asked sent ev c' more sent' : reaches t c asked sent -> timely t c ev -> happens c ev = (c', more, sent') ->
    reaches t c' (asked ++ more) (sent ++ sent').

(** ** Its invariant *)

Definition scene_world c : World := mk_world (ct_scenes c) (ct_owner c) (ct_store c) (ct_apps c).
Definition runs c : list (FlowJob R) := fl_jobs (ct_flows c).
Definition handles c : list Z := map f_owner (runs c) ++ map call_owner (calls (ct_scenes c)).
Definition waiting c : list R := flow_replies (runs c) ++ replies (jobs (ct_scenes c)).

Record ctl_ok c : Prop := {
  ck_scenes : world_ok (scene_world c);
  ck_flows : Z.of_nat (length (runs c)) <= MAX_RUNS;
  ck_owners : Forall (fun h => h <= ct_owner c) (map f_owner (runs c));
  ck_handles : NoDup (handles c)
}.

Definition flows_due (t : Z) (js : list (FlowJob R)) : Prop := Forall (fun j => f_reply j = None \/ deadline (f_run j) <= t + TIMEOUT_MS) js.

(** What an event keeps. *)
Record keeps (t : Z) c c' (a : list R) (sent : list (R * Response)) : Prop := {
  kp_ok : ctl_ok c';
  kp_flows : flows_due t (runs c');
  kp_scenes : due_by t (scene_world c');
  kp_waiting : waiting c ++ a ≡ₚ map fst sent ++ waiting c'
}.

Lemma world_ok_owner s owner (store : Store St) (apps : A) owner' (store' : Store St) (apps' : A) : owner <= owner' ->
  world_ok (mk_world s owner store apps) -> world_ok (mk_world s owner' store' apps').
Proof.
  intros Ho [[Hn Hs Hc Hh Hb Hr] Hl Ht]. split; [|done|done]. split; try done. cbn [env_of e_calls e_owner w_scenes w_owner] in *.
  eapply Forall_impl; [exact Hb|]. cbn beta. intros c ?. lia.
Qed.

(** Neither the calls nor the handle of a waiting scene exceeds the counter. *)
Lemma calls_bound c h : ctl_ok c -> h ∈ map call_owner (calls (ct_scenes c)) -> h <= ct_owner c.
Proof.
  intros [[[_ _ _ _ Hb _] _ _] _ _ _] Hh. cbn [env_of e_calls e_owner scene_world w_scenes w_owner] in Hb. rewrite Forall_forall in Hb.
  apply list_elem_of_fmap in Hh as (k & -> & Hk). by apply Hb.
Qed.

Lemma runs_bound c h : ctl_ok c -> h ∈ map f_owner (runs c) -> h <= ct_owner c.
Proof. intros [_ _ Hb _] Hh. rewrite Forall_forall in Hb. by apply Hb. Qed.

(** The runs and scenes stay, only the counter and what is outside changes. *)
Lemma ctl_ok_owner c owner store apps env : ct_owner c <= owner -> ctl_ok c ->
  ctl_ok (mk_ctl (ct_flows c) (ct_scenes c) owner store apps env).
Proof.
  intros Ho [Hs Hf Hb Hh]. split; cbn; [by eapply world_ok_owner|done| |done].
  eapply Forall_impl; [exact Hb|]. cbn beta. intros h ?. lia.
Qed.

(** A run with the next handle. *)
Lemma ctl_ok_run c run reply js : ctl_ok c -> runs c ++ [mk_fjob (ct_owner c + 1) run (Some reply) false None] = js ->
  Z.of_nat (length (runs c)) < MAX_RUNS -> ctl_ok (put_owner (set_flows c (set_jobs (ct_flows c) js)) (ct_owner c + 1)).
Proof.
  intros Hok <- Hl. pose proof Hok as [Hs Hf Hb Hh]. split; unfold handles, runs; cbn [put_owner set_flows ct_flows ct_scenes ct_owner set_jobs fl_jobs].
  - apply (world_ok_owner _ (ct_owner c) (ct_store c) (ct_apps c)); [cbn; lia|exact Hs].
  - rewrite length_app. cbn [length]. unfold runs in *. lia.
  - rewrite map_app. apply Forall_app. split; [eapply Forall_impl; [exact Hb|]; cbn beta; intros h ?; lia|]. repeat constructor. cbn. lia.
  - rewrite map_app, <- app_assoc. cbn [map app f_owner].
    rewrite <- Permutation_middle. apply NoDup_cons. split; [|exact Hh].
    rewrite elem_of_app. intros [Hin|Hin]; [pose proof (runs_bound c _ Hok Hin)|pose proof (calls_bound c _ Hok Hin)]; lia.
Qed.

Lemma manual_deadline def now at_ run : manual def now at_ = Ok run -> deadline run = now + TIMEOUT_MS.
Proof.
  intros H. by apply manual_Ok in H as (_ & _ & _ & _ & _ & _ & _ & H & _).
Qed.

Lemma definition_run_spec def owner now reply env x x' : definition_run (E := E) def owner now reply env x = Ok x' ->
  exists run, x' = set_jobs x (fl_jobs x ++ [mk_fjob owner run (Some reply) false None]) /\ deadline run = now + TIMEOUT_MS
    /\ Z.of_nat (length (fl_jobs x)) < MAX_RUNS.
Proof.
  unfold definition_run. destruct (env_now env) as [at_|]; cbn [mbind result_bind]; [|done].
  destruct (manual def now at_) as [run|] eqn:Em; cbn [mbind result_bind]; [|done].
  destruct (push _ _ _) as [js|] eqn:Ep; cbn [mbind result_bind]; [|done]. intros [= <-]. apply push_Ok in Ep as [Hl ->].
  exists run. split; [done|]. split; [by eapply manual_deadline|done].
Qed.

Lemma start_run_spec (store : Store St) i owner now reply env x x' : start_run (E := E) store i owner now reply env x = Ok x' ->
  exists def, record (document store) "flows" i = Ok def /\ definition_run def owner now reply env x = Ok x'.
Proof.
  unfold start_run, definition_run. destruct (_ <=? _); [done|]. destruct (record _ _ i) as [def|]; cbn [mbind result_bind]; [|done].
  intros H. by exists def.
Qed.

(** A run of the next handle was started. *)
Lemma keeps_run t c def now reply x : ctl_ok c -> flows_due t (runs c) -> due_by t (scene_world c) -> now <= t ->
  definition_run def (ct_owner c + 1) now reply (ct_env c) (ct_flows c) = Ok x ->
  keeps t c (put_owner (set_flows c x) (ct_owner c + 1)) [reply] [].
Proof.
  intros Hok Hf Hs Hn H. apply definition_run_spec in H as (run & -> & Hd & Hl). split.
  - by eapply ctl_ok_run.
  - unfold flows_due, runs. cbn. apply Forall_app. split; [done|]. constructor; [right; cbn; lia|constructor].
  - exact Hs.
  - unfold waiting, runs. cbn [put_owner set_flows ct_flows ct_scenes set_jobs fl_jobs map app]. rewrite flow_replies_app.
    change (flow_replies [_]) with [reply]. solve_Permutation.
Qed.

Lemma keeps_same t c a sent : ctl_ok c -> flows_due t (runs c) -> due_by t (scene_world c) -> a = map fst sent -> keeps t c c a sent.
Proof. intros Hok Hf Hs ->. split; [done..|]. apply Permutation_app_comm. Qed.

Lemma refuse_reply reply status (x : Error) : map fst (refuse (R := R) reply status x) = [reply].
Proof. unfold refuse. by destruct (Response_error_Ok status (error_text x)) as (a & -> & _). Qed.

(** The scenes took a request. *)
Lemma keeps_submit t c i on now reply owner sc s' : ctl_ok c -> flows_due t (runs c) -> due_by t (scene_world c) -> now <= t ->
  ct_owner c <= owner -> submit i on now reply sc (ct_scenes c) = Ok s' ->
  keeps t c (put_scenes (put_owner c owner) s') (option_list reply) [].
Proof.
  intros Hok Hf Hs Hn Ho H. pose proof Hok as [Hw Hl Hb Hh]. pose proof H as Hr. apply (submit_asked i on now reply sc (scene_world c)) in Hr.
  pose proof H as Hd. apply (due_submit t i on now reply sc (scene_world c)) in Hd; [|done..].
  assert (calls s' = calls (ct_scenes c)) as Hcalls.
  { clear -H. unfold submit in H. destruct (push _ _ _); [|done]. by injection H as <-. }
  apply (submit_ok i on now reply sc (scene_world c)) in H as [Hok' _]; [|done].
  split.
  - split; unfold handles, runs; cbn; [by eapply world_ok_owner|done| |by rewrite Hcalls].
    eapply Forall_impl; [exact Hb|]. cbn beta. intros h ?. lia.
  - exact Hf.
  - exact Hd.
  - unfold waiting, runs. cbn. rewrite Hr. cbn. by rewrite <- app_assoc.
Qed.

Lemma scene_route_spec (store : Store St) r now reply s taken s' : route store r now reply s = Ok (taken, s') ->
  if taken : bool then exists i on, submit i on now (Some reply) None s = Ok s' else s' = s.
Proof.
  unfold route. assert (forall (a b : Scenes R), Ok (E := Error) (false, a) = Ok (taken, b) -> taken = false /\ b = a) as Hf by (by intros a b [= <- <-]).
  destruct (negb _); [by intros [-> ->]%Hf|]. destruct (strip_prefix _ _ ≫= _) as [[i cap]|]; [|by intros [-> ->]%Hf].
  destruct (device i store) as [d|]; cbn [mbind result_bind]; [|done].
  destruct (negb _); [by intros [-> ->]%Hf|]. destruct (negb _); [done|].
  destruct (json_parse _) as [b|]; cbn [mbind result_bind]; [|done].
  destruct (ok_or _ _) as [on|]; cbn [mbind result_bind]; [|done].
  destruct (submit _ on now (Some reply) None s) as [s1|] eqn:Es; cbn [mbind result_bind]; [|done].
  intros [= <- <-]. by eexists _, _.
Qed.

Lemma keeps_request t c r now reply mine c' sent : ctl_ok c -> flows_due t (runs c) -> due_by t (scene_world c) -> now <= t ->
  request r now reply c = (mine, c', sent) -> keeps t c c' (if mine : bool then [reply] else []) sent.
Proof.
  intros Hok Hf Hs Hn H. unfold request in H. destruct (route _ r now reply _) as [[taken s]|x] eqn:Er.
  2:{ injection H as <- <- <-. apply keeps_same; [done..|]. by rewrite refuse_reply. }
  apply scene_route_spec in Er. destruct taken.
  { injection H as <- <- <-. destruct Er as (i & on & Er).
    apply (keeps_submit t c i on now (Some reply) (ct_owner c) None s) in Er; [by destruct c|done..]. }
  destruct (flow_path r) as [i|]; [|injection H as <- <- <-; by apply keeps_same]. unfold run_flow in H.
  destruct (checked_add (ct_owner c) 1) as [next|] eqn:Ea; cbn [ok_or mbind result_bind] in H.
  2:{ injection H as <- <- <-. apply keeps_same; [done..|]. by rewrite refuse_reply. }
  apply checked_add_Some in Ea as [-> _]. destruct (start_run _ _ _ _ _ _ _) as [x|x] eqn:Es; cbn [mbind result_bind] in H.
  2:{ injection H as <- <- <-. apply keeps_same; [done..|]. by rewrite refuse_reply. }
  injection H as <- <- <-. apply start_run_spec in Es as (def & _ & Es). by eapply keeps_run.
Qed.

(** ** Answers of apps *)

Lemma keys_due t (js js' : list (FlowJob R)) : map key js' `sublist_of` map key js -> flows_due t js -> flows_due t js'.
Proof.
  intros Hsub HF. assert (Forall (fun k : Z * option R * Z => k.1.2 = None \/ k.2 <= t + TIMEOUT_MS) (map key js)) as Hk by (by apply Forall_map).
  apply (sublist_all _ _ _ Hsub) in Hk. by apply Forall_map in Hk.
Qed.

Lemma keys_owners (js js' : list (FlowJob R)) : map key js' `sublist_of` map key js -> map f_owner js' `sublist_of` map f_owner js.
Proof.
  intros H. assert (forall l : list (FlowJob R), map f_owner l = map (fun k => k.1.1) (map key l)) as Hm by (intros l; by rewrite map_map).
  rewrite !Hm. by apply fmap_sublist.
Qed.

Lemma complete_calls d s r s' : SceneJobs.complete d s = (r, s') -> calls s' `sublist_of` calls s.
Proof.
  unfold SceneJobs.complete. destruct (take_call _ _) as [[call cs]|] eqn:Et; [|by intros [= _ <-]].
  apply take_call_sublist in Et. destruct (complete_job _ _ _ _ _) as [r1 js]. by intros [= _ <-].
Qed.

(** Scenes and runs lost nothing but handles. *)
Lemma ctl_ok_less c c' : ctl_ok c -> map key (runs c') `sublist_of` map key (runs c) -> calls (ct_scenes c') `sublist_of` calls (ct_scenes c) ->
  ct_owner c' = ct_owner c -> world_ok (scene_world c') -> ctl_ok c'.
Proof.
  intros [Hs Hf Hb Hh] Hk Hc Ho Hw. pose proof (keys_owners _ _ Hk) as Hown. split; [done| | |].
  - apply sublist_length in Hk. rewrite !length_map in Hk. lia.
  - rewrite Ho. by eapply sublist_all.
  - eapply sublist_NoDup; [exact Hh|]. unfold handles. apply sublist_app; [done|]. by apply fmap_sublist.
Qed.

Lemma keeps_deliver t c d : ctl_ok c -> flows_due t (runs c) -> due_by t (scene_world c) -> keeps t c (deliver d c) [] [].
Proof.
  intros Hok Hf Hs. pose proof Hok as [Hw _ _ _]. unfold deliver. destruct (SceneJobs.complete d (ct_scenes c)) as [r s] eqn:Ec.
  pose proof (complete_calls _ _ _ _ Ec) as Hcalls. apply (answered_ok d (scene_world c)) in Ec as (H1 & H2 & H3); [|done].
  assert (forall x, map key (fl_jobs x) = map key (runs c) -> keeps t c (put_scenes (set_flows c x) s) [] []) as Hkeep.
  { intros x Hx. split.
    - eapply ctl_ok_less; [exact Hok| | |done|exact H1]; [by unfold runs; cbn; rewrite Hx|done].
    - eapply keys_due; [|exact Hf]. unfold runs. cbn. by rewrite Hx.
    - eapply same_deadlines; [exact H3|exact Hs].
    - rewrite app_nil_r. cbn [map app]. unfold waiting, runs. cbn. rewrite H2. apply keys_replies in Hx as [-> _]. done. }
  destruct r as [[|]|y]; [|apply Hkeep, complete_flow_keys|]; apply (Hkeep (ct_flows c)); done.
Qed.

(** ** A turn *)

Lemma forward_keys taken now out : forall x, map key (fl_jobs (forward taken now out x)) = map key (fl_jobs x).
Proof.
  unfold forward. induction out as [|d out IH]; intros x; [done|]. cbn [fold_left]. rewrite IH.
  destruct (taken d); [done|apply complete_flow_keys].
Qed.

Lemma queued_spec now s s' owner (store : Store St) (apps : A) : queued now s s' -> world_ok (mk_world s owner store apps) ->
  world_ok (mk_world s' owner store apps) /\ calls s' = calls s
  /\ exists new, jobs s' = jobs s ++ new /\ Forall (fun j => j_reply j = None /\ j_deadline j = saturating_add now 45000) new.
Proof.
  induction 1 as [s|s i on o s1 s2 Hsub Hq IH]; intros Hok; [split; [done|split; [done|]]; exists []; by rewrite app_nil_r|].
  assert (calls s1 = calls s) as Hc by (clear -Hsub; unfold submit in Hsub; destruct (push _ _ _); [by injection Hsub as <-|done]).
  apply (submit_ok i on now None o (mk_world s owner store apps)) in Hsub as [Hok1 (j & Hj & Hr & _ & Hd)]; [|done].
  destruct (IH Hok1) as (Hok2 & Hc2 & new & Hn & HF). split; [done|]. split; [by rewrite Hc2|]. exists (j :: new).
  cbn [w_scenes] in Hj. rewrite Hn, Hj, <- app_assoc. split; [done|]. by constructor.
Qed.

(** What a turn leaves; [old] and [new] are the runs and scenes before it and those it started. *)
Lemma keeps_turn t c taken c' sent : ctl_ok c -> flows_due t (runs c) -> due_by t (scene_world c) -> apps_now (ct_apps c) <= t ->
  turn taken c = (c', sent) -> keeps t c c' [] sent.
Proof.
  intros Hok Hf Hs Hn H. pose proof Hok as [Hw Hl Hb Hh]. unfold turn in H.
  destruct (poll_flows _ _ _) as [[[x owner] e] sent1] eqn:Ep.
  apply poll_flows_spec in Ep as [Ho (new & HF & HD & Hlen & Hk) Hrep _ Hq]. cbn [fe_apps fe_scenes] in *.
  apply (queued_spec _ _ _ (ct_owner c) (ct_store c) (ct_apps c)) in Hq as (Hw1 & Hc1 & more & Hj1 & HF1); [|exact Hw].
  apply (world_ok_owner _ _ _ _ owner (fe_store e) (fe_apps e)) in Hw1; [|done].
  set (w1 := mk_world (fe_scenes e) owner (fe_store e) (fe_apps e)) in *.
  destruct (SceneJobs.poll w1) as [[r w] sent2] eqn:Es. injection H as <- <-.
  assert (due_by t w1) as Hd1.
  { unfold due_by, w1. cbn [w_scenes]. rewrite Hj1. apply Forall_app. split; [exact Hs|].
    eapply Forall_impl; [exact HF1|]. cbn beta. intros j [_ ->]. unfold saturating_add. lia. }
  pose proof (poll_due _ _ _ _ _ Hw1 Hd1 Es) as Hd2.
  apply poll_spec in Es as (Hw2 & Ho2 & Hnew & (out & -> & Hr2 & _) & _); [|done]. cbn [w1 w_owner w_scenes] in *.
  set (x2 := forward taken _ out x).
  assert (map key (fl_jobs x2) = map key (fl_jobs x)) as Hx2 by apply forward_keys.
  pose proof (keys_owners _ _ Hk) as Hown. rewrite map_app in Hown.
  assert (map f_owner (fl_jobs x2) = map f_owner (fl_jobs x)) as Hx2o by (by apply keys_replies in Hx2 as [_ ?]).
  assert (Forall (fun h => h <= owner) (map f_owner (fl_jobs x2))) as Hbound.
  { rewrite Hx2o. eapply sublist_all; [exact Hown|]. apply Forall_app. split; [eapply Forall_impl; [exact Hb|]; cbn beta; intros h ?; lia|].
    apply Forall_map. eapply Forall_impl; [exact HF|]. cbn beta. intros j [_ ?]. lia. }
  assert (NoDup (map f_owner (runs c) ++ map f_owner new)) as HDall.
  { apply NoDup_app in Hh as (Hh1 & _ & _). apply NoDup_app. split; [done|]. split; [|done]. intros h Hi1 Hi2.
    apply (runs_bound c _ Hok) in Hi1. apply list_elem_of_fmap in Hi2 as (j & -> & Hj). rewrite Forall_forall in HF. destruct (HF _ Hj). lia. }
  assert (due_by t (scene_world (mk_ctl x2 (w_scenes w) (w_owner w) (w_store w) (w_apps w) (fe_env e)))) as Hd3 by exact Hd2.
  split; [split|..]; unfold handles, waiting, runs in *; cbn [ct_flows ct_scenes ct_owner ct_store ct_apps].
  - unfold scene_world. cbn. by destruct w.
  - apply sublist_length in Hk. rewrite !length_map in Hk. rewrite <- (length_map key), Hx2, length_map. lia.
  - eapply Forall_impl; [exact Hbound|]. cbn beta. intros h ?. lia.
  - apply NoDup_app. split; [rewrite Hx2o; by eapply sublist_NoDup|]. split; [|by destruct Hw2 as [[]]].
    intros h Hi1 Hi2. rewrite Forall_forall in Hbound. pose proof (Hbound _ Hi1) as Hle. rewrite Hx2o in Hi1.
    apply list_elem_of_fmap in Hi2 as (k & -> & Hki). rewrite Forall_forall in Hnew. destruct (Hnew _ Hki) as [Hin|]; [|lia].
    rewrite Hc1 in Hin. assert (call_owner k ∈ map call_owner (calls (ct_scenes c))) as Hin' by (apply list_elem_of_fmap; by exists k).
    apply (elem_of_sublist _ _ _ Hi1) in Hown. apply elem_of_app in Hown as [Hold|Hnw].
    + apply NoDup_app in Hh as (_ & Hdis & _). by apply (Hdis _ Hold).
    + apply (calls_bound c _ Hok) in Hin'. apply list_elem_of_fmap in Hnw as (j & Hj & Hjin). rewrite Forall_forall in HF. destruct (HF _ Hjin). lia.
  - apply (keys_due t (fl_jobs (ct_flows c) ++ new)); [by rewrite Hx2|]. unfold flows_due. apply Forall_app. split; [done|].
    eapply Forall_impl; [exact HF|]. cbn beta. intros j [? _]. by left.
  - exact Hd3.
  - apply keys_replies in Hx2 as [Hx2r _]. rewrite Hx2r, app_nil_r, Hrep, map_app.
    assert (replies (jobs (fe_scenes e)) = replies (jobs (ct_scenes c))) as Hsame.
    { rewrite Hj1, replies_app. assert (replies more = []) as ->; [|apply app_nil_r].
      clear -HF1. unfold replies. induction HF1 as [|j js [Hj _] _ IH]; [done|]. cbn. by rewrite Hj. }
    rewrite <- Hsame, Hr2. solve_Permutation.
Qed.

Lemma keeps_owner t c owner store apps env : ct_owner c <= owner -> ctl_ok c -> flows_due t (runs c) -> due_by t (scene_world c) ->
  keeps t c (mk_ctl (ct_flows c) (ct_scenes c) owner store apps env) [] [].
Proof. intros Ho Hok Hf Hs. split; [by apply ctl_ok_owner|done|exact Hs|]. by rewrite app_nil_r. Qed.

Lemma happens_keeps t c ev c' asked sent : ctl_ok c -> flows_due t (runs c) -> due_by t (scene_world c) -> timely t c ev ->
  happens c ev = (c', asked, sent) -> keeps t c c' asked sent.
Proof.
  intros Hok Hf Hs Ht H. destruct ev as [r now reply|def reply|i on|d|taken|owner store apps env]; cbn [happens timely] in *.
  - destruct (request r now reply c) as [[mine c1] sent1] eqn:Er. injection H as <- <- <-. by eapply keeps_request.
  - unfold mcp_flow in H. destruct (checked_add (ct_owner c) 1) as [next|] eqn:Ea; [|injection H as <- <- <-; by apply keeps_same].
    apply checked_add_Some in Ea as [-> _].
    destruct (definition_run _ _ _ _ _ _) as [x|x] eqn:Ed; injection H as <- <- <-; [by eapply keeps_run|].
    apply keeps_owner; [lia|done..].
  - injection H as <- <- <-. unfold mcp_scene. destruct (checked_add (ct_owner c) 1) as [next|] eqn:Ea; [|by apply keeps_same].
    apply checked_add_Some in Ea as [-> _]. cbn [ct_apps put_owner ct_scenes].
    destruct (submit _ _ _ _ _ _) as [s|x] eqn:Es; [|apply keeps_owner; [lia|done..]].
    apply (keeps_submit t c i on _ None (ct_owner c + 1)) in Es; [done|done..|lia].
  - injection H as <- <- <-. by apply keeps_deliver.
  - destruct (turn taken c) as [c1 sent1] eqn:Et. injection H as <- <- <-. by eapply keeps_turn.
  - injection H as <- <- <-. apply keeps_owner; [lia|done..].
Qed.

Lemma reaches_ok t c asked sent : reaches t c asked sent ->
  ctl_ok c /\ flows_due t (runs c) /\ due_by t (scene_world c) /\ asked ≡ₚ map fst sent ++ waiting c.
Proof.
  induction 1 as [owner store apps env|c asked sent ev c' more sent' _ (Hok & Hf & Hs & Hr) Ht H].
  - destruct (idle_ok (R := R) t owner store apps) as [Hw Hd]. split; [|split; [constructor|split; [exact Hd|done]]].
    split; [exact Hw|cbn; unfold MAX_RUNS; lia|constructor|constructor].
  - apply (happens_keeps t) in H as [H1 H2 H3 H4]; [|done..]. split; [done|]. split; [done|]. split; [done|].
    rewrite Hr, map_app, <- !app_assoc, H4. done.
Qed.

(** A turn 45 seconds later leaves no request. *)
Lemma turn_answers {HM : Monotonic A} t c taken c' sent : ctl_ok c -> flows_due t (runs c) -> due_by t (scene_world c) ->
  t + 45000 <= apps_now (ct_apps c) -> turn taken c = (c', sent) -> waiting c' = [].
Proof.
  intros Hok Hf Hs Hnow H. pose proof Hok as [Hw Hl Hb Hh]. unfold turn in H.
  destruct (poll_flows _ _ _) as [[[x owner] e] sent1] eqn:Ep. pose proof (poll_flows_forward _ _ _ _ _ _ _ Ep) as Htime.
  apply poll_flows_spec in Ep as [Ho (new & HF & _ & _ & Hk) _ Halive Hq]. cbn [fe_apps fe_scenes] in *.
  apply (queued_spec _ _ _ (ct_owner c) (ct_store c) (ct_apps c)) in Hq as (Hw1 & _ & more & Hj1 & HF1); [|exact Hw].
  apply (world_ok_owner _ _ _ _ owner (fe_store e) (fe_apps e)) in Hw1; [|done].
  destruct (SceneJobs.poll _) as [[r w] sent2] eqn:Es. injection H as <- _.
  assert (replies (jobs (w_scenes w)) = []) as Ha.
  { eapply poll_answers; [exact Hw1|exact Hj1| | |exact Es].
    - eapply Forall_impl; [exact Hs|]. cbn beta. unfold time in Htime. cbn [fe_apps w_apps] in *. intros j ?. lia.
    - eapply Forall_impl; [exact HF1|]. cbn beta. by intros j [? _]. }
  unfold waiting, runs. cbn [ct_flows ct_scenes]. rewrite Ha, app_nil_r.
  set (x2 := match r with Ok _ => _ | Err _ => x end).
  assert (map key (fl_jobs x2) = map key (fl_jobs x)) as Hx2 by (unfold x2; destruct r; [apply forward_keys|done]).
  apply keys_replies in Hx2 as [-> _].
  assert (flows_due t (fl_jobs x)) as Hx.
  { eapply keys_due; [exact Hk|]. apply Forall_app. split; [done|]. eapply Forall_impl; [exact HF|]. cbn beta. intros j [? _]. by left. }
  clear -Hx Halive Hnow. unfold flow_replies. induction (fl_jobs x) as [|j js IH]; [done|].
  apply Forall_cons in Hx as [Hx1 Hx2]. apply Forall_cons in Halive as [Ha1 Ha2]. cbn. unfold TIMEOUT_MS in Hx1.
  destruct Hx1 as [->|]; [by apply IH|lia].
Qed.

End Server.

(** ** The properties *)

Section Properties.
Context {St : Type} {HS : Storage St} {A : Type} {HA : Apps A} {E : Type} {HE : Environment E} {HC : Clock} {R : Type}.
Context (t : Z) (c : Ctl (St := St) (A := A) (E := E) (R := R)) (asked : list R) (sent : list (R * Response)).

(** C26: The controller answers every request for a Flow or a scene, exactly once and in time:
    whatever requests, orders of MCP, answers of apps and turns of the loop follow each other,
    the requests that were taken are those that were answered and those that wait, each once; and
    the first turn 45 seconds after the last of them leaves none, provided the clock of the apps
    is monotonic. *)
Theorem controller_requests_are_answered : reaches t c asked sent ->
  asked ≡ₚ map fst sent ++ waiting c
  /\ (Monotonic A -> forall taken c' more, turn taken c = (c', more) -> t + 45000 <= apps_now (ct_apps c) ->
      asked ≡ₚ map fst (sent ++ more) /\ waiting c' = []).
Proof.
  intros H. apply reaches_ok in H as (Hok & Hf & Hs & Hr). split; [done|]. intros HM taken c' more Ht Hnow.
  pose proof (turn_answers t c taken c' more Hok Hf Hs Hnow Ht) as Hw. split; [|done].
  apply (keeps_turn (apps_now (ct_apps c))) in Ht as [_ _ _ Hk]; [| done | | |lia].
  - rewrite app_nil_r, Hw, app_nil_r in Hk. by rewrite map_app, <- Hk.
  - eapply Forall_impl; [exact Hf|]. cbn beta. intros j [?|?]; [by left|right; lia].
  - eapply Forall_impl; [exact Hs|]. cbn beta. intros j ?. lia.
Qed.

(** No answer of an app can reach the wrong run or scene: the handles that the runs of Flows
    and the calls of scenes wait with are all different, none exceeds the counter from which the
    next is taken, and there are never more than four runs, 32 scene jobs and 16 scene calls. *)
Theorem handles_are_never_shared : reaches t c asked sent ->
  NoDup (handles c) /\ Forall (fun h => h <= ct_owner c) (handles c)
  /\ (length (fl_jobs (ct_flows c)) <= 4 /\ length (jobs (ct_scenes c)) <= 32 /\ length (calls (ct_scenes c)) <= 16)%nat.
Proof.
  intros H. apply reaches_ok in H as (Hok & _). pose proof Hok as [[[_ _ Hc _ _ _] Hj _] Hl _ Hh]. split; [done|]. split.
  - apply Forall_forall. intros h Hin. apply elem_of_app in Hin as [Hin|Hin]; [by apply (runs_bound c)|by apply (calls_bound c)].
  - unfold runs, MAX_RUNS, MAX_JOBS, MAX_CALLS in *. cbn [env_of scene_world e_calls w_scenes] in *. lia.
Qed.

End Properties.

(** ** Two Flows and a scene *)

(** Apps that take every call, at the time that is their state, and a platform that counts. *)
#[local] Instance patient : Apps Z := {
  apps_now := fun now => now; apps_running := fun _ _ => true; apps_call := fun _ _ _ _ a => (Ok tt, a);
  apps_adopt := fun _ a => (Ok tt, a); apps_log := fun _ a => a
}.

#[local] Instance patient_monotonic : Monotonic Z.
Proof. split; cbn; lia. Qed.

#[local] Instance counter : Environment Z := {
  env_id := fun n => (Ok (show n), n + 1); env_now := fun _ => Ok "2024-01-01T00:00:00Z"; env_log := fun _ _ _ n => n
}.

#[local] Instance utc : Clock := { local := fun unix => civil unix 0; solar := fun _ _ _ _ => Ok None }.

Definition http (meth path body : string) : Request :=
  mk_request meth path "" "" "" "" object (quoted body).

Definition story : list (event (St := Memory) (A := Z) (E := Z) (R := nat)) :=
  [McpFlow blink 1%nat; Http (http "POST" "/api/stulp/flows/f1/run" "") 1000 2%nat;
   Http (http "POST" "/api/stulp/flows/none/run" "") 1000 3%nat;
   Http (http "PUT" "/api/manager/devices/device/scene:film/capability/onoff" "{'value':true}") 1000 4%nat;
   Turn (fun _ => false); Deliver (mk_completion 3 false object); Turn (fun _ => false);
   McpFlow blink 5%nat; Turn (fun _ => false); Outside 20 SceneRun.lit 47000 7].

Fixpoint run_story (c : Ctl (St := Memory) (A := Z) (E := Z) (R := nat)) (evs : list event) (asked : list nat) (sent : list (nat * Response))
  : Ctl * list nat * list (nat * Response) :=
  match evs with
  | [] => (c, asked, sent)
  | ev :: evs => let '(c, a, s) := happens c ev in run_story c evs (asked ++ a) (sent ++ s)
  end.

Fixpoint all_timely (t : Z) (c : Ctl (St := Memory) (A := Z) (E := Z) (R := nat)) (evs : list event) : Prop :=
  match evs with [] => True | ev :: evs => timely t c ev /\ all_timely t (happens c ev).1.1 evs end.

Lemma story_reaches t evs : forall c asked sent c' asked' sent', reaches t c asked sent -> all_timely t c evs ->
  run_story c evs asked sent = (c', asked', sent') -> reaches t c' asked' sent'.
Proof.
  induction evs as [|ev evs IH]; intros c asked sent c' asked' sent' Hr Ht H; cbn [run_story all_timely] in *; [by injection H as <- <- <-|].
  destruct Ht as [Ht Hrest]. destruct (happens c ev) as [[c1 a] s] eqn:Eh. cbn [fst] in Hrest. eapply IH; [|exact Hrest|exact H].
  by eapply reaches_event.
Qed.

Definition start_of_story : Ctl (St := Memory) (A := Z) (E := Z) (R := nat) := mk_ctl Flows_new Scenes_new 0 SceneRun.lit 1000 7.
Definition end_of_story := Eval vm_compute in run_story start_of_story story [] [].

Lemma story_is_reached : reaches 1000 end_of_story.1.1 end_of_story.1.2 end_of_story.2.
Proof.
  apply (story_reaches 1000 story start_of_story [] []); [apply reaches_idle| |vm_compute; reflexivity].
  cbn [story all_timely timely]. repeat split; vm_compute; by intros.
Qed.

Lemma controller_requests_are_answered_witness :
  end_of_story.1.2 = [1; 2; 3; 4; 5]%nat /\ map fst end_of_story.2 = [3; 2; 4]%nat
  /\ exists c' more, turn (fun _ => false) end_of_story.1.1 = (c', more)
     /\ [1; 2; 3; 4; 5]%nat ≡ₚ map fst (end_of_story.2 ++ more) /\ waiting c' = [].
Proof.
  split; [reflexivity|]. split; [reflexivity|].
  destruct (turn (fun _ => false) end_of_story.1.1) as [c' more] eqn:E. exists c', more. split; [done|].
  destruct (controller_requests_are_answered 1000 _ _ _ story_is_reached) as [_ H].
  apply (H patient_monotonic (fun _ => false) c' more E). vm_compute. by intros.
Defined.

Lemma handles_are_never_shared_witness :
  map f_owner (fl_jobs (ct_flows end_of_story.1.1)) = [1; 4] /\ NoDup (handles end_of_story.1.1)
  /\ Forall (fun h => h <= 20) (handles end_of_story.1.1).
Proof.
  split; [reflexivity|]. destruct (handles_are_never_shared 1000 _ _ _ story_is_reached) as (H1 & H2 & _).
  split; [exact H1|]. exact H2.
Defined.
