(* ===== verification/Capability.v ===== *)
(** * Capability: what the browser sees of a capability

    Models [capability.rs], [measures.rs] and [titles.rs] of [crates/web/src], and [title] of
    [cards.rs]: the definition of a capability from its name, its value and the manifest of its
    app, its value in the units of the house, and the check and conversion of what a user
    enters. *)

From Stdlib Require Import ZArith Lia Ascii String.
From S2P Require Import Prelude Text Errors Slots Float Value Json Document Stats Store Scenes.
From S2P Require Units Manifest Display Schedule.

Local Open Scope Z_scope.

(** ** Titles *)

Definition TITLES : list (string * string) :=
  [("air_quality_state", "Luchtkwaliteit"); ("alarm_battery", "Batterijalarm"); ("alarm_co", "Koolmonoxidealarm");
   ("alarm_co2", "Kooldioxidealarm"); ("alarm_contact", "Contactalarm"); ("alarm_fire", "Brandalarm"); ("alarm_generic", "Alarm");
   ("alarm_glassbreak", "Glasbreukalarm"); ("alarm_heat", "Hittealarm"); ("alarm_motion", "Bewegingsalarm");
   ("alarm_night", "Nachtalarm"); ("alarm_pressure", "Drukalarm"); ("alarm_smoke", "Rookalarm"); ("alarm_tamper", "Sabotagealarm");
   ("alarm_vibration", "Trillingsalarm"); ("alarm_water", "Wateralarm"); ("button", "Knop"); ("dim", "Dimniveau");
   ("garagedoor_closed", "Garagedeur gesloten"); ("homealarm_state", "Alarmstand"); ("light_hue", "Kleur");
   ("light_mode", "Lichtmodus"); ("light_saturation", "Verzadiging"); ("light_temperature", "Kleurtemperatuur");
   ("lock_mode", "Slotstand"); ("locked", "Vergrendeld"); ("measure_battery", "Batterijniveau"); ("measure_co", "Koolmonoxide");
   ("measure_co2", "Kooldioxide"); ("measure_current", "Stroom"); ("measure_gust_strength", "Windstoten");
   ("measure_humidity", "Luchtvochtigheid"); ("measure_luminance", "Lichtsterkte"); ("measure_noise", "Geluidsniveau");
   ("measure_pm25", "Fijnstof"); ("measure_power", "Vermogen"); ("measure_pressure", "Luchtdruk"); ("measure_rain", "Neerslag");
   ("measure_temperature", "Temperatuur"); ("measure_ultraviolet", "UV-index"); ("measure_voltage", "Spanning");
   ("measure_water", "Waterdoorstroming"); ("measure_wind_angle", "Windrichting"); ("measure_wind_strength", "Windkracht");
   ("meter_gas", "Gasverbruik"); ("meter_power", "Energieverbruik"); ("meter_water", "Waterverbruik"); ("onoff", "Aan/uit");
   ("speaker_artist", "Artiest"); ("speaker_duration", "Duur"); ("speaker_next", "Volgende nummer"); ("speaker_playing", "Speelt af");
   ("speaker_position", "Afspeelpositie"); ("speaker_prev", "Vorige nummer"); ("speaker_repeat", "Herhalen");
   ("speaker_shuffle", "Willekeurig afspelen"); ("speaker_track", "Nummer"); ("target_temperature", "Streeftemperatuur");
   ("thermostat_mode", "Thermostaatstand"); ("vacuumcleaner_state", "Stofzuigerstand"); ("volume_mute", "Gedempt");
   ("volume_set", "Volume"); ("windowcoverings_set", "Positie"); ("windowcoverings_state", "Stand")].

Definition standard (id : string) : string := default "" (snd <$> find (fun p => (p.1 =? id)%string) TITLES).

Definition title (id : string) (declared : Value) (language : string) : string :=
  let own := Manifest.localized declared language in
  if negb (is_empty own) && negb (own =? id)%string then own
  else
    let '(base, suffix) := default (id, EmptyString) (Schedule.split_once "." id) in
    let name := standard base in
    if is_empty name then id else if is_empty suffix then name else (name ++ " " ++ suffix)%string.

(** ** The definition of a capability *)

Definition SETABLE : list string :=
  ["onoff"; "dim"; "locked"; "light_hue"; "light_saturation"; "volume_set"; "volume_mute"; "speaker_playing"; "speaker_next";
   "speaker_prev"; "speaker_shuffle"; "speaker_repeat"; "windowcoverings_state"].

Definition ends_with (p s : string) : bool := bool_decide (is_Some (Templates.strip_suffix p s)).

Definition setable (base : string) : bool :=
  Display.is_one_of SETABLE base || ends_with "_set" base || starts_with "target_" base.

Definition kind_of (base : string) (current : option Value) : string :=
  match current with
  | Some (VBool _) => "boolean"
  | Some (VNumber _) => "number"
  | _ =>
      if Display.is_one_of ["onoff"; "button"; "locked"] base || starts_with "alarm_" base then "boolean"
      else if (base =? "dim")%string || starts_with "measure_" base || starts_with "meter_" base || starts_with "target_" base
           then "number"
      else "string"
  end.

(** [apply]: what a manifest says of a capability. *)
Definition APPLIED : list string := ["type"; "getable"; "setable"; "title"; "desc"; "values"; "min"; "max"; "step"; "units"].

Fixpoint apply_keys (keys : list string) (definition result : Value) : Result Value :=
  match keys with
  | [] => Ok result
  | key :: keys =>
      match get definition key with
      | Some v => if is_null v then apply_keys keys definition result
                  else result ← set result key v; apply_keys keys definition result
      | None => apply_keys keys definition result
      end
  end.

Definition apply (definition : option Value) (result : Value) : Result Value :=
  match definition with Some d => apply_keys APPLIED d result | None => Ok result end.

Section Capability.
Context {St : Type} {HS : Storage St}.

Definition state_of (device : Value) (id : string) : option Value := get device "state" ≫= fun v => get v id.

Definition definition (store : Store St) (device : Value) (id : string) : Result Value :=
  let base := before_first "." id in
  let result := fields [("id", VString id); ("title", VString (title id VNull (language store)));
                        ("type", VString (kind_of base (state_of device id))); ("getable", VBool true);
                        ("setable", VBool (setable base)); ("lastUpdated", VNull)] in
  result ← Display.defaults result base;
  result ← (if (text device "appId" =? APP_ID)%string && (base =? "button")%string
            then result ← set result "getable" (VBool false); set result "setable" (VBool true) else Ok result);
  match manifest_of (text device "appId") store with
  | None => Ok result
  | Some app =>
      result ← apply (get app "capabilities" ≫= fun v => get v id) result;
      apply (find (fun d => (text d "id" =? text device "driverId")%string) (array app "drivers")
             ≫= fun d => get d "capabilitiesOptions" ≫= fun v => get v id) result
  end.

Definition choices (store : Store St) : option Value := get (root (document store)) "system" ≫= fun v => get v "units".

Definition unit_name (definition : Value) : string :=
  match get definition "units" with Some v => Manifest.localized v "en" | None => EmptyString end.

(** ** The units of the house *)

Fixpoint show_keys (keys : list string) (choices : Value) (unit : string) (result : Value) : Result Value :=
  match keys with
  | [] => Ok result
  | key :: keys =>
      match get result key, Units.step choices unit with
      | Some (VNumber n), Some _ =>
          result ← set result key (VNumber (Float (Units.show choices (as_f64 n) unit).1)); show_keys keys choices unit result
      | _, _ => show_keys keys choices unit result
      end
  end.

Definition show_units (store : Store St) (result : Value) : Result Value :=
  let unit := unit_name result in
  let choices := default object (choices store) in
  result ← show_keys ["value"; "min"; "max"] choices unit result;
  match Units.step choices unit with
  | None => Ok result
  | Some step =>
      result ← set result "step" (VNumber (Float step));
      set result "units" (VString (Units.show choices (Units.lit 0 0) unit).2)
  end.

Definition output (store : Store St) (device : Value) (id : string) : Result Value :=
  result ← definition store device id;
  result ← set result "value" (default VNull (state_of device id));
  show_units store result.

(** ** What a user enters *)

Definition is_number (v : Value) : bool := match v with VNumber _ => true | _ => false end.

Definition out_of_range (definition : Value) (number : f64) : bool :=
  match get definition "min" with Some (VNumber l) => f_ltb number (as_f64 l) | _ => false end
  || match get definition "max" with Some (VNumber l) => f_ltb (as_f64 l) number | _ => false end.

Definition input (store : Store St) (device : Value) (id : string) (value : Value) : Result Value :=
  definition ← definition store device id;
  if negb (boolean definition "setable") then Err (Invalid "capability is read-only")
  else
    let kind := text definition "type" in
    if ((kind =? "boolean")%string && negb (bool_decide (is_Some (as_bool value))))
       || ((kind =? "number")%string && negb (is_number value))
    then Err (Invalid "invalid capability value type")
    else if (kind =? "enum")%string
            && negb (existsb (fun v => match get v "id" with Some i => equal i value | None => false end) (array definition "values"))
    then Err (Invalid "unknown capability enum value")
    else
      match value with
      | VNumber n =>
          let choices := default object (choices store) in
          let unit := unit_name definition in
          let number := Units.canonical choices (as_f64 n) unit in
          if out_of_range definition number then Err (Invalid "capability value out of range")
          else if bool_decide (is_Some (Units.step choices unit)) then Ok (VNumber (Float number)) else Ok value
      | _ => Ok value
      end.

(** ** Measures in the answers of apps *)

(** [convert]; [fuel] is how deep it may still go: the code stops at a depth of more than 64. *)
Fixpoint convert (fuel : nat) (settings value : Value) {struct fuel} : Result Value :=
  match fuel with
  | O => Err Full
  | S fuel =>
      match value with
      | VObject o =>
          match get value "$measure" with
          | Some (VNumber n) =>
              let unit := trim (Manifest.localized (get_null value "units") "en") in
              let '(shown, label) := Units.show settings (as_f64 n) unit in
              t ← Units.measurement_text settings (as_f64 n) unit;
              Ok (fields [("value", VNumber (Float shown)); ("units", VString label); ("text", VString t);
                          ("measured", VNumber n); ("canonical", VString unit)])
          | _ =>
              (fix go (o out : Object) : Result Value :=
                 match o with
                 | [] => Ok (VObject out)
                 | (k, v) :: o => w ← convert fuel settings v; go o (obj_push out k w)
                 end) o []
          end
      | VArray vs => a ← push_all (convert fuel settings) MAX_INPUT vs []; Ok (VArray a)
      | _ => Ok value
      end
  end.

Definition show_measures (store : Store St) (value : Value) : Result Value :=
  convert 65 (default VNull (choices store)) value.

End Capability.
