(* ===== verification/Objects.v ===== *)
(** * Objects: the public objects of the browser

    Models [objects.rs] and [views.rs] of [crates/web/src]: devices, apps and drivers as the
    browser sees them, whole or as tiles. *)

From Stdlib Require Import ZArith Lia Ascii String.
From S2P Require Import Prelude Text Errors Slots Value Document Stats Store Scenes Capability.
From S2P Require Manifest.

Local Open Scope Z_scope.

(** [manager::FIELDS]: the fields of a device that only the browser knows. *)
Definition FIELDS : list (string * string) :=
  [("zone", "__stulp.api.zone"); ("note", "__stulp.api.note"); ("iconOverride", "__stulp.api.iconOverride");
   ("virtualClass", "__stulp.api.virtualClass"); ("uiIndicator", "__stulp.api.uiIndicator"); ("hidden", "__stulp.api.hidden")].

Definition copy (v : option Value) : Value := default VNull v.

Fixpoint copy_keys (keys : list string) (from result : Value) : Result Value :=
  match keys with
  | [] => Ok result
  | key :: keys => result ← set result key (copy (get from key)); copy_keys keys from result
  end.

Definition fallback (key : string) : Value :=
  if (key =? "note")%string then VString EmptyString
  else if (key =? "zone")%string then VString "stulp-home"
  else if (key =? "hidden")%string then VBool false
  else VNull.

Fixpoint copy_stored (pairs : list (string * string)) (data result : Value) : Result Value :=
  match pairs with
  | [] => Ok result
  | (key, stored) :: pairs =>
      result ← set result key (default (fallback key) (get data stored)); copy_stored pairs data result
  end.

(** A capability that an array of a record names. *)
Definition strings (v : Value) (key : string) : list string := omap as_str (array v key).

Section Objects.
Context {St : Type} {HS : Storage St}.
Implicit Types store : Store St.

Definition manufacturer store (device : Value) : string :=
  let app := text device "appId" in
  if (app =? APP_ID)%string then "Stulp"
  else
    let of_device key := trim (match get device key with Some v => text v "manufacturer" | None => EmptyString end) in
    let of_manifest m key := match get m key with Some v => Manifest.localized v (language store) | None => EmptyString end in
    if negb (is_empty (of_device "store")) then of_device "store"
    else if negb (is_empty (of_device "data")) then of_device "data"
    else match manifest_of app store with
         | Some m => if negb (is_empty (of_manifest m "manufacturer")) then of_manifest m "manufacturer"
                     else if negb (is_empty (of_manifest m "name")) then of_manifest m "name" else app
         | None => app
         end.

Fixpoint outputs store (device : Value) (caps : list string) (result : Value) : Result Value :=
  match caps with
  | [] => Ok result
  | cap :: caps => object ← output store device cap; result ← set result cap object; outputs store device caps result
  end.

Definition owner_uri (app : string) : string := "stulp:app:" ++ app.
Definition driver_uri (app driver : string) : string := owner_uri app ++ ":" ++ driver.

Definition DEVICE_KEYS : list string :=
  ["id"; "appId"; "groupId"; "sortOrder"; "name"; "class"; "data"; "settings"; "capabilities"; "available"; "unavailableMessage"].

Definition hardware_name (device : Value) : string :=
  let stored := match get device "store" with Some s => text s "__stulp.hardwareName" | None => EmptyString end in
  if is_empty stored then text device "name" else stored.

Definition device_object store (id : string) : Result Value :=
  device ← Store.device id store;
  let app := text device "appId" in
  result ← copy_keys DEVICE_KEYS device object;
  let data := default VNull (get device "store") in
  result ← copy_stored FIELDS data result;
  result ← set result "warningMessage" (copy (get data "__stulp.warning"));
  result ← set result "energy" (copy (get data "__stulp.energy"));
  result ← set_all result [("ownerUri", VString (owner_uri app)); ("repair", VBool false); ("flags", VArray []);
                           ("manufacturer", VString (manufacturer store device));
                           ("driverId", VString (driver_uri app (text device "driverId")));
                           ("hardwareName", VString (hardware_name device))];
  capabilities ← outputs store device (strings device "capabilities") object;
  set_all result [("capabilitiesObj", capabilities); ("ready", VBool true); ("unpair", VBool true);
                  ("capabilitiesComplete", VBool true); ("detailComplete", VBool true); ("settingsObj", object); ("ui", object)].

(** ** Apps and drivers *)

Definition has_asset (manifest : Value) (path : string) : bool :=
  existsb (fun p => match as_str p with Some s => (s =? path)%string | None => false end)
    (array (get_null manifest "ui") "assets").

Definition app_object store (id : string) : Result Value :=
  app ← record (document store) "apps" id;
  let manifest := default object (manifest_of id store) in
  let runtime := default object (app_runtime id store) in
  let own := match get manifest "name" with Some v => Manifest.localized v (language store) | None => EmptyString end in
  let name := if is_empty own then id else own in
  let author := match get manifest "author" with Some v => v | None => fields [("name", VString "Unknown")] end in
  let settings := match get manifest "settings" with Some v => negb (is_null v) | None => false end
                  || has_asset manifest "settings/index.html" in
  Ok (fields
    [("id", VString id); ("name", VString name); ("version", VString (text manifest "version"));
     ("compatibility", VString (text manifest "compatibility")); ("permissions", copy (get manifest "permissions"));
     ("author", author); ("enabled", VBool (boolean app "enabled")); ("offered", VBool (boolean app "offered"));
     ("state", VString (app_status id store)); ("crashed", VBool (app_status id store =? "crashed")%string);
     ("crashedMessage", VString (text runtime "error")); ("crashedCount", value_uint (uint runtime "restartCount"));
     ("retryAt", VString (text runtime "retryAt")); ("settings", VBool settings); ("channel", VString "live");
     ("origin", VString "devkit_install"); ("autoupdate", VBool false); ("source", copy (get app "source"));
     ("usage", fields [("cpu", value_uint 0); ("mem", value_uint 0)])]).

(** An object of records by their id. *)
Fixpoint keyed (f : Value -> Result (string * Value)) (rs : list Value) (out : Object) : Result Object :=
  match rs with
  | [] => Ok out
  | r :: rs => p ← f r; keyed f rs (obj_push out p.1 p.2)
  end.

Definition apps_object store : Result Value :=
  o ← keyed (fun r => v ← app_object store (text r "id"); Ok (text r "id", v)) (records (document store) "apps") [];
  Ok (VObject o).

(** The pairing pages that a driver has of its own. *)
Definition custom_views (manifest definition : Value) : Result (list Value) :=
  let name := text definition "id" in
  let own view := negb (is_empty (text view "id"))
                  && has_asset manifest ("drivers/" ++ name ++ "/pair/" ++ text view "id" ++ ".html") in
  push_all (fun view => Ok (VString (text view "id"))) 128 (List.filter own (array definition "pair")) [].

Definition driver_object store (app : string) (definition : Value) : Result Value :=
  let name := text definition "id" in
  custom ← match manifest_of app store with Some m => custom_views m definition | None => Ok [] end;
  object ← app_object store app;
  Ok (fields
    [("id", VString (driver_uri app name)); ("ownerUri", VString (owner_uri app)); ("ownerName", VString (text object "name"));
     ("name", VString (match get definition "name" with Some v => Manifest.localized v (language store) | None => name end));
     ("class", VString (text definition "class")); ("ready", VBool (app_status app store =? "running")%string);
     ("pair", VBool (negb (bool_decide (array definition "pair" = [])))); ("repair", VBool false); ("unpair", VBool true);
     ("deprecated", VBool false); ("connectivity", VString "local"); ("pairViews", copy (get definition "pair"));
     ("settings", copy (get definition "settings")); ("capabilities", copy (get definition "capabilities"));
     ("customPairViews", VArray custom)]).

Fixpoint app_drivers store (apps : list Value) (out : Object) : Result Object :=
  match apps with
  | [] => Ok out
  | app :: apps =>
      match manifest_of (text app "id") store with
      | None => app_drivers store apps out
      | Some m =>
          out ← keyed (fun d => v ← driver_object store (text app "id") d; Ok (text v "id", v)) (array m "drivers") out;
          app_drivers store apps out
      end
  end.

Definition drivers_object store : Result Value := o ← app_drivers store (records (document store) "apps") []; Ok (VObject o).

(** ** Tiles *)

Definition PRIORITY : list string :=
  ["alarm_smoke"; "alarm_fire"; "alarm_co"; "alarm_co2"; "alarm_vape"; "alarm_water"; "alarm_heat"; "onoff"; "locked";
   "garagedoor_closed"; "windowcoverings_state"; "homealarm_state"; "alarm_motion"; "alarm_contact"; "alarm_glassbreak";
   "alarm_vibration"; "alarm_generic"; "alarm_pressure"; "alarm_night"; "speaker_playing"; "volume_mute"; "vacuumcleaner_state";
   "dim"; "target_temperature"; "measure_temperature"; "thermostat_mode"; "measure_humidity"; "measure_co2"; "measure_co";
   "measure_pm25"; "air_quality_state"; "measure_luminance"; "measure_pressure"; "measure_noise"; "measure_rain";
   "measure_water"; "measure_wind_strength"; "measure_gust_strength"; "measure_wind_angle"; "measure_ultraviolet";
   "measure_battery"; "alarm_battery"; "alarm_tamper"; "measure_power"; "meter_power"; "measure_current"; "measure_voltage";
   "meter_water"; "meter_gas"; "volume_set"; "speaker_track"; "speaker_artist"; "light_temperature"; "light_mode"; "light_hue";
   "light_saturation"; "windowcoverings_set"; "lock_mode"; "button"].

Definition base (s : string) : string := before_first "." s.

Definition first_of (device : Value) (wanted : string) : option string :=
  find (fun id => (base id =? wanted)%string) (strings device "capabilities").

Fixpoint first_some {X Y} (f : X -> option Y) (l : list X) : option Y :=
  match l with [] => None | x :: l => match f x with Some y => Some y | None => first_some f l end end.

(** The first capability that is a switch. *)
Fixpoint first_switch store (device : Value) (caps : list string) : Result (option string) :=
  match caps with
  | [] => Ok None
  | id :: caps =>
      object ← output store device id;
      if boolean object "setable" && (text object "type" =? "boolean")%string then Ok (Some id) else first_switch store device caps
  end.

Definition primary store (device : Value) : Result string :=
  let battery := if (text device "class" =? "battery")%string
                 then ["measure_power"; "measure_battery"; "battery_charging_state"] else [] in
  let caps := strings device "capabilities" in
  match first_some (first_of device) (battery ++ PRIORITY) with
  | Some id => Ok id
  | None =>
      match find (fun id => starts_with "alarm_" (base id)) caps with
      | Some id => Ok id
      | None =>
          switch ← first_switch store device caps;
          match switch with
          | Some id => Ok id
          | None =>
              match first_some (fun p => find (fun id => starts_with p (base id)) caps) ["measure_"; "meter_"] with
              | Some id => Ok id
              | None => Ok (default EmptyString (hd_error (array device "capabilities") ≫= as_str))
              end
          end
      end
  end.

Definition VIEW_KEYS : list string := ["id"; "appId"; "groupId"; "sortOrder"; "name"; "class"; "available"; "unavailableMessage"].

(** The capabilities that a tile shows: at most the primary one and the position of a blind. *)
Definition quick (device : Value) (id : string) : list Value :=
  if is_empty id then []
  else VString id ::
       (if (base id =? "windowcoverings_state")%string
        then match first_of device "windowcoverings_set" with Some p => [VString p] | None => [] end else []).

Definition device_view store (id view : string) : Result Value :=
  if is_empty view then device_object store id
  else
    device ← Store.device id store;
    out ← copy_keys VIEW_KEYS device object;
    let app := text device "appId" in
    out ← set out "ownerUri" (VString (owner_uri app));
    out ← set out "driverId" (VString (driver_uri app (text device "driverId")));
    let scene := match get device "data" with Some d => text d "sceneId" | None => EmptyString end in
    out ← (if (app =? APP_ID)%string && negb (is_empty scene) then set out "sceneId" (VString scene) else Ok out);
    '(caps, out) ←
      (if (view =? "overview")%string
       then id ← primary store device; out ← set out "quickCapability" (VString id); Ok (quick device id, out)
       else caps ← push_all Ok 4096 (array device "capabilities") [];
            out ← set out "manufacturer" (VString (manufacturer store device)); Ok (caps, out));
    metadata ← outputs store device (omap as_str caps) object;
    set_all out [("capabilities", VArray caps); ("capabilitiesObj", metadata);
                 ("capabilitiesComplete", VBool (view =? "automation")%string); ("detailComplete", VBool false)].

Definition devices_view store (view : string) : Result Value :=
  o ← keyed (fun d => v ← device_view store (text d "id") view; Ok (text d "id", v)) (records (document store) "devices") [];
  Ok (VObject o).

End Objects.
