(* ===== verification/WebUnits.v ===== *)
(** * WebUnits: Flows and scenes in the units of the house

    Models [flow_units.rs] and [scenes.rs] of [crates/web/src]: the thresholds of Flows and the
    values of scenes are stored in the units of the apps, and are shown and entered in those of
    the house; a value that was only shown keeps its exact stored number. *)

From Stdlib Require Import ZArith Lia Ascii String.
From S2P Require Import Prelude Text Errors Slots Float Value Document Stats Store Scenes Capability.
From S2P Require Units Manifest Display Flow.

Local Open Scope Z_scope.

(** ** Flows *)

Definition list_key (kind : string) : string :=
  if (kind =? "trigger")%string then "triggers" else if (kind =? "condition")%string then "conditions" else "actions".

(** The units that the arguments of a card declare. *)
Fixpoint declared_units (args : list Value) (out : Value) : Result Value :=
  match args with
  | [] => Ok out
  | arg :: args =>
      let name := text arg "name" in
      let unit := trim (Manifest.localized (get_null arg "units") "en") in
      if negb (is_empty name) && negb (is_empty unit)
      then out ← set out name (VString unit); declared_units args out
      else declared_units args out
  end.

Definition fields_of (v : Value) : Object := default [] (as_object v).

Section Units.
Context {St : Type} {HS : Storage St}.
Implicit Types store : Store St.

Definition card_capability (step : Value) : string :=
  let id := text step "cardId" in
  match strip_prefix "capability." id with
  | Some rest => match split_last "." rest with Some (cap, _) => cap | None => EmptyString end
  | None => if Display.is_one_of ["set_device_capability"; "device_capability_equals"; "device_capability_stays"] id
            then text (get_null step "args") "capability" else EmptyString
  end.

Definition argument_units store (step : Value) : Result Value :=
  out ← match manifest_of (text step "appId") store with
        | None => Ok object
        | Some m =>
            match find (fun c => (text c "id" =? text step "cardId")%string)
                    (array (get_null m "flow") (list_key (Flow.card_kind (text step "cardType")))) with
            | Some card => declared_units (array card "args") object
            | None => Ok object
            end
        end;
  if negb (bool_decide (fields_of out = [])) then Ok out
  else
    let cap := card_capability step in
    if is_empty cap then Ok out
    else
      unit ← Display.capability_unit store cap;
      if is_empty unit then Ok out else set out "value" (VString unit).

Definition MILLIONTH : f64 := Units.lit 1 (-6).

(** The stored number behind a shown one: the previous one, when that is what was shown. *)
Definition entered (settings : Value) (old : option Value) (name unit : string) (n : f64) : Value :=
  let back := VNumber (Float (Units.canonical settings n unit)) in
  match old ≫= fun s => get (get_null s "args") name with
  | Some (VNumber before) =>
      if f_ltb (f_abs (f64_sub (Units.show settings (as_f64 before) unit).1 n)) MILLIONTH then VNumber before else back
  | _ => back
  end.

Fixpoint convert_args (settings : Value) (incoming : bool) (old : option Value) (units : Object) (args : Value) : Result Value :=
  match units with
  | [] => Ok args
  | (name, u) :: units =>
      let unit := default EmptyString (as_str u) in
      match Units.step settings unit, get args name with
      | Some _, Some (VNumber n) =>
          args ← set args name (if incoming then entered settings old name unit (as_f64 n)
                                else VNumber (Float (Units.show settings (as_f64 n) unit).1));
          convert_args settings incoming old units args
      | _, _ => convert_args settings incoming old units args
      end
  end.

(** The step of the same card in the definition before. *)
Definition previous_step (previous : option Value) (node step : Value) : option Value :=
  s ← previous ≫= fun v => find (fun n => (text n "id" =? text node "id")%string) (array v "nodes");
  if (text (get_null s "step") "cardId" =? text step "cardId")%string then Some (get_null s "step") else None.

Definition convert_node store (settings : Value) (incoming : bool) (previous : option Value) (node : Value) : Result Value :=
  let step := get_null node "step" in
  found ← argument_units store step;
  args ← convert_args settings incoming (previous_step previous node step) (fields_of found) (get_null step "args");
  if is_null step then Ok node
  else
    step ← (if is_null args then Ok step else set step "args" args);
    set node "step" step.

Definition flow_convert store (definition : Value) (incoming : bool) (previous : option Value) : Result Value :=
  let settings := default VNull (choices store) in
  nodes ← push_all (convert_node store settings incoming previous) (Z.of_nat Flow.MAX_NODES) (array definition "nodes") [];
  set definition "nodes" (VArray nodes).

(** ** Scenes *)

Definition NANO : f64 := Units.lit 1 (-9).

Definition has_capability (device : Value) (cap : string) : bool :=
  existsb (fun v => match as_str v with Some c => (c =? cap)%string | None => false end) (array device "capabilities").

(** The stored value of a state: the previous one, or the current one, when that is what was shown. *)
Definition stored_value store (d : Value) (cap : string) (previous : option Value) (id : string) (shown value : Value) : Result Value :=
  let before :=
    match previous ≫= fun p => find (fun s => (text s "deviceId" =? id)%string && (text s "capabilityId" =? cap)%string) (array p "states") with
    | Some s => get_null s "value"
    | None => get_null (get_null d "state") cap
    end in
  if is_number before then
    probe ← set d "state" (fields [(cap, before)]);
    out ← output store probe cap;
    match shown, get out "value" with
    | VNumber a, Some (VNumber b) => Ok (if f_ltb (f_abs (f64_sub (as_f64 a) (as_f64 b))) NANO then before else value)
    | _, _ => Ok value
    end
  else Ok value.

Definition incoming_state store (previous : option Value) (state : Value) : Result Value :=
  let id := text state "deviceId" in
  let cap := text state "capabilityId" in
  d ← device id store;
  if (text d "appId" =? APP_ID)%string then Err (Invalid "scene cannot control another scene")
  else if negb (has_capability d cap) then Err (Invalid "device does not have scene capability")
  else
    def ← definition store d cap;
    if negb (boolean def "getable") || Display.is_one_of ["button"; "speaker_prev"; "speaker_next"] (before_first "." cap)
    then Err (Invalid "scene requires a persistent device state")
    else
      value ← input store d cap (get_null state "value");
      value ← stored_value store d cap previous id (get_null state "value") value;
      set state "value" value.

Definition scene_incoming store (scene : Value) (previous : option Value) : Result Value :=
  states ← push_all (incoming_state store previous) 256 (array scene "states") [];
  set scene "states" (VArray states).

Definition output_state store (state : Value) : Result Value :=
  match device (text state "deviceId") store with
  | Err _ => Ok state
  | Ok d =>
      let cap := text state "capabilityId" in
      d ← set d "state" (fields [(cap, get_null state "value")]);
      shown ← output store d cap;
      set state "value" (get_null shown "value")
  end.

Definition scene_output store (scene : Value) : Result Value :=
  states ← push_all (output_state store) 256 (array scene "states") [];
  scene ← set scene "states" (VArray states);
  remove scene "previous".

End Units.

(** ** What is entered is checked *)

Lemma canonical_same settings x unit : Units.step settings unit = None -> Units.canonical settings x unit = x.
Proof.
  unfold Units.step, Units.canonical. destruct (Units.resolve settings unit) as [[source chosen]|]; cbn; [|done].
  by destruct (Units.unit_ source =? Units.unit_ chosen)%string.
Qed.

Lemma get_null_set v k w v' : set v k w = Ok v' -> get_null v' k = w.
Proof. intros H. unfold get_null. by rewrite (get_set_eq _ _ _ _ H). Qed.

(** What a user enters for a capability is only accepted when the capability can be set, and
    it then has the type of the capability, is one of the values of an enumeration, and, in the
    unit of the app, lies between the minimum and the maximum. *)
Theorem accepted_input_fits {St} {HS : Storage St} (store : Store St) device id v v' def :
  definition store device id = Ok def -> input store device id v = Ok v' ->
  boolean def "setable" = true
  /\ (text def "type" = "boolean"%string -> is_Some (as_bool v'))
  /\ (text def "type" = "number"%string -> is_number v' = true)
  /\ (text def "type" = "enum"%string -> exists e i, e ∈ array def "values" /\ get e "id" = Some i /\ equal i v = true)
  /\ (forall n l, v' = VNumber n -> get def "min" = Some (VNumber l) -> f_ltb (as_f64 n) (as_f64 l) = false)
  /\ (forall n l, v' = VNumber n -> get def "max" = Some (VNumber l) -> f_ltb (as_f64 l) (as_f64 n) = false).
Proof.
  intros Hd H. unfold input in H. rewrite Hd in H. cbn [mbind result_bind] in H.
  destruct (boolean def "setable"); [|done]. cbn [negb] in H. split; [done|].
  destruct (_ || _) eqn:Et; [done|]. apply orb_false_iff in Et as [Hb Hnum].
  destruct (_ && _) eqn:Ee in H; [done|].
  assert (is_number v' = is_number v /\ (is_number v = false -> v' = v)
    /\ forall n, v' = VNumber n -> out_of_range def (as_f64 n) = false) as (Hk & Hsame & Hr).
  { destruct v as [| |n| | |]; try (injection H as <-; by split_and!).
    destruct (out_of_range _ _) eqn:Er; [done|]. case_bool_decide as Hst; injection H as <-; (split_and!; [done..|]); intros m [= <-]; [done|].
    apply eq_None_not_Some in Hst. by rewrite canonical_same in Er. }
  split_and!.
  - intros Hty. rewrite Hty in Hb. cbn in Hb. apply negb_false_iff, bool_decide_eq_true in Hb. rewrite Hsame; [done|]. by destruct v; inversion Hb.
  - intros Hty. rewrite Hty in Hnum. rewrite Hk. by destruct (is_number v).
  - intros Hty. rewrite Hty in Ee. cbn [String.eqb Ascii.eqb Bool.eqb andb] in Ee. apply negb_false_iff, existsb_exists in Ee as (e & He & Hi).
    apply list_elem_of_In in He. destruct (get e "id") as [i|] eqn:Eg; [|done]. by exists e, i.
  - intros n l -> Hl. specialize (Hr n eq_refl). unfold out_of_range in Hr. rewrite Hl in Hr. by apply orb_false_iff in Hr as [? _].
  - intros n l -> Hl. specialize (Hr n eq_refl). unfold out_of_range in Hr. rewrite Hl in Hr. by apply orb_false_iff in Hr as [_ ?].
Qed.

(** ** Numbers that were only shown *)

Lemma sub_self x : is_finite x = true -> exists b, f64_sub x x = SpecFloat.S754_zero b.
Proof.
  destruct x as [b|b| |b m e]; try done; intros _; unfold f64_sub, SpecFloat.SFsub.
  - destruct b; by eexists.
  - rewrite Z.min_id. unfold SpecFloat.shl_align. rewrite Z.sub_diag. cbn [fst]. by eexists.
Qed.

Lemma shown_number_restored settings old name unit before : get (get_null old "args") name = Some (VNumber before) ->
  is_finite (Units.show settings (as_f64 before) unit).1 = true ->
  entered settings (Some old) name unit (Units.show settings (as_f64 before) unit).1 = VNumber before.
Proof.
  intros Hg Hf. unfold entered. cbn [mbind option_bind]. rewrite Hg. destruct (sub_self _ Hf) as (b & ->). by destruct b.
Qed.

Lemma obj_insert_keys o k v : is_Some (obj_get o k) -> obj_keys (obj_insert o k v) = obj_keys o.
Proof.
  induction o as [|[k' w] o IH]; cbn; [by intros []|]. destruct (k' =? k)%string eqn:Ek; [done|]. intros H. cbn. f_equal. by apply IH.
Qed.

(** Objects with the same keys in the same order and the same values are the same. *)
Lemma obj_ext o o' : obj_keys o = obj_keys o' -> NoDup (obj_keys o) -> (forall k, obj_get o k = obj_get o' k) -> o = o'.
Proof.
  revert o'. induction o as [|[k v] o IH]; intros [|[k' v'] o'] Hk Hn Hg; try done. cbn in Hk, Hn. injection Hk as <- Hk.
  apply NoDup_cons in Hn as [Hni Hn]. pose proof (Hg k) as Hv. cbn in Hv. rewrite String.eqb_refl in Hv. injection Hv as <-. f_equal.
  apply IH; [done..|]. intros j. destruct (decide (j = k)) as [->|Hne].
  - assert (forall p, k ∉ obj_keys p -> obj_get p k = None) as Hno.
    { clear. induction p as [|[j w] p IHp]; [done|]. cbn. intros [H1 H2]%not_elem_of_cons. destruct (String.eqb_spec j k); [congruence|by apply IHp]. }
    rewrite (Hno o Hni). symmetry. apply Hno. unfold obj_keys. by rewrite <- Hk.
  - specialize (Hg j). cbn in Hg. destruct (String.eqb_spec k j); [congruence|done].
Qed.

(** A field that was replaced gets its old value back. *)
Lemma set_back v k w v' x : set v k w = Ok v' -> get v k = Some x -> set v' k x = Ok v.
Proof.
  unfold set, get. destruct v as [| | | | |o]; try done. cbn [as_object mbind option_bind]. intros [= <-] Hg. cbn [as_object]. do 2 f_equal.
  induction o as [|[k' u] o IH]; [done|]. cbn in *. destruct (k' =? k)%string eqn:Ek; cbn; rewrite Ek; [by injection Hg as ->|].
  f_equal. by apply IH.
Qed.

(** What converting the arguments of a card does to each of them. *)
Definition converted (settings : Value) (f : string -> string -> f64 -> Value) (units : Object) (k : string) (v : option Value) : option Value :=
  match obj_get units k with
  | Some u => let unit := default EmptyString (as_str u) in
              match Units.step settings unit, v with Some _, Some (VNumber n) => Some (f k unit (as_f64 n)) | _, _ => v end
  | None => v
  end.

Definition argument_value (settings : Value) (incoming : bool) (old : option Value) (name unit : string) (n : f64) : Value :=
  if incoming then entered settings old name unit n else VNumber (Float (Units.show settings n unit).1).

Lemma convert_args_spec settings inc old units : forall o, NoDup (obj_keys units) ->
  exists o', convert_args settings inc old units (VObject o) = Ok (VObject o') /\ obj_keys o' = obj_keys o
  /\ forall k, obj_get o' k = converted settings (argument_value settings inc old) units k (obj_get o k).
Proof.
  induction units as [|[name u] units IH]; intros o Hn; [by exists o|]. cbn in Hn. apply NoDup_cons in Hn as [Hni Hn].
  cbn [convert_args]. unfold converted. cbn [obj_get].
  set (unit := default EmptyString (as_str u)).
  assert (obj_get units name = None) as Hnone.
  { clear -Hni. induction units as [|[j w] p IHp]; [done|]. cbn in *. apply not_elem_of_cons in Hni as [H1 H2].
    destruct (String.eqb_spec j name); [congruence|by apply IHp]. }
  assert (forall o1, (obj_keys o1 = obj_keys o /\ (forall k, obj_get o1 k = if (name =? k)%string
      then match Units.step settings unit, obj_get o k with Some _, Some (VNumber n) => Some (argument_value settings inc old k unit (as_f64 n)) | _, _ => obj_get o k end
      else obj_get o k)) -> exists o', convert_args settings inc old units (VObject o1) = Ok (VObject o') /\ obj_keys o' = obj_keys o
      /\ forall k, obj_get o' k = match (if (name =? k)%string then Some u else obj_get units k) with
        | Some u => match Units.step settings (default EmptyString (as_str u)), obj_get o k with
                    | Some _, Some (VNumber n) => Some (argument_value settings inc old k (default EmptyString (as_str u)) (as_f64 n)) | _, _ => obj_get o k end
        | None => obj_get o k end) as Hgo.
  { intros o1 [Hk1 Hg1]. destruct (IH o1 Hn) as (o' & -> & Hk & Hg). exists o'. split; [done|]. split; [congruence|]. intros k.
    rewrite Hg. unfold converted. rewrite (Hg1 k). destruct (String.eqb_spec name k) as [<-|]; [by rewrite Hnone|done]. }
  assert (forall k, obj_get o k = if (name =? k)%string then obj_get o k else obj_get o k) as Hsame by (intros k; by destruct (_ =? _)%string).
  destruct (Units.step settings unit) as [st|] eqn:Es; [|apply Hgo; split; [done|exact Hsame]].
  unfold get. cbn [as_object mbind option_bind].
  destruct (obj_get o name) as [[| |n| | |]|] eqn:Eg; try (apply Hgo; split; [done|]; intros k; destruct (String.eqb_spec name k) as [<-|]; [by rewrite Eg|done]).
  unfold set. cbn [as_object mbind result_bind]. apply Hgo. split; [apply obj_insert_keys; by eexists|]. intros k.
  destruct (String.eqb_spec name k) as [<-|Hne].
  - rewrite Eg. by rewrite obj_get_insert_eq.
  - by rewrite obj_get_insert_ne.
Qed.

(** Numbers that JSON can hold. *)
Definition finite_args (step : Value) : bool :=
  forallb (fun kv => match kv with (_, VNumber n) => is_finite (as_f64 n) | _ => true end) (fields_of (get_null step "args")).

Definition finite_flow (flow : Value) : bool := forallb (fun node => finite_args (get_null node "step")) (array flow "nodes").

Lemma convert_args_other settings inc old units a : as_object a = None -> convert_args settings inc old units a = Ok a.
Proof.
  intros Ha. induction units as [|[name u] units IH]; [done|]. cbn [convert_args]. unfold get. rewrite Ha. cbn. by case_match.
Qed.

(** Arguments that are entered as they were shown are the stored ones. *)
Lemma entered_args_are_restored settings units step args a :
  NoDup (obj_keys units) -> uniq args = true -> get_null step "args" = args -> finite_args (VObject [("args", a)]) = true ->
  convert_args settings false None units args = Ok a -> convert_args settings true (Some step) units a = Ok args.
Proof.
  intros Hn Hu Hs Hf H. destruct (as_object args) as [o|] eqn:Eo.
  - destruct args as [| | | | |o']; try done. injection Eo as ->. apply uniq_object in Hu as [Hu _].
    destruct (convert_args_spec settings false None units o Hn) as (o1 & H1 & Hk1 & Hg1). rewrite H1 in H. injection H as <-.
    destruct (convert_args_spec settings true (Some step) units o1 Hn) as (o2 & -> & Hk2 & Hg2). do 2 f_equal.
    apply obj_ext; [congruence|by rewrite Hk2, Hk1|]. intros k. rewrite Hg2. specialize (Hg1 k). rewrite Hg1. unfold converted in Hg1 |- *.
    destruct (obj_get units k) as [u|]; [|done]. destruct (Units.step settings (default EmptyString (as_str u))) eqn:Est; [|done].
    destruct (obj_get o k) as [[| |n| | |]|] eqn:Eg; try done. unfold argument_value in Hg1 |- *. cbn [as_f64]. f_equal.
    apply shown_number_restored; [by rewrite Hs|]. unfold finite_args in Hf. cbn in Hf. rewrite forallb_forall in Hf.
    apply obj_get_Some_In, list_elem_of_In in Hg1. exact (Hf _ Hg1).
  - rewrite convert_args_other in H by done. injection H as <-. by apply convert_args_other.
Qed.

Lemma find_this {A} (f : A -> string) l x : NoDup (map f l) -> x ∈ l -> find (fun y => (f y =? f x)%string) l = Some x.
Proof.
  induction l as [|y l IH]; [by intros _ ?%not_elem_of_nil|]. cbn. intros [Hni Hn]%NoDup_cons Hx.
  apply elem_of_cons in Hx as [->|Hx]; [by rewrite String.eqb_refl|]. destruct (String.eqb_spec (f y) (f x)) as [He|]; [|by apply IH].
  exfalso. apply Hni. rewrite He. by apply list_elem_of_fmap_2.
Qed.

Section Restored.
Context {St : Type} {HS : Storage St}.
Implicit Types store : Store St.

Lemma declared_units_object args : forall out u, declared_units args out = Ok u -> uniq out = true -> uniq u = true /\ (is_Some (as_object out) -> is_Some (as_object u)).
Proof.
  induction args as [|arg args IH]; cbn; [by intros out u [= ->]|]. intros out u. destruct (_ && _); [|by apply IH].
  destruct (set out _ _) as [out'|] eqn:Es; [|done]. cbn. intros H Hu. destruct (IH _ _ H) as [H1 H2]; [by eapply uniq_set|].
  split; [done|]. intros _. apply H2. by eapply set_is_object.
Qed.

Lemma argument_units_nodup store step u : argument_units store step = Ok u -> NoDup (obj_keys (fields_of u)).
Proof.
  intros H. assert (uniq u = true) as Hu.
  { unfold argument_units in H.
    match type of H with (mbind _ ?x) = _ => destruct x as [out|] eqn:Eo; [|done] end. cbn [mbind result_bind] in H.
    assert (uniq out = true) as Hout.
    { destruct (manifest_of _ _) as [m|]; [|by injection Eo as <-]. destruct (find _ _) as [c|]; [|by injection Eo as <-].
      by apply declared_units_object in Eo as [? _]. }
    destruct (negb _); [by injection H as <-|]. destruct (is_empty _); [by injection H as <-|].
    destruct (Display.capability_unit _ _) as [un|]; [|done]. cbn in H. destruct (is_empty un); [by injection H as <-|].
    by eapply uniq_set. }
  destruct u; cbn in *; try apply NoDup_nil_2. by apply uniq_object in Hu as [? _].
Qed.

(** The units of a step depend on its card and on the capability it names, not on its numbers. *)
Lemma argument_units_ext store step step' :
  text step' "appId" = text step "appId" -> text step' "cardId" = text step "cardId" -> text step' "cardType" = text step "cardType" ->
  text (get_null step' "args") "capability" = text (get_null step "args") "capability" ->
  argument_units store step' = argument_units store step.
Proof. intros H1 H2 H3 H4. unfold argument_units, card_capability. by rewrite H1, H2, H3, H4. Qed.

Lemma converted_text settings inc old units args a k :
  NoDup (obj_keys units) -> convert_args settings inc old units args = Ok a -> text a k = text args k.
Proof.
  intros Hn H. destruct (as_object args) as [o|] eqn:Eo.
  - destruct args as [| | | | |o']; try done. injection Eo as ->. destruct (convert_args_spec settings inc old units o Hn) as (o1 & H1 & _ & Hg).
    rewrite H1 in H. injection H as <-. unfold text, get. cbn. rewrite Hg. unfold converted. destruct (obj_get units k); [|done].
    destruct (Units.step _ _); [|done]. destruct (obj_get o k) as [[]|]; try done. unfold argument_value. destruct inc; [|done].
    unfold entered. destruct (old ≫= _) as [[]|]; try done. by destruct (f_ltb _ _).
  - rewrite convert_args_other in H by done. by injection H as <-.
Qed.

Lemma shown_node_is_restored store settings d node shown :
  uniq node = true -> previous_step (Some d) shown (get_null shown "step") = Some (get_null node "step") ->
  finite_args (get_null shown "step") = true ->
  convert_node store settings false None node = Ok shown -> convert_node store settings true (Some d) shown = Ok node.
Proof.
  intros Hu Hp Hf H. unfold convert_node in H |- *. rewrite Hp.
  remember (get_null node "step") as step eqn:Hst. assert (uniq step = true) as Hus.
  { subst step. unfold get_null. destruct (get node "step") eqn:E; [by eapply uniq_get|done]. }
  destruct (argument_units store step) as [u|] eqn:Eu; [|done]. cbn [mbind result_bind] in H.
  pose proof (argument_units_nodup _ _ _ Eu) as Hn.
  destruct (convert_args settings false _ (fields_of u) (get_null step "args")) as [a|] eqn:Ea; [|done]. cbn [mbind result_bind] in H.
  destruct (is_null step) eqn:Ens.
  { injection H as <-. rewrite <- Hst in *. rewrite Eu. cbn [mbind result_bind]. assert (get_null step "args" = VNull) as Hnull by (by destruct step).
    rewrite Hnull in *. rewrite convert_args_other by done. cbn [mbind result_bind]. by rewrite Ens. }
  destruct (if is_null a then Ok step else set step "args" a) as [step'|] eqn:Es; [|done]. cbn [mbind result_bind] in H.
  assert (get_null shown "step" = step') as Hss by (by apply (get_null_set _ _ _ _ H)).
  rewrite Hss in *. assert (get node "step" = Some step) as Hgs.
  { unfold get_null in Hst. destruct (get node "step"); cbn in Hst; [by subst|]. by subst step. }
  assert (uniq (get_null step "args") = true) as Hua.
  { unfold get_null. destruct (get step "args") eqn:E; [by eapply uniq_get|done]. }
  assert (get_null step "args" = VNull /\ step' = step \/ is_null a = false /\ set step "args" a = Ok step') as [[Hnull ->]|[Hna Hset]].
  { destruct (is_null a) eqn:Ena; [left|by right]. injection Es as <-. split; [|done].
    destruct (as_object (get_null step "args")) as [o|] eqn:Eo.
    - destruct (get_null step "args"); try done. destruct (convert_args_spec settings false None _ o0 Hn) as (? & Hc & _). 
      unfold previous_step in Ea. cbn in Ea. rewrite Hc in Ea. by injection Ea as <-.
    - rewrite convert_args_other in Ea by done. injection Ea as ->. by destruct a. }
  - rewrite Eu. cbn [mbind result_bind]. rewrite Hnull. rewrite convert_args_other by done. cbn [mbind result_bind]. rewrite Ens. cbn.
    by rewrite (set_back _ _ _ _ _ H Hgs).
  - assert (get step "args" = Some (get_null step "args")) as Hga.
    { unfold get_null. destruct (get step "args") eqn:E; [done|]. exfalso. unfold get_null in Ea. rewrite E in Ea.
      cbn [default] in Ea. rewrite convert_args_other in Ea by done. injection Ea as <-. done. }
    assert (get_null step' "args" = a) as Hga' by (by apply (get_null_set _ _ _ _ Hset)).
    rewrite (argument_units_ext store step step'); [|by eapply text_set_ne..|rewrite Hga'; by eapply converted_text].
    rewrite Eu. cbn [mbind result_bind]. rewrite Hga'.
    assert (finite_args (VObject [("args", a)]) = true) as Hfa by (unfold finite_args in Hf |- *; by rewrite Hga' in Hf).
    rewrite (entered_args_are_restored settings (fields_of u) step (get_null step "args") a Hn Hua eq_refl Hfa); [|done].
    cbn [mbind result_bind]. assert (is_null step' = false) as -> by (by apply set_Ok in Hset as (? & _ & ->)).
    destruct (is_null (get_null step "args")) eqn:Enn.
    { destruct (get_null step "args"); try done. rewrite convert_args_other in Ea by done. by injection Ea as <-. }
    rewrite (set_back _ _ _ _ _ Hset Hga). cbn [mbind result_bind]. by rewrite (set_back _ _ _ _ _ H Hgs).
Qed.

Lemma convert_node_texts store settings inc previous node shown : convert_node store settings inc previous node = Ok shown ->
  text shown "id" = text node "id" /\ text (get_null shown "step") "cardId" = text (get_null node "step") "cardId".
Proof.
  unfold convert_node. intros H. destruct (argument_units _ _) as [u|]; [|done]. cbn [mbind result_bind] in H.
  destruct (convert_args _ _ _ _ _) as [a|]; [|done]. cbn [mbind result_bind] in H.
  destruct (is_null (get_null node "step")); [by injection H as <-|].
  destruct (if is_null a then _ else _) as [step'|] eqn:Es; [|done]. cbn [mbind result_bind] in H.
  split; [by eapply text_set_ne|]. rewrite (get_null_set _ _ _ _ H). destruct (is_null a); [by injection Es as <-|by eapply text_set_ne].
Qed.

(** C30: A Flow that is shown in the units of the house and saved as it was shown is the stored
    Flow again, to the last bit of every threshold: no rounding creeps in by opening the editor. *)
Theorem shown_flow_is_restored store d nodes shown :
  get d "nodes" = Some (VArray nodes) -> uniq d = true -> NoDup (map (fun n => text n "id") nodes) ->
  flow_convert store d false None = Ok shown -> finite_flow shown = true ->
  flow_convert store shown true (Some d) = Ok d.
Proof.
  intros Hg Hu Hn H Hf. unfold flow_convert in H |- *.
  destruct (push_all _ _ (array d "nodes") []) as [ns|] eqn:Ep; [|done]. cbn [mbind result_bind] in H.
  unfold finite_flow in Hf. rewrite (array_set_eq _ _ _ _ H) in Hf |- *.
  assert (array d "nodes" = nodes) as Han by (unfold array; by rewrite Hg). rewrite Han in Ep.
  apply push_all_Ok in Ep as (ys & HF & -> & Hl). cbn [app] in *.
  rewrite (push_all_complete _ _ _ nodes).
  - cbn [mbind result_bind app]. by rewrite (set_back _ _ _ _ _ H Hg).
  - apply Forall2_lookup. intros i. pose proof (proj1 (Forall2_lookup _ _ _) HF i) as Hi.
    destruct (nodes !! i) as [x|] eqn:Ex; inversion Hi as [? y Hxy Hx Hy|Hx Hy]; [|constructor]. constructor.
    destruct (convert_node_texts _ _ _ _ _ _ Hxy) as [Hid Hcard].
    apply (shown_node_is_restored _ _ d); [| | |exact Hxy].
    + apply (uniq_elem d "nodes"); [done|]. rewrite Han. by eapply list_elem_of_lookup_2.
    + unfold previous_step. cbn [mbind option_bind]. rewrite Han, Hid.
      rewrite (find_this (fun n => text n "id") nodes x Hn) by (by eapply list_elem_of_lookup_2). cbn [mbind option_bind].
      by rewrite Hcard, String.eqb_refl.
    + rewrite forallb_forall in Hf. apply Hf. apply list_elem_of_In. eapply list_elem_of_lookup_2. symmetry. exact Hy.
  - cbn. destruct Hl as [->|Hl]; [|exact Hl]. apply Forall2_nil_inv_l in HF as ->. by vm_compute.
Qed.

End Restored.

(** ** A house that shows Fahrenheit *)

Definition fahrenheit : Store Memory :=
  mk_store (mk_doc (fields [("system", fields [("units", fields [("temperature", VString "°F")])])])) "nl" "UTC" 0 stats_new None false MemoryStorage [] [] 0 [] [] [] [] [] [].

Definition heating : Value :=
  fields [("id", VString "warm"); ("nodes", VArray [fields [("id", VString "cold"); ("step", fields
    [("appId", VString "stulp"); ("cardId", VString "device_capability_equals"); ("cardType", VString "condition");
     ("args", fields [("capability", VString "measure_temperature"); ("value", VNumber (Float (Units.lit 203 (-1))))])])]])].

Definition heating_shown : Value := Eval vm_compute in match flow_convert fahrenheit heating false None with Ok v => v | Err _ => VNull end.

Lemma shown_flow_is_restored_witness :
  flow_convert fahrenheit heating_shown true (Some heating) = Ok heating /\ heating_shown <> heating.
Proof.
  split; [|vm_compute; congruence].
  apply (shown_flow_is_restored fahrenheit heating (array heating "nodes") heating_shown).
  - reflexivity.
  - vm_compute. reflexivity.
  - cbn. apply NoDup_singleton.
  - vm_compute. reflexivity.
  - vm_compute. reflexivity.
Defined.

Definition radiator : Value := fields [("id", VString "radiator"); ("appId", VString "tado"); ("capabilities", VArray [VString "target_temperature"])].
Definition radiator_definition : Value := Eval vm_compute in match definition fahrenheit radiator "target_temperature" with Ok v => v | Err _ => VNull end.

(** 68 degrees Fahrenheit is stored as 20 degrees Celsius; a switch is no temperature. *)
Lemma accepted_input_fits_witness :
  match input fahrenheit radiator "target_temperature" (VNumber (Uint 68)) with
  | Ok v => v = VNumber (Float (Units.lit 20 0)) /\ is_number v = true
  | Err _ => False
  end /\ input fahrenheit radiator "target_temperature" (VBool true) = Err (Invalid "invalid capability value type").
Proof.
  destruct (input fahrenheit radiator "target_temperature" (VNumber (Uint 68))) as [v|e] eqn:E; [|vm_compute in E; discriminate E].
  split; [|vm_compute; reflexivity]. destruct (accepted_input_fits fahrenheit radiator "target_temperature" (VNumber (Uint 68)) v radiator_definition) as (_ & _ & H & _).
  - vm_compute. reflexivity.
  - exact E.
  - split; [vm_compute in E; injection E as <-; vm_compute; reflexivity|]. apply H. vm_compute. reflexivity.
Defined.
