(* ===== verification/WebApi.v ===== *)
(** * WebApi: the routes of the browser

    Models [api.rs] and [manager.rs] of [crates/web/src]: every request that reads or changes the
    store, with the identities and the clock of the platform.  A request works on the store and
    the environment; what a step changed before a later one fails stays changed. *)

From Stdlib Require Import ZArith Lia Ascii String.
From S2P Require Import Prelude Text Errors Slots Value Json Document Stats Store Scenes Media Templates Mutations Web Capability Objects WebUnits.
From S2P Require Units Manifest Token Schedule.

Local Open Scope Z_scope.

Definition VERSION_TEXT : string := "3.0.37".

(** [s.filter(|id| !id.is_empty() && !id.contains('/'))] *)
Definition segment (s : string) : option string :=
  if negb (is_empty s) && negb (contains_byte 47 s) then Some s else None.

Definition between_paths (prefix suffix path : string) : option string :=
  (strip_prefix prefix path ≫= strip_suffix suffix) ≫= segment.

(** [char::is_control] *)
Definition is_control (c : Z) : bool := between 0 c 31 || between 127 c 159.

(** The cryptography of the vendored library: a keyed hash, a hash, a comparison of bytes and
    the alphabet of URLs. *)
Class Crypto := {
  hmac : list Z -> list Z -> list Z;
  sha256 : list Z -> list Z;
  ct_eq : list Z -> list Z -> bool;
  url_encode : list Z -> result Token.Base64Error string;
  url_decode : list Z -> result Token.Base64Error (list Z)
}.

Section Api.
Context {St : Type} {HS : Storage St} {E : Type} {HE : Environment E}.

(** ** The store and the platform *)

Definition W (X : Type) : Type := Store St * E -> Result X * (Store St * E).

Definition retW {X} (x : X) : W X := fun s => (Ok x, s).
Definition liftW {X} (r : Result X) : W X := fun s => (r, s).
Definition bindW {X Y} (m : W X) (k : X -> W Y) : W Y := fun s =>
  match m s with (Ok x, s) => k x s | (Err e, s) => (Err e, s) end.
Definition readW {X} (f : Store St -> Result X) : W X := fun s => (f s.1, s).
Definition storeW {X} (m : M (St := St) X) : W X := fun s => let '(r, st) := m s.1 in (r, (st, s.2)).
Definition idW : W string := fun s => let '(r, e) := env_id s.2 in (r, (s.1, e)).
Definition nowW : W string := fun s => (env_now s.2, s).
Definition logW (source level message : string) : W unit := fun s => (Ok tt, (s.1, env_log source level message s.2)).
End Api.

Notation "'let%' x ':=' m 'in' k" := (bindW m (fun x => k)) (at level 10, x pattern, k at level 200, right associativity).

Section Routes.
Context {St : Type} {HS : Storage St} {E : Type} {HE : Environment E}.
Context {HK : Crypto}.
Implicit Types (store : Store St).
Local Abbreviation W := (W (St := St) (E := E)).

Definition json (code : Z) (v : Value) : W Response := liftW (Response_json code v).
Definition done : W Response := json 200 (VBool true).
Definition parse_body (r : Request) : W Value := liftW (json_parse (r_body r)).
Definition no_method : W Response := liftW (Response_error 405 "method not allowed").

(** [store.put(collection, record, create, revision, &env.now()?)] *)
Definition putW (collection : string) (r : Value) (create : bool) (revision : option Z) : W unit :=
  let% now := nowW in storeW (put collection r create revision now).

Definition recordW (collection id : string) : W Value := readW (fun s => record (document s) collection id).

(** ** [manager.rs] *)

Definition attach_token (id : string) : W Response :=
  let% system := readW (fun s => Ok (default object (get (root (document s)) "system"))) in
  let% system :=
    (if is_empty (text system "attachSecret") then
       let% secret := idW in
       let% extra := idW in
       let% system := liftW (set system "attachSecret" (VString (secret ++ extra))) in
       let% _ := storeW (Store.system system) in
       retW system
     else retW system) in
  let% token := liftW (Token.token hmac url_encode (text system "attachSecret") id) in
  let% known := readW (fun s => Ok (is_ok (record (document s) "apps" id))) in
  json 200 (fields [("appId", VString id); ("token", VString token); ("known", VBool known)]).

Definition install_app (id : string) : W Response :=
  let% app := recordW "apps" id in
  let% _ :=
    (if boolean app "offered" then
       let% app := liftW (set app "offered" (VBool false)) in
       let% app := liftW (set app "enabled" (VBool true)) in
       putW "apps" app false None
     else retW tt) in
  let% v := readW (fun s => app_object s id) in json 200 v.

Definition move_device (r : Request) (id : string) : W Response :=
  let% body := parse_body r in
  let% group := liftW (ok_or (get body "groupId" ≫= as_str) (Invalid "groupId is required")) in
  let% d := readW (Store.device id) in
  let% d := liftW (set d "groupId" (VString group)) in
  let% _ := putW "devices" d false None in
  let% v := readW (fun s => device_object s id) in json 200 v.

Definition enable_flow (r : Request) (id : string) : W Response :=
  let% body := parse_body r in
  let% enabled := liftW (ok_or (get body "enabled" ≫= as_bool) (Invalid "enabled must be boolean")) in
  let% flow := recordW "flows" id in
  let% flow := liftW (set flow "enabled" (VBool enabled)) in
  let% _ := putW "flows" flow false None in
  let% v := recordW "flows" id in json 200 v.

(** The definition of every capability that a device has, of the first device that has it. *)
Fixpoint catalog_caps store (d : Value) (caps : list string) (catalog : Value) : Result Value :=
  match caps with
  | [] => Ok catalog
  | id :: caps =>
      match get catalog id with
      | Some _ => catalog_caps store d caps catalog
      | None =>
          def ← definition store d id;
          catalog ← set catalog id (fields [("id", VString id); ("uri", VString "stulp:manager:devices");
                                            ("type", VString (text def "type")); ("getable", VBool true); ("setable", VBool true)]);
          catalog_caps store d caps catalog
      end
  end.

Fixpoint capability_catalog store (devices : list Value) (catalog : Value) : Result Value :=
  match devices with
  | [] => Ok catalog
  | r :: devices =>
      d ← Store.device (text r "id") store;
      catalog ← catalog_caps store d (strings d "capabilities") catalog;
      capability_catalog store devices catalog
  end.

Definition capability_value (id cap : string) store : Result Value :=
  d ← Store.device id store;
  if negb (has_capability d cap) then Err (Missing "capability does not exist")
  else Ok (default VNull (state_of d cap)).

Definition read_method (r : Request) : string := if (r_method r =? "HEAD")%string then "GET" else r_method r.

Definition manager_route (r : Request) : W (option Response) :=
  let method := read_method r in
  let on m := (method =? m)%string in
  let some (m : W Response) : W (option Response) := let% a := m in retW (Some a) in
  match (if on "GET" then strip_prefix "/api/stulp/attach-token/" (r_path r) ≫= segment else None) with
  | Some id => some (attach_token id)
  | None =>
  match (if on "POST" then between_paths "/api/stulp/apps/" "/install" (r_path r) else None) with
  | Some id => some (install_app id)
  | None =>
  match (if on "PUT" then between_paths "/api/stulp/devices/" "/group" (r_path r) else None) with
  | Some id => some (move_device r id)
  | None =>
  match (if on "PUT" then between_paths "/api/manager/flow/flow/" "/enabled" (r_path r) else None) with
  | Some id => some (enable_flow r id)
  | None =>
  if on "GET" && (r_path r =? "/api/manager/devices/capability")%string then
    some (let% v := readW (fun s => capability_catalog s (records (document s) "devices") object) in json 200 v)
  else
  match (if on "GET" then strip_prefix "/api/manager/devices/device/" (r_path r) ≫= split_str "/capability/" else None) with
  | Some (id, cap) => some (let% v := readW (capability_value id cap) in json 200 v)
  | None => retW None
  end end end end end.

Fixpoint store_fields (pairs : list (string * string)) (patch data : Value) : Result Value :=
  match pairs with
  | [] => Ok data
  | (key, stored) :: pairs =>
      match get patch key with
      | Some v => data ← set data stored v; store_fields pairs patch data
      | None => store_fields pairs patch data
      end
  end.

Definition metadata (record patch : Value) : Result Value :=
  data ← store_fields FIELDS patch (default object (get record "store")); set record "store" data.

(** ** [api.rs]: reading *)

Definition system_object store : Result Value :=
  system ← remove (copy (get (root (document store)) "system")) "attachSecret";
  units ← Units.filled (default object (get system "units"));
  system ← set system "units" units;
  offer ← Units.offer;
  set_all system [("unitsOffer", offer); ("statistics", VBool (statistics_enabled store));
                  ("statisticsRunning", VBool (statistics_enabled store)); ("statisticsBytes", value_uint (bytes (statistics store)))].

Definition app_read store (path : string) : Result Response :=
  let '(id, tail) := default (path, EmptyString) (Schedule.split_once "/" path) in
  app ← app_object store id;
  let manifest := default object (manifest_of id store) in
  let settings := default object (get (root (document store)) "appSettings" ≫= fun s => get s id) in
  value ←
    (if is_empty tail then Ok app
     else if (tail =? "setting")%string then Ok settings
     else if (tail =? "locale")%string
     then Ok (fields [("language", VString (language store)); ("name", copy (get app "name")); ("manifest", manifest)])
     else if (tail =? "update")%string
     then Ok (fields [("version", copy (get app "version")); ("updateAvailable", VBool false);
                      ("reason", VString "an app is updated by placing a new image; it announces its version when it attaches")])
     else
       match strip_prefix "setting/" tail with
       | Some key => if is_empty key then Err (Missing "route not found") else ok_or (get settings key) (Missing "setting does not exist")
       | None => Err (Missing "route not found")
       end);
  Response_json 200 value.

(** The first pair of the query with this key, as it is written. *)
Definition raw_query (query key : string) : string :=
  default EmptyString
    (snd <$> find (fun p => (p.1 =? key)%string)
       (omap (fun part => Schedule.split_once "=" (of_bytes part)) (split_at 38 (as_bytes query)))).

Definition CONNECTED : list Z := as_bytes ": connected" ++ [10; 10].

Definition events_stream (r : Request) store : Result Response :=
  _ ← query_value (r_query r) "manager";
  view ← query_value (r_query r) "view";
  if negb (is_empty view || (view =? "overview")%string) then Response_error 400 "unknown event view"
  else Ok (mk_response 200 "text/event-stream" (Static CONNECTED) None []).

Definition fixed_view (path : string) (r : Request) store : option (Result Response) :=
  let at_ p := (path =? p)%string in
  let some v := Some (x ← v; Response_json 200 x) in
  if at_ "/api/stulp/health" then some (Ok (fields [("ok", VBool true); ("stulpVersion", VString VERSION_TEXT)]))
  else if at_ "/api/stulp/manage/bootstrap" then
    some (ds ← devices_view store "overview";
          Ok (fields [("ok", VBool true); ("stulpVersion", VString VERSION_TEXT); ("devices", ds);
                      ("deviceGroups", copy (get (root (document store)) "deviceGroups"))]))
  else if at_ "/api/manager/devices/device" then
    Some (view ← query_value (r_query r) "view";
          if negb (is_empty view || (view =? "overview")%string || (view =? "automation")%string)
          then Response_error 400 "unknown device view"
          else v ← devices_view store view; Response_json 200 v)
  else if at_ "/api/manager/apps/app" then some (apps_object store)
  else if at_ "/api/manager/drivers/driver" then some (drivers_object store)
  else if at_ "/api/manager/system/ping" then some (Ok (VBool true))
  else if at_ "/api/manager/system/name" then some (Ok (VString "Stulp"))
  else if at_ "/api/manager/system" then
    some (Ok (fields [("name", VString "Stulp"); ("version", VString VERSION_TEXT); ("language", VString (language store))]))
  else if at_ "/api/stulp/system" then some (system_object store)
  else None.

(** The part of [dispatch] for [GET]; without an answer the other routes are tried. *)
Definition read_route (r : Request) store : option (Result Response) :=
  let path := r_path r in
  if (path =? "/api/stulp/statistics")%string then Some (v ← list_ (statistics store); Response_json 200 v)
  else
  match strip_prefix "/api/stulp/statistics/" path ≫= Schedule.split_once "/" with
  | Some (id, cap) => Some (v ← window (statistics store) id cap (raw_query (r_query r) "window"); Response_json 200 v)
  | None =>
  match (strip_prefix "/api/stulp/devices/" path ≫= strip_suffix "/media") ≫= fun id => if contains_byte 47 id then None else Some id with
  | Some id => Some (v ← device_media id store; Response_json 200 v)
  | None =>
  if (path =? "/api/stulp/events")%string then Some (events_stream r store)
  else
  match fixed_view path r store with
  | Some a => Some a
  | None =>
  match strip_prefix "/api/manager/apps/app/" path with
  | Some p => Some (app_read store p)
  | None =>
      match strip_prefix "/api/manager/drivers/driver/" path with
      | Some id => Some (ds ← drivers_object store; v ← ok_or (get ds id) (Missing "driver does not exist"); Response_json 200 v)
      | None => None
      end
  end end end end.

(** ** [api.rs]: collections *)

Fixpoint with_ids (items : list Value) (out : list Value) : W (list Value) :=
  match items with
  | [] => retW out
  | item :: items =>
      let% item := (if is_empty (trim (text item "id"))
                    then let% i := idW in liftW (set item "id" (VString i)) else retW item) in
      let% out := liftW (push out item 256) in
      with_ids items out
  end.

Definition normalize_flow_ids (collection : string) (v : Value) : W Value :=
  if negb (collection =? "flows")%string then retW v
  else
    let% nodes := with_ids (array v "nodes") [] in
    let% v := liftW (set v "nodes" (VArray nodes)) in
    let% edges := with_ids (array v "edges") [] in
    liftW (set v "edges" (VArray edges)).

(** A record as the browser sees it. *)
Definition shown_record (collection : string) store (r : Value) : Result Value :=
  if (collection =? "scenes")%string then scene_output store r
  else if (collection =? "flows")%string then flow_convert store r false None
  else Ok r.

Definition show_record (code : Z) (collection id : string) : W Response :=
  let% v := readW (fun s => r ← record (document s) collection id; shown_record collection s r) in json code v.

Definition list_collection (collection : string) (keyed_ : bool) store : Result Response :=
  if keyed_ then
    o ← keyed (fun r => v ← (if (collection =? "flows")%string then flow_convert store r false None else Ok r); Ok (text r "id", v))
          (records (document store) collection) [];
    Response_json 200 (VObject o)
  else if (collection =? "scenes")%string then
    out ← push_all (scene_output store) 4096 (records (document store) collection) []; Response_json 200 (VArray out)
  else Response_json 200 (copy (get (root (document store)) collection)).

Definition create_record (collection : string) (r : Request) : W Response :=
  let% body := parse_body r in
  let% id := idW in
  let% body := liftW (set body "id" (VString id)) in
  let% body := (if (collection =? "scenes")%string && bool_decide (is_Some (get body "states"))
                then readW (fun s => scene_incoming s body None) else retW body) in
  let% body := (if (collection =? "flows")%string then readW (fun s => flow_convert s body true None) else retW body) in
  let% body := normalize_flow_ids collection body in
  let% _ := putW collection body true None in
  show_record 201 collection id.

Definition collection_request (collection : string) (keyed_ : bool) (method : string) (r : Request) : W Response :=
  if (method =? "GET")%string then readW (list_collection collection keyed_)
  else if (method =? "POST")%string && ((collection =? "deviceGroups") || (collection =? "scenes") || (collection =? "flows"))%string
  then create_record collection r
  else no_method.

(** ** [api.rs]: one record *)

(** A new name for a device that stands for a scene is the name of the scene. *)
Definition rename_scene (id : string) (body : Value) : W unit :=
  let% d := recordW "devices" id in
  match get body "name" with
  | Some name =>
      if (text d "appId" =? APP_ID)%string && negb (match get d "name" with Some v => equal v name | None => false end) then
        let% scene := recordW "scenes" (text (get_null d "data") "sceneId") in
        let% scene := liftW (set scene "name" name) in
        putW "scenes" scene false None
      else retW tt
  | None => retW tt
  end.

Definition editable (collection : string) : list string :=
  if (collection =? "devices")%string then ["name"; "groupId"]
  else if (collection =? "deviceGroups")%string then ["name"; "parentId"; "sortOrder"]
  else if (collection =? "flows")%string then ["name"; "enabled"; "nodes"; "edges"]
  else if (collection =? "scenes")%string then ["name"; "kind"; "states"]
  else [].

Fixpoint take_fields (keys : list string) (body record : Value) : Result Value :=
  match keys with
  | [] => Ok record
  | key :: keys =>
      match get body key with
      | Some v => record ← set record key v; take_fields keys body record
      | None => take_fields keys body record
      end
  end.

Definition revision_of (body : Value) : Result (option Z) :=
  match get body "revision" with
  | None => Ok None
  | Some v => n ← ok_or (as_u64 v) (Invalid "invalid revision"); Ok (Some n)
  end.

(** The record with what the browser sent. *)
Definition edited (collection id : string) (body : Value) store : Result Value :=
  old ← record (document store) collection id;
  r ← take_fields (editable collection) body old;
  r ← (if (collection =? "devices")%string then metadata r body else Ok r);
  r ← (if (collection =? "scenes")%string && bool_decide (is_Some (get body "states")) then scene_incoming store r (Some old) else Ok r);
  (if (collection =? "flows")%string && bool_decide (is_Some (get body "nodes")) then flow_convert store r true (Some old) else Ok r).

Definition update_record (collection id : string) (r : Request) : W Response :=
  let% body := parse_body r in
  let% _ := (if (collection =? "devices")%string then rename_scene id body else retW tt) in
  let% record := readW (edited collection id body) in
  let% record := normalize_flow_ids collection record in
  let% revision := liftW (revision_of body) in
  let% _ := putW collection record false revision in
  if (collection =? "devices")%string then let% v := readW (fun s => device_object s id) in json 200 v
  else show_record 200 collection id.

Definition record_request (collection id method : string) (r : Request) : W Response :=
  if (method =? "GET")%string then
    if (collection =? "devices")%string then let% v := readW (fun s => device_object s id) in json 200 v
    else show_record 200 collection id
  else if (method =? "DELETE")%string then
    if (collection =? "devices")%string then liftW (Err (Missing "device removal requires app callback"))
    else let% _ := storeW (delete collection id) in done
  else if (method =? "PUT")%string && negb (collection =? "notifications")%string then update_record collection id r
  else no_method.

(** ** [api.rs]: the other routes *)

Definition app_setting (method id key : string) (r : Request) : W Response :=
  if (method =? "PUT")%string then
    let% body := parse_body r in
    let% v := liftW (ok_or (get body "value") (Invalid "value is required")) in
    let% _ := storeW (setting id key (Some v)) in done
  else if (method =? "DELETE")%string then let% _ := storeW (setting id key None) in done
  else no_method.

Definition enable_app (id : string) (enabled : bool) : W Response :=
  let% r := recordW "apps" id in
  if boolean r "offered" then liftW (Err (Invalid "install the offered app first"))
  else
    let% r := liftW (set r "enabled" (VBool enabled)) in
    let% _ := putW "apps" r false None in done.

Definition clean_line (message : string) : string := of_chars (map (fun c => if is_control c then 32 else c) (chars message)).

Definition client_log (r : Request) : W Response :=
  let% body := parse_body r in
  let source := trim (text body "source") in
  let level := text body "level" in
  let message := trim (text body "message") in
  if is_empty source || (64 <? len source) || existsb is_control (chars source)
  then liftW (Err (Invalid "log source must be 1-64 printable characters"))
  else if negb ((level =? "info") || (level =? "warn") || (level =? "error"))%string
  then liftW (Err (Invalid "log level must be info, warn or error"))
  else if is_empty message || (1024 <? len message) then liftW (Err (Invalid "log message must be 1-1024 characters"))
  else let% _ := logW source level (clean_line message) in done.

Definition updated_system (body : Value) store : Result Value :=
  let system := copy (get (root (document store)) "system") in
  system ← match get body "statistics" with
           | None => Ok system
           | Some v => if negb (bool_decide (is_Some (as_bool v))) then Err (Invalid "statistics must be boolean")
                       else set system "statistics" v
           end;
  match get body "units" with
  | None => Ok system
  | Some patch =>
      match Units.update (default object (get system "units")) patch with
      | (Err e, _) => Err e
      | (Ok _, units) => set system "units" units
      end
  end.

Definition update_system (r : Request) : W Response :=
  let% body := parse_body r in
  let% system := readW (updated_system body) in
  let% _ := storeW (Store.system system) in
  let% v := readW system_object in json 200 v.

Definition order_devices (r : Request) : W Response :=
  let% body := parse_body r in
  let% ids := liftW (push_all (fun id => ok_or (as_str id) (Invalid "invalid device id")) 4096 (array body "deviceIds") []) in
  let% _ := storeW (reorder_devices (text body "groupId") ids) in done.

Definition COLLECTION_ROUTES : list (string * string * bool) :=
  [("/api/stulp/device-groups", "deviceGroups", false); ("/api/stulp/scenes", "scenes", false);
   ("/api/manager/flow/flow", "flows", true); ("/api/manager/notifications/notification", "notifications", false);
   ("/api/manager/devices/device", "devices", true)].

Fixpoint collection_routes (routes : list (string * string * bool)) (method : string) (r : Request) : W Response :=
  match routes with
  | [] => liftW (Err (Missing "route not found"))
  | (prefix, collection, keyed_) :: routes =>
      if (r_path r =? prefix)%string then collection_request collection keyed_ method r
      else match (strip_prefix prefix (r_path r) ≫= strip_prefix "/") ≫= segment with
           | Some id => record_request collection id method r
           | None => collection_routes routes method r
           end
  end.

Definition write_routes (method : string) (r : Request) : W Response :=
  let path := r_path r in
  if (path =? "/api/stulp/log")%string && (method =? "POST")%string then client_log r
  else if (path =? "/api/stulp/system")%string && (method =? "PUT")%string then update_system r
  else if (path =? "/api/stulp/devices/order")%string && (method =? "PUT")%string then order_devices r
  else collection_routes COLLECTION_ROUTES method r.

(** The routes of one app: its settings, and whether it is enabled. *)
Definition app_routes (method : string) (r : Request) : option (W Response) :=
  match strip_prefix "/api/manager/apps/app/" (r_path r) ≫= Schedule.split_once "/" with
  | None => None
  | Some (id, tail) =>
      match strip_prefix "setting/" tail with
      | Some key => if negb (is_empty key) then Some (app_setting method id key r)
                    else None
      | None => if (method =? "PUT")%string && ((tail =? "enable") || (tail =? "disable"))%string
                then Some (enable_app id (tail =? "enable")%string) else None
      end
  end.

Definition dispatch (r : Request) : W Response :=
  let% first := manager_route r in
  match first with
  | Some a => retW a
  | None =>
      let method := read_method r in
      if (method =? "OPTIONS")%string then json 204 VNull
      else
        let write := match app_routes method r with Some m => m | None => write_routes method r end in
        if (method =? "GET")%string then
          fun s => match read_route r s.1 with Some a => (a, s) | None => write s end
        else write
  end.

End Routes.
