(* ===== verification/WebServe.v ===== *)
(** * WebServe: access, assets and the stream of events

    Models [crates/web/src/lib.rs]: the session of the browser, the check of key, cookie and
    origin before every request, the built-in assets, and the events that a subscriber gets.  The
    answer to a message of MCP and the bytes of the interface are arguments. *)

From Stdlib Require Import ZArith Lia Ascii String.
From S2P Require Import Prelude Text Errors Slots Value Json Document Stats Store Scenes Media Templates Mutations Web Capability Objects WebUnits WebApi.
From S2P Require Units Manifest Token Schedule Runs.

Local Open Scope Z_scope.

Record Web : Type := mk_web { w_token : string; w_proof : string }.

Definition hex_digit (n : Z) : Z := if n <? 10 then 48 + n else 87 + n.

Definition hex (bytes : list Z) : string :=
  of_bytes (flat_map (fun b => [hex_digit (Z.shiftr b 4); hex_digit (Z.land b 15)]) bytes).

(** [s.trim_start_matches(p)]: every round takes a whole prefix away. *)
Fixpoint trim_start_matches (fuel : nat) (p s : string) : string :=
  match fuel with
  | O => s
  | S fuel => match strip_prefix p s with Some rest => trim_start_matches fuel p rest | None => s end
  end.

(** [s.split(c)] *)
Definition split_text (c : Z) (s : string) : list string := map of_bytes (split_at c (as_bytes s)).

Definition ASSETS : list (string * string * string) :=
  [("/", "text/html; charset=utf-8", "index.html"); ("/app", "text/html; charset=utf-8", "index.html");
   ("/assets/app.js", "text/javascript; charset=utf-8", "app.js"); ("/assets/style.css", "text/css; charset=utf-8", "style.css");
   ("/assets/app-frame.css", "text/css; charset=utf-8", "app-frame.css"); ("/stulp.js", "text/javascript; charset=utf-8", "stulp.js");
   ("/assets/stulp.js", "text/javascript; charset=utf-8", "stulp.js");
   ("/manifest.webmanifest", "application/manifest+json", "manifest.webmanifest"); ("/assets/icon-192.png", "image/png", "icon-192.png");
   ("/assets/icon-512.png", "image/png", "icon-512.png"); ("/assets/stulp.svg", "image/svg+xml", "stulp.svg")].

(** The bytes of the interface, by the name of the file. *)
Class Interface := ui_bytes : string -> list Z.

Section Serve.
Context {HK : Crypto} {HU : Interface}.

Definition Web_new (token : string) : Web :=
  mk_web token (hex (sha256 (as_bytes "stulp web session" ++ [0] ++ as_bytes token))).

Definition asset (path : string) : option Response :=
  '(_, kind, file) ← find (fun a => (a.1.1 =? path)%string) ASSETS;
  Some (mk_response 200 kind (Static (ui_bytes file)) None []).

Definition token_equal (a b : string) : bool := Token.equal ct_eq a b.

Definition has_cookie (w : Web) (cookie : string) : bool :=
  existsb (fun p => (p.1 =? "stulp-session")%string && token_equal p.2 (w_proof w))
    (omap (fun part => Schedule.split_once "=" (trim part)) (split_text 59 cookie)).

Definition authenticated (w : Web) (r : Request) : bool := is_empty (w_token w) || has_cookie w (r_cookie r).

Definition mcp_authenticated (w : Web) (r : Request) : bool :=
  negb (is_empty (w_token w))
  && match strip_prefix "/mcp/" (r_path r) with Some key => token_equal key (w_token w) | None => false end.

Definition one_of (l : list string) (s : string) : bool := existsb (fun x => (x =? s)%string) l.

Definition is_public (r : Request) : bool :=
  starts_with "/assets/" (r_path r) || ((r_method r =? "GET")%string && starts_with "/image/" (r_path r))
  || one_of ["/manifest.webmanifest"; "/stulp.js"] (r_path r).

Definition opens_session (w : Web) (r : Request) : bool :=
  negb (is_empty (w_token w)) && (r_method r =? "GET")%string
  && token_equal (default EmptyString (strip_prefix "/" (r_path r))) (w_token w).

(** The host that a request comes from. *)
Definition origin_host (r : Request) : option string :=
  match strip_prefix "https://" (r_origin r) with Some h => Some h | None => strip_prefix "http://" (r_origin r) end.

Definition cross_origin (r : Request) : bool :=
  negb (one_of ["GET"; "HEAD"; "OPTIONS"] (r_method r)) && negb (is_empty (r_origin r))
  && negb (bool_decide (origin_host r = Some (r_host r))).

Definition error_status (e : Error) : Z :=
  match e with Missing _ => 404 | Changed => 409 | Conflict _ => 409 | EStorage => 503 | _ => 400 end.

Definition SESSION : string := "; Path=/; HttpOnly; SameSite=Strict; Max-Age=31536000".

Section Store.
Context {St : Type} {HS : Storage St} {E : Type} {HE : Environment E}.

(** The answer to a message of MCP that needs no tool, and [None] for a call of a tool. *)
Context (mcp_decode : Request -> Result (option Response)).

Definition mcp_handle (w : Web) (r : Request) : Result Response :=
  if is_empty (w_token w) || negb (token_equal (trim_start_matches (String.length (r_path r)) "/mcp/" (r_path r)) (w_token w))
  then Response_error 404 "not found"
  else
    d ← mcp_decode r;
    match d with Some reply => Ok reply | None => Response_error 404 "MCP tool requires controller callback" end.

Definition handle (w : Web) (r : Request) : W (St := St) (E := E) Response := fun s =>
  if starts_with "/mcp/" (r_path r) then (mcp_handle w r, s)
  else if opens_session w r then
    ((a ← ok_or (asset "/") (Missing "UI");
      Ok (mk_response (status a) (content_type a) (body a) (Some ("stulp-session=" ++ w_proof w ++ SESSION)) (headers a)))%string, s)
  else if negb (is_public r) && negb (authenticated w r) then
    (Response_error (if starts_with "/api/" (r_path r) then 401 else 404) "open /<key> before using Stulp", s)
  else if cross_origin r then (Response_error 403 "cross-origin write refused", s)
  else
    match (if one_of ["GET"; "HEAD"] (r_method r) then asset (r_path r) else None) with
    | Some a => (Ok a, s)
    | None =>
        match dispatch r s with
        | (Ok a, s) => (Ok a, s)
        | (Err x, s) => (Response_error (error_status x) (error_text x), s)
        end
    end.

(** ** The stream of events *)

Definition NEWLINE : list Z := [10].

Definition RELOAD : list Z :=
  as_bytes "event: store.reload" ++ NEWLINE
  ++ as_bytes "data: {" ++ [34] ++ as_bytes "manager" ++ [34; 58; 34] ++ as_bytes "store" ++ [34; 44; 34] ++ as_bytes "type"
  ++ [34; 58; 34] ++ as_bytes "store.reload" ++ [34; 125; 10; 10].

(** What an event tells of its record. *)
Definition event_data (store : Store St) (e : Event) (overview : bool) : Result Value :=
  if ((ev_manager e =? "devices") && (ev_kind e =? "device.update"))%string then
    match device_view store (ev_id e) (if overview then "overview" else EmptyString) with
    | Ok v =>
        if overview then d ← device (ev_id e) store; set v "capabilityValues" (copy (get d "state")) else Ok v
    | Err _ => Ok VNull
    end
  else if (ev_kind e =? "notification.create")%string then
    Ok (match record (document store) "notifications" (ev_id e) with Ok v => v | Err _ => VNull end)
  else Ok VNull.

Definition event_line (store : Store St) (e : Event) (overview : bool) : Result (list Z) :=
  data ← event_data store e overview;
  from_hop (write (fields [("manager", VString (ev_manager e)); ("type", VString (ev_kind e)); ("id", VString (ev_id e)); ("data", data)])).

Fixpoint event_lines (store : Store St) (manager : string) (overview : bool) (es : list Event) (out : list Z) : Result (list Z) :=
  match es with
  | [] => Ok out
  | e :: es =>
      if negb (is_empty manager) && negb (manager =? ev_manager e)%string && negb (ev_manager e =? "store")%string
      then event_lines store manager overview es out
      else
        encoded ← event_line store e overview;
        if MAX_INPUT <? Z.of_nat (length out) + (Z.of_nat (length encoded) + len (ev_kind e) + 64) then Ok RELOAD
        else event_lines store manager overview es
               (out ++ as_bytes ("id: " ++ show (ev_sequence e)) ++ NEWLINE ++ as_bytes ("event: " ++ ev_kind e) ++ NEWLINE
                ++ as_bytes "data: " ++ encoded ++ [10; 10])
  end.

Definition events_view (store : Store St) (cursor : Z) (manager : string) (overview : bool) : Result (list Z) :=
  match events_after cursor store with
  | Ok es => event_lines store manager overview es []
  | Err Changed => Ok RELOAD
  | Err e => Err e
  end.

End Store.
End Serve.
