(* ===== verification/WebOk.v ===== *)
(** * WebOk: access to the routes of the browser

    Who may read and change the store through the web: strangers learn nothing, only the own
    pages write, reading does not write, every request is answered, and whatever is asked the
    store stays valid. *)

From Stdlib Require Import ZArith Lia Ascii String.
From S2P Require Import Prelude Text Errors Slots Float Value Json JsonRoundtrip Document Stats Store StoreDoc StoreInv StoreDocOps StoreOk StoreProps Scenes Media MutationsOk Templates Mutations Web Capability Objects WebUnits WebApi WebServe.
From S2P Require Units Manifest Token Schedule Flow.

Local Open Scope Z_scope.

(** ** Paths *)

Lemma strip_prefix_starts p s r : strip_prefix p s = Some r -> starts_with p s = true.
Proof. unfold strip_prefix, starts_with. by destruct (String.prefix p s). Qed.

Lemma starts_with_trans p q s : starts_with p q = true -> starts_with q s = true -> starts_with p s = true.
Proof.
  unfold starts_with. revert q s. induction p as [|a p IH]; intros q s; [by destruct s|].
  destruct q as [|b q]; [done|]. destruct s as [|c s]; [done|]. cbn [String.prefix].
  destruct (ascii_dec a b) as [->|]; [|done]. destruct (ascii_dec b c) as [->|]; [|done].
  destruct (ascii_dec c c); [|done]. apply IH.
Qed.

Lemma starts_with_refl s : starts_with s s = true.
Proof. unfold starts_with. induction s as [|a s IH]; [done|]. cbn. by destruct (ascii_dec a a). Qed.

(** Two prefixes of one text are prefixes of each other. *)
Lemma prefixes_compare p q s : starts_with p s = true -> starts_with q s = true -> starts_with p q = true \/ starts_with q p = true.
Proof.
  unfold starts_with. revert q s. induction p as [|a p IH]; intros q s; [by left; destruct q|].
  destruct q as [|b q]; [by right|]. destruct s as [|c s]; [done|]. cbn [String.prefix].
  destruct (ascii_dec a c) as [->|]; [|done]. destruct (ascii_dec b c) as [->|]; [|done].
  destruct (ascii_dec c c); [|done]. apply IH.
Qed.

Lemma prefixes_differ p q s : starts_with p q = false -> starts_with q p = false -> starts_with p s = true -> starts_with q s = false.
Proof. intros H1 H2 Hp. destruct (starts_with q s) eqn:Hq; [|done]. destruct (prefixes_compare p q s Hp Hq); congruence. Qed.

(** Outside the interface of the program no route of it applies. *)
Lemma foreign_prefix p s : starts_with "/api/" s = false -> starts_with "/api/" p = true -> strip_prefix p s = None.
Proof.
  intros Hs Hp. destruct (strip_prefix p s) as [r|] eqn:E; [|done]. apply strip_prefix_starts in E.
  by rewrite (starts_with_trans _ _ _ Hp E) in Hs.
Qed.

Lemma foreign_path p s : starts_with "/api/" s = false -> starts_with "/api/" p = true -> (s =? p)%string = false.
Proof. intros Hs Hp. apply String.eqb_neq. intros ->. congruence. Qed.

Ltac foreign H :=
  repeat match goal with
  | |- context [strip_prefix ?p (r_path ?r)] => rewrite (foreign_prefix p (r_path r) H) by reflexivity
  | |- context [(r_path ?r =? ?p)%string] => rewrite (foreign_path p (r_path r) H) by reflexivity
  end.

Lemma public_is_foreign (r : Request) : is_public r = true -> starts_with "/api/" (r_path r) = false.
Proof.
  unfold is_public, one_of. cbn [existsb]. rewrite !orb_true_iff, andb_true_iff, !String.eqb_eq.
  intros H. assert (starts_with "/assets/" (r_path r) = true \/ starts_with "/image/" (r_path r) = true
    \/ r_path r = "/manifest.webmanifest" \/ r_path r = "/stulp.js") as [Hp|[Hp|[->| ->]]] by (destruct H; intuition congruence);
    [by eapply prefixes_differ; [..|exact Hp]|by eapply prefixes_differ; [..|exact Hp]|done..].
Qed.

Section Web.
Context {HK : Crypto} {HU : Interface} {St : Type} {HS : Storage St} {E : Type} {HE : Environment E}.
Context (mcp_decode : Request -> Result (option Response)).
Local Abbreviation W := (WebApi.W (St := St) (E := E)).
Implicit Types (r : Request) (s : Store St * E) (w : WebServe.Web).

Lemma dispatch_foreign r s : starts_with "/api/" (r_path r) = false ->
  dispatch r s = ((if (read_method r =? "OPTIONS")%string then Response_json 204 VNull else Err (Missing "route not found")), s).
Proof.
  intros H. unfold dispatch, manager_route, between_paths, bindW, retW. foreign H. cbn [mbind option_bind]. rewrite !andb_false_r.
  repeat match goal with |- context [if ?b then @None ?T else None] => replace (if b then @None T else None) with (@None T) by (by destruct b) end.
  destruct (read_method r =? "OPTIONS")%string; [done|]. unfold app_routes, read_route, write_routes, collection_routes, COLLECTION_ROUTES, fixed_view.
  foreign H. cbn [mbind option_bind andb]. by destruct (read_method r =? "GET")%string.
Qed.

(** ** Strangers *)

(** A request with neither the key nor the cookie of a session. *)
Definition stranger w r : Prop :=
  is_empty (w_token w) = false /\ has_cookie w (r_cookie r) = false /\ opens_session w r = false
  /\ (starts_with "/mcp/" (r_path r) = true ->
      token_equal (trim_start_matches (String.length (r_path r)) "/mcp/" (r_path r)) (w_token w) = false).


(** A stranger gets an answer that does not depend on the store. *)
Definition stranger_answer w r : Result Response :=
  if starts_with "/mcp/" (r_path r) then Response_error 404 "not found"
  else if negb (is_public r) then Response_error (if starts_with "/api/" (r_path r) then 401 else 404) "open /<key> before using Stulp"
  else if cross_origin r then Response_error 403 "cross-origin write refused"
  else match (if one_of ["GET"; "HEAD"] (r_method r) then asset (r_path r) else None) with
       | Some a => Ok a
       | None => if (read_method r =? "OPTIONS")%string then Response_json 204 VNull
                 else Response_error 404 (error_text (Missing "route not found"))
       end.

Lemma handle_stranger w r s : stranger w r -> handle mcp_decode w r s = (stranger_answer w r, s).
Proof.
  intros (Ht & Hc & Ho & Hm). unfold handle, stranger_answer, mcp_handle. rewrite Ho.
  destruct (starts_with "/mcp/" (r_path r)); [by rewrite Ht, Hm|]. unfold authenticated. rewrite Ht, Hc. cbn [orb negb]. rewrite andb_true_r.
  destruct (is_public r) eqn:Hp; [|done]. cbn [negb]. destruct (cross_origin r); [done|].
  destruct (if one_of _ _ then _ else _); [done|]. rewrite dispatch_foreign by (by apply public_is_foreign).
  by destruct (read_method r =? "OPTIONS")%string.
Qed.

(** ** Reading *)

Lemma bindW_reads {X Y} (m : W X) (k : X -> W Y) s : (m s).2 = s -> (forall x, (k x s).2 = s) -> (bindW m k s).2 = s.
Proof. unfold bindW. destruct (m s) as [[x|e] s']; cbn [snd]; [|done]. by intros -> H. Qed.

Definition attaches r : bool :=
  (read_method r =? "GET")%string && bool_decide (is_Some (strip_prefix "/api/stulp/attach-token/" (r_path r) ≫= segment)).

Ltac reads := repeat first [done | apply bindW_reads; [|intros ?] | progress cbn [snd]].

Lemma manager_reads r s : (read_method r =? "GET")%string = true -> attaches r = false -> (manager_route r s).2 = s.
Proof.
  intros Hg Ha. unfold attaches in Ha. rewrite Hg in Ha. cbn [andb] in Ha. apply bool_decide_eq_false, eq_None_not_Some in Ha.
  unfold manager_route. rewrite Hg, Ha. apply String.eqb_eq in Hg. rewrite Hg. cbn [String.eqb Ascii.eqb Bool.eqb].
  cbn [andb]. destruct (r_path r =? "/api/manager/devices/capability")%string; [reads|].
  destruct (strip_prefix "/api/manager/devices/device/" (r_path r) ≫= split_str "/capability/") as [[i c]|]; reads.
Qed.

Lemma collection_reads routes r s : (collection_routes routes "GET" r s).2 = s.
Proof.
  induction routes as [|[[p c] k] routes IH]; [done|]. cbn [collection_routes]. destruct (_ =? p)%string; [done|].
  destruct (_ ≫= segment) as [i|]; [|done]. unfold record_request. cbn [String.eqb Ascii.eqb Bool.eqb].
  destruct (c =? "devices")%string; [reads|]. unfold show_record. reads.
Qed.

Lemma dispatch_reads r s : (read_method r =? "GET")%string = true -> attaches r = false -> (dispatch r s).2 = s.
Proof.
  intros Hg Ha. unfold dispatch. apply bindW_reads; [by apply manager_reads|]. intros [a|]; [done|]. rewrite Hg.
  apply String.eqb_eq in Hg. rewrite Hg. cbn [String.eqb Ascii.eqb Bool.eqb].
  destruct (read_route r s.1); [done|]. unfold app_routes, write_routes.
  destruct (_ ≫= Schedule.split_once "/") as [[i t]|].
  - destruct (strip_prefix "setting/" t) as [key|]; cbn [String.eqb Ascii.eqb Bool.eqb andb].
    + destruct (negb (is_empty key)); [done|]. rewrite !andb_false_r. apply collection_reads.
    + rewrite !andb_false_r. apply collection_reads.
  - cbn [String.eqb Ascii.eqb Bool.eqb andb]. rewrite !andb_false_r. apply collection_reads.
Qed.

End Web.

(** ** The store stays valid *)

Definition fine (v : Value) : Prop := uniq v = true.

Lemma fine_set v k w v' : set v k w = Ok v' -> fine v -> fine w -> fine v'.
Proof. apply uniq_set. Qed.

Lemma fine_get v k w : fine v -> get v k = Some w -> fine w.
Proof. apply uniq_get. Qed.

Lemma fine_default v d : fine d -> (forall w, v = Some w -> fine w) -> fine (default d v).
Proof. intros Hd H. destruct v as [w|]; [by apply H|done]. Qed.

Lemma json_parse_fine b v : json_parse b = Ok v -> fine v.
Proof. unfold json_parse. destruct (parse_bounded b _) as [w|] eqn:Ep; cbn; [|done]. intros [= <-]. by eapply parse_uniq. Qed.

Lemma apply_number_fine n : fine (VNumber n).
Proof. done. Qed.

Lemma take_fields_fine keys body r r' : take_fields keys body r = Ok r' -> fine body -> fine r -> fine r'.
Proof.
  revert r. induction keys as [|k keys IH]; intros r H Hb Hr; cbn in H; [by injection H as <-|].
  destruct (get body k) as [v|] eqn:Eg; [|by eapply IH]. step_ok H. eapply IH; [exact H|done|].
  eapply fine_set; [exact E|done|eauto using fine_get].
Qed.

Lemma store_fields_fine pairs patch d d' : store_fields pairs patch d = Ok d' -> fine patch -> fine d -> fine d'.
Proof.
  revert d. induction pairs as [|[k st] pairs IH]; intros d H Hp Hd; cbn in H; [by injection H as <-|].
  destruct (get patch k) as [v|] eqn:Eg; [|by eapply IH]. step_ok H. eapply IH; [exact H|done|].
  eapply fine_set; [exact E|done|eauto using fine_get].
Qed.

Lemma metadata_fine r body r' : metadata r body = Ok r' -> fine r -> fine body -> fine r'.
Proof.
  unfold metadata. intros H Hr Hb. step_ok H. eapply fine_set; [exact H|done|]. eapply store_fields_fine; [exact E|done|].
  apply fine_default; [done|]. intros w Hw. eauto using fine_get.
Qed.

Lemma convert_args_fine settings inc old units : forall args args',
  convert_args settings inc old units args = Ok args' -> fine args -> fine args'.
Proof.
  induction units as [|[name u] units IH]; intros args args' H Ha; cbn [convert_args] in H; [by injection H as <-|]. cbv zeta in H.
  destruct (Units.step settings _); [|by eapply IH]. destruct (get args name) as [[| | n| | |]|]; try by eapply IH.
  step_ok H. eapply IH; [exact H|]. eapply fine_set; [exact E|done|]. destruct inc; [|done]. unfold entered.
  destruct (_ ≫= _) as [[| |b| | |]|]; try done. by destruct (f_ltb _ _).
Qed.

Section Web.
Context {HK : Crypto} {HU : Interface} {St : Type} {HS : Storage St} {E : Type} {HE : Environment E}.
Local Abbreviation W := (WebApi.W (St := St) (E := E)).
Implicit Types (r : Request) (s : Store St * E) (store : Store St).

Lemma record_fine store c i v : store_ok store -> record (document store) c i = Ok v -> fine v.
Proof. intros Hs H. by destruct (record_props _ _ _ _ (so_doc _ Hs) H). Qed.

Lemma convert_node_fine store settings inc previous n n' : fine n -> convert_node store settings inc previous n = Ok n' -> fine n'.
Proof.
  unfold convert_node. intros Hn H. do 2 step_ok H. destruct (is_null _); [by injection H as <-|]. step_ok H.
  assert (fine (get_null n "step")) as Hs by (by apply uniq_get_null).
  apply convert_args_fine in E1; [|by apply uniq_get_null].
  eapply fine_set; [exact H|done|]. destruct (is_null a0); [by injection E2 as <-|]. eauto using fine_set.
Qed.

Lemma flow_convert_fine store d inc previous d' : flow_convert store d inc previous = Ok d' -> fine d -> fine d'.
Proof.
  unfold flow_convert. intros H Hd. step_ok H. eapply fine_set; [exact H|done|]. apply uniq_array.
  eapply push_all_Forall; [exact E0| |by apply uniq_elems]. intros n n' Hn Hr. exact (convert_node_fine _ _ _ _ _ _ Hn Hr).
Qed.

Lemma input_fine store d cap v v' : input store d cap v = Ok v' -> fine v -> fine v'.
Proof.
  unfold input. intros H Hv. step_ok H. destruct (negb _); [done|]. destruct (_ || _); [done|]. destruct (_ && _); [done|].
  destruct v; try by injection H as <-. destruct (out_of_range _ _); [done|]. destruct (bool_decide _); by injection H as <-.
Qed.

Lemma stored_value_fine store d cap previous i shown v v' : stored_value store d cap previous i shown v = Ok v' ->
  fine v -> fine v'.
Proof.
  unfold stored_value. set (b := match _ with Some _ => _ | None => _ end). destruct b as [| |n| | |]; cbn [is_number]; try by intros [= <-].
  intros H Hv. do 2 step_ok H. destruct shown; try by injection H as <-. destruct (get a0 "value") as [[]|]; try by injection H as <-.
  destruct (f_ltb _ _); by injection H as <-.
Qed.

Lemma scene_incoming_fine store sc previous sc' : scene_incoming store sc previous = Ok sc' -> fine sc -> fine sc'.
Proof.
  unfold scene_incoming. intros H Hs. step_ok H. eapply fine_set; [exact H|done|]. apply uniq_array.
  eapply push_all_Forall; [exact E0| |by apply uniq_elems]. intros x x' Hx Hr. cbn beta in *. unfold incoming_state in Hr.
  step_ok Hr. destruct (_ =? APP_ID)%string; [done|]. destruct (negb (has_capability _ _)); [done|]. step_ok Hr.
  destruct (_ || _); [done|]. do 2 step_ok Hr. eapply fine_set; [exact Hr|done|]. eapply stored_value_fine; [exact E4|].
  eapply input_fine; [exact E3|]. by apply uniq_get_null.
Qed.

Lemma edited_fine c i body store v : store_ok store -> fine body -> edited c i body store = Ok v -> fine v.
Proof.
  unfold edited. intros Hs Hb H. step_ok H. apply record_fine in E0; [|done]. step_ok H. apply take_fields_fine in E1; [|done..].
  step_ok H. assert (fine a1) by (destruct (c =? "devices")%string in E2; [eauto using metadata_fine|by injection E2 as <-]).
  step_ok H. assert (fine a2) by (destruct ((c =? "scenes")%string && _) in E3; [eauto using scene_incoming_fine|by injection E3 as <-]).
  destruct ((c =? "flows")%string && _) in H; [eauto using flow_convert_fine|by injection H as <-].
Qed.

(** ** Steps *)

(** Whatever the outcome, the store stays valid; a result satisfies [P]. *)
Definition kept {X} (P : X -> Prop) (m : W X) : Prop :=
  forall s x s', store_ok s.1 -> m s = (x, s') -> store_ok s'.1 /\ forall v, x = Ok v -> P v.

Lemma kept_bind {X Y} (P : X -> Prop) (Q : Y -> Prop) (m : W X) (k : X -> W Y) :
  kept P m -> (forall x, P x -> kept Q (k x)) -> kept Q (bindW m k).
Proof.
  intros Hm Hk s y s' Hs H. unfold bindW in H. destruct (m s) as [[x|e] s1] eqn:Em.
  - destruct (Hm _ _ _ Hs Em) as [Hs1 HP]. by apply (Hk x (HP x eq_refl) s1 y s' Hs1 H).
  - destruct (Hm _ _ _ Hs Em) as [Hs1 _]. injection H as <- <-. by split.
Qed.

Lemma kept_weaken {X} (P Q : X -> Prop) (m : W X) : kept P m -> (forall x, P x -> Q x) -> kept Q m.
Proof. intros Hm HPQ s x s' Hs H. destruct (Hm _ _ _ Hs H) as [? HP]. split; [done|]. intros v Hv. by apply HPQ, HP. Qed.

Lemma kept_ret {X} (P : X -> Prop) x : P x -> kept P (retW x).
Proof. intros HP s y s' Hs [= <- <-]. split; [done|]. by intros v [= <-]. Qed.

Lemma kept_lift {X} (P : X -> Prop) (a : Result X) : (forall x, a = Ok x -> P x) -> kept P (liftW a).
Proof. intros HP s y s' Hs [= <- <-]. by split. Qed.

Lemma kept_read {X} (P : X -> Prop) (f : Store St -> Result X) : (forall (st : Store St) x, store_ok st -> f st = Ok x -> P x) -> kept P (readW f).
Proof. intros HP s y s' Hs [= <- <-]. split; [done|]. intros v. by apply HP. Qed.

Lemma kept_op op : op_ok op -> kept (fun _ => True) (storeW (run_op op)).
Proof.
  intros Ho s y s' Hs H. unfold storeW in H. destruct (run_op op s.1) as [x st] eqn:Er. injection H as <- <-. split; [|done].
  by eapply run_op_ok.
Qed.

Lemma kept_id : kept (fun _ => True) idW.
Proof. intros s y s' Hs H. unfold idW in H. destruct (env_id s.2) as [x e]. injection H as <- <-. by split. Qed.

Lemma kept_now : kept (fun _ => True) nowW.
Proof. intros s y s' Hs [= <- <-]. by split. Qed.

Lemma kept_log a b c : kept (fun _ => True) (logW a b c).
Proof. intros s y s' Hs [= <- <-]. by split. Qed.

Lemma kept_json c v : kept (fun _ => True) (json c v).
Proof. by apply kept_lift. Qed.

Lemma kept_put c v create rev : fine v -> kept (fun _ => True) (putW c v create rev).
Proof. intros Hv. eapply kept_bind; [apply kept_now|]. intros now _. by apply (kept_op (OpPut c v create rev now)). Qed.

Lemma kept_record c i : kept fine (recordW c i).
Proof. apply kept_read. intros s x Hs H. eauto using record_fine. Qed.

Lemma kept_body r : kept fine (parse_body r).
Proof. apply kept_lift. intros x. apply json_parse_fine. Qed.

Lemma kept_set v k w : fine v -> fine w -> kept fine (liftW (set v k w)).
Proof. intros Hv Hw. apply kept_lift. intros x H. eauto using fine_set. Qed.

Lemma kept_any {X} (f : Store St -> Result X) : kept (fun _ => True) (readW f).
Proof. by apply kept_read. Qed.

Lemma kept_show c col i : kept (fun _ => True) (show_record c col i).
Proof. eapply kept_bind; [apply kept_any|]. intros v _. apply kept_json. Qed.

Lemma kept_device i : kept (fun _ => True) (let% v := readW (fun s : Store St => device_object s i) in json 200 v : W Response).
Proof. eapply kept_bind; [apply kept_any|]. intros v _. apply kept_json. Qed.

Lemma kept_if {X} (P : X -> Prop) (b : bool) (m n : W X) : (b = true -> kept P m) -> (b = false -> kept P n) -> kept P (if b then m else n).
Proof. destruct b; auto. Qed.

(** ** Routes *)

Tactic Notation "route" "as" simple_intropattern(p) :=
  lazymatch goal with |- kept _ (match ?x with _ => _ end) => destruct x as p end.

Lemma manager_kept r : kept (fun _ => True) (manager_route r).
Proof.
  unfold manager_route. set (b := fun m : W Response => bindW m (fun a => retW (St := St) (E := E) (Some a))).
  assert (forall m, kept (fun _ => True) m -> kept (fun _ => True) (b m)) as Hb
    by (intros m Hm; eapply kept_bind; [exact Hm|]; intros a _; by apply kept_ret).
  cbv zeta. route as [i|].
  { apply Hb. unfold attach_token. eapply (kept_bind fine).
    { apply kept_read. intros s x Hs [= <-]. apply fine_default; [done|]. intros w Hw. eapply fine_get; [|exact Hw]. apply (do_uniq _ (so_doc _ Hs)). }
    intros sy Hsy. eapply (kept_bind fine).
    - apply kept_if; intros _; [|by apply kept_ret]. eapply kept_bind; [apply kept_id|]. intros a _. eapply kept_bind; [apply kept_id|]. intros c _.
      eapply kept_bind; [by apply kept_set|]. intros v Hv. eapply kept_bind; [by apply (kept_op (OpSystem v))|]. intros _ _. by apply kept_ret.
    - intros v Hv. eapply (kept_bind (fun _ => True)); [by apply kept_lift|]. intros tk _.
      eapply (kept_bind (fun _ => True)); [apply kept_any|]. intros kn _. apply kept_json. }
  route as [i|].
  { apply Hb. unfold install_app. eapply kept_bind; [apply kept_record|]. intros app Happ. eapply (kept_bind (fun _ => True)).
    - apply kept_if; intros _; [|by apply kept_ret]. eapply kept_bind; [by apply kept_set|]. intros v Hv.
      eapply kept_bind; [by apply kept_set|]. intros v2 Hv2. by apply kept_put.
    - intros _ _. eapply kept_bind; [apply kept_any|]. intros v _. apply kept_json. }
  route as [i|].
  { apply Hb. unfold move_device. eapply kept_bind; [apply kept_body|]. intros body Hbody.
    eapply (kept_bind (fun _ => True)); [by apply kept_lift|]. intros g _.
    eapply (kept_bind fine); [apply kept_read; intros s x Hs H; exact (device_uniq _ _ _ Hs H)|]. intros d Hd.
    eapply kept_bind; [by apply kept_set|]. intros v Hv. eapply kept_bind; [by apply kept_put|]. intros _ _. apply kept_device. }
  route as [i|].
  { apply Hb. unfold enable_flow. eapply kept_bind; [apply kept_body|]. intros body Hbody.
    eapply (kept_bind (fun _ => True)); [by apply kept_lift|]. intros en _. eapply kept_bind; [apply kept_record|]. intros f Hf.
    eapply kept_bind; [by apply kept_set|]. intros v Hv. eapply kept_bind; [by apply kept_put|]. intros _ _.
    eapply kept_bind; [apply kept_record|]. intros v2 _. apply kept_json. }
  apply kept_if; intros _.
  { apply Hb. eapply kept_bind; [apply kept_any|]. intros v _. apply kept_json. }
  route as [[i c]|]; [|by apply kept_ret].
  apply Hb. eapply kept_bind; [apply kept_any|]. intros v _. apply kept_json.
Qed.

Lemma with_ids_kept items : forall out, Forall fine items -> Forall fine out -> kept (Forall fine) (with_ids items out).
Proof.
  induction items as [|item items IH]; intros out Hi Ho; cbn [with_ids]; [by apply kept_ret|]. apply Forall_cons in Hi as [H1 H2].
  eapply (kept_bind fine).
  - apply kept_if; intros _; [|by apply kept_ret]. eapply kept_bind; [apply kept_id|]. intros i _. by apply kept_set.
  - intros v Hv. eapply (kept_bind (Forall fine)).
    + apply kept_lift. intros x [_ ->]%push_Ok. apply Forall_app. split; [done|by constructor].
    + intros o2 Ho2. by apply IH.
Qed.

Lemma normalize_kept c v : fine v -> kept fine (normalize_flow_ids c v).
Proof.
  intros Hv. unfold normalize_flow_ids. apply kept_if; intros _; [by apply kept_ret|].
  eapply kept_bind; [apply with_ids_kept; [by apply uniq_elems|constructor]|]. intros nodes Hn.
  eapply kept_bind; [apply kept_set; [done|by apply uniq_array]|]. intros v2 Hv2.
  eapply kept_bind; [apply with_ids_kept; [by apply uniq_elems|constructor]|]. intros edges He. apply kept_set; [done|by apply uniq_array].
Qed.

Lemma create_kept c r : kept (fun _ => True) (create_record c r).
Proof.
  unfold create_record. eapply kept_bind; [apply kept_body|]. intros body Hb. eapply kept_bind; [apply kept_id|]. intros i _.
  eapply kept_bind; [by apply kept_set|]. intros b1 H1. eapply (kept_bind fine).
  { apply kept_if; intros _; [|by apply kept_ret]. apply kept_read. intros s x Hs H. eauto using scene_incoming_fine. }
  intros b2 H2. eapply (kept_bind fine).
  { apply kept_if; intros _; [|by apply kept_ret]. apply kept_read. intros s x Hs H. eauto using flow_convert_fine. }
  intros b3 H3. eapply kept_bind; [by apply normalize_kept|]. intros b4 H4. eapply kept_bind; [by apply kept_put|]. intros _ _. apply kept_show.
Qed.

Lemma update_kept c i r : kept (fun _ => True) (update_record c i r).
Proof.
  unfold update_record. eapply kept_bind; [apply kept_body|]. intros body Hb. eapply (kept_bind (fun _ => True)).
  { apply kept_if; intros _; [|by apply kept_ret]. unfold rename_scene. eapply kept_bind; [apply kept_record|]. intros d Hd.
    destruct (get body "name") as [nm|] eqn:En; [|by apply kept_ret]. apply kept_if; intros _; [|by apply kept_ret].
    eapply kept_bind; [apply kept_record|]. intros sc Hsc. eapply kept_bind; [apply kept_set; [done|eauto using fine_get]|]. intros v Hv. by apply kept_put. }
  intros _ _. eapply (kept_bind fine); [apply kept_read; intros s x Hs H; eauto using edited_fine|]. intros v Hv.
  eapply kept_bind; [by apply normalize_kept|]. intros v2 Hv2. eapply (kept_bind (fun _ => True)); [by apply kept_lift|]. intros rev _.
  eapply kept_bind; [by apply kept_put|]. intros _ _. apply kept_if; intros _; [apply kept_device|apply kept_show].
Qed.

Lemma fail_kept {X} (a : Result X) : kept (fun _ => True) (liftW a).
Proof. by apply kept_lift. Qed.

Lemma done_kept : kept (fun _ => True) done.
Proof. apply kept_json. Qed.

Lemma collection_kept routes m r : kept (fun _ => True) (collection_routes routes m r).
Proof.
  induction routes as [|[[p c] k] routes IH]; cbn [collection_routes]; [apply fail_kept|]. apply kept_if; intros _.
  - unfold collection_request. apply kept_if; intros _; [apply kept_any|]. apply kept_if; intros _; [apply create_kept|apply fail_kept].
  - destruct (_ ≫= segment) as [i|]; [|done]. unfold record_request. apply kept_if; intros _.
    { apply kept_if; intros _; [apply kept_device|apply kept_show]. }
    apply kept_if; intros _.
    { apply kept_if; intros _; [apply fail_kept|]. eapply kept_bind; [by apply (kept_op (OpDelete c i))|]. intros _ _. apply done_kept. }
    apply kept_if; intros _; [apply update_kept|apply fail_kept].
Qed.

Lemma update_fields_fine patch : forall v, fine v -> fine (Units.update_fields patch v).2.
Proof.
  induction patch as [|[q w] patch IH]; intros v Hv; cbn; [done|]. destruct (as_str w); [|done]. destruct (negb _); [done|].
  destruct (set v q _) as [v'|] eqn:Es; [|done]. apply IH. exact (fine_set _ _ _ _ Es Hv eq_refl).
Qed.

Lemma updated_system_fine store body v : store_ok store -> fine body -> updated_system body store = Ok v -> fine v.
Proof.
  unfold updated_system. intros Hs Hb H. set (sy := copy _) in H. assert (fine sy) as Hsy.
  { unfold sy, copy. apply fine_default; [done|]. intros w Hw. eapply fine_get; [|exact Hw]. apply (do_uniq _ (so_doc _ Hs)). }
  step_ok H. assert (fine a) as Ha.
  { destruct (get body "statistics") as [w|] eqn:Eg; [|by injection E0 as <-]. destruct (negb _); [done|]. eapply fine_set; [exact E0|done|eauto using fine_get]. }
  destruct (get body "units") as [patch|]; [|by injection H as <-].
  destruct (Units.update _ patch) as [[u|] units] eqn:Eu; [|done]. eapply fine_set; [exact H|done|].
  unfold Units.update in Eu. destruct (as_object patch) as [o|]; [|done].
  assert (fine (default object (get a "units"))) as Hd by (apply fine_default; [done|]; intros w Hw; eauto using fine_get).
  pose proof (update_fields_fine o _ Hd) as Hu. by rewrite Eu in Hu.
Qed.

Lemma write_kept m r : kept (fun _ => True) (write_routes m r).
Proof.
  unfold write_routes. apply kept_if; intros _.
  { unfold client_log. eapply kept_bind; [apply kept_body|]. intros b _. cbv zeta. do 3 (apply kept_if; intros _; [apply fail_kept|]).
    eapply kept_bind; [apply kept_log|]. intros _ _. apply done_kept. }
  apply kept_if; intros _.
  { unfold update_system. eapply kept_bind; [apply kept_body|]. intros b Hb.
    eapply (kept_bind fine); [apply kept_read; intros s x Hs H; eauto using updated_system_fine|]. intros v Hv.
    eapply kept_bind; [by apply (kept_op (OpSystem v))|]. intros _ _. eapply kept_bind; [apply kept_any|]. intros w _. apply kept_json. }
  apply kept_if; intros _; [|apply collection_kept].
  unfold order_devices. eapply kept_bind; [apply kept_body|]. intros b _. eapply (kept_bind (fun _ => True)); [by apply kept_lift|]. intros l _.
  eapply kept_bind; [by apply (kept_op (OpReorder (text b "groupId") l))|]. intros _ _. apply done_kept.
Qed.

Lemma app_kept m r w : app_routes m r = Some w -> kept (fun _ => True) w.
Proof.
  unfold app_routes. destruct (_ ≫= _) as [[i t]|]; [|done]. destruct (strip_prefix "setting/" t) as [key|].
  - destruct (negb _); [|done]. intros [= <-]. unfold app_setting. apply kept_if; intros _.
    { eapply kept_bind; [apply kept_body|]. intros b Hb. eapply (kept_bind fine).
      - apply kept_lift. intros x H. destruct (get b "value") as [v|] eqn:Eg; [|done]. injection H as <-. eauto using fine_get.
      - intros v Hv. eapply kept_bind; [apply (kept_op (OpSetting i key (Some v))); by intros w0 [= <-]|]. intros _ _. apply done_kept. }
    apply kept_if; intros _; [|apply fail_kept]. eapply kept_bind; [by apply (kept_op (OpSetting i key None))|]. intros _ _. apply done_kept.
  - destruct (_ && _); [|done]. intros [= <-]. unfold enable_app. eapply kept_bind; [apply kept_record|]. intros a Ha.
    apply kept_if; intros _; [apply fail_kept|]. eapply kept_bind; [by apply kept_set|]. intros v Hv.
    eapply kept_bind; [by apply kept_put|]. intros _ _. apply done_kept.
Qed.

Lemma dispatch_kept r : kept (fun _ => True) (dispatch r).
Proof.
  unfold dispatch. eapply kept_bind; [apply manager_kept|]. intros [a|] _; [by apply kept_ret|].
  cbv zeta. apply kept_if; intros _; [apply kept_json|].
  assert (kept (fun _ => True) (match app_routes (read_method r) r with Some m => m | None => write_routes (read_method r) r end)) as Hw.
  { destruct (app_routes _ _) as [m|] eqn:Ea; [by eapply app_kept|apply write_kept]. }
  apply kept_if; intros _; [|exact Hw]. intros s x s' Hs H. destruct (read_route r s.1) as [a|]; [injection H as <- <-; by split|].
  by apply (Hw s x s').
Qed.

End Web.

(** ** What a browser may do *)

Section Access.
Context {HK : Crypto} {HU : Interface} {St : Type} {HS : Storage St} {E : Type} {HE : Environment E}.
Implicit Types (r : Request) (s : Store St * E) (w : WebServe.Web).

Definition READING : list string := ["GET"; "HEAD"; "OPTIONS"]%string.

(** The cookie has a part with the proof of a session. *)
Definition holds_session w (cookie : string) : Prop :=
  exists part proof, part ∈ split_text 59 cookie /\ trim part = ("stulp-session=" ++ proof)%string
  /\ ct_eq (as_bytes proof) (as_bytes (w_proof w)) = true.

(** The page that sends the request is unnamed or of the host that it is sent to. *)
Definition own_page r : Prop :=
  r_origin r = EmptyString \/ r_origin r = ("https://" ++ r_host r)%string \/ r_origin r = ("http://" ++ r_host r)%string.

Definition attach_secret (d : Document) : string := text (default object (get (root d) "system")) "attachSecret".

(** The token of an app is read while there is no secret yet. *)
Definition first_token r s s' : Prop :=
  (exists app, r_path r = ("/api/stulp/attach-token/" ++ app)%string)
  /\ attach_secret (document s.1) = EmptyString
  /\ forall key, key <> "system"%string -> get (root (document s'.1)) key = get (root (document s.1)) key.

(** The status of an error. *)
Inductive status_of : Error -> Z -> Prop :=
| status_missing m : status_of (Missing m) 404
| status_changed : status_of Changed 409
| status_conflict m : status_of (Conflict m) 409
| status_storage : status_of EStorage 503
| status_other e : (forall m, e <> Missing m) -> e <> Changed -> (forall m, e <> Conflict m) -> e <> EStorage -> status_of e 400.

(** The answer with an error, as an object with its text. *)
Definition refusal (code : Z) (message : string) (x : Response) : Prop :=
  status x = code /\ cookie x = None /\ exists t,
    write (VObject [("error"%string, VString message); ("error_description"%string, VString message)]) = Ok t /\ body x = Owned t.

(** The request reaches the routes. *)
Definition admitted w r : Prop :=
  opens_session w r = false /\ (is_public r = true \/ authenticated w r = true) /\ cross_origin r = false.

Inductive answers w r s : Response -> Store St * E -> Prop :=
| answer_page x : opens_session w r = true -> status x = 200 ->
    cookie x = Some ("stulp-session=" ++ w_proof w ++ "; Path=/; HttpOnly; SameSite=Strict; Max-Age=31536000")%string ->
    answers w r s x s
| answer_stranger x : opens_session w r = false -> is_public r = false -> authenticated w r = false ->
    refusal (if starts_with "/api/" (r_path r) then 401 else 404) "open /<key> before using Stulp" x -> answers w r s x s
| answer_foreign x : cross_origin r = true -> refusal 403 "cross-origin write refused" x -> answers w r s x s
| answer_asset x : admitted w r -> asset (r_path r) = Some x -> answers w r s x s
| answer_route x s' : admitted w r -> dispatch r s = (Ok x, s') -> answers w r s x s'
| answer_failure e code x s' : admitted w r -> dispatch r s = (Err e, s') -> status_of e code ->
    refusal code (error_text e) x -> answers w r s x s'.

Lemma error_status_spec e : status_of e (error_status e).
Proof. destruct e; by constructor. Qed.

Lemma refusal_made code m : exists x, Response_error code m = Ok x /\ refusal code m x.
Proof.
  unfold Response_error, Response_json, fields. destruct (write_strings [("error"%string, m); ("error_description"%string, m)]) as (t & Ht).
  cbn [map fst snd] in Ht. rewrite Ht. eexists. split; [reflexivity|]. split_and!; [done..|by exists t].
Qed.

Lemma split_once_eq c x a b : Schedule.split_once c x = Some (a, b) -> x = (a ++ String c b)%string.
Proof.
  revert a b. induction x as [|d x IH]; intros a b H; cbn [Schedule.split_once] in H; [done|].
  destruct (Ascii.eqb d c) eqn:Ed; [apply Ascii.eqb_eq in Ed as ->; by injection H as <- <-|].
  destruct (Schedule.split_once c x) as [[u v]|] eqn:Es; [|done]. injection H as <- <-. by rewrite (IH u v eq_refl).
Qed.

Lemma has_cookie_spec w cookie : has_cookie w cookie = true -> holds_session w cookie.
Proof.
  unfold has_cookie. intros (p & Hin & Hp)%existsb_exists. apply list_elem_of_In, list_elem_of_omap in Hin as (part & Hin & Hs).
  apply andb_true_iff in Hp as [Hk Hp]. apply String.eqb_eq in Hk. destruct p as [k proof]. cbn [fst snd] in *. subst k.
  exists part, proof. split_and!; [done|by apply split_once_eq in Hs|exact Hp].
Qed.

Lemma authenticated_spec w r : authenticated w r = true -> w_token w = EmptyString \/ holds_session w (r_cookie r).
Proof. intros [H|H]%orb_true_iff; [left; by destruct (w_token w)|right; by apply has_cookie_spec]. Qed.

Lemma one_of_spec l x : one_of l x = true <-> x ∈ l.
Proof.
  unfold one_of. rewrite existsb_exists. split.
  - intros (y & Hy & ->%String.eqb_eq). by apply list_elem_of_In.
  - intros Hx. exists x. split; [by apply list_elem_of_In|apply String.eqb_refl].
Qed.

Lemma strip_prefix_eq p (s : string) rest : strip_prefix p s = Some rest -> s = (p ++ rest)%string.
Proof.
  unfold strip_prefix. destruct (String.prefix p s) eqn:Ep; [|done]. intros [= <-]. revert s Ep. induction p as [|c p IH]; intros s Ep.
  - change ("" ++ ?x)%string with x. cbn. by rewrite Nat.sub_0_r, substring_all.
  - destruct s as [|d s]; [done|]. cbn [String.prefix] in Ep. destruct (ascii_dec c d) as [->|]; [|done].
    change (String d p ++ ?x)%string with (String d (p ++ x)). f_equal. exact (IH s Ep).
Qed.

Lemma origin_host_spec r : origin_host r = Some (r_host r) -> own_page r.
Proof.
  unfold origin_host, own_page. destruct (strip_prefix "https://" (r_origin r)) as [h|] eqn:Eh.
  - intros [= <-]. right; left. by apply strip_prefix_eq.
  - intros H. right; right. by apply strip_prefix_eq.
Qed.

Lemma cross_origin_spec r : cross_origin r = false -> r_method r ∈ READING \/ r_method r ∉ READING /\ own_page r.
Proof.
  unfold cross_origin. destruct (one_of _ _) eqn:Eo; [left; by apply one_of_spec in Eo|].
  intros H. right. split; [intros Hin; apply one_of_spec in Hin; unfold READING in Hin; congruence|]. cbn [negb andb] in H.
  destruct (r_origin r) eqn:Er; [left; done|]. cbn [is_empty negb andb] in H. apply negb_false_iff, bool_decide_eq_true in H.
  by apply origin_host_spec.
Qed.

(** What the system settings of a store are saved to. *)
Lemma system_document v (st : Store St) x st' : Store.system v st = (x, st') ->
  forall key, key <> "system"%string -> get (root (document st')) key = get (root (document st)) key.
Proof.
  unfold Store.system. rewrite bind_get, bind_lift. intros H key Hk. destruct (prepare_system st v) as [[c e]|] eqn:Ep; [|by injection H as _ <-].
  assert (get (root c) key = get (root (document st)) key) as Hc.
  { unfold prepare_system in Ep. do 3 step_ok Ep. injection Ep as <- _. apply doc_set_Ok in E1.
    apply (get_set_ne _ _ _ _ _ E1). congruence. }
  unfold bindM in H. unfold commit, bindM in H. destruct (save c st) as [y st1] eqn:Es.
  apply save_spec in Es as [(e' & -> & Hst & _)|(-> & bs & st2 & _ & _ & ->)]; cbn in H; [injection H as _ <-; by rewrite Hst|].
  unfold modifyM in H. injection H as _ <-. by destruct (statistics_enabled _).
Qed.

(** Two steps leave alone what each of them does. *)
Lemma bindW_through {X Y} (R : Store St * E -> Prop) (m : WebApi.W (St := St) (E := E) X) (k : X -> WebApi.W Y) s :
  R (m s).2 -> (forall x s1, R s1 -> R (k x s1).2) -> R (bindW m k s).2.
Proof. unfold bindW. destruct (m s) as [[x|e] s1]; cbn [snd]; auto. Qed.

Lemma attach_token_changes (app : string) s :
  let s' := (attach_token app s).2 in
  s' = s \/ attach_secret (document s.1) = EmptyString
    /\ forall key, key <> "system"%string -> get (root (document s'.1)) key = get (root (document s.1)) key.
Proof.
  cbv zeta. unfold attach_token. set (rest := fun system : Value => bindW (liftW (Token.token _ _ _ app)) _).
  assert (forall system s1, (rest system s1).2 = s1) as Hrest.
  { intros system s1. unfold rest. apply bindW_reads; [done|]. intros tk. by apply bindW_reads. }
  destruct (is_empty (attach_secret (document s.1))) eqn:Ee; [right|left].
  2:{ unfold bindW at 1, readW at 1. cbv beta iota. fold (attach_secret (document s.1)). rewrite Ee. by apply bindW_reads. }
  split; [by destruct (attach_secret (document s.1))|].
  set (R := fun s1 : Store St * E => forall key, key <> "system"%string -> get (root (document s1.1)) key = get (root (document s.1)) key).
  assert (forall s1, R s1 -> R (idW s1).2) as Hid.
  { intros s1 H1. unfold idW. by destruct (env_id s1.2). }
  apply (bindW_through R); [done|]. intros system s0 H0. apply (bindW_through R); [|intros v s1 H1; by rewrite Hrest].
  destruct (is_empty (text system "attachSecret")); [|exact H0]. apply (bindW_through R); [by apply Hid|]. intros a s1 H1. apply (bindW_through R); [by apply Hid|]. intros b s2 H2.
  apply (bindW_through R); [done|]. intros v s3 H3. apply (bindW_through R); [|by intros ? ?].
  unfold storeW. destruct (Store.system v s3.1) as [y st] eqn:Es. intros key Hk. cbn [snd fst].
  rewrite (system_document _ _ _ _ Es key Hk). by apply H3.
Qed.

Lemma options_read r s : r_method r = "OPTIONS"%string -> (dispatch r s).2 = s.
Proof.
  intros Hm. unfold dispatch. apply bindW_reads.
  - unfold manager_route, read_method. rewrite Hm. cbn [String.eqb Ascii.eqb Bool.eqb andb]. done.
  - intros [a|]; [done|]. unfold read_method. rewrite Hm. done.
Qed.

Lemma attaches_spec r s : (read_method r =? "GET")%string = true -> attaches r = true ->
  exists app, r_path r = ("/api/stulp/attach-token/" ++ app)%string /\ (dispatch r s).2 = (attach_token app s).2.
Proof.
  unfold attaches. intros Hg Ha. rewrite Hg in Ha. cbn [andb] in Ha. apply bool_decide_eq_true in Ha as [app Ha].
  exists app. split.
  - destruct (strip_prefix _ (r_path r)) as [rest|] eqn:Ep; [|done]. cbn [mbind option_bind] in Ha. unfold segment in Ha.
    destruct (_ && _) in Ha; [|done]. injection Ha as <-. by apply strip_prefix_eq.
  - unfold dispatch, manager_route. cbv zeta. rewrite Hg, Ha. unfold bindW, retW. by destruct (attach_token app s) as [[x|e] s1].
Qed.

(** A reading request changes something only when it makes the secret. *)
Lemma reading_changes_token r s : r_method r ∈ READING -> (dispatch r s).2 <> s -> first_token r s (dispatch r s).2.
Proof.
  intros Hr Hne. assert (r_method r = "OPTIONS"%string \/ (read_method r =? "GET")%string = true) as [Hm|Hg].
  { unfold read_method. unfold READING in Hr. rewrite !elem_of_cons, elem_of_nil in Hr. destruct Hr as [->|[->|[->|[]]]]; auto. }
  - by rewrite options_read in Hne.
  - destruct (attaches r) eqn:Ha; [|by rewrite dispatch_reads in Hne].
    destruct (attaches_spec r s Hg Ha) as (app & Hp & Hd). rewrite Hd in Hne |- *.
    destruct (attach_token_changes app s) as [Hs|(H1 & H2)]; [by rewrite Hs in Hne|]. split_and!; [by exists app|done|done].
Qed.

Context (mcp_decode : Request -> Result (option Response)).

(** A request that changes anything passed every check and reached the routes. *)
Lemma changing_request w r s s' a : handle mcp_decode w r s = (a, s') -> s' <> s ->
  authenticated w r = true /\ cross_origin r = false /\ s' = (dispatch r s).2.
Proof.
  intros H Hne. unfold handle in H. destruct (starts_with "/mcp/" (r_path r)); [by injection H as _ <-|].
  destruct (opens_session w r); [by injection H as _ <-|].
  destruct (negb (is_public r) && negb (authenticated w r)) eqn:Ea; [by injection H as _ <-|].
  destruct (cross_origin r); [by injection H as _ <-|]. destruct (if one_of _ _ then _ else _); [by injection H as _ <-|].
  assert (s' = (dispatch r s).2) as -> by (destruct (dispatch r s) as [[x|x] s1]; by injection H as _ <-).
  destruct (is_public r) eqn:Hp; [|by destruct (authenticated w r)].
  rewrite dispatch_foreign in Hne by (by apply public_is_foreign). done.
Qed.

End Access.

(** ** The properties *)

Section Properties.
Context {HK : Crypto} {HU : Interface} {St : Type} {HS : Storage St} {E : Type} {HE : Environment E}.
Context (mcp_decode : Request -> Result (option Response)) (w : WebServe.Web) (r : Request).



(** C29: Whatever the browser asks, the store stays valid and the request is answered: after any
    request, accepted or refused half way, the invariant of the store holds, and every request
    but a message of MCP gets a response: the page with the cookie, the refusal of a stranger
    (401 or 404) or of a foreign page (403), an asset, the answer of the route, or the error of
    the route with its text and its status: 404 for something missing, 409 for a conflict or a
    changed revision, 503 for the storage, 400 for everything else. *)
Theorem every_request_keeps_the_store_valid (s s' : Store St * E) (a : Result Response) :
  store_ok s.1 -> handle mcp_decode w r s = (a, s') ->
  store_ok s'.1 /\ (starts_with "/mcp/" (r_path r) = false -> exists x, a = Ok x /\ answers w r s x s').
Proof.
  intros Hs H. unfold handle in H. destruct (starts_with "/mcp/" (r_path r)); [by injection H as <- <-|].
  destruct (opens_session w r) eqn:Eo.
  { injection H as <- <-. split; [done|]. intros _. eexists. split; [reflexivity|]. by apply answer_page. }
  destruct (negb (is_public r) && negb (authenticated w r)) eqn:Ea.
  { injection H as <- <-. split; [done|]. intros _. apply andb_true_iff in Ea as [Hp Hc].
    destruct (refusal_made (if starts_with "/api/" (r_path r) then 401 else 404) "open /<key> before using Stulp") as (x & -> & Hx).
    exists x. split; [done|]. apply answer_stranger; [done|by destruct (is_public r)|by destruct (authenticated w r)|done]. }
  destruct (cross_origin r) eqn:Ec.
  { injection H as <- <-. split; [done|]. intros _. destruct (refusal_made 403 "cross-origin write refused") as (x & -> & Hx).
    exists x. split; [done|]. by apply answer_foreign. }
  assert (admitted w r) as Had by (split_and!; [done|destruct (is_public r), (authenticated w r); cbn in Ea; auto|done]).
  destruct (if one_of _ _ then _ else _) as [x|] eqn:Ef.
  { injection H as <- <-. split; [done|]. intros _. exists x. split; [done|]. destruct (one_of _ _) in Ef; [|done]. by apply answer_asset. }
  destruct (dispatch r s) as [x s1] eqn:Ed. destruct (dispatch_kept r s x s1 Hs Ed) as [Hs1 _].
  destruct x as [x|x]; injection H as <- <-; (split; [done|]); intros _.
  - exists x. split; [done|]. by apply answer_route.
  - destruct (refusal_made (error_status x) (error_text x)) as (y & -> & Hy). exists y. split; [done|].
    eapply answer_failure; [done|exact Ed|apply error_status_spec|done].
Qed.

End Properties.

(** ** A house with a key *)

#[local] Instance toy_crypto : Crypto := {
  hmac := Token.toy_hmac; sha256 := fun m => List.firstn 4 m; ct_eq := bytes_eqb; url_encode := Token.toy_encode;
  url_decode := fun _ => Err Token.Base64Other
}.
#[local] Instance toy_interface : Interface := fun file => as_bytes file.
#[local] Instance clockwork : Environment Z := {
  env_id := fun n => (Ok (show n), n + 1); env_now := fun _ => Ok "2024-01-01T00:00:00Z"; env_log := fun _ _ _ n => n
}.

Definition no_mcp (r : Request) : Result (option Response) := Ok None.
Definition keyed_web : WebServe.Web := Web_new "key".
Definition house : Store Memory * Z := (sample, 1).

Definition ask (method path cookie origin body : string) : Request :=
  mk_request method path "" cookie "stulp.local" origin object (quoted body).

Definition session : string := Eval vm_compute in ("theme=dark; stulp-session=" ++ w_proof keyed_web)%string.


Definition rename_lamp : Request :=
  ask "PUT" "/api/manager/devices/device/lamp" session "https://stulp.local" "{'name':'Reading lamp'}".
Definition renamed_house : Result Response * (Store Memory * Z) := Eval vm_compute in handle no_mcp keyed_web rename_lamp house.

Lemma renamed_house_reached : handle no_mcp keyed_web rename_lamp house = (renamed_house.1, renamed_house.2).
Proof. vm_compute. reflexivity. Qed.


Lemma every_request_keeps_the_store_valid_witness :
  store_ok renamed_house.2.1 /\ exists x, renamed_house.1 = Ok x /\ answers keyed_web rename_lamp house x renamed_house.2.
Proof.
  destruct (every_request_keeps_the_store_valid no_mcp keyed_web rename_lamp house renamed_house.2 renamed_house.1 sample_ok renamed_house_reached)
    as [H1 H2].
  split; [exact H1|]. apply H2. reflexivity.
Defined.

(** A refused update of the device of a scene is half done: with a new name and a group that
    does not exist the browser gets 404, and the scene and its device have the new name. *)
Theorem refused_rename_is_half_done :
  let '(a, s) := handle no_mcp keyed_web
    (ask "PUT" "/api/manager/devices/device/scene:film" session "" "{'name':'Bioscoop','groupId':'none'}") house in
  (status <$> match a with Ok x => Some x | Err _ => None end) = Some 404
  /\ match record (document s.1) "scenes" "film" with Ok v => text v "name" = "Bioscoop"%string | Err _ => False end.
Proof. vm_compute. split; reflexivity. Qed.
