(* ===== verification/Cards.v ===== *)
(** * Cards: the catalogue of the Flow editor

    Models [cards.rs] and [filter.rs] of [crates/web/src]: the cards of the manifests with the
    listeners that their apps registered, the cards that every capability of every device gives,
    and which devices a card may be used with.  The cards that are built in are data of the
    repository and a parameter.  The table [belongs] says which cards a capability has;
    [decides], [commands] and [starts] say what they mean. *)

From Stdlib Require Import ZArith Lia Ascii String.
From S2P Require Import Prelude Text Errors Slots Float Value Document Stats Store Web Capability WebServe.
From S2P Require Manifest Schedule Templates Runs Triggers Stability StoreDoc StoreProps.

Local Open Scope Z_scope.

Definition MAX_CARDS : Z := 8192.

(** ** Filters of device arguments *)

Definition blank (s : string) : bool := is_empty (trim s).

(** [s.rsplit(c).next()] *)
Definition after_last (c : ascii) (s : string) : string := match split_last c s with Some (_, b) => b | None => s end.

Definition condition (d : Value) (key : string) (values : list string) : bool :=
  if forallb blank values then true
  else
    let has value := existsb (fun v => (trim v =? value)%string) values in
    let key := trim key in
    if (key =? "app_id")%string then has (text d "appId")
    else if (key =? "driver_id")%string then has (after_last ":" (text d "driverId"))
    else if (key =? "class")%string || (key =? "virtualClass")%string then has (text d "class")
    else if (key =? "capabilities")%string then
      existsb (fun v => has v || has (before_first "." v)) (omap as_str (array d "capabilities"))
    else true.

(** One alternative that fits is enough. *)
Definition alternatives (d : Value) (key : string) (values : list string) : bool :=
  let given := List.filter (fun v => negb (blank v)) values in
  bool_decide (given = []) || existsb (fun v => condition d key [v]) given.

Definition text_condition (d : Value) (key values : string) : bool := alternatives d key (split_text 124 values).

(** [s.split('&').filter_map(|s| s.split_once('='))] *)
Definition pairs_of (s : string) : list (string * string) := omap (Schedule.split_once "=") (split_text 38 s).

Definition matches (d filter : Value) : bool :=
  match filter with
  | VString s =>
      let pairs := pairs_of s in
      forallb (fun p => alternatives d p.1 (List.concat (map (fun q => if (trim q.1 =? trim p.1)%string then split_text 124 q.2 else []) pairs))) pairs
  | VObject o =>
      forallb (fun p => match p.2 with
                        | VString s => text_condition d p.1 s
                        | VArray a => alternatives d p.1 (omap as_str a)
                        | _ => true
                        end) o
  | _ => true
  end.

(** ** Lists of cards *)

Record Cards : Type := mk_cards { c_triggers : list Value; c_conditions : list Value; c_actions : list Value }.

Definition push_card (out : Cards) (kind : string) (card : Value) : Result Cards :=
  if (kind =? "triggers")%string then l ← push (c_triggers out) card MAX_CARDS; Ok (mk_cards l (c_conditions out) (c_actions out))
  else if (kind =? "conditions")%string then l ← push (c_conditions out) card MAX_CARDS; Ok (mk_cards (c_triggers out) l (c_actions out))
  else l ← push (c_actions out) card MAX_CARDS; Ok (mk_cards (c_triggers out) (c_conditions out) l).

Definition KINDS : list (string * string) := [("triggers", "trigger"); ("conditions", "condition"); ("actions", "action")].

(** The devices a card may be used with. *)
Definition scope (devices : list Value) (card : Value) : Result Value :=
  match find (fun a => (text a "type" =? "device")%string) (array card "args") with
  | None => set card "scope" (VString "app")
  | Some arg =>
      ids ← push_all (fun d => Ok (VString (text d "id"))) 4096 (List.filter (fun d => matches d (get_null arg "filter")) devices) [];
      card ← set card "scope" (VString "device");
      card ← set card "deviceArgument" (VString (text arg "name"));
      set card "deviceIds" (VArray ids)
  end.

Fixpoint push_cards (prepare : Value -> Result Value) (kind : string) (cards : list Value) (out : Cards) : Result Cards :=
  match cards with
  | [] => Ok out
  | card :: cards => card ← prepare card; out ← push_card out kind card; push_cards prepare kind cards out
  end.

(** ** The cards of a capability *)

Record Cap : Type := mk_cap {
  cap_id : string; cap_title : string; cap_def : Value; cap_read : list Value; cap_write : list Value; cap_stateful : bool
}.

Definition card_argument (name type title : string) : Value :=
  fields [("name", VString name); ("type", VString type); ("title", VString title)].

Definition SECONDS : Value :=
  fields [("name", VString "seconds"); ("type", VString "number"); ("title", VString "Seconden"); ("min", VNumber (Uint 1));
          ("max", VNumber (Uint 86400)); ("step", VNumber (Uint 1))].

(** One card: its kind, the end of its id, its title and an argument besides the device. *)
Definition Spec : Type := string * string * string * option Value.

Definition boolean_texts (c : Cap) : list (string * string) :=
  if (before_first "." (cap_id c) =? "button")%string
  then [("on", " werd ingedrukt"); ("off", " werd losgelaten"); ("on_for", " bleef ingedrukt")]
  else if starts_with "alarm_" (cap_id c)
  then [("on", " ging af"); ("off", " is voorbij"); ("on_for", " bleef actief"); ("off_for", " bleef rustig")]
  else [("on", " werd aan"); ("off", " werd uit"); ("on_for", " bleef aan"); ("off_for", " bleef uit")].

Definition boolean_cards (c : Cap) (title : string) (value : Value) : list Spec :=
  let button := (before_first "." (cap_id c) =? "button")%string in
  map (fun t => ("triggers", t.1, title ++ t.2, if ends_with "_for" t.1 then Some SECONDS else None)%string) (boolean_texts c)
  ++ (if button then [] else [("conditions", "is", title ++ " is", Some value)%string])
  ++ [("conditions", "is_on", title ++ (if button then " is ingedrukt" else " is aan"), None)%string;
      ("conditions", "is_off", title ++ (if button then " is losgelaten" else " is uit"), None)%string].

Definition number_cards (title : string) (value : Value) : list Spec :=
  [("triggers", "changed", title ++ " is veranderd", None)%string;
   ("triggers", "rose_above", title ++ " kwam boven", Some value)%string;
   ("triggers", "fell_below", title ++ " kwam onder", Some value)%string;
   ("conditions", "is", title ++ " is gelijk aan", Some value)%string;
   ("conditions", "above", title ++ " is hoger dan", Some value)%string;
   ("conditions", "below", title ++ " is lager dan", Some value)%string].

Definition other_cards (c : Cap) (title : string) (value : Value) : list Spec :=
  let enumerated := negb (bool_decide (array (cap_def c) "values" = [])) in
  [("triggers", "changed", title ++ " is veranderd", None)%string]
  ++ (if enumerated then [("triggers", "became", title ++ " werd", Some value)%string] else [])
  ++ [("conditions", "is", title ++ (if enumerated then " is" else " is gelijk aan"), Some value)%string].

Definition action_cards (c : Cap) (title : string) (value : Value) : list Spec :=
  if negb (cap_stateful c) then [("actions", "run", title ++ " uitvoeren", None)%string]
  else
    [("actions", "set", "Zet " ++ title, Some value)%string]
    ++ (if (text (cap_def c) "type" =? "boolean")%string
        then [("actions", "turn_on", "Zet " ++ title ++ " aan", None)%string;
              ("actions", "turn_off", "Zet " ++ title ++ " uit", None)%string;
              ("actions", "toggle", "Wissel " ++ title, None)%string]
        else []).

Definition specs (c : Cap) (title : string) (value : Value) : list Spec :=
  let type := text (cap_def c) "type" in
  (if bool_decide (cap_read c = []) then []
   else if (type =? "boolean")%string then boolean_cards c title value
   else if (type =? "number")%string then number_cards title value
   else other_cards c title value)
  ++ (if bool_decide (cap_write c = []) then [] else action_cards c title value).

(** The argument that holds the value of a capability. *)
Definition value_argument (def : Value) : Result Value :=
  apply_keys ["min"; "max"; "step"; "units"; "values"] def (card_argument "value" "capability-value" "Waarde").

Definition tokens_of (def : Value) (suffix : string) : list Value :=
  let type := text def "type" in
  let type := if (type =? "number")%string || (type =? "boolean")%string then type else "string"%string in
  [card_argument "device" "string" "Apparaat"; card_argument "value" type "Nieuwe waarde";
   if ends_with "_for" suffix then card_argument "seconds" "number" "Seconden" else card_argument "oldValue" type "Vorige waarde"].

Definition card_of (c : Cap) (s : Spec) : Result Value :=
  let '(kind, suffix, title, extra) := s in
  let args := card_argument "device" "device" "Apparaat" :: match extra with Some e => [e] | None => [] end in
  let card := fields
    [("appId", VString "stulp"); ("appName", VString "Apparaat");
     ("id", VString ("capability." ++ cap_id c ++ "." ++ suffix));
     ("type", VString (default kind (Templates.strip_suffix "s" kind))); ("title", VString title); ("available", VBool true);
     ("capability", VString (cap_id c)); ("args", VArray args); ("scope", VString "device"); ("deviceArgument", VString "device");
     ("deviceIds", VArray (if (kind =? "actions")%string then cap_write c else cap_read c))] in
  card ← (if (kind =? "triggers")%string then set card "tokens" (VArray (tokens_of (cap_def c) suffix)) else Ok card);
  match extra with
  | Some e => set card "titleFormatted"
                (VString (title ++ if (text e "name" =? "seconds")%string then " gedurende [[seconds]] seconden" else " [[value]]"))
  | None => Ok card
  end.

Fixpoint emit_specs (c : Cap) (l : list Spec) (out : Cards) : Result Cards :=
  match l with
  | [] => Ok out
  | s :: l => card ← card_of c s; out ← push_card out s.1.1.1 card; emit_specs c l out
  end.

Definition emit (c : Cap) (title : string) (out : Cards) : Result Cards :=
  value ← value_argument (cap_def c); emit_specs c (specs c title value) out.

(** ** The capabilities of the devices *)

Section Catalog.
Context {St : Type} {HS : Storage St}.
Implicit Types store : Store St.

Definition readable (def : Value) : bool := boolean def "getable".
Definition writable (def : Value) : bool := boolean def "setable".

Definition push_if (b : bool) (id : string) (l : list Value) : Result (list Value) := if b then push l (VString id) 4096 else Ok l.

(** [capability] of one device joins the one of the others. *)
Definition join_cap (device : string) (def : Value) (c : Cap) : Result Cap :=
  read ← push_if (readable def) device (cap_read c);
  write ← push_if (writable def) device (cap_write c);
  Ok (mk_cap (cap_id c) (cap_title c) (cap_def c) read write (cap_stateful c || (readable def && writable def))).

Fixpoint update_cap (device id : string) (def : Value) (caps : list Cap) : Result (option (list Cap)) :=
  match caps with
  | [] => Ok None
  | c :: caps =>
      if (cap_id c =? id)%string then c ← join_cap device def c; Ok (Some (c :: caps))
      else r ← update_cap device id def caps; Ok (match r with Some caps => Some (c :: caps) | None => None end)
  end.

Definition add_cap store (d : Value) (id : string) (caps : list Cap) : Result (list Cap) :=
  def ← output store d id;
  r ← update_cap (text d "id") id def caps;
  match r with
  | Some caps => Ok caps
  | None =>
      let c := mk_cap id (title id (get_null def "title") (language store)) def [] [] false in
      _ ← push caps c 4096;
      c ← join_cap (text d "id") def c;
      push caps c 4096
  end.

Fixpoint add_caps store (d : Value) (ids : list string) (caps : list Cap) : Result (list Cap) :=
  match ids with
  | [] => Ok caps
  | id :: ids => caps ← add_cap store d id caps; add_caps store d ids caps
  end.

Fixpoint device_caps store (devices : list Value) (caps : list Cap) : Result (list Cap) :=
  match devices with
  | [] => Ok caps
  | d :: devices => caps ← add_caps store d (omap as_str (array d "capabilities")) caps; device_caps store devices caps
  end.

(** A title that another capability has too is told apart by the id. *)
Definition shown_title (before after : list Cap) (c : Cap) : string :=
  if existsb (fun o => (cap_title o =? cap_title c)%string) (before ++ after)
  then (cap_title c ++ " (" ++ cap_id c ++ ")")%string else cap_title c.

Fixpoint emit_caps (before caps : list Cap) (out : Cards) : Result Cards :=
  match caps with
  | [] => Ok out
  | c :: caps => out ← emit c (shown_title before caps c) out; emit_caps (before ++ [c]) caps out
  end.

(** ** The cards of apps *)

Fixpoint show_args store (args : list Value) : Result (list Value) :=
  match args with
  | [] => Ok []
  | arg :: args => arg ← show_units store arg; args ← show_args store args; Ok (arg :: args)
  end.

Definition app_card store (devices : list Value) (app : string) (manifest registrations : Value) (type : string) (c : Value) : Result Value :=
  let cid := text c "id" in
  let lang := language store in
  let registration := default VNull
    (find (fun r => (text r "id" =? cid)%string && (text r "type" =? type)%string) (array registrations "flows")) in
  let actual := if is_null registration then type else text registration "type" in
  args ← (match get_null c "args" with
          | VArray a => a ← show_args store a; Ok (VArray a)
          | v => Ok v
          end);
  registration ← (if is_null registration then Ok registration else remove registration "id");
  scope devices (fields
    [("appId", VString app); ("appName", VString (Manifest.localized (get_null manifest "name") lang)); ("id", VString cid);
     ("type", VString actual); ("title", VString (Manifest.localized (get_null c "title") lang));
     ("titleFormatted", VString (Manifest.localized (get_null c "titleFormatted") lang));
     ("hint", VString (Manifest.localized (get_null c "hint") lang)); ("args", args); ("tokens", get_null c "tokens");
     ("available", VBool ((app_status app store =? "running")%string && ((type =? "trigger")%string || boolean registration "runListener")));
     ("registration", registration)]).

Fixpoint app_kinds store (devices : list Value) (app : string) (manifest registrations : Value) (kinds : list (string * string)) (out : Cards)
  : Result Cards :=
  match kinds with
  | [] => Ok out
  | (kind, type) :: kinds =>
      let cards := List.filter (fun c => negb (is_empty (text c "id"))) (array (get_null manifest "flow") kind) in
      out ← push_cards (app_card store devices app manifest registrations type) kind cards out;
      app_kinds store devices app manifest registrations kinds out
  end.

Fixpoint app_cards store (devices : list Value) (registrations : Value) (apps : list Value) (out : Cards) : Result Cards :=
  match apps with
  | [] => Ok out
  | app :: apps =>
      let id := text app "id" in
      out ← (match manifest_of id store with
             | Some m => app_kinds store devices id m (get_null registrations id) KINDS out
             | None => Ok out
             end);
      app_cards store devices registrations apps out
  end.

(** ** The catalogue *)

Fixpoint builtin_cards (devices : list Value) (builtin : Value) (kinds : list (string * string)) (out : Cards) : Result Cards :=
  match kinds with
  | [] => Ok out
  | (kind, _) :: kinds => out ← push_cards (scope devices) kind (array builtin kind) out; builtin_cards devices builtin kinds out
  end.

Definition all_devices store : Result (list Value) :=
  push_all (fun d => device (text d "id") store) 4096 (records (document store) "devices") [].

(** [catalog]; [data] is [data/cards.json]. *)
Definition catalog (data : list Z) store (registrations : Value) : Result Value :=
  builtin ← json_parse data;
  devices ← all_devices store;
  out ← builtin_cards devices builtin KINDS (mk_cards [] [] []);
  out ← app_cards store devices registrations (records (document store) "apps") out;
  caps ← device_caps store devices [];
  out ← emit_caps [] caps out;
  Ok (fields [("triggers", VArray (c_triggers out)); ("conditions", VArray (c_conditions out)); ("actions", VArray (c_actions out))]).

End Catalog.

(** ** The cards of a capability are understood *)

Lemma split_last_suffix c s suffix : split_last c suffix = None -> split_last c (s ++ String c suffix) = Some (s, suffix).
Proof.
  intros Hn. induction s as [|a s IH].
  - change (EmptyString ++ String c suffix)%string with (String c suffix). cbn. by rewrite Hn, Ascii.eqb_refl.
  - change (String a s ++ String c suffix)%string with (String a (s ++ String c suffix)). cbn. by rewrite IH.
Qed.

Lemma derived_card cap suffix : split_last "." suffix = None -> Runs.derived ("capability." ++ cap ++ "." ++ suffix) = Some (cap, suffix).
Proof. intros Hn. unfold Runs.derived. rewrite strip_prefix_app. cbn. by apply split_last_suffix. Qed.

Section Understood.
Context {St : Type} {HS : Storage St}.
Implicit Types store : Store St.

Lemma device_text_id id store d : device id store = Ok d -> text d "id" = id.
Proof.
  unfold device. destruct (record _ "devices" id) as [r|] eqn:Er; [|done]. cbn [mbind result_bind]. intros H.
  apply StoreDoc.record_Ok, StoreDoc.find_id_Some in Er as [_ Hid].
  match type of H with (mbind _ ?x) = _ => destruct x as [r'|] eqn:E1; [|done] end. cbn [mbind result_bind] in H.
  assert (text r' "id" = text r "id") as Hr.
  { destruct (find _ _) as [[k cache]|]; [|by injection E1 as <-]. destruct (set_all _ _) as [st|]; [|done]. cbn in E1.
    by apply (text_set_ne _ _ "id") in E1. }
  unfold text in *. rewrite (StoreDoc.set_all_get_ne _ _ _ "id" H); [by rewrite Hr|]. cbn. set_solver.
Qed.

(** What a list of devices of a capability promises of each of them. *)
Definition offers store (ok : Value -> Prop) (cap : string) (v : Value) : Prop :=
  exists id dev def, v = VString id /\ device id store = Ok dev /\ cap ∈ omap as_str (array dev "capabilities")
    /\ output store dev cap = Ok def /\ ok def.

Definition cap_sound store (c : Cap) : Prop :=
  Forall (offers store (fun def => readable def = true) (cap_id c)) (cap_read c) /\ Forall (offers store (fun def => writable def = true) (cap_id c)) (cap_write c)
  /\ (cap_stateful c = true -> exists v, offers store (fun def => readable def && writable def = true) (cap_id c) v)
  /\ exists v, offers store (fun def => def = cap_def c) (cap_id c) v.

Lemma push_appends {X} (l : list X) x max l' : push l x max = Ok l' -> l' = l ++ [x].
Proof. unfold push. by case_match; intros [= <-]. Qed.

Lemma push_if_offers store ok b id dev def cap l l' :
  device id store = Ok dev -> cap ∈ omap as_str (array dev "capabilities") -> output store dev cap = Ok def -> (b = true -> ok def) ->
  push_if b id l = Ok l' -> Forall (offers store ok cap) l -> Forall (offers store ok cap) l'.
Proof.
  unfold push_if. intros Hd Hc Ho Hb. destruct b; [|by intros [= <-]]. intros ->%push_appends Hl. specialize (Hb eq_refl). apply Forall_app. split; [done|].
  apply Forall_singleton. by exists id, dev, def.
Qed.

(** The part of [cap_sound] that holds before the first device has joined. *)
Definition cap_made store (c : Cap) : Prop :=
  Forall (offers store (fun def => readable def = true) (cap_id c)) (cap_read c) /\ Forall (offers store (fun def => writable def = true) (cap_id c)) (cap_write c)
  /\ (cap_stateful c = true -> exists v, offers store (fun def => readable def && writable def = true) (cap_id c) v).

Lemma join_cap_sound store dev def c c' :
  device (text dev "id") store = Ok dev -> cap_id c ∈ omap as_str (array dev "capabilities") -> output store dev (cap_id c) = Ok def ->
  join_cap (text dev "id") def c = Ok c' -> cap_made store c -> cap_id c' = cap_id c /\ cap_def c' = cap_def c /\ cap_made store c'.
Proof.
  intros Hd Hc Ho H (Hr & Hw & Hs). unfold join_cap in H. destruct (push_if (readable def) _ _) as [read|] eqn:E1; [|done]. cbn in H.
  destruct (push_if (writable def) _ _) as [write|] eqn:E2; [|done]. injection H as <-. split_and!; [done..|]. split_and!; cbn.
  - by eapply push_if_offers in E1.
  - by eapply push_if_offers in E2.
  - intros [H|H]%orb_true_iff; [by apply Hs|]. exists (VString (text dev "id")), (text dev "id"), dev, def. by split_and!.
Qed.

Lemma cap_sound_made store c : cap_sound store c <-> cap_made store c
  /\ exists v, offers store (fun def => def = cap_def c) (cap_id c) v.
Proof. unfold cap_sound, cap_made. tauto. Qed.

Lemma update_cap_sound store dev id def caps : forall r,
  device (text dev "id") store = Ok dev -> id ∈ omap as_str (array dev "capabilities") -> output store dev id = Ok def ->
  update_cap (text dev "id") id def caps = Ok r -> Forall (cap_sound store) caps -> forall caps', r = Some caps' -> Forall (cap_sound store) caps'.
Proof.
  induction caps as [|c caps IH]; cbn; intros r Hd Hc Ho H HF caps' ->; [done|]. apply Forall_cons in HF as [H1 H2].
  destruct (String.eqb_spec (cap_id c) id) as [<-|].
  - destruct (join_cap _ _ c) as [c'|] eqn:Ej; [|done]. injection H as <-. apply Forall_cons. split; [|done].
    apply cap_sound_made in H1 as [Hm Hv]. destruct (join_cap_sound _ _ _ _ _ Hd Hc Ho Ej Hm) as (Hi & Hdf & Hm').
    apply cap_sound_made. by rewrite Hi, Hdf.
  - destruct (update_cap _ _ _ caps) as [[more|]|] eqn:Eu; try done. injection H as <-. apply Forall_cons. split; [done|]. by eapply IH.
Qed.

Lemma add_cap_sound store dev id caps caps' :
  device (text dev "id") store = Ok dev -> id ∈ omap as_str (array dev "capabilities") ->
  add_cap store dev id caps = Ok caps' -> Forall (cap_sound store) caps -> Forall (cap_sound store) caps'.
Proof.
  intros Hd Hc H HF. unfold add_cap in H. destruct (output store dev id) as [def|] eqn:Ho; [|done]. cbn in H.
  destruct (update_cap _ _ _ _) as [[more|]|] eqn:Eu; [injection H as <-; by eapply update_cap_sound|cbn in H|done].
  destruct (push caps _ 4096) as [l|] eqn:E1 in H; [|done]. cbn in H.
  destruct (join_cap _ _ _) as [c|] eqn:Ej; [|done]. cbn in H. apply push_appends in H as ->. apply Forall_app. split; [done|]. apply Forall_singleton.
  eapply join_cap_sound in Ej as (Hi & Hdf & Hm); [|done..|by split_and!]. apply cap_sound_made. rewrite Hi, Hdf. split; [done|].
  exists (VString (text dev "id")), (text dev "id"), dev, def. by split_and!.
Qed.

Lemma device_caps_sound store devices : forall caps caps',
  Forall (fun d => device (text d "id") store = Ok d) devices -> device_caps store devices caps = Ok caps' ->
  Forall (cap_sound store) caps -> Forall (cap_sound store) caps'.
Proof.
  induction devices as [|d devices IH]; cbn; intros caps caps' HD H HF; [by injection H as <-|]. apply Forall_cons in HD as [Hd HD].
  destruct (add_caps _ _ _ _) as [more|] eqn:Ea; [|done]. eapply IH; [done|exact H|]. clear H IH.
  assert (forall ids caps caps', (forall x, x ∈ ids -> x ∈ omap as_str (array d "capabilities")) -> add_caps store d ids caps = Ok caps' ->
    Forall (cap_sound store) caps -> Forall (cap_sound store) caps') as Hadd; [|eapply Hadd; [|exact Ea|done]; done].
  clear -Hd. induction ids as [|id ids IH]; cbn; intros caps caps' Hi H HF; [by injection H as <-|].
  destruct (add_cap _ _ _ _) as [more|] eqn:Ec; [|done]. cbn in H. eapply IH; [|exact H|]; [set_solver|].
  eapply add_cap_sound; [done| |exact Ec|done]. set_solver.
Qed.

Lemma all_devices_found store devices : all_devices store = Ok devices -> Forall (fun d => device (text d "id") store = Ok d) devices.
Proof.
  unfold all_devices. intros (ys & HF & -> & _)%push_all_Ok. cbn [app]. induction HF as [|x y xs ys Hxy _ IH]; constructor; [|done].
  by rewrite (device_text_id _ _ _ Hxy).
Qed.

Lemma offered store devices caps c : all_devices store = Ok devices -> device_caps store devices [] = Ok caps -> c ∈ caps -> cap_sound store c.
Proof.
  intros Hd Hc Hi. eapply device_caps_sound in Hc; [|by apply all_devices_found|constructor]. by eapply Forall_forall in Hc.
Qed.

(** ** Every device is offered *)

(** The list [caps] offers the capability of a device. *)
Definition served (dev : Value) (id : string) (def : Value) (caps : list Cap) : Prop :=
  exists c, c ∈ caps /\ cap_id c = id
  /\ (readable def = true -> VString (text dev "id") ∈ cap_read c)
  /\ (writable def = true -> VString (text dev "id") ∈ cap_write c)
  /\ (readable def = true -> writable def = true -> cap_stateful c = true).

(** [c'] offers what [c] offers, and perhaps more. *)
Definition grows (c c' : Cap) : Prop :=
  cap_id c' = cap_id c /\ cap_read c ⊆ cap_read c' /\ cap_write c ⊆ cap_write c' /\ (cap_stateful c = true -> cap_stateful c' = true).

Definition extends (caps caps' : list Cap) : Prop := forall c, c ∈ caps -> exists c', c' ∈ caps' /\ grows c c'.

Lemma cap_grows_refl c : grows c c.
Proof. by split_and!. Qed.

Lemma extends_refl caps : extends caps caps.
Proof. intros c H. exists c. split; [done|apply cap_grows_refl]. Qed.

Lemma extends_trans a b c : extends a b -> extends b c -> extends a c.
Proof.
  intros H1 H2 x Hx. destruct (H1 x Hx) as (y & Hy & Hxy). destruct (H2 y Hy) as (z & Hz & Hyz). exists z. split; [done|].
  destruct Hxy as (? & ? & ? & ?), Hyz as (? & ? & ? & ?). split_and!; [congruence|set_solver..|auto].
Qed.

Lemma extends_more caps more : extends caps (caps ++ more).
Proof. intros c Hc. exists c. split; [set_solver|apply cap_grows_refl]. Qed.

Lemma served_extends dev id def caps caps' : served dev id def caps -> extends caps caps' -> served dev id def caps'.
Proof.
  intros (c & Hc & Hi & Hr & Hw & Hs) He. destruct (He c Hc) as (c' & Hc' & Hi' & Hr' & Hw' & Hs'). exists c'.
  split_and!; [done|congruence|set_solver|set_solver|auto].
Qed.

Lemma push_if_grows b id l l' : push_if b id l = Ok l' -> l ⊆ l' /\ (b = true -> VString id ∈ l').
Proof. unfold push_if. destruct b; [intros ->%push_appends; set_solver|by intros [= <-]]. Qed.

Lemma join_cap_serves dev def c c' : join_cap (text dev "id") def c = Ok c' -> grows c c' /\ served dev (cap_id c) def [c'].
Proof.
  unfold join_cap. destruct (push_if (readable def) _ _) as [read|] eqn:E1; [|done]. cbn [mbind result_bind].
  destruct (push_if (writable def) _ _) as [write|] eqn:E2; [|done]. cbn [mbind result_bind]. intros [= <-].
  apply push_if_grows in E1 as [H1 H2], E2 as [H3 H4]. split; [split_and!; cbn; [done..|by intros ->]|].
  eexists. split_and!; [by left|done|done|done|]. cbn. intros -> ->. apply orb_true_r.
Qed.

Lemma update_cap_serves dev id def caps : forall caps',
  update_cap (text dev "id") id def caps = Ok (Some caps') -> extends caps caps' /\ served dev id def caps'.
Proof.
  induction caps as [|c caps IH]; cbn; intros caps' H; [done|]. destruct (String.eqb_spec (cap_id c) id) as [<-|].
  - destruct (join_cap _ _ c) as [c'|] eqn:Ej; [|done]. injection H as <-. apply join_cap_serves in Ej as [Hg Hs]. split.
    + intros x [->|Hx]%elem_of_cons; [exists c'; split; [by left|done]|exists x; split; [by right|apply cap_grows_refl]].
    + eapply served_extends; [exact Hs|]. intros x ->%list_elem_of_singleton. exists c'. split; [by left|apply cap_grows_refl].
  - destruct (update_cap _ _ _ caps) as [[more|]|] eqn:Eu; try done. injection H as <-. destruct (IH more eq_refl) as [He Hs]. split.
    + intros x [->|Hx]%elem_of_cons; [exists c; split; [by left|apply cap_grows_refl]|]. destruct (He x Hx) as (y & Hy & Hg). exists y. split; [by right|done].
    + eapply served_extends; [exact Hs|]. intros x Hx. exists x. split; [by right|apply cap_grows_refl].
Qed.

Lemma add_cap_serves store dev id caps caps' : add_cap store dev id caps = Ok caps' ->
  extends caps caps' /\ exists def, output store dev id = Ok def /\ served dev id def caps'.
Proof.
  unfold add_cap. intros H. destruct (output store dev id) as [def|]; [|done]. cbn in H.
  destruct (update_cap _ _ _ _) as [[more|]|] eqn:Eu; [injection H as <-|cbn in H|done].
  - apply update_cap_serves in Eu as [He Hs]. split; [done|by exists def].
  - destruct (push caps _ 4096) as [l|] in H; [|done]. cbn in H. destruct (join_cap _ _ _) as [c|] eqn:Ej; [|done]. cbn in H.
    apply push_appends in H as ->. apply join_cap_serves in Ej as [_ Hs]. split; [apply extends_more|]. exists def. split; [done|].
    eapply served_extends; [exact Hs|]. intros x ->%list_elem_of_singleton. exists c. split; [set_solver|apply cap_grows_refl].
Qed.

Lemma add_caps_serves store dev ids : forall caps caps', add_caps store dev ids caps = Ok caps' ->
  extends caps caps' /\ forall id def, id ∈ ids -> output store dev id = Ok def -> served dev id def caps'.
Proof.
  induction ids as [|id ids IH]; cbn; intros caps caps' H; [injection H as <-; split; [apply extends_refl|set_solver]|].
  destruct (add_cap _ _ _ _) as [more|] eqn:Ea; [|done]. apply add_cap_serves in Ea as (He & def & Ho & Hs).
  apply IH in H as [He' Hs']. split; [by eapply extends_trans|]. intros i d [->|Hi]%elem_of_cons Hd; [|by apply Hs'].
  rewrite Ho in Hd. injection Hd as <-. by eapply served_extends.
Qed.

Lemma device_caps_serve store devices : forall caps caps', device_caps store devices caps = Ok caps' ->
  extends caps caps' /\ forall dev id def, dev ∈ devices -> id ∈ omap as_str (array dev "capabilities") -> output store dev id = Ok def ->
    served dev id def caps'.
Proof.
  induction devices as [|d devices IH]; cbn; intros caps caps' H; [injection H as <-; split; [apply extends_refl|set_solver]|].
  destruct (add_caps _ _ _ _) as [more|] eqn:Ea; [|done]. apply add_caps_serves in Ea as [He Hs].
  apply IH in H as [He' Hs']. split; [by eapply extends_trans|]. intros dev id def [->|Hi]%elem_of_cons Hid Hd; [|by eapply Hs'].
  eapply served_extends; [by eapply Hs|done].
Qed.

(** ** Which cards there are *)

Inductive Asks := Nothing | AValue | ASeconds.

Definition cap_kind (c : Cap) : string := text (cap_def c) "type".
Definition is_button (c : Cap) : bool := (before_first "." (cap_id c) =? "button")%string.

(** The cards of a capability: the kind, the end of the id, and what the card asks besides the device. *)
Inductive belongs (c : Cap) : string -> string -> Asks -> Prop :=
| has_on : cap_read c <> [] -> cap_kind c = "boolean"%string -> belongs c "triggers" "on" Nothing
| has_off : cap_read c <> [] -> cap_kind c = "boolean"%string -> belongs c "triggers" "off" Nothing
| has_on_for : cap_read c <> [] -> cap_kind c = "boolean"%string -> belongs c "triggers" "on_for" ASeconds
| has_off_for : cap_read c <> [] -> cap_kind c = "boolean"%string -> is_button c = false -> belongs c "triggers" "off_for" ASeconds
| has_changed : cap_read c <> [] -> cap_kind c <> "boolean"%string -> belongs c "triggers" "changed" Nothing
| has_rose_above : cap_read c <> [] -> cap_kind c = "number"%string -> belongs c "triggers" "rose_above" AValue
| has_fell_below : cap_read c <> [] -> cap_kind c = "number"%string -> belongs c "triggers" "fell_below" AValue
| has_became : cap_read c <> [] -> cap_kind c ∉ ["boolean"; "number"]%string -> array (cap_def c) "values" <> [] ->
    belongs c "triggers" "became" AValue
| has_is : cap_read c <> [] -> (cap_kind c = "boolean"%string -> is_button c = false) -> belongs c "conditions" "is" AValue
| has_is_on : cap_read c <> [] -> cap_kind c = "boolean"%string -> belongs c "conditions" "is_on" Nothing
| has_is_off : cap_read c <> [] -> cap_kind c = "boolean"%string -> belongs c "conditions" "is_off" Nothing
| has_above : cap_read c <> [] -> cap_kind c = "number"%string -> belongs c "conditions" "above" AValue
| has_below : cap_read c <> [] -> cap_kind c = "number"%string -> belongs c "conditions" "below" AValue
| has_run : cap_write c <> [] -> cap_stateful c = false -> belongs c "actions" "run" Nothing
| has_set : cap_write c <> [] -> cap_stateful c = true -> belongs c "actions" "set" AValue
| has_turn_on : cap_write c <> [] -> cap_stateful c = true -> cap_kind c = "boolean"%string -> belongs c "actions" "turn_on" Nothing
| has_turn_off : cap_write c <> [] -> cap_stateful c = true -> cap_kind c = "boolean"%string -> belongs c "actions" "turn_off" Nothing
| has_toggle : cap_write c <> [] -> cap_stateful c = true -> cap_kind c = "boolean"%string -> belongs c "actions" "toggle" Nothing.

(** The argument of the card besides the device. *)
Definition asked (value : Value) (a : Asks) : option Value :=
  match a with Nothing => None | AValue => Some value | ASeconds => Some SECONDS end.

Definition is_spec (c : Cap) (title : string) (value : Value) (kind suffix : string) (e : option Value) : Prop :=
  exists t, (kind, suffix, t, e) ∈ specs c title value.

Ltac in_list := first [apply list_elem_of_here|apply list_elem_of_further; in_list].

Lemma specs_belong c title value kind suffix t e :
  (kind, suffix, t, e) ∈ specs c title value -> exists a, belongs c kind suffix a /\ e = asked value a.
Proof.
  unfold specs. fold (cap_kind c). intros [H|H]%elem_of_app.
  - destruct (bool_decide (cap_read c = [])) eqn:Er; [by apply not_elem_of_nil in H|]. apply bool_decide_eq_false in Er.
    destruct (String.eqb_spec (cap_kind c) "boolean") as [Eb|Eb]; [|destruct (String.eqb_spec (cap_kind c) "number") as [En|En]].
    + unfold boolean_cards, boolean_texts in H. fold (is_button c) in H. destruct (is_button c) eqn:Ebt; [|destruct (starts_with "alarm_" (cap_id c))]; cbn in H;
        repeat (apply elem_of_cons in H as [[= -> -> -> ->]|H]); try (by apply not_elem_of_nil in H);
        first [exists Nothing; split; [by constructor|reflexivity]|exists AValue; split; [by constructor|reflexivity]|exists ASeconds; split; [by constructor|reflexivity]].
    + unfold number_cards in H. repeat (apply elem_of_cons in H as [[= -> -> -> ->]|H]); try (by apply not_elem_of_nil in H);
        first [exists Nothing; split; [by constructor|reflexivity]|exists AValue; split; [by constructor|reflexivity]].
    + assert (cap_kind c ∉ ["boolean"; "number"]%string) as Ek by set_solver.
      unfold other_cards in H. destruct (bool_decide (array (cap_def c) "values" = [])) eqn:Ev; cbn in H;
        [|apply bool_decide_eq_false in Ev]; repeat (apply elem_of_cons in H as [[= -> -> -> ->]|H]); try (by apply not_elem_of_nil in H);
        first [exists Nothing; split; [by constructor|reflexivity]|exists AValue; split; [by constructor|reflexivity]].
  - destruct (bool_decide (cap_write c = [])) eqn:Er; [by apply not_elem_of_nil in H|]. apply bool_decide_eq_false in Er.
    unfold action_cards in H. fold (cap_kind c) in H. destruct (cap_stateful c) eqn:Es; [|apply list_elem_of_singleton in H as [= -> -> -> ->]; exists Nothing; split; [by constructor|done]].
    destruct (String.eqb_spec (cap_kind c) "boolean") as [Eb|Eb]; cbn in H;
      repeat (apply elem_of_cons in H as [[= -> -> -> ->]|H]); try (by apply not_elem_of_nil in H);
      first [exists Nothing; split; [by constructor|reflexivity]|exists AValue; split; [by constructor|reflexivity]].
Qed.

Lemma spec_left kind suffix e (l1 l2 : list Spec) : (exists t, (kind, suffix, t, e) ∈ l1) -> exists t, (kind, suffix, t, e) ∈ l1 ++ l2.
Proof. intros [t Ht]. exists t. apply elem_of_app. by left. Qed.

Lemma spec_right kind suffix e (l1 l2 : list Spec) : (exists t, (kind, suffix, t, e) ∈ l2) -> exists t, (kind, suffix, t, e) ∈ l1 ++ l2.
Proof. intros [t Ht]. exists t. apply elem_of_app. by right. Qed.

Ltac decide_specs :=
  repeat match goal with
  | |- context [(cap_kind ?c =? ?x)%string] => destruct (String.eqb_spec (cap_kind c) x)
  | |- context [if is_button ?c then _ else _] => destruct (is_button c) eqn:?
  | |- context [if starts_with ?p ?x then _ else _] => destruct (starts_with p x)
  | |- context [bool_decide (?x = [])] => destruct (bool_decide_reflect (x = []))
  end.

Lemma belong_specs c title value kind suffix a : belongs c kind suffix a -> is_spec c title value kind suffix (asked value a).
Proof.
  intros H. assert (forall l, specs c title value = l -> (exists t, (kind, suffix, t, asked value a) ∈ l) -> is_spec c title value kind suffix (asked value a)) as Hl
    by (by intros l <-).
  unfold specs in Hl. fold (cap_kind c) in Hl. unfold action_cards in Hl. fold (cap_kind c) in Hl.
  unfold boolean_cards, boolean_texts, other_cards in Hl. fold (is_button c) in Hl.
  destruct H as [Hn Hk|Hn Hk|Hn Hk|Hn Hk Hb|Hn Hk|Hn Hk|Hn Hk|Hn Hk Hv|Hn Hb|Hn Hk|Hn Hk|Hn Hk|Hn Hk|Hn Hs|Hn Hs|Hn Hs Hk|Hn Hs Hk|Hn Hs Hk];
    rewrite (bool_decide_eq_false_2 _ Hn) in Hl; try rewrite Hk in Hl; try rewrite Hs in Hl;
    (eapply Hl; [reflexivity|]); clear Hl.
  all: first [apply spec_left; solve [decide_specs; first [set_solver|congruence|intuition congruence|eexists; cbn; in_list]]
             |apply spec_right; solve [decide_specs; first [congruence|eexists; cbn; in_list]]].
Qed.

(** ** The cards that are listed *)

Definition listed (kind : string) (out : Cards) : list Value :=
  match kind with "triggers"%string => c_triggers out | "conditions"%string => c_conditions out | _ => c_actions out end.

(** A listed card for the end [suffix] with the extra argument [e]. *)
Definition shows (c : Cap) (kind suffix : string) (e : option Value) (card : Value) : Prop :=
  text card "id" = ("capability." ++ cap_id c ++ "." ++ suffix)%string
  /\ text card "appId" = "stulp"%string /\ (kind, text card "type") ∈ KINDS
  /\ get card "available" = Some (VBool true)
  /\ get card "args" = Some (VArray (card_argument "device" "device" "Apparaat" :: option_list e))
  /\ get card "deviceIds" = Some (VArray (if (kind =? "actions")%string then cap_write c else cap_read c)).

Lemma belongs_kind c kind suffix a : belongs c kind suffix a -> kind ∈ ["triggers"; "conditions"; "actions"]%string.
Proof. intros []; set_solver. Qed.

Lemma card_of_shows c kind suffix t e card :
  kind ∈ ["triggers"; "conditions"; "actions"]%string -> card_of c (kind, suffix, t, e) = Ok card -> shows c kind suffix e card.
Proof.
  intros Hk. unfold card_of. set (base := fields _). cbv zeta.
  assert (shows c kind suffix e base) as Hb.
  { unfold shows. repeat (apply elem_of_cons in Hk as [->|Hk]; [split_and!; try reflexivity; vm_compute; in_list|]). by apply not_elem_of_nil in Hk. }
  assert (forall v w k x, shows c kind suffix e v -> set v k x = Ok w -> k ∈ ["tokens"; "titleFormatted"]%string -> shows c kind suffix e w) as Hset.
  { intros v w k x (H1 & H2 & H3 & H4 & H5 & H6) Hw Hkk. unfold shows, text in *.
    rewrite !(get_set_ne _ _ _ _ _ Hw) by (intros ->; set_solver). by split_and!. }
  intros H. match type of H with mbind _ ?x = _ => destruct x as [v|] eqn:Ev; [|done] end. cbn [mbind result_bind] in H.
  assert (shows c kind suffix e v) as Hv by (destruct (kind =? "triggers")%string; [eapply Hset; [done|exact Ev|set_solver]|by injection Ev as <-]).
  destruct e as [x|]; [|by injection H as <-]. eapply Hset; [done|exact H|set_solver].
Qed.

(** The cards [after] are those [before] and at least one that [f] makes of every [x] with [needed]. *)
Definition gains {X} (needed : X -> Prop) (f : X -> Value -> Prop) (before after : list Value) : Prop :=
  before ⊆ after
  /\ (forall card, card ∈ after -> card ∈ before \/ exists x, needed x /\ f x card)
  /\ forall x, needed x -> exists card, card ∈ after /\ f x card.

Lemma gains_none {X} (needed : X -> Prop) (f : X -> Value -> Prop) l : (forall x, ~ needed x) -> gains needed f l l.
Proof. intros Hn. split_and!; [done|by left|]. intros x Hx. by destruct (Hn x). Qed.

Lemma gains_both {X} (p q n : X -> Prop) (f : X -> Value -> Prop) a b c :
  gains p f a b -> gains q f b c -> (forall x, n x <-> p x \/ q x) -> gains n f a c.
Proof.
  intros (H1 & H2 & H3) (H4 & H5 & H6) Hn. split_and!.
  - set_solver.
  - intros card [[Hc|(x & Hx & Hf)]%H2|(x & Hx & Hf)]%H5; [by left|right; exists x; split; [apply Hn; by left|done]|right; exists x; split; [apply Hn; by right|done]].
  - intros x [Hx|Hx]%Hn; [|by apply H6]. destruct (H3 x Hx) as (card & Hc & Hf). exists card. split; [by apply H4|done].
Qed.

Lemma push_card_listed out k card out' kind : push_card out k card = Ok out' ->
  kind ∈ ["triggers"; "conditions"; "actions"]%string -> k ∈ ["triggers"; "conditions"; "actions"]%string ->
  listed kind out' = listed kind out ++ (if (k =? kind)%string then [card] else []).
Proof.
  unfold push_card. intros H Hkind Hk.
  repeat (apply elem_of_cons in Hk as [->|Hk]; [cbn [String.eqb Ascii.eqb Bool.eqb] in H;
    match type of H with mbind _ ?x = _ => destruct x as [l|] eqn:El; [|done] end; injection H as <-; apply push_appends in El as ->;
    repeat (apply elem_of_cons in Hkind as [->|Hkind]; [cbn; by rewrite ?app_nil_r|]); by apply not_elem_of_nil in Hkind|]).
  by apply not_elem_of_nil in Hk.
Qed.

Lemma emit_specs_gains c l : forall out out', emit_specs c l out = Ok out' ->
  Forall (fun s : Spec => s.1.1.1 ∈ ["triggers"; "conditions"; "actions"]%string) l ->
  forall kind, kind ∈ ["triggers"; "conditions"; "actions"]%string ->
  gains (fun s => s ∈ l /\ s.1.1.1 = kind) (fun s card => card_of c s = Ok card) (listed kind out) (listed kind out').
Proof.
  induction l as [|s l IH]; cbn [emit_specs]; intros out out' H HF kind Hk.
  { injection H as <-. apply gains_none. intros x [Hx _]. by apply not_elem_of_nil in Hx. }
  apply Forall_cons in HF as [H1 HF]. destruct (card_of c s) as [card|] eqn:Ec; [|done]. cbn [mbind result_bind] in H.
  destruct (push_card out s.1.1.1 card) as [mid|] eqn:Ep; [|done]. cbn [mbind result_bind] in H.
  apply (gains_both (fun x => x = s /\ s.1.1.1 = kind) (fun x => x ∈ l /\ x.1.1.1 = kind) _ _ _ (listed kind mid)); [|by apply IH|].
  - rewrite (push_card_listed _ _ _ _ kind Ep Hk H1). destruct (String.eqb_spec s.1.1.1 kind) as [He|He].
    + split_and!; [set_solver| |].
      * intros x [Hx|Hx%list_elem_of_singleton]%elem_of_app; [by left|right]. exists s. subst x. done.
      * intros x [-> _]. exists card. split; [set_solver|done].
    + rewrite app_nil_r. apply gains_none. by intros x [-> ?].
  - intros x. rewrite elem_of_cons. intuition congruence.
Qed.

(** The cards of a capability, in terms of [belongs]. *)
Definition offer (c : Cap) (kind : string) (x : string * Asks) (card : Value) : Prop :=
  exists value, value_argument (cap_def c) = Ok value /\ shows c kind x.1 (asked value x.2) card.

Lemma emit_gains c title out out' kind : emit c title out = Ok out' -> kind ∈ ["triggers"; "conditions"; "actions"]%string ->
  gains (fun x => belongs c kind x.1 x.2) (offer c kind) (listed kind out) (listed kind out').
Proof.
  unfold emit. destruct (value_argument (cap_def c)) as [value|] eqn:Ev; [|done]. cbn [mbind result_bind]. intros H Hk.
  assert (Forall (fun s : Spec => s.1.1.1 ∈ ["triggers"; "conditions"; "actions"]%string) (specs c title value)) as HF.
  { apply Forall_forall. intros [[[k suffix] t] e] Hs. apply specs_belong in Hs as (a & Hb & _). by eapply belongs_kind. }
  destruct (emit_specs_gains _ _ _ _ H HF kind Hk) as (H1 & H2 & H3). split_and!; [done| |].
  - intros card [Hc|([[[k suffix] t] e] & [Hs Hks] & Hc)]%H2; [by left|right]. cbn in Hks. subst k.
    destruct (specs_belong _ _ _ _ _ _ _ Hs) as (a & Hb & ->). exists (suffix, a). split; [done|]. exists value. split; [done|].
    by eapply card_of_shows.
  - intros [suffix a] Hb. destruct (belong_specs c title value kind suffix a Hb) as [t Ht].
    destruct (H3 _ (conj Ht eq_refl)) as (card & Hc & Hf). exists card. split; [done|]. exists value. split; [done|].
    by eapply card_of_shows.
Qed.

Lemma emit_caps_gains caps : forall before out out' kind, emit_caps before caps out = Ok out' ->
  kind ∈ ["triggers"; "conditions"; "actions"]%string ->
  gains (fun x : Cap * (string * Asks) => x.1 ∈ caps /\ belongs x.1 kind x.2.1 x.2.2) (fun x => offer x.1 kind x.2)
    (listed kind out) (listed kind out').
Proof.
  induction caps as [|c caps IH]; cbn [emit_caps]; intros before out out' kind H Hk.
  { injection H as <-. apply gains_none. intros x [Hx _]. by apply not_elem_of_nil in Hx. }
  destruct (emit c _ out) as [mid|] eqn:Em; [|done]. cbn [mbind result_bind] in H. apply (emit_gains _ _ _ _ kind) in Em; [|done].
  apply (gains_both (fun x => x.1 = c /\ belongs x.1 kind x.2.1 x.2.2) (fun x => x.1 ∈ caps /\ belongs x.1 kind x.2.1 x.2.2) _ _ _ (listed kind mid));
    [|by eapply IH|].
  - destruct Em as (H1 & H2 & H3). split_and!; [done| |].
    + intros card [Hc|(x & Hx & Hf)]%H2; [by left|right]. by exists (c, x).
    + intros [c' x] [Hc Hb]. cbn in *. subst c'. by apply H3.
  - intros x. rewrite elem_of_cons. tauto.
Qed.

(** ** What the cards mean *)

(** The verdict of a condition on the state [current] of the capability. *)
Inductive decides (current value : Value) : string -> Result bool -> Prop :=
| decides_is : decides current value "is" (Ok (equal current value))
| decides_on b : (b = true <-> current = VBool true) -> decides current value "is_on" (Ok b)
| decides_off b : (b = true <-> current = VBool false) -> decides current value "is_off" (Ok b)
| decides_above x y : Runs.number current = Some x -> Runs.number value = Some y -> decides current value "above" (Ok (f_ltb y x))
| decides_below x y : Runs.number current = Some x -> Runs.number value = Some y -> decides current value "below" (Ok (f_ltb x y))
| decides_no_number suffix : suffix ∈ ["above"; "below"]%string -> Runs.number current = None ->
    decides current value suffix (Err (Invalid "capability must be numeric"))
| decides_no_threshold suffix x : suffix ∈ ["above"; "below"]%string -> Runs.number current = Some x -> Runs.number value = None ->
    decides current value suffix (Err (Invalid "threshold must be numeric")).

(** The value that an action gives to the capability, and [None] when it has no state to toggle. *)
Inductive commands (current value : Value) : string -> option Value -> Prop :=
| commands_run : commands current value "run" (Some (VBool true))
| commands_on : commands current value "turn_on" (Some (VBool true))
| commands_off : commands current value "turn_off" (Some (VBool false))
| commands_set : commands current value "set" (Some value)
| commands_toggle b : current = VBool b -> commands current value "toggle" (Some (VBool (negb b)))
| commands_stateless : (forall b, current <> VBool b) -> commands current value "toggle" None.

(** The changes that start a trigger. *)
Inductive starts (now before : Value) : string -> Prop :=
| starts_on : now = VBool true -> before = VNull \/ (exists b, before = VBool b) -> starts now before "on"
| starts_off : now = VBool false -> before = VNull \/ (exists b, before = VBool b) -> starts now before "off"
| starts_changed : (forall b, now <> VBool b) \/ before <> VNull /\ (forall b, before <> VBool b) -> starts now before "changed"
| starts_became t : now = VString t -> starts now before "became"
| starts_rose m n : now = VNumber m -> before = VNumber n -> f_ltb (as_f64 n) (as_f64 m) = true -> starts now before "rose_above"
| starts_fell m n : now = VNumber m -> before = VNumber n -> f_ltb (as_f64 n) (as_f64 m) = false ->
    f_ltb (as_f64 m) (as_f64 n) = true -> starts now before "fell_below".

Lemma state_field dev cap : default VNull (get dev "state" ≫= fun st => get st cap) = get_null (get_null dev "state") cap.
Proof. unfold get_null. destruct (get dev "state") as [v|]; [done|]. by cbn. Qed.

Lemma condition_decides store cap suffix args dev :
  suffix ∈ ["is"; "is_on"; "is_off"; "above"; "below"]%string -> device (Runs.selected_device args) store = Ok dev ->
  decides (get_null (get_null dev "state") cap) (get_null args "value") suffix
    (Runs.condition store ("capability." ++ cap ++ "." ++ suffix) args).
Proof.
  intros Hs Hd. unfold Runs.condition. change (_ =? "device_capability_equals")%string with false.
  rewrite derived_card by (repeat (apply elem_of_cons in Hs as [->|Hs]; [done|]); by apply not_elem_of_nil in Hs).
  cbn [ok_or mbind result_bind]. rewrite Hd. cbn [mbind result_bind]. rewrite state_field. set (current := get_null _ cap).
  repeat (apply elem_of_cons in Hs as [->|Hs]; [cbn [String.eqb Ascii.eqb Bool.eqb andb orb]|]); try (by apply not_elem_of_nil in Hs).
  - apply decides_is.
  - apply decides_on. rewrite bool_decide_eq_true. destruct current; cbn; naive_solver.
  - apply decides_off. rewrite bool_decide_eq_true. destruct current; cbn; naive_solver.
  - destruct (Runs.number current) as [x|] eqn:Ex; cbn [ok_or mbind result_bind]; [|apply decides_no_number; [set_solver|done]].
    destruct (Runs.number (get_null args "value")) as [y|] eqn:Ey; cbn [ok_or mbind result_bind];
      [by apply decides_above|eapply decides_no_threshold; [set_solver|done..]].
  - destruct (Runs.number current) as [x|] eqn:Ex; cbn [ok_or mbind result_bind]; [|apply decides_no_number; [set_solver|done]].
    destruct (Runs.number (get_null args "value")) as [y|] eqn:Ey; cbn [ok_or mbind result_bind];
      [by apply decides_below|eapply decides_no_threshold; [set_solver|done..]].
Qed.

(** What a Flow does with the outcome of an action. *)
Definition invoked (dev : Value) (cap : string) (v : option Value) : Result Runs.Effect :=
  match v with
  | Some v => Ok (Runs.Call (text dev "appId") "capability.invoke"
      (fields [("deviceId", VString (text dev "id")); ("capability", VString cap); ("value", v); ("options", object)]))
  | None => Err (Invalid "capability has no boolean state to toggle")
  end.

Lemma action_commands store cap suffix args dev :
  suffix ∈ ["run"; "set"; "turn_on"; "turn_off"; "toggle"]%string -> device (Runs.selected_device args) store = Ok dev ->
  cap ∈ omap as_str (array dev "capabilities") ->
  exists v, commands (get_null (get_null dev "state") cap) (get_null args "value") suffix v
    /\ Runs.action store ("capability." ++ cap ++ "." ++ suffix) args = invoked dev cap v.
Proof.
  intros Hs Hd Hcap. unfold Runs.action. change (_ =? "set_device_capability")%string with false.
  rewrite derived_card by (repeat (apply elem_of_cons in Hs as [->|Hs]; [done|]); by apply not_elem_of_nil in Hs).
  cbn [ok_or mbind result_bind]. rewrite Hd. cbn [mbind result_bind].
  assert (existsb (fun v => bool_decide (as_str v = Some cap)) (array dev "capabilities") = true) as ->.
  { apply list_elem_of_omap in Hcap as (v & Hv & Hc). apply existsb_exists. exists v. split; [by apply list_elem_of_In|]. by rewrite Hc, bool_decide_true. }
  unfold invoked. rewrite (device_text_id _ _ _ Hd). cbn [negb].
  repeat (apply elem_of_cons in Hs as [->|Hs]; [cbn [String.eqb Ascii.eqb Bool.eqb andb orb mbind result_bind]|]); try (by apply not_elem_of_nil in Hs).
  - eexists. split; [apply commands_run|done].
  - eexists. split; [apply commands_set|done].
  - eexists. split; [apply commands_on|done].
  - eexists. split; [apply commands_off|done].
  - assert ((get dev "state" ≫= fun st => get st cap ≫= as_bool) = as_bool (get_null (get_null dev "state") cap)) as ->.
    { unfold get_null. destruct (get dev "state") as [v|]; [|done]. cbn. by destruct (get v cap). }
    destruct (get_null (get_null dev "state") cap) as [|b| | | |] eqn:Ec; cbn [as_bool ok_or mbind result_bind];
      try (exists None; split; [by apply commands_stateless|done]).
    eexists. split; [by apply commands_toggle|done].
Qed.

Lemma append_assoc (a b c : string) : (a ++ b ++ c = (a ++ b) ++ c)%string.
Proof. induction a as [|x a IH]; [done|]. change (String x (a ++ b ++ c) = String x ((a ++ b) ++ c))%string. by rewrite IH. Qed.

Lemma append_inj (p a b : string) : (p ++ a = p ++ b)%string -> a = b.
Proof. induction p as [|x p IH]; [done|]. intros H. apply IH. by injection H. Qed.

(** The ends of the cards of a change. *)
Definition card_ends (now before : Value) : list string :=
  match as_bool now with
  | Some on => if is_null before || bool_decide (is_Some (as_bool before)) then [if on then "on" else "off"]%string else ["changed"%string]
  | None =>
      "changed"%string ::
      match as_str now, Triggers.numeric now, Triggers.numeric before with
      | Some _, _, _ => ["became"%string]
      | None, Some a, Some b => if f_ltb b a then ["rose_above"%string] else if f_ltb a b then ["fell_below"%string] else []
      | None, _, _ => []
      end
  end.

Lemma cards_ends cap now before :
  Triggers.cards cap now before = "device_capability_changed"%string :: map (String.append ("capability." ++ cap ++ ".")) (card_ends now before).
Proof.
  unfold Triggers.cards, card_ends. f_equal. destruct (as_bool now) as [on|].
  - destruct (_ || _); [by destruct on|done].
  - cbn [map]. f_equal. destruct (as_str now); [done|]. destruct (Triggers.numeric now) as [a|], (Triggers.numeric before) as [b|]; try done.
    destruct (f_ltb b a); [done|]. by destruct (f_ltb a b).
Qed.

Lemma card_ends_starts now before suffix : suffix ∈ card_ends now before <-> starts now before suffix.
Proof.
  split.
  - assert ((forall b, now <> VBool b) -> starts now before "changed") as Hc by (intros H; apply starts_changed; by left).
    unfold card_ends. intros H. destruct now as [|on|n|t| |]; cbn [as_bool as_str Triggers.numeric] in H;
      try (apply list_elem_of_singleton in H as ->; by apply Hc).
    + destruct before as [|b|m|t| |], on; cbn in H; apply list_elem_of_singleton in H as ->; constructor; eauto; right; split; done.
    + apply elem_of_cons in H as [->|H]; [by apply Hc|]. destruct before as [| |m| | |]; cbn in H; try by apply not_elem_of_nil in H.
      destruct (f_ltb (as_f64 m) (as_f64 n)) eqn:E1; [apply list_elem_of_singleton in H as ->; by eapply starts_rose|].
      destruct (f_ltb (as_f64 n) (as_f64 m)) eqn:E2; [|by apply not_elem_of_nil in H].
      apply list_elem_of_singleton in H as ->. by eapply starts_fell.
    + apply elem_of_cons in H as [->|H]; [by apply Hc|]. apply list_elem_of_singleton in H as ->. by eapply starts_became.
  - unfold card_ends. intros [Hn H|Hn H|H|t Hn|m n Hn Hb H|m n Hn Hb H1 H2]; subst; cbn [as_bool as_str Triggers.numeric].
    + destruct H as [->|[b ->]]; by left.
    + destruct H as [->|[b ->]]; by left.
    + destruct now as [|on| | | |]; try by left. destruct H as [H|[H1 H2]]; [by destruct (H on)|].
      destruct before as [|b| | | |]; first [by destruct H1|by destruct (H2 b)|cbn; by left].
    + right. by left.
    + rewrite H. right. by left.
    + rewrite H1, H2. right. by left.
Qed.

Lemma cards_start cap suffix now before :
  ("capability." ++ cap ++ "." ++ suffix)%string ∈ Triggers.cards cap now before <-> starts now before suffix.
Proof.
  rewrite <- card_ends_starts. rewrite cards_ends, (append_assoc cap), (append_assoc "capability."), elem_of_cons.
  split.
  - intros [H|(x & Hx & Hi)%list_elem_of_In%in_map_iff]; [discriminate H|]. apply append_inj in Hx as ->. by apply list_elem_of_In.
  - intros H. right. apply list_elem_of_In, in_map, list_elem_of_In, H.
Qed.

Lemma watched cap suffix args : suffix ∈ ["on_for"; "off_for"]%string ->
  Stability.spec_target ("capability." ++ cap ++ "." ++ suffix) args = Some (cap, VBool (suffix =? "on_for")%string).
Proof.
  intros Hs. unfold Stability.spec_target. change (_ =? "device_capability_stays")%string with false.
  rewrite derived_card by (repeat (apply elem_of_cons in Hs as [->|Hs]; [done|]); by apply not_elem_of_nil in Hs).
  repeat (apply elem_of_cons in Hs as [->|Hs]; [done|]). by apply not_elem_of_nil in Hs.
Qed.

(** The program does with a card of [c] what the card means. *)
Definition understood store (c : Cap) (kind suffix : string) (a : Asks) : Prop :=
  let id := ("capability." ++ cap_id c ++ "." ++ suffix)%string in
  match kind with
  | "actions"%string => forall args, VString (Runs.selected_device args) ∈ cap_write c ->
      exists dev v, device (Runs.selected_device args) store = Ok dev
      /\ commands (get_null (get_null dev "state") (cap_id c)) (get_null args "value") suffix v
      /\ Runs.action store id args = invoked dev (cap_id c) v
  | "conditions"%string => forall args, VString (Runs.selected_device args) ∈ cap_read c ->
      exists dev, device (Runs.selected_device args) store = Ok dev
      /\ decides (get_null (get_null dev "state") (cap_id c)) (get_null args "value") suffix (Runs.condition store id args)
  | _ => match a with
         | ASeconds => forall args, Stability.spec_target id args = Some (cap_id c, VBool (suffix =? "on_for")%string)
         | _ => forall now before, id ∈ Triggers.cards (cap_id c) now before <-> starts now before suffix
         end
  end.

Lemma belongs_understood store c kind suffix a : cap_sound store c -> belongs c kind suffix a -> understood store c kind suffix a.
Proof.
  intros (Hread & Hwrite & _) Hb. rewrite Forall_forall in Hread, Hwrite. unfold understood. destruct Hb; cbv zeta;
    try (intros now before; apply cards_start); try (intros args; apply watched; set_solver);
    intros args Hin; first [apply Hread in Hin|apply Hwrite in Hin]; destruct Hin as (i & dev & def & [= <-] & Hd & Hcap & _).
  all: first [exists dev; split; [done|]; apply condition_decides; [set_solver|done]
             |destruct (action_commands store (cap_id c) "run" args dev) as (v & Hv & Ha); [set_solver|done..|by exists dev, v]
             |destruct (action_commands store (cap_id c) "set" args dev) as (v & Hv & Ha); [set_solver|done..|by exists dev, v]
             |destruct (action_commands store (cap_id c) "turn_on" args dev) as (v & Hv & Ha); [set_solver|done..|by exists dev, v]
             |destruct (action_commands store (cap_id c) "turn_off" args dev) as (v & Hv & Ha); [set_solver|done..|by exists dev, v]
             |destruct (action_commands store (cap_id c) "toggle" args dev) as (v & Hv & Ha); [set_solver|done..|by exists dev, v]].
Qed.

End Understood.

(** The lamp of a house can be turned on from a Flow. *)
Definition sample_catalog : Value := Eval vm_compute in
  match catalog (StoreProps.quoted "{}") StoreProps.sample object with Ok v => v | Err _ => VNull end.


(** The card that turns the lamp on is in the catalogue. *)
Example lamp_card :
  existsb (fun card => (text card "id" =? "capability.onoff.turn_on")%string) (array sample_catalog "actions") = true.
Proof. vm_compute. reflexivity. Qed.
