(* ===== verification/Mcp.v ===== *)
(** * Mcp: the server for assistants

    Models [mcp/mod.rs], [mcp/schema.rs], [mcp/read.rs], [mcp/arguments.rs] and [mcp/write.rs] of
    [crates/web/src].  Every request is one JSON-RPC message; the schemas that the server advertises
    are the check of its input, with a budget for the whole value.  Some tools look at the house,
    some edit Flows as a whole, and what needs an app or a run is work for the controller, which
    [McpJobs] carries out.  The advertised metadata and the lower case of characters outside ASCII
    are parameters. *)

From Stdlib Require Import ZArith Lia Ascii String.
From S2P Require Import Prelude Text Errors Slots Float Value Json Document Stats Store Scenes Web Capability WebApi WebServe.
From S2P Require Units Manifest Schedule Templates Mutations Flow WebUnits Display.

Local Open Scope Z_scope.

(** * The transport and the schemas *)

Definition VERSIONS : list string := ["2025-11-25"; "2025-06-18"; "2025-03-26"].

(** [text]: without the white space around it *)
Definition trimmed (v : Value) (k : string) : string := trim (text v k).

Definition is_simple (v : Value) : bool := match v with VBool _ | VNumber _ | VString _ => true | _ => false end.

(** ** Schemas *)

Record Budget : Type := mk_budget { b_values : Z; b_bytes : Z }.

Definition take (bytes : Z) (b : Budget) : Result Budget :=
  if b_bytes b <? bytes then Err (Invalid "MCP total value budget exceeded") else Ok (mk_budget (b_values b) (b_bytes b - bytes)).

Definition take_value (b : Budget) : Result Budget :=
  if b_values b <? 1 then Err (Invalid "MCP value count exceeded") else Ok (mk_budget (b_values b - 1) (b_bytes b)).

Definition type_name (v : Value) : string :=
  match v with
  | VNull => "null" | VBool _ => "boolean" | VNumber _ => "number" | VString _ => "string" | VArray _ => "array" | VObject _ => "object"
  end.

(** [n % 1.0 == 0.0] for a finite number *)
Definition is_whole (x : f64) : bool :=
  match x with
  | SpecFloat.S754_zero _ => true
  | SpecFloat.S754_finite _ m e => (0 <=? e) || (Z.pos m mod 2 ^ (- e) =? 0)
  | _ => false
  end.

Definition out_of (n : f64) (s : Value) (min max : string) : bool :=
  match get_null s min with VNumber l => f_ltb n (as_f64 l) | _ => false end
  || match get_null s max with VNumber l => f_ltb (as_f64 l) n | _ => false end.

Definition bounds (n : f64) (s : Value) (min max : string) : Result unit :=
  if out_of n s min max then Err (Invalid "MCP argument out of range") else Ok tt.

Definition count (n : nat) : f64 := as_f64 (Uint (Z.of_nat n)).

Definition missing_key (s : Value) (o : Object) : bool :=
  existsb (fun k => match obj_get o k with Some _ => false | None => true end) (omap as_str (array s "required")).

Definition wrong_type (kind : string) (v : Value) : bool :=
  negb (is_empty kind) && negb (kind =? type_name v)%string && negb ((kind =? "integer")%string && (type_name v =? "number")%string).

Definition not_listed (s v : Value) : bool :=
  match get s "enum" with Some (VArray l) => negb (existsb (fun e => equal e v) l) | _ => false end.

(** [visit]; [fuel] is how deep it may still go. *)
Fixpoint visit (fuel : nat) (v s : Value) (b : Budget) {struct fuel} : Result Budget :=
  match fuel with
  | O => Err (Invalid "MCP nesting depth exceeded")
  | S fuel =>
      b ← take_value b;
      b ← take 4 b;
      let kind := text s "type" in
      if wrong_type kind v then Err (Invalid "MCP argument has wrong type")
      else
        b ← match v with
            | VString t =>
                if 16384 <? len t then Err (Invalid "MCP string too large")
                else
                  b ← take (len t) b;
                  _ ← bounds (count (length (chars t))) s "minLength" "maxLength"; Ok b
            | VNumber n =>
                if negb (is_finite (as_f64 n)) || ((kind =? "integer")%string && negb (is_whole (as_f64 n)))
                then Err (Invalid "MCP requires a finite whole number")
                else
                  _ ← bounds (as_f64 n) s "minimum" "maximum";
                  t ← Templates.to_string v; take (len t) b
            | VArray l =>
                if 512 <? Z.of_nat (length l) then Err (Invalid "MCP array too large")
                else
                  _ ← bounds (count (length l)) s "minItems" "maxItems";
                  (fix go (l : list Value) (b : Budget) : Result Budget :=
                     match l with [] => Ok b | c :: l => b ← visit fuel c (get_null s "items") b; go l b end) l b
            | VObject o =>
                if 512 <? Z.of_nat (length o) then Err (Invalid "MCP object too large")
                else if missing_key s o then Err (Invalid "required MCP argument missing")
                else
                  let properties := get_null s "properties" in
                  let allow := match get s "additionalProperties" ≫= as_bool with Some a => a | None => is_null properties end in
                  (fix go (o : Object) (b : Budget) : Result Budget :=
                     match o with
                     | [] => Ok b
                     | (key, c) :: o =>
                         if 256 <? len key then Err (Invalid "MCP object key too large")
                         else
                           b ← take (len key) b;
                           match get properties key with
                           | None => if allow then b ← visit fuel c VNull b; go o b else Err (Invalid "unknown MCP argument")
                           | Some schema => b ← visit fuel c schema b; go o b
                           end
                     end) o b
            | _ => Ok b
            end;
        if not_listed s v then Err (Invalid "MCP value is not an advertised enum") else Ok b
  end.

Definition validate_limit (v s : Value) (values bytes : Z) : Result unit := _ ← visit 13 v s (mk_budget values bytes); Ok tt.
Definition validate (v s : Value) : Result unit := validate_limit v s 8192 65536.

(** ** Answers *)

Definition char_len (c : Z) : Z := Z.of_nat (length (encode_char c)).

Fixpoint take_chars (max : Z) (cs : list Z) : list Z :=
  match cs with
  | [] => []
  | c :: cs => if char_len c <=? max then c :: take_chars (max - char_len c) cs else []
  end.

(** [trim]: at most [max] bytes, without splitting a character *)
Definition cut (s : string) (max : Z) : Value := VString (if len s <=? max then s else of_chars (take_chars max (chars s))).

Definition rpc_error (code : Z) (id : Value) (number : Z) (message : string) : Result Response :=
  Response_json code (fields [("jsonrpc", VString "2.0"); ("id", id);
                              ("error", fields [("code", VNumber (Int number)); ("message", VString message)])]).

Definition rpc_result (id result : Value) : Result Response :=
  Response_json 200 (fields [("jsonrpc", VString "2.0"); ("id", id); ("result", result)]).

Definition text_content (v : Value) : Value := fields [("type", VString "text"); ("text", v)].

Definition tool_error (id : Value) (error : string) : Result Response :=
  rpc_result id (fields [("content", VArray [text_content (cut error 4096)]); ("isError", VBool true)]).

Definition tool_result (id v : Value) (summary : string) (failed : bool) : Result Response :=
  let v := if bool_decide (is_Some (as_object v)) then v else fields [("result", v)] in
  encoded ← Templates.to_string v;
  if 256 * 1024 <? len encoded then tool_error id "tool result exceeds 256 KiB; use filters, pagination or an exact id"
  else
    let content := text_content (VString encoded) :: (if is_empty summary then [] else [text_content (cut summary 4096)]) in
    rpc_result id (fields [("content", VArray content); ("structuredContent", v); ("isError", VBool failed)]).

Definition with_header (name value : string) (r : Response) : Result Response :=
  h ← push (headers r) (name, value) 8; Ok (mk_response (status r) (content_type r) (body r) (cookie r) h).

(** ** The quality of a media type *)

(** The digits in front of a text. *)
Fixpoint digits_of (l : list Z) : list Z * list Z :=
  match l with
  | b :: l' => if between 48 b 57 then let '(d, r) := digits_of l' in (b :: d, r) else ([], l)
  | [] => ([], [])
  end.

Definition number_of (l : list Z) : Z := fold_left (fun n b => 10 * n + (b - 48)) l 0.

Definition exponent_of (l : list Z) : option Z :=
  match l with
  | [] => Some 0
  | e :: l =>
      if (e =? 101) || (e =? 69) then
        let '(neg, l) := match l with 45 :: l => (true, l) | 43 :: l => (false, l) | _ => (false, l) end in
        match digits_of l with
        | (d, []) => if bool_decide (d = []) then None else Some (if neg : bool then - number_of d else number_of d)
        | _ => None
        end
      else None
  end.

(** [str::parse::<f64>] *)
Definition parse_f64 (s : string) : option f64 :=
  let '(neg, l) := match as_bytes s with 45 :: l => (true, l) | 43 :: l => (false, l) | l => (false, l) end in
  let lower := of_bytes (map ascii_lower l) in
  if (lower =? "inf")%string || (lower =? "infinity")%string then Some (SpecFloat.S754_infinity neg)
  else if (lower =? "nan")%string then Some SpecFloat.S754_nan
  else
    let '(whole, l) := digits_of l in
    let '(part, l) := match l with 46 :: l => digits_of l | _ => ([], l) end in
    if bool_decide (whole ++ part = []) then None
    else e ← exponent_of l; Some (f64_of_decimal neg (number_of (whole ++ part)) (e - Z.of_nat (length part))).

(** [s.trim_matches(c)] *)
Fixpoint drop_byte (c : Z) (l : list Z) : list Z := match l with b :: l' => if b =? c then drop_byte c l' else l | [] => [] end.
Definition trim_matches (c : Z) (s : string) : string := of_bytes (rev (drop_byte c (rev (drop_byte c (as_bytes s))))).

Definition refused (part : string) : bool :=
  match Schedule.split_once "=" (trim part) with
  | Some (k, v) => eq_ignore_ascii_case k "q"
                   && negb match parse_f64 (trim_matches 34 (trim v)) with Some q => f_ltb (as_f64 (Uint 0)) q | None => false end
  | None => false
  end.

Definition accepts (header mime : string) : bool :=
  existsb (fun part => match split_text 59 (trim part) with
                       | [] => false
                       | type :: parameters => eq_ignore_ascii_case (trim type) mime && negb (existsb refused parameters)
                       end) (split_text 44 header).

(** ** Messages *)

Record Call : Type := mk_call { call_id : Value; call_name : string; call_args : Value }.

Inductive Dispatch : Type :=
  | Reply (r : Response)
  | Tool (c : Call).

Definition reply (r : Result Response) : Result Dispatch := x ← r; Ok (Reply x).

Definition same_origin (r : Request) : bool :=
  is_empty (r_origin r) || match origin_host r with Some h => (h =? r_host r)%string | None => false end.

Definition is_json (content_type : string) : bool :=
  eq_ignore_ascii_case (trim (before_first ";" content_type)) "application/json".

Definition is_id (v : Value) : bool := match v with VNull | VNumber _ | VString _ => true | _ => false end.

(** [data]: [data/mcp.json], with the instructions and the tools of the server. *)
Definition initialize (data : list Z) (id params : Value) : Result Dispatch :=
  let client := get_null params "clientInfo" in
  if is_empty (text params "protocolVersion") || negb (bool_decide (is_Some (as_object (get_null params "capabilities"))))
     || is_empty (text client "name") || is_empty (text client "version")
  then reply (rpc_error 200 id (-32602) "protocolVersion, capabilities and clientInfo name/version are required")
  else
    let asked := text params "protocolVersion" in
    let version := if existsb (String.eqb asked) VERSIONS then asked else "2025-11-25"%string in
    metadata ← json_parse data;
    reply (rpc_result id (fields
      [("protocolVersion", VString version); ("capabilities", fields [("tools", fields [("listChanged", VBool false)])]);
       ("serverInfo", fields [("name", VString "stulp"); ("version", VString WebApi.VERSION_TEXT)]);
       ("instructions", get_null metadata "instructions")])).

Definition call_tool (data : list Z) (id params : Value) : Result Dispatch :=
  let name := trimmed params "name" in
  catalog ← json_parse data;
  match find (fun t => (text t "name" =? name)%string) (array catalog "tools") with
  | None => reply (rpc_error 200 id (-32602) "unknown tool")
  | Some tool =>
      let args := default object (get params "arguments") in
      match validate args (get_null tool "inputSchema") with
      | Err e => reply (tool_error id (Mutations.error_text e))
      | Ok _ => Ok (Tool (mk_call id name args))
      end
  end.

Definition method_of (data : list Z) (v id : Value) : Result Dispatch :=
  let params := get_null v "params" in
  let method := text v "method" in
  if (method =? "initialize")%string then initialize data id params
  else if (method =? "ping")%string then reply (rpc_result id object)
  else if (method =? "tools/list")%string then
    metadata ← json_parse data; reply (rpc_result id (fields [("tools", get_null metadata "tools")]))
  else if (method =? "tools/call")%string then call_tool data id params
  else reply (rpc_error 200 id (-32601) "method not found").

Definition message (data : list Z) (r : Request) (v : Value) : Result Dispatch :=
  let id := get_null v "id" in
  let version := trim (text (r_headers r) "mcp-protocol-version") in
  if negb (bool_decide (is_Some (as_object v))) || negb (text v "jsonrpc" =? "2.0")%string || is_empty (trimmed v "method") || negb (is_id id)
  then reply (rpc_error 200 VNull (-32600) "invalid request")
  else if match get v "params" with Some p => negb (bool_decide (is_Some (as_object p))) | None => false end
  then reply (rpc_error 200 id (-32602) "params must be an object")
  else if bool_decide (get v "id" = None) then Ok (Reply (mk_response 202 "application/json" (Static []) None []))
  else if negb (is_empty version) && negb (existsb (String.eqb version) VERSIONS)
  then reply (rpc_error 400 id (-32602) "unsupported MCP-Protocol-Version")
  else method_of data v id.

Definition decode (data : list Z) (r : Request) : Result Dispatch :=
  let refuse code number message := reply (rpc_error code VNull number message) in
  if negb (same_origin r) then refuse 403 (-32600) "origin does not match this Stulp host"
  else if negb (r_method r =? "POST")%string then
    reply (x ← rpc_error 405 VNull (-32600) "this stateless MCP server accepts POST only"; with_header "Allow" "POST" x)
  else if negb (is_json (text (r_headers r) "content-type")) then refuse 415 (-32600) "MCP requests need Content-Type: application/json"
  else if negb (accepts (text (r_headers r) "accept") "application/json") || negb (accepts (text (r_headers r) "accept") "text/event-stream")
  then refuse 400 (-32600) "MCP requests must accept application/json and text/event-stream"
  else if 256 * 1024 <? Z.of_nat (length (r_body r)) then refuse 200 (-32700) "MCP request exceeds 256 KiB"
  else
    match json_parse (r_body r) with
    | Err _ => refuse 200 (-32700) "parse error"
    | Ok v => message data r v
    end.

(** * What an assistant may see *)

Class Unicode := { wide_lowercase : Z -> list Z }.

Section Tools.
Context {St : Type} {HS : Storage St} {HU : Unicode}.
Implicit Types store : Store St.

(** [char::to_lowercase] *)
Definition to_lowercase (c : Z) : list Z := if c <? 128 then [ascii_lower c] else wide_lowercase c.
Definition lower (s : string) : string := of_chars (flat_map to_lowercase (chars s)).
Definition contains (haystack needle : string) : bool := Templates.contains_str (lower needle) (lower haystack).

(** ** What is shown *)

Fixpoint limited (keys : list string) (max : Z) (v out : Value) : Result Value :=
  match keys with
  | [] => Ok out
  | key :: keys =>
      let s := text v key in
      if is_empty s then limited keys max v out
      else out ← set out key (cut s max); limited keys max v out
  end.

(** [for _ in 0..16]: the groups around a group, the nearest first *)
Fixpoint ancestry (fuel : nat) store (id : string) : list Value :=
  match fuel with
  | O => []
  | S fuel =>
      if is_empty id then []
      else match record (document store) "deviceGroups" id with
           | Ok g => g :: ancestry fuel store (text g "parentId")
           | Err _ => []
           end
  end.

Definition cut_text (s : string) (max : Z) : string := default EmptyString (as_str (cut s max)).

Fixpoint join_path (names : list string) (path : string) : string :=
  match names with
  | [] => path
  | n :: names => join_path names ((if is_empty path then path else path ++ " / ") ++ n)%string
  end.

Definition group_path store (id : string) : string :=
  join_path (map (fun g => cut_text (text g "name") 500) (rev (ancestry 16 store id))) EmptyString.

Definition in_group store (d : Value) (id : string) : bool :=
  existsb (fun g => (text g "id" =? id)%string) (ancestry 16 store (text d "groupId")).

Definition group_object store (group : Value) : Result Value :=
  let id := text group "id" in
  let devices := records (document store) "devices" in
  let direct := length (List.filter (fun d => (text d "groupId" =? id)%string) devices) in
  let nested := length (List.filter (fun d => in_group store d id) devices) in
  let g := fields [("id", cut id 256); ("name", cut (text group "name") 500); ("path", VString (group_path store id));
                   ("deviceCount", value_uint (Z.of_nat direct))] in
  g ← (if (nested =? direct)%nat then Ok g else set g "deviceCountIncludingSubgroups" (value_uint (Z.of_nat nested)));
  limited ["parentId"] 256 group g.

Definition groups store : Result Value :=
  l ← push_all (group_object store) 4096 (records (document store) "deviceGroups") []; Ok (VArray l).

(** [u64::clamp] *)
Definition page_limit (args : Value) : Z := Z.min 100 (Z.max 1 (default 50 (get args "limit" ≫= as_u64))).

Definition page (values : list Value) (key : string) (args : Value) : Result Value :=
  let total := Z.of_nat (length values) in
  let offset := uint args "offset" in
  let limit := page_limit args in
  let end_ := saturating_add offset limit in
  let out := fields [(key, VArray (List.firstn (Z.to_nat limit) (List.skipn (Z.to_nat offset) values))); ("total", value_uint total)] in
  if end_ <? total then set out "nextOffset" (value_uint end_) else Ok out.

Definition has_cap (d : Value) (cap : string) : bool :=
  existsb (fun c => match as_str c with Some s => (s =? cap)%string | None => false end) (array d "capabilities").

Definition hardware (d : Value) : string :=
  let saved := text (get_null d "store") "__stulp.hardwareName" in
  if is_empty saved then text d "name" else saved.

Definition enum_id (v : Value) : Value := if bool_decide (is_Some (as_object v)) then get_null v "id" else v.

Definition enum_entry (lang : string) (v : Value) : Result (option Value) :=
  let id := enum_id v in
  if negb (is_simple id) || match as_str id with Some s => is_empty s || (256 <? Z.of_nat (length (chars s))) | None => false end
  then Ok None
  else
    let label := Manifest.localized (get_null v "title") lang in
    label ← (if is_empty label || (500 <? Z.of_nat (length (chars label)))
             then match as_str id with Some s => Ok s | None => Templates.to_string id end
             else Ok label);
    Ok (Some (fields [("id", id); ("title", VString label)])).

Fixpoint enum_entries (lang : string) (l : list Value) (out : list Value) : Result (list Value) :=
  match l with
  | [] => Ok out
  | v :: l => e ← enum_entry lang v; out ← match e with Some e => push out e 128 | None => Ok out end; enum_entries lang l out
  end.

Definition enums (raw : Value) (lang : string) : Result (list Value) :=
  enum_entries lang (List.firstn 128 (default [] (as_array raw))) [].

Definition set_array (v : Value) (key : string) (l : list Value) : Result Value :=
  if bool_decide (l = []) then Ok v else set v key (VArray l).

(** A capability as an assistant sees it. *)
Definition capability_object store (d : Value) (cap : string) : Result Value :=
  def ← output store d cap;
  let out := fields [("id", cut cap 256); ("title", cut (title cap (get_null def "title") (language store)) 500);
                     ("type", get_null def "type"); ("getable", VBool (boolean def "getable"));
                     ("setable", VBool (boolean def "setable")); ("hasValue", VBool false)] in
  let value := get_null def "value" in
  out ← (if is_simple value
         then out ← set out "hasValue" (VBool true);
              set out "value" (match as_str value with Some s => cut s 2048 | None => value end)
         else Ok out);
  out ← apply_keys ["min"; "max"; "step"; "units"] def out;
  choices ← enums (get_null def "values") (language store);
  set_array out "values" choices.

Fixpoint capability_objects store (d : Value) (caps : list string) (out : Object) : Result Object :=
  match caps with
  | [] => Ok out
  | cap :: caps => v ← capability_object store d cap; capability_objects store d caps (obj_push out cap v)
  end.

Definition device_object store (d : Value) (only : string) (detail : bool) : Result Value :=
  let caps := omap as_str (array d "capabilities") in
  let out := fields [("id", cut (text d "id") 256); ("name", cut (text d "name") 500); ("class", cut (text d "class") 256);
                     ("available", VBool (boolean d "available"))] in
  out ← (if detail then
           out ← limited ["appId"] 256 d out;
           out ← set out "hardwareName" (cut (hardware d) 500);
           o ← capability_objects store d (List.filter (fun c => is_empty only || (c =? only)%string) caps) [];
           set out "capabilities" (VObject o)
         else
           l ← push_all (fun c => Ok (cut c 256)) 4096 caps [];
           set out "capabilities" (VArray l));
  let path := group_path store (text d "groupId") in
  out ← (if is_empty path then Ok out else set out "group" (VString path));
  let message := text d "unavailableMessage" in
  if (detail || negb (boolean d "available")) && negb (is_empty message) then set out "unavailableMessage" (cut message 2048) else Ok out.

Fixpoint any_setable store (d : Value) (caps : list string) : Result bool :=
  match caps with
  | [] => Ok false
  | c :: caps => def ← definition store d c; rest ← any_setable store d caps; Ok (boolean def "setable" || rest)
  end.

(** Whether a device of the list is asked for. *)
Definition wanted_device store (args d : Value) : Result bool :=
  let cap := trimmed args "capabilityId" in
  let group := trimmed args "groupId" in
  let search := trimmed args "search" in
  if (negb (is_empty group) && negb (in_group store d group)) || (boolean args "availableOnly" && negb (boolean d "available"))
  then Ok false
  else if negb (is_empty search) && negb (contains (text d "id") search) && negb (contains (text d "name") search)
          && negb (contains (hardware d) search) && negb (contains (group_path store (text d "groupId")) search)
  then Ok false
  else if boolean args "writableOnly"
  then any_setable store d (List.filter (fun c => is_empty cap || (c =? cap)%string) (omap as_str (array d "capabilities")))
  else Ok true.

Fixpoint device_list store (args : Value) (rs out : list Value) : Result (list Value) :=
  match rs with
  | [] => Ok out
  | r :: rs =>
      let id := trimmed args "deviceId" in
      let cap := trimmed args "capabilityId" in
      if negb (is_empty id) && negb (text r "id" =? id)%string then device_list store args rs out
      else
        d ← device (text r "id") store;
        if negb (is_empty cap) && negb (has_cap d cap) then
          if is_empty id then device_list store args rs out else Err (Missing "device capability does not exist")
        else
          wanted ← (if is_empty id then wanted_device store args d else Ok true);
          if wanted : bool then
            v ← device_object store d cap (negb (is_empty id) || negb (is_empty cap));
            out ← push out v 4096; device_list store args rs out
          else device_list store args rs out
  end.

Definition devices store (args : Value) : Result Value :=
  let id := trimmed args "deviceId" in
  let group := trimmed args "groupId" in
  _ ← (if is_empty group then Ok VNull else record (document store) "deviceGroups" group);
  out ← device_list store args (records (document store) "devices") [];
  if negb (is_empty id) && bool_decide (out = []) then Err (Missing "device does not exist")
  else page out "devices" (if is_empty id then args else VNull).

(** ** Cards *)

Definition card_list (kind : string) : option string :=
  if (kind =? "trigger")%string then Some "triggers"%string
  else if (kind =? "condition")%string then Some "conditions"%string
  else if (kind =? "action")%string then Some "actions"%string else None.

Definition card (cards step : Value) : option Value :=
  let kind := Flow.card_kind (text step "cardType") in
  l ← card_list kind;
  find (fun c => (text c "appId" =? text step "appId")%string && (text c "id" =? text step "cardId")%string && (text c "type" =? kind)%string)
    (array cards l).

Definition allows (card : Value) (id : string) : bool :=
  negb (text card "scope" =? "device")%string
  || existsb (fun v => match as_str v with Some s => (s =? id)%string | None => false end) (array card "deviceIds").

Fixpoint localized_keys (keys : list string) (lang : string) (v p : Value) : Result Value :=
  match keys with
  | [] => Ok p
  | key :: keys =>
      let s := Manifest.localized (get_null v key) lang in
      p ← (if is_empty s then Ok p else set p key (cut s (if (key =? "units")%string then 256 else 2048)));
      localized_keys keys lang v p
  end.

Fixpoint scalar_keys (keys : list string) (v p : Value) : Result Value :=
  match keys with
  | [] => Ok p
  | key :: keys =>
      p ← (match get v key with
           | Some (VBool _ as w) | Some (VNumber _ as w) => set p key w
           | _ => Ok p
           end);
      scalar_keys keys v p
  end.

Definition argument_definition (lang : string) (v : Value) : Result Value :=
  p ← limited ["name"; "type"] 256 v object;
  p ← localized_keys ["title"; "hint"; "placeholder"; "filter"; "units"] lang v p;
  p ← scalar_keys ["optional"; "min"; "max"; "step"] v p;
  values ← enums (get_null v "values") lang;
  set_array p "values" values.

Definition definitions (raw : Value) (lang : string) : Result (list Value) :=
  push_all (argument_definition lang) 512 (List.filter (fun v => bool_decide (is_Some (as_object v))) (default [] (as_array raw))) [].

Definition wanted_card (args c : Value) : bool :=
  let device := trimmed args "deviceId" in
  let card := trimmed args "cardId" in
  let app := trimmed args "appId" in
  let search := trimmed args "search" in
  (negb (default true (get args "availableOnly" ≫= as_bool)) || boolean c "available")
  && (is_empty device || allows c device)
  && (is_empty card || (card =? text c "id")%string)
  && (is_empty app || (app =? text c "appId")%string)
  && (is_empty search || contains (text c "id") search || contains (text c "title") search || contains (text c "appName") search).

Definition card_object store (detail : bool) (c : Value) : Result Value :=
  p ← limited ["appId"; "id"; "type"] 256 c object;
  p ← limited ["appName"; "title"] 2048 c p;
  p ← set p "available" (VBool (boolean c "available"));
  if detail then
    p ← limited ["scope"; "deviceArgument"; "capability"] 256 c p;
    p ← limited ["titleFormatted"; "hint"] 2048 c p;
    args ← definitions (get_null c "args") (language store);
    p ← set_array p "args" args;
    tokens ← definitions (get_null c "tokens") (language store);
    set_array p "tokens" tokens
  else Ok p.

Definition wanted_kind (args : Value) (kind : string) : bool :=
  is_empty (trimmed args "kind") || (trimmed args "kind" =? kind)%string.

Definition cards_list store (args cards : Value) : Result Value :=
  let device := trimmed args "deviceId" in
  _ ← (if is_empty device then Ok VNull else record (document store) "devices" device);
  let of_kind '(kind, l) := if wanted_kind args kind then array cards l else [] in
  out ← push_all (card_object store (negb (is_empty (trimmed args "cardId")))) 8192
          (List.filter (wanted_card args) (flat_map of_kind [("trigger", "triggers"); ("condition", "conditions"); ("action", "actions")])) [];
  page out "cards" args.

(** ** Flows *)

Definition flow_summary (f : Value) : Result Value :=
  let p := fields [("id", get_null f "id"); ("name", get_null f "name"); ("enabled", VBool (boolean f "enabled"));
                   ("nodeCount", value_uint (Z.of_nat (length (array f "nodes")))); ("edgeCount", value_uint (Z.of_nat (length (array f "edges"))));
                   ("createdAt", VString (text f "createdAt")); ("updatedAt", VString (text f "updatedAt"))] in
  p ← limited ["lastRunAt"] 256 f p;
  limited ["lastError"] 2048 f p.

Definition acceptable (v : Value) : bool := is_ok (validate v VNull).

Fixpoint choice_keys (keys : list string) (v choice : Value) : Result Value :=
  match keys with
  | [] => Ok choice
  | k :: keys =>
      let w := get_null v k in
      choice ← (if negb (is_null w) && acceptable w then set choice k w else Ok choice);
      choice_keys keys v choice
  end.

(** The value of an argument that may be shown. *)
Definition shown_argument (type : string) (value : Value) : Result (option Value) :=
  if (type =? "device")%string then
    let id := text value "$device" in
    Ok (if is_empty id then None else Some (fields [("$device", cut id 256)]))
  else if (type =? "autocomplete")%string then
    choice ← choice_keys ["id"; "name"; "description"] value object;
    Ok (if is_null (get_null choice "id") then None else Some choice)
  else Ok (if acceptable value then Some value else None).

Fixpoint shown_arguments (defs : list Value) (stored args : Value) : Result Value :=
  match defs with
  | [] => Ok args
  | def :: defs =>
      let name := text def "name" in
      match get stored name with
      | None => shown_arguments defs stored args
      | Some value =>
          shown ← shown_argument (text def "type") value;
          args ← (match shown with Some v => set args name v | None => Ok args end);
          shown_arguments defs stored args
      end
  end.

Definition node_object (cards n : Value) : Result Value :=
  let s := get_null n "step" in
  let definition := default VNull (card cards s) in
  step ← limited ["appId"; "cardId"; "cardType"] 256 s object;
  args ← shown_arguments (array definition "args") (get_null s "args") object;
  step ← (match as_object args with Some (_ :: _) => set step "args" args | _ => Ok step end);
  step ← (if boolean s "inverted" then set step "inverted" (VBool true) else Ok step);
  Ok (fields [("id", get_null n "id"); ("x", default (value_uint 0) (get n "x")); ("y", default (value_uint 0) (get n "y")); ("step", step)]).

Definition edge_object (e : Value) : Value := fields [("id", get_null e "id"); ("from", get_null e "from"); ("to", get_null e "to")].

Definition flow_object store (cards f : Value) : Result Value :=
  f ← WebUnits.flow_convert store f false None;
  p ← flow_summary f;
  nodes ← push_all (node_object cards) 128 (array f "nodes") [];
  edges ← push_all (fun e => Ok (edge_object e)) 256 (array f "edges") [];
  p ← set p "nodes" (VArray nodes);
  set p "edges" (VArray edges).

Definition wanted_flow (args f : Value) : bool :=
  let search := trimmed args "search" in
  (is_empty search || contains (text f "id") search || contains (text f "name") search)
  && match get args "enabled" ≫= as_bool with Some e => Bool.eqb e (boolean f "enabled") | None => true end.

Definition flows_list store (args cards : Value) : Result Value :=
  let id := trimmed args "flowId" in
  let flows := records (document store) "flows" in
  out ← (if is_empty id then push_all flow_summary 4096 (List.filter (wanted_flow args) flows) []
         else push_all (flow_object store cards) 4096 (List.filter (fun f => (text f "id" =? id)%string) flows) []);
  if negb (is_empty id) && bool_decide (out = []) then Err (Missing "flow does not exist")
  else page out "flows" (if is_empty id then args else VNull).

Definition system_context store : Result Value :=
  units ← Units.filled (default object (get (get_null (root (document store)) "system") "units"));
  groups ← groups store;
  Ok (fields [("context", fields
    [("stulpVersion", VString VERSION_TEXT); ("language", VString (language store)); ("timezone", VString (timezone store));
     ("units", units); ("statistics", VBool (statistics_enabled store)); ("statisticsRunning", VBool (statistics_enabled store));
     ("deviceGroups", groups)])]).

(** [read::dispatch]: the tools that only look. *)
Definition read store (name : string) (args cards : Value) : Result (option Value) :=
  let some r := v ← r; Ok (Some v) in
  if (name =? "system_context")%string then some (system_context store)
  else if (name =? "devices_list")%string then some (devices store args)
  else if (name =? "flow_cards_list")%string then some (cards_list store args cards)
  else if (name =? "flows_list")%string then some (flows_list store args cards)
  else Ok None.

End Tools.

(** * What an assistant may do *)

(** ** Arguments *)

(** [s.split_once("{{")] and [tail.contains("}}")] *)
Definition has_token (s : string) : bool :=
  match Templates.split_str "{{" s with Some (_, tail) => Templates.contains_str "}}" tail | None => false end.

Fixpoint contains_token (v : Value) : bool :=
  match v with
  | VString s => has_token s
  | VArray a => existsb contains_token a
  | VObject o => existsb (fun p => match p with (_, w) => contains_token w end) o
  | _ => false
  end.

Definition choice (def v : Value) : bool := existsb (fun c => equal (enum_id c) v) (array def "values").

Definition capability_value (def value : Value) : Result unit :=
  let type := text def "type" in
  _ ← (if (type =? "boolean")%string then
         if bool_decide (is_Some (as_bool value)) then Ok tt else Err (Invalid "capability requires a boolean")
       else if (type =? "number")%string then
         match value with
         | VNumber n => if is_finite (as_f64 n) then bounds (as_f64 n) def "min" "max" else Err (Invalid "capability requires a finite number")
         | _ => Err (Invalid "capability requires a number")
         end
       else if (type =? "string")%string then
         if bool_decide (is_Some (as_str value)) then Ok tt else Err (Invalid "capability requires a string")
       else if (type =? "enum")%string then
         if choice def value then Ok tt else Err (Invalid "unknown capability enum value")
       else Ok tt);
  validate value VNull.

Definition is_digit (b : Z) : bool := between 48 b 57.

(** [HH:MM] *)
Definition is_time (s : string) : Result unit :=
  match Schedule.split_once ":" s with
  | None => Err (Invalid "time must use HH:MM")
  | Some (hour, min) =>
      let h := as_bytes hour in
      let m := as_bytes min in
      if bool_decide (h = []) || (2 <? Z.of_nat (length h)) || negb (Z.of_nat (length m) =? 2) || negb (forallb is_digit (h ++ m))
         || (23 <? number_of h) || (59 <? number_of m)
      then Err (Invalid "invalid 24-hour time") else Ok tt
  end.

Section Work.
Context {St : Type} {HS : Storage St} {E : Type} {HE : Environment E} {HU : Unicode}.
Implicit Types store : Store St.

(** The device arguments: each becomes one reference, and the one the card is about is kept. *)
Fixpoint device_arguments store (card : Value) (partial : bool) (defs : list Value) (args : Value) (chosen : option Value)
  : Result (Value * option Value) :=
  match defs with
  | [] => Ok (args, chosen)
  | def :: defs =>
      let name := text def "name" in
      let raw := get_null args name in
      if is_null raw && (partial || boolean def "optional") then device_arguments store card partial defs args chosen
      else
        let id := trim (match as_str raw with Some s => s | None => text raw "$device" end) in
        if is_empty id || match raw with VObject o => negb (length o =? 1)%nat | _ => false end
        then Err (Invalid "device argument needs a single $device reference")
        else
          d ← device id store;
          if negb (allows card id) then Err (Invalid "card cannot be used with this device")
          else
            let chosen := if bool_decide (chosen = None) || (text card "deviceArgument" =? name)%string then Some d else chosen in
            args ← set args name (fields [("$device", VString id)]);
            device_arguments store card partial defs args chosen
  end.

(** One argument that is not a device. *)
Definition check_argument store (card step args : Value) (chosen : option Value) (def value : Value) : Result unit :=
  let type := text def "type" in
  let of_device cap := match chosen with Some d => has_cap d cap | None => false end in
  if (type =? "text")%string then
    if bool_decide (is_Some (as_str value)) then Ok tt else Err (Invalid "card argument must be text")
  else if (type =? "number")%string then
    match value with VNumber n => bounds (as_f64 n) def "min" "max" | _ => Err (Invalid "card argument must be a number") end
  else if (type =? "time")%string then
    match as_str value with Some s => is_time s | None => Err (Invalid "time must use HH:MM") end
  else if (type =? "dropdown")%string then
    if choice def value then Ok tt else Err (Invalid "unknown dropdown id")
  else if (type =? "autocomplete")%string then
    if is_empty (trimmed value "id") then Err (Invalid "autocomplete requires a choice with id") else Ok tt
  else if (type =? "capability")%string then
    let id := default EmptyString (as_str value) in
    if is_empty id || negb (of_device id) then Err (Invalid "device does not expose capability") else Ok tt
  else if (type =? "capability-value")%string then
    d ← ok_or chosen (Invalid "capability value needs selected device");
    let cap := text card "capability" in
    let cap := if is_empty cap then text args "capability" else cap in
    if negb (has_cap d cap) then Err (Invalid "device does not expose capability")
    else
      def ← output store d cap;
      if (text step "cardType" =? "action")%string && negb (boolean def "setable") then Err (Invalid "capability is read-only")
      else capability_value def value
  else Err (Invalid "unsupported Flow argument type").

Fixpoint check_arguments store (card step args : Value) (chosen : option Value) (defs : list Value) : Result unit :=
  match defs with
  | [] => Ok tt
  | def :: defs =>
      let name := text def "name" in
      let value := get_null args name in
      if is_empty name then check_arguments store card step args chosen defs
      else if is_null value then
        if boolean def "optional" then check_arguments store card step args chosen defs
        else Err (Invalid "required Flow card argument missing")
      else if bool_decide (is_Some (as_str value)) && contains_token value then check_arguments store card step args chosen defs
      else _ ← check_argument store card step args chosen def value; check_arguments store card step args chosen defs
  end.

Definition is_device_argument (def : Value) : bool := (text def "type" =? "device")%string.

Definition unknown_argument (card : Value) (o : Object) : bool :=
  existsb (fun k => negb (existsb (fun a => (text a "name" =? k)%string) (array card "args"))) (obj_keys o).

Definition normalize store (node cards : Value) (available unknown partial : bool) : Result Value :=
  let step := get_null node "step" in
  card ← ok_or (card cards step) (Missing "Flow card does not exist; read flow_cards_list first");
  if available && negb (boolean card "available") then Err (Invalid "Flow card is currently unavailable")
  else if boolean step "inverted" && negb (text step "cardType" =? "condition")%string then Err (Invalid "only conditions may be inverted")
  else
    let args := get_null step "args" in
    let args := if is_null args then object else args in
    o ← ok_or (as_object args) (Invalid "card args must be an object");
    if negb unknown && unknown_argument card o then Err (Invalid "card has no such argument")
    else
      '(args, chosen) ← device_arguments store card partial (List.filter is_device_argument (array card "args")) args None;
      _ ← (if partial then Ok tt
           else check_arguments store card step args chosen (List.filter (fun d => negb (is_device_argument d)) (array card "args")));
      step ← set step "args" args;
      set node "step" step.

Fixpoint normalize_all store (cards : Value) (nodes : list Value) : Result (list Value) :=
  match nodes with
  | [] => Ok []
  | n :: nodes => n ← normalize store n cards true false false; nodes ← normalize_all store cards nodes; Ok (n :: nodes)
  end.

(** ** Editing Flows *)

Local Abbreviation W := (W (St := St) (E := E)).

(** [values] *)
Definition values (v : Value) (key : string) : Result (list Value) := push_all Ok 512 (array v key) [].

(** [ids]: what has no id gets one. *)
Fixpoint fresh_ids (l : list Value) : W (list Value) :=
  match l with
  | [] => retW []
  | v :: l =>
      let% v := (if is_empty (trimmed v "id") then let% id := idW in liftW (set v "id" (VString id)) else retW v) in
      let% l := fresh_ids l in retW (v :: l)
  end.

(** What an edit makes of a Flow: its nodes and connections, and what it reports. *)
Record Edited : Type := mk_edited { e_flow : Value; e_nodes : list Value; e_edges : list Value; e_delta : Value }.

Fixpoint patch_args (o : Object) (a : Value) : Result Value :=
  match o with
  | [] => Ok a
  | (k, v) :: o => a ← (if is_null v then remove a k else set a k v); patch_args o a
  end.

Fixpoint patch_keys (keys : list string) (args v : Value) (changed : bool) : Result (Value * bool) :=
  match keys with
  | [] => Ok (v, changed)
  | k :: keys =>
      match get args k with
      | Some w => v ← set v k w; patch_keys keys args v true
      | None => patch_keys keys args v changed
      end
  end.

Definition create_flow store (cards args f : Value) : Result Edited :=
  f ← set f "name" (get_null args "name");
  f ← (match get args "enabled" with Some v => set f "enabled" v | None => Ok f end);
  nodes ← values args "nodes";
  edges ← values args "edges";
  nodes ← normalize_all store cards nodes;
  Ok (mk_edited f nodes edges object).

Definition update_flow (args f : Value) (nodes edges : list Value) : Result Edited :=
  '(f, changed) ← patch_keys ["name"; "enabled"] args f false;
  if changed : bool then Ok (mk_edited f nodes edges object) else Err (Invalid "provide name and/or enabled").

Definition add_cards (cards args f : Value) (nodes edges : list Value) : W Edited :=
  let% added := readW (fun store => l ← values args "nodes"; normalize_all store cards l) in
  let% added := fresh_ids added in
  let% names := liftW (push_all (fun n => Ok (get_null n "id")) 128 added []) in
  let% nodes := liftW (push_all Ok 128 added nodes) in
  let% more := liftW (values args "edges") in
  let% edges := liftW (push_all Ok 256 more edges) in
  let% delta := liftW (set object "nodeIds" (VArray names)) in
  retW (mk_edited f nodes edges delta).

(** [iter_mut().find(..)] *)
Fixpoint update_node (id : string) (f : Value -> Result Value) (nodes : list Value) : Result (list Value) :=
  match nodes with
  | [] => Err (Missing "Flow node does not exist")
  | n :: nodes => if (text n "id" =? id)%string then n ← f n; Ok (n :: nodes) else nodes ← update_node id f nodes; Ok (n :: nodes)
  end.

Definition configure_node store (cards args n : Value) : Result Value :=
  let step := get_null n "step" in
  '(step, changed) ← (match get args "args" ≫= as_object with
                      | Some patch =>
                          let a := get_null step "args" in
                          a ← patch_args patch (if is_null a then object else a);
                          step ← set step "args" a; Ok (step, true)
                      | None => Ok (step, false)
                      end);
  '(step, changed) ← patch_keys ["inverted"] args step changed;
  '(n, changed) ← patch_keys ["x"; "y"] args n changed;
  if changed : bool then n ← set n "step" step; normalize store n cards false true false
  else Err (Invalid "provide args, inverted, x and/or y").

Definition configure_card store (cards args f : Value) (nodes edges : list Value) : Result Edited :=
  let id := trimmed args "nodeId" in
  nodes ← update_node id (configure_node store cards args) nodes;
  delta ← set object "nodeId" (VString id);
  Ok (mk_edited f nodes edges delta).

Definition connect_cards (args f : Value) (nodes edges : list Value) : W Edited :=
  let% edge := (if is_empty (trimmed args "edgeId") then idW else retW (trimmed args "edgeId")) in
  let% edges := liftW (push edges (fields [("id", VString edge); ("from", VString (trimmed args "fromNodeId")); ("to", VString (trimmed args "toNodeId"))]) 256) in
  let% delta := liftW (set object "edgeId" (VString edge)) in
  retW (mk_edited f nodes edges delta).

Definition stays_connected (args e : Value) : bool :=
  let id := trimmed args "edgeId" in
  if is_empty id then negb (text e "from" =? trimmed args "fromNodeId")%string || negb (text e "to" =? trimmed args "toNodeId")%string
  else negb (text e "id" =? id)%string.

Definition disconnect_cards (args f : Value) (nodes edges : list Value) : Result Edited :=
  if is_empty (trimmed args "edgeId") && (is_empty (trimmed args "fromNodeId") || is_empty (trimmed args "toNodeId"))
  then Err (Invalid "provide edgeId or fromNodeId and toNodeId")
  else
    let rest := List.filter (stays_connected args) edges in
    let removed := Z.of_nat (length edges) - Z.of_nat (length rest) in
    if removed =? 0 then Err (Missing "connection does not exist")
    else delta ← set object "removedConnections" (value_uint removed); Ok (mk_edited f nodes rest delta).

Definition remove_card (args f : Value) (nodes edges : list Value) : Result Edited :=
  let id := trimmed args "nodeId" in
  let rest := List.filter (fun n => negb (text n "id" =? id)%string) nodes in
  if (length rest =? length nodes)%nat then Err (Missing "Flow node does not exist")
  else
    delta ← set object "removedNodeId" (VString id);
    Ok (mk_edited f rest (List.filter (fun e => negb (text e "from" =? id)%string && negb (text e "to" =? id)%string) edges) delta).

Definition change (name : string) (args cards f : Value) (nodes edges : list Value) : W Edited :=
  if (name =? "flows_create")%string then readW (fun store => create_flow store cards args f)
  else if (name =? "flows_update")%string then liftW (update_flow args f nodes edges)
  else if (name =? "flows_add_cards")%string then add_cards cards args f nodes edges
  else if (name =? "flows_configure_card")%string then readW (fun store => configure_card store cards args f nodes edges)
  else if (name =? "flows_connect_cards")%string then connect_cards args f nodes edges
  else if (name =? "flows_disconnect_cards")%string then liftW (disconnect_cards args f nodes edges)
  else if (name =? "flows_remove_card")%string then liftW (remove_card args f nodes edges)
  else liftW (Err (Invalid "unknown Flow edit")).

Definition save_flow (id : string) (before : option Value) (x : Edited) : W Value :=
  let% nodes := fresh_ids (e_nodes x) in
  let% edges := fresh_ids (e_edges x) in
  let% f := liftW (f ← set (e_flow x) "nodes" (VArray nodes); set f "edges" (VArray edges)) in
  let% f := readW (fun store => WebUnits.flow_convert store f true before) in
  let% _ := putW "flows" f (bool_decide (before = None)) ((fun v => uint v "revision") <$> before) in
  let% stored := recordW "flows" id in
  liftW (s ← flow_summary stored; set (e_delta x) "flow" s).

Definition delete_flow (id : string) : W Value :=
  let% _ := storeW (delete "flows" id) in
  retW (fields [("deleted", VBool true); ("flowId", VString id)]).

Definition edit (name : string) (args cards : Value) : W Value :=
  if (name =? "flows_create")%string then
    let% id := idW in
    let% x := change name args cards (fields [("id", VString id); ("enabled", VBool true)]) [] [] in
    save_flow id None x
  else
    let id := trimmed args "flowId" in
    if (name =? "flows_delete")%string then delete_flow id
    else
      let% before := recordW "flows" id in
      let% f := readW (fun store => WebUnits.flow_convert store before false None) in
      let% nodes := liftW (values f "nodes") in
      let% edges := liftW (values f "edges") in
      let% x := change name args cards f nodes edges in
      save_flow id (Some before) x.

(** ** Work for the controller *)

Inductive Projection : Type :=
  | Device (v : Value)
  | Autocomplete.

Inductive Work : Type :=
  | Done (v : Value)
  | Callback (app method : string) (params : Value) (projection : Projection)
  | Scene (id : string) (on : bool) (result : Value)
  | RunFlow (definition : Value) (persist : bool)
  | CreateVirtual (name : string).

Definition EDITS : list string :=
  ["flows_create"; "flows_update"; "flows_add_cards"; "flows_configure_card"; "flows_connect_cards"; "flows_disconnect_cards";
   "flows_remove_card"; "flows_delete"].

Definition write_device store (a : Value) : Result Work :=
  let id := trimmed a "deviceId" in
  let cap := trimmed a "capabilityId" in
  d ← device id store;
  if negb (has_cap d cap) then Err (Missing "device capability does not exist")
  else
    def ← output store d cap;
    _ ← capability_value def (get_null a "value");
    canonical ← input store d cap (get_null a "value");
    let result := fields [("accepted", VBool true); ("deviceId", VString id); ("capabilityId", VString cap);
                          ("requestedValue", get_null a "value")] in
    result ← (if is_simple (get_null def "value") then set result "lastReportedValue" (get_null def "value") else Ok result);
    result ← (match get def "units" with Some u => set result "requestedUnits" u | None => Ok result end);
    if (text d "appId" =? APP_ID)%string then
      on ← ok_or (as_bool canonical) (Invalid "scene requires boolean");
      Ok (Scene (text (get_null d "data") "sceneId") on result)
    else
      Ok (Callback (text d "appId") "capability.invoke"
            (fields [("deviceId", VString id); ("capability", VString cap); ("value", canonical); ("options", object)]) (Device result)).

Definition autocomplete store (a cards : Value) : Result Work :=
  node ← normalize store (fields [("step", a)]) cards true false true;
  let step := get_null node "step" in
  card ← ok_or (card cards step) (Missing "card missing");
  if negb (existsb (fun v => (text v "name" =? trimmed a "argument")%string && (text v "type" =? "autocomplete")%string) (array card "args"))
  then Err (Invalid "card has no such autocomplete argument")
  else
    Ok (Callback (trimmed a "appId") "flow.autocomplete"
          (fields [("kind", VString (trimmed a "cardType")); ("id", VString (trimmed a "cardId")); ("argument", VString (trimmed a "argument"));
                   ("query", VString (trimmed a "query")); ("args", get_null step "args")]) Autocomplete).

Definition START : Value :=
  fields [("id", VString "start");
          ("step", fields [("appId", VString "stulp"); ("cardId", VString "manual"); ("cardType", VString "trigger")])].

Definition run_action store (a cards : Value) : Result Work :=
  if contains_token (get_null a "args") then Err (Invalid "flow_action_run has no trigger context; use literal values")
  else
    step ← set a "cardType" (VString "action");
    node ← normalize store (fields [("id", VString "action"); ("step", step)]) cards true false false;
    f ← WebUnits.flow_convert store
          (fields [("id", VString EmptyString); ("name", VString "MCP action"); ("enabled", VBool true); ("nodes", VArray [START; node]);
                   ("edges", VArray [fields [("id", VString "edge"); ("from", VString "start"); ("to", VString "action")]])]) true None;
    Ok (RunFlow f false).

Definition prepare (call : Call) (cards : Value) : W Work :=
  let name := call_name call in
  let a := call_args call in
  let% seen := readW (fun store => read store name a cards) in
  match seen with
  | Some v => retW (Done v)
  | None =>
      if existsb (String.eqb name) EDITS then let% v := edit name a cards in retW (Done v)
      else if (name =? "devices_write")%string then readW (fun store => write_device store a)
      else if (name =? "flow_card_autocomplete")%string then readW (fun store => autocomplete store a cards)
      else if (name =? "flows_run")%string then let% f := recordW "flows" (trimmed a "flowId") in retW (RunFlow f true)
      else if (name =? "flow_action_run")%string then readW (fun store => run_action store a cards)
      else if (name =? "devices_create")%string then
        if is_empty (trimmed a "name") then liftW (Err (Invalid "virtual device name cannot be empty"))
        else retW (CreateVirtual (trimmed a "name"))
      else liftW (Err (Invalid "unknown MCP tool"))
  end.

(** ** Projections of results *)

Fixpoint suggestions (l out : list Value) : Result (list Value) :=
  match l with
  | [] => Ok out
  | v :: l =>
      if is_empty (text v "id") || is_empty (text v "name") then suggestions l out
      else
        let item := fields [("id", cut (text v "id") 500); ("name", cut (text v "name") 500)] in
        item ← (if is_empty (text v "description") then Ok item else set item "description" (cut (text v "description") 2048));
        out ← push out item 50; suggestions l out
  end.

Definition projected (p : Projection) (value : Value) : Result Value :=
  match p with
  | Device result => Ok result
  | Autocomplete =>
      out ← suggestions (List.firstn 50 (List.filter (fun v => bool_decide (is_Some (as_object v))) (default [] (as_array value)))) [];
      Ok (fields [("total", value_uint (Z.of_nat (length out))); ("values", VArray out)])
  end.

Definition created store (id : string) : Result Value :=
  d ← device id store;
  v ← device_object store d EmptyString true;
  Ok (fields [("created", VBool true); ("type", VString "virtual_switch"); ("device", v)]).

Fixpoint copied (keys : list string) (v out : Value) : Result Value :=
  match keys with
  | [] => Ok out
  | k :: keys => out ← (match get v k with Some w => set out k w | None => Ok out end); copied keys v out
  end.

Definition executed_step (s : Value) : Result Value :=
  step ← copied ["appId"; "cardId"; "cardType"; "passed"] s object;
  let v := get_null s "result" in
  if is_null v then Ok step
  else if is_ok (validate_limit v VNull 512 8192) then set step "result" v
  else set step "resultOmitted" (VBool true).

Definition executed (raw : Value) (kind : string) (result : Value) : Result Value :=
  steps ← push_all executed_step 128 (array raw kind) []; set result kind (VArray steps).

Definition execution (raw : Value) (action : bool) : Result Value :=
  result ← copied ["flowId"; "success"; "stopped"; "ranAt"] raw object;
  result ← (if is_empty (text raw "error") then Ok result else set result "error" (cut (text raw "error") 4096));
  result ← executed raw "actions" result;
  result ← executed raw "conditions" result;
  if action then Ok (fields [("action", match array result "actions" with s :: _ => s | [] => VNull end)])
  else Ok (fields [("execution", result)]).

Definition scene_state (s : Value) : Result Value :=
  let p := fields [("deviceId", cut (text s "deviceId") 256); ("capabilityId", cut (text s "capabilityId") 256);
                   ("success", VBool (boolean s "success"))] in
  p ← (if is_empty (text s "error") then Ok p else set p "error" (cut (text s "error") 4096));
  p ← (if boolean s "unchanged" then set p "unchanged" (VBool true) else Ok p);
  let value := get_null s "value" in
  if is_simple value then set p "value" (match as_str value with Some t => cut t 2048 | None => value end)
  else if is_null value then Ok p else set p "valueOmitted" (VBool true).

(** The states within 96 KiB, and how many are left out. *)
Fixpoint scene_states (l : list Value) (bytes : Z) (out : list Value) : Result (list Value * Z) :=
  match l with
  | [] => Ok (out, 0)
  | s :: rest =>
      p ← scene_state s;
      t ← Templates.to_string p;
      let bytes := bytes + len t in
      if 96 * 1024 <? bytes then Ok (out, Z.of_nat (length l))
      else out ← push out p 256; scene_states rest bytes out
  end.

Fixpoint copied_null (keys : list string) (v out : Value) : Result Value :=
  match keys with
  | [] => Ok out
  | k :: keys => out ← set out k (get_null v k); copied_null keys v out
  end.

Definition scene (result raw : Value) : Result Value :=
  let scene := fields [("sceneId", cut (text raw "sceneId") 256); ("sceneName", cut (text raw "sceneName") 500)] in
  scene ← copied_null ["requestedOn"; "momentary"; "active"; "success"; "attempted"; "succeeded"; "failed"] raw scene;
  '(states, omitted) ← scene_states (array raw "states") 0 [];
  scene ← (if omitted =? 0 then Ok scene else set scene "statesOmitted" (value_uint omitted));
  scene ← set scene "states" (VArray states);
  result ← set result "accepted" (VBool (boolean raw "success" || (0 <? uint raw "attempted")));
  set result "sceneActivation" scene.

End Work.
