(* ===== verification/McpOk.v ===== *)
(** * McpOk: what the MCP server lets an assistant do

    What is accepted satisfies its schema ([satisfies]) and keeps to a budget, only checked calls
    reach a tool, pages show every entry once, and the preparation of an edit of a Flow happens
    as a whole or not at all. *)

From Stdlib Require Import ZArith Lia Ascii String.
From S2P Require Import Prelude Text Errors Slots Float Value Json Document Stats Store StoreDoc StoreInv StoreDocOps StoreOk StoreProps Scenes Web Capability WebUnits WebApi WebServe WebOk Mcp.
From S2P Require Units Templates Flow Mutations.

Local Open Scope Z_scope.

(** ** Bounds of what a schema accepts *)


(** How many values a value has. *)
Fixpoint values_of (v : Value) : Z :=
  1 + match v with
      | VArray l => foldr Z.add 0 (map values_of l)
      | VObject o => foldr Z.add 0 (map (fun p => match p with (_, w) => values_of w end) o)
      | _ => 0
      end.

Fixpoint depth_of (v : Value) : nat :=
  S match v with
    | VArray l => foldr Nat.max O (map depth_of l)
    | VObject o => foldr Nat.max O (map (fun p => match p with (_, w) => depth_of w end) o)
    | _ => O
    end.

(** The bytes of its texts and keys, with four for every value. *)
Fixpoint weight_of (v : Value) : Z :=
  4 + match v with
      | VString s => len s
      | VArray l => foldr Z.add 0 (map weight_of l)
      | VObject o => foldr Z.add 0 (map (fun p => match p with (k, w) => len k + weight_of w end) o)
      | _ => 0
      end.

Definition solvent (b : Budget) : Prop := 0 <= b_values b /\ 0 <= b_bytes b.

(** What is spent between two budgets. *)
Definition spent (n w : Z) (b b' : Budget) : Prop := b_values b' + n <= b_values b /\ b_bytes b' + w <= b_bytes b /\ solvent b'.

Lemma len_not_negative s : 0 <= len s. Proof. unfold len. lia. Qed.

Lemma take_spent n b b' : Mcp.take n b = Ok b' -> solvent b -> spent 0 n b b'.
Proof. unfold Mcp.take. destruct (Z.ltb_spec (b_bytes b) n); [done|]. intros [= <-] [? ?]. repeat split; cbn; lia. Qed.

Lemma take_value_spent b b' : take_value b = Ok b' -> solvent b -> spent 1 0 b b'.
Proof. unfold take_value. destruct (Z.ltb_spec (b_values b) 1); [done|]. intros [= <-] [? ?]. repeat split; cbn; lia. Qed.

Lemma spent_trans n w m x b b1 b2 : spent n w b b1 -> spent m x b1 b2 -> spent (n + m) (w + x) b b2.
Proof. unfold spent. intros (?&?&?) (?&?&?). repeat split; try lia; by apply H4. Qed.

Lemma spent_less n w m x b b' : spent n w b b' -> m <= n -> x <= w -> spent m x b b'.
Proof. unfold spent. intros (?&?&?) ??. repeat split; try lia; by apply H1. Qed.

Lemma spent_refl b : solvent b -> spent 0 0 b b.
Proof. intros ?. repeat split; try lia; by apply H. Qed.

Lemma visit_spent fuel : forall v s b b', visit fuel v s b = Ok b' -> solvent b ->
  spent (values_of v) (weight_of v) b b' /\ (depth_of v <= fuel)%nat.
Proof.
  induction fuel as [|fuel IH]; intros v s b b' H Hb; [done|]. cbn [visit] in H.
  step_ok H. apply take_value_spent in E as E1; [|done]. step_ok H. apply take_spent in E0 as E2; [|apply E1].
  pose proof (spent_trans _ _ _ _ _ _ _ E1 E2) as E3. clear E E0 E1 E2 a. cbv zeta in H. step_ok H. step_ok H.
  assert (b' = a) as -> by (destruct (not_listed s v); [done|by injection H]). clear H.
  assert (solvent a0) as Ha by apply E3.
  destruct v as [|bo|n|t|l|o].
  - injection E0 as ->. split; [|cbn; lia]. eapply spent_less; [exact E3|cbn; lia..].
  - injection E0 as ->. split; [|cbn; lia]. eapply spent_less; [exact E3|cbn; lia..].
  - step_ok E0. do 2 step_ok E0. apply take_spent in E0; [|done]. split; [|cbn; lia].
    eapply spent_less; [exact (spent_trans _ _ _ _ _ _ _ E3 E0)|cbn [values_of weight_of]; pose proof (len_not_negative a2); lia..].
  - step_ok E0. step_ok E0. apply take_spent in E2; [|done]. step_ok E0. injection E0 as ->. split; [|cbn; lia].
    eapply spent_less; [exact (spent_trans _ _ _ _ _ _ _ E3 E2)|cbn [values_of weight_of]; lia..].
  - step_ok E0. step_ok E0. clear E E1 E2 a1.
    enough (spent (foldr Z.add 0 (map values_of l)) (foldr Z.add 0 (map weight_of l)) a0 a /\ (foldr Nat.max O (map depth_of l) <= fuel)%nat) as [H1 H2].
    { split; [|cbn [depth_of]; lia]. eapply spent_less; [exact (spent_trans _ _ _ _ _ _ _ E3 H1)|cbn [values_of weight_of]; lia..]. }
    clear E3. revert a0 E0 Ha. induction l as [|c l IHl]; intros a0 E0 Ha; [injection E0 as ->; split; [by apply spent_refl|cbn; lia]|].
    step_ok E0. rename E into E1. apply IH in E1 as [E1 Hd]; [|done]. destruct (IHl _ E0) as [H1 H2]; [apply E1|].
    split; [exact (spent_trans _ _ _ _ _ _ _ E1 H1)|cbn; lia].
  - step_ok E0. step_ok E0. clear E E1 E2.
    enough (spent (foldr Z.add 0 (map (fun p => match p with (_, w) => values_of w end) o))
                  (foldr Z.add 0 (map (fun p => match p with (k, w) => len k + weight_of w end) o)) a0 a
            /\ (foldr Nat.max O (map (fun p => match p with (_, w) => depth_of w end) o) <= fuel)%nat) as [H1 H2].
    { split; [|cbn [depth_of]; lia]. eapply spent_less; [exact (spent_trans _ _ _ _ _ _ _ E3 H1)|cbn [values_of weight_of]; lia..]. }
    clear E3. revert a0 E0 Ha. induction o as [|[k c] o IHo]; intros a0 E0 Ha; [injection E0 as ->; split; [by apply spent_refl|cbn; lia]|].
    step_ok E0. step_ok E0. rename E1 into E2. apply take_spent in E2; [|done].
    assert (exists s', (b1 ← visit fuel c s' a1;
      (fix go (o : Object) (b : Budget) : Result Budget := match o with [] => Ok b | (key, c) :: o =>
         if 256 <? len key then Err (Invalid "MCP object key too large") else b ← Mcp.take (len key) b;
         match get (get_null s "properties") key with
         | None => if (match get s "additionalProperties" ≫= as_bool with Some a => a | None => is_null (get_null s "properties") end)
                   then b ← visit fuel c VNull b; go o b else Err (Invalid "unknown MCP argument")
         | Some schema => b ← visit fuel c schema b; go o b end end) o b1) = Ok a) as [s' E4].
    { destruct (get _ k) as [sc|]; [by exists sc|]. destruct (match _ ≫= _ with Some _ => _ | None => _ end); [by exists VNull|done]. }
    clear E0. step_ok E4. apply IH in E0 as [E0 Hd]; [|apply E2]. destruct (IHo _ E4) as [H1 H2]; [apply E0|].
    split; [|cbn; lia]. eapply spent_less; [exact (spent_trans _ _ _ _ _ _ _ (spent_trans _ _ _ _ _ _ _ E2 E0) H1)|cbn; lia..].
Qed.

(** ** What it is to satisfy a schema *)

(** A finite number that is a whole number: its value [m * 2 ^ e] is an integer. *)
Definition whole (x : f64) : Prop :=
  match x with
  | SpecFloat.S754_zero _ => True
  | SpecFloat.S754_finite _ m e => exists k, Z.pos m * 2 ^ Z.max 0 e = k * 2 ^ Z.max 0 (- e)
  | _ => False
  end.

(** The type that a schema names, when it names one. *)
Inductive of_type : string -> Value -> Prop :=
| type_any v : of_type "" v
| type_null : of_type "null" VNull
| type_boolean b : of_type "boolean" (VBool b)
| type_number n : of_type "number" (VNumber n)
| type_integer n : whole (as_f64 n) -> of_type "integer" (VNumber n)
| type_string t : of_type "string" (VString t)
| type_array l : of_type "array" (VArray l)
| type_object o : of_type "object" (VObject o).

(** [n] keeps to the limits that the schema gives under two names. *)
Definition within (s : Value) (least most : string) (n : f64) : Prop :=
  (forall l, get s least = Some (VNumber l) -> f_ltb n (as_f64 l) = false)
  /\ (forall l, get s most = Some (VNumber l) -> f_ltb (as_f64 l) n = false).

(** The value is of the type and, where the schema lists them, one of the values. *)
Definition is_of (s v : Value) : Prop :=
  of_type (text s "type") v /\ forall l, get s "enum" = Some (VArray l) -> exists e, e ∈ l /\ equal e v = true.

(** The schema lets keys in that it does not describe. *)
Definition open_schema (s : Value) : Prop :=
  get s "additionalProperties" = Some (VBool true)
  \/ (forall b, get s "additionalProperties" <> Some (VBool b)) /\ get_null s "properties" = VNull.

(** [satisfies s v]: the value [v] satisfies the schema [s]. *)
Inductive satisfies : Value -> Value -> Prop :=
| satisfies_null s : is_of s VNull -> satisfies s VNull
| satisfies_bool s b : is_of s (VBool b) -> satisfies s (VBool b)
| satisfies_number s n : is_of s (VNumber n) -> is_finite (as_f64 n) = true -> within s "minimum" "maximum" (as_f64 n) ->
    satisfies s (VNumber n)
| satisfies_string s t : is_of s (VString t) -> within s "minLength" "maxLength" (as_f64 (Uint (Z.of_nat (length (chars t))))) ->
    satisfies s (VString t)
| satisfies_array s l : is_of s (VArray l) -> within s "minItems" "maxItems" (as_f64 (Uint (Z.of_nat (length l)))) ->
    Forall (satisfies (get_null s "items")) l -> satisfies s (VArray l)
| satisfies_object s o : is_of s (VObject o) ->
    (forall key, VString key ∈ array s "required" -> exists v, obj_get o key = Some v) ->
    Forall (fun kv => (exists sub, get (get_null s "properties") kv.1 = Some sub /\ satisfies sub kv.2)
                      \/ get (get_null s "properties") kv.1 = None /\ open_schema s /\ satisfies VNull kv.2) o ->
    satisfies s (VObject o).

Lemma whole_spec x : is_whole x = true -> whole x.
Proof.
  unfold is_whole, whole. destruct x as [| | |sg m e]; try done. intros [He|Hm]%orb_true_iff.
  - apply Z.leb_le in He. exists (Z.pos m * 2 ^ e). rewrite Z.max_r, Z.max_l by lia. by rewrite Z.pow_0_r, Z.mul_1_r.
  - apply Z.eqb_eq in Hm. destruct (Z.le_gt_cases 0 e) as [He|He].
    + exists (Z.pos m * 2 ^ e). rewrite Z.max_r, Z.max_l by lia. by rewrite Z.pow_0_r, Z.mul_1_r.
    + assert (2 ^ (- e) <> 0) by (apply Z.pow_nonzero; lia). exists (Z.pos m / 2 ^ (- e)). rewrite Z.max_l, Z.max_r by lia. rewrite Z.pow_0_r, Z.mul_1_r, Z.mul_comm.
      by apply Z_div_exact_full_2.
Qed.

Lemma of_type_spec kind v : wrong_type kind v = false ->
  (forall n, v = VNumber n -> kind = "integer"%string -> is_whole (as_f64 n) = true) -> of_type kind v.
Proof.
  unfold wrong_type. intros H Hw. destruct kind as [|a kind']; [constructor|]. set (kind := String a kind') in *. cbn [is_empty negb andb] in H.
  apply andb_false_iff in H as [H|H].
  - apply negb_false_iff, String.eqb_eq in H. rewrite H. destruct v; constructor.
  - apply negb_false_iff, andb_true_iff in H as [H1 H2]. apply String.eqb_eq in H1, H2. rewrite H1. destruct v; try done.
    constructor. by apply whole_spec, Hw.
Qed.

Lemma listed_spec s v : not_listed s v = false -> forall l, get s "enum" = Some (VArray l) -> exists e, e ∈ l /\ equal e v = true.
Proof.
  unfold not_listed. intros H l Hl. rewrite Hl in H. apply negb_false_iff, existsb_exists in H as (e & He & Heq).
  exists e. split; [by apply list_elem_of_In|done].
Qed.

Lemma bounds_spec n s least most : bounds n s least most = Ok tt -> within s least most n.
Proof.
  unfold bounds, out_of, get_null. intros H. destruct (_ || _) eqn:E; [done|]. apply orb_false_iff in E as [E1 E2].
  split; intros l Hl; [by rewrite Hl in E1|by rewrite Hl in E2].
Qed.

Lemma required_spec s o : missing_key s o = false -> forall key, VString key ∈ array s "required" -> exists v, obj_get o key = Some v.
Proof.
  unfold missing_key. intros H key Hk. destruct (obj_get o key) as [v|] eqn:Eo; [by exists v|]. exfalso.
  enough (existsb (fun k => match obj_get o k with Some _ => false | None => true end) (omap as_str (array s "required")) = true) by congruence.
  apply existsb_exists. exists key. rewrite Eo. split; [|done]. apply list_elem_of_In, list_elem_of_omap. by exists (VString key).
Qed.

Lemma open_schema_spec s :
  (match get s "additionalProperties" ≫= as_bool with Some a => a | None => is_null (get_null s "properties") end) = true -> open_schema s.
Proof.
  unfold open_schema. destruct (get s "additionalProperties") as [v|]; cbn [mbind option_bind].
  - destruct v as [|b| | | |]; cbn [as_bool]; [|intros ->; by left|..]; intros H; right; (split; [by intros b|by destruct (get_null s "properties")]).
  - intros H. right. split; [done|]. by destruct (get_null s "properties").
Qed.

Lemma visit_satisfies fuel : forall v s b b', visit fuel v s b = Ok b' -> satisfies s v.
Proof.
  induction fuel as [|fuel IH]; intros v s b b' H; [done|]. cbn [visit] in H. step_ok H. step_ok H. cbv zeta in H.
  destruct (wrong_type (text s "type") v) eqn:Et; [done|].
  match type of H with mbind _ ?x = _ => destruct x as [a1|] eqn:Ev; [|done] end. cbn [mbind result_bind] in H.
  destruct (not_listed s v) eqn:El; [done|]. pose proof (listed_spec _ _ El) as Hl. clear H E E0 El.
  assert ((forall n, v = VNumber n -> text s "type" = "integer"%string -> is_whole (as_f64 n) = true) -> is_of s v) as Hof
    by (intros Hw; split; [by apply of_type_spec|exact Hl]).
  destruct v as [|bo|n|t|l|o].
  - constructor. by apply Hof.
  - constructor. by apply Hof.
  - destruct (_ || _) eqn:Ew in Ev; [done|]. apply orb_false_iff in Ew as [Ef Ew]. apply negb_false_iff in Ef. step_ok Ev. destruct a2.
    constructor; [|done|by apply bounds_spec]. apply Hof. intros ? [= <-] Hk. rewrite Hk in Ew. by apply negb_false_iff in Ew.
  - destruct (_ <? _) in Ev; [done|]. step_ok Ev. step_ok Ev. destruct a3. constructor; [by apply Hof|by apply bounds_spec].
  - destruct (_ <? _) in Ev; [done|]. step_ok Ev. destruct a2. constructor; [by apply Hof|by apply bounds_spec|]. clear Hof Hl Et E.
    revert a0 Ev. induction l as [|c l IHl]; intros a0 Ev; [apply Forall_nil_2|].
    step_ok Ev. apply Forall_cons. split; [by eapply IH|by eapply IHl].
  - destruct (_ <? _) in Ev; [done|]. destruct (missing_key s o) eqn:Em; [done|]. constructor; [by apply Hof|by apply required_spec|].
    clear Hof Hl Et Em. revert a0 Ev. induction o as [|[k c] o IHo]; intros a0 Ev; [apply Forall_nil_2|].
    destruct (_ <? _) in Ev; [done|]. step_ok Ev. cbn [fst snd]. apply Forall_cons. cbn [fst snd].
    destruct (get (get_null s "properties") k) as [sub|] eqn:Ek.
    + step_ok Ev. split; [left; exists sub; split; [done|by eapply IH]|by eapply IHo].
    + destruct (match get s "additionalProperties" ≫= as_bool with Some a => a | None => is_null (get_null s "properties") end) eqn:Eo; [|done].
      step_ok Ev. split; [right; split_and!; [done|by apply open_schema_spec|by eapply IH]|by eapply IHo].
Qed.

(** ** Messages *)

Lemma reply_not_tool a c : reply a <> Ok (Tool c).
Proof. unfold reply. by destruct a. Qed.

Ltac no_reply H := first [discriminate H | by apply reply_not_tool in H].

(** What a request that reaches a tool has passed. *)
Record checked (data : list Z) (r : Request) (c : Call) : Prop := {
  ck_method : r_method r = "POST"%string;
  ck_origin : own_page r;
  ck_size : Z.of_nat (length (r_body r)) <= 262144;
  ck_tool : exists v catalog tool, json_parse (r_body r) = Ok v /\ json_parse data = Ok catalog
    /\ tool ∈ array catalog "tools" /\ text tool "name" = call_name c
    /\ call_args c = default object (get (get_null v "params") "arguments")
    /\ satisfies (get_null tool "inputSchema") (call_args c)
}.

(** The arguments keep to the budget of a call. *)
Definition within_budget (v : Value) : Prop := values_of v <= 8192 /\ (depth_of v <= 13)%nat /\ weight_of v <= 65536.

Lemma validate_spec (v s : Value) : validate v s = Ok tt -> satisfies s v /\ within_budget v.
Proof.
  unfold validate, validate_limit. intros H. destruct (visit 13 v s _) as [b|] eqn:Ev; [|done]. split; [by eapply visit_satisfies|].
  apply visit_spent in Ev as [(H1 & H2 & H3 & H4) Hd]; [|split; cbn; lia]. cbn [b_values b_bytes] in *. split_and!; [lia|done|lia].
Qed.

Lemma same_origin_spec r : same_origin r = true -> own_page r.
Proof.
  unfold same_origin. intros [H|H]%orb_true_iff; [left; by destruct (r_origin r)|]. apply origin_host_spec.
  destruct (origin_host r) as [h|]; [|done]. by apply String.eqb_eq in H as ->.
Qed.

Lemma call_tool_checked data id params c : call_tool data id params = Ok (Tool c) ->
  exists catalog tool, json_parse data = Ok catalog /\ tool ∈ array catalog "tools" /\ text tool "name" = call_name c
    /\ call_args c = default object (get params "arguments") /\ satisfies (get_null tool "inputSchema") (call_args c)
    /\ within_budget (call_args c).
Proof.
  unfold call_tool. cbv zeta. intros H. step_ok H.
  destruct (find _ _) as [tool|] eqn:Ef; [|no_reply H]. apply List.find_some in Ef as [Hin Hn%String.eqb_eq].
  destruct (validate _ _) as [[]|e] eqn:Ev; [|no_reply H]. injection H as <-. exists a, tool. apply validate_spec in Ev as [Hs Hb].
  split_and!; [done|by apply list_elem_of_In|done..].
Qed.

Lemma message_checked data r v c : message data r v = Ok (Tool c) ->
  exists id, call_tool data id (get_null v "params") = Ok (Tool c).
Proof.
  unfold message. cbv zeta. intros H. destruct (_ || _); [no_reply H|].
  destruct (match get v "params" with Some _ => _ | None => _ end); [no_reply H|]. destruct (bool_decide _); [done|].
  destruct (_ && _); [no_reply H|]. unfold method_of in H. cbv zeta in H.
  destruct (_ =? "initialize")%string.
  { unfold initialize in H. cbv zeta in H. destruct (_ || _); [no_reply H|]. step_ok H. no_reply H. }
  destruct (_ =? "ping")%string; [no_reply H|]. destruct (_ =? "tools/list")%string; [step_ok H; no_reply H|].
  destruct (_ =? "tools/call")%string; [by eexists|no_reply H].
Qed.

Lemma decode_checked data r c : decode data r = Ok (Tool c) -> checked data r c /\ within_budget (call_args c).
Proof.
  unfold decode. cbv zeta. intros H. destruct (same_origin r) eqn:Eo; [|no_reply H]. destruct (String.eqb_spec (r_method r) "POST"); [|no_reply H].
  cbn [negb] in H. destruct (negb _); [no_reply H|]. destruct (_ || _); [no_reply H|].
  destruct (Z.ltb_spec (256 * 1024) (Z.of_nat (length (r_body r)))); [no_reply H|].
  destruct (json_parse (r_body r)) as [v|] eqn:Ep; [|no_reply H]. apply message_checked in H as [id H].
  apply call_tool_checked in H as (catalog & tool & H1 & H2 & H3 & H4 & H5 & H6). split; [|done].
  split; [done|by apply same_origin_spec|lia|]. by exists v, catalog, tool.
Qed.

Lemma decode_fine data r c : decode data r = Ok (Tool c) -> fine (call_args c).
Proof.
  intros H. destruct (ck_tool _ _ _ (proj1 (decode_checked _ _ _ H))) as (v & cat & tool & Hv & _ & _ & _ & -> & _).
  apply fine_default; [done|]. intros w Hw. eapply fine_get; [|exact Hw]. apply uniq_get_null. by eapply json_parse_fine.
Qed.

(** ** Pages *)

(** A client that asks for the following page as long as there is one. *)
Fixpoint all_pages (fuel : nat) (l : list Value) (key : string) (args : Value) : Result (list Value) :=
  match fuel with
  | O => Err Full
  | S fuel =>
      p ← page l key args;
      match get p "nextOffset" with
      | None => Ok (array p key)
      | Some n => args ← set args "offset" n; rest ← all_pages fuel l key args; Ok (array p key ++ rest)
      end
  end.

Lemma page_limit_pos args : 1 <= page_limit args <= 100.
Proof. unfold page_limit. lia. Qed.

Lemma page_limit_offset args n args' : set args "offset" n = Ok args' -> page_limit args' = page_limit args.
Proof. intros H. unfold page_limit. by rewrite (get_set_ne _ _ _ _ _ H) by done. Qed.

Lemma page_gives l key args :
  key <> "total" -> key <> "nextOffset" -> 0 <= uint args "offset" -> Z.of_nat (length l) <= U64_MAX ->
  exists p, page l key args = Ok p
  /\ array p key = firstn (Z.to_nat (page_limit args)) (skipn (Z.to_nat (uint args "offset")) l)
  /\ get p "nextOffset" = if uint args "offset" + page_limit args <? Z.of_nat (length l)
                          then Some (value_uint (uint args "offset" + page_limit args)) else None.
Proof.
  intros Hk1 Hk2 H0 Hl. pose proof (page_limit_pos args). unfold page, saturating_add. cbv zeta.
  set (o := uint args "offset") in *. set (m := page_limit args) in *.
  assert ((Z.min U64_MAX (o + m) <? Z.of_nat (length l)) = (o + m <? Z.of_nat (length l))) as -> by (apply eq_true_iff_eq; rewrite !Z.ltb_lt; lia).
  assert ((key =? key)%string = true) as Hkk by apply String.eqb_refl.
  destruct (Z.ltb_spec (o + m) (Z.of_nat (length l))) as [Hlt|Hge].
  - rewrite Z.min_r by lia. destruct (set (fields _) "nextOffset" _) as [p|] eqn:Es; [|done]. exists p. split; [done|].
    rewrite (array_set_ne _ _ _ _ _ Es), (get_set_eq _ _ _ _ Es) by congruence. split; [|done].
    unfold array, get. cbn. by rewrite Hkk.
  - eexists. split; [reflexivity|]. unfold array, get. cbn. rewrite Hkk. split; [done|].
    destruct (String.eqb_spec key "nextOffset"); done.
Qed.

Lemma all_pages_from fuel : forall l key args,
  key <> "total" -> key <> "nextOffset" -> is_Some (as_object args) -> 0 <= uint args "offset" -> Z.of_nat (length l) <= U64_MAX ->
  (length (skipn (Z.to_nat (uint args "offset")) l) < fuel)%nat ->
  all_pages fuel l key args = Ok (skipn (Z.to_nat (uint args "offset")) l).
Proof.
  induction fuel as [|fuel IH]; intros l key args Hk1 Hk2 Ho H0 Hl Hf; [lia|]. cbn [all_pages].
  destruct (page_gives l key args Hk1 Hk2 H0 Hl) as (p & -> & Ha & Hn). cbn [mbind result_bind]. rewrite Ha, Hn. clear Ha Hn.
  pose proof (page_limit_pos args) as Hm. rewrite length_skipn in Hf.
  destruct (Z.ltb_spec (uint args "offset" + page_limit args) (Z.of_nat (length l))) as [Hlt|Hge].
  - destruct (set args "offset" _) as [args'|] eqn:Es; [|by destruct Ho as [o Ho]; unfold set in Es; rewrite Ho in Es].
    cbn [mbind result_bind]. pose proof (uint_set_eq _ _ _ _ Es) as Hu.
    rewrite IH; [|done|done|by eapply set_is_object|lia|done|rewrite length_skipn; lia]. cbn [mbind result_bind]. f_equal.
    rewrite Hu, Z2Nat.inj_add, Nat.add_comm, <- skipn_skipn by lia. by rewrite firstn_skipn.
  - f_equal. apply firstn_all2. rewrite length_skipn. lia.
Qed.

(** ** Edits happen as a whole *)

Section Edits.
Context {St : Type} {HS : Storage St} {E : Type} {HE : Environment E} {HU : Unicode}.
Local Abbreviation W := (WebApi.W (St := St) (E := E)).
Implicit Types (s : Store St * E) (store : Store St).

(** [m] does not touch the store, and its result satisfies [P]. *)
Definition untouched {X} (P : X -> Prop) (m : W X) : Prop :=
  forall s x s', store_ok s.1 -> m s = (x, s') -> s'.1 = s.1 /\ forall v, x = Ok v -> P v.

(** [m] keeps the store valid, and when it fails the document is as it was. *)
Definition settled {X} (m : W X) : Prop :=
  forall s x s', store_ok s.1 -> m s = (x, s') -> store_ok s'.1 /\ (is_ok x = false -> document s'.1 = document s.1).

Lemma untouched_settled {X} (P : X -> Prop) (m : W X) : untouched P m -> settled m.
Proof. intros Hq s x s' Hs H. destruct (Hq _ _ _ Hs H) as [He _]. by rewrite He. Qed.

Lemma untouched_bind {X Y} (P : X -> Prop) (Q : Y -> Prop) (m : W X) (k : X -> W Y) :
  untouched P m -> (forall x, P x -> untouched Q (k x)) -> untouched Q (bindW m k).
Proof.
  intros Hm Hk s y s' Hs H. unfold bindW in H. destruct (m s) as [[x|e] s1] eqn:Em; destruct (Hm _ _ _ Hs Em) as [H1 HP].
  - destruct (Hk x (HP x eq_refl) s1 y s') as [H2 HQ]; [by rewrite H1|done|]. by rewrite H2.
  - injection H as <- <-. by split.
Qed.

Lemma settled_bind {X Y} (P : X -> Prop) (m : W X) (k : X -> W Y) :
  untouched P m -> (forall x, P x -> settled (k x)) -> settled (bindW m k).
Proof.
  intros Hm Hk s y s' Hs H. unfold bindW in H. destruct (m s) as [[x|e] s1] eqn:Em; destruct (Hm _ _ _ Hs Em) as [H1 HP].
  - destruct (Hk x (HP x eq_refl) s1 y s') as [H2 HQ]; [by rewrite H1|done|]. split; [done|]. by rewrite <- H1.
  - injection H as <- <-. by rewrite H1.
Qed.

Lemma untouched_ret {X} (P : X -> Prop) x : P x -> untouched P (retW x).
Proof. intros HP s y s' Hs [= <- <-]. split; [done|]. by intros v [= <-]. Qed.

Lemma untouched_lift {X} (P : X -> Prop) (a : Result X) : (forall x, a = Ok x -> P x) -> untouched P (liftW a).
Proof. intros HP s y s' Hs [= <- <-]. by split. Qed.

Lemma untouched_read {X} (P : X -> Prop) (f : Store St -> Result X) : (forall store x, store_ok store -> f store = Ok x -> P x) -> untouched P (readW f).
Proof. intros HP s y s' Hs [= <- <-]. split; [done|]. intros v. by apply HP. Qed.

Lemma untouched_any {X} (f : Store St -> Result X) : untouched (fun _ => True) (readW f).
Proof. by apply untouched_read. Qed.

Lemma untouched_id : untouched (fun _ => True) idW.
Proof. intros s y s' Hs H. unfold idW in H. destruct (env_id s.2) as [x e]. by injection H as <- <-. Qed.

Lemma untouched_record c i : untouched (fun v => fine v /\ text v "id" = i) (recordW c i).
Proof. apply untouched_read. intros st x Hs H. by destruct (record_props _ _ _ _ (so_doc _ Hs) H) as (? & ? & _). Qed.

Lemma untouched_set v k w : fine v -> fine w -> untouched fine (liftW (set v k w)).
Proof. intros Hv Hw. apply untouched_lift. intros x H. eauto using fine_set. Qed.

Lemma untouched_if {X} (P : X -> Prop) (b : bool) (m n : W X) : (b = true -> untouched P m) -> (b = false -> untouched P n) -> untouched P (if b then m else n).
Proof. destruct b; auto. Qed.

Lemma settled_if {X} (b : bool) (m n : W X) : (b = true -> settled m) -> (b = false -> settled n) -> settled (if b then m else n).
Proof. destruct b; auto. Qed.

(** *** Nodes and connections *)

Lemma values_fine v k l : fine v -> values v k = Ok l -> Forall fine l.
Proof. intros Hv H. apply push_all_id in H as ->. rewrite app_nil_l. by apply uniq_elems. Qed.

Lemma device_arguments_fine store card partial defs : forall args chosen x,
  device_arguments store card partial defs args chosen = Ok x -> fine args -> fine x.1.
Proof.
  induction defs as [|def defs IH]; intros args chosen x H Ha; cbn [device_arguments] in H; [by injection H as <-|]. cbv zeta in H.
  destruct (_ && _); [by eapply IH|]. step_ok H. step_ok H. step_ok H. step_ok H. eapply IH; [exact H|]. by eapply fine_set.
Qed.

Lemma normalize_fine store node cards available unknown partial x :
  Mcp.normalize store node cards available unknown partial = Ok x -> fine node -> fine x.
Proof.
  unfold Mcp.normalize. cbv zeta. intros H Hn. assert (fine (get_null node "step")) as Hs by (by apply uniq_get_null).
  step_ok H. step_ok H. step_ok H. step_ok H. step_ok H. step_ok H. destruct a1 as [args chosen]. step_ok H. step_ok H.
  eapply fine_set; [exact H|done|]. eapply fine_set; [eassumption|done|].
  change args with (args, chosen).1. eapply device_arguments_fine; [eassumption|]. destruct (is_null _); [done|by apply uniq_get_null].
Qed.

Lemma normalize_all_fine store cards nodes : forall x, normalize_all store cards nodes = Ok x -> Forall fine nodes -> Forall fine x.
Proof.
  induction nodes as [|n nodes IH]; intros x H Hn; cbn in H; [by injection H as <-|]. apply Forall_cons in Hn as [H1 H2].
  step_ok H. step_ok H. injection H as <-. constructor; [by eapply normalize_fine|by apply IH].
Qed.

Lemma fresh_ids_untouched l : Forall fine l -> untouched (Forall fine) (fresh_ids l).
Proof.
  induction l as [|v l IH]; intros Hl; cbn [fresh_ids]; [by apply untouched_ret|]. apply Forall_cons in Hl as [H1 H2].
  eapply (untouched_bind fine).
  - apply untouched_if; intros _; [|by apply untouched_ret]. eapply untouched_bind; [apply untouched_id|]. intros i _. by apply untouched_set.
  - intros x Hx. eapply untouched_bind; [by apply IH|]. intros y Hy. apply untouched_ret. by constructor.
Qed.

(** What an edit hands over can be saved. *)
Definition savable (id : string) (x : Edited) : Prop :=
  fine (e_flow x) /\ text (e_flow x) "id" = id /\ Forall fine (e_nodes x) /\ Forall fine (e_edges x) /\ is_Some (as_object (e_delta x)).

Lemma patch_keys_fine keys args : forall v changed x, patch_keys keys args v changed = Ok x -> fine args -> fine v -> "id" ∉ keys ->
  fine x.1 /\ text x.1 "id" = text v "id".
Proof.
  induction keys as [|k keys IH]; intros v changed x H Ha Hv Hi; cbn in H; [by injection H as <-|]. apply not_elem_of_cons in Hi as [H1 H2].
  destruct (get args k) as [w|] eqn:Eg; [|by eapply IH]. step_ok H.
  assert (fine a) by (eapply fine_set; [exact E0|done|eauto using fine_get]).
  destruct (IH _ _ _ H Ha ltac:(done) H2) as [Hf Ht]. split; [done|]. by rewrite Ht, (text_set_ne _ _ _ _ _ E0).
Qed.

Lemma push_all_Ok_fine max l out x : push_all Ok max l out = Ok x -> Forall fine l -> Forall fine out -> Forall fine x.
Proof. intros ->%push_all_id Hl Ho. by apply Forall_app. Qed.

Lemma create_flow_savable store cards args f x id :
  create_flow store cards args f = Ok x -> fine args -> fine f -> text f "id" = id -> savable id x.
Proof.
  unfold create_flow. intros H Ha Hf Hi. step_ok H.
  assert (fine a /\ text a "id" = id) as [Hf1 Hi1].
  { split; [eapply fine_set; [exact E0|done|by apply uniq_get_null]|by rewrite (text_set_ne _ _ _ _ _ E0)]. }
  step_ok H. assert (fine a0 /\ text a0 "id" = id) as [Hf2 Hi2].
  { destruct (get args "enabled") as [w|] eqn:Eg; [|by injection E1 as <-].
    split; [eapply fine_set; [exact E1|done|eauto using fine_get]|by rewrite (text_set_ne _ _ _ _ _ E1)]. }
  do 3 step_ok H. injection H as <-. split_and!; [done|done| | |by eexists]; [eapply normalize_all_fine; [eassumption|]|]; (eapply values_fine; [|eassumption]; done).
Qed.

Lemma update_flow_savable args f nodes edges x :
  update_flow args f nodes edges = Ok x -> fine args -> fine f -> Forall fine nodes -> Forall fine edges -> savable (text f "id") x.
Proof.
  unfold update_flow. intros H Ha Hf Hn He. step_ok H. destruct a as [f' changed]. destruct changed; [|done]. injection H as <-.
  apply patch_keys_fine in E0 as [H1 H2]; [|done|done|set_solver]. split_and!; [done|done|done|done|by eexists].
Qed.

Lemma patch_args_fine o : forall a x, patch_args o a = Ok x -> Forall (fun p => fine p.2) o -> fine a -> fine x.
Proof.
  induction o as [|[k v] o IH]; intros a x H Ho Ha; cbn in H; [by injection H as <-|]. apply Forall_cons in Ho as [H1 H2]. step_ok H.
  eapply IH; [exact H|done|]. destruct (is_null v); [by eapply uniq_remove|by eapply fine_set].
Qed.

Lemma object_fine v o : as_object v = Some o -> fine v -> Forall (fun p => fine p.2) o.
Proof. destruct v; try done. intros [= ->] [_ H]%uniq_object. eapply Forall_impl; [exact H|]. by intros [k w]. Qed.

Lemma get_null_fine v k : fine v -> fine (get_null v k).
Proof. apply uniq_get_null. Qed.

Lemma configure_node_fine store cards args n x : configure_node store cards args n = Ok x -> fine args -> fine n -> fine x.
Proof.
  unfold configure_node. cbv zeta. intros H Ha Hn. step_ok H. destruct a as [step changed].
  assert (fine step) as Hs.
  { destruct (get args "args" ≫= as_object) as [patch|] eqn:Ep.
    - step_ok E0. step_ok E0. injection E0 as <- _. eapply fine_set; [eassumption|by apply get_null_fine|].
      destruct (get args "args") as [pv|] eqn:Eg; [|done]. eapply patch_args_fine; [eassumption|eapply object_fine; [exact Ep|eauto using fine_get]|].
      case_match; [done|by do 2 apply get_null_fine].
    - injection E0 as <- _. by apply get_null_fine. }
  step_ok H. destruct a as [step' ch']. match goal with Hp : patch_keys _ _ _ _ = Ok _ |- _ => apply patch_keys_fine in Hp as [Hs' _]; [|done|done|set_solver] end.
  step_ok H. destruct a as [n' ch'']. match goal with Hp : patch_keys _ _ _ _ = Ok _ |- _ => apply patch_keys_fine in Hp as [Hn' _]; [|done|done|set_solver] end.
  destruct ch''; [|done]. step_ok H. eapply normalize_fine; [exact H|]. eapply fine_set; [eassumption|done|done].
Qed.

Lemma update_node_fine id f nodes : (forall n x, f n = Ok x -> fine n -> fine x) -> forall x, update_node id f nodes = Ok x ->
  Forall fine nodes -> Forall fine x.
Proof.
  intros Hf. induction nodes as [|n nodes IH]; intros x H Hn; cbn in H; [done|]. apply Forall_cons in Hn as [H1 H2].
  destruct (_ =? _)%string; step_ok H; injection H as <-; constructor; eauto.
Qed.

Lemma configure_card_savable store cards args f nodes edges x : configure_card store cards args f nodes edges = Ok x ->
  fine args -> fine f -> Forall fine nodes -> Forall fine edges -> savable (text f "id") x.
Proof.
  unfold configure_card. cbv zeta. intros H Ha Hf Hn He. step_ok H. step_ok H. injection H as <-. split_and!; [done|done| |done|].
  - eapply update_node_fine; [|exact E0|done]. intros n y Hy Hny. by eapply configure_node_fine.
  - by eapply set_is_object.
Qed.

Lemma Forall_list_filter {A} (P : A -> Prop) (f : A -> bool) l : Forall P l -> Forall P (List.filter f l).
Proof. rewrite !List.Forall_forall. intros H x [Hx _]%List.filter_In. by apply H. Qed.

Lemma disconnect_savable args f nodes edges x : disconnect_cards args f nodes edges = Ok x ->
  fine f -> Forall fine nodes -> Forall fine edges -> savable (text f "id") x.
Proof.
  unfold disconnect_cards. cbv zeta. intros H Hf Hn He. step_ok H. step_ok H. step_ok H. injection H as <-.
  split_and!; [done|done|done|by apply Forall_list_filter|by eapply set_is_object].
Qed.

Lemma remove_card_savable args f nodes edges x : remove_card args f nodes edges = Ok x ->
  fine f -> Forall fine nodes -> Forall fine edges -> savable (text f "id") x.
Proof.
  unfold remove_card. cbv zeta. intros H Hf Hn He. step_ok H. step_ok H. injection H as <-.
  split_and!; [done|done|by apply Forall_list_filter|by apply Forall_list_filter|by eapply set_is_object].
Qed.

Lemma add_cards_savable cards args f nodes edges : fine args -> fine f -> Forall fine nodes -> Forall fine edges ->
  untouched (savable (text f "id")) (add_cards cards args f nodes edges).
Proof.
  intros Ha Hf Hn He. unfold add_cards. eapply (untouched_bind (Forall fine)).
  { apply untouched_read. intros store x _ H. step_ok H. eapply normalize_all_fine; [exact H|]. eapply values_fine; [|eassumption]; done. }
  intros added Hadd. eapply untouched_bind; [by apply fresh_ids_untouched|]. intros added' Hadd'.
  eapply (untouched_bind (fun _ => True)); [by apply untouched_lift|]. intros names _.
  eapply (untouched_bind (Forall fine)); [apply untouched_lift; intros x H; by eapply push_all_Ok_fine|]. intros nodes' Hn'.
  eapply (untouched_bind (Forall fine)); [apply untouched_lift; intros x H; eapply values_fine; [|exact H]; done|]. intros more Hm.
  eapply (untouched_bind (Forall fine)); [apply untouched_lift; intros x H; by eapply push_all_Ok_fine|]. intros edges' He'.
  eapply (untouched_bind (fun v => is_Some (as_object v))); [apply untouched_lift; intros x H; by eapply set_is_object|]. intros delta Hd.
  apply untouched_ret. by split_and!.
Qed.

Lemma connect_savable args f nodes edges : fine f -> Forall fine nodes -> Forall fine edges ->
  untouched (savable (text f "id")) (connect_cards args f nodes edges).
Proof.
  intros Hf Hn He. unfold connect_cards. eapply (untouched_bind (fun _ => True)).
  { apply untouched_if; intros _; [apply untouched_id|by apply untouched_ret]. }
  intros edge _. eapply (untouched_bind (Forall fine)).
  { apply untouched_lift. intros x [_ ->]%push_Ok. apply Forall_app. split; [done|]. constructor; [done|constructor]. }
  intros edges' He'. eapply (untouched_bind (fun v => is_Some (as_object v))); [apply untouched_lift; intros x H; by eapply set_is_object|]. intros delta Hd.
  apply untouched_ret. by split_and!.
Qed.

Lemma change_savable name args cards f nodes edges : fine args -> fine f -> Forall fine nodes -> Forall fine edges ->
  untouched (savable (text f "id")) (change name args cards f nodes edges).
Proof.
  intros Ha Hf Hn He. unfold change.
  apply untouched_if; intros _; [apply untouched_read; intros store x _ H; by eapply create_flow_savable|].
  apply untouched_if; intros _; [apply untouched_lift; intros x H; by eapply update_flow_savable|].
  apply untouched_if; intros _; [by apply add_cards_savable|].
  apply untouched_if; intros _; [apply untouched_read; intros store x _ H; by eapply configure_card_savable|].
  apply untouched_if; intros _; [by apply connect_savable|].
  apply untouched_if; intros _; [apply untouched_lift; intros x H; by eapply disconnect_savable|].
  apply untouched_if; intros _; apply untouched_lift; [intros x H; by eapply remove_card_savable|done].
Qed.

(** *** Saving *)

Lemma limited_object keys max v : forall out, is_Some (as_object out) -> exists p, limited keys max v out = Ok p /\ is_Some (as_object p).
Proof.
  induction keys as [|k keys IH]; intros out Ho; cbn [limited]; [by exists out|]. cbv zeta. destruct (is_empty _); [by apply IH|].
  destruct (set out k _) as [p|] eqn:Es; [|by destruct Ho as [o Ho]; unfold set in Es; rewrite Ho in Es]. apply IH. by eapply set_is_object.
Qed.

Lemma flow_summary_total f : exists p, flow_summary f = Ok p.
Proof.
  unfold flow_summary. cbv zeta. match goal with |- context [limited ["lastRunAt"] 256 f ?p] => destruct (limited_object ["lastRunAt"] 256 f p) as (q & -> & Hq); [by eexists|] end.
  destruct (limited_object ["lastError"] 2048 f q Hq) as (p & Hp & _). exists p. exact Hp.
Qed.

Lemma op_settled op : op_ok op -> settled (storeW (run_op op)).
Proof.
  intros Ho s y s' Hs H. unfold storeW in H. destruct (run_op op s.1) as [x st] eqn:Er. injection H as <- <-. split; [by eapply run_op_ok|].
  intros Hx. apply run_op_atomic in Er as [_ Hd]. destruct x as [a|e]; [done|]. cbn [fst]. by rewrite Hd.
Qed.

(** Once the Flow is in the store, nothing of the edit fails any more. *)
Lemma put_and_report f create rev delta id : fine f -> text f "id" = id -> is_Some (as_object delta) ->
  settled (let% _ := putW "flows" f create rev in
           let% stored := recordW "flows" id in
           liftW (s ← flow_summary stored; set delta "flow" s)).
Proof.
  intros Hf <- Hd. unfold putW. intros s y s' Hs H. unfold bindW at 1 2, nowW in H. destruct (env_now s.2) as [now|e]; [|by injection H as <- <-].
  destruct (storeW _ s) as [[[]|e] s1] eqn:Ep.
  - assert (put "flows" f create rev now s.1 = (Ok tt, s1.1)) as Hput.
    { unfold storeW in Ep. destruct (put _ _ _ _ _ _) as [x st] eqn:E0. injection Ep as -> <-. done. }
    apply (op_settled (OpPut "flows" f create rev now) Hf) in Ep as [H1 _]; [|done].
    destruct (put_stores "flows" _ _ _ _ _ _ Hs Hf ltac:(done) Hput) as (r' & _ & Hr & _). unfold bindW, recordW, readW, liftW in H. rewrite Hr in H.
    destruct (flow_summary_total r') as [p Hp]. rewrite Hp in H. destruct Hd as [o Ho].
    unfold set in H. rewrite Ho in H. cbn in H. injection H as <- <-. split; [done|]. by intros [=].
  - apply (op_settled (OpPut "flows" f create rev now) Hf) in Ep as [H1 H2]; [|done]. injection H as <- <-. split; [done|]. intros _. by apply H2.
Qed.

Lemma flow_convert_id store d inc previous d' : WebUnits.flow_convert store d inc previous = Ok d' -> text d' "id" = text d "id".
Proof. unfold WebUnits.flow_convert. cbv zeta. intros H. step_ok H. by rewrite (text_set_ne _ _ _ _ _ H). Qed.

Lemma save_flow_settled id before x : savable id x -> settled (save_flow id before x).
Proof.
  intros (Hf & Hi & Hn & He & Hd). unfold save_flow. eapply settled_bind; [by apply fresh_ids_untouched|]. intros nodes Hn'.
  eapply settled_bind; [by apply fresh_ids_untouched|]. intros edges He'.
  eapply (settled_bind (fun f => fine f /\ text f "id" = id)).
  { apply untouched_lift. intros f H. step_ok H. assert (fine a) as Hfa by (eapply fine_set; [exact E0|done|by apply uniq_array]).
    split; [eapply fine_set; [exact H|done|by apply uniq_array]|].
    by rewrite (text_set_ne _ _ _ _ _ H), (text_set_ne _ _ _ _ _ E0). }
  intros f [Hf1 Hi1]. eapply (settled_bind (fun f => fine f /\ text f "id" = id)).
  { apply untouched_read. intros store f' _ H. split; [by eapply flow_convert_fine|]. by rewrite (flow_convert_id _ _ _ _ _ H). }
  intros f' [Hf2 Hi2]. by apply put_and_report.
Qed.

Lemma edit_settled name args cards : fine args -> settled (Mcp.edit name args cards).
Proof.
  intros Ha. unfold Mcp.edit. apply settled_if; intros _.
  { eapply settled_bind; [apply untouched_id|]. intros id _. eapply settled_bind; [by apply change_savable|]. intros x Hx. by apply save_flow_settled. }
  cbv zeta. apply settled_if; intros _.
  { unfold delete_flow. intros s y s' Hs H. unfold bindW at 1 in H. destruct (storeW _ s) as [[[]|e] s1] eqn:Ep;
      apply (op_settled (OpDelete "flows" (trimmed args "flowId")) I) in Ep as [H1 H2]; try done; injection H as <- <-; (split; [done|]); [by intros [=]|].
    intros _. by apply H2. }
  eapply settled_bind; [apply untouched_record|]. intros before [Hb Hi].
  eapply (settled_bind (fun f => fine f /\ text f "id" = trimmed args "flowId")).
  { apply untouched_read. intros store f _ H. split; [by eapply flow_convert_fine|]. by rewrite (flow_convert_id _ _ _ _ _ H). }
  intros f [Hf Hif]. eapply (settled_bind (Forall fine)); [apply untouched_lift; intros x H; eapply values_fine; [|exact H]; done|]. intros nodes Hn.
  eapply (settled_bind (Forall fine)); [apply untouched_lift; intros x H; eapply values_fine; [|exact H]; done|]. intros edges He.
  eapply settled_bind; [by apply change_savable|]. intros x Hx. apply save_flow_settled. by rewrite <- Hif.
Qed.

(** A tool that is not one of the edits does not touch the store. *)
Lemma prepare_untouched call cards : existsb (String.eqb (call_name call)) EDITS = false -> untouched (fun _ => True) (prepare call cards).
Proof.
  intros Hn. unfold prepare. cbv zeta. eapply untouched_bind; [apply untouched_any|]. intros [v|] _; [by apply untouched_ret|]. rewrite Hn.
  apply untouched_if; intros _; [apply untouched_any|]. apply untouched_if; intros _; [apply untouched_any|]. apply untouched_if; intros _.
  { eapply untouched_bind; [apply untouched_record|]. intros f _. by apply untouched_ret. }
  apply untouched_if; intros _; [apply untouched_any|]. apply untouched_if; intros _; [|by apply untouched_lift].
  apply untouched_if; intros _; [by apply untouched_lift|by apply untouched_ret].
Qed.

Lemma prepare_settled call cards : fine (call_args call) -> settled (prepare call cards).
Proof.
  intros Ha. destruct (existsb (String.eqb (call_name call)) EDITS) eqn:Hn; [|eapply untouched_settled; by apply prepare_untouched].
  unfold prepare. cbv zeta. eapply settled_bind; [apply untouched_any|]. intros [v|] _; [eapply untouched_settled; by apply (untouched_ret (fun _ => True))|].
  rewrite Hn. intros s y s' Hs H. unfold bindW in H. destruct (Mcp.edit _ _ _ s) as [[v|e] s1] eqn:Ee;
    destruct (edit_settled _ _ _ Ha _ _ _ Hs Ee) as [H1 H2]; injection H as <- <-; (split; [done|]); [by intros [=]|]. intros _. by apply H2.
Qed.

End Edits.

(** ** The properties *)

(** C35: Only checked calls reach a tool: a request that [decode] hands to a tool is a POST of at
    most 256 KiB that names no page or one of the host it is sent to, it names a tool of the
    catalogue, and its arguments satisfy the schema that the catalogue shows for that tool: the
    types, the listed values, the limits of numbers, lengths and counts, the required keys and,
    in every part, no key that the schema does not let in.  Whatever that schema says, they are
    at most 8192 values, at most 13 deep, and the bytes of all their texts and keys, with four for
    each value, are at most 64 KiB. *)
Theorem only_checked_calls_reach_a_tool (data : list Z) (r : Request) (c : Call) :
  decode data r = Ok (Tool c) -> checked data r c /\ within_budget (call_args c).
Proof. apply decode_checked. Qed.

(** Following the pages of a list, with any limit, ends and shows every entry exactly once,
    in order. *)
Theorem pages_show_every_entry_once (l : list Value) (key : string) (args : Value) :
  key <> "total" -> key <> "nextOffset" -> is_Some (as_object args) -> get args "offset" = None -> Z.of_nat (length l) <= U64_MAX ->
  all_pages (S (length l)) l key args = Ok l.
Proof.
  intros Hk1 Hk2 Ho Hn Hl. assert (uint args "offset" = 0) as H0 by (unfold uint; by rewrite Hn).
  rewrite all_pages_from, H0 by (rewrite ?H0; change (Z.to_nat 0) with 0%nat; rewrite ?skipn_O; first [done|lia]). done.
Qed.

(** C36: While a call of a tool is prepared ([prepare]), an edit of a Flow happens as a whole or not
    at all: afterwards the store is valid, and when the preparation fails, or the tool is not one
    of the eight edits, the document is as it was.  What the controller does with the work that a
    preparation returns (the creation of a device, the command, the answer) comes after it. *)
Theorem flow_edits_are_all_or_nothing {St} {HS : Storage St} {E} {HE : Environment E} {HU : Unicode}
  (data : list Z) (r : Request) (c : Call) (cards : Value) (s s' : Store St * E) (a : Result Work) :
  store_ok s.1 -> decode data r = Ok (Tool c) -> prepare c cards s = (a, s') ->
  store_ok s'.1 /\ (is_ok a = false \/ existsb (String.eqb (call_name c)) EDITS = false -> document s'.1 = document s.1).
Proof.
  intros Hs Hc H. destruct (prepare_settled _ _ (decode_fine _ _ _ Hc) _ _ _ Hs H) as [H1 H2]. split; [done|]. intros [Ha|Hn]; [by apply H2|].
  destruct (prepare_untouched _ _ Hn _ _ _ Hs H) as [-> _]. done.
Qed.

(** ** A house and its assistant *)

#[local] Instance ascii_only : Unicode := { wide_lowercase := fun c => [c] }.
#[local] Instance clockwork : Environment Z := {
  env_id := fun n => (Ok (Mutations.show n), n + 1); env_now := fun _ => Ok "2024-01-01T00:00:00Z"; env_log := fun _ _ _ n => n
}.

(** The schema of [flows_update] as the server advertises it. *)
Definition tools_data : list Z := quoted
  "{'tools':[{'name':'flows_update','inputSchema':{'additionalProperties':false,'properties':{'enabled':{'type':'boolean'},'flowId':{'maxLength':256,'minLength':1,'type':'string'},'name':{'maxLength':160,'minLength':1,'type':'string'}},'required':['flowId'],'type':'object'}}]}".

Definition rename_call (arguments : string) : Request :=
  mk_request "POST" "/mcp/key" "" "" "stulp.local" ""
    (json_of "{'content-type':'application/json; charset=utf-8','accept':'application/json, text/event-stream;q=0.5'}")
    (quoted ("{'jsonrpc':'2.0','id':1,'method':'tools/call','params':{'name':'flows_update','arguments':" ++ arguments ++ "}}")).

Definition renamed : Call := mk_call (VNumber (Uint 1)) "flows_update" (json_of "{'flowId':'f1','name':'Avond'}").

Lemma renamed_is_decoded : decode tools_data (rename_call "{'flowId':'f1','name':'Avond'}") = Ok (Tool renamed).
Proof. vm_compute. reflexivity. Qed.

(** An argument that the schema does not know is refused before any tool sees it. *)
Example unknown_argument_is_refused :
  match decode tools_data (rename_call "{'flowId':'f1','owner':'me'}") with Ok (Reply x) => status x = 200 | _ => False end.
Proof. vm_compute. reflexivity. Qed.

Lemma only_checked_calls_reach_a_tool_witness :
  checked tools_data (rename_call "{'flowId':'f1','name':'Avond'}") renamed /\ within_budget (call_args renamed).
Proof. apply (only_checked_calls_reach_a_tool tools_data (rename_call "{'flowId':'f1','name':'Avond'}") renamed). vm_compute. reflexivity. Defined.

Lemma pages_show_every_entry_once_witness :
  all_pages 6 (map VBool [true; false; true; true; false]) "devices" (json_of "{'limit':2}") = Ok (map VBool [true; false; true; true; false]).
Proof.
  apply (pages_show_every_entry_once (map VBool [true; false; true; true; false])); [discriminate|discriminate|eexists; reflexivity|reflexivity|].
  vm_compute. discriminate.
Defined.

Definition after_rename : Result Work * (Store Memory * Z) := Eval vm_compute in prepare renamed VNull (sample, 1).

Lemma after_rename_reached : prepare renamed VNull (sample, 1) = (after_rename.1, after_rename.2).
Proof. vm_compute. reflexivity. Qed.

Lemma flow_edits_are_all_or_nothing_witness :
  is_ok after_rename.1 = true /\ store_ok after_rename.2.1.
Proof.
  split; [reflexivity|].
  exact (proj1 (flow_edits_are_all_or_nothing tools_data (rename_call "{'flowId':'f1','name':'Avond'}") renamed VNull (sample, 1) _ _
    sample_ok renamed_is_decoded after_rename_reached)).
Defined.
