(* ===== verification/Pairing.v ===== *)
(** * Pairing: adding, changing and removing devices

    Models [controller/src/pairing.rs]: the pairing sessions of browsers and the operations on the
    lifecycle of a device that wait for an app.  A request is answered when its last callback is
    done; what an app could not initialise is rolled back. *)

From Stdlib Require Import ZArith Lia Ascii String Permutation.
From S2P Require Import Prelude Text Errors Slots Value Document Stats Store StoreDoc StoreInv StoreOk Scenes Mutations AppRun Templates Web StoreDocOps WebApi Objects SceneJobs.

Local Open Scope Z_scope.

Definition MAX_SESSIONS : nat := 32.
Definition MAX_PENDING : nat := 64.

Record Session : Type := mk_session { s_id : string; s_app : string; s_driver : string }.

Inductive Stage : Type :=
  | Start (s : Session)
  | Emit
  | Close
  | Settings (id : string) (patch : Value) (now : string)
  | Delete (id : string)
  | Driver (app id : string) (params : Value) (keep : bool)
  | Device (id : string) (keep : bool).

Record Pending (R : Type) : Type := mk_pending { p_owner : Z; p_deadline : Z; p_reply : R; p_stage : Stage }.
Arguments mk_pending {R}. Arguments p_owner {R}. Arguments p_deadline {R}. Arguments p_reply {R}. Arguments p_stage {R}.

Record Pairing (R : Type) : Type := mk_pairing { sessions : list Session; pending : list (Pending R) }.
Arguments mk_pairing {R}. Arguments sessions {R}. Arguments pending {R}.

(** ** Candidates *)

(** [definition]: the driver in the manifest of an app that is enabled. *)
Definition definition {St} {HS : Storage St} (store : Store St) (app driver : string) : Result Value :=
  r ← record (document store) "apps" app;
  if negb (boolean r "enabled") then Err (Invalid "app is disabled")
  else
    manifest ← ok_or (manifest_of app store) (Missing "app manifest unavailable");
    ok_or (find (fun d => (text d "id" =? driver)%string) (array manifest "drivers")) (Missing "driver does not exist").

(** The values that a driver gives its settings. *)
Fixpoint default_settings (definitions : list Value) (out : Value) : Result Value :=
  match definitions with
  | [] => Ok out
  | setting :: definitions =>
      let key := text setting "id" in
      match (if is_empty key then None else get setting "value") with
      | Some v => if is_null v then default_settings definitions out
                  else out ← set out key v; default_settings definitions out
      | None => default_settings definitions out
      end
  end.

Fixpoint set_fields (o : Object) (out : Value) : Result Value :=
  match o with
  | [] => Ok out
  | (k, v) :: o => out ← set out k v; set_fields o out
  end.

Definition object_field (input : Value) (key : string) (out : Value) : Result Value :=
  let v := get_null input key in
  if negb (is_null v) && negb (bool_decide (is_Some (as_object v)))
  then Err (Invalid "candidate data/store must be an object")
  else set out key (if is_null v then object else v).

Definition candidate_capabilities (driver input : Value) : Result Value :=
  match (match get input "capabilities" with Some v => Some v | None => get driver "capabilities" end) with
  | Some (VArray a) =>
      if forallb (fun v => bool_decide (is_Some (as_str v))) a then Ok (VArray a)
      else Err (Invalid "candidate capabilities must be strings")
  | None | Some VNull => Ok (VArray [])
  | _ => Err (Invalid "candidate capabilities must be strings")
  end.

Definition candidate (driver : Value) (app driver_id id : string) (input : Value) : Result Value :=
  let name := text input "name" in
  if is_empty (trim name) then Err (Invalid "paired device needs a name")
  else
    let class := text input "class" in
    let out := fields [("id", VString id); ("appId", VString app); ("driverId", VString driver_id); ("name", VString name);
                       ("class", VString (if is_empty class then text driver "class" else class))] in
    settings ← default_settings (array driver "settings") object;
    out ← object_field input "data" out;
    out ← object_field input "store" out;
    settings ← (match get_null input "settings" with
                | VObject o => set_fields o settings
                | VNull => Ok settings
                | _ => Err (Invalid "candidate settings must be an object")
                end);
    out ← set out "settings" settings;
    caps ← candidate_capabilities driver input;
    set out "capabilities" caps.

(** ** The owner and what it works on *)

Record World (St A E R : Type) : Type := mk_world {
  w_pairing : Pairing R; w_store : Store St; w_apps : A; w_env : E; w_owner : Z; w_sent : list (R * Response)
}.
Arguments mk_world {St A E R}. Arguments w_pairing {St A E R}. Arguments w_store {St A E R}. Arguments w_apps {St A E R}.
Arguments w_env {St A E R}. Arguments w_owner {St A E R}. Arguments w_sent {St A E R}.

Section Monad.
Context {St A E R : Type}.

Definition P (X : Type) : Type := World St A E R -> Result X * World St A E R.
Definition retP {X} (x : X) : P X := fun w => (Ok x, w).
Definition liftP {X} (r : Result X) : P X := fun w => (r, w).
Definition bindP {X Y} (m : P X) (k : X -> P Y) : P Y := fun w => match m w with (Ok x, w) => k x w | (Err e, w) => (Err e, w) end.
Definition readP {X} (f : World St A E R -> Result X) : P X := fun w => (f w, w).
Definition put_pairing (p : Pairing R) (w : World St A E R) : World St A E R :=
  mk_world p (w_store w) (w_apps w) (w_env w) (w_owner w) (w_sent w).
Definition put_store (s : Store St) (w : World St A E R) : World St A E R :=
  mk_world (w_pairing w) s (w_apps w) (w_env w) (w_owner w) (w_sent w).
Definition put_apps (a : A) (w : World St A E R) : World St A E R :=
  mk_world (w_pairing w) (w_store w) a (w_env w) (w_owner w) (w_sent w).
Definition put_owner (o : Z) (w : World St A E R) : World St A E R :=
  mk_world (w_pairing w) (w_store w) (w_apps w) (w_env w) o (w_sent w).
Definition storeP {X} (m : M (St := St) X) : P X := fun w => let '(r, s) := m (w_store w) in (r, put_store s w).
Definition envP {HE : Environment E} : P string := fun w =>
  let '(r, e) := env_id (w_env w) in (r, mk_world (w_pairing w) (w_store w) (w_apps w) e (w_owner w) (w_sent w)).
Definition nowP {HE : Environment E} : P string := readP (fun w => env_now (w_env w)).
Definition modifyP (f : Pairing R -> Pairing R) : P unit := fun w => (Ok tt, put_pairing (f (w_pairing w)) w).
Definition appsP {X} (f : A -> Result X * A) : P X := fun w => let '(r, a) := f (w_apps w) in (r, put_apps a w).
(** [let _ = reply.send(..)] *)
Definition replyP (reply : R) (x : Response) : P unit := fun w =>
  (Ok tt, mk_world (w_pairing w) (w_store w) (w_apps w) (w_env w) (w_owner w) (w_sent w ++ [(reply, x)])).
End Monad.

Notation "'let$' x ':=' m 'in' k" := (bindP m (fun x => k)) (at level 10, x pattern, k at level 200, right associativity).

Section Owner.
Context {St : Type} {HS : Storage St} {A : Type} {HA : Apps A} {E : Type} {HE : Environment E} {R : Type}.
Implicit Types store : Store St.
Local Abbreviation P := (P (St := St) (A := A) (E := E) (R := R)).

Definition Pairing_new : Pairing R := mk_pairing [] [].

Definition add_pending (p : Pending R) (s : Pairing R) : Pairing R := mk_pairing (sessions s) (pending s ++ [p]).
Definition set_sessions (l : list Session) (s : Pairing R) : Pairing R := mk_pairing l (pending s).

Definition reserve : P unit :=
  readP (fun w => if (length (pending (w_pairing w)) =? MAX_PENDING)%nat then Err Full else Ok tt).

Definition send (reply : R) (app method : string) (params : Value) (stage : Stage) : P unit :=
  let$ _ := reserve in
  let$ next := readP (fun w => ok_or (checked_add (w_owner w) 1) Full) in
  let$ _ := appsP (apps_call app next method params) in
  fun w =>
    let deadline := saturating_add (apps_now (w_apps w)) (callback_timeout_for app method params + 1000) in
    (Ok tt, put_pairing (add_pending (mk_pending next deadline reply stage) (w_pairing w)) (put_owner next w)).

(** The device that an operation is about. *)
Definition lifecycle (s : Stage) : option string :=
  match s with Driver _ id _ _ | Device id _ | Delete id | Settings id _ _ => Some id | Start _ | Emit | Close => None end.

Definition initialising (s : Stage) : option string :=
  match s with Driver _ id _ _ | Device id _ => Some id | _ => None end.

Definition is_for (f : Stage -> option string) (id : string) (p : Pending R) : bool :=
  match f (p_stage p) with Some i => (i =? id)%string | None => false end.

Definition device_busy (id : string) (s : Pairing R) : bool := existsb (is_for lifecycle id) (pending s).

Definition check_idle (f : Stage -> option string) (id message : string) : P unit :=
  readP (fun w => if existsb (is_for f id) (pending (w_pairing w)) then Err (Conflict message) else Ok tt).

Definition BUSY : string := "device lifecycle operation in progress".
Definition STARTING : string := "device is still being initialized".

Definition answer (reply : R) (code : Z) (v : Value) : P bool :=
  let$ x := liftP (Response_json code v) in let$ _ := replyP reply x in retP true.

Definition documentP (collection id : string) : P Value := readP (fun w => record (document (w_store w)) collection id).

(** ** The routes *)

(** The settings that differ from the ones of the device. *)
Fixpoint changed_settings (previous : Value) (entries : Object) (patch : Value) : Result Value :=
  match entries with
  | [] => Ok patch
  | (key, value) :: entries =>
      if match get previous key with Some old => equal old value | None => false end
      then changed_settings previous entries patch
      else patch ← set patch key value; changed_settings previous entries patch
  end.

Definition settings_route (id : string) (r : Request) (reply : R) : P bool :=
  let$ d := documentP "devices" id in
  let$ _ := check_idle lifecycle id BUSY in
  let$ input := liftP (json_parse (r_body r)) in
  let$ entries := liftP (ok_or (as_object input) (Invalid "settings must be an object")) in
  let$ patch := liftP (changed_settings (get_null d "settings") entries object) in
  if match as_object patch with Some [] => true | _ => false end then
    let$ v := readP (fun w => device_object (w_store w) id) in answer reply 200 v
  else
    let$ now := nowP in
    let$ _ := send reply (text d "appId") "device.settings" (fields [("deviceId", VString id); ("settings", patch)]) (Settings id patch now) in
    retP true.

Definition delete_device (id : string) (reply : R) : P bool :=
  let$ _ := storeP (delete "devices" id) in answer reply 200 (VBool true).

Definition delete_route (id : string) (reply : R) : P bool :=
  let$ d := documentP "devices" id in
  let app := text d "appId" in
  if (app =? APP_ID)%string then
    let$ _ := storeP (delete "scenes" (text (get_null d "data") "sceneId")) in answer reply 200 (VBool true)
  else
    let$ _ := check_idle lifecycle id BUSY in
    let$ _ := reserve in
    fun w =>
      match send reply app "device.delete" (fields [("deviceId", VString id)]) (Delete id) w with
      | (Ok _, w) => (Ok true, w)
      | (Err (Missing _ | Invalid _), w) => delete_device id reply w
      | (Err e, w) => (Err e, w)
      end.

Definition is_start (s : Stage) : bool := match s with Start _ => true | _ => false end.
Definition starting (s : Pairing R) : nat := length (List.filter (fun p => is_start (p_stage p)) (pending s)).

Definition start_route (r : Request) (reply : R) : P bool :=
  let$ body := liftP (json_parse (r_body r)) in
  let app := text body "appId" in
  let driver := text body "driverId" in
  let$ _ := readP (fun w => definition (w_store w) app driver) in
  let$ _ := readP (fun w => if (MAX_SESSIONS <=? length (sessions (w_pairing w)) + starting (w_pairing w))%nat then Err Full else Ok tt) in
  let$ id := envP in
  let$ _ := send reply app "pair.start" (fields [("sessionId", VString id); ("driverId", VString driver)]) (Start (mk_session id app driver)) in
  retP true.

(** [iter().position(..)] and [remove] *)
Fixpoint take_session (id : string) (l : list Session) : option (Session * list Session) :=
  match l with
  | [] => None
  | s :: l => if (s_id s =? id)%string then Some (s, l)
              else match take_session id l with Some (t, l) => Some (t, s :: l) | None => None end
  end.

Definition close_route (id : string) (reply : R) : P bool := fun w =>
  match take_session id (sessions (w_pairing w)) with
  | Some (s, rest) =>
      let w := put_pairing (set_sessions rest (w_pairing w)) w in
      match send reply (s_app s) "pair.close" (fields [("sessionId", VString id)]) Close w with
      | (Ok _, w) => (Ok true, w)
      | (Err _, w) => answer reply 200 (VBool true) w
      end
  | None => answer reply 200 (VBool true) w
  end.

Definition emit_route (id event : string) (r : Request) (reply : R) : P bool :=
  if is_empty event || contains_byte 47 event then liftP (Err (Invalid "invalid pair event"))
  else
    let$ session := readP (fun w => ok_or (find (fun s => (s_id s =? id)%string) (sessions (w_pairing w))) (Missing "pair session does not exist")) in
    let$ data := liftP (if bool_decide (r_body r = []) then Ok VNull else json_parse (r_body r)) in
    let$ _ := send reply (s_app session) "pair.emit"
                (fields [("sessionId", VString id); ("event", VString event); ("data", data)]) Emit in
    retP true.

(** The device is published before its app is asked to initialise it. *)
Definition adopt (app id : string) (params : Value) (keep : bool) (reply : R) : P unit :=
  let$ d := readP (fun w => device id (w_store w)) in
  let$ _ := appsP (apps_adopt d) in
  send reply app "driver.init" params (Driver app id params keep).

Definition init_params (driver id : string) : Value := fields [("driverId", VString driver); ("deviceId", VString id)].

Fixpoint copy_present (keys : list string) (from record : Value) : Result Value :=
  match keys with
  | [] => Ok record
  | key :: keys =>
      match get from key with
      | Some v => record ← set record key v; copy_present keys from record
      | None => copy_present keys from record
      end
  end.

(** ["replace"]: a device is paired again under the same id, so that Flows keep working. *)
Definition replace_device (app driver id : string) (input : Value) (reply : R) : P bool :=
  let$ existing := readP (fun w => match record (document (w_store w)) "devices" id with
                                   | Ok d => Ok d | Err _ => Err (Missing "device to replace does not exist") end) in
  if negb (text existing "appId" =? app)%string || negb (text existing "driverId" =? driver)%string
  then liftP (Err (Invalid "device belongs to another driver"))
  else
    let$ _ := check_idle lifecycle id STARTING in
    let$ input := liftP (if is_empty (trim (text input "name")) then set input "name" (VString (text existing "name")) else Ok input) in
    let$ def := readP (fun w => definition (w_store w) app driver) in
    let$ fresh := liftP (candidate def app driver id input) in
    let$ record := liftP (copy_present ["name"; "data"; "store"] fresh existing) in
    let$ _ := reserve in
    let$ now := nowP in
    let$ _ := storeP (put "devices" record false None now) in
    let$ _ := adopt app id (init_params driver id) true reply in
    retP true.

Definition same_device (app driver : string) (record d : Value) : bool :=
  (text d "appId" =? app)%string && (text d "driverId" =? driver)%string && equal (get_null d "data") (get_null record "data").

Definition new_device (app driver : string) (input : Value) (reply : R) : P bool :=
  let$ id := envP in
  let$ def := readP (fun w => definition (w_store w) app driver) in
  let$ record := liftP (candidate def app driver id input) in
  let$ known := readP (fun w => Ok (find (same_device app driver record) (records (document (w_store w)) "devices"))) in
  match known with
  | Some existing =>
      let id := text existing "id" in
      let$ _ := check_idle initialising id STARTING in
      let$ v := readP (fun w => device_object (w_store w) id) in answer reply 201 v
  | None =>
      let$ _ := reserve in
      let$ now := nowP in
      let$ _ := storeP (put "devices" record true None now) in
      fun w =>
        match adopt app id (init_params driver id) false reply w with
        | (Ok _, w) => (Ok true, w)
        | (Err e, w) => (let$ _ := storeP (delete "devices" id) in liftP (Err e)) w
        end
  end.

Definition pair_devices (app driver : string) (r : Request) (reply : R) : P bool :=
  let$ input := liftP (json_parse (r_body r)) in
  let replace := text input "replace" in
  if is_empty replace then new_device app driver input reply else replace_device app driver replace input reply.

(** The app and the driver of [/api/stulp/apps/<app>/drivers/<driver>/pair/devices]. *)
Definition devices_path (path : string) : option (string * string) :=
  '(app, rest) ← strip_prefix "/api/stulp/apps/" path ≫= split_str "/drivers/";
  driver ← strip_suffix "/pair/devices" rest ≫= segment;
  Some (app, driver).

(** Only called after the session and the origin of the request were checked. *)
Definition route (r : Request) (reply : R) : P bool :=
  let on m := (r_method r =? m)%string in
  match (if on "PUT" then between_paths "/api/manager/devices/device/" "/settings" (r_path r) else None) with
  | Some id => settings_route id r reply
  | None =>
  match (if on "DELETE" then strip_prefix "/api/manager/devices/device/" (r_path r) ≫= segment else None) with
  | Some id => delete_route id reply
  | None =>
  if on "POST" && (r_path r =? "/api/stulp/pair")%string then start_route r reply
  else
  match (if on "DELETE" then strip_prefix "/api/stulp/pair/" (r_path r) ≫= segment else None) with
  | Some id => close_route id reply
  | None =>
  match (if on "POST" then strip_prefix "/api/stulp/pair/" (r_path r) ≫= split_str "/emit/" else None) with
  | Some (id, event) => emit_route id event r reply
  | None =>
  match (if on "POST" then devices_path (r_path r) else None) with
  | Some (app, driver) => pair_devices app driver r reply
  | None => retP false
  end end end end end.

(** ** Callbacks *)

(** What a callback that is done means; [None]: the device is initialised next. *)
Definition finish (c : Completion) (s : Stage) : P (option Response) :=
  let some v := let$ x := liftP v in retP (Some x) in
  let failed := liftP (Err (Invalid "plugin lifecycle callback failed")) in
  match s with
  | Delete id =>
      let$ _ := (if c_failed c then fun w => (Ok tt, put_apps (apps_log ("[stulp:unpair] plugin could not clean up device " ++ id) (w_apps w)) w)
                 else retP tt) in
      let$ _ := storeP (delete "devices" id) in
      some (Response_json 200 (VBool true))
  | Close => some (Response_json 200 (VBool true))
  | Start s =>
      if c_failed c then failed
      else
        let$ handlers := liftP (ok_or (as_array (c_value c)) (Invalid "pair handlers must be an array")) in
        if existsb (fun v => negb (bool_decide (is_Some (as_str v)))) handlers then liftP (Err (Invalid "pair handler must be a string"))
        else
          let$ x := liftP (Response_json 201 (fields [("id", VString (s_id s)); ("appId", VString (s_app s)); ("driverId", VString (s_driver s));
                                                      ("handlers", c_value c)])) in
          let$ _ := modifyP (fun p => set_sessions (sessions p ++ [s]) p) in
          retP (Some x)
  | Settings id patch now =>
      if c_failed c then failed
      else
        let$ d := readP (fun w => device id (w_store w)) in
        let$ entries := liftP (ok_or (as_object patch) (Invalid "invalid settings patch")) in
        let$ settings := liftP (set_fields entries (default object (get d "settings"))) in
        let$ d := liftP (set d "settings" settings) in
        let$ _ := storeP (put "devices" d false None now) in
        let$ v := readP (fun w => device_object (w_store w) id) in
        some (Response_json 200 v)
  | Emit => if c_failed c then failed else some (Response_json 200 (c_value c))
  | Driver app _ params _ =>
      if c_failed c then failed
      else let$ _ := appsP (apps_call app (c_owner c) "device.init" params) in retP None
  | Device id _ =>
      if c_failed c then failed
      else let$ v := readP (fun w => device_object (w_store w) id) in some (Response_json 201 v)
  end.

(** The new device of an initialisation that fails. *)
Definition rollback_of (s : Stage) : option string :=
  match s with Driver _ id _ false | Device id false => Some id | _ => None end.

(** What is undone after an error, and the error that is reported. *)
Definition rollback (s : Stage) (e : Error) : World St A E R -> Error * World St A E R := fun w =>
  match rollback_of s with
  | Some id =>
      if is_ok (record (document (w_store w)) "devices" id) then
        match storeP (delete "devices" id) w with (Ok _, w) => (e, w) | (Err x, w) => (x, w) end
      else (e, w)
  | None => (e, w)
  end.

Definition close_late (owner : Z) (s : Stage) (w : World St A E R) : World St A E R :=
  match s with
  | Start s => put_apps (apps_call (s_app s) owner "pair.close" (fields [("sessionId", VString (s_id s))]) (w_apps w)).2 w
  | _ => w
  end.

Definition is_storage (e : Error) : bool := match e with EStorage => true | _ => false end.

(** The words of the app, or of the error. *)
Definition failure_text (c : Completion) (e : Error) : string :=
  let detail := match as_str (c_value c) with Some s => s | None => text (c_value c) "message" end in
  if c_failed c && negb (is_empty detail) && negb (is_storage e) then detail else error_text e.

(** [iter().position(..)] and [remove] *)
Fixpoint take_pending (owner : Z) (l : list (Pending R)) : option (Pending R * list (Pending R)) :=
  match l with
  | [] => None
  | p :: l => if p_owner p =? owner then Some (p, l)
              else match take_pending owner l with Some (q, l) => Some (q, p :: l) | None => None end
  end.

Definition set_pending (l : list (Pending R)) (p : Pairing R) : Pairing R := mk_pairing (sessions p) l.

Definition settle (c : Completion) (p : Pending R) (w : World St A E R) : World St A E R :=
  match finish c (p_stage p) w with
  | (Ok None, w) =>
      match p_stage p with
      | Driver _ id _ keep =>
          let deadline := saturating_add (apps_now (w_apps w)) (callback_timeout "device.init" + 1000) in
          put_pairing (add_pending (mk_pending (p_owner p) deadline (p_reply p) (Device id keep)) (w_pairing w)) w
      | _ => w
      end
  | (Ok (Some x), w) => (replyP (p_reply p) x w).2
  | (Err e, w) =>
      let '(e, w) := rollback (p_stage p) e w in
      let w := close_late (p_owner p) (p_stage p) w in
      match Response_error (if is_storage e then 503 else 502) (failure_text c e) with
      | Ok x => (replyP (p_reply p) x w).2
      | Err _ => w
      end
  end.

Definition complete (c : Completion) (w : World St A E R) : bool * World St A E R :=
  match take_pending (c_owner c) (pending (w_pairing w)) with
  | None => (false, w)
  | Some (p, rest) => (true, settle c p (put_pairing (set_pending rest (w_pairing w)) w))
  end.

(** [while let Some(owner) = pending.iter().find(..)]; every round takes one operation away. *)
Fixpoint poll_loop (fuel : nat) (w : World St A E R) : World St A E R :=
  match fuel with
  | O => w
  | S fuel =>
      match find (fun p => p_deadline p <=? apps_now (w_apps w)) (pending (w_pairing w)) with
      | None => w
      | Some p => poll_loop fuel (complete (mk_completion (p_owner p) true VNull) w).2
      end
  end.

Definition poll (w : World St A E R) : World St A E R := poll_loop (length (pending (w_pairing w))) w.

End Owner.
