(* ===== verification/PairingOk.v ===== *)
(** * PairingOk: what the owner of pairing guarantees

    One operation at a time for a device, an answer for every request, the rollback of what an app
    could not initialise, and the sessions that nobody ends. *)

From Stdlib Require Import ZArith Lia Ascii String Permutation.
From S2P Require Import Prelude Text Errors Slots Value Document Stats Store StoreDoc StoreInv StoreOk StoreDocOps StoreProps Scenes Mutations AppRun Templates Web WebApi Objects SceneJobs Pairing.
From S2P Require FlowJobs.

Local Open Scope Z_scope.

(** ** What the steps of a request do to the owner *)

Section Proofs.
Context {St : Type} {HS : Storage St} {A : Type} {HA : Apps A} {E : Type} {HE : Environment E} {R : Type}.
Local Abbreviation P := (P (St := St) (A := A) (E := E) (R := R)).
Local Abbreviation World := (World St A E R).
Implicit Types (w : World) (p : Pending R) (reply : R).

(** The longest that an app may take for a callback. *)
Definition LONGEST : Z := 901000.

Lemma callback_timeout_bound app method params : 30000 <= callback_timeout_for app method params <= 900000.
Proof. unfold callback_timeout_for, callback_timeout. repeat case_match; lia. Qed.

(** An operation may be added: its device is idle, and its session has a place. *)
Definition admissible (s : Stage) (o : Pairing R) : Prop :=
  (forall id, lifecycle s = Some id -> device_busy id o = false)
  /\ (is_start s = true -> (length (sessions o) + starting o < MAX_SESSIONS)%nat).

(** Nothing is waited for or answered that was not before. *)
Definition silent w w' : Prop := w_pairing w' = w_pairing w /\ w_sent w' = w_sent w /\ w_owner w' = w_owner w.

(** A request that was taken is answered or waits; one that was not has left no trace. *)
Definition taken reply (r : Result bool) w w' : Prop :=
  match r with
  | Ok true =>
      (exists x, w_pairing w' = w_pairing w /\ w_owner w' = w_owner w /\ w_sent w' = w_sent w ++ [(reply, x)])
      \/ (exists d s, w_pairing w' = add_pending (mk_pending (w_owner w + 1) d reply s) (w_pairing w) /\ w_owner w' = w_owner w + 1
            /\ w_sent w' = w_sent w /\ (length (pending (w_pairing w)) <> MAX_PENDING)%nat
            /\ admissible s (w_pairing w) /\ d <= apps_now (w_apps w') + LONGEST)
  | _ => silent w w'
  end.

(** Steps that keep the owner, and those that keep everything. *)
Definition quiet {X} (m : P X) : Prop := forall w r w', m w = (r, w') -> silent w w'.
Definition pure {X} (m : P X) : Prop := forall w r w', m w = (r, w') -> w' = w.

(** Requests under a condition on the owner and the platform. *)
Definition request (pre : World -> Prop) reply (m : P bool) : Prop := forall w r w', pre w -> m w = (r, w') -> taken reply r w w'.

Definition of_pairing (f : Pairing R -> Prop) : World -> Prop := fun w => f (w_pairing w).

Lemma taken_silent reply r w w1 w' : silent w w1 -> taken reply r w1 w' -> taken reply r w w'.
Proof.
  intros (H1 & H2 & H3). unfold taken, silent. destruct r as [[]|]; rewrite ?H1, ?H2, ?H3; done.
Qed.

Lemma pure_quiet {X} (m : P X) : pure m -> quiet m.
Proof. intros H w r w' Hm. apply H in Hm as ->. done. Qed.

Lemma pure_read {X} (f : World -> Result X) : pure (readP f).
Proof. by intros w r w' [= _ <-]. Qed.
Lemma pure_lift {X} (r : Result X) : pure (liftP r).
Proof. by intros w r' w' [= _ <-]. Qed.
Lemma quiet_store {X} (m : M (St := St) X) : quiet (storeP m).
Proof. intros w r w'. unfold storeP. destruct (m _) as [x s]. by intros [= _ <-]. Qed.
Lemma quiet_env : quiet envP.
Proof. intros w r w'. unfold envP. destruct (env_id _) as [x s]. by intros [= _ <-]. Qed.
Lemma quiet_apps {X} (f : A -> Result X * A) : quiet (appsP f).
Proof. intros w r w'. unfold appsP. destruct (f _) as [x s]. by intros [= _ <-]. Qed.

Lemma request_pure {X} pre reply (m : P X) k : pure m -> (forall x, request (fun w => pre w /\ m w = (Ok x, w)) reply (k x)) -> request pre reply (bindP m k).
Proof.
  intros Hm Hk w r w' Hp. unfold bindP. destruct (m w) as [[x|e] w1] eqn:Em; pose proof (Hm _ _ _ Em) as ->.
  - by apply Hk.
  - by intros [= <- <-].
Qed.

(** A pure step whose value does not matter. *)
Lemma request_skip {X} pre reply (m : P X) k : pure m -> (forall x, request pre reply (k x)) -> request pre reply (bindP m k).
Proof. intros Hm Hk. apply request_pure; [done|]. intros x w r w' [Hp _]. by apply Hk. Qed.

Lemma request_quiet {X} f reply (m : P X) k : quiet m -> (forall x, request (of_pairing f) reply (k x)) -> request (of_pairing f) reply (bindP m k).
Proof.
  intros Hm Hk w r w' Hp. unfold bindP. destruct (m w) as [[x|e] w1] eqn:Em; pose proof (Hm _ _ _ Em) as Hs.
  - intros H. apply (taken_silent _ _ _ _ _ Hs). apply (Hk x w1 r w'); [|done]. unfold of_pairing. by destruct Hs as (-> & _).
  - by intros [= <- <-].
Qed.

Lemma request_weaken (pre pre' : World -> Prop) reply m : (forall w, pre w -> pre' w) -> request pre' reply m -> request pre reply m.
Proof. intros Hw Hm w r w' Hp. apply Hm. by apply Hw. Qed.

Lemma request_fail pre reply e : request pre reply (liftP (Err e)).
Proof. by intros w r w' _ [= <- <-]. Qed.

Lemma request_answer pre reply code v : request pre reply (answer reply code v).
Proof.
  apply request_skip; [apply pure_lift|]. intros x w r w' _ [= <- <-]. left. by exists x.
Qed.

Lemma request_send pre reply app method params s k :
  (forall w, pre w -> admissible s (w_pairing w)) -> (forall x, k x = retP true) ->
  request pre reply (bindP (send reply app method params s) k).
Proof.
  intros Hpre Hk w r w' Hp. unfold send, reserve, readP, appsP, bindP. destruct (_ =? _)%nat eqn:El; [by intros [= <- <-]|].
  apply Nat.eqb_neq in El. unfold checked_add. destruct (_ <=? _) eqn:Eo; cbn [ok_or]; [|by intros [= <- <-]].
  destruct (apps_call _ _ _ _ _) as [[[]|e] a] eqn:Ea; [|by intros [= <- <-]]. rewrite Hk. intros [= <- <-]. right.
  eexists _, s. cbn -[Z.add]. split_and!; try done; [by apply Hpre|]. pose proof (callback_timeout_bound app method params).
  unfold saturating_add, LONGEST. lia.
Qed.

Lemma request_idle f id message reply (k : unit -> P bool) :
  (forall x, request (of_pairing (fun o => existsb (is_for f id) (pending o) = false)) reply (k x)) ->
  request (fun _ => True) reply (bindP (check_idle f id message) k).
Proof.
  intros Hk. apply request_pure; [apply pure_read|]. intros x. eapply request_weaken; [|apply Hk].
  intros w [_ H]. unfold of_pairing. unfold check_idle, readP in H. by destruct (existsb _ _).
Qed.

Lemma idle_admissible s id o : lifecycle s = Some id -> is_start s = false -> existsb (is_for lifecycle id) (pending o) = false -> admissible s o.
Proof. intros Hl Hs H. split; [|by rewrite Hs]. intros i. rewrite Hl. by intros [= <-]. Qed.

Lemma free_admissible s o : lifecycle s = None -> is_start s = false -> admissible s o.
Proof. intros Hl Hs. split; [by rewrite Hl|by rewrite Hs]. Qed.

Lemma request_adopt f reply app id params keep (k : unit -> P bool) :
  (forall o, f o -> device_busy id o = false) -> (forall x, k x = retP true) ->
  request (of_pairing f) reply (bindP (adopt app id params keep reply) k).
Proof.
  intros Hf Hk. assert (request (of_pairing f) reply (bindP (readP (fun w => device id (w_store w)))
    (fun d => bindP (appsP (apps_adopt d)) (fun _ => bindP (send reply app "driver.init" params (Driver app id params keep)) k)))) as H.
  { apply request_quiet; [apply pure_quiet, pure_read|]. intros d. apply request_quiet; [apply quiet_apps|]. intros ?.
    apply request_send; [|done]. intros w Hw. by apply (idle_admissible _ id); [| |apply Hf]. }
  intros w r w' Hp Hw. apply (H w r w' Hp). rewrite <- Hw. unfold adopt, bindP. destruct (readP _ _) as [[d|e] w1]; [|done].
  by destruct (appsP _ _) as [[d'|e'] w2].
Qed.

Ltac skip := first [apply request_skip; [first [apply pure_read|apply pure_lift]|]; intros ?].

Lemma settings_route_request id r reply : request (fun _ => True) reply (settings_route id r reply).
Proof.
  unfold settings_route, documentP. skip. apply request_idle. intros ?. do 3 skip. destruct (match _ with Some [] => true | _ => false end).
  - skip. apply request_answer.
  - skip. apply request_send; [|done]. intros w Hw. by apply (idle_admissible _ id).
Qed.

Lemma delete_device_request id f reply : request (of_pairing f) reply (delete_device id reply).
Proof. unfold delete_device. apply request_quiet; [apply quiet_store|]. intros ?. apply request_answer. Qed.

Lemma delete_route_request id reply : request (fun _ => True) reply (delete_route id reply).
Proof.
  unfold delete_route, documentP. skip. destruct (_ =? _)%string.
  - eapply request_weaken; [|apply (request_quiet (fun _ => True)); [apply quiet_store|]; intros ?; apply request_answer]. done.
  - apply request_idle. intros ?. skip. intros w r w' Hw.
    pose proof (request_send (of_pairing (fun o => existsb (is_for lifecycle id) (pending o) = false)) reply (text x "appId") "device.delete"
      (fields [("deviceId", VString id)]) (Delete id) (fun _ => retP true)) as Hsend.
    specialize (Hsend (fun w Hw => idle_admissible (Delete id) id _ eq_refl eq_refl Hw) (fun _ => eq_refl) w).
    unfold bindP in Hsend. destruct (send _ _ _ _ _ w) as [[u|e] w1] eqn:Es.
    + intros [= <- <-]. by apply (Hsend (Ok true)).
    + assert (silent w w1) as Hs by (by apply (Hsend (Err e) w1)).
      destruct e; try (intros [= <- <-]; exact Hs); intros H; apply (taken_silent _ _ _ _ _ Hs);
        apply (delete_device_request id (fun _ => True) reply w1 r w' I H).
Qed.

Lemma start_route_request r reply : request (fun _ => True) reply (start_route r reply).
Proof.
  unfold start_route. skip. skip. apply request_pure; [apply pure_read|]. intros ?.
  apply (request_weaken _ (of_pairing (fun o => length (sessions o) + starting o < MAX_SESSIONS)%nat)).
  { intros w [_ H]. unfold of_pairing, readP in *. destruct (_ <=? _)%nat eqn:El; [done|]. by apply Nat.leb_gt in El. }
  apply request_quiet; [apply quiet_env|]. intros i. apply request_send; [|done]. intros w Hw. split; [done|]. by intros _.
Qed.

Lemma emit_route_request id event r reply : request (fun _ => True) reply (emit_route id event r reply).
Proof.
  unfold emit_route. destruct (_ || _); [apply request_fail|]. do 2 skip. apply request_send; [|done]. intros w _. by apply free_admissible.
Qed.

Lemma replace_device_request app driver id input reply : request (fun _ => True) reply (replace_device app driver id input reply).
Proof.
  unfold replace_device. skip. destruct (_ || _); [apply request_fail|]. apply request_idle. intros ?. do 6 skip.
  apply request_quiet; [apply quiet_store|]. intros ?. apply request_adopt; done.
Qed.

(** A new device gets an id that no operation is about. *)
Definition fresh_ids w : Prop := forall id e, env_id (w_env w) = (Ok id, e) -> device_busy id (w_pairing w) = false.

Lemma adopt_new_request app driver id reply : request (of_pairing (fun o => device_busy id o = false)) reply
  (fun w => match adopt app id (init_params driver id) false reply w with
            | (Ok _, w) => (Ok true, w)
            | (Err e, w) => (let$ _ := storeP (delete "devices" id) in liftP (Err e)) w
            end).
Proof.
  intros w r w' Hw. pose proof (request_adopt (fun o => device_busy id o = false) reply app id (init_params driver id) false (fun _ => retP true)
    (fun _ H => H) (fun _ => eq_refl) w) as Ha. unfold bindP at 1 in Ha. destruct (adopt _ _ _ _ _ w) as [[u|e] w1].
  - intros [= <- <-]. by apply (Ha (Ok true)).
  - assert (silent w w1) as Hs by (by apply (Ha (Err e) w1)). unfold bindP, liftP. destruct (storeP _ w1) as [[u|x] w2] eqn:Ed;
      apply quiet_store in Ed; intros [= <- <-]; apply (taken_silent _ _ _ _ _ Hs); exact Ed.
Qed.

Lemma new_device_request app driver input reply : request fresh_ids reply (new_device app driver input reply).
Proof.
  unfold new_device. intros w r w' Hf. unfold bindP at 1, envP. destruct (env_id (w_env w)) as [[id|e] env] eqn:Ee; [|by intros [= <- <-]].
  specialize (Hf _ _ Ee). intros H. apply (taken_silent _ _ _ (mk_world (w_pairing w) (w_store w) (w_apps w) env (w_owner w) (w_sent w))); [done|].
  revert H. set (w1 := mk_world _ _ _ _ _ _). assert (of_pairing (fun o => device_busy id o = false) w1) as Hf1 by done. clearbody w1.
  revert Hf1. generalize dependent w'. generalize dependent r. generalize dependent w1. clear.
  match goal with |- forall w1 r w', _ -> ?f w1 = _ -> _ => enough (request (of_pairing (fun o => device_busy id o = false)) reply f) as Hr by eauto end.
  skip. skip. skip. destruct x1 as [existing|].
  - skip. skip. apply request_answer.
  - skip. skip. apply request_quiet; [apply quiet_store|]. intros ?. apply adopt_new_request.
Qed.

Lemma pair_devices_request app driver r reply : request fresh_ids reply (pair_devices app driver r reply).
Proof.
  unfold pair_devices. skip. destruct (is_empty _); [apply new_device_request|].
  by eapply request_weaken; [|apply replace_device_request].
Qed.

(** A request to end a pairing session. *)
Definition ends_session (r : Request) : bool :=
  (r_method r =? "DELETE")%string && bool_decide (is_Some (strip_prefix "/api/stulp/pair/" (r_path r))).

Lemma close_route_request id reply w r w' : close_route id reply w = (r, w') ->
  taken reply r w w' \/ exists s rest, take_session id (sessions (w_pairing w)) = Some (s, rest)
    /\ taken reply r (put_pairing (set_sessions rest (w_pairing w)) w) w'.
Proof.
  unfold close_route. destruct (take_session id _) as [[s rest]|] eqn:Et.
  - intros H. right. exists s, rest. split; [done|]. revert H. set (w1 := put_pairing _ w). clearbody w1.
    pose proof (request_send (fun _ => True) reply (s_app s) "pair.close" (fields [("sessionId", VString id)]) Close (fun _ => retP true)
      (fun _ _ => free_admissible Close _ eq_refl eq_refl) (fun _ => eq_refl) w1) as Hs.
    unfold bindP in Hs. destruct (send _ _ _ _ _ w1) as [[u|e] w2].
    + intros [= <- <-]. by apply (Hs (Ok true)).
    + assert (silent w1 w2) as Hq by (by apply (Hs (Err e) w2)). intros H. apply (taken_silent _ _ _ _ _ Hq).
      by apply (request_answer (fun _ => True)) in H.
  - intros H. left. by apply (request_answer (fun _ => True)) in H.
Qed.

(** Every request is taken whole or leaves no trace; only the end of a session removes one. *)
Lemma route_request r reply w x w' : fresh_ids w -> route r reply w = (x, w') ->
  taken reply x w w' \/ ends_session r = true /\ exists s rest id, take_session id (sessions (w_pairing w)) = Some (s, rest)
    /\ taken reply x (put_pairing (set_sessions rest (w_pairing w)) w) w'.
Proof.
  intros Hf. unfold route.
  destruct (if (r_method r =? "PUT")%string then _ else _) as [id|]; [left; by eapply settings_route_request|].
  destruct (if (r_method r =? "DELETE")%string then strip_prefix "/api/manager/devices/device/" _ ≫= _ else _) as [id|]; [left; by eapply delete_route_request|].
  destruct (_ && _); [left; by eapply start_route_request|].
  destruct (if (r_method r =? "DELETE")%string then _ else _) as [id|] eqn:Ec.
  { intros [H|(s & rest & Ht & H)]%close_route_request; [by left|right]. split; [|by exists s, rest, id].
    unfold ends_session. destruct (_ =? _)%string; [|done]. by destruct (strip_prefix _ _). }
  destruct (if (r_method r =? "POST")%string then strip_prefix "/api/stulp/pair/" _ ≫= _ else _) as [[id event]|]; [left; by eapply emit_route_request|].
  destruct (if (r_method r =? "POST")%string then _ else _) as [[app driver]|]; [left; by eapply pair_devices_request|].
  intros [= <- <-]. by left.
Qed.
End Proofs.

(** ** What a callback does to the owner *)

Section Callbacks.
Context {St : Type} {HS : Storage St} {A : Type} {HA : Apps A} {E : Type} {HE : Environment E} {R : Type}.
Local Abbreviation P := (P (St := St) (A := A) (E := E) (R := R)).
Local Abbreviation World := (World St A E R).
Implicit Types (w : World) (p : Pending R) (reply : R) (c : Completion).

Definition opened (s : Stage) (r : Result (option Response)) : list Session :=
  match s, r with Start x, Ok (Some _) => [x] | _, _ => [] end.

Record finished c (s : Stage) (r : Result (option Response)) w w' : Prop := {
  fin_pending : pending (w_pairing w') = pending (w_pairing w);
  fin_sessions : sessions (w_pairing w') = sessions (w_pairing w) ++ opened s r;
  fin_sent : w_sent w' = w_sent w;
  fin_owner : w_owner w' = w_owner w;
  fin_failed : c_failed c = true -> opened s r = [] /\ r <> Ok None;
  fin_next : r = Ok None -> exists app id params keep, s = Driver app id params keep
}.

Lemma finished_silent c s r w w' : silent w w' -> opened s r = [] -> r <> Ok None -> finished c s r w w'.
Proof. intros (H1 & H2 & H3) Ho Hr. split; rewrite ?H1, ?Ho, ?app_nil_r; done. Qed.

Lemma hush_bind {X Y} (m : P X) (k : X -> P Y) : quiet m -> (forall x, quiet (k x)) -> quiet (bindP m k).
Proof.
  intros Hm Hk w r w'. unfold bindP. destruct (m w) as [[x|e] w1] eqn:Em; apply Hm in Em as (H1 & H2 & H3).
  - intros (H4 & H5 & H6)%Hk. unfold silent. rewrite H4, H5, H6. done.
  - by intros [= _ <-].
Qed.

Lemma quiet_read {X} (f : World -> Result X) : quiet (readP f).
Proof. apply pure_quiet, pure_read. Qed.
Lemma quiet_lift {X} (r : Result X) : quiet (liftP (R := R) (A := A) (E := E) (St := St) r).
Proof. apply pure_quiet, pure_lift. Qed.
Lemma hush_ret {X} (x : X) : quiet (retP (R := R) (A := A) (E := E) (St := St) x).
Proof. by intros w r w' [= _ <-]. Qed.

(** No callback but the first one of a new device asks for another. *)
Definition answers {X} (m : P (option X)) : Prop := forall w w', m w <> (Ok None, w').

Lemma answers_bind {X Y} (m : P X) (k : X -> P (option Y)) : (forall x, answers (k x)) -> answers (bindP m k).
Proof. intros Hk w w'. unfold bindP. destruct (m w) as [[x|e] w1]; [apply Hk|done]. Qed.

Ltac hush := repeat first [apply hush_bind; [|intros ?] | apply quiet_store | apply quiet_read | apply quiet_lift | apply hush_ret | apply quiet_apps].
Ltac answering := repeat (first [apply answers_bind; intros ?|by intros ? ?]).

Lemma plain_finish c s (m : P (option Response)) w r w' : m w = (r, w') -> quiet m -> answers m -> (forall x, s <> Start x) -> finished c s r w w'.
Proof.
  intros Hm Hq Ha Hs. apply finished_silent; [by eapply Hq| |intros ->; by apply Ha in Hm].
  destruct s; try done. by destruct (Hs s).
Qed.

Lemma finish_effect c s w r w' : finish c s w = (r, w') -> finished c s r w w'.
Proof.
  destruct s as [s| | |id patch now|id|app id params keep|id keep]; cbn [finish]; intros H.
  - destruct (c_failed c) eqn:Ef; [injection H as <- <-; by apply finished_silent|].
    unfold bindP at 1, liftP in H. destruct (ok_or (as_array _) _) as [hs|e]; [|injection H as <- <-; by apply finished_silent].
    destruct (existsb _ hs); [injection H as <- <-; by apply finished_silent|].
    unfold bindP at 1 in H. destruct (Response_json _ _) as [x|e]; [|injection H as <- <-; by apply finished_silent].
    injection H as <- <-. split; try done. by rewrite Ef.
  - destruct (c_failed c); (apply (plain_finish _ _ _ _ _ _ H); [hush|answering|done]).
  - apply (plain_finish _ _ _ _ _ _ H); [hush|answering|done].
  - destruct (c_failed c); (apply (plain_finish _ _ _ _ _ _ H); [hush|answering|done]).
  - apply (plain_finish _ _ _ _ _ _ H); [|answering|done]. apply hush_bind; [|intros ?; hush].
    destruct (c_failed c); [|hush]. by intros w1 r1 w2 [= _ <-].
  - destruct (c_failed c) eqn:Ef; [apply (plain_finish _ _ _ _ _ _ H); [hush|answering|done]|].
    assert (silent w w') as (H1 & H2 & H3) by (revert H; hush). split; rewrite ?H1, ?app_nil_r; try done; [by rewrite Ef|]. intros _. by eexists _, _, _, _.
  - destruct (c_failed c); (apply (plain_finish _ _ _ _ _ _ H); [hush|answering|done]).
Qed.

Lemma rollback_silent s e w : silent w (rollback s e w).2.
Proof.
  unfold rollback. destruct (rollback_of s) as [id|]; [|done]. destruct (is_ok _); [|done].
  destruct (storeP _ w) as [[u|x] w1] eqn:Es; by apply quiet_store in Es.
Qed.

Lemma close_late_silent o s w : silent w (close_late o s w).
Proof. by destruct s. Qed.

(** An operation whose callback is done is answered, or its device is initialised next. *)
Definition resolved c p w w' : Prop :=
  w_owner w' = w_owner w
  /\ (exists new, sessions (w_pairing w') = sessions (w_pairing w) ++ new
        /\ (new = [] \/ c_failed c = false /\ exists s, p_stage p = Start s /\ new = [s]))
  /\ ((exists x, w_sent w' = w_sent w ++ [(p_reply p, x)] /\ pending (w_pairing w') = pending (w_pairing w))
      \/ (c_failed c = false /\ exists app id params keep d, p_stage p = Driver app id params keep
          /\ pending (w_pairing w') = pending (w_pairing w) ++ [mk_pending (p_owner p) d (p_reply p) (Device id keep)]
          /\ w_sent w' = w_sent w /\ d <= apps_now (w_apps w') + LONGEST)).

Lemma opened_new c s r : opened s r = [] \/ c_failed c = false /\ (exists x, s = Start x /\ opened s r = [x]) \/ c_failed c = true /\ opened s r <> [].
Proof. destruct s as [s| | | | | |]; try by left. destruct r as [[x|]|e]; try by left. cbn. destruct (c_failed c); [by right; right|right; left; eauto]. Qed.

Lemma settle_resolves c p w : resolved c p w (settle c p w).
Proof.
  unfold settle. destruct (finish c (p_stage p) w) as [r w1] eqn:Ef. apply finish_effect in Ef as [Hp Hs Hsent Ho Hfail Hn].
  assert (exists new, sessions (w_pairing w1) = sessions (w_pairing w) ++ new
        /\ (new = [] \/ c_failed c = false /\ exists s, p_stage p = Start s /\ new = [s])) as Hnew.
  { exists (opened (p_stage p) r). split; [done|]. destruct (opened_new c (p_stage p) r) as [?|[[? ?]|[? ?]]]; [by left|by right|].
    by destruct Hfail. }
  destruct r as [[x|]|e].
  - split; [done|]. split; [done|]. left. exists x. cbn. by rewrite Hsent.
  - destruct (Hn eq_refl) as (app & id & params & keep & Hst). rewrite Hst. split; [done|]. split; [done|]. right.
    split; [destruct (c_failed c); [by destruct Hfail|done]|]. eexists app, id, params, keep, _. cbn -[Z.add]. split_and!; [done|by rewrite Hp|done|].
    unfold saturating_add, callback_timeout, LONGEST. cbn. lia.
  - destruct (rollback _ e w1) as [x w2] eqn:Er. pose proof (rollback_silent (p_stage p) e w1) as (H1 & H2 & H3). rewrite Er in H1, H2, H3. cbn [snd] in *.
    pose proof (close_late_silent (p_owner p) (p_stage p) w2) as (H4 & H5 & H6). set (w3 := close_late _ _ _) in *.
    destruct (Response_error_Ok (if is_storage x then 503 else 502) (failure_text c x)) as (a & -> & _). unfold resolved. cbn.
    rewrite H4, H5, H6, H1, H2, H3. split; [done|]. split; [done|]. left. exists a. by rewrite Hsent.
Qed.

Lemma take_pending_spec o (l : list (Pending R)) p rest : take_pending o l = Some (p, rest) ->
  p_owner p = o /\ exists l1 l2, l = l1 ++ p :: l2 /\ rest = l1 ++ l2.
Proof.
  revert rest. induction l as [|q l IH]; [done|]. intros rest. cbn. destruct (Z.eqb_spec (p_owner q) o) as [He|].
  - intros [= <- <-]. split; [done|]. by exists [], l.
  - destruct (take_pending o l) as [[q' l']|]; [|done]. intros [= <- <-]. destruct (IH l' eq_refl) as (? & l1 & l2 & -> & ->).
    split; [done|]. by exists (q :: l1), l2.
Qed.
End Callbacks.

(** ** Runs of the owner *)

Section Runs.
Context {St : Type} {HS : Storage St} {A : Type} {HA : Apps A} {E : Type} {HE : Environment E} {R : Type}.
Local Abbreviation World := (World St A E R).
Implicit Types (w : World) (p : Pending R) (reply : R) (c : Completion) (o : Pairing R).

Definition busy (l : list (Pending R)) : list string := omap (fun p => lifecycle (p_stage p)) l.
Definition replies (l : list (Pending R)) : list R := map p_reply l.

Record pairing_ok (t : Z) w : Prop := {
  ok_sessions : (length (sessions (w_pairing w)) + starting (w_pairing w) <= MAX_SESSIONS)%nat;
  ok_pending : (length (pending (w_pairing w)) <= MAX_PENDING)%nat;
  ok_handles : NoDup (map p_owner (pending (w_pairing w)));
  ok_owner : Forall (fun h => h <= w_owner w) (map p_owner (pending (w_pairing w)));
  ok_busy : NoDup (busy (pending (w_pairing w)));
  ok_due : Forall (fun p => p_deadline p <= t + LONGEST) (pending (w_pairing w))
}.

(** What happens: requests, answers of apps, polls, and whatever the other owners of the
    controller do, which never take back a callback handle. *)
Inductive reaches (t : Z) : World -> list R -> Prop :=
| reaches_new store apps env owner : reaches t (mk_world Pairing_new store apps env owner []) []
| reaches_request w asked r reply x w' : reaches t w asked -> fresh_ids w -> apps_now (w_apps w') <= t -> route r reply w = (x, w') ->
    reaches t w' (asked ++ match x with Ok true => [reply] | _ => [] end)
| reaches_callback w asked c x w' : reaches t w asked -> apps_now (w_apps w') <= t -> complete c w = (x, w') -> reaches t w' asked
| reaches_poll w asked : reaches t w asked -> apps_now (w_apps (poll w)) <= t -> reaches t (poll w) asked
| reaches_others w asked store apps env owner : reaches t w asked -> w_owner w <= owner ->
    reaches t (mk_world (w_pairing w) store apps env owner (w_sent w)) asked.

Definition starts (l : list (Pending R)) : nat := length (List.filter (fun p => is_start (p_stage p)) l).

Lemma starting_starts o : starting o = starts (pending o).
Proof. done. Qed.

Lemma starts_app l1 l2 : starts (l1 ++ l2) = (starts l1 + starts l2)%nat.
Proof. unfold starts. by rewrite List.filter_app, length_app. Qed.

Lemma starts_one p : starts [p] = (if is_start (p_stage p) then 1 else 0)%nat.
Proof. unfold starts. cbn. by destruct (is_start _). Qed.

Lemma busy_app l1 l2 : busy (l1 ++ l2) = busy l1 ++ busy l2.
Proof. apply omap_app. Qed.

Lemma idle_busy id o : device_busy id o = false -> id ∉ busy (pending o).
Proof.
  unfold device_busy. intros H Hi. apply list_elem_of_omap in Hi as (p & Hp & Hl). revert H. apply eq_true_false_abs.
  apply existsb_exists. exists p. split; [by apply list_elem_of_In|]. unfold is_for. rewrite Hl. apply String.eqb_refl.
Qed.

Lemma ok_silent t w w' : silent w w' -> pairing_ok t w -> pairing_ok t w'.
Proof. intros (H1 & H2 & H3) [? ? ? ? ? ?]. split; by rewrite ?H1, ?H3. Qed.

Lemma ok_fewer t w s rest id : take_session id (sessions (w_pairing w)) = Some (s, rest) -> pairing_ok t w ->
  pairing_ok t (put_pairing (set_sessions rest (w_pairing w)) w).
Proof.
  intros Ht [? ? ? ? ? ?]. split; try done. assert (length (sessions (w_pairing w)) = S (length rest)) as Hl.
  { clear -Ht. generalize dependent rest. induction (sessions _) as [|q l IH]; [done|]. cbn. intros rest. destruct (_ =? _)%string; [by intros [= _ <-]|].
    destruct (take_session id l) as [[q' l']|]; [|done]. intros [= -> <-]. cbn. f_equal. by apply IH. }
  unfold starting in *. cbn in *. lia.
Qed.

Lemma ok_taken t w reply x w' : apps_now (w_apps w') <= t -> taken reply x w w' -> pairing_ok t w -> pairing_ok t w'.
Proof.
  intros Ht Hk Hok. assert (silent w w' -> pairing_ok t w') as Hq by (intros; by eapply ok_silent).
  destruct x as [[]|]; try by apply Hq. destruct Hk as [(a & H1 & H2 & H3)|(d & s & H1 & H2 & H3 & H4 & [H5 H6] & H7)].
  { destruct Hok. split; by rewrite ?H1, ?H2. }
  destruct Hok as [K1 K2 K3 K4 K5 K6]. unfold MAX_SESSIONS, MAX_PENDING in *. split; rewrite ?H1, ?H2, ?starting_starts in *; cbn [pending sessions add_pending]; unfold MAX_SESSIONS, MAX_PENDING.
  - rewrite starts_app, starts_one. cbn [p_stage]. destruct (is_start s) eqn:Es; [specialize (H6 eq_refl)|]; lia.
  - rewrite length_app. cbn. lia.
  - rewrite map_app. cbn. apply NoDup_app. split_and!; [done| |apply NoDup_singleton]. intros h Hh ->%list_elem_of_singleton.
    rewrite Forall_forall in K4. apply K4 in Hh. lia.
  - rewrite map_app. cbn. apply Forall_app. split; [|repeat constructor; lia]. eapply Forall_impl; [exact K4|]. cbn beta. intros; lia.
  - rewrite busy_app. unfold busy at 2. cbn. destruct (lifecycle s) as [id|] eqn:El; [|by rewrite app_nil_r]. apply NoDup_app.
    split_and!; [done| |apply NoDup_singleton]. intros h Hh ->%list_elem_of_singleton. by apply (idle_busy id (w_pairing w)) in Hh; [|apply H5].
  - apply Forall_app. split; [done|]. repeat constructor. cbn. lia.
Qed.

(** After a callback the operation waits no longer, or waits for the initialisation of its device. *)
Lemma complete_spec c w x w' : complete c w = (x, w') ->
  (x = false /\ w' = w) \/ exists p l1 l2 w1, x = true /\ pending (w_pairing w) = l1 ++ p :: l2 /\ p_owner p = c_owner c
    /\ w1 = put_pairing (set_pending (l1 ++ l2) (w_pairing w)) w /\ resolved c p w1 w'.
Proof.
  unfold complete. destruct (take_pending _ _) as [[p rest]|] eqn:Et; [|intros [= <- <-]; by left]. intros [= <- <-].
  apply take_pending_spec in Et as (Ho & l1 & l2 & Hl & ->). right. eexists p, l1, l2, _. split_and!; try done. apply settle_resolves.
Qed.

Lemma NoDup_middle {X} (l1 l2 : list X) x : NoDup (l1 ++ x :: l2) <-> NoDup (x :: l1 ++ l2).
Proof. by rewrite <- Permutation_middle. Qed.

Lemma ok_complete t c w x w' : apps_now (w_apps w') <= t -> complete c w = (x, w') -> pairing_ok t w -> pairing_ok t w'.
Proof.
  intros Ht Hc [K1 K2 K3 K4 K5 K6]. apply complete_spec in Hc as [[_ ->]|(p & l1 & l2 & w1 & _ & Hl & Ho & -> & H1 & (new & H2 & H3) & H4)]; [done|].
  cbn [w_pairing w_owner w_sent put_pairing set_pending sessions pending] in *. rewrite starting_starts in K1. rewrite Hl in *. unfold MAX_SESSIONS, MAX_PENDING in *.
  rewrite !starts_app in K1. change (p :: l2) with ([p] ++ l2) in *. rewrite !starts_app in K1. rewrite !busy_app in K5. rewrite !map_app in K3, K4.
  rewrite !length_app in K2. cbn [length] in K2. apply Forall_app in K4 as [K4 (K4p & K4')%Forall_app]. apply Forall_app in K6 as [K6 (K6p & K6')%Forall_app]. cbn [map app] in K3.
  assert (length new + 0 <= starts [p])%nat as Hnew by (destruct H3 as [->|(_ & s & Hs & ->)]; [cbn; lia|unfold starts; cbn; rewrite Hs; cbn; lia]).
  apply NoDup_middle in K3. destruct H4 as [(a & _ & Hp)|(_ & app & id & params & keep & d & Hs & Hp & _ & Hd)].
  - apply NoDup_cons in K3 as [_ K3]. split; rewrite ?starting_starts, ?H1, ?H2, ?Hp; rewrite ?starts_app, ?length_app, ?busy_app, ?map_app, ?Forall_app; unfold MAX_SESSIONS, MAX_PENDING; try done; try lia.
    apply NoDup_app in K5 as (N1 & N2 & (N3 & N4 & N5)%NoDup_app). apply NoDup_app. split_and!; [done| |done]. intros i Hi Hj. apply (N2 i Hi). apply elem_of_app. by right.
  - assert (starts [p] = 0)%nat as Hp0 by (unfold starts; cbn; by rewrite Hs).
    assert (busy [p] = [id]) as Hb by (unfold busy; cbn; by rewrite Hs). rewrite Hb in K5.
    assert (forall l : list Z, map p_owner l1 ++ map p_owner l2 ++ [p_owner p] ≡ₚ p_owner p :: map p_owner l1 ++ map p_owner l2) as Hperm.
    { intros _. rewrite app_assoc. symmetry. apply Permutation_cons_append. }
    split; rewrite ?starting_starts, ?H1, ?H2, ?Hp; rewrite ?starts_app, ?length_app, ?busy_app, ?map_app, ?Forall_app; unfold MAX_SESSIONS, MAX_PENDING;
      cbn [map length p_owner]; rewrite <- ?app_assoc.
    + cbn. lia.
    + cbn. lia.
    + by rewrite (Hperm []).
    + repeat split; done.
    + cbn. by rewrite (Permutation_app_comm (busy l2)).
    + repeat split; try done. repeat constructor. cbn. lia.
Qed.

(** What is waited for and what was answered, taken together, is what was asked. *)
Lemma taken_replies reply x w w' : taken reply x w w' ->
  map fst (w_sent w') ++ replies (pending (w_pairing w')) ≡ₚ
  (map fst (w_sent w) ++ replies (pending (w_pairing w))) ++ match x with Ok true => [reply] | _ => [] end.
Proof.
  assert (silent w w' -> map fst (w_sent w') ++ replies (pending (w_pairing w')) ≡ₚ (map fst (w_sent w) ++ replies (pending (w_pairing w))) ++ []) as Hs.
  { intros (H1 & H2 & H3). by rewrite H1, H2, app_nil_r. }
  destruct x as [[]|]; try apply Hs. intros [(a & H1 & H2 & H3)|(d & s & H1 & H2 & H3 & _)]; rewrite H1, H3.
  - rewrite map_app. cbn. rewrite <- !app_assoc. apply Permutation_app_head, Permutation_app_comm.
  - unfold replies. cbn. by rewrite map_app, app_assoc.
Qed.

Lemma complete_replies c w x w' : complete c w = (x, w') ->
  map fst (w_sent w') ++ replies (pending (w_pairing w')) ≡ₚ map fst (w_sent w) ++ replies (pending (w_pairing w)).
Proof.
  intros [[_ ->]|(p & l1 & l2 & w1 & _ & Hl & Ho & -> & H1 & _ & H4)]%complete_spec; [done|]. rewrite Hl. unfold replies. rewrite map_app. cbn [map].
  destruct H4 as [(a & Hs & Hp)|(_ & app & id & params & keep & d & _ & Hp & Hs & _)]; rewrite Hs, Hp; cbn; rewrite ?map_app; cbn.
  - rewrite <- app_assoc. apply Permutation_app_head. cbn [app]. apply Permutation_middle.
  - apply Permutation_app_head. rewrite <- app_assoc. apply Permutation_app_head. symmetry. apply Permutation_cons_append.
Qed.

(** A round of a poll takes an operation away and answers it. *)
Lemma complete_failed h w x w' : complete (mk_completion h true VNull) w = (x, w') ->
  w_owner w' = w_owner w /\ sessions (w_pairing w') = sessions (w_pairing w)
  /\ (w' = w \/ exists l1 p l2, pending (w_pairing w) = l1 ++ p :: l2 /\ pending (w_pairing w') = l1 ++ l2).
Proof.
  intros [[_ ->]|(p & l1 & l2 & w1 & _ & Hl & Ho & -> & H1 & (new & H2 & H3) & H4)]%complete_spec; [split_and!; [done|done|by left]|].
  split; [done|]. split; [destruct H3 as [->|[? _]]; [by rewrite H2, app_nil_r|done]|]. right.
  destruct H4 as [(a & Hs & Hp)|[? _]]; [|done]. by exists l1, p, l2.
Qed.

Record polled w w' : Prop := {
  po_replies : map fst (w_sent w') ++ replies (pending (w_pairing w')) ≡ₚ map fst (w_sent w) ++ replies (pending (w_pairing w));
  po_sessions : sessions (w_pairing w') = sessions (w_pairing w);
  po_owner : w_owner w' = w_owner w;
  po_pending : pending (w_pairing w') `sublist_of` pending (w_pairing w)
}.

Lemma poll_loop_spec fuel : forall w, polled w (poll_loop fuel w).
Proof.
  induction fuel as [|fuel IH]; intros w; [by split|]. cbn [poll_loop]. destruct (find _ _) as [p|]; [|by split].
  destruct (complete _ w) as [x w1] eqn:Ec. cbn [snd]. pose proof (complete_replies _ _ _ _ Ec) as Hr. apply complete_failed in Ec as (Ho & Hs & Hp).
  destruct (IH w1) as [I1 I2 I3 I4]. split; [by rewrite I1|congruence..|]. transitivity (pending (w_pairing w1)); [done|].
  destruct Hp as [->|(l1 & q & l2 & -> & ->)]; [done|]. apply sublist_app; [done|]. by apply sublist_cons.
Qed.

Lemma ok_sublist t w w' : polled w w' -> pairing_ok t w -> pairing_ok t w'.
Proof.
  intros [H1 H2 H3 H4] [K1 K2 K3 K4 K5 K6]. rewrite !starting_starts in *. split; rewrite ?H2, ?H3, ?starting_starts.
  - assert (starts (pending (w_pairing w')) <= starts (pending (w_pairing w)))%nat; [|lia].
    clear -H4. induction H4 as [|p l1 l2 _ IH|p l1 l2 _ IH]; [done|..]; unfold starts in *; cbn; destruct (is_start _); cbn; lia.
  - apply sublist_length in H4. lia.
  - eapply sublist_NoDup; [exact K3|]. by apply sublist_map.
  - rewrite Forall_forall in K4 |- *. intros h Hh. apply K4. eapply elem_of_sublist; [exact Hh|by apply sublist_map].
  - assert (busy (pending (w_pairing w')) `sublist_of` busy (pending (w_pairing w))) as Hb; [|by eapply sublist_NoDup; [exact K5|]].
    clear -H4. unfold busy. induction H4 as [|p l1 l2 _ IH|p l1 l2 _ IH]; [done|..]; cbn; destruct (lifecycle _); by try constructor.
  - rewrite Forall_forall in K6 |- *. intros p Hp. apply K6. by eapply elem_of_sublist.
Qed.

Lemma pairing_reaches_ok t w asked : reaches t w asked ->
  pairing_ok t w /\ asked ≡ₚ map fst (w_sent w) ++ replies (pending (w_pairing w)).
Proof.
  induction 1 as [store apps env owner|w asked r reply x w' _ [Hok Hr] Hf Ht Hw|w asked c x w' _ [Hok Hr] Ht Hw|w asked _ [Hok Hr] Ht|w asked store apps env owner _ [Hok Hr] Ho].
  - split; [|done]. split; cbn; try constructor; unfold MAX_SESSIONS, MAX_PENDING; lia.
  - apply route_request in Hw as [Hw|[_ (s & rest & id & Hs & Hw)]]; [|..|done].
    + split; [by eapply ok_taken|]. by rewrite (taken_replies _ _ _ _ Hw), Hr.
    + split; [eapply ok_taken; [done|exact Hw|by eapply ok_fewer]|]. by rewrite (taken_replies _ _ _ _ Hw), Hr.
  - split; [by eapply ok_complete|]. by rewrite (complete_replies _ _ _ _ Hw), Hr.
  - pose proof (poll_loop_spec (length (pending (w_pairing w))) w) as Hp. split; [by eapply ok_sublist|]. unfold poll. by rewrite (po_replies _ _ Hp).
  - destruct Hok as [K1 K2 K3 K4 K5 K6]. split; [|done]. split; try done. cbn. eapply Forall_impl; [exact K4|]. cbn beta. intros; lia.
Qed.

(** ** The clock of the apps *)

Context {HM : FlowJobs.Monotonic A}.

Lemma rollback_apps s e w : w_apps (rollback s e w).2 = w_apps w.
Proof.
  unfold rollback. destruct (rollback_of s) as [id|]; [|done]. destruct (is_ok _); [|done].
  unfold storeP. by destruct (delete _ _ _) as [[u|x] st].
Qed.

(** An operation that failed only asks the app to close a session, or logs. *)
Lemma settle_forward h p w : apps_now (w_apps w) <= apps_now (w_apps (settle (mk_completion h true VNull) p w)).
Proof.
  unfold settle. assert (forall r w1, finish (mk_completion h true VNull) (p_stage p) w = (r, w1) -> apps_now (w_apps w) <= apps_now (w_apps w1)) as Hf.
  { intros r w1. destruct (p_stage p); cbn [finish c_failed]; try (intros [= _ <-]; lia).
    unfold bindP at 1. cbn [fst]. unfold bindP at 1. unfold storeP. destruct (delete _ _ _) as [[u|x] st]; intros [= _ <-]; apply FlowJobs.log_forward. }
  destruct (finish _ _ _) as [r w1]. specialize (Hf _ _ eq_refl). destruct r as [[x|]|e]; [done|by destruct (p_stage p)|].
  pose proof (rollback_apps (p_stage p) e w1) as Hr. destruct (rollback _ e w1) as [x w2]. cbn [snd] in Hr. rewrite <- Hr in Hf.
  assert (apps_now (w_apps w) <= apps_now (w_apps (close_late (p_owner p) (p_stage p) w2))) as Hc.
  { destruct (p_stage p); try done. cbn. etransitivity; [exact Hf|]. apply FlowJobs.call_forward. }
  by destruct (Response_error _ _).
Qed.

Lemma take_pending_None h (l : list (Pending R)) : take_pending h l = None -> h ∉ map p_owner l.
Proof.
  induction l as [|q l IH]; [intros _; apply not_elem_of_nil|]. cbn. destruct (Z.eqb_spec (p_owner q) h); [done|].
  destruct (take_pending h l) as [[]|]; [done|]. intros _. apply not_elem_of_cons. split; [congruence|by apply IH].
Qed.

Lemma poll_empties fuel : forall w, (length (pending (w_pairing w)) <= fuel)%nat ->
  Forall (fun p => p_deadline p <= apps_now (w_apps w)) (pending (w_pairing w)) -> pending (w_pairing (poll_loop fuel w)) = [].
Proof.
  induction fuel as [|fuel IH]; intros w Hl HF; cbn [poll_loop]; [destruct (pending _); [done|cbn in Hl; lia]|].
  destruct (find _ _) as [p|] eqn:Ef.
  - apply find_some in Ef as [Hi _]. apply list_elem_of_In in Hi. unfold complete. cbn [c_owner].
    destruct (take_pending _ _) as [[q rest]|] eqn:Et; [|apply take_pending_None in Et; destruct Et; by apply list_elem_of_fmap_2]. cbn [snd].
    apply take_pending_spec in Et as (_ & l1 & l2 & Hq & ->).
    set (w1 := put_pairing _ w). pose proof (settle_forward (p_owner p) q w1) as Hn.
    destruct (settle_resolves (mk_completion (p_owner p) true VNull) q w1) as (_ & _ & [(x & _ & Hp)|[? _]]); [|done].
    cbn in Hp, Hn. rewrite Hq in Hl, HF. rewrite length_app in Hl. cbn in Hl. apply Forall_app in HF as [HF1 [_ HF2]%Forall_cons].
    apply IH; rewrite Hp; [rewrite length_app; lia|]. apply Forall_app. split; (eapply Forall_impl; [eassumption|]); cbn beta; intros; lia.
  - destruct (pending _) as [|p l] eqn:Ep; [done|]. exfalso. apply Forall_cons in HF as [Hp _]. cbn in Ef. apply Z.leb_le in Hp. by rewrite Hp in Ef.
Qed.
End Runs.

(** ** The properties of the owner *)

Section Properties.
Context {St : Type} {HS : Storage St} {A : Type} {HA : Apps A} {E : Type} {HE : Environment E} {R : Type}.
Local Abbreviation World := (World St A E R).
Implicit Types (w : World) (p : Pending R) (reply : R) (c : Completion).

(** C32: Whatever requests, answers of apps and polls follow each other, at most one operation on
    the lifecycle of a device is in progress, every operation has a callback handle of its own,
    and there are never more than 64 operations and 32 pairing sessions. *)
Theorem one_operation_per_device t w asked : reaches t w asked ->
  NoDup (busy (pending (w_pairing w)))
  /\ NoDup (map p_owner (pending (w_pairing w)))
  /\ (length (pending (w_pairing w)) <= 64)%nat
  /\ (length (sessions (w_pairing w)) + starting (w_pairing w) <= 32)%nat.
Proof. by intros [[K1 K2 K3 K4 K5 K6] _]%pairing_reaches_ok. Qed.

(** C31: Every request that was taken is answered exactly once: the requests that were taken are
    those that were answered and those that wait, and the first poll 901 seconds after the last of
    them answers all, provided the clock of the apps is monotonic. *)
Theorem lifecycle_requests_are_answered t w asked : reaches t w asked ->
  asked ≡ₚ map fst (w_sent w) ++ replies (pending (w_pairing w))
  /\ (FlowJobs.Monotonic A -> t + LONGEST <= apps_now (w_apps w) ->
      asked ≡ₚ map fst (w_sent (poll w)) /\ pending (w_pairing (poll w)) = []).
Proof.
  intros [Hok Hr]%pairing_reaches_ok. split; [done|]. intros HM Hn.
  assert (pending (w_pairing (poll w)) = []) as Hp.
  { apply poll_empties; [done|]. eapply Forall_impl; [exact (ok_due _ _ Hok)|]. cbn beta. intros; lia. }
  split; [|done]. pose proof (po_replies _ _ (poll_loop_spec (length (pending (w_pairing w))) w)) as Hq. fold (poll w) in Hq.
  rewrite Hp, app_nil_r in Hq. by rewrite Hr, Hq.
Qed.
End Properties.

(** ** Failure *)

Section Failure.
Context {St : Type} {HS : Storage St} {A : Type} {HA : Apps A} {E : Type} {HE : Environment E} {R : Type}.
Local Abbreviation World := (World St A E R).
Implicit Types (w : World) (p : Pending R) (reply : R) (c : Completion).

Lemma deleted_device id (s s1 : Store St) : store_ok s -> delete "devices" id s = (Ok tt, s1) -> is_ok (record (document s1) "devices" id) = false.
Proof.
  intros Hs (e & s2 & Hp & ->)%StoreProps.delete_Ok. rewrite StoreProps.forget_document. unfold prepare_delete in Hp.
  repeat (cbn [String.eqb Ascii.eqb Bool.eqb andb collection_events] in Hp; step_ok Hp). injection Hp as Hd _.
  match goal with Hr : remove_record _ _ _ = Ok _ |- _ => apply remove_record_ok in Hr as (_ & _ & Hrec); [|apply Hs|vm_compute; set_solver] end.
  rewrite Hd in Hrec. destruct (record (document s2) "devices" id) as [r|] eqn:Er; [|done]. apply record_Ok in Er. rewrite Hrec in Er. unfold find_id in Er.
  by rewrite StoreProps.find_filter_none in Er.
Qed.

(** An initialisation that fails changes nothing before it is undone. *)
Lemma failed_start c s w : c_failed c = true -> is_Some (initialising s) -> finish c s w = (Err (Invalid "plugin lifecycle callback failed"), w).
Proof. intros Hf [i Hi]. destruct s; try done; cbn [finish]; by rewrite Hf. Qed.

(** A device that was there before it was paired again. *)
Definition repaired (s : Stage) : bool := match s with Driver _ _ _ keep | Device _ keep => keep | _ => false end.

(** C33: A new device that its app cannot initialise, or does not initialise in time, is undone:
    the request is answered with an error, nothing waits for it any more, and the device is gone,
    unless the store could not delete it, which is then the error; a device that was paired again
    stays as it is, since Flows refer to it. *)
Theorem failed_pairing_is_undone w c p rest id x w' :
  store_ok (w_store w) -> take_pending (c_owner c) (pending (w_pairing w)) = Some (p, rest) -> initialising (p_stage p) = Some id ->
  c_failed c = true -> complete c w = (x, w') ->
  exists a, w_sent w' = w_sent w ++ [(p_reply p, a)] /\ pending (w_pairing w') = rest
  /\ if repaired (p_stage p) then status a = 502 /\ w_store w' = w_store w
     else status a = 502 /\ is_ok (record (document (w_store w')) "devices" id) = false
          \/ exists e, (delete "devices" id (w_store w)).1 = Err e /\ status a = if is_storage e then 503 else 502.
Proof.
  intros Hs Ht Hi Hf. unfold complete. rewrite Ht. unfold settle. rewrite failed_start by (done || by eexists). intros [= <- <-].
  assert (rollback_of (p_stage p) = Some id /\ repaired (p_stage p) = false \/ rollback_of (p_stage p) = None /\ repaired (p_stage p) = true) as Hb.
  { destruct (p_stage p) as [| | | | |app i params [|]|i [|]]; cbn in Hi |- *; first [discriminate Hi|by right|by left; split]. }
  assert (forall o (w : World), close_late o (p_stage p) w = w) as Hclose by (intros; by destruct (p_stage p)).
  assert (forall (e : Error) (w1 : World), w_pairing w1 = set_pending rest (w_pairing w) -> w_sent w1 = w_sent w ->
    exists a, w_sent match Response_error (if is_storage e then 503 else 502) (failure_text c e) with Ok x => (replyP (p_reply p) x w1).2 | Err _ => w1 end = w_sent w ++ [(p_reply p, a)]
    /\ pending (w_pairing match Response_error (if is_storage e then 503 else 502) (failure_text c e) with Ok x => (replyP (p_reply p) x w1).2 | Err _ => w1 end) = rest
    /\ w_store match Response_error (if is_storage e then 503 else 502) (failure_text c e) with Ok x => (replyP (p_reply p) x w1).2 | Err _ => w1 end = w_store w1
    /\ status a = if is_storage e then 503 else 502) as Hend.
  { intros e w1 H1 H2. destruct (Response_error_Ok (if is_storage e then 503 else 502) (failure_text c e)) as (a & -> & Hst). exists a. cbn. by rewrite H1, H2. }
  unfold rollback. destruct Hb as [[-> ->]|[-> ->]].
  - cbn [w_store put_pairing]. destruct (is_ok _) eqn:Ek.
    + unfold storeP. cbn [w_store put_pairing]. destruct (delete "devices" id (w_store w)) as [[[]|e] s1] eqn:Ed; rewrite Hclose.
      * destruct (Hend (Invalid "plugin lifecycle callback failed") (put_store s1 (put_pairing (set_pending rest (w_pairing w)) w)) eq_refl eq_refl) as (a & H1 & H2 & H3 & H4).
        exists a. split; [done|]. split; [done|]. left. split; [done|].
        apply (eq_trans (f_equal (fun s => is_ok (record (document s) "devices" id)) H3)). by apply (deleted_device id (w_store w)).
      * destruct (Hend e (put_store s1 (put_pairing (set_pending rest (w_pairing w)) w)) eq_refl eq_refl) as (a & H1 & H2 & H3 & H4).
        exists a. split; [done|]. split; [done|]. right. by exists e.
    + rewrite Hclose. destruct (Hend (Invalid "plugin lifecycle callback failed") (put_pairing (set_pending rest (w_pairing w)) w) eq_refl eq_refl) as (a & H1 & H2 & H3 & H4).
      exists a. split; [done|]. split; [done|]. left. split; [done|].
      exact (eq_trans (f_equal (fun s => is_ok (record (document s) "devices" id)) H3) Ek).
  - rewrite Hclose. destruct (Hend (Invalid "plugin lifecycle callback failed") (put_pairing (set_pending rest (w_pairing w)) w) eq_refl eq_refl) as (a & H1 & H2 & H3 & H4).
    exists a. split; [done|]. split; [done|]. split; [done|]. exact H3.
Qed.

(** ** Sessions that nobody ends *)

(** Everything but a request to end a session. *)
Inductive abandoned : World -> World -> Prop :=
| abandoned_here w : abandoned w w
| abandoned_request w w1 r reply x w' : abandoned w w1 -> fresh_ids w1 -> ends_session r = false -> route r reply w1 = (x, w') -> abandoned w w'
| abandoned_callback w w1 c x w' : abandoned w w1 -> complete c w1 = (x, w') -> abandoned w w'
| abandoned_poll w w1 : abandoned w w1 -> abandoned w (poll w1)
| abandoned_others w w1 store apps env owner : abandoned w w1 -> abandoned w (mk_world (w_pairing w1) store apps env owner (w_sent w1)).

Lemma abandoned_sessions w w' : abandoned w w' -> exists new, sessions (w_pairing w') = sessions (w_pairing w) ++ new.
Proof.
  induction 1 as [w|w w1 r reply x w' _ IH Hf He Hr|w w1 c x w' _ IH Hc|w w1 _ IH|w w1 store apps env owner _ IH]; [by exists []; rewrite app_nil_r| | | |done].
  - apply route_request in Hr as [Hr|[? _]]; [|congruence|done]. destruct IH as [new IH]. exists new. rewrite <- IH.
    destruct x as [[]|]; try (by destruct Hr as (-> & _)). by destruct Hr as [(a & -> & _)|(d & s & -> & _)].
  - apply complete_spec in Hc as [[_ ->]|(p & l1 & l2 & w2 & _ & _ & _ & -> & _ & (more & Hs & _) & _)]; [done|]. destruct IH as [new IH].
    exists (new ++ more). by rewrite Hs, app_assoc, <- IH.
  - unfold poll. by rewrite (po_sessions _ _ (poll_loop_spec _ w1)).
Qed.

(** A pairing session that its browser does not end stays for ever: after 32 of them no
    request starts another, whatever happens, until one is ended by a request. *)
Theorem abandoned_sessions_block_pairing w w' r reply :
  (length (sessions (w_pairing w)) >= 32)%nat -> abandoned w w' -> r_method r = "POST"%string -> r_path r = "/api/stulp/pair"%string ->
  exists e, route r reply w' = (Err e, w').
Proof.
  intros Hl [new Ha]%abandoned_sessions Hm Hp. unfold route. rewrite Hm, Hp. cbn [String.eqb Ascii.eqb Bool.eqb andb].
  unfold start_route, bindP at 1, liftP. destruct (json_parse _) as [body|e]; [|by exists e].
  unfold bindP at 1, readP. destruct (definition _ _ _) as [d|e]; [|by exists e]. unfold bindP at 1.
  rewrite Ha, length_app. unfold MAX_SESSIONS. assert ((32 <=? _)%nat = true) as -> by (apply Nat.leb_le; lia). by eexists.
Qed.
End Failure.

(** ** A house where a lamp is paired *)

#[local] Instance script_apps : Apps Z := {
  apps_now := fun a => a; apps_running := fun _ _ => true; apps_call := fun _ _ _ _ a => (Ok tt, a); apps_adopt := fun _ a => (Ok tt, a);
  apps_log := fun _ a => a
}.
#[local] Instance script_env : Environment Z := {
  env_id := fun n => (Ok (show n), n + 1); env_now := fun _ => Ok "2026-01-01T00:00:00Z"%string; env_log := fun _ _ _ n => n
}.

#[local] Instance script_monotonic : FlowJobs.Monotonic Z.
Proof. split; cbn; lia. Qed.

Definition hue_manifest : Value :=
  json_of "{'id':'hue','version':'1','sdk':3,'drivers':[{'id':'bulb','name':'Bulb','class':'light','capabilities':['onoff']}]}".
Definition hue_house : Store Memory := Eval vm_compute in (announce "hue" hue_manifest sample).2.
Definition quiet_house : World Memory Z Z nat := mk_world Pairing_new hue_house 1000 1 7 [].

Definition ask (m path body : string) : Request := mk_request m path "" "" "" "" object (quoted body).
Definition pair_lamp : Request := ask "POST" "/api/stulp/apps/hue/drivers/bulb/pair/devices" "{'name':'Desk lamp','data':{'mac':2}}".

(** The device is there, and its app is asked for its driver and then for the device. *)
Definition lamp_added : World Memory Z Z nat := Eval vm_compute in (route pair_lamp 1%nat quiet_house).2.
Definition lamp_known : World Memory Z Z nat := Eval vm_compute in (complete (mk_completion 8 false object) lamp_added).2.

Lemma lamp_reached : reaches 1000 lamp_known [1%nat].
Proof.
  apply (reaches_callback 1000 lamp_added [1%nat] (mk_completion 8 false object) true).
  - apply (reaches_request 1000 quiet_house [] pair_lamp 1%nat (Ok true)); [apply reaches_new|by intros ??|by vm_compute|vm_compute; reflexivity].
  - by vm_compute.
  - vm_compute. reflexivity.
Qed.

Lemma one_operation_per_device_witness : busy (pending (w_pairing lamp_known)) = ["1"%string] /\ NoDup (busy (pending (w_pairing lamp_known))).
Proof. split; [vm_compute; reflexivity|]. apply (one_operation_per_device 1000 lamp_known [1%nat] lamp_reached). Defined.

(** Fifteen minutes later nothing waits any more. *)
Definition lamp_forgotten : World Memory Z Z nat := mk_world (w_pairing lamp_known) (w_store lamp_known) 902000 (w_env lamp_known) 8 (w_sent lamp_known).

Lemma lifecycle_requests_are_answered_witness :
  pending (w_pairing (poll lamp_forgotten)) = [] /\ [1%nat] ≡ₚ map fst (w_sent (poll lamp_forgotten)).
Proof.
  destruct (lifecycle_requests_are_answered 1000 lamp_forgotten [1%nat]) as [_ H].
  - apply (reaches_others 1000 lamp_known [1%nat]); [exact lamp_reached|vm_compute; congruence].
  - destruct (H script_monotonic) as [H1 H2]; [vm_compute; congruence|]. by split.
Defined.

(** The lamp of a house is paired, and its app does not answer. *)
Definition lamp_waits : World Memory Z Z nat := mk_world (mk_pairing [] [mk_pending 8 32000 1%nat (Device "lamp" false)]) sample 1000 1 8 [].
Definition lamp_refused : World Memory Z Z nat := Eval vm_compute in (complete (mk_completion 8 true (VString "no answer")) lamp_waits).2.

Lemma failed_pairing_is_undone_witness :
  is_ok (record (document (w_store lamp_waits)) "devices" "lamp") = true
  /\ is_ok (record (document (w_store lamp_refused)) "devices" "lamp") = false.
Proof.
  split; [vm_compute; reflexivity|].
  destruct (failed_pairing_is_undone lamp_waits (mk_completion 8 true (VString "no answer"))
    (mk_pending 8 32000 1%nat (Device "lamp" false)) [] "lamp" true lamp_refused) as (a & _ & _ & [[_ H]|(e & H & _)]).
  - exact sample_ok.
  - vm_compute. reflexivity.
  - reflexivity.
  - reflexivity.
  - vm_compute. reflexivity.
  - exact H.
  - vm_compute in H. discriminate H.
Defined.

Definition crowd : World Memory Z Z nat :=
  mk_world (mk_pairing (map (fun n => mk_session (show (Z.of_nat n)) "hue" "bulb") (seq 0 32)) []) hue_house 1000 100 7 [].

Lemma abandoned_sessions_block_pairing_witness :
  exists e, route (ask "POST" "/api/stulp/pair" "{'appId':'hue','driverId':'bulb'}") 1%nat (poll crowd) = (Err e, poll crowd).
Proof.
  destruct (abandoned_sessions_block_pairing crowd (poll crowd) (ask "POST" "/api/stulp/pair" "{'appId':'hue','driverId':'bulb'}") 1%nat) as (e & H).
  - vm_compute. lia.
  - apply abandoned_poll, abandoned_here.
  - reflexivity.
  - reflexivity.
  - by exists e.
Defined.
