(* ===== verification/CatalogJobs.v ===== *)
(** * CatalogJobs: the catalogue waits for the apps

    Models [controller/src/catalog.rs]: a request for the catalogue of cards asks every running app
    that has cards for its registrations, remembers the answers as long as the manifest stays the
    same, and is answered when the last app is. *)

From Stdlib Require Import ZArith Lia Ascii String Permutation.
From S2P Require Import Prelude Text Errors Slots Value Json Document Stats Store StoreDoc StoreProps AppRun Mutations Web SceneJobs.
From S2P Require Cards WebServe.

Local Open Scope Z_scope.

Definition MAX_JOBS : nat := 8.
Definition MAX_CALLS : nat := 32.
Definition MAX_CACHE : Z := 64.

Record Call : Type := mk_call { k_owner : Z; k_app : string }.

Record Job (R : Type) : Type := mk_job { j_calls : list Call; j_registrations : Value; j_reply : R }.
Arguments mk_job {R}. Arguments j_calls {R}. Arguments j_registrations {R}. Arguments j_reply {R}.

Record Cached : Type := mk_cached { h_app : string; h_manifest : Value; h_registrations : Value }.

Record Catalog (R : Type) : Type := mk_catalog { jobs : list (Job R); cache : list Cached }.
Arguments mk_catalog {R}. Arguments jobs {R}. Arguments cache {R}.

Section Owner.
Context {St : Type} {HS : Storage St} {A : Type} {HA : Apps A} {R : Type}.
(** [data/cards.json] *)
Context (cards_data : list Z).
Implicit Types (store : Store St) (t : Catalog R).

Definition Catalog_new : Catalog R := mk_catalog [] [].

Definition cached store (l : list Cached) (id : string) : option Value :=
  manifest ← manifest_of id store;
  h_registrations <$> find (fun c => (h_app c =? id)%string && equal (h_manifest c) manifest) l.

(** [iter_mut().find(..)] *)
Fixpoint replace_entry (e : Cached) (l : list Cached) : option (list Cached) :=
  match l with
  | [] => None
  | c :: l => if (h_app c =? h_app e)%string then Some (e :: l) else match replace_entry e l with Some l => Some (c :: l) | None => None end
  end.

Definition remember store (app : string) (registrations : Value) (l : list Cached) : Result (list Cached) :=
  match manifest_of app store with
  | None => Ok l
  | Some manifest =>
      let e := mk_cached app manifest registrations in
      match replace_entry e l with Some l => Ok l | None => push l e MAX_CACHE end
  end.

(** Whether the app takes part. *)
Definition asked store (a : A) (id : string) : bool :=
  apps_running a id && match manifest_of id store with Some m => bool_decide (is_Some (get m "flow")) | None => false end.

(** The apps of a request: those with remembered registrations are done, the others are called. *)
Fixpoint gather store (l : list Cached) (rs : list Value) (calls : list Call) (regs : Value) (owner : Z) (a : A)
  : Result (list Call * Value) * Z * A :=
  match rs with
  | [] => (Ok (calls, regs), owner, a)
  | r :: rs =>
      let id := text r "id" in
      if negb (asked store a id) then gather store l rs calls regs owner a
      else
        match cached store l id with
        | Some v => match set regs id v with
                    | Ok regs => gather store l rs calls regs owner a
                    | Err e => (Err e, owner, a)
                    end
        | None =>
            if (length calls =? MAX_CALLS)%nat then (Err Full, owner, a)
            else
              match checked_add owner 1 with
              | None => (Err Full, owner, a)
              | Some next =>
                  match apps_call id next "registrations" VNull a with
                  | (Ok _, a) => gather store l rs (calls ++ [mk_call next id]) regs next a
                  | (Err _, a) => gather store l rs calls regs owner a
                  end
              end
        end
  end.

Definition answer_cards store (regs : Value) : Result Response :=
  v ← Cards.catalog cards_data store regs; Response_json 200 v.

Definition is_catalog (r : Request) : bool :=
  (r_path r =? "/api/stulp/flow/cards")%string && WebServe.one_of ["GET"; "HEAD"] (r_method r).

(** [route]: whether it is this route, the new state, the counter of handles, the apps, and what
    was sent. *)
Definition route store (r : Request) (reply : R) t (owner : Z) (a : A) : Result bool * Catalog R * Z * A * list (R * Response) :=
  if negb (is_catalog r) then (Ok false, t, owner, a, [])
  else if (MAX_JOBS <=? length (jobs t))%nat then (Err Full, t, owner, a, [])
  else
    match gather store (cache t) (records (document store) "apps") [] object owner a with
    | (Err e, owner, a) => (Err e, t, owner, a, [])
    | (Ok ([], regs), owner, a) =>
        match answer_cards store regs with
        | Ok x => (Ok true, t, owner, a, [(reply, x)])
        | Err e => (Err e, t, owner, a, [])
        end
    | (Ok (calls, regs), owner, a) => (Ok true, mk_catalog (jobs t ++ [mk_job calls regs reply]) (cache t), owner, a, [])
    end.

(** ** Answers of apps *)

Fixpoint take_call (owner : Z) (l : list Call) : option (Call * list Call) :=
  match l with
  | [] => None
  | c :: l => if k_owner c =? owner then Some (c, l) else match take_call owner l with Some (d, l) => Some (d, c :: l) | None => None end
  end.

(** The job that waits for a handle: the jobs before and after it, its call, and the job without it. *)
Fixpoint take_job (owner : Z) (before l : list (Job R)) : option (list (Job R) * Call * Job R * list (Job R)) :=
  match l with
  | [] => None
  | j :: l => match take_call owner (j_calls j) with
              | Some (c, rest) => Some (before, c, mk_job rest (j_registrations j) (j_reply j), l)
              | None => take_job owner (before ++ [j]) l
              end
  end.

(** [finish] *)
Definition finish store (before : list (Job R)) (j : Job R) (after : list (Job R)) (l : list Cached)
  : Result bool * Catalog R * list (R * Response) :=
  match j_calls j with
  | [] =>
      match (match answer_cards store (j_registrations j) with
             | Ok x => Ok x
             | Err e => Response_error 500 (error_text e)
             end) with
      | Ok x => (Ok true, mk_catalog (before ++ after) l, [(j_reply j, x)])
      | Err e => (Err e, mk_catalog (before ++ after) l, [])
      end
  | _ => (Ok true, mk_catalog (before ++ j :: after) l, [])
  end.

Definition complete store (c : Completion) t : Result bool * Catalog R * list (R * Response) :=
  match take_job (c_owner c) [] (jobs t) with
  | None => (Ok false, t, [])
  | Some (before, call, j, after) =>
      if c_failed c then finish store before j after (cache t)
      else
        match set (j_registrations j) (k_app call) (c_value c) with
        | Err e => (Err e, mk_catalog (before ++ j :: after) (cache t), [])
        | Ok regs =>
            let j := mk_job (j_calls j) regs (j_reply j) in
            match remember store (k_app call) (c_value c) (cache t) with
            | Err e => (Err e, mk_catalog (before ++ j :: after) (cache t), [])
            | Ok l => finish store before j after l
            end
        end
  end.

End Owner.

(** ** Every request is answered *)

Section Answered.
Context {St : Type} {HS : Storage St} {A : Type} {HA : Apps A} {R : Type} (cards_data : list Z).
Implicit Types (store : Store St) (t : Catalog R) (j : Job R).

Definition job_handles j : list Z := map k_owner (j_calls j).
Definition handles t : list Z := flat_map job_handles (jobs t).
Definition replies t : list R := map j_reply (jobs t).

(** A job waits for at least one app, all of them among the known ones. *)
Definition job_ok (known : list string) j : Prop :=
  j_calls j <> [] /\ Forall (fun c => k_app c ∈ known) (j_calls j) /\ is_Some (as_object (j_registrations j)).

Record catalog_ok (known : list string) (owner : Z) t : Prop := {
  co_jobs : Forall (job_ok known) (jobs t);
  co_fresh : NoDup (handles t);
  co_below : Forall (fun o => o <= owner) (handles t);
  co_cache : NoDup (map h_app (cache t)) /\ Forall (fun a => a ∈ known) (map h_app (cache t))
}.

Lemma replace_entry_spec e l : match replace_entry e l with
  | Some l' => map h_app l' = map h_app l
  | None => h_app e ∉ map h_app l
  end.
Proof.
  induction l as [|c l IH]; cbn; [by apply not_elem_of_nil|]. destruct (String.eqb_spec (h_app c) (h_app e)) as [Heq|Hne]; [cbn; by rewrite Heq|].
  destruct (replace_entry e l); cbn; [by rewrite IH|]. apply not_elem_of_cons. split; [congruence|done].
Qed.

(** The cache has room for every known app. *)
Lemma remember_room store (known : list string) app v l : app ∈ known -> Z.of_nat (length known) <= MAX_CACHE ->
  NoDup (map h_app l) /\ Forall (fun a => a ∈ known) (map h_app l) ->
  exists l', remember store app v l = Ok l' /\ NoDup (map h_app l') /\ Forall (fun a => a ∈ known) (map h_app l').
Proof.
  intros Ha Hk [Hn Hf]. unfold remember. destruct (manifest_of app store) as [m|]; [|by exists l].
  pose proof (replace_entry_spec (mk_cached app m v) l) as Hr. destruct (replace_entry _ l) as [l'|]; [exists l'; by rewrite Hr|]. cbn in Hr.
  assert (NoDup (app :: map h_app l)) as Hn' by (by constructor).
  assert (app :: map h_app l ⊆+ known) as Hsub.
  { apply NoDup_submseteq; [done|]. intros x [->|Hx]%elem_of_cons; [done|]. rewrite Forall_forall in Hf. by apply Hf. }
  apply submseteq_length in Hsub. cbn in Hsub. rewrite length_map in Hsub. unfold push.
  destruct (Z.leb_spec MAX_CACHE (Z.of_nat (length l))); [lia|]. eexists. split; [reflexivity|]. rewrite map_app. cbn. split.
  - apply NoDup_app. split; [done|]. split; [|apply NoDup_singleton]. intros x Hx ->%list_elem_of_singleton. done.
  - apply Forall_app. split; [done|]. by apply Forall_singleton.
Qed.

Lemma gather_ok store (known : list string) l : forall rs calls regs owner a r owner' a',
  Forall (fun r => text r "id" ∈ known) rs -> gather store l rs calls regs owner a = (r, owner', a') ->
  Forall (fun c => k_app c ∈ known) calls -> is_Some (as_object regs) ->
  owner <= owner' /\ match r with
  | Ok (calls', regs') => exists more, calls' = calls ++ more /\ NoDup (map k_owner more) /\ Forall (fun c => owner < k_owner c <= owner') more
      /\ Forall (fun c => k_app c ∈ known) calls' /\ is_Some (as_object regs')
  | Err _ => True
  end.
Proof.
  induction rs as [|r0 rs IH]; intros calls regs owner a r owner' a' Hk H Hc Hr; cbn [gather] in H.
  { injection H as <- <- <-. split; [lia|]. exists []. rewrite app_nil_r. split_and!; [done|constructor|constructor|done|done]. }
  apply Forall_cons in Hk as [Hk1 Hk2]. cbv zeta in H. destruct (negb _); [by eapply IH|].
  destruct (cached _ _ _) as [v|].
  { destruct (set regs _ v) as [regs'|] eqn:Es; [|injection H as <- <- <-; split; [lia|done]]. eapply IH; [done|exact H|done|by eapply set_is_object]. }
  destruct (_ =? _)%nat; [injection H as <- <- <-; split; [lia|done]|].
  destruct (checked_add owner 1) as [next|] eqn:En; [|injection H as <- <- <-; split; [lia|done]].
  apply checked_add_Some in En as [-> _].
  destruct (apps_call _ _ _ _ a) as [[[]|e] a1]; [|by eapply IH]. eapply IH in H as [Ho H]; [|done| |done].
  - split; [lia|]. destruct r as [[calls' regs']|]; [|done]. destruct H as (more & -> & Hn & Hb & Ha & Hr').
    exists (mk_call (owner + 1) (text r0 "id") :: more). rewrite <- app_assoc in *. split_and!; [done| | |done|done].
    + cbn. constructor; [|done]. rewrite Forall_forall in Hb. intros (c & Hc1 & Hc2)%list_elem_of_fmap. specialize (Hb _ Hc2). lia.
    + constructor; [cbn; lia|]. eapply Forall_impl; [exact Hb|]. cbn. lia.
  - apply Forall_app. split; [done|]. by apply Forall_singleton.
Qed.

(** The requests waiting before are the ones that wait after, and the ones that were answered. *)
Lemma route_step store known r reply t owner a res t' owner' a' sent :
  Forall (fun x => text x "id" ∈ known) (records (document store) "apps") ->
  route cards_data store r reply t owner a = (res, t', owner', a', sent) -> catalog_ok known owner t ->
  catalog_ok known owner' t' /\ owner <= owner'
  /\ (match res with Ok true => [reply] | _ => [] end) ++ replies t ≡ₚ map fst sent ++ replies t'.
Proof.
  intros Hk H [H1 H2 H3 H4]. assert (forall o, owner <= o -> catalog_ok known o t) as Hup.
  { intros o Ho. split; [done|done| |done]. eapply Forall_impl; [exact H3|]. cbn. lia. }
  unfold route in H. destruct (negb _); [injection H as <- <- <- <- <-; by split_and!; [apply Hup|lia|]|].
  destruct (_ <=? _)%nat; [injection H as <- <- <- <- <-; by split_and!; [apply Hup|lia|]|].
  destruct (gather _ _ _ _ _ _ _) as [[g o] a1] eqn:Eg.
  eapply (gather_ok store known) in Eg as [Ho Hg]; [|done|constructor|by eexists].
  destruct g as [[calls regs]|e]; [|injection H as <- <- <- <- <-; by split_and!; [apply Hup|lia|]].
  destruct Hg as (more & Hm & Hn & Hb & Ha & Hr). cbn in Hm. subst more. destruct calls as [|c calls].
  { destruct (answer_cards _ _ _); injection H as <- <- <- <- <-; by split_and!; [apply Hup|lia|]. }
  injection H as <- <- <- <- <-. split; [|split; [lia|]].
  - assert (handles (mk_catalog (jobs t ++ [mk_job (c :: calls) regs reply]) (cache t)) = handles t ++ map k_owner (c :: calls)) as Hh.
    { unfold handles. cbn [jobs]. rewrite flat_map_app. cbn. by rewrite app_nil_r. }
    split; [| | |done].
    + cbn [jobs]. apply Forall_app. split; [done|]. apply Forall_singleton. by split_and!.
    + rewrite Hh. apply NoDup_app. split; [done|]. split; [|done]. intros x Hx1 (y & -> & Hy)%list_elem_of_fmap.
      rewrite Forall_forall in H3. rewrite Forall_forall in Hb. specialize (H3 _ Hx1). specialize (Hb _ Hy). cbn in *. lia.
    + rewrite Hh. apply Forall_app. split; [eapply Forall_impl; [exact H3|]; cbn; lia|]. apply Forall_map.
      eapply Forall_impl; [exact Hb|]. cbn. lia.
  - unfold replies. cbn [jobs]. rewrite map_app. cbn. by rewrite Permutation_app_comm.
Qed.

Lemma take_call_spec owner l : match take_call owner l with
  | Some (c, rest) => k_owner c = owner /\ c ∈ l /\ rest `sublist_of` l /\ map k_owner l ≡ₚ owner :: map k_owner rest
  | None => owner ∉ map k_owner l
  end.
Proof.
  induction l as [|c l IH]; cbn; [by apply not_elem_of_nil|]. destruct (Z.eqb_spec (k_owner c) owner) as [<-|Hne].
  { split_and!; [done|by left|by apply sublist_cons|done]. }
  destruct (take_call owner l) as [[d rest]|]; [|apply not_elem_of_cons; split; [congruence|done]].
  destruct IH as (H1 & H2 & H3 & H4). split_and!; [done|by right|by apply sublist_skip|]. cbn. by rewrite H4, perm_swap.
Qed.

Lemma take_job_spec owner : forall l before, match take_job owner before l with
  | Some (b, c, j, after) => exists pre j0, b = before ++ pre /\ l = pre ++ j0 :: after /\ take_call owner (j_calls j0) = Some (c, j_calls j)
      /\ j_registrations j = j_registrations j0 /\ j_reply j = j_reply j0
  | None => owner ∉ flat_map job_handles l
  end.
Proof.
  induction l as [|j0 l IH]; intros before; cbn [take_job]; [by apply not_elem_of_nil|].
  pose proof (take_call_spec owner (j_calls j0)) as Ht. destruct (take_call owner (j_calls j0)) as [[c rest]|] eqn:Et.
  { exists [], j0. by rewrite app_nil_r, Et. }
  specialize (IH (before ++ [j0])). destruct (take_job owner _ l) as [[[[b c] j] after]|].
  - destruct IH as (pre & j1 & -> & -> & H). exists (j0 :: pre), j1. by rewrite <- app_assoc.
  - cbn [flat_map]. intros [H|H]%elem_of_app; [by apply Ht|by apply IH].
Qed.

(** The job that an answer belongs to, taken apart. *)
Lemma taken_job known owner t o before c j after : catalog_ok known owner t -> take_job o [] (jobs t) = Some (before, c, j, after) ->
  k_app c ∈ known /\ is_Some (as_object (j_registrations j)) /\ Forall (fun c => k_app c ∈ known) (j_calls j)
  /\ Forall (job_ok known) (before ++ after) /\ replies t ≡ₚ j_reply j :: map j_reply (before ++ after)
  /\ handles t ≡ₚ o :: map k_owner (j_calls j) ++ flat_map job_handles (before ++ after).
Proof.
  intros [H1 _ _ _] Ht. pose proof (take_job_spec o (jobs t) []) as Hs. rewrite Ht in Hs.
  destruct Hs as (pre & j0 & Hp & Hj & Hc & Hr & Hy). cbn in Hp. subst pre.
  pose proof (take_call_spec o (j_calls j0)) as Hsp. rewrite Hc in Hsp. destruct Hsp as (_ & Hin & Hsub & Hperm).
  rewrite Hj in H1. apply Forall_app in H1 as [Hb [[_ [Hk Ho]] Ha]%Forall_cons]. split_and!.
  - rewrite Forall_forall in Hk. by apply Hk.
  - by rewrite Hr.
  - rewrite Forall_forall in Hk |- *. intros x Hx. apply Hk. by eapply elem_of_sublist.
  - by apply Forall_app.
  - unfold replies. rewrite Hj, !map_app. cbn. rewrite Hy. by rewrite <- Permutation_middle.
  - unfold handles. rewrite Hj, !flat_map_app. cbn. unfold job_handles at 2. rewrite Hperm. cbn. rewrite <- Permutation_middle. constructor.
    rewrite app_assoc, (Permutation_app_comm (flat_map job_handles before)). by rewrite <- app_assoc.
Qed.

Lemma finish_step store known before j after l r t' sent owner h :
  finish cards_data store before j after l = (r, t', sent) ->
  is_Some (as_object (j_registrations j)) -> Forall (fun c => k_app c ∈ known) (j_calls j) -> Forall (job_ok known) (before ++ after) ->
  NoDup (map h_app l) /\ Forall (fun a => a ∈ known) (map h_app l) ->
  NoDup (h :: map k_owner (j_calls j) ++ flat_map job_handles (before ++ after)) ->
  Forall (fun o => o <= owner) (map k_owner (j_calls j) ++ flat_map job_handles (before ++ after)) ->
  catalog_ok known owner t' /\ j_reply j :: map j_reply (before ++ after) ≡ₚ map fst sent ++ replies t'
  /\ map k_owner (j_calls j) ++ flat_map job_handles (before ++ after) ≡ₚ handles t'.
Proof.
  intros H Ho Hk Hj Hl [_ Hn]%NoDup_cons Hb. unfold finish in H. destruct (j_calls j) as [|c cs] eqn:Ec.
  - cbn in Hn, Hb. destruct (Response_error_Ok 500 "x") as (_ & _ & _).
    assert (exists x, match answer_cards cards_data store (j_registrations j) with Ok x => Ok x | Err e => Response_error 500 (error_text e) end = Ok x) as [x Hx].
    { destruct (answer_cards _ _ _) as [x|e]; [by exists x|]. destruct (Response_error_Ok 500 (error_text e)) as (x & -> & _). by exists x. }
    rewrite Hx in H. injection H as <- <- <-. split_and!; [|done|done]. by split.
  - injection H as <- <- <-. rewrite <- Ec in *. assert (handles (mk_catalog (before ++ j :: after) l) ≡ₚ map k_owner (j_calls j) ++ flat_map job_handles (before ++ after)) as Hh.
    { unfold handles. cbn [jobs]. rewrite !flat_map_app. cbn. rewrite app_assoc, (Permutation_app_comm (flat_map job_handles before)). by rewrite <- app_assoc. }
    split_and!; [split|..].
    + apply Forall_app in Hj as [Hj1 Hj2]. apply Forall_app. split; [done|]. constructor; [|done]. split; [by rewrite Ec|done].
    + by rewrite Hh.
    + by rewrite Hh.
    + done.
    + unfold replies. cbn [jobs]. rewrite !map_app. cbn. by rewrite Permutation_middle.
    + by rewrite Hh.
Qed.

Lemma complete_step store known c t r t' sent owner : Z.of_nat (length known) <= MAX_CACHE ->
  complete cards_data store c t = (r, t', sent) -> catalog_ok known owner t ->
  catalog_ok known owner t' /\ replies t ≡ₚ map fst sent ++ replies t'
  /\ (handles t ≡ₚ c_owner c :: handles t' \/ c_owner c ∉ handles t /\ handles t' = handles t).
Proof.
  intros Hk H Hok. unfold complete in H. destruct (take_job (c_owner c) [] (jobs t)) as [[[[before call] j] after]|] eqn:Et.
  - destruct (taken_job _ _ _ _ _ _ _ _ Hok Et) as (Ha & Ho & Hc & Hj & Hr & Hh).
    pose proof (co_fresh _ _ _ Hok) as Hn. pose proof (co_below _ _ _ Hok) as Hb. rewrite Hh in Hn, Hb. apply Forall_cons in Hb as [_ Hb].
    destruct (c_failed c).
    { eapply finish_step in H as (H1 & H2 & H3); [|done..|by apply Hok|exact Hn|exact Hb]. split_and!; [done|by rewrite Hr|left; by rewrite Hh, H3]. }
    destruct (set _ _ _) as [regs|] eqn:Es; [|by destruct Ho as [o Ho]; unfold set in Es; rewrite Ho in Es].
    destruct (remember_room store known (k_app call) (c_value c) (cache t) Ha Hk (co_cache _ _ _ Hok)) as (l & Hl & Hl2). rewrite Hl in H.
    eapply finish_step in H as (H1 & H2 & H3); [|cbn; by eapply set_is_object|done|done|done|exact Hn|exact Hb]. cbn [j_calls j_reply] in *.
    split_and!; [done|by rewrite Hr|left; by rewrite Hh, H3].
  - injection H as <- <- <-. pose proof (take_job_spec (c_owner c) (jobs t) []) as Hs. rewrite Et in Hs. split_and!; [done|done|by right].
Qed.

End Answered.

(** ** Histories *)

Section History.
Context {St : Type} {HS : Storage St} {A : Type} {HA : Apps A} {R : Type} (cards_data : list Z).

(** A request, the end of a callback, and handles that others take.  The store and the apps may
    have become any other in between. *)
Inductive event : Type :=
  | Ask (store : Store St) (a : A) (r : Request) (reply : R)
  | Done (store : Store St) (c : Completion)
  | Taken (owner : Z).

(** The state and the counter, the requests that were taken, and what was sent. *)
Record State : Type := mk_state { st_catalog : Catalog R; st_owner : Z; st_asked : list R; st_sent : list (R * Response) }.

Definition happen (s : State) (e : event) : State :=
  match e with
  | Ask store a r reply =>
      let '(res, t, owner, _, sent) := route cards_data store r reply (st_catalog s) (st_owner s) a in
      mk_state t owner (st_asked s ++ match res with Ok true => [reply] | _ => [] end) (st_sent s ++ sent)
  | Done store c =>
      let '(_, t, sent) := complete cards_data store c (st_catalog s) in mk_state t (st_owner s) (st_asked s) (st_sent s ++ sent)
  | Taken owner => mk_state (st_catalog s) (Z.max (st_owner s) owner) (st_asked s) (st_sent s)
  end.

Definition history (s : State) (es : list event) : State := fold_left happen es s.

(** The apps that the store of an event knows. *)
Definition within (known : list string) (e : event) : Prop :=
  match e with Ask store _ _ _ => Forall (fun x => text x "id" ∈ known) (records (document store) "apps") | _ => True end.

Record accounted (known : list string) (s : State) : Prop := {
  ac_ok : catalog_ok known (st_owner s) (st_catalog s);
  ac_asked : st_asked s ≡ₚ map fst (st_sent s) ++ replies (st_catalog s)
}.

Lemma happen_accounted known s e : Z.of_nat (length known) <= MAX_CACHE -> within known e -> accounted known s -> accounted known (happen s e).
Proof.
  intros Hk Hw [H1 H2]. destruct e as [store a r reply|store c|o]; cbn [happen within] in *.
  - destruct (route _ _ _ _ _ _ _) as [[[[res t] owner] a'] sent] eqn:Er. eapply route_step in Er as (H3 & _ & H4); [|exact Hw|exact H1].
    split; [done|]. cbn. rewrite H2, map_app, <- !app_assoc. f_equiv. rewrite Permutation_app_comm. exact H4.
  - destruct (complete _ _ _ _) as [[r t] sent] eqn:Ec. eapply complete_step in Ec as (H3 & H4 & _); [|exact Hk|exact H1].
    split; [done|]. cbn. rewrite H2, map_app, <- app_assoc. f_equiv. exact H4.
  - split; [|done]. destruct H1 as [Ha Hb Hc Hd]. split; [done|done| |done]. cbn. eapply Forall_impl; [exact Hc|]. cbn. lia.
Qed.

Lemma history_accounted known es : forall s, Z.of_nat (length known) <= MAX_CACHE -> Forall (within known) es -> accounted known s ->
  accounted known (history s es).
Proof.
  induction es as [|e es IH]; intros s Hk Hw Hs; [done|]. apply Forall_cons in Hw as [Hw1 Hw2]. apply (IH (happen s e)); [done..|].
  by apply happen_accounted.
Qed.

(** Once every call has an end, nothing waits. *)
Lemma ends_release known ends : forall s, Z.of_nat (length known) <= MAX_CACHE -> accounted known s ->
  handles (st_catalog s) ≡ₚ map (fun e => c_owner e.2) ends ->
  handles (st_catalog (history s (map (fun e => Done e.1 e.2) ends))) = [].
Proof.
  induction ends as [|[store c] ends IH]; intros s Hk Hs Hh; [cbn in *; symmetry in Hh; by apply Permutation_nil in Hh|]. cbn [map] in *.
  apply (IH (happen s (Done store c))); [done|by apply happen_accounted|]. cbn [happen fst snd] in *.
  destruct (complete _ _ _ _) as [[r t] sent] eqn:Ec. eapply complete_step in Ec as (_ & _ & H); [|exact Hk|apply Hs]. cbn [st_catalog].
  destruct H as [H|[H _]]; [rewrite H in Hh; by apply Permutation_cons_inv in Hh|]. exfalso. apply H. rewrite Hh. by left.
Qed.

Lemma no_handles_no_replies known owner (t : Catalog R) : catalog_ok known owner t -> handles t = [] -> replies t = [].
Proof.
  intros [H _ _ _] Hh. unfold handles, replies in *. destruct (jobs t) as [|j js]; [done|]. apply Forall_cons in H as [(Hc & _) _].
  cbn in Hh. unfold job_handles in Hh. by destruct (j_calls j).
Qed.

(** The catalogue answers every request it takes, exactly once: in a house with at most 64
    apps, whatever requests come, whatever becomes of the store and of the apps, once every
    callback has an end, in any order and with any outcome, each request is answered. *)
Theorem catalog_requests_are_answered (known : list string) (owner : Z) (es : list event) (ends : list (Store St * Completion)) :
  Z.of_nat (length known) <= MAX_CACHE -> Forall (within known) es ->
  let s := history (mk_state Catalog_new owner [] []) es in
  handles (st_catalog s) ≡ₚ map (fun e => c_owner e.2) ends ->
  let s' := history s (map (fun e => Done e.1 e.2) ends) in
  st_asked s' ≡ₚ map fst (st_sent s') /\ jobs (st_catalog s') = [].
Proof.
  intros Hk Hw s Hh s'. assert (accounted known s) as Hs.
  { apply history_accounted; [done..|]. split; [|done]. split; [constructor|constructor|constructor|by split; constructor]. }
  assert (accounted known s') as [H1 H2] by (apply history_accounted; [done| |done]; apply Forall_map, Forall_true; done).
  pose proof (ends_release known ends s Hk Hs Hh) as He. fold s' in He. pose proof (no_handles_no_replies _ _ _ H1 He) as Hr.
  rewrite Hr, app_nil_r in H2. split; [done|]. unfold replies in Hr. by apply map_eq_nil in Hr.
Qed.

End History.

(** ** A full cache *)

(** What is remembered of apps is never dropped.  The answer of a further app is an error, its
    request has no call left, and no later answer finds it: it is never answered, and stays. *)
Theorem full_cache_loses_a_request {St} {HS : Storage St} {R} (cards_data : list Z) (store : Store St) (c : Completion) (app : string)
  (regs : Object) (reply : R) (t : Catalog R) :
  jobs t = [mk_job [mk_call (c_owner c) app] (VObject regs) reply] -> c_failed c = false -> is_Some (manifest_of app store) ->
  app ∉ map h_app (cache t) -> Z.of_nat (length (cache t)) = MAX_CACHE ->
  exists t', complete cards_data store c t = (Err Full, t', []) /\ replies t' = [reply]
  /\ forall (store' : Store St) c', complete cards_data store' c' t' = (Ok false, t', []).
Proof.
  intros Hj Hf [m Hm] Ha Hl. unfold complete. rewrite Hj. cbn [take_job take_call j_calls k_owner]. rewrite Z.eqb_refl, Hf.
  cbn [set as_object j_registrations k_app j_reply j_calls]. unfold remember. rewrite Hm.
  pose proof (replace_entry_spec (mk_cached app m (c_value c)) (cache t)) as Hr. destruct (replace_entry _ _) as [l|] eqn:E.
  { exfalso. apply Ha. clear -E. revert l E. induction (cache t) as [|x l' IH]; intros l E; [done|]. cbn in E.
    destruct (String.eqb_spec (h_app x) app) as [<-|]; [by left|]. destruct (replace_entry _ l') as [y|]; [|done]. right. by eapply IH. }
  unfold push. destruct (Z.leb_spec MAX_CACHE (Z.of_nat (length (cache t)))); [|lia]. eexists. split; [reflexivity|]. split; [done|]. done.
Qed.

(** ** A house with a lamp *)

#[local] Instance quiet_apps : Apps Z := {
  apps_now := fun now => now; apps_running := fun _ _ => true; apps_call := fun _ _ _ _ a => (Ok tt, a);
  apps_adopt := fun _ a => (Ok tt, a); apps_log := fun _ a => a
}.

Definition cards_of_house : list Z := quoted "{'triggers':[{'appId':'stulp','id':'manual','type':'trigger','title':'Start'}],'conditions':[],'actions':[]}".

Definition lit_house : Store Memory := Eval vm_compute in
  (announce "hue" (json_of "{'id':'hue','sdk':3,'version':'1','flow':{'triggers':[{'id':'on','title':'Aan'}]}}") sample).2.

Definition get_cards : Request := mk_request "GET" "/api/stulp/flow/cards" "" "" "" "" object [].

(** Two browsers ask; the first answer is remembered, and answers the third at once. *)
Definition three_browsers : list (event (St := Memory) (A := Z) (R := nat)) :=
  [Ask lit_house 0 get_cards 1%nat; Ask lit_house 0 get_cards 2%nat; Taken 9;
   Done lit_house (mk_completion 1 false (json_of "{'flows':[{'id':'on','type':'trigger'}]}")); Ask lit_house 0 get_cards 3%nat].

Lemma lit_house_known : Forall (fun x => text x "id" ∈ ["hue"%string]) (records (document lit_house) "apps").
Proof. change (records (document lit_house) "apps") with [json_of "{'id':'hue','enabled':true}"]. constructor; [by left|constructor]. Qed.

Lemma catalog_requests_are_answered_witness :
  let s := history cards_of_house (mk_state Catalog_new 0 [] []) three_browsers in
  let s' := history cards_of_house s (map (fun e => Done e.1 e.2) [(lit_house, mk_completion 2 true VNull)]) in
  st_asked s' ≡ₚ map fst (st_sent s') /\ jobs (st_catalog s') = [].
Proof.
  apply (catalog_requests_are_answered cards_of_house ["hue"%string] 0 three_browsers [(lit_house, mk_completion 2 true VNull)]).
  - vm_compute. discriminate.
  - repeat (constructor; [first [exact lit_house_known|exact I]|]). constructor.
  - vm_compute. reflexivity.
Defined.

Example three_browsers_asked :
  st_asked (history cards_of_house (mk_state (R := nat) Catalog_new 0 [] []) three_browsers) = [1%nat; 2%nat; 3%nat].
Proof. vm_compute. reflexivity. Qed.
