(* ===== verification/McpJobs.v ===== *)
(** * McpJobs: the tool calls of assistants over the owners of the controller

    Models [controller/src/mcp.rs]: a tool call is decoded, paid from a bounded budget, planned by
    [Mcp.prepare], and waits for the catalogue, an app, a scene, a Flow or a pairing of its own, at most
    45 seconds.  The owners are those of the other files, and all responses between them go through
    local routes. *)

From Stdlib Require Import ZArith Lia Ascii String Permutation.
From S2P Require Import Prelude Text Errors Slots Float Value Json Document Stats Store StoreProps Scenes Web AppRun SceneJobs WebServe Mcp.
From S2P Require Templates Mutations Schedule WebApi Runs FlowJobs Pairing CatalogJobs JsonRoundtrip.

Local Open Scope Z_scope.

Definition MAX_CREDITS : Z := 30000.
Definition MAX_TOOLS : nat := 4.
Definition DEADLINE_MS : Z := 45000.

(** A route to a browser, or to the inbox of a job. *)
Inductive Route (R : Type) : Type := Browser (r : R) | Local (n : nat).
Arguments Browser {R}. Arguments Local {R}.

Inductive Phase : Type :=
  | PCatalog (inbox : nat)
  | PCallback (owner : Z) (p : Projection)
  | PScene (owner : Z) (result : Value)
  | PFlow (inbox : nat) (action : bool)
  | PPair (inbox : nat) (step : nat) (name session : string)
  | PDone (x : Response).

Record Job (R : Type) : Type := mk_job { m_call : Mcp.Call; m_reply : R; m_deadline : Z; m_phase : Phase }.
Arguments mk_job {R}. Arguments m_call {R}. Arguments m_reply {R}. Arguments m_deadline {R}. Arguments m_phase {R}.

Record Mcp (R : Type) : Type := mk_mcp { m_jobs : list (Job R); m_credits : Z; m_refilled : Z }.
Arguments mk_mcp {R}. Arguments m_jobs {R}. Arguments m_credits {R}. Arguments m_refilled {R}.

Section Owner.
Context {St : Type} {HS : Storage St} {A : Type} {HA : Apps A} {E : Type} {HE : Environment E} {HU : Unicode} {R : Type}.
(** [data/mcp.json] and [data/cards.json] *)
Context (tools_data cards_data : list Z).
Local Abbreviation Route := (Route R).

(** The owners of the controller, with the store, the apps and the platform; [v_mail] holds the
    responses that were sent over the routes, and [v_next] is the next inbox. *)
Record Services : Type := mk_services {
  v_apps : A; v_catalog : CatalogJobs.Catalog Route; v_flows : FlowJobs.Flows Route; v_scenes : SceneJobs.Scenes Route;
  v_pairing : Pairing.Pairing Route; v_owner : Z; v_store : Store St; v_env : E; v_mail : list (Route * Response); v_next : nat
}.

Definition set_apps (v : Services) a := mk_services a (v_catalog v) (v_flows v) (v_scenes v) (v_pairing v) (v_owner v) (v_store v) (v_env v) (v_mail v) (v_next v).
Definition set_owner (v : Services) o := mk_services (v_apps v) (v_catalog v) (v_flows v) (v_scenes v) (v_pairing v) o (v_store v) (v_env v) (v_mail v) (v_next v).
Definition set_flows (v : Services) x := mk_services (v_apps v) (v_catalog v) x (v_scenes v) (v_pairing v) (v_owner v) (v_store v) (v_env v) (v_mail v) (v_next v).
Definition set_scenes (v : Services) x := mk_services (v_apps v) (v_catalog v) (v_flows v) x (v_pairing v) (v_owner v) (v_store v) (v_env v) (v_mail v) (v_next v).
Definition set_world (v : Services) s e := mk_services (v_apps v) (v_catalog v) (v_flows v) (v_scenes v) (v_pairing v) (v_owner v) s e (v_mail v) (v_next v).

Definition V (X : Type) : Type := Services -> Result X * Services.
Definition retV {X} (x : X) : V X := fun v => (Ok x, v).
Definition liftV {X} (r : Result X) : V X := fun v => (r, v).
Definition bindV {X Y} (m : V X) (k : X -> V Y) : V Y := fun v => match m v with (Ok x, v) => k x v | (Err e, v) => (Err e, v) end.
Definition readV {X} (f : Services -> Result X) : V X := fun v => (f v, v).

Local Notation "'let&' x ':=' m 'in' k" := (bindV m (fun x => k)) (at level 10, x pattern, k at level 200, right associativity).

(** ** What the owners do for a job *)

Definition nextV : V Z := fun v => match checked_add (v_owner v) 1 with Some n => (Ok n, set_owner v n) | None => (Err Full, v) end.

Definition channelV : V nat := fun v =>
  (Ok (v_next v), mk_services (v_apps v) (v_catalog v) (v_flows v) (v_scenes v) (v_pairing v) (v_owner v) (v_store v) (v_env v) (v_mail v) (S (v_next v))).

Definition callV (app : string) (owner : Z) (method : string) (params : Value) : V unit := fun v =>
  let '(r, a) := apps_call app owner method params (v_apps v) in (r, set_apps v a).

Definition submitV (id : string) (on : bool) (owner : Z) : V unit := fun v =>
  match SceneJobs.submit id on (apps_now (v_apps v)) None (Some owner) (v_scenes v) with
  | Ok x => (Ok tt, set_scenes v x)
  | Err e => (Err e, v)
  end.

Definition definitionV (definition : Value) (owner : Z) (inbox : nat) : V unit := fun v =>
  match FlowJobs.definition_run definition owner (apps_now (v_apps v)) (Local inbox) (v_env v) (v_flows v) with
  | Ok x => (Ok tt, set_flows v x)
  | Err e => (Err e, v)
  end.

Definition local_request (method path : string) (body : Value) : Result Request :=
  t ← Templates.to_string body; Ok (mk_request method path "" "" "" "" object (as_bytes t)).

Definition catalogV (r : Request) (inbox : nat) : V unit := fun v =>
  let '(x, t, o, a, sent) := CatalogJobs.route cards_data (v_store v) r (Local inbox) (v_catalog v) (v_owner v) (v_apps v) in
  ((_ ← x; Ok tt), mk_services a t (v_flows v) (v_scenes v) (v_pairing v) o (v_store v) (v_env v) (v_mail v ++ sent) (v_next v)).

(** [s.pairing.route(..)] *)
Definition pairingV (r : Request) (inbox : nat) : V bool := fun v =>
  let '(x, w) := Pairing.route r (Local inbox) (Pairing.mk_world (v_pairing v) (v_store v) (v_apps v) (v_env v) (v_owner v) (v_mail v)) in
  (x, mk_services (Pairing.w_apps w) (v_catalog v) (v_flows v) (v_scenes v) (Pairing.w_pairing w) (Pairing.w_owner w) (Pairing.w_store w)
        (Pairing.w_env w) (Pairing.w_sent w) (v_next v)).

Definition pair (method path : string) (body : Value) : V nat :=
  let& inbox := channelV in
  let& r := liftV (local_request method path body) in
  let& mine := pairingV r inbox in
  if mine : bool then retV inbox else liftV (Err (Missing "pairing route unavailable")).

(** ** Inboxes *)

Definition is_local (n : nat) (r : Route) : bool := match r with Local m => (m =? n)%nat | Browser _ => false end.
Definition is_local_opt (n : nat) (r : option Route) : bool := match r with Some r => is_local n r | None => false end.

(** Whether some owner still holds the other end. *)
Definition held (n : nat) (v : Services) : bool :=
  existsb (fun j => is_local n (CatalogJobs.j_reply j)) (CatalogJobs.jobs (v_catalog v))
  || existsb (fun j => is_local_opt n (FlowJobs.f_reply j)) (FlowJobs.fl_jobs (v_flows v))
  || existsb (fun p => is_local n (Pairing.p_reply p)) (Pairing.pending (v_pairing v)).

Definition receive (n : nat) (v : Services) : Result (option Response) :=
  match find (fun m => is_local n m.1) (v_mail v) with
  | Some m => Ok (Some m.2)
  | None => if held n v then Ok None else Err (Invalid "response route closed")
  end.

Definition received (n : nat) (v : Services) : Result (option Value) :=
  x ← receive n v;
  match x with
  | None => Ok None
  | Some r => if 400 <=? status r then Err (Invalid "controller callback failed") else w ← json_parse (body_bytes (body r)); Ok (Some w)
  end.

(** ** Planning *)

Definition prepare (call : Mcp.Call) (cards : Value) : V Phase :=
  let& work := (fun v => let '(x, (s, e)) := Mcp.prepare call cards (v_store v, v_env v) in (x, set_world v s e)) in
  match work with
  | Done w => let& x := liftV (tool_result (call_id call) w "" false) in retV (PDone x)
  | Callback app method params projection =>
      let& owner := nextV in
      let& _ := callV app owner method params in
      retV (PCallback owner projection)
  | Scene id on result =>
      let& owner := nextV in
      let& _ := submitV id on owner in
      retV (PScene owner result)
  | RunFlow definition persist =>
      let& owner := nextV in
      let& inbox := channelV in
      let& _ := definitionV definition owner inbox in
      retV (PFlow inbox (negb persist))
  | CreateVirtual name =>
      let& inbox := pair "POST" "/api/stulp/pair" (fields [("appId", VString "com.stulp.virtualdevices"); ("driverId", VString "switch")]) in
      retV (PPair inbox 0 name EmptyString)
  end.

(** The tools that need no catalogue. *)
Definition DIRECT : list string :=
  ["system_context"; "devices_list"; "devices_write"; "devices_create"; "flows_run"; "flows_delete"; "flows_update"; "flows_remove_card";
   "flows_disconnect_cards"; "flows_connect_cards"].

Definition is_direct (call : Mcp.Call) : bool :=
  one_of DIRECT (call_name call) || ((call_name call =? "flows_list")%string && is_empty (text (call_args call) "flowId")).

Definition begin_catalog : V Phase :=
  let& inbox := channelV in
  let& r := liftV (local_request "GET" "/api/stulp/flow/cards" VNull) in
  let& _ := catalogV r inbox in
  retV (PCatalog inbox).

(** [saturating_mul] *)
Definition saturating_mul (a b : Z) : Z := Z.min U64_MAX (a * b).

Definition refilled (now : Z) (m : Mcp R) : Z :=
  Z.min MAX_CREDITS (saturating_add (m_credits m) (saturating_mul (saturating_sub now (m_refilled m)) 2)).

(** The first phase: a direct tool that fails is done with its error. *)
Definition first_phase (call : Mcp.Call) : V Phase := fun v =>
  if is_direct call then
    match prepare call VNull v with
    | (Ok p, v) => (Ok p, v)
    | (Err e, v) => ((x ← tool_error (call_id call) (Mutations.error_text e); Ok (PDone x)), v)
    end
  else begin_catalog v.

(** [route]: what it returns, the new state, the services, and what was sent to the assistant. *)
Definition route (r : Request) (reply : R) (m : Mcp R) (v : Services) : Result unit * Mcp R * Services * list (R * Response) :=
  match Mcp.decode tools_data r with
  | Err e => (Err e, m, v, [])
  | Ok (Reply x) => (Ok tt, m, v, [(reply, x)])
  | Ok (Tool call) =>
      let now := apps_now (v_apps v) in
      let credits := refilled now m in
      if (credits <? 1000) || (MAX_TOOLS <=? length (m_jobs m))%nat then
        match (x ← rpc_error 429 (call_id call) (-32000) "MCP tool rate limit exceeded"; with_header "Retry-After" "1" x) with
        | Ok x => (Ok tt, mk_mcp (m_jobs m) credits now, v, [(reply, x)])
        | Err e => (Err e, mk_mcp (m_jobs m) credits now, v, [])
        end
      else
        match first_phase call v with
        | (Ok p, v) => (Ok tt, mk_mcp (m_jobs m ++ [mk_job call reply (saturating_add now DEADLINE_MS) p]) (credits - 1000) now, v, [])
        | (Err e, v) => (Err e, mk_mcp (m_jobs m) (credits - 1000) now, v, [])
        end
  end.

(** ** Answers of apps and scenes *)

Definition waits_for (owner : Z) (j : Job R) : bool :=
  match m_phase j with PCallback o _ | PScene o _ => o =? owner | _ => false end.

Definition phase_response (j : Job R) (c : Completion) : Result Response :=
  let id := call_id (m_call j) in
  let finished_scene := match m_phase j with PScene _ result => if is_empty (text (c_value c) "sceneId") then None else Some result | _ => None end in
  match finished_scene with
  | Some result => s ← Mcp.scene result (c_value c); tool_result id s "Scene execution finished." (c_failed c)
  | None =>
      if c_failed c then tool_error id (match as_str (c_value c) with Some s => s | None => text (c_value c) "message" end)
      else
        match m_phase j with
        | PCallback _ projection =>
            w ← projected projection (c_value c);
            tool_result id w "Request accepted; the last reported state may precede the change." false
        | _ => tool_error id "invalid callback result"
        end
  end.

Definition with_phase (j : Job R) (p : Phase) : Job R := mk_job (m_call j) (m_reply j) (m_deadline j) p.

Fixpoint complete_job (c : Completion) (js : list (Job R)) : Result bool * list (Job R) :=
  match js with
  | [] => (Ok false, [])
  | j :: js =>
      if waits_for (c_owner c) j then
        match phase_response j c with
        | Ok x => (Ok true, with_phase j (PDone x) :: js)
        | Err e => (Err e, j :: js)
        end
      else let '(r, js) := complete_job c js in (r, j :: js)
  end.

Definition complete (c : Completion) (m : Mcp R) : Result bool * Mcp R :=
  let '(r, js) := complete_job c (m_jobs m) in (r, mk_mcp js (m_credits m) (m_refilled m)).

(** ** Progress *)

Definition session_path (session suffix : string) : string := ("/api/stulp/pair/" ++ session ++ suffix)%string.

Definition has_handlers (v : Value) : bool :=
  forallb (fun h => existsb (fun w => match as_str w with Some s => (s =? h)%string | None => false end) (array v "handlers")) ["create"; "list_devices"].

(** The steps of a virtual device: the session, the name, the candidates, the device. *)
Definition pair_step (call : Mcp.Call) (step : nat) (name session : string) (w : Value) : V Phase :=
  match step with
  | 0%nat =>
      if is_empty session || negb (has_handlers w) then liftV (Err (Invalid "Virtual devices app does not support switch creation"))
      else let& inbox := pair "POST" (session_path session "/emit/create") (fields [("name", VString name)]) in retV (PPair inbox 1 name session)
  | 1%nat => let& inbox := pair "POST" (session_path session "/emit/list_devices") VNull in retV (PPair inbox 2 name session)
  | 2%nat =>
      let& l := liftV (ok_or (as_array w) (Invalid "pairing candidates must be an array")) in
      match l with
      | [candidate] =>
          let& inbox := pair "POST" "/api/stulp/apps/com.stulp.virtualdevices/drivers/switch/pair/devices" candidate in
          retV (PPair inbox 3 name session)
      | _ => liftV (Err (Invalid "expected one virtual switch candidate"))
      end
  | 3%nat =>
      let& result := readV (fun v => created (v_store v) (text w "id")) in
      let& _ := (fun v => let '(_, v) := pair "DELETE" (session_path session "") VNull v in (Ok tt, v)) in
      let& x := liftV (tool_result (call_id call) result "Created a persistent virtual switch, initially off." false) in
      retV (PDone x)
  | _ => liftV (Err (Invalid "unknown pairing stage"))
  end.

(** [advance]: what it returns, and the phase it leaves. *)
Definition advance (j : Job R) (v : Services) : Result unit * Phase * Services :=
  let leave p (m : Result Phase * Services) := match m with (Ok q, v) => (Ok tt, q, v) | (Err e, v) => (Err e, p, v) end in
  match m_phase j with
  | PCatalog n =>
      match received n v with
      | Err e => (Err e, m_phase j, v)
      | Ok None => (Ok tt, m_phase j, v)
      | Ok (Some cards) => leave (m_phase j) (prepare (m_call j) cards v)
      end
  | PFlow n action =>
      match received n v with
      | Err e => (Err e, m_phase j, v)
      | Ok None => (Ok tt, m_phase j, v)
      | Ok (Some raw) =>
          leave (m_phase j)
            ((w ← execution raw action;
              x ← tool_result (call_id (m_call j)) w (text raw "error") (action && negb (is_empty (text raw "error"))); Ok (PDone x)), v)
      end
  | PPair n step name session =>
      match received n v with
      | Err e => (Err e, m_phase j, v)
      | Ok None => (Ok tt, m_phase j, v)
      | Ok (Some w) =>
          let session := if (step =? 0)%nat then text w "id" else session in
          leave (PPair n step name session) (pair_step (m_call j) step name session w v)
      end
  | _ => (Ok tt, m_phase j, v)
  end.

Definition cleanup (p : Phase) (v : Services) : Services :=
  match p with
  | PPair _ _ _ session => if is_empty session then v else (pair "DELETE" (session_path session "") VNull v).2
  | _ => v
  end.

(** One job in a poll: its last phase, or [None] when not even its error can be said. *)
Definition step_job (j : Job R) (v : Services) : option Phase * Services :=
  let '(r, p, v) := if m_deadline j <=? apps_now (v_apps v) then (Err (Invalid "MCP tool timed out"), m_phase j, v) else advance j v in
  match r with
  | Ok _ => (Some p, v)
  | Err e =>
      let v := cleanup p v in
      match tool_error (call_id (m_call j)) (Mutations.error_text e) with
      | Ok x => (Some (PDone x), v)
      | Err e => (None, set_apps v (apps_log ("[stulp:mcp-result] " ++ Mutations.error_text e) (v_apps v)))
      end
  end.

Fixpoint poll_jobs (js : list (Job R)) (v : Services) : list (Job R) * Services * list (R * Response) :=
  match js with
  | [] => ([], v, [])
  | j :: js =>
      let '(p, v) := step_job j v in
      let '(js, v, sent) := poll_jobs js v in
      match p with
      | None => (js, v, sent)
      | Some (PDone x) => (js, v, (m_reply j, x) :: sent)
      | Some p => (with_phase j p :: js, v, sent)
      end
  end.

Definition poll (m : Mcp R) (v : Services) : Mcp R * Services * list (R * Response) :=
  let '(js, v, sent) := poll_jobs (m_jobs m) v in (mk_mcp js (m_credits m) (m_refilled m), v, sent).

Definition Mcp_new : Mcp R := mk_mcp [] MAX_CREDITS 0.

End Owner.

(** ** The time goes forward *)

(** Neither calls nor adoptions nor lines in the log turn the clock of the apps back. *)
Class Steady (A : Type) {HA : Apps A} : Prop := {
  steady_call : forall app owner method params a, apps_now a <= apps_now (apps_call app owner method params a).2;
  steady_adopt : forall d a, apps_now a <= apps_now (apps_adopt d a).2;
  steady_log : forall m a, apps_now a <= apps_now (apps_log m a)
}.

Section Forward.
Import Pairing.
Context {St : Type} {HS : Storage St} {A : Type} {HA : Apps A} {HT : Steady A} {E : Type} {HE : Environment E} {R : Type}.
Local Abbreviation P := (P (St := St) (A := A) (E := E) (R := R)).

Definition forward {X} (m : P X) : Prop := forall w, apps_now (w_apps w) <= apps_now (w_apps (m w).2).

Lemma forward_bind {X Y} (m : P X) (k : X -> P Y) : forward m -> (forall x, forward (k x)) -> forward (bindP m k).
Proof.
  intros Hm Hk w. specialize (Hm w). unfold bindP. destruct (m w) as [[x|e] w1]; cbn [snd] in *; [|done]. specialize (Hk x w1). lia.
Qed.

Lemma forward_same {X} (m : P X) : (forall w, w_apps (m w).2 = w_apps w) -> forward m.
Proof. intros H w. by rewrite H. Qed.

Lemma forward_store {X} (m : M (St := St) X) : forward (storeP m).
Proof. apply forward_same. intros w. unfold storeP. by destruct (m (w_store w)). Qed.

Lemma forward_env : forward envP.
Proof. apply forward_same. intros w. unfold envP. by destruct (env_id (w_env w)). Qed.

Lemma forward_call app o method params : forward (appsP (apps_call app o method params)).
Proof. intros w. unfold appsP. pose proof (steady_call app o method params (w_apps w)). by destruct (apps_call _ _ _ _ (w_apps w)). Qed.

Lemma forward_adopt d : forward (appsP (apps_adopt d)).
Proof. intros w. unfold appsP. pose proof (steady_adopt d (w_apps w)). by destruct (apps_adopt d (w_apps w)). Qed.

Ltac go := repeat first
  [ apply forward_bind; [|intros ?] | apply forward_store | apply forward_env | apply forward_call | apply forward_adopt
  | by apply forward_same | progress cbv zeta | match goal with |- forward (if ?b then _ else _) => destruct b end
  | match goal with |- forward (match ?x with _ => _ end) => destruct x end ].

Lemma forward_send reply app method params stage : forward (send (R := R) reply app method params stage).
Proof. unfold send, reserve. go. Qed.

Lemma forward_answer reply code v : forward (answer (R := R) reply code v).
Proof. unfold answer. go. Qed.

Lemma forward_delete_device i reply : forward (delete_device (R := R) i reply).
Proof. unfold delete_device. apply forward_bind; [apply forward_store|]. intros _. apply forward_answer. Qed.

Lemma forward_adopt_device app i params keep reply : forward (adopt (R := R) app i params keep reply).
Proof. unfold adopt. apply forward_bind; [by apply forward_same|]. intros d. apply forward_bind; [apply forward_adopt|]. intros _. apply forward_send. Qed.

Lemma forward_settings i r reply : forward (settings_route (R := R) i r reply).
Proof.
  unfold settings_route, documentP, check_idle. repeat (apply forward_bind; [by apply forward_same|intros ?]).
  case_match; (apply forward_bind; [by apply forward_same|intros ?]); [apply forward_answer|]. apply forward_bind; [apply forward_send|]. intros ?. by apply forward_same.
Qed.

Lemma forward_delete i reply : forward (delete_route (R := R) i reply).
Proof.
  unfold delete_route, documentP, check_idle, reserve. apply forward_bind; [by apply forward_same|]. intros d. cbv zeta. destruct (_ =? _)%string.
  { apply forward_bind; [apply forward_store|]. intros _. apply forward_answer. }
  do 2 (apply forward_bind; [by apply forward_same|intros ?]). intros w.
  pose proof (forward_send reply (text d "appId") "device.delete" (fields [("deviceId", VString i)]) (Pairing.Delete i) w) as H.
  destruct (send _ _ _ _ _ w) as [[u|e] w1]; cbn [snd] in *; [done|]. destruct e; try done; pose proof (forward_delete_device i reply w1); lia.
Qed.

Lemma forward_start r reply : forward (start_route (R := R) r reply).
Proof.
  unfold start_route. apply forward_bind; [by apply forward_same|]. intros b. cbv zeta. do 2 (apply forward_bind; [by apply forward_same|intros ?]).
  apply forward_bind; [apply forward_env|]. intros i. apply forward_bind; [apply forward_send|]. intros ?. by apply forward_same.
Qed.

Lemma forward_close i reply : forward (close_route (R := R) i reply).
Proof.
  intros w. unfold close_route. destruct (take_session _ _) as [[s rest]|]; [|apply forward_answer]. cbv zeta.
  set (w0 := put_pairing _ w). pose proof (forward_send reply (s_app s) "pair.close" (fields [("sessionId", VString i)]) Close w0) as H.
  destruct (send _ _ _ _ _ w0) as [[u|e] w1]; cbn [snd] in *; [exact H|]. pose proof (forward_answer reply 200 (VBool true) w1) as H2.
  change (apps_now (w_apps w0)) with (apps_now (w_apps w)) in H. lia.
Qed.

Lemma forward_emit i event r reply : forward (emit_route (R := R) i event r reply).
Proof.
  unfold emit_route. case_match; [by apply forward_same|]. do 2 (apply forward_bind; [by apply forward_same|intros ?]).
  apply forward_bind; [apply forward_send|]. intros ?. by apply forward_same.
Qed.

Lemma forward_replace app driver i input reply : forward (replace_device (R := R) app driver i input reply).
Proof.
  unfold replace_device, check_idle, reserve. apply forward_bind; [by apply forward_same|]. intros d. case_match; [by apply forward_same|].
  repeat (apply forward_bind; [first [apply forward_store|apply forward_adopt_device|by apply forward_same]|intros ?]). by apply forward_same.
Qed.

Lemma forward_new app driver input reply : forward (new_device (R := R) app driver input reply).
Proof.
  unfold new_device, check_idle, reserve. apply forward_bind; [apply forward_env|]. intros i.
  do 2 (apply forward_bind; [by apply forward_same|intros ?]). apply forward_bind; [by apply forward_same|intros [known|]].
  { cbv zeta. do 2 (apply forward_bind; [by apply forward_same|intros ?]). apply forward_answer. }
  do 2 (apply forward_bind; [by apply forward_same|intros ?]). apply forward_bind; [apply forward_store|]. intros _ w.
  pose proof (forward_adopt_device app i (init_params driver i) false reply w) as H. destruct (adopt _ _ _ _ _ w) as [[u|e] w1]; cbn [snd] in *; [done|].
  assert (forward (let$ _ := storeP (delete "devices" i) in liftP (Err e) : P bool)) as Hd.
  { apply forward_bind; [apply forward_store|]. intros _. by apply forward_same. }
  specialize (Hd w1). lia.
Qed.

Lemma forward_route r reply : forward (route (R := R) r reply).
Proof.
  unfold route. cbv zeta.
  repeat match goal with
  | |- forward (match ?x with Some _ => _ | None => _ end) => destruct x as [i|]
  | |- forward (if ?b then _ else _) => destruct b
  | |- forward (let (_, _) := ?p in _) => destruct p
  end; first [apply forward_settings|apply forward_delete|apply forward_start|apply forward_close|apply forward_emit|by apply forward_same|idtac].
  unfold pair_devices. apply forward_bind; [by apply forward_same|]. intros input. cbv zeta. case_match; [apply forward_new|apply forward_replace].
Qed.

End Forward.

(** ** Every tool call is answered *)

Definition writable (v : Value) : Prop := exists bs, write v = Ok bs.

Lemma write_fields o : Forall (fun kv => writable kv.2) o -> writable (VObject o).
Proof.
  intros Ho. unfold writable. cbn [write].
  match goal with |- context [write_sep ?f true o] => destruct (JsonRoundtrip.write_sep_total f true o) as [bs ->] end; [|by eexists].
  eapply Forall_impl; [exact Ho|]. intros [k v] [bs Hb]. cbn in Hb. rewrite Hb. by eexists.
Qed.

Lemma write_items l : Forall writable l -> writable (VArray l).
Proof.
  intros Hl. unfold writable. cbn [write]. destruct (JsonRoundtrip.write_sep_total write true l Hl) as [bs ->]. by eexists.
Qed.

Lemma write_text s : writable (VString s).
Proof. by eexists. Qed.

Lemma tool_error_sent id m : writable id -> exists x, tool_error id m = Ok x.
Proof.
  intros Hi. unfold tool_error, rpc_result, Response_json, fields.
  match goal with |- context [write ?v] => assert (writable v) as [bs Hb] end; [|rewrite Hb; by eexists].
  apply write_fields. repeat apply Forall_cons_2; try apply Forall_nil_2; cbn [snd]; [by eexists|done|].
  apply write_fields. repeat apply Forall_cons_2; try apply Forall_nil_2; cbn [snd]; [|by eexists].
  apply write_items. apply Forall_cons_2; [|apply Forall_nil_2]. apply write_fields.
  repeat apply Forall_cons_2; try apply Forall_nil_2; cbn [snd]; by eexists.
Qed.

Section Answered.
Context {St : Type} {HS : Storage St} {A : Type} {HA : Apps A} {HT : Steady A} {E : Type} {HE : Environment E} {HU : Unicode} {R : Type}.
Context (tools_data cards_data : list Z).
Local Abbreviation V := (Services (St := St) (A := A) (E := E) (R := R)).
Implicit Types (m : Mcp R) (j : Job R) (v : V).

Lemma pair_forward method path body v : apps_now (v_apps v) <= apps_now (v_apps (pair method path body v).2).
Proof.
  unfold pair, bindV, channelV, liftV. destruct (local_request _ _ _) as [r|e]; [|cbn; lia]. unfold pairingV. cbn.
  match goal with |- context [Pairing.route r ?reply ?w] => pose proof (forward_route r reply w) as H; destruct (Pairing.route r reply w) as [[b|e] w1] end;
    cbn in *; [destruct b|]; cbn; lia.
Qed.

(** A job at its deadline is done, if its identity can be written at all. *)
Lemma expired_step j v : writable (call_id (m_call j)) -> m_deadline j <= apps_now (v_apps v) ->
  exists x v', step_job j v = (Some (PDone x), v') /\ apps_now (v_apps v) <= apps_now (v_apps v').
Proof.
  intros Hw Hd. unfold step_job. destruct (Z.leb_spec (m_deadline j) (apps_now (v_apps v))); [|lia].
  destruct (tool_error_sent (call_id (m_call j)) (Mutations.error_text (Invalid "MCP tool timed out")) Hw) as [x ->].
  exists x, (cleanup (m_phase j) v). split; [done|]. unfold cleanup. destruct (m_phase j); try lia. destruct (is_empty _); [lia|]. apply pair_forward.
Qed.

Lemma expired_jobs (js : list (Job R)) : forall v, Forall (fun j => writable (call_id (m_call j))) js ->
  Forall (fun j => m_deadline j <= apps_now (v_apps v)) js ->
  exists v' sent, poll_jobs js v = ([], v', sent) /\ map fst sent = map m_reply js.
Proof.
  induction js as [|j js IH]; intros v Hw Hd; [by exists v, []|]. apply Forall_cons in Hw as [Hw1 Hw2]. apply Forall_cons in Hd as [Hd1 Hd2].
  cbn [poll_jobs]. destruct (expired_step j v Hw1 Hd1) as (x & v1 & -> & Hf).
  destruct (IH v1 Hw2) as (v2 & sent & -> & Hs); [eapply Forall_impl; [exact Hd2|]; cbn; lia|]. eexists _, _. split; [reflexivity|]. cbn. by rewrite Hs.
Qed.

(** Whatever the services do, a job with a writable identity stays or is answered. *)
Lemma step_keeps j v : writable (call_id (m_call j)) -> exists p v', step_job j v = (Some p, v').
Proof.
  intros Hw. unfold step_job. destruct (if _ <=? _ then _ else _) as [[r p] v1]. destruct r as [u|e]; [by eexists _, _|].
  destruct (tool_error_sent (call_id (m_call j)) (Mutations.error_text e) Hw) as [x ->]. by eexists _, _.
Qed.

Lemma poll_jobs_keeps (js : list (Job R)) : forall v js' v' sent, Forall (fun j => writable (call_id (m_call j))) js ->
  poll_jobs js v = (js', v', sent) ->
  map m_reply js ≡ₚ map fst sent ++ map m_reply js'
  /\ Forall (fun j' => exists j, j ∈ js /\ m_call j' = m_call j /\ m_deadline j' = m_deadline j) js' /\ (length js' <= length js)%nat.
Proof.
  induction js as [|j js IH]; intros v js' v' sent Hw H; cbn [poll_jobs] in H; [by injection H as <- <- <-|].
  apply Forall_cons in Hw as [Hw1 Hw2]. destruct (step_keeps j v Hw1) as (p & v1 & Hs). rewrite Hs in H.
  destruct (poll_jobs js v1) as [[js1 v2] sent1] eqn:Ep. destruct (IH _ _ _ _ Hw2 Ep) as (H1 & H2 & H3).
  assert (Forall (fun j' => exists j0, j0 ∈ j :: js /\ m_call j' = m_call j0 /\ m_deadline j' = m_deadline j0) js1) as H2'.
  { eapply Forall_impl; [exact H2|]. intros j' (j0 & Hj & Hj2). exists j0. split; [by right|done]. }
  destruct p as [n|o pr|o rs|n ac|n st nm ss|x]; injection H as <- <- <-; cbn [map length fst].
  6: { split_and!; [by constructor|done|lia]. }
  all: split_and!; [rewrite H1; by rewrite Permutation_middle|constructor; [exists j; split; [by left|done]|done]|cbn; lia].
Qed.

Lemma complete_job_keeps c (js : list (Job R)) r js' : complete_job c js = (r, js') ->
  map m_reply js' = map m_reply js /\ map m_call js' = map m_call js /\ map m_deadline js' = map m_deadline js.
Proof.
  revert r js'. induction js as [|j js IH]; intros r js' H; cbn [complete_job] in H; [by injection H as <- <-|].
  destruct (waits_for _ j).
  - destruct (phase_response j c); by injection H as <- <-.
  - destruct (complete_job c js) as [r1 js1]. injection H as <- <-. destruct (IH _ _ eq_refl) as (H1 & H2 & H3). cbn. by rewrite H1, H2, H3.
Qed.

(** *** Histories *)

(** Each event sees the services as they are at its moment: other owners may have changed them. *)
Inductive event : Type :=
  | Ask (r : Request) (reply : R) (v : V)
  | Answer (c : Completion)
  | Poll (v : V).

(** The owner of the jobs, the requests it took, what it sent, and how many jobs it started. *)
Record State : Type := mk_state { s_mcp : Mcp R; s_asked : list R; s_sent : list (R * Response); s_started : Z }.

Definition happen (s : State) (e : event) : State :=
  match e with
  | Ask r reply v =>
      let '(x, m, _, sent) := route tools_data cards_data r reply (s_mcp s) v in
      mk_state m (s_asked s ++ match x with Ok _ => [reply] | Err _ => [] end) (s_sent s ++ sent)
        (s_started s + Z.of_nat (length (m_jobs m)) - Z.of_nat (length (m_jobs (s_mcp s))))
  | Answer c => mk_state (complete c (s_mcp s)).2 (s_asked s) (s_sent s) (s_started s)
  | Poll v => let '(m, _, sent) := poll (s_mcp s) v in mk_state m (s_asked s) (s_sent s ++ sent) (s_started s)
  end.

Definition history (s : State) (es : list event) : State := fold_left happen es s.

(** The identity of a call can be written, and the time of an event is at most [t]. *)
Definition sane (t : Z) (e : event) : Prop :=
  match e with
  | Ask r _ v => (forall call, decode tools_data r = Ok (Tool call) -> writable (call_id call)) /\ apps_now (v_apps v) <= t
  | _ => True
  end.

Record accounted (t : Z) (s : State) : Prop := {
  ac_asked : s_asked s ≡ₚ map fst (s_sent s) ++ map m_reply (m_jobs (s_mcp s));
  ac_writable : Forall (fun j => writable (call_id (m_call j))) (m_jobs (s_mcp s));
  ac_due : Forall (fun j => m_deadline j <= t + DEADLINE_MS) (m_jobs (s_mcp s));
  ac_few : (length (m_jobs (s_mcp s)) <= MAX_TOOLS)%nat
}.

(** What a request leaves: nothing, an answer, or a job. *)
Lemma route_outcome r reply m v x m' v' sent : route tools_data cards_data r reply m v = (x, m', v', sent) ->
  (m_jobs m' = m_jobs m /\ map fst sent = match x with Ok _ => [reply] | Err _ => [] end)
  \/ exists call p, decode tools_data r = Ok (Tool call) /\ x = Ok tt /\ sent = [] /\ (length (m_jobs m) < MAX_TOOLS)%nat
     /\ m_jobs m' = m_jobs m ++ [mk_job call reply (saturating_add (apps_now (v_apps v)) DEADLINE_MS) p].
Proof.
  unfold route. destruct (decode tools_data r) as [[y|call]|e]; [intros [= <- <- <- <-]; by left| |intros [= <- <- <- <-]; by left].
  cbv zeta. destruct (_ <? 1000); cbn [orb].
  { destruct (_ ≫= _) as [y|e]; intros [= <- <- <- <-]; by left. }
  destruct (Nat.leb_spec MAX_TOOLS (length (m_jobs m))).
  { destruct (_ ≫= _) as [y|e]; intros [= <- <- <- <-]; by left. }
  destruct (first_phase _ _ _) as [[p|e] v1]; intros [= <- <- <- <-]; [right; by exists call, p|by left].
Qed.

Lemma event_accounted t s e : sane t e -> accounted t s -> accounted t (happen s e).
Proof.
  intros He [H1 H2 H3 H4]. destruct e as [r reply v|c|v]; cbn [happen sane] in *.
  - destruct He as [Hw Ht]. destruct (route _ _ _ _ _ _) as [[[x m] v'] sent] eqn:Er. apply route_outcome in Er as [[Hm Hs]|(call & p & Hc & -> & -> & Hl & Hm)].
    + split; cbn; rewrite ?Hm; [|done..]. rewrite H1, map_app, Hs, <- !app_assoc. f_equiv. by rewrite Permutation_app_comm.
    + split; cbn; rewrite Hm, ?app_nil_r.
      * rewrite H1, map_app, app_assoc. done.
      * apply Forall_app. split; [done|]. apply Forall_singleton. cbn. by apply Hw.
      * apply Forall_app. split; [done|]. apply Forall_singleton. cbn. unfold saturating_add. lia.
      * rewrite length_app. cbn. lia.
  - unfold complete. destruct (complete_job c _) as [x js] eqn:Ec. apply complete_job_keeps in Ec as (Hr & Hc & Hd). cbn.
    split; cbn; [by rewrite Hr| | |].
    + apply (Forall_map m_call (fun c => writable (call_id c))). rewrite Hc. by apply Forall_map.
    + apply (Forall_map m_deadline (fun d => d <= t + DEADLINE_MS)). rewrite Hd. by apply Forall_map.
    + rewrite <- (length_map m_reply), Hr, length_map. done.
  - unfold poll. destruct (poll_jobs _ _) as [[js v'] sent] eqn:Ep. apply poll_jobs_keeps in Ep as (Hr & Hf & Hl); [|done]. cbn.
    rewrite Forall_forall in H2. rewrite Forall_forall in H3. split; cbn; [| | |lia].
    + rewrite H1, map_app, <- app_assoc. f_equiv. exact Hr.
    + eapply Forall_impl; [exact Hf|]. intros j' (j & Hj & -> & _). by apply H2.
    + eapply Forall_impl; [exact Hf|]. intros j' (j & Hj & _ & ->). by apply H3.
Qed.

Lemma events_accounted t es : forall s, Forall (sane t) es -> accounted t s -> accounted t (history s es).
Proof.
  induction es as [|e es IH]; intros s Hs Ha; [done|]. apply Forall_cons in Hs as [H1 H2]. apply (IH (happen s e)); [done|]. by apply event_accounted.
Qed.

Definition start : State := mk_state Mcp_new [] [] 0.

Lemma start_accounted t : accounted t start.
Proof. split; [done|constructor|constructor|cbn; unfold MAX_TOOLS; lia]. Qed.

(** *** The budget *)

Definition now_of v : Z := apps_now (v_apps v).

(** The requests of a history come in the order of time, from [t0] to [t1]. *)
Fixpoint in_order (t0 : Z) (es : list event) (t1 : Z) : Prop :=
  match es with
  | [] => t0 <= t1
  | Ask _ _ v :: es => t0 <= now_of v /\ in_order (now_of v) es t1
  | _ :: es => in_order t0 es t1
  end.

Lemma in_order_le es : forall t0 t1, in_order t0 es t1 -> t0 <= t1.
Proof.
  induction es as [|[r reply v|c|v] es IH]; intros t0 t1 H; cbn in H; [done| |by apply IH|by apply IH].
  destruct H as [H1 H2]. apply IH in H2. lia.
Qed.

(** A request leaves the budget alone, or refills it up to now and takes 1000 for a job. *)
Lemma route_budget r reply m v x m' v' sent : route tools_data cards_data r reply m v = (x, m', v', sent) -> 0 <= m_credits m ->
  m' = m
  \/ m_refilled m' = now_of v /\ 0 <= m_credits m' /\ refilled (now_of v) m <= MAX_CREDITS
     /\ 1000 * (Z.of_nat (length (m_jobs m')) - Z.of_nat (length (m_jobs m))) + m_credits m' <= refilled (now_of v) m.
Proof.
  unfold route. intros H Hc. destruct (decode tools_data r) as [[y|call]|e]; [injection H as <- <- <- <-; by left| |injection H as <- <- <- <-; by left].
  right. cbv zeta in H. fold (now_of v) in H. assert (0 <= refilled (now_of v) m <= MAX_CREDITS) as Hr.
  { unfold refilled, saturating_add, saturating_mul, saturating_sub, MAX_CREDITS, U64_MAX. lia. }
  destruct (Z.ltb_spec (refilled (now_of v) m) 1000); cbn [orb] in H.
  { destruct (_ ≫= _) in H; injection H as <- <- <- <-; cbn; lia. }
  destruct (_ <=? _)%nat.
  { destruct (_ ≫= _) in H; injection H as <- <- <- <-; cbn; lia. }
  destruct (first_phase _ _ _) as [[p|e] v1]; injection H as <- <- <- <-; cbn; rewrite ?length_app; cbn; lia.
Qed.

Lemma refilled_at_most t m : m_refilled m <= t -> refilled t m <= m_credits m + 2 * (t - m_refilled m).
Proof. intros H. unfold refilled, saturating_add, saturating_mul, saturating_sub, U64_MAX. lia. Qed.

Lemma spend_from es : forall s t t1, 0 <= m_credits (s_mcp s) -> m_refilled (s_mcp s) <= t -> in_order t es t1 ->
  1000 * (s_started (history s es) - s_started s) <= m_credits (s_mcp s) + 2 * (t1 - m_refilled (s_mcp s)).
Proof.
  induction es as [|e es IH]; intros s t t1 Hc Hr Ho; [cbn in *; lia|]. change (history s (e :: es)) with (history (happen s e) es).
  destruct e as [r reply v|c|v]; cbn [in_order] in Ho.
  - destruct Ho as [H1 H2]. cbn [happen]. destruct (route _ _ _ _ _ _) as [[[x m] v'] sent] eqn:Er.
    apply route_budget in Er as [->|(Hm & Hc' & _ & Hs)]; [| |exact Hc].
    + match goal with |- context [history ?s1 es] => pose proof (IH s1 (now_of v) t1 Hc ltac:(cbn; lia) H2) as Hi end. cbn in Hi. lia.
    + match goal with |- context [history ?s1 es] => specialize (IH s1 (now_of v) t1 Hc') end. cbn in IH. rewrite Hm in IH.
      specialize (IH ltac:(lia) H2). pose proof (refilled_at_most (now_of v) (s_mcp s) ltac:(lia)). lia.
  - cbn [happen]. unfold complete. destruct (complete_job _ _) as [x js]. cbn.
    match goal with |- context [history ?s1 es] => pose proof (IH s1 t t1 Hc Hr Ho) as Hi end. cbn in Hi. lia.
  - cbn [happen]. unfold poll. destruct (poll_jobs _ _) as [[js v'] sent].
    match goal with |- context [history ?s1 es] => pose proof (IH s1 t t1 Hc Hr Ho) as Hi end. cbn in Hi. lia.
Qed.

Lemma spend_within es : forall s t0 t1, 0 <= m_credits (s_mcp s) -> in_order t0 es t1 ->
  1000 * (s_started (history s es) - s_started s) <= MAX_CREDITS + 2 * (t1 - t0).
Proof.
  induction es as [|e es IH]; intros s t0 t1 Hc Ho; [cbn in *; unfold MAX_CREDITS; lia|]. change (history s (e :: es)) with (history (happen s e) es).
  destruct e as [r reply v|c|v]; cbn [in_order] in Ho.
  - destruct Ho as [H1 H2]. cbn [happen]. destruct (route _ _ _ _ _ _) as [[[x m] v'] sent] eqn:Er.
    apply route_budget in Er as [->|(Hm & Hc' & Hx & Hs)]; [| |exact Hc].
    + match goal with |- context [history ?s1 es] => specialize (IH s1 (now_of v) t1) end. cbn in IH. specialize (IH Hc H2). lia.
    + match goal with |- context [history ?s1 es] => pose proof (spend_from es s1 (now_of v) t1) as Hf end. cbn in Hf. rewrite Hm in Hf.
      specialize (Hf Hc' ltac:(lia) H2). lia.
  - cbn [happen]. unfold complete. destruct (complete_job _ _) as [x js]. cbn.
    match goal with |- context [history ?s1 es] => pose proof (IH s1 t0 t1 Hc Ho) as Hi end. cbn in Hi. lia.
  - cbn [happen]. unfold poll. destruct (poll_jobs _ _) as [[js v'] sent].
    match goal with |- context [history ?s1 es] => pose proof (IH s1 t0 t1 Hc Ho) as Hi end. cbn in Hi. lia.
Qed.

Lemma credits_stay es : forall s, 0 <= m_credits (s_mcp s) -> 0 <= m_credits (s_mcp (history s es)).
Proof.
  induction es as [|e es IH]; intros s Hc; [done|]. apply (IH (happen s e)). destruct e as [r reply v|c|v]; cbn [happen].
  - destruct (route _ _ _ _ _ _) as [[[x m] v'] sent] eqn:Er. apply route_budget in Er as [->|(_ & Hc' & _)]; done.
  - unfold complete. by destruct (complete_job _ _).
  - unfold poll. by destruct (poll_jobs _ _) as [[js v'] sent].
Qed.

(** C39: Tool calls are rationed: however requests, answers and polls interleave, and whatever the
    other owners do, from any moment [t0] to any later [t1] at most thirty tool calls start, and one
    more for every half second in between. *)
Theorem tool_calls_are_rationed (before within : list event) (t0 t1 : Z) :
  in_order t0 within t1 ->
  let s := history start before in
  1000 * (s_started (history s within) - s_started s) <= 30000 + 2 * (t1 - t0).
Proof. intros Ho s. apply spend_within; [|exact Ho]. apply credits_stay. cbn. unfold MAX_CREDITS. lia. Qed.

(** C38: Every tool call whose identity can be written is answered: at most four calls wait at a
    time, and when the identity of every call that was asked is one that can be written as JSON,
    then whatever the other owners, the apps and the store do, after a poll that comes 45 seconds
    after the last request each request that was taken has exactly one answer.  A number such as
    1e999 is an identity that cannot be written ([infinite_identity_is_never_answered]). *)
Theorem tool_calls_are_answered (es : list event) (t : Z) (v : V) :
  Forall (sane t) es -> t + DEADLINE_MS <= now_of v ->
  let s := history start es in
  (length (m_jobs (s_mcp s)) <= MAX_TOOLS)%nat
  /\ s_asked (happen s (Poll v)) ≡ₚ map fst (s_sent (happen s (Poll v))) /\ m_jobs (s_mcp (happen s (Poll v))) = [].
Proof.
  intros Hs Ht s. destruct (events_accounted t es start Hs (start_accounted t)) as [H1 H2 H3 H4]. fold s in H1, H2, H3, H4.
  split; [done|]. cbn [happen]. unfold poll. destruct (expired_jobs (m_jobs (s_mcp s)) v H2) as (v' & sent & -> & Hd).
  { eapply Forall_impl; [exact H3|]. cbn. unfold now_of in Ht. lia. }
  cbn. split; [|done]. by rewrite H1, map_app, Hd.
Qed.

End Answered.

(** ** A house and its assistant *)

#[local] Instance toy_apps : Apps Z := {
  apps_now := fun now => now; apps_running := fun _ _ => true; apps_call := fun _ _ _ _ a => (Ok tt, a);
  apps_adopt := fun _ a => (Ok tt, a); apps_log := fun _ a => a
}.
#[local] Instance toy_steady : Steady Z.
Proof. split; cbn; lia. Qed.
#[local] Instance toy_env : Environment Z := {
  env_id := fun n => (Ok (Mutations.show n), n + 1); env_now := fun _ => Ok "2024-01-01T00:00:00Z"; env_log := fun _ _ _ n => n
}.
#[local] Instance toy_unicode : Unicode := { wide_lowercase := fun c => [c] }.

Definition house_tools : list Z := quoted
  "{'tools':[{'name':'flows_list','inputSchema':{'additionalProperties':false,'properties':{'flowId':{'maxLength':256,'type':'string'}},'type':'object'}}]}".
Definition house_cards : list Z := quoted "{'triggers':[],'conditions':[],'actions':[]}".

(** An assistant reads a Flow; [id] is the identity of its call. *)
Definition read_flow (id : string) : Request :=
  mk_request "POST" "/mcp/key" "" "" "stulp.local" ""
    (json_of "{'content-type':'application/json','accept':'application/json, text/event-stream'}")
    (quoted ("{'jsonrpc':'2.0','id':" ++ id ++ ",'method':'tools/call','params':{'name':'flows_list','arguments':{'flowId':'f1'}}}")).

Definition house (now : Z) : Services (St := Memory) (A := Z) (E := Z) (R := nat) :=
  mk_services now CatalogJobs.Catalog_new FlowJobs.Flows_new SceneJobs.Scenes_new Pairing.Pairing_new 0 sample 1 [] 0.

Lemma read_flow_decoded id call : decode house_tools (read_flow "7") = Ok (Tool call) -> call_id call = id -> writable id.
Proof. intros H <-. vm_compute in H. injection H as <-. by eexists. Qed.

Lemma tool_calls_are_answered_witness :
  let s := history house_tools house_cards start [Ask (read_flow "7") 1%nat (house 100); Ask (read_flow "7") 2%nat (house 200)] in
  s_asked s = [1%nat; 2%nat] /\ m_jobs (s_mcp (happen house_tools house_cards s (Poll (house 45200)))) = [].
Proof.
  cbv zeta. split; [vm_compute; reflexivity|].
  apply (tool_calls_are_answered house_tools house_cards [Ask (read_flow "7") 1%nat (house 100); Ask (read_flow "7") 2%nat (house 200)] 200 (house 45200)).
  - repeat (apply Forall_cons; split); try apply Forall_nil; try exact I;
      (split; [intros call Hc; by eapply read_flow_decoded|cbn; lia]).
  - vm_compute. discriminate.
Defined.

Definition eager (n : nat) (now : Z) : list (event (St := Memory) (A := Z) (E := Z) (R := nat)) :=
  repeat (Ask (read_flow "7") 1%nat (house now)) n.

Lemma tool_calls_are_rationed_witness :
  let s := history house_tools house_cards start (eager 2 1000) in
  1000 * (s_started (history house_tools house_cards s (eager 5 1500)) - s_started s) <= 30000 + 2 * (1500 - 1400).
Proof. apply (tool_calls_are_rationed house_tools house_cards (eager 2 1000) (eager 5 1500) 1400 1500). cbn. lia. Defined.

(** The identity [1e999] is read as an infinite number, which no answer can hold: the tool runs, and
    its request is neither answered nor kept. *)
Theorem infinite_identity_is_never_answered :
  let '(taken, m, v, sent) := route house_tools house_cards (read_flow "1e999") 1%nat Mcp_new (house 100) in
  let '(m', _, sent') := poll m v in
  taken = Ok tt /\ length (m_jobs m) = 1%nat /\ sent = [] /\ sent' = [] /\ m_jobs m' = [].
Proof. vm_compute. split_and!; reflexivity. Qed.
