(* ===== verification/AppPages.v ===== *)
(** * AppPages: pages of apps and what the browser asks of them

    Models [controller/src/app_ui.rs], [callbacks.rs] and [media.rs]: which files of an app a browser
    may read and how a page gets its context and its texts, which requests become callbacks of an
    app, and what a media address of an app has to be.  [inside] says what it is for a path to stay
    in a folder. *)

From Stdlib Require Import ZArith Lia Ascii String.
From S2P Require Import Prelude Text Errors Slots Value Json Document Stats Store StoreProps Media Web Capability WebApi WebServe WebOk.
From S2P Require Token Schedule Templates.

Local Open Scope Z_scope.

Definition join (parts : list string) : string := fold_right (fun a b => (a ++ b)%string) EmptyString parts.

(** ** Queries *)

(** [unquery]; any error of it is one of the route. *)
Definition unquery (s : string) : Result string :=
  match decode_bytes (as_bytes s) with
  | Ok b => if is_ok (from_utf8 b) then Ok (of_bytes b) else Err (Invalid "invalid app route")
  | Err _ => Err (Invalid "invalid app route")
  end.

Definition add_value (out : Value) (k : string) (v : Value) : Result Value :=
  match get out k with
  | None => Ok v
  | Some old =>
      l ← push_all Ok 128 (match as_array old with Some a => a | None => [old] end) [];
      l ← push l v 128; Ok (VArray l)
  end.

Fixpoint query_parts (parts : list string) (out : Value) : Result Value :=
  match parts with
  | [] => Ok out
  | part :: parts =>
      if is_empty part then query_parts parts out
      else
        let '(k, v) := default (part, EmptyString) (Schedule.split_once "=" part) in
        k ← unquery k;
        v ← unquery v;
        v ← add_value out k (VString v);
        out ← set out k v;
        query_parts parts out
  end.

Definition query (raw : string) : Result Value := query_parts (split_text 38 raw) object.

(** ** Files *)

(** [valid_asset]: no way out of the folder of the app *)
Definition is_step (p : string) : bool := negb (is_empty p || (p =? ".")%string || (p =? "..")%string).
Definition valid_asset (path : string) : bool :=
  negb (is_empty path) && negb (contains_byte 92 path) && negb (contains_byte 0 path) && forallb is_step (split_text 47 path).

Record Asset : Type := mk_asset {
  a_path : string; a_root : string; a_context : Value; a_app : string; a_locales : list string; a_original : option Value;
  a_locale : Value; a_etag : string
}.

Section Pages.
Context {HK : Crypto} {St : Type} {HS : Storage St}.
Implicit Types (store : Store St) (r : Request).

(** A route that the manifest of the app declares. *)
Definition declared_route (r : Request) (wanted : string) (route : Value) : bool :=
  (text route "path" =? wanted)%string && eq_ignore_ascii_case (text route "method") (r_method r).

Definition api store r : Result (option (string * string * Value)) :=
  match strip_prefix "/api/stulp/apps/" (r_path r) ≫= Templates.split_str "/api/" with
  | None => Ok None
  | Some (app, path) =>
      _ ← record (document store) "apps" app;
      manifest ← ok_or (manifest_of app store) (Missing "app manifest unavailable");
      routes ← ok_or (as_object (get_null manifest "api")) (Missing "app API route does not exist");
      handler ← ok_or (find (fun kv => declared_route r ("/" ++ path)%string kv.2) routes) (Missing "app API route does not exist");
      body ← (if (r_method r =? "GET")%string || bool_decide (r_body r = []) then Ok object
              else b ← json_parse (r_body r); if bool_decide (is_Some (as_object b)) then Ok b else Err (Invalid "app API body must be an object"));
      q ← query (r_query r);
      Ok (Some (app, "api.invoke"%string, fields [("handler", VString handler.1); ("query", q); ("body", body)]))
  end.

(** The file of a page, and what it adds to the context. *)
Definition settings_file (rest : string) (context : Value) : Result (string * Value) :=
  let relative := if is_empty rest then "index.html"%string else rest in
  if negb (valid_asset relative) then Err (Missing "app asset not found")
  else context ← set context "origin" (VString "settings"); Ok (join ["settings/"; relative], context).

Definition pair_file r (rest : string) (context : Value) : Result (string * Value) :=
  '(driver, relative) ← ok_or (Schedule.split_once "/" rest) (Missing "app asset not found");
  let relative := if is_empty relative then "validate.html"%string else relative in
  if negb (valid_asset driver) || negb (valid_asset relative) then Err (Missing "app asset not found")
  else
    context ← set context "origin" (VString "pair");
    context ← set context "driverId" (VString driver);
    q ← query (r_query r);
    context ← set context "sessionId" (VString (text q "session"));
    Ok (join ["drivers/"; driver; "/pair/"; relative], context).

Definition declared (manifest : Value) (path : string) : bool :=
  existsb (fun v => match as_str v with Some s => (s =? path)%string | None => false end) (array (get_null manifest "ui") "assets").

Fixpoint page_locales (manifest : Value) (root : string) (languages : list string) (locales : list string) : Result (list string) :=
  match languages with
  | [] => Ok locales
  | language :: languages =>
      let locale := join ["locales/"; language; ".json"] in
      if valid_asset locale && negb (existsb (String.eqb locale) locales) && (negb (is_empty root) || declared manifest locale)
      then locales ← push locales locale 2; page_locales manifest root languages locales
      else page_locales manifest root languages locales
  end.

Definition QUOTE : string := String (ascii_of_nat 34) EmptyString.

Definition etag_of (manifest : Value) (path : string) : string :=
  if ends_with ".html" path || is_empty (text manifest "version") then EmptyString
  else join [QUOTE; text manifest "version"; ":"; path; QUOTE].

Definition prepare store r : Result (option (string * Value * Asset)) :=
  match (if (r_method r =? "GET")%string then strip_prefix "/app-ui/" (r_path r) ≫= Schedule.split_once "/" else None) with
  | None => Ok None
  | Some (app, rest) =>
      record ← record (document store) "apps" app;
      let root := text record "root" in
      let context := fields [("appId", VString app)] in
      file ← match strip_prefix "settings/" rest with
             | Some relative => f ← settings_file relative context; Ok (Some f)
             | None => match strip_prefix "pair/" rest with
                       | Some rest => f ← pair_file r rest context; Ok (Some f)
                       | None => Ok None
                       end
             end;
      match file with
      | None => Ok None
      | Some (path, context) =>
          manifest ← ok_or (manifest_of app store) (Missing "app manifest unavailable");
          if is_empty root && negb (declared manifest path) then Err (Missing "app asset not declared")
          else
            locales ← (if ends_with ".html" path then page_locales manifest root [language store; "en"%string] [] else Ok []);
            Ok (Some (app, fields [("path", VString path)], mk_asset path root context app locales None object (etag_of manifest path)))
      end
  end.

Definition cache_headers (etag : string) : list (string * string) :=
  [("ETag", etag); ("Cache-Control", "private, no-cache")]%string.

Definition not_modified (etag : string) : Response := mk_response 304 "text/plain; charset=utf-8" (Static []) None (cache_headers etag).

(** ** Texts of a page *)

Definition set_original (a : Asset) v := mk_asset (a_path a) (a_root a) (a_context a) (a_app a) (a_locales a) (Some v) (a_locale a) (a_etag a).
Definition set_locale (a : Asset) v := mk_asset (a_path a) (a_root a) (a_context a) (a_app a) [] (a_original a) v (a_etag a).
Definition set_locales (a : Asset) l := mk_asset (a_path a) (a_root a) (a_context a) (a_app a) l (a_original a) (a_locale a) (a_etag a).

(** The texts in a file that was found. *)
Definition locale_of (value : Value) (failed : bool) : option Value :=
  if negb failed && boolean value "found" then
    match Token.decode url_decode (text value "data") with
    | Ok bytes => match json_parse bytes with
                  | Ok l => if bool_decide (is_Some (as_object l)) then Some l else None
                  | Err _ => None
                  end
    | Err _ => None
    end
  else None.

Definition next_locale (a : Asset) : option Value * Asset :=
  match a_locales a with
  | [] => (None, a)
  | path :: l => (Some (fields [("path", VString path)]), set_locales a l)
  end.

(** [advance]: the next file to read, if any. *)
Definition advance (a : Asset) (value : Value) (failed : bool) : option Value * Asset :=
  match a_original a with
  | None =>
      if failed || negb (boolean value "found") || bool_decide (a_locales a = []) then (None, a)
      else next_locale (set_original a value)
  | Some _ => next_locale (match locale_of value failed with Some l => set_locale a l | None => a end)
  end.

(** ** The page *)

Definition escape_char (c : Z) : list Z :=
  if c =? 60 then as_bytes "\u003c" else if c =? 62 then as_bytes "\u003e" else if c =? 38 then as_bytes "\u0026"
  else if c =? 8232 then as_bytes "\u2028" else if c =? 8233 then as_bytes "\u2029" else encode_char c.

Definition safe (s : string) : string := of_bytes (flat_map escape_char (chars s)).

(** [html.split(p).skip(1)] *)
Fixpoint parts_after (fuel : nat) (p s : string) : list string :=
  match fuel with
  | O => []
  | S fuel => match Templates.split_str p s with
              | None => []
              | Some (_, rest) => (match Templates.split_str p rest with Some (a, _) => a | None => rest end) :: parts_after fuel p rest
              end
  end.

Definition is_bridge (part : string) : bool :=
  match Schedule.split_once ">" part with Some (tag, _) => Templates.contains_str "src=" tag && Templates.contains_str "stulp.js" tag | None => false end.

Definition has_bridge (html : string) : bool := existsb is_bridge (parts_after (String.length html) "<script" html).

(** The quotes of the attributes. *)
Definition quotes (s : string) : string := of_bytes (map (fun c => if c =? 39 then 34 else c) (as_bytes s)).

Definition HEAD_START : string := Eval vm_compute in
  quotes "<meta name='color-scheme' content='dark'><link rel='stylesheet' href='/assets/app-frame.css'><script>window.__STULP_CONTEXT__=".

Definition page_script (context locale : Value) : Result string :=
  c ← Templates.to_string context;
  l ← Templates.to_string locale;
  Ok (safe (join [c; ";window.__STULP_LOCALE__="; l])).

Definition injection (context locale : Value) (html : string) : Result string :=
  script ← page_script context locale;
  let head := join [HEAD_START; script; ";</script>"] in
  Ok (if has_bridge html then head
      else join [head; quotes "<script src='/stulp.js' data-origin='"; text context "origin"; quotes "'></script>"]).

Definition page (context locale : Value) (html : string) : Result string :=
  i ← injection context locale html;
  Ok (match Templates.split_str "<head>" html with
      | Some (before, after) => join [before; "<head>"; i; after]
      | None => join [i; html]
      end).

Definition MIME : list (string * string) :=
  [(".html", "text/html; charset=utf-8"); (".js", "text/javascript; charset=utf-8"); (".css", "text/css; charset=utf-8");
   (".svg", "image/svg+xml"); (".png", "image/png"); (".json", "application/json")].

Definition mime_of (path : string) : string :=
  match find (fun kv => ends_with kv.1 path) MIME with Some kv => kv.2 | None => "application/octet-stream" end.

Definition response (a : Asset) (value : Value) (failed : bool) : Result Response :=
  if failed && bool_decide (a_original a = None) then Response_error 502 (text value "message")
  else
    let value := default value (a_original a) in
    if negb (boolean value "found") then Response_error 404 "app asset not found"
    else
      bytes ← Token.decode url_decode (text value "data");
      bytes ← (if ends_with ".html" (a_path a) then
                 if is_ok (from_utf8 bytes) then p ← page (a_context a) (a_locale a) (of_bytes bytes); Ok (as_bytes p)
                 else Err (Invalid "app HTML is not UTF-8")
               else Ok bytes);
      Ok (mk_response 200 (mime_of (a_path a)) (Bytes bytes) None (if is_empty (a_etag a) then [] else cache_headers (a_etag a))).

(** [local_response]: the files come from [read]; a file of texts may be missing. *)
Fixpoint local_loop (fuel : nat) (read : string -> string -> Result Value) (a : Asset) (value : Value) : Result Response :=
  match advance a value false, fuel with
  | (None, a), _ => response a value false
  | (Some _, _), O => Err Full
  | (Some params, a), S fuel =>
      value ← match read (a_root a) (text params "path") with
              | Ok v => Ok v
              | Err Errors.Memory => Err Errors.Memory
              | Err _ => Ok (fields [("found", VBool false)])
              end;
      local_loop fuel read a value
  end.

Definition local_response (read : string -> string -> Result Value) (a : Asset) : Result Response :=
  value ← read (a_root a) (a_path a); local_loop (length (a_locales a)) read a value.

(** ** Callbacks *)

Definition is_slot (slot kind : string) (m : Value) : bool :=
  (text m "slot" =? slot)%string && (is_empty kind || (text m "kind" =? kind)%string).

Definition stream_callback store r (id slot : string) : Result (string * string * Value) :=
  device ← record (document store) "devices" id;
  q ← query (r_query r);
  media ← device_media id store;
  selected ← ok_or (find (is_slot slot (text q "kind")) (default [] (as_array media))) (Missing "media slot does not exist");
  Ok (text device "appId", "video.resolve"%string,
      fields [("deviceId", VString id); ("slot", VString slot); ("kind", VString (text selected "kind"))]).

Definition autocomplete_callback r : Result (string * string * Value) :=
  body ← json_parse (r_body r);
  if is_empty (text body "appId") || is_empty (text body "cardId") || is_empty (text body "argument")
  then Err (Invalid "appId, cardId and argument are required")
  else
    Ok (text body "appId", "flow.autocomplete"%string,
        fields [("kind", VString (text body "cardType")); ("id", VString (text body "cardId")); ("argument", VString (text body "argument"));
                ("query", VString (text body "query")); ("args", get_null body "args")]).

Definition registrations_callback store (id : string) : Result (string * string * Value) :=
  _ ← record (document store) "apps" id; Ok (id, "registrations"%string, object).

Definition pair_callback store (app driver : string) : Result (string * string * Value) :=
  manifest ← ok_or (manifest_of app store) (Missing "app manifest unavailable");
  if existsb (fun d => (text d "id" =? driver)%string) (array manifest "drivers")
  then Ok (app, "pair.list"%string, fields [("driverId", VString driver)])
  else Err (Missing "driver does not exist").

Definition invoke_callback store r (id capability : string) : Result (string * string * Value) :=
  device ← record (document store) "devices" id;
  if negb (existsb (fun v => match as_str v with Some s => (s =? capability)%string | None => false end) (array device "capabilities"))
  then Err (Missing "device capability does not exist")
  else
    body ← json_parse (r_body r);
    value ← input store device capability (get_null body "value");
    Ok (text device "appId", "capability.invoke"%string,
        fields [("deviceId", VString id); ("capability", VString capability); ("value", value); ("options", object)]).

(** The device and the slot of [/api/stulp/devices/<id>/media/<slot>/stream]. *)
Definition stream_path (path : string) : option (string * string) :=
  '(id, tail) ← strip_prefix "/api/stulp/devices/" path ≫= Templates.split_str "/media/";
  slot ← Templates.strip_suffix "/stream" tail ≫= segment;
  Some (id, slot).

Definition registrations_path (path : string) : option string :=
  id ← strip_prefix "/api/stulp/apps/" path ≫= Templates.strip_suffix "/registrations";
  if contains_byte 47 id then None else Some id.

Definition pair_path (path : string) : option (string * string) :=
  '(app, rest) ← strip_prefix "/api/stulp/apps/" path ≫= Templates.split_str "/drivers/";
  driver ← Templates.strip_suffix "/pair/devices" rest ≫= segment;
  Some (app, driver).

Definition invoke_path (path : string) : option (string * string) :=
  strip_prefix "/api/manager/devices/device/" path ≫= Templates.split_str "/capability/".

(** [callback]: the app, the method and the parameters of a request that an app answers. *)
Definition callback store r (now : Z) : Result (option (string * string * Value)) :=
  let on m := (r_method r =? m)%string in
  let some (x : Result (string * string * Value)) := x ← x; Ok (Some x) in
  match (if on "GET" then strip_prefix "/image/" (r_path r) else None) with
  | Some id => '(app, params) ← image_source id now store; Ok (Some (app, "video.resolve"%string, params))
  | None =>
  match (if on "GET" then stream_path (r_path r) else None) with
  | Some (id, slot) => some (stream_callback store r id slot)
  | None =>
  if on "POST" && (r_path r =? "/api/stulp/flow/autocomplete")%string then some (autocomplete_callback r)
  else
    x ← api store r;
    match x with
    | Some x => Ok (Some x)
    | None =>
        match (if on "GET" then registrations_path (r_path r) else None) with
        | Some id => some (registrations_callback store id)
        | None =>
        match (if on "GET" then pair_path (r_path r) else None) with
        | Some (app, driver) => some (pair_callback store app driver)
        | None =>
        match (if on "PUT" then invoke_path (r_path r) else None) with
        | Some (id, capability) => some (invoke_callback store r id capability)
        | None => Ok None
        end end end
    end
  end end.

End Pages.

(** ** Media *)

Definition media_response (value : Value) (owner : Z) (image : bool) : Result Response :=
  let url := text value "url" in
  let mime := text value "contentType" in
  if negb (starts_with "http://" url || starts_with "https://" url) || (4096 <? len url)
     || existsb (fun b => (b <=? 32) || (b =? 127)) (as_bytes url)
  then Err (Invalid "app supplied an invalid HTTP media address")
  else if (image && negb (starts_with "image/" mime)) || negb (starts_with "video/" mime || starts_with "image/" mime)
     || (128 <? len mime) || existsb (fun b => (b <? 32) || (b =? 127)) (as_bytes mime)
  then Err (Invalid "app supplied an invalid media content type")
  else Ok (mk_response 200 "application/octet-stream" (Proxy url mime owner) None []).

(** ** Nothing breaks out *)

Lemma split_at_cons_sep c l : exists p ps, split_at c l = p :: ps.
Proof. induction l as [|b l (p & ps & IH)]; cbn; [by eexists _, _|]. destruct (b =? c); [by eexists _, _|]. rewrite IH. by eexists _, _. Qed.

Lemma split_at_app c l m : split_at c (l ++ c :: m) = split_at c l ++ split_at c m.
Proof.
  induction l as [|b l IH]; cbn; [by rewrite Z.eqb_refl|]. destruct (b =? c); [by rewrite IH|]. rewrite IH.
  destruct (split_at_cons_sep c l) as (p & ps & ->). done.
Qed.

Lemma split_text_app a b : split_text 47 (a ++ "/" ++ b) = split_text 47 a ++ split_text 47 b.
Proof. unfold split_text. rewrite as_bytes_app. change (as_bytes ("/" ++ b)) with (47 :: as_bytes b). by rewrite split_at_app, map_app. Qed.

Lemma contains_byte_app c a b : contains_byte c (a ++ b) = contains_byte c a || contains_byte c b.
Proof. unfold contains_byte. by rewrite as_bytes_app, existsb_app. Qed.

(** A path of two paths stays inside. *)
Lemma valid_asset_join a b : valid_asset a = true -> valid_asset b = true -> valid_asset (a ++ "/" ++ b) = true.
Proof.
  unfold valid_asset. rewrite !andb_true_iff, !negb_true_iff, !contains_byte_app, split_text_app, forallb_app.
  intros [[[H1 H2] H3] H4] [[[H5 H6] H7] H8]. rewrite H2, H3, H4, H6, H7, H8. split_and!; [|done..]. apply String.eqb_neq. by destruct a.
Qed.

Section Safe.
Context {HK : Crypto} {St : Type} {HS : Storage St}.
Implicit Types (store : Store St) (r : Request).

(** What may be read of an app: a file inside its folder, which its manifest declares unless the
    folder is a local one. *)
Definition readable (manifest : Value) (root path : string) : Prop :=
  valid_asset path = true /\ (is_empty root = true -> declared manifest path = true).

Lemma page_locales_readable manifest root languages : forall l l', page_locales manifest root languages l = Ok l' ->
  Forall (readable manifest root) l -> Forall (readable manifest root) l'.
Proof.
  induction languages as [|g languages IH]; intros l l' H Hl; cbn [page_locales] in H; [by injection H as <-|]. cbv zeta in H.
  destruct (valid_asset _) eqn:Ev; cbn [andb] in H; [|by eapply IH]. destruct (negb (existsb _ _)); cbn [andb] in H; [|by eapply IH].
  destruct (negb (is_empty root) || declared manifest _) eqn:Ed; [|by eapply IH].
  destruct (push l _ 2) as [l1|] eqn:Ep; [|done]. cbn [mbind result_bind] in H. eapply IH; [exact H|].
  apply push_Ok in Ep as [_ ->]. apply Forall_app. split; [done|]. apply Forall_singleton. split; [done|].
  intros Hr. rewrite Hr in Ed. done.
Qed.

Lemma append_nil_r s : (s ++ "")%string = s.
Proof. induction s as [|a s IH]; [done|]. change (String a s ++ "")%string with (String a (s ++ "")). by rewrite IH. Qed.

Lemma settings_file_valid rest context p c : settings_file rest context = Ok (p, c) -> valid_asset p = true.
Proof.
  unfold settings_file. cbv zeta. set (relative := if is_empty rest then _ else _). destruct (valid_asset relative) eqn:Ev; [|done]. cbn [negb].
  destruct (set _ _ _); [|done]. intros [= <- _].
  cbn [join fold_right]. rewrite append_nil_r. exact (valid_asset_join "settings" relative eq_refl Ev).
Qed.

Lemma pair_file_valid r rest context p c : pair_file r rest context = Ok (p, c) -> valid_asset p = true.
Proof.
  unfold pair_file. destruct (Schedule.split_once "/" rest) as [[driver relative0]|]; [|done]. cbn [ok_or mbind result_bind]. cbv zeta.
  set (relative := if is_empty relative0 then _ else _). destruct (valid_asset driver) eqn:Ed; [|done]. destruct (valid_asset relative) eqn:Ev; [|done].
  cbn [negb orb]. destruct (set _ _ _); [|done]. cbn [mbind result_bind]. destruct (set _ _ _); [|done]. cbn [mbind result_bind].
  destruct (query _); [|done]. cbn [mbind result_bind]. destruct (set _ _ _); [|done]. intros [= <- _]. cbn [join fold_right].
  rewrite append_nil_r.
  exact (valid_asset_join "drivers" (driver ++ "/" ++ ("pair" ++ "/" ++ relative)) eq_refl
    (valid_asset_join driver ("pair" ++ "/" ++ relative) Ed (valid_asset_join "pair" relative eq_refl Ev))).
Qed.

Lemma prepare_readable store r app params a : prepare store r = Ok (Some (app, params, a)) ->
  exists manifest, manifest_of app store = Some manifest /\ readable manifest (a_root a) (a_path a)
  /\ Forall (readable manifest (a_root a)) (a_locales a) /\ params = fields [("path", VString (a_path a))].
Proof.
  unfold prepare. destruct (if (_ =? "GET")%string then _ else None) as [[ap rest]|]; [|done].
  destruct (record _ _ _) as [rec|]; [|done]. cbn [mbind result_bind]. cbv zeta.
  match goal with |- context [mbind (M := result Error) ?k ?m] => destruct m as [[[path context]|]|] eqn:Em end; try done. cbn [mbind result_bind].
  assert (valid_asset path = true) as Hp.
  { destruct (strip_prefix "settings/" rest) as [rel|].
    - destruct (settings_file _ _) as [[p c]|] eqn:Es; [|done]. injection Em as -> ->. by eapply settings_file_valid.
    - destruct (strip_prefix "pair/" rest) as [rel|]; [|done]. destruct (pair_file _ _ _) as [[p c]|] eqn:Es; [|done]. injection Em as -> ->.
      by eapply pair_file_valid. }
  destruct (manifest_of ap store) as [manifest|] eqn:Hm; [|done]. cbn [ok_or mbind result_bind].
  destruct (is_empty (text rec "root") && negb (declared manifest path)) eqn:Ed; [done|].
  destruct (if ends_with ".html" path then _ else _) as [locales|] eqn:El; [|done]. intros [= <- <- <-].
  exists manifest. cbn [a_path a_root a_locales]. split_and!; [done| | |done].
  - split; [done|]. intros Hr. rewrite Hr in Ed. cbn in Ed. by apply negb_false_iff in Ed.
  - destruct (ends_with ".html" path); [|injection El as <-; constructor]. eapply page_locales_readable; [exact El|constructor].
Qed.

(** *** The script of a page *)

Lemma escape_char_plain c : is_char c = true -> Forall (fun b => is_byte b /\ b <> 60 /\ b <> 62 /\ b <> 38) (escape_char c).
Proof.
  intros Hc. unfold escape_char. repeat case_match; try (vm_compute; repeat constructor; done).
  pose proof (encode_char_bytes c Hc) as Hb. rewrite Forall_forall in Hb |- *. intros b Hin. split; [by apply Hb|].
  repeat match goal with H : (_ =? _) = false |- _ => apply Z.eqb_neq in H end.
  unfold encode_char in Hin. assert (0 <= c) as H0c by (unfold is_char, between in Hc; lia).
  repeat case_match; rewrite ?elem_of_cons in Hin; destruct_or?; subst; try by apply not_elem_of_nil in Hin.
  all: try (split_and!; lia).
  all: split_and!; Z.to_euclidean_division_equations; lia.
Qed.

Lemma safe_plain s : Forall (fun b => b <> 60 /\ b <> 62 /\ b <> 38) (as_bytes (safe s)).
Proof.
  assert (Forall (fun b => is_byte b /\ b <> 60 /\ b <> 62 /\ b <> 38) (flat_map escape_char (chars s))) as H.
  { pose proof (chars_valid s) as Hv. rewrite forallb_forall in Hv. apply Forall_forall. intros b Hb.
    apply list_elem_of_In, in_flat_map in Hb as (c & Hc & Hb). pose proof (escape_char_plain c (Hv c Hc)) as He.
    rewrite Forall_forall in He. apply He. by apply list_elem_of_In. }
  unfold safe. rewrite as_of_bytes by (eapply Forall_impl; [exact H|]; by intros b []). eapply Forall_impl; [exact H|]. by intros b [].
Qed.


Lemma split_str_eq p s a b : Templates.split_str p s = Some (a, b) -> s = (a ++ p ++ b)%string.
Proof.
  revert a b. induction s as [|c s IH]; intros a b H; cbn [Templates.split_str] in H.
  - destruct (strip_prefix p EmptyString) as [rest|] eqn:E; [|done]. injection H as <- <-. by apply strip_prefix_eq in E.
  - destruct (strip_prefix p (String c s)) as [rest|] eqn:E; [injection H as <- <-; by apply strip_prefix_eq in E|].
    destruct (Templates.split_str p s) as [[x y]|]; [|done]. injection H as <- <-.
    change (String c x ++ ?z)%string with (String c (x ++ z)). f_equal. by apply IH.
Qed.

Lemma text_app_assoc a b c : (a ++ (b ++ c) = (a ++ b) ++ c)%string.
Proof.
  induction a as [|x a IH]; [done|]. change (String x a ++ (b ++ c))%string with (String x (a ++ (b ++ c))).
  change ((String x a ++ b) ++ c)%string with (String x ((a ++ b) ++ c)). by rewrite IH.
Qed.

(** The tag that loads the bridge between a page and the program. *)
Definition bridge (origin : string) : string := join [quotes "<script src='/stulp.js' data-origin='"; origin; quotes "'></script>"].

Lemma injection_parts context locale html i : injection context locale html = Ok i ->
  exists script rest, i = (HEAD_START ++ script ++ ";</script>" ++ rest)%string
  /\ Forall (fun b => b <> 60 /\ b <> 62 /\ b <> 38) (as_bytes script) /\ (rest = EmptyString \/ rest = bridge (text context "origin")).
Proof.
  unfold injection. destruct (page_script context locale) as [script|] eqn:Es; [|done]. cbn [mbind result_bind]. cbv zeta. intros [= <-].
  exists script. assert (Forall (fun b => b <> 60 /\ b <> 62 /\ b <> 38) (as_bytes script)) as Hs.
  { unfold page_script in Es. destruct (Templates.to_string context); [|done]. cbn [mbind result_bind] in Es.
    destruct (Templates.to_string locale); [|done]. injection Es as <-. apply safe_plain. }
  destruct (has_bridge html); [exists EmptyString|exists (bridge (text context "origin"))]; unfold bridge; cbn [join fold_right];
    rewrite ?append_nil_r, <- ?text_app_assoc; (split; [done|]); split; auto.
Qed.

Lemma page_parts context locale html p : page context locale html = Ok p ->
  exists before script rest after, html = (before ++ after)%string
  /\ p = (before ++ HEAD_START ++ script ++ ";</script>" ++ rest ++ after)%string
  /\ Forall (fun b => b <> 60 /\ b <> 62 /\ b <> 38) (as_bytes script) /\ (rest = EmptyString \/ rest = bridge (text context "origin")).
Proof.
  unfold page. destruct (injection _ _ _) as [i|] eqn:Ei; [|done]. cbn [mbind result_bind].
  destruct (injection_parts _ _ _ _ Ei) as (script & rest & -> & Hs & Hr). intros [= <-].
  destruct (Templates.split_str "<head>" html) as [[before after]|] eqn:Eh.
  - apply split_str_eq in Eh. exists (before ++ "<head>")%string, script, rest, after.
    cbn [join fold_right]. rewrite append_nil_r, Eh, <- !text_app_assoc. done.
  - exists EmptyString, script, rest, html. cbn [join fold_right]. rewrite append_nil_r, <- !text_app_assoc. done.
Qed.

Lemma prepare_origin store r app params a : prepare store r = Ok (Some (app, params, a)) ->
  text (a_context a) "origin" ∈ ["settings"; "pair"]%string.
Proof.
  unfold prepare. destruct (if (_ =? "GET")%string then _ else None) as [[ap rest]|]; [|done].
  destruct (record _ _ _) as [rec|]; [|done]. cbn [mbind result_bind]. cbv zeta.
  match goal with |- context [mbind (M := result Error) ?k ?m] => destruct m as [[[path context]|]|] eqn:Em end; try done. cbn [mbind result_bind].
  assert (text context "origin" ∈ ["settings"; "pair"]%string) as Ho.
  { destruct (strip_prefix "settings/" rest) as [rel|].
    - destruct (settings_file _ _) as [[p c]|] eqn:Es; [|done]. injection Em as -> ->. unfold settings_file in Es. cbv zeta in Es.
      destruct (negb _); [done|]. destruct (set _ _ _) as [c|] eqn:E1; [|done]. injection Es as _ <-. rewrite (text_set_eq _ _ _ _ E1). by left.
    - destruct (strip_prefix "pair/" rest) as [rel|]; [|done]. destruct (pair_file _ _ _) as [[p c]|] eqn:Es; [|done]. injection Em as -> ->.
      unfold pair_file in Es. destruct (Schedule.split_once "/" rel) as [[dr re]|]; [|done]. cbn [ok_or mbind result_bind] in Es. cbv zeta in Es.
      destruct (_ || _); [done|]. destruct (set _ "origin" _) as [c1|] eqn:E1; [|done]. cbn [mbind result_bind] in Es.
      destruct (set c1 _ _) as [c2|] eqn:E2; [|done]. cbn [mbind result_bind] in Es. destruct (query _) as [q|]; [|done]. cbn [mbind result_bind] in Es.
      destruct (set c2 _ _) as [c3|] eqn:E3; [|done]. injection Es as _ <-.
      rewrite (text_set_ne _ _ _ _ _ E3), (text_set_ne _ _ _ _ _ E2), (text_set_eq _ _ _ _ E1) by done. right. by left. }
  destruct (manifest_of ap store) as [manifest|]; [|done]. cbn [ok_or mbind result_bind]. destruct (_ && _); [done|].
  destruct (if ends_with ".html" path then _ else _) as [locales|]; [|done]. by intros [= <- <- <-].
Qed.

(** ** Folders *)

(** The names that a path is written of, with a slash between two of them. *)
Inductive names_of : list Z -> list (list Z) -> Prop :=
| names_one n : 47 ∉ n -> names_of n [n]
| names_more n l ns : 47 ∉ n -> names_of l ns -> names_of (n ++ 47 :: l) (n :: ns).

(** The folder that names lead to from a folder, the innermost name first; a path that begins with
    a slash starts at the root of the machine, and nothing lies above that root. *)
Fixpoint walk (folder names : list (list Z)) : list (list Z) :=
  match names with
  | [] => folder
  | n :: names =>
      if bool_decide (n = []) || bool_decide (n = [46]) then walk folder names
      else if bool_decide (n = [46; 46]) then walk (tl folder) names
      else walk (n :: folder) names
  end.

Definition arrive (folder names : list (list Z)) : list (list Z) :=
  match names with [] :: _ :: _ => walk [] names | _ => walk folder names end.

(** From every folder the path leads straight down: to the names it is written of, in that folder.
    It holds no separator of another system and no end of a text. *)
Definition inside (path : string) : Prop :=
  92 ∉ as_bytes path /\ 0 ∉ as_bytes path
  /\ exists names, names_of (as_bytes path) names /\ forall folder, arrive folder names = rev names ++ folder.

(** What a browser may read of an app: a file inside its folder, which its manifest names unless
    the app runs from a folder of its own. *)
Definition allowed (manifest : Value) (root path : string) : Prop :=
  inside path /\ (root = EmptyString -> VString path ∈ array (get_null manifest "ui") "assets").

Lemma names_split l : names_of l (split_at 47 l).
Proof.
  induction l as [|b l IH]; cbn [split_at]; [by apply names_one, not_elem_of_nil|]. destruct (Z.eqb_spec b 47) as [->|Hb].
  - exact (names_more [] l _ (not_elem_of_nil _) IH).
  - inversion IH as [n Hn Hl Hns|n l' ns Hn Hl Hs Hns]; subst.
    + apply names_one. set_solver.
    + apply (names_more (b :: n)); [set_solver|done].
Qed.

Lemma walk_down names : forall folder, Forall (fun n => n <> [] /\ n <> [46] /\ n <> [46; 46]) names -> walk folder names = rev names ++ folder.
Proof.
  induction names as [|n names IH]; intros folder H; [done|]. apply Forall_cons in H as [(H1 & H2 & H3) H]. cbn [walk rev].
  rewrite !bool_decide_eq_false_2 by done. cbn [orb]. by rewrite IH, <- app_assoc.
Qed.

Lemma contains_byte_spec c s : contains_byte c s = false -> c ∉ as_bytes s.
Proof.
  unfold contains_byte. intros H Hin. enough (existsb (Z.eqb c) (as_bytes s) = true) by congruence.
  apply existsb_exists. exists c. split; [by apply list_elem_of_In|apply Z.eqb_refl].
Qed.

Lemma valid_asset_inside path : valid_asset path = true -> inside path.
Proof.
  unfold valid_asset. rewrite !andb_true_iff, !negb_true_iff. intros [[[_ H1] H2] H3]. split_and!; [by apply contains_byte_spec..|].
  exists (split_at 47 (as_bytes path)). split; [apply names_split|]. intros folder.
  assert (Forall (fun n => n <> [] /\ n <> [46] /\ n <> [46; 46]) (split_at 47 (as_bytes path))) as HF.
  { unfold split_text in H3. rewrite forallb_forall in H3. apply Forall_forall. intros n Hn%list_elem_of_In.
    apply (in_map of_bytes), H3 in Hn. split_and!; intros ->; vm_compute in Hn; discriminate Hn. }
  unfold arrive. destruct (split_at 47 (as_bytes path)) as [|[|b n] [|m ns]] eqn:Es; try by apply walk_down.
  apply Forall_cons in HF as [[H _] _]. done.
Qed.

Lemma readable_allowed manifest root path : readable manifest root path -> allowed manifest root path.
Proof.
  intros [H1 H2]. split; [by apply valid_asset_inside|]. intros ->. specialize (H2 eq_refl). unfold declared in H2.
  apply existsb_exists in H2 as (v & Hv & Hs). destruct v; try done. apply String.eqb_eq in Hs as <-. by apply list_elem_of_In.
Qed.

Lemma prepare_root store r app params a : prepare store r = Ok (Some (app, params, a)) ->
  exists rec, record (document store) "apps" app = Ok rec /\ a_root a = text rec "root".
Proof.
  unfold prepare. destruct (if (_ =? "GET")%string then _ else None) as [[ap rest]|]; [|done].
  destruct (record _ _ _) as [rec|] eqn:Er; [|done]. cbn [mbind result_bind]. cbv zeta.
  match goal with |- context [mbind (M := result Error) ?k ?m] => destruct m as [[[path context]|]|] end; try done. cbn [mbind result_bind].
  destruct (manifest_of ap store); [|done]. cbn [ok_or mbind result_bind]. destruct (_ && _); [done|].
  destruct (if ends_with ".html" path then _ else _); [|done]. intros [= <- <- <-]. by exists rec.
Qed.

(** C40: Pages of apps stay contained.  A file that a browser gets of an app, and every file with
    its texts, lies inside the folder of the app: from whatever folder one starts, its path leads
    straight down to the names it is written of, and never up, nowhere, or to the root.  The
    manifest of the app names the file; only of an app that runs from a folder of its own, which
    is part of its record, the manifest need not.
    Whatever those texts and the address of the browser hold, the script that is added to a page
    holds no angle bracket and no ampersand, so that it ends where the program ends it; of the rest of
    the page nothing changes. *)
Theorem app_pages_are_contained store r app params a : prepare store r = Ok (Some (app, params, a)) ->
  (exists rec manifest, record (document store) "apps" app = Ok rec /\ a_root a = text rec "root" /\ manifest_of app store = Some manifest
     /\ allowed manifest (a_root a) (a_path a) /\ Forall (allowed manifest (a_root a)) (a_locales a))
  /\ forall locale html p, page (a_context a) locale html = Ok p ->
     exists before script rest after, html = (before ++ after)%string
       /\ p = (before ++ HEAD_START ++ script ++ ";</script>" ++ rest ++ after)%string
       /\ Forall (fun b => b <> 60 /\ b <> 62 /\ b <> 38) (as_bytes script)
       /\ rest ∈ [EmptyString; bridge "settings"; bridge "pair"].
Proof.
  intros H. split.
  { destruct (prepare_readable _ _ _ _ _ H) as (m & Hm & Hp & Hl & _). destruct (prepare_root _ _ _ _ _ H) as (rec & Hr & Ht).
    exists rec, m. split_and!; [done..|by apply readable_allowed|]. eapply Forall_impl; [exact Hl|]. intros x. apply readable_allowed. }
  intros locale html p Hp.
  destruct (page_parts _ _ _ _ Hp) as (before & script & rest & after & H1 & H2 & H3 & H4). exists before, script, rest, after.
  split_and!; [done..|]. apply prepare_origin in H. destruct H4 as [->| ->]; [by left|]. right.
  rewrite !elem_of_cons in H. destruct H as [->|[->|H]]; [by left|right; by left|by apply not_elem_of_nil in H].
Qed.

(** The files of a page are read until none is left: as many rounds as it has texts are enough. *)
Lemma local_loop_ends read fuel : forall a value, (length (a_locales a) <= fuel)%nat ->
  forall more, local_loop (fuel + more) read a value = local_loop fuel read a value.
Proof.
  induction fuel as [|fuel IH]; intros a value Hl more.
  - destruct (a_locales a) as [|x l] eqn:El; [|cbn in Hl; lia].
    assert (fst (advance a value false) = None) as Hn.
    { unfold advance, next_locale. destruct (a_original a); [|by rewrite El, bool_decide_true, orb_true_r].
      destruct (locale_of _ _); cbn; by rewrite ?El. }
    destruct more; cbn [local_loop Nat.add]; destruct (advance a value false) as [[?|] ?]; done.
  - cbn [local_loop Nat.add]. destruct (advance a value false) as [[params|] a1] eqn:Ea; [|done].
    assert (length (a_locales a1) <= fuel)%nat as Hs.
    { unfold advance, next_locale in Ea. destruct (a_original a).
      - destruct (locale_of _ _); cbn in Ea; destruct (a_locales a); try done; injection Ea as <- <-; cbn in *; lia.
      - destruct (_ || _ || _); [done|]. cbn in Ea. destruct (a_locales a); [done|]. injection Ea as <- <-. cbn in *. lia. }
    destruct (match read _ _ with Ok _ => _ | Err _ => _ end); [|done]. cbn [mbind result_bind]. by apply IH.
Qed.

End Safe.

(** ** An app with a page *)

#[local] Instance toy_crypto : Crypto := {
  hmac := Token.toy_hmac; sha256 := fun m => List.firstn 4 m; ct_eq := bytes_eqb; url_encode := Token.toy_encode;
  url_decode := fun l => Ok l
}.

Definition paged_house : Store Memory := Eval vm_compute in
  (announce "hue" (json_of "{'id':'hue','sdk':3,'version':'1','ui':{'assets':['settings/index.html','locales/en.json']}}") sample).2.

Definition settings_page : Request := mk_request "GET" "/app-ui/hue/settings/" "" "" "" "" object [].

Definition hue_page : Asset :=
  mk_asset "settings/index.html" "" (fields [("appId", VString "hue"); ("origin", VString "settings")]) "hue" ["locales/en.json"%string] None object "".

Definition hostile : Value := fields [("title", VString "</script><script>steal()")].

Definition plain_html : string := "<html><head></head></html>".
Definition hostile_page : string := Eval vm_compute in match page (a_context hue_page) hostile plain_html with Ok p => p | Err _ => EmptyString end.

Lemma app_pages_are_contained_witness :
  allowed (json_of "{'id':'hue','sdk':3,'version':'1','ui':{'assets':['settings/index.html','locales/en.json']}}") "" "settings/index.html"
  /\ exists before script rest after, hostile_page = (before ++ HEAD_START ++ script ++ ";</script>" ++ rest ++ after)%string
     /\ Forall (fun b => b <> 60 /\ b <> 62 /\ b <> 38) (as_bytes script).
Proof.
  destruct (app_pages_are_contained paged_house settings_page "hue" (fields [("path", VString "settings/index.html")]) hue_page) as [(rec & m & _ & _ & Hm & H1 & _) H2].
  { vm_compute. reflexivity. }
  split; [vm_compute in Hm; injection Hm as <-; exact H1|].
  destruct (H2 hostile plain_html hostile_page) as (before & script & rest & after & _ & Hp & Hs & _); [vm_compute; reflexivity|].
  exists before, script, rest, after. split; [exact Hp|exact Hs].
Defined.
