(* ===== verification/MatterApp.v ===== *)
(** * MatterApp: Matter devices as devices of the house

    Models [capabilities.rs], [devices.rs], [reports.rs] and [commands.rs] of [plugins/matter/src],
    the settings of [settings.rs], the chunks of a report of [interaction.rs] and
    [preserve_name] of [model.rs]: the mapping between the attributes of clusters and the
    capabilities of a device, what a report changes and which Flows it starts, the commands that
    carry out a request, and the endpoints of one node as one device. *)

From Stdlib Require Import ZArith Lia Ascii String Sorted Floats.SpecFloat.
From stdpp Require sorting.
From S2P Require Import Prelude Text Errors Float Value Slots Store.
From S2P Require Tlv TlvOk Im Templates Schedule References JsonRoundtrip StoreDoc.

Local Open Scope Z_scope.

(** The errors of this app are those of the SDK; an error of the core is kept as one. *)
Abbreviation Answer := Tlv.Result.
Definition core {A} (r : Result A) : Answer A := Tlv.from_core r.
Definition fails {A} (s : string) : Answer A := Err (Tlv.Invalid s).

(** ** Numbers *)

(** [util::number] and [util::float] *)
Definition number_of (v : Value) : option f64 :=
  match v with VNumber n => if is_finite (as_f64 n) then Some (as_f64 n) else None | _ => None end.
Definition float (n : f64) : Answer Value := if is_finite n then Ok (VNumber (Float n)) else fails "non-finite number".

(** [f64::from_bits] *)
Definition f64_of_bits (b : Z) : f64 :=
  let s := 2 ^ 63 <=? b in
  let e := Z.shiftr b 52 mod 2048 in
  let m := b mod 2 ^ 52 in
  if e =? 2047 then (if m =? 0 then S754_infinity s else S754_nan)
  else if e =? 0 then (if m =? 0 then S754_zero s else S754_finite s (Z.to_pos m) (-1074))
  else S754_finite s (Z.to_pos (m + 2 ^ 52)) (e - 1075).

(** [settings::decimal] *)
Definition decimal (n : Z) : Answer string := core (Templates.to_string (value_uint n)).

(** [u64::from_str_radix]: an optional plus sign, at least one digit, at most [max]. *)
Definition digit_of (radix c : Z) : option Z :=
  let d := if between 48 c 57 then c - 48 else if between 97 c 122 then c - 87 else if between 65 c 90 then c - 55 else radix in
  if d <? radix then Some d else None.

Fixpoint digits_of (radix max : Z) (l : list Z) (n : Z) : option Z :=
  match l with
  | [] => Some n
  | c :: l => d ← digit_of radix c; if n * radix + d <=? max then digits_of radix max l (n * radix + d) else None
  end.

Definition parse_radix (radix max : Z) (s : string) : option Z :=
  match as_bytes s with
  | [] => None
  | [43] => None
  | 43 :: l | l => digits_of radix max l 0
  end.

(** ** Capabilities ([capabilities.rs]) *)

Inductive Decoder : Type :=
| DBool | DLock | DUnsigned (divisor : Z) | DSigned (divisor : Z) | DIlluminance | DMotion | DBattery | DEnergy
| DAlarm | DConcentration | DAirQuality.

Inductive Filter : Type := Always | NoTemperature | BooleanState (capability : string).

Record Mapping : Type := mk_mapping {
  mp_capability : string;
  mp_cluster : Z;
  mp_attribute : Z;
  mp_optional : bool;
  mp_decoder : Decoder;
  mp_commands : list Z;
  mp_filter : Filter
}.

Definition MAPPINGS : list Mapping := [
  mk_mapping "onoff" 6 0 false DBool [0; 1] Always;
  mk_mapping "dim" 8 0 false (DUnsigned 254) [4] Always;
  mk_mapping "locked" 257 0 false DLock [0; 1] Always;
  mk_mapping "measure_temperature" 1026 0 false (DSigned 100) [] Always;
  mk_mapping "measure_temperature" 513 0 false (DSigned 100) [] NoTemperature;
  mk_mapping "measure_luminance" 1024 0 false DIlluminance [] Always;
  mk_mapping "measure_humidity" 1029 0 false (DUnsigned 100) [] Always;
  mk_mapping "measure_pressure" 1027 0 false (DSigned 10) [] Always;
  mk_mapping "measure_water" 1028 0 false (DUnsigned 10) [] Always;
  mk_mapping "alarm_motion" 1030 0 false DMotion [] Always;
  mk_mapping "alarm_contact" 69 0 false DBool [] (BooleanState "alarm_contact");
  mk_mapping "alarm_motion" 69 0 false DBool [] (BooleanState "alarm_motion");
  mk_mapping "alarm_water" 69 0 false DBool [] (BooleanState "alarm_water");
  mk_mapping "alarm_generic" 69 0 false DBool [] (BooleanState "alarm_generic");
  mk_mapping "measure_battery" 47 12 true DBattery [] Always;
  mk_mapping "measure_voltage" 144 4 true (DSigned 1000) [] Always;
  mk_mapping "measure_current" 144 5 true (DSigned 1000) [] Always;
  mk_mapping "measure_power" 144 8 false (DSigned 1000) [] Always;
  mk_mapping "meter_power" 145 1 true DEnergy [] Always;
  mk_mapping "light_hue" 768 0 true (DUnsigned 254) [0; 6] Always;
  mk_mapping "light_saturation" 768 1 true (DUnsigned 254) [3] Always;
  mk_mapping "alarm_smoke" 92 1 true DAlarm [] Always;
  mk_mapping "alarm_co" 92 2 true DAlarm [] Always;
  mk_mapping "alarm_battery" 92 3 false DAlarm [] Always;
  mk_mapping "measure_co2" 1037 0 true DConcentration [] Always;
  mk_mapping "measure_pm25" 1066 0 true DConcentration [] Always;
  mk_mapping "air_quality_state" 91 0 false DAirQuality [] Always ].

Fixpoint boolean_capability (types : list Z) : string :=
  match types with
  | [] => "alarm_contact"
  | t :: types =>
      if t =? 263 then "alarm_motion"
      else if (t =? 67) || (t =? 68) then "alarm_water"
      else if t =? 65 then "alarm_generic"
      else if t =? 21 then "alarm_contact"
      else boolean_capability types
  end.

(** [base] *)
Definition base (capability : string) : string := before_first "." capability.

Definition has_id (n : Z) (l : list Z) : bool := existsb (Z.eqb n) l.

(** [Mapping::applies] *)
Definition applies (m : Mapping) (types servers : list Z) : bool :=
  match mp_filter m with
  | Always => true
  | NoTemperature => negb (has_id 1026 servers)
  | BooleanState cap => (boolean_capability types =? cap)%string
  end.

Definition for_capability (types servers : list Z) (capability : string) : option Mapping :=
  List.find (fun m => (mp_capability m =? base capability)%string
    && ((match servers with [] => true | _ => false end) || has_id (mp_cluster m) servers) && applies m types servers) MAPPINGS.

Definition for_report (types servers : list Z) (cluster attribute : Z) : option Mapping :=
  List.find (fun m => (mp_cluster m =? cluster) && (mp_attribute m =? attribute) && applies m types servers) MAPPINGS.

Definition number (n : f64) : Answer Value :=
  if is_finite n then Ok (VNumber (Float n)) else fails "non-finite Matter measurement".

Definition zero : f64 := S754_zero false.

Definition nonnegative (v : Tlv.Value) : Answer f64 :=
  n ← match v with
      | Tlv.Int n | Tlv.Uint n => Ok (f64_of_Z n)
      | Tlv.Float b => Ok (f64_of_bits b)
      | _ => fails "Matter measurement is not numeric"
      end;
  if negb (is_finite n) || f_ltb n zero then fails "negative or non-finite Matter measurement" else Ok n.

Definition energy (v : Tlv.Value) : Answer f64 :=
  match v with Tlv.Int _ | Tlv.Uint _ => nonnegative v | _ => fails "energy is not integer" end.

Definition LN_10 : f64 := f64_of_decimal false 230258509299404568401799145468436421 (-35).
Definition LN_2 : f64 := f64_of_decimal false 693147180559945309417232121458176568 (-36).

(** The series of [lux] from term [n] on. *)
Fixpoint series (fuel : nat) (n : Z) (remainder term sum : f64) : f64 :=
  match fuel with
  | O => sum
  | S fuel =>
      let term := f64_mul term (f64_div remainder (f64_of_Z n)) in
      series fuel (n + 1) remainder term (f64_add sum term)
  end.

Definition lux (raw : Z) : f64 :=
  if raw =? 0 then zero
  else
    let exponent := f64_mul (f64_div (f64_sub (f64_of_Z raw) (f64_of_Z 1)) (f64_of_Z 10000)) LN_10 in
    let power := to_int 0 U32_MAX (f64_div exponent LN_2) in
    let remainder := f64_sub exponent (f64_mul (f64_of_Z power) LN_2) in
    f64_mul (series 16 1 remainder (f64_of_Z 1) (f64_of_Z 1)) (f64_of_Z (Z.shiftl 1 power)).

Definition half : f64 := f64_of_decimal false 5 (-1).

Definition AIR_QUALITY : list string :=
  ["unknown"; "good"; "fair"; "moderate"; "poor"; "very_poor"; "extremely_poor"].

(** [Mapping::decode] *)
Definition decode (m : Mapping) (n : Tlv.Node) : Answer (option Value) :=
  let unsupported := fails "unsupported Matter capability value" in
  let v := Tlv.n_value n in
  match v with
  | Tlv.VNull => Ok None
  | _ =>
      out ← match mp_decoder m, v with
      | DBool, Tlv.VBool b => Ok (VBool b)
      | DBool, Tlv.Uint n => Ok (VBool (negb (n =? 0)))
      | DLock, Tlv.Uint n => Ok (VBool (n =? 1))
      | DUnsigned d, Tlv.Uint n | DSigned d, Tlv.Uint n | DSigned d, Tlv.Int n =>
          number (f64_div (f64_of_Z n) (f64_of_Z d))
      | DIlluminance, Tlv.Uint n => if n <=? 65534 then number (lux n) else unsupported
      | DMotion, Tlv.Uint n => Ok (VBool (Z.testbit n 0))
      | DBattery, Tlv.Uint n => number (f_min (f64_div (f64_of_Z n) (f64_of_Z 2)) (f64_of_Z 100))
      | DEnergy, Tlv.Structure =>
          c ← ok_or (Tlv.get n 0) (Tlv.Invalid "missing cumulative energy");
          e ← energy (Tlv.n_value c);
          number (f64_div e (f64_of_Z 1000000))
      | DAlarm, Tlv.Uint n => if n <=? 2 then Ok (VBool (negb (n =? 0))) else unsupported
      | DConcentration, v =>
          value ← nonnegative v;
          let scaled := f64_mul value (f64_of_Z 100) in
          number (if f_ltb scaled (f64_of_Z 4503599627370496)
                  then f64_div (f64_of_Z (to_u64 (f64_add scaled half))) (f64_of_Z 100)
                  else value)
      | DAirQuality, Tlv.Uint n =>
          if n <=? 6 then Ok (VString (default ""%string (AIR_QUALITY !! Z.to_nat n))) else unsupported
      | _, _ => unsupported
      end;
      Ok (Some out)
  end.

(** *** Commands *)

Record Command : Type := mk_command { c_path : Im.CommandPath; c_fields : list Z; c_timed : bool }.

Definition level_error : string := "Matter level needs a number between 0 and 1".

Definition level (value : Value) : Answer Z :=
  n ← ok_or (number_of value) (Tlv.Invalid level_error);
  if negb (is_finite n) || negb (f_leb zero n && f_leb n (f64_of_Z 1)) then fails level_error
  else Ok (to_u64 (f64_add (f64_mul n (f64_of_Z 254)) half)).

(** One field of a command, and a structure of such fields. *)
Definition field_of (tag n : Z) (bytes : nat) : Im.Step := Tlv.uint_width (Tlv.Context tag) n bytes.
Definition transition (tag : Z) : Im.Step :=
  Im.andthen (field_of tag 0 2) (Im.andthen (field_of (tag + 1) 0 1) (field_of (tag + 2) 0 1)).
Definition fields_bytes (body : Im.Step) : Answer (list Z) :=
  w ← Im.block Tlv.Anonymous Tlv.Structure body Tlv.Writer_default; Tlv.finish w.

Definition bool_of (value : Value) (message : string) : Answer bool := ok_or (as_bool value) (Tlv.Invalid message).

(** The command and its fields, by the capability of [Mapping::command]. *)
Definition command_fields (m : Mapping) (value : Value) : Answer (Z * Im.Step) :=
  let cap := mp_capability m in
  if (cap =? "onoff")%string then b ← bool_of value "onoff needs a boolean"; Ok ((if b : bool then 1 else 0), Im.skip)
  else if (cap =? "locked")%string then b ← bool_of value "locked needs a boolean"; Ok ((if b : bool then 0 else 1), Im.skip)
  else if (cap =? "dim")%string then l ← level value; Ok (4, Im.andthen (field_of 0 l 1) (field_of 1 0 2))
  else if (cap =? "light_hue")%string
  then l ← level value; Ok (0, Im.andthen (field_of 0 l 1) (Im.andthen (field_of 1 0 1) (transition 2)))
  else if (cap =? "light_saturation")%string then l ← level value; Ok (3, Im.andthen (field_of 0 l 1) (transition 1))
  else fails "Matter capability is read-only or unsupported".

Definition command (m : Mapping) (endpoint : Z) (value : Value) : Answer Command :=
  '(id, body) ← command_fields m value;
  fields ← fields_bytes body;
  Ok (mk_command (Im.mk_command_path endpoint (mp_cluster m) id) fields (mp_capability m =? "locked")%string).

(** [Command::hue_saturation] *)
Definition hue_saturation (endpoint : Z) (hue saturation : Value) : Answer Command :=
  h ← level hue;
  s ← level saturation;
  fields ← fields_bytes (Im.andthen (field_of 0 h 1) (Im.andthen (field_of 1 s 1) (transition 2)));
  Ok (mk_command (Im.mk_command_path endpoint 768 6) fields false).

(** ** Settings ([settings.rs]) *)

Record Setting : Type := mk_setting { s_id : string; s_endpoint : Z; s_levels : Z }.

Definition u16_of (n : Z) : option Z := if n <=? 65535 then Some n else None.

(** [Setting::parse] *)
Definition Setting_parse (value : Value) : Answer Setting :=
  endpoint ← ok_or (u16_of (uint value "endpoint")) (Tlv.Invalid "setting endpoint exceeds uint16");
  levels ← (if uint value "levels" <=? 255 then Ok (uint value "levels") else fails "setting levels exceeds uint8");
  d ← decimal endpoint;
  let expected := ("matter.sensitivity." ++ d)%string in
  if negb (text value "kind" =? "sensitivity")%string || negb (text value "id" =? expected)%string || (levels <? 2)
  then fails "unsupported Matter setting metadata"
  else Ok (mk_setting expected endpoint levels).

(** [Setting::value] *)
Definition Setting_value (s : Setting) (value : Value) : Answer Z :=
  n ← match as_str value with
      | Some text => ok_or (parse_radix 10 255 (trim text)) (Tlv.Invalid "invalid sensitivity level")
      | None =>
          n ← ok_or (number_of value) (Tlv.Invalid "invalid sensitivity level");
          if negb (f_leb zero n && f_leb n (f64_of_Z 255)) || negb (f_eqb (f64_of_Z (to_int 0 255 n)) n)
          then fails "sensitivity level must be a uint8" else Ok (to_int 0 255 n)
      end;
  if s_levels s <=? n then fails "sensitivity level exceeds advertised range" else Ok n.

(** [out.sort_unstable_by(|a, b| a.0.id.cmp(&b.0.id))]; the ids are different. *)
Fixpoint insert_setting (x : Setting * Z) (l : list (Setting * Z)) : list (Setting * Z) :=
  match l with
  | [] => [x]
  | y :: l' => if str_leb (s_id (fst x)) (s_id (fst y)) then x :: l else y :: insert_setting x l'
  end.

Fixpoint plan_patch (settings : list Value) (patch : Object) (out : list (Setting * Z)) : Answer (list (Setting * Z)) :=
  match patch with
  | [] => Ok out
  | (id, value) :: patch =>
      record ← ok_or (List.find (fun s => (text s "id" =? id)%string) settings) (Tlv.Invalid "Matter setting is not supported");
      setting ← Setting_parse record;
      value ← Setting_value setting value;
      out ← core (push out (setting, value) 256);
      plan_patch settings patch out
  end.

(** [settings::plan] *)
Definition settings_plan (metadata patch : Value) : Answer (list (Setting * Z)) :=
  settings ← ok_or (as_array metadata) (Tlv.Invalid "missing Matter setting metadata");
  patch ← ok_or (as_object patch) (Tlv.Invalid "settings patch is not an object");
  out ← plan_patch settings patch [];
  Ok (fold_right insert_setting [] out).

(** [settings::metadata] *)
Definition metadata (device : Value) : Value := get_null (get_null device "store") "matter.settings".

(** ** Records of devices ([devices.rs]) *)

Definition field (v : Value) (key : string) : Value := get_null v key.

(** [for value in l { if let Some(x) = f(value) { json::push(&mut out, x, 4096)? } }] *)
Fixpoint gather {A B} (f : A -> option B) (l : list A) (out : list B) : Answer (list B) :=
  match l with
  | [] => Ok out
  | x :: l => match f x with
              | Some y => out ← core (push out y 4096); gather f l out
              | None => gather f l out
              end
  end.

Definition id_of (value : Value) : option Z :=
  s ← as_str value;
  match strip_prefix "0x" s with
  | Some h => parse_radix 16 U32_MAX h
  | None => match strip_prefix "0X" s with
            | Some h => parse_radix 16 U32_MAX h
            | None => parse_radix 10 U32_MAX s
            end
  end.

(** [ids] *)
Definition ids (raw : Value) : Answer (list Z) := gather id_of (default [] (as_array raw)) [].

Definition u16_field (v : Value) : option Z := as_u64 v ≫= u16_of.

Definition primary (device : Value) : Z := default 0 (u16_field (field (field device "store") "matter.endpoint")).

(** [endpoint] *)
Definition endpoint (device : Value) (capability : string) : Z :=
  default (primary device) (u16_field (field (field (field device "store") "matter.capabilityEndpoints") capability)).

(** [sort_unstable] and [dedup] of numbers *)
Fixpoint insert_id (n : Z) (l : list Z) : list Z :=
  match l with [] => [n] | m :: l' => if n <=? m then n :: l else m :: insert_id n l' end.
Definition sort_ids (l : list Z) : list Z := fold_right insert_id [] l.
Fixpoint dedup (l : list Z) : list Z :=
  match l with
  | n :: ((m :: _) as l') => if n =? m then dedup l' else n :: dedup l'
  | _ => l
  end.

Definition capabilities (device : Value) : list string := omap as_str (array device "capabilities").

(** [endpoints] *)
Definition endpoints (device : Value) : Answer (list Z) :=
  let store := field device "store" in
  out ← gather id (match u16_field (field store "matter.endpoint") with Some n => [Some n] | None => [] end) [];
  out ← gather u16_field (array store "matter.endpoints") out;
  out ← gather (fun cap => Some (endpoint device cap)) (capabilities device) out;
  Ok (dedup (sort_ids out)).

(** [bridged] *)
Definition bridged (device : Value) : bool :=
  let store := field device "store" in
  boolean store "matter.bridged"
  || existsb (fun s => eq_ignore_ascii_case s "0x39") (omap as_str (array store "matter.serverClusters")).

(** [rank] *)
Definition device_rank (device : Value) : Z :=
  if existsb (fun c => bool_decide (base c ∈ ["onoff"; "dim"; "locked"]%string)) (capabilities device) then 3
  else
    let class := text device "class" in
    if bool_decide (class ∈ ["light"; "socket"; "lock"; "thermostat"]%string) then 2
    else if (class =? "sensor")%string then 1 else 0.

(** [capability] *)
Definition capability (device : Value) (b : string) (at_ : Z) : option string :=
  List.find (fun cap => (base cap =? b)%string && (endpoint device cap =? at_)) (capabilities device).

Definition event_marker (device : Value) : option Z :=
  parse_radix 10 U64_MAX (text (field device "store") "matter.lastEventNumber").

(** [event_number] *)
Definition event_number (device : Value) : Z := default 0 (event_marker device).

(** [object] *)
Definition object_of (value : Value) : Value := match as_object value with Some _ => value | None => object end.

(** [merge_object] *)
Definition merge_object (left right : Value) : Answer Value :=
  core (set_all (object_of left) (default [] (as_object right))).

Definition elements (v : Value) : list Value := default [] (as_array v).

(** [union] *)
Fixpoint union_loop (l out : list Value) : Answer (list Value) :=
  match l with
  | [] => Ok out
  | value :: l =>
      if bool_decide (is_Some (as_str value)) && negb (existsb (fun prior => equal prior value) out)
      then out ← core (push out value 4096); union_loop l out
      else union_loop l out
  end.
Definition union (left right : Value) : Answer Value :=
  out ← union_loop (elements left ++ elements right) []; Ok (VArray out).

(** [merge_keyed] *)
Fixpoint keyed_loop (key : string) (l out : list Value) : Answer (list Value) :=
  match l with
  | [] => Ok out
  | value :: l =>
      if is_null (field value key) then keyed_loop key l out
      else match list_find (fun prior => equal (field prior key) (field value key) = true) out with
           | Some (i, _) => keyed_loop key l (<[i := value]> out)
           | None => out ← core (push out value 4096); keyed_loop key l out
           end
  end.

Fixpoint insert_keyed (leb : Value -> Value -> bool) (x : Value) (l : list Value) : list Value :=
  match l with
  | [] => [x]
  | y :: l' => if leb x y then x :: l else y :: insert_keyed leb x l'
  end.

Definition merge_keyed (left right : Value) (key : string) : Answer Value :=
  out ← keyed_loop key (elements left ++ elements right) [];
  let leb := if (key =? "endpoint")%string then (fun a b => uint a key <=? uint b key)
             else (fun a b => str_leb (text a key) (text b key)) in
  Ok (VArray (fold_right (insert_keyed leb) [] out)).

(** [merge_metadata]: the device [dest] with what it takes over from [source]. *)
Definition merge_metadata (dest source : Value) : Answer Value :=
  let store := object_of (field dest "store") in
  let from := field source "store" in
  value ← union (field store "matter.deviceTypes") (field from "matter.deviceTypes");
  store ← core (set store "matter.deviceTypes" value);
  value ← union (field store "matter.serverClusters") (field from "matter.serverClusters");
  store ← core (set store "matter.serverClusters" value);
  value ← merge_keyed (field store "~matter.endpointInventory") (field from "~matter.endpointInventory") "endpoint";
  store ← core (set store "~matter.endpointInventory" value);
  value ← merge_keyed (field store "matter.settings") (field from "matter.settings") "id";
  store ← core (set store "matter.settings" value);
  store ← (if event_number dest <? event_number source
           then t ← decimal (event_number source); core (set store "matter.lastEventNumber" (VString t))
           else Ok store);
  settings ← merge_object (field dest "settings") (field source "settings");
  dest ← (if is_empty (text dest "groupId") && negb (is_empty (text source "groupId"))
          then core (set dest "groupId" (field source "groupId")) else Ok dest);
  dest ← core (set dest "available" (VBool (boolean dest "available" || boolean source "available")));
  dest ← core (set dest "settings" settings);
  core (set dest "store" store).

(** *** The endpoints of a node as one device *)

Record Occurrence : Type := mk_occurrence {
  oc_device : string;
  oc_cap : string;
  oc_endpoint : Z;
  oc_value : option Value;
  oc_ordinal : nat
}.

(** The field [base] of the source. *)
Definition oc_base (o : Occurrence) : string := base (oc_cap o).

Record Combined : Type := mk_combined { cb_devices : list Value; cb_replacements : Value }.

Fixpoint select_devices (l : list Value) (index : nat) (node : string) (out : list nat) : Answer (list nat) :=
  match l with
  | [] => Ok out
  | device :: l =>
      let candidate := text (field device "store") "matter.nodeId" in
      if is_empty candidate || bridged device then select_devices l (S index) node out
      else
        let node := if is_empty node then candidate else node in
        if (node =? candidate)%string
        then out ← core (push out index 128); select_devices l (S index) node out
        else select_devices l (S index) node out
  end.

(** [(Reverse(rank), primary, index)] *)
Definition main_first (devices : list Value) (i j : nat) : bool :=
  let a := default VNull (devices !! i) in
  let b := default VNull (devices !! j) in
  (device_rank b <? device_rank a)
  || (device_rank a =? device_rank b) && ((primary a <? primary b) || (primary a =? primary b) && (i <=? j)%nat).

Fixpoint insert_index (leb : nat -> nat -> bool) (x : nat) (l : list nat) : list nat :=
  match l with
  | [] => [x]
  | y :: l' => if leb x y then x :: l else y :: insert_index leb x l'
  end.

Fixpoint occurrences_of (device : Value) (caps : list string) (out : list Occurrence) : Answer (list Occurrence) :=
  match caps with
  | [] => Ok out
  | cap :: caps =>
      out ← core (push out (mk_occurrence (text device "id") cap (endpoint device cap) (get (field device "state") cap)
                              (length out)) 4096);
      occurrences_of device caps out
  end.

Record Merging : Type := mk_merging {
  g_merged : Value; g_occurrences : list Occurrence; g_endpoints : list Z; g_replacements : Value
}.

(** The loop over the selected devices. *)
Fixpoint merge_selected (devices : list Value) (selected : list nat) (g : Merging) : Answer Merging :=
  match selected with
  | [] => Ok g
  | i :: selected =>
      let device := default VNull (devices !! i) in
      let id := text device "id" in
      eps ← endpoints device;
      all ← gather Some eps (g_endpoints g);
      occ ← occurrences_of device (capabilities device) (g_occurrences g);
      merged ← merge_metadata (g_merged g) device;
      replacements ← (if is_empty id then Ok (g_replacements g)
                      else core (set (g_replacements g) id
                        (fields [("deviceId", VString (text merged "id")); ("capabilities", object)]%string)));
      merge_selected devices selected (mk_merging merged occ all replacements)
  end.

(** [(base, endpoint, ordinal)] *)
Definition occurrence_leb (a b : Occurrence) : bool :=
  match String.compare (oc_base a) (oc_base b) with
  | Lt => true
  | Gt => false
  | Eq => (oc_endpoint a <? oc_endpoint b) || (oc_endpoint a =? oc_endpoint b) && (oc_ordinal a <=? oc_ordinal b)%nat
  end.

Fixpoint insert_occurrence (o : Occurrence) (l : list Occurrence) : list Occurrence :=
  match l with
  | [] => [o]
  | p :: l' => if occurrence_leb o p then o :: l else p :: insert_occurrence o l'
  end.

Fixpoint run_of (b : string) (l : list Occurrence) : list Occurrence :=
  match l with
  | o :: l => if (oc_base o =? b)%string then o :: run_of b l else []
  | [] => []
  end.

Record Named : Type := mk_named { d_caps : list Value; d_state : Value; d_routes : Value; d_replacements : Value }.

(** One capability of the merged device, under its new name. *)
Definition name_occurrence (count ordinal : nat) (o : Occurrence) (d : Named) : Answer Named :=
  cap ← (if (1 <? count)%nat then n ← decimal (Z.of_nat ordinal + 1); Ok (oc_base o ++ "." ++ n)%string
         else Ok (oc_base o));
  caps ← core (push (d_caps d) (VString cap) 4096);
  routes ← core (set (d_routes d) cap (value_uint (oc_endpoint o)));
  state ← match oc_value o with
          | Some value => core (set (d_state d) cap value)
          | None => Ok (d_state d)
          end;
  replacements ← (if is_empty (oc_device o) then Ok (d_replacements d)
    else
      let replacement := field (d_replacements d) (oc_device o) in
      map ← core (set (field replacement "capabilities") (oc_cap o) (VString cap));
      replacement ← core (set replacement "capabilities" map);
      core (set (d_replacements d) (oc_device o) replacement));
  Ok (mk_named caps state routes replacements).

Fixpoint name_run (count ordinal : nat) (l : list Occurrence) (d : Named) : Answer Named :=
  match l with
  | [] => Ok d
  | o :: l => d ← name_occurrence count ordinal o d; name_run count (S ordinal) l d
  end.

(** [while at < occurrences.len()]; every round takes at least one. *)
Fixpoint name_all (fuel : nat) (l : list Occurrence) (d : Named) : Answer Named :=
  match fuel, l with
  | S fuel, o :: _ =>
      let run := run_of (oc_base o) l in
      d ← name_run (length run) 0 run d;
      name_all fuel (drop (length run) l) d
  | _, _ => Ok d
  end.

(** The devices that stay: the merged one in the place of the main one. *)
Fixpoint replace_selected (l : list Value) (index base_index : nat) (selected : list nat) (merged : Value) (out : list Value)
  : Answer (list Value) :=
  match l with
  | [] => Ok out
  | device :: l =>
      out ← (if (index =? base_index)%nat then core (push out merged 128)
             else if existsb (Nat.eqb index) selected then Ok out
             else core (push out device 128));
      replace_selected l (S index) base_index selected merged out
  end.

(** [combine] *)
Definition combine (devices : list Value) : Answer Combined :=
  selected ← select_devices devices 0 "" [];
  if (length selected <? 2)%nat then Ok (mk_combined devices object)
  else
    let selected := fold_right (insert_index (main_first devices)) [] selected in
    let base_index := default 0%nat (head selected) in
    let merged := default VNull (devices !! base_index) in
    g ← merge_selected devices selected (mk_merging merged [] [] object);
    let merged := g_merged g in
    let occurrences := fold_right insert_occurrence [] (g_occurrences g) in
    d ← name_all (length occurrences) occurrences (mk_named [] object object (g_replacements g));
    eps ← gather Some (dedup (sort_ids (g_endpoints g))) [];
    let eps := VArray (map value_uint eps) in
    store ← core (set (object_of (field merged "store")) "matter.endpoints" eps);
    store ← core (set store "matter.capabilityEndpoints" (d_routes d));
    data ← core (set (object_of (field merged "data")) "endpoints" eps);
    n ← decimal (primary merged);
    let suffix := (" " ++ of_bytes [194; 183] ++ " " ++ n)%string in
    let name := text merged "name" in
    let name := default name (Templates.strip_suffix suffix name) in
    merged ← core (set_all merged [("name", VString name); ("capabilities", VArray (d_caps d)); ("state", d_state d);
                                   ("store", store); ("data", data)]%string);
    out ← replace_selected devices 0 base_index selected merged [];
    Ok (mk_combined out (d_replacements d)).

(** [for key in keys { if let Some(v) = json::get(from, key) { json::set(value, key, v)? } }] *)
Fixpoint take_keys (from : Value) (keys : list string) (value : Value) : Answer Value :=
  match keys with
  | [] => Ok value
  | key :: keys =>
      value ← match get from key with Some v => core (set value key v) | None => Ok value end;
      take_keys from keys value
  end.

Definition DATA_KEYS : list string := ["id"; "nodeId"; "endpoint"; "endpoints"; "vendorId"; "productId"].
Definition STORE_KEYS : list string :=
  ["manufacturer"; "matter.attestation"; "matter.bridged"; "matter.endpoint"; "matter.endpoints"; "matter.capabilityEndpoints";
   "matter.deviceTypes"; "matter.serverClusters"; "~matter.endpointInventory"; "matter.settings"; "matter.modelVersion"].

(** [refresh] *)
Definition refresh (existing prototype : Value) : Answer Value :=
  out ← take_keys existing ["id"; "name"; "groupId"]%string prototype;
  data ← take_keys (field prototype "data") DATA_KEYS (object_of (field existing "data"));
  out ← core (set out "data" data);
  store ← take_keys (field prototype "store") STORE_KEYS (object_of (field existing "store"));
  out ← core (set out "store" store);
  settings ← merge_object (field existing "settings") (field prototype "settings");
  out ← core (set out "settings" settings);
  state ← merge_object (field existing "state") (field prototype "state");
  out ← core (set out "state" state);
  core (set_all out [("available", VBool true); ("message", VString "")]%string).

Fixpoint set_routes (device : Value) (caps : list string) (routes : Value) : Answer Value :=
  match caps with
  | [] => Ok routes
  | cap :: caps => routes ← core (set routes cap (value_uint (endpoint device cap))); set_routes device caps routes
  end.

(** [upgrade]: the device, and whether it changed *)
Definition upgrade (device : Value) : Answer (Value * bool) :=
  servers ← ids (field (field device "store") "matter.serverClusters");
  if negb (has_id 1024 servers) || existsb (fun cap => (base cap =? "measure_luminance")%string) (capabilities device)
  then Ok (device, false)
  else
    let at_ := match List.find (fun cap => (base cap =? "alarm_motion")%string) (capabilities device) with
               | Some cap => endpoint device cap
               | None => primary device
               end in
    routes ← set_routes device (capabilities device) object;
    routes ← core (set routes "measure_luminance" (value_uint at_));
    caps ← gather Some (array device "capabilities") [];
    caps ← core (push caps (VString "measure_luminance") 4096);
    store ← core (set (object_of (field device "store")) "matter.capabilityEndpoints" routes);
    device ← core (set device "store" store);
    device ← core (set device "capabilities" (VArray caps));
    Ok (device, true).

(** [model::preserve_name] *)
Definition preserve_name (device : Value) : Answer Value :=
  let store := object_of (field device "store") in
  store ← (if is_empty (text store "__stulp.hardwareName")
           then core (set store "__stulp.hardwareName" (VString (text device "name"))) else Ok store);
  core (set device "store" store).

Fixpoint map_answer {A B} (f : A -> Answer B) (l : list A) : Answer (list B) :=
  match l with
  | [] => Ok []
  | x :: l => y ← f x; l ← map_answer f l; Ok (y :: l)
  end.

(** [finish] *)
Definition finish (devices : list Value) : Answer (list Value) :=
  c ← combine devices; map_answer preserve_name (cb_devices c).

(** [reconcile]: before the app gets its snapshot, the records of each node become one. *)
Section Reconcile.
Context {St : Type} `{HS : Storage St}.

Definition APP : string := "com.stulp.matter".

Definition ours (device : Value) : bool :=
  (text device "appId" =? APP)%string && (text device "driverId" =? "matter")%string && negb (bridged device).
Definition node_of (device : Value) : string := text (field device "store") "matter.nodeId".

Fixpoint nodes_of (devices : list Value) (out : list string) : Answer (list string) :=
  match devices with
  | [] => Ok out
  | device :: devices =>
      if ours device && negb (is_empty (node_of device)) && negb (existsb (String.eqb (node_of device)) out)
      then out ← core (push out (node_of device) 4096); nodes_of devices out
      else nodes_of devices out
  end.

Fixpoint devices_of (s : Store St) (node : string) (devices out : list Value) : Answer (list Value) :=
  match devices with
  | [] => Ok out
  | d :: devices =>
      if ours d && (node_of d =? node)%string
      then d ← core (Store.device (text d "id") s); out ← core (push out d 128); devices_of s node devices out
      else devices_of s node devices out
  end.

Fixpoint consolidate_all (devices : list Value) (replacements : Value) (now : string) (s : Store St)
  : Answer unit * Store St :=
  match devices with
  | [] => (Ok tt, s)
  | d :: devices =>
      let id := text d "id" in
      if match get replacements id with Some r => (text r "deviceId" =? id)%string | None => false end
      then
        let '(r, s) := References.consolidate_devices APP d replacements now s in
        match core r with
        | Ok _ => consolidate_all devices replacements now s
        | Err e => (Err e, s)
        end
      else consolidate_all devices replacements now s
  end.

Fixpoint reconcile_nodes (nodes : list string) (now : string) (s : Store St) : Answer unit * Store St :=
  match nodes with
  | [] => (Ok tt, s)
  | node :: nodes =>
      match devices_of s node (Document.records (document s) "devices") [] with
      | Err e => (Err e, s)
      | Ok devices =>
          if (length devices <? 2)%nat then reconcile_nodes nodes now s
          else
            match (devices ← map_answer (fun d => '(d, _) ← upgrade d; Ok d) devices; combine devices) with
            | Err e => (Err e, s)
            | Ok combined =>
                match consolidate_all (cb_devices combined) (cb_replacements combined) now s with
                | (Ok _, s) => reconcile_nodes nodes now s
                | (Err e, s) => (Err e, s)
                end
            end
      end
  end.

Definition reconcile (now : string) (s : Store St) : Answer unit * Store St :=
  match nodes_of (Document.records (document s) "devices") [] with
  | Err e => (Err e, s)
  | Ok nodes => reconcile_nodes nodes now s
  end.
End Reconcile.

(** ** Reports ([reports.rs]) *)

(** [types] *)
Definition types (device : Value) (endpoint : Z) : Answer (list Z) :=
  let store := field device "store" in
  match List.find (fun inventory => uint inventory "endpoint" =? endpoint) (array store "~matter.endpointInventory") with
  | Some inventory => ids (field inventory "deviceTypes")
  | None => ids (field store "matter.deviceTypes")
  end.

(** *** What to subscribe to *)

#[local] Existing Instance Im.AttributePath_eq_dec.

Definition add_path (paths : list Im.AttributePath) (path : Im.AttributePath) : Answer (list Im.AttributePath) :=
  if bool_decide (path ∈ paths) then Ok paths else core (push paths path 256).

Definition urgent_path (endpoint : Z) : Im.EventPath := Im.mk_event_path None (Some endpoint) None None (Some true).

Fixpoint add_events (eps : list Z) (events : list Im.EventPath) : Answer (list Im.EventPath) :=
  match eps with
  | [] => Ok events
  | e :: eps =>
      if existsb (fun p => bool_decide (Im.ep_endpoint p = Some e)) events then add_events eps events
      else events ← core (push events (urgent_path e) 256); add_events eps events
  end.

Fixpoint add_capabilities (device : Value) (servers : list Z) (caps : list string) (attributes : list Im.AttributePath)
  : Answer (list Im.AttributePath) :=
  match caps with
  | [] => Ok attributes
  | cap :: caps =>
      let e := endpoint device cap in
      t ← types device e;
      attributes ← match for_capability t servers cap with
                   | Some m => add_path attributes (Im.AttributePath_new e (mp_cluster m) (mp_attribute m))
                   | None => Ok attributes
                   end;
      add_capabilities device servers caps attributes
  end.

Fixpoint add_settings (l : list Value) (attributes : list Im.AttributePath) : Answer (list Im.AttributePath) :=
  match l with
  | [] => Ok attributes
  | value :: l =>
      attributes ← match Setting_parse value with
                   | Ok s => add_path attributes (Im.AttributePath_new (s_endpoint s) 128 0)
                   | Err _ => Ok attributes
                   end;
      add_settings l attributes
  end.

Fixpoint subscription_paths (devices : list Value) (attributes : list Im.AttributePath) (events : list Im.EventPath)
  : Answer (list Im.AttributePath * list Im.EventPath) :=
  match devices with
  | [] => Ok (attributes, events)
  | device :: devices =>
      eps ← endpoints device;
      events ← add_events eps events;
      servers ← ids (field (field device "store") "matter.serverClusters");
      servers ← (if (match servers with [] => true | _ => false end) && (text device "class" =? "thermostat")%string
                 then core (push servers 513 256) else Ok servers);
      attributes ← add_capabilities device servers (capabilities device) attributes;
      attributes ← add_settings (elements (metadata device)) attributes;
      subscription_paths devices attributes events
  end.

Definition subscription (devices : list Value) : Answer Im.Subscription :=
  '(attributes, events) ← subscription_paths devices [] [];
  if (256 <? length attributes + length events)%nat then fails "Matter subscription exceeds 256 paths"
  else Ok (Im.mk_subscription attributes events 0 300 false true).

(** *** What a report changes *)

Record Flow : Type := mk_flow { fl_card : string; fl_tokens : Value; fl_state : Value }.
Record Update : Type := mk_update { up_device : Value; up_events : list Flow }.

Definition put (device : Value) (container key : string) (value : Value) : Answer Value :=
  out ← core (set (object_of (field device container)) key value);
  core (set device container out).

Definition available (device : Value) : Answer Value :=
  core (set_all device [("available", VBool true); ("message", VString "")]%string).

Definition changed (device : Value) (container key : string) (value : Value) : bool :=
  negb (equal (field (field device container) key) value)
  || negb (boolean device "available") || negb (is_empty (text device "message")).

(** The loop over the settings of the device; [None] when none of them fits. *)
Fixpoint find_setting (endpoint n : Z) (l : list Value) : Answer (option Setting) :=
  match l with
  | [] => Ok None
  | value :: l =>
      match Setting_parse value with
      | Ok s => if (s_endpoint s =? endpoint) && (n <? s_levels s) then Ok (Some s) else find_setting endpoint n l
      | Err (Tlv.Core e) => Err (Tlv.Core e)
      | Err _ => find_setting endpoint n l
      end
  end.

(** The setting whose level is reported. *)
Definition reported_setting (device : Value) (e cluster attribute : Z) (value : Tlv.Node) : Answer (option (Setting * Z)) :=
  match Tlv.n_value value with
  | Tlv.Uint n =>
      if (cluster =? 128) && (attribute =? 0)
      then s ← find_setting e n (elements (metadata device)); Ok (match s with Some s => Some (s, n) | None => None end)
      else Ok None
  | _ => Ok None
  end.

(** A value of a capability, as far as it is new. *)
Definition apply_capability (device : Value) (servers : list Z) (e cluster attribute : Z) (value : Tlv.Node)
  : Answer (Value * bool) :=
  t ← types device e;
  match for_report t servers cluster attribute with
  | None => Ok (device, false)
  | Some m =>
      match capability device (mp_capability m) e with
      | None => Ok (device, false)
      | Some cap =>
          match decode m value with
          | Err (Tlv.Core e) => Err (Tlv.Core e)
          | Ok (Some v) =>
              if changed device "state" cap v
              then device ← put device "state" cap v; device ← available device; Ok (device, true)
              else Ok (device, false)
          | _ => Ok (device, false)
          end
      end
  end.

(** [apply_attribute]: the device, and whether it changed *)
Definition apply_attribute (device : Value) (report : Im.Attribute) (eps servers : list Z) : Answer (Value * bool) :=
  let p := Im.at_path report in
  match Im.ap_endpoint p, Im.ap_cluster p, Im.ap_attribute p, Im.at_value report with
  | Some e, Some cluster, Some attribute, Some value =>
      if bool_decide (is_Some (Im.at_status report)) || negb (has_id e eps) || bool_decide (is_Some (Im.ap_list_index p))
      then Ok (device, false)
      else
        setting ← reported_setting device e cluster attribute value;
        match setting with
        | Some (s, n) =>
            if changed device "settings" (s_id s) (value_uint n)
            then device ← put device "settings" (s_id s) (value_uint n); device ← available device; Ok (device, true)
            else Ok (device, false)
        | None => apply_capability device servers e cluster attribute value
        end
  | _, _, _, _ => Ok (device, false)
  end.

(** *** Events *)

Definition hex4 (value : Z) : string :=
  let hex := (fix go (fuel : nat) (n : Z) (out : list Z) : list Z :=
    match fuel with
    | O => out
    | S fuel => if n =? 0 then out
                else go fuel (n / 16) ((if n mod 16 <? 10 then 48 + n mod 16 else 55 + n mod 16) :: out)
    end) 8%nat value [] in
  ("0x" ++ of_bytes (repeat 48 (4 - length hex) ++ hex))%string.

Definition SWITCH_EVENTS : list string :=
  ["switch_latched"; "initial_press"; "long_press"; "short_release"; "long_release"; "multi_press_ongoing";
   "multi_press_complete"].
Definition LOCK_EVENTS : list string :=
  ["door_lock_alarm"; "door_state_change"; "lock_operation"; "lock_operation_error"; "lock_user_change"].

Definition event_name (cluster event : Z) : string :=
  let names := if cluster =? 59 then SWITCH_EVENTS else if cluster =? 257 then LOCK_EVENTS else [] in
  match names !! Z.to_nat event with
  | Some name => name
  | None => ("matter_" ++ hex4 cluster ++ "_" ++ hex4 event)%string
  end.

Definition hex_digit (d : Z) : Z := if d <? 10 then 48 + d else 87 + d.

(** The loops over the children of [value]. *)
Fixpoint value_of (node : Tlv.Node) : Answer Value :=
  match node with
  | Tlv.mk_node (Tlv.mk_element _ v) kids =>
      match v with
      | Tlv.VBool b => Ok (VBool b)
      | Tlv.Int n => Ok (value_int n)
      | Tlv.Uint n => Ok (value_uint n)
      | Tlv.Float b => float (f64_of_bits b)
      | Tlv.VString s => Ok (VString s)
      | Tlv.Bytes b => Ok (VString (of_bytes (flat_map (fun b => [hex_digit (b / 16); hex_digit (b mod 16)]) b)))
      | Tlv.VArray | Tlv.VList =>
          (fix go (l : list Tlv.Node) (out : list Value) : Answer Value :=
             match l with
             | [] => Ok (VArray out)
             | n :: l => v ← value_of n; out ← core (push out v 4096); go l out
             end) kids []
      | Tlv.Structure =>
          (fix go (l : list Tlv.Node) (index : Z) (out : Value) : Answer Value :=
             match l with
             | [] => Ok out
             | n :: l =>
                 key ← decimal (match Tlv.n_tag n with Tlv.Context t => t | _ => index end);
                 v ← value_of n;
                 out ← core (set out key v);
                 go l (index + 1) out
             end) kids 0 object
      | _ => Ok VNull
      end
  end.

(** [switch] *)
Definition switch (event : Z) : option bool :=
  if bool_decide (event ∈ [1; 2; 5]) then Some true else if bool_decide (event ∈ [3; 4; 6]) then Some false else None.

(** What a pressed or released button does: its state, and the trigger of a repeated value. *)
Definition press (device : Value) (e id : Z) (pressed : option bool) (pending : list Flow)
  : Answer (Value * option string * list Flow) :=
  match pressed with
  | None => Ok (device, None, pending)
  | Some pressed =>
      match capability device "button" e with
      | None => Ok (device, None, pending)
      | Some cap =>
          let previous := field (field device "state") cap in
          device ← put device "state" cap (VBool pressed);
          pending ← (if bool_decide (as_bool previous = Some pressed) && bool_decide (id ∈ [1; 3; 4; 6]) then
            let state := fields [("deviceId", VString (text device "id")); ("capability", VString cap);
                                 ("value", VBool pressed); ("oldValue", previous)]%string in
            tokens ← core (set state "device" (VString (text device "name")));
            core (push pending (mk_flow ("capability." ++ cap ++ (if pressed then ".on" else ".off")) tokens state) 4096)
          else Ok pending);
          Ok (device, Some cap, pending)
      end
  end.

(** [apply_event]: the device, whether it changed, and the Flows to start *)
Definition apply_event (device : Value) (ev : Im.Event) (eps : list Z) (pending : list Flow)
  : Answer (Value * bool * list Flow) :=
  let p := Im.ev_path ev in
  match Im.ep_endpoint p, Im.ep_cluster p, Im.ep_event p, Im.ev_value ev with
  | Some e, Some cluster, Some id, Some data =>
      if bool_decide (is_Some (Im.ev_status ev)) || negb (has_id e eps) then Ok (device, false, pending)
      else if match event_marker device with Some previous => Im.ev_number ev <=? previous | None => false end
      then Ok (device, false, pending)
      else
        number ← decimal (Im.ev_number ev);
        device ← put device "store" "matter.lastEventNumber" (VString number);
        let pressed := if cluster =? 59 then switch id else None in
        '(device, cap, pending) ← press device e id pressed pending;
        device ← available device;
        let state := fields [("deviceId", VString (text device "id")); ("event", VString (event_name cluster id));
                             ("cluster", VString (hex4 cluster)); ("eventId", VString (hex4 id)); ("endpoint", value_uint e)]%string in
        state ← match cap with Some cap => core (set state "capability" (VString cap)) | None => Ok state end;
        state ← match pressed with Some b => core (set state "pressed" (VBool b)) | None => Ok state end;
        v ← value_of data;
        tokens ← core (set_all state [("device", VString (text device "name")); ("eventNumber", value_uint (Im.ev_number ev));
                                      ("priority", value_uint (Im.ev_priority ev)); ("data", v)]%string);
        pending ← core (push pending (mk_flow "matter_event" tokens state) 4096);
        Ok (device, true, pending)
  | _, _, _, _ => Ok (device, false, pending)
  end.

(** *** The chunks of a report ([interaction.rs]) *)

Record Reports : Type := mk_reports { rs_chunks : list (list Z); rs_bytes : Z; rs_subscription : option Z }.
Definition Reports_default : Reports := mk_reports [] 0 None.

Definition Reports_push (r : Reports) (bytes : list Z) : Answer Reports :=
  let size := Z.of_nat (length bytes) in
  if saturating_sub 65535 (rs_bytes r) <? size then fails "Matter report exceeds 64 KiB"
  else chunks ← core (push (rs_chunks r) bytes 64); Ok (mk_reports chunks (rs_bytes r + size) (rs_subscription r)).

(** [Reports::iter]: the reports of the chunks, read as the loop comes to them *)
Definition reports_of (r : Reports) : list (Answer Im.Report) := map Im.Report_parse (rs_chunks r).

Fixpoint apply_attributes (l : list Im.Attribute) (eps servers : list Z) (device : Value) (ch : bool) : Answer (Value * bool) :=
  match l with
  | [] => Ok (device, ch)
  | a :: l => '(device, c) ← apply_attribute device a eps servers; apply_attributes l eps servers device (ch || c)
  end.

Fixpoint attribute_reports (l : list (Answer Im.Report)) (eps servers : list Z) (device : Value) (ch : bool)
  : Answer (Value * bool) :=
  match l with
  | [] => Ok (device, ch)
  | r :: l =>
      report ← r;
      '(device, ch) ← apply_attributes (Im.rp_attributes report) eps servers device ch;
      attribute_reports l eps servers device ch
  end.

Fixpoint apply_events (l : list Im.Event) (eps : list Z) (device : Value) (ch : bool) (pending : list Flow)
  : Answer (Value * bool * list Flow) :=
  match l with
  | [] => Ok (device, ch, pending)
  | e :: l =>
      '(device, c, pending) ← apply_event device e eps pending;
      apply_events l eps device (ch || c) pending
  end.

Fixpoint event_reports (l : list (Answer Im.Report)) (eps : list Z) (device : Value) (ch : bool) (pending : list Flow)
  : Answer (Value * bool * list Flow) :=
  match l with
  | [] => Ok (device, ch, pending)
  | r :: l =>
      report ← r;
      '(device, ch, pending) ← apply_events (Im.rp_events report) eps device ch pending;
      event_reports l eps device ch pending
  end.

(** [apply] *)
Definition apply (device : Value) (reports : Reports) : Answer (option Update) :=
  eps ← endpoints device;
  servers ← ids (field (field device "store") "matter.serverClusters");
  '(device, ch) ← attribute_reports (reports_of reports) eps servers device false;
  '(device, ch, events) ← event_reports (reports_of reports) eps device ch [];
  Ok (if ch : bool then Some (mk_update device events) else None).

(** The chunks of the results of commands. *)
Record Invoked : Type := mk_invoked { iv_chunks : list (list Z); iv_bytes : Z }.

Definition Invoked_push (i : Invoked) (bytes : list Z) : Answer Invoked :=
  let size := Z.of_nat (length bytes) in
  if saturating_sub 65535 (iv_bytes i) <? size then fails "Matter invoke result exceeds 64 KiB"
  else chunks ← core (push (iv_chunks i) bytes 64); Ok (mk_invoked chunks (iv_bytes i + size)).

(** [Invoked::iter] *)
Definition invoked_of (i : Invoked) : list (Answer Im.InvokeResponse) := map Im.InvokeResponse_parse (iv_chunks i).

(** [watchdog] *)
Definition watchdog (maximum : Z) : Z := Z.max (maximum * 1500 + 5000) 10000.

(** ** Requests ([commands.rs]) *)

Record Planned : Type := mk_planned { pl_command : Command; pl_values : Value }.
Record Plan : Type := mk_plan { pn_commands : list Planned; pn_errors : Value }.

(** [rank] *)
Definition cap_rank (cap : string) (value : Value) : Z :=
  if negb (base cap =? "onoff")%string then 1 else if bool_decide (as_bool value = Some true) then 0 else 2.

(** [normalized] *)
Definition normalized (cap : string) (value : Value) : Answer Value :=
  if bool_decide (base cap ∈ ["dim"; "light_hue"; "light_saturation"]%string)
  then match number_of value with Some n => float n | None => Ok value end
  else Ok value.

(** [planned] *)
Fixpoint applied (caps : list string) (values out : Value) : Answer Value :=
  match caps with
  | [] => Ok out
  | cap :: caps => v ← normalized cap (field values cap); out ← core (set out cap v); applied caps values out
  end.
Definition planned (c : Command) (caps : list string) (values : Value) : Answer Planned :=
  v ← applied caps values object; Ok (mk_planned c v).

(** [failure]: the errors with the reason for these capabilities *)
Definition failure (errors : Value) (caps : list string) (e : Tlv.Error) : Answer Value :=
  match e with
  | Tlv.Core e => Err (Tlv.Core e)
  | _ => core (set_all errors (map (fun cap => (cap, VString (Tlv.error_text e))) caps))
  end.

#[local] Existing Instance Im.CommandPath_eq_dec.

(** [Planned::invoke], once the exchange has ended: how many results there are, each a success of
    the command that was sent *)
Fixpoint count_results (path : Im.CommandPath) (l : list Im.InvokeResult) (count : Z) : Answer Z :=
  match l with
  | [] => Ok count
  | r :: l =>
      _ ← Im.Status_result (Im.ir_status r);
      if bool_decide (Im.ir_path r = path) then count_results path l (count + 1)
      else fails "Matter command response path differs"
  end.

Fixpoint count_chunks (path : Im.CommandPath) (l : list (Answer Im.InvokeResponse)) (count : Z) : Answer Z :=
  match l with
  | [] => Ok count
  | c :: l =>
      chunk ← c;
      count ← count_results path (Im.is_results chunk) count;
      count_chunks path l count
  end.

Definition acknowledge (p : Planned) (i : Invoked) : Answer unit :=
  count ← count_chunks (c_path (pl_command p)) (invoked_of i) 0;
  if count =? 1 then Ok tt else fails "Matter command was not acknowledged exactly once".

(** Power on first, power off last, and by name between. *)
Definition request_leb (values : Value) (a b : string) : bool :=
  let ra := cap_rank a (field values a) in
  let rb := cap_rank b (field values b) in
  (ra <? rb) || (ra =? rb) && str_leb a b.

Fixpoint insert_cap (leb : string -> string -> bool) (x : string) (l : list string) : list string :=
  match l with
  | [] => [x]
  | y :: l' => if leb x y then x :: l else y :: insert_cap leb x l'
  end.

Section Planning.
Variables (device values : Value) (all : list string) (servers : list Z).

(** A requested capability of the same endpoint. *)
Definition partner (e : Z) (b : string) : option string :=
  List.find (fun c => (base c =? b)%string && (endpoint device c =? e)) all.

Record Progress : Type := mk_progress { pg_covered : list string; pg_commands : list Planned; pg_errors : Value }.

Fixpoint push_caps (l covered : list string) : Answer (list string) :=
  match l with [] => Ok covered | c :: l => covered ← core (push covered c 256); push_caps l covered end.

Definition cover (caps : list string) (g : Progress) : Answer Progress :=
  covered ← push_caps caps (pg_covered g);
  Ok (mk_progress covered (pg_commands g) (pg_errors g)).

Definition add_command (c : Command) (caps : list string) (g : Progress) : Answer Progress :=
  p ← planned c caps values;
  commands ← core (push (pg_commands g) p 256);
  Ok (mk_progress (pg_covered g) commands (pg_errors g)).

Definition add_failure (caps : list string) (e : Tlv.Error) (g : Progress) : Answer Progress :=
  errors ← failure (pg_errors g) caps e; Ok (mk_progress (pg_covered g) (pg_commands g) errors).

(** Switching on and dimming at once, where both are asked for; [None] when they are not. *)
Definition power_and_dim (cap : string) (e : Z) (g : Progress) : Answer (option Progress) :=
  if (base cap =? "onoff")%string && bool_decide (as_bool (field values cap) = Some true) then
    match partner e "dim" with
    | Some dim =>
        if match number_of (field values dim) with Some n => f_ltb zero n | None => false end
        then match for_capability [] [] "dim" with
             | Some m =>
                 match command m e (field values dim) with
                 | Ok c => g ← add_command c [cap; dim] g; g ← cover [cap; dim] g; Ok (Some g)
                 | Err (Tlv.Core e) => Err (Tlv.Core e)
                 | Err _ => Ok None
                 end
             | None => Ok None
             end
        else Ok None
    | None => Ok None
    end
  else Ok None.

(** Hue and saturation at once. *)
Definition color (cap : string) (e : Z) (g : Progress) : Answer (option Progress) :=
  if (base cap =? "light_hue")%string then
    match partner e "light_saturation" with
    | Some saturation =>
        g ← match hue_saturation e (field values cap) (field values saturation) with
            | Ok c => add_command c [cap; saturation] g
            | Err err => add_failure [cap; saturation] err g
            end;
        g ← cover [cap; saturation] g; Ok (Some g)
    | None => Ok None
    end
  else Ok None.

Definition plan_cap (cap : string) (g : Progress) : Answer Progress :=
  if bool_decide (cap ∈ pg_covered g) then Ok g
  else
    let e := endpoint device cap in
    o ← power_and_dim cap e g;
    match o with
    | Some g => Ok g
    | None =>
        o ← color cap e g;
        match o with
        | Some g => Ok g
        | None =>
            g ← cover [cap] g;
            t ← types device e;
            match (m ← ok_or (for_capability t servers cap) (Tlv.Invalid "Matter capability is read-only or unsupported");
                   command m e (field values cap)) with
            | Ok c => add_command c [cap] g
            | Err err => add_failure [cap] err g
            end
        end
    end.

Fixpoint plan_all (caps : list string) (g : Progress) : Answer Progress :=
  match caps with
  | [] => Ok g
  | cap :: caps => g ← plan_cap cap g; plan_all caps g
  end.
End Planning.

(** [plan] *)
Definition plan (device values : Value) : Answer Plan :=
  o ← ok_or (as_object values) (Tlv.Invalid "Matter command values must be an object");
  caps ← core (push_all Ok 256 (map fst o) []);
  let caps := fold_right (insert_cap (request_leb values)) [] caps in
  servers ← ids (field (field device "store") "matter.serverClusters");
  g ← plan_all device values caps servers caps (mk_progress [] [] object);
  Ok (mk_plan (pg_commands g) (pg_errors g)).

(** [names] *)
Definition names (p : Planned) : Answer (list string) :=
  o ← ok_or (as_object (pl_values p)) (Tlv.Invalid "invalid planned values"); Ok (map fst o).

(** ** Decimal numbers are read back *)

Lemma digit_between c : between 48 c 57 = true -> digit_of 10 c = Some (c - 48).
Proof.
  unfold digit_of. intros H. rewrite H. unfold between in H. destruct (Z.ltb_spec (c - 48) 10); [done|lia].
Qed.

Lemma digits_val_ge l : forall n, 0 <= n -> Forall (fun c => between 48 c 57 = true) l -> n <= digits_val n l.
Proof.
  induction l as [|c l IH]; intros n Hn Hl; [done|]. apply Forall_cons in Hl as [Hc Hl]. unfold between in Hc.
  change (digits_val n (c :: l)) with (digits_val (n * 10 + (c - 48)) l). specialize (IH (n * 10 + (c - 48)) ltac:(lia) Hl). lia.
Qed.

Lemma digits_of_val max l : forall n, Forall (fun c => between 48 c 57 = true) l -> 0 <= n ->
  digits_val n l <= max -> digits_of 10 max l n = Some (digits_val n l).
Proof.
  induction l as [|c l IH]; intros n Hl Hn Hm; [done|]. apply Forall_cons in Hl as [Hc Hl].
  cbn [digits_of]. rewrite digit_between by done. cbn [mbind option_bind]. unfold between in Hc.
  change (digits_val n (c :: l)) with (digits_val (n * 10 + (c - 48)) l) in *.
  pose proof (digits_val_ge l (n * 10 + (c - 48)) ltac:(lia) Hl).
  destruct (Z.leb_spec (n * 10 + (c - 48)) max); [|lia]. apply IH; [done|lia|done].
Qed.

Lemma decimal_read n max s : 0 <= n <= max -> decimal n = Ok s -> parse_radix 10 max s = Some n.
Proof.
  intros Hn E. unfold decimal, core, Templates.to_string, value_uint in E. cbn in E. unfold show_Z in E.
  destruct (Z.ltb_spec n 0); [lia|]. injection E as <-. unfold parse_radix.
  rewrite as_of_bytes by (apply JsonRoundtrip.show_nat_bytes; lia).
  pose proof (show_nat_digits n ltac:(lia)) as Hd. pose proof (show_nat_val n ltac:(lia)) as Hv.
  destruct (JsonRoundtrip.show_nat_head n ltac:(lia)) as (d & ds & E & Hr). rewrite E in *.
  assert (match d :: ds with [] => None | [43] => None | 43 :: l => digits_of 10 max l 0 | l => digits_of 10 max l 0 end
    = digits_of 10 max (d :: ds) 0) as H'.
  { destruct d as [|p|p]; try lia. do 6 (destruct p as [p|p|]; try reflexivity); exfalso; lia. }
  transitivity (digits_of 10 max (d :: ds) 0); [exact H'|]. rewrite digits_of_val; [by rewrite Hv|done|lia|lia].
Qed.

(** ** The marker of the last event *)

Lemma core_Ok {A} (r : Result A) a : core r = Ok a -> r = Ok a.
Proof. destruct r; [|done]. by intros [= ->]. Qed.

Lemma field_set_eq v k w v' : core (set v k w) = Ok v' -> field v' k = w.
Proof. intros H%core_Ok. unfold field, get_null. by rewrite (get_set_eq _ _ _ _ H). Qed.

Lemma field_set_ne v k k' w v' : core (set v k w) = Ok v' -> k <> k' -> field v' k' = field v k'.
Proof. intros H%core_Ok Hne. unfold field, get_null. by rewrite (get_set_ne _ _ _ _ _ H Hne). Qed.

Lemma put_other device c k v device' key : put device c k v = Ok device' -> key <> c -> field device' key = field device key.
Proof.
  unfold put. destruct (core (set (object_of _) k v)) as [out|]; [|done]. cbn [mbind result_bind].
  intros H Hne. by apply (field_set_ne _ _ _ _ _ H).
Qed.

Lemma available_store device device' : available device = Ok device' -> field device' "store" = field device "store".
Proof.
  intros H%core_Ok. unfold field, get_null.
  rewrite (StoreDoc.set_all_get_ne _ _ _ _ H); [done|]. cbn. intros Hin. repeat (apply elem_of_cons in Hin as [[=]|Hin]). by apply elem_of_nil in Hin.
Qed.

Lemma marker_put device n s device' :
  is_u64 n -> decimal n = Ok s -> put device "store" "matter.lastEventNumber" (VString s) = Ok device' ->
  event_marker device' = Some n.
Proof.
  intros Hn Hs. unfold put. destruct (core (set (object_of _) _ _)) as [out|] eqn:E; [|done]. cbn [mbind result_bind].
  intros H. unfold event_marker. rewrite (field_set_eq _ _ _ _ H). unfold text.
  rewrite (get_set_eq _ _ _ _ (core_Ok _ _ E)). cbn. by apply decimal_read.
Qed.

Lemma marker_same device device' : field device' "store" = field device "store" -> event_marker device' = event_marker device.
Proof. unfold event_marker. by intros ->. Qed.

(** ** Attributes leave the marker alone *)

Lemma apply_attribute_store device a eps servers device' c :
  apply_attribute device a eps servers = Ok (device', c) -> field device' "store" = field device "store".
Proof.
  assert (forall d k key v d1 d2, put d k key v = Ok d1 -> available d1 = Ok d2 -> "store"%string <> k ->
    field d2 "store" = field d "store") as Hput.
  { intros d k key v d1 d2 H1 H2 Hne. rewrite (available_store _ _ H2). by apply (put_other _ _ _ _ _ _ H1). }
  unfold apply_attribute. destruct (Im.ap_endpoint _) as [e|]; [|by intros [= <- _]].
  destruct (Im.ap_cluster _) as [cl|]; [|by intros [= <- _]]. destruct (Im.ap_attribute _) as [at_|]; [|by intros [= <- _]].
  destruct (Im.at_value a) as [v|]; [|by intros [= <- _]]. destruct (_ || _); [by intros [= <- _]|].
  destruct (reported_setting device e cl at_ v) as [[[s n]|]|]; [| |done]; cbn [mbind result_bind].
  - destruct (changed _ _ _ _); [|by intros [= <- _]]. destruct (put _ _ _ _) as [d1|] eqn:E1; [|done]. cbn [mbind result_bind].
    destruct (available d1) as [d2|] eqn:E2; [|done]. cbn [mbind result_bind]. intros [= <- _]. by apply (Hput _ _ _ _ _ _ E1 E2).
  - unfold apply_capability. destruct (types _ _) as [t|]; [|done]. cbn [mbind result_bind].
    destruct (for_report _ _ _ _) as [m|]; [|by intros [= <- _]]. destruct (capability _ _ _) as [cap|]; [|by intros [= <- _]].
    destruct (decode m v) as [[w|]|[]]; try done; try (by intros [= <- _]).
    destruct (changed _ _ _ _); [|by intros [= <- _]]. destruct (put _ _ _ _) as [d1|] eqn:E1; [|done]. cbn [mbind result_bind].
    destruct (available d1) as [d2|] eqn:E2; [|done]. cbn [mbind result_bind]. intros [= <- _]. by apply (Hput _ _ _ _ _ _ E1 E2).
Qed.

Lemma apply_attributes_store l eps servers : forall device ch device' ch',
  apply_attributes l eps servers device ch = Ok (device', ch') -> field device' "store" = field device "store".
Proof.
  induction l as [|a l IH]; intros device ch device' ch'; cbn [apply_attributes]; [by intros [= <- _]|].
  destruct (apply_attribute _ _ _ _) as [[d c]|] eqn:E; [|done]. cbn [mbind result_bind]. intros H.
  rewrite (IH _ _ _ _ H). by apply (apply_attribute_store _ _ _ _ _ _ E).
Qed.

Lemma attribute_reports_store l eps servers : forall device ch device' ch',
  attribute_reports l eps servers device ch = Ok (device', ch') -> field device' "store" = field device "store".
Proof.
  induction l as [|r l IH]; intros device ch device' ch'; cbn [attribute_reports]; [by intros [= <- _]|].
  destruct r as [report|]; [|done]. cbn [mbind result_bind].
  destruct (apply_attributes _ _ _ _ _) as [[d c]|] eqn:E; [|done]. cbn [mbind result_bind]. intros H.
  rewrite (IH _ _ _ _ H). by apply (apply_attributes_store _ _ _ _ _ _ _ E).
Qed.

(** ** An event starts its Flows once *)

(** What one event starts: perhaps the trigger of a button, and the event itself. *)
Definition burst (n : Z) (l : list Flow) : Prop :=
  exists before tokens state, l = before ++ [mk_flow "matter_event" tokens state] /\ uint tokens "eventNumber" = n
  /\ (before = [] \/ exists name t s, before = [mk_flow ("capability." ++ name) t s]).

(** Flows started by the events [ns], in this order. *)
Inductive bursts : list Z -> list Flow -> Prop :=
| bursts_nil : bursts [] []
| bursts_cons n ns l m : burst n l -> bursts ns m -> bursts (n :: ns) (l ++ m).

Lemma bursts_app ns ms l m : bursts ns l -> bursts ms m -> bursts (ns ++ ms) (l ++ m).
Proof. induction 1 as [|n ns b l Hb _ IH]; [done|]. intros Hm. cbn. rewrite <- app_assoc. by apply bursts_cons, IH. Qed.

(** The events of [ns] come after the one a record remembers, each after the one before, and the
    last is remembered. *)
Inductive numbered : option Z -> list Z -> option Z -> Prop :=
| numbered_nil m : numbered m [] m
| numbered_cons m n ns m' : (forall k, m = Some k -> k < n) -> numbered (Some n) ns m' -> numbered m (n :: ns) m'.

Lemma numbered_app m ns m' ms m'' : numbered m ns m' -> numbered m' ms m'' -> numbered m (ns ++ ms) m''.
Proof. induction 1 as [|m n ns m' Hn _ IH]; [done|]. intros H. cbn. constructor; [done|auto]. Qed.

Lemma numbered_sorted m ns m' : numbered m ns m' -> StronglySorted Z.lt ns /\ forall k, m = Some k -> Forall (Z.lt k) ns.
Proof.
  induction 1 as [|m n ns m' Hn _ [IH1 IH2]]; [split; [constructor|intros; constructor]|]. specialize (IH2 n eq_refl).
  split; [by constructor|]. intros k Hk. specialize (Hn k Hk). constructor; [done|].
  eapply Forall_impl; [exact IH2|]. cbn. lia.
Qed.

Lemma press_ok device e id b pending d cap p :
  press device e id b pending = Ok (d, cap, p) ->
  field d "store" = field device "store"
  /\ exists l, p = pending ++ l /\ (l = [] \/ exists name t s, l = [mk_flow ("capability." ++ name) t s]).
Proof.
  unfold press. destruct b as [b|]; [|intros [= <- _ <-]; split; [done|exists []; rewrite app_nil_r; auto]].
  destruct (capability device "button" e) as [c|]; [|intros [= <- _ <-]; split; [done|exists []; rewrite app_nil_r; auto]].
  destruct (put device "state" c (VBool b)) as [d1|] eqn:E1; [|done]. cbn [mbind result_bind].
  pose proof (put_other _ _ _ _ _ "store"%string E1 ltac:(done)) as Hs.
  destruct (_ && _); cbn [mbind result_bind].
  - destruct (core (set _ "device" _)) as [t|]; [|done]. cbn [mbind result_bind]. unfold push.
    destruct (_ <=? _); [done|]. cbn [core Tlv.from_core mbind result_bind]. intros [= <- _ <-]. split; [done|].
    eexists. split; [reflexivity|]. right. by eexists _, _, _.
  - intros [= <- _ <-]. split; [done|]. exists []. rewrite app_nil_r. auto.
Qed.

Lemma apply_event_ok device ev eps pending d ch p :
  is_u64 (Im.ev_number ev) -> apply_event device ev eps pending = Ok (d, ch, p) ->
  exists ns l, numbered (event_marker device) ns (event_marker d) /\ bursts ns l /\ p = pending ++ l.
Proof.
  intros Hn. assert (forall d0 : Value, exists ns l, numbered (event_marker d0) ns (event_marker d0) /\ bursts ns l
    /\ pending = pending ++ l) as Hno.
  { intros d0. exists [], []. rewrite app_nil_r. repeat split; constructor. }
  unfold apply_event. destruct (Im.ep_endpoint _) as [e|]; [|intros [= <- <- <-]; apply Hno].
  destruct (Im.ep_cluster _) as [cl|]; [|intros [= <- <- <-]; apply Hno]. destruct (Im.ep_event _) as [id|]; [|intros [= <- <- <-]; apply Hno].
  destruct (Im.ev_value ev) as [data|]; [|intros [= <- <- <-]; apply Hno]. destruct (_ || _); [intros [= <- <- <-]; apply Hno|].
  destruct (match event_marker device with Some previous => _ | None => _ end) eqn:Em; [intros [= <- <- <-]; apply Hno|].
  destruct (decimal (Im.ev_number ev)) as [s|] eqn:Es; [|done]. cbn [mbind result_bind].
  destruct (put device "store" _ _) as [d1|] eqn:E1; [|done]. cbn [mbind result_bind].
  pose proof (marker_put _ _ _ _ Hn Es E1) as Hm.
  destruct (press d1 e id _ pending) as [[[d2 cap] p2]|] eqn:E2; [|done]. cbn [mbind result_bind].
  destruct (press_ok _ _ _ _ _ _ _ _ E2) as (Hs2 & l & -> & Hl).
  destruct (available d2) as [d3|] eqn:E3; [|done]. cbn [mbind result_bind].
  destruct (match cap with Some cap => _ | None => _ end) as [s1|]; [|done]. cbn [mbind result_bind].
  destruct (match (if cl =? 59 then switch id else None) with Some b => _ | None => _ end) as [s2|]; [|done]. cbn [mbind result_bind].
  destruct (value_of data) as [v|]; [|done]. cbn [mbind result_bind].
  destruct (core (set_all s2 _)) as [tokens|] eqn:E4; [|done]. cbn [mbind result_bind]. unfold push.
  destruct (_ <=? _); [done|]. cbn [core Tlv.from_core mbind result_bind]. intros [= <- <- <-].
  exists [Im.ev_number ev], (l ++ [mk_flow "matter_event" tokens s2]). split; [|split].
  - rewrite (marker_same d1 d3) by (rewrite (available_store _ _ E3); done). rewrite Hm.
    constructor; [|constructor]. intros k Hk. rewrite Hk in Em. lia.
  - rewrite <- (app_nil_r (l ++ _)). constructor; [|constructor]. exists l, tokens, s2. split; [done|]. split; [|done].
    apply core_Ok in E4. unfold uint.
    rewrite (StoreDoc.set_all_get _ _ _ "eventNumber" (value_uint (Im.ev_number ev)) E4); [done| |].
    + cbn. repeat (constructor; [intros Hin; repeat (apply elem_of_cons in Hin as [[=]|Hin]); by apply elem_of_nil in Hin|]). constructor.
    + cbn. right. by left.
  - by rewrite app_assoc.
Qed.

Lemma apply_events_ok l eps : forall device ch pending d ch' p,
  Forall (fun e => is_u64 (Im.ev_number e)) l -> apply_events l eps device ch pending = Ok (d, ch', p) ->
  exists ns m, numbered (event_marker device) ns (event_marker d) /\ bursts ns m /\ p = pending ++ m.
Proof.
  induction l as [|e l IH]; intros device ch pending d ch' p Hn; cbn [apply_events].
  - intros [= <- <- <-]. exists [], []. rewrite app_nil_r. repeat split; constructor.
  - apply Forall_cons in Hn as [He Hn]. destruct (apply_event device e eps pending) as [[[d1 c] p1]|] eqn:E; [|done].
    cbn [mbind result_bind]. intros H. destruct (apply_event_ok _ _ _ _ _ _ _ He E) as (ns & m & H1 & H2 & ->).
    destruct (IH _ _ _ _ _ _ Hn H) as (ns' & m' & H1' & H2' & ->).
    exists (ns ++ ns'), (m ++ m'). rewrite <- app_assoc. split; [by eapply numbered_app|]. split; [by apply bursts_app|done].
Qed.

Lemma event_reports_ok l eps : forall device ch pending d ch' p,
  Forall (fun r => forall report, r = Ok report -> Forall (fun e => is_u64 (Im.ev_number e)) (Im.rp_events report)) l ->
  event_reports l eps device ch pending = Ok (d, ch', p) ->
  exists ns m, numbered (event_marker device) ns (event_marker d) /\ bursts ns m /\ p = pending ++ m.
Proof.
  induction l as [|r l IH]; intros device ch pending d ch' p Hn; cbn [event_reports].
  - intros [= <- <- <-]. exists [], []. rewrite app_nil_r. repeat split; constructor.
  - apply Forall_cons in Hn as [He Hn]. destruct r as [report|]; [|done]. cbn [mbind result_bind].
    destruct (apply_events _ eps device ch pending) as [[[d1 c] p1]|] eqn:E; [|done]. cbn [mbind result_bind]. intros H.
    destruct (apply_events_ok _ _ _ _ _ _ _ _ (He _ eq_refl) E) as (ns & m & H1 & H2 & ->).
    destruct (IH _ _ _ _ _ _ Hn H) as (ns' & m' & H1' & H2' & ->).
    exists (ns ++ ns'), (m ++ m'). rewrite <- app_assoc. split; [by eapply numbered_app|]. split; [by apply bursts_app|done].
Qed.

Definition bytes_ok (r : Reports) : Prop := Forall (Forall is_byte) (rs_chunks r).

Lemma apply_ok device r u :
  bytes_ok r -> apply device r = Ok (Some u) ->
  exists ns, numbered (event_marker device) ns (event_marker (up_device u)) /\ bursts ns (up_events u).
Proof.
  intros Hb. unfold apply. destruct (endpoints device) as [eps|]; [|done]. cbn [mbind result_bind].
  destruct (ids _) as [servers|]; [|done]. cbn [mbind result_bind].
  destruct (attribute_reports _ _ _ _ _) as [[d1 c1]|] eqn:E1; [|done]. cbn [mbind result_bind].
  destruct (event_reports _ _ _ _ _) as [[[d2 c2] p]|] eqn:E2; [|done]. cbn [mbind result_bind].
  destruct c2; [|done]. intros [= <-]. cbn [up_device up_events].
  pose proof (marker_same _ _ (attribute_reports_store _ _ _ _ _ _ _ E1)) as Hm.
  destruct (event_reports_ok _ _ _ _ _ _ _ _ ltac:(
    apply Forall_map; eapply Forall_impl; [exact Hb|]; intros chunk Hc report Hr; exact (Im.report_numbers _ _ Hc Hr)) E2)
    as (ns & m & H1 & H2 & ->). rewrite Hm in H1. by exists ns.
Qed.

(** What happens to the record of a device: the reports of its node, each saved before its Flows
    start, and changes by others, which leave the remembered event alone. *)
Inductive Input : Type :=
| Received (r : Reports)
| Changed (device : Value).

Definition next_device (device : Value) (i : Input) : Value :=
  match i with
  | Received r => match apply device r with Ok (Some u) => up_device u | _ => device end
  | Changed d => d
  end.

Definition started (device : Value) (i : Input) : list Flow :=
  match i with
  | Received r => match apply device r with Ok (Some u) => up_events u | _ => [] end
  | Changed _ => []
  end.

Fixpoint all_started (device : Value) (l : list Input) : list Flow :=
  match l with [] => [] | i :: l => started device i ++ all_started (next_device device i) l end.

Fixpoint fair (device : Value) (l : list Input) : Prop :=
  match l with
  | [] => True
  | i :: l =>
      match i with Received r => bytes_ok r | Changed d => event_marker d = event_marker device end
      /\ fair (next_device device i) l
  end.

(** C37: Whatever reports arrive, cut into whatever chunks, repeated and in whatever order, and
    whoever else changes the device, every event of the device starts its Flows at most once: the
    events that start anything have growing numbers, beyond the one the record remembers at
    first, and each starts one Flow about itself and at most one about its button. *)
Theorem events_start_flows_once device l :
  fair device l ->
  exists ns, bursts ns (all_started device l) /\ StronglySorted Z.lt ns
  /\ forall m, event_marker device = Some m -> Forall (Z.lt m) ns.
Proof.
  intros Hf. enough (exists ns m, bursts ns (all_started device l) /\ numbered (event_marker device) ns m) as (ns & m & Hb & Hn).
  { exists ns. split; [done|]. by eapply numbered_sorted. }
  revert device Hf. induction l as [|i l IH]; intros device Hf; cbn [all_started].
  - exists [], (event_marker device). split; constructor.
  - destruct Hf as [Hi Hf]. destruct (IH _ Hf) as (ns & m & Hb & Hn).
    enough (exists ms, bursts ms (started device i) /\ numbered (event_marker device) ms (event_marker (next_device device i)))
      as (ms & Hb' & Hn').
    { exists (ms ++ ns), m. split; [by apply bursts_app|by eapply numbered_app]. }
    assert (forall d, exists ms, bursts ms [] /\ numbered (event_marker d) ms (event_marker d)) as Hno by (intros; exists []; split; constructor).
    destruct i as [r|d]; cbn [started next_device]; [|rewrite Hi; apply Hno].
    destruct (apply device r) as [[u|]|] eqn:E; [|apply Hno..]. destruct (apply_ok _ _ _ Hi E) as (ms & H1 & H2). by exists ms.
Qed.

(** ** Every requested capability is answered *)

Definition mentions (p : Planned) (k : string) : Prop := is_Some (get (pl_values p) k).

Lemma get_object_none k : get object k = None.
Proof. done. Qed.

(** After [set_all] the fields are those that were set and those there were. *)
Lemma set_all_is_Some kvs v v' k :
  set_all v kvs = Ok v' -> is_Some (get v' k) <-> k ∈ map fst kvs \/ is_Some (get v k).
Proof.
  revert v. induction kvs as [|[a b] kvs IH]; intros v; cbn [set_all map fst].
  - intros [= <-]. split; [auto|]. intros [H|H]; [by apply elem_of_nil in H|done].
  - destruct (set v a b) as [v1|] eqn:E; [|done]. cbn [mbind result_bind]. intros H. rewrite (IH _ H), elem_of_cons.
    destruct (String.eqb_spec k a) as [->|Hne].
    + rewrite (get_set_eq _ _ _ _ E). split; [auto|]. intros _. right. by eexists.
    + rewrite (get_set_ne _ _ _ _ _ E) by congruence. tauto.
Qed.

Lemma applied_is_Some caps values v k : forall out,
  applied caps values out = Ok v -> is_Some (get v k) <-> k ∈ caps \/ is_Some (get out k).
Proof.
  induction caps as [|c caps IH]; intros out; cbn [applied].
  - intros [= <-]. split; [auto|]. intros [H|H]; [by apply elem_of_nil in H|done].
  - destruct (normalized _ _) as [w|]; [|done]. cbn [mbind result_bind].
    destruct (core (set out c w)) as [o|] eqn:E; [|done]. cbn [mbind result_bind]. intros H. apply core_Ok in E.
    rewrite (IH _ H), elem_of_cons. destruct (String.eqb_spec k c) as [->|Hne].
    + rewrite (get_set_eq _ _ _ _ E). split; [auto|]. intros _. right. by eexists.
    + rewrite (get_set_ne _ _ _ _ _ E) by congruence. tauto.
Qed.

Lemma command_endpoint m e v c : command m e v = Ok c -> Im.cp_endpoint (c_path c) = e.
Proof.
  unfold command. destruct (command_fields m v) as [[id b]|]; [|done]. cbn [mbind result_bind].
  destruct (fields_bytes b); [|done]. by intros [= <-].
Qed.

Lemma hue_saturation_endpoint e h s c : hue_saturation e h s = Ok c -> Im.cp_endpoint (c_path c) = e.
Proof.
  unfold hue_saturation. destruct (level h); [|done]. cbn [mbind result_bind]. destruct (level s); [|done]. cbn [mbind result_bind].
  destruct (fields_bytes _); [|done]. by intros [= <-].
Qed.

Section PlanOk.
Variables (device values : Value) (all : list string) (servers : list Z).
Let rank (k : string) : Z := cap_rank k (field values k).

(** The command [p] comes before [q]: it does something that is no later in the order. *)
Definition before (p q : Planned) : Prop :=
  exists k, mentions p k /\ forall k', mentions q k' -> cap_rank k (field values k) <= cap_rank k' (field values k').

(** Covered means planned or refused; a command stays on one endpoint; the order is kept, and
    nothing so far comes after rank [r]. *)
Record progress_ok (r : Z) (g : Progress) : Prop := {
  gp_all : forall k, k ∈ pg_covered g -> k ∈ all;
  gp_covered : forall k, k ∈ pg_covered g <->
    (exists p, p ∈ pg_commands g /\ mentions p k) \/ is_Some (get (pg_errors g) k);
  gp_endpoint : forall p k, p ∈ pg_commands g -> mentions p k -> endpoint device k = Im.cp_endpoint (c_path (pl_command p));
  gp_sorted : StronglySorted before (pg_commands g);
  gp_rank : forall p, p ∈ pg_commands g -> exists k, mentions p k /\ rank k <= r
}.

Lemma push_caps_ok caps : forall l l', push_caps caps l = Ok l' -> l' = l ++ caps.
Proof.
  induction caps as [|c caps IH]; intros l l'; cbn [push_caps]; [intros [= <-]; by rewrite app_nil_r|].
  unfold push. destruct (256 <=? Z.of_nat (length l)); cbn [core Tlv.from_core mbind result_bind]; [done|].
  intros E. rewrite (IH _ _ E), <- app_assoc. done.
Qed.

Lemma cover_ok caps g g' :
  cover caps g = Ok g' -> pg_covered g' = pg_covered g ++ caps /\ pg_commands g' = pg_commands g /\ pg_errors g' = pg_errors g.
Proof.
  unfold cover. destruct (push_caps caps (pg_covered g)) as [cov|] eqn:E; [|done].
  cbn [mbind result_bind]. intros [= <-]. cbn. split; [by apply push_caps_ok|done].
Qed.

Lemma add_command_ok c caps g g' :
  add_command values c caps g = Ok g' ->
  exists p, pg_covered g' = pg_covered g /\ pg_commands g' = pg_commands g ++ [p] /\ pg_errors g' = pg_errors g
  /\ pl_command p = c /\ forall k, mentions p k <-> k ∈ caps.
Proof.
  unfold add_command, planned. destruct (applied caps values object) as [v|] eqn:E; [|done]. cbn [mbind result_bind].
  unfold push. destruct (256 <=? Z.of_nat (length (pg_commands g))); [done|]. cbn [core Tlv.from_core mbind result_bind]. intros [= <-].
  eexists. split; [done|]. split; [done|]. split; [done|]. split; [done|]. intros k. unfold mentions. cbn [pl_values].
  rewrite (applied_is_Some _ _ _ k _ E), get_object_none. split; [intros [H|[? [=]]]; done|auto].
Qed.

Lemma add_failure_ok caps e g g' :
  add_failure caps e g = Ok g' ->
  pg_covered g' = pg_covered g /\ pg_commands g' = pg_commands g
  /\ forall k, is_Some (get (pg_errors g') k) <-> k ∈ caps \/ is_Some (get (pg_errors g) k).
Proof.
  unfold add_failure. destruct (failure _ _ _) as [v|] eqn:E; [|done]. cbn [mbind result_bind]. intros [= <-].
  split; [done|]. split; [done|]. intros k. cbn [pg_errors].
  assert (core (set_all (pg_errors g) (map (fun cap => (cap, VString (Tlv.error_text e))) caps)) = Ok v) as E'.
  { by destruct e. }
  rewrite (set_all_is_Some _ _ _ k (core_Ok _ _ E')), map_map. cbn. by rewrite map_id.
Qed.

(** A command for capabilities that were asked for is one more step. *)
Lemma step_command r p caps g g2 cap :
  progress_ok r g -> r <= rank cap -> cap ∈ caps -> (forall k, k ∈ caps -> k ∈ all) ->
  (forall k, k ∈ caps -> endpoint device k = Im.cp_endpoint (c_path (pl_command p)) /\ rank cap <= rank k) ->
  (forall k, mentions p k <-> k ∈ caps) ->
  pg_covered g2 = pg_covered g ++ caps -> pg_commands g2 = pg_commands g ++ [p] -> pg_errors g2 = pg_errors g ->
  progress_ok (rank cap) g2.
Proof.
  intros [H1 H2 H3 H4 H5] Hr Hc Hall Hcaps Hm Ecov Ecom Eerr. split; rewrite ?Ecov, ?Ecom, ?Eerr.
  - intros k [H|H]%elem_of_app; auto.
  - intros k. rewrite elem_of_app, H2. split.
    + intros [[(q & Hq & Hk)|He]|Hk]; [left; exists q; by rewrite elem_of_app; auto|by right|].
      left. exists p. rewrite elem_of_app, list_elem_of_singleton. split; [by right|by apply Hm].
    + intros [(q & [Hq|Hq%list_elem_of_singleton]%elem_of_app & Hk)|He]; [left; left; by exists q| |by left; right].
      right. subst q. by apply Hm.
  - intros q k [Hq|Hq%list_elem_of_singleton]%elem_of_app Hk; [by apply H3|]. subst q. by apply Hcaps, Hm.
  - apply sorting.StronglySorted_app_2; [|done|by repeat constructor]. intros q q' Hq ->%list_elem_of_singleton.
    destruct (H5 q Hq) as (k & Hk & Hle). exists k. split; [done|]. intros k' Hk'%Hm. destruct (Hcaps k' Hk') as [_ Hle'].
    unfold rank in *. lia.
  - intros q [Hq|Hq%list_elem_of_singleton]%elem_of_app.
    + destruct (H5 q Hq) as (k & Hk & Hle). exists k. split; [done|lia].
    + subst q. exists cap. split; [by apply Hm|lia].
Qed.

Lemma step_failure r caps g g2 cap :
  progress_ok r g -> r <= rank cap -> (forall k, k ∈ caps -> k ∈ all) ->
  (forall k, is_Some (get (pg_errors g2) k) <-> k ∈ caps \/ is_Some (get (pg_errors g) k)) ->
  pg_covered g2 = pg_covered g ++ caps -> pg_commands g2 = pg_commands g ->
  progress_ok (rank cap) g2.
Proof.
  intros [H1 H2 H3 H4 H5] Hr Hall He Ecov Ecom. split; rewrite ?Ecov, ?Ecom; try done.
  - intros k [H|H]%elem_of_app; auto.
  - intros k. rewrite elem_of_app, H2, He. tauto.
  - intros p Hp. destruct (H5 p Hp) as (k & Hk & Hle). exists k. split; [done|lia].
Qed.

Lemma progress_later r r' g : progress_ok r g -> r <= r' -> progress_ok r' g.
Proof.
  intros [H1 H2 H3 H4 H5] Hr. split; try done. intros p Hp. destruct (H5 p Hp) as (k & Hk & Hle). exists k. split; [done|lia].
Qed.

(** [g'] is [g] after the capability [cap] and perhaps others. *)
Definition advanced (cap : string) (g g' : Progress) : Prop :=
  progress_ok (rank cap) g' /\ cap ∈ pg_covered g' /\ forall k, k ∈ pg_covered g -> k ∈ pg_covered g'.

Lemma advanced_of cap caps g g' :
  progress_ok (rank cap) g' -> cap ∈ caps -> pg_covered g' = pg_covered g ++ caps -> advanced cap g g'.
Proof. intros H Hc E. split; [done|]. rewrite E. split; [|intros k Hk]; rewrite elem_of_app; auto. Qed.

Lemma partner_ok e b c : partner device all e b = Some c -> c ∈ all /\ base c = b /\ endpoint device c = e.
Proof.
  intros [Hin H]%find_some. apply andb_true_iff in H as [Hb%String.eqb_eq He%Z.eqb_eq]. split; [by apply list_elem_of_In|done].
Qed.

Lemma rank_base k b : base k = b -> b <> "onoff"%string -> rank k = 1.
Proof. unfold rank, cap_rank. intros -> Hb. apply String.eqb_neq in Hb. by rewrite Hb. Qed.

Lemma power_and_dim_ok r cap g g' :
  progress_ok r g -> r <= rank cap -> cap ∈ all ->
  power_and_dim device values all cap (endpoint device cap) g = Ok (Some g') -> advanced cap g g'.
Proof.
  intros Hg Hr Hin. unfold power_and_dim. destruct (_ && _) eqn:Eb; [|done].
  apply andb_true_iff in Eb as [Eb%String.eqb_eq Eon].
  destruct (partner device all (endpoint device cap) "dim") as [dim|] eqn:Ep; [|done].
  destruct (partner_ok _ _ _ Ep) as (Hd & Hb & He). destruct (match number_of _ with Some n => _ | None => _ end); [|done].
  destruct (for_capability [] [] "dim") as [m|]; [|done].
  destruct (command m (endpoint device cap) (field values dim)) as [c|[]] eqn:Ec; try done.
  destruct (add_command values c [cap; dim] g) as [g1|] eqn:E1; [|done]. cbn [mbind result_bind].
  destruct (cover [cap; dim] g1) as [g2|] eqn:E2; [|done]. cbn [mbind result_bind]. intros [= <-].
  destruct (add_command_ok _ _ _ _ E1) as (p & A1 & A2 & A3 & A4 & A5). destruct (cover_ok _ _ _ E2) as (C1 & C2 & C3).
  apply (advanced_of cap [cap; dim]); [|left|by rewrite C1, A1].
  apply (step_command r p [cap; dim] g); try done; [left| | |by rewrite C1, A1|by rewrite C2|by rewrite C3].
  - intros k [->|[->|[]%elem_of_nil]%elem_of_cons]%elem_of_cons; done.
  - rewrite A4, (command_endpoint _ _ _ _ Ec).
    assert (rank cap = 0) as H0 by (unfold rank, cap_rank; rewrite Eb; by rewrite Eon).
    pose proof (rank_base dim "dim" Hb ltac:(done)) as H1.
    intros k [->|[->|[]%elem_of_nil]%elem_of_cons]%elem_of_cons; (split; [done|lia]).
Qed.

Lemma color_ok r cap g g' :
  progress_ok r g -> r <= rank cap -> cap ∈ all ->
  color device values all cap (endpoint device cap) g = Ok (Some g') -> advanced cap g g'.
Proof.
  intros Hg Hr Hin. unfold color. destruct (String.eqb_spec (base cap) "light_hue") as [Eb|]; [|done].
  destruct (partner device all (endpoint device cap) "light_saturation") as [sat|] eqn:Ep; [|done].
  destruct (partner_ok _ _ _ Ep) as (Hd & Hb & He).
  assert (forall k, k ∈ [cap; sat] -> k ∈ all) as Hall by (intros k [->|[->|[]%elem_of_nil]%elem_of_cons]%elem_of_cons; done).
  destruct (hue_saturation _ _ _) as [c|err] eqn:Ec.
  - destruct (add_command values c [cap; sat] g) as [g1|] eqn:E1; [|done]. cbn [mbind result_bind].
    destruct (cover [cap; sat] g1) as [g2|] eqn:E2; [|done]. cbn [mbind result_bind]. intros [= <-].
    destruct (add_command_ok _ _ _ _ E1) as (p & A1 & A2 & A3 & A4 & A5). destruct (cover_ok _ _ _ E2) as (C1 & C2 & C3).
    apply (advanced_of cap [cap; sat]); [|left|by rewrite C1, A1].
    apply (step_command r p [cap; sat] g); try done; [left| |by rewrite C1, A1|by rewrite C2|by rewrite C3].
    rewrite A4, (hue_saturation_endpoint _ _ _ _ Ec).
    pose proof (rank_base cap _ Eb ltac:(done)). pose proof (rank_base sat _ Hb ltac:(done)).
    intros k [->|[->|[]%elem_of_nil]%elem_of_cons]%elem_of_cons; (split; [done|lia]).
  - destruct (add_failure [cap; sat] err g) as [g1|] eqn:E1; [|done]. cbn [mbind result_bind].
    destruct (cover [cap; sat] g1) as [g2|] eqn:E2; [|done]. cbn [mbind result_bind]. intros [= <-].
    destruct (add_failure_ok _ _ _ _ E1) as (A1 & A2 & A3). destruct (cover_ok _ _ _ E2) as (C1 & C2 & C3).
    apply (advanced_of cap [cap; sat]); [|left|by rewrite C1, A1].
    apply (step_failure r [cap; sat] g); try done; [by rewrite C3|by rewrite C1, A1|by rewrite C2].
Qed.

Lemma plan_cap_ok r cap g g' :
  progress_ok r g -> r <= rank cap -> cap ∈ all -> plan_cap device values all servers cap g = Ok g' -> advanced cap g g'.
Proof.
  intros Hg Hr Hin. unfold plan_cap. case_bool_decide as Hc.
  { intros [= <-]. split; [by eapply progress_later|done]. }
  destruct (power_and_dim _ _ _ cap _ g) as [[g1|]|] eqn:E1; [| |done]; cbn [mbind result_bind].
  { intros [= <-]. by apply (power_and_dim_ok r). }
  destruct (color _ _ _ cap _ g) as [[g1|]|] eqn:E2; [| |done]; cbn [mbind result_bind].
  { intros [= <-]. by apply (color_ok r). }
  destruct (cover [cap] g) as [g1|] eqn:E3; [|done]. cbn [mbind result_bind].
  destruct (types device _) as [t|]; [|done]. cbn [mbind result_bind]. destruct (cover_ok _ _ _ E3) as (C1 & C2 & C3).
  assert (forall k, k ∈ [cap] -> k = cap) as Hone by (intros k ->%list_elem_of_singleton; done).
  destruct (ok_or _ _) as [m|]; cbn [mbind result_bind]; [destruct (command m _ _) as [c|err] eqn:Ec|].
  - intros E4. destruct (add_command_ok _ _ _ _ E4) as (p & A1 & A2 & A3 & A4 & A5).
    apply (advanced_of cap [cap]); [|by left|by rewrite A1]. apply (step_command r p [cap] g); try done;
      [by left| | |by rewrite A1|by rewrite A2, C2|by rewrite A3].
    + intros k Hk. by rewrite (Hone k Hk).
    + intros k Hk. rewrite (Hone k Hk), A4, (command_endpoint _ _ _ _ Ec). split; [done|lia].
  - intros E4. destruct (add_failure_ok _ _ _ _ E4) as (A1 & A2 & A3).
    apply (advanced_of cap [cap]); [|by left|by rewrite A1]. apply (step_failure r [cap] g); try done;
      [intros k Hk; by rewrite (Hone k Hk)|by rewrite <- C3|by rewrite A1|by rewrite A2].
  - intros E4. destruct (add_failure_ok _ _ _ _ E4) as (A1 & A2 & A3).
    apply (advanced_of cap [cap]); [|by left|by rewrite A1]. apply (step_failure r [cap] g); try done;
      [intros k Hk; by rewrite (Hone k Hk)|by rewrite <- C3|by rewrite A1|by rewrite A2].
Qed.

Lemma plan_all_ok caps : forall r g g',
  progress_ok r g -> StronglySorted (fun a b => rank a <= rank b) caps -> Forall (fun k => r <= rank k) caps ->
  (forall k, k ∈ caps -> k ∈ all) -> plan_all device values all servers caps g = Ok g' ->
  (exists r', progress_ok r' g') /\ (forall k, k ∈ caps \/ k ∈ pg_covered g -> k ∈ pg_covered g').
Proof.
  induction caps as [|c caps IH]; intros r g g' Hg Hs Hr Hin; cbn [plan_all].
  - intros [= <-]. split; [by exists r|]. intros k [[]%elem_of_nil|H]; done.
  - destruct (plan_cap _ _ _ _ c g) as [g1|] eqn:E; [|done]. cbn [mbind result_bind]. intros H.
    apply Forall_cons in Hr as [Hrc Hr]. apply StronglySorted_inv in Hs as [Hs Hc].
    destruct (plan_cap_ok r c g g1 Hg Hrc (Hin c ltac:(by left)) E) as (H1 & H2 & H3).
    destruct (IH (rank c) g1 g' H1 Hs Hc (fun k Hk => Hin k ltac:(by right)) H) as [H4 H5]. split; [done|].
    intros k [[->|Hk]%elem_of_cons|Hk]; apply H5; auto.
Qed.
End PlanOk.

Lemma insert_cap_in leb x l k : k ∈ insert_cap leb x l <-> k = x \/ k ∈ l.
Proof.
  induction l as [|y l IH]; cbn [insert_cap]; [by rewrite !elem_of_cons|]. destruct (leb x y); rewrite !elem_of_cons; [done|].
  rewrite IH. tauto.
Qed.

Lemma sorted_in leb l k : k ∈ fold_right (insert_cap leb) [] l <-> k ∈ l.
Proof. induction l as [|x l IH]; cbn; [done|]. rewrite insert_cap_in, IH, elem_of_cons. done. Qed.

Lemma sorted_by_rank values l :
  StronglySorted (fun a b => cap_rank a (field values a) <= cap_rank b (field values b))
    (fold_right (insert_cap (request_leb values)) [] l).
Proof.
  induction l as [|x l IH]; cbn [fold_right]; [constructor|]. revert IH. generalize (fold_right (insert_cap (request_leb values)) [] l) as m.
  intros m. induction 1 as [|y m Hm IH Hy]; cbn [insert_cap]; [by repeat constructor|].
  unfold request_leb at 1. destruct (_ || _) eqn:E.
  - assert (cap_rank x (field values x) <= cap_rank y (field values y)) by lia. constructor; [by constructor|].
    constructor; [done|]. eapply Forall_impl; [exact Hy|]. cbn. lia.
  - constructor; [done|]. rewrite Forall_forall. intros k [->|Hk]%insert_cap_in; [lia|].
    rewrite Forall_forall in Hy. by apply Hy.
Qed.

Lemma push_requested (l : list string) : forall out l', push_all Ok 256 l out = Ok l' -> l' = out ++ l.
Proof.
  induction l as [|x l IH]; intros out l'; cbn [push_all]; [intros [= <-]; by rewrite app_nil_r|].
  cbn [mbind result_bind]. unfold push. destruct (256 <=? Z.of_nat (length out)); cbn [mbind result_bind]; [done|].
  intros E. rewrite (IH _ _ E), <- app_assoc. done.
Qed.

(** A request is planned as a whole: every capability that was asked for, and no other, is carried
    out by a command or refused with its reason; what one command does together is on the one
    endpoint it is sent to; and the commands are in an order in which switching on comes before
    everything and switching off after everything. *)
Theorem plan_answers_every_capability device values o p :
  as_object values = Some o -> plan device values = Ok p ->
  (forall cap, cap ∈ map fst o <-> (exists q, q ∈ pn_commands p /\ mentions q cap) \/ is_Some (get (pn_errors p) cap))
  /\ (forall q cap, q ∈ pn_commands p -> mentions q cap -> endpoint device cap = Im.cp_endpoint (c_path (pl_command q)))
  /\ StronglySorted (before values) (pn_commands p).
Proof.
  intros Eo. unfold plan. rewrite Eo. cbn [ok_or mbind result_bind].
  destruct (core (push_all Ok 256 (map fst o) [])) as [caps|] eqn:Ec; [|done]. cbn [mbind result_bind].
  apply core_Ok, push_requested in Ec. cbn in Ec. subst caps.
  destruct (ids _) as [servers|]; [|done]. cbn [mbind result_bind].
  set (caps := fold_right _ [] _). destruct (plan_all device values caps servers caps _) as [g|] eqn:E; [|done].
  cbn [mbind result_bind]. intros [= <-]. cbn [pn_commands pn_errors].
  destruct (plan_all_ok device values caps servers caps 0 (mk_progress [] [] object) g) as [[r [H1 H2 H3 H4 H5]] H6]; try done.
  - split; cbn; try done; try (by intros ? ? ?%elem_of_nil); try (by intros ? ?%elem_of_nil); [|constructor].
    intros k. split; [by intros ?%elem_of_nil|]. intros [(q & ?%elem_of_nil & _)|[? [=]]]; done.
  - apply sorted_by_rank.
  - rewrite Forall_forall. intros k _. unfold cap_rank. destruct (negb _); [lia|]. destruct (bool_decide _); lia.
  - split; [|done]. intros cap. rewrite <- H2. rewrite <- (sorted_in (request_leb values)). split; auto.
Qed.

(** ** A command is done when it was acknowledged exactly once *)

Lemma status_result_Ok s : Im.Status_result s = Ok tt <-> Im.st_global s = 0.
Proof.
  unfold Im.Status_result. destruct (Z.eqb_spec (Im.st_global s) 0); [done|]. split; [|done].
  destruct (Tlv.from_core _); done.
Qed.

Lemma count_results_Ok path l : forall n m,
  count_results path l n = Ok m
  <-> m = n + Z.of_nat (length l) /\ Forall (fun r => Im.st_global (Im.ir_status r) = 0 /\ Im.ir_path r = path) l.
Proof.
  induction l as [|r l IH]; intros n m; cbn [count_results length].
  { rewrite Z.add_0_r. split; [intros [= ->]; done|intros [-> _]; done]. }
  rewrite Forall_cons. destruct (Im.Status_result _) as [[]|] eqn:E; cbn [mbind result_bind].
  - apply status_result_Ok in E. case_bool_decide as Hp; [rewrite IH|split; [done|tauto]].
    rewrite Nat2Z.inj_succ. split; [intros (-> & H)|intros (-> & _ & H)]; (split; [lia|tauto]).
  - split; [done|]. intros (_ & (H & _) & _). apply status_result_Ok in H. congruence.
Qed.

(** The results of all chunks, when each can be read. *)
Fixpoint all_results (l : list (Answer Im.InvokeResponse)) : option (list Im.InvokeResult) :=
  match l with
  | [] => Some []
  | Ok c :: l => app (Im.is_results c) <$> all_results l
  | Err _ :: _ => None
  end.

Lemma count_chunks_Ok path l : forall n m,
  count_chunks path l n = Ok m
  <-> exists rs, all_results l = Some rs /\ m = n + Z.of_nat (length rs)
      /\ Forall (fun r => Im.st_global (Im.ir_status r) = 0 /\ Im.ir_path r = path) rs.
Proof.
  induction l as [|[c|e] l IH]; intros n m; cbn [count_chunks all_results mbind result_bind].
  - split; [intros [= <-]; exists []; split_and!; [done|cbn; lia|constructor]|].
    intros (rs & [= <-] & -> & _). f_equal. cbn. lia.
  - split.
    + destruct (count_results _ _ _) as [k|] eqn:E; cbn [mbind result_bind]; [|done].
      apply count_results_Ok in E as [-> H]. intros (rs & -> & -> & H')%IH. exists (Im.is_results c ++ rs).
      split_and!; [done|rewrite length_app; lia|by apply Forall_app].
    + intros (rs & E & -> & H). destruct (all_results l) as [r2|]; [|done]. injection E as <-.
      apply Forall_app in H as [H1 H2].
      rewrite (proj2 (count_results_Ok path (Im.is_results c) n _) (conj eq_refl H1)).
      cbn [mbind result_bind]. apply IH. exists r2. split_and!; [done|rewrite length_app; lia|done].
  - split; [done|]. by intros (? & ? & _).
Qed.

(** A command counts as carried out exactly when all chunks of the answer can be read and hold one
    result together, which is a success and names the command. *)
Lemma acknowledge_Ok p i :
  acknowledge p i = Ok tt
  <-> exists r, all_results (invoked_of i) = Some [r] /\ Im.st_global (Im.ir_status r) = 0
      /\ Im.ir_path r = c_path (pl_command p).
Proof.
  unfold acknowledge. split.
  - destruct (count_chunks _ _ _) as [k|] eqn:E; cbn [mbind result_bind]; [|done].
    apply count_chunks_Ok in E as (rs & E & -> & H). destruct (Z.eqb_spec (0 + Z.of_nat (length rs)) 1); [|done].
    assert (length rs = 1%nat) as Hl by lia. destruct rs as [|r [|? ?]]; [done| |done]. intros _.
    apply Forall_singleton in H as [H1 H2]. by exists r.
  - intros (r & E & H1 & H2).
    rewrite (proj2 (count_chunks_Ok (c_path (pl_command p)) _ 0 1)); [done|]. exists [r]. split_and!; [done|done|by apply Forall_singleton].
Qed.

(** ** Witnesses: a lamp and a switch *)

Definition lamp : Value :=
  fields [("store", fields [("matter.endpoint", value_uint 1);
                            ("matter.serverClusters", VArray [VString "0x6"; VString "0x8"; VString "0x300"])])]%string.
Definition number_text (m e : Z) : Value := VNumber (Float (f64_of_decimal false m e)).
Definition lamp_request : Value :=
  fields [("onoff", VBool false); ("dim", number_text 11 (-1)); ("light_hue", number_text 3 (-1));
          ("light_saturation", number_text 8 (-1))]%string.

(** Color in one command, an impossible level refused, and switching off at the end. *)
Definition lamp_plan : Plan := match plan lamp lamp_request with Ok p => p | Err _ => mk_plan [] object end.

Example lamp_plan_order :
  map (fun p => (Im.cp_cluster (c_path (pl_command p)), Im.cp_command (c_path (pl_command p)), c_fields (pl_command p)))
    (pn_commands lamp_plan)
  = [(768, 6, [21; 36; 0; 76; 36; 1; 203; 37; 2; 0; 0; 36; 3; 0; 36; 4; 0; 24]); (6, 0, [21; 24])].
Proof. vm_compute. reflexivity. Qed.

Lemma plan_answers_every_capability_witness :
  plan lamp lamp_request = Ok lamp_plan
  /\ ((exists q, q ∈ pn_commands lamp_plan /\ mentions q "dim") \/ is_Some (get (pn_errors lamp_plan) "dim"))
  /\ StronglySorted (before lamp_request) (pn_commands lamp_plan).
Proof.
  assert (plan lamp lamp_request = Ok lamp_plan) as E by (vm_compute; reflexivity).
  destruct (plan_answers_every_capability lamp lamp_request _ lamp_plan eq_refl E) as (H1 & _ & H3).
  split; [exact E|]. split; [|exact H3]. apply H1. right. left.
Defined.

Definition wall_switch : Value :=
  fields [("id", VString "switch"); ("name", VString "Hall"); ("capabilities", VArray [VString "button.2"; VString "onoff"]);
          ("state", fields [("button.2", VBool true)]);
          ("store", fields [("matter.nodeId", VString "0000000000010000"); ("matter.endpoint", value_uint 1);
                            ("matter.capabilityEndpoints", fields [("button.2", value_uint 5); ("onoff", value_uint 1)]);
                            ("matter.serverClusters", VArray [VString "0x6"; VString "0x3B"])])]%string.

Definition switch_event (number event : Z) : Im.Event :=
  Im.mk_event (Im.mk_event_path None (Some 5) (Some 59) (Some event) None) number 1 (Some (4, 42))
    (Some (Tlv.mk_node (Tlv.mk_element Tlv.Anonymous Tlv.Structure) [Im.leaf 0 (Tlv.Uint 1)])) None.

Definition switch_chunk : list Z :=
  match Im.Report_encode (Im.mk_report (Some 123) []
          [switch_event 9007199254740993 1; switch_event 9007199254740993 1; switch_event 9007199254740994 2] false false) with
  | Ok b => b
  | Err _ => []
  end.
Definition switch_report : Reports := mk_reports [switch_chunk] 0 (Some 123).

(** The report of a switch, twice: the first starts three Flows, the second none. *)
Lemma events_start_flows_once_witness :
  map fl_card (all_started wall_switch [Received switch_report; Received switch_report])
  = ["capability.button.2.on"; "matter_event"; "matter_event"]%string
  /\ exists ns, bursts ns (all_started wall_switch [Received switch_report; Received switch_report]) /\ StronglySorted Z.lt ns.
Proof.
  split; [vm_compute; reflexivity|].
  destruct (events_start_flows_once wall_switch [Received switch_report; Received switch_report]) as (ns & H1 & H2 & _).
  - assert (bytes_ok switch_report) as Hb.
    { constructor; [|constructor]. apply (bool_decide_unpack (Forall (fun b => 0 <= b < 256) switch_chunk)). vm_compute. exact I. }
    repeat split; exact Hb.
  - exists ns. split; [exact H1|exact H2].
Defined.
